(* ===== verification/_CoqProject ===== *)
-Q . S2P
Prelude.v
StdMap.v
Tlv.v
Block.v
Encoder.v
Elements.v
NameComponent.v
Name.v
KeyLocator.v
Exclude.v
MetaInfo.v
SignatureInfo.v
Packet.v
DataPacket.v
Link.v
InterestPacket.v
CsEntry.v
CsPolicy.v
Cs.v
NameTree.v
Enumerate.v
FibEntry.v
PitEntry.v
DeadNonceList.v
City.v
Tables.v
Pit.v
Fib.v
StrategyChoice.v
Measurements.v
Forwarder.v
ForwarderInv.v
ForwarderProps.v
Strategies.v
BestRoute2.v
LpPacket.v
LpFragmenter.v
LpReassembler.v
LinkService.v
Transport.v
RibEntry.v
Rib.v
RibTree.v
RibProps.v
RibQueue.v
FibUpdater.v
FibExchange.v
ControlParameters.v
Management.v
Dataset.v
Segments.v
FaceUri.v
Faces.v
Channels.v
FaceManager.v
FaceProps.v
FaceMachine.v
RibManager.v
Propagator.v
PropagatorProps.v
