(* ===== verification/Prelude.v ===== *)
(** * The NDN forwarder of the icn_demo_Android application

    The repository is an Android application that runs a Named Data Networking
    forwarder (NFD) on the phone.  Its own core logic is C++ under
    [app/src/main/jni]: the packet library [ndn-cxx] and the forwarder [NFD].
    This library models that core: the encoding of packets, names and their
    order, the link layer that carries packets over a face, the tables of the
    forwarder, the forwarding pipelines, the strategies, and the routing
    information base that feeds the forwarding table.

    A packet that arrives on a face goes through the link service
    ([LinkService]: it is decoded, and put together if it was fragmented), then
    through a pipeline of [Forwarder], which reads and changes the tables and
    asks a strategy of [Strategies] where to send an Interest; what is sent goes
    through the link service of another face.  Next to it, applications register
    prefixes: an update waits in the queue of [Rib], [FibUpdater] computes the
    commands for the FIB, and when the forwarder has answered them the RIB changes.

    ** The parts and their files

    - [Prelude]: the result monad for code that throws, bytes and machine
      integers, list lemmas, tactics and the hint databases.
    - [StdMap]: [std::map] as a sorted association list over a total comparison.
    - [Tlv]: [encoding/tlv.hpp], variable-size numbers and non-negative integers.
    - [Block]: [encoding/block.cpp], decoding, parsing, updating and encoding of
      TLV blocks; a block is its buffer, its value and its sub-blocks.
    - [Encoder]: [encoding/encoder.cpp], [estimator.cpp] and [block-helpers.cpp].
      Both implement the type class [EncodingImpl]; a client that is generic in
      it (as the C++ templates are) is proved once against [EncodingLaws].
    - [Elements]: what the encoders and decoders of packets share: sequences of
      elements, and [Encodes], which says of a generic encoder what it writes.
    - [NameComponent], [Name]: [name-component.cpp], [name.cpp] and the part of
      [util/string-helper.cpp] they use.
    - [Exclude], [Packet]: [exclude.cpp], and the parts of [interest.cpp],
      [selectors.cpp] and [data.cpp] that forwarding relies on.
    - [KeyLocator], [MetaInfo], [SignatureInfo], [DataPacket], [Link],
      [InterestPacket]: the packets with the blocks they are decoded from, as in
      [key-locator.cpp], [meta-info.cpp], [signature-info.cpp], [signature.cpp],
      [data.cpp], [link.cpp], [interest.cpp] and [selectors.cpp].  [Data_view]
      and [Interest_view] are what the forwarder reads of them.
    - [CsEntry], [CsPolicy], [Cs]: [daemon/table/cs*.cpp], the content store;
      the store is proved against the interface of a replacement policy, which
      the LRU and the priority-FIFO policies implement.
    - [NameTree]: [table/name-tree.cpp], a hash table of all prefixes, whose
      entries carry a payload; [Tables] is the payload NFD attaches (FIB entry,
      PIT entries, measurements and strategy) and the tables that share the tree.
      [Enumerate] is the iterator over a part of the tree.
    - [FibEntry], [PitEntry], [DeadNonceList], [Pit], [Fib], [StrategyChoice],
      [Measurements]: the files of the same names under [daemon/table], the last
      with [measurements-accessor.cpp].
    - [Forwarder]: [fw/forwarder.cpp] and [fw/face-table.cpp]; [ForwarderInv] and
      [ForwarderProps] are its invariant and its properties.
    - [Strategies], [BestRoute2]: the strategies under [daemon/fw] that need no
      measurements, with the suppression of retransmissions
      ([retx-suppression*.cpp]) and the Nacks of [best-route-strategy2.cpp].
    - [LpPacket]: [lp/packet.cpp] and [lp/detail], link packets as ordered fields;
      [LpFragmenter] and [LpReassembler]: the files of these names under
      [daemon/face]; [LinkService]: [generic-link-service.cpp],
      [link-service.cpp], [lp/nack-header.cpp] and [lp/cache-policy.cpp].
    - [Transport]: [face/transport.cpp], [stream-transport.hpp] and the reception of
      [datagram-transport.hpp]; the socket is the environment, whose completions
      are operations of the model.
    - [RibEntry], [Rib]: [NFD/rib/rib-entry.cpp] and [rib.cpp], the routes that
      applications register; [RibTree], [RibProps] and [RibQueue] prove what the
      tree of entries, the table and the queue of updates do.
    - [FibUpdater]: [NFD/rib/fib-updater.cpp], which turns an update of the RIB into
      commands for the FIB of the forwarder; [FibExchange] is the exchange of
      commands and answers.
    - [ControlParameters], [Management]: the management commands of
      [ndn-cxx/src/management] and [ndn-cxx/src/mgmt/dispatcher.cpp], and the
      managers of the FIB and of the strategy choice under [NFD/daemon/mgmt];
      they carry the next hops of the RIB into the FIB.
    - [City]: [NFD/core/city-hash.cpp], the hash functions, with every read of the
      buffer; an instance of the parameters [CityHash] and [CityHashSeed].
    - [Dataset]: the items of the status datasets, [management/nfd-*.cpp];
      [Segments]: [mgmt/status-dataset-context.cpp], [mgmt/dispatcher.cpp],
      [NFD/core/segment-publisher.hpp] and [util/segment-fetcher.cpp], which carry
      them in segments.
    - [FaceUri]: [util/face-uri.cpp] and [util/ethernet.cpp].
    - [Faces]: [face/face.cpp], [face/transport.cpp], [face/channel.cpp],
      [fw/face-table.cpp] and the persistency of the transports; [Channels]: the
      UDP and TCP channels and factories; [FaceManager]: [mgmt/face-manager.cpp].
      [FaceProps] is their invariant, [FaceMachine] the machine of their steps and
      its properties.
    - [RibManager]: [NFD/rib/rib-manager.cpp], the commands that register and
      unregister a prefix, and what it does when faces go.
    - [Propagator]: [NFD/rib/auto-prefix-propagator.cpp] and [propagated-entry.cpp],
      the registration of local prefixes with a remote hub; [PropagatorProps] is its
      invariant and its properties.

    ** How the code is represented

    Integers are [Z] with the wrap-around written where the width matters;
    bytes are lists of [Z] between 0 and 255; an exception is a value of
    [error].  Pointers to PIT entries are keys of a heap, since records on them
    are updated in place through many pointers; a pointer to a face is a number.
    Every loop that is not structural has fuel that is computed from its input
    (the length of the buffer, of the name, or of the table; the chain of parents
    and the depth of the tree of the RIB are at most the size of the table; an
    enumeration takes two passes for each entry of the tree; the propagator handles
    a name again only after it has erased an entry), and the theorems
    show results, not only partial correctness: they state that the operation
    returns and what it returns.  [now] is the value of the steady clock, the
    same during one pipeline.

    Code outside the repository, and hash functions, are parameters with what
    the code relies on: [Sha256] (a digest of 32 bytes), [CityHash] and
    [CityHashSeed] (64-bit values; [City] implements them), [StdSort] ([std::sort]
    sorts), [Rng] (32-bit numbers), [IpAddress] and [IpAddresses] (addresses of
    Boost), [Scanf] and [ConfigNumbers] (numbers from text), the signature of a
    packet.  Each has a sample instance that the examples run.  What a socket or a
    timer does is an argument of the operation that handles it.

    ** What is shown

    - Encoding: numbers, blocks, names, exclude filters survive encoding and
      decoding; the decoders agree; the encoder's buffer holds exactly the bytes
      of the specification however often it is reallocated.
    - Packets: Interests, Data, links and link packets survive encoding and
      decoding; changing a nonce in the buffer is the same as encoding anew.
    - Link layer: an Interest or Data that is sent goes out in packets within the
      MTU, and a receiver that gets them in any order delivers it once, also when
      fragments before the last to arrive are repeated (a packet that was not cut is
      delivered at each arrival); the state of the reassembler stays sound whatever
      arrives.
    - Names: the canonical order is the order of the protocol, prefixes form
      ranges in it, and URIs are read back.
    - Content store: for Interests and Data without an implicit digest in the name, a
      lookup returns what a scan of the whole table with the Interest's selectors
      would select; insertion keeps the table sorted, in
      step with the policy and below the limit; what each policy evicts.
    - Name tree, FIB, PIT, strategy choice, dead nonce list: every operation
      keeps the invariant of the table and does what an abstract table (a
      function of names) prescribes.  The names are generic ones here and in the
      theorems of the forwarder: two components with the same bytes and different
      types are equal for [Component::equals] and distinct for the order, and theorems
      of their own show what goes wrong with a name that ends with a digest.  The
      iterator without a stack yields a
      pre-order of the part of the tree that is to be visited; when the choice of a
      strategy changes, what strategies placed on PIT entries and measurements is
      dropped exactly where the effective strategy is another one; measurements
      live until the latest time asked for, and a strategy sees its own.
    - Forwarder: in every reachable state the scope is respected and the tables
      agree; what each pipeline does in each case; strategies choose among the
      eligible next hops.
    - Transports: the elements of a byte stream are delivered as they were sent
      however the stream is cut; packets are written in order; no sequence of
      operations throws as long as the buffer is not full of garbage.
    - RIB: it is a map from names to routes, arranged in the tree of longest
      prefixes; the updates that succeeded, replayed in the order of submission,
      give its contents; the routes a name inherits are those its prefixes allow;
      the FIB updates stay in the name space of the update, and their computation
      reads freed memory exactly when one of several routes over a face is
      unregistered; the exchange with the forwarder ends, after a bounded number of
      answers, and it is said how often the RIB is told of its success or failure.
    - Management: a command survives the way from its parameters to the name of
      an Interest and back; what is accepted and what is refused; a next hop sent
      by the RIB changes that next hop in the FIB and nothing else; a command to
      register a prefix ends, if the FIB accepts it, as that route of the RIB.
    - Status datasets and segments: an item of each class survives encoding and
      decoding (but for times below a millisecond); the
      blocks a handler appends are fetched whole by a client, whichever segment it
      gets first; the hash functions read inside the buffer.
    - Faces: in every state that commands, sockets and timers lead to, the face
      table has exactly the faces that are not closed, under their ids, and the
      channels hold no face that is closed; each command is answered once, unless an
      attempt to connect ends after its timeout or the port throws; a face
      that is destroyed leaves the table and the FIB.
    - Prefix propagation: in every state that names, answers and timers lead to,
      the prefixes propagated are those of the names in the RIB, and it is said
      exactly where an assertion of the code fails.
    - Several theorems state what the code does where that is not what it means
      to do; their comments say so.

    ** Not modelled

    Sockets, the Unix, Ethernet and WebSocket channels, cryptographic signatures
    and key storage, the status of the forwarder, the client library, regular
    expressions, the command-line tools and the Java part: they are input and
    output, or wrappers of libraries; so are the reading of configuration files and
    the fetching of the list of active faces.  The
    strategies that use the measurements table (access and NCC), with their timers
    and round-trip estimates, are left for later.
    The bodies of [cryptopp] and [websocketpp] are third-party code. *)

From stdpp Require Export base list list_numbers numbers option strings gmap sorting.
From Stdlib Require Export ZArith Lia.

#[global] Open Scope Z_scope.

(** ** Errors and the result monad

    A C++ operation that can throw is a function into [result]; the
    constructor of [error] names the exception and its message. *)

Inductive error : Set :=
| EmptyBuffer            (** tlv::Error, Empty buffer during TLV processing *)
| InsufficientData       (** tlv::Error, Insufficient data during TLV processing *)
| TypeTooLarge           (** tlv::Error, TLV type code exceeds allowed maximum *)
| BadIntegerLength       (** tlv::Error, Invalid length for nonNegativeInteger *)
| LengthMismatch         (** tlv::Error, TLV length doesn't match buffer length *)
| NotEnoughData          (** tlv::Error, Not enough data in the buffer *)
| LengthExceedsBuffer    (** tlv::Error, TLV length exceeds buffer length *)
| NoWire                 (** Block::Error, Underlying wire buffer is empty *)
| NoValue                (** Block::Error, Underlying value buffer is empty *)
| NoSize                 (** Block::Error, Block size cannot be determined *)
| NoSuchType             (** Block::Error, Requested a non-existed type *)
| NotInBuffer            (** Block::Error, begin/end iterators do not point ... *)
| ComponentError         (** name::Component::Error *)
| NameError              (** Name::Error and the tlv::Error of Name::wireDecode *)
| ExcludeError           (** Exclude::Error *)
| PacketError            (** Interest::Error, Data::Error, Selectors::Error *)
| OutOfRange             (** std::out_of_range and reads outside a container *)
| InvalidArgument        (** std::invalid_argument *)
| LengthError            (** std::length_error *)
| RuntimeError           (** std::runtime_error *)
| DomainError            (** std::domain_error *)
| LpError                (** lp::Packet::Error and the tlv::Error of the fields *)
| BadCast                (** boost::bad_lexical_cast *)
| AssertFailed           (** BOOST_ASSERT *)
| NullPointer            (** a null pointer is dereferenced *)
| UseAfterFree           (** an object is read after its storage was released *)
| OutOfFuel.             (** the bound of a loop of the model, never a result of the code *)

Inductive result (A : Type) : Type :=
| Ok (a : A)
| Err (e : error).
Arguments Ok {A} _.
Arguments Err {A} _.

Definition rbind {A B} (m : result A) (f : A -> result B) : result B :=
  match m with Ok a => f a | Err e => Err e end.

Definition rret {A} (a : A) : result A := Ok a.

Definition is_ok {A} (m : result A) : bool :=
  match m with Ok _ => true | Err _ => false end.

Declare Scope ndn_scope.
Delimit Scope ndn_scope with ndn.
Notation "'let!' x ':=' m 'in' k" := (rbind m (fun x => k))
  (at level 10, x pattern, m at level 100, k at level 200) : ndn_scope.
#[global] Open Scope ndn_scope.

Lemma rbind_Ok {A B} (m : result A) (f : A -> result B) b :
  rbind m f = Ok b <-> exists a, m = Ok a /\ f a = Ok b.
Proof. destruct m; simpl; split; [eauto | intros (?&?&?); congruence | done | intros (?&?&?); done]. Qed.

#[global] Instance error_eq_dec : EqDecision error.
Proof. solve_decision. Defined.

#[global] Instance result_eq_dec {A} `{EqDecision A} : EqDecision (result A).
Proof. solve_decision. Defined.

(** ** The state monad of the stateful code *)

Definition state (S A : Type) : Type := S -> A * S.
Definition sret {S A} (a : A) : state S A := fun s => (a, s).
Definition sbind {S A B} (m : state S A) (f : A -> state S B) : state S B :=
  fun s => let '(a, s') := m s in f a s'.
Notation "'let~' x ':=' m 'in' k" := (sbind m (fun x => k))
  (at level 10, x pattern, m at level 100, k at level 200) : ndn_scope.

(** ** Machine integers *)

Definition U8 : Z := 2 ^ 8.
Definition U16 : Z := 2 ^ 16.
Definition U32 : Z := 2 ^ 32.
Definition U64 : Z := 2 ^ 64.
(** [std::numeric_limits<uintN_t>::max()] *)
Definition u8_max : Z := U8 - 1.
Definition u16_max : Z := U16 - 1.
Definition u32_max : Z := U32 - 1.
Definition u64_max : Z := U64 - 1.
(** [static_cast<uint64_t>] *)
Definition to_u64 (z : Z) : Z := z mod U64.
(** Conversion to [int64_t], [int32_t] and [uint32_t] *)
Definition to_s64 (z : Z) : Z := (z + 2 ^ 63) mod 2 ^ 64 - 2 ^ 63.
Definition to_s32 (z : Z) : Z := (z + 2 ^ 31) mod 2 ^ 32 - 2 ^ 31.
Definition to_u32 (z : Z) : Z := z mod U32.
(** A value of [uint64_t], and of [uint32_t] *)
Definition uint64 (k : Z) : Prop := 0 <= k < U64.
Definition uint32 (k : Z) : Prop := 0 <= k < U32.
#[global] Instance uint64_dec k : Decision (uint64 k).
Proof. unfold uint64. apply _. Defined.

Lemma to_s64_id z : - 2 ^ 63 <= z < 2 ^ 63 -> to_s64 z = z.
Proof. intros Hz. unfold to_s64. rewrite Z.mod_small by lia. lia. Qed.
Lemma to_s32_id z : - 2 ^ 31 <= z < 2 ^ 31 -> to_s32 z = z.
Proof. intros Hz. unfold to_s32. rewrite Z.mod_small by lia. lia. Qed.

Ltac unfold_width :=
  unfold u8_max, u16_max, u32_max, u64_max, U8, U16, U32, U64 in *;
  change (2 ^ 8) with 256 in *; change (2 ^ 16) with 65536 in *;
  change (2 ^ 32) with 4294967296 in *;
  change (2 ^ 64) with 18446744073709551616 in *.

(** Arithmetic on the widths, and on [Z.of_nat] of lengths. *)
Ltac width_lia := unfold_width; lia.

(** ** Tactics *)

(** Case analysis on the boolean tests of the code, turned into arithmetic. *)
Ltac case_bool :=
  match goal with
  | |- context [if (?a <? ?b)%Z then _ else _] => destruct (Z.ltb_spec a b)
  | |- context [if (?a <=? ?b)%Z then _ else _] => destruct (Z.leb_spec a b)
  | |- context [if (?a =? ?b)%Z then _ else _] => destruct (Z.eqb_spec a b)
  | |- context [if (?a <? ?b)%nat then _ else _] => destruct (Nat.ltb_spec a b)
  | |- context [if (?a <=? ?b)%nat then _ else _] => destruct (Nat.leb_spec a b)
  | |- context [if (?a =? ?b)%nat then _ else _] => destruct (Nat.eqb_spec a b)
  | H : context [if (?a <? ?b)%Z then _ else _] |- _ => destruct (Z.ltb_spec a b)
  | H : context [if (?a <=? ?b)%Z then _ else _] |- _ => destruct (Z.leb_spec a b)
  | H : context [if (?a =? ?b)%Z then _ else _] |- _ => destruct (Z.eqb_spec a b)
  | H : context [if (?a <? ?b)%nat then _ else _] |- _ => destruct (Nat.ltb_spec a b)
  | H : context [if (?a <=? ?b)%nat then _ else _] |- _ => destruct (Nat.leb_spec a b)
  | H : context [if (?a =? ?b)%nat then _ else _] |- _ => destruct (Nat.eqb_spec a b)
  end.

(** A decidable statement on concrete data, by evaluation. *)
Ltac by_decide := apply (bool_decide_unpack _); vm_compute; exact I.

Create HintDb ndn discriminated.

(** ** Bytes

    A [uint8_t] is a [Z] of [[0, 256)]; a buffer is a list of them. *)

Definition is_byte (b : Z) : Prop := 0 <= b < 256.
Abbreviation bytes := (list Z) (only parsing).
Definition wf_bytes (l : list Z) : Prop := Forall is_byte l.

#[global] Instance is_byte_dec b : Decision (is_byte b).
Proof. unfold is_byte. apply _. Defined.
#[global] Instance wf_bytes_dec l : Decision (wf_bytes l).
Proof. unfold wf_bytes. apply _. Defined.

Lemma wf_bytes_app l1 l2 : wf_bytes (l1 ++ l2) <-> wf_bytes l1 /\ wf_bytes l2.
Proof. apply Forall_app. Qed.

Lemma wf_bytes_cons b l : wf_bytes (b :: l) <-> is_byte b /\ wf_bytes l.
Proof. apply Forall_cons. Qed.

Lemma wf_bytes_take n l : wf_bytes l -> wf_bytes (take n l).
Proof. apply Forall_take. Qed.

Lemma wf_bytes_drop n l : wf_bytes l -> wf_bytes (drop n l).
Proof. apply Forall_drop. Qed.
#[export] Hint Resolve wf_bytes_take wf_bytes_drop : ndn.

(** [len l] is the [size_t] a container reports. *)
Definition len {A} (l : list A) : Z := Z.of_nat (length l).

Lemma len_app {A} (l1 l2 : list A) : len (l1 ++ l2) = len l1 + len l2.
Proof. unfold len. rewrite length_app. lia. Qed.
Lemma len_cons {A} (x : A) l : len (x :: l) = 1 + len l.
Proof. unfold len. rewrite length_cons. lia. Qed.
Lemma len_nil {A} : len ([] : list A) = 0.
Proof. done. Qed.
Lemma len_nonneg {A} (l : list A) : 0 <= len l.
Proof. unfold len. lia. Qed.
#[export] Hint Resolve len_nonneg : ndn.
Create Rewrite HintDb len.
#[export] Hint Rewrite @len_app @len_cons @len_nil : len.

(** [lia] with the lengths known to be non-negative. *)
Ltac len_pos :=
  repeat match goal with
  | |- context [len ?l] =>
      lazymatch goal with H : 0 <= len l |- _ => fail | _ => pose proof (len_nonneg l) end
  | _ : context [len ?l] |- _ =>
      lazymatch goal with H : 0 <= len l |- _ => fail | _ => pose proof (len_nonneg l) end
  end.
Ltac len_lia := len_pos; lia.

Ltac simpl_len := autorewrite with len in *; try unfold len in *.

(** Big-endian encoding on [n] bytes, [htobeN] then a byte copy, and its
    inverse, a load then [beNtoh]. *)
Fixpoint be_encode (n : nat) (v : Z) : list Z :=
  match n with
  | O => []
  | S n' => (v / 256 ^ Z.of_nat n') mod 256 :: be_encode n' v
  end.

Definition be_decode (l : list Z) : Z := fold_left (fun acc b => acc * 256 + b) l 0.

Lemma length_be_encode n v : length (be_encode n v) = n.
Proof. induction n; simpl; congruence. Qed.

Lemma wf_be_encode n v : wf_bytes (be_encode n v).
Proof.
  induction n; simpl; constructor; [|done].
  unfold is_byte. pose proof (Z.mod_pos_bound (v / 256 ^ Z.of_nat n) 256). lia.
Qed.
#[export] Hint Resolve wf_be_encode : ndn.

Lemma pow256_pos n : 0 < 256 ^ Z.of_nat n.
Proof. apply Z.pow_pos_nonneg; lia. Qed.

Lemma fold_be_acc l acc :
  fold_left (fun acc b => acc * 256 + b) l acc = acc * 256 ^ len l + be_decode l.
Proof.
  unfold be_decode. revert acc. induction l as [|b l IH]; intros acc; cbn [fold_left].
  - rewrite len_nil. lia.
  - rewrite IH, (IH (0 * 256 + b)), len_cons, Z.pow_add_r by (unfold len; lia). lia.
Qed.

Lemma be_decode_cons b l : be_decode (b :: l) = b * 256 ^ len l + be_decode l.
Proof. unfold be_decode at 1. simpl. rewrite fold_be_acc. lia. Qed.

Lemma be_decode_bounds l : wf_bytes l -> 0 <= be_decode l < 256 ^ len l.
Proof.
  induction 1 as [|b l Hb _ IH]; [done|].
  rewrite be_decode_cons, len_cons, Z.pow_add_r by (unfold len; lia).
  unfold is_byte in Hb. nia.
Qed.

Lemma be_decode_encode n v : 0 <= v -> be_decode (be_encode n v) = v mod 256 ^ Z.of_nat n.
Proof.
  intros Hv. induction n as [|n IH]; [by rewrite Z.mod_1_r|].
  cbn [be_encode]. rewrite be_decode_cons, IH. unfold len. rewrite length_be_encode.
  rewrite Nat2Z.inj_succ, Z.pow_succ_r, (Z.mul_comm 256) by lia.
  assert (0 < 256 ^ Z.of_nat n) by (apply Z.pow_pos_nonneg; lia).
  rewrite Z.rem_mul_r by lia. lia.
Qed.

Lemma be_encode_ext k u w :
  (forall m, (m < k)%nat -> (u / 256 ^ Z.of_nat m) mod 256 = (w / 256 ^ Z.of_nat m) mod 256) ->
  be_encode k u = be_encode k w.
Proof.
  induction k as [|k IH]; intros Hm; [done|]. cbn [be_encode].
  f_equal; [apply Hm; lia | apply IH; intros; apply Hm; lia].
Qed.

(** The low bytes of a number do not depend on what is added above them. *)
Lemma be_encode_high k b v : be_encode k (b * 256 ^ Z.of_nat k + v) = be_encode k v.
Proof.
  apply be_encode_ext. intros m Hm.
  pose proof (pow256_pos m).
  replace (b * 256 ^ Z.of_nat k + v)
    with (v + (b * 256 ^ (Z.of_nat k - Z.of_nat m - 1) * 256) * 256 ^ Z.of_nat m).
  2: { replace (256 ^ Z.of_nat k)
         with (256 ^ (Z.of_nat k - Z.of_nat m - 1) * 256 ^ 1 * 256 ^ Z.of_nat m).
       { rewrite Z.pow_1_r. ring. }
       rewrite <- !Z.pow_add_r by lia. f_equal. lia. }
  rewrite Z.div_add by lia. by rewrite Z.mod_add by lia.
Qed.

Lemma be_encode_decode l : wf_bytes l -> be_encode (length l) (be_decode l) = l.
Proof.
  induction 1 as [|b l Hb Hl IH]; [done|].
  cbn [be_encode length]. rewrite be_decode_cons. unfold len. rewrite be_encode_high, IH.
  pose proof (be_decode_bounds l Hl) as Hd. unfold is_byte, len in *.
  pose proof (pow256_pos (length l)).
  rewrite Z.div_add_l, Z.div_small, Z.add_0_r, Z.mod_small by lia. done.
Qed.

(** ** Lists *)

(** [slice i j l] is the range [[i, j)] of [l], as iterators give it. *)
Definition slice {A} (i j : nat) (l : list A) : list A := take (j - i) (drop i l).

Lemma length_slice {A} i j (l : list A) :
  (i <= j)%nat -> (j <= length l)%nat -> length (slice i j l) = (j - i)%nat.
Proof. intros. unfold slice. rewrite length_take, length_drop. lia. Qed.

Lemma slice_all {A} (l : list A) : slice 0 (length l) l = l.
Proof. unfold slice. rewrite Nat.sub_0_r, drop_0. apply take_ge. lia. Qed.

Lemma slice_app_r {A} (pre l : list A) i j :
  slice (length pre + i) (length pre + j) (pre ++ l) = slice i j l.
Proof.
  unfold slice. rewrite drop_app_add'; [|done]. f_equal. lia.
Qed.

Lemma slice_app_l {A} (l post : list A) i j :
  (j <= length l)%nat -> slice i j (l ++ post) = slice i j l.
Proof.
  intros Hj. unfold slice. destruct (decide (i <= length l)%nat).
  - rewrite drop_app_le by lia. rewrite take_app_le; [done|]. rewrite length_drop. lia.
  - replace (j - i)%nat with 0%nat by lia. done.
Qed.

(** Choosing for every element of a list *)
Lemma list_choice {A B} (l : list A) : forall P : nat -> A -> B -> Prop, (forall k x, l !! k = Some x -> exists y, P k x y) ->
  exists l', length l' = length l /\ forall k x y, l !! k = Some x -> l' !! k = Some y -> P k x y.
Proof.
  induction l as [|x l IH]; intros P HP; [by exists []|]. destruct (HP 0%nat x eq_refl) as (y&Hy).
  destruct (IH (fun k => P (S k)) (fun k => HP (S k))) as (l'&Hl&Hall). exists (y :: l'). split; [simpl; congruence|].
  intros [|k] a b Ha Hb; [injection Ha as <-; by injection Hb as <-|by apply (Hall k)].
Qed.

(** ** Decisions *)

Lemma bool_decide_ext_if {A} (Q R : Prop) `{Decision Q} `{Decision R} (x y : A) : (Q <-> R) ->
  (if bool_decide Q then x else y) = (if bool_decide R then x else y).
Proof. intros HQ. by rewrite (bool_decide_ext Q R HQ). Qed.
