(* ===== verification/StdMap.v ===== *)
(** * The ordered associative containers of the standard library

    [std::map] and [std::set] keep their entries sorted by a comparison; the
    sources use them for the exclude filter, the content store, the RIB and
    the network region table.  A container is the list of its entries in
    iteration order; an iterator is the key it points to, [None] for [end()]
    (insertions and erasures of other entries leave an iterator valid, as in
    the C++ containers).  A set is a map to [unit]. *)
From S2P Require Import Prelude.

(** A comparison function returning a signed integer is a total order. *)
Class TotalCompare {A} (P : A -> Prop) (cmp : A -> A -> Z) : Prop := {
  cmp_refl a : cmp a a = 0;
  cmp_eq a b : P a -> P b -> cmp a b = 0 -> a = b;
  cmp_anti a b : P a -> P b -> Z.sgn (cmp b a) = - Z.sgn (cmp a b);
  cmp_trans a b c : P a -> P b -> P c -> cmp a b < 0 -> cmp b c < 0 -> cmp a c < 0
}.

Section StdMap.
Context {K V : Type} (cmp : K -> K -> Z).
Implicit Types (m : list (K * V)) (k : K).

Definition key_lt (a b : K) : bool := cmp a b <? 0.

(** The entries before [lower_bound(k)], and those from it on. *)
Fixpoint before k m : list (K * V) :=
  match m with
  | [] => []
  | e :: m' => if key_lt e.1 k then e :: before k m' else []
  end.

Fixpoint from k m : list (K * V) :=
  match m with
  | [] => []
  | e :: m' => if key_lt e.1 k then from k m' else m
  end.

Definition lower_bound k m : option (K * V) := head (from k m).

(** The entry whose key is equivalent to [k]. *)
Definition map_find k m : option (K * V) :=
  match lower_bound k m with
  | Some e => if key_lt k e.1 then None else Some e
  | None => None
  end.

(** [insert(make_pair(k, v))]: whether an entry was inserted is the [bool]
    of the result; an entry with an equivalent key is left as it is. *)
Definition map_insert k (v : V) m : list (K * V) * bool :=
  match map_find k m with
  | Some _ => (m, false)
  | None => (before k m ++ (k, v) :: from k m, true)
  end.

(** [it->second = v] *)
Definition map_set k (v : V) m : list (K * V) :=
  match from k m with
  | [] => m
  | e :: m' => before k m ++ (e.1, v) :: m'
  end.

(** [m[k] = v] *)
Definition map_assign k (v : V) m : list (K * V) :=
  match map_find k m with
  | Some e => map_set (e.1) v m
  | None => (map_insert k v m).1
  end.

(** The entries before an iterator, and those from it on. *)
Definition before_it (it : option K) m : list (K * V) :=
  match it with Some k => before k m | None => m end.
Definition from_it (it : option K) m : list (K * V) :=
  match it with Some k => from k m | None => [] end.

(** [++it] *)
Definition next_it k m : option K := fst <$> head (tail (from k m)).

(** [erase(first, last)] *)
Definition map_erase_range (first last : option K) m : list (K * V) :=
  before_it first m ++ from_it last m.

(** [erase(it)] *)
Definition map_erase k m : list (K * V) := before k m ++ tail (from k m).

Definition sorted_map m : Prop := StronglySorted (fun a b => cmp a.1 b.1 < 0) m.
End StdMap.

(** The order of [std::greater]. *)
Lemma flip_total {A} (P : A -> Prop) cmp :
  TotalCompare P cmp -> TotalCompare P (fun a b => cmp b a).
Proof.
  intros HT. constructor.
  - intros a. apply cmp_refl.
  - intros a b Ha Hb H. symmetry. by apply (cmp_eq b a).
  - intros a b Ha Hb. by apply cmp_anti.
  - intros a b c Ha Hb Hc H1 H2. by apply (cmp_trans c b a).
Qed.

(** A total order on a smaller set of keys. *)
Lemma total_weaken {A} (P Q : A -> Prop) cmp :
  (forall a, Q a -> P a) -> TotalCompare P cmp -> TotalCompare Q cmp.
Proof.
  intros H HT. constructor.
  - apply cmp_refl.
  - intros a b Ha Hb. apply cmp_eq; auto.
  - intros a b Ha Hb. apply cmp_anti; auto.
  - intros a b c Ha Hb Hc. apply cmp_trans; auto.
Qed.

Section Facts.
Context {K V : Type} {P : K -> Prop} {cmp : K -> K -> Z} `{!TotalCompare P cmp}.
Implicit Types (m : list (K * V)) (k : K).

(** The keys of a container. *)
Definition keys_in m : Prop := Forall (fun e => P e.1) m.

Lemma cmp_swap a b : P a -> P b -> cmp a b < 0 <-> 0 < cmp b a.
Proof. intros Ha Hb. pose proof (cmp_anti a b Ha Hb). lia. Qed.

Lemma cmp_0 a b : P a -> P b -> cmp a b = 0 <-> a = b.
Proof. intros Ha Hb. split; [by apply cmp_eq|intros ->; apply cmp_refl]. Qed.

Lemma cmp_le_trans a b c : P a -> P b -> P c -> cmp a b <= 0 -> cmp b c <= 0 -> cmp a c <= 0.
Proof.
  intros Ha Hb Hc H1 H2.
  destruct (Z.eq_dec (cmp a b) 0) as [E|]; [apply cmp_eq in E as ->; done|].
  destruct (Z.eq_dec (cmp b c) 0) as [E|]; [apply cmp_eq in E as ->; done|].
  pose proof (cmp_trans a b c Ha Hb Hc). lia.
Qed.

Lemma cmp_lt_le_trans a b c : P a -> P b -> P c -> cmp a b < 0 -> cmp b c <= 0 -> cmp a c < 0.
Proof.
  intros Ha Hb Hc H1 H2.
  destruct (Z.eq_dec (cmp b c) 0) as [E|]; [apply cmp_eq in E as ->; done|].
  apply (cmp_trans a b c); try done. lia.
Qed.

Lemma before_from k m : before cmp k m ++ from cmp k m = m.
Proof. induction m as [|e m IH]; simpl; [done|]. destruct (key_lt _ _ _); simpl; congruence. Qed.

Lemma before_lt k m : Forall (fun e => cmp e.1 k < 0) (before cmp k m).
Proof.
  induction m as [|e m IH]; simpl; [done|]. unfold key_lt. case_bool; by constructor.
Qed.

Lemma sorted_app m1 m2 :
  sorted_map cmp (m1 ++ m2) <->
    sorted_map cmp m1 /\ sorted_map cmp m2 /\ Forall (fun a => Forall (fun b => cmp a.1 b.1 < 0) m2) m1.
Proof.
  unfold sorted_map. induction m1 as [|e m1 IH]; simpl.
  - split; [intros ?; split_and!; [constructor|done..]|tauto].
  - split.
    + intros [Hs Hf]%StronglySorted_inv. apply IH in Hs as (?&?&?). apply Forall_app in Hf as [? ?].
      split_and!; [by constructor|done|by constructor].
    + intros (Hs&H2&Hc). apply StronglySorted_inv in Hs as [? ?]. apply Forall_cons in Hc as [? ?].
      constructor; [tauto|]. by apply Forall_app.
Qed.

Lemma sorted_cons e m :
  sorted_map cmp (e :: m) <-> sorted_map cmp m /\ Forall (fun b => cmp e.1 b.1 < 0) m.
Proof.
  split; [apply StronglySorted_inv|]. intros [? ?]. by constructor.
Qed.

Lemma from_ge k m : keys_in m -> P k -> sorted_map cmp m -> Forall (fun e => 0 <= cmp e.1 k) (from cmp k m).
Proof.
  intros HP Hk. induction m as [|e m IH]; intros Hs; simpl; [done|].
  apply sorted_cons in Hs as [Hs Hf]. apply Forall_cons in HP as [He HP].
  unfold key_lt. case_bool; [auto|]. constructor; [lia|].
  apply Forall_forall. intros x Hx. rewrite Forall_forall in Hf, HP.
  specialize (Hf x Hx). specialize (HP x Hx). simpl in *.
  destruct (Z_lt_le_dec (cmp x.1 k) 0) as [Hlt|]; [|done].
  pose proof (cmp_trans e.1 x.1 k He HP Hk Hf Hlt). lia.
Qed.

(** A split of the list around [k] is the split the container finds. *)
Lemma before_from_app k m1 m2 :
  Forall (fun e => cmp e.1 k < 0) m1 -> Forall (fun e => 0 <= cmp e.1 k) m2 ->
  before cmp k (m1 ++ m2) = m1 /\ from cmp k (m1 ++ m2) = m2.
Proof.
  induction m1 as [|e m1 IH]; intros H1 H2; simpl.
  - destruct m2 as [|e m2]; simpl; [done|]. apply Forall_cons in H2 as [? _].
    unfold key_lt. by case_bool; [lia|].
  - apply Forall_cons in H1 as [? ?]. unfold key_lt. case_bool; [|lia].
    destruct (IH ltac:(done) ltac:(done)) as [-> ->]. done.
Qed.

Lemma before_app k m1 m2 :
  Forall (fun e => cmp e.1 k < 0) m1 -> Forall (fun e => 0 <= cmp e.1 k) m2 -> before cmp k (m1 ++ m2) = m1.
Proof. intros. by apply before_from_app. Qed.
Lemma from_app k m1 m2 :
  Forall (fun e => cmp e.1 k < 0) m1 -> Forall (fun e => 0 <= cmp e.1 k) m2 -> from cmp k (m1 ++ m2) = m2.
Proof. intros. by apply before_from_app. Qed.

(** The entries of [m2] follow those whose keys are at least one of theirs. *)
Lemma key_le_forall a k m :
  P a -> P k -> keys_in m -> cmp a k <= 0 -> Forall (fun e => cmp e.1 a < 0) m -> Forall (fun e => cmp e.1 k < 0) m.
Proof.
  intros Ha Hk HP Hle Hf. unfold keys_in in HP. rewrite Forall_forall in *. intros e He.
  apply (cmp_lt_le_trans _ a); auto.
Qed.

Lemma sorted_split m k : sorted_map cmp m ->
  sorted_map cmp (before cmp k m) /\ sorted_map cmp (from cmp k m).
Proof. rewrite <- (before_from k m) at 1. rewrite sorted_app. tauto. Qed.

Lemma keys_split m k : keys_in m -> keys_in (before cmp k m) /\ keys_in (from cmp k m).
Proof. unfold keys_in. rewrite <- (before_from k m) at 1. by rewrite Forall_app. Qed.
End Facts.
