(* ===== verification/Tlv.v ===== *)
(** * NDN-TLV numbers: [ndn-cxx/src/encoding/tlv.hpp]

    The variable-length numbers and the non-negative integers of the
    NDN-TLV format: the readers over an iterator range, the readers over an
    input stream, the writers, and the sizes.  A reader over the range
    [[begin, end)] takes the bytes of the range and returns the bytes left
    after [begin] moved. *)

From S2P Require Import Prelude.

(** TLV types ([tlv.hpp], the first [enum]). *)
Module TlvType.
Definition Interest := 5.
Definition Data := 6.
Definition Name := 7.
Definition ImplicitSha256DigestComponent := 1.
Definition NameComponent := 8.
Definition Selectors := 9.
Definition Nonce := 10.
Definition InterestLifetime := 12.
Definition MinSuffixComponents := 13.
Definition MaxSuffixComponents := 14.
Definition PublisherPublicKeyLocator := 15.
Definition Exclude := 16.
Definition ChildSelector := 17.
Definition MustBeFresh := 18.
Definition Any := 19.
Definition MetaInfo := 20.
Definition Content := 21.
Definition SignatureInfo := 22.
Definition SignatureValue := 23.
Definition ContentType := 24.
Definition FreshnessPeriod := 25.
Definition FinalBlockId := 26.
Definition SignatureType := 27.
Definition KeyLocator := 28.
Definition KeyDigest := 29.
Definition LinkPreference := 30.
Definition LinkDelegation := 31.
Definition SelectedDelegation := 32.
Definition ValidityPeriod := 253.
Definition ContentType_Blob := 0.
Definition ContentType_Link := 1.
End TlvType.

(** ** Readers over a range *)

(** [readVarNumber(begin, end, number)]: [None] is the result [false].  The
    iterator [begin] is advanced even when the call fails. *)
Definition readVarNumber_opt (s : list Z) : option Z * list Z :=
  match s with
  | [] => (None, [])
  | firstOctet :: s =>
      if firstOctet <? 253 then (Some firstOctet, s)
      else if firstOctet =? 253 then
        if len s <? 2 then (None, s) else (Some (be_decode (take 2 s)), drop 2 s)
      else if firstOctet =? 254 then
        if len s <? 4 then (None, s) else (Some (be_decode (take 4 s)), drop 4 s)
      else
        if len s <? 8 then (None, s) else (Some (be_decode (take 8 s)), drop 8 s)
  end.

(** [readType(begin, end, type)] *)
Definition readType_opt (s : list Z) : option Z * list Z :=
  match readVarNumber_opt s with
  | (None, s') => (None, s')
  | (Some number, s') => if u32_max <? number then (None, s') else (Some number, s')
  end.

(** [readVarNumber(begin, end)], the overload that throws. *)
Definition readVarNumber (s : list Z) : result (Z * list Z) :=
  match s with
  | [] => Err EmptyBuffer
  | _ => match readVarNumber_opt s with
         | (Some value, s') => Ok (value, s')
         | (None, _) => Err InsufficientData
         end
  end.

(** [readType(begin, end)], the overload that throws. *)
Definition readType (s : list Z) : result (Z * list Z) :=
  let! (type, s') := readVarNumber s in
  if u32_max <? type then Err TypeTooLarge else Ok (type, s').

(** [readNonNegativeInteger(size, begin, end)] *)
Definition readNonNegativeInteger (size : Z) (s : list Z) : result (Z * list Z) :=
  if size =? 1 then
    match s with
    | [] => Err InsufficientData
    | value :: s' => Ok (value, s')
    end
  else if size =? 2 then
    if len s <? 2 then Err InsufficientData else Ok (be_decode (take 2 s), drop 2 s)
  else if size =? 4 then
    if len s <? 4 then Err InsufficientData else Ok (be_decode (take 4 s), drop 4 s)
  else if size =? 8 then
    if len s <? 8 then Err InsufficientData else Ok (be_decode (take 8 s), drop 8 s)
  else Err BadIntegerLength.

(** ** Readers over a stream

    The specialisations for [std::istream_iterator<uint8_t>] read one octet
    at a time: the loop [for (; begin != end && count < n; ++count)] with
    [value = ((value << 8) | *begin)] on a [uint64_t]. *)

Fixpoint streamLoop (n : nat) (s : list Z) (value : Z) (count : nat) : Z * nat * list Z :=
  match n, s with
  | S n', b :: s' =>
      streamLoop n' s' (Z.lor (to_u64 (Z.shiftl value 8)) b) (S count)
  | _, _ => (value, count, s)
  end.

Definition readVarNumber_stream (s : list Z) : option Z * list Z :=
  match s with
  | [] => (None, [])
  | firstOctet :: s =>
      if firstOctet <? 253 then (Some firstOctet, s)
      else
        let n := if firstOctet =? 253 then 2%nat
                 else if firstOctet =? 254 then 4%nat else 8%nat in
        let '(value, count, s') := streamLoop n s 0 0 in
        if (count =? n)%nat then (Some value, s') else (None, s')
  end.

Definition readNonNegativeInteger_stream (size : Z) (s : list Z) : result (Z * list Z) :=
  if size =? 1 then
    match s with
    | [] => Err InsufficientData
    | value :: s' => Ok (value, s')
    end
  else if (size =? 2) || (size =? 4) || (size =? 8) then
    let n := Z.to_nat size in
    let '(value, count, s') := streamLoop n s 0 0 in
    if (count =? n)%nat then Ok (value, s') else Err InsufficientData
  else Err BadIntegerLength.

(** ** Sizes and writers *)

Definition sizeOfVarNumber (varNumber : Z) : Z :=
  if varNumber <? 253 then 1
  else if varNumber <=? u16_max then 3
  else if varNumber <=? u32_max then 5
  else 9.

(** [writeVarNumber(os, varNumber)]: the bytes put on the stream. *)
Definition writeVarNumber (varNumber : Z) : list Z :=
  if varNumber <? 253 then [varNumber]
  else if varNumber <=? u16_max then 253 :: be_encode 2 varNumber
  else if varNumber <=? u32_max then 254 :: be_encode 4 varNumber
  else 255 :: be_encode 8 varNumber.

Definition sizeOfNonNegativeInteger (varNumber : Z) : Z :=
  if varNumber <? 253 then 1
  else if varNumber <=? u16_max then 2
  else if varNumber <=? u32_max then 4
  else 8.

Definition writeNonNegativeInteger (varNumber : Z) : list Z :=
  if varNumber <? 253 then [varNumber]
  else if varNumber <=? u16_max then be_encode 2 varNumber
  else if varNumber <=? u32_max then be_encode 4 varNumber
  else be_encode 8 varNumber.

(** The wire of one TLV element. *)
Definition tlv_wire (type : Z) (value : list Z) : list Z :=
  writeVarNumber type ++ writeVarNumber (len value) ++ value.

(** ** Lemmas *)

Lemma be_read n v (s : list Z) :
  0 <= v < 256 ^ Z.of_nat n ->
  be_decode (take n (be_encode n v ++ s)) = v /\ drop n (be_encode n v ++ s) = s.
Proof.
  intros Hv. pose proof (length_be_encode n v) as Hl. split.
  - rewrite take_app_length' by done. rewrite be_decode_encode by lia. by apply Z.mod_small.
  - by rewrite drop_app_length' by done.
Qed.

Lemma len_be_encode n v : len (be_encode n v) = Z.of_nat n.
Proof. unfold len. by rewrite length_be_encode. Qed.
#[export] Hint Rewrite len_be_encode : len.

Lemma readVarNumber_opt_write n s :
  0 <= n < U64 -> readVarNumber_opt (writeVarNumber n ++ s) = (Some n, s).
Proof.
  intros Hn. unfold writeVarNumber.
  case_bool; [|case_bool; [|case_bool]];
    cbn [app readVarNumber_opt Z.ltb Z.eqb Z.compare Pos.compare Pos.compare_cont Pos.eqb].
  - by rewrite (proj2 (Z.ltb_lt n 253)).
  - rewrite len_app, len_be_encode.
    rewrite (proj2 (Z.ltb_ge _ _)) by (pose proof (len_nonneg s); lia).
    destruct (be_read 2 n s) as [-> ->]; [width_lia | done].
  - rewrite len_app, len_be_encode.
    rewrite (proj2 (Z.ltb_ge _ _)) by (pose proof (len_nonneg s); lia).
    destruct (be_read 4 n s) as [-> ->]; [width_lia | done].
  - rewrite len_app, len_be_encode.
    rewrite (proj2 (Z.ltb_ge _ _)) by (pose proof (len_nonneg s); lia).
    destruct (be_read 8 n s) as [-> ->]; [width_lia | done].
Qed.

Lemma writeVarNumber_not_nil n : writeVarNumber n <> [].
Proof. unfold writeVarNumber. repeat case_bool; done. Qed.

Lemma readVarNumber_write n s :
  0 <= n < U64 -> readVarNumber (writeVarNumber n ++ s) = Ok (n, s).
Proof.
  intros Hn. unfold readVarNumber. rewrite readVarNumber_opt_write by done.
  pose proof (writeVarNumber_not_nil n). by destruct (writeVarNumber n).
Qed.

Lemma readType_write n s :
  0 <= n < U32 -> readType (writeVarNumber n ++ s) = Ok (n, s).
Proof.
  intros Hn. unfold readType. rewrite readVarNumber_write by width_lia. simpl.
  rewrite (proj2 (Z.ltb_ge _ _)) by width_lia. done.
Qed.

Lemma readType_opt_write n s :
  0 <= n < U32 -> readType_opt (writeVarNumber n ++ s) = (Some n, s).
Proof.
  intros Hn. unfold readType_opt. rewrite readVarNumber_opt_write by width_lia.
  rewrite (proj2 (Z.ltb_ge _ _)) by width_lia. done.
Qed.

Lemma len_writeVarNumber n : len (writeVarNumber n) = sizeOfVarNumber n.
Proof.
  unfold writeVarNumber, sizeOfVarNumber. repeat case_bool; simpl_len; rewrite ?length_be_encode; done.
Qed.
#[export] Hint Rewrite len_writeVarNumber : len.

Lemma wf_writeVarNumber n : 0 <= n < U64 -> wf_bytes (writeVarNumber n).
Proof.
  intros Hn. unfold writeVarNumber.
  repeat case_bool; repeat (apply Forall_cons; split; [unfold is_byte; lia|]);
    first [apply Forall_nil_2 | apply wf_be_encode].
Qed.

Lemma sizeOfVarNumber_pos n : 1 <= sizeOfVarNumber n.
Proof. unfold sizeOfVarNumber. repeat case_bool; lia. Qed.

(** What a successful read says of the bytes read: they start with a
    number of the value, they are a byte at least, the rest is a suffix. *)
Lemma readVarNumber_opt_Some s n s' :
  wf_bytes s -> readVarNumber_opt s = (Some n, s') ->
  (exists h, s = h ++ s' /\ (1 <= length h <= 9)%nat) /\ 0 <= n < U64 /\ wf_bytes s'.
Proof.
  intros Hs. destruct s as [|b s]; [done|]. apply wf_bytes_cons in Hs as [Hb Hs].
  assert (Hk : forall k, (k <= 8)%nat -> len s >= Z.of_nat k ->
    (exists h, b :: s = h ++ drop k s /\ (1 <= length h <= 9)%nat) /\
    0 <= be_decode (take k s) < U64 /\ wf_bytes (drop k s)).
  { intros k Hk Hl. split; [|split; [|auto with ndn]].
    - exists (b :: take k s). simpl. rewrite take_drop. split; [done|].
      rewrite length_take. lia.
    - pose proof (be_decode_bounds (take k s) (wf_bytes_take _ _ Hs)) as Hd.
      unfold len in *. rewrite length_take in Hd.
      assert (256 ^ Z.of_nat (k `min` length s) <= 256 ^ 8) by (apply Z.pow_le_mono_r; lia).
      width_lia. }
  unfold readVarNumber_opt. unfold is_byte in Hb.
  repeat case_bool; intros [= <- <-];
    first [ apply (Hk 2%nat); lia | apply (Hk 4%nat); lia | apply (Hk 8%nat); lia | idtac].
  split; [exists [b]; simpl; split; [done|lia] | split; [width_lia | done]].
Qed.

Lemma readVarNumber_Ok s n s' :
  readVarNumber s = Ok (n, s') <-> readVarNumber_opt s = (Some n, s').
Proof.
  unfold readVarNumber. destruct s as [|b s]; [done|].
  destruct (readVarNumber_opt (b :: s)) as [[m|] s0]; split; congruence.
Qed.

Lemma readType_Ok s n s' :
  readType s = Ok (n, s') <-> readType_opt s = (Some n, s').
Proof.
  unfold readType, readType_opt.
  destruct (readVarNumber s) as [[m s0]|e] eqn:E; simpl.
  - apply readVarNumber_Ok in E. rewrite E. by case_bool; split; intros [= <- <-].
  - split; [done|]. destruct (readVarNumber_opt s) as [[m|] s0] eqn:E'; [|done].
    apply readVarNumber_Ok in E'. congruence.
Qed.

Lemma readType_opt_Some s n s' :
  wf_bytes s -> readType_opt s = (Some n, s') ->
  (exists h, s = h ++ s' /\ (1 <= length h <= 9)%nat) /\ 0 <= n < U32 /\ wf_bytes s'.
Proof.
  unfold readType_opt. intros Hs. destruct (readVarNumber_opt s) as [[m|] s0] eqn:E; [|done].
  case_bool; [done|]. intros [= <- <-].
  apply readVarNumber_opt_Some in E as (?&?&?); [|done]. split_and!; [done|lia|width_lia|done].
Qed.

(** The stream loop reads the same number as the big-endian load. *)
Lemma lor_shift_byte v b :
  0 <= v < 2 ^ 56 -> is_byte b -> Z.lor (to_u64 (Z.shiftl v 8)) b = v * 256 + b.
Proof.
  intros Hv Hb. unfold to_u64, is_byte in *. rewrite Z.shiftl_mul_pow2 by lia.
  change (2 ^ 8) with 256. rewrite Z.mod_small by width_lia.
  rewrite Z.lor_comm. pose proof (Z.add_lor_land b (v * 256)).
  enough (Z.land b (v * 256) = 0) by lia.
  apply Z.bits_inj'. intros n Hn. rewrite Z.land_spec, Z.bits_0.
  destruct (decide (n < 8)).
  - change 256 with (2 ^ 8). rewrite Z.mul_pow2_bits_low by lia. by rewrite andb_false_r.
  - rewrite (Z.bits_above_log2 b n); [done|lia|].
    destruct (decide (b = 0)) as [->|]; [simpl; lia|].
    apply Z.log2_lt_pow2; [lia|]. apply Z.lt_le_trans with (2 ^ 8); [lia|].
    apply Z.pow_le_mono_r; lia.
Qed.

Lemma streamLoop_spec n s v c :
  wf_bytes s -> (n <= 8)%nat -> 0 <= v < 256 ^ (8 - Z.of_nat n) ->
  streamLoop n s v c =
    (v * 256 ^ len (take n s) + be_decode (take n s), (c + length (take n s))%nat, drop n s).
Proof.
  revert s v c. induction n as [|n IH]; intros s v c Hs Hn Hv.
  { rewrite drop_0. destruct s; cbn; rewrite Z.mul_1_r, Z.add_0_r, Nat.add_0_r; done. }
  destruct s as [|b s]; [cbn; rewrite Z.mul_1_r, Z.add_0_r, Nat.add_0_r; done|].
  apply wf_bytes_cons in Hs as [Hbyte Hs].
  replace (8 - Z.of_nat (S n)) with (7 - Z.of_nat n) in Hv by lia.
  assert (256 ^ (7 - Z.of_nat n) <= 256 ^ 7) by (apply Z.pow_le_mono_r; lia).
  cbn [streamLoop take drop]. rewrite lor_shift_byte by (done || lia).
  unfold is_byte in Hbyte. rewrite IH; [|done|lia|].
  2: { replace (8 - Z.of_nat n) with (1 + (7 - Z.of_nat n)) by lia.
       rewrite Z.pow_add_r by lia. lia. }
  rewrite be_decode_cons, len_cons, Z.pow_add_r by (unfold len; lia).
  f_equal. f_equal; [ring | simpl; lia].
Qed.

Lemma streamLoop_0 n s :
  wf_bytes s -> (n <= 8)%nat ->
  streamLoop n s 0 0 = (be_decode (take n s), length (take n s), drop n s).
Proof.
  intros Hs Hn. rewrite streamLoop_spec; [f_equal|done|done|].
  assert (1 <= 256 ^ (8 - Z.of_nat n)); [|lia].
  apply (Z.pow_le_mono_r 256 0); lia.
Qed.

(** The test [count != n] of the stream readers is the test [end - begin < n]
    of the others. *)
Lemma length_take_eqb n (s : list Z) :
  (length (take n s) =? n)%nat = negb (len s <? Z.of_nat n).
Proof.
  rewrite length_take. unfold len.
  destruct (Nat.eqb_spec (n `min` length s) n), (Z.ltb_spec (Z.of_nat (length s)) (Z.of_nat n));
    simpl; lia.
Qed.

(** ** Properties *)

(** Every 64-bit number written as a VAR-NUMBER is read back, by the
    range reader and by the stream reader, and leaves the bytes after it;
    the writer puts exactly [sizeOfVarNumber] bytes. *)
Theorem varNumber_roundtrip (n : Z) (s : list Z) (Hn : 0 <= n < U64) (Hs : wf_bytes s) :
  readVarNumber (writeVarNumber n ++ s) = Ok (n, s) /\
  readVarNumber_stream (writeVarNumber n ++ s) = (Some n, s) /\
  len (writeVarNumber n) = sizeOfVarNumber n.
Proof.
  split_and!; [by apply readVarNumber_write| |apply len_writeVarNumber].
  unfold writeVarNumber.
  case_bool; [cbn; by rewrite (proj2 (Z.ltb_lt n 253))|].
  repeat case_bool;
    cbn [app readVarNumber_stream Z.ltb Z.eqb Z.compare Pos.compare Pos.compare_cont Pos.eqb];
    (rewrite streamLoop_0; [|apply wf_bytes_app; auto using wf_be_encode|lia]);
    rewrite take_app_length' by (by rewrite length_be_encode);
    rewrite drop_app_length' by (by rewrite length_be_encode);
    rewrite length_be_encode, be_decode_encode, Z.mod_small by width_lia; done.
Qed.

Lemma varNumber_roundtrip_witness :
  readVarNumber (writeVarNumber 70000 ++ [7; 3]) = Ok (70000, [7; 3]) /\
  readVarNumber_stream (writeVarNumber 70000 ++ [7; 3]) = (Some 70000, [7; 3]) /\
  len (writeVarNumber 70000) = sizeOfVarNumber 70000.
Proof. apply (varNumber_roundtrip 70000 [7; 3]); [width_lia | repeat constructor; lia]. Defined.

(** The stream specialisations agree with the range readers on every
    input: same verdict and same number, and after a success the same
    position; for non-negative integers, the same result or the same error. *)
Theorem stream_readers_equiv (s : list Z) (Hs : wf_bytes s) (size : Z) :
  fst (readVarNumber_stream s) = fst (readVarNumber_opt s) /\
  (is_Some (fst (readVarNumber_opt s)) -> readVarNumber_stream s = readVarNumber_opt s) /\
  readNonNegativeInteger_stream size s = readNonNegativeInteger size s.
Proof.
  assert (Hv : fst (readVarNumber_stream s) = fst (readVarNumber_opt s) /\
    (is_Some (fst (readVarNumber_opt s)) -> readVarNumber_stream s = readVarNumber_opt s)).
  { destruct s as [|b s]; [done|]. apply wf_bytes_cons in Hs as [_ Hs].
    unfold readVarNumber_stream, readVarNumber_opt.
    case_bool; [done|].
    destruct (b =? 253); [|destruct (b =? 254)];
      rewrite streamLoop_0, length_take_eqb by (done || lia);
      [ change (Z.of_nat 2) with 2; destruct (len s <? 2)
      | change (Z.of_nat 4) with 4; destruct (len s <? 4)
      | change (Z.of_nat 8) with 8; destruct (len s <? 8) ];
      (split; [done | by intros [? [=]]]) || done. }
  split_and!; [apply Hv..|].
  unfold readNonNegativeInteger_stream, readNonNegativeInteger.
  destruct (Z.eqb_spec size 1); [done|].
  destruct (Z.eqb_spec size 2) as [->|]; [|destruct (Z.eqb_spec size 4) as [->|];
    [|destruct (Z.eqb_spec size 8) as [->|]; [|done]]];
    simpl orb; cbv iota zeta; rewrite streamLoop_0, length_take_eqb by (done || lia).
  - change (Z.of_nat (Z.to_nat 2)) with 2. by destruct (len s <? 2).
  - change (Z.of_nat (Z.to_nat 4)) with 4. by destruct (len s <? 4).
  - change (Z.of_nat (Z.to_nat 8)) with 8. by destruct (len s <? 8).
Qed.

Lemma stream_readers_equiv_witness :
  fst (readVarNumber_stream [254; 1; 2]) = None /\
  readNonNegativeInteger_stream 2 [1; 2; 3] = Ok (258, [3]).
Proof.
  assert (H : wf_bytes [254; 1; 2]) by (repeat constructor; lia).
  assert (H' : wf_bytes [1; 2; 3]) by (repeat constructor; lia).
  split; [etransitivity; [apply (stream_readers_equiv [254; 1; 2] H 2) | reflexivity]|].
  etransitivity; [apply (stream_readers_equiv [1; 2; 3] H' 2) | reflexivity].
Defined.

(** A non-negative integer written by [writeNonNegativeInteger] takes
    [sizeOfNonNegativeInteger] bytes, a length the reader accepts, and is
    read back with that length. *)
Theorem nonNegativeInteger_roundtrip (n : Z) (s : list Z) (Hn : 0 <= n < U64) :
  len (writeNonNegativeInteger n) = sizeOfNonNegativeInteger n /\
  readNonNegativeInteger (sizeOfNonNegativeInteger n) (writeNonNegativeInteger n ++ s)
    = Ok (n, s).
Proof.
  unfold writeNonNegativeInteger, sizeOfNonNegativeInteger.
  repeat case_bool; split; rewrite ?len_be_encode; try done; cbn [readNonNegativeInteger];
    unfold readNonNegativeInteger; simpl Z.eqb; cbv iota; try done;
    rewrite len_app, len_be_encode, (proj2 (Z.ltb_ge _ _)) by (pose proof (len_nonneg s); lia).
  - destruct (be_read 2 n s) as [-> ->]; [width_lia|done].
  - destruct (be_read 4 n s) as [-> ->]; [width_lia|done].
  - destruct (be_read 8 n s) as [-> ->]; [width_lia|done].
Qed.

Lemma nonNegativeInteger_roundtrip_witness :
  len (writeNonNegativeInteger 254) = 2 /\
  readNonNegativeInteger 2 (writeNonNegativeInteger 254 ++ [9]) = Ok (254, [9]).
Proof. apply (nonNegativeInteger_roundtrip 254 [9]). width_lia. Defined.
