(* ===== verification/Block.v ===== *)
(** * TLV blocks: [ndn-cxx/src/encoding/block.cpp]

    A [Block] is a view [[m_begin, m_end)] of a shared immutable buffer, with
    the range of its value and the sub-elements parsed so far.  Iterators are
    offsets into the buffer.  The operations are the constructors, [parse],
    [encode], the accessors and the edits of the element list. *)

From S2P Require Import Prelude Tlv.

Set Warnings "-register-all".

Inductive Block : Type := MkBlock {
  m_buffer : option (list Z);
  m_type : Z;
  m_begin : nat;
  m_end : nat;
  m_size : Z;
  m_value_begin : nat;
  m_value_end : nat;
  m_subBlocks : list Block
}.

(** [Block::Block()] and [Block::Block(uint32_t type)] *)
Definition Block_empty : Block := MkBlock None u32_max 0 0 0 0 0 [].
Definition Block_of_type (type : Z) : Block := MkBlock None type 0 0 0 0 0 [].

(** [Block(buffer, type, begin, end, valueBegin, valueEnd)] *)
Definition Block_raw (wire : list Z) (type : Z) (b e vb ve : nat) : Block :=
  MkBlock (Some wire) type b e (Z.of_nat e - Z.of_nat b) vb ve [].

(** [Block(const ConstBufferPtr& buffer)] and [Block(const EncodingBuffer&)]:
    the whole buffer is one element. *)
Definition Block_of_buffer (buffer : list Z) : result Block :=
  let! (type, s1) := readType buffer in
  let! (length', s2) := readVarNumber s1 in
  if negb (length' =? len s2) then Err LengthMismatch
  else Ok (Block_raw buffer type 0 (length buffer) (length buffer - length s2) (length buffer)).

(** [Block(buffer, begin, end, verifyLength)]: the range of a buffer. *)
Definition Block_of_range (buffer : list Z) (b e : nat) (verifyLength : bool) : result Block :=
  let! (type, s1) := readType (slice b e buffer) in
  let! (length', s2) := readVarNumber s1 in
  if verifyLength && negb (length' =? len s2) then Err LengthMismatch
  else Ok (Block_raw buffer type b e (e - length s2) e).

(** [Block(const Block& block, begin, end, verifyLength)]; the offsets are
    signed, the constructor checks that they point into the buffer. *)
Definition Block_of_block (block : Block) (b e : Z) (verifyLength : bool) : result Block :=
  match m_buffer block with
  | None => Err NotInBuffer
  | Some buffer =>
      if negb ((0 <=? b) && (b <=? len buffer)) || negb ((0 <=? e) && (e <=? len buffer))
      then Err NotInBuffer
      else Block_of_range buffer (Z.to_nat b) (Z.to_nat e) verifyLength
  end.

(** [Block(const uint8_t* buffer, size_t maxlength)]: the first element of
    the bytes, copied. *)
Definition Block_of_array (buffer : list Z) : result Block :=
  let! (type, s1) := readType buffer in
  let! (length', s2) := readVarNumber s1 in
  if len s2 <? length' then Err NotEnoughData
  else
    let header := (length buffer - length s2)%nat in
    let copy := take (header + Z.to_nat length') buffer in
    Ok (Block_raw copy type 0 (length copy) header (length copy)).

(** [Block::value_size], [hasWire], [hasValue], [empty] *)
Definition hasWire (b : Block) : bool :=
  match m_buffer b with Some _ => negb (m_begin b =? m_end b)%nat | None => false end.

Definition hasValue (b : Block) : bool :=
  match m_buffer b with Some _ => true | None => false end.

Definition Block_empty_test (b : Block) : bool := m_type b =? u32_max.

Definition value_size (b : Block) : Z :=
  if hasValue b then Z.of_nat (m_value_end b) - Z.of_nat (m_value_begin b) else 0.

(** The bytes [[value_begin(), value_end())]. *)
Definition value (b : Block) : list Z :=
  match m_buffer b with
  | Some buffer => slice (m_value_begin b) (m_value_end b) buffer
  | None => []
  end.

(** [Block(type, value)]: a block with a value and no wire yet. *)
Definition Block_of_value (type : Z) (v : list Z) : Block :=
  MkBlock (Some v) type (length v) (length v)
    (sizeOfVarNumber type + sizeOfVarNumber (len v) + len v) 0 (length v) [].

(** [wire()], the bytes [[begin(), end())] *)
Definition wire (b : Block) : result (list Z) :=
  if hasWire b then
    match m_buffer b with
    | Some buffer => Ok (slice (m_begin b) (m_end b) buffer)
    | None => Err NoWire
    end
  else Err NoWire.

Definition Block_size (b : Block) : result Z :=
  if hasWire b || hasValue b then Ok (m_size b) else Err NoSize.

(** [Block(type, const Block& value)]: the wire of another block as value;
    [value.begin()] throws without a wire. *)
Definition Block_of_nested (type : Z) (v : Block) : result Block :=
  match m_buffer v with
  | Some buffer =>
      if hasWire v then
        let vs := Z.of_nat (m_end v) - Z.of_nat (m_begin v) in
        Ok (MkBlock (Some buffer) type (length buffer) (length buffer)
              (sizeOfVarNumber type + sizeOfVarNumber vs + vs) (m_begin v) (m_end v) [])
      else Err NoWire
  | None => Err NoWire
  end.

(** [Block::fromBuffer(buffer, offset)]: [None] is the result [false]. *)
Definition fromBuffer (buffer : list Z) (offset : nat) : option Block :=
  match readType_opt (drop offset buffer) with
  | (None, _) => None
  | (Some type, s1) =>
      match readVarNumber_opt s1 with
      | (None, _) => None
      | (Some length', s2) =>
          if len s2 <? length' then None
          else
            let vb := (length buffer - length s2)%nat in
            let e := (vb + Z.to_nat length')%nat in
            Some (Block_raw buffer type offset e vb e)
      end
  end.

(** [Block::fromBuffer(const uint8_t* buffer, size_t maxSize)] *)
Definition fromArray (buffer : list Z) : option Block :=
  match readType_opt buffer with
  | (None, _) => None
  | (Some type, s1) =>
      match readVarNumber_opt s1 with
      | (None, _) => None
      | (Some length', s2) =>
          if len s2 <? length' then None
          else
            let vb := (length buffer - length s2)%nat in
            let shared := take (vb + Z.to_nat length') buffer in
            Some (Block_raw shared type 0 (length shared) vb (length shared))
      end
  end.

(** [Block::reset] and [Block::resetWire] *)
Definition reset (b : Block) : Block := MkBlock None u32_max 0 0 (m_size b) 0 0 [].
Definition resetWire (b : Block) : Block :=
  MkBlock None (m_type b) 0 0 (m_size b) 0 0 (m_subBlocks b).

(** [m_subBlocks] is mutable: [parse] changes it and may throw. *)
Definition set_subBlocks (b : Block) (l : list Block) : Block :=
  MkBlock (m_buffer b) (m_type b) (m_begin b) (m_end b) (m_size b)
    (m_value_begin b) (m_value_end b) l.

(** The loop of [Block::parse] over the value [s], which ends at offset [e]
    of [buffer]; [acc] holds the elements pushed so far.  Each turn consumes
    a byte at least, so [length s] turns suffice.  The second component is the
    exception that leaves the loop, if any. *)
Fixpoint parse_loop (fuel : nat) (buffer : list Z) (e : nat) (s : list Z)
    (acc : list Block) : list Block * option error :=
  match fuel with
  | O => (acc, None)
  | S fuel =>
      if (length s =? 0)%nat then (acc, None)
      else
        match readType s with
        | Err x => (acc, Some x)
        | Ok (type, s1) =>
            match readVarNumber s1 with
            | Err x => (acc, Some x)
            | Ok (length', s2) =>
                if len s2 <? length' then ([], Some LengthExceedsBuffer)
                else
                  let element_begin := (e - length s)%nat in
                  let vb := (e - length s2)%nat in
                  let element_end := (vb + Z.to_nat length')%nat in
                  parse_loop fuel buffer e (drop (Z.to_nat length') s2)
                    (acc ++ [Block_raw buffer type element_begin element_end vb element_end])
            end
        end
  end.

Definition parse (b : Block) : Block * option error :=
  if negb (length (m_subBlocks b) =? 0)%nat || (value_size b =? 0) then (b, None)
  else
    match m_buffer b with
    | None => (b, None)
    | Some buffer =>
        let '(l, x) :=
          parse_loop (length (value b)) buffer (m_value_end b) (value b) (m_subBlocks b) in
        (set_subBlocks b l, x)
    end.

(** [Block::encode].  The bytes of the elements; an element with neither wire
    nor value throws. *)
Definition element_bytes (b : Block) : result (list Z) :=
  if hasWire b then wire b
  else if hasValue b then Ok (tlv_wire (m_type b) (value b))
  else Err NoValue.

Fixpoint elements_bytes (l : list Block) : result (list Z) :=
  match l with
  | [] => Ok []
  | b :: l => let! x := element_bytes b in let! y := elements_bytes l in Ok (x ++ y)
  end.

Fixpoint elements_size_sum (l : list Block) : result Z :=
  match l with
  | [] => Ok 0
  | b :: l => let! x := Block_size b in let! y := elements_size_sum l in Ok (x + y)
  end.

Definition encode_bytes (b : Block) : result (list Z) :=
  if hasValue b then Ok (tlv_wire (m_type b) (value b))
  else if (length (m_subBlocks b) =? 0)%nat then
    Ok (writeVarNumber (m_type b) ++ writeVarNumber 0)
  else
    let! valueSize := elements_size_sum (m_subBlocks b) in
    let! body := elements_bytes (m_subBlocks b) in
    Ok (writeVarNumber (m_type b) ++ writeVarNumber valueSize ++ body).

Definition encode (b : Block) : result Block :=
  if hasWire b then Ok b
  else
    let! buffer := encode_bytes b in
    let! (_, s1) := readType buffer in
    let! (_, s2) := readVarNumber s1 in
    Ok (MkBlock (Some buffer) (m_type b) 0 (length buffer) (len buffer)
          (length buffer - length s2) (length buffer) (m_subBlocks b)).

(** Access to the elements: [get], [find], [remove], [push_back], [erase],
    [insert], and [blockFromValue]. *)
Definition find (b : Block) (type : Z) : option Block :=
  List.find (fun sub => m_type sub =? type) (m_subBlocks b).

Definition get (b : Block) (type : Z) : result Block :=
  match find b type with Some x => Ok x | None => Err NoSuchType end.

Definition remove (b : Block) (type : Z) : Block :=
  let b := resetWire b in
  set_subBlocks b (List.filter (fun sub => negb (m_type sub =? type)) (m_subBlocks b)).

Definition push_back (b : Block) (element : Block) : Block :=
  let b := resetWire b in set_subBlocks b (m_subBlocks b ++ [element]).

Definition erase (b : Block) (first last : nat) : Block :=
  let b := resetWire b in
  set_subBlocks b (take first (m_subBlocks b) ++ drop last (m_subBlocks b)).

Definition insert (b : Block) (pos : nat) (element : Block) : Block :=
  let b := resetWire b in
  set_subBlocks b (take pos (m_subBlocks b) ++ element :: drop pos (m_subBlocks b)).

Definition blockFromValue (b : Block) : result Block :=
  if value_size b =? 0 then Err NoValue
  else
    match m_buffer b with
    | None => Err NoValue
    | Some buffer =>
        let! (type, s1) := readType (value b) in
        let! (length', s2) := readVarNumber s1 in
        if negb (length' =? len s2) then Err LengthMismatch
        else Ok (Block_raw buffer type (m_value_begin b) (m_value_end b)
                   (m_value_end b - length s2) (m_value_end b))
    end.

(** [Block::operator==] *)
Definition Block_eqb (a b : Block) : result bool :=
  let! sa := Block_size a in
  let! sb := Block_size b in
  if negb (sa =? sb) then Ok false
  else let! wa := wire a in let! wb := wire b in Ok (bool_decide (wa = wb)).

(** ** Lemmas *)

(** What a reader of a parsed element sees of it. *)
Definition view (b : Block) : Z * list Z := (m_type b, value b).

(** An element that the format can hold. *)
Definition wf_element (x : Z * list Z) : Prop := 0 <= x.1 < U32 /\ len x.2 < U64.

#[global] Instance wf_element_dec x : Decision (wf_element x).
Proof. unfold wf_element. apply _. Defined.

(** The wire of a sequence of elements. *)
Definition wires (es : list (Z * list Z)) : list Z :=
  concat (map (fun x => tlv_wire x.1 x.2) es).

Lemma wires_cons t v es : wires ((t, v) :: es) = tlv_wire t v ++ wires es.
Proof. done. Qed.

Lemma wires_app es1 es2 : wires (es1 ++ es2) = wires es1 ++ wires es2.
Proof. unfold wires. by rewrite map_app, concat_app. Qed.

Definition header_length (x : Z * list Z) : nat :=
  (length (writeVarNumber x.1) + length (writeVarNumber (len x.2)))%nat.

(** The blocks that parsing the elements at offset [off] of [buffer] makes. *)
Fixpoint element_blocks (buffer : list Z) (off : nat) (es : list (Z * list Z)) : list Block :=
  match es with
  | [] => []
  | x :: es =>
      let vb := (off + header_length x)%nat in
      let e := (vb + length x.2)%nat in
      Block_raw buffer x.1 off e vb e :: element_blocks buffer e es
  end.

Lemma length_tlv_wire t v : length (tlv_wire t v) = (header_length (t, v) + length v)%nat.
Proof. unfold tlv_wire, header_length. simpl. rewrite !length_app. lia. Qed.

Lemma header_length_pos x : (1 <= header_length x)%nat.
Proof.
  unfold header_length. pose proof (writeVarNumber_not_nil x.1).
  destruct (writeVarNumber x.1); [done|simpl; lia].
Qed.

Lemma length_wires_ge es : (length es <= length (wires es))%nat.
Proof.
  induction es as [|[t v] es IH]; [done|].
  rewrite wires_cons, length_app, length_tlv_wire. pose proof (header_length_pos (t, v)). simpl. lia.
Qed.

(** Reading the header of an element leaves its value. *)
Lemma read_header t v s :
  wf_element (t, v) ->
  readType (tlv_wire t v ++ s) = Ok (t, writeVarNumber (len v) ++ v ++ s) /\
  readVarNumber (writeVarNumber (len v) ++ v ++ s) = Ok (len v, v ++ s).
Proof.
  intros [Ht Hv]. simpl in *. unfold tlv_wire. rewrite <- !app_assoc. split.
  - by apply readType_write.
  - apply readVarNumber_write. pose proof (len_nonneg v). lia.
Qed.

Lemma to_nat_len {A} (l : list A) : Z.to_nat (len l) = length l.
Proof. unfold len. lia. Qed.

Lemma len_ltb_app {A} (v s : list A) : (len (v ++ s) <? len v) = false.
Proof. apply Z.ltb_ge. rewrite len_app. pose proof (len_nonneg s). lia. Qed.

Lemma parse_loop_elements es : forall fuel buffer e t acc,
  Forall wf_element es -> (length es <= fuel)%nat -> (length (wires es ++ t) <= e)%nat ->
  parse_loop fuel buffer e (wires es ++ t) acc =
    parse_loop (fuel - length es) buffer e t
      (acc ++ element_blocks buffer (e - length (wires es ++ t)) es).
Proof.
  induction es as [|[ty v] es IH]; intros fuel buffer e t acc Hes Hf He.
  { cbn. by rewrite app_nil_r, Nat.sub_0_r. }
  apply Forall_cons in Hes as [Hx Hes]. destruct fuel as [|fuel]; [simpl in Hf; lia|].
  rewrite wires_cons, <- app_assoc in *.
  pose proof (header_length_pos (ty, v)) as Hh.
  destruct (read_header ty v (wires es ++ t) Hx) as [H1 H2].
  rewrite !length_app, length_tlv_wire in He.
  cbn [parse_loop]. rewrite (proj2 (Nat.eqb_neq _ _)) by (rewrite !length_app, length_tlv_wire; lia).
  rewrite H1, H2, len_ltb_app, to_nat_len, drop_app_length.
  rewrite IH; [|done|simpl in Hf; lia|rewrite length_app; lia].
  rewrite <- app_assoc. cbn [app length Nat.sub element_blocks fst snd].
  rewrite !length_app, length_tlv_wire. do 2 f_equal.
  assert (length (writeVarNumber (len v)) <= header_length (ty, v))%nat by (unfold header_length; simpl; lia).
  f_equal; [f_equal; lia | f_equal; lia].
Qed.

Lemma slice_middle {A} (pre m post : list A) i j :
  i = length pre -> j = (length pre + length m)%nat -> slice i j (pre ++ m ++ post) = m.
Proof.
  intros -> ->. unfold slice. rewrite drop_app_length.
  rewrite take_app_length'; [done|lia].
Qed.

Lemma element_blocks_view es : forall buffer pre post,
  buffer = pre ++ wires es ++ post ->
  map view (element_blocks buffer (length pre) es) = es /\
  map wire (element_blocks buffer (length pre) es) = map (fun x => Ok (tlv_wire x.1 x.2)) es.
Proof.
  induction es as [|[t v] es IH]; intros buffer pre post ->; [done|].
  cbn [element_blocks map fst snd]. rewrite wires_cons, <- app_assoc.
  pose proof (header_length_pos (t, v)) as Hh.
  specialize (IH (pre ++ tlv_wire t v ++ wires es ++ post) (pre ++ tlv_wire t v) post).
  rewrite length_app, length_tlv_wire, <- app_assoc, Nat.add_assoc in IH.
  destruct IH as [-> ->]; [done|].
  split; f_equal.
  - unfold view, value. simpl. f_equal. unfold tlv_wire.
    replace (pre ++ (writeVarNumber t ++ writeVarNumber (len v) ++ v) ++ wires es ++ post)
      with ((pre ++ writeVarNumber t ++ writeVarNumber (len v)) ++ v ++ (wires es ++ post))
      by (by rewrite <- !app_assoc).
    apply slice_middle; rewrite !length_app; unfold header_length; simpl; lia.
  - unfold wire, hasWire. simpl. rewrite (proj2 (Nat.eqb_neq _ _)) by lia. simpl. f_equal.
    apply slice_middle; [done|]. rewrite length_tlv_wire. lia.
Qed.

Lemma parse_loop_nil fuel buffer e acc : parse_loop fuel buffer e [] acc = (acc, None).
Proof. by destruct fuel. Qed.

Lemma tlv_wire_not_nil t v : tlv_wire t v <> [].
Proof. unfold tlv_wire. intros H%app_eq_nil. destruct H as [H _]. by apply writeVarNumber_not_nil in H. Qed.

(** A block whose value is [s], placed in a buffer. *)
Lemma Block_of_value_value t s : value (Block_of_value t s) = s.
Proof. unfold value. simpl. apply slice_all. Qed.

(** The ranges of a block lie in its buffer. *)
Definition wf_block (b : Block) : Prop :=
  match m_buffer b with
  | None => True
  | Some buffer =>
      (m_begin b <= m_end b <= length buffer)%nat /\
      (m_value_begin b <= m_value_end b <= length buffer)%nat /\
      wf_bytes buffer
  end.

(** [x] is a view of [buffer] inside [[lo, hi)], its value at the end. *)
Definition element_in (buffer : list Z) (lo hi : nat) (x : Block) : Prop :=
  m_buffer x = Some buffer /\
  (lo <= m_begin x < m_value_begin x)%nat /\
  (m_value_begin x <= m_value_end x <= hi)%nat /\
  m_end x = m_value_end x /\ m_subBlocks x = [].

Lemma slice_split {A} (i j k : nat) (l : list A) :
  (i <= j <= k)%nat -> slice i j l ++ slice j k l = slice i k l.
Proof.
  intros H. unfold slice. rewrite <- (take_drop (j - i) (take (k - i) (drop i l))).
  rewrite take_take, skipn_firstn_comm, drop_drop. f_equal; f_equal; try lia. f_equal; lia.
Qed.

Lemma drop_slice {A} n i j (l : list A) :
  (j <= length l)%nat -> drop n (slice i j l) = slice (i + n) j l.
Proof. intros H. unfold slice. rewrite skipn_firstn_comm, drop_drop. f_equal; lia. Qed.

(** The rest after a header read from [slice i e buffer] is a later slice. *)
Lemma slice_suffix {A} (h s : list A) i e buffer :
  (i <= e <= length buffer)%nat -> slice i e buffer = h ++ s ->
  s = slice (e - length s) e buffer /\ (length h + length s)%nat = (e - i)%nat.
Proof.
  intros Hi Heq.
  assert (Hl : (length h + length s)%nat = (e - i)%nat).
  { rewrite <- length_app, <- Heq. apply length_slice; lia. }
  split; [|done].
  replace s with (drop (length h) (slice i e buffer)) at 1 by (rewrite Heq; apply drop_app_length).
  rewrite drop_slice by lia. f_equal. lia.
Qed.

Lemma element_in_wider buffer lo lo' hi x :
  (lo' <= lo)%nat -> element_in buffer lo hi x -> element_in buffer lo' hi x.
Proof. unfold element_in. intuition lia. Qed.

Lemma parse_loop_sound fuel : forall buffer e i acc l,
  wf_bytes buffer -> (i <= e <= length buffer)%nat -> (e - i <= fuel)%nat ->
  parse_loop fuel buffer e (slice i e buffer) acc = (l, None) ->
  exists l', l = acc ++ l' /\ elements_bytes l' = Ok (slice i e buffer) /\
             Forall (element_in buffer i e) l'.
Proof.
  induction fuel as [|fuel IH]; intros buffer e i acc l Hwf Hi Hf.
  { replace (slice i e buffer) with (@nil Z) by (unfold slice; by replace (e - i)%nat with 0%nat by lia).
    intros [= <-]. exists []. by rewrite app_nil_r. }
  cbn [parse_loop]. rewrite length_slice by lia.
  destruct (Nat.eqb_spec (e - i) 0) as [Hz|Hz].
  { intros [= <-]. exists []. rewrite app_nil_r. unfold slice. by rewrite Hz. }
  destruct (readType (slice i e buffer)) as [[t s1]|] eqn:H1; [|done].
  destruct (readVarNumber s1) as [[n s2]|] eqn:H2; [|done].
  case_bool; [done|]. intros Hrec.
  assert (wf_bytes (slice i e buffer)) by (unfold slice; auto with ndn).
  apply readType_Ok in H1. apply readType_opt_Some in H1 as ((h1&Hs1&Hh1)&_&Hw1); [|done].
  apply readVarNumber_Ok in H2. apply readVarNumber_opt_Some in H2 as ((h2&Hs2&Hh2)&Hn&_); [|done].
  rewrite Hs2, app_assoc in Hs1.
  destruct (slice_suffix _ _ _ _ _ Hi Hs1) as [Hs Hlen]. rewrite length_app in Hlen.
  set (m := Z.to_nat n) in *. assert (Hm : (m <= length s2)%nat) by (unfold len in *; lia).
  rewrite Hs, drop_slice in Hrec by lia. rewrite length_slice in Hrec by lia.
  apply IH in Hrec as (l'&->&Hb&Hin); [|done|lia|lia].
  replace (e - (e - (e - length s2)))%nat with (e - length s2)%nat in * by lia.
  eexists. rewrite <- app_assoc. split; [done|]. split.
  - cbn [app elements_bytes]. rewrite Hb. unfold element_bytes, wire, hasWire. simpl.
    rewrite (proj2 (Nat.eqb_neq _ _)) by lia. simpl. f_equal.
    replace (e - (e - i))%nat with i by lia. apply slice_split. lia.
  - constructor; [unfold element_in; simpl; split_and!; lia || done|].
    eapply Forall_impl; [done|]. intros x. apply element_in_wider. lia.
Qed.

(** Splitting the buffer around a slice. *)
Lemma buffer_split {A} i j (l : list A) :
  (i <= j <= length l)%nat -> l = take i l ++ slice i j l ++ drop j l.
Proof.
  intros H. unfold slice. rewrite <- (take_drop i l) at 1. f_equal.
  rewrite <- (take_drop (j - i) (drop i l)) at 1. f_equal. rewrite drop_drop. f_equal. lia.
Qed.

Lemma parse_elements b es t :
  wf_block b -> m_subBlocks b = [] -> Forall wf_element es -> value b = wires es ++ t ->
  es <> [] ->
  exists buffer, m_buffer b = Some buffer /\
    map view (element_blocks buffer (m_value_begin b) es) = es /\
    parse b = let '(l, x) := parse_loop (length (wires es ++ t) - length es) buffer (m_value_end b) t
                               (element_blocks buffer (m_value_begin b) es) in
              (set_subBlocks b l, x).
Proof.
  unfold wf_block, parse, value. intros Hwf Hsub Hes Hval Hne. rewrite Hsub. simpl.
  unfold value_size, hasValue. destruct (m_buffer b) as [buffer|] eqn:Hb.
  2: { exfalso. destruct es as [|[ty v] es]; [done|]. rewrite wires_cons in Hval.
       pose proof (tlv_wire_not_nil ty v). by destruct (tlv_wire ty v). }
  destruct Hwf as (_&Hr&_).
  pose proof (length_wires_ge es) as Hge.
  pose proof (length_slice _ _ buffer (proj1 Hr) (proj2 Hr)) as Hl.
  rewrite Hval, length_app in Hl.
  exists buffer. split; [done|]. split.
  - pose proof (buffer_split _ _ _ Hr) as Hbuf. rewrite Hval, <- app_assoc in Hbuf.
    destruct (element_blocks_view es _ _ _ Hbuf) as [Hv _].
    by rewrite length_take_le in Hv by lia.
  - assert (length es <> 0%nat) by (by destruct es).
    rewrite (proj2 (Z.eqb_neq _ _)) by lia. rewrite Hval.
    rewrite parse_loop_elements; [|done|rewrite length_app; lia|rewrite length_app; lia].
    rewrite length_app. simpl.
    replace (m_value_end b - (length (wires es) + length t))%nat with (m_value_begin b) by lia. done.
Qed.

(** ** Properties *)

(** Parsing a block whose value is a sequence of TLV elements succeeds
    and yields these elements, with their types and values, in order. *)
Theorem parse_complete (b : Block) (es : list (Z * list Z))
  (Hwf : wf_block b) (Hsub : m_subBlocks b = []) (Hes : Forall wf_element es)
  (Hval : value b = wires es) :
  (parse b).2 = None /\ map view (m_subBlocks (parse b).1) = es.
Proof.
  destruct (decide (es = [])) as [->|Hne].
  { unfold parse, value_size. unfold value in Hval. unfold wf_block in Hwf. rewrite Hsub. simpl.
    unfold hasValue. destruct (m_buffer b) as [buffer|]; [|simpl; by rewrite Hsub].
    destruct Hwf as (_&Hr&_). pose proof (length_slice _ _ buffer (proj1 Hr) (proj2 Hr)) as Hl.
    rewrite Hval in Hl. simpl in Hl. rewrite (proj2 (Z.eqb_eq _ _)) by lia. simpl. by rewrite Hsub. }
  destruct (parse_elements b es [] Hwf Hsub Hes) as (buffer&Hb&Hview&->); [by rewrite app_nil_r|done|].
  rewrite parse_loop_nil. done.
Qed.

(** A successful [parse] loses and invents nothing: the parsed elements,
    written one after the other, are the value of the block, and each of them
    is a range inside the value range of the block. *)
Theorem parse_sound (b : Block) (Hwf : wf_block b) (Hsub : m_subBlocks b = [])
  (Hok : (parse b).2 = None) :
  elements_bytes (m_subBlocks (parse b).1) = Ok (value b) /\
  forall buffer, m_buffer b = Some buffer ->
    Forall (element_in buffer (m_value_begin b) (m_value_end b)) (m_subBlocks (parse b).1).
Proof.
  unfold parse, wf_block, value, value_size, hasValue in *. rewrite Hsub in *. simpl in *.
  destruct (m_buffer b) as [buffer|] eqn:Hb; [|simpl; rewrite Hsub; done].
  destruct Hwf as (_&Hr&Hbytes).
  destruct (Z.eqb_spec (Z.of_nat (m_value_end b) - Z.of_nat (m_value_begin b)) 0) as [Hz|Hz].
  - simpl. rewrite Hsub. simpl. unfold slice.
    replace (m_value_end b - m_value_begin b)%nat with 0%nat by lia. done.
  - rewrite length_slice in * by lia.
    destruct (parse_loop _ _ _ _ _) as [l x] eqn:E. simpl in *. subst x.
    apply parse_loop_sound in E as (l'&->&H1&H2); [|done|lia|lia]. simpl.
    split; [done|]. by intros ? [= <-].
Qed.

(** [parse] is not safe to retry: when the value is some elements
    followed by a byte that is no complete header, [parse] throws, but it
    leaves the elements it had read in the block, so a second call returns
    without an exception and presents the truncated list. *)
Theorem parse_retry_accepts (b : Block) (es : list (Z * list Z)) (t : Z)
  (Hwf : wf_block b) (Hsub : m_subBlocks b = []) (Hes : Forall wf_element es) (Hne : es <> [])
  (Ht : 253 <= t) (Hval : value b = wires es ++ [t]) :
  (parse b).2 = Some InsufficientData /\
  (parse (parse b).1).2 = None /\
  map view (m_subBlocks (parse (parse b).1).1) = es.
Proof.
  destruct (parse_elements b es [t] Hwf Hsub Hes Hval Hne) as (buffer&Hb&Hview&Hp).
  assert (Hp' : parse b = (set_subBlocks b (element_blocks buffer (m_value_begin b) es), Some InsufficientData)).
  { rewrite Hp. rewrite length_app. pose proof (length_wires_ge es). simpl length.
    replace (length (wires es) + 1 - length es)%nat
      with (S (length (wires es) - length es)) by lia. cbn [parse_loop].
    unfold readType, readVarNumber, readVarNumber_opt. simpl. rewrite (proj2 (Z.ltb_ge t 253)) by done.
    by destruct (t =? 253), (t =? 254). }
  rewrite Hp'. simpl. unfold parse. simpl.
  assert (Hlen : (length (element_blocks buffer (m_value_begin b) es) =? 0)%nat = false).
  { apply Nat.eqb_neq. rewrite <- (length_map view), Hview. by destruct es. }
  rewrite Hlen. simpl. done.
Qed.

(** Encoding a block that has a value and no wire gives a wire that
    decodes to the same type and value; the length the block announced is the
    length of the wire. *)
Theorem encode_roundtrip (type : Z) (v : list Z) (H : wf_element (type, v)) :
  exists b b', encode (Block_of_value type v) = Ok b /\
    wire b = Ok (tlv_wire type v) /\
    Block_size (Block_of_value type v) = Ok (len (tlv_wire type v)) /\
    view b = (type, v) /\
    Block_of_buffer (tlv_wire type v) = Ok b' /\ view b' = (type, v).
Proof.
  destruct (read_header type v [] H) as [H1 H2]. rewrite !app_nil_r in *.
  pose proof (header_length_pos (type, v)) as Hp.
  pose proof (length_tlv_wire type v) as Hl.
  assert (Hs : slice (header_length (type, v)) (length (tlv_wire type v)) (tlv_wire type v) = v).
  { unfold tlv_wire. rewrite app_assoc, <- (app_nil_r (_ ++ v)), <- app_assoc.
    apply slice_middle; rewrite !length_app, ?app_nil_r; unfold header_length; simpl; rewrite ?length_app; simpl; lia. }
  eexists _, _. split.
  { unfold encode, hasWire. simpl. rewrite Nat.eqb_refl. simpl. unfold encode_bytes. simpl.
    rewrite Block_of_value_value, H1. simpl. rewrite H2. simpl. done. }
  assert (He : (0 =? length (tlv_wire type v))%nat = false) by (apply Nat.eqb_neq; lia).
  split; [unfold wire, hasWire; cbn [m_buffer m_begin m_end]; rewrite He; simpl; by rewrite slice_all|].
  split.
  { unfold Block_size. change (hasValue (Block_of_value type v)) with true. rewrite orb_true_r.
    cbn [Block_of_value m_size]. f_equal. unfold tlv_wire. autorewrite with len. lia. }
  replace (length (tlv_wire type v) - length v)%nat with (header_length (type, v)) by lia.
  split; [unfold view, value; simpl; by rewrite Hs|].
  split.
  { unfold Block_of_buffer. rewrite H1. simpl. rewrite H2. simpl. rewrite Z.eqb_refl. simpl. done. }
  replace (length (tlv_wire type v) - length v)%nat with (header_length (type, v)) by lia.
  unfold view, value. simpl. by rewrite Hs.
Qed.

(** The decoders of a received packet agree and stay in the buffer: the
    non-throwing [fromBuffer] and the throwing constructor accept the same
    bytes and build the same block; a block found at an offset lies in the
    buffer; and an element present at the offset is found. *)
Theorem decoders_agree (buffer : list Z) (offset : nat)
  (Hwf : wf_bytes buffer) (Hoff : (offset <= length buffer)%nat) :
  fromArray buffer = match Block_of_array buffer with Ok b => Some b | Err _ => None end /\
  (forall b, fromBuffer buffer offset = Some b ->
     wf_block b /\ m_begin b = offset /\ element_in buffer offset (length buffer) b) /\
  (forall t v rest, drop offset buffer = tlv_wire t v ++ rest -> wf_element (t, v) ->
     exists b, fromBuffer buffer offset = Some b /\ view b = (t, v) /\
               wire b = Ok (tlv_wire t v)).
Proof.
  split; [|split].
  - unfold fromArray, Block_of_array.
    destruct (readType buffer) as [[t s1]|] eqn:H1; simpl.
    + apply readType_Ok in H1. rewrite H1.
      destruct (readVarNumber s1) as [[n s2]|] eqn:H2; simpl.
      * apply readVarNumber_Ok in H2. rewrite H2. by case_bool.
      * destruct (readVarNumber_opt s1) as [[n|] s2] eqn:H2'; [|done].
        apply readVarNumber_Ok in H2'. congruence.
    + destruct (readType_opt buffer) as [[t|] s1] eqn:H1'; [|done].
      apply readType_Ok in H1'. congruence.
  - intros b. unfold fromBuffer.
    destruct (readType_opt (drop offset buffer)) as [[t|] s1] eqn:H1; [|done].
    destruct (readVarNumber_opt s1) as [[n|] s2] eqn:H2; [|done].
    case_bool; [done|]. intros [= <-].
    apply readType_opt_Some in H1 as ((h1&Hs1&Hh1)&_&Hw1); [|auto with ndn].
    apply readVarNumber_opt_Some in H2 as ((h2&Hs2&Hh2)&Hn&_); [|done].
    apply (f_equal length) in Hs1, Hs2. rewrite ?length_app, length_drop in *.
    unfold len in *. unfold wf_block, element_in. simpl. split_and!; try done; lia.
  - intros t v rest Hd Hel. destruct (read_header t v rest Hel) as [H1 H2].
    unfold fromBuffer. rewrite Hd. apply readType_Ok in H1. apply readVarNumber_Ok in H2.
    rewrite H1, H2, len_ltb_app. eexists. split; [done|].
    pose proof (header_length_pos (t, v)) as Hp.
    apply (f_equal length) in Hd as Hl. rewrite length_drop, !length_app, length_tlv_wire in Hl.
    rewrite to_nat_len, length_app.
    replace (length buffer - (length v + length rest))%nat
      with (offset + header_length (t, v))%nat by lia.
    assert (Hbuf : buffer = take offset buffer ++ wires [(t, v)] ++ rest).
    { unfold wires. simpl. rewrite app_nil_r, <- Hd. by rewrite take_drop. }
    destruct (element_blocks_view [(t, v)] _ _ _ Hbuf) as [Hv Hw].
    rewrite length_take_le in Hv, Hw by done.
    cbn [element_blocks map fst snd] in Hv, Hw. split; congruence.
Qed.

(** ** Witnesses *)

Definition sample_elements : list (Z * list Z) := [(8, [97; 98]); (300, [])].

Lemma sample_wf : Forall wf_element sample_elements.
Proof. by_decide. Defined.

Lemma sample_block_wf t l : wf_bytes l -> wf_block (Block_of_value t l).
Proof. intros H. unfold wf_block. simpl. split_and!; [lia..|done]. Defined.

Lemma parse_complete_witness :
  (parse (Block_of_value 7 (wires sample_elements))).2 = None /\
  map view (m_subBlocks (parse (Block_of_value 7 (wires sample_elements))).1) = sample_elements.
Proof.
  apply (parse_complete _ sample_elements).
  - apply sample_block_wf. by_decide.
  - reflexivity.
  - apply sample_wf.
  - reflexivity.
Defined.

Lemma parse_sound_witness :
  elements_bytes (m_subBlocks (parse (Block_of_value 7 [8; 1; 97; 8; 0])).1)
    = Ok [8; 1; 97; 8; 0].
Proof.
  apply (parse_sound (Block_of_value 7 [8; 1; 97; 8; 0])).
  - apply sample_block_wf. by_decide.
  - reflexivity.
  - reflexivity.
Defined.

Lemma parse_retry_accepts_witness :
  let b := Block_of_value 7 (wires sample_elements ++ [253]) in
  (parse b).2 = Some InsufficientData /\ (parse (parse b).1).2 = None /\
  map view (m_subBlocks (parse (parse b).1).1) = sample_elements.
Proof.
  apply (parse_retry_accepts _ sample_elements 253).
  - apply sample_block_wf. by_decide.
  - reflexivity.
  - apply sample_wf.
  - done.
  - lia.
  - reflexivity.
Defined.

Lemma encode_roundtrip_witness :
  exists b b', encode (Block_of_value 8 [1; 2; 3]) = Ok b /\ wire b = Ok [8; 3; 1; 2; 3] /\
    Block_size (Block_of_value 8 [1; 2; 3]) = Ok 5 /\ view b = (8, [1; 2; 3]) /\
    Block_of_buffer [8; 3; 1; 2; 3] = Ok b' /\ view b' = (8, [1; 2; 3]).
Proof. apply (encode_roundtrip 8 [1; 2; 3]). by_decide. Defined.

Lemma decoders_agree_witness :
  exists b, fromBuffer [0; 8; 1; 97; 5] 1 = Some b /\ view b = (8, [97]) /\ wire b = Ok [8; 1; 97].
Proof.
  apply (decoders_agree [0; 8; 1; 97; 5] 1) with (rest := [5]).
  - by_decide.
  - simpl. lia.
  - reflexivity.
  - by_decide.
Defined.
