(* ===== verification/Encoder.v ===== *)
(** * Encoders: [ndn-cxx/src/encoding/encoder.cpp], [estimator.cpp] and
      [block-helpers.cpp]

    [EncodingImpl<TAG>] has two implementations: the [Encoder], which writes
    in a buffer with room at both ends and grows it, and the [Estimator],
    which only adds sizes.  The class [EncodingImpl] is this interface, its
    law is what the generic [wireEncode] templates rely on: the size an
    operation returns does not depend on the implementation. *)

From S2P Require Import Prelude Tlv Block.

(** ** The interface *)

Class EncodingImpl (E : Type) := {
  prependByte : Z -> state E Z;
  appendByte : Z -> state E Z;
  prependByteArray : list Z -> state E Z;
  appendByteArray : list Z -> state E Z;
  prependVarNumber : Z -> state E Z;
  appendVarNumber : Z -> state E Z;
  prependNonNegativeInteger : Z -> state E Z;
  appendNonNegativeInteger : Z -> state E Z
}.

(** Sizes of the non-negative integers of [Encoder] and [Estimator]; unlike
    [tlv::sizeOfNonNegativeInteger] they use one byte up to 255. *)
Definition encoderIntegerSize (n : Z) : Z :=
  if n <=? u8_max then 1 else if n <=? u16_max then 2 else if n <=? u32_max then 4 else 8.

(** The bytes they write. *)
Definition encoderIntegerBytes (n : Z) : list Z :=
  if n <=? u8_max then [n]
  else if n <=? u16_max then be_encode 2 n
  else if n <=? u32_max then be_encode 4 n
  else be_encode 8 n.

Lemma len_encoderIntegerBytes n : len (encoderIntegerBytes n) = encoderIntegerSize n.
Proof. unfold encoderIntegerBytes, encoderIntegerSize. repeat case_bool; rewrite ?len_be_encode; done. Qed.

Class EncodingLaws (E : Type) `{EncodingImpl E} : Prop := {
  prependByte_size v e : (prependByte v e).1 = 1;
  appendByte_size v e : (appendByte v e).1 = 1;
  prependByteArray_size l e : (prependByteArray l e).1 = len l;
  appendByteArray_size l e : (appendByteArray l e).1 = len l;
  prependVarNumber_size n e : (prependVarNumber n e).1 = sizeOfVarNumber n;
  appendVarNumber_size n e : (appendVarNumber n e).1 = sizeOfVarNumber n;
  prependNonNegativeInteger_size n e : (prependNonNegativeInteger n e).1 = encoderIntegerSize n;
  appendNonNegativeInteger_size n e : (appendNonNegativeInteger n e).1 = encoderIntegerSize n
}.

(** ** The estimator *)

Module Estimator.
Definition t := unit.

Definition prependByte (_ : Z) : state t Z := sret 1.
Definition appendByte (_ : Z) : state t Z := sret 1.
Definition prependByteArray (array : list Z) : state t Z := sret (len array).
Definition appendByteArray (array : list Z) : state t Z := prependByteArray array.

Definition prependVarNumber (varNumber : Z) : state t Z :=
  sret (if varNumber <? 253 then 1
        else if varNumber <=? u16_max then 3
        else if varNumber <=? u32_max then 5
        else 9).
Definition appendVarNumber (varNumber : Z) : state t Z := prependVarNumber varNumber.

Definition prependNonNegativeInteger (varNumber : Z) : state t Z :=
  sret (if varNumber <=? u8_max then 1
        else if varNumber <=? u16_max then 2
        else if varNumber <=? u32_max then 4
        else 8).
Definition appendNonNegativeInteger (varNumber : Z) : state t Z :=
  prependNonNegativeInteger varNumber.

#[global] Instance impl : EncodingImpl t :=
  Build_EncodingImpl t prependByte appendByte prependByteArray appendByteArray
    prependVarNumber appendVarNumber prependNonNegativeInteger appendNonNegativeInteger.
End Estimator.

(** ** The encoder *)

Module Encoder.
Record t := Mk { e_buffer : list Z; e_begin : nat; e_end : nat }.

(** [Encoder(totalReserve, reserveFromBack)] *)
Definition create (totalReserve reserveFromBack : nat) : t :=
  let pos := (totalReserve - (if (reserveFromBack <? totalReserve)%nat
                              then reserveFromBack else 0))%nat in
  Mk (replicate totalReserve 0) pos pos.

(** [Encoder::reserve]: the old buffer goes to the back of the new one when
    room is added in front. *)
Definition reserve (size : nat) (addInFront : bool) (e : t) : t :=
  let old := e_buffer e in
  let size := if (size <? length old)%nat then length old else size in
  let room := replicate (size - length old) 0 in
  if addInFront then
    let diffEnd := (length old - e_end e)%nat in
    let diffBegin := (length old - e_begin e)%nat in
    Mk (room ++ old) (size - diffBegin) (size - diffEnd)
  else Mk (old ++ room) (e_begin e) (e_end e).

Definition reserveBack (size : nat) (e : t) : t :=
  if (length (e_buffer e) <? e_end e + size)%nat
  then reserve (length (e_buffer e) * 2 + size) false e else e.

Definition reserveFront (size : nat) (e : t) : t :=
  if (e_begin e <? size)%nat
  then reserve (length (e_buffer e) * 2 + size) true e else e.

(** [std::copy] of [l] to offset [pos] of [buffer]. *)
Definition copy_to (buffer : list Z) (pos : nat) (l : list Z) : list Z :=
  take pos buffer ++ l ++ drop (pos + length l) buffer.

Definition prependByte (value : Z) : state t Z := fun e =>
  let e := reserveFront 1 e in
  let b := (e_begin e - 1)%nat in
  (1, Mk (<[b := value]> (e_buffer e)) b (e_end e)).

Definition appendByte (value : Z) : state t Z := fun e =>
  let e := reserveBack 1 e in
  (1, Mk (<[e_end e := value]> (e_buffer e)) (e_begin e) (e_end e + 1)).

(** [prependByteArray] and [prependRange] *)
Definition prependByteArray (array : list Z) : state t Z := fun e =>
  let e := reserveFront (length array) e in
  let b := (e_begin e - length array)%nat in
  (len array, Mk (copy_to (e_buffer e) b array) b (e_end e)).

Definition appendByteArray (array : list Z) : state t Z := fun e =>
  let e := reserveBack (length array) e in
  (len array, Mk (copy_to (e_buffer e) (e_end e) array) (e_begin e) (e_end e + length array)).

Definition prependVarNumber (varNumber : Z) : state t Z :=
  if varNumber <? 253 then
    let~ _ := prependByte varNumber in sret 1
  else if varNumber <=? u16_max then
    let~ _ := prependByteArray (be_encode 2 varNumber) in
    let~ _ := prependByte 253 in sret 3
  else if varNumber <=? u32_max then
    let~ _ := prependByteArray (be_encode 4 varNumber) in
    let~ _ := prependByte 254 in sret 5
  else
    let~ _ := prependByteArray (be_encode 8 varNumber) in
    let~ _ := prependByte 255 in sret 9.

Definition appendVarNumber (varNumber : Z) : state t Z :=
  if varNumber <? 253 then
    let~ _ := appendByte varNumber in sret 1
  else if varNumber <=? u16_max then
    let~ _ := appendByte 253 in
    let~ _ := appendByteArray (be_encode 2 varNumber) in sret 3
  else if varNumber <=? u32_max then
    let~ _ := appendByte 254 in
    let~ _ := appendByteArray (be_encode 4 varNumber) in sret 5
  else
    let~ _ := appendByte 255 in
    let~ _ := appendByteArray (be_encode 8 varNumber) in sret 9.

Definition prependNonNegativeInteger (varNumber : Z) : state t Z :=
  if varNumber <=? u8_max then prependByte varNumber
  else if varNumber <=? u16_max then prependByteArray (be_encode 2 varNumber)
  else if varNumber <=? u32_max then prependByteArray (be_encode 4 varNumber)
  else prependByteArray (be_encode 8 varNumber).

Definition appendNonNegativeInteger (varNumber : Z) : state t Z :=
  if varNumber <=? u8_max then appendByte varNumber
  else if varNumber <=? u16_max then appendByteArray (be_encode 2 varNumber)
  else if varNumber <=? u32_max then appendByteArray (be_encode 4 varNumber)
  else appendByteArray (be_encode 8 varNumber).

#[global] Instance impl : EncodingImpl t :=
  Build_EncodingImpl t prependByte appendByte prependByteArray appendByteArray
    prependVarNumber appendVarNumber prependNonNegativeInteger appendNonNegativeInteger.

(** [Encoder::size] and [Encoder::block] *)
Definition size (e : t) : Z := Z.of_nat (e_end e) - Z.of_nat (e_begin e).
Definition block (verifyLength : bool) (e : t) : result Block :=
  Block_of_range (e_buffer e) (e_begin e) (e_end e) verifyLength.

(** The bytes written so far. *)
Definition content (e : t) : list Z := slice (e_begin e) (e_end e) (e_buffer e).

(** The invariant of the two iterators. *)
Definition inv (e : t) : Prop := (e_begin e <= e_end e <= length (e_buffer e))%nat.
End Encoder.

(** ** Operations on top of the interface *)

Section Generic.
Context {E : Type} `{EncodingImpl E}.

(** [prependByteArrayBlock], [appendByteArrayBlock] *)
Definition prependByteArrayBlock (type : Z) (array : list Z) : state E Z :=
  let~ l1 := prependByteArray array in
  let~ l2 := prependVarNumber (len array) in
  let~ l3 := prependVarNumber type in
  sret (l1 + l2 + l3).

Definition appendByteArrayBlock (type : Z) (array : list Z) : state E Z :=
  let~ l1 := appendVarNumber type in
  let~ l2 := appendVarNumber (len array) in
  let~ l3 := appendByteArray array in
  sret (l1 + l2 + l3).

(** [prependBlock]; the bytes of a block that has a wire are copied. *)
Definition prependBlock (b : Block) : state E Z :=
  match wire b with
  | Ok w => prependByteArray w
  | Err _ => prependByteArrayBlock (m_type b) (value b)
  end.

(** [appendBlock] *)
Definition appendBlock (b : Block) : state E Z :=
  match wire b with
  | Ok w => appendByteArray w
  | Err _ => appendByteArrayBlock (m_type b) (value b)
  end.

(** [encoding::prependNonNegativeIntegerBlock] *)
Definition prependNonNegativeIntegerBlock (type v : Z) : state E Z :=
  let~ valueLength := prependNonNegativeInteger v in
  let~ l2 := prependVarNumber valueLength in
  let~ l3 := prependVarNumber type in
  sret (valueLength + l2 + l3).

(** [encoding::prependEmptyBlock] *)
Definition prependEmptyBlock (type : Z) : state E Z :=
  let~ l1 := prependVarNumber 0 in
  let~ l2 := prependVarNumber type in
  sret (l1 + l2).

(** [encoding::prependStringBlock] *)
Definition prependStringBlock (type : Z) (v : list Z) : state E Z :=
  let~ valueLength := prependByteArray v in
  let~ l2 := prependVarNumber valueLength in
  let~ l3 := prependVarNumber type in
  sret (valueLength + l2 + l3).
End Generic.

(** The two passes of every [make...Block]: estimate, reserve exactly, encode. *)
Definition twoPass (f : forall E `{EncodingImpl E}, state E Z) : Encoder.t :=
  let totalLength := (f Estimator.t tt).1 in
  (f Encoder.t (Encoder.create (Z.to_nat totalLength) 0)).2.

Definition makeNonNegativeIntegerBlock (type v : Z) : result Block :=
  Encoder.block true (twoPass (fun E _ => prependNonNegativeIntegerBlock type v)).

Definition makeEmptyBlock (type : Z) : result Block :=
  Encoder.block true (twoPass (fun E _ => prependEmptyBlock type)).

Definition makeStringBlock (type : Z) (v : list Z) : result Block :=
  Encoder.block true (twoPass (fun E _ => prependStringBlock type v)).

Definition makeBinaryBlock (type : Z) (v : list Z) : result Block :=
  Encoder.block true (twoPass (fun E _ => prependByteArrayBlock type v)).

(** [readNonNegativeInteger(block)] and [readString(block)] *)
Definition readNonNegativeIntegerBlock (b : Block) : result Z :=
  let! (n, _) := readNonNegativeInteger (value_size b) (value b) in Ok n.

Definition readString (b : Block) : list Z := value b.

(** ** Lemmas *)

#[global] Instance Estimator_laws : EncodingLaws Estimator.t.
Proof. by constructor. Qed.

Create HintDb enc discriminated.

Module EncoderFacts.
Import Encoder.

Lemma reserve_spec size front e :
  inv e -> inv (reserve size front e) /\ content (reserve size front e) = content e /\
  (length (e_buffer e) <= length (e_buffer (reserve size front e)))%nat /\
  (size <= length (e_buffer (reserve size front e)))%nat /\
  (if front
   then e_begin (reserve size front e) = (e_begin e + (length (e_buffer (reserve size front e)) - length (e_buffer e)))%nat
   else e_begin (reserve size front e) = e_begin e /\ e_end (reserve size front e) = e_end e).
Proof.
  unfold inv, reserve, content. intros Hi.
  set (n := if (size <? length (e_buffer e))%nat then length (e_buffer e) else size).
  assert (Hn : (length (e_buffer e) <= n)%nat /\ (size <= n)%nat)
    by (unfold n; case_bool; lia).
  destruct front; simpl; rewrite !length_app, length_replicate; split_and!; try lia.
  - rewrite <- (slice_app_r (replicate (n - length (e_buffer e)) 0) (e_buffer e) (e_begin e)), length_replicate.
    f_equal; lia.
  - apply slice_app_l. lia.
Qed.

Lemma reserveFront_spec size e :
  inv e -> inv (reserveFront size e) /\ content (reserveFront size e) = content e /\
  (size <= e_begin (reserveFront size e))%nat /\
  ((size <= e_begin e)%nat -> reserveFront size e = e).
Proof.
  unfold reserveFront. intros Hi. destruct (Nat.ltb_spec (e_begin e) size); [|done].
  destruct (reserve_spec (length (e_buffer e) * 2 + size) true e Hi) as (?&?&?&?&?).
  split_and!; [done..|lia|lia].
Qed.

Lemma reserveBack_spec size e :
  inv e -> inv (reserveBack size e) /\ content (reserveBack size e) = content e /\
  (e_end (reserveBack size e) + size <= length (e_buffer (reserveBack size e)))%nat.
Proof.
  unfold reserveBack. intros Hi. destruct (Nat.ltb_spec (length (e_buffer e)) (e_end e + size)); [|done].
  destruct (reserve_spec (length (e_buffer e) * 2 + size) false e Hi) as (?&?&?&?&?&?).
  unfold inv in *. split_and!; [lia..|done|lia].
Qed.

Lemma length_copy_to buffer pos l :
  (pos + length l <= length buffer)%nat -> length (copy_to buffer pos l) = length buffer.
Proof. intros. unfold copy_to. rewrite !length_app, length_take, length_drop. lia. Qed.

(** [m] returns [a] and puts the bytes [bs] in front of the content; it does
    not move the content when there is room for them. *)
Definition Prepends {A} (m : state t A) (a : A) (bs : list Z) : Prop :=
  forall e, inv e ->
    (m e).1 = a /\ inv (m e).2 /\ content (m e).2 = bs ++ content e /\
    ((length bs <= e_begin e)%nat ->
       e_begin (m e).2 = (e_begin e - length bs)%nat /\ e_end (m e).2 = e_end e /\
       length (e_buffer (m e).2) = length (e_buffer e)).

(** [m] returns [a] and puts the bytes [bs] after the content. *)
Definition Appends {A} (m : state t A) (a : A) (bs : list Z) : Prop :=
  forall e, inv e -> (m e).1 = a /\ inv (m e).2 /\ content (m e).2 = content e ++ bs.

Lemma Prepends_ret {A} (a : A) : Prepends (sret a) a [].
Proof. intros e Hi. simpl. split_and!; try done. lia. Qed.

Lemma Prepends_bind {A B} (m : state t A) (k : A -> state t B) a b bs1 bs2 bs :
  Prepends m a bs1 -> Prepends (k a) b bs2 -> bs = bs2 ++ bs1 -> Prepends (sbind m k) b bs.
Proof.
  intros H1 H2 -> e Hi. specialize (H1 e Hi). unfold sbind.
  destruct (m e) as [a' e']. simpl in H1. destruct H1 as (->&Hi'&Hc&Hr).
  destruct (H2 e' Hi') as (?&?&Hc'&Hr'). split_and!; [done..|by rewrite Hc', Hc, app_assoc|].
  rewrite length_app. intros Hroom. destruct Hr as (?&?&?); [lia|].
  destruct Hr' as (->&->&->); [lia|]. split_and!; lia.
Qed.

Lemma Appends_ret {A} (a : A) : Appends (sret a) a [].
Proof. intros e Hi. simpl. by rewrite app_nil_r. Qed.

Lemma Appends_bind {A B} (m : state t A) (k : A -> state t B) a b bs1 bs2 bs :
  Appends m a bs1 -> Appends (k a) b bs2 -> bs = bs1 ++ bs2 -> Appends (sbind m k) b bs.
Proof.
  intros H1 H2 -> e Hi. specialize (H1 e Hi). unfold sbind.
  destruct (m e) as [a' e']. simpl in H1. destruct H1 as (->&Hi'&Hc).
  destruct (H2 e' Hi') as (?&?&Hc'). split_and!; [done..|by rewrite Hc', Hc, app_assoc].
Qed.

Lemma Prepends_ByteArray l : Prepends (prependByteArray l) (len l) l.
Proof.
  intros e Hi. unfold prependByteArray. cbn [fst snd].
  destruct (reserveFront_spec (length l) e Hi) as (Hi'&Hc&Hroom&Hsame).
  unfold inv, content in *. cbn [e_begin e_end e_buffer].
  rewrite length_copy_to by lia. split_and!; [done|lia|lia| |].
  - rewrite <- Hc. unfold copy_to, slice.
    rewrite drop_app_ge, length_take_le, Nat.sub_diag, drop_0 by (rewrite ?length_take; lia).
    rewrite take_app_ge by lia. f_equal.
    replace (e_begin (reserveFront (length l) e) - length l + length l)%nat
      with (e_begin (reserveFront (length l) e)) by lia. f_equal. lia.
  - intros Hr. rewrite (Hsame Hr) in *. split_and!; done.
Qed.

Lemma copy_to_one buffer pos v :
  (pos < length buffer)%nat -> <[pos := v]> buffer = copy_to buffer pos [v].
Proof. intros. unfold copy_to. rewrite insert_take_drop by done. simpl. by rewrite Nat.add_1_r. Qed.

Lemma Prepends_Byte v : Prepends (prependByte v) 1 [v].
Proof.
  intros e Hi. pose proof (Prepends_ByteArray [v] e Hi) as HA.
  unfold prependByteArray, prependByte in *. cbn [fst snd length len] in *.
  destruct (reserveFront_spec 1 e Hi) as (Hi'&_&Hroom&_). unfold inv in Hi'.
  rewrite copy_to_one by lia. exact HA.
Qed.

Lemma Appends_ByteArray l : Appends (appendByteArray l) (len l) l.
Proof.
  intros e Hi. unfold appendByteArray. cbn [fst snd].
  destruct (reserveBack_spec (length l) e Hi) as (Hi'&Hc&Hroom).
  unfold inv, content in *. cbn [e_begin e_end e_buffer].
  rewrite length_copy_to by lia. split_and!; [done|lia|lia|].
  rewrite <- Hc. unfold copy_to, slice.
  rewrite drop_app_le, take_app_ge by (rewrite ?length_drop, length_take; lia).
  rewrite skipn_firstn_comm. f_equal. rewrite take_app_ge by (rewrite length_take, length_drop; lia).
  rewrite length_take, length_drop. match goal with |- context [take ?n (drop _ _)] => replace n with 0%nat by lia end; by rewrite take_0, app_nil_r.
Qed.

Lemma Appends_Byte v : Appends (appendByte v) 1 [v].
Proof.
  intros e Hi. pose proof (Appends_ByteArray [v] e Hi) as HA.
  unfold appendByteArray, appendByte in *. cbn [fst snd length len] in *.
  destruct (reserveBack_spec 1 e Hi) as (Hi'&_&Hroom). unfold inv in Hi'.
  rewrite copy_to_one by lia. exact HA.
Qed.

#[export] Hint Resolve Prepends_ret Prepends_ByteArray Prepends_Byte : enc.
#[export] Hint Resolve Appends_ret Appends_ByteArray Appends_Byte : enc.

(** Proves a [Prepends] or an [Appends] goal by the structure of the program;
    the equation on the bytes of a sequence is left when it is not trivial. *)
Ltac prepends :=
  first [ solve [simple eapply Prepends_ret | eauto 1 with enc nocore]
        | eapply Prepends_bind; [ prepends | prepends | try reflexivity ] ].
Ltac appends :=
  first [ solve [simple eapply Appends_ret | eauto 1 with enc nocore]
        | eapply Appends_bind; [ appends | appends | try reflexivity ] ].

Lemma Prepends_VarNumber n : Prepends (prependVarNumber n) (sizeOfVarNumber n) (writeVarNumber n).
Proof.
  unfold prependVarNumber, sizeOfVarNumber, writeVarNumber.
  repeat case_bool; prepends.
Qed.

Lemma Appends_VarNumber n : Appends (appendVarNumber n) (sizeOfVarNumber n) (writeVarNumber n).
Proof.
  unfold appendVarNumber, sizeOfVarNumber, writeVarNumber.
  repeat case_bool; appends; simpl; by rewrite app_nil_r.
Qed.

Lemma Prepends_Integer n :
  Prepends (prependNonNegativeInteger n) (encoderIntegerSize n) (encoderIntegerBytes n).
Proof.
  unfold prependNonNegativeInteger, encoderIntegerSize, encoderIntegerBytes.
  repeat case_bool; first [apply Prepends_Byte | apply Prepends_ByteArray].
Qed.

Lemma Appends_Integer n :
  Appends (appendNonNegativeInteger n) (encoderIntegerSize n) (encoderIntegerBytes n).
Proof.
  unfold appendNonNegativeInteger, encoderIntegerSize, encoderIntegerBytes.
  repeat case_bool; first [apply Appends_Byte | apply Appends_ByteArray].
Qed.
#[export] Hint Resolve Prepends_VarNumber Appends_VarNumber Prepends_Integer Appends_Integer : enc.
End EncoderFacts.
Export EncoderFacts.

#[global] Instance Encoder_laws : EncodingLaws Encoder.t.
Proof.
  constructor; try done; intros n e; cbn [Encoder.impl prependVarNumber appendVarNumber
    prependNonNegativeInteger appendNonNegativeInteger];
  unfold Encoder.prependVarNumber, Encoder.appendVarNumber, Encoder.prependNonNegativeInteger,
    Encoder.appendNonNegativeInteger, sizeOfVarNumber, encoderIntegerSize; repeat case_bool; done.
Qed.

(** A block fresh from an encoder that holds exactly one element. *)
Record built (b : Block) (t : Z) (v : list Z) : Prop := {
  built_view : view b = (t, v);
  built_buffer : m_buffer b = Some (tlv_wire t v);
  built_wire : wire b = Ok (tlv_wire t v);
  built_size : value_size b = len v;
  built_sub : m_subBlocks b = [];
  built_wf : wf_bytes v -> wf_block b;
  built_total : Block_size b = Ok (len (tlv_wire t v))
}.

Lemma wf_tlv_wire t v : wf_element (t, v) -> wf_bytes v -> wf_bytes (tlv_wire t v).
Proof.
  intros [Ht Hl] Hv. simpl in *. unfold tlv_wire.
  apply wf_bytes_app. split; [apply wf_writeVarNumber; width_lia|].
  apply wf_bytes_app. split; [apply wf_writeVarNumber; len_lia|done].
Qed.

Lemma wf_wires es : Forall wf_element es -> Forall (fun x => wf_bytes x.2) es -> wf_bytes (wires es).
Proof.
  induction es as [|[t v] es IH]; intros H1 H2; [by apply Forall_nil_2|].
  apply Forall_cons in H1 as [? ?]. apply Forall_cons in H2 as [? ?].
  rewrite wires_cons. apply wf_bytes_app. split; [by apply wf_tlv_wire|by apply IH].
Qed.

Section TwoPass.
Import Encoder.

(** [m] returns [a] and puts [pre] before and [post] after the content. *)
Definition Writes {A} (m : state t A) (a : A) (pre post : list Z) : Prop :=
  forall e, inv e -> (m e).1 = a /\ inv (m e).2 /\ content (m e).2 = pre ++ content e ++ post.

Lemma Prepends_Writes {A} (m : state t A) a bs : Prepends m a bs -> Writes m a bs [].
Proof. intros H e Hi. destruct (H e Hi) as (?&?&?&_). by rewrite app_nil_r. Qed.

Lemma Appends_Writes {A} (m : state t A) a bs : Appends m a bs -> Writes m a [] bs.
Proof. intros H e Hi. by destruct (H e Hi). Qed.

Lemma Writes_bind {A B} (m : state t A) (k : A -> state t B) a b p1 q1 p2 q2 :
  Writes m a p1 q1 -> Writes (k a) b p2 q2 -> Writes (sbind m k) b (p2 ++ p1) (q1 ++ q2).
Proof.
  intros H1 H2 e Hi. specialize (H1 e Hi). unfold sbind.
  destruct (m e) as [a' e']. simpl in H1. destruct H1 as (->&Hi'&Hc).
  destruct (H2 e' Hi') as (?&?&->). split_and!; [done..|]. by rewrite Hc, <- !app_assoc.
Qed.

Lemma Writes_eq {A} (m : state t A) a pre post pre' post' : Writes m a pre post -> pre = pre' -> post = post' -> Writes m a pre' post'.
Proof. by intros ? -> ->. Qed.

(** The block of an encoder that holds one element. *)
Lemma block_of_content e t v :
  inv e -> content e = tlv_wire t v -> wf_element (t, v) ->
  exists b, block true e = Ok b /\ view b = (t, v) /\ wire b = Ok (tlv_wire t v).
Proof.
  unfold inv, content, block, Block_of_range. intros Hi Hc Hel. rewrite Hc.
  destruct (read_header t v [] Hel) as [H1 H2]. rewrite !app_nil_r in *.
  rewrite H1. simpl. rewrite H2. simpl. rewrite Z.eqb_refl. simpl. eexists. split; [done|].
  pose proof (buffer_split _ _ _ Hi) as Hb. rewrite Hc in Hb.
  assert (Hw : e_buffer e = take (e_begin e) (e_buffer e) ++ wires [(t, v)] ++ drop (e_end e) (e_buffer e))
    by (unfold wires; simpl; by rewrite app_nil_r).
  destruct (element_blocks_view [(t, v)] _ _ _ Hw) as [Hv Hwi].
  cbn [element_blocks map fst snd] in Hv, Hwi. rewrite length_take_le in Hv, Hwi by lia.
  pose proof (length_slice _ _ (e_buffer e) (proj1 Hi) (proj2 Hi)) as Hl.
  rewrite Hc, length_tlv_wire in Hl.
  replace (e_end e - length v)%nat with (e_begin e + header_length (t, v))%nat by lia.
  replace (e_end e) with (e_begin e + header_length (t, v) + length v)%nat by lia.
  split; congruence.
Qed.

(** Encoding in a buffer of the estimated size fills it exactly. *)
Lemma twoPass_exact (f : forall E `{EncodingImpl E}, state E Z) bs :
  (f Estimator.t tt).1 = len bs -> Prepends (f Encoder.t) (len bs) bs ->
  e_buffer (twoPass f) = bs /\ e_begin (twoPass f) = 0%nat /\ e_end (twoPass f) = length bs.
Proof.
  intros He Hp. unfold twoPass. rewrite He, to_nat_len.
  set (e0 := create (length bs) 0).
  assert (e_begin e0 = length bs /\ e_end e0 = length bs /\ length (e_buffer e0) = length bs)
    as (Hb&Hend&Hl).
  { unfold e0, create. cbn [e_begin e_end e_buffer]. rewrite length_replicate. case_bool; lia. }
  assert (Hi : inv e0) by (unfold inv; lia).
  destruct (Hp e0 Hi) as (_&_&Hc&Hr). destruct Hr as (Hb'&He'&Hl'); [lia|].
  rewrite Hb', He', Hb, Hend, Nat.sub_diag. split_and!; try done.
  unfold content in Hc. rewrite Hb', He', Hb, Hend, Nat.sub_diag in Hc.
  unfold slice in Hc at 2. rewrite Nat.sub_diag, take_0, app_nil_r in Hc.
  rewrite <- Hc. rewrite <- Hl, <- Hl' at 1. symmetry. apply slice_all.
Qed.

(** A buffer that is exactly one element, as a block *)
Lemma raw_built t v : wf_element (t, v) ->
  built (Block_raw (tlv_wire t v) t 0 (length (tlv_wire t v)) (length (tlv_wire t v) - length v) (length (tlv_wire t v))) t v.
Proof.
  intros Hel. assert (Hw : tlv_wire t v = [] ++ wires [(t, v)] ++ []) by (unfold wires; simpl; by rewrite !app_nil_r).
  destruct (element_blocks_view [(t, v)] _ _ _ Hw) as [Hv Hwi].
  cbn [element_blocks map fst snd length Nat.add] in Hv, Hwi.
  rewrite <- length_tlv_wire in Hv, Hwi.
  replace (length (tlv_wire t v) - length v)%nat with (header_length (t, v))
    by (rewrite length_tlv_wire; lia).
  split; [congruence|done|congruence| |done| |].
  - unfold value_size, len. simpl. rewrite length_tlv_wire. lia.
  - intros Hwf. unfold wf_block. cbn [Block_raw m_buffer m_begin m_end m_value_begin m_value_end].
    rewrite length_tlv_wire. split_and!; try lia. by apply wf_tlv_wire.
  - unfold Block_size, hasValue. simpl. rewrite orb_true_r. f_equal. unfold len. lia.
Qed.

(** The result of a two-pass [make...Block]. *)
Lemma twoPass_block (f : forall E `{EncodingImpl E}, state E Z) t v :
  (f Estimator.t tt).1 = len (tlv_wire t v) ->
  Prepends (f Encoder.t) (len (tlv_wire t v)) (tlv_wire t v) ->
  wf_element (t, v) ->
  exists b, block true (twoPass f) = Ok b /\ built b t v.
Proof.
  intros He Hp Hel. destruct (twoPass_exact f _ He Hp) as (Hbuf&Hb&Hend).
  unfold block. rewrite Hbuf, Hb, Hend. unfold Block_of_range. rewrite slice_all.
  destruct (read_header t v [] Hel) as [H1 H2]. rewrite !app_nil_r in *.
  rewrite H1. simpl. rewrite H2. simpl. rewrite Z.eqb_refl. simpl.
  eexists. split; [done|]. by apply raw_built.
Qed.

(** Reading such a buffer *)
Lemma Block_of_buffer_built t v : wf_element (t, v) -> exists b, Block_of_buffer (tlv_wire t v) = Ok b /\ built b t v.
Proof.
  intros Hel. unfold Block_of_buffer. destruct (read_header t v [] Hel) as [H1 H2]. rewrite !app_nil_r in *.
  rewrite H1. simpl. rewrite H2. simpl. rewrite Z.eqb_refl. simpl. eexists. split; [done|]. by apply raw_built.
Qed.
End TwoPass.

(** Sizes through the interface, whatever the implementation. *)
Section Sizes.
Context {E : Type} `{EncodingLaws E}.

Lemma size_bind2 {A} (m : state E A) (k : A -> state E Z) e n :
  (forall e', (k (m e).1 e').1 = n) -> (sbind m k e).1 = n.
Proof. unfold sbind. destruct (m e). simpl. done. Qed.

Lemma prependByteArrayBlock_size t v (e : E) :
  (prependByteArrayBlock t v e).1 = len (tlv_wire t v).
Proof.
  unfold prependByteArrayBlock. do 3 (apply size_bind2; intros).
  rewrite prependByteArray_size, !prependVarNumber_size. unfold tlv_wire.
  autorewrite with len. simpl. lia.
Qed.

Lemma prependStringBlock_size t v (e : E) :
  (prependStringBlock t v e).1 = len (tlv_wire t v).
Proof.
  unfold prependStringBlock. do 3 (apply size_bind2; intros).
  rewrite prependByteArray_size, !prependVarNumber_size. unfold tlv_wire.
  autorewrite with len. simpl. lia.
Qed.

Lemma prependNonNegativeIntegerBlock_size t n (e : E) :
  (prependNonNegativeIntegerBlock t n e).1 = len (tlv_wire t (encoderIntegerBytes n)).
Proof.
  unfold prependNonNegativeIntegerBlock. do 3 (apply size_bind2; intros).
  rewrite prependNonNegativeInteger_size, !prependVarNumber_size. unfold tlv_wire.
  autorewrite with len. rewrite len_encoderIntegerBytes. simpl. lia.
Qed.

Lemma prependEmptyBlock_size t (e : E) : (prependEmptyBlock t e).1 = len (tlv_wire t []).
Proof.
  unfold prependEmptyBlock. do 2 (apply size_bind2; intros).
  rewrite !prependVarNumber_size. unfold tlv_wire. autorewrite with len. simpl. lia.
Qed.
End Sizes.

Lemma Prepends_eq {A} (m : state Encoder.t A) a bs a' bs' :
  Prepends m a bs -> a = a' -> bs = bs' -> Prepends m a' bs'.
Proof. by intros ? -> ->. Qed.

Ltac prepends_block :=
  eapply Prepends_eq; [prepends | unfold tlv_wire; autorewrite with len; lia
                      | unfold tlv_wire; simpl; rewrite ?app_assoc, ?app_nil_r; try done ].

Lemma Prepends_ByteArrayBlock t v :
  Prepends (prependByteArrayBlock t v) (len (tlv_wire t v)) (tlv_wire t v).
Proof. unfold prependByteArrayBlock. prepends_block. Qed.

Lemma Prepends_StringBlock t v :
  Prepends (prependStringBlock t v) (len (tlv_wire t v)) (tlv_wire t v).
Proof. unfold prependStringBlock. prepends_block. Qed.

Lemma Prepends_IntegerBlock t n :
  Prepends (prependNonNegativeIntegerBlock t n)
    (len (tlv_wire t (encoderIntegerBytes n))) (tlv_wire t (encoderIntegerBytes n)).
Proof.
  unfold prependNonNegativeIntegerBlock. eapply Prepends_eq; [prepends| |];
    unfold tlv_wire; autorewrite with len; rewrite len_encoderIntegerBytes; [lia|].
  simpl. by rewrite app_assoc.
Qed.

Lemma Prepends_EmptyBlock t : Prepends (prependEmptyBlock t) (len (tlv_wire t [])) (tlv_wire t []).
Proof. unfold prependEmptyBlock. prepends_block. Qed.
#[export] Hint Resolve Prepends_ByteArrayBlock Prepends_StringBlock Prepends_IntegerBlock
  Prepends_EmptyBlock : enc.

Lemma makeBinaryBlock_ok t v :
  wf_element (t, v) ->
  exists b, makeBinaryBlock t v = Ok b /\ built b t v.
Proof. apply twoPass_block; [apply prependByteArrayBlock_size | apply Prepends_ByteArrayBlock]. Qed.

Lemma makeIntegerBlock_ok t n :
  0 <= t < U32 ->
  exists b, makeNonNegativeIntegerBlock t n = Ok b /\ built b t (encoderIntegerBytes n).
Proof.
  intros Ht.
  apply twoPass_block; [apply prependNonNegativeIntegerBlock_size | apply Prepends_IntegerBlock|].
  split; [done|]. simpl. rewrite len_encoderIntegerBytes. unfold encoderIntegerSize.
  repeat case_bool; width_lia.
Qed.

Lemma read_encoderInteger n s :
  0 <= n < U64 ->
  readNonNegativeInteger (encoderIntegerSize n) (encoderIntegerBytes n ++ s) = Ok (n, s).
Proof.
  intros Hn. unfold encoderIntegerSize, encoderIntegerBytes.
  repeat case_bool; unfold readNonNegativeInteger; simpl Z.eqb; cbv iota; try done;
    rewrite len_app, len_be_encode, (proj2 (Z.ltb_ge _ _)) by (pose proof (len_nonneg s); lia).
  - destruct (be_read 2 n s) as [-> ->]; [width_lia|done].
  - destruct (be_read 4 n s) as [-> ->]; [width_lia|done].
  - destruct (be_read 8 n s) as [-> ->]; [width_lia|done].
Qed.

(** ** Properties *)

(** The growing buffer of [Encoder] implements a byte sequence with two
    ends: whatever the room left, prepending (appending) puts exactly the
    bytes in front of (after) what was written, returns their number, and
    keeps the iterators in the buffer. *)
Theorem encoder_refines_bytes (e : Encoder.t) (Hi : Encoder.inv e) (n : Z) (l : list Z) :
  (forall m size bs, In (m, size, bs)
     [ (Encoder.prependByteArray l, len l, l);
       (Encoder.prependVarNumber n, sizeOfVarNumber n, writeVarNumber n);
       (Encoder.prependNonNegativeInteger n, encoderIntegerSize n, encoderIntegerBytes n) ] ->
     let '(r, e') := m e in
     r = size /\ Encoder.inv e' /\ Encoder.content e' = bs ++ Encoder.content e) /\
  (forall m size bs, In (m, size, bs)
     [ (Encoder.appendByteArray l, len l, l);
       (Encoder.appendVarNumber n, sizeOfVarNumber n, writeVarNumber n);
       (Encoder.appendNonNegativeInteger n, encoderIntegerSize n, encoderIntegerBytes n) ] ->
     let '(r, e') := m e in
     r = size /\ Encoder.inv e' /\ Encoder.content e' = Encoder.content e ++ bs).
Proof.
  assert (HP : forall (m : state Encoder.t Z) size bs, Prepends m size bs ->
    let '(r, e') := m e in
    r = size /\ Encoder.inv e' /\ Encoder.content e' = bs ++ Encoder.content e).
  { intros m size bs H. destruct (H e Hi) as (?&?&?&_). by destruct (m e). }
  assert (HA : forall (m : state Encoder.t Z) size bs, Appends m size bs ->
    let '(r, e') := m e in
    r = size /\ Encoder.inv e' /\ Encoder.content e' = Encoder.content e ++ bs).
  { intros m size bs H. destruct (H e Hi) as (?&?&?). by destruct (m e). }
  split; intros m size bs Hin; simpl in Hin; destruct_or! Hin; simplify_eq;
    (apply HP || apply HA); auto with enc.
Qed.

(** [makeBinaryBlock] and [makeNonNegativeIntegerBlock] estimate the
    size exactly: the buffer they allocate is the wire of the block, with
    nothing before or after, and the block reads back as what was put in. *)
Theorem make_blocks_exact (type n : Z) (v : list Z)
  (Hel : wf_element (type, v)) (Hn : 0 <= n < U64) :
  (exists b, makeBinaryBlock type v = Ok b /\ m_buffer b = Some (tlv_wire type v) /\
     view b = (type, v)) /\
  (exists b, makeNonNegativeIntegerBlock type n = Ok b /\
     m_buffer b = Some (tlv_wire type (encoderIntegerBytes n)) /\
     readNonNegativeIntegerBlock b = Ok n).
Proof.
  split.
  - destruct (makeBinaryBlock_ok type v Hel) as (b&?&[]). eauto.
  - destruct (makeIntegerBlock_ok type n) as (b&Hb&[Hv Hbuf _ Hs _ _]); [apply Hel|].
    exists b. split_and!; [done..|].
    unfold readNonNegativeIntegerBlock. injection Hv as _ ->.
    rewrite Hs, len_encoderIntegerBytes, <- (app_nil_r (encoderIntegerBytes n)).
    by rewrite read_encoderInteger by done.
Qed.

(** ** Witnesses *)

Lemma encoder_refines_bytes_witness :
  let e := Encoder.create 2 1 in
  let '(r, e') := Encoder.prependVarNumber 300 e in
  r = 3 /\ Encoder.inv e' /\ Encoder.content e' = [253; 1; 44] ++ Encoder.content e.
Proof.
  assert (Hi : Encoder.inv (Encoder.create 2 1)) by (unfold Encoder.inv; simpl; lia).
  apply (proj1 (encoder_refines_bytes (Encoder.create 2 1) Hi 300 [])
           (Encoder.prependVarNumber 300) 3 [253; 1; 44]).
  right. left. reflexivity.
Defined.

Lemma make_blocks_exact_witness :
  (exists b, makeBinaryBlock 8 [1; 2] = Ok b /\ m_buffer b = Some [8; 2; 1; 2] /\
     view b = (8, [1; 2])) /\
  (exists b, makeNonNegativeIntegerBlock 8 254 = Ok b /\ m_buffer b = Some [8; 1; 254] /\
     readNonNegativeIntegerBlock b = Ok 254).
Proof. apply (make_blocks_exact 8 254 [1; 2]); [by_decide | width_lia]. Defined.
