(* ===== verification/Elements.v ===== *)
(** * Elements of blocks

    What the packet codecs share: parsing a block as an operation that can
    fail, blocks that stand for an element with a type and a value, looking an
    element up, and what the generic [wireEncode] templates write for both
    encoders. *)

From S2P Require Import Prelude Tlv Block Encoder.

(** [parse()], with its exception *)
Definition Block_parse (b : Block) : result Block :=
  match parse b with
  | (b', None) => Ok b'
  | (_, Some e) => Err e
  end.

(** The loops that write a list of blocks, given in reverse *)
Fixpoint prependBlocks {E} `{EncodingImpl E} (l : list Block) (totalLength : Z) : state E Z :=
  match l with
  | [] => sret totalLength
  | x :: l' => let~ k := prependBlock x in prependBlocks l' (totalLength + k)
  end.

(** ** Blocks as elements *)

(** A block that stands for the field with type and value [x]. *)
Record elem_ok (b : Block) (x : Z * list Z) : Prop := {
  ek_view : view b = x;
  ek_wire : wire b = Ok (tlv_wire x.1 x.2);
  ek_size : value_size b = len x.2;
  ek_total : Block_size b = Ok (len (tlv_wire x.1 x.2));
  ek_wf : wf_block b;
  ek_sub : m_subBlocks b = []
}.

Definition wf_fields (es : list (Z * list Z)) : Prop := Forall wf_element es /\ Forall (fun x => wf_bytes x.2) es.

Lemma wf_fields_cons x es : wf_fields (x :: es) <-> (wf_element x /\ wf_bytes x.2) /\ wf_fields es.
Proof. unfold wf_fields. rewrite !Forall_cons. tauto. Qed.

Lemma wf_fields_app es1 es2 : wf_fields (es1 ++ es2) <-> wf_fields es1 /\ wf_fields es2.
Proof. unfold wf_fields. rewrite !Forall_app. tauto. Qed.

Lemma built_elem_ok b t v : built b t v -> wf_bytes v -> elem_ok b (t, v).
Proof. intros [Hv _ Hw Hs Hsub Hwf Ht] Hb. split; auto. Qed.

Lemma elem_ok_type b x : elem_ok b x -> m_type b = x.1.
Proof. intros [<- _ _ _ _ _]. done. Qed.
Lemma elem_ok_value b x : elem_ok b x -> value b = x.2.
Proof. intros [<- _ _ _ _ _]. done. Qed.

Lemma element_blocks_ok es : forall buffer pre post, buffer = pre ++ wires es ++ post -> wf_bytes buffer ->
  Forall2 elem_ok (element_blocks buffer (length pre) es) es.
Proof.
  induction es as [|[t v] es IH]; intros buffer pre post Hb Hw; [constructor|].
  cbn [element_blocks fst snd]. rewrite wires_cons, <- app_assoc in Hb. constructor.
  - assert (Hb1 : buffer = pre ++ wires [(t, v)] ++ (wires es ++ post)) by (rewrite wires_cons, app_nil_r; exact Hb).
    destruct (element_blocks_view [(t, v)] buffer pre (wires es ++ post) Hb1) as [Hv Hwi].
    cbn [element_blocks map fst snd] in Hv, Hwi. apply (f_equal (hd (0, []))) in Hv. apply (f_equal (hd (Ok []))) in Hwi. cbn [hd] in Hv, Hwi.
    pose proof (header_length_pos (t, v)).
    assert (Hl : (length pre + header_length (t, v) + length v <= length buffer)%nat).
    { rewrite Hb, !length_app, length_tlv_wire. lia. }
    split; [done|done| | | |done].
    + unfold value_size, len. simpl. lia.
    + unfold Block_size, hasValue. simpl. rewrite orb_true_r. f_equal. unfold len. rewrite length_tlv_wire. lia.
    + unfold wf_block. simpl. split_and!; [lia..|done].
  - specialize (IH buffer (pre ++ tlv_wire t v) post). rewrite length_app, length_tlv_wire, Nat.add_assoc in IH.
    apply IH; [by rewrite Hb, <- !app_assoc|done].
Qed.

Lemma parse_done b l : m_subBlocks b = l -> l <> [] -> parse b = (b, None).
Proof. intros Hl Hne. unfold parse. rewrite Hl. by destruct l. Qed.

Lemma parse_empty b : value_size b = 0 -> parse b = (b, None).
Proof. intros Hv. unfold parse. by rewrite Hv, orb_true_r. Qed.

(** Parsing the value of a block that is a list of fields *)
Lemma Block_parse_value b es : wf_block b -> m_subBlocks b = [] -> value b = wires es -> wf_fields es ->
  exists l, Block_parse b = Ok (set_subBlocks b l) /\ Forall2 elem_ok l es.
Proof.
  intros Hwf Hsub Hval [Hes Hby]. unfold Block_parse. destruct es as [|x es].
  - exists []. split; [|constructor]. assert (Hz : value_size b = 0).
    { unfold value_size, value, wf_block, hasValue in *. destruct (m_buffer b) as [buffer|]; [|done].
      destruct Hwf as (_&Hr&_). pose proof (length_slice _ _ buffer (proj1 Hr) (proj2 Hr)) as Hl. rewrite Hval in Hl. simpl in Hl. lia. }
    rewrite parse_empty by done. f_equal. destruct b. cbn in *. by subst.
  - destruct (parse_elements b (x :: es) [] Hwf Hsub Hes) as (buffer&Hb&_&Hp); [by rewrite app_nil_r|done|].
    rewrite Hp, parse_loop_nil. eexists. split; [reflexivity|].
    unfold wf_block in Hwf. rewrite Hb in Hwf. destruct Hwf as (_&Hr&Hw).
    pose proof (buffer_split _ _ _ Hr) as Hs. unfold value in Hval. rewrite Hb in Hval. rewrite Hval in Hs.
    pose proof (element_blocks_ok (x :: es) buffer (take (m_value_begin b) buffer) _ Hs Hw) as Hok.
    by rewrite length_take_le in Hok by lia.
Qed.

Lemma wf_encoderIntegerBytes n : 0 <= n -> wf_bytes (encoderIntegerBytes n).
Proof.
  intros Hn. unfold encoderIntegerBytes. repeat case_bool; try apply wf_be_encode.
  apply Forall_singleton. unfold is_byte. unfold u8_max, U8 in *. lia.
Qed.

Lemma elem_ok_types l es : Forall2 elem_ok l es -> map m_type l = map fst es.
Proof. induction 1 as [|b x l es Hx Hl IH]; [done|]. cbn [map]. by rewrite (elem_ok_type b x Hx), IH. Qed.

Lemma elem_ok_views l es : Forall2 elem_ok l es -> map view l = es.
Proof. induction 1 as [|b x l es Hx Hl IH]; [done|]. cbn [map]. by rewrite (ek_view b x Hx), IH. Qed.

(** ** Encoding *)

Lemma prependBlock_size {E} `{EncodingLaws E} b x (e : E) : elem_ok b x -> (prependBlock b e).1 = len (tlv_wire x.1 x.2).
Proof. intros Hb. unfold prependBlock. rewrite (ek_wire _ _ Hb). apply prependByteArray_size. Qed.

Lemma Prepends_Block b x : elem_ok b x -> Prepends (prependBlock b) (len (tlv_wire x.1 x.2)) (tlv_wire x.1 x.2).
Proof. intros Hb. unfold prependBlock. rewrite (ek_wire _ _ Hb). apply Prepends_ByteArray. Qed.

Lemma wires_snoc es x : wires (es ++ [x]) = wires es ++ tlv_wire x.1 x.2.
Proof. rewrite wires_app. destruct x as [t v]. by rewrite wires_cons, app_nil_r. Qed.

(** [f], as a template over the encoders, returns [a]; the estimator counts as
    much as the encoder writes in front of its content, which is [bs]. *)
Definition Encodes {A} (f : forall E, EncodingImpl E -> state E A) (a : A) (bs : list Z) : Prop :=
  (forall e, (f Estimator.t _ e).1 = a) /\ Prepends (f Encoder.t _) a bs.

Lemma Encodes_eq {A} (f : forall E, EncodingImpl E -> state E A) a bs a' bs' : Encodes f a bs -> a = a' -> bs = bs' -> Encodes f a' bs'.
Proof. by intros ? -> ->. Qed.

Lemma Encodes_ret {A} (a : A) : Encodes (fun E _ => sret a) a [].
Proof. split; [done|apply Prepends_ret]. Qed.

Lemma Encodes_bind {A B} (m : forall E, EncodingImpl E -> state E A) (k : forall E, EncodingImpl E -> A -> state E B) a b bs1 bs2 :
  Encodes m a bs1 -> Encodes (fun E H => k E H a) b bs2 -> Encodes (fun E H => sbind (m E H) (k E H)) b (bs2 ++ bs1).
Proof.
  intros [S1 P1] [S2 P2]. split; [|by eapply Prepends_bind].
  intros e. unfold sbind. specialize (S1 e). destruct (m Estimator.t _ e) as [x e']. simpl in S1. subst x. apply S2.
Qed.

(** An element, if it is there *)
Definition opt_elem (c : bool) (x : Z * list Z) : list (Z * list Z) := if c then [x] else [].

Lemma wires_nil : wires [] = [].
Proof. done. Qed.
Lemma wires_single x : wires [x] = tlv_wire x.1 x.2.
Proof. destruct x. by rewrite wires_cons, app_nil_r. Qed.

Lemma Encodes_opt (c : bool) (f : forall E, EncodingImpl E -> state E Z) x : (c = true -> Encodes f (len (tlv_wire x.1 x.2)) (tlv_wire x.1 x.2)) ->
  Encodes (fun E H => if c then f E H else sret 0) (len (wires (opt_elem c x))) (wires (opt_elem c x)).
Proof. intros Hf. destruct c; cbn [opt_elem]; [rewrite wires_single; by apply Hf|apply Encodes_ret]. Qed.

Lemma Encodes_VarNumber n : Encodes (fun E _ => prependVarNumber n) (sizeOfVarNumber n) (writeVarNumber n).
Proof. split; [intros; apply (prependVarNumber_size (E := Estimator.t))|apply Prepends_VarNumber]. Qed.
Lemma Encodes_ByteArray l : Encodes (fun E _ => prependByteArray l) (len l) l.
Proof. split; [intros; apply (prependByteArray_size (E := Estimator.t))|apply Prepends_ByteArray]. Qed.
Lemma Encodes_IntegerBlock t n :
  Encodes (fun E _ => prependNonNegativeIntegerBlock t n) (len (tlv_wire t (encoderIntegerBytes n))) (tlv_wire t (encoderIntegerBytes n)).
Proof. split; [intros; apply (prependNonNegativeIntegerBlock_size (E := Estimator.t))|apply Prepends_IntegerBlock]. Qed.
Lemma Encodes_EmptyBlock t : Encodes (fun E _ => prependEmptyBlock t) (len (tlv_wire t [])) (tlv_wire t []).
Proof. split; [intros; apply (prependEmptyBlock_size (E := Estimator.t))|apply Prepends_EmptyBlock]. Qed.
Lemma Encodes_ByteArrayBlock t v : Encodes (fun E _ => prependByteArrayBlock t v) (len (tlv_wire t v)) (tlv_wire t v).
Proof. split; [intros; apply (prependByteArrayBlock_size (E := Estimator.t))|apply Prepends_ByteArrayBlock]. Qed.
Lemma Encodes_Block b x : elem_ok b x -> Encodes (fun E _ => prependBlock b) (len (tlv_wire x.1 x.2)) (tlv_wire x.1 x.2).
Proof. intros Hb. split; [intros; by apply (prependBlock_size (E := Estimator.t))|by apply Prepends_Block]. Qed.

Lemma Encodes_Blocks l es : Forall2 elem_ok l es -> forall k,
  Encodes (fun E _ => prependBlocks l k) (k + len (wires (rev es))) (wires (rev es)).
Proof.
  induction 1 as [|b x l es Hx Hl IH]; intros k; cbn [prependBlocks rev].
  - eapply Encodes_eq; [apply Encodes_ret|unfold len; simpl; lia|done].
  - eapply Encodes_eq; [eapply Encodes_bind; [by apply Encodes_Block|apply IH]| |by rewrite wires_snoc].
    rewrite wires_snoc, len_app. lia.
Qed.

Lemma Forall2_rev_elems l es : Forall2 elem_ok l es -> Forall2 elem_ok (rev l) (rev es).
Proof. induction 1; cbn [rev]; [constructor|]. apply Forall2_app; [done|]. by constructor. Qed.

Lemma Encodes_rev_Blocks l es : Forall2 elem_ok l es -> Encodes (fun E _ => prependBlocks (rev l) 0) (len (wires es)) (wires es).
Proof.
  intros H2. eapply Encodes_eq; [apply (Encodes_Blocks (rev l) (rev es)); by apply Forall2_rev_elems|by rewrite rev_involutive|by rewrite rev_involutive].
Qed.

(** The end of every [wireEncode]: the length and the type in front of the value *)
Lemma Encodes_header (f : forall E, EncodingImpl E -> state E Z) t v : Encodes f (len v) v ->
  Encodes (fun E H => let~ totalLength := f E H in
                      let~ l1 := prependVarNumber totalLength in
                      let~ l2 := prependVarNumber t in sret (totalLength + l1 + l2)) (len (tlv_wire t v)) (tlv_wire t v).
Proof.
  intros Hf. eapply Encodes_eq.
  - eapply Encodes_bind; [exact Hf|]. eapply Encodes_bind; [apply Encodes_VarNumber|]. eapply Encodes_bind; [apply Encodes_VarNumber|apply Encodes_ret].
  - unfold tlv_wire. autorewrite with len. lia.
  - unfold tlv_wire. cbn [app]. by rewrite <- app_assoc.
Qed.

Lemma tlv_wire_unfold t v : tlv_wire t v = writeVarNumber t ++ writeVarNumber (len v) ++ v.
Proof. done. Qed.

(** The same after the parts of the value [v] *)
Lemma Encodes_tail n t v : n = len v ->
  Encodes (fun E _ => let~ l1 := prependVarNumber n in let~ l2 := prependVarNumber t in sret (n + l1 + l2))
    (len (tlv_wire t v)) (writeVarNumber t ++ writeVarNumber (len v)).
Proof.
  intros ->. eapply Encodes_eq; [eapply Encodes_bind; [apply Encodes_VarNumber|eapply Encodes_bind; [apply Encodes_VarNumber|apply Encodes_ret]]| |done].
  rewrite tlv_wire_unfold, !len_app, !len_writeVarNumber. lia.
Qed.

(** The block that the two passes make *)
Lemma Encodes_block (f : forall E, EncodingImpl E -> state E Z) t v : Encodes f (len (tlv_wire t v)) (tlv_wire t v) -> wf_element (t, v) ->
  exists b, Encoder.block true (twoPass f) = Ok b /\ built b t v.
Proof. intros [Hs Hp] Hel. by apply twoPass_block. Qed.

(** ** Looking elements up *)

Definition find_elem (t : Z) (es : list (Z * list Z)) : option (list Z) := snd <$> List.find (fun x => x.1 =? t) es.

Lemma find_spec b t es : Forall2 elem_ok (m_subBlocks b) es ->
  match find b t, find_elem t es with
  | Some x, Some v => elem_ok x (t, v)
  | None, None => True
  | _, _ => False
  end.
Proof.
  unfold find, find_elem. induction 1 as [|x [u v] l es Hx Hl IH]; [done|]. cbn [List.find fst]. rewrite (elem_ok_type _ _ Hx). cbn [fst].
  destruct (Z.eqb_spec u t) as [->|]; [done|exact IH].
Qed.

Lemma find_Some b t es v : Forall2 elem_ok (m_subBlocks b) es -> find_elem t es = Some v -> exists x, find b t = Some x /\ elem_ok x (t, v).
Proof. intros H2 Hf. pose proof (find_spec b t es H2) as Hs. rewrite Hf in Hs. destruct (find b t) as [x|]; [by exists x|done]. Qed.

Lemma find_None b t es : Forall2 elem_ok (m_subBlocks b) es -> find_elem t es = None -> find b t = None.
Proof. intros H2 Hf. pose proof (find_spec b t es H2) as Hs. rewrite Hf in Hs. by destruct (find b t). Qed.

Lemma find_elem_app t es1 es2 : find_elem t (es1 ++ es2) = match find_elem t es1 with Some v => Some v | None => find_elem t es2 end.
Proof. unfold find_elem. induction es1 as [|x es1 IH]; [done|]. cbn [app List.find]. by destruct (x.1 =? t). Qed.

Lemma find_elem_opt t c x : find_elem t (opt_elem c x) = if c && (x.1 =? t) then Some x.2 else None.
Proof. unfold find_elem, opt_elem. destruct c; [|done]. cbn [List.find andb]. by destruct (x.1 =? t). Qed.

Lemma read_integer_elem x t n : elem_ok x (t, encoderIntegerBytes n) -> 0 <= n < U64 -> readNonNegativeIntegerBlock x = Ok n.
Proof.
  intros Hx Hn. unfold readNonNegativeIntegerBlock. rewrite (ek_size _ _ Hx), (elem_ok_value _ _ Hx). cbn [snd].
  by rewrite len_encoderIntegerBytes, <- (app_nil_r (encoderIntegerBytes n)), read_encoderInteger by done.
Qed.

Lemma wf_integer_field t n : 0 <= t < U32 -> 0 <= n -> wf_element (t, encoderIntegerBytes n) /\ wf_bytes (encoderIntegerBytes n).
Proof.
  intros Ht Hn. split; [|by apply wf_encoderIntegerBytes]. split; [done|]. simpl. rewrite len_encoderIntegerBytes.
  unfold encoderIntegerSize. repeat case_bool; width_lia.
Qed.

(** Every element of a nested list of elements is shorter than its wire. *)
Lemma len_wires_In es x : x ∈ es -> len x.2 <= len (wires es).
Proof.
  intros (l1&l2&->)%list_elem_of_split. destruct x as [t v]. rewrite wires_app, wires_cons, !len_app. cbn [snd].
  unfold tlv_wire. rewrite !len_app. len_lia.
Qed.

(** The element at the front, when it may be absent *)
Lemma Forall2_front (c : bool) x es l : Forall2 elem_ok l (opt_elem c x ++ es) ->
  exists l', Forall2 elem_ok l' es /\ if c then exists b, l = b :: l' /\ elem_ok b x else l = l'.
Proof.
  destruct c; cbn [opt_elem app]; intros H2; [|by exists l]. destruct l as [|b l']; [by inversion H2|].
  apply Forall2_cons in H2 as [Hb H2]. exists l'. split; [done|]. by exists b.
Qed.

(** The block in the value of an element *)
Lemma blockFromValue_elem x t u v : elem_ok x (t, tlv_wire u v) -> wf_element (u, v) ->
  exists b, blockFromValue x = Ok b /\ view b = (u, v).
Proof.
  intros Hx Hel. unfold blockFromValue. rewrite (ek_size _ _ Hx). cbn [snd].
  assert (Hl : (1 <= length (tlv_wire u v))%nat) by (rewrite length_tlv_wire; pose proof (header_length_pos (u, v)); lia).
  rewrite (proj2 (Z.eqb_neq _ _)) by (unfold len; lia).
  pose proof (elem_ok_value _ _ Hx) as Hval. pose proof (ek_wf _ _ Hx) as Hwf. unfold wf_block in Hwf. cbn [snd] in Hval.
  rewrite Hval. unfold value in Hval.
  destruct (m_buffer x) as [buffer|]; [|exfalso; by rewrite <- Hval in Hl; simpl in Hl; lia].
  destruct (read_header u v [] Hel) as [H1 H2]. rewrite !app_nil_r in *. rewrite H1. cbn [rbind]. rewrite H2. cbn [rbind].
  rewrite Z.eqb_refl. cbn [negb]. eexists. split; [done|]. unfold view. cbn. f_equal. unfold value. cbn.
  destruct Hwf as (_&Hr&_). pose proof (length_slice _ _ buffer (proj1 Hr) (proj2 Hr)) as Hlen. rewrite Hval, length_tlv_wire in Hlen.
  assert (Hd : drop (header_length (u, v)) (tlv_wire u v) = v) by (unfold tlv_wire, header_length; cbn [fst snd]; rewrite app_assoc, <- length_app; apply drop_app_length).
  transitivity (drop (header_length (u, v)) (slice (m_value_begin x) (m_value_end x) buffer)); [|by rewrite Hval].
  rewrite drop_slice by lia. fold (slice (m_value_end x - length v) (m_value_end x) buffer). f_equal. lia.
Qed.

Lemma Encodes_wired b w : wire b = Ok w -> Encodes (fun E _ => prependBlock b) (len w) w.
Proof.
  intros Hb. unfold prependBlock. rewrite Hb. apply Encodes_ByteArray.
Qed.

Lemma get_elem b t es v : Forall2 elem_ok (m_subBlocks b) es -> find_elem t es = Some v -> exists x, get b t = Ok x /\ elem_ok x (t, v).
Proof. intros H2 Hf. destruct (find_Some b t es v H2 Hf) as (x&Hx&Hok). exists x. unfold get. by rewrite Hx. Qed.

(** A list of elements with a wire that is short enough *)
Lemma wf_fields_intro es : Forall (fun t => 0 <= t < U32) (map fst es) -> Forall wf_bytes (map snd es) -> len (wires es) < U64 -> wf_fields es.
Proof.
  intros Ht Hb Hl. rewrite Forall_map in Ht, Hb. split; [|done]. apply Forall_forall. intros x Hx. rewrite Forall_forall in Ht.
  split; [by apply Ht|]. pose proof (len_wires_In es x Hx). lia.
Qed.

Lemma wf_fields_bytes es : wf_fields es -> wf_bytes (wires es).
Proof. intros [? ?]. by apply wf_wires. Qed.

Lemma len_tlv_wire_le t v : len (tlv_wire t v) <= 18 + len v.
Proof. rewrite tlv_wire_unfold, !len_app, !len_writeVarNumber. unfold sizeOfVarNumber. repeat case_bool; lia. Qed.

(** ** Concrete blocks *)

#[global] Instance wf_fields_dec es : Decision (wf_fields es).
Proof. unfold wf_fields. apply _. Defined.
#[global] Instance wf_block_dec b : Decision (wf_block b).
Proof. unfold wf_block. destruct (m_buffer b); apply _. Defined.

Definition from_ok {A} (d : A) (r : result A) : A := match r with Ok a => a | Err _ => d end.

(** A closed block that holds an element *)
Ltac by_elem := split; [vm_compute; reflexivity|vm_compute; reflexivity|vm_compute; reflexivity|vm_compute; reflexivity|by_decide|vm_compute; reflexivity].
