(* ===== verification/NameComponent.v ===== *)
(** * Name components: [ndn-cxx/src/name-component.cpp] and
      [ndn-cxx/src/util/string-helper.cpp]

    A [Component] is what the code reads of the block it wraps: the TLV type
    and the value.  Strings are lists of character codes. *)

From S2P Require Import Prelude StdMap Tlv Block Encoder.

Record Component : Set := MkComponent { c_type : Z; c_value : list Z }.

#[global] Instance Component_eq_dec : EqDecision Component.
Proof. solve_decision. Defined.

Definition SEGMENT_MARKER : Z := 0x00.
Definition SEGMENT_OFFSET_MARKER : Z := 0xFB.
Definition VERSION_MARKER : Z := 0xFD.
Definition TIMESTAMP_MARKER : Z := 0xFC.
Definition SEQUENCE_NUMBER_MARKER : Z := 0xFE.
Definition SHA256_DIGEST_SIZE : Z := 32.

(** ** String helpers *)

(** [std::isspace] in the classic locale, which [boost::algorithm::trim] uses *)
Definition isspace (c : Z) : bool := ((9 <=? c) && (c <=? 13)) || (c =? 32).

Fixpoint trimLeft (s : list Z) : list Z :=
  match s with
  | c :: s' => if isspace c then trimLeft s' else s
  | [] => []
  end.
Definition trimRight (s : list Z) : list Z := rev (trimLeft (rev s)).
Definition trim (s : list Z) : list Z := trimRight (trimLeft s).

Definition fromHexChar (c : Z) : Z :=
  if (48 <=? c) && (c <=? 57) then c - 48
  else if (65 <=? c) && (c <=? 70) then c - 65 + 0xA
  else if (97 <=? c) && (c <=? 102) then c - 97 + 0xA
  else -1.

Fixpoint unescape (str : list Z) : list Z :=
  match str with
  | [] => []
  | c :: s1 =>
      match s1 with
      | a :: b :: s2 =>
          if c =? 37 then
            let hi := fromHexChar a in
            let lo := fromHexChar b in
            if (hi <? 0) || (lo <? 0) then c :: a :: b :: unescape s2
            else Z.lor (Z.shiftl hi 4) lo :: unescape s2
          else c :: unescape s1
      | _ => c :: unescape s1
      end
  end.

(** One hexadecimal digit, as an output stream prints it. *)
Definition hexDigit (upper : bool) (n : Z) : Z :=
  if n <? 10 then 48 + n else (if upper then 55 else 87) + n.

(** [printHex]: two digits per byte. *)
Definition printHex (upper : bool) (buffer : list Z) : list Z :=
  concat (map (fun x => [hexDigit upper (x / 16); hexDigit upper (x mod 16)]) buffer).

(** The CryptoPP [HexDecoder]: characters that are no digit are skipped, an
    incomplete last byte is dropped. *)
Fixpoint hexPairs (l : list Z) : list Z :=
  match l with
  | hi :: lo :: l' => Z.lor (Z.shiftl hi 4) lo :: hexPairs l'
  | _ => []
  end.

Definition HexDecoder (s : list Z) : list Z :=
  hexPairs (List.filter (fun v => 0 <=? v) (map fromHexChar s)).

Definition fromHex (hexString : list Z) : result (list Z) :=
  if negb (len hexString mod 2 =? 0) then Err ComponentError
  else
    let buffer := HexDecoder hexString in
    if negb (len buffer * 2 =? len hexString) then Err ComponentError else Ok buffer.

(** The characters of "sha256digest=". *)
Definition sha256DigestUriPrefix : list Z :=
  [115; 104; 97; 50; 53; 54; 100; 105; 103; 101; 115; 116; 61].

(** ** Construction *)

Definition isGeneric (c : Component) : bool := c_type c =? TlvType.NameComponent.

Definition isImplicitSha256Digest (c : Component) : bool :=
  (c_type c =? TlvType.ImplicitSha256DigestComponent) && (len (c_value c) =? SHA256_DIGEST_SIZE).

(** [Component(const Block& wire)] *)
Definition Component_of_Block (b : Block) : result Component :=
  let c := MkComponent (m_type b) (value b) in
  if negb (isGeneric c) && negb (isImplicitSha256Digest c) then Err ComponentError else Ok c.

(** [Component(const uint8_t* value, size_t valueLen)] *)
Definition Component_of_bytes (v : list Z) : result Component :=
  let! b := makeBinaryBlock TlvType.NameComponent v in Component_of_Block b.

Definition fromImplicitSha256Digest (digest : list Z) : result Component :=
  if negb (len digest =? SHA256_DIGEST_SIZE) then Err ComponentError
  else let! b := makeBinaryBlock TlvType.ImplicitSha256DigestComponent digest in
       Component_of_Block b.

(** ** URI *)

Definition all_periods (l : list Z) : bool := forallb (fun x => x =? 0x2e) l.

Definition fromEscapedString (escapedString : list Z) : result Component :=
  let trimmedString := trim escapedString in
  let k := length sha256DigestUriPrefix in
  if bool_decide (take k trimmedString = sha256DigestUriPrefix) then
    if negb (len trimmedString =? len sha256DigestUriPrefix + SHA256_DIGEST_SIZE * 2)
    then Err ComponentError
    else let! digest := fromHex (drop k trimmedString) in fromImplicitSha256Digest digest
  else
    let v := unescape trimmedString in
    if all_periods v then
      if len v <=? 2 then Err ComponentError
      else Component_of_bytes (drop 3 v)
    else Component_of_bytes v.

(** 0-9, A-Z, a-z, (+), (-), (.), (_) *)
Definition unescaped_char (x : Z) : bool :=
  ((0x30 <=? x) && (x <=? 0x39)) || ((0x41 <=? x) && (x <=? 0x5a)) ||
  ((0x61 <=? x) && (x <=? 0x7a)) || (x =? 0x2b) || (x =? 0x2d) || (x =? 0x2e) || (x =? 0x5f).

(** [result << static_cast<uint32_t>(x)] in upper case hexadecimal, with the
    zero that the code adds below 16. *)
Definition escape_char (x : Z) : list Z :=
  if unescaped_char x then [x]
  else 37 :: (if x <? 16 then [48; hexDigit true x]
              else [hexDigit true (x / 16); hexDigit true (x mod 16)]).

Definition toUri (c : Component) : list Z :=
  if c_type c =? TlvType.ImplicitSha256DigestComponent then
    sha256DigestUriPrefix ++ printHex false (c_value c)
  else
    let gotNonDot := negb (all_periods (c_value c)) in
    if negb gotNonDot then [46; 46; 46] ++ map (fun _ => 46) (c_value c)
    else concat (map escape_char (c_value c)).

(** ** Numbers and markers *)

Definition isNumber (c : Component) : bool :=
  let n := len (c_value c) in (n =? 1) || (n =? 2) || (n =? 4) || (n =? 8).

Definition isNumberWithMarker (marker : Z) (c : Component) : bool :=
  match c_value c with
  | [] => false
  | m :: _ =>
      (m =? marker) &&
      (let n := len (c_value c) in (n =? 2) || (n =? 3) || (n =? 5) || (n =? 9))
  end.

Definition isVersion := isNumberWithMarker VERSION_MARKER.
Definition isSegment := isNumberWithMarker SEGMENT_MARKER.
Definition isSegmentOffset := isNumberWithMarker SEGMENT_OFFSET_MARKER.
Definition isTimestamp := isNumberWithMarker TIMESTAMP_MARKER.
Definition isSequenceNumber := isNumberWithMarker SEQUENCE_NUMBER_MARKER.

Definition toNumber (c : Component) : result Z :=
  if negb (isNumber c) then Err ComponentError
  else let! (n, _) := readNonNegativeInteger (len (c_value c)) (c_value c) in Ok n.

Definition toNumberWithMarker (marker : Z) (c : Component) : result Z :=
  if negb (isNumberWithMarker marker c) then Err ComponentError
  else let! (n, _) := readNonNegativeInteger (len (c_value c) - 1) (drop 1 (c_value c)) in Ok n.

Definition toVersion := toNumberWithMarker VERSION_MARKER.
Definition toSegment := toNumberWithMarker SEGMENT_MARKER.
Definition toSegmentOffset := toNumberWithMarker SEGMENT_OFFSET_MARKER.
Definition toSequenceNumber := toNumberWithMarker SEQUENCE_NUMBER_MARKER.

Definition fromNumber (number : Z) : result Component :=
  let! b := makeNonNegativeIntegerBlock TlvType.NameComponent number in Component_of_Block b.

(** [fromNumberWithMarker]; the marker is prepended as a byte array of one. *)
Definition prependMarkedNumber {E} `{EncodingImpl E} (marker number : Z) : state E Z :=
  let~ l1 := prependNonNegativeInteger number in
  let~ l2 := prependByteArray [marker] in
  let valueLength := l1 + l2 in
  let~ l3 := prependVarNumber valueLength in
  let~ l4 := prependVarNumber TlvType.NameComponent in
  sret (valueLength + l3 + l4).

Definition fromNumberWithMarker (marker number : Z) : result Component :=
  let! b := Encoder.block true (twoPass (fun E _ => prependMarkedNumber marker number)) in
  Component_of_Block b.

Definition fromVersion := fromNumberWithMarker VERSION_MARKER.
Definition fromSegment := fromNumberWithMarker SEGMENT_MARKER.
Definition fromSegmentOffset := fromNumberWithMarker SEGMENT_OFFSET_MARKER.
Definition fromSequenceNumber := fromNumberWithMarker SEQUENCE_NUMBER_MARKER.

(** ** Order *)

(** [Component::equals]: the types are not compared. *)
Definition equals (c d : Component) : bool :=
  if negb (len (c_value c) =? len (c_value d)) then false
  else if len (c_value c) =? 0 then true
  else bool_decide (c_value c = c_value d).

(** [std::memcmp] of two arrays of the same length: only the sign is specified. *)
Fixpoint memcmp (a b : list Z) : Z :=
  match a, b with
  | x :: a', y :: b' => if x <? y then -1 else if y <? x then 1 else memcmp a' b'
  | _, _ => 0
  end.

Definition compare (c d : Component) : Z :=
  if c_type c <? c_type d then -1
  else if c_type d <? c_type c then 1
  else if len (c_value c) <? len (c_value d) then -1
  else if len (c_value d) <? len (c_value c) then 1
  else if len (c_value c) =? 0 then 0
  else memcmp (c_value c) (c_value d).

(** [getSuccessor].  The loop from the last byte while it overflows; [todo] is
    the part of the value not yet visited, in reverse.  The result is the
    number of bytes written, [isOverflow], and what is left of [todo]. *)
Fixpoint successorLoop (todo : list Z) : state Encoder.t (Z * bool * list Z) :=
  match todo with
  | [] => sret (0, true, [])
  | x :: todo' =>
      let newValue := Z.land (x + 1) 0xFF in
      let~ l := Encoder.prependByte newValue in
      if newValue =? 0 then
        let~ r := successorLoop todo' in sret (l + r.1.1, r.1.2, r.2)
      else sret (l, false, todo')
  end.

Definition successorEncode (c : Component) : state Encoder.t unit :=
  let~ r := successorLoop (rev (c_value c)) in
  let~ l2 := Encoder.prependByteArray (rev r.2) in
  let~ l3 := (if r.1.2 then Encoder.appendByte 0 else sret 0) in
  let~ _ := Encoder.prependVarNumber (r.1.1 + l2 + l3) in
  let~ _ := Encoder.prependVarNumber (c_type c) in
  sret tt.

Definition getSuccessor (c : Component) : result Component :=
  let size := length (tlv_wire (c_type c) (c_value c)) in
  let! b := Encoder.block true (successorEncode c (Encoder.create (size + 1) 1)).2 in
  Component_of_Block b.

(** [Component::wireEncode(encoder)] *)
Definition Component_wireEncode {E} `{EncodingImpl E} (c : Component) : state E Z :=
  let~ l1 := (if 0 <? len (c_value c) then prependByteArray (c_value c) else sret 0) in
  let~ l2 := prependVarNumber (len (c_value c)) in
  let~ l3 := prependVarNumber (c_type c) in
  sret (l1 + l2 + l3).

(** ** Lemmas *)

(** The components a [Name] can hold: the constructor from a block accepted
    them, and the value is a byte string of a length a TLV can carry. *)
Definition wf_component (c : Component) : Prop :=
  (isGeneric c || isImplicitSha256Digest c) = true /\ wf_bytes (c_value c) /\
  len (c_value c) < 2 ^ 32.

#[global] Instance wf_component_dec c : Decision (wf_component c).
Proof. unfold wf_component. apply _. Defined.

Lemma wf_component_type c : wf_component c -> 0 <= c_type c < U32.
Proof.
  intros [H _]. unfold isGeneric, isImplicitSha256Digest in H.
  apply orb_true_iff in H as [H|H]; [|apply andb_true_iff in H as [H _]];
    apply Z.eqb_eq in H; rewrite H; unfold TlvType.NameComponent, TlvType.ImplicitSha256DigestComponent; width_lia.
Qed.

Lemma wf_component_element c : wf_component c -> wf_element (c_type c, c_value c).
Proof. intros H. pose proof (wf_component_type c H). destruct H as (_&_&H). split; simpl; width_lia. Qed.

Lemma Component_of_Block_view b t v :
  view b = (t, v) -> Component_of_Block b =
    if isGeneric (MkComponent t v) || isImplicitSha256Digest (MkComponent t v)
    then Ok (MkComponent t v) else Err ComponentError.
Proof.
  intros [= <- <-]. unfold Component_of_Block. rewrite <- negb_orb. by destruct (_ || _).
Qed.

Lemma Component_of_Block_wf b c :
  wf_component c -> view b = (c_type c, c_value c) -> Component_of_Block b = Ok c.
Proof.
  intros Hc Hv. rewrite (Component_of_Block_view _ _ _ Hv). destruct c as [t v]. simpl in *.
  by rewrite (proj1 Hc).
Qed.

Lemma Component_of_bytes_ok v :
  len v < 2 ^ 32 -> Component_of_bytes v = Ok (MkComponent TlvType.NameComponent v).
Proof.
  intros Hl. unfold Component_of_bytes.
  destruct (makeBinaryBlock_ok TlvType.NameComponent v) as (b&->&[Hv _ _ _ _ _]).
  { split; simpl; [unfold TlvType.NameComponent; width_lia|width_lia]. }
  simpl. by rewrite (Component_of_Block_view _ _ _ Hv).
Qed.

(** *** The canonical order *)

(** On byte strings of one length, [memcmp] is the order of the big-endian
    numbers. *)
Lemma memcmp_sgn a b :
  wf_bytes a -> wf_bytes b -> length a = length b ->
  memcmp a b = Z.sgn (be_decode a - be_decode b).
Proof.
  intros Ha. revert b. induction Ha as [|x a Hx Ha IH]; intros [|y b] Hb Hl; try done.
  apply wf_bytes_cons in Hb as [Hy Hb]. injection Hl as Hl. cbn [memcmp].
  rewrite !be_decode_cons. assert (Hl' : len a = len b) by (unfold len; lia). rewrite Hl'.
  pose proof (be_decode_bounds a Ha) as Ba. pose proof (be_decode_bounds b Hb) as Bb.
  rewrite Hl' in Ba. unfold is_byte in *.
  set (k := 256 ^ len b) in *. repeat case_bool.
  - assert (k <= (y - x) * k) by nia. symmetry. apply Z.sgn_neg. lia.
  - assert (k <= (x - y) * k) by nia. symmetry. apply Z.sgn_pos. lia.
  - replace y with x by lia. rewrite IH by done. f_equal. lia.
Qed.

(** The comparison as one on integers. *)
Lemma compare_cases c d :
  wf_bytes (c_value c) -> wf_bytes (c_value d) ->
  compare c d =
    if c_type c =? c_type d then
      if len (c_value c) =? len (c_value d)
      then Z.sgn (be_decode (c_value c) - be_decode (c_value d))
      else Z.sgn (len (c_value c) - len (c_value d))
    else Z.sgn (c_type c - c_type d).
Proof.
  intros Hc Hd. unfold compare.
  repeat case_bool; try lia; try (symmetry; first [apply Z.sgn_neg; lia | apply Z.sgn_pos; lia]).
  - unfold len in *. destruct (c_value c), (c_value d); simpl in *; try lia; done.
  - apply memcmp_sgn; try done. unfold len in *. lia.
Qed.

Lemma be_decode_inj a b :
  wf_bytes a -> wf_bytes b -> len a = len b -> be_decode a = be_decode b -> a = b.
Proof.
  intros Ha Hb Hl He. rewrite <- (be_encode_decode a Ha), <- (be_encode_decode b Hb), He.
  f_equal. unfold len in Hl. lia.
Qed.

#[global] Instance compare_total : TotalCompare (fun c => wf_bytes (c_value c)) compare.
Proof.
  constructor.
  - intros c. unfold compare. rewrite !Z.ltb_irrefl. case_bool; [done|].
    clear. induction (c_value c) as [|x l IH]; [done|]. cbn [memcmp]. by rewrite Z.ltb_irrefl.
  - intros [t v] [u w] Ha Hb. rewrite compare_cases by done. simpl in *.
    repeat case_bool; rewrite Z.sgn_null_iff; intros ?; [|lia|lia].
    f_equal; [done|]. apply be_decode_inj; [done..|lia].
  - intros c d Hc Hd. rewrite !compare_cases by done.
    repeat case_bool; try lia; rewrite ?Z.sgn_sgn, <- Z.sgn_opp; f_equal; lia.
  - intros a b c Ha Hb Hc. rewrite !compare_cases by done.
    repeat case_bool; rewrite ?Z.sgn_neg_iff; lia.
Qed.

(** *** The successor *)

(** What the loop of [getSuccessor] writes, in order, whether it overflows,
    and the part it does not visit. *)
Fixpoint incr (todo : list Z) : list Z * bool * list Z :=
  match todo with
  | [] => ([], true, [])
  | x :: todo' =>
      let newValue := Z.land (x + 1) 0xFF in
      if newValue =? 0 then let '(w, o, r) := incr todo' in (w ++ [newValue], o, r)
      else ([newValue], false, todo')
  end.

Definition successor_value (v : list Z) : list Z :=
  let '(w, o, r) := incr (rev v) in rev r ++ w ++ (if o then [0] else []).

Lemma Prepends_successorLoop todo :
  Prepends (successorLoop todo) (len (incr todo).1.1, (incr todo).1.2, (incr todo).2) (incr todo).1.1.
Proof.
  induction todo as [|x todo IH]; [apply Prepends_ret|].
  cbn [successorLoop incr]. case_bool.
  - destruct (incr todo) as [[w o] r]. simpl in *.
    eapply Prepends_bind with (bs2 := w); [apply Prepends_Byte| |done].
    eapply Prepends_bind with (bs2 := []); [apply IH| |done]. simpl.
    rewrite len_app. rewrite (Z.add_comm (len w)). apply Prepends_ret.
  - simpl. eapply Prepends_bind; [apply Prepends_Byte|apply Prepends_ret|done].
Qed.

Lemma Writes_successorEncode c :
  exists pre post, Writes (successorEncode c) tt pre post /\
    pre ++ post = tlv_wire (c_type c) (successor_value (c_value c)).
Proof.
  unfold successorEncode, successor_value.
  pose proof (Prepends_successorLoop (rev (c_value c))) as HL.
  destruct (incr (rev (c_value c))) as [[w o] r]. simpl in HL.
  eexists _, _. split.
  - eapply Writes_bind; [apply Prepends_Writes, HL|].
    eapply Writes_bind; [apply Prepends_Writes, Prepends_ByteArray|]. simpl.
    eapply Writes_bind with (a := if o then 1 else 0) (p1 := []) (q1 := if o then [0] else []).
    { destruct o; [apply Appends_Writes, Appends_Byte | apply Prepends_Writes, Prepends_ret]. }
    eapply Writes_bind; [apply Prepends_Writes, Prepends_VarNumber|].
    eapply Writes_bind; [apply Prepends_Writes, Prepends_VarNumber|].
    apply Prepends_Writes, Prepends_ret.
  - unfold tlv_wire. simpl. rewrite !app_nil_r, <- !app_assoc. f_equal.
    do 2 f_equal. autorewrite with len.
    destruct o; unfold len; simpl; lia.
Qed.

Lemma getSuccessor_view c :
  wf_element (c_type c, successor_value (c_value c)) ->
  exists b, getSuccessor c = Component_of_Block b /\
            view b = (c_type c, successor_value (c_value c)).
Proof.
  intros Hel. unfold getSuccessor.
  set (n := length (tlv_wire (c_type c) (c_value c))).
  destruct (Writes_successorEncode c) as (pre&post&HW&Heq).
  assert (Hn : (1 <= n)%nat).
  { unfold n. rewrite length_tlv_wire. pose proof (header_length_pos (c_type c, c_value c)). lia. }
  set (e0 := Encoder.create (n + 1) 1).
  assert (Hi : Encoder.inv e0 /\ Encoder.content e0 = []).
  { unfold e0, Encoder.create, Encoder.inv, Encoder.content. cbn [Encoder.e_begin Encoder.e_end Encoder.e_buffer].
    rewrite length_replicate. case_bool; [|lia]. unfold slice. rewrite Nat.sub_diag. split; [lia|done]. }
  destruct (HW e0 (proj1 Hi)) as (_&Hi'&Hc). rewrite (proj2 Hi) in Hc. simpl in Hc.
  destruct (block_of_content _ _ _ Hi' (eq_trans Hc Heq) Hel) as (b&->&Hv&_). simpl. eauto.
Qed.

Lemma be_decode_app a b : be_decode (a ++ b) = be_decode a * 256 ^ len b + be_decode b.
Proof. unfold be_decode at 1. rewrite fold_left_app. rewrite fold_be_acc. done. Qed.

Lemma be_decode_one x : be_decode [x] = x.
Proof. unfold be_decode. simpl. lia. Qed.

Lemma land_255 x : Z.land x 255 = x mod 256.
Proof. change 255 with (Z.ones 8). by rewrite Z.land_ones by lia. Qed.

(** [incr] adds one to the big-endian number, or overflows to zeros. *)
Lemma incr_spec todo :
  wf_bytes todo ->
  let '(w, o, r) := incr todo in
  wf_bytes (rev r ++ w) /\ length (rev r ++ w) = length todo /\
  (if (o : bool) then be_decode (rev todo) = 256 ^ len todo - 1 /\ be_decode (rev r ++ w) = 0
   else be_decode (rev r ++ w) = be_decode (rev todo) + 1).
Proof.
  intros H. induction H as [|x todo Hx Htodo IH]; [split_and!; [by apply Forall_nil_2|done..]|]. cbn [incr].
  rewrite land_255. unfold is_byte in Hx.
  destruct (incr todo) as [[w o] r].
  assert (Hrev : be_decode (rev (x :: todo)) = be_decode (rev todo) * 256 + x).
  { simpl. rewrite be_decode_app, be_decode_one. change (len [x]) with 1. lia. }
  assert (Hlen : 256 ^ len (x :: todo) = 256 * 256 ^ len todo).
  { rewrite len_cons, Z.pow_add_r by (unfold len; lia). done. }
  case_bool.
  - assert (x = 255) as -> by (destruct (decide (x = 255)); [done|]; rewrite Z.mod_small in e; lia).
    destruct IH as (Hwf&Hl&Hd). rewrite app_assoc. split_and!.
    + apply wf_bytes_app. split; [done|]. by_decide.
    + rewrite length_app. simpl. lia.
    + rewrite be_decode_app, Hrev, be_decode_one. change (len [(255 + 1) mod 256]) with 1.
      change ((255 + 1) mod 256) with 0. rewrite Hlen.
      destruct o; [destruct Hd as [-> ->]|rewrite Hd]; lia.
  - assert (Hx' : x <> 255) by (intros ->; done).
    rewrite Z.mod_small by lia. split_and!.
    + apply wf_bytes_app. split; [by apply Forall_rev|]. apply wf_bytes_cons. split; [unfold is_byte; lia|by apply Forall_nil_2].
    + rewrite length_app, length_rev. simpl. lia.
    + rewrite be_decode_app, Hrev, be_decode_one. change (len [x + 1]) with 1. lia.
Qed.

Lemma successor_value_spec v :
  wf_bytes v ->
  wf_bytes (successor_value v) /\
  ((len (successor_value v) = len v /\ be_decode (successor_value v) = be_decode v + 1) \/
   (len (successor_value v) = len v + 1 /\ be_decode v = 256 ^ len v - 1 /\
    be_decode (successor_value v) = 0)).
Proof.
  intros Hv. unfold successor_value.
  pose proof (incr_spec (rev v)) as H. destruct (incr (rev v)) as [[w o] r].
  destruct H as (Hwf&Hl&Hd); [by apply Forall_rev|]. rewrite rev_involutive in Hd.
  assert (Hlr : len (rev v) = len v) by (unfold len; by rewrite length_rev).
  rewrite length_rev in Hl. rewrite app_assoc. destruct o.
  - destruct Hd as [Hd1 Hd2]. rewrite Hlr in Hd1. split.
    + apply wf_bytes_app. split; [done|]. by_decide.
    + right. rewrite len_app, be_decode_app, Hd2. split_and!; [|done|done].
      unfold len. simpl. lia.
  - rewrite app_nil_r. split; [done|]. left. unfold len. split; [lia|done].
Qed.

(** *** URI *)

(** The characters a component prints as: no space, no slash, no colon. *)
Definition uri_char (x : Z) : Prop := isspace x = false /\ x <> 47 /\ x <> 58.

Lemma unescaped_uri_char x : unescaped_char x = true -> uri_char x /\ x <> 37 /\ x <> 61.
Proof.
  unfold unescaped_char, uri_char, isspace. intros H.
  rewrite !orb_true_iff, !andb_true_iff, !Z.leb_le, !Z.eqb_eq in H.
  split; [|lia]. split; [|lia].
  apply orb_false_iff. rewrite andb_false_iff, !Z.leb_gt, Z.eqb_neq. lia.
Qed.

Lemma hexDigit_unescaped u n : 0 <= n < 16 -> unescaped_char (hexDigit u n) = true.
Proof.
  intros Hn. unfold hexDigit, unescaped_char.
  rewrite !orb_true_iff, !andb_true_iff, !Z.leb_le, !Z.eqb_eq.
  case_bool; [lia|]. destruct u; lia.
Qed.

Lemma fromHexChar_hexDigit u n : 0 <= n < 16 -> fromHexChar (hexDigit u n) = n.
Proof.
  intros Hn. unfold hexDigit, fromHexChar.
  repeat first [case_bool | destruct u]; repeat case_match;
    repeat match goal with H : _ && _ = _ |- _ =>
      first [apply andb_true_iff in H | apply andb_false_iff in H]; rewrite ?Z.leb_le, ?Z.leb_gt in H end;
    lia.
Qed.

Lemma nibbles x : is_byte x -> Z.lor (Z.shiftl (x / 16) 4) (x mod 16) = x.
Proof.
  intros Hx. unfold is_byte in Hx. rewrite (Z.div_mod x 16) at 3 by lia.
  rewrite Z.shiftl_mul_pow2 by lia. change (2 ^ 4) with 16.
  pose proof (Z.add_lor_land (x / 16 * 16) (x mod 16)).
  enough (Z.land (x / 16 * 16) (x mod 16) = 0) by lia.
  change 16 with (2 ^ 4). rewrite <- (Z.land_ones x 4), <- Z.shiftl_mul_pow2 by lia.
  apply Z.bits_inj'. intros n Hn. rewrite !Z.land_spec, Z.bits_0, Z.shiftl_spec by lia.
  destruct (decide (n < 4)).
  - by rewrite Z.testbit_neg_r by lia.
  - rewrite Z.ones_spec_high by lia. by rewrite !andb_false_r.
Qed.

Lemma byte_nibbles x : is_byte x -> 0 <= x / 16 < 16 /\ 0 <= x mod 16 < 16.
Proof.
  unfold is_byte. intros. split; [|apply Z.mod_pos_bound; lia].
  split; [apply Z.div_pos; lia | apply Z.div_lt_upper_bound; lia].
Qed.

(** The two-character case of [escape_char] is the general one. *)
Lemma escape_char_eq x :
  is_byte x -> escape_char x = if unescaped_char x then [x]
    else [37; hexDigit true (x / 16); hexDigit true (x mod 16)].
Proof.
  intros Hx. unfold escape_char, is_byte in *. destruct (unescaped_char x); [done|].
  case_bool; [|done]. rewrite Z.div_small, Z.mod_small by lia. done.
Qed.

Lemma unescape_cons c s : c <> 37 -> unescape (c :: s) = c :: unescape s.
Proof.
  intros Hc. destruct s as [|a [|b s]]; try done. cbn [unescape].
  by rewrite (proj2 (Z.eqb_neq _ _)) by done.
Qed.

Lemma unescape_escape v : wf_bytes v -> unescape (concat (map escape_char v)) = v.
Proof.
  induction 1 as [|x v Hx Hv IH]; [done|]. cbn [map concat].
  rewrite escape_char_eq by done. destruct (unescaped_char x) eqn:E.
  - apply unescaped_uri_char in E as (_&H37&_). cbn [app]. rewrite unescape_cons by done. by rewrite IH.
  - destruct (byte_nibbles x Hx) as [Hh Hl]. cbn [app unescape].
    rewrite Z.eqb_refl, !fromHexChar_hexDigit by done. cbv zeta.
    rewrite !(proj2 (Z.ltb_ge _ 0)) by lia. cbn [orb]. rewrite IH. f_equal. by apply nibbles.
Qed.

Lemma escape_chars v :
  wf_bytes v -> Forall (fun x => uri_char x /\ x <> 61) (concat (map escape_char v)).
Proof.
  induction 1 as [|x v Hx Hv IH]; [by apply Forall_nil_2|]. cbn [map concat].
  apply Forall_app. split; [|done]. rewrite escape_char_eq by done.
  destruct (byte_nibbles x Hx) as [Hh Hl].
  destruct (unescaped_char x) eqn:E; repeat (apply Forall_cons; split); try (by apply Forall_nil_2).
  - apply unescaped_uri_char in E. tauto.
  - done.
  - apply (hexDigit_unescaped true), unescaped_uri_char in Hh. tauto.
  - apply (hexDigit_unescaped true), unescaped_uri_char in Hl. tauto.
Qed.

Lemma printHex_cons u x v :
  printHex u (x :: v) = hexDigit u (x / 16) :: hexDigit u (x mod 16) :: printHex u v.
Proof. done. Qed.

Lemma printHex_chars u v : wf_bytes v -> Forall uri_char (printHex u v).
Proof.
  induction 1 as [|x v Hx Hv IH]; [by apply Forall_nil_2|]. rewrite printHex_cons.
  destruct (byte_nibbles x Hx) as [Hh Hl].
  repeat (apply Forall_cons; split); [..|done].
  - apply (hexDigit_unescaped u), unescaped_uri_char in Hh. tauto.
  - apply (hexDigit_unescaped u), unescaped_uri_char in Hl. tauto.
Qed.

Lemma HexDecoder_printHex u v : wf_bytes v -> HexDecoder (printHex u v) = v.
Proof.
  unfold HexDecoder. induction 1 as [|x v Hx Hv IH]; [done|]. rewrite printHex_cons.
  destruct (byte_nibbles x Hx) as [Hh Hl]. cbn [map List.filter].
  rewrite !fromHexChar_hexDigit by done. rewrite !(proj2 (Z.leb_le 0 _)) by lia.
  cbn [hexPairs]. rewrite IH. f_equal. by apply nibbles.
Qed.

Lemma len_printHex u v : len (printHex u v) = 2 * len v.
Proof. induction v as [|x v IH]; [done|]. rewrite printHex_cons, !len_cons, IH. lia. Qed.

Lemma trimLeft_id s : Forall uri_char s -> trimLeft s = s.
Proof. destruct 1 as [|x s [Hx _] Hs]; [done|]. simpl. by rewrite Hx. Qed.

Lemma trim_id s : Forall uri_char s -> trim s = s.
Proof.
  intros H. unfold trim, trimRight. rewrite (trimLeft_id s) by done.
  rewrite trimLeft_id by (by apply Forall_rev). apply rev_involutive.
Qed.

Lemma all_periods_spec l : all_periods l = true <-> l = map (fun _ => 46) l.
Proof.
  induction l as [|x l IH]; simpl; [done|]. rewrite andb_true_iff, Z.eqb_eq. split.
  - intros [-> H]. f_equal. by apply IH.
  - intros [= -> H]. split; [done|]. by apply IH.
Qed.

Lemma unescape_periods (l : list Z) : unescape (map (fun _ => 46) l) = map (fun _ => 46) l.
Proof. induction l as [|x l IH]; [done|]. cbn [map]. rewrite unescape_cons by done. by rewrite IH. Qed.

Lemma periods_chars (l : list Z) : Forall (fun x => uri_char x /\ x <> 61) (map (fun _ => 46) l).
Proof. induction l; simpl; constructor; done. Qed.

Lemma uri_chars_fst s : Forall (fun x => uri_char x /\ x <> 61) s -> Forall uri_char s.
Proof. intros H. eapply Forall_impl; [exact H|]. simpl. tauto. Qed.

(** A string without an equals sign does not start with the digest prefix. *)
Lemma no_digest_prefix s :
  Forall (fun x => uri_char x /\ x <> 61) s ->
  bool_decide (take (length sha256DigestUriPrefix) s = sha256DigestUriPrefix) = false.
Proof.
  intros H. apply bool_decide_eq_false. intros Heq.
  assert (Hin : 61 ∈ take (length sha256DigestUriPrefix) s) by (rewrite Heq; by_decide).
  apply (Forall_take _ (length sha256DigestUriPrefix)) in H.
  rewrite Forall_forall in H. apply H in Hin. tauto.
Qed.

Definition generic (v : list Z) : Component := MkComponent TlvType.NameComponent v.

Lemma toUri_chars c : wf_component c -> Forall uri_char (toUri c) /\ toUri c <> [].
Proof.
  intros (_&Hb&_). unfold toUri. case_bool.
  - split; [|done]. apply Forall_app. split; [|by apply printHex_chars].
    repeat constructor; done.
  - rewrite negb_involutive. destruct (all_periods (c_value c)) eqn:E.
    + split; [|done]. apply uri_chars_fst, (periods_chars (0 :: 0 :: 0 :: c_value c)).
    + split; [by apply uri_chars_fst, escape_chars|].
      destruct (c_value c) as [|x v]; [done|]. apply wf_bytes_cons in Hb as [Hx _].
      cbn [map concat]. rewrite escape_char_eq by done. by destruct (unescaped_char x).
Qed.

Lemma fromEscaped_toUri c : wf_component c -> fromEscapedString (toUri c) = Ok c.
Proof.
  intros Hc. pose proof (toUri_chars c Hc) as [Hchars _].
  unfold fromEscapedString. rewrite trim_id by done.
  destruct c as [t v]. destruct Hc as (Hk&Hb&Hl). unfold toUri, isGeneric, isImplicitSha256Digest in *.
  cbn [c_type c_value] in *. destruct (Z.eqb_spec t TlvType.ImplicitSha256DigestComponent) as [->|Hne].
  - cbn [orb andb] in Hk. change (_ =? TlvType.NameComponent) with false in Hk. cbn [orb] in Hk.
    apply Z.eqb_eq in Hk. rewrite take_app_length, bool_decide_true by done.
    rewrite len_app, len_printHex, Hk. change (negb _) with false. cbv iota.
    rewrite drop_app_length. unfold fromHex. rewrite HexDecoder_printHex, len_printHex, Hk by done.
    cbn [rbind]. change (negb ((2 * SHA256_DIGEST_SIZE) mod 2 =? 0)) with false.
    change (negb (SHA256_DIGEST_SIZE * 2 =? 2 * SHA256_DIGEST_SIZE)) with false. cbn [rbind].
    destruct (makeBinaryBlock_ok TlvType.ImplicitSha256DigestComponent v) as (b&Hmk&[Hv _ _ _ _ _]).
    { split; simpl; [unfold TlvType.ImplicitSha256DigestComponent; width_lia|width_lia]. }
    unfold fromImplicitSha256Digest. rewrite Hk. change (negb _) with false. cbv iota.
    rewrite Hmk. simpl. apply Component_of_Block_wf; [|done].
    unfold wf_component, isImplicitSha256Digest. simpl. rewrite Hk. done.
  - rewrite orb_false_r in Hk. apply Z.eqb_eq in Hk as ->. rewrite negb_involutive.
    destruct (all_periods v) eqn:E.
    + rewrite no_digest_prefix by apply (periods_chars (0 :: 0 :: 0 :: v)).
      change ([46; 46; 46] ++ map (fun _ => 46) v) with (map (fun _ => 46) (0 :: 0 :: 0 :: v)).
      rewrite unescape_periods. rewrite (proj2 (all_periods_spec _)) by (by rewrite map_map).
      rewrite (proj2 (Z.leb_gt _ _)) by (cbn [map]; unfold len; simpl; lia).
      cbn [map drop]. rewrite <- (proj1 (all_periods_spec v) E). by apply Component_of_bytes_ok.
    + rewrite no_digest_prefix by (by apply escape_chars).
      rewrite unescape_escape, E by done. by apply Component_of_bytes_ok.
Qed.

(** *** Numbers *)

Lemma encoderIntegerSize_cases n :
  encoderIntegerSize n = 1 \/ encoderIntegerSize n = 2 \/
  encoderIntegerSize n = 4 \/ encoderIntegerSize n = 8.
Proof. unfold encoderIntegerSize. repeat case_bool; tauto. Qed.

Lemma fromNumberWithMarker_ok marker n :
  fromNumberWithMarker marker n = Ok (generic (marker :: encoderIntegerBytes n)).
Proof.
  set (v := marker :: encoderIntegerBytes n).
  assert (Hl : len v = 1 + encoderIntegerSize n)
    by (unfold v; rewrite len_cons, len_encoderIntegerBytes; done).
  pose proof (encoderIntegerSize_cases n) as Hs.
  assert (Hel : wf_element (TlvType.NameComponent, v)).
  { split; simpl; [unfold TlvType.NameComponent; width_lia|]. width_lia. }
  unfold fromNumberWithMarker.
  destruct (twoPass_block (fun E _ => prependMarkedNumber marker n) TlvType.NameComponent v)
    as (b&->&[Hv _ _ _ _ _]); [| |done|].
  - unfold prependMarkedNumber. do 4 (apply size_bind2; intros).
    rewrite prependNonNegativeInteger_size, prependByteArray_size, !prependVarNumber_size.
    simpl. unfold tlv_wire. autorewrite with len. rewrite Hl.
    replace (encoderIntegerSize n + (1 + 0)) with (1 + encoderIntegerSize n) by lia. lia.
  - unfold prependMarkedNumber. eapply Prepends_eq; [prepends| |].
    + unfold tlv_wire. autorewrite with len. rewrite Hl.
      replace (encoderIntegerSize n + (1 + 0)) with (1 + encoderIntegerSize n) by lia. lia.
    + simpl. unfold tlv_wire. rewrite Hl. change (len [marker]) with 1.
      rewrite (Z.add_comm (encoderIntegerSize n)).
      rewrite <- !app_assoc. done.
  - simpl. by rewrite (Component_of_Block_view _ _ _ Hv).
Qed.

Lemma fromNumber_ok n : fromNumber n = Ok (generic (encoderIntegerBytes n)).
Proof.
  unfold fromNumber. destruct (makeIntegerBlock_ok TlvType.NameComponent n) as (b&->&[Hv _ _ _ _ _]).
  - unfold TlvType.NameComponent. width_lia.
  - simpl. by rewrite (Component_of_Block_view _ _ _ Hv).
Qed.

Lemma readInteger_bytes n :
  0 <= n < U64 -> readNonNegativeInteger (encoderIntegerSize n) (encoderIntegerBytes n) = Ok (n, []).
Proof. intros Hn. rewrite <- (app_nil_r (encoderIntegerBytes n)) at 1. by apply read_encoderInteger. Qed.

(** ** Properties *)

(** A number put in a component, plain or after a marker octet, is read
    back; the component is recognised by its own marker and by no other. *)
Theorem component_number_roundtrip (n marker marker' : Z)
  (Hn : 0 <= n < U64) (Hne : marker' <> marker) :
  (exists c, fromNumber n = Ok c /\ toNumber c = Ok n) /\
  (exists c, fromNumberWithMarker marker n = Ok c /\
     toNumberWithMarker marker c = Ok n /\ toNumberWithMarker marker' c = Err ComponentError).
Proof.
  pose proof (encoderIntegerSize_cases n) as Hs. split.
  - eexists. split; [apply fromNumber_ok|]. unfold toNumber, isNumber, generic. cbn [c_value].
    rewrite len_encoderIntegerBytes, readInteger_bytes by done. by destruct_or! Hs; rewrite Hs.
  - eexists. split; [apply fromNumberWithMarker_ok|].
    unfold toNumberWithMarker, isNumberWithMarker, generic. cbn [c_value drop].
    rewrite len_cons, len_encoderIntegerBytes, Z.eqb_refl.
    rewrite (proj2 (Z.eqb_neq marker marker')) by done.
    replace (1 + encoderIntegerSize n - 1) with (encoderIntegerSize n) by lia.
    rewrite readInteger_bytes by done. by destruct_or! Hs; rewrite Hs.
Qed.

Lemma component_number_roundtrip_witness :
  (exists c, fromNumber 255 = Ok c /\ toNumber c = Ok 255) /\
  (exists c, fromNumberWithMarker VERSION_MARKER 255 = Ok c /\
     toNumberWithMarker VERSION_MARKER c = Ok 255 /\
     toNumberWithMarker SEGMENT_MARKER c = Err ComponentError).
Proof. apply (component_number_roundtrip 255 VERSION_MARKER SEGMENT_MARKER); [width_lia|done]. Defined.

(** Strictly between a component and its successor there is nothing. *)
Lemma successor_between c x v' :
  wf_bytes (c_value c) -> wf_bytes (c_value x) -> v' = successor_value (c_value c) ->
  compare c (MkComponent (c_type c) v') < 0 /\
  ~ (compare c x < 0 /\ compare x (MkComponent (c_type c) v') < 0).
Proof.
  intros Hc Hx ->. destruct (successor_value_spec (c_value c) Hc) as [Hw Hs].
  pose proof (be_decode_bounds _ Hc). pose proof (be_decode_bounds _ Hx).
  rewrite !compare_cases by done. simpl. rewrite Z.eqb_refl.
  split.
  - destruct Hs as [[-> ->]|(->&_)]; [rewrite Z.eqb_refl|rewrite (proj2 (Z.eqb_neq _ _)) by lia];
      apply Z.sgn_neg_iff; lia.
  - intros [H1 H2]. destruct Hs as [[Hl Hd]|(Hl&Hd1&Hd2)]; rewrite Hl in H2;
      destruct (Z.eqb_spec (c_type c) (c_type x)) as [Ht|Ht];
      destruct (Z.eqb_spec (c_type x) (c_type c)); try lia;
      destruct (Z.eqb_spec (len (c_value c)) (len (c_value x))) as [Hlen|Hlen];
      repeat case_bool; rewrite ?Z.sgn_neg_iff in *; try lia;
      try (rewrite Hlen in *; lia).
Qed.

Lemma len_successor v : wf_bytes v -> len v <= len (successor_value v) <= len v + 1.
Proof. intros H. destruct (successor_value_spec v H) as [_ Hs]. lia. Qed.

(** The successor of a component is the next one in canonical order:
    it is greater, and no component lies strictly between.  It exists for
    every generic component; for an implicit digest of 32 octets 0xFF the code
    builds a 33-octet digest and its own constructor throws. *)
Theorem component_successor (c : Component) (Hc : wf_component c) (Hl : len (c_value c) < 2 ^ 32 - 1) :
  (isGeneric c = true -> exists d, getSuccessor c = Ok d) /\
  (forall d, getSuccessor c = Ok d ->
     compare c d < 0 /\
     forall x, wf_bytes (c_value x) -> ~ (compare c x < 0 /\ compare x d < 0)) /\
  getSuccessor (MkComponent TlvType.ImplicitSha256DigestComponent (replicate 32 255))
    = Err ComponentError.
Proof.
  pose proof (wf_component_type c Hc) as Ht. destruct Hc as (_&Hb&_).
  pose proof (len_successor _ Hb) as Hls.
  destruct (getSuccessor_view c) as (b&HS&Hv).
  { split; simpl; [done|width_lia]. }
  rewrite (Component_of_Block_view _ _ _ Hv) in HS. split_and!; [| |vm_compute; reflexivity].
  - intros Hg. rewrite HS. unfold isGeneric in *. cbn [c_type]. rewrite Hg. simpl. eauto.
  - intros d. rewrite HS. case_match; [|done]. intros [= <-].
    split; [by apply (successor_between c c)|]. intros x Hx. by apply (successor_between c x).
Qed.

Lemma component_successor_witness :
  (exists d, getSuccessor (generic [1; 255]) = Ok d) /\
  getSuccessor (MkComponent TlvType.ImplicitSha256DigestComponent (replicate 32 255))
    = Err ComponentError.
Proof.
  assert (Hc : wf_component (generic [1; 255])) by by_decide.
  assert (Hl : len (c_value (generic [1; 255])) < 2 ^ 32 - 1) by by_decide.
  destruct (component_successor (generic [1; 255]) Hc Hl) as (H1&_&H3).
  split; [apply H1; reflexivity | exact H3].
Defined.

(** [Component::equals], which is [operator==], ignores the type while
    [compare] does not: two components are equal exactly when their values
    are, and compare as zero exactly when the types agree too; so a 32-octet
    generic component is [==] to the implicit digest of the same octets
    although [compare] orders them. *)
Theorem component_equals_ignores_type (c d : Component)
  (Hc : wf_bytes (c_value c)) (Hd : wf_bytes (c_value d)) :
  (equals c d = true <-> c_value c = c_value d) /\
  (compare c d = 0 <-> equals c d = true /\ c_type c = c_type d) /\
  (let v := replicate 32 0 in
   let dg := MkComponent TlvType.ImplicitSha256DigestComponent v in
   wf_component (generic v) /\ wf_component dg /\
   equals (generic v) dg = true /\ compare (generic v) dg <> 0).
Proof.
  assert (He : equals c d = true <-> c_value c = c_value d).
  { unfold equals. destruct (Z.eqb_spec (len (c_value c)) (len (c_value d))) as [Hl|Hl]; simpl.
    - case_bool; [|by rewrite bool_decide_eq_true].
      destruct (c_value c), (c_value d); unfold len in *; simpl in *; try lia; done.
    - split; [done|]. intros Heq. by rewrite Heq in Hl. }
  split; [done|]. split.
  2: { cbv zeta. split_and!; [by_decide|by_decide|by vm_compute|by vm_compute]. }
  rewrite He. split.
  - intros H. apply (cmp_eq c d Hc Hd) in H. by subst.
  - destruct c, d; simpl in *. intros [-> ->]. apply cmp_refl.
Qed.

Lemma component_equals_ignores_type_witness :
  equals (generic [97]) (generic [97]) = true <-> [97] = [97].
Proof.
  apply (component_equals_ignores_type (generic [97]) (generic [97])); by_decide.
Defined.
