(* ===== verification/Name.v ===== *)
(** * Names: [ndn-cxx/src/name.cpp] and [ndn-cxx/src/name.hpp]

    A [Name] is the list of the elements of its block, read as components.
    The block of a name is parsed but its elements are not checked, so a
    decoded name can hold components of any type. *)

From S2P Require Import Prelude StdMap Tlv Block Encoder NameComponent.

Abbreviation Name := (list Component) (only parsing).

(** [Name::npos] *)
Definition npos : Z := u64_max.

(** ** Access *)

(** [Name::at], which checks the bounds, and [Name::get], which does not. *)
Definition at_ (n : Name) (i : Z) : result Component :=
  if ((0 <=? i) && (len n <=? i)) || ((i <? 0) && (len n <? - i)) then Err NameError
  else
    match n !! Z.to_nat (if 0 <=? i then i else len n + i) with
    | Some c => Ok c
    | None => Err OutOfRange
    end.

Definition append (n : Name) (c : Component) : Name := n ++ [c].

(** [Name::append(const PartialName&)] *)
Definition appendName (n m : Name) : Name := n ++ m.

Definition appendNumber (n : Name) (number : Z) : result Name :=
  let! c := fromNumber number in Ok (append n c).
Definition appendNumberWithMarker (n : Name) (marker number : Z) : result Name :=
  let! c := fromNumberWithMarker marker number in Ok (append n c).
Definition appendVersion (n : Name) (version : Z) : result Name :=
  let! c := fromVersion version in Ok (append n c).
Definition appendSegment (n : Name) (segmentNo : Z) : result Name :=
  let! c := fromSegment segmentNo in Ok (append n c).
Definition appendSegmentOffset (n : Name) (offset : Z) : result Name :=
  let! c := fromSegmentOffset offset in Ok (append n c).
Definition appendSequenceNumber (n : Name) (seqNo : Z) : result Name :=
  let! c := fromSequenceNumber seqNo in Ok (append n c).
Definition appendImplicitSha256Digest (n : Name) (digest : list Z) : result Name :=
  let! c := fromImplicitSha256Digest digest in Ok (append n c).

(** [Name::getSubName(iStartComponent, nComponents)]: a [ssize_t] and a
    [size_t]; the sum [iStart + nComponents] wraps around. *)
Definition getSubName (n : Name) (iStartComponent nComponents : Z) : Name :=
  let iStart := if iStartComponent <? 0 then len n + iStartComponent else iStartComponent in
  let iStart := Z.max iStart 0 in
  let iEnd := if negb (nComponents =? npos)
              then Z.min (len n) (to_u64 (iStart + nComponents)) else len n in
  slice (Z.to_nat iStart) (Z.to_nat iEnd) n.

(** [Name::getPrefix]: a negative count is added to the size as a [size_t]. *)
Definition getPrefix (n : Name) (nComponents : Z) : Name :=
  if nComponents <? 0 then getSubName n 0 (to_u64 (len n + nComponents))
  else getSubName n 0 nComponents.

Definition getSuccessor (n : Name) : result Name :=
  if len n =? 0 then Ok [generic [0]]
  else
    let! c := at_ n (-1) in
    let! d := NameComponent.getSuccessor c in
    Ok (append (getPrefix n (-1)) d).

(** ** Comparison *)

(** The loop of [equals] and [isPrefixOf] over the components of [a]. *)
Fixpoint components_match (a b : Name) : bool :=
  match a, b with
  | [], _ => true
  | c :: a', d :: b' => if equals c d then components_match a' b' else false
  | _ :: _, [] => false
  end.

Definition Name_equals (a b : Name) : bool :=
  if negb (len a =? len b) then false else components_match a b.

Definition isPrefixOf (a b : Name) : bool :=
  if len b <? len a then false else components_match a b.

(** [Name::compare(pos1, count1, other, pos2, count2)]: the loop compares
    [count] components from the two positions. *)
Fixpoint compare_loop (count : nat) (a : Name) (pos1 : Z) (b : Name) (pos2 : Z) (i : Z) : result Z :=
  match count with
  | O => Ok 0
  | S count =>
      let! c := at_ a (pos1 + i) in
      let! d := at_ b (pos2 + i) in
      let comp := compare c d in
      if negb (comp =? 0) then Ok comp else compare_loop count a pos1 b pos2 (i + 1)
  end.

Definition compare_range (a : Name) (pos1 count1 : Z) (b : Name) (pos2 count2 : Z) : result Z :=
  let count1 := Z.min count1 (to_u64 (len a - pos1)) in
  let count2 := Z.min count2 (to_u64 (len b - pos2)) in
  let count := Z.min count1 count2 in
  let! comp := compare_loop (Z.to_nat count) a pos1 b pos2 0 in
  if negb (comp =? 0) then Ok comp else Ok (count1 - count2).

(** [Name::compare(other)], that is [compare(0, npos, other, 0, npos)], by
    recursion on the two names. *)
Fixpoint Name_compare (a b : Name) : Z :=
  match a, b with
  | [], [] => 0
  | [], _ :: _ => - len b
  | _ :: _, [] => len a
  | c :: a', d :: b' => let r := compare c d in if negb (r =? 0) then r else Name_compare a' b'
  end.

(** ** URI *)

(** [operator<<(std::ostream&, const Name&)] *)
Definition Name_toUri (n : Name) : list Z :=
  if len n =? 0 then [47] else concat (map (fun c => 47 :: toUri c) n).

(** [std::string::find(c, pos)] *)
Fixpoint find_char (c : Z) (s : list Z) : option nat :=
  match s with
  | [] => None
  | x :: s' => if x =? c then Some O else S <$> find_char c s'
  end.

(** The loop of [Name::construct] over the rest of the string; every turn
    consumes a character at least. *)
Fixpoint construct_loop (fuel : nat) (uri : list Z) (acc : Name) : result Name :=
  match fuel, uri with
  | O, _ | _, [] => Ok acc
  | S fuel, _ =>
      let e := default (length uri) (find_char 47 uri) in
      let! c := fromEscapedString (take e uri) in
      construct_loop fuel (drop (e + 1) uri) (append acc c)
  end.

Definition construct (uriOrig : list Z) : result Name :=
  let uri := trim uriOrig in
  if len uri =? 0 then Ok []
  else
    let uri :=
      match find_char 58 uri with
      | Some iColon =>
          if match find_char 47 uri with None => true | Some s => (iColon <? s)%nat end
          then trim (drop (iColon + 1) uri) else uri
      | None => uri
      end in
    match uri with
    | 47 :: 47 :: rest =>
        match find_char 47 rest with
        | None => Ok []
        | Some k => let uri := trim (drop (k + 1) rest) in construct_loop (length uri) uri []
        end
    | 47 :: rest => let uri := trim rest in construct_loop (length uri) uri []
    | _ => construct_loop (length uri) uri []
    end.

(** ** Wire format *)

Section WireEncode.
Context {E : Type} `{EncodingImpl E}.

(** The loop from [rbegin()] to [rend()]; [l] is the name in reverse. *)
Fixpoint wireEncode_loop (l : list Component) (totalLength : Z) : state E Z :=
  match l with
  | [] => sret totalLength
  | c :: l' => let~ k := Component_wireEncode c in wireEncode_loop l' (totalLength + k)
  end.

Definition Name_wireEncode (n : Name) : state E Z :=
  let~ totalLength := wireEncode_loop (rev n) 0 in
  let~ l1 := prependVarNumber totalLength in
  let~ l2 := prependVarNumber TlvType.Name in
  sret (totalLength + l1 + l2).
End WireEncode.

(** [Name::wireEncode()] without a cached wire *)
Definition Name_wire (n : Name) : result Block :=
  let! b := Encoder.block true (twoPass (fun E _ => Name_wireEncode n)) in
  let '(b', x) := parse b in
  match x with Some e => Err e | None => Ok b' end.

(** The components of a parsed name block. *)
Definition Name_of_elements (b : Block) : Name :=
  map (fun sub => MkComponent (m_type sub) (value sub)) (m_subBlocks b).

Definition Name_wireDecode (wire : Block) : result Name :=
  if negb (m_type wire =? TlvType.Name) then Err NameError
  else
    let '(b, x) := parse wire in
    match x with Some e => Err e | None => Ok (Name_of_elements b) end.

(** ** Lemmas *)

(** The names the tables are about: components built by the constructors. *)
Definition wf_name (n : Name) : Prop := Forall wf_component n.
#[global] Instance wf_name_dec n : Decision (wf_name n).
Proof. unfold wf_name. apply _. Defined.

Definition bytes_name (n : Name) : Prop := Forall (fun c => wf_bytes (c_value c)) n.

Lemma wf_name_bytes n : wf_name n -> bytes_name n.
Proof. intros H. eapply Forall_impl; [exact H|]. by intros c (_&?&_). Qed.
#[export] Hint Resolve wf_name_bytes : ndn.

Lemma compare_neg_nz r : r < 0 -> (r =? 0) = false.
Proof. intros. apply Z.eqb_neq. lia. Qed.

#[global] Instance Name_compare_total : TotalCompare bytes_name Name_compare.
Proof.
  constructor.
  - induction a as [|c a IH]; [done|]. cbn [Name_compare]. rewrite cmp_refl. done.
  - induction a as [|c a IH]; intros [|d b] Ha Hb H; cbn [Name_compare] in H;
      rewrite ?len_cons in H; try done; [pose proof (len_nonneg b); lia|pose proof (len_nonneg a); lia|].
    apply Forall_cons in Ha as [Hc Ha]. apply Forall_cons in Hb as [Hd Hb].
    destruct (Z.eqb_spec (compare c d) 0) as [E|E]; simpl in H; [|done].
    f_equal; [by apply cmp_eq in E | by apply IH].
  - induction a as [|c a IH]; intros [|d b] Ha Hb; cbn [Name_compare]; try done;
      rewrite ?len_cons, ?Z.sgn_opp; try lia.
    apply Forall_cons in Ha as [Hc Ha]. apply Forall_cons in Hb as [Hd Hb].
    pose proof (cmp_anti c d Hc Hd) as Hs.
    destruct (Z.eqb_spec (compare c d) 0) as [E|E], (Z.eqb_spec (compare d c) 0) as [E'|E']; simpl;
      [by apply IH | rewrite E in Hs; lia | rewrite E' in Hs; lia | done].
  - induction a as [|c a IH]; intros [|d b] [|x e] Ha Hb He; cbn [Name_compare];
      rewrite ?len_cons; intros H1 H2;
      try len_lia.
    revert H1 H2.
    apply Forall_cons in Ha as [Hc Ha]. apply Forall_cons in Hb as [Hd Hb]. apply Forall_cons in He as [Hx He].
    destruct (Z.eqb_spec (compare c d) 0) as [E|E]; simpl.
    + apply cmp_eq in E as ->; [|done..].
      destruct (Z.eqb_spec (compare d x) 0) as [E|E]; simpl; [by apply IH|done].
    + intros H1. destruct (Z.eqb_spec (compare d x) 0) as [E'|E']; simpl.
      * apply cmp_eq in E' as <-; [|done..]. intros _. by rewrite compare_neg_nz.
      * intros H2. pose proof (cmp_trans c d x Hc Hd Hx H1 H2). by rewrite compare_neg_nz.
Qed.

Lemma at_lookup n i c : n !! i = Some c -> at_ n (Z.of_nat i) = Ok c.
Proof.
  intros H. unfold at_. pose proof (lookup_lt_Some _ _ _ H). unfold len.
  rewrite (proj2 (Z.leb_le 0 _)), (proj2 (Z.leb_gt _ (Z.of_nat i))), (proj2 (Z.ltb_ge _ 0)) by lia.
  simpl. by rewrite Nat2Z.id, H.
Qed.

(** The indexed loop is the structural comparison of the two windows. *)
Lemma compare_loop_spec a b : forall k p q i,
  (p + i + k <= length a)%nat -> (q + i + k <= length b)%nat ->
  compare_loop k a (Z.of_nat p) b (Z.of_nat q) (Z.of_nat i) =
    Ok (Name_compare (take k (drop (p + i) a)) (take k (drop (q + i) b))).
Proof.
  induction k as [|k IH]; intros p q i Ha Hb; [done|]. cbn [compare_loop].
  destruct (lookup_lt_is_Some_2 a (p + i)) as [c Hc]; [lia|].
  destruct (lookup_lt_is_Some_2 b (q + i)) as [d Hd]; [lia|].
  rewrite <- !Nat2Z.inj_add, (at_lookup _ _ _ Hc), (at_lookup _ _ _ Hd). simpl rbind.
  rewrite (drop_S _ _ _ Hc), (drop_S _ _ _ Hd). cbn [take Name_compare].
  case_match; [done|]. replace (Z.of_nat i + 1) with (Z.of_nat (S i)) by lia.
  rewrite IH by lia. by rewrite <- !Nat.add_succ_r.
Qed.

Lemma Name_compare_take a b k :
  k = (length a `min` length b)%nat ->
  Name_compare a b =
    let r := Name_compare (take k a) (take k b) in if negb (r =? 0) then r else len a - len b.
Proof.
  intros ->. revert b. induction a as [|c a IH]; intros [|d b]; simpl; rewrite ?len_cons, ?len_nil; try lia.
  case_match; [by rewrite H|]. rewrite IH. simpl. rewrite ?len_cons. case_match; lia.
Qed.

(** *** Names that share a prefix are an interval *)

Lemma Name_compare_app p a b : Name_compare (p ++ a) (p ++ b) = Name_compare a b.
Proof. induction p as [|c p IH]; [done|]. cbn [app Name_compare]. by rewrite cmp_refl. Qed.

Lemma Name_compare_nil_l b : Name_compare [] b <= 0.
Proof. destruct b; simpl; [lia|]. rewrite len_cons. pose proof (len_nonneg b). lia. Qed.

(** Two names that agree up to a component compare as that component. *)
Lemma Name_compare_head c d a b : compare c d <> 0 -> Name_compare (c :: a) (d :: b) = compare c d.
Proof. intros H. cbn [Name_compare]. by rewrite (proj2 (Z.eqb_neq _ _)) by done. Qed.

Lemma prefix_interval q c d n :
  bytes_name q -> wf_bytes (c_value c) -> bytes_name n -> c_type d = c_type c ->
  c_value d = successor_value (c_value c) ->
  (Name_compare (q ++ [c]) n <= 0 /\ Name_compare n (q ++ [d]) < 0) <-> (q ++ [c]) `prefix_of` n.
Proof.
  intros Hq Hc Hn Ht Hv.
  assert (Hd : d = MkComponent (c_type c) (successor_value (c_value c))) by (destruct d; simpl in *; congruence).
  assert (Hdb : wf_bytes (c_value d)) by (rewrite Hv; by apply successor_value_spec).
  pose proof (successor_between c c _ Hc Hc eq_refl) as [Hcd _]. rewrite <- Hd in Hcd.
  split.
  - intros [H1 H2]. revert n Hn H1 H2. induction Hq as [|x q Hx Hq IH]; intros [|y n] Hn H1 H2.
    + simpl in H1. unfold len in H1. simpl in H1. lia.
    + apply Forall_cons in Hn as [Hy Hn]. cbn [app Name_compare] in H1, H2.
      destruct (decide (c = y)) as [->|Hne]; [by exists n|exfalso].
      assert (compare c y <> 0) as Hcy by (intros E; apply Hne; by apply cmp_eq).
      rewrite (proj2 (Z.eqb_neq _ _)) in H1 by done. simpl in H1.
      destruct (successor_between c y _ Hc Hy eq_refl) as [_ Hno]. rewrite <- Hd in Hno.
      destruct (Z.eqb_spec (compare y d) 0) as [E|E]; simpl in H2.
      * destruct n; simpl in H2; unfold len in H2; simpl in H2; lia.
      * apply Hno. lia.
    + simpl in H1. unfold len in H1. simpl in H1. lia.
    + apply Forall_cons in Hn as [Hy Hn]. cbn [app Name_compare] in H1, H2.
      pose proof (cmp_anti x y Hx Hy) as Ha.
      destruct (Z.eqb_spec (compare x y) 0) as [E|E], (Z.eqb_spec (compare y x) 0) as [E'|E']; simpl in *;
        try (rewrite ?E, ?E' in Ha; simpl in Ha; lia).
      apply cmp_eq in E as ->; [|done..]. destruct (IH n Hn H1 H2) as [k ->]. by exists k.
  - intros [k ->]. rewrite <- (app_nil_r (q ++ [c])) at 1. rewrite Name_compare_app.
    split; [apply Name_compare_nil_l|]. rewrite <- !app_assoc, Name_compare_app. simpl.
    by rewrite compare_neg_nz.
Qed.

(** The first components of a name. *)
Lemma getSubName_take n c : len n < u64_max -> 0 <= c -> c < U64 ->
  getSubName n 0 c = take (Z.to_nat (Z.min (len n) c)) n.
Proof.
  intros Hl H0 H1. unfold getSubName. simpl. unfold npos, slice.
  change (0 `max` 0) with 0. rewrite Nat.sub_0_r, drop_0. destruct (Z.eqb_spec c u64_max); simpl.
  - rewrite Z.min_l by width_lia. done.
  - unfold to_u64. rewrite Z.mod_small by width_lia. done.
Qed.

(** The successor of a name with a last component. *)
Lemma getPrefix_neg1 q c : len (q ++ [c]) < U64 -> getPrefix (q ++ [c]) (-1) = q.
Proof.
  intros Hl. unfold getPrefix, getSubName. simpl. rewrite len_app in *.
  change (len [c]) with 1 in *. pose proof (len_nonneg q).
  unfold to_u64. rewrite (Z.mod_small (len q + 1 + -1)) by lia.
  replace (len q + 1 + -1) with (len q) by lia. unfold npos.
  rewrite (proj2 (Z.eqb_neq _ _)) by width_lia. simpl. rewrite Z.mod_small by lia.
  unfold slice. change (0 `max` 0) with 0. rewrite Z.min_r, Z.add_0_l by lia.
  rewrite to_nat_len, Nat.sub_0_r, drop_0. apply take_app_length.
Qed.

Lemma at_last q c : at_ (q ++ [c]) (-1) = Ok c.
Proof.
  unfold at_. rewrite len_app. change (len [c]) with 1. pose proof (len_nonneg q).
  change (0 <=? -1) with false. change (-1 <? 0) with true. simpl.
  rewrite (proj2 (Z.ltb_ge _ _)) by lia. simpl.
  replace (Z.to_nat (len q + 1 + -1)) with (length q) by (unfold len; lia).
  by rewrite lookup_app_r, Nat.sub_diag by lia.
Qed.

Lemma getSuccessor_snoc_eq q c d :
  wf_component c -> len (c_value c) < 2 ^ 32 - 1 -> len (q ++ [c]) < U64 ->
  d = MkComponent (c_type c) (successor_value (c_value c)) ->
  getSuccessor (q ++ [c]) =
    if isGeneric d || isImplicitSha256Digest d then Ok (q ++ [d]) else Err ComponentError.
Proof.
  intros Hc Hl Hn ->. unfold getSuccessor. rewrite (proj2 (Z.eqb_neq _ _)).
  2: { rewrite len_app. change (len [c]) with 1. pose proof (len_nonneg q). lia. }
  rewrite at_last. simpl. destruct (getSuccessor_view c) as (b&->&Hv).
  { pose proof (len_successor _ (proj1 (proj2 Hc))). split; simpl; [by apply wf_component_type|width_lia]. }
  rewrite (Component_of_Block_view _ _ _ Hv). case_match; simpl; [|done].
  unfold append. by rewrite getPrefix_neg1.
Qed.

Lemma getSuccessor_snoc q c s :
  wf_component c -> len (c_value c) < 2 ^ 32 - 1 -> len (q ++ [c]) < U64 ->
  getSuccessor (q ++ [c]) = Ok s ->
  s = q ++ [MkComponent (c_type c) (successor_value (c_value c))].
Proof.
  intros Hc Hl Hn. rewrite (getSuccessor_snoc_eq q c _ Hc Hl Hn eq_refl). case_match; [|done]. by intros [= <-].
Qed.

(** *** Wire format *)

Definition name_elements (n : Name) : list (Z * list Z) := map (fun c => (c_type c, c_value c)) n.

(** Components that a TLV can carry, whatever their type. *)
Definition tlv_name (n : Name) : Prop :=
  Forall wf_element (name_elements n) /\ len (wires (name_elements n)) < U64.

#[global] Instance tlv_name_dec n : Decision (tlv_name n).
Proof. unfold tlv_name. apply _. Defined.

Lemma Component_wireEncode_size {E} `{EncodingLaws E} c (e : E) :
  (Component_wireEncode c e).1 = len (tlv_wire (c_type c) (c_value c)).
Proof.
  unfold Component_wireEncode. do 3 (apply size_bind2; intros).
  rewrite !prependVarNumber_size. unfold tlv_wire. autorewrite with len. simpl.
  case_bool; [rewrite prependByteArray_size|simpl]; len_lia.
Qed.

Lemma Prepends_Component c :
  Prepends (Component_wireEncode c) (len (tlv_wire (c_type c) (c_value c))) (tlv_wire (c_type c) (c_value c)).
Proof.
  unfold Component_wireEncode. case_bool.
  - prepends_block.
  - assert (c_value c = []) as -> by (destruct (c_value c); [done|]; unfold len in *; simpl in *; lia).
    prepends_block.
Qed.
#[export] Hint Resolve Prepends_Component : enc.

Lemma wires_name_snoc n c :
  wires (name_elements (n ++ [c])) = wires (name_elements n) ++ tlv_wire (c_type c) (c_value c).
Proof.
  unfold name_elements. rewrite map_app, wires_app. f_equal. unfold wires. simpl. by rewrite app_nil_r.
Qed.

Lemma wireEncode_loop_size {E} `{EncodingLaws E} l t (e : E) :
  (wireEncode_loop l t e).1 = t + len (wires (name_elements (rev l))).
Proof.
  revert t e. induction l as [|c l IH]; intros t e; [unfold wires, len; simpl; lia|].
  cbn [wireEncode_loop]. apply size_bind2. intros e'. rewrite IH, Component_wireEncode_size.
  cbn [rev]. rewrite wires_name_snoc, len_app. lia.
Qed.

Lemma Prepends_wireEncode_loop l t :
  Prepends (wireEncode_loop l t) (t + len (wires (name_elements (rev l)))) (wires (name_elements (rev l))).
Proof.
  revert t. induction l as [|c l IH]; intros t.
  - eapply Prepends_eq; [apply Prepends_ret|unfold wires, len; simpl; lia|done].
  - cbn [wireEncode_loop]. eapply Prepends_eq.
    + eapply Prepends_bind; [apply Prepends_Component|apply IH|done].
    + cbn [rev]. rewrite wires_name_snoc, len_app. lia.
    + cbn [rev]. by rewrite wires_name_snoc.
Qed.

Lemma Name_wireEncode_size {E} `{EncodingLaws E} n (e : E) :
  (Name_wireEncode n e).1 = len (tlv_wire TlvType.Name (wires (name_elements n))).
Proof.
  unfold Name_wireEncode. do 3 (apply size_bind2; intros).
  rewrite wireEncode_loop_size, !prependVarNumber_size, rev_involutive, Z.add_0_l.
  unfold tlv_wire. autorewrite with len. cbn [sret fst]. lia.
Qed.

Lemma Prepends_Name n :
  Prepends (Name_wireEncode n) (len (tlv_wire TlvType.Name (wires (name_elements n))))
    (tlv_wire TlvType.Name (wires (name_elements n))).
Proof.
  unfold Name_wireEncode. eapply Prepends_eq.
  - eapply Prepends_bind; [apply Prepends_wireEncode_loop|prepends|done].
  - rewrite rev_involutive, Z.add_0_l. unfold tlv_wire. autorewrite with len. lia.
  - rewrite rev_involutive, Z.add_0_l. unfold tlv_wire. done.
Qed.
#[export] Hint Resolve Prepends_Name : enc.

(** The components read from a block whose elements are known. *)
Lemma Name_of_views b n :
  map view (m_subBlocks b) = name_elements n -> Name_of_elements b = n.
Proof.
  unfold Name_of_elements. intros H.
  assert (HM : map (fun sub => MkComponent (m_type sub) (value sub)) (m_subBlocks b)
    = map (fun x => MkComponent x.1 x.2) (map view (m_subBlocks b))) by (by rewrite map_map).
  rewrite HM, H. unfold name_elements. rewrite map_map. simpl.
  clear. induction n as [|[t v] n IH]; simpl; congruence.
Qed.

(** Decoding a block whose value is the elements of a name. *)
Lemma Name_wireDecode_ok b n :
  wf_block b -> m_subBlocks b = [] -> view b = (TlvType.Name, wires (name_elements n)) ->
  Forall wf_element (name_elements n) -> Name_wireDecode b = Ok n.
Proof.
  intros Hwf Hsub Hv Hes. injection Hv as Ht Hval. unfold Name_wireDecode. rewrite Ht. simpl.
  destruct (decide (name_elements n = [])) as [Hn|Hne].
  - destruct n; [|done]. unfold parse, value_size. rewrite Hsub. unfold value in Hval. unfold wf_block in Hwf.
    unfold hasValue. destruct (m_buffer b) as [buffer|]; [|unfold Name_of_elements; simpl; by rewrite Hsub].
    destruct Hwf as (_&Hr&_). pose proof (length_slice _ _ buffer (proj1 Hr) (proj2 Hr)) as Hl.
    rewrite Hval in Hl. simpl in *. rewrite (proj2 (Z.eqb_eq _ _)) by lia.
    unfold Name_of_elements. by rewrite Hsub.
  - destruct (parse_elements b (name_elements n) [] Hwf Hsub Hes) as (buffer&_&Hview&->);
      [by rewrite app_nil_r|done|].
    rewrite parse_loop_nil. f_equal. by apply Name_of_views.
Qed.

(** *** URI *)

Lemma find_char_app c s t : c ∉ s -> find_char c (s ++ c :: t) = Some (length s).
Proof.
  induction s as [|x s IH]; intros H; simpl; [by rewrite Z.eqb_refl|].
  apply not_elem_of_cons in H as [Hx H]. rewrite (proj2 (Z.eqb_neq _ _)) by done. by rewrite IH.
Qed.

Lemma find_char_none c s : c ∉ s -> find_char c s = None.
Proof.
  induction s as [|x s IH]; intros H; simpl; [done|].
  apply not_elem_of_cons in H as [Hx H]. rewrite (proj2 (Z.eqb_neq _ _)) by done. by rewrite IH.
Qed.

Lemma uri_not_slash s : Forall uri_char s -> (47 ∉ s) /\ (58 ∉ s).
Proof. intros H. rewrite Forall_forall in H. split; intros Hin; apply H in Hin as (_&?&?); done. Qed.

(** The body of a name URI, after the first slash. *)
Fixpoint uri_body (n : Name) : list Z :=
  match n with
  | [] => []
  | [c] => toUri c
  | c :: n => toUri c ++ 47 :: uri_body n
  end.

Lemma uri_body_cons c n : n <> [] -> uri_body (c :: n) = toUri c ++ 47 :: uri_body n.
Proof. by destruct n. Qed.

Lemma Name_toUri_body n : Name_toUri n = 47 :: uri_body n.
Proof.
  unfold Name_toUri. destruct n as [|c n]; [done|].
  rewrite (proj2 (Z.eqb_neq _ _)) by (rewrite len_cons; len_lia).
  revert c. induction n as [|d n IH]; intros c; [simpl; by rewrite app_nil_r|].
  rewrite uri_body_cons by done. cbn [map concat app] in *. by rewrite IH.
Qed.

Lemma construct_loop_body n : forall fuel acc,
  wf_name n -> (length (uri_body n) <= fuel)%nat ->
  construct_loop fuel (uri_body n) acc = Ok (acc ++ n).
Proof.
  induction n as [|c n IH]; intros fuel acc Hn Hf; [destruct fuel; simpl; by rewrite app_nil_r|].
  apply Forall_cons in Hn as [Hc Hn]. destruct (toUri_chars c Hc) as [Hu Hne].
  destruct (uri_not_slash _ Hu) as [Hs _].
  destruct (decide (n = [])) as [->|Hnn].
  - cbn [uri_body] in *. destruct (toUri c) as [|x u] eqn:E; [done|].
    destruct fuel as [|fuel]; [simpl in Hf; lia|]. cbn [construct_loop].
    rewrite (find_char_none _ _ Hs). cbn [default]. rewrite take_ge by done. rewrite <- E.
    rewrite fromEscaped_toUri by done. cbn [rbind].
    rewrite drop_ge by (rewrite E; simpl; lia). by destruct fuel.
  - rewrite uri_body_cons in * by done. rewrite length_app in Hf.
    destruct (toUri c) as [|x u] eqn:E; [done|].
    destruct fuel as [|fuel]; [simpl in Hf; lia|]. cbn [construct_loop app].
    change (x :: u ++ 47 :: uri_body n) with ((x :: u) ++ 47 :: uri_body n).
    rewrite (find_char_app _ _ _ Hs). cbn [default id].
    rewrite take_app_length. rewrite <- E, fromEscaped_toUri by done. cbn [rbind].
    rewrite <- drop_drop, drop_app_length. cbn [drop]. rewrite IH; [|done|simpl in Hf; lia].
    unfold append. by rewrite <- app_assoc.
Qed.

Lemma uri_body_ends n : wf_name n -> Forall (fun x => isspace x = false /\ x <> 58) (uri_body n).
Proof.
  induction n as [|c n IH]; intros Hn; [by apply Forall_nil_2|].
  apply Forall_cons in Hn as [Hc Hn]. destruct (toUri_chars c Hc) as [Hu _].
  assert (Hu' : Forall (fun x => isspace x = false /\ x <> 58) (toUri c)).
  { eapply Forall_impl; [exact Hu|]. unfold uri_char. simpl. tauto. }
  destruct (decide (n = [])) as [->|Hnn]; [done|].
  rewrite uri_body_cons by done. apply Forall_app. split; [done|].
  apply Forall_cons. split; [done|by apply IH].
Qed.

Lemma trim_nospace s : Forall (fun x => isspace x = false /\ x <> 58) s -> trim s = s.
Proof.
  intros H.
  assert (HL : forall l, Forall (fun x => isspace x = false /\ x <> 58) l -> trimLeft l = l).
  { intros l []; [done|]. simpl. by destruct H0 as [-> _]. }
  unfold trim, trimRight. rewrite (HL s) by done. rewrite HL by (by apply Forall_rev).
  apply rev_involutive.
Qed.

(** ** Properties *)

(** [Name::compare] is a total order on names (the canonical order): it
    is zero only on the name itself, its sign flips when the arguments are
    swapped, and it is transitive. *)
Theorem canonical_order (a b c : Name) (Ha : bytes_name a) (Hb : bytes_name b) (Hc : bytes_name c) :
  (Name_compare a b = 0 <-> a = b) /\
  Z.sgn (Name_compare b a) = - Z.sgn (Name_compare a b) /\
  (Name_compare a b < 0 -> Name_compare b c < 0 -> Name_compare a c < 0).
Proof.
  split_and!.
  - split; [by apply cmp_eq|]. intros ->. apply cmp_refl.
  - by apply cmp_anti.
  - by apply cmp_trans.
Qed.

(** The windowed [compare(pos1, count1, other, pos2, count2)] never
    throws inside the bounds and is the comparison of the two sub-names, as
    documented; with the default arguments it is the canonical order. *)
Theorem compare_range_spec (a b : Name) (p q : nat) (count1 count2 : Z)
  (Ha : len a < U64) (Hb : len b < U64)
  (Hp : (p <= length a)%nat) (Hq : (q <= length b)%nat)
  (H1 : 0 <= count1 <= npos) (H2 : 0 <= count2 <= npos) :
  compare_range a (Z.of_nat p) count1 b (Z.of_nat q) count2 =
    Ok (Name_compare (take (Z.to_nat count1) (drop p a)) (take (Z.to_nat count2) (drop q b))) /\
  compare_range a 0 npos b 0 npos = Ok (Name_compare a b).
Proof.
  assert (HG : forall p q k1 k2, (p <= length a)%nat -> (q <= length b)%nat ->
    0 <= k1 <= npos -> 0 <= k2 <= npos ->
    compare_range a (Z.of_nat p) k1 b (Z.of_nat q) k2 =
      Ok (Name_compare (take (Z.to_nat k1) (drop p a)) (take (Z.to_nat k2) (drop q b)))).
  { clear p q Hp Hq count1 count2 H1 H2. intros p q k1 k2 Hp Hq H1 H2. unfold compare_range.
    assert (to_u64 (len a - Z.of_nat p) = len (drop p a)) as ->.
    { unfold to_u64, len in *. rewrite length_drop, Z.mod_small; width_lia. }
    assert (to_u64 (len b - Z.of_nat q) = len (drop q b)) as ->.
    { unfold to_u64, len in *. rewrite length_drop, Z.mod_small; width_lia. }
    set (k := Z.min (Z.min k1 (len (drop p a))) (Z.min k2 (len (drop q b)))).
    assert (Hk : Z.to_nat k = (length (take (Z.to_nat k1) (drop p a)) `min`
                               length (take (Z.to_nat k2) (drop q b)))%nat)
      by (unfold k, len; rewrite !length_take; lia).
    pose proof (compare_loop_spec a b (Z.to_nat k) p q 0) as HL. rewrite !Nat.add_0_r in HL.
    change (Z.of_nat 0) with 0 in HL.
    rewrite HL by (rewrite ?length_drop in *; rewrite Hk, !length_take, !length_drop; lia). cbn [rbind].
    rewrite (Name_compare_take (take (Z.to_nat k1) (drop p a)) _ _ Hk). cbv zeta.
    rewrite !take_take.
    rewrite !(Nat.min_l (Z.to_nat k)) by (rewrite Hk, !length_take; lia).
    case_match; [done|]. unfold len. rewrite !length_take. f_equal. lia. }
  split; [by apply HG|].
  rewrite (HG 0%nat 0%nat) by (unfold npos; width_lia). rewrite !drop_0.
  unfold len in *. rewrite !take_ge by (unfold npos; width_lia). done.
Qed.

(** For a name with a last component, the names that have it as a
    prefix are exactly those from it, included, to its successor, excluded:
    this is the range the content store scans. *)
Theorem prefix_range (p s n : Name) (Hne : p <> []) (Hp : wf_name p) (Hn : bytes_name n)
  (Hlen : len p < U64) (Hcl : Forall (fun c => len (c_value c) < 2 ^ 32 - 1) p)
  (Hs : getSuccessor p = Ok s) :
  (Name_compare p n <= 0 /\ Name_compare n s < 0) <-> p `prefix_of` n.
Proof.
  destruct (exists_last Hne) as (q&c&->).
  apply Forall_app in Hp as [Hq Hc]. apply Forall_cons in Hc as [Hc _].
  apply Forall_app in Hcl as [_ Hl]. apply Forall_cons in Hl as [Hl _].
  apply getSuccessor_snoc in Hs as ->; [|done..].
  apply prefix_interval; [by apply wf_name_bytes|apply Hc|done|done|done].
Qed.

(** The successor of a name is not the least name above it, which its
    documentation says it is: every proper extension of a non-empty name
    lies strictly between the name and its successor. *)
Theorem successor_not_immediate (p s e : Name) (Hne : p <> []) (He : e <> [])
  (Hp : wf_name p) (Hlen : len p < U64) (Hcl : Forall (fun c => len (c_value c) < 2 ^ 32 - 1) p)
  (Hs : getSuccessor p = Ok s) :
  Name_compare p (p ++ e) < 0 /\ Name_compare (p ++ e) s < 0.
Proof.
  destruct (exists_last Hne) as (q&c&->).
  apply Forall_app in Hp as [Hq Hc]. apply Forall_cons in Hc as [Hc _].
  apply Forall_app in Hcl as [_ Hl]. apply Forall_cons in Hl as [Hl _].
  apply getSuccessor_snoc in Hs as ->; [|done..]. split.
  - rewrite <- (app_nil_r (q ++ [c])) at 1. rewrite Name_compare_app.
    destruct e as [|x e]; [done|]. cbn [Name_compare]. rewrite len_cons. len_lia.
  - rewrite <- !app_assoc, Name_compare_app. cbn [app].
    destruct (successor_between c c _ (proj1 (proj2 Hc)) (proj1 (proj2 Hc)) eq_refl) as [Hcd _].
    rewrite Name_compare_head; [done|lia].
Qed.

(** C40. The URI of a name reads back as the name, for names whose components are generic
    or implicit digests and have bytes for values, of a length below 2^32: what [toUri] prints
    is changed neither by the scheme, authority and white-space rules of the parser nor by
    its treatment of periods, and every escape is undone.  (A component of another type, as
    a decoded name may have, is in general printed as a generic one and reads back as such.) *)
Theorem name_uri_roundtrip (n : Name) (Hn : wf_name n) : construct (Name_toUri n) = Ok n.
Proof.
  pose proof (uri_body_ends n Hn) as Hb. rewrite Name_toUri_body.
  assert (Hu : Forall (fun x => isspace x = false /\ x <> 58) (47 :: uri_body n))
    by (apply Forall_cons; done).
  unfold construct. rewrite (trim_nospace _ Hu).
  rewrite (proj2 (Z.eqb_neq _ _)) by (rewrite len_cons; len_lia).
  rewrite (find_char_none 58).
  2: { rewrite Forall_forall in Hu. intros Hin. by apply Hu in Hin as [_ ?]. }
  assert (Hfirst : match uri_body n with 47 :: _ => False | _ => True end).
  { destruct n as [|c n]; [done|]. apply Forall_cons in Hn as [Hc _].
    destruct (toUri_chars c Hc) as [Hcu Hcn].
    destruct (toUri c) as [|x u] eqn:E; [done|]. apply Forall_cons in Hcu as [(_&Hx&_) _].
    assert (exists t, uri_body (c :: n) = x :: t) as [t ->].
    { destruct (decide (n = [])) as [->|Hnn]; [simpl; rewrite E; eauto|].
      rewrite uri_body_cons, E by done. eauto. }
    destruct (Z.eq_dec x 47); [done|].
    clear -n0. destruct x as [|x|]; [done| |done]. repeat (destruct x; try done). }
  pose proof (construct_loop_body n (length (uri_body n)) [] Hn (le_n _)) as HL.
  destruct (uri_body n) as [|x t] eqn:E; [exact HL|].
  assert (Hx : x <> 47) by (intros ->; done).
  transitivity (construct_loop (length (x :: t)) (x :: t) []); [|exact HL].
  rewrite (trim_nospace _ Hb). clear -Hx.
  destruct x as [|x|]; [done| |done].
  repeat (destruct x; try reflexivity). done.
Qed.

(** Encoding a name and decoding the result gives the name back, for
    components of any type; the two-pass encoder fills its buffer exactly. *)
Theorem name_wire_roundtrip (n : Name) (Hn : tlv_name n) (Hb : bytes_name n) :
  exists b, Encoder.block true (twoPass (fun E _ => Name_wireEncode n)) = Ok b /\
    m_buffer b = Some (tlv_wire TlvType.Name (wires (name_elements n))) /\
    Name_wireDecode b = Ok n.
Proof.
  destruct Hn as [Hel Hl].
  assert (Hwe : wf_element (TlvType.Name, wires (name_elements n))).
  { split; simpl; [unfold TlvType.Name; width_lia|done]. }
  destruct (twoPass_block (fun E _ => Name_wireEncode n) TlvType.Name (wires (name_elements n)))
    as (b&Hblk&[Hv Hmb _ _ Hsub Hwf]);
    [apply (Name_wireEncode_size (E := Estimator.t))|apply Prepends_Name|done|].
  exists b. split_and!; [done..|].
  apply Name_wireDecode_ok; [apply Hwf, wf_wires|done..]; [done|].
  unfold name_elements. by apply Forall_map.
Qed.

(** Sub-names: a non-negative count takes that many components from the
    start; [-N] leaves out the last [N]; when [N] exceeds the size, the
    [size_t] sum wraps around and the whole name is returned. *)
Theorem getPrefix_spec (n : Name) (k : Z) (Hl : len n < 2 ^ 63) (Hk : - 2 ^ 63 <= k < 2 ^ 63) :
  (0 <= k -> getPrefix n k = take (Z.to_nat k) n) /\
  (- len n <= k < 0 -> getPrefix n k = take (Z.to_nat (len n + k)) n) /\
  (k < - len n -> getPrefix n k = n).
Proof.
  unfold getPrefix. pose proof (fun c => getSubName_take n c ltac:(width_lia)) as HS. split_and!; intros H.
  - rewrite (proj2 (Z.ltb_ge _ _)), HS by width_lia. unfold len.
    destruct (decide (k <= Z.of_nat (length n))).
    + by rewrite Z.min_r by lia.
    + rewrite Z.min_l, !take_ge by lia. done.
  - rewrite (proj2 (Z.ltb_lt _ _)) by lia. unfold to_u64. rewrite Z.mod_small by width_lia.
    rewrite HS by width_lia. by rewrite Z.min_r by lia.
  - rewrite (proj2 (Z.ltb_lt _ _)) by len_lia. unfold to_u64.
    replace ((len n + k) mod U64) with (len n + k + U64).
    2: { symmetry. rewrite <- (Z_mod_plus_full _ 1). apply Z.mod_small. len_pos. width_lia. }
    rewrite HS by (len_pos; width_lia). rewrite Z.min_l by (len_pos; width_lia).
    rewrite to_nat_len. apply take_ge. lia.
Qed.

(** ** Witnesses *)

Definition name_ab : Name := [generic [97]; generic [98; 32]].
Definition name_a : Name := [generic [97]].

Lemma canonical_order_witness :
  (Name_compare name_a name_ab = 0 <-> name_a = name_ab) /\
  Z.sgn (Name_compare name_ab name_a) = - Z.sgn (Name_compare name_a name_ab) /\
  (Name_compare name_a name_ab < 0 -> Name_compare name_ab [generic [98]] < 0 ->
   Name_compare name_a [generic [98]] < 0).
Proof. apply (canonical_order name_a name_ab [generic [98]]); apply wf_name_bytes; by_decide. Defined.

Lemma compare_range_spec_witness :
  compare_range name_ab 1 5 name_a 0 1 = Ok (Name_compare [generic [98; 32]] [generic [97]]) /\
  compare_range name_ab 0 npos name_a 0 npos = Ok (Name_compare name_ab name_a).
Proof.
  apply (compare_range_spec name_ab name_a 1 0 5 1);
    first [by_decide | simpl; lia | unfold npos; width_lia].
Defined.

Lemma prefix_range_witness :
  (Name_compare name_a name_ab <= 0 /\ Name_compare name_ab [generic [98]] < 0)
    <-> name_a `prefix_of` name_ab.
Proof.
  apply (prefix_range name_a [generic [98]] name_ab); first
    [done | by_decide | apply wf_name_bytes; by_decide | vm_compute; reflexivity].
Defined.

Lemma successor_not_immediate_witness :
  Name_compare name_a (name_a ++ name_ab) < 0 /\ Name_compare (name_a ++ name_ab) [generic [98]] < 0.
Proof.
  apply (successor_not_immediate name_a [generic [98]] name_ab);
    first [done | by_decide | vm_compute; reflexivity].
Defined.

Lemma name_uri_roundtrip_witness : construct (Name_toUri name_ab) = Ok name_ab.
Proof. apply (name_uri_roundtrip name_ab). by_decide. Defined.

Lemma name_wire_roundtrip_witness :
  exists b, Encoder.block true (twoPass (fun E _ => Name_wireEncode name_ab)) = Ok b /\
    m_buffer b = Some [7; 7; 8; 1; 97; 8; 2; 98; 32] /\ Name_wireDecode b = Ok name_ab.
Proof. apply (name_wire_roundtrip name_ab); [by_decide|apply wf_name_bytes; by_decide]. Defined.

Lemma getPrefix_spec_witness :
  getPrefix name_ab (-1) = name_a /\ getPrefix name_ab (-3) = name_ab.
Proof.
  split.
  - refine (proj1 (proj2 (getPrefix_spec name_ab (-1) _ _)) _); by_decide.
  - refine (proj2 (proj2 (getPrefix_spec name_ab (-3) _ _)) _); by_decide.
Defined.
