(* ===== verification/KeyLocator.v ===== *)
(** * Key locators: [ndn-cxx/src/key-locator.cpp]

    A key locator is a name or a digest of a key.  It keeps the block it was
    decoded from; [wireEncode()] returns that block, while the template
    [wireEncode(encoder)] writes the name or the digest afresh. *)

From S2P Require Import Prelude StdMap Tlv Block Encoder Elements NameComponent Name.

Inductive KeyLocatorType := KeyLocator_None | KeyLocator_Name | KeyLocator_KeyDigest | KeyLocator_Unknown.

Record KeyLocator := MkKeyLocator {
  kl_type : KeyLocatorType;
  kl_name : Name;
  kl_keyDigest : Block;
  kl_wire : Block
}.

Definition KeyLocator_new : KeyLocator := MkKeyLocator KeyLocator_None [] Block_empty Block_empty.

Definition KeyLocator_empty (k : KeyLocator) : bool := match kl_type k with KeyLocator_None => true | _ => false end.

(** The template throws for a locator of another kind. *)
Definition KeyLocator_supported (k : KeyLocator) : result unit :=
  match kl_type k with KeyLocator_Unknown => Err PacketError | _ => Ok tt end.

Definition KeyLocator_wireEncode {E} `{EncodingImpl E} (k : KeyLocator) : state E Z :=
  let~ totalLength :=
    match kl_type k with
    | KeyLocator_Name => Name_wireEncode (kl_name k)
    | KeyLocator_KeyDigest => prependBlock (kl_keyDigest k)
    | _ => sret 0
    end in
  let~ l1 := prependVarNumber totalLength in
  let~ l2 := prependVarNumber TlvType.KeyLocator in
  sret (totalLength + l1 + l2).

(** [KeyLocator::wireEncode()]: the block, and the locator, which keeps it *)
Definition KeyLocator_wire (k : KeyLocator) : result (Block * KeyLocator) :=
  if hasWire (kl_wire k) then Ok (kl_wire k, k)
  else
    let! _ := KeyLocator_supported k in
    let! b := Encoder.block true (twoPass (fun E _ => KeyLocator_wireEncode k)) in
    Ok (b, MkKeyLocator (kl_type k) (kl_name k) (kl_keyDigest k) b).

(** [KeyLocator::wireDecode]: what a locator of the other kind held stays. *)
Definition KeyLocator_wireDecode (wire : Block) (k : KeyLocator) : result KeyLocator :=
  if negb (m_type wire =? TlvType.KeyLocator) then Err PacketError
  else
    let! w := Block_parse wire in
    match m_subBlocks w with
    | [] => Ok (MkKeyLocator KeyLocator_None (kl_name k) (kl_keyDigest k) w)
    | e :: _ =>
        if m_type e =? TlvType.Name then
          let! n := Name_wireDecode e in Ok (MkKeyLocator KeyLocator_Name n (kl_keyDigest k) w)
        else if m_type e =? TlvType.KeyDigest then Ok (MkKeyLocator KeyLocator_KeyDigest (kl_name k) e w)
        else Ok (MkKeyLocator KeyLocator_Unknown (kl_name k) (kl_keyDigest k) w)
    end.

Definition KeyLocator_clear (k : KeyLocator) : KeyLocator :=
  MkKeyLocator KeyLocator_None [] (reset (kl_keyDigest k)) (reset (kl_wire k)).

Definition KeyLocator_getName (k : KeyLocator) : result Name :=
  match kl_type k with KeyLocator_Name => Ok (kl_name k) | _ => Err PacketError end.

Definition KeyLocator_setName (n : Name) (k : KeyLocator) : KeyLocator :=
  let k := KeyLocator_clear k in MkKeyLocator KeyLocator_Name n (kl_keyDigest k) (kl_wire k).

Definition KeyLocator_getKeyDigest (k : KeyLocator) : result Block :=
  match kl_type k with KeyLocator_KeyDigest => Ok (kl_keyDigest k) | _ => Err PacketError end.

Definition KeyLocator_setKeyDigest (keyDigest : Block) (k : KeyLocator) : result KeyLocator :=
  if negb (m_type keyDigest =? TlvType.KeyDigest) then Err PacketError
  else let k := KeyLocator_clear k in Ok (MkKeyLocator KeyLocator_KeyDigest (kl_name k) keyDigest (kl_wire k)).

(** ** Names as elements *)

Lemma Encodes_Name n :
  Encodes (fun E _ => Name_wireEncode n) (len (tlv_wire TlvType.Name (wires (name_elements n)))) (tlv_wire TlvType.Name (wires (name_elements n))).
Proof. split; [intros; apply (Name_wireEncode_size (E := Estimator.t))|apply Prepends_Name]. Qed.

(** A name that can be encoded *)
Definition name_ok (n : Name) : Prop := wf_fields (name_elements n).

Lemma Name_decode_elem b n : elem_ok b (TlvType.Name, wires (name_elements n)) -> name_ok n -> Name_wireDecode b = Ok n.
Proof. intros [Hv _ _ _ Hwf Hsub] [Hn _]. by apply Name_wireDecode_ok. Qed.

Lemma name_ok_bytes n : name_ok n -> wf_bytes (wires (name_elements n)).
Proof. intros [? ?]. by apply wf_wires. Qed.

(** ** Round trip *)

(** What a locator holds, in the form it is encoded in *)
Definition kl_elements (k : KeyLocator) : list (Z * list Z) :=
  match kl_type k with
  | KeyLocator_Name => [(TlvType.Name, wires (name_elements (kl_name k)))]
  | KeyLocator_KeyDigest => [(TlvType.KeyDigest, value (kl_keyDigest k))]
  | _ => []
  end.

Definition kl_ok (k : KeyLocator) : Prop :=
  wf_fields (kl_elements k) /\
  match kl_type k with
  | KeyLocator_None => True
  | KeyLocator_Name => name_ok (kl_name k)
  | KeyLocator_KeyDigest => elem_ok (kl_keyDigest k) (TlvType.KeyDigest, value (kl_keyDigest k))
  | KeyLocator_Unknown => False
  end.

(** The same locator, up to the blocks it is in *)
Definition kl_same (k k' : KeyLocator) : Prop :=
  kl_type k' = kl_type k /\
  match kl_type k with
  | KeyLocator_Name => kl_name k' = kl_name k
  | KeyLocator_KeyDigest => elem_ok (kl_keyDigest k') (TlvType.KeyDigest, value (kl_keyDigest k))
  | _ => True
  end.

Lemma Encodes_KeyLocator k : kl_ok k ->
  Encodes (fun E _ => KeyLocator_wireEncode k) (len (tlv_wire TlvType.KeyLocator (wires (kl_elements k))))
    (tlv_wire TlvType.KeyLocator (wires (kl_elements k))).
Proof.
  intros [_ Hk]. unfold KeyLocator_wireEncode, kl_elements. destruct (kl_type k); [| | |done]; rewrite ?wires_single; apply Encodes_header.
  - apply Encodes_ret.
  - apply Encodes_Name.
  - by apply (Encodes_Block _ (TlvType.KeyDigest, value (kl_keyDigest k))).
Qed.

Lemma KeyLocator_decode_elem b k k0 : elem_ok b (TlvType.KeyLocator, wires (kl_elements k)) -> kl_ok k ->
  exists k', KeyLocator_wireDecode b k0 = Ok k' /\ kl_same k k' /\ wire (kl_wire k') = Ok (tlv_wire TlvType.KeyLocator (wires (kl_elements k))).
Proof.
  intros Hb [Hel Hk]. unfold KeyLocator_wireDecode. rewrite (elem_ok_type _ _ Hb). cbn [fst]. rewrite Z.eqb_refl. cbn [negb].
  destruct (Block_parse_value b (kl_elements k) (ek_wf _ _ Hb) (ek_sub _ _ Hb) (elem_ok_value _ _ Hb) Hel) as (l&->&H2). cbn [rbind set_subBlocks m_subBlocks].
  assert (Hw : forall t n d, wire (kl_wire (MkKeyLocator t n d (set_subBlocks b l))) = Ok (tlv_wire TlvType.KeyLocator (wires (kl_elements k))))
    by (intros; apply (ek_wire _ _ Hb)).
  unfold kl_same, kl_elements in *. destruct (kl_type k) eqn:Ht; [| | |done].
  - destruct l; [|by inversion H2]. eexists. split_and!; [done|done|done|apply Hw].
  - destruct l as [|e l]; [by inversion H2|]. apply Forall2_cons in H2 as [He _]. rewrite (elem_ok_type _ _ He). cbn [fst]. rewrite Z.eqb_refl.
    rewrite (Name_decode_elem e (kl_name k) He Hk). cbn [rbind]. eexists. split_and!; [done|done|done|apply Hw].
  - destruct l as [|e l]; [by inversion H2|]. apply Forall2_cons in H2 as [He _]. rewrite (elem_ok_type _ _ He). cbn [fst].
    change (TlvType.KeyDigest =? TlvType.Name) with false. rewrite Z.eqb_refl. eexists. split_and!; [done|done|exact He|apply Hw].
Qed.

Lemma kl_same_elements k k' : kl_same k k' -> kl_elements k' = kl_elements k.
Proof.
  unfold kl_same, kl_elements. intros [-> Hk]. destruct (kl_type k); [done|by rewrite Hk|by rewrite (elem_ok_value _ _ Hk)|done].
Qed.

Lemma kl_same_ok k k' : kl_ok k -> kl_same k k' -> kl_ok k'.
Proof.
  intros [Hel Hk] Hs. split; [by rewrite (kl_same_elements k k' Hs)|]. destruct Hs as [-> Hs].
  destruct (kl_type k); [done|by rewrite Hs|by rewrite (elem_ok_value _ _ Hs)|done].
Qed.
