(* ===== verification/Exclude.v ===== *)
(** * Exclude filters: [ndn-cxx/src/exclude.cpp]

    An exclude filter maps components to a flag: an entry [(c, false)]
    excludes [c]; an entry [(c, true)] (followed by [ANY] on the wire)
    excludes [c] and everything up to the next entry.  The map is ordered by
    [std::greater], so that [lower_bound] finds the entry at or below a
    component. *)

From S2P Require Import Prelude StdMap Tlv Block Encoder NameComponent Name.

(** [std::greater<name::Component>] *)
Definition greater (a b : Component) : Z := compare b a.

Record Exclude := MkExclude {
  m_exclude : list (Component * bool);
  m_wire : option Block
}.

(** ** Operations *)

(** [name::Component()] and [name::Component::empty] *)
Definition Component_default : Component := generic [].
Definition Component_empty (c : Component) : bool := len (c_value c) =? 0.

Definition Exclude_empty (e : Exclude) : bool :=
  match m_exclude e with [] => true | _ => false end.

Definition clear (e : Exclude) : Exclude := MkExclude [] None.

(** [appendExclude] leaves the cached wire alone. *)
Definition appendExclude (c : Component) (any : bool) (e : Exclude) : Exclude :=
  MkExclude (map_assign greater c any (m_exclude e)) (m_wire e).

Definition isExcluded (e : Exclude) (comp : Component) : bool :=
  match lower_bound greater comp (m_exclude e) with
  | None => false
  | Some (k, true) => true
  | Some (k, false) => equals k comp
  end.

Definition excludeOne (comp : Component) (e : Exclude) : Exclude :=
  if isExcluded e comp then e
  else MkExclude (map_insert greater comp false (m_exclude e)).1 None.

(** The start of a range, common to [excludeRange] and [excludeAfter]: the
    iterator [newFrom] and the map after the possible insertion. *)
Definition rangeStart (from : Component) (m : list (Component * bool))
  : Component * list (Component * bool) :=
  match lower_bound greater from m with
  | Some (k, true) => (k, m)
  | _ =>
      let '(m1, inserted) := map_insert greater from true m in
      (from, if inserted then m1 else map_set greater from true m1)
  end.

Definition excludeRange (from to : Component) (e : Exclude) : result Exclude :=
  if 0 <=? compare from to then Err ExcludeError
  else
    let '(newFrom, m1) := rangeStart from (m_exclude e) in
    match lower_bound greater to m1 with
    | None => Err OutOfRange
    | Some (k, any) =>
        let '(newTo, m2) :=
          if bool_decide (k = newFrom) || negb any then
            let m2 := (map_insert greater to false m1).1 in (next_it greater to m2, m2)
          else (Some k, m1) in
        Ok (MkExclude (map_erase_range greater newTo (Some newFrom) m2) None)
    end.

Definition excludeBefore (to : Component) (e : Exclude) : result Exclude :=
  excludeRange Component_default to e.

Definition excludeAfter (from : Component) (e : Exclude) : Exclude :=
  let '(newFrom, m1) := rangeStart from (m_exclude e) in
  MkExclude (map_erase_range greater (fst <$> head m1) (Some newFrom) m1) None.

(** [operator<<], over the reversed map: commas are 44, the star is 42. *)
Fixpoint print_loop (l : list (Component * bool)) (isFirst : bool) : list Z :=
  match l with
  | [] => []
  | (c, any) :: l' =>
      let sep (first : bool) := if first then [] else [44] in
      let named := negb (Component_empty c) || negb any in
      let out1 := if named then sep isFirst ++ toUri c else [] in
      let first1 := if named then false else isFirst in
      let out2 := if any then sep first1 ++ [42] else [] in
      let first2 := if any then false else first1 in
      out1 ++ out2 ++ print_loop l' first2
  end.

Definition Exclude_toUri (e : Exclude) : list Z := print_loop (rev (m_exclude e)) true.

(** ** Wire format *)

Section WireEncode.
Context {E : Type} `{EncodingImpl E}.

Fixpoint encode_loop (l : list (Component * bool)) (totalLength : Z) : state E Z :=
  match l with
  | [] => sret totalLength
  | (c, any) :: l' =>
      let~ k1 := if any then prependEmptyBlock TlvType.Any else sret 0 in
      let~ k2 := if negb (Component_empty c) || negb any then Component_wireEncode c else sret 0 in
      encode_loop l' (totalLength + k1 + k2)
  end.

(** [Exclude::wireEncode(encoder)] after the check that it is not empty *)
Definition Exclude_wireEncode (m : list (Component * bool)) : state E Z :=
  let~ totalLength := encode_loop m 0 in
  let~ l1 := prependVarNumber totalLength in
  let~ l2 := prependVarNumber TlvType.Exclude in
  sret (totalLength + l1 + l2).
End WireEncode.

(** [Exclude::wireEncode()]: the block, and the filter with its cache set. *)
Definition Exclude_wire (e : Exclude) : result (Block * Exclude) :=
  let encode :=
    if Exclude_empty e then Err ExcludeError
    else
      let! b := Encoder.block true (twoPass (fun E _ => Exclude_wireEncode (m_exclude e))) in
      Ok (b, MkExclude (m_exclude e) (Some b)) in
  match m_wire e with
  | Some w => if hasWire w then Ok (w, e) else encode
  | None => encode
  end.

(** The [while] loop of [wireDecode], over the elements not yet read. *)
Fixpoint decode_loop (l : list Block) (e : Exclude) : result Exclude :=
  match l with
  | [] => Ok e
  | b :: l' =>
      match Component_of_Block b with
      | Err _ => Err ExcludeError
      | Ok c =>
          match l' with
          | b' :: l'' =>
              if m_type b' =? TlvType.Any then decode_loop l'' (appendExclude c true e)
              else decode_loop l' (appendExclude c false e)
          | [] => Ok (appendExclude c false e)
          end
      end
  end.

Definition Exclude_wireDecode (wire : Block) : result Exclude :=
  if negb (m_type wire =? TlvType.Exclude) then Err ExcludeError
  else
    let '(w, x) := parse wire in
    match x with
    | Some err => Err err
    | None =>
        let e := MkExclude [] (Some w) in
        match m_subBlocks w with
        | [] => Err ExcludeError
        | b :: l' =>
            if m_type b =? TlvType.Any then decode_loop l' (appendExclude Component_default true e)
            else decode_loop (b :: l') e
        end
    end.

(** ** Lemmas *)

(** Filters over generic components; on them the comparison is the order of
    an integer key, and [operator==] is equality. *)
Definition gen (c : Component) : Prop := c_type c = TlvType.NameComponent /\ wf_bytes (c_value c).
#[global] Instance gen_dec c : Decision (gen c).
Proof. unfold gen. apply _. Defined.

Definition order_key (c : Component) : Z := 256 ^ len (c_value c) + be_decode (c_value c).

Lemma greater_key a b : gen a -> gen b -> greater a b = Z.sgn (order_key b - order_key a).
Proof.
  intros [Ta Ha] [Tb Hb]. unfold greater, order_key. rewrite compare_cases, Ta, Tb, Z.eqb_refl by done.
  pose proof (be_decode_bounds _ Ha) as Ba. pose proof (be_decode_bounds _ Hb) as Bb.
  pose proof (len_nonneg (c_value a)). pose proof (len_nonneg (c_value b)). case_bool.
  - f_equal. replace (len (c_value b)) with (len (c_value a)) by lia. lia.
  - assert (Hpow : forall i j, 0 <= i < j -> 2 * 256 ^ i <= 256 ^ j).
    { intros i j Hij. replace j with (1 + i + (j - i - 1)) by lia. rewrite !Z.pow_add_r by lia.
      assert (0 < 256 ^ (j - i - 1)) by (apply Z.pow_pos_nonneg; lia).
      assert (0 < 256 ^ i) by (apply Z.pow_pos_nonneg; lia). nia. }
    destruct (Z_lt_le_dec (len (c_value a)) (len (c_value b))).
    + specialize (Hpow (len (c_value a)) (len (c_value b)) ltac:(lia)). rewrite !Z.sgn_pos; lia.
    + specialize (Hpow (len (c_value b)) (len (c_value a)) ltac:(lia)). rewrite !Z.sgn_neg; lia.
Qed.

#[global] Instance greater_total : TotalCompare gen greater.
Proof.
  apply (total_weaken (fun c => wf_bytes (c_value c))); [by intros a [_ ?]|].
  apply (flip_total _ compare), compare_total.
Qed.

Lemma order_key_inj a b : gen a -> gen b -> order_key a = order_key b -> a = b.
Proof.
  intros Ha Hb He. apply (cmp_eq (cmp := greater)); [done..|]. rewrite greater_key, He, Z.sub_diag by done. done.
Qed.

Lemma equals_gen a b : gen a -> gen b -> equals a b = (order_key a =? order_key b).
Proof.
  intros Ha Hb. destruct (Z.eqb_spec (order_key a) (order_key b)) as [He|Hne].
  - apply order_key_inj in He as ->; [|done..]. unfold equals. rewrite Z.eqb_refl. cbn [negb].
    case_bool; [done|]. by apply bool_decide_eq_true.
  - unfold equals. destruct Ha as [Ta _], Hb as [Tb _]. destruct a as [ta va], b as [tb vb]. simpl in *. subst.
    destruct (Z.eqb_spec (len va) (len vb)); simpl; [|done]. case_bool.
    + exfalso. apply Hne. destruct va, vb; try done; unfold len in *; simpl in *; lia.
    + apply bool_decide_eq_false. intros ->. by apply Hne.
Qed.

Definition wf_map (m : list (Component * bool)) : Prop :=
  sorted_map greater m /\ keys_in (P := gen) m.

Definition above (x : Z) (m : list (Component * bool)) : Prop :=
  Forall (fun e => x < order_key e.1) m.
Definition at_most (x : Z) (m : list (Component * bool)) : Prop :=
  Forall (fun e => order_key e.1 <= x) m.

Definition excludes (m : list (Component * bool)) (c : Component) : bool :=
  isExcluded (MkExclude m None) c.

Lemma isExcluded_excludes e c : isExcluded e c = excludes (m_exclude e) c.
Proof. done. Qed.

Lemma excludes_cons k any m c : gen k -> gen c ->
  excludes ((k, any) :: m) c =
    if order_key k <=? order_key c then any || (order_key k =? order_key c) else excludes m c.
Proof.
  intros Hk Hc. unfold excludes, isExcluded, lower_bound. simpl. unfold key_lt. rewrite greater_key by done.
  destruct (Z.leb_spec (order_key k) (order_key c)).
  - rewrite (proj2 (Z.ltb_ge _ _)) by lia. simpl. destruct any; [done|]. by apply equals_gen.
  - by rewrite (proj2 (Z.ltb_lt _ _)) by lia.
Qed.

Lemma excludes_above m1 m2 c : gen c -> keys_in (P := gen) m1 -> above (order_key c) m1 ->
  excludes (m1 ++ m2) c = excludes m2 c.
Proof.
  intros Hc. induction m1 as [|[k any] m1 IH]; intros HP HA; [done|].
  apply Forall_cons in HP as [Hk HP]. apply Forall_cons in HA as [Ha HA]. simpl in *.
  rewrite excludes_cons by done. case_bool; [lia|auto].
Qed.

(** Either the first entries decide, or the component is below all of them. *)
Lemma excludes_decided m1 c : gen c -> keys_in (P := gen) m1 ->
  above (order_key c) m1 \/ forall m2 m3, excludes (m1 ++ m2) c = excludes (m1 ++ m3) c.
Proof.
  intros Hc. induction m1 as [|[k any] m1 IH]; intros HP; [by left; constructor|].
  apply Forall_cons in HP as [Hk HP]. destruct (Z_le_gt_dec (order_key k) (order_key c)).
  - right. intros m2 m3. simpl. rewrite !excludes_cons by done. case_bool; [done|lia].
  - destruct (IH HP) as [HA|HD]; [left; constructor; simpl; [lia|done]|].
    right. intros m2 m3. simpl. rewrite !excludes_cons by done. case_bool; [lia|apply HD].
Qed.

(** [before] and [from] in terms of keys. *)
Lemma above_before c m : gen c -> keys_in (P := gen) m -> above (order_key c) (before greater c m).
Proof.
  intros Hc HP. pose proof (before_lt (cmp := greater) c m) as H.
  pose proof (proj1 (keys_split (cmp := greater) m c HP)) as HP'. unfold keys_in, above in *.
  rewrite Forall_forall in *. intros e He. specialize (H e He). specialize (HP' e He). simpl in *.
  rewrite greater_key in H by done. lia.
Qed.

Lemma at_most_from c m : gen c -> wf_map m -> at_most (order_key c) (from greater c m).
Proof.
  intros Hc [Hs HP]. pose proof (from_ge c m HP Hc Hs) as H.
  pose proof (proj2 (keys_split (cmp := greater) m c HP)) as HP'. unfold keys_in, at_most in *.
  rewrite Forall_forall in *. intros e He. specialize (H e He). specialize (HP' e He). simpl in *.
  rewrite greater_key in H by done. lia.
Qed.

Lemma cut c m1 m2 : gen c -> keys_in (P := gen) (m1 ++ m2) -> above (order_key c) m1 ->
  at_most (order_key c) m2 -> before greater c (m1 ++ m2) = m1 /\ from greater c (m1 ++ m2) = m2.
Proof.
  intros Hc [HP1 HP2]%Forall_app HA HM. apply before_from_app; unfold above, at_most in *;
    rewrite Forall_forall in *; intros e He.
  - specialize (HP1 e He). specialize (HA e He). simpl in *. rewrite greater_key by done. lia.
  - specialize (HP2 e He). specialize (HM e He). simpl in *. rewrite greater_key by done. lia.
Qed.

Lemma wf_map_app m1 m2 : wf_map (m1 ++ m2) <->
  wf_map m1 /\ wf_map m2 /\ Forall (fun a => at_most (order_key a.1 - 1) m2) m1.
Proof.
  unfold wf_map, keys_in. rewrite sorted_app, Forall_app.
  assert (H : Forall (fun e => gen e.1) m1 -> Forall (fun e => gen e.1) m2 ->
    Forall (fun a => Forall (fun b => greater a.1 b.1 < 0) m2) m1 <->
    Forall (fun a => at_most (order_key a.1 - 1) m2) m1).
  { unfold at_most. intros H1 H2. rewrite !Forall_forall in *.
    split; intros H a Ha; specialize (H a Ha); rewrite Forall_forall in *; intros b Hb; specialize (H b Hb);
      specialize (H1 a Ha); specialize (H2 b Hb); simpl in *; rewrite greater_key in * by done; lia. }
  split; [intros ((?&?&?)&?&?)|intros ((?&?)&(?&?)&?)]; split_and!; try done; by apply H.
Qed.

Lemma wf_map_cons e m : wf_map (e :: m) <-> gen e.1 /\ wf_map m /\ at_most (order_key e.1 - 1) m.
Proof.
  change (e :: m) with ([e] ++ m). rewrite wf_map_app. unfold at_most. split.
  - intros ([_ H]&?&H2). apply Forall_cons in H as [? _]. apply Forall_cons in H2 as [? _]. done.
  - intros (?&?&?). split_and!; [|done|by apply Forall_singleton].
    split; [|by apply Forall_singleton]. repeat constructor.
Qed.

Lemma above_weaken x y m : x <= y -> above y m -> above x m.
Proof. intros Hxy H. eapply Forall_impl; [exact H|]. simpl. lia. Qed.
Lemma at_most_weaken x y m : x <= y -> at_most x m -> at_most y m.
Proof. intros Hxy H. eapply Forall_impl; [exact H|]. simpl. lia. Qed.

Lemma wf_map_flag m1 k v v' m2 : wf_map (m1 ++ (k, v) :: m2) -> wf_map (m1 ++ (k, v') :: m2).
Proof.
  rewrite !wf_map_app, !wf_map_cons. intros (?&(?&?&?)&Hf). split_and!; try done.
  eapply Forall_impl; [exact Hf|]. intros a [? ?]%Forall_cons. by constructor.
Qed.

(** In a sorted map, the entries around an entry are the two sides of its key. *)
Lemma around m1 k v m2 : wf_map (m1 ++ (k, v) :: m2) ->
  gen k /\ before greater k (m1 ++ (k, v) :: m2) = m1 /\ from greater k (m1 ++ (k, v) :: m2) = (k, v) :: m2.
Proof.
  intros H. pose proof H as (Hw1&Hw2&Hc)%wf_map_app. pose proof Hw2 as (Hk&Hw&Hm)%wf_map_cons. simpl in *.
  split; [done|]. apply cut; [done|apply H| |].
  - unfold above. rewrite Forall_forall in *. intros e He. specialize (Hc e He).
    apply Forall_cons in Hc as [Hc _]. simpl in Hc. lia.
  - constructor; simpl; [lia|]. eapply at_most_weaken; [|exact Hm]. lia.
Qed.

(** [erase] of the entries between two entries of the map. *)
Lemma erase_between m1 m2 k v m3 : wf_map (m1 ++ m2 ++ (k, v) :: m3) ->
  map_erase_range greater (fst <$> head (m2 ++ (k, v) :: m3)) (Some k) (m1 ++ m2 ++ (k, v) :: m3)
  = m1 ++ (k, v) :: m3.
Proof.
  intros H. unfold map_erase_range, before_it, from_it. f_equal.
  - destruct m2 as [|[k2 v2] m2]; simpl in *; by apply around in H as (_&?&_).
  - rewrite app_assoc in *. by apply around in H as (_&_&?).
Qed.

(** Where a range that starts at [fr] starts in the map. *)
Record starts (fr : Component) (m : list (Component * bool)) (f : Component)
  (tl : list (Component * bool)) : Prop := {
  starts_eq : rangeStart fr m = (f, before greater fr m ++ (f, true) :: tl);
  starts_wf : wf_map (before greater fr m ++ (f, true) :: tl);
  starts_le : order_key f <= order_key fr;
  starts_cases : from greater fr m = (f, true) :: tl \/
    (f = fr /\ (forall k, head (from greater fr m) <> Some (k, true)) /\
     forall c, gen c -> order_key c < order_key fr -> excludes tl c = excludes (from greater fr m) c)
}.

Lemma insert_absent k v m : gen k -> wf_map m ->
  (forall e, head (from greater k m) = Some e -> order_key e.1 < order_key k) ->
  map_insert greater k v m = (before greater k m ++ (k, v) :: from greater k m, true) /\
  wf_map (before greater k m ++ (k, v) :: from greater k m).
Proof.
  intros Hk Hm Hh. pose proof Hm as [Hs HP]. split.
  - unfold map_insert, map_find, lower_bound. pose proof (proj2 (keys_split (cmp := greater) m k HP)) as HPf.
    destruct (from greater k m) as [|e l]; simpl; [done|]. apply Forall_cons in HPf as [He _].
    specialize (Hh e eq_refl). unfold key_lt. rewrite greater_key by done.
    by rewrite (proj2 (Z.ltb_lt _ _)) by lia.
  - pose proof (above_before k m Hk HP) as HA. pose proof (at_most_from k m Hk Hm) as HM.
    pose proof Hm as Hm'. rewrite <- (before_from (cmp := greater) k m) in Hm'. apply wf_map_app in Hm' as (H1&H2&H3).
    rewrite wf_map_app, wf_map_cons. split_and!; try done.
    + destruct (from greater k m) as [|e l]; [by constructor|]. specialize (Hh e eq_refl).
      apply wf_map_cons in H2 as (_&_&H2). constructor; simpl; [lia|]. eapply at_most_weaken; [|exact H2]. lia.
    + unfold above in HA. rewrite Forall_forall in *. intros e He. constructor; simpl; [|by apply H3].
      specialize (HA e He). lia.
Qed.

Lemma rangeStart_starts fr m : gen fr -> wf_map m -> exists f tl, starts fr m f tl.
Proof.
  intros Hfr Hm. pose proof (at_most_from fr m Hfr Hm) as HM.
  pose proof (before_from (cmp := greater) fr m) as Hbf.
  destruct (from greater fr m) as [|[k any] tl] eqn:Hf.
  { destruct (insert_absent fr true m Hfr Hm) as [Hi Hw]; [by rewrite Hf|]. rewrite Hf in *.
    exists fr, []. split; [|done|lia|right; split_and!; [done|by rewrite Hf|by rewrite Hf]].
    unfold rangeStart, lower_bound. by rewrite Hf, Hi. }
  pose proof Hm as Hm'. rewrite <- Hbf in Hm'. destruct (around _ _ _ _ Hm') as (Hk&_&_).
  apply Forall_cons in HM as [Hle _]. simpl in Hle. destruct any.
  { exists k, tl. split; [unfold rangeStart, lower_bound; by rewrite Hf, Hbf|done|done|by left]. }
  destruct (Z.eq_dec (order_key k) (order_key fr)) as [He|Hne].
  - apply order_key_inj in He as ->; [|done..]. exists fr, tl.
    split; [|by eapply wf_map_flag|lia|right; split_and!; [done| |]].
    + unfold rangeStart, map_insert, map_find, lower_bound. rewrite Hf. simpl.
      unfold key_lt. rewrite greater_key, Z.sub_diag by done. simpl. unfold map_set. by rewrite Hf.
    + rewrite Hf. naive_solver.
    + intros c Hc Hlt. rewrite Hf, excludes_cons by done. case_bool; [lia|done].
  - destruct (insert_absent fr true m Hfr Hm) as [Hi Hw].
    { rewrite Hf. intros e [= <-]. simpl. lia. }
    rewrite Hf in *. exists fr, ((k, false) :: tl).
    split; [|done|lia|right; split_and!; [done|rewrite Hf; naive_solver|by rewrite Hf]].
    unfold rangeStart, lower_bound. by rewrite Hf, Hi.
Qed.

(** The three parts of the map that [excludeRange(fr, to)] distinguishes: the
    entries above [to], those in the range, and those at or below [fr]. *)
Definition inner (fr to : Component) (m : list (Component * bool)) : list (Component * bool) :=
  before greater fr (from greater to m).

Lemma three_parts fr to m : gen fr -> gen to -> order_key fr < order_key to -> wf_map m ->
  before greater fr m = before greater to m ++ inner fr to m /\ at_most (order_key to) (inner fr to m).
Proof.
  intros Hfr Hto Hlt Hm. pose proof (at_most_from to m Hto Hm) as HM. unfold inner.
  pose proof (before_from (cmp := greater) to m) as Hbf. pose proof Hm as Hm'. rewrite <- Hbf in Hm'.
  apply wf_map_app in Hm' as (H1&H2&H3). set (R := from greater to m) in *.
  pose proof (before_from (cmp := greater) fr R) as HR. split.
  - rewrite <- Hbf at 1. rewrite <- HR at 1. rewrite app_assoc. apply cut; [done| | |].
    + rewrite <- app_assoc, HR, Hbf. apply Hm.
    + apply Forall_app. split; [|by apply above_before; [|apply H2]].
      eapply above_weaken; [|by apply above_before; [|apply Hm]]. lia.
    + by apply at_most_from.
  - rewrite <- HR in HM. by apply Forall_app in HM as [? _].
Qed.

(** What [excludeRange] leaves: the entries above [to], the end of the range
    unless the range goes on into an [ANY] entry, and the start of the range. *)
Definition range_end (to : Component) (l : list (Component * bool)) : list (Component * bool) :=
  match l with (_, true) :: _ => [] | _ => [(to, false)] end.

Lemma wf_map_insert m1 m2 k v : wf_map (m1 ++ m2) -> gen k -> above (order_key k) m1 ->
  at_most (order_key k - 1) m2 -> wf_map (m1 ++ (k, v) :: m2).
Proof.
  rewrite !wf_map_app, wf_map_cons. intros (?&?&Hf) Hk HA HM. split_and!; try done.
  unfold above in HA. rewrite Forall_forall in *. intros e He. constructor; [|by apply Hf].
  specialize (HA e He). simpl. lia.
Qed.

Lemma wf_map_drop m1 m2 m3 : wf_map (m1 ++ m2 ++ m3) -> wf_map (m1 ++ m3).
Proof.
  rewrite !wf_map_app. intros (?&(?&?&?)&Hf). split_and!; try done.
  eapply Forall_impl; [exact Hf|]. by intros a [_ ?]%Forall_app.
Qed.

(** The end [to] of a range is in the map; the entries between it and the
    start of the range go away. *)
Lemma range_cut to m1 m2 m3 f tl :
  gen to -> wf_map (m1 ++ (m2 ++ m3) ++ (f, true) :: tl) -> above (order_key to) m1 ->
  at_most (order_key to - 1) (m3 ++ (f, true) :: tl) ->
  forall m, m = m1 ++ (to, false) :: m3 ++ (f, true) :: tl ->
  wf_map m /\ wf_map (m1 ++ (to, false) :: (f, true) :: tl) /\
  map_erase_range greater (next_it greater to m) (Some f) m = m1 ++ (to, false) :: (f, true) :: tl.
Proof.
  intros Hto Hw HA HM m Em. assert (Hm : wf_map m).
  { rewrite Em. apply wf_map_insert; [|done..]. rewrite <- app_assoc in Hw. by apply wf_map_drop in Hw. }
  split; [done|]. pose proof Hm as HfT. rewrite Em in HfT. apply around in HfT as (_&_&HfT). rewrite <- Em in HfT.
  unfold next_it. rewrite HfT. cbn [tail].
  assert (Hm2 : m = (m1 ++ [(to, false)]) ++ m3 ++ (f, true) :: tl) by (rewrite Em; by rewrite <- app_assoc).
  rewrite Hm2 in *. clear Em Hm2 HfT. rewrite erase_between by done. split; [|by rewrite <- app_assoc].
  apply wf_map_drop in Hm. by rewrite <- app_assoc in Hm.
Qed.

Lemma excludeRange_shape fr to e f tl :
  gen fr -> gen to -> order_key fr < order_key to -> wf_map (m_exclude e) -> starts fr (m_exclude e) f tl ->
  forall m', m' = before greater to (m_exclude e) ++ range_end to (inner fr to (m_exclude e)) ++ (f, true) :: tl ->
  excludeRange fr to e = Ok (MkExclude m' None) /\ wf_map m'.
Proof.
  intros Hfr Hto Hlt Hm [Hrs Hw Hle _] m' ->. set (m := m_exclude e) in *.
  destruct (three_parts fr to m Hfr Hto Hlt Hm) as [Hbf HB].
  pose proof (above_before fr m Hfr (proj2 Hm)) as HAB. rewrite Hbf in *. apply Forall_app in HAB as [_ HAB].
  pose proof (above_before to m Hto (proj2 Hm)) as HA.
  set (A := before greater to m) in *. set (B := inner fr to m) in *.
  rewrite <- app_assoc in Hrs, Hw. cbv zeta. unfold excludeRange. fold m.
  assert (Hcmp : compare fr to = Z.sgn (order_key fr - order_key to)) by apply (greater_key to fr Hto Hfr).
  rewrite (proj2 (Z.leb_gt _ _)) by lia. rewrite Hrs.
  assert (HT : at_most (order_key to - 1) ((f, true) :: tl)).
  { pose proof Hw as Hw'. rewrite app_assoc in Hw'. apply wf_map_app in Hw' as (_&Hw'&_).
    apply wf_map_cons in Hw' as (_&_&Hw'). constructor; simpl in *; [lia|].
    eapply at_most_weaken; [|exact Hw']. lia. }
  assert (HM : at_most (order_key to) (B ++ (f, true) :: tl)).
  { apply Forall_app. split; [done|]. eapply at_most_weaken; [|exact HT]. lia. }
  destruct (cut to A _ Hto (proj2 Hw) HA HM) as [Hbto Hfto]. unfold lower_bound. rewrite Hfto.
  destruct B as [|[k any] B].
  - cbn [app head range_end]. rewrite bool_decide_true by done. cbn [orb].
    destruct (range_cut to A [] [] f tl Hto Hw HA HT _ eq_refl) as (_&HwR&HR).
    destruct (insert_absent to false _ Hto Hw) as [Hi _].
    { rewrite Hfto. intros x [= <-]. apply Forall_cons in HT as [HT _]. simpl in *. lia. }
    cbn [app] in *. rewrite Hi, Hbto, Hfto. cbn [fst]. by rewrite HR.
  - pose proof Hw as (_&Hw2&_)%wf_map_app. apply wf_map_cons in Hw2 as (Hk&_&HkB). cbn [fst] in *.
    apply Forall_cons in HAB as [HkA _]. apply Forall_cons in HM as [HkM _]. simpl in HkA, HkM.
    cbn [app head]. rewrite bool_decide_false by (intros ->; lia). cbn [orb]. destruct any.
    + cbn [negb range_end app]. pose proof (erase_between A ((k, true) :: B) f true tl Hw) as HE.
      cbn [app head fmap option_fmap option_map fst] in HE. rewrite HE. split; [done|].
      by apply (wf_map_drop A ((k, true) :: B)).
    + cbn [negb range_end app]. destruct (Z.eq_dec (order_key k) (order_key to)) as [Hkt|Hkt].
      * apply order_key_inj in Hkt as ->; [|done..].
        destruct (range_cut to A [(to, false)] B f tl Hto Hw HA HkB _ eq_refl) as (_&HwR&HR).
        unfold map_insert, map_find, lower_bound. cbn [app] in *. rewrite Hfto. cbn [head fst].
        unfold key_lt. rewrite greater_key, Z.sub_diag by done. cbn [Z.sgn]. rewrite Z.ltb_irrefl.
        cbn [fst]. by rewrite HR.
      * assert (HT2 : at_most (order_key to - 1) (((k, false) :: B) ++ (f, true) :: tl)).
        { constructor; simpl; [lia|]. eapply at_most_weaken; [|exact HkB]. lia. }
        destruct (range_cut to A [] ((k, false) :: B) f tl Hto Hw HA HT2 _ eq_refl) as (_&HwR&HR).
        destruct (insert_absent to false _ Hto Hw) as [Hi _].
        { rewrite Hfto. intros x [= <-]. simpl. lia. }
        cbn [app] in *. rewrite Hi, Hbto, Hfto. cbn [fst]. by rewrite HR.
Qed.

Lemma compare_key a b : gen a -> gen b -> compare a b = Z.sgn (order_key a - order_key b).
Proof. intros Ha Hb. apply (greater_key b a Hb Ha). Qed.

(** Below the start of a range nothing changes. *)
Lemma excludes_below fr m f tl c : gen fr -> wf_map m -> starts fr m f tl -> gen c ->
  order_key c < order_key fr -> excludes ((f, true) :: tl) c = excludes m c.
Proof.
  intros Hfr Hm [_ Hw Hle Hcases] Hc Hlt.
  transitivity (excludes (before greater fr m ++ from greater fr m) c); [|by rewrite before_from].
  apply wf_map_app in Hw as (_&Hw&_). apply wf_map_cons in Hw as (Hf&_&_). simpl in Hf.
  rewrite excludes_above.
  - rewrite excludes_cons by done. destruct Hcases as [HF|(->&Hh&Hlow)].
    + by rewrite HF, excludes_cons.
    + case_bool; [lia|auto].
  - done.
  - apply keys_split, Hm.
  - eapply above_weaken; [|by apply above_before; [|apply Hm]]. lia.
Qed.

Lemma starts_gen fr m f tl : starts fr m f tl -> gen f.
Proof. intros [_ Hw _ _]. apply wf_map_app in Hw as (_&Hw&_). by apply wf_map_cons in Hw as (?&_). Qed.

(** Above the start of a range, up to the entries above the range. *)
Lemma excludes_from fr m f tl c : starts fr m f tl -> gen c -> order_key fr <= order_key c ->
  excludes ((f, true) :: tl) c = true.
Proof.
  intros HS Hc Hle. pose proof (starts_gen _ _ _ _ HS). destruct HS as [_ _ Hf _].
  rewrite excludes_cons by done. case_bool; [done|lia].
Qed.

(** An entry that is not [ANY] excludes nothing above it. *)
Lemma excludes_head_false l c : gen c -> keys_in (P := gen) l -> at_most (order_key c - 1) l ->
  (forall k, head l <> Some (k, true)) -> excludes l c = false.
Proof.
  intros Hc HP HM Hh. destruct l as [|[k any] l]; [done|].
  apply Forall_cons in HP as [Hk _]. apply Forall_cons in HM as [HM _]. simpl in *.
  rewrite excludes_cons by done. destruct any; [by destruct (Hh k)|].
  case_bool; [|lia]. by rewrite (proj2 (Z.eqb_neq _ _)) by lia.
Qed.

(** The part of the map that is at or below [to]. *)
Lemma excludes_to_part fr to m c : gen fr -> gen to -> order_key fr < order_key to -> wf_map m -> gen c ->
  above (order_key c) (before greater to m) -> excludes m c = excludes (inner fr to m ++ from greater fr m) c.
Proof.
  intros Hfr Hto Hlt Hm Hc HA. destruct (three_parts fr to m Hfr Hto Hlt Hm) as [Hbf _].
  rewrite <- (before_from (cmp := greater) fr m) at 1. rewrite Hbf, <- app_assoc.
  apply excludes_above; [done|apply keys_split, Hm|done].
Qed.

(** [excludeRange] adds its range and nothing else, except when the whole
    range lies inside one [ANY] range. *)
Lemma excludes_range fr to m f tl c :
  gen fr -> gen to -> order_key fr < order_key to -> wf_map m -> starts fr m f tl -> gen c ->
  (inner fr to m = [] -> from greater fr m <> (f, true) :: tl) ->
  excludes (before greater to m ++ range_end to (inner fr to m) ++ (f, true) :: tl) c =
    excludes m c || ((order_key fr <=? order_key c) && (order_key c <=? order_key to)).
Proof.
  intros Hfr Hto Hlt Hm HS Hc Hnobug. pose proof (proj1 (keys_split (cmp := greater) m to (proj2 Hm))) as HPA.
  assert (HAto : above (order_key to) (before greater to m)) by (apply above_before; [done|apply Hm]).
  destruct (decide (above (order_key c) (before greater to m))) as [HA|HnA].
  2: { destruct (excludes_decided (before greater to m) c Hc HPA) as [HA|HD]; [done|].
       rewrite (HD _ (from greater to m)), before_from.
       destruct (Z_le_gt_dec (order_key c) (order_key to)) as [Hct|Hct];
         [destruct HnA; by eapply above_weaken|].
       rewrite (proj2 (Z.leb_gt (order_key c) _)) by lia. by rewrite andb_false_r, orb_false_r. }
  rewrite excludes_above by done.
  destruct (Z_lt_le_dec (order_key c) (order_key fr)) as [Hcf|Hcf].
  { rewrite (proj2 (Z.leb_gt _ _)) by lia. cbn [andb]. rewrite orb_false_r.
    transitivity (excludes ((f, true) :: tl) c); [|by apply excludes_below with fr].
    unfold range_end. destruct (inner fr to m) as [|[k []] l]; cbn [app]; [|done|];
      (rewrite excludes_cons by done; case_bool; [lia|done]). }
  rewrite (proj2 (Z.leb_le _ _)) by lia. cbn [andb].
  pose proof (excludes_from _ _ _ _ c HS Hc Hcf) as Hfrom.
  destruct (Z_le_gt_dec (order_key c) (order_key to)) as [Hct|Hct].
  { rewrite (proj2 (Z.leb_le _ _)) by lia. rewrite orb_true_r.
    unfold range_end. destruct (inner fr to m) as [|[k []] l]; cbn [app]; [|done|];
      (rewrite excludes_cons by done; case_bool; [by rewrite (proj2 (Z.eqb_eq _ _)) by lia|done]). }
  rewrite (proj2 (Z.leb_gt _ _)) by lia. rewrite orb_false_r, (excludes_to_part fr to m) by done.
  assert (Hto_c : forall l, excludes ((to, false) :: l) c = false).
  { intros l. rewrite excludes_cons by done. case_bool; [|lia]. by rewrite (proj2 (Z.eqb_neq _ _)) by lia. }
  destruct (three_parts fr to m Hfr Hto Hlt Hm) as [Hbf HB].
  pose proof (proj1 (keys_split (cmp := greater) m fr (proj2 Hm))) as HPB.
  rewrite Hbf in HPB. apply Forall_app in HPB as [_ HPB].
  destruct (inner fr to m) as [|[k any] l]; cbn [app range_end].
  - rewrite Hto_c. symmetry. apply excludes_head_false; [done|apply keys_split, Hm| |].
    + eapply at_most_weaken; [|by apply at_most_from]. lia.
    + destruct (starts_cases _ _ _ _ HS) as [HF|(_&?&_)]; [by destruct Hnobug|done].
  - apply Forall_cons in HB as [Hk _]. apply Forall_cons in HPB as [Hgk _]. simpl in *.
    rewrite (excludes_cons k) by done. destruct any; cbn [app].
    + rewrite Hfrom. case_bool; [done|lia].
    + rewrite Hto_c. case_bool; [|lia]. by rewrite (proj2 (Z.eqb_neq _ _)) by lia.
Qed.

Lemma compare_ge_key a b : gen a -> gen b -> (0 <=? compare a b) = (order_key b <=? order_key a).
Proof. intros Ha Hb. rewrite compare_key by done. repeat case_bool; lia || done. Qed.
Lemma compare_le_key a b : gen a -> gen b -> (compare a b <=? 0) = (order_key a <=? order_key b).
Proof. intros Ha Hb. rewrite compare_key by done. repeat case_bool; lia || done. Qed.
Lemma compare_lt_key a b : gen a -> gen b -> compare a b < 0 <-> order_key a < order_key b.
Proof. intros Ha Hb. rewrite compare_key by done. lia. Qed.

(** An entry found for [to] that is at or below [fr]: the range has no entry
    of its own. *)
Lemma inner_nil_iff fr to m f tl : gen fr -> gen to -> order_key fr < order_key to -> wf_map m ->
  from greater fr m = (f, true) :: tl ->
  inner fr to m = [] <-> lower_bound greater to m = lower_bound greater fr m.
Proof.
  intros Hfr Hto Hlt Hm HF. unfold lower_bound. rewrite HF. cbn [head].
  destruct (three_parts fr to m Hfr Hto Hlt Hm) as [Hbf HB].
  assert (Hto_from : from greater to m = inner fr to m ++ (f, true) :: tl).
  { pose proof (before_from (cmp := greater) to m) as H1. pose proof (before_from (cmp := greater) fr m) as H2.
    rewrite Hbf, HF, <- app_assoc in H2. apply (app_inv_head (before greater to m)). congruence. }
  rewrite Hto_from. pose proof (above_before fr m Hfr (proj2 Hm)) as HAB. rewrite Hbf in HAB.
  apply Forall_app in HAB as [_ HAB]. pose proof (at_most_from fr m Hfr Hm) as HM. rewrite HF in HM.
  apply Forall_cons in HM as [Hf _]. destruct (inner fr to m) as [|[k any] l]; [done|].
  apply Forall_cons in HAB as [HkA _]. simpl in *. split; [done|]. intros [= -> ->]. lia.
Qed.

(** Unless the two ends of the range fall into one [ANY] range of the
    filter, [excludeRange(from, to)] succeeds, keeps the map sorted, and
    excludes exactly what was excluded before and the components between
    [from] and [to]. *)
Theorem excludeRange_adds_range (e : Exclude) (fr to : Component)
  (Hm : wf_map (m_exclude e)) (Hfr : gen fr) (Hto : gen to) (Hlt : compare fr to < 0)
  (Hany : forall k, lower_bound greater fr (m_exclude e) = Some (k, true) ->
                    lower_bound greater to (m_exclude e) <> Some (k, true)) :
  exists e', excludeRange fr to e = Ok e' /\ wf_map (m_exclude e') /\
    forall c, gen c -> isExcluded e' c = isExcluded e c || ((0 <=? compare c fr) && (compare c to <=? 0)).
Proof.
  apply compare_lt_key in Hlt; [|done..].
  destruct (rangeStart_starts fr _ Hfr Hm) as (f&tl&HS).
  destruct (excludeRange_shape fr to e f tl Hfr Hto Hlt Hm HS _ eq_refl) as [-> Hwf].
  eexists. split; [done|]. split; [exact Hwf|]. intros c Hc.
  rewrite compare_ge_key, compare_le_key by done. rewrite !isExcluded_excludes. cbn [m_exclude].
  apply excludes_range; try done. intros Hi HF. apply (inner_nil_iff _ _ _ f tl) in Hi; [|done..].
  specialize (Hany f). rewrite Hi in Hany. unfold lower_bound in Hany. rewrite HF in Hany. by apply Hany.
Qed.

(** When both ends fall into one [ANY] range, [excludeRange] ends that
    range at [to]: the components above [to] in the range, which the filter
    excluded before the call, are no longer excluded after it. *)
Theorem excludeRange_cuts_any (e : Exclude) (fr to k c : Component)
  (Hm : wf_map (m_exclude e)) (Hfr : gen fr) (Hto : gen to) (Hc : gen c)
  (Hlt : compare fr to < 0) (Hlt' : compare to c < 0)
  (Hfrom : lower_bound greater fr (m_exclude e) = Some (k, true))
  (Hsame : lower_bound greater c (m_exclude e) = Some (k, true)) :
  isExcluded e c = true /\
  exists e', excludeRange fr to e = Ok e' /\ isExcluded e' c = false.
Proof.
  apply compare_lt_key in Hlt; [|done..]. apply compare_lt_key in Hlt'; [|done..].
  split; [unfold isExcluded; by rewrite Hsame|].
  destruct (rangeStart_starts fr _ Hfr Hm) as (f&tl&HS).
  destruct (excludeRange_shape fr to e f tl Hfr Hto Hlt Hm HS _ eq_refl) as [-> _].
  eexists. split; [done|]. rewrite isExcluded_excludes. cbn [m_exclude].
  assert (HF : from greater fr (m_exclude e) = (f, true) :: tl).
  { destruct (starts_cases _ _ _ _ HS) as [?|(_&Hh&_)]; [done|]. by destruct (Hh k). }
  assert (Hl : lower_bound greater c (m_exclude e) = lower_bound greater fr (m_exclude e)) by congruence.
  apply (inner_nil_iff fr c _ f tl) in Hl; [|done || lia..].
  destruct (three_parts fr c _ Hfr Hc ltac:(lia) Hm) as [Hbc _].
  destruct (three_parts fr to _ Hfr Hto Hlt Hm) as [Hbt Hle].
  assert (HAc : above (order_key c) (before greater fr (m_exclude e))).
  { rewrite Hbc, Hl, app_nil_r. apply above_before; [done|apply Hm]. }
  rewrite Hbt in HAc. apply Forall_app in HAc as [HA HB].
  assert (inner fr to (m_exclude e) = []) as ->.
  { destruct (inner fr to (m_exclude e)) as [|x l]; [done|]. apply Forall_cons in Hle as [? _].
    apply Forall_cons in HB as [? _]. simpl in *. lia. }
  cbn [range_end app]. rewrite excludes_above by (done || apply keys_split, Hm).
  rewrite excludes_cons by done. case_bool; [|lia]. by rewrite (proj2 (Z.eqb_neq _ _)) by lia.
Qed.

Lemma excludeAfter_shape fr e f tl : gen fr -> wf_map (m_exclude e) -> starts fr (m_exclude e) f tl ->
  excludeAfter fr e = MkExclude ((f, true) :: tl) None /\ wf_map ((f, true) :: tl).
Proof.
  intros Hfr Hm [Hrs Hw _ _]. split.
  - unfold excludeAfter. rewrite Hrs. f_equal. apply (erase_between [] (before greater fr (m_exclude e)) f true tl Hw).
  - by apply wf_map_app in Hw as (_&?&_).
Qed.

Lemma excludes_after fr m f tl c : gen fr -> wf_map m -> starts fr m f tl -> gen c ->
  excludes ((f, true) :: tl) c = excludes m c || (order_key fr <=? order_key c).
Proof.
  intros Hfr Hm HS Hc. destruct (Z.leb_spec (order_key fr) (order_key c)).
  - rewrite orb_true_r. by apply (excludes_from fr m).
  - rewrite orb_false_r. by apply (excludes_below fr m).
Qed.

(** What [excludeOne] leaves when the component was not excluded. *)
Lemma excludeOne_shape comp e : gen comp -> wf_map (m_exclude e) -> excludes (m_exclude e) comp = false ->
  let m' := before greater comp (m_exclude e) ++ (comp, false) :: from greater comp (m_exclude e) in
  excludeOne comp e = MkExclude m' None /\ wf_map m' /\
  forall c, gen c -> excludes m' c = excludes (m_exclude e) c || (order_key c =? order_key comp).
Proof.
  intros Hcomp Hm Hex m'. set (m := m_exclude e) in *.
  pose proof (proj2 (keys_split (cmp := greater) m comp (proj2 Hm))) as HPf.
  pose proof (proj1 (keys_split (cmp := greater) m comp (proj2 Hm))) as HPb.
  pose proof (above_before comp m Hcomp (proj2 Hm)) as HA.
  pose proof (at_most_from comp m Hcomp Hm) as HM.
  assert (Hex' : excludes (from greater comp m) comp = false).
  { rewrite <- Hex, <- (excludes_above (before greater comp m) (from greater comp m)) by done. by rewrite before_from. }
  assert (Hh : forall x, head (from greater comp m) = Some x -> order_key x.1 < order_key comp /\ x.2 = false).
  { destruct (from greater comp m) as [|[k any] l]; [done|]. intros x [= <-].
    apply Forall_cons in HPf as [Hk _]. apply Forall_cons in HM as [Hle _]. simpl in *.
    rewrite excludes_cons in Hex' by done. revert Hex'. case_bool; [|lia].
    rewrite orb_false_iff, Z.eqb_neq. intros [-> ?]. split; [lia|done]. }
  destruct (insert_absent comp false m Hcomp Hm) as [Hi Hw]; [by intros x Hx; apply Hh|].
  split_and!; [|done|].
  - unfold excludeOne. rewrite isExcluded_excludes. fold m. rewrite Hex. by rewrite Hi.
  - intros c Hc. destruct (decide (above (order_key c) (before greater comp m))) as [HAc|HnA].
    + unfold m'. rewrite excludes_above, excludes_cons by done.
      assert (excludes m c = excludes (from greater comp m) c) as ->.
      { rewrite <- (excludes_above (before greater comp m) (from greater comp m)) by done. by rewrite before_from. }
      case_bool; cbn [orb]; [|by rewrite (proj2 (Z.eqb_neq _ _)), orb_false_r by lia].
      rewrite Z.eqb_sym. destruct (Z.eqb_spec (order_key c) (order_key comp)); [by rewrite orb_true_r|].
      rewrite orb_false_r. symmetry. apply excludes_head_false; [done..| |].
      * eapply at_most_weaken; [|exact HM]. lia.
      * intros k Hk. apply Hh in Hk as [_ ?]. done.
    + destruct (excludes_decided (before greater comp m) c Hc HPb) as [HAc|HD]; [done|].
      unfold m'. rewrite (HD _ (from greater comp m)), before_from.
      destruct (Z.eqb_spec (order_key c) (order_key comp)) as [He|]; [|by rewrite orb_false_r].
      destruct HnA. by rewrite He.
Qed.

(** [excludeOne(comp)] excludes [comp] and nothing else;
    [excludeAfter(from)] excludes [from] and everything above it, and nothing
    else; both keep the map sorted. *)
Theorem exclude_one_after (e : Exclude) (comp : Component)
  (Hm : wf_map (m_exclude e)) (Hcomp : gen comp) :
  wf_map (m_exclude (excludeOne comp e)) /\ wf_map (m_exclude (excludeAfter comp e)) /\
  forall c, gen c ->
    isExcluded (excludeOne comp e) c = isExcluded e c || (compare c comp =? 0) /\
    isExcluded (excludeAfter comp e) c = isExcluded e c || (0 <=? compare c comp).
Proof.
  destruct (rangeStart_starts comp _ Hcomp Hm) as (f&tl&HS).
  destruct (excludeAfter_shape comp e f tl Hcomp Hm HS) as [-> Hwa].
  assert (Hone : wf_map (m_exclude (excludeOne comp e)) /\ forall c, gen c ->
    excludes (m_exclude (excludeOne comp e)) c = excludes (m_exclude e) c || (order_key c =? order_key comp)).
  { destruct (excludes (m_exclude e) comp) eqn:Hex.
    - unfold excludeOne. rewrite isExcluded_excludes, Hex. split; [done|]. intros c Hc.
      destruct (Z.eqb_spec (order_key c) (order_key comp)) as [He|]; [|by rewrite orb_false_r].
      apply order_key_inj in He as ->; [|done..]. by rewrite Hex.
    - destruct (excludeOne_shape comp e Hcomp Hm Hex) as (->&Hw&H). done. }
  destruct Hone as [Hw1 Hone]. split_and!; [done..|]. intros c Hc. rewrite !isExcluded_excludes.
  split; [|rewrite compare_ge_key by done; by apply excludes_after].
  rewrite Hone by done. f_equal. rewrite compare_key by done.
  destruct (Z.eqb_spec (order_key c) (order_key comp)) as [->|]; [by rewrite Z.sub_diag|].
  symmetry. apply Z.eqb_neq. lia.
Qed.

(** *** Wire format *)

(** The elements of an entry and of a filter, in wire order. *)
Definition entry_elements (x : Component * bool) : list (Z * list Z) :=
  (if negb (Component_empty x.1) || negb x.2 then [(c_type x.1, c_value x.1)] else []) ++
  (if x.2 then [(TlvType.Any, [])] else []).

Definition exclude_elements (m : list (Component * bool)) : list (Z * list Z) :=
  concat (map entry_elements (rev m)).

Lemma exclude_elements_cons x m : exclude_elements (x :: m) = exclude_elements m ++ entry_elements x.
Proof.
  unfold exclude_elements. cbn [rev]. rewrite map_app, concat_app. simpl. by rewrite app_nil_r.
Qed.

Lemma wires_one t v : wires [(t, v)] = tlv_wire t v.
Proof. unfold wires. simpl. by rewrite app_nil_r. Qed.

Lemma encode_loop_size {E} `{EncodingLaws E} m t (e : E) :
  (encode_loop m t e).1 = t + len (wires (exclude_elements m)).
Proof.
  revert t e. induction m as [|[c any] m IH]; intros t e; [unfold wires, len; simpl; lia|].
  cbn [encode_loop]. apply size_bind2. intros e1. apply size_bind2. intros e2.
  rewrite IH, exclude_elements_cons, wires_app, len_app. unfold entry_elements. cbn [fst snd].
  destruct any; rewrite ?prependEmptyBlock_size; destruct (Component_empty c);
    cbn [negb orb app sret fst]; rewrite ?Component_wireEncode_size, ?wires_cons, ?wires_one, ?len_app;
    change (len (wires [])) with 0; lia.
Qed.

Lemma Prepends_encode_loop m t :
  Prepends (encode_loop m t) (t + len (wires (exclude_elements m))) (wires (exclude_elements m)).
Proof.
  revert t. induction m as [|[c any] m IH]; intros t.
  - eapply Prepends_eq; [apply Prepends_ret|unfold wires, len; simpl; lia|done].
  - cbn [encode_loop].
    set (es1 := if any then [(TlvType.Any, [] : list Z)] else []).
    set (es2 := if negb (Component_empty c) || negb any then [(c_type c, c_value c)] else []).
    assert (H1 : Prepends (if any then prependEmptyBlock TlvType.Any else sret 0) (len (wires es1)) (wires es1)).
    { unfold es1. destruct any; rewrite ?wires_one; [apply Prepends_EmptyBlock|apply Prepends_ret]. }
    assert (H2 : Prepends (if negb (Component_empty c) || negb any then Component_wireEncode c else sret 0)
      (len (wires es2)) (wires es2)).
    { unfold es2. destruct (_ || _); rewrite ?wires_one; [apply Prepends_Component|apply Prepends_ret]. }
    eapply Prepends_eq; [eapply Prepends_bind; [exact H1|eapply Prepends_bind; [exact H2|apply IH|done]|done]|..];
      rewrite exclude_elements_cons; unfold entry_elements; cbn [fst snd]; fold es1; fold es2;
      rewrite !wires_app; [rewrite !len_app; lia|by rewrite <- !app_assoc].
Qed.

Lemma Exclude_encoders m :
  (Exclude_wireEncode (E := Estimator.t) m tt).1 = len (tlv_wire TlvType.Exclude (wires (exclude_elements m))) /\
  Prepends (Exclude_wireEncode m) (len (tlv_wire TlvType.Exclude (wires (exclude_elements m))))
    (tlv_wire TlvType.Exclude (wires (exclude_elements m))).
Proof.
  unfold Exclude_wireEncode. split.
  - do 3 (apply size_bind2; intros). rewrite (encode_loop_size (E := Estimator.t)).
    rewrite !(prependVarNumber_size (E := Estimator.t)), Z.add_0_l.
    unfold tlv_wire. autorewrite with len. cbn [sret fst]. lia.
  - eapply Prepends_eq.
    + eapply Prepends_bind; [apply Prepends_encode_loop|prepends|done].
    + rewrite Z.add_0_l. unfold tlv_wire. autorewrite with len. lia.
    + rewrite Z.add_0_l. unfold tlv_wire. done.
Qed.

(** [m_exclude[k] = any] for a component above all the keys. *)
Lemma appendExclude_front c any e : gen c -> keys_in (P := gen) (m_exclude e) ->
  at_most (order_key c - 1) (m_exclude e) ->
  appendExclude c any e = MkExclude ((c, any) :: m_exclude e) (m_wire e).
Proof.
  intros Hc HP HM. unfold appendExclude. f_equal. unfold map_assign, map_insert, map_find, lower_bound.
  destruct (cut c [] (m_exclude e)) as [Hb Hf]; [done|done|by constructor| |].
  { eapply at_most_weaken; [|exact HM]. lia. }
  cbn [app] in *. rewrite Hb, Hf. destruct (m_exclude e) as [|[k v] l]; [done|]. cbn [head fst].
  apply Forall_cons in HP as [Hk _]. apply Forall_cons in HM as [Hkc _]. simpl in *.
  unfold key_lt. rewrite greater_key by done. by rewrite (proj2 (Z.ltb_lt _ _)) by lia.
Qed.

Lemma gen_Component_of_Block b c : gen c -> view b = (c_type c, c_value c) -> Component_of_Block b = Ok c.
Proof.
  intros [Ht _] Hv. rewrite (Component_of_Block_view _ _ _ Hv). destruct c as [t v]. simpl in *. by subst.
Qed.

(** The loop of [wireDecode] reads the entries back; [l] is in wire order and
    no entry of it is a bare [ANY]. *)
Lemma decode_loop_entries l : forall bs e,
  wf_map (rev l ++ m_exclude e) -> Forall (fun x => (negb (Component_empty x.1) || negb x.2) = true) l ->
  map view bs = concat (map entry_elements l) ->
  decode_loop bs e = Ok (MkExclude (rev l ++ m_exclude e) (m_wire e)).
Proof.
  induction l as [|[c any] l IH]; intros bs e Hw Hne Hv; simpl in *.
  { apply map_eq_nil in Hv as ->. by destruct e. }
  apply Forall_cons in Hne as [Hc Hne]. unfold entry_elements in Hv. cbn [fst snd] in *. rewrite Hc in Hv.
  rewrite <- app_assoc in Hw. cbn [app] in Hw. pose proof Hw as (_&Hw2&_)%wf_map_app.
  apply wf_map_cons in Hw2 as (Hgc&[_ HPe]&HMe). cbn [fst] in *.
  pose proof (appendExclude_front c any e Hgc HPe HMe) as Happ.
  destruct bs as [|b bs]; [done|]. cbn [map app] in Hv. injection Hv as Hb Ht Hv.
  cbn [decode_loop]. rewrite (gen_Component_of_Block b c Hgc) by (unfold view; congruence).
  rewrite <- app_assoc. cbn [app]. destruct any; cbn [app] in Hv.
  - destruct bs as [|b' bs]; [done|]. cbn [map] in Hv. injection Hv as Hb' Hv' Hv.
    rewrite Hb', Z.eqb_refl, Happ. rewrite (IH bs); [done|done|done|done].
  - assert (Hnext : decode_loop bs (appendExclude c false e) =
      Ok (MkExclude (rev l ++ (c, false) :: m_exclude e) (m_wire e))).
    { rewrite Happ. by rewrite (IH bs). }
    destruct bs as [|b' bs].
    { simpl in Hnext. done. }
    rewrite (proj2 (Z.eqb_neq _ _)); [done|]. intros Hany.
    destruct l as [|[c' any'] l]; [done|]. apply Forall_cons in Hne as [Hc' _]. cbn [fst snd] in *.
    cbn [map concat fst snd] in Hv. rewrite Hc' in Hv.
    cbn [map app] in Hv. injection Hv as Hb' _ _.
    apply wf_map_app in Hw as (Hw1&_&_). cbn [rev] in Hw1. apply wf_map_app in Hw1 as (_&Hw1&_).
    apply wf_map_cons in Hw1 as ([Ht' _]&_&_). simpl in Ht'. unfold TlvType.Any, TlvType.NameComponent in *. congruence.
Qed.

Lemma empty_key c : gen c -> Component_empty c = true -> c = Component_default.
Proof.
  intros [Ht _] He. destruct c as [t v]. simpl in *. subst. unfold Component_empty in He. simpl in He.
  destruct v; [done|]. unfold len in He. simpl in He. lia.
Qed.

Lemma order_key_ge c : gen c -> order_key Component_default <= order_key c.
Proof.
  intros [_ Hb]. unfold order_key at 2. pose proof (be_decode_bounds _ Hb).
  assert (0 < 256 ^ len (c_value c)) by (apply Z.pow_pos_nonneg; [lia|apply len_nonneg]).
  change (order_key Component_default) with 1. lia.
Qed.

(** Only the lowest entry can be a bare [ANY]. *)
Lemma entries_named x l : wf_map (rev l ++ [x]) ->
  Forall (fun y => (negb (Component_empty y.1) || negb y.2) = true) l.
Proof.
  intros (Hw1&Hw2&Hc)%wf_map_app. apply wf_map_cons in Hw2 as (Hx&_&_).
  pose proof (order_key_ge _ Hx). destruct Hw1 as [_ HP]. unfold keys_in in HP.
  apply Forall_forall. intros y Hy. rewrite Forall_forall in HP, Hc.
  assert (Hy' : y ∈ rev l) by (by apply list_elem_of_In, in_rev; rewrite rev_involutive; apply list_elem_of_In).
  specialize (HP y Hy'). specialize (Hc y Hy'). apply Forall_cons in Hc as [Hc _]. simpl in *.
  destruct (Component_empty y.1) eqn:He; [|done]. apply empty_key in He; [|done]. rewrite He in Hc. lia.
Qed.

(** The first element decides whether the filter starts with a bare [ANY]. *)
Lemma decode_all m bs w : wf_map m -> m <> [] -> map view bs = exclude_elements m ->
  match bs with
  | [] => Err ExcludeError
  | b :: l' =>
      if m_type b =? TlvType.Any then decode_loop l' (appendExclude Component_default true (MkExclude [] w))
      else decode_loop (b :: l') (MkExclude [] w)
  end = Ok (MkExclude m w).
Proof.
  intros Hw Hne Hv. unfold exclude_elements in Hv. rewrite <- (rev_involutive m) in *.
  destruct (rev m) as [|[c any] l]; [done|]. clear Hne m. rewrite rev_involutive in Hv.
  pose proof Hw as Hw'. cbn [rev] in Hw'. pose proof (entries_named _ _ Hw') as Hl.
  apply wf_map_app in Hw' as (_&Hc&_). apply wf_map_cons in Hc as (Hc&_&_). cbn [fst] in Hc.
  destruct (negb (Component_empty c) || negb any) eqn:Hnamed.
  - destruct bs as [|b bs].
    { cbn [map concat] in Hv. unfold entry_elements in Hv at 1. cbn [fst snd] in Hv. by rewrite Hnamed in Hv. }
    rewrite (decode_loop_entries ((c, any) :: l) (b :: bs) (MkExclude [] w)); [|by cbn [m_exclude]; rewrite app_nil_r|by constructor|done].
    cbn [m_exclude m_wire]. rewrite app_nil_r. rewrite (proj2 (Z.eqb_neq _ _)); [done|].
    cbn [map concat] in Hv. unfold entry_elements in Hv at 1. cbn [fst snd] in Hv. rewrite Hnamed in Hv.
    cbn [app] in Hv. injection Hv as -> _ _. rewrite (proj1 Hc). done.
  - apply orb_false_iff in Hnamed as [He%negb_false_iff Ha%negb_false_iff]. subst any.
    apply empty_key in He as ->; [|done].
    cbn [map concat] in Hv. unfold entry_elements in Hv at 1. cbn [fst snd] in Hv.
    destruct bs as [|b bs]; [done|]. cbn [map app] in Hv. injection Hv as -> _ Hv.
    change (TlvType.Any =? TlvType.Any) with true. cbv iota.
    rewrite (decode_loop_entries l); [|exact Hw|done|done]. done.
Qed.

Lemma exclude_elements_bytes m : wf_map m -> Forall (fun x => wf_bytes x.2) (exclude_elements m).
Proof.
  intros Hm. unfold exclude_elements. apply Forall_concat, Forall_map, Forall_rev.
  eapply Forall_impl; [exact (proj2 Hm)|]. intros [c any] [_ Hc]. simpl in *. unfold entry_elements.
  apply Forall_app. cbn [fst snd]. split; [destruct (_ || _)|destruct any]; repeat constructor; done.
Qed.

(** Decoding a block whose value is the elements of a filter *)
Lemma Exclude_wireDecode_ok b m : wf_block b -> m_subBlocks b = [] -> view b = (TlvType.Exclude, wires (exclude_elements m)) ->
  wf_map m -> m <> [] -> Forall wf_element (exclude_elements m) ->
  Exclude_wireDecode b = Ok (MkExclude m (Some (parse b).1)).
Proof.
  intros Hwf Hsub Hv Hm Hne Hel. injection Hv as Ht Hval. unfold Exclude_wireDecode. rewrite Ht.
  change (negb (TlvType.Exclude =? TlvType.Exclude)) with false. cbv iota.
  assert (Hnil : exclude_elements m <> []).
  { destruct m as [|[c any] m]; [done|]. rewrite exclude_elements_cons. unfold entry_elements. cbn [fst snd].
    destruct (Component_empty c), any; simpl; intros E; apply app_eq_nil in E as [_ ?]; done. }
  destruct (parse_elements b (exclude_elements m) [] Hwf Hsub Hel) as (buffer&_&Hview&->); [by rewrite app_nil_r|done|].
  rewrite parse_loop_nil. cbn [fst]. unfold set_subBlocks at 1. cbn [m_subBlocks]. by apply decode_all.
Qed.

(** Encoding a non-empty filter of generic components and decoding the
    result gives the filter back; a second [wireEncode] returns the cached
    block. *)
Theorem exclude_wire_roundtrip (m : list (Component * bool)) (Hm : wf_map m) (Hne : m <> [])
  (Hel : Forall wf_element (exclude_elements m)) (Hl : len (wires (exclude_elements m)) < U64) :
  exists b e', Exclude_wire (MkExclude m None) = Ok (b, MkExclude m (Some b)) /\
    Exclude_wire (MkExclude m (Some b)) = Ok (b, MkExclude m (Some b)) /\
    Exclude_wireDecode b = Ok e' /\ m_exclude e' = m.
Proof.
  assert (Hwe : wf_element (TlvType.Exclude, wires (exclude_elements m))).
  { split; simpl; [unfold TlvType.Exclude; width_lia|done]. }
  destruct (Exclude_encoders m) as [Hsz Hpre].
  destruct (twoPass_block (fun E _ => Exclude_wireEncode m) TlvType.Exclude (wires (exclude_elements m)))
    as (b&Hblk&[Hv Hb Hwi _ Hsub Hwf]); [exact Hsz|exact Hpre|exact Hwe|].
  exists b, (MkExclude m (Some (parse b).1)). split_and!; [| | |done].
  - unfold Exclude_wire, Exclude_empty. cbn [m_wire m_exclude]. destruct m; [done|]. by rewrite Hblk.
  - unfold Exclude_wire. cbn [m_wire m_exclude]. unfold wire in Hwi. by destruct (hasWire b).
  - apply Exclude_wireDecode_ok; [apply Hwf, wf_wires; [done|by apply exclude_elements_bytes]|done..].
Qed.

(** ** Witnesses *)

(** The example of the comments in [exclude.cpp]: [ANY /b /d ANY /f]. *)
Definition sample_exclude : list (Component * bool) :=
  [(generic [102], false); (generic [100], true); (generic [98], false); (Component_default, true)].

Lemma sample_exclude_wf : wf_map sample_exclude.
Proof.
  split; [|unfold keys_in; by_decide]. unfold sorted_map, sample_exclude. repeat constructor.
Qed.

Lemma excludeRange_adds_range_witness :
  exists e', excludeRange (generic [99]) (generic [101]) (MkExclude sample_exclude None) = Ok e' /\
    isExcluded e' (generic [99; 0]) = false /\ isExcluded e' (generic [99]) = true.
Proof.
  destruct (excludeRange_adds_range (MkExclude sample_exclude None) (generic [99]) (generic [101]))
    as (e'&He&_&Hc); [exact sample_exclude_wf|by_decide|by_decide|done|done|].
  exists e'. split; [done|]. rewrite !Hc by by_decide. done.
Defined.

Lemma excludeRange_cuts_any_witness :
  isExcluded (MkExclude [(generic [97], true)] None) (generic [100]) = true /\
  exists e', excludeRange (generic [98]) (generic [99]) (MkExclude [(generic [97], true)] None) = Ok e' /\
    isExcluded e' (generic [100]) = false.
Proof.
  apply (excludeRange_cuts_any (MkExclude [(generic [97], true)] None) (generic [98]) (generic [99])
    (generic [97]) (generic [100])); try done; try by_decide.
Defined.

Lemma exclude_one_after_witness :
  isExcluded (excludeOne (generic [99]) (MkExclude sample_exclude None)) (generic [99]) = true /\
  isExcluded (excludeAfter (generic [99]) (MkExclude sample_exclude None)) (generic [98; 0]) = true.
Proof.
  destruct (exclude_one_after (MkExclude sample_exclude None) (generic [99])) as (_&_&H);
    [exact sample_exclude_wf|by_decide|].
  split; [rewrite (proj1 (H (generic [99]) ltac:(by_decide)))|rewrite (proj2 (H (generic [98; 0]) ltac:(by_decide)))];
    done.
Defined.

Lemma exclude_wire_roundtrip_witness :
  exists b e', Exclude_wire (MkExclude sample_exclude None) = Ok (b, MkExclude sample_exclude (Some b)) /\
    Exclude_wire (MkExclude sample_exclude (Some b)) = Ok (b, MkExclude sample_exclude (Some b)) /\
    Exclude_wireDecode b = Ok e' /\ m_exclude e' = sample_exclude.
Proof.
  apply (exclude_wire_roundtrip sample_exclude); [exact sample_exclude_wf|done|by_decide|by_decide].
Defined.
