(* ===== verification/MetaInfo.v ===== *)
(** * Meta information of Data: [ndn-cxx/src/meta-info.cpp]

    The content type, the freshness period, the final block and the elements
    of the application. *)

From S2P Require Import Prelude StdMap Tlv Block Encoder Elements NameComponent Name KeyLocator Exclude.

(** The final block is absent when it is empty; the freshness period is in
    milliseconds, negative when absent. *)
Record MetaInfo := MkMetaInfo {
  mi_type : Z;
  mi_freshnessPeriod : Z;
  mi_finalBlockId : Component;
  mi_appMetaInfo : list Block;
  mi_wire : Block
}.

(** [MetaInfo::MetaInfo()] and [time::milliseconds::min()] *)
Definition MetaInfo_new : MetaInfo := MkMetaInfo TlvType.ContentType_Blob (-1) Component_default [] Block_empty.
Definition MILLISECONDS_MIN : Z := - 2 ^ 63.

(** A component after [reset()] *)
Definition Component_reset : Component := MkComponent u32_max [].

(** ** Setters *)

Definition setType (type : Z) (m : MetaInfo) : MetaInfo :=
  MkMetaInfo type (mi_freshnessPeriod m) (mi_finalBlockId m) (mi_appMetaInfo m) (reset (mi_wire m)).

Definition setFreshnessPeriod (freshnessPeriod : Z) (m : MetaInfo) : MetaInfo :=
  MkMetaInfo (mi_type m) freshnessPeriod (mi_finalBlockId m) (mi_appMetaInfo m) (reset (mi_wire m)).

Definition setFinalBlockId (finalBlockId : Component) (m : MetaInfo) : MetaInfo :=
  MkMetaInfo (mi_type m) (mi_freshnessPeriod m) finalBlockId (mi_appMetaInfo m) (reset (mi_wire m)).

Definition isAppType (type : Z) : bool := (128 <=? type) && (type <=? 252).

Definition setAppMetaInfo (info : list Block) (m : MetaInfo) : result MetaInfo :=
  if forallb (fun b => isAppType (m_type b)) info
  then Ok (MkMetaInfo (mi_type m) (mi_freshnessPeriod m) (mi_finalBlockId m) info (reset (mi_wire m)))
  else Err PacketError.

Definition addAppMetaInfo (block : Block) (m : MetaInfo) : result MetaInfo :=
  if isAppType (m_type block)
  then Ok (MkMetaInfo (mi_type m) (mi_freshnessPeriod m) (mi_finalBlockId m) (mi_appMetaInfo m ++ [block]) (reset (mi_wire m)))
  else Err PacketError.

(** The first element of the type is erased. *)
Fixpoint erase_first (type : Z) (l : list Block) : option (list Block) :=
  match l with
  | [] => None
  | b :: l' => if m_type b =? type then Some l' else cons b <$> erase_first type l'
  end.

Definition removeAppMetaInfo (type : Z) (m : MetaInfo) : bool * MetaInfo :=
  match erase_first type (mi_appMetaInfo m) with
  | Some l => (true, MkMetaInfo (mi_type m) (mi_freshnessPeriod m) (mi_finalBlockId m) l (reset (mi_wire m)))
  | None => (false, m)
  end.

Definition findAppMetaInfo (type : Z) (m : MetaInfo) : option Block := List.find (fun b => m_type b =? type) (mi_appMetaInfo m).

(** ** Encoding *)

(** [encoding::prependNestedBlock] of a component *)
Definition prependNestedComponent {E} `{EncodingImpl E} (type : Z) (c : Component) : state E Z :=
  let~ valueLength := Component_wireEncode c in
  let~ l1 := prependVarNumber valueLength in
  let~ l2 := prependVarNumber type in
  sret (valueLength + l1 + l2).

Definition MetaInfo_value {E} `{EncodingImpl E} (m : MetaInfo) : state E Z :=
  let~ l1 := prependBlocks (rev (mi_appMetaInfo m)) 0 in
  let~ l2 := if negb (Component_empty (mi_finalBlockId m)) then prependNestedComponent TlvType.FinalBlockId (mi_finalBlockId m) else sret 0 in
  let~ l3 := if 0 <=? mi_freshnessPeriod m
             then prependNonNegativeIntegerBlock TlvType.FreshnessPeriod (mi_freshnessPeriod m) else sret 0 in
  let~ l4 := if negb (mi_type m =? TlvType.ContentType_Blob)
             then prependNonNegativeIntegerBlock TlvType.ContentType (mi_type m) else sret 0 in
  sret (l1 + l2 + l3 + l4).

Definition MetaInfo_wireEncode {E} `{EncodingImpl E} (m : MetaInfo) : state E Z :=
  let~ totalLength := MetaInfo_value m in
  let~ l1 := prependVarNumber totalLength in
  let~ l2 := prependVarNumber TlvType.MetaInfo in
  sret (totalLength + l1 + l2).

(** [MetaInfo::wireEncode()]: the block, and the object, which keeps it *)
Definition MetaInfo_wire (m : MetaInfo) : result (Block * MetaInfo) :=
  if hasWire (mi_wire m) then Ok (mi_wire m, m)
  else
    let! b := Encoder.block true (twoPass (fun E _ => MetaInfo_wireEncode m)) in
    Ok (b, MkMetaInfo (mi_type m) (mi_freshnessPeriod m) (mi_finalBlockId m) (mi_appMetaInfo m) b).

(** ** Decoding *)

(** [val], if it has the type: the element and what follows it *)
Definition peek (type : Z) (l : list Block) : option (Block * list Block) :=
  match l with
  | x :: l' => if m_type x =? type then Some (x, l') else None
  | [] => None
  end.

(** [MetaInfo::wireDecode] of the object [m]: the elements of the application are
    appended to those it has. *)
Definition MetaInfo_wireDecode (wire : Block) (m : MetaInfo) : result MetaInfo :=
  let! w := Block_parse wire in
  let l := m_subBlocks w in
  let! (type, l) :=
    match peek TlvType.ContentType l with
    | Some (x, l') => let! n := readNonNegativeIntegerBlock x in Ok (to_u32 n, l')
    | None => Ok (TlvType.ContentType_Blob, l)
    end in
  let! (freshnessPeriod, l) :=
    match peek TlvType.FreshnessPeriod l with
    | Some (x, l') => let! n := readNonNegativeIntegerBlock x in Ok (to_s64 n, l')
    | None => Ok (MILLISECONDS_MIN, l)
    end in
  let! (finalBlockId, l) :=
    match peek TlvType.FinalBlockId l with
    | Some (x, l') =>
        let! b := blockFromValue x in
        let! c := Component_of_Block b in
        Ok (if negb (c_type c =? TlvType.NameComponent) then Component_reset else c, l')
    | None => Ok (Component_reset, l)
    end in
  Ok (MkMetaInfo type freshnessPeriod finalBlockId (mi_appMetaInfo m ++ l) w).

(** ** Round trip *)

Definition mi_elements (m : MetaInfo) : list (Z * list Z) :=
  opt_elem (negb (mi_type m =? TlvType.ContentType_Blob)) (TlvType.ContentType, encoderIntegerBytes (mi_type m)) ++
  opt_elem (0 <=? mi_freshnessPeriod m) (TlvType.FreshnessPeriod, encoderIntegerBytes (mi_freshnessPeriod m)) ++
  opt_elem (negb (Component_empty (mi_finalBlockId m)))
    (TlvType.FinalBlockId, tlv_wire (c_type (mi_finalBlockId m)) (c_value (mi_finalBlockId m))) ++
  map view (mi_appMetaInfo m).

(** The values are in the ranges of their types, the final block is a generic
    component, and the elements of the application have types of the
    application. *)
Record mi_ok (m : MetaInfo) : Prop := {
  mo_type : 0 <= mi_type m < U32;
  mo_fresh : mi_freshnessPeriod m < 2 ^ 63;
  mo_final : Component_empty (mi_finalBlockId m) = true \/
    c_type (mi_finalBlockId m) = TlvType.NameComponent /\ wf_bytes (c_value (mi_finalBlockId m)) /\ len (c_value (mi_finalBlockId m)) < 2 ^ 60;
  mo_app : Forall (fun b => elem_ok b (view b) /\ wf_element (view b) /\ wf_bytes (value b) /\ isAppType (m_type b) = true) (mi_appMetaInfo m)
}.

(** The same information, up to the blocks it is in *)
Record mi_same (m m' : MetaInfo) : Prop := {
  ms_type : mi_type m' = mi_type m;
  ms_fresh : mi_freshnessPeriod m' = if 0 <=? mi_freshnessPeriod m then mi_freshnessPeriod m else MILLISECONDS_MIN;
  ms_final : if Component_empty (mi_finalBlockId m) then Component_empty (mi_finalBlockId m') = true
             else mi_finalBlockId m' = mi_finalBlockId m;
  ms_app : map view (mi_appMetaInfo m') = map view (mi_appMetaInfo m)
}.

Lemma Forall2_views (P : Block -> Prop) l : Forall (fun b => elem_ok b (view b) /\ P b) l -> Forall2 elem_ok l (map view l).
Proof. induction 1 as [|b l [Hb _] Hl IH]; cbn [map]; by constructor. Qed.

Lemma Encodes_Component c :
  Encodes (fun E _ => Component_wireEncode c) (len (tlv_wire (c_type c) (c_value c))) (tlv_wire (c_type c) (c_value c)).
Proof. split; [intros; apply (Component_wireEncode_size (E := Estimator.t))|apply Prepends_Component]. Qed.

Lemma Encodes_MetaInfo m : mi_ok m ->
  Encodes (fun E _ => MetaInfo_wireEncode m) (len (tlv_wire TlvType.MetaInfo (wires (mi_elements m)))) (tlv_wire TlvType.MetaInfo (wires (mi_elements m))).
Proof.
  intros [_ _ _ Hap]. unfold MetaInfo_wireEncode. apply Encodes_header. unfold MetaInfo_value. eapply Encodes_eq.
  - eapply Encodes_bind; [eapply Encodes_rev_Blocks, Forall2_views, Hap|].
    eapply Encodes_bind; [apply (Encodes_opt _ _ (TlvType.FinalBlockId, tlv_wire (c_type (mi_finalBlockId m)) (c_value (mi_finalBlockId m))))|].
    { intros _. unfold prependNestedComponent. apply Encodes_header, Encodes_Component. }
    eapply Encodes_bind; [apply (Encodes_opt _ _ (TlvType.FreshnessPeriod, encoderIntegerBytes (mi_freshnessPeriod m)))|].
    { intros _. apply Encodes_IntegerBlock. }
    eapply Encodes_bind; [apply (Encodes_opt _ _ (TlvType.ContentType, encoderIntegerBytes (mi_type m)))|apply Encodes_ret].
    intros _. apply Encodes_IntegerBlock.
  - unfold mi_elements. rewrite !wires_app, !len_app. lia.
  - unfold mi_elements. rewrite !wires_app. cbn [app]. by rewrite <- !app_assoc.
Qed.

Lemma peek_other t l es : Forall2 elem_ok l es -> Forall (fun x => x.1 <> t) es -> peek t l = None.
Proof.
  intros H2 Hn. destruct H2 as [|b x l es Hb H2]; [done|]. apply Forall_cons in Hn as [Hx _]. cbn [peek].
  by rewrite (elem_ok_type _ _ Hb), (proj2 (Z.eqb_neq _ _) Hx).
Qed.

(** A field of the packet that may be absent: it is found at the front, or what
    follows is of other types. *)
Lemma peek_front t c v l es : Forall2 elem_ok l (opt_elem c (t, v) ++ es) -> Forall (fun x => x.1 <> t) es ->
  exists l', Forall2 elem_ok l' es /\ if c then exists b, peek t l = Some (b, l') /\ elem_ok b (t, v) else l = l' /\ peek t l = None.
Proof.
  intros H2 Hn. destruct (Forall2_front c (t, v) es l H2) as (l'&Hl'&Hc). exists l'. split; [done|]. destruct c.
  - destruct Hc as (b&->&Hb). exists b. split; [|done]. cbn [peek]. by rewrite (elem_ok_type _ _ Hb), Z.eqb_refl.
  - subst l. split; [done|]. by eapply peek_other.
Qed.

Lemma app_types m : mi_ok m -> forall t, isAppType t = false -> Forall (fun x => x.1 <> t) (map view (mi_appMetaInfo m)).
Proof.
  intros [_ _ _ Ha] t Ht. apply Forall_map. eapply Forall_impl; [exact Ha|]. intros b (_&_&_&Hb). simpl. intros <-. congruence.
Qed.

Lemma wf_mi_elements m : mi_ok m -> wf_fields (mi_elements m).
Proof.
  intros [Ht Hf Hfi Ha]. unfold mi_elements. rewrite !wf_fields_app. split_and!.
  - destruct (negb _); [|split; constructor]. apply wf_fields_cons. split; [|split; constructor].
    apply wf_integer_field; [by vm_compute|lia].
  - destruct (Z.leb_spec 0 (mi_freshnessPeriod m)); [|split; constructor]. apply wf_fields_cons. split; [|split; constructor].
    apply wf_integer_field; [by vm_compute|lia].
  - destruct (Component_empty _) eqn:He; [split; constructor|]. destruct Hfi as [?|(Hty&Hb&Hl)]; [done|].
    apply wf_fields_cons. split; [|split; constructor]. rewrite Hty.
    assert (Hel : wf_element (TlvType.NameComponent, c_value (mi_finalBlockId m))) by (split; [by vm_compute|simpl; unfold U64; lia]).
    split; [|by apply wf_tlv_wire]. split; [by vm_compute|]. simpl. unfold tlv_wire. rewrite !len_app, !len_writeVarNumber.
    unfold sizeOfVarNumber, U64. repeat case_bool; lia.
  - split; apply Forall_map; (eapply Forall_impl; [exact Ha|]); by intros b (_&?&?&_).
Qed.

(** Decoding the block of [m] into an object [m0] *)
Lemma MetaInfo_decode_elem b m m0 : elem_ok b (TlvType.MetaInfo, wires (mi_elements m)) -> mi_ok m ->
  exists m' app, MetaInfo_wireDecode b m0 = Ok m' /\ mi_appMetaInfo m' = mi_appMetaInfo m0 ++ app /\
    mi_same m (MkMetaInfo (mi_type m') (mi_freshnessPeriod m') (mi_finalBlockId m') app (mi_wire m')) /\
    wire (mi_wire m') = Ok (tlv_wire TlvType.MetaInfo (wires (mi_elements m))) /\ Forall2 elem_ok app (map view (mi_appMetaInfo m)).
Proof.
  intros Hb Hok. pose proof (wf_mi_elements m Hok) as Hw. pose proof (app_types m Hok) as Happ.
  destruct (Block_parse_value b _ (ek_wf _ _ Hb) (ek_sub _ _ Hb) (elem_ok_value _ _ Hb) Hw) as (l0&Hp&H2). unfold MetaInfo_wireDecode. rewrite Hp.
  cbn [rbind set_subBlocks m_subBlocks]. clear Hp. unfold mi_elements in H2. destruct Hok as [Ht Hf Hfi Ha].
  set (final := mi_finalBlockId m) in *.
  apply peek_front in H2 as (l1&H2&P1).
  2: { rewrite !Forall_app. split_and!; [..|by apply Happ]; destruct (0 <=? _), (negb (Component_empty _)); repeat constructor; done. }
  apply peek_front in H2 as (l2&H2&P2).
  2: { rewrite !Forall_app. split_and!; [..|by apply Happ]; destruct (negb (Component_empty _)); repeat constructor; done. }
  apply peek_front in H2 as (l3&H2&P3); [|by apply Happ].
  assert (E1 : match peek TlvType.ContentType l0 with
    | Some (x, l') => let! n := readNonNegativeIntegerBlock x in Ok (to_u32 n, l')
    | None => Ok (TlvType.ContentType_Blob, l0) end = Ok (mi_type m, l1)).
  { destruct (Z.eqb_spec (mi_type m) TlvType.ContentType_Blob) as [He|He]; cbn [negb] in P1.
    - destruct P1 as [-> ->]. by rewrite He.
    - destruct P1 as (x&->&Hx). rewrite (read_integer_elem x _ _ Hx) by width_lia. cbn [rbind]. unfold to_u32. by rewrite Z.mod_small. }
  rewrite E1. cbn [rbind].
  assert (E2 : match peek TlvType.FreshnessPeriod l1 with
    | Some (x, l') => let! n := readNonNegativeIntegerBlock x in Ok (to_s64 n, l')
    | None => Ok (MILLISECONDS_MIN, l1) end = Ok (if 0 <=? mi_freshnessPeriod m then mi_freshnessPeriod m else MILLISECONDS_MIN, l2)).
  { destruct (Z.leb_spec 0 (mi_freshnessPeriod m)).
    - destruct P2 as (x&->&Hx). rewrite (read_integer_elem x _ _ Hx) by (unfold U64; lia). cbn [rbind]. by rewrite to_s64_id by lia.
    - by destruct P2 as [-> ->]. }
  rewrite E2. cbn [rbind].
  destruct (Component_empty final) eqn:He; cbn [negb] in P3.
  - destruct P3 as [-> ->]. cbn [rbind]. eexists _, _. split_and!; [done|done| |exact (ek_wire _ _ Hb)|done].
    split; cbn; [done|done| |by apply elem_ok_views]. fold final. by rewrite He.
  - destruct P3 as (x&->&Hx). destruct Hfi as [?|(Hty&Hby&Hl)]; [congruence|]. rewrite Hty in Hx.
    destruct (blockFromValue_elem x _ _ _ Hx) as (y&->&Hy); [split; [by vm_compute|simpl; unfold U64; lia]|]. cbn [rbind].
    rewrite (Component_of_Block_view _ _ _ Hy). change (isGeneric (MkComponent TlvType.NameComponent (c_value final))) with true. cbn.
    eexists _, _. split_and!; [done|done| |exact (ek_wire _ _ Hb)|done]. split; cbn; [done|done| |by apply elem_ok_views].
    fold final. rewrite He. destruct final. simpl in *. by subst.
Qed.
