(* ===== verification/SignatureInfo.v ===== *)
(** * Signatures: [ndn-cxx/src/signature-info.cpp] and [signature.cpp]

    The type of a signature, the locator of its key and further elements; the
    value of the signature is an opaque block. *)

From S2P Require Import Prelude StdMap Tlv Block Encoder Elements NameComponent Name KeyLocator Exclude MetaInfo.

(** The type is an [int32_t], -1 when there is none. *)
Record SignatureInfo := MkSignatureInfo {
  si_type : Z;
  si_hasKeyLocator : bool;
  si_keyLocator : KeyLocator;
  si_otherTlvs : list Block;
  si_wire : Block
}.

Definition SignatureInfo_new : SignatureInfo := MkSignatureInfo (-1) false KeyLocator_new [] Block_empty.

(** ** Setters and getters *)

Definition setSignatureType (type : Z) (s : SignatureInfo) : SignatureInfo :=
  MkSignatureInfo type (si_hasKeyLocator s) (si_keyLocator s) (si_otherTlvs s) (reset (si_wire s)).

Definition setKeyLocator (k : KeyLocator) (s : SignatureInfo) : SignatureInfo :=
  MkSignatureInfo (si_type s) true k (si_otherTlvs s) (reset (si_wire s)).

Definition unsetKeyLocator (s : SignatureInfo) : SignatureInfo :=
  MkSignatureInfo (si_type s) false KeyLocator_new (si_otherTlvs s) (reset (si_wire s)).

Definition getKeyLocator (s : SignatureInfo) : result KeyLocator :=
  if si_hasKeyLocator s then Ok (si_keyLocator s) else Err PacketError.

Definition is_validity (b : Block) : bool := m_type b =? TlvType.ValidityPeriod.

Definition unsetValidityPeriod (s : SignatureInfo) : SignatureInfo :=
  MkSignatureInfo (si_type s) (si_hasKeyLocator s) (si_keyLocator s)
    (match si_otherTlvs s with b :: l => if is_validity b then l else b :: l | [] => [] end) (reset (si_wire s)).

(** The period is given as the block it is encoded to. *)
Definition setValidityPeriod (period : Block) (s : SignatureInfo) : SignatureInfo :=
  let s := unsetValidityPeriod s in
  MkSignatureInfo (si_type s) (si_hasKeyLocator s) (si_keyLocator s) (period :: si_otherTlvs s) (si_wire s).

Definition getValidityPeriod (s : SignatureInfo) : result Block :=
  match si_otherTlvs s with
  | b :: _ => if is_validity b then Ok b else Err PacketError
  | [] => Err PacketError
  end.

Definition appendTypeSpecificTlv (b : Block) (s : SignatureInfo) : SignatureInfo :=
  MkSignatureInfo (si_type s) (si_hasKeyLocator s) (si_keyLocator s) (si_otherTlvs s ++ [b]) (si_wire s).

Definition getTypeSpecificTlv (type : Z) (s : SignatureInfo) : result Block :=
  match List.find (fun b => m_type b =? type) (si_otherTlvs s) with Some b => Ok b | None => Err PacketError end.

(** ** Encoding *)

(** The loop from [rbegin()] to [rend()], which appends *)
Fixpoint appendBlocks {E} `{EncodingImpl E} (l : list Block) (totalLength : Z) : state E Z :=
  match l with
  | [] => sret totalLength
  | x :: l' => let~ k := appendBlock x in appendBlocks l' (totalLength + k)
  end.

Definition SignatureInfo_wireEncode {E} `{EncodingImpl E} (s : SignatureInfo) : state E Z :=
  let~ l1 := appendBlocks (rev (si_otherTlvs s)) 0 in
  let~ l2 := if si_hasKeyLocator s then KeyLocator_wireEncode (si_keyLocator s) else sret 0 in
  let~ l3 := prependNonNegativeIntegerBlock TlvType.SignatureType (to_u64 (si_type s)) in
  let totalLength := l1 + l2 + l3 in
  let~ l4 := prependVarNumber totalLength in
  let~ l5 := prependVarNumber TlvType.SignatureInfo in
  sret (totalLength + l4 + l5).

(** [SignatureInfo::wireEncode()]: the block, and the object, which keeps it *)
Definition SignatureInfo_wire (s : SignatureInfo) : result (Block * SignatureInfo) :=
  if hasWire (si_wire s) then Ok (si_wire s, s)
  else
    let! _ := if si_hasKeyLocator s then KeyLocator_supported (si_keyLocator s) else Ok tt in
    let! b := Encoder.block true (twoPass (fun E _ => SignatureInfo_wireEncode s)) in
    Ok (b, MkSignatureInfo (si_type s) (si_hasKeyLocator s) (si_keyLocator s) (si_otherTlvs s) b).

(** ** Decoding *)

(** [SignatureInfo::wireDecode] of the object [s]: the further elements are
    appended to those it has. *)
Definition SignatureInfo_wireDecode (wire : Block) (s : SignatureInfo) : result SignatureInfo :=
  if negb (hasWire wire) then Err PacketError
  else
    let! w := Block_parse wire in
    if negb (m_type w =? TlvType.SignatureInfo) then Err PacketError
    else
      match peek TlvType.SignatureType (m_subBlocks w) with
      | None => Err PacketError
      | Some (x, l) =>
          let! type := readNonNegativeIntegerBlock x in
          let! (has, k, l) :=
            match peek TlvType.KeyLocator l with
            | Some (y, l') => let! k := KeyLocator_wireDecode y (si_keyLocator s) in Ok (true, k, l')
            | None => Ok (false, si_keyLocator s, l)
            end in
          Ok (MkSignatureInfo (to_s32 type) has k (si_otherTlvs s ++ l) w)
      end.

(** ** Signatures *)

Record Signature := MkSignature { sg_info : SignatureInfo; sg_value : Block }.
Definition Signature_new : Signature := MkSignature SignatureInfo_new Block_empty.

(** [operator bool] *)
Definition Signature_present (g : Signature) : bool := negb (si_type (sg_info g) =? -1).

Definition Signature_setInfo (info : Block) (g : Signature) : result Signature :=
  let! s := SignatureInfo_wireDecode info SignatureInfo_new in Ok (MkSignature s (sg_value g)).

Definition Signature_setValue (v : Block) (g : Signature) : result Signature :=
  if negb (m_type v =? TlvType.SignatureValue) then Err PacketError else Ok (MkSignature (sg_info g) v).

(** ** Round trip *)

Definition si_head (s : SignatureInfo) : list (Z * list Z) :=
  [(TlvType.SignatureType, encoderIntegerBytes (to_u64 (si_type s)))] ++
  opt_elem (si_hasKeyLocator s) (TlvType.KeyLocator, wires (kl_elements (si_keyLocator s))).

(** The elements in the order they are written in *)
Definition si_elements (s : SignatureInfo) : list (Z * list Z) := si_head s ++ rev (map view (si_otherTlvs s)).

Record si_ok (s : SignatureInfo) : Prop := {
  so_type : 0 <= si_type s < 2 ^ 31;
  so_locator : si_hasKeyLocator s = true -> kl_ok (si_keyLocator s) /\ len (wires (kl_elements (si_keyLocator s))) < U64;
  so_other : Forall (fun b => elem_ok b (view b) /\ wf_element (view b) /\ wf_bytes (value b) /\ m_type b <> TlvType.KeyLocator) (si_otherTlvs s)
}.

Lemma Appends_Blocks l es : Forall2 elem_ok l es -> forall k, Appends (appendBlocks l k) (k + len (wires es)) (wires es).
Proof.
  induction 1 as [|b [t v] l es Hx Hl IH]; intros k; cbn [appendBlocks].
  - unfold len. simpl. rewrite Z.add_0_r. apply Appends_ret.
  - unfold appendBlock. rewrite (ek_wire _ _ Hx). cbn [fst snd]. rewrite wires_cons, len_app, Z.add_assoc.
    eapply Appends_bind; [apply Appends_ByteArray|apply IH|done].
Qed.

Lemma Forall2_others s : si_ok s -> Forall2 elem_ok (rev (si_otherTlvs s)) (rev (map view (si_otherTlvs s))).
Proof. intros [_ _ Ho]. eapply Forall2_rev_elems, Forall2_views, Ho. Qed.

(** What is written in front of the further elements, when [l1] is their length *)
Lemma si_head_Encodes s l1 : si_ok s -> l1 = len (wires (rev (map view (si_otherTlvs s)))) ->
  Encodes (fun E _ => let~ l2 := if si_hasKeyLocator s then KeyLocator_wireEncode (si_keyLocator s) else sret 0 in
                      let~ l3 := prependNonNegativeIntegerBlock TlvType.SignatureType (to_u64 (si_type s)) in
                      let totalLength := l1 + l2 + l3 in
                      let~ l4 := prependVarNumber totalLength in
                      let~ l5 := prependVarNumber TlvType.SignatureInfo in
                      sret (totalLength + l4 + l5))
    (len (tlv_wire TlvType.SignatureInfo (wires (si_elements s))))
    (writeVarNumber TlvType.SignatureInfo ++ writeVarNumber (len (wires (si_elements s))) ++ wires (si_head s)).
Proof.
  intros [_ Hl _] ->. set (kl := (TlvType.KeyLocator, wires (kl_elements (si_keyLocator s)))).
  assert (Hlen : len (wires (si_elements s)) = len (wires (rev (map view (si_otherTlvs s)))) + len (wires (opt_elem (si_hasKeyLocator s) kl)) +
    len (tlv_wire TlvType.SignatureType (encoderIntegerBytes (to_u64 (si_type s))))).
  { unfold si_elements, si_head. rewrite !wires_app, wires_single, !len_app. cbn [fst snd]. fold kl. lia. }
  eapply Encodes_eq.
  - eapply Encodes_bind; [apply (Encodes_opt _ _ kl); intros Hh; by apply Encodes_KeyLocator, Hl|].
    eapply Encodes_bind; [apply Encodes_IntegerBlock|]. cbv zeta. rewrite <- Hlen.
    eapply Encodes_bind; [apply Encodes_VarNumber|]. eapply Encodes_bind; [apply Encodes_VarNumber|apply Encodes_ret].
  - unfold tlv_wire. rewrite !len_app, !len_writeVarNumber. lia.
  - unfold si_head. rewrite wires_app, wires_single. cbn [app fst snd]. fold kl. by rewrite <- !app_assoc.
Qed.

(** The bytes before and after the start of the encoder *)
Lemma SignatureInfo_Writes s : si_ok s ->
  Writes (SignatureInfo_wireEncode s) (len (tlv_wire TlvType.SignatureInfo (wires (si_elements s))))
    (writeVarNumber TlvType.SignatureInfo ++ writeVarNumber (len (wires (si_elements s))) ++ wires (si_head s))
    (wires (rev (map view (si_otherTlvs s)))).
Proof.
  intros Hok. destruct (si_head_Encodes s _ Hok eq_refl) as [_ HP].
  eapply Writes_eq; [eapply Writes_bind; [apply Appends_Writes, (Appends_Blocks _ _ (Forall2_others s Hok))|apply Prepends_Writes, HP]|..];
    by rewrite ?app_nil_r.
Qed.

Lemma SignatureInfo_wire_ok s : si_ok s -> hasWire (si_wire s) = false -> len (wires (si_elements s)) < U64 ->
  exists b, SignatureInfo_wire s = Ok (b, MkSignatureInfo (si_type s) (si_hasKeyLocator s) (si_keyLocator s) (si_otherTlvs s) b) /\
    wire b = Ok (tlv_wire TlvType.SignatureInfo (wires (si_elements s))) /\ view b = (TlvType.SignatureInfo, wires (si_elements s)).
Proof.
  intros Hok Hw Hl. unfold SignatureInfo_wire. rewrite Hw.
  assert (Hs : (if si_hasKeyLocator s then KeyLocator_supported (si_keyLocator s) else Ok tt) = Ok tt).
  { destruct (si_hasKeyLocator s) eqn:Hh; [|done]. destruct (so_locator s Hok Hh) as [[_ Hk] _]. unfold KeyLocator_supported. by destruct (kl_type _). }
  rewrite Hs. cbn [rbind]. unfold twoPass. set (e0 := Encoder.create _ 0).
  assert (Hi0 : Encoder.inv e0 /\ Encoder.content e0 = []).
  { unfold e0, Encoder.inv, Encoder.content, Encoder.create, slice. cbn. rewrite length_replicate, Nat.sub_diag. split; [lia|done]. }
  destruct (SignatureInfo_Writes s Hok e0 (proj1 Hi0)) as (_&Hi&Hc). rewrite (proj2 Hi0) in Hc. cbn [app] in Hc.
  destruct (block_of_content _ TlvType.SignatureInfo (wires (si_elements s)) Hi) as (b&Hb&Hv&Hwi).
  - rewrite Hc. unfold tlv_wire. rewrite <- !app_assoc. do 2 f_equal. unfold si_elements. by rewrite wires_app.
  - split; [by vm_compute|done].
  - rewrite Hb. cbn [rbind]. by exists b.
Qed.

(** The further elements, in some order *)
Definition si_others (s : SignatureInfo) (os : list (Z * list Z)) : Prop := os ≡ₚ map view (si_otherTlvs s).

Lemma wf_si_elements s os : si_ok s -> si_others s os -> wf_fields (si_head s ++ os).
Proof.
  intros [Ht Hl Ho] Hos. unfold si_head. rewrite !wf_fields_app. split_and!.
  - apply wf_fields_cons. split; [|split; constructor]. apply wf_integer_field; [by vm_compute|]. unfold to_u64. apply Z.mod_pos_bound. width_lia.
  - destruct (si_hasKeyLocator s); [|split; constructor]. destruct (Hl eq_refl) as [[[Hk1 Hk2] _] Hkl]. apply wf_fields_cons. split; [|split; constructor].
    split; [split; [by vm_compute|done]|by apply wf_wires].
  - unfold wf_fields. rewrite Hos. split; apply Forall_map; (eapply Forall_impl; [exact Ho|]); by intros b (_&?&?&_).
Qed.

(** What is read from a block with the information of [s], into [s0] *)
Record si_read (s s0 s' : SignatureInfo) (os : list (Z * list Z)) : Prop := {
  sr_type : si_type s' = si_type s;
  sr_has : si_hasKeyLocator s' = si_hasKeyLocator s;
  sr_locator : si_hasKeyLocator s = true -> kl_same (si_keyLocator s) (si_keyLocator s');
  sr_others : exists l, si_otherTlvs s' = si_otherTlvs s0 ++ l /\ Forall2 elem_ok l os;
  sr_wire : wire (si_wire s') = Ok (tlv_wire TlvType.SignatureInfo (wires (si_head s ++ os)));
  sr_elements : Forall2 elem_ok (m_subBlocks (si_wire s')) (si_head s ++ os)
}.

Lemma SignatureInfo_decode_elem b s s0 os : elem_ok b (TlvType.SignatureInfo, wires (si_head s ++ os)) -> si_ok s -> si_others s os ->
  exists s', SignatureInfo_wireDecode b s0 = Ok s' /\ si_read s s0 s' os.
Proof.
  intros Hb Hok Hos. destruct (Block_parse_value b _ (ek_wf _ _ Hb) (ek_sub _ _ Hb) (elem_ok_value _ _ Hb) (wf_si_elements s os Hok Hos)) as (l0&Hp&H2).
  unfold SignatureInfo_wireDecode. pose proof (ek_wire _ _ Hb) as Hwi. unfold wire in Hwi at 1.
  destruct (hasWire b) eqn:Hw; [|done]. cbn [negb]. rewrite Hp. cbn [rbind set_subBlocks m_subBlocks m_type]. rewrite (elem_ok_type _ _ Hb). cbn [fst]. rewrite Z.eqb_refl. cbn [negb].
  assert (Hall : Forall2 elem_ok l0 (si_head s ++ os)) by done.
  unfold si_head in H2. rewrite <- !app_assoc in H2. cbn [app] in H2.
  destruct l0 as [|x l1]; [by inversion H2|]. apply Forall2_cons in H2 as [Hx H2]. cbn [peek]. rewrite (elem_ok_type _ _ Hx). cbn [fst]. rewrite Z.eqb_refl.
  destruct Hok as [Ht Hl Ho]. assert (Htu : to_u64 (si_type s) = si_type s) by (unfold to_u64; apply Z.mod_small; unfold U64; lia).
  rewrite Htu in Hx. rewrite (read_integer_elem x _ _ Hx) by (unfold U64; lia). cbn [rbind].
  apply peek_front in H2 as (l2&H2&P2).
  2: { rewrite Hos. apply Forall_map. eapply Forall_impl; [exact Ho|]. by intros y (_&_&_&?). }
  destruct (si_hasKeyLocator s) eqn:Hh.
  - destruct P2 as (y&->&Hy). destruct (Hl eq_refl) as [Hk _].
    destruct (KeyLocator_decode_elem y (si_keyLocator s) (si_keyLocator s0) Hy Hk) as (k&->&Hsame&_). cbn [rbind].
    eexists. split; [done|]. split; [by apply to_s32_id; lia|by rewrite Hh|done|by exists l2|exact (ek_wire _ _ Hb)|exact Hall].
  - destruct P2 as [-> ->]. cbn [rbind]. eexists. split; [done|].
    split; [by apply to_s32_id; lia|by rewrite Hh|by rewrite Hh|by exists l2|exact (ek_wire _ _ Hb)|exact Hall].
Qed.

(** What a signature's information says survives encoding and decoding, but the
    elements after the key locator come out in reverse: the encoder appends
    them from the last to the first.  A validity period, which is kept first, is
    not found any more after decoding when there is another such element. *)
Theorem signature_info_reversed s : si_ok s -> hasWire (si_wire s) = false -> len (wires (si_elements s)) < U64 ->
  exists b w r s', SignatureInfo_wire s = Ok (b, MkSignatureInfo (si_type s) (si_hasKeyLocator s) (si_keyLocator s) (si_otherTlvs s) b) /\
    wire b = Ok w /\ Block_of_buffer w = Ok r /\ SignatureInfo_wireDecode r SignatureInfo_new = Ok s' /\
    si_type s' = si_type s /\ si_hasKeyLocator s' = si_hasKeyLocator s /\
    (si_hasKeyLocator s = true -> kl_same (si_keyLocator s) (si_keyLocator s')) /\
    map view (si_otherTlvs s') = rev (map view (si_otherTlvs s)) /\
    (forall p x, si_otherTlvs s = [p; x] -> m_type p = TlvType.ValidityPeriod -> m_type x <> TlvType.ValidityPeriod ->
       getValidityPeriod s = Ok p /\ getValidityPeriod s' = Err PacketError).
Proof.
  intros Hok Hw Hl. destruct (SignatureInfo_wire_ok s Hok Hw Hl) as (b&Hb&Hwi&_).
  destruct (Block_of_buffer_built TlvType.SignatureInfo (wires (si_elements s))) as (r&Hr&Hbu); [split; [by vm_compute|done]|].
  assert (Hos : si_others s (rev (map view (si_otherTlvs s)))) by (unfold si_others; symmetry; apply Permutation_rev).
  destruct (wf_si_elements s _ Hok Hos) as [He1 He2].
  destruct (SignatureInfo_decode_elem r s SignatureInfo_new _ (built_elem_ok _ _ _ Hbu (wf_wires _ He1 He2)) Hok Hos) as (s'&Hd&[Ht Hh Hk (l&Ho&H2) _ _]).
  cbn in Ho. apply elem_ok_views in H2.
  exists b, (tlv_wire TlvType.SignatureInfo (wires (si_elements s))), r, s'. split_and!; try done; [by rewrite Ho|].
  intros p x Hs Hp Hx. unfold getValidityPeriod, is_validity. rewrite Hs, Hp, Z.eqb_refl. split; [done|].
  rewrite Ho. rewrite Hs in H2. destruct l as [|y l]; [done|]. cbn in H2. injection H2 as Hty _ _. by rewrite Hty, (proj2 (Z.eqb_neq _ _) Hx).
Qed.

(** ** A signature with a validity period *)

Module SignatureSamples.
Definition period : Block := Eval vm_compute in from_ok Block_empty (makeBinaryBlock TlvType.ValidityPeriod [1; 2]).
Definition specific : Block := Eval vm_compute in from_ok Block_empty (makeBinaryBlock 600 [3]).
Definition info : SignatureInfo :=
  setValidityPeriod period (appendTypeSpecificTlv specific (MkSignatureInfo 1 true (KeyLocator_setName [MkComponent TlvType.NameComponent [65]] KeyLocator_new) [] Block_empty)).

Lemma si_ok_info : si_ok info.
Proof.
  split; [by vm_compute| |].
  - intros _. split; [split; by_decide|by vm_compute].
  - change (si_otherTlvs info) with [period; specific]. rewrite !Forall_cons. split_and!; [by_elem|by_decide|by_decide|by vm_compute|by_elem|by_decide|by_decide|by vm_compute|constructor].
Qed.

Lemma signature_info_reversed_witness : exists s', map view (si_otherTlvs s') = [(600, [3]); (TlvType.ValidityPeriod, [1; 2])] /\
  getValidityPeriod info = Ok period /\ getValidityPeriod s' = Err PacketError.
Proof.
  destruct (signature_info_reversed info) as (b&w&r&s'&_&_&_&_&_&_&_&Ho&Hp); [exact si_ok_info|reflexivity|vm_compute; reflexivity|].
  exists s'. split; [exact Ho|]. apply (Hp period specific); [reflexivity|reflexivity|discriminate].
Defined.
End SignatureSamples.
