(* ===== verification/Packet.v ===== *)
(** * Packets: [ndn-cxx/src/selectors.cpp], [interest.cpp], [data.cpp]

    The fields of Interest and Data that the forwarder reads, and the test
    whether an Interest can be satisfied by a Data.  The implicit digest of a
    Data is [crypto::sha256] of its wire encoding; the hash comes from the
    cryptographic library and is an interface here. *)

From S2P Require Import Prelude StdMap Tlv Block Encoder Elements NameComponent Name KeyLocator Exclude.

(** [crypto::sha256]: 32 bytes. *)
Class Sha256 := {
  sha256 : list Z -> list Z;
  sha256_bytes l : wf_bytes (sha256 l);
  sha256_length l : len (sha256 l) = SHA256_DIGEST_SIZE
}.

(** ** Selectors *)

(** Suffix counts and the child selector are [int]s, negative when absent.
    [s_wire] is the wire encoding the selectors were decoded from, if it is
    still there. *)
Record Selectors := MkSelectors {
  s_minSuffixComponents : Z;
  s_maxSuffixComponents : Z;
  s_publisherPublicKeyLocator : KeyLocator;
  s_exclude : Exclude;
  s_childSelector : Z;
  s_mustBeFresh : bool;
  s_wire : option (list Z)
}.

(** [Selectors::Selectors()] *)
Definition Selectors_default : Selectors := MkSelectors (-1) (-1) KeyLocator_new (MkExclude [] None) (-1) false None.

Definition Selectors_empty (s : Selectors) : bool :=
  (s_minSuffixComponents s <? 0) && (s_maxSuffixComponents s <? 0) &&
  KeyLocator_empty (s_publisherPublicKeyLocator s) &&
  Exclude_empty (s_exclude s) && (s_childSelector s <? 0) && negb (s_mustBeFresh s).

(** [Selectors::wireEncode(encoder)], from the last field to the first *)
Definition Selectors_wireEncode {E} `{EncodingImpl E} (s : Selectors) : state E Z :=
  let~ l1 := if s_mustBeFresh s then prependEmptyBlock TlvType.MustBeFresh else sret 0 in
  let~ l2 := if 0 <=? s_childSelector s
             then prependNonNegativeIntegerBlock TlvType.ChildSelector (s_childSelector s) else sret 0 in
  let~ l3 := if negb (Exclude_empty (s_exclude s)) then Exclude_wireEncode (m_exclude (s_exclude s)) else sret 0 in
  let~ l4 := if negb (KeyLocator_empty (s_publisherPublicKeyLocator s))
             then KeyLocator_wireEncode (s_publisherPublicKeyLocator s) else sret 0 in
  let~ l5 := if 0 <=? s_maxSuffixComponents s
             then prependNonNegativeIntegerBlock TlvType.MaxSuffixComponents (s_maxSuffixComponents s) else sret 0 in
  let~ l6 := if 0 <=? s_minSuffixComponents s
             then prependNonNegativeIntegerBlock TlvType.MinSuffixComponents (s_minSuffixComponents s) else sret 0 in
  let totalLength := l1 + l2 + l3 + l4 + l5 + l6 in
  let~ l7 := prependVarNumber totalLength in
  let~ l8 := prependVarNumber TlvType.Selectors in
  sret (totalLength + l7 + l8).

(** [Selectors::wireEncode()]: the bytes of the block *)
Definition Selectors_wire (s : Selectors) : result (list Z) :=
  match s_wire s with
  | Some w => Ok w
  | None =>
      let! _ := KeyLocator_supported (s_publisherPublicKeyLocator s) in
      let! b := Encoder.block true (twoPass (fun E _ => Selectors_wireEncode s)) in wire b
  end.

(** [Selectors::operator==] compares the encodings. *)
Definition Selectors_equals (a b : Selectors) : bool :=
  match Selectors_wire a, Selectors_wire b with
  | Ok x, Ok y => bool_decide (x = y)
  | _, _ => false
  end.

(** ** Interest and Data *)

(** [DEFAULT_INTEREST_LIFETIME], in milliseconds *)
Definition DEFAULT_INTEREST_LIFETIME : Z := 4000.

(** A link object is the list of its delegations; the selected delegation is
    an index into it.  The tag [NextHopFaceIdTag] is set by local consumers. *)
Record Interest := MkInterest {
  i_name : Name;
  i_selectors : Selectors;
  i_nonce : Z;
  i_interestLifetime : Z;
  i_link : option (list (Z * Name));
  i_selectedDelegation : option nat;
  i_nextHopFaceId : option Z
}.

(** The freshness period is in milliseconds, negative when absent;
    [d_noCache] is the tag [CachePolicyTag] with the policy [NO_CACHE]. *)
Record Data := MkData {
  d_name : Name;
  d_freshnessPeriod : Z;
  d_signatureInfo : Block;
  d_wire : list Z;
  d_noCache : bool
}.

Section Matching.
Context `{Sha256}.

Definition digest (d : Data) : Component :=
  MkComponent TlvType.ImplicitSha256DigestComponent (sha256 (d_wire d)).

(** [Data::getFullName] of a Data that has a wire encoding *)
Definition getFullName (d : Data) : Name := d_name d ++ [digest d].

Definition excluded_at (s : Selectors) (n : Name) (i : nat) : bool :=
  match n !! i with Some c => isExcluded (s_exclude s) c | None => false end.

Definition matchesName (i : Interest) (name : Name) : bool :=
  let s := i_selectors i in
  let n := i_name i in
  if len name <? len n then false
  else if negb (isPrefixOf n name) then false
  else if (0 <=? s_minSuffixComponents s) && negb (s_minSuffixComponents s <=? len name - len n) then false
  else if (0 <=? s_maxSuffixComponents s) && negb (len name - len n <=? s_maxSuffixComponents s) then false
  else if negb (Exclude_empty (s_exclude s)) && (len n <? len name) && excluded_at s name (length n) then false
  else true.

(** The check of the publisher's key locator against the signature. *)
Definition matchesKeyLocator (s : Selectors) (d : Data) : bool :=
  if KeyLocator_empty (s_publisherPublicKeyLocator s) then true
  else
    match find (d_signatureInfo d) TlvType.KeyLocator with
    | None => false
    | Some it =>
        match (let! (k, _) := KeyLocator_wire (s_publisherPublicKeyLocator s) in Block_eqb k it) with
        | Ok b => b
        | Err _ => false
        end
    end.

Definition matchesData (i : Interest) (d : Data) : bool :=
  let s := i_selectors i in
  let n := i_name i in
  let interestNameLength := len n in
  let fullNameLength := len (d_name d) + 1 in
  let minSuffixComponents := if 0 <=? s_minSuffixComponents s then s_minSuffixComponents s else 0 in
  if negb (interestNameLength + minSuffixComponents <=? fullNameLength) then false
  else if (0 <=? s_maxSuffixComponents s) &&
          negb (fullNameLength <=? interestNameLength + s_maxSuffixComponents s) then false
  else if negb (if interestNameLength =? fullNameLength then
                  match last n with
                  | Some c => isImplicitSha256Digest c && Name_equals n (getFullName d)
                  | None => false
                  end
                else isPrefixOf n (d_name d)) then false
  else if negb (Exclude_empty (s_exclude s)) && (interestNameLength <? fullNameLength) &&
          (if interestNameLength =? fullNameLength - 1
           then excluded_at s (getFullName d) (length n)
           else excluded_at s (d_name d) (length n)) then false
  else matchesKeyLocator s d.
End Matching.

(** ** Lemmas *)

Section Facts.
Context `{Sha256}.

Lemma components_match_app n a b : len n <= len a -> components_match n (a ++ b) = components_match n a.
Proof.
  revert a. induction n as [|c n IH]; intros [|x a] Hl; simpl; try done.
  rewrite IH; [done|]. rewrite !len_cons in Hl. lia.
Qed.

Lemma isPrefixOf_app n a b : len n <= len a -> isPrefixOf n (a ++ b) = isPrefixOf n a.
Proof.
  intros Hl. unfold isPrefixOf. rewrite len_app, components_match_app by done.
  pose proof (len_nonneg b). rewrite !(proj2 (Z.ltb_ge _ _)) by lia. done.
Qed.

Lemma equals_value c d : equals c d = true <-> c_value c = c_value d.
Proof.
  unfold equals. destruct (Z.eqb_spec (len (c_value c)) (len (c_value d))) as [Hl|Hl]; cbn [negb].
  - case_bool; [|by rewrite bool_decide_eq_true]. split; [|done]. intros _. unfold len in *.
    destruct (c_value c), (c_value d); simpl in *; done || lia.
  - split; [done|]. intros Hv. by rewrite Hv in Hl.
Qed.

Lemma components_match_last n a c x : length n = length a ->
  components_match (n ++ [c]) (a ++ [x]) = components_match n a && equals c x.
Proof.
  revert a. induction n as [|y n IH]; intros [|z a] Hl; simpl in *; try done.
  - by destruct (equals c x).
  - destruct (equals y z); [|done]. apply IH. lia.
Qed.

Lemma len_full d : len (getFullName d) = len (d_name d) + 1.
Proof. unfold getFullName. by rewrite len_app. Qed.

Lemma excluded_full s d n : (n < length (d_name d))%nat ->
  excluded_at s (getFullName d) n = excluded_at s (d_name d) n.
Proof. intros Hl. unfold excluded_at, getFullName. by rewrite lookup_app_l. Qed.
End Facts.

(** [matchesData] decides, without computing the digest when it can avoid
    it, whether [matchesName] holds of the Data's full name and the key
    locator agrees.  The hypothesis excludes a generic last component of 32
    bytes that spells the digest, which [matchesName] does not tell from the
    digest. *)
Theorem matchesData_fullName `{Sha256} (i : Interest) (d : Data)
  (Hlast : forall c, last (i_name i) = Some c -> c_value c = sha256 (d_wire d) ->
                     isImplicitSha256Digest c = true) :
  matchesData i d = matchesName i (getFullName d) && matchesKeyLocator (i_selectors i) d.
Proof.
  unfold matchesData, matchesName. rewrite !len_full.
  set (n := i_name i) in *. set (s := i_selectors i). pose proof (len_nonneg n).
  destruct (Z_lt_le_dec (len (d_name d) + 1) (len n)) as [Hlong|Hle].
  { rewrite (proj2 (Z.ltb_lt _ (len n))) by lia. cbn [andb].
    rewrite (proj2 (Z.leb_gt (len n + _) _)); [done|]. case_bool; lia. }
  rewrite (proj2 (Z.ltb_ge _ (len n))) by lia.
  set (P := if len n =? len (d_name d) + 1 then _ else isPrefixOf n (d_name d)).
  assert (HP : P = isPrefixOf n (getFullName d)).
  { unfold P. destruct (Z.eqb_spec (len n) (len (d_name d) + 1)) as [He|Hne].
    2: { unfold getFullName. rewrite isPrefixOf_app; [done|lia]. }
    unfold Name_equals, isPrefixOf. rewrite len_full, He, Z.ltb_irrefl, Z.eqb_refl. cbn [negb].
    destruct (exists_last (l := n)) as (n'&c&Hn); [intros Hn; rewrite Hn in He; unfold len in He; simpl in He; lia|].
    rewrite Hn in *. rewrite last_snoc in *. unfold getFullName.
    assert (length n' = length (d_name d)) by (rewrite len_app in He; unfold len in He; simpl in He; lia).
    rewrite components_match_last by done. destruct (isImplicitSha256Digest c) eqn:Hd; [done|].
    destruct (equals c (digest d)) eqn:Heq; [|by rewrite andb_false_r].
    apply equals_value in Heq. exfalso. specialize (Hlast c eq_refl Heq). congruence. }
  rewrite HP. set (X := if len n =? len (d_name d) + 1 - 1 then _ else _).
  assert (HX : (len n <? len (d_name d) + 1) && X =
               (len n <? len (d_name d) + 1) && excluded_at s (getFullName d) (length n)).
  { unfold X. case_bool; [done|].
    destruct (Z.ltb_spec (len n) (len (d_name d) + 1)); cbn [andb]; [|done].
    symmetry. apply excluded_full. unfold len in *. lia. }
  rewrite <- !andb_assoc, HX.
  assert (Hmin : (len n + (if 0 <=? s_minSuffixComponents s then s_minSuffixComponents s else 0)
                    <=? len (d_name d) + 1) =
    negb ((0 <=? s_minSuffixComponents s) && negb (s_minSuffixComponents s <=? len (d_name d) + 1 - len n))).
  { destruct (Z.leb_spec 0 (s_minSuffixComponents s)); cbn [andb negb]; rewrite ?negb_involutive;
      [apply Bool.eq_iff_eq_true; rewrite !Z.leb_le; lia|apply Z.leb_le; lia]. }
  assert (Hmax : (len (d_name d) + 1 <=? len n + s_maxSuffixComponents s) =
                 (len (d_name d) + 1 - len n <=? s_maxSuffixComponents s))
    by (apply Bool.eq_iff_eq_true; rewrite !Z.leb_le; lia).
  rewrite Hmin, Hmax, negb_involutive.
  repeat match goal with |- context [if ?b then _ else _] => destruct b end; done.
Qed.

(** ** A digest function for examples *)

(** Not a cryptographic hash: the first bytes of the wire, padded. *)
#[local] Instance sample_sha256 : Sha256.
Proof.
  refine {| sha256 l := take 32 (map (fun x => x mod 256) l ++ replicate 32 0) |}.
  - intros l. apply wf_bytes_take, wf_bytes_app. split.
    + apply Forall_map. apply Forall_true. intros x. simpl. unfold is_byte. apply Z.mod_pos_bound. lia.
    + apply Forall_replicate. unfold is_byte. lia.
  - intros l. unfold len. rewrite length_take, length_app, length_replicate. unfold SHA256_DIGEST_SIZE. lia.
Defined.

Definition sample_data : Data := MkData name_ab (-1) Block_empty [6; 0] false.
Definition sample_interest : Interest :=
  MkInterest (name_ab ++ [digest sample_data]) Selectors_default 1 4000 None None None.

Lemma matchesData_fullName_witness :
  matchesData sample_interest sample_data = matchesName sample_interest (getFullName sample_data) && true.
Proof. apply (matchesData_fullName sample_interest sample_data). intros c [= <-] _. done. Defined.
