(* ===== verification/DataPacket.v ===== *)
(** * Data packets on the wire: [ndn-cxx/src/data.cpp]

    A Data has a name, meta information, content and a signature.  It keeps the
    block it was decoded from until it is changed; encoding it decodes the
    result into the same object, so that its parts point into the new buffer.
    The record [Data] of [Packet] is what the forwarder reads of it. *)

From S2P Require Import Prelude StdMap Tlv Block Encoder Elements NameComponent Name KeyLocator Exclude MetaInfo SignatureInfo Packet.

Record DataPacket := MkDataPacket {
  dp_name : Name;
  dp_metaInfo : MetaInfo;
  dp_content : Block;
  dp_signature : Signature;
  dp_wire : Block;
  dp_fullName : Name
}.

(** [Data::Data()] and [Data::Data(const Name&)] *)
Definition DataPacket_new : DataPacket :=
  MkDataPacket [] MetaInfo_new (Block_of_type TlvType.Content) Signature_new Block_empty [].
Definition DataPacket_of_name (n : Name) : DataPacket :=
  MkDataPacket n MetaInfo_new Block_empty Signature_new Block_empty [].

(** [Data::wireDecode] of the object [d] *)
Definition Data_wireDecode (wire : Block) (d : DataPacket) : result DataPacket :=
  let! w := Block_parse wire in
  let! b := get w TlvType.Name in
  let! name := Name_wireDecode b in
  let! b := get w TlvType.MetaInfo in
  let! metaInfo := MetaInfo_wireDecode b (dp_metaInfo d) in
  let! content := get w TlvType.Content in
  let! b := get w TlvType.SignatureInfo in
  let! signature := Signature_setInfo b (dp_signature d) in
  let! signature :=
    match find w TlvType.SignatureValue with
    | Some v => Signature_setValue v signature
    | None => Ok signature
    end in
  Ok (MkDataPacket name metaInfo content signature w []).

(** [Data::Data(const Block&)] *)
Definition DataPacket_of_block (wire : Block) : result DataPacket :=
  Data_wireDecode wire (MkDataPacket [] MetaInfo_new Block_empty Signature_new Block_empty []).

(** ** Setters *)

Definition onChanged (d : DataPacket) : DataPacket :=
  MkDataPacket (dp_name d) (dp_metaInfo d) (dp_content d) (dp_signature d) (reset (dp_wire d)) [].

Definition Data_setName (n : Name) (d : DataPacket) : DataPacket :=
  let d := onChanged d in MkDataPacket n (dp_metaInfo d) (dp_content d) (dp_signature d) (dp_wire d) (dp_fullName d).

Definition Data_setMetaInfo (m : MetaInfo) (d : DataPacket) : DataPacket :=
  let d := onChanged d in MkDataPacket (dp_name d) m (dp_content d) (dp_signature d) (dp_wire d) (dp_fullName d).

Definition Data_setContentType (type : Z) (d : DataPacket) : DataPacket := Data_setMetaInfo (setType type (dp_metaInfo d)) d.
Definition Data_setFreshnessPeriod (p : Z) (d : DataPacket) : DataPacket := Data_setMetaInfo (setFreshnessPeriod p (dp_metaInfo d)) d.
Definition Data_setFinalBlockId (c : Component) (d : DataPacket) : DataPacket := Data_setMetaInfo (setFinalBlockId c (dp_metaInfo d)) d.

Definition with_content (c : Block) (d : DataPacket) : DataPacket :=
  MkDataPacket (dp_name d) (dp_metaInfo d) c (dp_signature d) (dp_wire d) (dp_fullName d).

(** [setContent] of bytes, of a buffer and of a block *)
Definition Data_setContent_bytes (bytes : list Z) (d : DataPacket) : result DataPacket :=
  let! b := makeBinaryBlock TlvType.Content bytes in Ok (with_content b (onChanged d)).
Definition Data_setContent_buffer (bytes : list Z) (d : DataPacket) : DataPacket :=
  with_content (Block_of_value TlvType.Content bytes) (onChanged d).
Definition Data_setContent_block (content : Block) (d : DataPacket) : result DataPacket :=
  if m_type content =? TlvType.Content then Ok (with_content content (onChanged d))
  else let! b := Block_of_nested TlvType.Content content in Ok (with_content b (onChanged d)).

Definition Data_setSignature (g : Signature) (d : DataPacket) : DataPacket :=
  let d := onChanged d in MkDataPacket (dp_name d) (dp_metaInfo d) (dp_content d) g (dp_wire d) (dp_fullName d).

Definition Data_setSignatureValue (v : Block) (d : DataPacket) : result DataPacket :=
  let! g := Signature_setValue v (dp_signature d) in Ok (Data_setSignature g d).

(** ** Encoding *)

(** [Data::getContent] *)
Definition getContent (d : DataPacket) : result Block :=
  let! c := if Block_empty_test (dp_content d) then makeEmptyBlock TlvType.Content else Ok (dp_content d) in
  if hasWire c then Ok c else encode c.

(** [Data::wireEncode(encoder, unsignedPortion)], given the blocks of the
    signature and of the content *)
Definition Data_wireEncode {E} `{EncodingImpl E} (value info content : Block) (unsignedPortion : bool) (d : DataPacket) : state E Z :=
  let~ l1 := if negb unsignedPortion then prependBlock value else sret 0 in
  let~ l2 := prependBlock info in
  let~ l3 := prependBlock content in
  let~ l4 := MetaInfo_wireEncode (dp_metaInfo d) in
  let~ l5 := Name_wireEncode (dp_name d) in
  let totalLength := l1 + l2 + l3 + l4 + l5 in
  if negb unsignedPortion then
    let~ l6 := prependVarNumber totalLength in
    let~ l7 := prependVarNumber TlvType.Data in
    sret (totalLength + l6 + l7)
  else sret totalLength.

(** [Data::wireEncode()]: the block, and the object after the block was decoded
    into it *)
Definition Data_wire (d : DataPacket) : result (Block * DataPacket) :=
  if hasWire (dp_wire d) then Ok (dp_wire d, d)
  else if negb (Signature_present (dp_signature d)) then Err PacketError
  else
    let! value := encode (sg_value (dp_signature d)) in
    let! (info, _) := SignatureInfo_wire (sg_info (dp_signature d)) in
    let! content := getContent d in
    let! b := Encoder.block true (twoPass (fun E _ => Data_wireEncode value info content false d)) in
    let! d := Data_wireDecode b d in
    Ok (dp_wire d, d).

(** [Data::wireEncode(encoder, signatureValue)]: [e] holds the unsigned portion. *)
Definition Data_wire_signed (signatureValue : Block) (e : Encoder.t) (d : DataPacket) : result (Block * DataPacket) :=
  let size := Encoder.size e in
  let '(k, e) := appendBlock signatureValue e in
  let e := (prependVarNumber (size + k) e).2 in
  let e := (prependVarNumber TlvType.Data e).2 in
  let! b := Encoder.block true e in
  let! d := Data_wireDecode b d in
  Ok (dp_wire d, d).

Section FullName.
Context `{Sha256}.

(** [Data::getFullName]: the name, and the object, which keeps it *)
Definition Data_getFullName (d : DataPacket) : result (Name * DataPacket) :=
  if (length (dp_fullName d) =? 0)%nat then
    let! bytes := match wire (dp_wire d) with Ok bytes => Ok bytes | Err _ => Err PacketError end in
    let n := dp_name d ++ [MkComponent TlvType.ImplicitSha256DigestComponent (sha256 bytes)] in
    Ok (n, MkDataPacket (dp_name d) (dp_metaInfo d) (dp_content d) (dp_signature d) (dp_wire d) n)
  else Ok (dp_fullName d, d).

(** What the forwarder reads of a Data with an encoding; [noCache] is the tag
    that the link service sets. *)
Definition Data_view (noCache : bool) (d : DataPacket) : result Data :=
  let! bytes := wire (dp_wire d) in
  let! (info, _) := SignatureInfo_wire (sg_info (dp_signature d)) in
  Ok (MkData (dp_name d) (mi_freshnessPeriod (dp_metaInfo d)) info bytes noCache).
End FullName.

(** ** Round trip *)

(** The elements of a Data with the content [cv], the signature value [sv] and
    the further elements [os] of the signature information *)
Definition dp_elements (d : DataPacket) (os : list (Z * list Z)) (cv sv : list Z) : list (Z * list Z) :=
  [(TlvType.Name, wires (name_elements (dp_name d)));
   (TlvType.MetaInfo, wires (mi_elements (dp_metaInfo d)));
   (TlvType.Content, cv);
   (TlvType.SignatureInfo, wires (si_head (sg_info (dp_signature d)) ++ os));
   (TlvType.SignatureValue, sv)].

(** A Data that is complete: its parts can be encoded, and it is signed. *)
Record dp_ok (d : DataPacket) (os : list (Z * list Z)) (cv sv : list Z) : Prop := {
  do_name : name_ok (dp_name d);
  do_meta : mi_ok (dp_metaInfo d);
  do_content : exists c, getContent d = Ok c /\ wire c = Ok (tlv_wire TlvType.Content cv);
  do_info : si_ok (sg_info (dp_signature d));
  do_others : si_others (sg_info (dp_signature d)) os;
  do_infowire : exists b s, SignatureInfo_wire (sg_info (dp_signature d)) = Ok (b, s) /\
    wire b = Ok (tlv_wire TlvType.SignatureInfo (wires (si_head (sg_info (dp_signature d)) ++ os)));
  do_value : exists v, encode (sg_value (dp_signature d)) = Ok v /\ wire v = Ok (tlv_wire TlvType.SignatureValue sv);
  do_bytes : wf_bytes cv /\ wf_bytes sv;
  do_size : len (wires (dp_elements d os cv sv)) < U64
}.

(** What is read from the encoding of [d], into an object with the application
    elements [app0] *)
Record dp_read (d d' : DataPacket) (os : list (Z * list Z)) (cv sv : list Z) (app0 : list Block) : Prop := {
  dr_name : dp_name d' = dp_name d;
  dr_meta : exists app, mi_appMetaInfo (dp_metaInfo d') = app0 ++ app /\
    mi_same (dp_metaInfo d) (MkMetaInfo (mi_type (dp_metaInfo d')) (mi_freshnessPeriod (dp_metaInfo d')) (mi_finalBlockId (dp_metaInfo d')) app (mi_wire (dp_metaInfo d'))) /\
    Forall2 elem_ok app (map view (mi_appMetaInfo (dp_metaInfo d)));
  dr_content : elem_ok (dp_content d') (TlvType.Content, cv);
  dr_info : si_read (sg_info (dp_signature d)) SignatureInfo_new (sg_info (dp_signature d')) os;
  dr_value : elem_ok (sg_value (dp_signature d')) (TlvType.SignatureValue, sv);
  dr_wire : wire (dp_wire d') = Ok (tlv_wire TlvType.Data (wires (dp_elements d os cv sv)));
  dr_type : m_type (dp_wire d') = TlvType.Data
}.

Lemma wf_dp_elements d os cv sv : dp_ok d os cv sv -> wf_fields (dp_elements d os cv sv).
Proof.
  intros [Hn Hm _ Hs Ho _ _ [Hc Hv] Hl]. apply wf_fields_intro; [by_decide| |done]. unfold dp_elements. cbn [map snd].
  rewrite !Forall_cons. split_and!; [| |done| |done|constructor]; apply wf_fields_bytes;
    [done|by apply wf_mi_elements|by apply wf_si_elements].
Qed.

Lemma Data_decode_elem b d d0 os cv sv : elem_ok b (TlvType.Data, wires (dp_elements d os cv sv)) -> dp_ok d os cv sv ->
  exists d', Data_wireDecode b d0 = Ok d' /\ dp_read d d' os cv sv (mi_appMetaInfo (dp_metaInfo d0)).
Proof.
  intros Hb Hok. destruct (Block_parse_value b _ (ek_wf _ _ Hb) (ek_sub _ _ Hb) (elem_ok_value _ _ Hb) (wf_dp_elements _ _ _ _ Hok)) as (l&Hp&H2).
  set (w := set_subBlocks b l) in *. change l with (m_subBlocks w) in H2. unfold Data_wireDecode. rewrite Hp. cbn [rbind].
  destruct (get_elem w TlvType.Name _ _ H2 eq_refl) as (bn&->&Hbn). cbn [rbind]. rewrite (Name_decode_elem bn _ Hbn (do_name _ _ _ _ Hok)). cbn [rbind].
  destruct (get_elem w TlvType.MetaInfo _ _ H2 eq_refl) as (bm&->&Hbm). cbn [rbind].
  destruct (MetaInfo_decode_elem bm (dp_metaInfo d) (dp_metaInfo d0) Hbm (do_meta _ _ _ _ Hok)) as (m'&app&->&Happ&Hsame&_&Happ2). cbn [rbind].
  destruct (get_elem w TlvType.Content _ _ H2 eq_refl) as (bc&->&Hbc). cbn [rbind].
  destruct (get_elem w TlvType.SignatureInfo _ _ H2 eq_refl) as (bs&->&Hbs). cbn [rbind].
  destruct (SignatureInfo_decode_elem bs _ SignatureInfo_new os Hbs (do_info _ _ _ _ Hok) (do_others _ _ _ _ Hok)) as (s'&Hs&Hread).
  unfold Signature_setInfo. rewrite Hs. cbn [rbind].
  destruct (find_Some w TlvType.SignatureValue _ _ H2 eq_refl) as (bv&->&Hbv). unfold Signature_setValue. rewrite (elem_ok_type _ _ Hbv). cbn [fst].
  rewrite Z.eqb_refl. cbn [negb rbind]. eexists. split; [done|]. split; cbn; [done| |done|done|done|exact (ek_wire _ _ Hb)|exact (elem_ok_type _ _ Hb)].
  by exists app.
Qed.

Lemma Encodes_Data d os cv sv value info content : name_ok (dp_name d) -> mi_ok (dp_metaInfo d) ->
  wire value = Ok (tlv_wire TlvType.SignatureValue sv) -> wire content = Ok (tlv_wire TlvType.Content cv) ->
  wire info = Ok (tlv_wire TlvType.SignatureInfo (wires (si_head (sg_info (dp_signature d)) ++ os))) ->
  Encodes (fun E _ => Data_wireEncode value info content false d) (len (tlv_wire TlvType.Data (wires (dp_elements d os cv sv))))
    (tlv_wire TlvType.Data (wires (dp_elements d os cv sv))).
Proof.
  intros Hn Hm Hv Hc Hi. unfold Data_wireEncode. cbn [negb].
  assert (Hw : wires (dp_elements d os cv sv) = tlv_wire TlvType.Name (wires (name_elements (dp_name d))) ++
    tlv_wire TlvType.MetaInfo (wires (mi_elements (dp_metaInfo d))) ++ tlv_wire TlvType.Content cv ++
    tlv_wire TlvType.SignatureInfo (wires (si_head (sg_info (dp_signature d)) ++ os)) ++ tlv_wire TlvType.SignatureValue sv).
  { unfold dp_elements. rewrite !wires_cons. cbn [fst snd]. by rewrite wires_nil, app_nil_r. }
  eapply Encodes_eq.
  - eapply Encodes_bind; [by apply Encodes_wired|]. eapply Encodes_bind; [by apply Encodes_wired|].
    eapply Encodes_bind; [by apply Encodes_wired|]. eapply Encodes_bind; [by apply Encodes_MetaInfo|].
    eapply Encodes_bind; [by apply Encodes_Name|]. cbv zeta. apply (Encodes_tail _ TlvType.Data (wires (dp_elements d os cv sv))).
    rewrite Hw, !len_app. lia.
  - done.
  - rewrite (tlv_wire_unfold TlvType.Data), <- !app_assoc. do 2 f_equal. by rewrite Hw.
Qed.

Lemma Data_wire_ok d os cv sv : dp_ok d os cv sv -> hasWire (dp_wire d) = false ->
  exists b d', Data_wire d = Ok (b, d') /\ b = dp_wire d' /\ dp_read d d' os cv sv (mi_appMetaInfo (dp_metaInfo d)).
Proof.
  intros Hok Hw. unfold Data_wire. rewrite Hw.
  assert (Hp : Signature_present (dp_signature d) = true).
  { unfold Signature_present. pose proof (so_type _ (do_info _ _ _ _ Hok)). destruct (Z.eqb_spec (si_type (sg_info (dp_signature d))) (-1)); [lia|done]. }
  rewrite Hp. cbn [negb]. destruct (do_value _ _ _ _ Hok) as (v&->&Hv). cbn [rbind].
  destruct (do_infowire _ _ _ _ Hok) as (ib&s&->&Hi). cbn [rbind]. destruct (do_content _ _ _ _ Hok) as (c&->&Hc). cbn [rbind].
  destruct (Encodes_block _ _ _ (Encodes_Data d os cv sv v ib c (do_name _ _ _ _ Hok) (do_meta _ _ _ _ Hok) Hv Hc Hi)) as (b&->&Hb).
  { split; [by vm_compute|apply Hok]. }
  cbn [rbind]. destruct (Data_decode_elem b d d os cv sv) as (d'&->&Hr); [|done|].
  { apply (built_elem_ok _ _ _ Hb), wf_fields_bytes. by apply wf_dp_elements. }
  cbn [rbind]. by exists (dp_wire d'), d'.
Qed.

(** C39. A Data that is signed survives encoding and decoding: the bytes it is
    encoded to are read back as a Data with the same name, meta information,
    content and signature, whether the bytes of its signature information
    were kept or are written now; [os] is the order of its further elements. *)
Theorem data_roundtrip d os cv sv : dp_ok d os cv sv -> hasWire (dp_wire d) = false ->
  exists b d1 w r d2, Data_wire d = Ok (b, d1) /\ wire b = Ok w /\ Block_of_buffer w = Ok r /\
    DataPacket_of_block r = Ok d2 /\ dp_read d d2 os cv sv [].
Proof.
  intros Hok Hw. destruct (Data_wire_ok d os cv sv Hok Hw) as (b&d1&Hb&->&Hr).
  destruct (Block_of_buffer_built TlvType.Data (wires (dp_elements d os cv sv))) as (r&Hr'&Hbu); [split; [by vm_compute|apply Hok]|].
  destruct (Data_decode_elem r d (MkDataPacket [] MetaInfo_new Block_empty Signature_new Block_empty []) os cv sv) as (d2&Hd&Hr2); [|done|].
  { apply (built_elem_ok _ _ _ Hbu), wf_fields_bytes. by apply wf_dp_elements. }
  exists (dp_wire d1), d1, (tlv_wire TlvType.Data (wires (dp_elements d os cv sv))), r, d2. split_and!; try done. apply Hr.
Qed.

(** ** Encoding again *)

Lemma hasWire_of_wire b w : wire b = Ok w -> hasWire b = true.
Proof. unfold wire. by destruct (hasWire b). Qed.

(** The elements that are read are as good as those that were written. *)
Lemma elems_transfer (P : Z -> Prop) l l' es : Forall (fun b => elem_ok b (view b) /\ wf_element (view b) /\ wf_bytes (value b) /\ P (m_type b)) l ->
  es ≡ₚ map view l -> Forall2 elem_ok l' es ->
  Forall (fun b => elem_ok b (view b) /\ wf_element (view b) /\ wf_bytes (value b) /\ P (m_type b)) l'.
Proof.
  intros Hl Hes H2. assert (Hall : Forall (fun x => wf_element x /\ wf_bytes x.2 /\ P x.1) es).
  { rewrite Hes. apply Forall_map. eapply Forall_impl; [exact Hl|]. by intros b (_&?&?&?). }
  clear Hl Hes. induction H2 as [|b x l' es Hb H2 IH]; [constructor|]. apply Forall_cons in Hall as [(?&?&?) Hall].
  constructor; [|by apply IH]. rewrite (ek_view _ _ Hb), (elem_ok_value _ _ Hb), (elem_ok_type _ _ Hb). done.
Qed.

Lemma dp_ok_again d d' os cv sv : dp_ok d os cv sv -> dp_read d d' os cv sv (mi_appMetaInfo (dp_metaInfo d)) ->
  len (wires (dp_elements (onChanged d') os cv sv)) < U64 -> dp_ok (onChanged d') os cv sv.
Proof.
  intros Hok [Hn (app&Happ&[Ht Hf Hfi Ha]&H2) Hc Hi Hv Hwi _] Hl. cbn in Ht, Hf, Hfi, Ha. destruct Hi as [It Ih Ik (l&Io&I2) Iw _]. cbn in Io.
  pose proof (do_meta _ _ _ _ Hok) as [Mt Mf Mfi Ma]. pose proof (do_info _ _ _ _ Hok) as [St Sl So].
  assert (Hhead : si_head (sg_info (dp_signature d')) = si_head (sg_info (dp_signature d))).
  { unfold si_head. rewrite It, Ih. destruct (si_hasKeyLocator (sg_info (dp_signature d))) eqn:Hk; [|done]. cbn [opt_elem]. do 4 f_equal.
    apply kl_same_elements. by apply Ik. }
  split; cbn [onChanged dp_name dp_metaInfo dp_content dp_signature]; [rewrite Hn; apply Hok| | | | | | |apply Hok|done].
  - split; [by rewrite Ht|rewrite Hf; case_bool; [lia|by vm_compute]| |].
    + destruct (Component_empty (mi_finalBlockId (dp_metaInfo d))) eqn:He; [by left|rewrite Hfi]. by destruct Mfi as [?|?]; [left|right].
    + rewrite Happ. apply Forall_app. split; [done|]. by eapply (elems_transfer (fun t => isAppType t = true)); [exact Ma| |exact H2].
  - exists (dp_content d'). unfold getContent. cbn. assert (He : Block_empty_test (dp_content d') = false).
    { unfold Block_empty_test. rewrite (elem_ok_type _ _ Hc). by vm_compute. }
    rewrite He. cbn [rbind]. rewrite (hasWire_of_wire _ _ (ek_wire _ _ Hc)). split; [done|apply Hc].
  - split; [by rewrite It| |].
    + rewrite Ih. intros Hk. destruct (Sl Hk) as [Kk Kl]. rewrite (kl_same_elements _ _ (Ik Hk)). split; [|done]. by eapply kl_same_ok, Ik.
    + rewrite Io. eapply (elems_transfer (fun t => t <> TlvType.KeyLocator)); [exact So|exact (do_others _ _ _ _ Hok)|exact I2].
  - unfold si_others. rewrite Io. by rewrite (elem_ok_views _ _ I2).
  - exists (si_wire (sg_info (dp_signature d'))), (sg_info (dp_signature d')). unfold SignatureInfo_wire.
    rewrite (hasWire_of_wire _ _ Iw), Hhead. done.
  - exists (sg_value (dp_signature d')). unfold encode. rewrite (hasWire_of_wire _ _ (ek_wire _ _ Hv)). split; [done|apply Hv].
Qed.

(** Encoding a Data changes it: the block is decoded into the same object,
    whose application elements are not cleared first, so it has each of them
    twice; when it is changed and encoded again, they are on the wire twice. *)
Theorem data_encode_duplicates_meta d os cv sv : dp_ok d os cv sv -> hasWire (dp_wire d) = false ->
  exists b d1, Data_wire d = Ok (b, d1) /\
    map view (mi_appMetaInfo (dp_metaInfo d1)) = map view (mi_appMetaInfo (dp_metaInfo d)) ++ map view (mi_appMetaInfo (dp_metaInfo d)) /\
    (len (wires (dp_elements (onChanged d1) os cv sv)) < U64 ->
     exists b2 d2, Data_wire (onChanged d1) = Ok (b2, d2) /\
       wire b2 = Ok (tlv_wire TlvType.Data (wires (dp_elements (onChanged d1) os cv sv)))).
Proof.
  intros Hok Hw. destruct (Data_wire_ok d os cv sv Hok Hw) as (b&d1&Hb&->&Hr). exists (dp_wire d1), d1. split_and!; [done| |].
  - destruct (dr_meta _ _ _ _ _ _ Hr) as (app&->&_&H2). by rewrite map_app, (elem_ok_views _ _ H2).
  - intros Hl. destruct (Data_wire_ok (onChanged d1) os cv sv (dp_ok_again d d1 os cv sv Hok Hr Hl)) as (b2&d2&Hb2&->&Hr2); [done|].
    exists (dp_wire d2), d2. split; [done|apply Hr2].
Qed.

(** ** A signed Data *)

Module DataSamples.
Definition app_info : Block := Eval vm_compute in from_ok Block_empty (makeBinaryBlock 200 [9]).
Definition signature_value : Block := Eval vm_compute in from_ok Block_empty (makeBinaryBlock TlvType.SignatureValue [7; 7]).
Definition meta : MetaInfo := from_ok MetaInfo_new (addAppMetaInfo app_info (setFreshnessPeriod 1000 MetaInfo_new)).
Definition content : list Z := replicate 100 66.

(** [/A], fresh for a second, with a digest signature and an element of the
    application *)
Definition data : DataPacket := Eval vm_compute in
  Data_setSignature (MkSignature (MkSignatureInfo 0 false KeyLocator_new [] Block_empty) signature_value)
    (from_ok DataPacket_new (Data_setContent_bytes content (Data_setMetaInfo meta (DataPacket_of_name [MkComponent TlvType.NameComponent [65]])))).

Lemma dp_ok_data : dp_ok data [] content [7; 7].
Proof.
  split.
  - by_decide.
  - split; [by vm_compute|by vm_compute|left; by vm_compute|]. change (mi_appMetaInfo (dp_metaInfo data)) with [app_info]. rewrite Forall_cons. split_and!; [by_elem|by_decide|by_decide|by vm_compute|constructor].
  - eexists. split; [vm_compute; reflexivity|vm_compute; reflexivity].
  - split; [by vm_compute|discriminate|constructor].
  - unfold si_others. reflexivity.
  - eexists _, _. split; [vm_compute; reflexivity|vm_compute; reflexivity].
  - eexists. split; [vm_compute; reflexivity|vm_compute; reflexivity].
  - split; by_decide.
  - vm_compute; reflexivity.
Qed.

Lemma data_roundtrip_witness : exists b d1 w r d2, Data_wire data = Ok (b, d1) /\ wire b = Ok w /\ Block_of_buffer w = Ok r /\
  DataPacket_of_block r = Ok d2 /\ dp_read data d2 [] content [7; 7] [].
Proof. apply data_roundtrip; [exact dp_ok_data|reflexivity]. Defined.

Lemma data_encode_duplicates_meta_witness : exists b d1, Data_wire data = Ok (b, d1) /\
  map view (mi_appMetaInfo (dp_metaInfo d1)) = [(200, [9]); (200, [9])] /\
  exists b2 d2, Data_wire (onChanged d1) = Ok (b2, d2) /\
    wire b2 = Ok (tlv_wire TlvType.Data (wires (dp_elements (onChanged d1) [] content [7; 7]))).
Proof.
  destruct (data_encode_duplicates_meta data [] content [7; 7]) as (b&d1&Hb&Hm&H2); [exact dp_ok_data|reflexivity|].
  exists b, d1. split; [exact Hb|]. split; [rewrite Hm; reflexivity|]. apply H2.
  assert (Heq : Data_wire data = Ok (b, d1)) by exact Hb. vm_compute in Heq. injection Heq as _ <-. vm_compute. reflexivity.
Defined.
End DataSamples.
