(* ===== verification/Link.v ===== *)
(** * Link objects: [ndn-cxx/src/link.cpp]

    A link is a Data whose content lists delegations, pairs of a preference and
    a name.  The object keeps them as an ordered set; the functions on the wire
    number them in the order of the encoding. *)

From S2P Require Import Prelude StdMap Tlv Block Encoder Elements NameComponent Name KeyLocator Exclude MetaInfo SignatureInfo Packet DataPacket.

(** ** The set of delegations *)

(** [std::set<std::pair<uint32_t, Name>>] *)
Definition delegation_lt (a b : Z * Name) : bool :=
  (a.1 <? b.1) || ((a.1 =? b.1) && (Name_compare a.2 b.2 <? 0)).

Fixpoint delegation_insert (d : Z * Name) (l : list (Z * Name)) : list (Z * Name) :=
  match l with
  | [] => [d]
  | x :: l' =>
      if delegation_lt d x then d :: l
      else if delegation_lt x d then x :: delegation_insert d l'
      else l
  end.

(** The set of delegations inserted one after the other *)
Definition getDelegations (link : list (Z * Name)) : list (Z * Name) :=
  fold_left (fun s d => delegation_insert d s) link [].

Record Link := MkLink { lk_data : DataPacket; lk_delegations : list (Z * Name) }.

(** ** Content *)

Section Encode.
Context {E : Type} `{EncodingImpl E}.

Definition encode_delegation (delegation : Z * Name) : state E Z :=
  let~ l1 := Name_wireEncode delegation.2 in
  let~ l2 := prependNonNegativeIntegerBlock TlvType.LinkPreference delegation.1 in
  let delegationLength := l1 + l2 in
  let~ l3 := prependVarNumber delegationLength in
  let~ l4 := prependVarNumber TlvType.LinkDelegation in
  sret (delegationLength + l3 + l4).

Fixpoint encode_delegations (l : list (Z * Name)) (totalLength : Z) : state E Z :=
  match l with
  | [] => sret totalLength
  | d :: l' => let~ k := encode_delegation d in encode_delegations l' (totalLength + k)
  end.

Definition encodeContent (delegations : list (Z * Name)) : state E Z :=
  let~ totalLength := encode_delegations (rev delegations) 0 in
  let~ l1 := prependVarNumber totalLength in
  let~ l2 := prependVarNumber TlvType.Content in
  sret (totalLength + l1 + l2).
End Encode.

(** [Link::encodeContent()] *)
Definition Link_encodeContent (l : Link) : result Link :=
  let! b := Encoder.block true (twoPass (fun E _ => encodeContent (lk_delegations l))) in
  let! d := Data_setContent_block b (Data_setContentType TlvType.ContentType_Link (onChanged (lk_data l))) in
  Ok (MkLink d (lk_delegations l)).

(** [Link::Link(name, links)] *)
Definition Link_of (n : Name) (links : list (Z * Name)) : result Link :=
  Link_encodeContent (MkLink (DataPacket_of_name n) (getDelegations links)).

Definition removeDelegationNoEncode (n : Name) (l : Link) : bool * Link :=
  (existsb (fun d => Name_equals d.2 n) (lk_delegations l),
   MkLink (lk_data l) (List.filter (fun d => negb (Name_equals d.2 n)) (lk_delegations l))).

Definition addDelegation (preference : Z) (n : Name) (l : Link) : result Link :=
  let l := (removeDelegationNoEncode n l).2 in
  Link_encodeContent (MkLink (lk_data l) (delegation_insert (preference, n) (lk_delegations l))).

Definition removeDelegation (n : Name) (l : Link) : result (bool * Link) :=
  let '(hasRemoved, l) := removeDelegationNoEncode n l in
  if hasRemoved then let! l := Link_encodeContent l in Ok (true, l) else Ok (false, l).

(** ** Decoding *)

(** [Name::Name(const Block&)] does not check the type. *)
Definition Name_of_Block (b : Block) : result Name :=
  let! w := Block_parse b in Ok (Name_of_elements w).

(** A delegation: its first element is read as the preference and its second as
    the name, whatever their types and that of the delegation. *)
Definition decode_delegation (delegation : Block) : result (Z * Name) :=
  let! w := Block_parse delegation in
  match m_subBlocks w with
  | [] => Err PacketError
  | p :: l =>
      match readNonNegativeIntegerBlock p with
      | Err _ => Err PacketError
      | Ok preference =>
          match l with
          | [] => Err PacketError
          | n :: _ => let! name := Name_of_Block n in Ok (to_u32 preference, name)
          end
      end
  end.

Fixpoint decode_delegations (l : list Block) : result (list (Z * Name)) :=
  match l with
  | [] => Ok []
  | b :: l' => let! d := decode_delegation b in let! ds := decode_delegations l' in Ok (d :: ds)
  end.

(** The delegations of [decodeContent], in the order of the encoding *)
Definition decodeContent (d : DataPacket) : result (list (Z * Name)) :=
  if negb (mi_type (dp_metaInfo d) =? TlvType.ContentType_Link) then Err PacketError
  else
    let! content := getContent d in
    let! content := Block_parse content in
    decode_delegations (m_subBlocks content).

(** [Link::wireDecode] of the object [l] *)
Definition Link_wireDecode (wire : Block) (l : Link) : result Link :=
  let! d := Data_wireDecode wire (lk_data l) in
  let! ds := decodeContent d in
  Ok (MkLink d (fold_left (fun s x => delegation_insert x s) ds (lk_delegations l))).

(** [Link::Link(const Block&)] *)
Definition Link_of_block (wire : Block) : result Link :=
  Link_wireDecode wire (MkLink (MkDataPacket [] MetaInfo_new Block_empty Signature_new Block_empty []) []).

(** ** Access to the wire *)

(** The elements of the content *)
Definition delegation_blocks (block : Block) : result (list Block) :=
  let! b := Block_parse block in
  let! content := get b TlvType.Content in
  let! content := Block_parse content in
  Ok (m_subBlocks content).

Definition countDelegationsFromWire (block : Block) : result Z :=
  let! l := delegation_blocks block in Ok (len l).

Definition delegation_name (delegationBlock : Block) : result (Block * Name) :=
  let! b := Block_parse delegationBlock in
  if negb (m_type b =? TlvType.LinkDelegation) then Err PacketError
  else let! x := get b TlvType.Name in let! n := Name_of_Block x in Ok (b, n).

Definition getDelegationFromWire (block : Block) (index : nat) : result (Z * Name) :=
  let! l := delegation_blocks block in
  match l !! index with
  | None => Err OutOfRange
  | Some delegationBlock =>
      let! b := Block_parse delegationBlock in
      if negb (m_type b =? TlvType.LinkDelegation) then Err PacketError
      else
        let! x := get b TlvType.LinkPreference in
        let! preference := readNonNegativeIntegerBlock x in
        let! y := get b TlvType.Name in
        let! n := Name_of_Block y in
        Ok (to_u32 preference, n)
  end.

Fixpoint find_delegation (n : Name) (counter : nat) (l : list Block) : result (option nat) :=
  match l with
  | [] => Ok None
  | delegationBlock :: l' =>
      let! (_, name) := delegation_name delegationBlock in
      if Name_equals name n then Ok (Some counter) else find_delegation n (S counter) l'
  end.

(** [None] is [INVALID_SELECTED_DELEGATION_INDEX]. *)
Definition findDelegationFromWire (block : Block) (delegationName : Name) : result (option nat) :=
  let! l := delegation_blocks block in find_delegation delegationName 0 l.

(** ** Properties *)

Definition delegation_elements (d : Z * Name) : list (Z * list Z) :=
  [(TlvType.LinkPreference, encoderIntegerBytes d.1); (TlvType.Name, wires (name_elements d.2))].

(** The elements of the content *)
Definition link_elements (ds : list (Z * Name)) : list (Z * list Z) :=
  map (fun d => (TlvType.LinkDelegation, wires (delegation_elements d))) ds.

Definition delegation_ok (d : Z * Name) : Prop := 0 <= d.1 < U32 /\ name_ok d.2 /\ len (wires (name_elements d.2)) < 2 ^ 60.

Lemma wf_delegation d : delegation_ok d -> wf_fields (delegation_elements d).
Proof.
  intros (Hp&Hn&Hl). apply wf_fields_cons. split; [apply wf_integer_field; [by vm_compute|lia]|].
  apply wf_fields_cons. split; [split; [split; [by vm_compute|simpl; unfold U64; lia]|by apply wf_fields_bytes]|split; constructor].
Qed.

Lemma len_integer_bytes n : len (encoderIntegerBytes n) <= 8.
Proof. rewrite len_encoderIntegerBytes. unfold encoderIntegerSize. repeat case_bool; lia. Qed.

Lemma wf_link_elements ds : Forall delegation_ok ds -> wf_fields (link_elements ds).
Proof.
  intros Hds. unfold link_elements. split; apply Forall_map; (eapply Forall_impl; [exact Hds|]); intros d Hd; cbn [snd].
  - destruct Hd as (Hp&Hn&Hl). split; [by vm_compute|]. cbn [snd]. unfold delegation_elements. rewrite !wires_cons, wires_nil, app_nil_r, len_app.
    unfold tlv_wire. rewrite !len_app, !len_writeVarNumber. pose proof (len_integer_bytes d.1). unfold sizeOfVarNumber, U64. repeat case_bool; lia.
  - by apply wf_fields_bytes, wf_delegation.
Qed.

Lemma Encodes_delegation d :
  Encodes (fun E _ => encode_delegation d) (len (tlv_wire TlvType.LinkDelegation (wires (delegation_elements d))))
    (tlv_wire TlvType.LinkDelegation (wires (delegation_elements d))).
Proof.
  assert (Hw : wires (delegation_elements d) = tlv_wire TlvType.LinkPreference (encoderIntegerBytes d.1) ++ tlv_wire TlvType.Name (wires (name_elements d.2))).
  { unfold delegation_elements. by rewrite !wires_cons, wires_nil, app_nil_r. }
  unfold encode_delegation. eapply Encodes_eq.
  - eapply Encodes_bind; [apply Encodes_Name|]. eapply Encodes_bind; [apply Encodes_IntegerBlock|]. cbv zeta.
    apply (Encodes_tail _ TlvType.LinkDelegation (wires (delegation_elements d))). rewrite Hw, len_app. lia.
  - done.
  - rewrite (tlv_wire_unfold TlvType.LinkDelegation), <- !app_assoc. do 2 f_equal. by rewrite Hw.
Qed.

Lemma Encodes_delegations l : forall k,
  Encodes (fun E _ => encode_delegations l k) (k + len (wires (link_elements (rev l)))) (wires (link_elements (rev l))).
Proof.
  induction l as [|d l IH]; intros k; cbn [encode_delegations rev].
  - eapply Encodes_eq; [apply Encodes_ret|unfold len; simpl; lia|done].
  - unfold link_elements in *. eapply Encodes_eq; [eapply Encodes_bind; [apply Encodes_delegation|apply IH]|..];
      rewrite map_app, wires_app; cbn [map]; rewrite wires_single; cbn [fst snd]; [rewrite len_app; lia|done].
Qed.

Lemma Encodes_content ds :
  Encodes (fun E _ => encodeContent ds) (len (tlv_wire TlvType.Content (wires (link_elements ds)))) (tlv_wire TlvType.Content (wires (link_elements ds))).
Proof.
  unfold encodeContent. apply Encodes_header. eapply Encodes_eq; [apply Encodes_delegations|by rewrite rev_involutive|by rewrite rev_involutive].
Qed.

(** Decoding the elements of a delegation *)
Lemma parse_delegation b d : elem_ok b (TlvType.LinkDelegation, wires (delegation_elements d)) -> delegation_ok d ->
  exists w p n, Block_parse b = Ok w /\ m_type w = TlvType.LinkDelegation /\ m_subBlocks w = [p; n] /\
    m_type p = TlvType.LinkPreference /\ m_type n = TlvType.Name /\ readNonNegativeIntegerBlock p = Ok d.1 /\ Name_of_Block n = Ok d.2.
Proof.
  intros Hb Hd. destruct (Block_parse_value b _ (ek_wf _ _ Hb) (ek_sub _ _ Hb) (elem_ok_value _ _ Hb) (wf_delegation d Hd)) as (l&Hp&H2).
  destruct l as [|p [|n [|? l]]]; [by inversion H2|by apply Forall2_cons in H2 as [_ H2]; inversion H2| |].
  2: { apply Forall2_cons in H2 as [_ H2]. apply Forall2_cons in H2 as [_ H2]. inversion H2. }
  apply Forall2_cons in H2 as [H1 H2]. apply Forall2_cons in H2 as [Hn _]. destruct Hd as (Hpr&Hno&_).
  exists (set_subBlocks b [p; n]), p, n. split_and!; [done|apply (elem_ok_type _ _ Hb)|done|apply (elem_ok_type _ _ H1)|apply (elem_ok_type _ _ Hn)| |].
  - apply (read_integer_elem p _ _ H1). width_lia.
  - pose proof (Name_decode_elem n d.2 Hn Hno) as Hdec. unfold Name_wireDecode in Hdec. rewrite (elem_ok_type _ _ Hn) in Hdec. simpl in Hdec.
    unfold Name_of_Block, Block_parse. destruct (parse n) as [w [x|]]; [done|]. exact Hdec.
Qed.

Lemma decode_delegation_elem b d : elem_ok b (TlvType.LinkDelegation, wires (delegation_elements d)) -> delegation_ok d -> decode_delegation b = Ok d.
Proof.
  intros Hb Hd. destruct (parse_delegation b d Hb Hd) as (w&p&n&Hw&_&Hs&_&_&Hr&Hn). unfold decode_delegation. rewrite Hw. cbn [rbind].
  rewrite Hs, Hr, Hn. cbn [rbind]. unfold to_u32. destruct Hd as (Hp&_). rewrite Z.mod_small by done. by destruct d.
Qed.

Lemma decode_delegations_elems l ds : Forall2 elem_ok l (link_elements ds) -> Forall delegation_ok ds -> decode_delegations l = Ok ds.
Proof.
  revert l. induction ds as [|d ds IH]; intros l H2 Hds; destruct l as [|b l]; [done|by inversion H2|by inversion H2|].
  apply Forall2_cons in H2 as [Hb H2]. apply Forall_cons in Hds as [Hd Hds]. cbn [decode_delegations].
  rewrite (decode_delegation_elem b d Hb Hd). cbn [rbind]. by rewrite (IH l H2 Hds).
Qed.

Lemma delegation_blocks_elem b les ds : elem_ok b (TlvType.Data, wires les) -> wf_fields les ->
  find_elem TlvType.Content les = Some (wires (link_elements ds)) -> Forall delegation_ok ds ->
  exists l, delegation_blocks b = Ok l /\ Forall2 elem_ok l (link_elements ds).
Proof.
  intros Hb Hw Hf Hds. destruct (Block_parse_value b _ (ek_wf _ _ Hb) (ek_sub _ _ Hb) (elem_ok_value _ _ Hb) Hw) as (l&Hp&H2).
  unfold delegation_blocks. rewrite Hp. cbn [rbind]. destruct (get_elem (set_subBlocks b l) TlvType.Content les _ H2 Hf) as (c&->&Hc). cbn [rbind].
  destruct (Block_parse_value c _ (ek_wf _ _ Hc) (ek_sub _ _ Hc) (elem_ok_value _ _ Hc) (wf_link_elements ds Hds)) as (k&->&Hk). cbn [rbind]. by exists k.
Qed.

(** The index of the first delegation to a name *)
Fixpoint delegation_index (n : Name) (k : nat) (ds : list (Z * Name)) : option nat :=
  match ds with
  | [] => None
  | d :: ds' => if Name_equals d.2 n then Some k else delegation_index n (S k) ds'
  end.

Lemma find_delegation_elems n l ds : forall k, Forall2 elem_ok l (link_elements ds) -> Forall delegation_ok ds ->
  find_delegation n k l = Ok (delegation_index n k ds).
Proof.
  revert l. induction ds as [|d ds IH]; intros l k H2 Hds; destruct l as [|b l]; [done|by inversion H2|by inversion H2|].
  apply Forall2_cons in H2 as [Hb H2]. apply Forall_cons in Hds as [Hd Hds]. cbn [find_delegation delegation_index].
  destruct (parse_delegation b d Hb Hd) as (w&p&x&Hw&Ht&Hs&Hpt&Hxt&_&Hn). unfold delegation_name. rewrite Hw. cbn [rbind]. rewrite Ht. cbn.
  unfold get, find. rewrite Hs. cbn [List.find]. rewrite Hpt, Hxt. cbn. rewrite Hn. cbn [rbind]. destruct (Name_equals d.2 n); [done|by apply IH].
Qed.

(** A link on the wire: what the object is decoded to is the set of the
    delegations that the content was encoded from, and the functions that read
    the wire without decoding it return their number, the delegation of an
    index, and the index of the first delegation to a name. *)
Theorem link_wire_access b les ds : elem_ok b (TlvType.Data, wires les) -> wf_fields les ->
  find_elem TlvType.Content les = Some (wires (link_elements ds)) -> Forall delegation_ok ds ->
  (exists c, Encoder.block true (twoPass (fun E _ => encodeContent ds)) = Ok c /\ view c = (TlvType.Content, wires (link_elements ds)) /\
     exists w, Block_parse c = Ok w /\ decode_delegations (m_subBlocks w) = Ok ds) /\
  countDelegationsFromWire b = Ok (len ds) /\
  (forall k, getDelegationFromWire b k = match ds !! k with Some d => Ok d | None => Err OutOfRange end) /\
  (forall n, findDelegationFromWire b n = Ok (delegation_index n 0 ds)).
Proof.
  intros Hb Hw Hf Hds. destruct (delegation_blocks_elem b les ds Hb Hw Hf Hds) as (l&Hl&H2). split_and!.
  - assert (Hel : wf_element (TlvType.Content, wires (link_elements ds))).
    { split; [by vm_compute|]. destruct Hw as [Hw _]. unfold find_elem in Hf. destruct (List.find _ les) as [x|] eqn:Hx; [|done].
      injection Hf as Hf. apply List.find_some in Hx as [Hx _]. apply list_elem_of_In in Hx. rewrite Forall_forall in Hw. rewrite <- Hf. apply (Hw x Hx). }
    destruct (Encodes_block _ _ _ (Encodes_content ds) Hel) as (c&Hc&Hbu). exists c. split_and!; [done|apply Hbu|].
    pose proof (built_elem_ok _ _ _ Hbu (wf_fields_bytes _ (wf_link_elements ds Hds))) as Hce.
    destruct (Block_parse_value c _ (ek_wf _ _ Hce) (ek_sub _ _ Hce) (elem_ok_value _ _ Hce) (wf_link_elements ds Hds)) as (k&Hk&Hk2).
    exists (set_subBlocks c k). split; [done|]. by apply decode_delegations_elems.
  - unfold countDelegationsFromWire. rewrite Hl. cbn [rbind]. f_equal. apply Forall2_length in H2. unfold link_elements, len in *.
    rewrite length_map in H2. lia.
  - intros k. unfold getDelegationFromWire. rewrite Hl. cbn [rbind]. destruct (ds !! k) as [d|] eqn:Hk.
    + assert (He : link_elements ds !! k = Some (TlvType.LinkDelegation, wires (delegation_elements d))).
      { unfold link_elements. by rewrite list_lookup_fmap, Hk. }
      destruct (Forall2_lookup_r _ _ _ _ _ H2 He) as (x&->&Hx). rewrite Forall_forall in Hds. pose proof (Hds d ltac:(by eapply list_elem_of_lookup_2)) as Hd.
      destruct (parse_delegation x d Hx Hd) as (w&p&n&->&Ht&Hs&Hpt&Hnt&Hr&Hn). cbn [rbind]. rewrite Ht. cbn. unfold get, find. rewrite Hs. cbn [List.find].
      rewrite Hpt, Hnt. cbn. rewrite Hr. cbn [rbind]. rewrite Hn. cbn [rbind]. unfold to_u32. destruct Hd as (Hp&_). rewrite Z.mod_small by done. by destruct d.
    + apply lookup_ge_None in Hk. apply Forall2_length in H2. unfold link_elements in H2. rewrite length_map in H2.
      rewrite (proj2 (lookup_ge_None l k)) by lia. done.
  - intros n. unfold findDelegationFromWire. rewrite Hl. cbn [rbind]. by apply find_delegation_elems.
Qed.

(** ** A link with two delegations *)

Module LinkSamples.
Definition delegations : list (Z * Name) := [(10, [MkComponent TlvType.NameComponent [66]]); (20, [MkComponent TlvType.NameComponent [67]; MkComponent TlvType.NameComponent []])].
Definition link_fields : list (Z * list Z) :=
  [(TlvType.Name, [8; 1; 65]); (TlvType.MetaInfo, [24; 1; 1]); (TlvType.Content, wires (link_elements delegations))].
Definition link : Block := Eval vm_compute in from_ok Block_empty (Block_of_buffer (tlv_wire TlvType.Data (wires link_fields))).

Lemma delegations_ok : Forall delegation_ok delegations.
Proof.
  unfold delegations. rewrite !Forall_cons. split; [|split; [|constructor]].
  all: split; [by vm_compute|split; [by_decide|by vm_compute]].
Qed.

Lemma link_wire_access_witness : countDelegationsFromWire link = Ok 2 /\
  getDelegationFromWire link 1 = Ok (20, [MkComponent TlvType.NameComponent [67]; MkComponent TlvType.NameComponent []]) /\
  getDelegationFromWire link 2 = Err OutOfRange /\ findDelegationFromWire link [MkComponent TlvType.NameComponent [66]] = Ok (Some 0%nat).
Proof.
  destruct (link_wire_access link link_fields delegations) as (_&Hc&Hg&Hf); [by_elem|by_decide|reflexivity|exact delegations_ok|].
  split; [exact Hc|]. split; [exact (Hg 1%nat)|]. split; [exact (Hg 2%nat)|]. rewrite Hf. reflexivity.
Defined.
End LinkSamples.
