(* ===== verification/InterestPacket.v ===== *)
(** * Interests on the wire: [ndn-cxx/src/interest.cpp] and [selectors.cpp]

    An Interest keeps the block it was decoded from; its nonce is a block in
    the same buffer, so that [setNonce] can change it in place.  The record
    [Interest] of [Packet] is what the forwarder reads of it. *)

From S2P Require Import Prelude StdMap Tlv Block Encoder Elements NameComponent Name KeyLocator Exclude Packet MetaInfo DataPacket Link.

(** ** Selectors *)

Definition find_integer (w : Block) (type : Z) : result (option Z) :=
  match find w type with
  | Some x => let! n := readNonNegativeIntegerBlock x in Ok (Some n)
  | None => Ok None
  end.

(** [Selectors::wireDecode]: the integers are truncated to [int]. *)
Definition Selectors_wireDecode (wire' : Block) : result Selectors :=
  if negb (m_type wire' =? TlvType.Selectors) then Err PacketError
  else
    let! w := Block_parse wire' in
    let! minS := find_integer w TlvType.MinSuffixComponents in
    let! maxS := find_integer w TlvType.MaxSuffixComponents in
    let! k := match find w TlvType.KeyLocator with
              | Some x => KeyLocator_wireDecode x KeyLocator_new
              | None => Ok KeyLocator_new
              end in
    let! exclude := match find w TlvType.Exclude with
                    | Some x => Exclude_wireDecode x
                    | None => Ok (MkExclude [] None)
                    end in
    let! child := find_integer w TlvType.ChildSelector in
    let mustBeFresh := match find w TlvType.MustBeFresh with Some _ => true | None => false end in
    Ok (MkSelectors (from_option to_s32 (-1) minS) (from_option to_s32 (-1) maxS) k exclude
          (from_option to_s32 (-1) child) mustBeFresh (match wire w with Ok bytes => Some bytes | Err _ => None end)).

(** ** Interests *)

(** [None] is [INVALID_SELECTED_DELEGATION_INDEX]. *)
Record InterestPacket := MkInterestPacket {
  ip_name : Name;
  ip_selectors : Selectors;
  ip_nonce : Block;
  ip_interestLifetime : Z;
  ip_link : Block;
  ip_selectedDelegation : option nat;
  ip_wire : Block
}.

(** [Interest::Interest(name, lifetime)] *)
Definition InterestPacket_of_name (n : Name) (lifetime : Z) : InterestPacket :=
  MkInterestPacket n Selectors_default Block_empty lifetime Block_empty None Block_empty.

Definition hasNonce (i : InterestPacket) : bool := hasWire (ip_nonce i).
Definition hasLink (i : InterestPacket) : bool := hasWire (ip_link i).

(** ** Decoding *)

Definition Interest_wireDecode (wire' : Block) : result InterestPacket :=
  let! w := Block_parse wire' in
  if negb (m_type w =? TlvType.Interest) then Err PacketError
  else
    let! b := get w TlvType.Name in
    let! name := Name_wireDecode b in
    let! selectors := match find w TlvType.Selectors with
                      | Some x => Selectors_wireDecode x
                      | None => Ok Selectors_default
                      end in
    let! nonce := get w TlvType.Nonce in
    let! lifetime := find_integer w TlvType.InterestLifetime in
    let link := default Block_empty (find w TlvType.Data) in
    let! selected := match find w TlvType.SelectedDelegation with
                     | None => Ok None
                     | Some x =>
                         if negb (hasWire link) then Err PacketError
                         else
                           let! n := readNonNegativeIntegerBlock x in
                           let! count := countDelegationsFromWire link in
                           if n <? count then Ok (Some (Z.to_nat n)) else Err PacketError
                     end in
    Ok (MkInterestPacket name selectors nonce (from_option to_s64 DEFAULT_INTEREST_LIFETIME lifetime) link selected w).

(** ** The nonce *)

(** [uint32_t] in the byte order of the host, little-endian *)
Definition le_bytes (n : Z) : list Z := rev (be_encode 4 n).
Definition le_value (l : list Z) : Z := be_decode (rev l).

(** [memcpy] into the buffer of a block and of its elements *)
Definition patch (off : nat) (bytes : list Z) (buffer : list Z) : list Z :=
  take off buffer ++ bytes ++ drop (off + length bytes) buffer.

Fixpoint patch_block (off : nat) (bytes : list Z) (b : Block) : Block :=
  match b with
  | MkBlock buffer t bb be sz vb ve subs =>
      MkBlock (patch off bytes <$> buffer) t bb be sz vb ve (map (patch_block off bytes) subs)
  end.

Definition with_nonce (nonce : Block) (w : Block) (i : InterestPacket) : InterestPacket :=
  MkInterestPacket (ip_name i) (ip_selectors i) nonce (ip_interestLifetime i) (ip_link i) (ip_selectedDelegation i) w.

(** [Interest::setNonce]: the nonce of an Interest with an encoding is changed in
    the buffer that its blocks share. *)
Definition setNonce (nonce : Z) (i : InterestPacket) : result InterestPacket :=
  if hasWire (ip_wire i) && (value_size (ip_nonce i) =? 4) then
    let off := m_value_begin (ip_nonce i) in
    Ok (with_nonce (patch_block off (le_bytes nonce) (ip_nonce i)) (patch_block off (le_bytes nonce) (ip_wire i)) i)
  else
    let! b := makeBinaryBlock TlvType.Nonce (le_bytes nonce) in
    Ok (with_nonce b (reset (ip_wire i)) i).

(** [Interest::getNonce]; [word] is what [random::generateWord32] returns. *)
Definition getNonce (word : Z) (i : InterestPacket) : result (Z * InterestPacket) :=
  let! i := if hasNonce i then Ok i else setNonce word i in
  if value_size (ip_nonce i) =? 4 then Ok (le_value (value (ip_nonce i)), i)
  else let! n := readNonNegativeIntegerBlock (ip_nonce i) in Ok (to_u32 n, i).

(** [Interest::refreshNonce]; [words] are the random words that are drawn, of
    which the first that differs from the nonce is used. *)
Definition refreshNonce (words : list Z) (i : InterestPacket) : result InterestPacket :=
  if negb (hasNonce i) then Ok i
  else
    let! (oldNonce, i) := getNonce 0 i in
    match List.find (fun w => negb (w =? oldNonce)) words with
    | Some newNonce => setNonce newNonce i
    | None => Err OutOfRange
    end.

(** ** The link *)

Definition unsetSelectedDelegation (i : InterestPacket) : InterestPacket :=
  MkInterestPacket (ip_name i) (ip_selectors i) (ip_nonce i) (ip_interestLifetime i) (ip_link i) None (reset (ip_wire i)).

Definition setLink (link : Block) (i : InterestPacket) : result InterestPacket :=
  if negb (hasWire link) then Err PacketError
  else Ok (MkInterestPacket (ip_name i) (ip_selectors i) (ip_nonce i) (ip_interestLifetime i) link None (reset (ip_wire i))).

Definition unsetLink (i : InterestPacket) : InterestPacket :=
  MkInterestPacket (ip_name i) (ip_selectors i) (ip_nonce i) (ip_interestLifetime i) (reset (ip_link i)) None (reset (ip_wire i)).

Definition getLink (i : InterestPacket) : result Link := if hasLink i then Link_of_block (ip_link i) else Err PacketError.

Definition Interest_getSelectedDelegation (i : InterestPacket) : result Name :=
  match ip_selectedDelegation i with
  | None => Err PacketError
  | Some k => let! d := getDelegationFromWire (ip_link i) k in Ok d.2
  end.

Definition with_selected (k : nat) (i : InterestPacket) : InterestPacket :=
  MkInterestPacket (ip_name i) (ip_selectors i) (ip_nonce i) (ip_interestLifetime i) (ip_link i) (Some k) (reset (ip_wire i)).

Definition setSelectedDelegation_name (delegationName : Name) (i : InterestPacket) : result InterestPacket :=
  let! k := findDelegationFromWire (ip_link i) delegationName in
  match k with Some k => Ok (with_selected k i) | None => Err InvalidArgument end.

Definition setSelectedDelegation_index (k : nat) (i : InterestPacket) : result InterestPacket :=
  let! l := Link_of_block (ip_link i) in
  if len (lk_delegations l) <=? Z.of_nat k then Err PacketError else Ok (with_selected k i).

(** ** Encoding *)

Definition Interest_wireEncode {E} `{EncodingImpl E} (i : InterestPacket) : state E Z :=
  let~ l1 := match ip_selectedDelegation i with
             | Some k => if hasLink i then prependNonNegativeIntegerBlock TlvType.SelectedDelegation (Z.of_nat k) else sret 0
             | None => sret 0
             end in
  let~ l2 := if hasLink i then prependBlock (ip_link i) else sret 0 in
  let~ l3 := if (0 <=? ip_interestLifetime i) && negb (ip_interestLifetime i =? DEFAULT_INTEREST_LIFETIME)
             then prependNonNegativeIntegerBlock TlvType.InterestLifetime (ip_interestLifetime i) else sret 0 in
  let~ l4 := prependBlock (ip_nonce i) in
  let~ l5 := if negb (Selectors_empty (ip_selectors i)) then Selectors_wireEncode (ip_selectors i) else sret 0 in
  let~ l6 := Name_wireEncode (ip_name i) in
  let totalLength := l1 + l2 + l3 + l4 + l5 + l6 in
  let~ l7 := prependVarNumber totalLength in
  let~ l8 := prependVarNumber TlvType.Interest in
  sret (totalLength + l7 + l8).

(** [Interest::wireEncode()]: the block, and the object after the block was
    decoded into it *)
Definition Interest_wire (word : Z) (i : InterestPacket) : result (Block * InterestPacket) :=
  if hasWire (ip_wire i) then Ok (ip_wire i, i)
  else
    let! (_, i) := getNonce word i in
    let! _ := if negb (Selectors_empty (ip_selectors i)) then KeyLocator_supported (s_publisherPublicKeyLocator (ip_selectors i)) else Ok tt in
    let! b := Encoder.block true (twoPass (fun E _ => Interest_wireEncode i)) in
    let! i := Interest_wireDecode b in
    Ok (ip_wire i, i).

(** What the forwarder reads of an Interest: the nonce and the delegations in the
    order of the encoding; [nextHop] is the tag that the link service sets. *)
Definition Interest_view (nextHop : option Z) (i : InterestPacket) : result Interest :=
  let! (nonce, i) := getNonce 0 i in
  let! link := if hasLink i then let! l := Link_of_block (ip_link i) in let! ds := decodeContent (lk_data l) in Ok (Some ds) else Ok None in
  Ok (MkInterest (ip_name i) (ip_selectors i) nonce (ip_interestLifetime i) link (ip_selectedDelegation i) nextHop).

(** ** Round trip of selectors *)

Definition sel_elements (s : Selectors) : list (Z * list Z) :=
  opt_elem (0 <=? s_minSuffixComponents s) (TlvType.MinSuffixComponents, encoderIntegerBytes (s_minSuffixComponents s)) ++
  opt_elem (0 <=? s_maxSuffixComponents s) (TlvType.MaxSuffixComponents, encoderIntegerBytes (s_maxSuffixComponents s)) ++
  opt_elem (negb (KeyLocator_empty (s_publisherPublicKeyLocator s))) (TlvType.KeyLocator, wires (kl_elements (s_publisherPublicKeyLocator s))) ++
  opt_elem (negb (Exclude_empty (s_exclude s))) (TlvType.Exclude, wires (exclude_elements (m_exclude (s_exclude s)))) ++
  opt_elem (0 <=? s_childSelector s) (TlvType.ChildSelector, encoderIntegerBytes (s_childSelector s)) ++
  opt_elem (s_mustBeFresh s) (TlvType.MustBeFresh, []).

Record sel_ok (s : Selectors) : Prop := {
  so_min : s_minSuffixComponents s < 2 ^ 31;
  so_max : s_maxSuffixComponents s < 2 ^ 31;
  so_child : s_childSelector s < 2 ^ 31;
  so_key : kl_ok (s_publisherPublicKeyLocator s);
  so_exclude : Exclude_empty (s_exclude s) = false -> wf_map (m_exclude (s_exclude s)) /\ Forall wf_element (exclude_elements (m_exclude (s_exclude s)));
  so_size : len (wires (sel_elements s)) < U64
}.

(** The same selectors, up to the blocks they are in; an [int] that is absent
    is -1. *)
Record sel_same (s s' : Selectors) : Prop := {
  ss_min : s_minSuffixComponents s' = Z.max (-1) (s_minSuffixComponents s);
  ss_max : s_maxSuffixComponents s' = Z.max (-1) (s_maxSuffixComponents s);
  ss_child : s_childSelector s' = Z.max (-1) (s_childSelector s);
  ss_key : kl_same (s_publisherPublicKeyLocator s) (s_publisherPublicKeyLocator s');
  ss_exclude : m_exclude (s_exclude s') = m_exclude (s_exclude s);
  ss_fresh : s_mustBeFresh s' = s_mustBeFresh s
}.

Lemma sel_value_eq s : wires (sel_elements s) =
  wires (opt_elem (0 <=? s_minSuffixComponents s) (TlvType.MinSuffixComponents, encoderIntegerBytes (s_minSuffixComponents s))) ++
  wires (opt_elem (0 <=? s_maxSuffixComponents s) (TlvType.MaxSuffixComponents, encoderIntegerBytes (s_maxSuffixComponents s))) ++
  wires (opt_elem (negb (KeyLocator_empty (s_publisherPublicKeyLocator s))) (TlvType.KeyLocator, wires (kl_elements (s_publisherPublicKeyLocator s)))) ++
  wires (opt_elem (negb (Exclude_empty (s_exclude s))) (TlvType.Exclude, wires (exclude_elements (m_exclude (s_exclude s))))) ++
  wires (opt_elem (0 <=? s_childSelector s) (TlvType.ChildSelector, encoderIntegerBytes (s_childSelector s))) ++
  wires (opt_elem (s_mustBeFresh s) (TlvType.MustBeFresh, [])).
Proof. unfold sel_elements. by rewrite !wires_app. Qed.

Lemma Encodes_Exclude m :
  Encodes (fun E _ => Exclude_wireEncode m) (len (tlv_wire TlvType.Exclude (wires (exclude_elements m)))) (tlv_wire TlvType.Exclude (wires (exclude_elements m))).
Proof. destruct (Exclude_encoders m) as [Hs Hp]. split; [by intros []|done]. Qed.

Lemma Encodes_Selectors s : sel_ok s ->
  Encodes (fun E _ => Selectors_wireEncode s) (len (tlv_wire TlvType.Selectors (wires (sel_elements s)))) (tlv_wire TlvType.Selectors (wires (sel_elements s))).
Proof.
  intros Hok. unfold Selectors_wireEncode. eapply Encodes_eq.
  - eapply Encodes_bind; [apply (Encodes_opt _ _ (TlvType.MustBeFresh, [])); intros _; apply Encodes_EmptyBlock|].
    eapply Encodes_bind; [apply (Encodes_opt _ _ (TlvType.ChildSelector, encoderIntegerBytes (s_childSelector s))); intros _; apply Encodes_IntegerBlock|].
    eapply Encodes_bind; [apply (Encodes_opt _ _ (TlvType.Exclude, wires (exclude_elements (m_exclude (s_exclude s))))); intros _; apply Encodes_Exclude|].
    eapply Encodes_bind; [apply (Encodes_opt _ _ (TlvType.KeyLocator, wires (kl_elements (s_publisherPublicKeyLocator s)))); intros _; apply Encodes_KeyLocator, Hok|].
    eapply Encodes_bind; [apply (Encodes_opt _ _ (TlvType.MaxSuffixComponents, encoderIntegerBytes (s_maxSuffixComponents s))); intros _; apply Encodes_IntegerBlock|].
    eapply Encodes_bind; [apply (Encodes_opt _ _ (TlvType.MinSuffixComponents, encoderIntegerBytes (s_minSuffixComponents s))); intros _; apply Encodes_IntegerBlock|].
    cbv zeta. apply (Encodes_tail _ TlvType.Selectors (wires (sel_elements s))). rewrite sel_value_eq, !len_app. lia.
  - done.
  - rewrite (tlv_wire_unfold TlvType.Selectors), <- !app_assoc. do 2 f_equal. by rewrite sel_value_eq.
Qed.

Lemma wf_opt c t v : 0 <= t < U32 -> (c = true -> wf_bytes v) -> Forall (fun t => 0 <= t < U32) (map fst (opt_elem c (t, v))) /\ Forall wf_bytes (map snd (opt_elem c (t, v))).
Proof. intros Ht Hv. destruct c; cbn; split; repeat constructor; try lia. by apply Hv. Qed.

Lemma wf_opt_integer c t n : 0 <= t < U32 -> (c = true -> 0 <= n) -> Forall (fun t => 0 <= t < U32) (map fst (opt_elem c (t, encoderIntegerBytes n))) /\ Forall wf_bytes (map snd (opt_elem c (t, encoderIntegerBytes n))).
Proof. intros Ht Hn. apply wf_opt; [done|]. intros Hc. by apply wf_encoderIntegerBytes, Hn. Qed.

Lemma wf_sel_elements s : sel_ok s -> wf_fields (sel_elements s).
Proof.
  intros [Hmin Hmax Hch Hk He Hl].
  assert (Hall : Forall (fun t => 0 <= t < U32) (map fst (sel_elements s)) /\ Forall wf_bytes (map snd (sel_elements s))).
  { unfold sel_elements. rewrite !map_app, !Forall_app.
    destruct (wf_opt_integer (0 <=? s_minSuffixComponents s) TlvType.MinSuffixComponents (s_minSuffixComponents s)); [by vm_compute|lia|].
    destruct (wf_opt_integer (0 <=? s_maxSuffixComponents s) TlvType.MaxSuffixComponents (s_maxSuffixComponents s)); [by vm_compute|lia|].
    destruct (wf_opt_integer (0 <=? s_childSelector s) TlvType.ChildSelector (s_childSelector s)); [by vm_compute|lia|].
    destruct (wf_opt (negb (KeyLocator_empty (s_publisherPublicKeyLocator s))) TlvType.KeyLocator (wires (kl_elements (s_publisherPublicKeyLocator s))));
      [by vm_compute|intros _; apply wf_fields_bytes, Hk|].
    destruct (wf_opt (negb (Exclude_empty (s_exclude s))) TlvType.Exclude (wires (exclude_elements (m_exclude (s_exclude s))))); [by vm_compute| |].
    { intros Hn%negb_true_iff. destruct (He Hn) as [Hm Hel]. apply wf_wires; [done|by apply exclude_elements_bytes]. }
    destruct (wf_opt (s_mustBeFresh s) TlvType.MustBeFresh []); [by vm_compute|intros _; constructor|]. done. }
  destruct Hall. by apply wf_fields_intro.
Qed.

(** Computes the field that is found in a list of fields that may be absent. *)
Ltac find_opt :=
  rewrite ?find_elem_app, ?find_elem_opt; cbn [fst snd];
  repeat match goal with |- context [?a =? ?b] => let r := eval vm_compute in (a =? b) in change (a =? b) with r end;
  rewrite ?andb_false_r, ?andb_true_r; cbv beta iota.

Lemma find_integer_elem w t es (c : bool) n : Forall2 elem_ok (m_subBlocks w) es -> find_elem t es = (if c then Some (encoderIntegerBytes n) else None) ->
  (c = true -> 0 <= n < U64) -> find_integer w t = Ok (if c then Some n else None).
Proof.
  intros H2 Hf Hn. unfold find_integer. destruct c.
  - destruct (find_Some w t es _ H2 Hf) as (x&->&Hx). rewrite (read_integer_elem x _ _ Hx); [done|by apply Hn].
  - by rewrite (find_None w t es H2 Hf).
Qed.

Lemma from_option_s32 (c : bool) n : (c = true -> 0 <= n < 2 ^ 31) -> (c = false -> n < 0) ->
  from_option to_s32 (-1) (if c then Some n else None) = Z.max (-1) n.
Proof. intros Ht Hf. destruct c; cbn; [rewrite to_s32_id; [|specialize (Ht eq_refl); lia]; specialize (Ht eq_refl); lia|specialize (Hf eq_refl); lia]. Qed.

Lemma Selectors_decode_elem b s : elem_ok b (TlvType.Selectors, wires (sel_elements s)) -> sel_ok s ->
  exists s', Selectors_wireDecode b = Ok s' /\ sel_same s s' /\ s_wire s' = Some (tlv_wire TlvType.Selectors (wires (sel_elements s))).
Proof.
  intros Hb Hok. destruct (Block_parse_value b _ (ek_wf _ _ Hb) (ek_sub _ _ Hb) (elem_ok_value _ _ Hb) (wf_sel_elements s Hok)) as (l&Hp&H2).
  set (w := set_subBlocks b l) in *. change l with (m_subBlocks w) in H2.
  unfold Selectors_wireDecode. rewrite (elem_ok_type _ _ Hb). cbn [fst]. rewrite Z.eqb_refl. cbn [negb]. rewrite Hp. cbn [rbind].
  destruct Hok as [Hmin Hmax Hch Hk He Hl].
  rewrite (find_integer_elem w TlvType.MinSuffixComponents _ (0 <=? s_minSuffixComponents s) (s_minSuffixComponents s) H2); cbn [rbind].
  2: { unfold sel_elements. find_opt. by destruct (0 <=? s_minSuffixComponents s). } 2: { intros ?%Z.leb_le. unfold U64. lia. }
  rewrite (find_integer_elem w TlvType.MaxSuffixComponents _ (0 <=? s_maxSuffixComponents s) (s_maxSuffixComponents s) H2); cbn [rbind].
  2: { unfold sel_elements. find_opt. by destruct (0 <=? s_maxSuffixComponents s). } 2: { intros ?%Z.leb_le. unfold U64. lia. }
  assert (Hkl : exists k, match find w TlvType.KeyLocator with Some x => KeyLocator_wireDecode x KeyLocator_new | None => Ok KeyLocator_new end = Ok k /\
    kl_same (s_publisherPublicKeyLocator s) k).
  { assert (Hf : find_elem TlvType.KeyLocator (sel_elements s) =
      if negb (KeyLocator_empty (s_publisherPublicKeyLocator s)) then Some (wires (kl_elements (s_publisherPublicKeyLocator s))) else None).
    { unfold sel_elements. find_opt. by destruct (negb _). }
    destruct (KeyLocator_empty _) eqn:Hke; cbn [negb] in Hf.
    - rewrite (find_None w _ _ H2 Hf). exists KeyLocator_new. split; [done|]. unfold KeyLocator_empty in Hke. unfold kl_same. by destruct (kl_type _).
    - destruct (find_Some w _ _ _ H2 Hf) as (x&->&Hx). destruct (KeyLocator_decode_elem x _ KeyLocator_new Hx Hk) as (k&?&?&_). by exists k. }
  destruct Hkl as (k&->&Hks). cbn [rbind].
  assert (Hex : exists e, match find w TlvType.Exclude with Some x => Exclude_wireDecode x | None => Ok (MkExclude [] None) end = Ok e /\ m_exclude e = m_exclude (s_exclude s)).
  { assert (Hf : find_elem TlvType.Exclude (sel_elements s) =
      if negb (Exclude_empty (s_exclude s)) then Some (wires (exclude_elements (m_exclude (s_exclude s)))) else None).
    { unfold sel_elements. find_opt. by destruct (negb _). }
    unfold Exclude_empty in *. destruct (m_exclude (s_exclude s)) as [|x m] eqn:Hm.
    - rewrite (find_None w _ _ H2 Hf). by eexists.
    - destruct (find_Some w _ _ _ H2 Hf) as (y&->&Hy). destruct (He eq_refl) as [Hwm Hel]. destruct Hy as [Hv _ _ _ Hwf Hsub].
      rewrite (Exclude_wireDecode_ok y _ Hwf Hsub Hv Hwm) by done. by eexists. }
  destruct Hex as (e&->&Hes). cbn [rbind].
  rewrite (find_integer_elem w TlvType.ChildSelector _ (0 <=? s_childSelector s) (s_childSelector s) H2); cbn [rbind].
  2: { unfold sel_elements. find_opt. by destruct (0 <=? s_childSelector s). } 2: { intros ?%Z.leb_le. unfold U64. lia. }
  change (wire w) with (wire b). rewrite (ek_wire _ _ Hb). eexists. split; [done|]. split; [|done]. split; cbn [s_minSuffixComponents s_maxSuffixComponents s_childSelector s_publisherPublicKeyLocator s_exclude s_mustBeFresh].
  - apply from_option_s32; intros; [split; [by apply Z.leb_le|done]|by apply Z.leb_gt].
  - apply from_option_s32; intros; [split; [by apply Z.leb_le|done]|by apply Z.leb_gt].
  - apply from_option_s32; intros; [split; [by apply Z.leb_le|done]|by apply Z.leb_gt].
  - done.
  - done.
  - assert (Hf : find_elem TlvType.MustBeFresh (sel_elements s) = if s_mustBeFresh s then Some [] else None) by (unfold sel_elements; find_opt; by destruct (s_mustBeFresh s)).
    destruct (s_mustBeFresh s); [by destruct (find_Some w _ _ _ H2 Hf) as (x&->&_)|by rewrite (find_None w _ _ H2 Hf)].
Qed.

(** ** Round trip of Interests *)

Definition has_lifetime (i : InterestPacket) : bool :=
  (0 <=? ip_interestLifetime i) && negb (ip_interestLifetime i =? DEFAULT_INTEREST_LIFETIME).
Definition has_selected (i : InterestPacket) : bool := match ip_selectedDelegation i with Some _ => hasLink i | None => false end.

(** The elements of an Interest with the nonce [nv] and the link [lv] *)
Definition ip_elements (i : InterestPacket) (nv lv : list Z) : list (Z * list Z) :=
  opt_elem true (TlvType.Name, wires (name_elements (ip_name i))) ++
  opt_elem (negb (Selectors_empty (ip_selectors i))) (TlvType.Selectors, wires (sel_elements (ip_selectors i))) ++
  opt_elem true (TlvType.Nonce, nv) ++
  opt_elem (has_lifetime i) (TlvType.InterestLifetime, encoderIntegerBytes (ip_interestLifetime i)) ++
  opt_elem (hasLink i) (TlvType.Data, lv) ++
  opt_elem (has_selected i) (TlvType.SelectedDelegation, encoderIntegerBytes (Z.of_nat (default 0%nat (ip_selectedDelegation i)))).

Record ip_ok (i : InterestPacket) (nv lv : list Z) : Prop := {
  io_name : name_ok (ip_name i);
  io_selectors : sel_ok (ip_selectors i);
  io_nonce : wire (ip_nonce i) = Ok (tlv_wire TlvType.Nonce nv);
  io_lifetime : ip_interestLifetime i < 2 ^ 63;
  io_link : hasLink i = true -> wire (ip_link i) = Ok (tlv_wire TlvType.Data lv);
  io_selected : forall k, ip_selectedDelegation i = Some k -> hasLink i = true /\ exists les ds, lv = wires les /\ wf_fields les /\
    find_elem TlvType.Content les = Some (wires (link_elements ds)) /\ Forall delegation_ok ds /\ (k < length ds)%nat /\ Z.of_nat k < U64;
  io_bytes : wf_bytes nv /\ wf_bytes lv;
  io_size : len (wires (ip_elements i nv lv)) < U64
}.

(** What is read from the encoding of [i] *)
Record ip_read (i i' : InterestPacket) (nv lv : list Z) : Prop := {
  ir_name : ip_name i' = ip_name i;
  ir_selectors : sel_same (ip_selectors i) (ip_selectors i');
  ir_nonce : elem_ok (ip_nonce i') (TlvType.Nonce, nv);
  ir_lifetime : ip_interestLifetime i' = if 0 <=? ip_interestLifetime i then ip_interestLifetime i else DEFAULT_INTEREST_LIFETIME;
  ir_link : if hasLink i then elem_ok (ip_link i') (TlvType.Data, lv) else hasLink i' = false;
  ir_selected : ip_selectedDelegation i' = ip_selectedDelegation i;
  ir_wire : wire (ip_wire i') = Ok (tlv_wire TlvType.Interest (wires (ip_elements i nv lv)));
  ir_type : m_type (ip_wire i') = TlvType.Interest
}.

Lemma Selectors_empty_default s : Selectors_empty s = true -> sel_same s Selectors_default.
Proof.
  unfold Selectors_empty. intros H. apply andb_true_iff in H as [H Hf]. apply andb_true_iff in H as [H Hc]. apply andb_true_iff in H as [H He].
  apply andb_true_iff in H as [H Hk]. apply andb_true_iff in H as [Hmin Hmax].
  split; cbn; [lia..| | |by destruct (s_mustBeFresh s)].
  - unfold KeyLocator_empty in Hk. unfold kl_same. by destruct (kl_type _).
  - unfold Exclude_empty in He. by destruct (m_exclude _).
Qed.

Lemma wf_ip_elements i nv lv : ip_ok i nv lv -> wf_fields (ip_elements i nv lv).
Proof.
  intros Hok. assert (Hall : Forall (fun t => 0 <= t < U32) (map fst (ip_elements i nv lv)) /\ Forall wf_bytes (map snd (ip_elements i nv lv))).
  { unfold ip_elements. rewrite !map_app, !Forall_app.
    destruct (wf_opt true TlvType.Name (wires (name_elements (ip_name i)))); [by vm_compute|intros _; apply wf_fields_bytes, Hok|].
    destruct (wf_opt (negb (Selectors_empty (ip_selectors i))) TlvType.Selectors (wires (sel_elements (ip_selectors i))));
      [by vm_compute|intros _; apply wf_fields_bytes, wf_sel_elements, Hok|].
    destruct (wf_opt true TlvType.Nonce nv); [by vm_compute|intros _; apply Hok|].
    destruct (wf_opt_integer (has_lifetime i) TlvType.InterestLifetime (ip_interestLifetime i)); [by vm_compute| |].
    { unfold has_lifetime. intros [?%Z.leb_le _]%andb_true_iff. done. }
    destruct (wf_opt (hasLink i) TlvType.Data lv); [by vm_compute|intros _; apply Hok|].
    destruct (wf_opt_integer (has_selected i) TlvType.SelectedDelegation (Z.of_nat (default 0%nat (ip_selectedDelegation i)))); [by vm_compute|lia|].
    done. }
  destruct Hall. apply wf_fields_intro; [done..|apply Hok].
Qed.

Lemma Interest_decode_elem b i nv lv : elem_ok b (TlvType.Interest, wires (ip_elements i nv lv)) -> ip_ok i nv lv ->
  exists i', Interest_wireDecode b = Ok i' /\ ip_read i i' nv lv.
Proof.
  intros Hb Hok. destruct (Block_parse_value b _ (ek_wf _ _ Hb) (ek_sub _ _ Hb) (elem_ok_value _ _ Hb) (wf_ip_elements _ _ _ Hok)) as (l&Hp&H2).
  set (w := set_subBlocks b l) in *. change l with (m_subBlocks w) in H2. unfold Interest_wireDecode. rewrite Hp. cbn [rbind].
  change (m_type w) with (m_type b). rewrite (elem_ok_type _ _ Hb). cbn [fst]. rewrite Z.eqb_refl. cbn [negb].
  destruct (get_elem w TlvType.Name _ (wires (name_elements (ip_name i))) H2) as (bn&->&Hbn); [unfold ip_elements; by find_opt|]. cbn [rbind].
  rewrite (Name_decode_elem bn _ Hbn (io_name _ _ _ Hok)). cbn [rbind].
  assert (Hsel : exists s, match find w TlvType.Selectors with Some x => Selectors_wireDecode x | None => Ok Selectors_default end = Ok s /\ sel_same (ip_selectors i) s).
  { assert (Hf : find_elem TlvType.Selectors (ip_elements i nv lv) = if negb (Selectors_empty (ip_selectors i)) then Some (wires (sel_elements (ip_selectors i))) else None).
    { unfold ip_elements. find_opt. by destruct (negb _). }
    destruct (Selectors_empty _) eqn:He; cbn [negb] in Hf.
    - rewrite (find_None w _ _ H2 Hf). exists Selectors_default. split; [done|by apply Selectors_empty_default].
    - destruct (find_Some w _ _ _ H2 Hf) as (x&->&Hx). destruct (Selectors_decode_elem x _ Hx (io_selectors _ _ _ Hok)) as (s&?&?&_). by exists s. }
  destruct Hsel as (s&->&Hss). cbn [rbind].
  destruct (get_elem w TlvType.Nonce _ nv H2) as (bno&->&Hbno); [unfold ip_elements; by find_opt|]. cbn [rbind].
  rewrite (find_integer_elem w TlvType.InterestLifetime _ (has_lifetime i) (ip_interestLifetime i) H2); cbn [rbind].
  2: { unfold ip_elements. find_opt. by destruct (has_lifetime i). }
  2: { unfold has_lifetime. intros [?%Z.leb_le _]%andb_true_iff. pose proof (io_lifetime _ _ _ Hok). unfold U64. lia. }
  assert (Hlink : if hasLink i then exists x, find w TlvType.Data = Some x /\ elem_ok x (TlvType.Data, lv) else find w TlvType.Data = None).
  { assert (Hf : find_elem TlvType.Data (ip_elements i nv lv) = if hasLink i then Some lv else None) by (unfold ip_elements; find_opt; by destruct (hasLink i)).
    destruct (hasLink i); [by apply (find_Some w _ _ _ H2)|by apply (find_None w _ _ H2)]. }
  assert (Hse : find_elem TlvType.SelectedDelegation (ip_elements i nv lv) =
    if has_selected i then Some (encoderIntegerBytes (Z.of_nat (default 0%nat (ip_selectedDelegation i)))) else None).
  { unfold ip_elements. find_opt. by destruct (has_selected i). }
  assert (Hlt : from_option to_s64 DEFAULT_INTEREST_LIFETIME (if has_lifetime i then Some (ip_interestLifetime i) else None) =
    if 0 <=? ip_interestLifetime i then ip_interestLifetime i else DEFAULT_INTEREST_LIFETIME).
  { unfold has_lifetime. pose proof (io_lifetime _ _ _ Hok). destruct (Z.leb_spec 0 (ip_interestLifetime i)); [|done]. cbn [andb].
    destruct (Z.eqb_spec (ip_interestLifetime i) DEFAULT_INTEREST_LIFETIME) as [->|]; [done|]. cbn. by apply to_s64_id; lia. }
  assert (Hread : forall lk, (if hasLink i then elem_ok lk (TlvType.Data, lv) else hasWire lk = false) ->
    ip_read i (MkInterestPacket (ip_name i) s bno (from_option to_s64 DEFAULT_INTEREST_LIFETIME (if has_lifetime i then Some (ip_interestLifetime i) else None))
      lk (ip_selectedDelegation i) w) nv lv).
  { intros lk Hlk. split; cbn [ip_name ip_selectors ip_nonce ip_interestLifetime ip_link ip_selectedDelegation ip_wire]; try done; [apply (ek_wire _ _ Hb)|apply (elem_ok_type _ _ Hb)]. }
  pose proof (io_selected _ _ _ Hok) as Hselk. unfold has_selected in Hse.
  destruct (ip_selectedDelegation i) as [k|].
  - destruct (Hselk k eq_refl) as (Hhl&les&ds&Hlv&Hwf&Hcont&Hds&Hk&Hk64). rewrite Hhl in *. destruct Hlink as (x&->&Hx). cbn [default from_option id].
    cbn [default from_option id] in Hse. destruct (find_Some w _ _ _ H2 Hse) as (y&->&Hy). rewrite (hasWire_of_wire _ _ (ek_wire _ _ Hx)). cbn [negb].
    rewrite (read_integer_elem y _ _ Hy) by lia. cbn [rbind]. rewrite Hlv in Hx.
    destruct (delegation_blocks_elem x les ds Hx Hwf Hcont Hds) as (dl&Hdl&Hd2). unfold countDelegationsFromWire. rewrite Hdl. cbn [rbind].
    assert (Hlen : len dl = len ds) by (apply Forall2_length in Hd2; unfold link_elements, len in *; rewrite length_map in Hd2; lia).
    rewrite (proj2 (Z.ltb_lt _ _)) by (unfold len in *; lia). cbn [rbind]. rewrite Nat2Z.id. eexists. split; [done|]. apply Hread. by rewrite Hlv.
  - rewrite (find_None w _ _ H2 Hse). cbn [rbind]. eexists. split; [done|]. apply Hread.
    destruct (hasLink i); [by destruct Hlink as (x&->&Hx)|by rewrite Hlink].
Qed.

Lemma Encodes_Interest i nv lv : ip_ok i nv lv ->
  Encodes (fun E _ => Interest_wireEncode i) (len (tlv_wire TlvType.Interest (wires (ip_elements i nv lv))))
    (tlv_wire TlvType.Interest (wires (ip_elements i nv lv))).
Proof.
  intros Hok. set (sd := (TlvType.SelectedDelegation, encoderIntegerBytes (Z.of_nat (default 0%nat (ip_selectedDelegation i))))).
  assert (Hw : wires (ip_elements i nv lv) = tlv_wire TlvType.Name (wires (name_elements (ip_name i))) ++
    wires (opt_elem (negb (Selectors_empty (ip_selectors i))) (TlvType.Selectors, wires (sel_elements (ip_selectors i)))) ++ tlv_wire TlvType.Nonce nv ++
    wires (opt_elem (has_lifetime i) (TlvType.InterestLifetime, encoderIntegerBytes (ip_interestLifetime i))) ++
    wires (opt_elem (hasLink i) (TlvType.Data, lv)) ++ wires (opt_elem (has_selected i) sd)).
  { unfold ip_elements. rewrite !wires_app. cbn [opt_elem]. by rewrite !wires_single. }
  unfold Interest_wireEncode. eapply Encodes_eq.
  - eapply Encodes_bind with (a := len (wires (opt_elem (has_selected i) sd))) (bs1 := wires (opt_elem (has_selected i) sd)).
    { unfold has_selected, sd. destruct (ip_selectedDelegation i) as [k|]; [|apply Encodes_ret].
      apply (Encodes_opt _ _ (TlvType.SelectedDelegation, encoderIntegerBytes (Z.of_nat k))). intros _. apply Encodes_IntegerBlock. }
    eapply Encodes_bind; [apply (Encodes_opt _ _ (TlvType.Data, lv)); intros Hl; apply Encodes_wired; by apply Hok|].
    fold (has_lifetime i).
    eapply Encodes_bind; [apply (Encodes_opt _ _ (TlvType.InterestLifetime, encoderIntegerBytes (ip_interestLifetime i))); intros _; apply Encodes_IntegerBlock|].
    eapply Encodes_bind; [apply Encodes_wired, (io_nonce _ _ _ Hok)|].
    eapply Encodes_bind; [apply (Encodes_opt _ _ (TlvType.Selectors, wires (sel_elements (ip_selectors i)))); intros _; apply Encodes_Selectors, Hok|].
    eapply Encodes_bind; [apply Encodes_Name|]. cbv zeta.
    apply (Encodes_tail _ TlvType.Interest (wires (ip_elements i nv lv))). rewrite Hw, !len_app. lia.
  - done.
  - rewrite (tlv_wire_unfold TlvType.Interest), <- !app_assoc. do 2 f_equal. by rewrite Hw.
Qed.

Lemma wf_le_bytes n : wf_bytes (le_bytes n).
Proof. apply Forall_rev, wf_be_encode. Qed.
Lemma len_le_bytes n : len (le_bytes n) = 4.
Proof. unfold le_bytes, len. by rewrite length_rev, length_be_encode. Qed.
Lemma le_value_bytes n : 0 <= n < U32 -> le_value (le_bytes n) = n.
Proof.
  intros Hn. unfold le_value, le_bytes. rewrite rev_involutive, be_decode_encode by lia. apply Z.mod_small. exact Hn.
Qed.

(** The Interest when it is encoded: a nonce is chosen if there is none. *)
Definition nonce_chosen (word : Z) (i : InterestPacket) : result InterestPacket := let! (_, i) := getNonce word i in Ok i.

Lemma Interest_wire_ok word i i1 nv lv : nonce_chosen word i = Ok i1 -> ip_ok i1 nv lv -> hasWire (ip_wire i) = false ->
  exists i2, Interest_wire word i = Ok (ip_wire i2, i2) /\ ip_read i1 i2 nv lv.
Proof.
  intros Hch Hok Hw. unfold nonce_chosen in Hch. unfold Interest_wire. rewrite Hw.
  destruct (getNonce word i) as [[n i']|e]; [|done]. cbn [rbind] in *. injection Hch as ->.
  assert (Hsup : (if negb (Selectors_empty (ip_selectors i1)) then KeyLocator_supported (s_publisherPublicKeyLocator (ip_selectors i1)) else Ok tt) = Ok tt).
  { destruct (negb _); [|done]. destruct (so_key _ (io_selectors _ _ _ Hok)) as [_ Hk]. unfold KeyLocator_supported. by destruct (kl_type _). }
  rewrite Hsup. cbn [rbind].
  destruct (Encodes_block _ _ _ (Encodes_Interest i1 nv lv Hok)) as (b&->&Hb); [split; [by vm_compute|apply Hok]|]. cbn [rbind].
  destruct (Interest_decode_elem b i1 nv lv) as (i2&->&Hr2); [|done|by exists i2].
  apply (built_elem_ok _ _ _ Hb), wf_fields_bytes. by apply wf_ip_elements.
Qed.

(** C37. An Interest survives encoding and decoding: a nonce is chosen if it has
    none, and the bytes it is encoded to are read back as an Interest with the
    same name, selectors, nonce, lifetime, link and selected delegation; the
    default lifetime is not written, and means the same as none. *)
Theorem interest_roundtrip word i i1 nv lv : nonce_chosen word i = Ok i1 -> ip_ok i1 nv lv -> hasWire (ip_wire i) = false ->
  exists b i2 w r i3, Interest_wire word i = Ok (b, i2) /\ wire b = Ok w /\ Block_of_buffer w = Ok r /\
    Interest_wireDecode r = Ok i3 /\ ip_read i1 i3 nv lv /\ ip_read i1 i2 nv lv.
Proof.
  intros Hch Hok Hw. destruct (Interest_wire_ok word i i1 nv lv Hch Hok Hw) as (i2&Hi2&Hr2).
  destruct (Block_of_buffer_built TlvType.Interest (wires (ip_elements i1 nv lv))) as (r&Hr&Hbu); [split; [by vm_compute|apply Hok]|].
  destruct (Interest_decode_elem r i1 nv lv) as (i3&Hd&Hr3); [|done|].
  { apply (built_elem_ok _ _ _ Hbu), wf_fields_bytes. by apply wf_ip_elements. }
  exists (ip_wire i2), i2, (tlv_wire TlvType.Interest (wires (ip_elements i1 nv lv))), r, i3. split_and!; try done. apply Hr2.
Qed.

(** ** Changing the nonce in place *)

Lemma patch_app a x bytes c : length x = length bytes -> patch (length a) bytes (a ++ x ++ c) = a ++ bytes ++ c.
Proof.
  intros Hl. unfold patch. rewrite take_app_length. do 2 f_equal. rewrite <- Hl, <- length_app, app_assoc. apply drop_app_length.
Qed.

(** Where the first element of a type is *)
Lemma find_element_blocks buffer t v es2 es1 : forall off, t ∉ map fst es1 ->
  List.find (fun b => m_type b =? t) (element_blocks buffer off (es1 ++ (t, v) :: es2)) =
  head (element_blocks buffer (off + length (wires es1)) ((t, v) :: es2)).
Proof.
  induction es1 as [|[u x] es1 IH]; intros off Hn; cbn [app element_blocks].
  - cbn. rewrite Z.eqb_refl, Nat.add_0_r. done.
  - cbn [map fst] in Hn. apply not_elem_of_cons in Hn as [Hu Hn]. cbn [List.find Block_raw m_type fst].
    rewrite (proj2 (Z.eqb_neq u t)) by congruence. rewrite IH by done.
    replace (off + length (wires ((u, x) :: es1)))%nat with (off + header_length (u, x) + length x + length (wires es1))%nat; [done|].
    rewrite wires_cons, length_app, length_tlv_wire. lia.
Qed.

Lemma element_blocks_app buffer es1 es2 : forall off,
  element_blocks buffer off (es1 ++ es2) = element_blocks buffer off es1 ++ element_blocks buffer (off + length (wires es1)) es2.
Proof.
  induction es1 as [|[u x] es1 IH]; intros off; cbn [app element_blocks]; [by rewrite Nat.add_0_r|].
  rewrite IH. replace (off + length (wires ((u, x) :: es1)))%nat with (off + header_length (u, x) + length x + length (wires es1))%nat; [done|].
  rewrite wires_cons, length_app, length_tlv_wire. lia.
Qed.

Lemma Block_of_buffer_raw t v r : wf_element (t, v) -> Block_of_buffer (tlv_wire t v) = Ok r ->
  r = Block_raw (tlv_wire t v) t 0 (length (tlv_wire t v)) (length (tlv_wire t v) - length v) (length (tlv_wire t v)).
Proof.
  intros Hel. unfold Block_of_buffer. destruct (read_header t v [] Hel) as [H1 H2]. rewrite !app_nil_r in *.
  rewrite H1. cbn [rbind]. rewrite H2. cbn [rbind]. rewrite Z.eqb_refl. cbn [negb]. by intros [= <-].
Qed.

Lemma Interest_decode_parts b i : Interest_wireDecode b = Ok i -> exists w, Block_parse b = Ok w /\ get w TlvType.Nonce = Ok (ip_nonce i) /\ ip_wire i = w.
Proof.
  unfold Interest_wireDecode. intros (w&Hw&H)%rbind_Ok. destruct (negb _); [done|].
  apply rbind_Ok in H as (x1&_&H). apply rbind_Ok in H as (x2&_&H). apply rbind_Ok in H as (x3&_&H). apply rbind_Ok in H as (n&Hn&H).
  apply rbind_Ok in H as (x4&_&H). apply rbind_Ok in H as (x5&_&H). injection H as <-. by exists w.
Qed.

(** The elements around the nonce *)
Definition before_nonce (i : InterestPacket) : list (Z * list Z) :=
  opt_elem true (TlvType.Name, wires (name_elements (ip_name i))) ++
  opt_elem (negb (Selectors_empty (ip_selectors i))) (TlvType.Selectors, wires (sel_elements (ip_selectors i))).
Definition after_nonce (i : InterestPacket) (lv : list Z) : list (Z * list Z) :=
  opt_elem (has_lifetime i) (TlvType.InterestLifetime, encoderIntegerBytes (ip_interestLifetime i)) ++
  opt_elem (hasLink i) (TlvType.Data, lv) ++
  opt_elem (has_selected i) (TlvType.SelectedDelegation, encoderIntegerBytes (Z.of_nat (default 0%nat (ip_selectedDelegation i)))).

Lemma ip_elements_split i nv lv : ip_elements i nv lv = before_nonce i ++ (TlvType.Nonce, nv) :: after_nonce i lv.
Proof. done. Qed.

Lemma nonce_not_before i : TlvType.Nonce ∉ map fst (before_nonce i).
Proof. unfold before_nonce. destruct (negb _); by_decide. Qed.

(** Replacing a value by one of the same length moves nothing. *)
Lemma element_blocks_same buffer t v v' es : length v = length v' -> forall off,
  element_blocks buffer off ((t, v) :: es) = element_blocks buffer off ((t, v') :: es).
Proof. intros Hl off. cbn [element_blocks fst snd]. unfold header_length, len. cbn [fst snd]. by rewrite Hl. Qed.

Lemma wires_nonce_len i nv nv' lv : length nv = length nv' -> length (wires (ip_elements i nv lv)) = length (wires (ip_elements i nv' lv)).
Proof.
  intros Hl. rewrite !ip_elements_split, !wires_app, !wires_cons, !length_app, !length_tlv_wire. unfold header_length, len. cbn [fst snd]. by rewrite Hl.
Qed.

Lemma map_patch_element_blocks off bytes buffer es : forall k,
  map (patch_block off bytes) (element_blocks buffer k es) = element_blocks (patch off bytes buffer) k es.
Proof. induction es as [|x es IH]; intros k; cbn [element_blocks map]; [done|]. by rewrite IH. Qed.

(** The buffer of a received Interest, and where its nonce is *)
Section Nonce.
Context (i : InterestPacket) (nv lv : list Z).
Hypothesis Hok : ip_ok i nv lv.

Definition interest_header : list Z := writeVarNumber TlvType.Interest ++ writeVarNumber (len (wires (ip_elements i nv lv))).
Definition interest_buffer : list Z := tlv_wire TlvType.Interest (wires (ip_elements i nv lv)).
Definition nonce_begin : nat := (length interest_header + length (wires (before_nonce i)))%nat.
Definition nonce_value : nat := (nonce_begin + header_length (TlvType.Nonce, nv))%nat.

Lemma interest_buffer_eq : interest_buffer = interest_header ++ wires (ip_elements i nv lv).
Proof. unfold interest_buffer, interest_header. by rewrite tlv_wire_unfold, app_assoc. Qed.

Lemma wf_interest : wf_element (TlvType.Interest, wires (ip_elements i nv lv)) /\ wf_bytes interest_buffer.
Proof.
  assert (Hel : wf_element (TlvType.Interest, wires (ip_elements i nv lv))) by (split; [by vm_compute|apply Hok]).
  split; [done|]. apply wf_tlv_wire; [done|]. by apply wf_fields_bytes, wf_ip_elements.
Qed.

Lemma received_blocks r i1 : Block_of_buffer interest_buffer = Ok r -> Interest_wireDecode r = Ok i1 ->
  ip_wire i1 = set_subBlocks r (element_blocks interest_buffer (length interest_header) (ip_elements i nv lv)) /\
  r = Block_raw interest_buffer TlvType.Interest 0 (length interest_buffer) (length interest_header) (length interest_buffer) /\
  Some (ip_nonce i1) = head (element_blocks interest_buffer nonce_begin ((TlvType.Nonce, nv) :: after_nonce i lv)) /\ ip_read i i1 nv lv.
Proof.
  intros Hr Hd. destruct wf_interest as [Hel Hwb]. pose proof (wf_ip_elements i nv lv Hok) as Hwf.
  destruct (Block_of_buffer_built _ _ Hel) as (r'&Hr'&Hbu). fold interest_buffer in Hr'. rewrite Hr in Hr'. injection Hr' as <-.
  pose proof (built_elem_ok _ _ _ Hbu (wf_fields_bytes _ Hwf)) as Hb. destruct (Interest_decode_elem r i nv lv Hb Hok) as (i1'&Hd'&Hread).
  rewrite Hd in Hd'. injection Hd' as <-. destruct (Interest_decode_parts r i1 Hd) as (w&Hw&Hget&Hiw). apply (Block_of_buffer_raw _ _ _ Hel) in Hr.
  fold interest_buffer in Hr. replace (length interest_buffer - length (wires (ip_elements i nv lv)))%nat with (length interest_header) in Hr
    by (rewrite interest_buffer_eq, length_app; lia).
  assert (Hw' : w = set_subBlocks r (element_blocks interest_buffer (length interest_header) (ip_elements i nv lv))).
  { destruct (parse_elements r (ip_elements i nv lv) [] (ek_wf _ _ Hb) (ek_sub _ _ Hb) (proj1 Hwf)) as (bf&Hbf&_&Hp).
    - by rewrite app_nil_r, (elem_ok_value _ _ Hb).
    - done.
    - unfold Block_parse in Hw. rewrite Hp, parse_loop_nil in Hw. injection Hw as <-. rewrite Hr in Hbf. injection Hbf as <-. by rewrite Hr. }
  rewrite Hiw. split_and!; try done. unfold get, find in Hget. rewrite Hw' in Hget. cbn [set_subBlocks m_subBlocks] in Hget.
  rewrite ip_elements_split, find_element_blocks in Hget by apply nonce_not_before. fold nonce_begin in Hget.
  destruct (head _); [|done]. by injection Hget as ->.
Qed.

Lemma patched_buffer bytes : length nv = length bytes ->
  patch nonce_value bytes interest_buffer = tlv_wire TlvType.Interest (wires (ip_elements i bytes lv)) /\
  patch nonce_value bytes interest_buffer = interest_header ++ wires (ip_elements i bytes lv).
Proof.
  intros Hl. pose proof (wires_nonce_len i nv bytes lv Hl) as Hwl.
  assert (He : interest_header ++ wires (ip_elements i bytes lv) = tlv_wire TlvType.Interest (wires (ip_elements i bytes lv))).
  { rewrite tlv_wire_unfold, app_assoc. unfold interest_header, len. by rewrite Hwl. }
  rewrite <- He. enough (patch nonce_value bytes interest_buffer = interest_header ++ wires (ip_elements i bytes lv)) by done.
  set (hdr := writeVarNumber TlvType.Nonce ++ writeVarNumber (len nv)).
  assert (Hb : interest_buffer = (interest_header ++ wires (before_nonce i) ++ hdr) ++ nv ++ wires (after_nonce i lv)).
  { rewrite interest_buffer_eq, ip_elements_split, wires_app, wires_cons, (tlv_wire_unfold TlvType.Nonce). unfold hdr. by rewrite <- !app_assoc. }
  assert (Hoff : nonce_value = length (interest_header ++ wires (before_nonce i) ++ hdr)).
  { rewrite !length_app. unfold nonce_value, nonce_begin, hdr, header_length. rewrite length_app. cbn [fst snd]. lia. }
  rewrite Hoff, Hb, patch_app by done. rewrite (ip_elements_split i bytes lv), wires_app, wires_cons, (tlv_wire_unfold TlvType.Nonce).
  unfold hdr, len. rewrite Hl. by rewrite <- !app_assoc.
Qed.
End Nonce.

Lemma wire_patch_raw off bytes buffer t vb subs : buffer <> [] -> length (patch off bytes buffer) = length buffer ->
  wire (patch_block off bytes (set_subBlocks (Block_raw buffer t 0 (length buffer) vb (length buffer)) subs)) = Ok (patch off bytes buffer).
Proof.
  intros Hne Hl. unfold wire, hasWire. cbn [set_subBlocks Block_raw patch_block m_buffer m_begin m_end m_type m_size m_value_begin m_value_end m_subBlocks fmap option_fmap option_map].
  destruct buffer as [|x buffer]; [done|]. cbn [length Nat.eqb negb]. rewrite <- (slice_all (patch off bytes (x :: buffer))) at 2. by rewrite Hl.
Qed.

(** C38. Changing the nonce of a received Interest in its buffer is the same as
    encoding it anew: the bytes are those of the Interest with the new nonce
    and nothing else changed, and the nonce that is read is the new one. *)
Theorem setNonce_in_place i nv lv r i1 word n : ip_ok i nv lv -> length nv = 4%nat -> 0 <= n < U32 ->
  Block_of_buffer (tlv_wire TlvType.Interest (wires (ip_elements i nv lv))) = Ok r -> Interest_wireDecode r = Ok i1 ->
  exists i2, setNonce n i1 = Ok i2 /\ ip_read i i2 (le_bytes n) lv /\ getNonce word i2 = Ok (n, i2).
Proof.
  intros Hok Hnv Hn Hr Hd. destruct (received_blocks i nv lv Hok r i1 Hr Hd) as (Hw&Hraw&Hnon&Hread).
  assert (Hl : length nv = length (le_bytes n)) by (unfold le_bytes; by rewrite length_rev, length_be_encode).
  destruct (patched_buffer i nv lv (le_bytes n) Hl) as [Hp1 Hp2]. set (es' := ip_elements i (le_bytes n) lv) in *.
  set (buffer' := patch (nonce_value i nv lv) (le_bytes n) (interest_buffer i nv lv)) in *.
  assert (Hwfb : wf_bytes buffer').
  { pose proof (proj2 (wf_interest i nv lv Hok)). apply wf_bytes_app. split; [by apply wf_bytes_take|].
    apply wf_bytes_app. split; [apply wf_le_bytes|by apply wf_bytes_drop]. }
  cbn [element_blocks head] in Hnon. injection Hnon as Hnon.
  assert (Hvb : m_value_begin (ip_nonce i1) = nonce_value i nv lv) by (rewrite Hnon; done).
  assert (Hne : elem_ok (patch_block (nonce_value i nv lv) (le_bytes n) (ip_nonce i1)) (TlvType.Nonce, le_bytes n)).
  { assert (Hsplit : buffer' = (interest_header i nv lv ++ wires (before_nonce i)) ++ wires ((TlvType.Nonce, le_bytes n) :: after_nonce i lv) ++ [])
      by (rewrite Hp2, app_nil_r; unfold es'; by rewrite ip_elements_split, wires_app, <- app_assoc).
    pose proof (element_blocks_ok _ _ _ _ Hsplit Hwfb) as Hels. rewrite length_app in Hels. fold (nonce_begin i nv lv) in Hels.
    rewrite (element_blocks_same _ _ (le_bytes n) nv) in Hels by done. cbn [element_blocks fst snd] in Hels. apply Forall2_cons in Hels as [Hne _].
    rewrite Hnon. exact Hne. }
  exists (with_nonce (patch_block (nonce_value i nv lv) (le_bytes n) (ip_nonce i1)) (patch_block (nonce_value i nv lv) (le_bytes n) (ip_wire i1)) i1).
  split_and!.
  - unfold setNonce. rewrite (hasWire_of_wire _ _ (ir_wire _ _ _ _ Hread)), (ek_size _ _ (ir_nonce _ _ _ _ Hread)). cbn [snd]. unfold len. rewrite Hnv. cbn [andb Z.eqb].
    by rewrite Hvb.
  - destruct Hread as [R1 R2 R3 R4 R5 R6 R7 R8]. split; try done; [|rewrite <- R8; cbn [with_nonce ip_wire]; by destruct (ip_wire i1)]. cbn [with_nonce ip_wire]. fold es'. rewrite Hw, Hraw, <- Hp1. apply wire_patch_raw.
    + rewrite interest_buffer_eq. unfold interest_header. rewrite <- app_assoc. intros [Hnil _]%app_eq_nil. by apply (writeVarNumber_not_nil TlvType.Interest).
    + fold buffer'. rewrite Hp2, interest_buffer_eq, !length_app. f_equal. symmetry. by apply wires_nonce_len.
  - unfold getNonce, hasNonce. cbn [with_nonce ip_nonce]. rewrite (hasWire_of_wire _ _ (ek_wire _ _ Hne)). cbn [rbind with_nonce ip_nonce].
    rewrite (ek_size _ _ Hne). cbn [snd]. rewrite len_le_bytes. cbn [Z.eqb]. rewrite (elem_ok_value _ _ Hne). cbn [snd]. by rewrite le_value_bytes.
Qed.

(** The decoder does not look at the nonce: an Interest whose nonce has a
    length other than 1, 2, 4 or 8 is decoded, and reading its nonce throws.
    The forwarder reads it after it has inserted the PIT entry. *)
Theorem interest_malformed_nonce b i nv lv word : ip_ok i nv lv -> elem_ok b (TlvType.Interest, wires (ip_elements i nv lv)) ->
  ~ len nv ∈ [1; 2; 4; 8] ->
  exists i1, Interest_wireDecode b = Ok i1 /\ getNonce word i1 = Err BadIntegerLength.
Proof.
  intros Hok Hb Hl. destruct (Interest_decode_elem b i nv lv Hb Hok) as (i1&Hd&Hr). exists i1. split; [done|].
  pose proof (ir_nonce _ _ _ _ Hr) as Hn. unfold getNonce, hasNonce. rewrite (hasWire_of_wire _ _ (ek_wire _ _ Hn)). cbn [rbind].
  unfold readNonNegativeIntegerBlock, readNonNegativeInteger. rewrite (ek_size _ _ Hn). cbn [snd]. rewrite !not_elem_of_cons in Hl. destruct Hl as (H1&H2&H4&H8&_).
  by rewrite !(proj2 (Z.eqb_neq _ _)).
Qed.

(** ** An Interest with a link *)

Module InterestSamples.
Import LinkSamples.

Definition selectors : Selectors := MkSelectors 1 3 KeyLocator_new (MkExclude [] None) (-1) true None.

(** [/A], for two seconds, with the second delegation of the link selected, and
    no nonce yet *)
Definition interest : InterestPacket :=
  MkInterestPacket [MkComponent TlvType.NameComponent [65]] selectors Block_empty 2000 link (Some 1%nat) Block_empty.
Definition word : Z := 16909060.
Definition chosen : InterestPacket := Eval vm_compute in from_ok interest (nonce_chosen word interest).

Ltac by_ip_ok := split;
  [by_decide|split; [by vm_compute|by vm_compute|by vm_compute|split; [by_decide|exact I]|discriminate|by vm_compute]|by vm_compute|by vm_compute|
   intros _; by vm_compute|
   intros k [= <-]; split; [by vm_compute|]; exists link_fields, delegations; split; [done|];
     split; [by_decide|]; split; [by vm_compute|]; split; [exact delegations_ok|]; split; [simpl; lia|by vm_compute]|
   split; by_decide|by vm_compute].

Lemma ip_ok_chosen : ip_ok chosen (le_bytes word) (wires link_fields).
Proof. by_ip_ok. Qed.

Lemma interest_roundtrip_witness : exists b i2 w r i3, Interest_wire word interest = Ok (b, i2) /\ wire b = Ok w /\ Block_of_buffer w = Ok r /\
  Interest_wireDecode r = Ok i3 /\ ip_read chosen i3 (le_bytes word) (wires link_fields) /\ ip_read chosen i2 (le_bytes word) (wires link_fields).
Proof. apply interest_roundtrip; [vm_compute; reflexivity|exact ip_ok_chosen|reflexivity]. Defined.

(** The Interest as it is received *)
Definition received_interest : InterestPacket := Eval vm_compute in
  from_ok interest (let! r := Block_of_buffer (tlv_wire TlvType.Interest (wires (ip_elements chosen (le_bytes word) (wires link_fields)))) in Interest_wireDecode r).

Lemma setNonce_in_place_witness : exists i2, setNonce 7 received_interest = Ok i2 /\ ip_read chosen i2 [7; 0; 0; 0] (wires link_fields) /\
  getNonce 0 i2 = Ok (7, i2).
Proof.
  eapply (setNonce_in_place chosen (le_bytes word) (wires link_fields) _ received_interest 0 7);
    [exact ip_ok_chosen|reflexivity|split; [discriminate|reflexivity]|vm_compute; reflexivity|vm_compute; reflexivity].
Defined.

(** An Interest with a nonce of three bytes *)
Definition odd_nonce : InterestPacket := Eval vm_compute in
  with_nonce (from_ok Block_empty (makeBinaryBlock TlvType.Nonce [1; 2; 3])) Block_empty interest.
Definition odd_block : Block := Eval vm_compute in
  from_ok Block_empty (Block_of_buffer (tlv_wire TlvType.Interest (wires (ip_elements odd_nonce [1; 2; 3] (wires link_fields))))).

Lemma ip_ok_odd : ip_ok odd_nonce [1; 2; 3] (wires link_fields).
Proof. by_ip_ok. Qed.

Lemma interest_malformed_nonce_witness : exists i1, Interest_wireDecode odd_block = Ok i1 /\ getNonce 0 i1 = Err BadIntegerLength.
Proof. apply (interest_malformed_nonce odd_block odd_nonce [1; 2; 3] (wires link_fields) 0); [exact ip_ok_odd|by_elem|by_decide]. Defined.
End InterestSamples.
