(* ===== verification/CsEntry.v ===== *)
(** * Content store entries: [NFD/daemon/table/cs-entry.cpp] and
      [cs-entry-impl.cpp]

    An entry holds a Data, whether it is unsolicited, and the time at which
    it becomes stale.  Times are nanoseconds of [time::steady_clock]; the
    current time is an argument of the operations that read the clock. *)

From S2P Require Import Prelude StdMap Tlv Block Encoder NameComponent Name Exclude Packet.

(** [time::steady_clock::TimePoint::max()] *)
Definition TIME_MAX : Z := 2 ^ 63 - 1.

(** [time::milliseconds] as a duration of the clock *)
Definition milliseconds (n : Z) : Z := n * 1000000.

Record Entry := MkEntry {
  e_data : Data;
  e_isUnsolicited : bool;
  e_staleTime : Z
}.

Definition staleTimeOf (d : Data) (now : Z) : Z :=
  if 0 <=? d_freshnessPeriod d then now + milliseconds (d_freshnessPeriod d) else TIME_MAX.

Definition updateStaleTime (now : Z) (e : Entry) : Entry :=
  MkEntry (e_data e) (e_isUnsolicited e) (staleTimeOf (e_data e) now).

Definition setData (d : Data) (isUnsolicited : bool) (now : Z) : Entry :=
  MkEntry d isUnsolicited (staleTimeOf d now).

Definition unsetUnsolicited (now : Z) (e : Entry) : Entry := setData (e_data e) false now.

Definition isStale (now : Z) (e : Entry) : bool := e_staleTime e <? now.

Definition canStale (e : Entry) : bool := e_staleTime e <? TIME_MAX.

Section Order.
Context `{Sha256}.

Definition canSatisfy (now : Z) (i : Interest) (e : Entry) : bool :=
  if negb (matchesData i (e_data e)) then false
  else if s_mustBeFresh (i_selectors i) && isStale now e then false
  else true.

(** The order of the table: by name, then by digest.  [data.getFullName()[-1]]
    is the digest of the Data. *)
Definition compareQueryWithData (queryName : Name) (d : Data) : Z :=
  let queryIsFullName := match last queryName with
                         | Some c => isImplicitSha256Digest c
                         | None => false
                         end in
  let cmp := if queryIsFullName
             then Name_compare (take (length queryName - 1) queryName) (d_name d)
             else Name_compare queryName (d_name d) in
  if negb (cmp =? 0) then cmp
  else
    match last queryName with
    | Some c => if queryIsFullName then compare c (digest d) else -1
    | None => -1
    end.

Definition compareDataWithData (lhs rhs : Data) : Z :=
  let cmp := Name_compare (d_name lhs) (d_name rhs) in
  if negb (cmp =? 0) then cmp else compare (digest lhs) (digest rhs).

(** [EntryImpl::operator<]: two entries, and an entry against a query. *)
Definition Entry_lt (a b : Entry) : bool := compareDataWithData (e_data a) (e_data b) <? 0.
Definition Entry_lt_query (a : Entry) (q : Name) : bool := 0 <? compareQueryWithData q (e_data a).

(** [m_table.lower_bound(name)], a position in the table. *)
Fixpoint lower_bound_query (q : Name) (t : list Entry) : nat :=
  match t with
  | [] => 0
  | e :: t' => if Entry_lt_query e q then S (lower_bound_query q t') else 0
  end.

(** [m_table.insert(entry)]: the position of the entry with that name and
    digest, whether it is new, and the table. *)
Fixpoint table_insert (x : Entry) (t : list Entry) : nat * bool * list Entry :=
  match t with
  | [] => (0%nat, true, [x])
  | e :: t' =>
      if Entry_lt e x then
        let '(i, isNew, t'') := table_insert x t' in (S i, isNew, e :: t'')
      else if Entry_lt x e then (0%nat, true, x :: t)
      else (0%nat, false, t)
  end.
End Order.

(** ** The table order as a total order on keys *)

(** The key of an entry: its name and its digest.  A query that is not a full
    name comes before all the entries of that name. *)
Abbreviation Key := (Name * option Component)%type (only parsing).

Definition key_cmp (a b : Key) : Z :=
  let r := Name_compare a.1 b.1 in
  if negb (r =? 0) then r
  else
    match a.2, b.2 with
    | None, None => 0
    | None, Some _ => -1
    | Some _, None => 1
    | Some c, Some d => compare c d
    end.

Definition wf_key (k : Key) : Prop :=
  bytes_name k.1 /\ match k.2 with Some c => wf_bytes (c_value c) | None => True end.

#[global] Instance key_total : TotalCompare wf_key key_cmp.
Proof.
  constructor.
  - intros [n [c|]]; unfold key_cmp; simpl; rewrite (cmp_refl (P := bytes_name)); simpl; [|done].
    apply (cmp_refl (P := fun c => wf_bytes (c_value c))).
  - intros [n x] [m y] [Hn Hx] [Hm Hy]. unfold key_cmp. simpl in *.
    destruct (Z.eqb_spec (Name_compare n m) 0) as [E|]; simpl; [|done]. apply cmp_eq in E as ->; [|done..].
    destruct x, y; try done. intros E. f_equal. f_equal. by apply (cmp_eq (P := fun c => wf_bytes (c_value c))).
  - intros [n x] [m y] [Hn Hx] [Hm Hy]. unfold key_cmp. simpl in *. pose proof (cmp_anti n m Hn Hm) as Ha.
    destruct (Z.eqb_spec (Name_compare n m) 0) as [E|E], (Z.eqb_spec (Name_compare m n) 0) as [E'|E']; simpl;
      try done; try (rewrite ?E, ?E' in Ha; simpl in Ha; lia).
    destruct x, y; try done. by apply (cmp_anti (P := fun c => wf_bytes (c_value c))).
  - intros [n x] [m y] [o z] [Hn Hx] [Hm Hy] [Ho Hz]. unfold key_cmp. simpl in *.
    destruct (Z.eqb_spec (Name_compare n m) 0) as [E|E]; simpl.
    + apply cmp_eq in E as ->; [|done..]. destruct (Z.eqb_spec (Name_compare m o) 0); simpl; [|done].
      destruct x, y, z; try done. by apply (cmp_trans (P := fun c => wf_bytes (c_value c))).
    + intros H1. destruct (Z.eqb_spec (Name_compare m o) 0) as [E'|E']; simpl.
      * apply cmp_eq in E' as ->; [|done..]. intros _. by rewrite (proj2 (Z.eqb_neq _ _)).
      * intros H2. pose proof (cmp_trans n m o Hn Hm Ho H1 H2). by rewrite (proj2 (Z.eqb_neq _ _)) by lia.
Qed.

Section Keys.
Context `{Sha256}.

Definition data_key (d : Data) : Key := (d_name d, Some (digest d)).
Definition entry_key (e : Entry) : Key := data_key (e_data e).

Definition query_key (q : Name) : Key :=
  match last q with
  | Some c => if isImplicitSha256Digest c then (take (length q - 1) q, Some c) else (q, None)
  | None => (q, None)
  end.

Lemma compareQuery_key q d : compareQueryWithData q d = key_cmp (query_key q) (data_key d).
Proof.
  unfold compareQueryWithData, query_key. destruct (last q) as [c|]; [|done].
  by destruct (isImplicitSha256Digest c).
Qed.

Lemma compareData_key a b : compareDataWithData a b = key_cmp (data_key a) (data_key b).
Proof. done. Qed.

Definition wf_data (d : Data) : Prop := bytes_name (d_name d).
Definition wf_entry (e : Entry) : Prop := wf_data (e_data e).

Lemma wf_data_key d : wf_data d -> wf_key (data_key d).
Proof. intros Hd. split; [done|]. apply sha256_bytes. Qed.

Lemma wf_query_key q : bytes_name q -> wf_key (query_key q).
Proof.
  intros Hq. unfold query_key. destruct (last q) as [c|] eqn:Hl; [|done].
  destruct (isImplicitSha256Digest c); [|done]. split; simpl.
  - by apply Forall_take.
  - apply last_Some_elem_of in Hl. unfold bytes_name in Hq. rewrite Forall_forall in Hq. by apply Hq.
Qed.

(** The table: sorted by key. *)
Definition sorted_table (t : list Entry) : Prop :=
  StronglySorted (fun a b => key_cmp (entry_key a) (entry_key b) < 0) t.
Definition wf_table (t : list Entry) : Prop := sorted_table t /\ Forall wf_entry t.
End Keys.

(** ** Names under a prefix *)

Definition gen_name (n : Name) : Prop := Forall gen n.
#[global] Instance gen_name_dec n : Decision (gen_name n).
Proof. unfold gen_name. apply _. Defined.

Lemma gen_name_bytes n : gen_name n -> bytes_name n.
Proof. intros Hn. eapply Forall_impl; [exact Hn|]. by intros c [_ ?]. Qed.
#[export] Hint Resolve gen_name_bytes : ndn.

Lemma gen_not_digest c : gen c -> isImplicitSha256Digest c = false.
Proof. intros [Ht _]. unfold isImplicitSha256Digest. by rewrite Ht. Qed.

Lemma prefix_le p n : p `prefix_of` n -> Name_compare p n <= 0.
Proof. intros [k ->]. rewrite <- (app_nil_r p) at 1. rewrite Name_compare_app. apply Name_compare_nil_l. Qed.

(** What lies between a prefix and one of its extensions extends the prefix. *)
Lemma prefix_between p : forall a b, bytes_name p -> bytes_name a -> p `prefix_of` b ->
  Name_compare p a <= 0 -> Name_compare a b <= 0 -> p `prefix_of` a.
Proof.
  induction p as [|c p IH]; intros a b Hp Ha Hb H1 H2; [by exists a|].
  destruct a as [|x a]; [simpl in H1; rewrite len_cons in H1; pose proof (len_nonneg p); lia|].
  destruct Hb as [k ->]. apply Forall_cons in Hp as [Hc Hp]. apply Forall_cons in Ha as [Hx Ha].
  cbn [app Name_compare] in H1, H2. pose proof (cmp_anti c x Hc Hx) as Hanti.
  destruct (Z.eqb_spec (compare c x) 0) as [E|E], (Z.eqb_spec (compare x c) 0) as [E'|E']; simpl in *;
    try (rewrite ?E, ?E' in Hanti; simpl in Hanti; lia).
  apply cmp_eq in E as ->; [|done..]. destruct (IH a (p ++ k)) as [l ->]; try done; [by exists k|by exists l].
Qed.

Lemma isPrefixOf_gen p n : gen_name p -> gen_name n -> isPrefixOf p n = true -> p `prefix_of` n.
Proof.
  unfold isPrefixOf. destruct (Z.ltb_spec (len n) (len p)) as [|Hl]; [done|]. intros Hp. revert n Hl.
  induction Hp as [|c p Hc Hp IH]; intros n Hl Hn H.
  { by exists n. }
  destruct n as [|d n]; [done|]. apply Forall_cons in Hn as [Hd Hn]. cbn [components_match] in H.
  destruct (equals c d) eqn:E; [|done]. apply equals_value in E.
  assert (c = d) as -> by (destruct c, d, Hc, Hd; simpl in *; congruence).
  destruct (IH n) as [k ->]; [rewrite !len_cons in Hl; lia|done|done|]. by exists k.
Qed.

Lemma Name_equals_gen a b : gen_name a -> gen_name b -> Name_equals a b = true <-> a = b.
Proof.
  intros Ha Hb. unfold Name_equals. split.
  - destruct (Z.eqb_spec (len a) (len b)) as [Hl|]; [|done]. cbn [negb]. intros Hm.
    assert (Hp : isPrefixOf a b = true) by (unfold isPrefixOf; by rewrite Hl, Z.ltb_irrefl).
    apply isPrefixOf_gen in Hp as [k ->]; [|done|done]. rewrite len_app in Hl.
    destruct k; [by rewrite app_nil_r|]. rewrite len_cons in Hl. pose proof (len_nonneg k). lia.
  - intros ->. rewrite Z.eqb_refl. cbn [negb]. clear. induction b as [|c b IH]; [done|]. simpl.
    by rewrite (proj2 (equals_value c c)).
Qed.

Lemma getPrefix_take n k : 0 <= k <= len n -> len n < u64_max -> getPrefix n k = take (Z.to_nat k) n.
Proof.
  intros Hk Hl. unfold getPrefix. rewrite (proj2 (Z.ltb_ge _ _)), getSubName_take by width_lia.
  by rewrite Z.min_r by lia.
Qed.

(** ** Positions in the table *)

Section Positions.
Context `{Sha256}.
Implicit Types (t : list Entry) (e x : Entry).

Lemma sorted_lookup t i j a b : sorted_table t -> t !! i = Some a -> t !! j = Some b -> (i < j)%nat ->
  key_cmp (entry_key a) (entry_key b) < 0.
Proof.
  intros Hs. revert i j. induction Hs as [|y t Hs IH Hy]; intros [|i] [|j] Ha Hb Hij; simpl in *; try done; try lia.
  - injection Ha as ->. rewrite Forall_forall in Hy. apply Hy. by eapply list_elem_of_lookup_2.
  - by apply (IH i j); [..|lia].
Qed.

Lemma wf_lookup t i e : wf_table t -> t !! i = Some e -> wf_key (entry_key e).
Proof.
  intros [_ Hf] He. apply wf_data_key. rewrite Forall_forall in Hf. apply Hf. by eapply list_elem_of_lookup_2.
Qed.

Lemma lt_query_key e q : wf_entry e -> bytes_name q ->
  Entry_lt_query e q = true <-> key_cmp (entry_key e) (query_key q) < 0.
Proof.
  intros He Hq. unfold Entry_lt_query. rewrite Z.ltb_lt, compareQuery_key.
  symmetry. apply cmp_swap; [by apply wf_data_key|by apply wf_query_key].
Qed.

(** [lower_bound] is the position of the first entry at or after the query. *)
Lemma lower_bound_pos t q i e : wf_table t -> bytes_name q -> t !! i = Some e ->
  (i < lower_bound_query q t)%nat <-> key_cmp (entry_key e) (query_key q) < 0.
Proof.
  intros Ht Hq. revert i. destruct Ht as [Hs Hf]. induction Hs as [|y t Hs IH Hy]; intros i Hi; [done|].
  apply Forall_cons in Hf as [Hwy Hf]. cbn [lower_bound_query].
  destruct (Entry_lt_query y q) eqn:E.
  - destruct i as [|i]; simpl in Hi.
    + injection Hi as ->. apply lt_query_key in E; [|done..]. split; [done|lia].
    + rewrite <- IH by done. lia.
  - assert (0 <= key_cmp (entry_key y) (query_key q)).
    { destruct (Z_lt_le_dec (key_cmp (entry_key y) (query_key q)) 0) as [Hlt|]; [|done].
      apply lt_query_key in Hlt; [congruence|done..]. }
    split; [lia|]. intros Hlt. exfalso. destruct i as [|i]; simpl in Hi; [injection Hi as ->; lia|].
    rewrite Forall_forall in Hy, Hf. assert (Hin : e ∈ t) by (by eapply list_elem_of_lookup_2).
    specialize (Hy e Hin). specialize (Hf e Hin).
    pose proof (cmp_trans (cmp := key_cmp) (entry_key y) (entry_key e) (query_key q)
      (wf_data_key _ Hwy) (wf_data_key _ Hf) (wf_query_key _ Hq) Hy Hlt). lia.
Qed.

Lemma lower_bound_le t q : (lower_bound_query q t <= length t)%nat.
Proof. induction t as [|y t IH]; simpl; [lia|]. destruct (Entry_lt_query y q); lia. Qed.

(** Insertion: the table stays sorted; a new entry goes to its place, and an
    entry with the same name and digest is found. *)
Lemma table_insert_spec x t i isNew t' : wf_table t -> wf_entry x -> table_insert x t = (i, isNew, t') ->
  wf_table t' /\
  if isNew then t' = take i t ++ x :: drop i t /\ (i <= length t)%nat /\ (forall e, e ∈ t -> entry_key e <> entry_key x)
  else t' = t /\ exists e, t !! i = Some e /\ entry_key e = entry_key x.
Proof.
  intros [Hs Hf] Hx. revert i isNew t'. induction Hs as [|y t Hs IH Hy]; intros i isNew t' Hins; cbn [table_insert] in Hins.
  { injection Hins as <- <- <-. split; [split; [repeat constructor|by apply Forall_singleton]|].
    split_and!; [done|simpl; lia|]. intros e He. by apply elem_of_nil in He. }
  apply Forall_cons in Hf as [Hwy Hf]. unfold Entry_lt in Hins. rewrite !compareData_key in Hins.
  pose proof (wf_data_key _ Hwy) as Hky. pose proof (wf_data_key _ Hx) as Hkx.
  pose proof (cmp_swap (cmp := key_cmp) _ _ Hkx Hky) as Hsw.
  fold (entry_key y) in *. fold (entry_key x) in *.
  destruct (Z.ltb_spec (key_cmp (entry_key y) (entry_key x)) 0) as [Hyx|Hyx].
  - destruct (table_insert x t) as [[j n] t''] eqn:E. injection Hins as <- <- <-.
    destruct (IH Hf j n t'' eq_refl) as [[Hs' Hf'] Hc]. destruct n.
    + destruct Hc as (->&Hj&Hne). split_and!; [|done|simpl; lia|].
      * split; [|by constructor]. constructor; [done|]. rewrite <- (take_drop j t) in Hy.
        apply Forall_app in Hy as [? ?]. apply Forall_app. split; [done|]. by constructor.
      * intros e [->|He]%elem_of_cons; [|by apply Hne]. intros Heq. rewrite Heq in Hyx.
        rewrite (cmp_refl (P := wf_key)) in Hyx. lia.
    + destruct Hc as (->&e&He&Hk). split; [split; by constructor|]. split; [done|]. by exists e.
  - destruct (Z.ltb_spec (key_cmp (entry_key x) (entry_key y)) 0) as [Hxy|Hxy]; injection Hins as <- <- <-.
    + assert (Hall : Forall (fun b => key_cmp (entry_key x) (entry_key b) < 0) (y :: t)).
      { constructor; [done|]. rewrite Forall_forall in *. intros b Hb.
        apply (cmp_trans (cmp := key_cmp) _ (entry_key y)); try done; [apply wf_data_key, Hf, Hb|by apply Hy]. }
      split; [split; [constructor; [by constructor|done]|by repeat constructor]|].
      split_and!; [done|simpl; lia|]. intros e He Heq. rewrite Forall_forall in Hall. apply Hall in He.
      rewrite Heq, (cmp_refl (P := wf_key)) in He. lia.
    + split; [split; by constructor|]. split; [done|]. exists y. split; [done|].
      apply (cmp_0 (cmp := key_cmp)); [done..|]. lia.
Qed.
End Positions.
