(* ===== verification/CsPolicy.v ===== *)
(** * Replacement policies of the content store:
      [NFD/daemon/table/cs-policy-priority-fifo.cpp], [cs-policy-lru.cpp]

    A policy keeps a cleanup index over the entries of the table.  An
    iterator of the table is the key of its entry.  The content store is
    modelled against the interface [CsPolicy], whose laws both policies
    satisfy.  A call whose assertion would fail has the result [Err]. *)

From S2P Require Import Prelude StdMap NameComponent Name Packet CsEntry.

#[global] Instance Component_countable : Countable Component.
Proof.
  apply (inj_countable' (fun c => (c_type c, c_value c)) (fun x => MkComponent x.1 x.2)). by intros [].
Defined.

Section Policies.
Context `{Sha256}.

(** [afterInsert] is the part of [doAfterInsert] before [evictEntries];
    [evictOne] chooses the entry to evict and forgets it. *)
Class CsPolicy (P : Type) := {
  p_empty : P;
  p_afterInsert : Z -> Entry -> P -> result P;
  p_afterRefresh : Z -> Entry -> P -> result P;
  p_beforeUse : Entry -> P -> result P;
  p_evictOne : P -> result (Key * P)
}.

(** What a policy promises: it tracks the entries it was told about, and
    as long as there is one it can choose one of them. *)
Class CsPolicyLaws (P : Type) `{CsPolicy P} := {
  p_inv : P -> Prop;
  tracked : P -> list Key;
  law_empty : p_inv p_empty /\ tracked p_empty = [];
  law_insert now e p : p_inv p -> entry_key e ∉ tracked p ->
    exists p', p_afterInsert now e p = Ok p' /\ p_inv p' /\ tracked p' ≡ₚ entry_key e :: tracked p;
  law_refresh now e p : p_inv p -> entry_key e ∈ tracked p ->
    exists p', p_afterRefresh now e p = Ok p' /\ p_inv p' /\ tracked p' ≡ₚ tracked p;
  law_use e p : p_inv p -> entry_key e ∈ tracked p ->
    exists p', p_beforeUse e p = Ok p' /\ p_inv p' /\ tracked p' ≡ₚ tracked p;
  law_evict p : p_inv p -> tracked p <> [] ->
    exists k p', p_evictOne p = Ok (k, p') /\ p_inv p' /\ tracked p ≡ₚ k :: tracked p'
}.

(** ** Priority FIFO *)

Inductive QueueType := QUEUE_UNSOLICITED | QUEUE_STALE | QUEUE_FIFO.

#[global] Instance QueueType_eq_dec : EqDecision QueueType.
Proof. solve_decision. Defined.

(** [moveStaleEventId] is the time the event is scheduled for. *)
Record EntryInfo := MkEntryInfo { queueType : QueueType; moveStaleEventId : option Z }.

Record PriorityFifoPolicy := MkFifo {
  q_unsolicited : list Key;
  q_stale : list Key;
  q_fifo : list Key;
  m_entryInfoMap : gmap Key EntryInfo
}.

Definition get_queue (q : QueueType) (p : PriorityFifoPolicy) : list Key :=
  match q with
  | QUEUE_UNSOLICITED => q_unsolicited p
  | QUEUE_STALE => q_stale p
  | QUEUE_FIFO => q_fifo p
  end.

Definition set_queue (q : QueueType) (l : list Key) (p : PriorityFifoPolicy) : PriorityFifoPolicy :=
  match q with
  | QUEUE_UNSOLICITED => MkFifo l (q_stale p) (q_fifo p) (m_entryInfoMap p)
  | QUEUE_STALE => MkFifo (q_unsolicited p) l (q_fifo p) (m_entryInfoMap p)
  | QUEUE_FIFO => MkFifo (q_unsolicited p) (q_stale p) l (m_entryInfoMap p)
  end.

Definition set_info (m : gmap Key EntryInfo) (p : PriorityFifoPolicy) : PriorityFifoPolicy :=
  MkFifo (q_unsolicited p) (q_stale p) (q_fifo p) m.

(** [queue.erase(it)]: an entry is in a queue at most once. *)
Definition queue_erase (k : Key) (l : list Key) : list Key := filter (.≠ k) l.

Definition attachQueue (now : Z) (e : Entry) (p : PriorityFifoPolicy) : result PriorityFifoPolicy :=
  let k := entry_key e in
  match m_entryInfoMap p !! k with
  | Some _ => Err InvalidArgument
  | None =>
      let info :=
        if e_isUnsolicited e then MkEntryInfo QUEUE_UNSOLICITED None
        else if isStale now e then MkEntryInfo QUEUE_STALE None
        else MkEntryInfo QUEUE_FIFO
               (if canStale e then Some (now + milliseconds (d_freshnessPeriod (e_data e))) else None) in
      let q := queueType info in
      Ok (set_info (<[k := info]> (m_entryInfoMap p)) (set_queue q (get_queue q p ++ [k]) p))
  end.

Definition detachQueue (k : Key) (p : PriorityFifoPolicy) : result PriorityFifoPolicy :=
  match m_entryInfoMap p !! k with
  | None => Err InvalidArgument
  | Some info =>
      let q := queueType info in
      Ok (set_info (delete k (m_entryInfoMap p)) (set_queue q (queue_erase k (get_queue q p)) p))
  end.

(** The scheduled event. *)
Definition moveToStaleQueue (k : Key) (p : PriorityFifoPolicy) : result PriorityFifoPolicy :=
  match m_entryInfoMap p !! k with
  | Some (MkEntryInfo QUEUE_FIFO ev) =>
      let p := set_queue QUEUE_FIFO (queue_erase k (q_fifo p)) p in
      let p := set_queue QUEUE_STALE (q_stale p ++ [k]) p in
      Ok (set_info (<[k := MkEntryInfo QUEUE_STALE ev]> (m_entryInfoMap p)) p)
  | _ => Err InvalidArgument
  end.

Definition Fifo_afterRefresh (now : Z) (e : Entry) (p : PriorityFifoPolicy) : result PriorityFifoPolicy :=
  let! p := detachQueue (entry_key e) p in attachQueue now e p.

Definition Fifo_beforeUse (e : Entry) (p : PriorityFifoPolicy) : result PriorityFifoPolicy :=
  match m_entryInfoMap p !! entry_key e with Some _ => Ok p | None => Err InvalidArgument end.

Definition Fifo_evictOne (p : PriorityFifoPolicy) : result (Key * PriorityFifoPolicy) :=
  let! i := match q_unsolicited p, q_stale p, q_fifo p with
            | k :: _, _, _ => Ok k
            | [], k :: _, _ => Ok k
            | [], [], k :: _ => Ok k
            | [], [], [] => Err InvalidArgument
            end in
  let! p := detachQueue i p in
  Ok (i, p).

#[global] Instance Fifo_policy : CsPolicy PriorityFifoPolicy := {
  p_empty := MkFifo [] [] [] ∅;
  p_afterInsert := attachQueue;
  p_afterRefresh := Fifo_afterRefresh;
  p_beforeUse := Fifo_beforeUse;
  p_evictOne := Fifo_evictOne
}.

(** ** LRU *)

(** The queue is a sequenced index with a unique key: [push_back] does
    nothing when the key is there. *)
Record LruPolicy := MkLru { m_queue : list Key }.

Definition insertToQueue (k : Key) (isNewEntry : bool) (p : LruPolicy) : result LruPolicy :=
  let isNew := negb (bool_decide (k ∈ m_queue p)) in
  let queue := if isNew then m_queue p ++ [k] else m_queue p in
  if negb (Bool.eqb isNew isNewEntry) then Err InvalidArgument
  else if negb isNewEntry then Ok (MkLru (queue_erase k queue ++ [k]))
  else Ok (MkLru queue).

Definition Lru_beforeErase (k : Key) (p : LruPolicy) : LruPolicy := MkLru (queue_erase k (m_queue p)).

Definition Lru_evictOne (p : LruPolicy) : result (Key * LruPolicy) :=
  match m_queue p with
  | [] => Err InvalidArgument
  | k :: l => Ok (k, MkLru l)
  end.

#[global] Instance Lru_policy : CsPolicy LruPolicy := {
  p_empty := MkLru [];
  p_afterInsert now e := insertToQueue (entry_key e) true;
  p_afterRefresh now e := insertToQueue (entry_key e) false;
  p_beforeUse e := insertToQueue (entry_key e) false;
  p_evictOne := Lru_evictOne
}.

(** ** The laws *)

Lemma queue_erase_notin k l : k ∉ l -> queue_erase k l = l.
Proof.
  unfold queue_erase. induction l as [|x l IH]; [done|]. rewrite not_elem_of_cons. intros [Hne Hk].
  rewrite filter_cons_True by done. by rewrite IH.
Qed.

Lemma queue_erase_perm k l : NoDup l -> k ∈ l -> l ≡ₚ k :: queue_erase k l.
Proof.
  intros Hnd Hk. induction Hnd as [|x l Hx Hnd IH]; [by apply elem_of_nil in Hk|].
  unfold queue_erase. rewrite filter_cons. case_decide as Hxk.
  - apply elem_of_cons in Hk as [->|Hk]; [done|]. rewrite IH at 1 by done. apply Permutation_swap.
  - subst x. constructor. fold (queue_erase k l). by rewrite queue_erase_notin.
Qed.

Lemma elem_of_queue_erase k x l : x ∈ queue_erase k l <-> x ∈ l /\ x <> k.
Proof. unfold queue_erase. rewrite list_elem_of_filter. tauto. Qed.

Lemma NoDup_queue_erase k l : NoDup l -> NoDup (queue_erase k l).
Proof. apply NoDup_filter. Qed.

Lemma NoDup_snoc (k : Key) l : NoDup l -> k ∉ l -> NoDup (l ++ [k]).
Proof.
  intros Hl Hk. apply NoDup_app. split_and!; [done| |by apply NoDup_singleton].
  intros x Hx ->%list_elem_of_singleton. done.
Qed.

(** Every key is in the queue that its [EntryInfo] names, once. *)
Definition fifo_tracked (p : PriorityFifoPolicy) : list Key := q_unsolicited p ++ q_stale p ++ q_fifo p.

Record fifo_inv (p : PriorityFifoPolicy) : Prop := {
  fifo_nodup q : NoDup (get_queue q p);
  fifo_info q k : k ∈ get_queue q p <-> queueType <$> m_entryInfoMap p !! k = Some q
}.

Lemma fifo_tracked_elem p k : k ∈ fifo_tracked p <-> exists q, k ∈ get_queue q p.
Proof.
  unfold fifo_tracked. rewrite !elem_of_app. split.
  - intros [?|[?|?]]; [by exists QUEUE_UNSOLICITED|by exists QUEUE_STALE|by exists QUEUE_FIFO].
  - intros [[] ?]; auto.
Qed.

Lemma fifo_tracked_info p k : fifo_inv p -> k ∈ fifo_tracked p <-> is_Some (m_entryInfoMap p !! k).
Proof.
  intros Hp. rewrite fifo_tracked_elem. split.
  - intros [q Hq]. apply (fifo_info p Hp) in Hq. by destruct (m_entryInfoMap p !! k).
  - intros [info Hi]. exists (queueType info). apply (fifo_info p Hp). by rewrite Hi.
Qed.

Lemma get_set_queue q q' l p m :
  get_queue q (set_info m (set_queue q' l p)) = if decide (q = q') then l else get_queue q p.
Proof. by destruct q, q'. Qed.

(** Adding a key to a queue, and taking it out. *)
Lemma tracked_add k q p m :
  fifo_tracked (set_info m (set_queue q (get_queue q p ++ [k]) p)) ≡ₚ k :: fifo_tracked p.
Proof.
  unfold fifo_tracked. destruct q; simpl; rewrite <- ?app_assoc; cbn [app].
  - symmetry. apply Permutation_middle.
  - by rewrite <- Permutation_middle, <- Permutation_middle.
  - by rewrite (app_assoc (q_unsolicited p)), <- Permutation_cons_append, <- Permutation_middle, app_assoc.
Qed.

Lemma tracked_remove k q p m : NoDup (get_queue q p) -> k ∈ get_queue q p ->
  fifo_tracked p ≡ₚ k :: fifo_tracked (set_info m (set_queue q (queue_erase k (get_queue q p)) p)).
Proof.
  intros Hnd Hk. pose proof (queue_erase_perm k _ Hnd Hk) as HP. unfold fifo_tracked.
  destruct q; simpl in *; rewrite HP at 1; cbn [app]; [done|..].
  - by rewrite <- Permutation_middle.
  - by rewrite app_assoc, <- Permutation_middle, <- app_assoc.
Qed.

Lemma attachQueue_ok now e p : fifo_inv p -> entry_key e ∉ fifo_tracked p ->
  exists q p', attachQueue now e p = Ok p' /\ fifo_inv p' /\ fifo_tracked p' ≡ₚ entry_key e :: fifo_tracked p /\
    (forall q', get_queue q' p' = get_queue q' p ++ (if decide (q' = q) then [entry_key e] else [])) /\
    (q = QUEUE_UNSOLICITED <-> e_isUnsolicited e = true).
Proof.
  intros Hp Hk. unfold attachQueue. set (k := entry_key e) in *.
  assert (Hnone : m_entryInfoMap p !! k = None).
  { apply eq_None_not_Some. by rewrite <- fifo_tracked_info. }
  rewrite Hnone. set (info := if e_isUnsolicited e then _ else _).
  exists (queueType info). eexists. split; [done|]. split_and!.
  - split.
    + intros q. rewrite get_set_queue. case_decide; [|apply Hp]. subst. apply NoDup_snoc; [apply Hp|].
      rewrite (fifo_info p Hp), Hnone. done.
    + intros q k'. rewrite get_set_queue. simpl.
      destruct (decide (k' = k)) as [->|Hne].
      * rewrite lookup_insert_eq. simpl. case_decide as Hq; [subst; rewrite elem_of_app, list_elem_of_singleton; tauto|].
        rewrite (fifo_info p Hp), Hnone. split; [done|]. intros [= Hq']. by destruct Hq.
      * rewrite lookup_insert_ne by done. rewrite <- (fifo_info p Hp).
        case_decide; [subst; rewrite elem_of_app, list_elem_of_singleton; tauto|done].
  - apply tracked_add.
  - intros q'. rewrite get_set_queue. case_decide; [by subst|by rewrite app_nil_r].
  - unfold info. destruct (e_isUnsolicited e); [done|]. by destruct (isStale now e).
Qed.

Lemma detachQueue_ok k p : fifo_inv p -> k ∈ fifo_tracked p ->
  exists p', detachQueue k p = Ok p' /\ fifo_inv p' /\ fifo_tracked p ≡ₚ k :: fifo_tracked p' /\
    forall q, get_queue q p' = queue_erase k (get_queue q p).
Proof.
  intros Hp Hk. unfold detachQueue. apply (fifo_tracked_info p k Hp) in Hk as [info Hi]. rewrite Hi.
  assert (Hin : k ∈ get_queue (queueType info) p) by (apply (fifo_info p Hp); by rewrite Hi).
  assert (Hother : forall q, q <> queueType info -> k ∉ get_queue q p).
  { intros q Hq. rewrite (fifo_info p Hp), Hi. simpl. congruence. }
  eexists. split; [done|]. split_and!.
  - split.
    + intros q. rewrite get_set_queue. case_decide; [apply NoDup_queue_erase|]; apply Hp.
    + intros q k'. rewrite get_set_queue. simpl. destruct (decide (k' = k)) as [->|Hne].
      * rewrite lookup_delete_eq. simpl. split; [|done]. case_decide as Hq.
        -- rewrite elem_of_queue_erase. tauto.
        -- intros Hk. by apply Hother in Hk.
      * rewrite lookup_delete_ne by done. rewrite <- (fifo_info p Hp).
        case_decide; [subst; rewrite elem_of_queue_erase; tauto|done].
  - apply tracked_remove; [apply Hp|done].
  - intros q. rewrite get_set_queue. case_decide; [by subst|]. by rewrite queue_erase_notin by auto.
Qed.

#[global] Instance Fifo_laws : CsPolicyLaws PriorityFifoPolicy.
Proof.
  refine {| p_inv := fifo_inv; tracked := fifo_tracked |}.
  - split; [|done]. split; [intros []; constructor|]. intros q k. simpl. rewrite lookup_empty.
    destruct q; simpl; split; try done; by rewrite elem_of_nil.
  - intros now e p Hp Hk. destruct (attachQueue_ok now e p Hp Hk) as (q&p'&?&?&?&_). by exists p'.
  - intros now e p Hp Hk. simpl. unfold Fifo_afterRefresh.
    destruct (detachQueue_ok _ p Hp Hk) as (p1&->&Hp1&HP1&Hq1). simpl.
    destruct (attachQueue_ok now e p1 Hp1) as (q&p2&->&Hp2&HP2&_).
    { rewrite fifo_tracked_elem. intros [q Hq]. rewrite Hq1, elem_of_queue_erase in Hq. tauto. }
    exists p2. split_and!; [done|done|]. by rewrite HP2, HP1.
  - intros e p Hp Hk. simpl. unfold Fifo_beforeUse.
    apply (fifo_tracked_info p _ Hp) in Hk as [info ->]. by exists p.
  - intros p Hp Hne. simpl. unfold Fifo_evictOne.
    assert (exists k, match q_unsolicited p, q_stale p, q_fifo p with
            | k :: _, _, _ => Ok k | [], k :: _, _ => Ok k | [], [], k :: _ => Ok k
            | [], [], [] => Err InvalidArgument end = Ok k /\ k ∈ fifo_tracked p) as (k&->&Hk).
    { unfold fifo_tracked in *. destruct (q_unsolicited p) as [|k ?]; [|exists k; split; [done|left]].
      destruct (q_stale p) as [|k ?]; [|exists k; split; [done|left]].
      destruct (q_fifo p) as [|k ?]; [done|exists k; split; [done|left]]. }
    simpl. destruct (detachQueue_ok k p Hp Hk) as (p1&->&Hp1&HP1&_). simpl. by exists k, p1.
Defined.

#[global] Instance Lru_laws : CsPolicyLaws LruPolicy.
Proof.
  refine {| p_inv p := NoDup (m_queue p); tracked := m_queue |}.
  - split; [constructor|done].
  - intros now e [q] Hq Hk. simpl in *. unfold insertToQueue. simpl. rewrite bool_decide_false by done.
    simpl. eexists. split; [done|]. split; [by apply NoDup_snoc|]. simpl. symmetry. apply Permutation_cons_append.
  - intros now e [q] Hq Hk. simpl in *. unfold insertToQueue. simpl. rewrite bool_decide_true by done.
    simpl. eexists. split; [done|]. simpl. split.
    + apply NoDup_snoc; [by apply NoDup_queue_erase|]. rewrite elem_of_queue_erase. tauto.
    + rewrite <- Permutation_cons_append. symmetry. by apply queue_erase_perm.
  - intros e [q] Hq Hk. simpl in *. unfold insertToQueue. simpl. rewrite bool_decide_true by done.
    simpl. eexists. split; [done|]. simpl. split.
    + apply NoDup_snoc; [by apply NoDup_queue_erase|]. rewrite elem_of_queue_erase. tauto.
    + rewrite <- Permutation_cons_append. symmetry. by apply queue_erase_perm.
  - intros [[|k q]] Hq Hne; [done|]. simpl in *. exists k, (MkLru q). apply NoDup_cons in Hq as [_ ?]. done.
Defined.
End Policies.
