(* ===== verification/Cs.v ===== *)
(** * The content store: [NFD/daemon/table/cs.cpp]

    The table of entries, sorted by name and digest; a replacement policy;
    insertion with eviction; and the lookup of the leftmost or the rightmost
    entry that satisfies an Interest.  Iterators into the table are positions.
    The operations are defined for any policy of the interface [CsPolicy]. *)

From S2P Require Import Prelude StdMap Tlv Block Encoder NameComponent Name KeyLocator Exclude Packet CsEntry CsPolicy.

Record Cs (P : Type) := MkCs { cs_table : list Entry; cs_policy : P; cs_limit : nat }.
Arguments MkCs {P}. Arguments cs_table {P}. Arguments cs_policy {P}. Arguments cs_limit {P}.

Section Cs.
Context `{Sha256} {P : Type} `{CsPolicy P}.

(** [m_table.erase(it)], the handler of the signal [beforeEvict] *)
Definition table_erase (k : Key) (t : list Entry) : list Entry := filter (fun e => entry_key e <> k) t.

(** [evictEntries], the loop of both policies; each iteration takes one
    entry out of the table, which bounds the iterations. *)
Fixpoint evict_loop (fuel : nat) (cs : Cs P) : result (Cs P) :=
  if (length (cs_table cs) <=? cs_limit cs)%nat then Ok cs
  else
    match fuel with
    | O => Err OutOfRange
    | S fuel =>
        let! kp := p_evictOne (cs_policy cs) in
        evict_loop fuel (MkCs (table_erase kp.1 (cs_table cs)) kp.2 (cs_limit cs))
    end.

Definition evictEntries (cs : Cs P) : result (Cs P) := evict_loop (length (cs_table cs)) cs.

Definition Cs_empty (nMaxPackets : nat) : Cs P := MkCs [] p_empty nMaxPackets.

Definition setLimit (nMaxPackets : nat) (cs : Cs P) : result (Cs P) :=
  evictEntries (MkCs (cs_table cs) (cs_policy cs) nMaxPackets).

Definition Cs_insert (now : Z) (d : Data) (isUnsolicited : bool) (cs : Cs P) : result (bool * Cs P) :=
  if d_noCache d then Ok (false, cs)
  else
    let '(it, isNewEntry, t) := table_insert (setData d isUnsolicited now) (cs_table cs) in
    match t !! it with
    | None => Err OutOfRange
    | Some entry =>
        let entry := updateStaleTime now entry in
        if negb isNewEntry then
          let entry := if e_isUnsolicited entry && negb isUnsolicited
                       then unsetUnsolicited now entry else entry in
          let! p := p_afterRefresh now entry (cs_policy cs) in
          Ok (true, MkCs (<[it := entry]> t) p (cs_limit cs))
        else
          let! p := p_afterInsert now entry (cs_policy cs) in
          let! cs' := evictEntries (MkCs (<[it := entry]> t) p (cs_limit cs)) in
          Ok (true, cs')
    end.

(** ** Lookup *)

(** [std::find_if] and [find_last_if] over the positions [[first, last)];
    [last] when nothing is found. *)
Fixpoint find_from (f : Entry -> bool) (i : nat) (l : list Entry) : option nat :=
  match l with
  | [] => None
  | e :: l' => if f e then Some i else find_from f (S i) l'
  end.

Definition find_if (f : Entry -> bool) (t : list Entry) (first last : nat) : nat :=
  match find_from f first (slice first last t) with Some i => i | None => last end.

Fixpoint find_last_from (f : Entry -> bool) (i : nat) (l : list Entry) : option nat :=
  match l with
  | [] => None
  | e :: l' =>
      match find_last_from f (S i) l' with
      | Some j => Some j
      | None => if f e then Some i else None
      end
  end.

Definition find_last_if (f : Entry -> bool) (t : list Entry) (first last : nat) : nat :=
  match find_last_from f first (slice first last t) with Some i => i | None => last end.

Definition findLeftmost (now : Z) (i : Interest) (t : list Entry) (first last : nat) : nat :=
  find_if (canSatisfy now i) t first last.

Definition findRightmostAmongExact (now : Z) (i : Interest) (t : list Entry) (first last : nat) : nat :=
  find_last_if (canSatisfy now i) t first last.

(** The loop of [findRightmost].  [std::prev(begin())] is undefined; each
    iteration moves [right] to the left, which bounds the iterations. *)
Fixpoint rightmost_loop (fuel : nat) (now : Z) (i : Interest) (t : list Entry) (first last right : nat)
  : result nat :=
  if (right =? first)%nat then Ok last
  else
    match fuel, right with
    | S fuel, S prev =>
        match t !! prev with
        | None => Err OutOfRange
        | Some e =>
            if len (d_name (e_data e)) =? len (i_name i) then
              let matchExact := findRightmostAmongExact now i t first right in
              Ok (if (matchExact =? right)%nat then last else matchExact)
            else
              let prefix := getPrefix (d_name (e_data e)) (len (i_name i) + 1) in
              let left := lower_bound_query prefix t in
              let mtch := findLeftmost now i t left right in
              if negb (mtch =? right)%nat then Ok mtch
              else rightmost_loop fuel now i t first last left
        end
    | _, _ => Err OutOfRange
    end.

Definition findRightmost (now : Z) (i : Interest) (t : list Entry) (first last : nat) : result nat :=
  rightmost_loop last now i t first last last.

(** [Cs::find]: the Data of the match, [None] for a miss. *)
Definition Cs_find (now : Z) (i : Interest) (cs : Cs P) : result (option Data * Cs P) :=
  let prefix := i_name i in
  let t := cs_table cs in
  let isRightmost := s_childSelector (i_selectors i) =? 1 in
  let first := lower_bound_query prefix t in
  let! last := if 0 <? len prefix
               then let! s := Name.getSuccessor prefix in Ok (lower_bound_query s t)
               else Ok (length t) in
  let! mtch := if isRightmost then findRightmost now i t first last
               else Ok (findLeftmost now i t first last) in
  if (mtch =? last)%nat then Ok (None, cs)
  else
    match t !! mtch with
    | None => Err OutOfRange
    | Some e =>
        let! p := p_beforeUse e (cs_policy cs) in
        Ok (Some (e_data e), MkCs t p (cs_limit cs))
    end.
End Cs.

(** ** The table and the policy stay in step *)

Section Invariant.
Context `{Sha256} {P : Type} `{CsPolicyLaws P}.
Implicit Types (t : list Entry) (cs : Cs P).

Definition keys t : list Key := map entry_key t.

Lemma sorted_keys t : sorted_table t <-> StronglySorted (fun a b => key_cmp a b < 0) (keys t).
Proof.
  unfold sorted_table, keys. split.
  - induction 1 as [|e t Hs IH Hf]; simpl; constructor; [done|]. by apply Forall_map.
  - induction t as [|e t IH]; intros Hs; [constructor|]. apply StronglySorted_inv in Hs as [? Hf].
    constructor; [auto|]. by apply Forall_map in Hf.
Qed.

Lemma keys_nodup t : sorted_table t -> NoDup (keys t).
Proof.
  rewrite sorted_keys. induction 1 as [|k l Hs IH Hf]; constructor; [|done]. intros Hk.
  rewrite Forall_forall in Hf. apply Hf in Hk. rewrite (cmp_refl (P := wf_key)) in Hk. lia.
Qed.

Lemma wf_table_update t i e e' : wf_table t -> t !! i = Some e -> entry_key e' = entry_key e -> wf_entry e' ->
  wf_table (<[i := e']> t) /\ keys (<[i := e']> t) = keys t.
Proof.
  intros [Hs Hf] Hi Hk He'. assert (Hkeys : keys (<[i := e']> t) = keys t).
  { unfold keys. rewrite list_fmap_insert. apply list_insert_id. by rewrite list_lookup_fmap, Hi, Hk. }
  split; [|done]. split; [rewrite sorted_keys, Hkeys; by apply sorted_keys|by apply Forall_insert].
Qed.

Lemma keys_erase k t : keys (table_erase k t) = queue_erase k (keys t).
Proof.
  unfold table_erase, queue_erase, keys. induction t as [|e t IH]; [done|]. simpl.
  rewrite !filter_cons. by repeat case_decide; simpl; rewrite IH.
Qed.

Lemma Forall_filter_in {A} (Q R : A -> Prop) `{!forall x, Decision (R x)} l : Forall Q l -> Forall Q (filter R l).
Proof. rewrite !Forall_forall. intros Hl x [_ Hx]%list_elem_of_filter. auto. Qed.

Lemma wf_table_erase k t : wf_table t -> wf_table (table_erase k t).
Proof.
  intros [Hs Hf]. split; [|by apply Forall_filter_in]. apply sorted_keys. rewrite keys_erase.
  apply sorted_keys in Hs. unfold queue_erase. induction Hs as [|x l Hs IH Hx]; [constructor|].
  rewrite filter_cons. case_decide; [|done]. constructor; [done|]. by apply Forall_filter_in.
Qed.

(** The policy tracks exactly the entries of the table. *)
Record in_step cs : Prop := {
  step_table : wf_table (cs_table cs);
  step_policy : p_inv (cs_policy cs);
  step_tracked : tracked (cs_policy cs) ≡ₚ keys (cs_table cs)
}.

Record cs_inv cs : Prop := {
  inv_step : in_step cs;
  inv_limit : (length (cs_table cs) <= cs_limit cs)%nat
}.

(** One eviction. *)
Lemma evict_one_ok cs : in_step cs -> cs_table cs <> [] ->
  exists k p, p_evictOne (cs_policy cs) = Ok (k, p) /\ k ∈ keys (cs_table cs) /\
    in_step (MkCs (table_erase k (cs_table cs)) p (cs_limit cs)) /\
    keys (cs_table cs) ≡ₚ k :: keys (table_erase k (cs_table cs)).
Proof.
  intros [Ht Hp Htr] Hne. destruct (law_evict _ Hp) as (k&p&He&Hp'&HP).
  { intros Hnil. rewrite Hnil in Htr. apply Permutation_nil in Htr. by destruct (cs_table cs). }
  assert (Hk : k ∈ keys (cs_table cs)) by (rewrite <- Htr, HP; left).
  assert (Hperm : keys (cs_table cs) ≡ₚ k :: keys (table_erase k (cs_table cs))).
  { rewrite keys_erase. apply queue_erase_perm; [apply keys_nodup, Ht|done]. }
  exists k, p. split_and!; try done. split; [by apply wf_table_erase|done|].
  simpl. apply (Permutation_cons_inv (a := k)). by rewrite <- HP, Htr.
Qed.

(** The loop of [evictEntries] ends within the limit, after as many
    evictions as the table is too large. *)
Lemma evict_loop_ok n : forall cs, in_step cs -> (length (cs_table cs) - cs_limit cs <= n)%nat ->
  exists cs' ev, evict_loop n cs = Ok cs' /\ cs_inv cs' /\ cs_limit cs' = cs_limit cs /\
    keys (cs_table cs) ≡ₚ ev ++ keys (cs_table cs') /\ length ev = (length (cs_table cs) - cs_limit cs)%nat /\
    cs_table cs' `sublist_of` cs_table cs.
Proof.
  induction n as [|n IH]; intros cs Hs Hn; cbn [evict_loop].
  all: destruct (Nat.leb_spec (length (cs_table cs)) (cs_limit cs)) as [Hle|Hgt];
    [exists cs, []; split_and!; try done; simpl; lia|].
  - lia.
  - destruct (evict_one_ok cs Hs) as (k&p&->&Hk&Hs'&HP); [intros E; rewrite E in Hgt; simpl in Hgt; lia|]. cbn [rbind fst snd].
    assert (Hlen : length (cs_table cs) = S (length (table_erase k (cs_table cs)))).
    { apply Permutation_length in HP. unfold keys in HP. simpl in HP. by rewrite !length_map in HP. }
    destruct (IH _ Hs') as (cs'&ev&->&Hi&Hl&HP'&Hev&Hsub); [simpl; lia|].
    exists cs', (k :: ev). simpl in *. split_and!; try done; [by rewrite HP, HP'|lia|].
    etrans; [exact Hsub|]. apply sublist_filter.
Qed.

Lemma entry_key_update now e : entry_key (updateStaleTime now e) = entry_key e.
Proof. done. Qed.

Lemma keys_insert t i x : keys (take i t ++ x :: drop i t) ≡ₚ entry_key x :: keys t.
Proof.
  unfold keys. rewrite map_app. simpl. rewrite <- Permutation_middle, <- map_app, take_drop. done.
Qed.

(** A new entry: the table and the policy before [evictEntries]. *)
Lemma insert_new now d u cs i t' : in_step cs -> wf_data d -> d_noCache d = false ->
  table_insert (setData d u now) (cs_table cs) = (i, true, t') ->
  exists p, p_afterInsert now (setData d u now) (cs_policy cs) = Ok p /\
    in_step (MkCs t' p (cs_limit cs)) /\ (data_key d ∉ keys (cs_table cs)) /\
    t' = take i (cs_table cs) ++ setData d u now :: drop i (cs_table cs) /\
    Cs_insert now d u cs = let! cs' := evictEntries (MkCs t' p (cs_limit cs)) in Ok (true, cs').
Proof.
  intros [Ht Hp Htr] Hd Hnc Hins. unfold Cs_insert. rewrite Hnc, Hins.
  apply table_insert_spec in Hins as (Ht'&Heq&Hi&Hnew); [|done|done]. set (x := setData d u now) in *.
  assert (Hlook : t' !! i = Some x).
  { rewrite Heq, lookup_app_r; rewrite length_take_le by done; [by rewrite Nat.sub_diag|lia]. }
  rewrite Hlook. cbn [negb]. change (updateStaleTime now x) with x.
  assert (Hnot : data_key d ∉ keys (cs_table cs)).
  { intros Hin. unfold keys in Hin. apply list_elem_of_fmap in Hin as (e&He&Hin). by apply (Hnew e). }
  destruct (law_insert now x _ Hp) as (p&->&Hp'&HPp); [by rewrite Htr|]. cbn [rbind].
  rewrite list_insert_id by done. exists p. split_and!; try done. split; [done..|].
  cbn [cs_policy cs_table]. by rewrite HPp, Htr, Heq, keys_insert.
Qed.

(** An entry that is there: it is refreshed, and can lose its flag. *)
Lemma insert_old now d u cs i t' : in_step cs -> wf_data d -> d_noCache d = false ->
  table_insert (setData d u now) (cs_table cs) = (i, false, t') ->
  exists e e' p, cs_table cs !! i = Some e /\ entry_key e = data_key d /\ entry_key e' = entry_key e /\
    e_isUnsolicited e' = e_isUnsolicited e && u /\
    p_afterRefresh now e' (cs_policy cs) = Ok p /\
    Cs_insert now d u cs = Ok (true, MkCs (<[i := e']> (cs_table cs)) p (cs_limit cs)) /\
    in_step (MkCs (<[i := e']> (cs_table cs)) p (cs_limit cs)) /\
    keys (<[i := e']> (cs_table cs)) = keys (cs_table cs).
Proof.
  intros [Ht Hp Htr] Hd Hnc Hins. unfold Cs_insert. rewrite Hnc, Hins.
  apply table_insert_spec in Hins as (_&->&e&He&Hk); [|done|done]. rewrite He. cbn [negb].
  set (e' := if _ && _ then unsetUnsolicited now _ else _).
  assert (Hke : entry_key e' = entry_key e) by (unfold e'; by destruct (_ && _)).
  assert (Hwe : wf_entry e').
  { destruct Ht as [_ Hf]. rewrite Forall_forall in Hf. pose proof (Hf e (list_elem_of_lookup_2 _ _ _ He)).
    unfold e'. by destruct (_ && _). }
  destruct (wf_table_update _ i e e' Ht He Hke Hwe) as [Hw Hkeys].
  assert (Hin : entry_key e ∈ keys (cs_table cs)).
  { apply list_elem_of_fmap. exists e. split; [done|]. by eapply list_elem_of_lookup_2. }
  destruct (law_refresh now e' _ Hp) as (p&Hpr&Hp'&HPp); [by rewrite Hke, Htr|].
  exists e, e', p. rewrite Hpr. split_and!; try done.
  - unfold e'. simpl. destruct (e_isUnsolicited e) eqn:Ef, u; simpl; by rewrite ?Ef.
  - split; [done..|]. cbn [cs_policy cs_table]. by rewrite Hkeys, HPp.
Qed.

(** What an insertion does, on every branch. *)
Lemma insert_cases now d u cs : cs_inv cs -> wf_data d -> d_noCache d = false ->
  exists cs', Cs_insert now d u cs = Ok (true, cs') /\ cs_inv cs' /\ cs_limit cs' = cs_limit cs /\
    (((data_key d ∈ keys (cs_table cs)) /\ keys (cs_table cs') = keys (cs_table cs)) \/
     ((data_key d ∉ keys (cs_table cs)) /\ exists ev,
        data_key d :: keys (cs_table cs) ≡ₚ ev ++ keys (cs_table cs') /\
        length ev = (S (length (cs_table cs)) - cs_limit cs)%nat)).
Proof.
  intros [Hs Hlim] Hd Hnc.
  destruct (table_insert (setData d u now) (cs_table cs)) as [[i []] t'] eqn:Hins.
  - destruct (insert_new now d u cs i t' Hs Hd Hnc Hins) as (p&_&Hs'&Hnot&Heq&->).
    destruct (evict_loop_ok (length t') (MkCs t' p (cs_limit cs))) as (cs'&ev&Hev&Hi'&Hl&HP&Hle&_);
      [done|simpl; lia|].
    unfold evictEntries. cbn [cs_table cs_limit] in *. rewrite Hev. cbn [rbind]. exists cs'. split_and!; try done.
    right. split; [done|]. exists ev.
    pose proof (keys_insert (cs_table cs) i (setData d u now)) as Hperm. rewrite <- Heq in Hperm.
    split; [by rewrite <- HP, Hperm|].
    rewrite Hle. apply Permutation_length in Hperm. unfold keys in Hperm. simpl in Hperm.
    rewrite !length_map in Hperm. by rewrite Hperm.
  - destruct (insert_old now d u cs i t' Hs Hd Hnc Hins) as (e&e'&p&He&Hk&_&_&_&->&Hs'&Hkeys).
    eexists. split; [done|]. split_and!; [split; [done|]|done|left].
    + simpl. by rewrite length_insert.
    + simpl. split; [|done]. rewrite <- Hk. apply list_elem_of_fmap. exists e. split; [done|].
      by eapply list_elem_of_lookup_2.
Qed.
End Invariant.

(** ** Lookup *)

Section Lookup.
Context `{Sha256}.
Implicit Types (t : list Entry) (f : Entry -> bool).

Definition no_match f t (a b : nat) : Prop := forall j e, (a <= j < b)%nat -> t !! j = Some e -> f e = false.

Lemma slice_lookup {A} (l : list A) a b i : (i < b - a)%nat -> slice a b l !! i = l !! (a + i)%nat.
Proof. intros Hi. unfold slice. rewrite lookup_take_lt by done. apply lookup_drop. Qed.

Lemma find_from_spec f i l :
  match find_from f i l with
  | Some r => exists k e, r = (i + k)%nat /\ l !! k = Some e /\ f e = true /\
                forall j x, (j < k)%nat -> l !! j = Some x -> f x = false
  | None => forall j x, l !! j = Some x -> f x = false
  end.
Proof.
  revert i. induction l as [|y l IH]; intros i; simpl; [done|]. destruct (f y) eqn:Hy.
  - exists 0%nat, y. split_and!; [lia|done|done|lia].
  - specialize (IH (S i)). destruct (find_from f (S i) l) as [r|].
    + destruct IH as (k&e&->&Hk&Hf&Hmin). exists (S k), e. split_and!; [lia|done|done|].
      intros [|j] x Hj Hx; simpl in Hx; [congruence|]. by apply (Hmin j); [lia|].
    + intros [|j] x Hx; simpl in Hx; [congruence|]. by apply (IH j).
Qed.

Lemma find_last_from_spec f i l :
  match find_last_from f i l with
  | Some r => exists k e, r = (i + k)%nat /\ l !! k = Some e /\ f e = true /\
                forall j x, (k < j)%nat -> l !! j = Some x -> f x = false
  | None => forall j x, l !! j = Some x -> f x = false
  end.
Proof.
  revert i. induction l as [|y l IH]; intros i; simpl; [done|]. specialize (IH (S i)).
  destruct (find_last_from f (S i) l) as [r|].
  - destruct IH as (k&e&->&Hk&Hf&Hmax). exists (S k), e. split_and!; [lia|done|done|].
    intros [|j] x Hj Hx; simpl in Hx; [lia|]. by apply (Hmax j); [lia|].
  - destruct (f y) eqn:Hy.
    + exists 0%nat, y. split_and!; [lia|done|done|]. intros [|j] x Hj Hx; [lia|]. by apply (IH j).
    + intros [|j] x Hx; simpl in Hx; [congruence|]. by apply (IH j).
Qed.

Lemma slice_bound {A} (l : list A) a b k x : slice a b l !! k = Some x -> (k < b - a)%nat.
Proof. intros Hk. apply lookup_lt_Some in Hk. unfold slice in Hk. rewrite length_take in Hk. lia. Qed.

Lemma find_if_spec f t a b : (a <= b)%nat ->
  (find_if f t a b = b /\ no_match f t a b) \/
  exists r e, find_if f t a b = r /\ (a <= r < b)%nat /\ t !! r = Some e /\ f e = true /\ no_match f t a r.
Proof.
  intros Hab. unfold find_if. pose proof (find_from_spec f a (slice a b t)) as Hs.
  destruct (find_from f a (slice a b t)) as [r|].
  - right. destruct Hs as (k&e&->&Hk&Hf&Hmin). pose proof (slice_bound _ _ _ _ _ Hk).
    rewrite slice_lookup in Hk by done. exists (a + k)%nat, e. split_and!; try done; try lia.
    intros j x Hj Hx. apply (Hmin (j - a)%nat); [lia|]. rewrite slice_lookup by lia. by rewrite <- Hx; f_equal; lia.
  - left. split; [done|]. intros j x Hj Hx. apply (Hs (j - a)%nat). rewrite slice_lookup by lia.
    rewrite <- Hx. f_equal. lia.
Qed.

Lemma find_last_if_spec f t a b : (a <= b)%nat ->
  (find_last_if f t a b = b /\ no_match f t a b) \/
  exists r e, find_last_if f t a b = r /\ (a <= r < b)%nat /\ t !! r = Some e /\ f e = true /\ no_match f t (S r) b.
Proof.
  intros Hab. unfold find_last_if. pose proof (find_last_from_spec f a (slice a b t)) as Hs.
  destruct (find_last_from f a (slice a b t)) as [r|].
  - right. destruct Hs as (k&e&->&Hk&Hf&Hmax). pose proof (slice_bound _ _ _ _ _ Hk).
    rewrite slice_lookup in Hk by done. exists (a + k)%nat, e. split_and!; try done; try lia.
    intros j x Hj Hx. apply (Hmax (j - a)%nat); [lia|]. rewrite slice_lookup by lia. by rewrite <- Hx; f_equal; lia.
  - left. split; [done|]. intros j x Hj Hx. apply (Hs (j - a)%nat). rewrite slice_lookup by lia.
    rewrite <- Hx. f_equal. lia.
Qed.

(** The first entry that satisfies a predicate, by position. *)
Lemma List_find_pos f t r e : t !! r = Some e -> f e = true -> no_match f t 0 r -> List.find f t = Some e.
Proof.
  revert r. induction t as [|y t IH]; intros [|r] Hr Hf Hno; simpl in *; try done.
  - injection Hr as ->. by rewrite Hf.
  - rewrite (Hno 0%nat y) by (done || lia). apply (IH r); [done|done|].
    intros j x Hj Hx. by apply (Hno (S j)); [lia|].
Qed.

Lemma List_find_none f t : no_match f t 0 (length t) -> List.find f t = None.
Proof.
  induction t as [|y t IH]; intros Hno; [done|]. simpl. rewrite (Hno 0%nat y) by (done || (simpl; lia)).
  apply IH. intros j x Hj Hx. by apply (Hno (S j)); [simpl; lia|].
Qed.

(** The last one. *)
Lemma last_filter_pos f t r e : t !! r = Some e -> f e = true -> no_match f t (S r) (length t) ->
  last (filter (fun x => f x = true) t) = Some e.
Proof.
  revert r. induction t as [|y t IH] using rev_ind; intros r Hr Hf Hno; [done|].
  rewrite filter_app, filter_cons, filter_nil. rewrite length_app in Hno. simpl in Hno.
  destruct (decide (r = length t)) as [->|Hne].
  - rewrite lookup_app_r, Nat.sub_diag in Hr by lia. injection Hr as ->. rewrite decide_True by done. by rewrite last_snoc.
  - assert (r < length t)%nat by (apply lookup_lt_Some in Hr; rewrite length_app in Hr; simpl in Hr; lia).
    rewrite decide_False. 2: { rewrite (Hno (length t) y); [done|lia|]. by rewrite lookup_app_r, Nat.sub_diag by lia. }
    rewrite app_nil_r. apply (IH r); [by rewrite lookup_app_l in Hr by done|done|].
    intros j x Hj Hx. apply (Hno j); [lia|]. rewrite lookup_app_l by lia. done.
Qed.

Lemma last_filter_none f t : no_match f t 0 (length t) -> last (filter (fun x => f x = true) t) = None.
Proof.
  intros Hno. destruct (filter (fun x => f x = true) t) as [|x l] eqn:E; [done|exfalso].
  assert (Hx : x ∈ filter (fun x => f x = true) t) by (rewrite E; left).
  apply list_elem_of_filter in Hx as [Hf Hx]. apply list_elem_of_lookup in Hx as [j Hj].
  pose proof (lookup_lt_Some _ _ _ Hj). rewrite (Hno j x) in Hf by (done || lia). done.
Qed.
End Lookup.

(** The reference for a lookup: the leftmost match is the first entry of the
    table that satisfies the Interest; the rightmost match is the first one in
    the sub-namespace, one component longer than the Interest name, of the
    last one. *)
Definition leftmost_match `{Sha256} (now : Z) (i : Interest) (t : list Entry) : option Entry :=
  List.find (canSatisfy now i) t.

Definition child (i : Interest) (e : Entry) : Name := take (S (length (i_name i))) (d_name (e_data e)).

Definition rightmost_match `{Sha256} (now : Z) (i : Interest) (t : list Entry) : option Entry :=
  match last (filter (fun e => canSatisfy now i e = true) t) with
  | None => None
  | Some e =>
      if (length (d_name (e_data e)) =? length (i_name i))%nat then Some e
      else List.find (fun x => canSatisfy now i x && bool_decide (child i x = child i e)) t
  end.

Section Under.
Context `{Sha256}.
Implicit Types (t : list Entry).

Definition name_of (e : Entry) : Name := d_name (e_data e).
Definition gen_entry (e : Entry) : Prop := gen_name (name_of e) /\ len (name_of e) < u64_max - 1.
Definition gen_table t : Prop := Forall gen_entry t.

#[global] Instance gen_entry_dec e : Decision (gen_entry e).
Proof. unfold gen_entry. apply _. Defined.
#[global] Instance gen_table_dec t : Decision (gen_table t).
Proof. unfold gen_table. apply _. Defined.

Lemma gen_entry_lookup t j e : gen_table t -> t !! j = Some e -> gen_entry e.
Proof. intros Hg Hj. unfold gen_table in Hg. rewrite Forall_forall in Hg. apply Hg. by eapply list_elem_of_lookup_2. Qed.

Lemma gen_lookup t j e : gen_table t -> t !! j = Some e -> gen_name (name_of e).
Proof. intros Hg Hj. by eapply gen_entry_lookup. Qed.

Lemma query_key_gen p : gen_name p -> query_key p = (p, None).
Proof.
  intros Hp. unfold query_key. destruct (last p) as [c|] eqn:Hl; [|done].
  apply last_Some_elem_of in Hl. unfold gen_name in Hp. rewrite Forall_forall in Hp.
  by rewrite gen_not_digest by (by apply Hp).
Qed.

Lemma key_lt_gen e p : key_cmp (entry_key e) (p, None) < 0 <-> Name_compare (name_of e) p < 0.
Proof.
  unfold key_cmp, entry_key, data_key, name_of. simpl.
  destruct (Z.eqb_spec (Name_compare (d_name (e_data e)) p) 0) as [E|E]; simpl; lia.
Qed.

Lemma lower_bound_gen t p j e : wf_table t -> gen_name p -> t !! j = Some e ->
  (j < lower_bound_query p t)%nat <-> Name_compare (name_of e) p < 0.
Proof.
  intros Ht Hp Hj. rewrite (lower_bound_pos t p j e) by auto with ndn. rewrite query_key_gen by done. apply key_lt_gen.
Qed.

(** Entries in table order have names in order. *)
Lemma names_ordered t j k a b : wf_table t -> t !! j = Some a -> t !! k = Some b -> (j <= k)%nat ->
  Name_compare (name_of a) (name_of b) <= 0.
Proof.
  intros Ht Ha Hb Hjk. destruct (decide (j = k)) as [->|Hne].
  - assert (a = b) as -> by congruence. by rewrite (cmp_refl (P := bytes_name)).
  - pose proof (sorted_lookup t j k a b (proj1 Ht) Ha Hb ltac:(lia)) as Hlt.
    unfold key_cmp, entry_key, data_key in Hlt. simpl in Hlt. fold (name_of a) (name_of b) in Hlt.
    destruct (Z.eqb_spec (Name_compare (name_of a) (name_of b)) 0); simpl in *; lia.
Qed.

Lemma Name_compare_flip a b : bytes_name a -> bytes_name b -> Name_compare a b < 0 <-> 0 < Name_compare b a.
Proof. apply (cmp_swap (cmp := Name_compare)). Qed.

(** The positions [[first, last)] hold exactly the entries under the prefix. *)
Record scans (p : Name) t (first last : nat) : Prop := {
  scan_le : (first <= last <= length t)%nat;
  scan_iff j e : t !! j = Some e -> (first <= j < last)%nat <-> p `prefix_of` name_of e
}.

Definition wf_prefix (p : Name) : Prop :=
  gen_name p /\ len p < u64_max - 1 /\ Forall (fun c => len (c_value c) < 2 ^ 32 - 1) p.
#[global] Instance wf_prefix_dec p : Decision (wf_prefix p).
Proof. unfold wf_prefix. apply _. Defined.

Lemma getSuccessor_gen q c : gen c -> len (c_value c) < 2 ^ 32 - 1 -> len (q ++ [c]) < U64 ->
  Name.getSuccessor (q ++ [c]) = Ok (q ++ [MkComponent (c_type c) (successor_value (c_value c))]).
Proof.
  intros Hc Hl Hn.
  assert (Hwc : wf_component c).
  { destruct Hc as [Ht Hb]. split_and!; [|done|lia]. unfold isGeneric. by rewrite Ht. }
  rewrite (getSuccessor_snoc_eq q c _ Hwc Hl Hn eq_refl). unfold isGeneric. simpl. by rewrite (proj1 Hc).
Qed.

Lemma scan_range p t : wf_table t -> gen_table t -> wf_prefix p ->
  exists last, (if 0 <? len p then let! s := Name.getSuccessor p in Ok (lower_bound_query s t)
                else Ok (length t)) = Ok last /\ scans p t (lower_bound_query p t) last.
Proof.
  intros Ht Hg (Hp&Hlen&Hcl). destruct (decide (p = [])) as [->|Hne].
  - eexists. split; [done|]. split; [split; [apply lower_bound_le|lia]|].
    intros j e Hj. split; [intros _; apply prefix_nil|]. intros _. split; [|by eapply lookup_lt_Some].
    apply Nat.le_ngt. rewrite (lower_bound_gen t [] j e) by done.
    pose proof (Name_compare_nil_l (name_of e)).
    pose proof (gen_name_bytes _ (gen_lookup t j e Hg Hj)) as Hb.
    rewrite (Name_compare_flip _ [] Hb (gen_name_bytes _ Hp)). lia.
  - destruct (exists_last Hne) as (q&c&->). rewrite (proj2 (Z.ltb_lt _ _)).
    2: { rewrite len_app. change (len [c]) with 1. pose proof (len_nonneg q). lia. }
    apply Forall_app in Hp as [Hq Hc]. apply Forall_cons in Hc as [Hc _].
    apply Forall_app in Hcl as [_ Hl]. apply Forall_cons in Hl as [Hl _].
    rewrite getSuccessor_gen by (done || width_lia). cbn [rbind]. eexists. split; [done|].
    set (d := MkComponent (c_type c) (successor_value (c_value c))).
    assert (Hd : gen d). { split; [apply Hc|]. simpl. apply successor_value_spec, Hc. }
    assert (Hgp : gen_name (q ++ [c])) by (apply Forall_app; split; [done|by apply Forall_singleton]).
    assert (Hgs : gen_name (q ++ [d])) by (apply Forall_app; split; [done|by apply Forall_singleton]).
    assert (Hiff : forall j e, t !! j = Some e ->
      (lower_bound_query (q ++ [c]) t <= j < lower_bound_query (q ++ [d]) t)%nat <-> (q ++ [c]) `prefix_of` name_of e).
    { intros j e Hj. assert (Hb : bytes_name (name_of e)) by (apply gen_name_bytes; by eapply gen_lookup).
      rewrite <- (prefix_interval q c d (name_of e)); [|by apply gen_name_bytes|apply Hc|done|done|done].
      rewrite (lower_bound_gen t (q ++ [d]) j e) by done.
      pose proof (lower_bound_gen t (q ++ [c]) j e Ht Hgp Hj) as Hlb.
      pose proof (Name_compare_flip (name_of e) (q ++ [c]) Hb (gen_name_bytes _ Hgp)). lia. }
    split; [|done]. split; [|apply lower_bound_le].
    destruct (Nat.le_gt_cases (lower_bound_query (q ++ [c]) t) (lower_bound_query (q ++ [d]) t)) as [|Hgt]; [done|].
    exfalso. pose proof (lower_bound_le t (q ++ [c])).
    destruct (lookup_lt_is_Some_2 t (lower_bound_query (q ++ [d]) t) ltac:(lia)) as [e He].
    assert (Hb : bytes_name (name_of e)) by (apply gen_name_bytes; by eapply gen_lookup).
    pose proof (lower_bound_gen t (q ++ [c]) _ e Ht Hgp He) as H1.
    pose proof (lower_bound_gen t (q ++ [d]) _ e Ht Hgs He) as H2.
    assert (Hcd : Name_compare (q ++ [c]) (q ++ [d]) < 0).
    { rewrite Name_compare_app. destruct (successor_between c c _ (proj2 Hc) (proj2 Hc) eq_refl) as [Hcd _].
      fold d in Hcd. rewrite Name_compare_head; [exact Hcd|lia]. }
    pose proof (cmp_trans (cmp := Name_compare) (name_of e) _ _ Hb (gen_name_bytes _ Hgp) (gen_name_bytes _ Hgs)). lia.
Qed.

Lemma satisfy_under now i e : gen_name (i_name i) -> gen_name (name_of e) -> canSatisfy now i e = true ->
  i_name i `prefix_of` name_of e.
Proof.
  intros Hi He. unfold canSatisfy. destruct (matchesData i (e_data e)) eqn:Hm; [|done]. intros _.
  revert Hm. unfold matchesData. set (A := negb (_ <=? _)). destruct A; [done|].
  set (B := _ && negb _). destruct B; [done|].
  destruct (len (i_name i) =? len (d_name (e_data e)) + 1).
  - destruct (last (i_name i)) as [c|] eqn:Hl; [|done]. apply last_Some_elem_of in Hl.
    unfold gen_name in Hi. rewrite Forall_forall in Hi. by rewrite gen_not_digest by (by apply Hi).
  - destruct (isPrefixOf (i_name i) (d_name (e_data e))) eqn:Hp; [|done]. intros _. by apply isPrefixOf_gen.
Qed.

(** Outside the scanned positions nothing satisfies the Interest. *)
Lemma no_match_outside now i t first last a b : gen_table t -> gen_name (i_name i) ->
  scans (i_name i) t first last -> no_match (canSatisfy now i) t (max first a) (min last b) ->
  no_match (canSatisfy now i) t a b.
Proof.
  intros Hg Hi [_ Hs] Hno j e Hj He. destruct (canSatisfy now i e) eqn:Hc; [|done].
  apply satisfy_under in Hc as Hu; [|done|by eapply gen_lookup]. apply (Hs j e He) in Hu.
  rewrite <- Hc. apply (Hno j); [lia|done].
Qed.

Lemma leftmost_ok now i t first last : gen_table t -> gen_name (i_name i) -> scans (i_name i) t first last ->
  (findLeftmost now i t first last = last /\ leftmost_match now i t = None) \/
  exists r e, findLeftmost now i t first last = r /\ (r < last)%nat /\ t !! r = Some e /\
    leftmost_match now i t = Some e.
Proof.
  intros Hg Hi Hs. unfold findLeftmost, leftmost_match. pose proof (scan_le _ _ _ _ Hs) as Hle.
  destruct (find_if_spec (canSatisfy now i) t first last) as [[-> Hno]|(r&e&->&Hr&He&Hc&Hno)]; [lia|left|right].
  - split; [done|]. apply List_find_none. eapply no_match_outside; [done..|].
    rewrite Nat.max_l, Nat.min_l by lia. done.
  - exists r, e. split_and!; try done; [lia|]. eapply List_find_pos; [done..|].
    eapply no_match_outside; [done..|]. by rewrite Nat.max_l, Nat.min_r by lia.
Qed.

Lemma take_prefix_of {A} (p l : list A) n : length p = n -> p `prefix_of` l -> take n l = p.
Proof. intros <- [k ->]. apply take_app_length. Qed.

(** One iteration of [findRightmost] that is not about exact names: the
    entries from [left] to [prev] are those with the child of [prev]. *)
Lemma rightmost_child i t first last prev e : wf_table t -> gen_table t -> wf_prefix (i_name i) ->
  scans (i_name i) t first last -> (first <= prev < last)%nat -> t !! prev = Some e ->
  (length (name_of e) <> length (i_name i))%nat ->
  getPrefix (name_of e) (len (i_name i) + 1) = child i e /\
  (first <= lower_bound_query (child i e) t <= prev)%nat /\
  forall j x, t !! j = Some x -> (j <= prev)%nat ->
    (lower_bound_query (child i e) t <= j)%nat <-> child i x = child i e.
Proof.
  intros Ht Hg (Hi&Hil&_) Hs Hprev He Hne. pose proof (proj2 (gen_entry_lookup _ _ _ Hg He)) as Hel.
  assert (Hpe : i_name i `prefix_of` name_of e) by (by apply (scan_iff _ _ _ _ Hs prev e He)).
  assert (Hlen : (S (length (i_name i)) <= length (name_of e))%nat).
  { destruct Hpe as [k Hk]. rewrite Hk, length_app in Hne |- *. destruct k; simpl in *; lia. }
  assert (Hge : gen_name (name_of e)) by (by eapply gen_lookup).
  assert (Hgc : gen_name (child i e)) by (by apply Forall_take).
  assert (Hpc : i_name i `prefix_of` child i e).
  { destruct Hpe as [k Hk]. unfold child. fold (name_of e). rewrite Hk.
    rewrite take_app_ge by lia. by eexists. }
  assert (Hce : child i e `prefix_of` name_of e) by (unfold child; apply prefix_take).
  assert (Hlc : length (child i e) = S (length (i_name i))) by (unfold child; by apply length_take_le).
  split; [|split; [split|]].
  - rewrite getPrefix_take by (unfold len in *; lia). unfold child, name_of. f_equal. unfold len. lia.
  - apply Nat.le_ngt. intros Hlt.
    destruct (lookup_lt_is_Some_2 t (lower_bound_query (child i e) t)) as [x Hx].
    { pose proof (scan_le _ _ _ _ Hs). lia. }
    assert (Hgx : gen_name (name_of x)) by (by eapply gen_lookup).
    pose proof (lower_bound_gen t (child i e) _ x Ht Hgc Hx) as H1.
    assert (Hnp : ~ i_name i `prefix_of` name_of x) by (rewrite <- (scan_iff _ _ _ _ Hs _ x Hx); lia).
    pose proof (names_ordered t _ prev x e Ht Hx He ltac:(lia)) as Hxe.
    apply Hnp. apply (prefix_between _ _ (name_of e)); [by apply gen_name_bytes..|done| |done].
    assert (Name_compare (child i e) (name_of x) <= 0).
    { pose proof (Name_compare_flip (name_of x) (child i e) (gen_name_bytes _ Hgx) (gen_name_bytes _ Hgc)). lia. }
    apply (cmp_le_trans (cmp := Name_compare) _ (child i e));
      [by apply gen_name_bytes..|by apply prefix_le|done].
  - apply Nat.le_ngt. intros Hlt. apply (lower_bound_gen t (child i e) prev e Ht Hgc He) in Hlt.
    apply prefix_le in Hce. apply Name_compare_flip in Hlt; [lia|by apply gen_name_bytes..].
  - intros j x Hx Hj. assert (Hgx : gen_name (name_of x)) by (by eapply gen_lookup).
    pose proof (lower_bound_gen t (child i e) j x Ht Hgc Hx) as Hlb.
    pose proof (Name_compare_flip (name_of x) (child i e) (gen_name_bytes _ Hgx) (gen_name_bytes _ Hgc)) as Hfl.
    split.
    + intros Hle. apply take_prefix_of; [done|].
      apply (prefix_between _ (name_of x) (name_of e)); [by apply gen_name_bytes..|done|lia|].
      by apply (names_ordered t j prev).
    + intros Hcx. apply Nat.le_ngt. rewrite Hlb. intros Hlt.
      assert (child i e `prefix_of` name_of x) as Hp%prefix_le by (rewrite <- Hcx; apply prefix_take). lia.
Qed.

(** In the scanned range, the entries up to one with the exact name have
    the exact name. *)
Lemma exact_before i t first last prev e j x : wf_table t -> gen_table t -> gen_name (i_name i) ->
  scans (i_name i) t first last -> (first <= prev < last)%nat -> t !! prev = Some e ->
  length (name_of e) = length (i_name i) -> (first <= j <= prev)%nat -> t !! j = Some x ->
  length (name_of x) = length (i_name i).
Proof.
  intros Ht Hg Hi Hs Hprev He Hl Hj Hx.
  pose proof (proj1 (scan_iff _ _ _ _ Hs prev e He) Hprev) as [k Hk].
  assert (k = []) as -> by (rewrite Hk, length_app in Hl; destruct k; [done|simpl in Hl; lia]).
  rewrite app_nil_r in Hk. assert (Hxp : i_name i `prefix_of` name_of x).
  { apply (scan_iff _ _ _ _ Hs j x Hx). lia. }
  pose proof (names_ordered t j prev x e Ht Hx He ltac:(lia)) as Hle. rewrite Hk in Hle.
  destruct Hxp as [l Hl']. rewrite Hl' in *. rewrite <- (app_nil_r (i_name i)) in Hle at 2.
  rewrite Name_compare_app in Hle. destruct l as [|c l]; [by rewrite app_nil_r|].
  simpl in Hle. rewrite len_cons in Hle. pose proof (len_nonneg l). lia.
Qed.

Definition rightmost_result now i t (last : nat) (r : result nat) : Prop :=
  (r = Ok last /\ rightmost_match now i t = None) \/
  exists m e, r = Ok m /\ (m < last)%nat /\ t !! m = Some e /\ rightmost_match now i t = Some e.

(** The loop, when nothing from [right] on satisfies the Interest. *)
Lemma rightmost_loop_ok now i t first last : wf_table t -> gen_table t -> wf_prefix (i_name i) ->
  scans (i_name i) t first last -> forall fuel right,
  (right <= fuel)%nat -> (first <= right <= last)%nat -> no_match (canSatisfy now i) t right last ->
  rightmost_result now i t last (rightmost_loop fuel now i t first last right).
Proof.
  intros Ht Hg Hp Hs. pose proof (scan_le _ _ _ _ Hs) as Hle. pose proof (proj1 Hp) as Hi.
  assert (Hnone : forall a b, no_match (canSatisfy now i) t a b -> (a <= first)%nat -> (last <= b)%nat ->
    rightmost_match now i t = None).
  { intros a b Hno Ha Hb. unfold rightmost_match. rewrite last_filter_none; [done|].
    eapply no_match_outside; [done..|]. intros j e Hj. apply Hno. lia. }
  induction fuel as [|fuel IH]; intros right Hf Hr Hno; cbn [rightmost_loop];
    (destruct (Nat.eqb_spec right first) as [->|Hne]; [left; split; [done|by eapply Hnone]|]); [lia|].
  destruct right as [|prev]; [lia|].
  destruct (lookup_lt_is_Some_2 t prev ltac:(lia)) as [e He]. rewrite He. fold (name_of e).
  destruct (Z.eqb_spec (len (name_of e)) (len (i_name i))) as [Hl|Hl].
  - unfold findRightmostAmongExact. assert (Hl' : length (name_of e) = length (i_name i)) by (unfold len in Hl; lia).
    destruct (find_last_if_spec (canSatisfy now i) t first (S prev)) as [[-> Hno']|(r&x&->&Hr'&Hx&Hc&Hno')]; [lia|..].
    + rewrite Nat.eqb_refl. left. split; [done|]. apply (Hnone first last); [|lia..].
      intros j y Hj. destruct (Nat.lt_ge_cases j (S prev)); [apply Hno'|apply Hno]; lia.
    + rewrite (proj2 (Nat.eqb_neq _ _)) by lia. right. exists r, x. split_and!; try done; [lia|].
      unfold rightmost_match. rewrite (last_filter_pos _ t r x); [|done|done|].
      * fold (name_of x). rewrite (exact_before i t first last prev e r x) by (done || lia). by rewrite Nat.eqb_refl.
      * eapply no_match_outside; [done..|]. intros j y Hj.
        destruct (Nat.lt_ge_cases j (S prev)); [apply Hno'|apply Hno]; lia.
  - destruct (rightmost_child i t first last prev e) as (->&Hlow&Hchild); try done; [lia|unfold len in Hl; lia|].
    set (left := lower_bound_query (child i e) t) in *. unfold findLeftmost.
    destruct (find_if_spec (canSatisfy now i) t left (S prev)) as [[-> Hno']|(r&x&->&Hr'&Hx&Hc&Hno')]; [lia|..].
    + rewrite Nat.eqb_refl. cbn [negb]. apply IH; [lia|lia|].
      intros j y Hj. destruct (Nat.lt_ge_cases j (S prev)); [apply Hno'|apply Hno]; lia.
    + rewrite (proj2 (Nat.eqb_neq _ _)) by lia. cbn [negb]. right. exists r, x. split_and!; try done; [lia|].
      destruct (find_last_if_spec (canSatisfy now i) t left (S prev)) as [[_ Hno2]|(m&y&_&Hm&Hy&Hcy&Hno2)]; [lia|..].
      { rewrite (Hno2 r x) in Hc by (done || lia). done. }
      unfold rightmost_match. rewrite (last_filter_pos _ t m y); [|done|done|].
      2: { eapply no_match_outside; [done..|]. intros j z Hj.
           destruct (Nat.lt_ge_cases j (S prev)); [apply Hno2|apply Hno]; lia. }
      assert (Hcy' : child i y = child i e) by (apply (Hchild m y Hy); lia).
      assert (Hcx' : child i x = child i e) by (apply (Hchild r x Hx); lia).
      rewrite (proj2 (Nat.eqb_neq _ _)).
      2: { assert (Hlc : length (child i e) = S (length (i_name i))).
           { destruct (scan_iff _ _ _ _ Hs prev e He) as [[k Hk] _]; [lia|]. unfold child. fold (name_of e).
             apply length_take_le. rewrite Hk, length_app. destruct k; [|simpl; lia].
             rewrite Hk, app_nil_r in Hl. done. }
           rewrite <- Hcy' in Hlc. unfold child in Hlc. rewrite length_take in Hlc. lia. }
      apply (List_find_pos _ t r x); [done|by rewrite Hc, bool_decide_true by congruence|].
      intros j z Hj Hz. destruct (canSatisfy now i z) eqn:Hcz; [|done]. cbn [andb]. apply bool_decide_eq_false.
      intros Hcz'. rewrite (Hno' j z) in Hcz; [done| |done]. split; [|lia].
      apply (Hchild j z Hz); [lia|congruence].
Qed.
End Under.

(** ** The priority queues and the flags of the entries *)

Section Priority.
Context `{Sha256}.
Implicit Types (t : list Entry) (cs : Cs PriorityFifoPolicy).

(** The unsolicited queue holds the entries that are flagged so. *)
Definition flagged t (p : PriorityFifoPolicy) : Prop :=
  forall e, e ∈ t -> (entry_key e ∈ q_unsolicited p) <-> e_isUnsolicited e = true.

Record fifo_ok cs : Prop := {
  ok_step : in_step cs;
  ok_flagged : flagged (cs_table cs) (cs_policy cs)
}.

Lemma key_unique t a b : wf_table t -> a ∈ t -> b ∈ t -> entry_key a = entry_key b -> a = b.
Proof.
  intros [Hs _] Ha Hb Hk. apply list_elem_of_lookup in Ha as [i Hi], Hb as [j Hj].
  destruct (Nat.lt_trichotomy i j) as [Hij|[->|Hij]]; [|congruence|].
  - pose proof (sorted_lookup t i j a b Hs Hi Hj Hij) as Hlt. rewrite Hk, (cmp_refl (P := wf_key)) in Hlt. lia.
  - pose proof (sorted_lookup t j i b a Hs Hj Hi Hij) as Hlt. rewrite Hk, (cmp_refl (P := wf_key)) in Hlt. lia.
Qed.

Lemma flagged_evict_one cs k p : fifo_ok cs -> Fifo_evictOne (cs_policy cs) = Ok (k, p) ->
  fifo_ok (MkCs (table_erase k (cs_table cs)) p (cs_limit cs)).
Proof.
  intros [Hs Hf] He. destruct (evict_one_ok cs Hs) as (k'&p'&He'&_&Hs'&_).
  { intros Hnil. destruct Hs as [_ _ Htr]. rewrite Hnil in Htr. symmetry in Htr. apply Permutation_nil in Htr.
    revert He. unfold Fifo_evictOne. simpl in Htr. unfold fifo_tracked in Htr.
    by apply app_eq_nil in Htr as [-> [-> ->]%app_eq_nil]. }
  simpl in He'. rewrite He in He'. injection He' as <- <-. split; [done|].
  intros e [Hk Hin]%list_elem_of_filter. rewrite <- (Hf e Hin). simpl.
  unfold Fifo_evictOne in He. apply rbind_Ok in He as (i&Hi&He). apply rbind_Ok in He as (p2&Hd&[= -> ->]).
  assert (Hin' : k ∈ fifo_tracked (cs_policy cs)).
  { unfold fifo_tracked. revert Hi. destruct (q_unsolicited (cs_policy cs)); [|intros [= ->]; left].
    destruct (q_stale (cs_policy cs)); [|intros [= ->]; left].
    destruct (q_fifo (cs_policy cs)); [done|intros [= ->]; left]. }
  destruct (detachQueue_ok k (cs_policy cs) (step_policy _ Hs) Hin') as (p3&Hd'&_&_&Hq).
  rewrite Hd in Hd'. injection Hd' as <-. pose proof (Hq QUEUE_UNSOLICITED) as HqU. simpl in HqU.
  rewrite HqU, elem_of_queue_erase. tauto.
Qed.

Lemma flagged_evict n : forall cs cs', fifo_ok cs -> evict_loop n cs = Ok cs' -> fifo_ok cs'.
Proof.
  induction n as [|n IH]; intros cs cs' Hok; cbn [evict_loop]; (case_match; [by intros [= <-]|]); [done|].
  intros He. apply rbind_Ok in He as ([k p]&Hk&He). eapply IH; [|exact He]. by apply flagged_evict_one.
Qed.

Lemma flagged_attach now x t p p' : attachQueue now x p = Ok p' -> fifo_inv p -> entry_key x ∉ fifo_tracked p ->
  (forall e, e ∈ t -> entry_key e = entry_key x -> e_isUnsolicited e = e_isUnsolicited x) ->
  (forall e, e ∈ t -> entry_key e <> entry_key x -> (entry_key e ∈ q_unsolicited p) <-> e_isUnsolicited e = true) ->
  flagged t p'.
Proof.
  intros Ha Hp Hx Hsame Hf. destruct (attachQueue_ok now x p Hp Hx) as (q&p2&Ha'&_&_&Hq&Hqu).
  rewrite Ha in Ha'. injection Ha' as <-. pose proof (Hq QUEUE_UNSOLICITED) as HqU. simpl in HqU.
  intros e He. rewrite HqU, elem_of_app.
  destruct (decide (entry_key e = entry_key x)) as [Hk|Hne].
  - rewrite (Hsame e He Hk), <- Hqu, Hk. assert (Hxu : entry_key x ∉ q_unsolicited p).
    { intros Hin. apply Hx. apply fifo_tracked_elem. by exists QUEUE_UNSOLICITED. }
    case_decide as E; [rewrite list_elem_of_singleton|rewrite elem_of_nil]; split; auto; tauto.
  - rewrite <- (Hf e He Hne).
    case_decide; [rewrite list_elem_of_singleton|rewrite elem_of_nil]; tauto.
Qed.

Lemma keys_elem t e : e ∈ t -> entry_key e ∈ keys t.
Proof. intros He. apply list_elem_of_fmap. by exists e. Qed.

Lemma fifo_insert now d u cs r cs' : fifo_ok cs -> wf_data d -> Cs_insert now d u cs = Ok (r, cs') -> fifo_ok cs'.
Proof.
  intros [Hs Hf] Hd Hins. destruct (d_noCache d) eqn:Hnc.
  { unfold Cs_insert in Hins. rewrite Hnc in Hins. by injection Hins as <- <-. }
  destruct (table_insert (setData d u now) (cs_table cs)) as [[i []] t'] eqn:Ht.
  - destruct (insert_new now d u cs i t' Hs Hd Hnc Ht) as (p&Hp&Hs'&Hnot&Heq&HC). rewrite HC in Hins.
    apply rbind_Ok in Hins as (cs2&He&[= <- <-]). eapply flagged_evict; [|exact He].
    split; [done|]. cbn [cs_table cs_policy]. eapply flagged_attach; [exact Hp|apply Hs|..].
    + intros Hin. apply Hnot. by rewrite <- (step_tracked _ Hs).
    + intros e He' Hk. rewrite Heq in He'. apply elem_of_app in He' as [He'|[->|He']%elem_of_cons]; [|done|];
        exfalso; apply Hnot; change (data_key d) with (entry_key (setData d u now)); rewrite <- Hk;
        apply keys_elem; eapply elem_of_submseteq; [exact He'|apply sublist_submseteq, sublist_take|exact He'|apply sublist_submseteq, sublist_drop].
    + intros e He' Hk. apply Hf. rewrite Heq in He'. rewrite <- (take_drop i).
      apply elem_of_app in He' as [He'|[->|He']%elem_of_cons]; [apply elem_of_app; by left|done|apply elem_of_app; by right].
  - destruct (insert_old now d u cs i t' Hs Hd Hnc Ht) as (e&e'&p&He&Hk&Hke&Hfl&Hp&HC&Hs'&Hkeys). rewrite HC in Hins.
    injection Hins as <- <-. split; [done|]. cbn [cs_table cs_policy]. simpl in Hp. unfold Fifo_afterRefresh in Hp.
    apply rbind_Ok in Hp as (p1&Hd1&Ha).
    destruct (detachQueue_ok (entry_key e') (cs_policy cs) (step_policy _ Hs)) as (p2&Hd2&Hp2&_&Hq).
    { change (entry_key e' ∈ tracked (cs_policy cs)). rewrite (step_tracked _ Hs), Hke. apply keys_elem. by eapply list_elem_of_lookup_2. }
    rewrite Hd1 in Hd2. injection Hd2 as <-. pose proof (Hq QUEUE_UNSOLICITED) as HqU. simpl in HqU.
    assert (Hi : (i < length (cs_table cs))%nat) by (by eapply lookup_lt_Some).
    assert (He' : e' ∈ <[i := e']> (cs_table cs)).
    { apply (list_elem_of_lookup_2 _ i). by rewrite list_lookup_insert_eq. }
    eapply flagged_attach; [exact Ha|done|..].
    + rewrite fifo_tracked_elem. intros [q Hq']. rewrite Hq, elem_of_queue_erase in Hq'. tauto.
    + intros x Hx Hxk. f_equal. by apply (key_unique _ x e' (step_table _ Hs')).
    + intros x Hx Hxk. rewrite HqU, elem_of_queue_erase.
      assert (Hx' : x ∈ cs_table cs).
      { apply list_elem_of_lookup in Hx as [j Hj]. destruct (decide (i = j)) as [->|Hne].
        - rewrite list_lookup_insert_eq in Hj by done. injection Hj as <-. done.
        - rewrite list_lookup_insert_ne in Hj by done. by eapply list_elem_of_lookup_2. }
      rewrite (Hf x Hx'). tauto.
Qed.
End Priority.

(** ** The content store as a state machine *)

Section Machine.
Context `{Sha256}.

(** What can happen to a content store with the default policy: the calls
    of the forwarder and of management, and the event that moves an entry to
    the stale queue. *)
Inductive cs_step : Cs PriorityFifoPolicy -> Cs PriorityFifoPolicy -> Prop :=
| step_insert now d u r cs cs' : wf_data d -> Cs_insert now d u cs = Ok (r, cs') -> cs_step cs cs'
| step_find now i r cs cs' : Cs_find now i cs = Ok (r, cs') -> cs_step cs cs'
| step_setLimit n cs cs' : setLimit n cs = Ok cs' -> cs_step cs cs'
| step_stale k p cs : moveToStaleQueue k (cs_policy cs) = Ok p ->
    cs_step cs (MkCs (cs_table cs) p (cs_limit cs)).

Definition cs_reachable (cs : Cs PriorityFifoPolicy) : Prop := exists n, rtc cs_step (Cs_empty n) cs.

(** The invariant: the queues are in step with the table and the flags, and
    the size is within the limit. *)
Record machine_inv (cs : Cs PriorityFifoPolicy) : Prop := {
  machine_cs : cs_inv cs;
  machine_flagged : flagged (cs_table cs) (cs_policy cs)
}.

Lemma find_policy now i (cs : Cs PriorityFifoPolicy) r cs' : Cs_find now i cs = Ok (r, cs') -> cs' = cs.
Proof.
  unfold Cs_find. intros Hf. apply rbind_Ok in Hf as (last&_&Hf). apply rbind_Ok in Hf as (m&_&Hf).
  case_match; [by injection Hf as <- <-|]. destruct (cs_table cs !! m) as [e|]; [|done].
  apply rbind_Ok in Hf as (p&Hp&[= <- <-]). simpl in Hp. unfold Fifo_beforeUse in Hp.
  case_match; [|done]. injection Hp as <-. by destruct cs.
Qed.

Lemma moveToStale_ok k p p' : moveToStaleQueue k p = Ok p' -> fifo_inv p ->
  fifo_inv p' /\ fifo_tracked p' ≡ₚ fifo_tracked p /\ q_unsolicited p' = q_unsolicited p.
Proof.
  unfold moveToStaleQueue. destruct (m_entryInfoMap p !! k) as [[[] ev]|] eqn:Hk; try done.
  intros [= <-] Hp. assert (Hin : k ∈ get_queue QUEUE_FIFO p) by (apply (fifo_info p Hp); by rewrite Hk).
  assert (Hst : k ∉ q_stale p) by (change (k ∉ get_queue QUEUE_STALE p); rewrite (fifo_info p Hp), Hk; done).
  split_and!; [| |done].
  - split.
    + pose proof (fifo_nodup p Hp) as Hnd. intros []; simpl.
      * apply (Hnd QUEUE_UNSOLICITED).
      * apply NoDup_snoc; [apply (Hnd QUEUE_STALE)|done].
      * apply NoDup_queue_erase, (Hnd QUEUE_FIFO).
    + intros q x. simpl. destruct (decide (x = k)) as [->|Hne].
      * rewrite lookup_insert_eq. simpl. destruct q; simpl.
        -- change (q_unsolicited p) with (get_queue QUEUE_UNSOLICITED p). rewrite (fifo_info p Hp), Hk. done.
        -- rewrite elem_of_app, list_elem_of_singleton. tauto.
        -- rewrite elem_of_queue_erase. split; [by intros [_ ?]|done].
      * rewrite lookup_insert_ne, <- (fifo_info p Hp) by done. destruct q; simpl; [done|..].
        -- rewrite elem_of_app, list_elem_of_singleton. tauto.
        -- rewrite elem_of_queue_erase. tauto.
  - pose proof (queue_erase_perm k _ (fifo_nodup p Hp QUEUE_FIFO) Hin) as HP. simpl in HP.
    unfold fifo_tracked. simpl. rewrite HP at 2. by rewrite <- !app_assoc.
Qed.

Lemma machine_step cs cs' : machine_inv cs -> cs_step cs cs' -> machine_inv cs'.
Proof.
  intros [Hi Hf] Hstep. destruct Hstep as [now d u r cs cs' Hd Hins|now i r cs cs' Hfind|n cs cs' Hlim|k p cs Hst].
  - split; [|by eapply fifo_insert; [split; [apply Hi|]|..]].
    destruct (d_noCache d) eqn:Hnc; [unfold Cs_insert in Hins; rewrite Hnc in Hins; by injection Hins as <- <-|].
    destruct (insert_cases now d u cs Hi Hd Hnc) as (cs2&Hins'&Hi'&_). rewrite Hins in Hins'. by injection Hins' as _ <-.
  - apply find_policy in Hfind as ->. done.
  - unfold setLimit, evictEntries in Hlim. cbn [cs_table] in Hlim.
    assert (Hs : in_step (MkCs (cs_table cs) (cs_policy cs) n)) by (destruct Hi as [[]]; by split).
    destruct (evict_loop_ok (length (cs_table cs)) _ Hs) as (cs2&ev&He&Hi'&_); [simpl; lia|].
    rewrite He in Hlim. injection Hlim as <-. split; [done|].
    by eapply (flagged_evict _ (MkCs (cs_table cs) (cs_policy cs) n)); [split|exact He].
  - destruct Hi as [[Ht Hp Htr] Hl]. destruct (moveToStale_ok k _ p Hst Hp) as (Hp'&HP&Hq).
    split; [split; [split; [done|done|]|done]|]; simpl in *; [by rewrite HP|]. intros e He. rewrite Hq. by apply Hf.
Qed.

Lemma machine_reachable cs : cs_reachable cs -> machine_inv cs.
Proof.
  intros [n Hr]. assert (H0 : machine_inv (Cs_empty n)).
  { split; [split; [split|]|]; simpl; [split; [apply SSorted_nil|by apply Forall_nil_2]|exact (proj1 (law_empty (P := PriorityFifoPolicy)))|done|lia|].
    intros e He. by apply elem_of_nil in He. }
  induction Hr as [|x y z Hxy _ IH]; [done|]. apply IH. by eapply machine_step.
Qed.

(** Which entry goes when the store is full: the front of the first
    non-empty queue. *)
Definition fifo_front (p : PriorityFifoPolicy) : option Key :=
  head (q_unsolicited p ++ q_stale p ++ q_fifo p).

Lemma Fifo_evictOne_front p k p' : Fifo_evictOne p = Ok (k, p') -> fifo_front p = Some k.
Proof.
  unfold Fifo_evictOne, fifo_front. intros Hk. apply rbind_Ok in Hk as (i&Hi&Hk).
  apply rbind_Ok in Hk as (p2&_&[= -> ->]).
  destruct (q_unsolicited p), (q_stale p), (q_fifo p); simpl in *; congruence.
Qed.
End Machine.

(** Insertion of a new entry into a full store evicts once. *)
Lemma evict_full `{Sha256} {P} `{CsPolicyLaws P} (cs : Cs P) : in_step cs -> length (cs_table cs) = S (cs_limit cs) ->
  exists k p cs', p_evictOne (cs_policy cs) = Ok (k, p) /\ evictEntries cs = Ok cs' /\
    cs' = MkCs (table_erase k (cs_table cs)) p (cs_limit cs) /\ keys (cs_table cs) ≡ₚ k :: keys (cs_table cs').
Proof.
  intros Hs Hl. destruct (evict_one_ok cs Hs) as (k&p&He&_&_&HP); [by destruct (cs_table cs)|].
  exists k, p. eexists. split; [done|]. split; [|split; [done|done]].
  unfold evictEntries. rewrite Hl. cbn [evict_loop]. rewrite Hl, (proj2 (Nat.leb_gt _ _)) by lia.
  rewrite He. cbn [rbind fst snd].
  assert (length (table_erase k (cs_table cs)) = cs_limit cs) as Hl2.
  { apply Permutation_length in HP. unfold keys in HP. simpl in HP. rewrite !length_map in HP. lia. }
  destruct (cs_limit cs) as [|n] eqn:En; cbn [evict_loop cs_table cs_limit]; by rewrite Hl2, Nat.leb_refl.
Qed.

(** Inserting Data keeps the content store consistent under any policy of
    the interface: the call never fails an assertion, the table stays sorted
    and without duplicates, the policy tracks exactly the table, and the size
    stays within the limit.  Data marked as not to be cached changes nothing;
    Data already there changes no entry's key; new Data is added, and only as
    many entries are evicted as the limit demands. *)
Theorem cs_insert_correct `{Sha256} {P} `{CsPolicyLaws P} (now : Z) (d : Data) (u : bool) (cs : Cs P)
  (Hi : cs_inv cs) (Hd : wf_data d) :
  exists cs', Cs_insert now d u cs = Ok (negb (d_noCache d), cs') /\ cs_inv cs' /\ cs_limit cs' = cs_limit cs /\
    (d_noCache d = true -> cs' = cs) /\
    (d_noCache d = false -> data_key d ∈ keys (cs_table cs) -> keys (cs_table cs') = keys (cs_table cs)) /\
    (d_noCache d = false -> data_key d ∉ keys (cs_table cs) -> exists ev,
       data_key d :: keys (cs_table cs) ≡ₚ ev ++ keys (cs_table cs') /\
       length ev = (S (length (cs_table cs)) - cs_limit cs)%nat).
Proof.
  destruct (d_noCache d) eqn:Hnc.
  - exists cs. unfold Cs_insert. by rewrite Hnc.
  - destruct (insert_cases now d u cs Hi Hd Hnc) as (cs'&Hins&Hi'&Hl&Hc). exists cs'.
    split_and!; try done; destruct Hc as [[Hin Hk]|[Hnot Hev]]; by intros.
Qed.

(** C33. For a table of Data with generic names, and an Interest whose name has generic
    components only: the lookup, which scans only the range of the table under the
    Interest's name and for the rightmost child searches one sub-namespace
    after another from the right, finds what a search of the whole table
    finds: the leftmost match, or the leftmost match of the rightmost
    sub-namespace with a match.  The loop ends, and the store keeps its
    entries.  (For an Interest with a full name that asks for the rightmost child the loop
    can leave the table, [cs_rightmost_underflow].) *)
Theorem cs_find_reference `{Sha256} {P} `{CsPolicyLaws P} (now : Z) (i : Interest) (cs : Cs P)
  (Hi : cs_inv cs) (Hg : gen_table (cs_table cs)) (Hp : wf_prefix (i_name i)) :
  exists p, Cs_find now i cs =
      Ok (e_data <$> (if s_childSelector (i_selectors i) =? 1
                      then rightmost_match now i (cs_table cs) else leftmost_match now i (cs_table cs)),
          MkCs (cs_table cs) p (cs_limit cs)) /\
    cs_inv (MkCs (cs_table cs) p (cs_limit cs)).
Proof.
  pose proof Hi as [[Ht Hpi Htr] Hl]. unfold Cs_find.
  destruct (scan_range (i_name i) (cs_table cs) Ht Hg Hp) as (last&->&Hs). cbn [rbind].
  set (first := lower_bound_query (i_name i) (cs_table cs)) in *.
  assert (Hres : rightmost_result now i (cs_table cs) last (findRightmost now i (cs_table cs) first last)).
  { apply rightmost_loop_ok; try done; [split; [apply Hs|done]|intros j e Hj; lia]. }
  pose proof (leftmost_ok now i (cs_table cs) first last Hg (proj1 Hp) Hs) as Hleft.
  set (m := if s_childSelector (i_selectors i) =? 1 then findRightmost now i _ first last else _).
  set (ref := if s_childSelector (i_selectors i) =? 1 then rightmost_match now i _ else _).
  assert (Hm : (m = Ok last /\ ref = None) \/
    exists r e, m = Ok r /\ (r < last)%nat /\ cs_table cs !! r = Some e /\ ref = Some e).
  { unfold m, ref. destruct (_ =? 1); [done|]. destruct Hleft as [[-> ->]|(r&e&->&?&?&->)]; [by left|right]. by exists r, e. }
  destruct Hm as [[-> ->]|(r&e&->&Hr&He&->)]; cbn [rbind].
  - rewrite Nat.eqb_refl. exists (cs_policy cs). split; [by destruct cs|]. by destruct cs.
  - rewrite (proj2 (Nat.eqb_neq _ _)), He by lia.
    destruct (law_use e _ Hpi) as (p&->&Hp'&HP).
    { rewrite Htr. apply keys_elem. by eapply list_elem_of_lookup_2. }
    exists p. split; [done|]. split; [split; [done|done|]|done]. simpl. by rewrite HP.
Qed.

(** C34. In every state that the content store with the default policy can
    reach, the size is within the limit, the table is sorted by name and
    digest, every entry is in exactly one of the three queues, and the entries
    of the unsolicited queue are those flagged unsolicited. *)
Theorem cs_reachable_safe `{Sha256} (cs : Cs PriorityFifoPolicy) (Hr : cs_reachable cs) :
  (length (cs_table cs) <= cs_limit cs)%nat /\ sorted_table (cs_table cs) /\
  fifo_tracked (cs_policy cs) ≡ₚ keys (cs_table cs) /\ NoDup (fifo_tracked (cs_policy cs)) /\
  flagged (cs_table cs) (cs_policy cs).
Proof.
  destruct (machine_reachable cs Hr) as [[[Ht Hp Htr] Hl] Hf].
  split_and!; try done; [apply Ht|]. rewrite Htr. apply keys_nodup, Ht.
Qed.

(** When the store is full and new Data comes in, one entry goes; it is
    an unsolicited one if there is any, the new one included; an entry of the
    fifo queue goes only when the unsolicited and the stale queues are
    empty. *)
Theorem fifo_evicts_by_priority `{Sha256} (now : Z) (d : Data) (u : bool) (cs : Cs PriorityFifoPolicy)
  (Hr : cs_reachable cs) (Hfull : length (cs_table cs) = cs_limit cs) (Hd : wf_data d)
  (Hnc : d_noCache d = false) (Hnew : data_key d ∉ keys (cs_table cs)) :
  exists v cs', Cs_insert now d u cs = Ok (true, cs') /\
    data_key d :: keys (cs_table cs) ≡ₚ v :: keys (cs_table cs') /\
    (u = true \/ (exists e, e ∈ cs_table cs /\ e_isUnsolicited e = true) ->
       (v = data_key d /\ u = true) \/ exists e, e ∈ cs_table cs /\ entry_key e = v /\ e_isUnsolicited e = true) /\
    (v ∈ q_fifo (cs_policy cs) -> q_unsolicited (cs_policy cs) = [] /\ q_stale (cs_policy cs) = []).
Proof.
  destruct (machine_reachable cs Hr) as [[Hs Hl] Hf].
  destruct (table_insert (setData d u now) (cs_table cs)) as [[i []] t'] eqn:Hins.
  2: { destruct (insert_old now d u cs i t' Hs Hd Hnc Hins) as (e&_&_&He&Hk&_). exfalso. apply Hnew.
       rewrite <- Hk. apply keys_elem. by eapply list_elem_of_lookup_2. }
  destruct (insert_new now d u cs i t' Hs Hd Hnc Hins) as (p&Hp&Hs'&_&Heq&->).
  assert (Hlen : length t' = S (cs_limit cs)).
  { rewrite Heq, length_app. simpl. rewrite length_take, length_drop. lia. }
  destruct (evict_full _ Hs' Hlen) as (v&p'&cs'&Hev&->&_&HP). cbn [rbind cs_table cs_policy] in *.
  exists v, cs'. split; [done|]. split.
  { rewrite <- HP, Heq. symmetry. apply keys_insert. }
  assert (Htr : entry_key (setData d u now) ∉ fifo_tracked (cs_policy cs)).
  { intros Hin. apply Hnew. by rewrite <- (step_tracked _ Hs). }
  destruct (attachQueue_ok now _ (cs_policy cs) (step_policy _ Hs) Htr) as (q&p2&Ha&_&_&Hq&Hqu).
  simpl in Hp. rewrite Hp in Ha. injection Ha as <-. apply Fifo_evictOne_front in Hev. unfold fifo_front in Hev.
  pose proof (Hq QUEUE_UNSOLICITED) as HqU. pose proof (Hq QUEUE_STALE) as HqS. pose proof (Hq QUEUE_FIFO) as HqF.
  simpl in HqU, HqS, HqF. split.
  - intros Hex. assert (Hne : q_unsolicited p <> []).
    { rewrite HqU. destruct Hex as [->|(e&He&Hfl)].
      - rewrite decide_True by (symmetry; by apply Hqu). by destruct (q_unsolicited (cs_policy cs)).
      - apply (Hf e He) in Hfl. by destruct (q_unsolicited (cs_policy cs)); [apply elem_of_nil in Hfl|]. }
    assert (Hv : v ∈ q_unsolicited p) by (destruct (q_unsolicited p); [done|]; injection Hev as ->; left).
    rewrite HqU in Hv. apply elem_of_app in Hv as [Hv|Hv].
    + right. assert (Hvk : v ∈ keys (cs_table cs)).
      { rewrite <- (step_tracked _ Hs). apply fifo_tracked_elem. by exists QUEUE_UNSOLICITED. }
      apply list_elem_of_fmap in Hvk as (e&->&He). exists e. split_and!; try done. by apply Hf.
    + left. case_decide as E; [|by apply elem_of_nil in Hv]. apply list_elem_of_singleton in Hv as ->.
      split; [done|]. symmetry in E. by apply Hqu in E.
  - intros Hvf. assert (Hnodup : forall q', q' <> QUEUE_FIFO -> v ∉ get_queue q' (cs_policy cs)).
    { intros q' Hne Hin. apply (fifo_info _ (step_policy _ Hs) QUEUE_FIFO) in Hvf.
      apply (fifo_info _ (step_policy _ Hs)) in Hin. congruence. }
    pose proof (Hnodup QUEUE_UNSOLICITED ltac:(done)) as HnU. pose proof (Hnodup QUEUE_STALE ltac:(done)) as HnS.
    simpl in HnU, HnS. rewrite HqU, HqS in Hev.
    destruct (q_unsolicited (cs_policy cs)) as [|k l]; [|injection Hev as ->; destruct HnU; left].
    destruct (q_stale (cs_policy cs)) as [|k l]; [done|]. exfalso.
    clear Hq HqU HqS HqF. revert Hev. case_decide; simpl; intros [= <-].
    + apply Htr, fifo_tracked_elem. by exists QUEUE_FIFO.
    + apply HnS. left.
Qed.

(** Under LRU, a hit or a refresh moves the entry to the back of the
    queue and changes the order of no others; when the store is full, the
    entry evicted for new Data is the front of the queue, the one used least
    recently, and the new entry is at the back. *)
Theorem lru_evicts_least_recent `{Sha256} (now : Z) (d : Data) (u : bool) (e : Entry) (cs : Cs LruPolicy)
  (Hi : cs_inv cs) (Hfull : length (cs_table cs) = cs_limit cs) (Hd : wf_data d) (Hnc : d_noCache d = false)
  (Hnew : data_key d ∉ keys (cs_table cs)) (He : e ∈ cs_table cs) :
  p_beforeUse e (cs_policy cs) =
    Ok (MkLru (queue_erase (entry_key e) (m_queue (cs_policy cs)) ++ [entry_key e])) /\
  exists v l cs', m_queue (cs_policy cs) = v :: l /\ Cs_insert now d u cs = Ok (true, cs') /\
    data_key d :: keys (cs_table cs) ≡ₚ v :: keys (cs_table cs') /\
    m_queue (cs_policy cs') = l ++ [data_key d].
Proof.
  pose proof Hi as [Hs Hl]. assert (Hin : entry_key e ∈ m_queue (cs_policy cs)).
  { change (entry_key e ∈ tracked (cs_policy cs)). rewrite (step_tracked _ Hs). by apply keys_elem. }
  split.
  { simpl. unfold insertToQueue. by rewrite bool_decide_true by done. }
  destruct (table_insert (setData d u now) (cs_table cs)) as [[i []] t'] eqn:Hins.
  2: { destruct (insert_old now d u cs i t' Hs Hd Hnc Hins) as (e'&_&_&He'&Hk&_). exfalso. apply Hnew.
       rewrite <- Hk. apply keys_elem. by eapply list_elem_of_lookup_2. }
  destruct (insert_new now d u cs i t' Hs Hd Hnc Hins) as (p&Hp&Hs'&_&Heq&->).
  assert (Hlen : length t' = S (cs_limit cs)).
  { rewrite Heq, length_app. simpl. rewrite length_take, length_drop. lia. }
  destruct (evict_full _ Hs' Hlen) as (v&p'&cs'&Hev&->&->&HP). cbn [rbind cs_table cs_policy] in *.
  simpl in Hp. unfold insertToQueue in Hp. rewrite bool_decide_false in Hp.
  2: { intros Hin'. apply Hnew. rewrite <- (step_tracked _ Hs). exact Hin'. }
  simpl in Hp. injection Hp as <-. simpl in Hev. unfold Lru_evictOne in Hev. cbn [m_queue] in Hev.
  destruct (m_queue (cs_policy cs)) as [|v' l]; [by apply elem_of_nil in Hin|].
  cbn [app] in Hev. injection Hev as -> <-. exists v, l. eexists. split; [done|]. split; [done|].
  split; [|done]. cbn [cs_table]. rewrite <- HP, Heq. symmetry. apply keys_insert.
Qed.

(** A full-name Interest that asks for the rightmost child makes the
    lookup run past the start of the table: when the table starts with two
    Data of one name, the Interest names the second of them by its digest, and
    that one does not satisfy it (stale, while fresh Data is asked for), the
    loop steps left of the scanned range and then applies [std::prev] to
    [begin()]. *)
Theorem cs_rightmost_underflow `{Sha256} {P} `{CsPolicy P} (now : Z) (i : Interest) (cs : Cs P) (a b : Entry)
  (s : Name) (Ht : cs_table cs = [a; b]) (Hwf : wf_table [a; b]) (Hab : name_of a = name_of b)
  (Hgen : gen_name (name_of b)) (Hlen : len (name_of b) < u64_max - 2)
  (Hi : i_name i = name_of b ++ [digest (e_data b)])
  (Hs : Name.getSuccessor (i_name i) = Ok s) (Hright : s_childSelector (i_selectors i) = 1)
  (Hb : canSatisfy now i b = false) :
  Cs_find now i cs = Err OutOfRange.
Proof.
  set (n := name_of b) in *. pose proof Hwf as [Hsort Hwt].
  assert (Hka : entry_key a = (n, Some (digest (e_data a)))).
  { unfold entry_key, data_key. fold (name_of a). by rewrite Hab. }
  assert (Hkb : entry_key b = (n, Some (digest (e_data b)))) by done.
  assert (Hlt : key_cmp (entry_key a) (entry_key b) < 0) 
    by exact (sorted_lookup [a; b] 0 1 a b Hsort eq_refl eq_refl ltac:(lia)).
  assert (Hbn : bytes_name n) by (by apply gen_name_bytes).
  assert (Hwa : wf_entry a) by (by apply Forall_cons in Hwt as [? _]).
  assert (Hwb : wf_entry b) by (by apply Forall_cons in Hwt as [_ [? _]%Forall_cons]).
  set (dg := digest (e_data b)) in *.
  assert (Hdg : wf_component dg).
  { split_and!; [|apply sha256_bytes|simpl; rewrite sha256_length; done].
    unfold isGeneric, isImplicitSha256Digest. simpl. by rewrite sha256_length. }
  assert (Hdl : len (c_value dg) < 2 ^ 32 - 1) by (simpl; by rewrite sha256_length).
  rewrite Hi in Hs. set (d' := MkComponent (c_type dg) (successor_value (c_value dg))) in *.
  rewrite (getSuccessor_snoc_eq n dg d' Hdg Hdl) in Hs; [|rewrite len_app; change (len [dg]) with 1; width_lia|done].
  change (isGeneric d') with false in Hs. cbn [orb] in Hs. destruct (isImplicitSha256Digest d') eqn:Hd'; [|done].
  injection Hs as <-.
  assert (Hq : forall c, isImplicitSha256Digest c = true -> query_key (n ++ [c]) = (n, Some c)).
  { intros c Hc. unfold query_key. rewrite last_snoc, Hc, length_app. simpl.
    rewrite Nat.add_sub. by rewrite take_app_length. }
  assert (Hdd : isImplicitSha256Digest dg = true) by (unfold isImplicitSha256Digest; simpl; by rewrite sha256_length).
  assert (Hbd : key_cmp (entry_key b) (n, Some d') < 0).
  { rewrite Hkb. unfold key_cmp. simpl. rewrite (cmp_refl (P := bytes_name)). simpl.
    exact (proj1 (successor_between dg dg _ (sha256_bytes _) (sha256_bytes _) eq_refl)). }
  assert (Hd'b : wf_bytes (c_value d')) by (apply successor_value_spec, sha256_bytes).
  assert (Had : key_cmp (entry_key a) (n, Some d') < 0).
  { apply (cmp_trans (cmp := key_cmp) _ (entry_key b)); try done; by apply wf_data_key. }
  assert (Hfirst : lower_bound_query (i_name i) [a; b] = 1%nat).
  { rewrite Hi. cbn [lower_bound_query].
    rewrite (proj2 (lt_query_key a (n ++ [dg]) Hwa ltac:(apply Forall_app; split; [done|by apply Forall_singleton; apply sha256_bytes])))
      by (by rewrite Hq).
    destruct (Entry_lt_query b (n ++ [dg])) eqn:E; [|done]. exfalso.
    apply lt_query_key in E; [|done|apply Forall_app; split; [done|apply Forall_singleton, sha256_bytes]].
    rewrite Hq in E by done. rewrite Hkb, (cmp_refl (P := wf_key)) in E. lia. }
  assert (Hlast : lower_bound_query (n ++ [d']) [a; b] = 2%nat).
  { assert (bytes_name (n ++ [d'])) by (apply Forall_app; split; [done|by apply Forall_singleton]).
    cbn [lower_bound_query]. rewrite (proj2 (lt_query_key a (n ++ [d']) Hwa ltac:(done))) by (by rewrite Hq).
    by rewrite (proj2 (lt_query_key b (n ++ [d']) Hwb ltac:(done))) by (by rewrite Hq). }
  assert (Hleft : lower_bound_query n [a; b] = 0%nat).
  { cbn [lower_bound_query]. destruct (Entry_lt_query a n) eqn:E; [|done]. exfalso.
    apply lt_query_key in E; [|done..]. rewrite query_key_gen in E by done. apply key_lt_gen in E.
    rewrite Hab, (cmp_refl (P := bytes_name)) in E. lia. }
  assert (Hna : canSatisfy now i a = false).
  { unfold canSatisfy. destruct (matchesData i (e_data a)) eqn:Hm; [|done]. exfalso. revert Hm. unfold matchesData.
    set (A := negb (_ <=? _)). destruct A; [done|]. set (B := _ && negb _). destruct B; [done|].
    fold (name_of a). rewrite Hi, Hab. fold n. rewrite len_app. change (len [dg]) with 1. rewrite Z.eqb_refl, last_snoc, Hdd.
    unfold Name_equals, getFullName. fold (name_of a). rewrite Hab. fold n.
    rewrite !len_app, Z.eqb_refl, components_match_last by done. cbn [negb].
    destruct (equals dg (digest (e_data a))) eqn:E; [|by rewrite andb_false_r]. exfalso. apply equals_value in E.
    assert (digest (e_data a) = dg) as Heq by (unfold dg, digest in *; simpl in E; congruence).
    rewrite Hka, Hkb, Heq, (cmp_refl (P := wf_key)) in Hlt. lia. }
  unfold Cs_find. rewrite Ht, Hright. change (1 =? 1) with true. cbv iota. rewrite Hfirst, Hi.
  rewrite (proj2 (Z.ltb_lt 0 _)) by (rewrite len_app; change (len [dg]) with 1; pose proof (len_nonneg n); lia).
  rewrite (getSuccessor_snoc_eq n dg d' Hdg Hdl) by (done || (rewrite len_app; change (len [dg]) with 1; width_lia)).
  change (isGeneric d') with false. cbn [orb]. rewrite Hd'. cbn [rbind]. rewrite Hlast.
  unfold findRightmost. cbn [rightmost_loop Nat.eqb lookup list_lookup]. fold (name_of b). fold n. rewrite Hi.
  rewrite (proj2 (Z.eqb_neq _ _)) by (rewrite len_app; change (len [dg]) with 1; lia).
  assert (getPrefix n (len (n ++ [dg]) + 1) = n) as ->.
  { unfold getPrefix. rewrite len_app. change (len [dg]) with 1. pose proof (len_nonneg n).
    rewrite (proj2 (Z.ltb_ge _ _)), getSubName_take by width_lia. rewrite Z.min_l by lia.
    rewrite to_nat_len. by apply take_ge. }
  rewrite Hleft. unfold findLeftmost, find_if. cbn [slice drop take find_from Nat.sub]. rewrite Hna, Hb. done.
Qed.

(** ** Witnesses *)

Lemma Cs_empty_inv `{Sha256} {P} `{CsPolicyLaws P} n : cs_inv (Cs_empty (P := P) n).
Proof.
  destruct law_empty as [Hp Htr]. split; [split; [|exact Hp|]|]; simpl.
  - split; [apply SSorted_nil|by apply Forall_nil_2].
  - by rewrite Htr.
  - lia.
Qed.

Module Samples.
#[local] Existing Instance sample_sha256.
Definition data (freshness : Z) (wire : list Z) : Data := MkData name_ab freshness Block_empty wire false.
Definition store {P} `{CsPolicy P} (limit : nat) (l : list (Data * bool)) : Cs P :=
  fold_left (fun cs du => match Cs_insert 0 du.1 du.2 cs with Ok (_, cs') => cs' | Err _ => cs end) l (Cs_empty limit).
Definition interest (name : Name) (childSelector : Z) (mustBeFresh : bool) : Interest :=
  MkInterest name (MkSelectors (-1) (-1) KeyLocator_new (MkExclude [] None) childSelector mustBeFresh None) 1 4000 None None None.

Lemma cs_insert_correct_witness :
  exists cs', Cs_insert 0 (data 5 [6; 0]) false (Cs_empty (P := LruPolicy) 1) = Ok (true, cs') /\ cs_inv cs'.
Proof.
  destruct (cs_insert_correct 0 (data 5 [6; 0]) false (Cs_empty (P := LruPolicy) 1)) as (cs'&?&?&_);
    [apply Cs_empty_inv|apply wf_name_bytes; by_decide|]. by exists cs'.
Defined.

(** Two Data of one name; the Interest asks for the rightmost child. *)
Definition store2 : Cs PriorityFifoPolicy := store 2 [(data 5 [6; 0], false); (data 5 [6; 1], false)].

Lemma store2_reachable : cs_reachable store2.
Proof.
  exists 2%nat. apply (rtc_l _ _ (store 2 [(data 5 [6; 0], false)])); [|apply rtc_once].
  - apply (step_insert 0 (data 5 [6; 0]) false true); [apply wf_name_bytes; by_decide|by vm_compute].
  - apply (step_insert 0 (data 5 [6; 1]) false true); [apply wf_name_bytes; by_decide|by vm_compute].
Qed.

Lemma cs_find_reference_witness :
  exists p, Cs_find 0 (interest name_a 1 false) store2 = Ok (Some (data 5 [6; 0]), MkCs (cs_table store2) p 2) /\
    cs_inv (MkCs (cs_table store2) p 2).
Proof.
  apply (cs_find_reference 0 (interest name_a 1 false) store2);
    [apply (machine_cs _ (machine_reachable _ store2_reachable))|by_decide|by_decide].
Defined.

Lemma cs_reachable_safe_witness :
  (length (cs_table store2) <= cs_limit store2)%nat /\ sorted_table (cs_table store2) /\
  fifo_tracked (cs_policy store2) ≡ₚ keys (cs_table store2) /\ NoDup (fifo_tracked (cs_policy store2)) /\
  flagged (cs_table store2) (cs_policy store2).
Proof. apply (cs_reachable_safe store2), store2_reachable. Defined.

Lemma fifo_evicts_by_priority_witness :
  exists v cs', Cs_insert 0 (data 5 [6; 2]) true store2 = Ok (true, cs') /\
    data_key (data 5 [6; 2]) :: keys (cs_table store2) ≡ₚ v :: keys (cs_table cs') /\
    v = data_key (data 5 [6; 2]).
Proof.
  destruct (fifo_evicts_by_priority 0 (data 5 [6; 2]) true store2) as (v&cs'&Hi&HP&Hv&_);
    [apply store2_reachable|by vm_compute|apply wf_name_bytes; by_decide|reflexivity|by_decide|].
  exists v, cs'. split_and!; [done|done|]. destruct Hv as [[? _]|(e&He&_&Hf)]; [by left|done|].
  exfalso. repeat (apply elem_of_cons in He as [->|He]; [done|]). by apply elem_of_nil in He.
Defined.

Definition lru_store : Cs LruPolicy := store 2 [(data 5 [6; 0], false); (data 5 [6; 1], false)].

Lemma lru_store_inv : cs_inv lru_store.
Proof.
  assert (E1 : Cs_insert 0 (data 5 [6; 0]) false (Cs_empty (P := LruPolicy) 2)
               = Ok (true, store 2 [(data 5 [6; 0], false)])) by (by vm_compute).
  assert (E2 : Cs_insert 0 (data 5 [6; 1]) false (store (P := LruPolicy) 2 [(data 5 [6; 0], false)])
               = Ok (true, lru_store)) by (by vm_compute).
  destruct (insert_cases 0 (data 5 [6; 0]) false (Cs_empty (P := LruPolicy) 2)) as (cs1&H1&I1&_);
    [apply Cs_empty_inv|apply wf_name_bytes; by_decide|done|].
  rewrite E1 in H1. injection H1 as <-.
  destruct (insert_cases 0 (data 5 [6; 1]) false (store (P := LruPolicy) 2 [(data 5 [6; 0], false)])) as (cs2&H2&I2&_);
    [exact I1|apply wf_name_bytes; by_decide|done|].
  rewrite E2 in H2. injection H2 as H2. rewrite H2. exact I2.
Qed.

Lemma lru_evicts_least_recent_witness :
  exists v l cs', m_queue (cs_policy lru_store) = v :: l /\
    Cs_insert 0 (data 5 [6; 2]) false lru_store = Ok (true, cs') /\
    data_key (data 5 [6; 2]) :: keys (cs_table lru_store) ≡ₚ v :: keys (cs_table cs') /\
    m_queue (cs_policy cs') = l ++ [data_key (data 5 [6; 2])].
Proof.
  apply (lru_evicts_least_recent 0 (data 5 [6; 2]) false (setData (data 5 [6; 0]) false 0) lru_store);
    [apply lru_store_inv|by vm_compute|apply wf_name_bytes; by_decide|reflexivity|by_decide|].
  vm_compute. left.
Defined.

(** The second Data is stale at the time of the lookup. *)
Lemma cs_rightmost_underflow_witness :
  Cs_find 1000000000 (interest (name_ab ++ [digest (data 5 [6; 1])]) 1 true) store2 = Err OutOfRange.
Proof.
  eapply (cs_rightmost_underflow 1000000000 (interest (name_ab ++ [digest (data 5 [6; 1])]) 1 true) store2
    (setData (data 5 [6; 0]) false 0) (setData (data 5 [6; 1]) false 0));
    [by vm_compute|apply (step_table _ (inv_step _ (machine_cs _ (machine_reachable _ store2_reachable))))
    |reflexivity|by_decide|reflexivity|reflexivity|vm_compute; reflexivity|reflexivity|by vm_compute].
Defined.
End Samples.
