(* ===== verification/NameTree.v ===== *)
(** * The name tree: [NFD/daemon/table/name-tree.cpp], [name-tree-entry.cpp]

    A hash table from name prefixes to entries, which the FIB, the PIT, the
    strategy choice table and the measurements table share.  An entry is
    linked to its parent and its children; these pointers are the prefixes of
    the entries they point to, since no two entries have the same prefix.  A
    bucket is the list of its chain.  What the tables attach to an entry is a
    parameter [X] with the interface [Payload]; the hash function of the
    hashing library is an interface as well. *)

From S2P Require Import Prelude StdMap Tlv Block Encoder NameComponent Name Exclude Packet CsEntry CsPolicy.

(** [CityHash::compute], a [size_t] *)
Class CityHash := {
  cityHash : list Z -> Z;
  cityHash_range l : 0 <= cityHash l < U64
}.

(** What is attached to an entry: the empty attachment, and whether an
    attachment is empty. *)
Class Payload (X : Type) := {
  payload_empty : X;
  payload_isEmpty : X -> bool;
  payload_isEmpty_iff x : payload_isEmpty x = true <-> x = payload_empty
}.

Record NtEntry (X : Type) := MkNtEntry {
  nte_prefix : Name;
  nte_hash : Z;
  nte_parent : option Name;
  nte_children : list Name;
  nte_payload : X
}.
Arguments MkNtEntry {X}. Arguments nte_prefix {X}. Arguments nte_hash {X}.
Arguments nte_parent {X}. Arguments nte_children {X}. Arguments nte_payload {X}.

Record NameTree (X : Type) := MkNameTree {
  nt_buckets : list (list (NtEntry X));
  nt_nItems : Z;
  nt_minNBuckets : Z
}.
Arguments MkNameTree {X}. Arguments nt_buckets {X}. Arguments nt_nItems {X}. Arguments nt_minNBuckets {X}.

Section NameTree.
Context `{CityHash} {X : Type} `{Payload X}.
Implicit Types (t : NameTree X) (e : NtEntry X).

(** ** Hashing *)

Definition componentHash (c : Component) : Z := cityHash (tlv_wire (c_type c) (c_value c)).

Definition computeHash (prefix : Name) : Z := fold_left (fun h c => Z.lxor h (componentHash c)) prefix 0.

(** The hashes of the prefixes, from the empty one on. *)
Fixpoint hashSet_loop (h : Z) (n : Name) : list Z :=
  match n with
  | [] => []
  | c :: n' => let h' := Z.lxor h (componentHash c) in h' :: hashSet_loop h' n'
  end.
Definition computeHashSet (prefix : Name) : list Z := 0 :: hashSet_loop 0 prefix.

(** ** Entries *)

Definition isEmpty e : bool :=
  match nte_children e with [] => payload_isEmpty (nte_payload e) | _ => false end.

Definition set_parent (p : option Name) e : NtEntry X :=
  MkNtEntry (nte_prefix e) (nte_hash e) p (nte_children e) (nte_payload e).
Definition set_children (l : list Name) e : NtEntry X :=
  MkNtEntry (nte_prefix e) (nte_hash e) (nte_parent e) l (nte_payload e).
Definition set_payload (x : X) e : NtEntry X :=
  MkNtEntry (nte_prefix e) (nte_hash e) (nte_parent e) (nte_children e) x.

(** ** The table *)

Definition nBuckets t : Z := len (nt_buckets t).
Definition enlargeThreshold t : Z := nBuckets t / 2.
Definition shrinkThreshold t : Z := nBuckets t / 10.

Definition NameTree_empty (n : nat) : NameTree X := MkNameTree (replicate n []) 0 (Z.of_nat n).

Definition entries t : list (NtEntry X) := concat (nt_buckets t).

(** Following a pointer to an entry, and writing through one. *)
Definition deref (n : Name) t : option (NtEntry X) :=
  List.find (fun e => bool_decide (nte_prefix e = n)) (entries t).

Definition modify (n : Name) (f : NtEntry X -> NtEntry X) t : NameTree X :=
  MkNameTree (map (map (fun e => if bool_decide (nte_prefix e = n) then f e else e)) (nt_buckets t))
    (nt_nItems t) (nt_minNBuckets t).

Definition location (h : Z) t : nat := Z.to_nat (h mod nBuckets t).
Definition bucket (h : Z) t : list (NtEntry X) := nth (location h t) (nt_buckets t) [].

(** [NameTree::insert]: the entry, and whether it is new. *)
Definition insert (prefix : Name) t : NtEntry X * bool * NameTree X :=
  let hashValue := computeHash prefix in
  match List.find (fun e => Name_equals prefix (nte_prefix e)) (bucket hashValue t) with
  | Some e => (e, false, t)
  | None =>
      let e := MkNtEntry prefix hashValue None [] payload_empty in
      (e, true, MkNameTree (alter (fun b => b ++ [e]) (location hashValue t) (nt_buckets t))
                  (nt_nItems t) (nt_minNBuckets t))
  end.

(** [NameTree::resize]: the hash of an entry goes through a [uint32_t]. *)
Definition resize (newNBuckets : Z) t : NameTree X :=
  let place (bs : list (list (NtEntry X))) (e : NtEntry X) :=
    let h := nte_hash e mod U32 in
    alter (fun b => b ++ [e]) (Z.to_nat (h mod newNBuckets)) bs in
  MkNameTree (fold_left place (entries t) (replicate (Z.to_nat newNBuckets) []))
    (nt_nItems t) (nt_minNBuckets t).

(** The body of the loop of [lookup] for the prefix [temp]: the entry that
    [insert] returns, which becomes the next parent. *)
Definition lookup_step (temp : Name) (parent : option Name) t : Name * NameTree X :=
  let '(entry, isNew, t) := insert temp t in
  let t :=
    if isNew then
      let t := MkNameTree (nt_buckets t) (nt_nItems t + 1) (nt_minNBuckets t) in
      let t := modify temp (set_parent parent) t in
      match parent with
      | Some p => modify p (fun e => set_children (nte_children e ++ [temp]) e) t
      | None => t
      end
    else t in
  (nte_prefix entry, if enlargeThreshold t <? nt_nItems t then resize (2 * nBuckets t) t else t).

(** [NameTree::lookup]: the prefixes from the empty one to [prefix]; [todo]
    components are still to be appended to [temp]. *)
Fixpoint lookup_loop (temp : Name) (parent : option Name) (todo : Name) t : Name * NameTree X :=
  let '(entry, t) := lookup_step temp parent t in
  match todo with
  | [] => (entry, t)
  | c :: todo => lookup_loop (temp ++ [c]) (Some entry) todo t
  end.

(** The entry, by its prefix, and the tree with it; the prefix of the entry can
    differ from [prefix] in the types of its components only. *)
Definition lookup_entry (prefix : Name) t : Name * NameTree X := lookup_loop [] None prefix t.
Definition lookup (prefix : Name) t : NameTree X := (lookup_entry prefix t).2.

Definition findExactMatch (prefix : Name) t : option (NtEntry X) :=
  let hashValue := computeHash prefix in
  List.find (fun e => (hashValue =? nte_hash e) && Name_equals prefix (nte_prefix e)) (bucket hashValue t).

(** [findLongestPrefixMatch(prefix, selector)]: the loop over [i], from the
    last hash of the set to the first. *)
Fixpoint lpm_loop (hashes : list Z) (prefix : Name) (sel : NtEntry X -> bool) t : option (NtEntry X) :=
  match hashes with
  | [] => None
  | h :: hashes' =>
      match List.find (fun e => (h =? nte_hash e) && isPrefixOf (nte_prefix e) prefix && sel e) (bucket h t) with
      | Some e => Some e
      | None => lpm_loop hashes' prefix sel t
      end
  end.

Definition findLongestPrefixMatch (prefix : Name) (sel : NtEntry X -> bool) t : option (NtEntry X) :=
  lpm_loop (rev (computeHashSet prefix)) prefix sel t.

(** [findLongestPrefixMatch(entry, selector)]: up the parents; a chain of
    parents has at most as many entries as the prefix has components, and
    one more. *)
Fixpoint climb (fuel : nat) (n : option Name) (sel : NtEntry X -> bool) t : option (NtEntry X) :=
  match n, fuel with
  | Some n, S fuel =>
      match deref n t with
      | None => None
      | Some e => if sel e then Some e else climb fuel (nte_parent e) sel t
      end
  | _, _ => None
  end.

Definition findLongestPrefixMatch_entry (n : Name) (sel : NtEntry X -> bool) t : option (NtEntry X) :=
  climb (S (length n)) (Some n) sel t.

(** [findAllMatches]: the longest match and, up its parents, the other
    matches. *)
Fixpoint ancestors (fuel : nat) (n : option Name) (sel : NtEntry X -> bool) t : list (NtEntry X) :=
  match n, fuel with
  | Some n, S fuel =>
      match deref n t with
      | None => []
      | Some e => (if sel e then [e] else []) ++ ancestors fuel (nte_parent e) sel t
      end
  | _, _ => []
  end.

Definition findAllMatches (prefix : Name) (sel : NtEntry X -> bool) t : list (NtEntry X) :=
  match findLongestPrefixMatch prefix sel t with
  | None => []
  | Some e => e :: ancestors (length (nte_prefix e)) (nte_parent e) sel t
  end.

Definition fullEnumerate (sel : NtEntry X -> bool) t : list (NtEntry X) :=
  List.filter sel (entries t).

(** Taking a child out of the vector: the last one takes its place. *)
Fixpoint index_of (n : Name) (l : list Name) : option nat :=
  match l with
  | [] => None
  | x :: l' => if bool_decide (x = n) then Some 0%nat else S <$> index_of n l'
  end.

Definition remove_child (n : Name) (l : list Name) : list Name :=
  match index_of n l, last l with
  | Some i, Some x => take (length l - 1) (<[i := x]> l)
  | _, _ => l
  end.

(** [eraseEntryIfEmpty] of the entry [e]: it is taken out of the children of
    its parent and out of the chain of its bucket; then the parent is tried,
    and the table may shrink. *)
Definition unlink e t : NameTree X :=
  let n := nte_prefix e in
  let t := match nte_parent e with
           | Some p => modify p (fun x => set_children (remove_child n (nte_children x)) x) t
           | None => t
           end in
  MkNameTree (alter (filter (fun x => nte_prefix x <> n)) (location (nte_hash e) t) (nt_buckets t))
    (nt_nItems t - 1) (nt_minNBuckets t).

Definition shrink t : NameTree X :=
  let newNBuckets := nBuckets t / 2 in
  if (nt_minNBuckets t <=? newNBuckets) && (nt_nItems t <? shrinkThreshold t)
  then resize newNBuckets t else t.

Fixpoint erase_loop (fuel : nat) (n : Name) t : NameTree X :=
  match fuel, deref n t with
  | S fuel, Some e =>
      if isEmpty e then
        let t := unlink e t in
        let t := match nte_parent e with Some p => erase_loop fuel p t | None => t end in
        shrink t
      else t
  | _, _ => t
  end.

Definition eraseEntryIfEmpty (n : Name) t : NameTree X := erase_loop (S (length n)) n t.
End NameTree.

(** ** Invariant *)

(** The prefix without its last component. *)
Definition parent_of (n : Name) : option Name :=
  match n with [] => None | _ => Some (take (length n - 1) n) end.

Lemma parent_of_snoc n c : parent_of (n ++ [c]) = Some n.
Proof.
  unfold parent_of. rewrite length_app. simpl. rewrite Nat.add_sub, take_app_length. by destruct n.
Qed.

(** Overwriting an element with the last one and dropping the last. *)
Lemma swap_last_perm {A} (l : list A) i n x : l !! i = Some n -> last l = Some x ->
  l ≡ₚ n :: take (length l - 1) (<[i := x]> l).
Proof.
  intros Hi Hx. apply last_Some in Hx as [l' ->]. rewrite length_app. simpl. rewrite Nat.add_sub.
  destruct (decide (i = length l')) as [->|Hne].
  - rewrite lookup_app_r, Nat.sub_diag in Hi by lia. injection Hi as ->.
    rewrite insert_app_r_alt, Nat.sub_diag by lia. rewrite take_app_length. simpl. symmetry. apply Permutation_cons_append.
  - assert (Hlt : (i < length l')%nat) by (apply lookup_lt_Some in Hi; rewrite length_app in Hi; simpl in Hi; lia).
    rewrite lookup_app_l in Hi by done. rewrite insert_app_l by done.
    rewrite take_app_le by (rewrite length_insert; lia). rewrite take_ge by (rewrite length_insert; lia).
    rewrite insert_take_drop by done. rewrite <- (take_drop_middle l' i n Hi) at 1.
    rewrite <- Permutation_cons_append, <- (Permutation_middle _ _ n), <- (Permutation_middle _ _ x).
    apply Permutation_swap.
Qed.

Section Facts.
Context `{CityHash} {X : Type} `{Payload X}.
Implicit Types (t : NameTree X) (e : NtEntry X) (es : list (NtEntry X)).

(** The links between entries: every entry but the root has its parent in
    the tree, and the children of an entry are the entries it is the parent
    of. *)
Record linked es : Prop := {
  link_nodup : NoDup (map nte_prefix es);
  link_gen e : e ∈ es -> gen_name (nte_prefix e);
  link_parent e : e ∈ es -> nte_parent e = parent_of (nte_prefix e);
  link_up e p : e ∈ es -> nte_parent e = Some p ->
    exists x, x ∈ es /\ nte_prefix x = p /\ nte_prefix e ∈ nte_children x;
  link_down e c : e ∈ es -> c ∈ nte_children e ->
    exists x, x ∈ es /\ nte_prefix x = c /\ nte_parent x = Some (nte_prefix e);
  link_children e : e ∈ es -> NoDup (nte_children e)
}.

(** Every entry is in the bucket of its hash. *)
Definition placed t : Prop :=
  forall i b e, nt_buckets t !! i = Some b -> e ∈ b ->
    nte_hash e = computeHash (nte_prefix e) /\ location (nte_hash e) t = i.

(** The number of buckets is a power of two, so that the [uint32_t] in
    [resize] does not matter. *)
Record nt_inv t : Prop := {
  inv_power : exists k, 0 <= k <= 32 /\ nBuckets t = 2 ^ k;
  inv_min : exists k, 0 <= k /\ nt_minNBuckets t = 2 ^ k;
  inv_placed : placed t;
  inv_linked : linked (entries t);
  inv_items : nt_nItems t = len (entries t)
}.

Lemma elem_of_entries t e : e ∈ entries t <-> exists i b, nt_buckets t !! i = Some b /\ e ∈ b.
Proof.
  unfold entries. rewrite list_elem_of_In, in_concat. split.
  - intros (b&Hb&He). apply list_elem_of_In, list_elem_of_lookup in Hb as [i Hb]. exists i, b.
    by rewrite list_elem_of_In.
  - intros (i&b&Hb&He). exists b. rewrite <- !list_elem_of_In. split; [|done]. by eapply list_elem_of_lookup_2.
Qed.

Lemma find_Some_elem {A} (f : A -> bool) l x : List.find f l = Some x -> x ∈ l /\ f x = true.
Proof. intros Hf. apply List.find_some in Hf as [? ?]. by rewrite list_elem_of_In. Qed.

Lemma find_None_elem {A} (f : A -> bool) l x : List.find f l = None -> x ∈ l -> f x = false.
Proof. intros Hf Hx. eapply List.find_none; [exact Hf|]. by rewrite <- list_elem_of_In. Qed.

Lemma deref_elem n t e : deref n t = Some e -> e ∈ entries t /\ nte_prefix e = n.
Proof. intros Hf. apply find_Some_elem in Hf as [? Hp]. by apply bool_decide_eq_true in Hp. Qed.

Lemma prefix_unique es a b : NoDup (map nte_prefix es) -> a ∈ es -> b ∈ es -> nte_prefix a = nte_prefix b -> a = b.
Proof.
  induction es as [|x es IH]; intros Hnd Ha Hb Hp; [by apply elem_of_nil in Ha|].
  simpl in Hnd. apply NoDup_cons in Hnd as [Hx Hnd].
  apply elem_of_cons in Ha as [->|Ha], Hb as [->|Hb]; [done| | |by apply IH].
  - destruct Hx. rewrite Hp. apply list_elem_of_fmap. by exists b.
  - destruct Hx. rewrite <- Hp. apply list_elem_of_fmap. by exists a.
Qed.

Lemma deref_iff n t e : linked (entries t) -> deref n t = Some e <-> e ∈ entries t /\ nte_prefix e = n.
Proof.
  intros Hl. split; [apply deref_elem|]. intros [He Hp].
  destruct (deref n t) as [x|] eqn:Hd.
  - apply deref_elem in Hd as [Hx Hpx]. f_equal. apply (prefix_unique (entries t)); [apply Hl|done|done|congruence].
  - exfalso. unfold deref in Hd. eapply find_None_elem in Hd; [|exact He]. apply bool_decide_eq_false in Hd. done.
Qed.

Lemma deref_None n t e : deref n t = None -> e ∈ entries t -> nte_prefix e <> n.
Proof. intros Hd He. unfold deref in Hd. eapply find_None_elem in Hd; [|exact He]. by apply bool_decide_eq_false in Hd. Qed.

(** ** Hashing *)

Lemma lxor_range a b : 0 <= a < U64 -> 0 <= b < U64 -> 0 <= Z.lxor a b < U64.
Proof.
  intros [Ha Ha'] [Hb Hb']. split; [by apply Z.lxor_nonneg|]. unfold U64 in *.
  destruct (Z.eq_dec (Z.lxor a b) 0) as [->|Hne]; [done|]. apply Z.log2_lt_pow2.
  - pose proof (proj2 (Z.lxor_nonneg a b) ltac:(tauto)). lia.
  - pose proof (Z.log2_lxor a b Ha Hb).
    assert (Hlog : forall x, 0 <= x < 2 ^ 64 -> Z.log2 x < 64).
    { intros x Hx. destruct (Z.eq_dec x 0) as [->|]; [done|]. apply Z.log2_lt_pow2; lia. }
    pose proof (Hlog a ltac:(lia)). pose proof (Hlog b ltac:(lia)). lia.
Qed.

Lemma computeHash_snoc n c : computeHash (n ++ [c]) = Z.lxor (computeHash n) (componentHash c).
Proof. unfold computeHash. by rewrite fold_left_app. Qed.

Lemma computeHash_range n : 0 <= computeHash n < U64.
Proof.
  induction n as [|c n IH] using rev_ind; [done|]. rewrite computeHash_snoc. apply lxor_range; [done|apply cityHash_range].
Qed.

Lemma hashSet_loop_spec p n : hashSet_loop (computeHash p) n = map (fun k => computeHash (p ++ take k n)) (seq 1 (length n)).
Proof.
  revert p. induction n as [|c n IH]; intros p; [done|]. cbn [hashSet_loop length seq map].
  rewrite <- computeHash_snoc. cbn [take]. rewrite take_0. f_equal. rewrite IH, <- (seq_shift (length n) 1), map_map.
  apply map_ext. intros k. simpl. by rewrite <- app_assoc.
Qed.

Lemma computeHashSet_spec n : computeHashSet n = map (fun k => computeHash (take k n)) (seq 0 (S (length n))).
Proof. unfold computeHashSet. change 0 with (computeHash []) at 2. by rewrite hashSet_loop_spec. Qed.

(** ** Buckets *)

Lemma elem_of_bucket h t e : placed t -> e ∈ bucket h t -> e ∈ entries t /\ location (nte_hash e) t = location h t.
Proof.
  intros Hpl He. unfold bucket in He. destruct (nth_lookup_or_length (nt_buckets t) (location h t) []) as [Hb|Hb].
  - split; [apply elem_of_entries; by eauto|]. by apply (Hpl _ _ e Hb).
  - rewrite nth_overflow in He by done. by apply elem_of_nil in He.
Qed.

Lemma entry_in_bucket t e : placed t -> e ∈ entries t -> e ∈ bucket (nte_hash e) t.
Proof.
  intros Hpl He. apply elem_of_entries in He as (i&b&Hb&He). destruct (Hpl i b e Hb He) as [_ Hloc].
  unfold bucket. rewrite Hloc. by rewrite (nth_lookup_Some _ _ _ _ Hb).
Qed.

Lemma placed_hash t e : placed t -> e ∈ entries t -> nte_hash e = computeHash (nte_prefix e).
Proof. intros Hpl He. apply elem_of_entries in He as (i&b&Hb&He). by destruct (Hpl i b e Hb He). Qed.

(** [findExactMatch] finds the entry of that prefix. *)
Lemma findExactMatch_deref n t : nt_inv t -> gen_name n -> findExactMatch n t = deref n t.
Proof.
  intros Hi Hn. pose proof (inv_placed _ Hi) as Hpl. pose proof (inv_linked _ Hi) as Hl. unfold findExactMatch.
  destruct (List.find _ (bucket _ t)) as [e|] eqn:Hf.
  - apply find_Some_elem in Hf as [He Hf]. apply elem_of_bucket in He as [He _]; [|done].
    apply andb_true_iff in Hf as [_ Hf]. apply Name_equals_gen in Hf; [|done|by apply Hl].
    symmetry. by apply deref_iff.
  - destruct (deref n t) as [e|] eqn:Hd; [exfalso|done]. apply deref_elem in Hd as [He <-].
    pose proof (placed_hash _ _ Hpl He) as Hh. eapply find_None_elem in Hf; [|rewrite <- Hh; by apply entry_in_bucket].
    rewrite Hh, Z.eqb_refl in Hf. cbn [andb] in Hf.
    rewrite (proj2 (Name_equals_gen _ _ Hn Hn) eq_refl) in Hf. done.
Qed.

(** ** Resizing *)

Lemma concat_alter_snoc {A} (bs : list (list A)) i x : (i < length bs)%nat ->
  concat (alter (fun b => b ++ [x]) i bs) ≡ₚ x :: concat bs.
Proof.
  revert i. induction bs as [|b bs IH]; intros [|i] Hi; simpl in *; [lia|lia| |].
  - rewrite <- app_assoc. simpl. by rewrite <- Permutation_middle.
  - change (b ++ concat (alter (fun b => b ++ [x]) i bs) ≡ₚ x :: b ++ concat bs).
    rewrite IH by lia. by rewrite <- Permutation_middle.
Qed.

Lemma elem_of_alter_snoc {A} (bs : list (list A)) i j b x y :
  alter (fun b => b ++ [x]) i bs !! j = Some b -> y ∈ b ->
  (exists b', bs !! j = Some b' /\ y ∈ b') \/ (y = x /\ j = i).
Proof.
  destruct (decide (i = j)) as [->|Hne].
  - rewrite list_lookup_alter_eq. destruct (bs !! j) as [b'|]; [|done]. intros [= <-].
    rewrite elem_of_app, list_elem_of_singleton. intros [?|?]; [left; by exists b'|by right].
  - rewrite list_lookup_alter_ne by done. intros Hb He. left. by exists b.
Qed.

Lemma fold_place (idx : NtEntry X -> nat) es : forall bs, (forall e, e ∈ es -> (idx e < length bs)%nat) ->
  let bs' := fold_left (fun bs e => alter (fun b => b ++ [e]) (idx e) bs) es bs in
  length bs' = length bs /\ concat bs' ≡ₚ concat bs ++ es /\
  forall i b e, bs' !! i = Some b -> e ∈ b -> (exists b', bs !! i = Some b' /\ e ∈ b') \/ (e ∈ es /\ i = idx e).
Proof.
  induction es as [|x es IH]; intros bs Hidx; cbn [fold_left]; cbv zeta.
  - split_and!; [done|by rewrite app_nil_r|]. intros i b e Hb He. left. by exists b.
  - destruct (IH (alter (fun b => b ++ [x]) (idx x) bs)) as (Hl&HP&Hin).
    { intros e He. rewrite length_alter. apply Hidx. by right. }
    rewrite length_alter in Hl. split_and!; [done| |].
    + rewrite HP, concat_alter_snoc by (apply Hidx; left). simpl. by rewrite Permutation_middle.
    + intros i b e Hb He. destruct (Hin i b e Hb He) as [(b'&Hb'&He')|[He' ->]].
      * apply (elem_of_alter_snoc _ _ _ _ _ _ Hb') in He' as [?|[-> ->]]; [by left|right; split; [left|done]].
      * right. split; [by right|done].
Qed.

Lemma concat_replicate_nil {A} n : concat (replicate n ([] : list A)) = [].
Proof. by induction n. Qed.

(** A power of two up to [2^32] divides [2^32]. *)
Lemma mod_u32 h k : 0 <= k <= 32 -> (h mod U32) mod 2 ^ k = h mod 2 ^ k.
Proof.
  intros Hk. unfold U32. replace (2 ^ 32) with (2 ^ k * 2 ^ (32 - k)) by (rewrite <- Z.pow_add_r by lia; f_equal; lia).
  assert (0 < 2 ^ k) by (apply Z.pow_pos_nonneg; lia). assert (0 < 2 ^ (32 - k)) by (apply Z.pow_pos_nonneg; lia).
  rewrite Z.rem_mul_r, Z.mul_comm, Z_mod_plus_full by lia. apply Z.mod_mod. lia.
Qed.

Lemma resize_spec k t : 0 <= k <= 32 -> placed t ->
  nBuckets (resize (2 ^ k) t) = 2 ^ k /\ entries (resize (2 ^ k) t) ≡ₚ entries t /\ placed (resize (2 ^ k) t).
Proof.
  intros Hk Hpl. assert (Hpos : 0 < 2 ^ k) by (apply Z.pow_pos_nonneg; lia).
  set (idx := fun e : NtEntry X => Z.to_nat (nte_hash e mod U32 mod 2 ^ k)).
  destruct (fold_place idx (entries t) (replicate (Z.to_nat (2 ^ k)) [])) as (Hl&HP&Hin).
  { intros e _. rewrite length_replicate. unfold idx. pose proof (Z.mod_pos_bound (nte_hash e mod U32) (2 ^ k) Hpos). lia. }
  rewrite length_replicate in Hl. rewrite concat_replicate_nil in HP.
  assert (Hnb : nBuckets (resize (2 ^ k) t) = 2 ^ k).
  { etrans; [exact (f_equal Z.of_nat Hl)|lia]. }
  split_and!; [done|exact HP|]. intros i b e Hb He.
  destruct (Hin i b e Hb He) as [(b'&Hb'&He')|[He' ->]].
  { apply lookup_replicate in Hb' as [-> _]. by apply elem_of_nil in He'. }
  split; [by apply (placed_hash t)|]. unfold location. rewrite Hnb. unfold idx. by rewrite mod_u32.
Qed.

(** ** Changing entries *)

Lemma linked_perm es es' : es ≡ₚ es' -> linked es -> linked es'.
Proof.
  intros HP Hl. assert (Hin : forall e, e ∈ es' -> e ∈ es) by (intros e He; by rewrite HP).
  split.
  - rewrite <- HP. apply Hl.
  - intros e He. by apply (link_gen _ Hl), Hin.
  - intros e He. by apply (link_parent _ Hl), Hin.
  - intros e p He Hp. destruct (link_up _ Hl e p) as (x&Hx&?); [by apply Hin|done|]. exists x. by rewrite <- HP.
  - intros e c He Hc. destruct (link_down _ Hl e c) as (x&Hx&?); [by apply Hin|done|]. exists x. by rewrite <- HP.
  - intros e He. by apply (link_children _ Hl), Hin.
Qed.

Lemma nt_inv_resize k t : 0 <= k <= 32 -> nt_inv t -> nt_inv (resize (2 ^ k) t).
Proof.
  intros Hk Hi. destruct (resize_spec k t Hk (inv_placed _ Hi)) as (Hn&HP&Hpl). split; [|apply Hi|done| |].
  - by exists k.
  - eapply linked_perm; [symmetry; exact HP|apply Hi].
  - change (nt_nItems (resize (2 ^ k) t)) with (nt_nItems t). rewrite (inv_items _ Hi).
    apply Permutation_length in HP. unfold len. by rewrite HP.
Qed.

(** Finding an entry does not depend on the order of the entries. *)
Lemma deref_perm n t t' : linked (entries t) -> entries t' ≡ₚ entries t -> deref n t' = deref n t.
Proof.
  intros Hl HP. assert (Hl' : linked (entries t')) by (eapply linked_perm; [symmetry; exact HP|done]).
  destruct (deref n t) as [e|] eqn:Hd.
  - apply deref_iff in Hd; [|done]. apply deref_iff; [done|]. by rewrite HP.
  - destruct (deref n t') as [e|] eqn:Hd'; [|done]. apply deref_iff in Hd'; [|done]. rewrite HP in Hd'.
    apply (deref_iff n t e Hl) in Hd'. congruence.
Qed.

Lemma entries_modify n f t :
  entries (modify n f t) = map (fun e => if bool_decide (nte_prefix e = n) then f e else e) (entries t).
Proof. unfold entries, modify. simpl. by rewrite concat_map. Qed.

Lemma placed_modify n f t : (forall e, nte_prefix (f e) = nte_prefix e /\ nte_hash (f e) = nte_hash e) ->
  placed t -> placed (modify n f t).
Proof.
  intros Hf Hpl i b e Hb He. unfold modify in Hb. simpl in Hb. rewrite list_lookup_fmap in Hb.
  destruct (nt_buckets t !! i) as [b'|] eqn:Hb'; [|done]. injection Hb as <-.
  apply list_elem_of_fmap in He as (x&->&Hx). destruct (Hpl i b' x Hb' Hx) as [Hh Hloc].
  assert (location (nte_hash x) (modify n f t) = location (nte_hash x) t) as Hlm.
  { unfold location, nBuckets, modify, len. simpl. by rewrite length_map. }
  case_bool_decide; [|by rewrite Hlm]. destruct (Hf x) as [-> ->]. by rewrite Hlm.
Qed.

(** ** Insertion *)

Definition new_entry (n : Name) (parent : option Name) : NtEntry X :=
  MkNtEntry n (computeHash n) parent [] payload_empty.

Lemma tree_insert_old n t e : placed t -> linked (entries t) -> gen_name n -> deref n t = Some e ->
  insert n t = (e, false, t).
Proof.
  intros Hpl Hl Hn Hd. unfold insert. apply deref_elem in Hd as [He Hp].
  destruct (List.find _ (bucket _ t)) as [x|] eqn:Hf.
  - apply find_Some_elem in Hf as [Hx Hf]. apply elem_of_bucket in Hx as [Hx _]; [|done].
    apply Name_equals_gen in Hf; [|done|by apply Hl]. f_equal. f_equal.
    apply (prefix_unique (entries t)); [apply Hl|done|done|congruence].
  - exfalso. pose proof (placed_hash _ _ Hpl He) as Hh.
    eapply find_None_elem in Hf; [|rewrite <- Hp, <- Hh; by apply entry_in_bucket].
    rewrite Hp, (proj2 (Name_equals_gen _ _ Hn Hn) eq_refl) in Hf. done.
Qed.

Lemma location_lt h t : 0 < nBuckets t -> (location h t < length (nt_buckets t))%nat.
Proof. intros Hb. unfold location. pose proof (Z.mod_pos_bound h _ Hb). unfold nBuckets, len in *. lia. Qed.

Lemma tree_insert_new n t : placed t -> linked (entries t) -> gen_name n -> 0 < nBuckets t -> deref n t = None ->
  exists t', insert n t = (new_entry n None, true, t') /\ entries t' ≡ₚ new_entry n None :: entries t /\
    placed t' /\ nBuckets t' = nBuckets t /\ nt_nItems t' = nt_nItems t /\ nt_minNBuckets t' = nt_minNBuckets t.
Proof.
  intros Hpl Hl Hn Hb Hd. unfold insert. destruct (List.find _ (bucket _ t)) as [x|] eqn:Hf.
  { exfalso. apply find_Some_elem in Hf as [Hx Hf]. apply elem_of_bucket in Hx as [Hx _]; [|done].
    apply Name_equals_gen in Hf; [|done|by apply Hl]. by apply (deref_None n t x). }
  eexists. split; [done|]. assert (Hnb : forall t' : NameTree X, length (nt_buckets t') = length (nt_buckets t) ->
    nBuckets t' = nBuckets t) by (intros t' Hlen; unfold nBuckets, len; by rewrite Hlen).
  split_and!; [| | |done|done].
  - unfold entries. simpl. apply concat_alter_snoc. by apply location_lt.
  - intros i b e Hb' He. cbn [nt_buckets] in Hb'.
    assert (Hlo : forall h, location h (MkNameTree (alter (fun b => b ++ [new_entry n None])
        (location (computeHash n) t) (nt_buckets t)) (nt_nItems t) (nt_minNBuckets t)) = location h t).
    { intros h. unfold location. rewrite Hnb; [done|]. simpl. by rewrite length_alter. }
    rewrite Hlo. apply (elem_of_alter_snoc _ _ _ _ _ _ Hb') in He as [(b'&Hb2&He)|[-> ->]]; [by apply (Hpl i b')|done].
  - apply Hnb. simpl. by rewrite length_alter.
Qed.

Definition add_child (parent : option Name) (n : Name) e : NtEntry X :=
  match parent with
  | Some p => if bool_decide (nte_prefix e = p) then set_children (nte_children e ++ [n]) e else e
  | None => e
  end.

Lemma add_child_same parent n e :
  nte_prefix (add_child parent n e) = nte_prefix e /\ nte_hash (add_child parent n e) = nte_hash e /\
  nte_parent (add_child parent n e) = nte_parent e /\ nte_payload (add_child parent n e) = nte_payload e.
Proof. unfold add_child. destruct parent; [|done]. by case_bool_decide. Qed.

Lemma add_child_children parent n e c : c ∈ nte_children (add_child parent n e) <->
  c ∈ nte_children e \/ (parent = Some (nte_prefix e) /\ c = n).
Proof.
  unfold add_child. destruct parent as [p|]; [|naive_solver]. case_bool_decide as Hp; simpl.
  - rewrite elem_of_app, list_elem_of_singleton. naive_solver.
  - naive_solver.
Qed.

(** A new entry whose parent is in the tree keeps the links. *)
Lemma linked_add es n : linked es -> gen_name n -> (forall e, e ∈ es -> nte_prefix e <> n) ->
  (forall p, parent_of n = Some p -> exists x, x ∈ es /\ nte_prefix x = p) ->
  linked (new_entry n (parent_of n) :: map (add_child (parent_of n) n) es).
Proof.
  intros Hl Hn Hnew Hpar. set (g := add_child (parent_of n) n).
  assert (Hg : forall e, nte_prefix (g e) = nte_prefix e /\ nte_parent (g e) = nte_parent e).
  { intros e. destruct (add_child_same (parent_of n) n e) as (?&_&?&_). done. }
  assert (Hmap : map nte_prefix (map g es) = map nte_prefix es).
  { rewrite map_map. apply map_ext. intros e. apply Hg. }
  assert (Hin : forall e, e ∈ map g es <-> exists x, e = g x /\ x ∈ es) by (intros e; apply list_elem_of_fmap).
  split.
  - cbn [map]. rewrite Hmap. apply NoDup_cons. split; [|apply Hl]. intros Hx.
    apply list_elem_of_fmap in Hx as (x&Hx&Hxe). by apply (Hnew x).
  - intros e [->|He]%elem_of_cons; [done|]. apply Hin in He as (x&->&Hx). rewrite (proj1 (Hg x)). by apply Hl.
  - intros e [->|He]%elem_of_cons; [done|]. apply Hin in He as (x&->&Hx). destruct (Hg x) as [-> ->]. by apply Hl.
  - intros e p [->|He]%elem_of_cons Hp.
    + simpl in Hp. destruct (Hpar p Hp) as (x&Hx&Hxp). exists (g x). split_and!.
      * right. apply Hin. by exists x.
      * by rewrite (proj1 (Hg x)).
      * apply add_child_children. right. by rewrite Hxp.
    + apply Hin in He as (x&->&Hx). destruct (Hg x) as [Hgp Hgq]. rewrite Hgq in Hp.
      destruct (link_up _ Hl x p Hx Hp) as (y&Hy&Hyp&Hyc). exists (g y). split_and!.
      * right. apply Hin. by exists y.
      * by rewrite (proj1 (Hg y)).
      * rewrite Hgp. apply add_child_children. by left.
  - intros e c [->|He]%elem_of_cons Hc; [simpl in Hc; by apply elem_of_nil in Hc|].
    apply Hin in He as (x&->&Hx). rewrite (proj1 (Hg x)).
    apply add_child_children in Hc as [Hc|[Hp ->]].
    + destruct (link_down _ Hl x c Hx Hc) as (y&Hy&Hyp&Hyq). exists (g y). destruct (Hg y) as [-> ->].
      split_and!; [|done|done]. right. apply Hin. by exists y.
    + exists (new_entry n (parent_of n)). split_and!; [left|done|done].
  - intros e [->|He]%elem_of_cons; [constructor|]. apply Hin in He as (x&->&Hx). unfold g, add_child.
    destruct (parent_of n); [|by apply Hl]. case_bool_decide; [|by apply Hl]. simpl.
    apply NoDup_app. split_and!; [by apply Hl| |by apply NoDup_singleton].
    intros c Hc ->%list_elem_of_singleton. destruct (link_down _ Hl x n Hx Hc) as (y&Hy&Hyp&_). by apply (Hnew y).
Qed.

Definition payload_at (n : Name) t : option X := nte_payload <$> deref n t.

Lemma payload_perm n t t' : linked (entries t) -> entries t' ≡ₚ entries t -> payload_at n t' = payload_at n t.
Proof. intros Hl HP. unfold payload_at. by rewrite (deref_perm n t t'). Qed.

Lemma payload_at_elem n t x : linked (entries t) ->
  payload_at n t = Some x <-> exists e, e ∈ entries t /\ nte_prefix e = n /\ nte_payload e = x.
Proof.
  intros Hl. unfold payload_at. rewrite fmap_Some. split.
  - intros (e&Hd%deref_elem&->). exists e. tauto.
  - intros (e&He&Hp&<-). exists e. split; [by apply deref_iff|done].
Qed.

Lemma nt_inv_pos t : nt_inv t -> 0 < nBuckets t.
Proof. intros Hi. destruct (inv_power _ Hi) as (k&Hk&->). apply Z.pow_pos_nonneg; lia. Qed.

(** The resize at the end of an iteration of [lookup]. *)
Lemma enlarge_spec t : nt_inv t -> nt_nItems t <= 2 ^ 30 ->
  exists t', (if enlargeThreshold t <? nt_nItems t then resize (2 * nBuckets t) t else t) = t' /\
    nt_inv t' /\ entries t' ≡ₚ entries t /\ nt_nItems t' = nt_nItems t.
Proof.
  intros Hi Hn. unfold enlargeThreshold. destruct (inv_power _ Hi) as (k&Hk&Hnb).
  destruct (Z.ltb_spec (nBuckets t / 2) (nt_nItems t)) as [Hlt|]; [|by exists t].
  assert (Hk31 : k <= 31).
  { destruct (Z.eq_dec k 32) as [->|]; [|lia]. rewrite Hnb in Hlt. change (2 ^ 32 / 2) with (2 ^ 31) in Hlt. lia. }
  replace (2 * nBuckets t) with (2 ^ (k + 1)) by (rewrite Hnb, Z.pow_add_r by lia; lia).
  eexists. split; [done|]. split_and!; [apply nt_inv_resize; [lia|done]| |done].
  by apply resize_spec; [lia|apply Hi].
Qed.

(** One iteration of [lookup]: the prefix is in the tree afterwards, and
    nothing else changes. *)
Lemma lookup_step_spec n t : nt_inv t -> gen_name n -> nt_nItems t + 1 <= 2 ^ 30 ->
  (forall p, parent_of n = Some p -> is_Some (deref p t)) ->
  (lookup_step n (parent_of n) t).1 = n /\
  nt_inv (lookup_step n (parent_of n) t).2 /\ nt_nItems (lookup_step n (parent_of n) t).2 <= nt_nItems t + 1 /\
  forall m, payload_at m (lookup_step n (parent_of n) t).2 =
    if bool_decide (m = n) then Some (default payload_empty (payload_at m t)) else payload_at m t.
Proof.
  intros Hi Hn Hit Hpar. pose proof (inv_placed _ Hi) as Hpl. pose proof (inv_linked _ Hi) as Hl.
  unfold lookup_step. destruct (deref n t) as [e|] eqn:Hd.
  - rewrite (tree_insert_old n t e) by done. cbn [fst snd].
    destruct (enlarge_spec t Hi) as (t'&->&Hi'&HP&Hn'); [lia|]. split_and!; [by apply deref_elem in Hd as [_ ?]|done|lia|]. intros m.
    rewrite (payload_perm m t t') by done. case_bool_decide as Hm; [|done]. subst m.
    unfold payload_at. by rewrite Hd.
  - destruct (tree_insert_new n t) as (t1&->&HP1&Hpl1&Hnb1&Hn1&Hm1); try done; [by apply nt_inv_pos|].
    set (t2 := MkNameTree (nt_buckets t1) (nt_nItems t1 + 1) (nt_minNBuckets t1)).
    set (t3 := modify n (set_parent (parent_of n)) t2).
    set (t4 := match parent_of n with Some p => modify p _ t3 | None => t3 end).
    assert (Hnew : forall e, e ∈ entries t -> nte_prefix e <> n) by (intros e He; by eapply deref_None).
    assert (H4 : entries t4 = map (add_child (parent_of n) n) (entries t3)).
    { unfold t4. destruct (parent_of n) as [p|]; [apply entries_modify|]. unfold add_child. by rewrite map_id. }
    assert (HP4 : entries t4 ≡ₚ new_entry n (parent_of n) :: map (add_child (parent_of n) n) (entries t)).
    { rewrite H4. unfold t3. rewrite entries_modify. change (entries t2) with (entries t1). rewrite HP1.
      cbn [map]. change (nte_prefix (new_entry n None)) with n. rewrite bool_decide_true by done.
      assert (map (fun e => if bool_decide (nte_prefix e = n) then set_parent (parent_of n) e else e) (entries t)
        = entries t) as ->.
      { rewrite <- (map_id (entries t)) at 2. apply map_ext_in. intros e He. rewrite bool_decide_false; [done|].
        apply Hnew. by apply list_elem_of_In. }
      assert (add_child (parent_of n) n (set_parent (parent_of n) (new_entry n None)) = new_entry n (parent_of n)) as ->; [|done].
      unfold add_child. destruct (parent_of n) as [p|] eqn:Hp; [|done]. rewrite bool_decide_false; [done|].
      simpl. intros ->. unfold parent_of in Hp. destruct p as [|c p]; [done|]. injection Hp as Hp.
      apply (f_equal length) in Hp. rewrite length_take in Hp. simpl in Hp. lia. }
    assert (Hi4 : nt_inv t4).
    { split.
      - destruct (inv_power _ Hi) as (k&Hk&Hnb). exists k. split; [done|]. rewrite <- Hnb, <- Hnb1.
        unfold t4, t3, t2, nBuckets, modify, len. destruct (parent_of n); simpl; by rewrite !length_map.
      - assert (nt_minNBuckets t4 = nt_minNBuckets t) as ->; [|apply Hi].
        unfold t4, t3, t2. by destruct (parent_of n).
      - unfold t4. assert (placed t3) by (by apply placed_modify). destruct (parent_of n); [by apply placed_modify|done].
      - eapply linked_perm; [symmetry; exact HP4|]. apply linked_add; try done.
        intros p Hp. destruct (Hpar p Hp) as [x Hx%deref_elem]. by exists x.
      - assert (nt_nItems t4 = nt_nItems t + 1) as ->; [unfold t4, t3, t2; destruct (parent_of n); simpl; lia|].
        rewrite (inv_items _ Hi). apply Permutation_length in HP4. unfold len. rewrite HP4. simpl. rewrite length_map. lia. }
    assert (Hit4 : nt_nItems t4 = nt_nItems t + 1) by (unfold t4, t3, t2; destruct (parent_of n); simpl; lia).
    cbn [fst snd]. destruct (enlarge_spec t4 Hi4) as (t'&->&Hi'&HP&Hn'); [lia|]. split_and!; [done|done|lia|]. intros m.
    rewrite (payload_perm m t4 t') by (apply Hi4 || done).
    apply option_eq. intros x. rewrite (payload_at_elem m t4 x (inv_linked _ Hi4)).
    assert (Hpn : payload_at n t = None) by (unfold payload_at; by rewrite Hd).
    case_bool_decide as Hm.
    + subst m. rewrite Hpn. simpl. split.
      * intros (e&He&Hp&<-). rewrite HP4 in He. apply elem_of_cons in He as [->|He]; [done|].
        apply list_elem_of_fmap in He as (y&->&Hy). destruct (add_child_same (parent_of n) n y) as (Hpy&_).
        exfalso. apply (Hnew y Hy). congruence.
      * intros [= <-]. exists (new_entry n (parent_of n)). split; [|done]. rewrite HP4. left.
    + rewrite (payload_at_elem m t x Hl). split.
      * intros (e&He&Hp&<-). rewrite HP4 in He. apply elem_of_cons in He as [->|He]; [by destruct Hm|].
        apply list_elem_of_fmap in He as (y&->&Hy). destruct (add_child_same (parent_of n) n y) as (Hpy&_&_&Hpay).
        exists y. split_and!; congruence || done.
      * intros (y&Hy&Hp&<-). destruct (add_child_same (parent_of n) n y) as (Hpy&_&_&Hpay).
        exists (add_child (parent_of n) n y). split_and!; [|congruence|done].
        rewrite HP4. right. apply list_elem_of_fmap. by exists y.
Qed.

Lemma payload_is_Some n t : is_Some (payload_at n t) <-> is_Some (deref n t).
Proof. unfold payload_at. by rewrite fmap_is_Some. Qed.

Lemma lookup_loop_spec todo : forall temp t, nt_inv t -> gen_name (temp ++ todo) ->
  nt_nItems t + len todo + 1 <= 2 ^ 30 -> (forall p, parent_of temp = Some p -> is_Some (deref p t)) ->
  (lookup_loop temp (parent_of temp) todo t).1 = temp ++ todo /\
  nt_inv (lookup_loop temp (parent_of temp) todo t).2 /\
  nt_nItems (lookup_loop temp (parent_of temp) todo t).2 <= nt_nItems t + len todo + 1 /\
  forall m, payload_at m (lookup_loop temp (parent_of temp) todo t).2 =
    if bool_decide (temp `prefix_of` m /\ m `prefix_of` temp ++ todo)
    then Some (default payload_empty (payload_at m t)) else payload_at m t.
Proof.
  induction todo as [|c todo IH]; intros temp t Hi Hg Hit Hpar; cbn [lookup_loop].
  - rewrite app_nil_r in *. rewrite len_nil in *.
    destruct (lookup_step_spec temp t) as (He&Hi'&Hn'&Hp); try done; [lia|].
    destruct (lookup_step temp (parent_of temp) t) as [e1 t1]. cbn [fst snd] in *. split_and!; [done|done|lia|].
    intros m. rewrite Hp. apply bool_decide_ext_if.
    split; [by intros ->|]. intros [[k ->] [l Hl]]. rewrite <- app_assoc in Hl.
    rewrite <- (app_nil_r temp) in Hl at 1. apply app_inv_head in Hl. symmetry in Hl.
    apply app_eq_nil in Hl as [-> _]. by rewrite app_nil_r.
  - assert (Hgt : gen_name temp) by (by apply Forall_app in Hg as [? _]). rewrite len_cons in Hit.
    pose proof (len_nonneg todo).
    destruct (lookup_step_spec temp t) as (He&Hi'&Hn'&Hp); try done; [lia|].
    destruct (lookup_step temp (parent_of temp) t) as [e1 t1]. cbn [fst snd] in *. subst e1. rewrite <- (parent_of_snoc temp c).
    assert (Happ : temp ++ c :: todo = (temp ++ [c]) ++ todo) by (by rewrite <- app_assoc).
    destruct (IH (temp ++ [c]) t1) as (He2&Hi2&Hn2&Hp2).
    { done. } { by rewrite <- Happ. } { lia. }
    { intros p. rewrite parent_of_snoc. intros [= <-]. apply payload_is_Some. rewrite Hp, bool_decide_true; [by eexists|done]. }
    rewrite len_cons. split_and!; [by rewrite Happ|done|lia|]. intros m. rewrite Hp2, Hp, Happ. clear Hp Hp2.
    destruct (decide (m = temp)) as [->|Hne].
    + rewrite (bool_decide_false (_ /\ _)).
      2: { intros [[k Hk] _]. apply (f_equal length) in Hk. rewrite !length_app in Hk. simpl in Hk. lia. }
      rewrite !bool_decide_true; [done| |done]. split; [done|]. rewrite <- app_assoc. by eexists.
    + rewrite (bool_decide_false (m = temp)) by done. apply bool_decide_ext_if. split.
      * intros [Hpre ?]. split; [|done]. etrans; [|exact Hpre]. by eexists.
      * intros [[k ->] Hpre]. split; [|done]. destruct k as [|x k]; [by rewrite app_nil_r in Hne|].
        destruct Hpre as [l Hl]. rewrite <- !app_assoc in Hl. apply app_inv_head in Hl. simpl in Hl.
        injection Hl as -> _. exists k. by rewrite <- app_assoc.
Qed.

(** ** Longest prefix match *)

(** The reference: the longest prefix, of at most [k] components, that is in
    the tree and selected. *)
Fixpoint longest (k : nat) (n : Name) (sel : NtEntry X -> bool) t : option (NtEntry X) :=
  let shorter := match k with O => None | S k' => longest k' n sel t end in
  match deref (take k n) t with
  | Some e => if sel e then Some e else shorter
  | None => shorter
  end.

Lemma isPrefixOf_take n k : isPrefixOf (take k n) n = true.
Proof.
  unfold isPrefixOf. rewrite (proj2 (Z.ltb_ge _ _)) by (unfold len; rewrite length_take; lia).
  revert k. induction n as [|c n IH]; intros [|k]; try done. simpl. by rewrite (proj2 (equals_value c c)), IH.
Qed.

Lemma climb_longest k : forall n sel t, nt_inv t -> (k <= length n)%nat -> is_Some (deref (take k n) t) ->
  climb (S k) (Some (take k n)) sel t = longest k n sel t.
Proof.
  induction k as [|k IH]; intros n sel t Hi Hk [e He]; cbn [longest]; cbn [climb]; rewrite He.
  - destruct (sel e); [done|]. by destruct (nte_parent e).
  - destruct (sel e) eqn:Hs; [done|]. pose proof (inv_linked _ Hi) as Hl. pose proof (deref_elem _ _ _ He) as [Hin Hp].
    assert (Hpar : nte_parent e = Some (take k n)).
    { rewrite (link_parent _ Hl e Hin), Hp. unfold parent_of.
      destruct (take (S k) n) eqn:E; [destruct n; simpl in *; [lia|done]|]. rewrite <- E. f_equal.
      rewrite length_take, take_take. f_equal. lia. }
    rewrite Hpar. apply IH; [done|lia|].
    destruct (link_up _ Hl e _ Hin Hpar) as (x&Hx&Hxp&_). exists x. by apply deref_iff.
Qed.

(** A selected entry of the bucket whose hash agrees and whose prefix is a
    prefix of the name is the entry of that length, when no two prefixes of
    the name have the same hash. *)
Lemma lpm_bucket n sel t k : nt_inv t -> gen_name n -> NoDup (computeHashSet n) -> (k <= length n)%nat ->
  List.find (fun e => (computeHash (take k n) =? nte_hash e) && isPrefixOf (nte_prefix e) n && sel e)
    (bucket (computeHash (take k n)) t)
  = match deref (take k n) t with Some e => if sel e then Some e else None | None => None end.
Proof.
  intros Hi Hn Hnd Hk. pose proof (inv_placed _ Hi) as Hpl. pose proof (inv_linked _ Hi) as Hl.
  assert (Hmatch : forall e, e ∈ entries t -> computeHash (take k n) = nte_hash e ->
    isPrefixOf (nte_prefix e) n = true -> nte_prefix e = take k n).
  { intros e He Hh Hpre. apply isPrefixOf_gen in Hpre as [r Hr]; [|by apply Hl|done].
    rewrite (placed_hash _ _ Hpl He) in Hh.
    assert (Hte : nte_prefix e = take (length (nte_prefix e)) n) by (rewrite Hr; by rewrite take_app_length).
    rewrite Hte. f_equal. assert (Hle : (length (nte_prefix e) <= length n)%nat) by (rewrite Hr, length_app; lia).
    rewrite computeHashSet_spec in Hnd.
    eapply (NoDup_lookup _ (length (nte_prefix e)) k); [exact Hnd|..];
      rewrite list_lookup_fmap, lookup_seq_lt by lia; simpl; [reflexivity|].
    f_equal. by rewrite <- Hte. }
  destruct (List.find _ (bucket _ t)) as [e|] eqn:Hf.
  - apply find_Some_elem in Hf as [He Hf]. apply elem_of_bucket in He as [He _]; [|done].
    apply andb_true_iff in Hf as [[Hh%Z.eqb_eq Hp]%andb_true_iff Hs].
    rewrite (proj2 (deref_iff (take k n) t e Hl)) by (split; [done|by apply Hmatch]). by rewrite Hs.
  - destruct (deref (take k n) t) as [e|] eqn:Hd; [|done]. destruct (sel e) eqn:Hs; [exfalso|done].
    apply deref_elem in Hd as [He Hp]. pose proof (placed_hash _ _ Hpl He) as Hh. rewrite Hp in Hh.
    eapply find_None_elem in Hf; [|rewrite <- Hh; by apply entry_in_bucket].
    rewrite <- Hh, Z.eqb_refl, Hs, andb_true_r in Hf. cbn [andb] in Hf.
    rewrite Hp, isPrefixOf_take in Hf. done.
Qed.

Lemma lpm_longest k : forall n sel t, nt_inv t -> gen_name n -> NoDup (computeHashSet n) -> (k <= length n)%nat ->
  lpm_loop (rev (map (fun k => computeHash (take k n)) (seq 0 (S k)))) n sel t = longest k n sel t.
Proof.
  induction k as [|k IH]; intros n sel t Hi Hn Hnd Hk; rewrite seq_S, map_app, rev_app_distr;
    cbn [Nat.add map rev app lpm_loop longest]; rewrite lpm_bucket by done.
  - simpl. destruct (deref (take 0 n) t) as [e|]; [|done]. by destruct (sel e).
  - rewrite IH by (done || lia). destruct (deref (take (S k) n) t) as [e|]; [|done]. by destruct (sel e).
Qed.

(** ** Erasure *)

Lemma index_of_spec n l : n ∈ l -> exists i, index_of n l = Some i /\ l !! i = Some n.
Proof.
  induction l as [|x l IH]; intros Hn; [by apply elem_of_nil in Hn|]. simpl. case_bool_decide as Hx.
  - exists 0%nat. by rewrite Hx.
  - apply elem_of_cons in Hn as [->|Hn]; [done|]. destruct (IH Hn) as (i&->&Hi). by exists (S i).
Qed.

(** Taking out the child: the others stay, in another order. *)
Lemma remove_child_perm n l : n ∈ l -> l ≡ₚ n :: remove_child n l.
Proof.
  intros Hn. unfold remove_child. destruct (index_of_spec n l Hn) as (i&->&Hi).
  destruct (last l) as [x|] eqn:Hx; [|by apply last_None in Hx as ->; apply elem_of_nil in Hn].
  by apply swap_last_perm.
Qed.

Definition del_child (parent : option Name) (n : Name) e : NtEntry X :=
  match parent with
  | Some p => if bool_decide (nte_prefix e = p) then set_children (remove_child n (nte_children e)) e else e
  | None => e
  end.

Lemma del_child_same parent n e :
  nte_prefix (del_child parent n e) = nte_prefix e /\ nte_hash (del_child parent n e) = nte_hash e /\
  nte_parent (del_child parent n e) = nte_parent e /\ nte_payload (del_child parent n e) = nte_payload e.
Proof. unfold del_child. destruct parent; [|done]. by case_bool_decide. Qed.

Definition others (n : Name) es : list (NtEntry X) := filter (fun x => nte_prefix x <> n) es.

(** The children of the entries that stay. *)
Lemma del_child_children es e x : linked es -> e ∈ es -> x ∈ es ->
  NoDup (nte_children (del_child (nte_parent e) (nte_prefix e) x)) /\
  forall c, c ∈ nte_children (del_child (nte_parent e) (nte_prefix e) x) <->
    c ∈ nte_children x /\ c <> nte_prefix e.
Proof.
  intros Hl He Hx. pose proof (link_children _ Hl x Hx) as Hnd.
  assert (Hcase : nte_prefix e ∈ nte_children x <-> nte_parent e = Some (nte_prefix x)).
  { split.
    - intros Hin. destruct (link_down _ Hl x _ Hx Hin) as (y&Hy&Hyp&Hyq).
      by rewrite <- (prefix_unique es y e (link_nodup _ Hl) Hy He Hyp).
    - intros Hp. destruct (link_up _ Hl e _ He Hp) as (y&Hy&Hyp&Hyc).
      by rewrite <- (prefix_unique es y x (link_nodup _ Hl) Hy Hx Hyp). }
  unfold del_child. destruct (nte_parent e) as [p|] eqn:Hp.
  - case_bool_decide as Hpx; simpl.
    + subst p. pose proof (remove_child_perm _ _ (proj2 Hcase eq_refl)) as HP.
      assert (Hel : forall c, c ∈ nte_children x <-> c ∈ nte_prefix e :: remove_child (nte_prefix e) (nte_children x)).
      { intros c. by apply elem_of_Permutation_proper. }
      rewrite HP in Hnd.
      apply NoDup_cons in Hnd as [Hnot Hnd]. split; [done|]. intros c. rewrite Hel, elem_of_cons. naive_solver.
    + split; [done|]. intros c. split; [|tauto]. intros Hc. split; [done|]. intros ->. apply Hcase in Hc. congruence.
  - split; [done|]. intros c. split; [|tauto]. intros Hc. split; [done|]. intros ->. apply Hcase in Hc. done.
Qed.

Lemma linked_del es e : linked es -> e ∈ es -> nte_children e = [] ->
  linked (map (del_child (nte_parent e) (nte_prefix e)) (others (nte_prefix e) es)).
Proof.
  intros Hl He Hch. set (g := del_child (nte_parent e) (nte_prefix e)).
  assert (Hg : forall x, nte_prefix (g x) = nte_prefix x /\ nte_parent (g x) = nte_parent x).
  { intros x. destruct (del_child_same (nte_parent e) (nte_prefix e) x) as (?&_&?&_). done. }
  assert (Hin : forall y, y ∈ map g (others (nte_prefix e) es) <-> exists x, y = g x /\ x ∈ es /\ nte_prefix x <> nte_prefix e).
  { intros y. etrans; [apply list_elem_of_fmap|]. unfold others. setoid_rewrite list_elem_of_filter. naive_solver. }
  split.
  - rewrite map_map. rewrite (map_ext _ nte_prefix) by (intros x; apply Hg).
    eapply sublist_NoDup; [apply (link_nodup _ Hl)|]. apply fmap_sublist, sublist_filter.
  - intros y (x&->&Hx&_)%Hin. rewrite (proj1 (Hg x)). by apply Hl.
  - intros y (x&->&Hx&_)%Hin. destruct (Hg x) as [-> ->]. by apply Hl.
  - intros y p (x&->&Hx&Hne)%Hin Hp. destruct (Hg x) as [Hgp Hgq]. rewrite Hgq in Hp.
    destruct (link_up _ Hl x p Hx Hp) as (z&Hz&Hzp&Hzc). exists (g z). rewrite Hgp, (proj1 (Hg z)). split_and!; [|done|].
    + apply Hin. exists z. split_and!; [done|done|]. intros Hze.
      rewrite (prefix_unique es z e (link_nodup _ Hl) Hz He Hze), Hch in Hzc. by apply elem_of_nil in Hzc.
    + by apply (del_child_children es e z Hl He Hz).
  - intros y c (x&->&Hx&Hne)%Hin Hc. apply (del_child_children es e x Hl He Hx) in Hc as [Hc Hce].
    destruct (link_down _ Hl x c Hx Hc) as (z&Hz&Hzp&Hzq). exists (g z). destruct (Hg z) as [-> ->].
    rewrite (proj1 (Hg x)). split_and!; [|done|done]. apply Hin. exists z. split_and!; [done|done|congruence].
  - intros y (x&->&Hx&_)%Hin. by apply (del_child_children es e x Hl He Hx).
Qed.

Lemma concat_alter_filter (P : NtEntry X -> Prop) `{forall x, Decision (P x)} (bs : list (list (NtEntry X))) i :
  (forall j b x, bs !! j = Some b -> x ∈ b -> j <> i -> P x) ->
  concat (alter (filter P) i bs) = filter P (concat bs).
Proof.
  revert i. induction bs as [|b bs IH]; intros i Hall; [done|].
  assert (Hid : forall l : list (NtEntry X), (forall x, x ∈ l -> P x) -> filter P l = l).
  { induction l as [|x l IHl]; intros Hl; [done|]. rewrite filter_cons, decide_True by (apply Hl; left).
    f_equal. apply IHl. intros y Hy. apply Hl. by right. }
  destruct i as [|i]; cbn [alter list_alter concat]; rewrite filter_app.
  - f_equal. symmetry. apply Hid. intros x (b'&Hb&Hx)%list_elem_of_In%in_concat.
    apply list_elem_of_In, list_elem_of_lookup in Hb as [j Hb]. apply list_elem_of_In in Hx.
    by apply (Hall (S j) b').
  - f_equal; [|apply IH; intros j b' x Hb Hx Hj; apply (Hall (S j) b' x); [done|done|lia]].
    symmetry. apply Hid. intros x Hx. by apply (Hall 0%nat b).
Qed.

Lemma unlink_entries e t : nt_inv t -> e ∈ entries t ->
  entries (unlink e t) = map (del_child (nte_parent e) (nte_prefix e)) (others (nte_prefix e) (entries t)) /\
  placed (unlink e t) /\ nBuckets (unlink e t) = nBuckets t /\
  nt_nItems (unlink e t) = nt_nItems t - 1 /\ nt_minNBuckets (unlink e t) = nt_minNBuckets t.
Proof.
  intros Hi He. pose proof (inv_placed _ Hi) as Hpl. unfold unlink.
  set (t1 := match nte_parent e with Some p => _ | None => _ end).
  assert (H1 : entries t1 = map (del_child (nte_parent e) (nte_prefix e)) (entries t)).
  { unfold t1, del_child. destruct (nte_parent e); [apply entries_modify|by rewrite map_id]. }
  assert (Hpl1 : placed t1) by (unfold t1; destruct (nte_parent e); [by apply placed_modify|done]).
  assert (Hn1 : nBuckets t1 = nBuckets t /\ nt_nItems t1 = nt_nItems t /\ nt_minNBuckets t1 = nt_minNBuckets t).
  { unfold t1. destruct (nte_parent e); [|done]. split_and!; [|done|done]. unfold nBuckets, len, modify. simpl. by rewrite length_map. }
  destruct Hn1 as (Hnb&Hit&Hmin).
  assert (Hloc : forall h t', length (nt_buckets t') = length (nt_buckets t1) -> location h t' = location h t1).
  { intros h t' Hlen. unfold location, nBuckets, len. by rewrite Hlen. }
  split_and!; [| | |cbn [nt_nItems]; by rewrite Hit|done].
  - unfold entries at 1. cbn [nt_buckets]. rewrite concat_alter_filter; [change (concat (nt_buckets t1)) with (entries t1); rewrite H1|].
    + unfold others. generalize (entries t). clear. intros es. induction es as [|x es IH]; [done|]. cbn [map]. rewrite !filter_cons.
      destruct (del_child_same (nte_parent e) (nte_prefix e) x) as (->&_).
      case_decide; cbn [map]; by rewrite IH.
    + intros j b x Hb Hx Hj Hxe. destruct (Hpl1 j b x Hb Hx) as [Hh Hj']. apply Hj. rewrite <- Hj'. f_equal.
      rewrite Hh, Hxe. symmetry. by apply placed_hash with t.
  - intros i b x Hb Hx. cbn [nt_buckets] in Hb. rewrite Hloc by (cbn [nt_buckets]; by rewrite length_alter).
    destruct (decide (i = location (nte_hash e) t1)) as [->|Hne].
    + rewrite list_lookup_alter_eq in Hb. destruct (nt_buckets t1 !! _) as [b'|] eqn:Hb'; [|done]. injection Hb as <-.
      apply list_elem_of_filter in Hx as [_ Hx]. by apply (Hpl1 _ b').
    + rewrite list_lookup_alter_ne in Hb by done. by apply (Hpl1 i b).
  - rewrite <- Hnb. unfold nBuckets, len. cbn [nt_buckets]. by rewrite length_alter.
Qed.

Lemma unlink_spec e t : nt_inv t -> e ∈ entries t -> nte_children e = [] ->
  nt_inv (unlink e t) /\
  forall m, payload_at m (unlink e t) = if bool_decide (m = nte_prefix e) then None else payload_at m t.
Proof.
  intros Hi He Hch. pose proof (inv_linked _ Hi) as Hl.
  destruct (unlink_entries e t Hi He) as (HE&Hpl&Hnb&Hit&Hmin).
  assert (Hl' : linked (entries (unlink e t))) by (rewrite HE; by apply linked_del).
  split; [split; [rewrite Hnb; apply Hi|rewrite Hmin; apply Hi|done|done|]|].
  - rewrite Hit, HE, (inv_items _ Hi). unfold len. rewrite length_map. unfold others.
    assert (HP : entries t ≡ₚ e :: filter (fun x => nte_prefix x <> nte_prefix e) (entries t)).
    { apply NoDup_Permutation.
      - eapply NoDup_fmap_1. apply (link_nodup _ Hl).
      - apply NoDup_cons. split; [intros [? _]%list_elem_of_filter; done|]. apply NoDup_filter.
        eapply NoDup_fmap_1. apply (link_nodup _ Hl).
      - intros x. rewrite elem_of_cons, list_elem_of_filter. split; [|by intros [->|[_ ?]]].
        intros Hx. destruct (decide (nte_prefix x = nte_prefix e)) as [Heq|]; [left|by right].
        by apply (prefix_unique (entries t) x e (link_nodup _ Hl)). }
    apply Permutation_length in HP. rewrite HP. simpl. lia.
  - intros m. apply option_eq. intros x. rewrite (payload_at_elem m _ x Hl'), HE.
    setoid_rewrite list_elem_of_fmap. unfold others. setoid_rewrite list_elem_of_filter. case_bool_decide as Hm.
    + split; [|done]. intros (y&(z&->&Hz&_)&Hp&_). destruct (del_child_same (nte_parent e) (nte_prefix e) z) as (Hzp&_).
      destruct Hz. congruence.
    + rewrite (payload_at_elem m t x Hl). split.
      * intros (y&(z&->&_&Hz)&Hp&Hpay). destruct (del_child_same (nte_parent e) (nte_prefix e) z) as (Hzp&_&_&Hzq).
        exists z. split_and!; congruence || done.
      * intros (z&Hz&Hp&Hpay). destruct (del_child_same (nte_parent e) (nte_prefix e) z) as (Hzp&_&_&Hzq).
        exists (del_child (nte_parent e) (nte_prefix e) z). split_and!; [|congruence|congruence].
        exists z. split_and!; [done|congruence|done].
Qed.

Lemma shrink_spec t : nt_inv t -> nt_inv (shrink t) /\ entries (shrink t) ≡ₚ entries t.
Proof.
  intros Hi. unfold shrink. destruct (inv_power _ Hi) as (k&Hk&Hnb). destruct (inv_min _ Hi) as (j&Hj&Hmin).
  destruct (Z.leb_spec (nt_minNBuckets t) (nBuckets t / 2)) as [Hle|]; [|done].
  destruct (nt_nItems t <? shrinkThreshold t); [|done]. cbn [andb].
  assert (0 < 2 ^ j) by (apply Z.pow_pos_nonneg; lia).
  assert (Hk1 : 1 <= k).
  { destruct (Z.eq_dec k 0) as [->|]; [|lia]. rewrite Hnb in Hle. change (2 ^ 0 / 2) with 0 in Hle. lia. }
  replace (nBuckets t / 2) with (2 ^ (k - 1)).
  - split; [apply nt_inv_resize; [lia|done]|]. apply resize_spec; [lia|apply Hi].
  - rewrite Hnb. replace k with (k - 1 + 1) at 2 by lia. rewrite Z.pow_add_r by lia. change (2 ^ 1) with 2.
    by rewrite Z.div_mul.
Qed.

(** No entry is empty, except perhaps the one at [n]. *)
Definition tidy_except (n : option Name) t : Prop :=
  forall e, e ∈ entries t -> isEmpty e = true -> Some (nte_prefix e) = n.

Lemma unlink_tidy e t : nt_inv t -> e ∈ entries t -> tidy_except (Some (nte_prefix e)) t ->
  tidy_except (nte_parent e) (unlink e t).
Proof.
  intros Hi He Ht y Hy Hem. destruct (unlink_entries e t Hi He) as (HE&_). rewrite HE in Hy.
  apply list_elem_of_fmap in Hy as (x&->&Hx). apply list_elem_of_filter in Hx as [Hne Hx].
  unfold del_child in *. destruct (nte_parent e) as [p|] eqn:Hp.
  - case_bool_decide as Hpx; [by rewrite <- Hpx|]. destruct Hne. specialize (Ht x Hx Hem). congruence.
  - destruct Hne. specialize (Ht x Hx Hem). congruence.
Qed.

Lemma erase_loop_spec fuel : forall n t, nt_inv t ->
  nt_inv (erase_loop fuel n t) /\
  (forall m x, payload_at m (erase_loop fuel n t) = Some x -> payload_at m t = Some x) /\
  (forall m x, payload_at m t = Some x -> payload_isEmpty x = false -> payload_at m (erase_loop fuel n t) = Some x) /\
  ((length n < fuel)%nat -> tidy_except (Some n) t -> tidy_except None (erase_loop fuel n t)).
Proof.
  induction fuel as [|fuel IH]; intros n t Hi; [split_and!; [done|done|done|lia]|]. cbn [erase_loop].
  assert (Hsame : (forall e, deref n t = Some e -> isEmpty e = false) -> tidy_except (Some n) t -> tidy_except None t).
  { intros Hd Ht e He Hem. pose proof (Ht e He Hem) as [= Hn].
    rewrite (Hd e) in Hem; [done|]. apply deref_iff; [apply Hi|done]. }
  destruct (deref n t) as [e|] eqn:Hd; [|split_and!; [done|done|done|naive_solver]].
  destruct (isEmpty e) eqn:Hem; [|split_and!; [done|done|done|naive_solver]].
  apply deref_elem in Hd as [He <-]. destruct (proj1 (andb_true_iff true (isEmpty e)) Hem) as [_ Hem'].
  unfold isEmpty in Hem'. destruct (nte_children e) as [|] eqn:Hch; [|done].
  destruct (unlink_spec e t Hi He Hch) as [Hi1 Hp1].
  assert (Hpe : payload_at (nte_prefix e) t = Some (nte_payload e)).
  { apply payload_at_elem; [apply Hi|]. by exists e. }
  set (t1 := match nte_parent e with Some p => _ | None => _ end).
  assert (Ht1 : nt_inv t1 /\ (forall m x, payload_at m t1 = Some x -> payload_at m (unlink e t) = Some x) /\
    (forall m x, payload_at m (unlink e t) = Some x -> payload_isEmpty x = false -> payload_at m t1 = Some x) /\
    ((length (nte_prefix e) < S fuel)%nat -> tidy_except (Some (nte_prefix e)) t -> tidy_except None t1)).
  { unfold t1. pose proof (unlink_tidy e t Hi He) as Htidy.
    pose proof (link_parent _ (inv_linked _ Hi) e He) as Hpar.
    destruct (nte_parent e) as [p|]; [|split_and!; [done|done|done|intros _; done]].
    destruct (IH p (unlink e t) Hi1) as (?&?&?&Hlen). split_and!; [done|done|done|]. intros Hf Ht. apply Hlen; [|by apply Htidy].
    unfold parent_of in Hpar. destruct (nte_prefix e) eqn:E; [done|]. rewrite <- E in *. injection Hpar as ->.
    rewrite length_take. rewrite E in *. simpl in *. lia. }
  destruct Ht1 as (Hi2&Hp2&Hp3&Ht2). destruct (shrink_spec t1 Hi2) as [Hi3 HP3].
  assert (Hsh : forall m, payload_at m (shrink t1) = payload_at m t1).
  { intros m. apply payload_perm; [apply Hi2|done]. }
  split_and!; [done| | |].
  - intros m x. rewrite Hsh. intros Hm%Hp2. rewrite Hp1 in Hm. by case_bool_decide.
  - intros m x Hm Hx. rewrite Hsh. apply Hp3; [|done]. rewrite Hp1. case_bool_decide; [|done].
    subst m. rewrite Hpe in Hm. congruence.
  - intros Hf Ht y Hy. rewrite HP3 in Hy. by apply Ht2.
Qed.

(** ** Which entries the tree has *)

Lemma payload_parent m c t : nt_inv t -> is_Some (payload_at (m ++ [c]) t) -> is_Some (payload_at m t).
Proof.
  intros Hi [x Hx]. pose proof (inv_linked _ Hi) as Hl. apply payload_at_elem in Hx as (e&He&Hp&_); [|done].
  assert (Hpar : nte_parent e = Some m) by (rewrite (link_parent _ Hl e He), Hp; apply parent_of_snoc).
  destruct (link_up _ Hl e m He Hpar) as (y&Hy&Hyp&_). exists (nte_payload y). apply payload_at_elem; [done|]. by exists y.
Qed.

Lemma payload_prefix m k t : nt_inv t -> is_Some (payload_at (m ++ k) t) -> is_Some (payload_at m t).
Proof.
  intros Hi. induction k as [|c k IH] using rev_ind; [by rewrite app_nil_r|]. rewrite app_assoc.
  intros Hs. apply IH. by eapply payload_parent.
Qed.

Lemma bounded_depth t : exists L, forall e, e ∈ entries t -> (length (nte_prefix e) <= L)%nat.
Proof.
  exists (max_list (map (fun e => length (nte_prefix e)) (entries t))). intros e He.
  apply max_list_elem_of_le. apply list_elem_of_fmap. by exists e.
Qed.

(** In a tree with no empty entry, the entries are the prefixes of the names
    something is attached to. *)
Lemma tidy_iff m t : nt_inv t -> tidy_except None t ->
  is_Some (payload_at m t) <-> exists k x, payload_at (m ++ k) t = Some x /\ payload_isEmpty x = false.
Proof.
  intros Hi Ht. pose proof (inv_linked _ Hi) as Hl.
  split; [|intros (k&x&Hx&_); eapply payload_prefix; [done|by exists x]].
  destruct (bounded_depth t) as [L HL]. remember (L - length m)%nat as d eqn:Hd. revert m Hd.
  induction d as [|d IH]; intros m Hd [x Hx];
    pose proof Hx as (e&He&Hp&Hpe)%payload_at_elem; try done;
    destruct (payload_isEmpty x) eqn:Hem; try (exists [], x; by rewrite app_nil_r);
    destruct (nte_children e) as [|c l] eqn:Hc;
    try (by specialize (Ht e He); unfold isEmpty in Ht; rewrite Hc, Hpe, Hem in Ht; specialize (Ht eq_refl));
    destruct (link_down _ Hl e c He) as (y&Hy&Hyp&Hyq); try (rewrite Hc; left);
    pose proof (link_parent _ Hl y Hy) as Hyr; rewrite Hyq, Hyp, Hp in Hyr;
    destruct c as [|a c _] using rev_ind; try done; rewrite parent_of_snoc in Hyr; injection Hyr as <-;
    pose proof (HL y Hy) as Hlen; rewrite Hyp, length_app in Hlen; simpl in Hlen; [lia|].
  destruct (IH (m ++ [a])) as (k&z&Hz&Hze); [rewrite length_app; simpl; lia| |].
  - exists (nte_payload y). apply payload_at_elem; [done|]. by exists y.
  - exists ([a] ++ k), z. by rewrite app_assoc.
Qed.

(** ** Longest prefix match, as a relation *)

Definition matches n (sel : NtEntry X -> bool) t e : Prop :=
  e ∈ entries t /\ nte_prefix e `prefix_of` n /\ sel e = true.

Definition is_longest n sel t (r : option (NtEntry X)) : Prop :=
  match r with
  | Some e => matches n sel t e /\
      forall x, matches n sel t x -> (length (nte_prefix x) <= length (nte_prefix e))%nat
  | None => forall x, ~ matches n sel t x
  end.

Lemma prefix_snoc_cases {A} (x l : list A) c : x `prefix_of` l ++ [c] -> x `prefix_of` l \/ x = l ++ [c].
Proof.
  intros [k Hk]. destruct k as [|d k _] using rev_ind; [right; by rewrite app_nil_r in Hk|left].
  rewrite app_assoc in Hk. apply app_inj_tail in Hk as [-> _]. by eexists.
Qed.

Lemma longest_spec k n sel t : linked (entries t) -> (k <= length n)%nat -> is_longest (take k n) sel t (longest k n sel t).
Proof.
  intros Hl. induction k as [|k IH]; intros Hk; cbn [longest]; cbv zeta.
  - rewrite take_0. destruct (deref [] t) as [e|] eqn:Hd.
    + apply deref_elem in Hd as [He Hp]. destruct (sel e) eqn:Hs; cbn [is_longest].
      * split; [by split_and!; rewrite ?Hp|]. intros x (_&Hx&_). apply prefix_length in Hx. simpl in Hx. lia.
      * intros x (Hx&Hxp&Hxs). apply prefix_nil_inv in Hxp.
        rewrite (prefix_unique (entries t) x e (link_nodup _ Hl)) in Hxs; congruence || done.
    + intros x (Hx&Hxp&_). apply prefix_nil_inv in Hxp. by apply (deref_None [] t x).
  - specialize (IH ltac:(lia)).
    assert (Hstep : forall x, matches (take (S k) n) sel t x <->
      matches (take k n) sel t x \/ (deref (take (S k) n) t = Some x /\ sel x = true)).
    { intros x. unfold matches. rewrite deref_iff by done.
      destruct (lookup_lt_is_Some_2 n k ltac:(lia)) as [c Hc].
      rewrite (take_S_r n k c Hc). split.
      - intros (Hx&Hxp&Hs). apply prefix_snoc_cases in Hxp as [?| ->]; [left|right]; done.
      - intros [(?&Hxp&?)|[[? ->] ?]]; split_and!; try done. by apply prefix_app_r. }
    destruct (deref (take (S k) n) t) as [e|] eqn:Hd.
    + destruct (sel e) eqn:Hs.
      * split; [apply Hstep; by right|]. intros x (_&Hx%prefix_length&_).
        apply deref_elem in Hd as [_ ->]. done.
      * destruct (longest k n sel t) as [r|]; simpl in *;
          [|intros x [Hx|[[= ->] ?]]%Hstep; [by apply (IH x)|congruence]].
        split; [apply Hstep; by left; apply IH|]. intros x [Hx|[[= ->] ?]]%Hstep; [by apply IH|congruence].
    + destruct (longest k n sel t) as [r|]; simpl in *; [|intros x [Hx|[? ?]]%Hstep; [by apply (IH x)|done]].
      split; [apply Hstep; by left; apply IH|]. intros x [Hx|[? ?]]%Hstep; [by apply IH|done].
Qed.

Lemma ancestors_spec k : forall n sel t, nt_inv t -> (k <= length n)%nat -> is_Some (deref (take k n) t) ->
  forall x, x ∈ ancestors (S k) (Some (take k n)) sel t <-> matches (take k n) sel t x.
Proof.
  intros n sel t Hi. pose proof (inv_linked _ Hi) as Hl. induction k as [|k IH]; intros Hk [e He] x; cbn [ancestors]; rewrite He;
    rewrite elem_of_app; pose proof (deref_elem _ _ _ He) as [Hin Hp];
    pose proof (link_parent _ Hl e Hin) as Hpar; rewrite Hp in Hpar;
    assert (Hself : x ∈ (if sel e then [e] else []) <-> x ∈ entries t /\ nte_prefix x = nte_prefix e /\ sel x = true)
      by (destruct (sel e) eqn:Hs; rewrite ?list_elem_of_singleton, ?elem_of_nil;
          split; [intros -> ; done|intros (Hx&Hxp&_); by apply (prefix_unique (entries t) x e (link_nodup _ Hl))
                 |done|intros (Hx&Hxp&Hxs); rewrite (prefix_unique (entries t) x e (link_nodup _ Hl) Hx Hin Hxp) in Hxs; congruence]).
  - rewrite take_0 in *. rewrite Hself, Hpar, Hp. simpl. rewrite elem_of_nil. unfold matches. split.
    + intros [(?&->&?)|?]; [|done]. by split_and!.
    + intros (?&?%prefix_nil_inv&?). by left.
  - assert (Hpk : nte_parent e = Some (take k n)).
    { rewrite Hpar. destruct (lookup_lt_is_Some_2 n k ltac:(lia)) as [c Hc]. rewrite (take_S_r n k c Hc). apply parent_of_snoc. }
    rewrite Hpk. rewrite IH; [|lia|].
    2: { destruct (link_up _ Hl e _ Hin Hpk) as (y&Hy&Hyp&_). exists y. by apply deref_iff. }
    rewrite Hself, Hp. unfold matches. destruct (lookup_lt_is_Some_2 n k ltac:(lia)) as [c Hc]. rewrite (take_S_r n k c Hc). split.
    + intros [(?&->&?)|(?&?&?)]; split_and!; try done. by apply prefix_app_r.
    + intros (?&[?|?]%prefix_snoc_cases&?); [right|left]; done.
Qed.

(** The entries on the way up are entries of the tree, each once. *)
Lemma ancestors_up sel t fuel : nt_inv t -> forall n,
  (forall x, x ∈ ancestors fuel (Some n) sel t -> x ∈ entries t /\ (length (nte_prefix x) <= length n)%nat) /\
  NoDup (ancestors fuel (Some n) sel t).
Proof.
  intros Hi. induction fuel as [|fuel IH]; intros n; cbn [ancestors]; [split; [by intros ? ?%elem_of_nil|apply NoDup_nil_2]|].
  destruct (deref n t) as [e|] eqn:Hd; [|split; [by intros ? ?%elem_of_nil|apply NoDup_nil_2]].
  apply deref_elem in Hd as [He <-]. pose proof (link_parent _ (inv_linked _ Hi) e He) as Hpar.
  assert (Hup : (forall x, x ∈ ancestors fuel (nte_parent e) sel t ->
      x ∈ entries t /\ (length (nte_prefix x) < length (nte_prefix e))%nat) /\ NoDup (ancestors fuel (nte_parent e) sel t)).
  { rewrite Hpar. destruct (nte_prefix e) as [|c m _] using rev_ind.
    - destruct fuel; (split; [by intros ? ?%elem_of_nil|apply NoDup_nil_2]).
    - rewrite parent_of_snoc. destruct (IH m) as [Hle Hnd]. split; [|done]. intros x Hx. destruct (Hle x Hx).
      split; [done|]. rewrite length_app. simpl. lia. }
  destruct Hup as [Hlt Hnd]. split.
  - intros x [Hx|Hx]%elem_of_app; [|destruct (Hlt x Hx); split; [done|lia]].
    destruct (sel e); [|by apply elem_of_nil in Hx]. by apply list_elem_of_singleton in Hx as ->.
  - destruct (sel e); [|done]. apply NoDup_cons. split; [|done]. intros Hx. destruct (Hlt e Hx). lia.
Qed.

Lemma lpm_in_tree hs n sel t e : lpm_loop hs n sel t = Some e -> e ∈ entries t /\ isPrefixOf (nte_prefix e) n = true.
Proof.
  induction hs as [|h hs IH]; intros Hl; [done|]. cbn [lpm_loop] in Hl.
  destruct (List.find _ (bucket h t)) as [x|] eqn:Hf; [|by apply IH]. injection Hl as ->.
  apply find_Some_elem in Hf as [He [[_ Hp]%andb_true_iff _]%andb_true_iff]. split; [|done].
  unfold bucket in He. destruct (nth_lookup_or_length (nt_buckets t) (location h t) []) as [Hb|Hb].
  - apply elem_of_entries. eauto.
  - rewrite nth_overflow in He by done. by apply elem_of_nil in He.
Qed.

Lemma findAllMatches_entries n sel t : nt_inv t ->
  (forall x, x ∈ findAllMatches n sel t -> x ∈ entries t) /\ NoDup (findAllMatches n sel t).
Proof.
  intros Hi. unfold findAllMatches. destruct (findLongestPrefixMatch n sel t) as [e|] eqn:He.
  2: { split; [by intros ? ?%elem_of_nil|apply NoDup_nil_2]. }
  apply lpm_in_tree in He as [He _]. pose proof (link_parent _ (inv_linked _ Hi) e He) as Hpar. rewrite Hpar.
  remember (nte_prefix e) as n' eqn:Hpe. destruct n' as [|c m _] using rev_ind.
  - simpl. split; [by intros x ->%list_elem_of_singleton|apply NoDup_singleton].
  - rewrite parent_of_snoc. rewrite length_app, Nat.add_1_r.
    destruct (ancestors_up sel t (S (length m)) Hi m) as [Hle Hnd]. split.
    + intros x [->|Hx]%elem_of_cons; [done|]. by apply Hle.
    + apply NoDup_cons. split; [|done]. intros Hx. destruct (Hle e Hx) as [_ Hlen].
      rewrite <- Hpe, length_app in Hlen. simpl in Hlen. lia.
Qed.

Lemma matches_take n sel t e : matches n sel t e -> nte_prefix e = take (length (nte_prefix e)) n.
Proof. intros (_&[k Hk]&_). by rewrite Hk, take_app_length. Qed.

Lemma findLongestPrefixMatch_longest n sel t : nt_inv t -> gen_name n -> NoDup (computeHashSet n) ->
  is_longest n sel t (findLongestPrefixMatch n sel t).
Proof.
  intros Hi Hn Hnd. unfold findLongestPrefixMatch. rewrite computeHashSet_spec, lpm_longest by done.
  rewrite <- (firstn_all n) at 1. apply longest_spec; [apply Hi|done].
Qed.

(** What [findAllMatches] returns. *)
Lemma findAllMatches_matches n sel t : nt_inv t -> gen_name n -> NoDup (computeHashSet n) ->
  forall x, x ∈ findAllMatches n sel t <-> matches n sel t x.
Proof.
  intros Hi Hn Hnd x. unfold findAllMatches.
  pose proof (findLongestPrefixMatch_longest n sel t Hi Hn Hnd) as Hl.
  destruct (findLongestPrefixMatch n sel t) as [e|]; simpl in Hl.
  2: { rewrite elem_of_nil. split; [done|]. intros Hx. by destruct (Hl x). }
  destruct Hl as [He Hmax]. pose proof (matches_take _ _ _ _ He) as Htake.
  assert (Hle : (length (nte_prefix e) <= length n)%nat) by (destruct He as (_&?%prefix_length&_); done).
  assert (Hd : deref (take (length (nte_prefix e)) n) t = Some e).
  { apply deref_iff; [apply Hi|]. split; [apply He|done]. }
  pose proof (ancestors_spec (length (nte_prefix e)) n sel t Hi Hle ltac:(by eexists) x) as Ha.
  cbn [ancestors] in Ha. rewrite Hd in Ha. destruct He as (He&Hep&Hes). rewrite Hes in Ha.
  etrans; [exact Ha|]. rewrite <- Htake. unfold matches. split.
  - intros (?&?&?). split_and!; [done|by etrans|done].
  - intros (Hx&Hxp&Hxs). split_and!; [done| |done].
    destruct (prefix_weak_total _ _ _ Hxp Hep) as [?|Hpre]; [done|].
    specialize (Hmax x (conj Hx (conj Hxp Hxs))). destruct Hpre as [k Hk]. rewrite Hk, length_app in Hmax.
    destruct k; [rewrite app_nil_r in Hk; by rewrite Hk|simpl in Hmax; lia].
Qed.

Lemma lookup_spec n t : nt_inv t -> gen_name n -> nt_nItems t + len n + 1 <= 2 ^ 30 ->
  nt_inv (lookup n t) /\ nt_nItems (lookup n t) <= nt_nItems t + len n + 1 /\
  forall m, payload_at m (lookup n t) =
    if bool_decide (m `prefix_of` n) then Some (default payload_empty (payload_at m t)) else payload_at m t.
Proof.
  intros Hi Hn Hit. destruct (lookup_loop_spec n [] t Hi Hn Hit) as (_&Hi'&Hle&Hp); [done|].
  split_and!; [exact Hi'|exact Hle|]. intros m. unfold lookup, lookup_entry. change None with (parent_of []). rewrite Hp.
  apply bool_decide_ext_if. split; [by intros [_ ?]|]. intros ?. split; [apply prefix_nil|done].
Qed.

(** The entry of a generic name has this name. *)
Lemma lookup_entry_gen n t : nt_inv t -> gen_name n -> nt_nItems t + len n + 1 <= 2 ^ 30 -> lookup_entry n t = (n, lookup n t).
Proof.
  intros Hi Hn Hit. destruct (lookup_loop_spec n [] t Hi Hn Hit) as (He&_); [done|]. unfold lookup, lookup_entry.
  destruct (lookup_loop [] None n t) as [e t'] eqn:Hl. change (parent_of []) with (@None Name) in He. rewrite Hl in He. cbn in *. by subst e.
Qed.

(** Attaching something to an entry. *)
Lemma map_same_links es g : (forall e, nte_prefix (g e) = nte_prefix e /\ nte_parent (g e) = nte_parent e /\
    nte_children (g e) = nte_children e) -> linked es -> linked (map g es).
Proof.
  intros Hg Hl. assert (Hin : forall e, e ∈ map g es <-> exists x, e = g x /\ x ∈ es) by (intros e; apply list_elem_of_fmap).
  split.
  - rewrite map_map. rewrite (map_ext _ nte_prefix) by (intros x; apply Hg). apply Hl.
  - intros y (x&->&Hx)%Hin. destruct (Hg x) as (->&_&_). by apply Hl.
  - intros y (x&->&Hx)%Hin. destruct (Hg x) as (->&->&_). by apply Hl.
  - intros y p (x&->&Hx)%Hin. destruct (Hg x) as (->&->&_). intros Hp.
    destruct (link_up _ Hl x p Hx Hp) as (z&Hz&?&?). exists (g z). destruct (Hg z) as (->&_&->).
    split_and!; [|done|done]. apply Hin. by exists z.
  - intros y c (x&->&Hx)%Hin. destruct (Hg x) as (->&_&->). intros Hc.
    destruct (link_down _ Hl x c Hx Hc) as (z&Hz&?&?). exists (g z). destruct (Hg z) as (->&->&_).
    split_and!; [|done|done]. apply Hin. by exists z.
  - intros y (x&->&Hx)%Hin. destruct (Hg x) as (_&_&->). by apply Hl.
Qed.

Definition update_payload (n : Name) (f : X -> X) t : NameTree X :=
  modify n (fun e => set_payload (f (nte_payload e)) e) t.

Lemma update_payload_spec n f t : nt_inv t ->
  nt_inv (update_payload n f t) /\ nt_nItems (update_payload n f t) = nt_nItems t /\
  (forall m, payload_at m (update_payload n f t) = if bool_decide (m = n) then f <$> payload_at m t else payload_at m t).
Proof.
  intros Hi. pose proof (inv_linked _ Hi) as Hl. unfold update_payload. set (g := fun e => set_payload (f (nte_payload e)) e).
  assert (Hl' : linked (entries (modify n g t))).
  { rewrite entries_modify. apply map_same_links; [|done]. intros e. by case_bool_decide. }
  split_and!; [|done|].
  - split; [|apply Hi|apply placed_modify; [done|apply Hi]|done|].
    + destruct (inv_power _ Hi) as (k&?&Hk). exists k. split; [done|]. rewrite <- Hk.
      unfold nBuckets, len, modify. simpl. by rewrite length_map.
    + rewrite entries_modify. unfold len. rewrite length_map. apply Hi.
  - intros m. apply option_eq. intros x. rewrite (payload_at_elem m _ x Hl'), entries_modify.
    setoid_rewrite list_elem_of_fmap. case_bool_decide as Hm.
    + subst m. rewrite fmap_Some. setoid_rewrite (payload_at_elem n t _ Hl). split.
      * intros (y&(z&->&Hz)&Hp&<-). case_bool_decide as Hzn; [|done]. exists (nte_payload z). split; [by exists z|done].
      * intros (w&(z&Hz&Hp&<-)&->). exists (g z). split_and!; [|done|done]. exists z. by rewrite bool_decide_true.
    + rewrite (payload_at_elem m t x Hl). split.
      * intros (y&(z&->&Hz)&Hp&<-). case_bool_decide as Hzn; [simpl in Hp; congruence|]. by exists z.
      * intros (z&Hz&Hp&<-). exists z. split_and!; [|done|done]. exists z. rewrite bool_decide_false by congruence. done.
Qed.

(** ** What is attached to a name, whether or not it has an entry *)

Definition data_at (n : Name) t : X := default payload_empty (payload_at n t).

Lemma data_lookup n m t : nt_inv t -> gen_name n -> nt_nItems t + len n + 1 <= 2 ^ 30 ->
  data_at m (lookup n t) = data_at m t.
Proof.
  intros Hi Hn Hit. destruct (lookup_spec n t Hi Hn Hit) as (_&_&Hp). unfold data_at. rewrite Hp. by case_bool_decide.
Qed.

Lemma data_erase n m t : nt_inv t -> data_at m (eraseEntryIfEmpty n t) = data_at m t.
Proof.
  intros Hi. destruct (erase_loop_spec (S (length n)) n t Hi) as (_&Hsub&Hkeep&_). unfold data_at, eraseEntryIfEmpty in *.
  destruct (payload_at m (erase_loop (S (length n)) n t)) as [x|] eqn:Hx; [by rewrite (Hsub m x Hx)|].
  destruct (payload_at m t) as [x|] eqn:Hx'; [|done]. simpl. destruct (payload_isEmpty x) eqn:He.
  - by apply payload_isEmpty_iff in He as ->.
  - rewrite (Hkeep m x Hx' He) in Hx. done.
Qed.

Lemma nt_inv_erase n t : nt_inv t -> nt_inv (eraseEntryIfEmpty n t).
Proof. intros Hi. by apply erase_loop_spec. Qed.

Lemma data_update n m f t : nt_inv t -> is_Some (payload_at n t) ->
  data_at m (update_payload n f t) = if bool_decide (m = n) then f (data_at n t) else data_at m t.
Proof.
  intros Hi [x Hx]. destruct (update_payload_spec n f t Hi) as (_&_&Hp). unfold data_at. rewrite Hp.
  case_bool_decide as Hm; [|done]. subst m. by rewrite Hx.
Qed.

Lemma lookup_present n t : nt_inv t -> gen_name n -> nt_nItems t + len n + 1 <= 2 ^ 30 ->
  is_Some (payload_at n (lookup n t)).
Proof.
  intros Hi Hn Hit. destruct (lookup_spec n t Hi Hn Hit) as (_&_&Hp). rewrite Hp, bool_decide_true by done. by eexists.
Qed.

(** An entry with something attached is there, with its prefixes. *)
Lemma data_present n t : data_at n t <> payload_empty -> is_Some (payload_at n t).
Proof. unfold data_at. destruct (payload_at n t); [by eexists|done]. Qed.

Lemma data_entry e t : nt_inv t -> e ∈ entries t -> data_at (nte_prefix e) t = nte_payload e.
Proof.
  intros Hi He. unfold data_at. rewrite (proj2 (payload_at_elem (nte_prefix e) t (nte_payload e) (inv_linked _ Hi))); [done|].
  by exists e.
Qed.

(** Selecting entries by what is attached to them, when nothing attached
    does not count. *)
Lemma matches_data n (s : X -> bool) t p : nt_inv t -> s payload_empty = false ->
  (exists e, matches n (fun e => s (nte_payload e)) t e /\ nte_prefix e = p) <->
  p `prefix_of` n /\ s (data_at p t) = true.
Proof.
  intros Hi Hs. split.
  - intros (e&(He&Hp&Hse)&<-). by rewrite (data_entry e t Hi He).
  - intros [Hp Hd]. assert (Hne : data_at p t <> payload_empty) by (intros Hd'; congruence).
    destruct (data_present p t Hne) as [x Hx]. apply payload_at_elem in Hx as (e&He&Hpe&_); [|apply Hi].
    exists e. split; [|done]. split_and!; [done|by rewrite Hpe|]. by rewrite <- (data_entry e t Hi He), Hpe.
Qed.

(** The result of a longest prefix match as the name it is at. *)
Definition longest_data n (s : X -> bool) t (r : option Name) : Prop :=
  match r with
  | Some p => p `prefix_of` n /\ s (data_at p t) = true /\
      forall q, q `prefix_of` n -> s (data_at q t) = true -> (length q <= length p)%nat
  | None => forall q, q `prefix_of` n -> s (data_at q t) = false
  end.

Lemma longest_matches n (s : X -> bool) t r : nt_inv t -> s payload_empty = false ->
  is_longest n (fun e => s (nte_payload e)) t r ->
  longest_data n s t (nte_prefix <$> r) /\ (forall e, r = Some e -> nte_payload e = data_at (nte_prefix e) t).
Proof.
  intros Hi Hs Hl. destruct r as [e|]; simpl in *.
  - destruct Hl as [He Hmax]. split; [|intros x [= <-]; symmetry; by apply data_entry, He].
    destruct (proj1 (matches_data n s t (nte_prefix e) Hi Hs)) as [Hp Hd]; [by exists e|]. split_and!; [done|done|].
    intros q Hq Hqs. destruct (proj2 (matches_data n s t q Hi Hs)) as (x&Hx&<-); [done|]. by apply Hmax.
  - split; [|done]. intros q Hq. destruct (s (data_at q t)) eqn:Hd; [|done].
    destruct (proj2 (matches_data n s t q Hi Hs)) as (x&Hx&_); [done|]. by destruct (Hl x).
Qed.

Lemma lpm_entry_longest n sel t : nt_inv t -> is_Some (payload_at n t) ->
  is_longest n sel t (findLongestPrefixMatch_entry n sel t).
Proof.
  intros Hi Hs%payload_is_Some. unfold findLongestPrefixMatch_entry.
  rewrite <- (firstn_all n) at 3. rewrite climb_longest by (rewrite ?firstn_all; done).
  rewrite <- (firstn_all n) at 1. apply longest_spec; [apply Hi|done].
Qed.

Lemma nt_inv_empty k : 0 <= k <= 32 -> nt_inv (NameTree_empty (Z.to_nat (2 ^ k)) : NameTree X).
Proof.
  intros Hk. assert (Hpos : 0 < 2 ^ k) by (apply Z.pow_pos_nonneg; lia).
  assert (He : entries (NameTree_empty (Z.to_nat (2 ^ k)) : NameTree X) = []) by apply concat_replicate_nil.
  split.
  - exists k. split; [done|]. unfold nBuckets, len. simpl. rewrite length_replicate. lia.
  - exists k. split; [lia|]. simpl. lia.
  - intros i b e Hb He'. apply lookup_replicate in Hb as [-> _]. by apply elem_of_nil in He'.
  - rewrite He. split; [apply NoDup_nil_2|intros *; rewrite elem_of_nil; done..].
  - by rewrite He.
Qed.

(** [lookup] creates the entries of the name and of all its prefixes,
    leaves what is attached to every entry as it was, and keeps the tree well
    formed (entries in their buckets, linked to their parents, counted, the
    table enlarged as needed); afterwards [findExactMatch] finds exactly
    these entries. *)
Theorem nametree_lookup n t : nt_inv t -> gen_name n -> nt_nItems t + len n + 1 <= 2 ^ 30 ->
  nt_inv (lookup n t) /\
  forall m, gen_name m -> nte_payload <$> findExactMatch m (lookup n t) =
    if bool_decide (m `prefix_of` n) then Some (default payload_empty (nte_payload <$> findExactMatch m t))
    else nte_payload <$> findExactMatch m t.
Proof.
  intros Hi Hn Hit. destruct (lookup_spec n t Hi Hn Hit) as (Hi'&_&Hp).
  split; [exact Hi'|]. intros m Hm. rewrite !findExactMatch_deref by done. apply (Hp m).
Qed.

(** Longest prefix match from an entry of the tree, up its parents, gives
    the selected entry with the longest prefix; so does longest prefix match
    by name when the prefixes of the name have distinct hashes, and
    [findAllMatches] then lists exactly the selected entries that are
    prefixes of the name. *)
Theorem nametree_longest_prefix_match n sel t : nt_inv t -> gen_name n ->
  (is_Some (findExactMatch n t) -> is_longest n sel t (findLongestPrefixMatch_entry n sel t)) /\
  (NoDup (computeHashSet n) ->
   is_longest n sel t (findLongestPrefixMatch n sel t) /\
   forall x, x ∈ findAllMatches n sel t <-> matches n sel t x).
Proof.
  intros Hi Hn. split.
  - rewrite findExactMatch_deref by done. intros Hs. by apply lpm_entry_longest, payload_is_Some.
  - intros Hnd. split; [by apply findLongestPrefixMatch_longest|by apply findAllMatches_matches].
Qed.

Lemma computeHash_twice p c : computeHash (p ++ [c; c]) = computeHash p.
Proof.
  change [c; c] with ([c] ++ [c]). rewrite app_assoc, !computeHash_snoc, Z.lxor_assoc, Z.lxor_nilpotent. apply Z.lxor_0_r.
Qed.

(** The hash of a name is the exclusive or of the hashes of its
    components, so a name that ends in the same component twice has the hash
    of the prefix without both; longest prefix match by name then returns an
    entry of that prefix or shorter, although the prefix with one more
    component may be in the tree and selected. *)
Theorem nametree_lpm_repeated_component p c sel t ep : nt_inv t -> gen_name (p ++ [c; c]) ->
  componentHash c <> 0 -> findExactMatch p t = Some ep -> sel ep = true ->
  (forall e, findExactMatch (p ++ [c; c]) t = Some e -> sel e = false) ->
  exists e, findLongestPrefixMatch (p ++ [c; c]) sel t = Some e /\ (length (nte_prefix e) <= length p)%nat.
Proof.
  intros Hi Hn Hc Hp Hs Hlong. set (n := p ++ [c; c]) in *.
  assert (Hgp : gen_name p) by (by apply Forall_app in Hn as [? _]).
  pose proof (inv_placed _ Hi) as Hpl. pose proof (inv_linked _ Hi) as Hl.
  rewrite findExactMatch_deref in Hp by done. rewrite findExactMatch_deref in Hlong by done.
  apply deref_elem in Hp as [Hep Hpp]. pose proof (placed_hash _ _ Hpl Hep) as Hhp. rewrite Hpp in Hhp.
  unfold findLongestPrefixMatch. rewrite computeHashSet_spec, seq_S, map_app, rev_app_distr.
  cbn [Nat.add map rev app lpm_loop]. rewrite firstn_all. unfold n at 1. rewrite computeHash_twice.
  assert (Hbk : bucket (computeHash n) t = bucket (computeHash p) t) by (unfold n; by rewrite computeHash_twice).
  rewrite Hbk. destruct (List.find _ (bucket _ t)) as [e|] eqn:Hf.
  - exists e. split; [done|]. apply find_Some_elem in Hf as [He Hf]. apply elem_of_bucket in He as [He _]; [|done].
    apply andb_true_iff in Hf as [[Hh%Z.eqb_eq Hpre]%andb_true_iff Hse].
    apply isPrefixOf_gen in Hpre; [|by apply Hl|done]. rewrite (placed_hash _ _ Hpl He) in Hh.
    unfold n in Hpre. change [c; c] with ([c] ++ [c]) in Hpre. rewrite app_assoc in Hpre.
    apply prefix_snoc_cases in Hpre as [[?%prefix_length|Heq]%prefix_snoc_cases|Heq]; [done|exfalso..].
    + rewrite Heq, computeHash_snoc in Hh. apply Hc.
      apply (f_equal (Z.lxor (computeHash p))) in Hh. by rewrite <- Z.lxor_assoc, Z.lxor_nilpotent, Z.lxor_0_l in Hh.
    + rewrite <- app_assoc in Heq. rewrite (Hlong e) in Hse; [done|]. by apply deref_iff.
  - exfalso. eapply find_None_elem in Hf; [|rewrite <- Hhp; by apply entry_in_bucket].
    rewrite Hhp, Z.eqb_refl, Hs, Hpp in Hf. unfold n in Hf.
    pose proof (isPrefixOf_take (p ++ [c; c]) (length p)) as Hpre. rewrite take_app_length in Hpre.
    by rewrite Hpre in Hf.
Qed.

(** [eraseEntryIfEmpty] of the only entry that may be empty removes it,
    and then every ancestor that has become empty: afterwards an entry is in
    the tree exactly when something is attached to it or to an entry below
    it, what is attached is unchanged, and the tree is well formed (the table
    shrunk as needed). *)
Theorem nametree_erase n t : nt_inv t -> tidy_except (Some n) t ->
  nt_inv (eraseEntryIfEmpty n t) /\ tidy_except None (eraseEntryIfEmpty n t) /\
  forall m x, payload_at m (eraseEntryIfEmpty n t) = Some x <->
    payload_at m t = Some x /\ exists k y, payload_at (m ++ k) t = Some y /\ payload_isEmpty y = false.
Proof.
  intros Hi Ht. destruct (erase_loop_spec (S (length n)) n t Hi) as (Hi'&Hsub&Hkeep&Htidy).
  specialize (Htidy ltac:(lia) Ht). unfold eraseEntryIfEmpty. split_and!; [done|done|]. intros m x. split.
  - intros Hx. split; [by apply Hsub|]. destruct (proj1 (tidy_iff m _ Hi' Htidy)) as (k&y&Hy&Hye); [by eexists|].
    exists k, y. split; [by apply Hsub|done].
  - intros (Hx&k&y&Hy&Hye). apply Hkeep in Hy; [|done].
    destruct (proj2 (tidy_iff m _ Hi' Htidy)) as [z Hz]; [by exists k, y|]. rewrite Hz.
    apply Hsub in Hz. congruence.
Qed.
End Facts.

(** ** Concrete trees *)

Module Samples.
(** Some hash function: the bytes as digits. *)
Definition sample_hash (l : list Z) : Z := fold_left (fun h b => (h * 257 + b) mod U64) l 5.

Lemma sample_hash_range l : 0 <= sample_hash l < U64.
Proof.
  unfold sample_hash. assert (Hgo : forall l h, 0 <= h < U64 ->
    0 <= fold_left (fun h b => (h * 257 + b) mod U64) l h < U64).
  { clear l. induction l as [|b l IH]; intros h Hh; [done|]. apply IH. by apply Z.mod_pos_bound. }
  by apply Hgo.
Qed.

#[local] Instance SampleHash : CityHash := { cityHash := sample_hash; cityHash_range := sample_hash_range }.

#[local] Instance SamplePayload : Payload (option Z) :=
  { payload_empty := None; payload_isEmpty := fun x => bool_decide (x = None);
    payload_isEmpty_iff := fun x => bool_decide_eq_true (x = None) }.

Definition na : Name := [generic [97]].
Definition nab : Name := [generic [97]; generic [98]].
Definition naa : Name := [generic [97]; generic [97]].

(** Two buckets at first. *)
Definition tree0 : NameTree (option Z) := NameTree_empty 2.
Definition attach (n : Name) (x : Z) (t : NameTree (option Z)) : NameTree (option Z) :=
  update_payload n (fun _ => Some x) (lookup n t).
Definition tree2 : NameTree (option Z) := attach nab 2 (attach na 1 tree0).
Definition has_payload (e : NtEntry (option Z)) : bool := negb (payload_isEmpty (nte_payload e)).

Lemma inv_attach n x t : nt_inv t -> gen_name n -> nt_nItems t + len n + 1 <= 2 ^ 30 -> nt_inv (attach n x t).
Proof. intros Hi Hn Hit. apply update_payload_spec. by apply lookup_spec. Qed.

Lemma inv_tree2 : nt_inv tree2.
Proof.
  apply inv_attach; [apply inv_attach; [apply (nt_inv_empty 1); lia|by_decide|by vm_compute]|by_decide|by vm_compute].
Qed.

Lemma nametree_lookup_witness :
  nte_payload <$> findExactMatch nab (lookup naa tree2) = Some (Some 2) /\
  nte_payload <$> findExactMatch naa (lookup naa tree2) = Some None.
Proof.
  destruct (nametree_lookup naa tree2) as [_ Hp]; [apply inv_tree2|by_decide|by vm_compute|].
  split; (etrans; [apply Hp; by_decide|by vm_compute]).
Defined.

Lemma nametree_longest_prefix_match_witness :
  findLongestPrefixMatch nab has_payload tree2 = findExactMatch nab tree2 /\
  is_longest nab has_payload tree2 (findExactMatch nab tree2).
Proof.
  split; [by vm_compute|].
  destruct (nametree_longest_prefix_match nab has_payload tree2) as [_ Hl]; [apply inv_tree2|by_decide|].
  destruct Hl as [Hl _]; [by_decide|].
  assert (findLongestPrefixMatch nab has_payload tree2 = findExactMatch nab tree2) as <- by (by vm_compute).
  exact Hl.
Defined.

(** [/a/a], in a tree where something is attached to [/] and to [/a]. *)
Definition tree3 : NameTree (option Z) := attach [] 7 tree2.

Lemma nametree_lpm_repeated_component_witness :
  (exists e, findLongestPrefixMatch naa has_payload tree3 = Some e /\ (length (nte_prefix e) <= 0)%nat) /\
  has_payload <$> findExactMatch na tree3 = Some true.
Proof.
  split; [|by vm_compute].
  destruct (findExactMatch [] tree3) as [ep|] eqn:Hep; [|by vm_compute in Hep].
  apply (nametree_lpm_repeated_component [] (generic [97]) has_payload tree3 ep).
  - apply inv_attach; [apply inv_tree2|by_decide|by vm_compute].
  - by_decide.
  - by vm_compute.
  - exact Hep.
  - assert (Hs : has_payload <$> findExactMatch [] tree3 = Some true) by (by vm_compute).
    rewrite Hep in Hs. by injection Hs.
  - assert (Hs : findExactMatch naa tree3 = None) by (by vm_compute). intros e. change ([] ++ _) with naa. by rewrite Hs.
Defined.

Lemma tidy_decide (n : option Name) (t : NameTree (option Z)) :
  forallb (fun e => negb (isEmpty e) || bool_decide (Some (nte_prefix e) = n)) (entries t) = true -> tidy_except n t.
Proof.
  intros Hf e He Hem. eapply forallb_forall in Hf; [|apply list_elem_of_In; exact He].
  rewrite Hem in Hf. by apply bool_decide_eq_true in Hf.
Qed.

(** Creating [/a/a] and taking it out again. *)
Lemma nametree_erase_witness :
  payload_at naa (eraseEntryIfEmpty naa (lookup naa tree2)) = None /\
  payload_at na (eraseEntryIfEmpty naa (lookup naa tree2)) = Some (Some 1).
Proof.
  destruct (nametree_erase naa (lookup naa tree2)) as (_&_&Hp).
  - apply lookup_spec; [apply inv_tree2|by_decide|by vm_compute].
  - apply tidy_decide. by vm_compute.
  - split; [by vm_compute|]. apply Hp. split; [by vm_compute|]. exists [], (Some 1). by vm_compute.
Defined.
End Samples.
