(* ===== verification/Enumerate.v ===== *)
(** * Enumerating a part of the name tree:
    [NameTree::partialEnumerate] and the iterator it returns
    ([NFD/daemon/table/name-tree.cpp])

    The iterator walks the subtree in pre-order without a stack: it goes down
    to the first child, across to the next sibling, which it finds by searching
    for itself among the children of its parent, and up again.  A selector says
    of each entry whether it is accepted and whether its children are visited.
    The walk is shown to end and to yield exactly the accepted entries that can
    be reached through entries whose children are visited, each once. *)

From S2P Require Import Prelude StdMap Tlv Block Encoder NameComponent Name Exclude Packet CsEntry CsPolicy NameTree.

Section Enumerate.
Context `{CityHash} {X : Type} `{Payload X}.
Implicit Types (t : NameTree X) (e : NtEntry X) (sel : NtEntry X -> bool * bool).

(** [const_iterator]: [m_entry] and [m_shouldVisitChildren], or the end *)
Inductive EnumIter :=
| EnumEnd
| EnumAt (entry : Name) (shouldVisitChildren : bool).

Definition hasChildren e : bool := match nte_children e with [] => false | _ => true end.

(** The iterator moves to an entry; the entry is the result if it is
    accepted. *)
Definition enum_visit sel (n : Name) t : result (option (NtEntry X) * EnumIter) :=
  match deref n t with
  | None => Err NullPointer
  | Some e =>
      let '(accept, sub) := sel e in
      Ok (if accept then Some e else None, EnumAt n (sub && hasChildren e))
  end.

(** One pass of the loop of [operator++] and, at the root of the subtree, the
    section before the loop, which differs only in that there is nothing to the
    side of the root. *)
Definition enum_step sel (root entry : Name) (shouldVisitChildren : bool) t : result (option (NtEntry X) * EnumIter) :=
  match deref entry t with
  | None => Err NullPointer
  | Some e =>
      if shouldVisitChildren then
        match nte_children e with
        | c :: _ => enum_visit sel c t
        | [] => Err OutOfRange
        end
      else if bool_decide (entry = root) then Ok (None, EnumEnd)
      else
        match nte_parent e with
        | None => Err NullPointer
        | Some parent =>
            match deref parent t with
            | None => Err NullPointer
            | Some x =>
                match index_of entry (nte_children x) with
                | None => Err AssertFailed
                | Some i =>
                    match nte_children x !! S i with
                    | Some sibling => enum_visit sel sibling t
                    | None => Ok (None, EnumAt parent false)
                    end
                end
            end
        end
  end.

(** [operator++]: passes until an entry is accepted or the root is reached
    again *)
Fixpoint enum_next (fuel : nat) sel (root : Name) (it : EnumIter) t : result (option (NtEntry X) * EnumIter) :=
  match it, fuel with
  | EnumEnd, _ => Err AssertFailed
  | EnumAt _ _, O => Err OutOfFuel
  | EnumAt entry should, S fuel =>
      let! r := enum_step sel root entry should t in
      match r with
      | (None, EnumAt _ _) => enum_next fuel sel root r.2 t
      | _ => Ok r
      end
  end.

(** The passes a walk of the whole tree takes at most: one down to or across to
    each entry, one away from it *)
Definition enum_fuel t : nat := 2 * length (entries t) + 2.

(** A loop over the rest of the range *)
Fixpoint enum_rest (fuel : nat) sel (root : Name) (it : EnumIter) t : result (list (NtEntry X)) :=
  match fuel with
  | O => Err OutOfFuel
  | S fuel =>
      let! r := enum_next (enum_fuel t) sel root it t in
      match r with
      | (Some e, it) => let! l := enum_rest fuel sel root it t in Ok (e :: l)
      | (None, _) => Ok []
      end
  end.

Definition partialEnumerate (prefix : Name) sel t : result (list (NtEntry X)) :=
  match findExactMatch prefix t with
  | None => Ok []
  | Some e =>
      let '(accept, sub) := sel e in
      let! l := enum_rest (enum_fuel t) sel (nte_prefix e) (EnumAt (nte_prefix e) (sub && hasChildren e)) t in
      Ok (if accept then e :: l else l)
  end.

(** ** The walk *)

(** The subtree of an entry in pre-order, to a depth *)
Fixpoint preorder (d : nat) sel (n : Name) t : list (NtEntry X) :=
  match d, deref n t with
  | S d, Some e =>
      (if (sel e).1 then [e] else []) ++ (if (sel e).2 then flat_map (fun c => preorder d sel c t) (nte_children e) else [])
  | _, _ => []
  end.

Definition every sel e : bool * bool := (true, (sel e).2).

Inductive walk sel (root : Name) t : EnumIter -> list (NtEntry X) -> EnumIter -> nat -> Prop :=
| WalkDone it : walk sel root t it [] it 0
| WalkStep n should y it l it' k : enum_step sel root n should t = Ok (y, it) -> walk sel root t it l it' k ->
    walk sel root t (EnumAt n should) (option_list y ++ l) it' (S k).

Lemma walk_trans sel root t a b c l l' k k' : walk sel root t a l b k -> walk sel root t b l' c k' ->
  walk sel root t a (l ++ l') c (k + k').
Proof. induction 1 as [|n s y it l it' k Hs _ IH]; intros Hw; [done|]. rewrite <- app_assoc. econstructor; [done|by apply IH]. Qed.

Lemma enum_next_walk sel root t it l k : walk sel root t it l EnumEnd k -> it <> EnumEnd ->
  forall fuel, (k <= fuel)%nat ->
  match l with
  | [] => enum_next fuel sel root it t = Ok (None, EnumEnd)
  | e :: l' => exists it' k', enum_next fuel sel root it t = Ok (Some e, it') /\ it' <> EnumEnd /\
      walk sel root t it' l' EnumEnd k' /\ (k' < k)%nat
  end.
Proof.
  remember EnumEnd as stop eqn:Hstop. induction 1 as [it|n should y it l it' k Hs Hw IH]; intros Hne fuel Hk; [done|].
  destruct fuel as [|fuel]; [lia|]. subst it'. cbn [enum_next]. rewrite Hs. cbn [rbind snd].
  assert (Hy : y <> None -> it <> EnumEnd).
  { unfold enum_step, enum_visit in Hs. intros Hy ->. repeat case_match; simplify_eq. }
  destruct y as [e|]; cbn [option_list app].
  - exists it, k. split_and!; [done|by apply Hy|done|lia].
  - destruct it as [|n' s']; [inversion Hw; by subst|]. specialize (IH eq_refl ltac:(done) fuel ltac:(lia)).
    destruct l as [|e l']; [done|]. destruct IH as (i&j&?&?&?&?). exists i, j. split_and!; [done..|lia].
Qed.

Lemma enum_rest_walk sel root t l : forall it k fuel, walk sel root t it l EnumEnd k -> it <> EnumEnd ->
  (k <= enum_fuel t)%nat -> (k < fuel)%nat -> enum_rest fuel sel root it t = Ok l.
Proof.
  induction l as [|e l IH]; intros it k [|fuel] Hw Hne Hk Hf; [lia| |lia|]; cbn [enum_rest].
  - pose proof (enum_next_walk _ _ _ _ _ _ Hw Hne _ Hk) as Hn. cbv iota in Hn. by rewrite Hn.
  - destruct (enum_next_walk _ _ _ _ _ _ Hw Hne _ Hk) as (it'&k'&->&Hne'&Hw'&Hlt). cbn [rbind].
    rewrite (IH it' k') by (done || lia). done.
Qed.

(** What the children of an entry are *)
Lemma child_entry e c t : nt_inv t -> e ∈ entries t -> c ∈ nte_children e ->
  exists x, deref c t = Some x /\ x ∈ entries t /\ nte_prefix x = c /\ nte_parent x = Some (nte_prefix e) /\
    exists k, c = nte_prefix e ++ [k].
Proof.
  intros Ht He Hc. pose proof (inv_linked _ Ht) as Hl. destruct (link_down _ Hl e c He Hc) as (x&Hx&Hp&Hpar).
  exists x. split_and!; [by apply deref_iff|done..|]. rewrite (link_parent _ Hl x Hx), Hp in Hpar.
  destruct c as [|c0 k _] using rev_ind; [done|]. rewrite parent_of_snoc in Hpar. injection Hpar as <-. by eexists.
Qed.

Lemma same_entry t a b : nt_inv t -> a ∈ entries t -> b ∈ entries t -> nte_prefix a = nte_prefix b -> a = b.
Proof. intros Ht. apply prefix_unique, inv_linked, Ht. Qed.

Lemma index_of_at (l : list Name) i c : NoDup l -> l !! i = Some c -> index_of c l = Some i.
Proof.
  intros Hnd Hi. destruct (index_of_spec c l) as (j&Hj&Hl); [by eapply list_elem_of_lookup_2|].
  rewrite Hj. f_equal. by eapply NoDup_lookup.
Qed.

Section Walk.
Context sel (root : Name) t (Ht : nt_inv t) (L : nat) (Hdeep : forall e, e ∈ entries t -> (length (nte_prefix e) <= L)%nat).

Definition below d sel e : list (NtEntry X) :=
  if (sel e).2 then flat_map (fun c => preorder d sel c t) (nte_children e) else [].

Lemma preorder_below d s n e : deref n t = Some e -> preorder (S d) s n t = (if (s e).1 then [e] else []) ++ below d s e.
Proof. intros He. cbn [preorder]. by rewrite He. Qed.

(** What is shown of an entry: the walk goes through what is below it and comes
    back to it. *)
Definition walks d (n : Name) : Prop :=
  forall e, deref n t = Some e ->
    exists k, walk sel root t (EnumAt n ((sel e).2 && hasChildren e)) (below d sel e) (EnumAt n false) k /\
      (k <= 2 * length (below d (every sel) e))%nat.

Lemma visit_ok n e : deref n t = Some e ->
  exists y, enum_visit sel n t = Ok (y, EnumAt n ((sel e).2 && hasChildren e)) /\ option_list y = if (sel e).1 then [e] else [].
Proof. intros He. unfold enum_visit. rewrite He. destruct (sel e) as [[] b]; eexists; by split. Qed.

(** Across the siblings of [c] and up *)
Lemma walk_siblings d e rest : forall done c, e ∈ entries t -> nte_children e = done ++ c :: rest ->
  (forall x, x ∈ nte_children e -> walks d x) -> (length root <= length (nte_prefix e))%nat ->
  exists k, walk sel root t (EnumAt c false) (flat_map (fun c => preorder (S d) sel c t) rest) (EnumAt (nte_prefix e) false) k /\
    (k <= 1 + 2 * length (flat_map (fun c => preorder (S d) (every sel) c t) rest))%nat.
Proof.
  induction rest as [|c' rest IH]; intros dn c He Hch Hall Hlen.
  all: assert (Hc : c ∈ nte_children e) by (rewrite Hch; apply elem_of_app; right; left).
  all: destruct (child_entry e c t Ht He Hc) as (x&Hx&Hxin&Hxc&Hxp&(z&Hz)).
  all: assert (Hne : c <> root) by (intros ->; apply (f_equal length) in Hz; rewrite length_app in Hz; simpl in Hz; lia).
  all: assert (Hpe : deref (nte_prefix e) t = Some e) by (by apply deref_iff; [apply inv_linked|]).
  all: assert (Hix : index_of c (nte_children e) = Some (length dn))
    by (apply index_of_at; [by apply (link_children _ (inv_linked _ Ht))|rewrite Hch; by apply list_lookup_middle]).
  - exists 1%nat. split; [|simpl; lia]. apply (WalkStep _ _ _ _ _ None (EnumAt (nte_prefix e) false) []); [|constructor].
    unfold enum_step. rewrite Hx, bool_decide_false, Hxp, Hpe, Hix, Hch by done.
    rewrite lookup_ge_None_2; [done|]. rewrite length_app. simpl. lia.
  - assert (Hc' : c' ∈ nte_children e) by (rewrite Hch; apply elem_of_app; right; right; left).
    destruct (child_entry e c' t Ht He Hc') as (x'&Hx'&_).
    destruct (visit_ok c' x' Hx') as (y&Hy&Hyl). destruct (Hall c' Hc' x' Hx') as (k1&Hw1&Hk1).
    destruct (IH (dn ++ [c]) c') as (k2&Hw2&Hk2); [done|by rewrite <- app_assoc|done..|].
    exists (S (k1 + k2)). cbn [flat_map]. rewrite (preorder_below d sel c' x' Hx'), <- Hyl, <- app_assoc. split.
    + apply (WalkStep _ _ _ _ _ _ (EnumAt c' ((sel x').2 && hasChildren x'))); [|by eapply walk_trans].
      unfold enum_step. rewrite Hx, bool_decide_false, Hxp, Hpe, Hix by done.
      rewrite Hch, lookup_app_r by lia. replace (S (length dn) - length dn)%nat with 1%nat by lia. exact Hy.
    + rewrite (preorder_below d (every sel) c' x' Hx'), !length_app. cbn [every fst length]. lia.
Qed.

Lemma walk_below d : forall n, (L < length n + d)%nat -> (length root <= length n)%nat -> walks d n.
Proof.
  induction d as [|d IH]; intros n Hd Hroot e He.
  all: pose proof (proj1 (deref_iff n t e (inv_linked _ Ht)) He) as [Hin Hn]; pose proof (Hdeep e Hin) as Hle; rewrite Hn in Hle.
  { exfalso. lia. }
  unfold below. cbn [every snd]. destruct (sel e).2; [|exists 0%nat; split; [constructor|simpl; lia]].
  unfold hasChildren. destruct (nte_children e) as [|c rest] eqn:Hch; [exists 0%nat; split; [constructor|simpl; lia]|].
  assert (Hall : forall x, x ∈ nte_children e -> walks d x).
  { intros x Hx. destruct (child_entry e x t Ht Hin Hx) as (_&_&_&_&_&(z&->)).
    apply IH; rewrite length_app, Hn; simpl; lia. }
  assert (Hc : c ∈ nte_children e) by (rewrite Hch; left).
  destruct (child_entry e c t Ht Hin Hc) as (x&Hx&_).
  destruct (visit_ok c x Hx) as (y&Hy&Hyl). destruct (Hall c Hc x Hx) as (k1&Hw1&Hk1).
  destruct (walk_siblings d e rest [] c Hin Hch Hall) as (k2&Hw2&Hk2); [by rewrite Hn|]. rewrite Hn in Hw2.
  exists (S (k1 + k2)). cbn [flat_map andb]. rewrite (preorder_below d sel c x Hx), <- Hyl, <- app_assoc. split.
  - apply (WalkStep _ _ _ _ _ _ (EnumAt c ((sel x).2 && hasChildren x))); [|by eapply walk_trans].
    unfold enum_step. by rewrite He, Hch.
  - rewrite (preorder_below d (every sel) c x Hx), !length_app. cbn [every fst length]. lia.
Qed.
End Walk.

(** ** What is in the walk *)

Definition reached sel (n : Name) t e : Prop :=
  e ∈ entries t /\ n `prefix_of` nte_prefix e /\
  forall x, x ∈ entries t -> n `prefix_of` nte_prefix x -> nte_prefix x `prefix_of` nte_prefix e -> x <> e -> (sel x).2 = true.

Lemma elem_of_flat {A B} (f : A -> list B) l y : y ∈ flat_map f l <-> exists x, x ∈ l /\ y ∈ f x.
Proof. rewrite !list_elem_of_In, in_flat_map. by setoid_rewrite list_elem_of_In. Qed.

Lemma preorder_spec sel t L : nt_inv t -> (forall e, e ∈ entries t -> (length (nte_prefix e) <= L)%nat) ->
  forall d n e, (L < length n + d)%nat -> is_Some (deref n t) ->
  e ∈ preorder d sel n t <-> reached sel n t e /\ (sel e).1 = true.
Proof.
  intros Ht Hdeep. pose proof (inv_linked _ Ht) as Hl. induction d as [|d IH]; intros n e Hd [r Hr].
  all: pose proof (proj1 (deref_iff n t r Hl) Hr) as [Hin Hn]; pose proof (Hdeep r Hin) as Hle; rewrite Hn in Hle.
  { exfalso. lia. }
  cbn [preorder]. rewrite Hr, elem_of_app.
  assert (Hkid : forall c, c ∈ nte_children r -> e ∈ preorder d sel c t <-> reached sel c t e /\ (sel e).1 = true).
  { intros c Hc. destruct (child_entry r c t Ht Hin Hc) as (x&Hx&_&_&_&(z&Hz)).
    apply IH; [rewrite Hz, length_app, Hn; simpl; lia|by eexists]. }
  split.
  - intros [He|He].
    + destruct (sel r).1 eqn:Ha; [|by apply elem_of_nil in He]. apply list_elem_of_singleton in He as ->.
      split; [|done]. split_and!; [done|by rewrite Hn|]. intros x Hx Hp1 Hp2 Hne. destruct Hne. rewrite Hn in Hp2.
      apply (same_entry t); [done..|]. rewrite Hn. apply (anti_symm prefix); done.
    + destruct (sel r).2 eqn:Hs; [|by apply elem_of_nil in He]. apply elem_of_flat in He as (c&Hc&He).
      apply (Hkid c Hc) in He as [(He&Hp&Hb) Ha]. split; [|done].
      destruct (child_entry r c t Ht Hin Hc) as (_&_&_&_&_&(z&Hz)).
      split_and!; [done|etrans; [|exact Hp]; rewrite Hz, Hn; by eexists|].
      intros x Hx Hp1 Hp2 Hne. destruct (decide (nte_prefix x = n)) as [Hxn|Hxn].
      * rewrite (same_entry t x r) by (done || congruence). done.
      * apply Hb; [done| |done|done]. destruct (prefix_weak_total c (nte_prefix x) (nte_prefix e) Hp Hp2) as [?|Hpc]; [done|].
        destruct Hp1 as [k Hk]. destruct k as [|k0 k]; [by rewrite app_nil_r in Hk|].
        assert (nte_prefix x = c) as ->; [|done]. apply (prefix_length_eq _ _ Hpc). rewrite Hz, Hk, !length_app, Hn. simpl. lia.
  - intros [(He&Hp&Hb) Ha]. destruct (decide (nte_prefix e = n)) as [Hen|Hen].
    + left. rewrite (same_entry t r e) by (done || congruence). rewrite Ha. left.
    + right. assert (Hs : (sel r).2 = true) by (apply Hb; [done|by rewrite Hn|by rewrite Hn|congruence]). rewrite Hs.
      destruct Hp as [[|z k] Hk]; [by rewrite app_nil_r in Hk|].
      assert (Hex : is_Some (payload_at (n ++ [z]) t)).
      { apply (payload_prefix _ k); [done|]. rewrite <- app_assoc. simpl. rewrite <- Hk. apply payload_is_Some.
        exists e. by apply deref_iff. }
      apply payload_is_Some in Hex as [c Hc]. apply deref_iff in Hc as [Hcin Hcn]; [|done].
      assert (Hcr : n ++ [z] ∈ nte_children r).
      { destruct (link_up _ Hl c n Hcin) as (p&Hp&Hpn&Hpc); [by rewrite (link_parent _ Hl c Hcin), Hcn, parent_of_snoc|].
        rewrite (same_entry t r p), <- Hcn by (done || congruence). done. }
      apply elem_of_flat. exists (n ++ [z]). split; [done|]. apply Hkid; [done|]. split; [|done].
      split_and!; [done|exists k; by rewrite Hk, <- app_assoc|]. intros x Hx Hp1 Hp2 Hne. apply Hb; [done| |done|done].
      etrans; [|exact Hp1]. by eexists.
Qed.

(** No entry comes after an entry that it is a prefix of, or twice. *)
Definition pre_ordered (l : list (NtEntry X)) : Prop := StronglySorted (fun a b => ~ nte_prefix b `prefix_of` nte_prefix a) l.

Lemma pre_ordered_nodup l : pre_ordered l -> NoDup l.
Proof.
  induction 1 as [|a l _ IH Ha]; [constructor|]. constructor; [|done]. intros Hin.
  rewrite Forall_forall in Ha. by apply (Ha a Hin).
Qed.

Lemma sorted_flat {A B} (R : B -> B -> Prop) (f : A -> list B) l : NoDup l -> (forall x, x ∈ l -> StronglySorted R (f x)) ->
  (forall x x' y y', x ∈ l -> x' ∈ l -> x <> x' -> y ∈ f x -> y' ∈ f x' -> R y y') -> StronglySorted R (flat_map f l).
Proof.
  induction 1 as [|x l Hx _ IH]; intros Hf Hd; [constructor|]. cbn [flat_map]. apply StronglySorted_app. split_and!.
  - intros y y' Hy (x'&Hx'&Hy')%elem_of_flat. apply (Hd x x'); [left|by right|by intros ->|done|done].
  - apply Hf. left.
  - apply IH; [intros z Hz; apply Hf; by right|]. intros z z' y y' Hz Hz'. apply Hd; by right.
Qed.

Lemma preorder_sorted sel t L : nt_inv t -> (forall e, e ∈ entries t -> (length (nte_prefix e) <= L)%nat) ->
  forall d n, (L < length n + d)%nat -> is_Some (deref n t) -> pre_ordered (preorder d sel n t).
Proof.
  intros Ht Hdeep. induction d as [|d IH]; intros n Hd [r Hr]; [constructor|]. cbn [preorder]. rewrite Hr.
  pose proof (proj1 (deref_iff n t r (inv_linked _ Ht)) Hr) as [Hin Hn].
  assert (Hkid : forall c, c ∈ nte_children r -> (L < length c + d)%nat /\ is_Some (deref c t) /\ exists z, c = n ++ [z]).
  { intros c Hc. destruct (child_entry r c t Ht Hin Hc) as (x&Hx&_&_&_&(z&Hz)). rewrite Hn in Hz.
    split_and!; [rewrite Hz, length_app; simpl; lia|by eexists|by exists z]. }
  assert (Hin' : forall c e, c ∈ nte_children r -> e ∈ preorder d sel c t -> c `prefix_of` nte_prefix e).
  { intros c e Hc He. destruct (Hkid c Hc) as (?&?&_). apply (preorder_spec sel t L Ht Hdeep d c e) in He as [(_&?&_) _]; done. }
  assert (Hflat : pre_ordered (flat_map (fun c => preorder d sel c t) (nte_children r))).
  { apply sorted_flat; [by apply (link_children _ (inv_linked _ Ht))|intros c Hc; destruct (Hkid c Hc) as (?&?&_); by apply IH|].
    intros c c' e e' Hc Hc' Hne He He' Hpre. destruct (Hkid c Hc) as (_&_&(z&Hz)), (Hkid c' Hc') as (_&_&(z'&Hz')).
    assert (Hlen : length c = length c') by (by rewrite Hz, Hz', !length_app). destruct Hne.
    destruct (prefix_weak_total c c' (nte_prefix e)) as [Hp|Hp]; [by apply Hin'|etrans; [by apply Hin'|done]| |symmetry];
      apply (prefix_length_eq _ _ Hp); lia. }
  apply StronglySorted_app. split_and!; [|destruct (sel r).1; repeat constructor|destruct (sel r).2; [done|constructor]].
  intros e e' He He' Hpre. destruct (sel r).1; [|by apply elem_of_nil in He]. apply list_elem_of_singleton in He as ->.
  destruct (sel r).2; [|by apply elem_of_nil in He']. apply elem_of_flat in He' as (c&Hc&He').
  apply (Hin' c e' Hc) in He'. destruct (Hkid c Hc) as (_&_&(z&->)). apply prefix_length in He', Hpre.
  rewrite Hn in Hpre. rewrite length_app in He'. simpl in He'. lia.
Qed.

Lemma preorder_length sel t L d n : nt_inv t -> (forall e, e ∈ entries t -> (length (nte_prefix e) <= L)%nat) ->
  (L < length n + d)%nat -> is_Some (deref n t) -> (length (preorder d sel n t) <= length (entries t))%nat.
Proof.
  intros Ht Hdeep Hd Hn. apply submseteq_length, NoDup_submseteq; [by apply pre_ordered_nodup, (preorder_sorted sel t L)|].
  intros e He. apply (preorder_spec sel t L) in He as [(?&_) _]; done.
Qed.

Lemma partialEnumerate_spec prefix sel t : nt_inv t -> gen_name prefix ->
  exists l, partialEnumerate prefix sel t = Ok l /\ pre_ordered l /\
    forall e, e ∈ l <-> reached sel prefix t e /\ (sel e).1 = true.
Proof.
  intros Ht Hg. pose proof (inv_linked _ Ht) as Hl. unfold partialEnumerate. rewrite findExactMatch_deref by done.
  destruct (deref prefix t) as [r|] eqn:Hr.
  2: { exists []. split_and!; [done|constructor|]. intros e. split; [by intros ?%elem_of_nil|]. intros [(He&[k Hk]&_) _]. exfalso.
    assert (Hs : is_Some (payload_at prefix t)).
    { apply (payload_prefix _ k); [done|]. rewrite <- Hk. apply payload_is_Some. exists e. by apply deref_iff. }
    apply payload_is_Some in Hs. rewrite Hr in Hs. by destruct Hs. }
  destruct (bounded_depth t) as [L Hdeep]. pose proof (proj1 (deref_iff prefix t r Hl) Hr) as [Hin Hn].
  assert (Hd : (L < length prefix + S L)%nat) by lia. assert (Hs : is_Some (deref prefix t)) by (by eexists).
  destruct (walk_below sel prefix t Ht L Hdeep (S L) prefix Hd ltac:(done) r Hr) as (k&Hw&Hk).
  assert (Hk' : (k + 1 < enum_fuel t)%nat).
  { unfold enum_fuel. pose proof (preorder_length (every sel) t L (S (S L)) prefix Ht Hdeep ltac:(lia) Hs) as Hb.
    rewrite (preorder_below t (S L) (every sel) prefix r Hr), length_app in Hb. lia. }
  assert (Hrest : enum_rest (enum_fuel t) sel prefix (EnumAt prefix ((sel r).2 && hasChildren r)) t = Ok (below t (S L) sel r)).
  { apply (enum_rest_walk sel prefix t _ _ (k + 1)); [|done|lia|done].
    rewrite <- (app_nil_r (below _ _ _ _)). eapply walk_trans; [done|].
    apply (WalkStep _ _ _ _ _ None EnumEnd []); [|constructor]. unfold enum_step. by rewrite Hr, bool_decide_true. }
  exists (preorder (S (S L)) sel prefix t). rewrite Hn. destruct (sel r) as [accept sub] eqn:Hsel. cbn [snd] in Hrest. rewrite Hrest. cbn [rbind].
  split_and!; [|by apply (preorder_sorted sel t L); [..|lia|]|intros e; by apply (preorder_spec sel t L); [..|lia|]].
  rewrite (preorder_below t (S L) sel prefix r Hr), Hsel. by destruct accept.
Qed.

(** C29. Enumerating a subtree of the name tree: the walk without a stack always
    ends, its search for itself among its parent's children never fails, and it
    yields, in pre-order and so each once, the entries that the selector accepts,
    under the prefix, all of whose ancestors from the prefix down have their
    children visited. *)
Theorem name_tree_partial_enumerate prefix sel t : nt_inv t -> gen_name prefix ->
  exists l, partialEnumerate prefix sel t = Ok l /\ pre_ordered l /\ NoDup l /\
    forall e, e ∈ l <-> reached sel prefix t e /\ (sel e).1 = true.
Proof.
  intros Ht Hn. destruct (partialEnumerate_spec prefix sel t Ht Hn) as (l&?&Hs&?). exists l. split_and!; [done|done| |done].
  by apply pre_ordered_nodup.
Qed.
End Enumerate.

Module EnumerateSamples.
#[local] Existing Instance Samples.SampleHash.
#[local] Existing Instance Samples.SamplePayload.
Import Samples.

(** [/a/b] and [/a/a] under [/a]; below [/a/b] nothing is visited. *)
Definition tree4 : NameTree (option Z) := attach (nab ++ [generic [99]]) 4 (attach naa 3 tree2).
Definition not_below_ab (e : NtEntry (option Z)) : bool * bool := (true, negb (bool_decide (nte_prefix e = nab))).

Lemma inv_tree4 : nt_inv tree4.
Proof. apply inv_attach; [apply inv_attach; [apply inv_tree2|by_decide|by vm_compute]|by_decide|by vm_compute]. Qed.

Lemma name_tree_partial_enumerate_witness :
  (exists l, partialEnumerate na not_below_ab tree4 = Ok l /\ pre_ordered l) /\
  match partialEnumerate na not_below_ab tree4 with
  | Ok l => map nte_prefix l = [na; nab; naa]
  | Err _ => False
  end.
Proof.
  split; [|by vm_compute]. destruct (name_tree_partial_enumerate na not_below_ab tree4 inv_tree4) as (l&Hl&Ho&_); [by_decide|].
  exists l. exact (conj Hl Ho).
Defined.
End EnumerateSamples.
