(* ===== verification/FibEntry.v ===== *)
(** * FIB entries and the region table: [NFD/daemon/table/fib-nexthop.cpp],
    [fib-entry.cpp], [network-region-table.cpp]

    A face is the address of the [Face] object, a number.  [std::sort] leaves
    the order of next hops of the same cost open: it is an interface with the
    two properties the standard promises, and insertion sort is an instance. *)

From S2P Require Import Prelude StdMap Tlv Block Encoder NameComponent Name Exclude Packet CsEntry.

(** [Face*] *)
Definition FacePtr : Type := Z.

Record NextHop := MkNextHop { nh_face : FacePtr; nh_cost : Z }.

Record FibEntry := MkFibEntry { fe_prefix : Name; fe_nextHops : list NextHop }.

#[global] Instance NextHop_eq_dec : EqDecision NextHop.
Proof. solve_decision. Defined.

(** [std::sort] of next hops with the comparison of costs. *)
Class StdSort := {
  std_sort : list NextHop -> list NextHop;
  std_sort_perm l : std_sort l ≡ₚ l;
  std_sort_sorted l : Sorted (fun a b => nh_cost a <= nh_cost b) (std_sort l)
}.

Section FibEntry.
Context `{StdSort}.

Definition FibEntry_new (prefix : Name) : FibEntry := MkFibEntry prefix [].

(** [std::find_if]: the position, [None] for [end()]. *)
Fixpoint findNextHop_in (face : FacePtr) (l : list NextHop) : option nat :=
  match l with
  | [] => None
  | h :: l' => if nh_face h =? face then Some 0%nat else S <$> findNextHop_in face l'
  end.

Definition findNextHop (face : FacePtr) (e : FibEntry) : option nat := findNextHop_in face (fe_nextHops e).

Definition hasNextHops (e : FibEntry) : bool := match fe_nextHops e with [] => false | _ => true end.
Definition hasNextHop (face : FacePtr) (e : FibEntry) : bool :=
  match findNextHop face e with Some _ => true | None => false end.

Definition setCost (cost : Z) (h : NextHop) : NextHop := MkNextHop (nh_face h) cost.

Definition sortNextHops (e : FibEntry) : FibEntry := MkFibEntry (fe_prefix e) (std_sort (fe_nextHops e)).

Definition addNextHop (face : FacePtr) (cost : Z) (e : FibEntry) : FibEntry :=
  let '(it, l) :=
    match findNextHop face e with
    | Some it => (it, fe_nextHops e)
    | None => (length (fe_nextHops e), fe_nextHops e ++ [MkNextHop face 0])
    end in
  sortNextHops (MkFibEntry (fe_prefix e) (alter (setCost cost) it l)).

Definition removeNextHop (face : FacePtr) (e : FibEntry) : FibEntry :=
  match findNextHop face e with
  | Some it => MkFibEntry (fe_prefix e) (delete it (fe_nextHops e))
  | None => e
  end.

(** [NetworkRegionTable::isInProducerRegion]; the table is a set of names,
    the link is the list of its delegations. *)
Definition isInProducerRegion (table : list Name) (delegations : list (Z * Name)) : bool :=
  existsb (fun regionName => existsb (fun d : Z * Name => isPrefixOf d.2 regionName) delegations) table.
End FibEntry.

(** ** What a FIB entry promises: a map from faces to costs, in order of cost *)

Section Facts.
Context `{StdSort}.
Implicit Types (e : FibEntry) (l : list NextHop).

Record wf_fib e : Prop := {
  fib_faces : NoDup (map nh_face (fe_nextHops e));
  fib_sorted : Sorted (fun a b => nh_cost a <= nh_cost b) (fe_nextHops e)
}.

Definition cost_in (face : FacePtr) l : option Z :=
  nh_cost <$> List.find (fun h => nh_face h =? face) l.
Definition cost_of (face : FacePtr) e : option Z := cost_in face (fe_nextHops e).

Lemma face_in g c l : MkNextHop g c ∈ l -> g ∈ map nh_face l.
Proof. intros Hl. apply list_elem_of_fmap. by exists (MkNextHop g c). Qed.

Lemma alter_middle {A} (f : A -> A) (l1 : list A) h (l2 : list A) : alter f (length l1) (l1 ++ h :: l2) = l1 ++ f h :: l2.
Proof. induction l1 as [|x l1 IH]; [done|]. simpl. f_equal. exact IH. Qed.

Lemma strongly_delete {A} (R : A -> A -> Prop) (l1 : list A) h (l2 : list A) :
  StronglySorted R (l1 ++ h :: l2) -> StronglySorted R (l1 ++ l2).
Proof.
  induction l1 as [|x l1 IH]; intros Hs; apply StronglySorted_inv in Hs as [Hs Hx]; [done|].
  constructor; [by apply IH|]. apply Forall_app in Hx as [? [_ ?]%Forall_cons]. by apply Forall_app.
Qed.

Lemma cost_in_iff face l c : NoDup (map nh_face l) -> cost_in face l = Some c <-> MkNextHop face c ∈ l.
Proof.
  unfold cost_in. induction l as [|h l IH]; intros Hnd; cbn [List.find].
  - split; [done|]. by intros ?%elem_of_nil.
  - cbn [map] in Hnd. apply NoDup_cons in Hnd as [Hh Hnd]. destruct (Z.eqb_spec (nh_face h) face) as [<-|Hne].
    + simpl. split; [intros [= <-]; destruct h; left|]. intros [<-|Hl]%elem_of_cons; [done|].
      destruct Hh. by eapply face_in.
    + rewrite IH by done. rewrite elem_of_cons. split; [by right|]. by intros [<-|?].
Qed.

Lemma cost_in_perm face l l' : NoDup (map nh_face l) -> l' ≡ₚ l -> cost_in face l' = cost_in face l.
Proof.
  intros Hnd HP. apply option_eq. intros c. rewrite !cost_in_iff; [by rewrite HP|done|by rewrite HP].
Qed.

Lemma findNextHop_Some face l it : findNextHop_in face l = Some it ->
  exists l1 h l2, l = l1 ++ h :: l2 /\ length l1 = it /\ nh_face h = face.
Proof.
  revert it. induction l as [|h l IH]; intros it Hf; [done|]. simpl in Hf.
  destruct (Z.eqb_spec (nh_face h) face) as [Hh|].
  - injection Hf as <-. by exists [], h, l.
  - apply fmap_Some in Hf as (i&Hi&->). destruct (IH i Hi) as (l1&h'&l2&->&<-&?). by exists (h :: l1), h', l2.
Qed.

Lemma findNextHop_None face l : findNextHop_in face l = None <-> face ∉ map nh_face l.
Proof.
  induction l as [|h l IH]; [split; [intros _ ?%elem_of_nil; done|done]|]. simpl. rewrite not_elem_of_cons.
  destruct (Z.eqb_spec (nh_face h) face) as [->|Hne]; [naive_solver|]. rewrite fmap_None, IH. naive_solver.
Qed.

(** The next hops before the sort: the one of the face has the cost, the
    others are as they were. *)
Lemma add_unsorted face cost e : NoDup (map nh_face (fe_nextHops e)) -> exists l,
  addNextHop face cost e = sortNextHops (MkFibEntry (fe_prefix e) l) /\ NoDup (map nh_face l) /\
  forall g c, MkNextHop g c ∈ l <-> (g = face /\ c = cost) \/ (g <> face /\ MkNextHop g c ∈ fe_nextHops e).
Proof.
  intros Hnd. unfold addNextHop, findNextHop. destruct (findNextHop_in face (fe_nextHops e)) as [it|] eqn:Hf.
  - apply findNextHop_Some in Hf as (l1&h&l2&Hl&<-&Hh). eexists. split; [done|]. rewrite Hl in *.
    rewrite alter_middle.
    unfold setCost. rewrite Hh. rewrite map_app in *. simpl in *. rewrite Hh in Hnd. split; [done|].
    apply NoDup_app in Hnd as (_&Hd&[Hn _]%NoDup_cons).
    intros g c. rewrite !elem_of_app, !elem_of_cons. split.
    + intros [Hg|[[= -> ->]|Hg]]; [right|by left|right].
      * split; [|by left]. intros ->. destruct (Hd face); [by eapply face_in|left].
      * split; [|by right; right]. intros ->. destruct Hn. by eapply face_in.
    + intros [[-> ->]|[Hne [?|[<-|?]]]]; [right; by left|by left|done|right; by right].
  - apply findNextHop_None in Hf. eexists. split; [done|].
    rewrite alter_middle.
    unfold setCost. simpl. rewrite map_app. simpl. split.
    + apply NoDup_app. split_and!; [done| |apply NoDup_singleton]. by intros x Hx ->%list_elem_of_singleton.
    + intros g c. rewrite elem_of_app, list_elem_of_singleton. split.
      * intros [Hg|[= -> ->]]; [right|by left]. split; [|done]. intros ->. destruct Hf. by eapply face_in.
      * intros [[-> ->]|[_ ?]]; [by right|by left].
Qed.

Lemma wf_add face cost e : wf_fib e -> wf_fib (addNextHop face cost e) /\
  forall g, cost_of g (addNextHop face cost e) = if bool_decide (g = face) then Some cost else cost_of g e.
Proof.
  intros [Hnd Hs]. destruct (add_unsorted face cost e Hnd) as (l&->&Hndl&Hl).
  assert (Hnd' : NoDup (map nh_face (std_sort l))) by (by rewrite std_sort_perm).
  split; [split; [done|apply std_sort_sorted]|]. intros g. apply option_eq. intros c.
  unfold cost_of at 1. simpl. rewrite (cost_in_perm g l) by (done || apply std_sort_perm).
  rewrite cost_in_iff, Hl by done. case_bool_decide as Hg.
  - split; [by intros [[_ ->]|[? _]]|]. intros [= <-]. by left.
  - unfold cost_of. rewrite cost_in_iff by done. naive_solver.
Qed.

Lemma wf_remove face e : wf_fib e -> wf_fib (removeNextHop face e) /\
  forall g, cost_of g (removeNextHop face e) = if bool_decide (g = face) then None else cost_of g e.
Proof.
  intros [Hnd Hs]. unfold removeNextHop, findNextHop. destruct (findNextHop_in face (fe_nextHops e)) as [it|] eqn:Hf.
  - apply findNextHop_Some in Hf as (l1&h&l2&Hl&<-&Hh). rewrite Hl in *. rewrite delete_middle.
    rewrite map_app in Hnd. simpl in Hnd.
    assert (Hnd' : NoDup (map nh_face (l1 ++ l2))).
    { rewrite map_app. rewrite <- Permutation_middle in Hnd. by apply NoDup_cons in Hnd as [_ ?]. }
    split.
    { split; [done|]. apply StronglySorted_Sorted. apply Sorted_StronglySorted in Hs; [|intros ???; lia].
      by eapply strongly_delete. }
    intros g. apply option_eq. intros c. unfold cost_of. simpl. rewrite cost_in_iff by done. case_bool_decide as Hg.
    + split; [|done]. intros Hin. subst g. rewrite <- Permutation_middle in Hnd. apply NoDup_cons in Hnd as [Hn _].
      destruct Hn. rewrite Hh, <- map_app. by eapply face_in.
    + rewrite Hl, cost_in_iff by (by rewrite map_app). rewrite !elem_of_app, elem_of_cons. split; [tauto|].
      intros [?|[<-|?]]; [by left|done|by right].
  - split; [by split|]. intros g. case_bool_decide as Hg; [|done]. subst g. apply findNextHop_None in Hf.
    apply option_eq. intros c. unfold cost_of. rewrite cost_in_iff by done. split; [|done]. intros Hin.
    destruct Hf. by eapply face_in.
Qed.

(** A FIB entry is a map from faces to costs: after [addNextHop] the face
    has the new cost and no other face changed, after [removeNextHop] the face
    has none; every face occurs once, in order of cost, after both, whatever
    order the sort gives to equal costs. *)
Theorem fib_entry_nexthops face cost e : wf_fib e ->
  wf_fib (addNextHop face cost e) /\ wf_fib (removeNextHop face e) /\
  (forall g, cost_of g (addNextHop face cost e) = if bool_decide (g = face) then Some cost else cost_of g e) /\
  (forall g, cost_of g (removeNextHop face e) = if bool_decide (g = face) then None else cost_of g e).
Proof. intros Hw. destruct (wf_add face cost e Hw), (wf_remove face e Hw). by split_and!. Qed.
End Facts.

(** ** Insertion sort *)

Module InsertionSort.
Definition cost_le (a b : NextHop) : Prop := nh_cost a <= nh_cost b.
#[local] Instance cost_le_dec a b : Decision (cost_le a b).
Proof. unfold cost_le. apply _. Defined.
#[local] Instance cost_le_total : Total cost_le.
Proof. intros a b. unfold cost_le. lia. Qed.

Definition Sort : StdSort :=
  {| std_sort := merge_sort cost_le;
     std_sort_perm := merge_sort_Permutation cost_le;
     std_sort_sorted := Sorted_merge_sort cost_le |}.

Definition sample : FibEntry := MkFibEntry [] [MkNextHop 1 10; MkNextHop 2 30].

Lemma fib_entry_nexthops_witness :
  cost_of 2 (@addNextHop Sort 2 5 sample) = Some 5 /\ cost_of 1 (@removeNextHop 1 sample) = None /\
  map nh_face (fe_nextHops (@addNextHop Sort 2 5 sample)) = [2; 1].
Proof.
  destruct (@fib_entry_nexthops Sort 2 5 sample) as (_&_&Ha&_).
  { split; [by_decide|]. repeat constructor. simpl. lia. }
  destruct (@fib_entry_nexthops Sort 1 5 sample) as (_&_&_&Hr).
  { split; [by_decide|]. repeat constructor. simpl. lia. }
  split_and!; [apply (Ha 2)|apply (Hr 1)|by vm_compute].
Defined.
End InsertionSort.
