(* ===== verification/PitEntry.v ===== *)
(** * PIT entries: [NFD/daemon/table/pit-face-record.cpp], [pit-in-record.cpp],
    [pit-out-record.cpp], [pit-entry.cpp]

    A record points to its face; what an entry asks of a face (its scope) is
    read through that pointer, so these operations take the function that
    follows it.  Time points are nanoseconds of the steady clock, 64-bit
    signed; a timer of an entry is the time it is scheduled for and the
    arguments of the call. *)

From S2P Require Import Prelude StdMap Tlv Block Encoder NameComponent Name Exclude Packet CsEntry FibEntry.

(** ** Faces *)

Inductive FaceScope := FACE_SCOPE_NON_LOCAL | FACE_SCOPE_LOCAL.
Inductive LinkType := LINK_TYPE_POINT_TO_POINT | LINK_TYPE_MULTI_ACCESS.
#[global] Instance FaceScope_eq_dec : EqDecision FaceScope. Proof. solve_decision. Defined.
#[global] Instance LinkType_eq_dec : EqDecision LinkType. Proof. solve_decision. Defined.

Definition INVALID_FACEID : Z := 0.

Record Face := MkFace { f_id : Z; f_scope : FaceScope; f_linkType : LinkType }.

Inductive NackReason := NACK_NONE | NACK_CONGESTION | NACK_DUPLICATE | NACK_NO_ROUTE.
#[global] Instance NackReason_eq_dec : EqDecision NackReason. Proof. solve_decision. Defined.
Record NackHeader := MkNackHeader { nk_reason : NackReason }.
Record Nack := MkNack { nack_interest : Interest; nack_header : NackHeader }.

(** ** Time *)

Definition TIME_MIN : Z := - 2 ^ 63.

(** ** Face records *)

(** [fr_strategyInfo]: what strategies place on the record ([FaceRecord] is a
    [StrategyInfoHost]), a map from type identifiers *)
Record FaceRecord := MkFaceRecord {
  fr_face : FacePtr;
  fr_lastNonce : Z;
  fr_lastRenewed : Z;
  fr_expiry : Z;
  fr_strategyInfo : gmap Z Z
}.

Definition FaceRecord_new (face : FacePtr) : FaceRecord := MkFaceRecord face 0 TIME_MIN TIME_MIN ∅.

Definition FaceRecord_update (now : Z) (i : Interest) (r : FaceRecord) : FaceRecord :=
  let lifetime := if i_interestLifetime i <? 0 then DEFAULT_INTEREST_LIFETIME else i_interestLifetime i in
  MkFaceRecord (fr_face r) (i_nonce i) now (to_s64 (now + milliseconds lifetime)) (fr_strategyInfo r).

(** [ir_hasWire]: the Interest still has the wire encoding it was decoded
    from. *)
Record InRecord := MkInRecord { ir_record : FaceRecord; ir_interest : Interest; ir_hasWire : bool }.
Record OutRecord := MkOutRecord { or_record : FaceRecord; or_incomingNack : option NackHeader }.

Definition ir_face (r : InRecord) : FacePtr := fr_face (ir_record r).
Definition or_face (r : OutRecord) : FacePtr := fr_face (or_record r).

Definition InRecord_update (now : Z) (i : Interest) (r : InRecord) : InRecord :=
  MkInRecord (FaceRecord_update now i (ir_record r)) i true.
Definition InRecord_new (now : Z) (face : FacePtr) (i : Interest) : InRecord :=
  InRecord_update now i (MkInRecord (FaceRecord_new face) i true).

(** [FaceRecord::update] of an out-record *)
Definition OutRecord_update (now : Z) (i : Interest) (r : OutRecord) : OutRecord :=
  MkOutRecord (FaceRecord_update now i (or_record r)) (or_incomingNack r).
Definition OutRecord_new (now : Z) (face : FacePtr) (i : Interest) : OutRecord :=
  OutRecord_update now i (MkOutRecord (FaceRecord_new face) None).

Definition setIncomingNack (nack : Nack) (r : OutRecord) : OutRecord * bool :=
  if negb (i_nonce (nack_interest nack) =? fr_lastNonce (or_record r)) then (r, false)
  else (MkOutRecord (or_record r) (Some (nack_header nack)), true).

(** ** The lists of records *)

Section Records.
Context {R : Type} (face_of : R -> FacePtr).

Definition get_record (face : FacePtr) (l : list R) : option R :=
  List.find (fun r => face_of r =? face) l.

(** The first record of the face is changed, or a new one is put in front. *)
Fixpoint update_record (f : R -> R) (face : FacePtr) (l : list R) : list R :=
  match l with
  | [] => []
  | r :: l' => if face_of r =? face then f r :: l' else r :: update_record f face l'
  end.

Definition upsert_record (f : R -> R) (new : R) (face : FacePtr) (l : list R) : list R :=
  match get_record face l with
  | Some _ => update_record f face l
  | None => new :: l
  end.

Fixpoint delete_record (face : FacePtr) (l : list R) : list R :=
  match l with
  | [] => []
  | r :: l' => if face_of r =? face then l' else r :: delete_record face l'
  end.
End Records.

(** ** Entries *)

(** The straggler timer carries the arguments [isSatisfied] and
    [dataFreshnessPeriod] of [onInterestFinalize].  The information that strategies
    place on an entry is a map from type identifiers; the items that the modelled
    strategies place are durations. *)
Record PitEntry := MkPitEntry {
  pe_interest : Interest;
  pe_inRecords : list InRecord;
  pe_outRecords : list OutRecord;
  pe_unsatisfyTimer : option Z;
  pe_stragglerTimer : option (Z * bool * Z);
  pe_strategyInfo : gmap Z Z
}.

Definition PitEntry_new (i : Interest) : PitEntry := MkPitEntry i [] [] None None ∅.

Definition with_inRecords (l : list InRecord) (e : PitEntry) : PitEntry :=
  MkPitEntry (pe_interest e) l (pe_outRecords e) (pe_unsatisfyTimer e) (pe_stragglerTimer e) (pe_strategyInfo e).
Definition with_outRecords (l : list OutRecord) (e : PitEntry) : PitEntry :=
  MkPitEntry (pe_interest e) (pe_inRecords e) l (pe_unsatisfyTimer e) (pe_stragglerTimer e) (pe_strategyInfo e).
Definition with_timers (u : option Z) (s : option (Z * bool * Z)) (e : PitEntry) : PitEntry :=
  MkPitEntry (pe_interest e) (pe_inRecords e) (pe_outRecords e) u s (pe_strategyInfo e).

(** [StrategyInfoHost::getStrategyInfo] and [setStrategyInfo] *)
Definition getStrategyInfo (typeId : Z) (e : PitEntry) : option Z := pe_strategyInfo e !! typeId.
Definition setStrategyInfo (typeId v : Z) (e : PitEntry) : PitEntry :=
  MkPitEntry (pe_interest e) (pe_inRecords e) (pe_outRecords e) (pe_unsatisfyTimer e) (pe_stragglerTimer e) (<[typeId := v]> (pe_strategyInfo e)).

(** [StrategyInfoHost::clearStrategyInfo] of a record *)
Definition FaceRecord_clear (r : FaceRecord) : FaceRecord :=
  MkFaceRecord (fr_face r) (fr_lastNonce r) (fr_lastRenewed r) (fr_expiry r) ∅.
Definition InRecord_clear (r : InRecord) : InRecord := MkInRecord (FaceRecord_clear (ir_record r)) (ir_interest r) (ir_hasWire r).
Definition OutRecord_clear (r : OutRecord) : OutRecord := MkOutRecord (FaceRecord_clear (or_record r)) (or_incomingNack r).

(** [clearStrategyInfo] of the entry, of its in-records and of its out-records *)
Definition clearStrategyInfo (e : PitEntry) : PitEntry :=
  MkPitEntry (pe_interest e) (map InRecord_clear (pe_inRecords e)) (map OutRecord_clear (pe_outRecords e))
    (pe_unsatisfyTimer e) (pe_stragglerTimer e) ∅.

(** [Entry::getName] *)
Definition pe_name (e : PitEntry) : Name := i_name (pe_interest e).

Definition localhost_component : Component := generic [108; 111; 99; 97; 108; 104; 111; 115; 116].
Definition localhop_component : Component := generic [108; 111; 99; 97; 108; 104; 111; 112].
Definition LOCALHOST_NAME : Name := [localhost_component].
Definition LOCALHOP_NAME : Name := [localhop_component].

Definition insertOrUpdateInRecord (now : Z) (face : FacePtr) (i : Interest) (e : PitEntry) : PitEntry :=
  with_inRecords (upsert_record ir_face (InRecord_update now i) (InRecord_new now face i) face (pe_inRecords e)) e.
Definition getInRecord (face : FacePtr) (e : PitEntry) : option InRecord := get_record ir_face face (pe_inRecords e).
Definition deleteInRecord (face : FacePtr) (e : PitEntry) : PitEntry :=
  with_inRecords (delete_record ir_face face (pe_inRecords e)) e.
Definition deleteInRecords (e : PitEntry) : PitEntry := with_inRecords [] e.

Definition insertOrUpdateOutRecord (now : Z) (face : FacePtr) (i : Interest) (e : PitEntry) : PitEntry :=
  with_outRecords (upsert_record or_face (OutRecord_update now i) (OutRecord_new now face i) face (pe_outRecords e)) e.
Definition getOutRecord (face : FacePtr) (e : PitEntry) : option OutRecord := get_record or_face face (pe_outRecords e).
Definition deleteOutRecord (face : FacePtr) (e : PitEntry) : PitEntry :=
  with_outRecords (delete_record or_face face (pe_outRecords e)) e.

Definition hasUnexpiredOutRecords (now : Z) (e : PitEntry) : bool :=
  existsb (fun r => now <=? fr_expiry (or_record r)) (pe_outRecords e).

Definition is_local (f : Face) : bool := bool_decide (f_scope f = FACE_SCOPE_LOCAL).

Section Faces.
(** Following a pointer to a face *)
Context (face_at : FacePtr -> Face).

Definition hasLocalInRecord (e : PitEntry) : bool :=
  existsb (fun r => is_local (face_at (ir_face r))) (pe_inRecords e).

Definition violatesScope (face : FacePtr) (e : PitEntry) : bool :=
  let nonLocal := bool_decide (f_scope (face_at face) = FACE_SCOPE_NON_LOCAL) in
  if nonLocal && isPrefixOf LOCALHOST_NAME (pe_name e) then true
  else if nonLocal && isPrefixOf LOCALHOP_NAME (pe_name e) && negb (hasLocalInRecord e) then true
  else false.

Definition canForwardTo (now : Z) (face : FacePtr) (e : PitEntry) : bool :=
  let hasUnexpiredOutRecord :=
    existsb (fun r => (or_face r =? face) && (now <=? fr_expiry (or_record r))) (pe_outRecords e) in
  if hasUnexpiredOutRecord then false
  else
    let hasUnexpiredOtherInRecord :=
      existsb (fun r => negb (ir_face r =? face) && (now <=? fr_expiry (ir_record r))) (pe_inRecords e) in
    if negb hasUnexpiredOtherInRecord then false
    else negb (violatesScope face e).
End Faces.

(** [DuplicateNonceWhere] *)
Definition DUPLICATE_NONCE_NONE : Z := 0.
Definition DUPLICATE_NONCE_IN_SAME : Z := Z.shiftl 1 0.
Definition DUPLICATE_NONCE_IN_OTHER : Z := Z.shiftl 1 1.
Definition DUPLICATE_NONCE_OUT_SAME : Z := Z.shiftl 1 2.
Definition DUPLICATE_NONCE_OUT_OTHER : Z := Z.shiftl 1 3.

Definition findNonce (nonce : Z) (face : FacePtr) (e : PitEntry) : Z :=
  let step (same other : Z) (dnw : Z) (r : FaceRecord) :=
    if fr_lastNonce r =? nonce
    then if fr_face r =? face then Z.lor dnw same else Z.lor dnw other
    else dnw in
  let dnw := fold_left (step DUPLICATE_NONCE_IN_SAME DUPLICATE_NONCE_IN_OTHER)
               (map ir_record (pe_inRecords e)) DUPLICATE_NONCE_NONE in
  fold_left (step DUPLICATE_NONCE_OUT_SAME DUPLICATE_NONCE_OUT_OTHER) (map or_record (pe_outRecords e)) dnw.

(** ** At most one record for a face *)

Section RecordFacts.
Context {R : Type} (face_of : R -> FacePtr).
Implicit Types (l : list R).

Definition one_per_face l : Prop := NoDup (map face_of l).

Lemma get_record_face face l r : get_record face_of face l = Some r -> r ∈ l /\ face_of r = face.
Proof. intros [Hin Hf%Z.eqb_eq]%List.find_some. by rewrite list_elem_of_In. Qed.

Lemma get_record_None face l : get_record face_of face l = None <-> face ∉ map face_of l.
Proof.
  unfold get_record. induction l as [|r l IH]; cbn [List.find map]; [split; [intros _ ?%elem_of_nil; done|done]|].
  rewrite not_elem_of_cons. destruct (Z.eqb_spec (face_of r) face) as [->|Hne]; [split; [done|by intros [? _]]|].
  rewrite IH. split; [intros ?; split; [congruence|done]|by intros [_ ?]].
Qed.

Lemma get_record_iff face l r : one_per_face l -> get_record face_of face l = Some r <-> r ∈ l /\ face_of r = face.
Proof.
  intros Hnd. split; [apply get_record_face|]. unfold get_record. induction l as [|x l IH]; cbn [List.find];
    [by intros [?%elem_of_nil _]|]. intros [Hin Hf]. unfold one_per_face in Hnd. cbn [map] in Hnd.
  apply NoDup_cons in Hnd as [Hx Hnd]. apply elem_of_cons in Hin as [->|Hin].
  - by rewrite Hf, Z.eqb_refl.
  - destruct (Z.eqb_spec (face_of x) face) as [Hxf|]; [|by apply IH].
    destruct Hx. rewrite Hxf, <- Hf. apply list_elem_of_fmap. by exists r.
Qed.

Lemma update_record_faces f face l : (forall r, face_of (f r) = face_of r) ->
  map face_of (update_record face_of f face l) = map face_of l.
Proof.
  intros Hf. induction l as [|r l IH]; [done|]. simpl. destruct (face_of r =? face); simpl; rewrite ?Hf; [done|].
  by rewrite IH.
Qed.

Lemma get_update g f face l : (forall r, face_of (f r) = face_of r) ->
  get_record face_of g (update_record face_of f face l) =
    if bool_decide (g = face) then f <$> get_record face_of g l else get_record face_of g l.
Proof.
  intros Hf. unfold get_record. induction l as [|r l IH]; cbn [update_record List.find]; [by case_bool_decide|].
  destruct (Z.eqb_spec (face_of r) face) as [Hr|Hr]; cbn [List.find]; rewrite ?Hf.
  - rewrite Hr. destruct (Z.eqb_spec face g) as [<-|Hg]; [by rewrite bool_decide_true|].
    by rewrite bool_decide_false by congruence.
  - destruct (Z.eqb_spec (face_of r) g) as [<-|Hg]; [by rewrite bool_decide_false|exact IH].
Qed.

Lemma get_upsert g f new face l : (forall r, face_of (f r) = face_of r) -> face_of new = face ->
  get_record face_of g (upsert_record face_of f new face l) =
    if bool_decide (g = face) then Some (from_option f new (get_record face_of face l)) else get_record face_of g l.
Proof.
  intros Hf Hn. unfold upsert_record. destruct (get_record face_of face l) as [r|] eqn:Hg.
  - rewrite get_update by done. case_bool_decide as Hgf; [|done]. subst g. by rewrite Hg.
  - unfold get_record at 1. cbn [List.find]. rewrite Hn. case_bool_decide as Hgf.
    + subst g. by rewrite Z.eqb_refl.
    + destruct (Z.eqb_spec face g); [congruence|done].
Qed.

Lemma upsert_one f new face l : (forall r, face_of (f r) = face_of r) -> face_of new = face ->
  one_per_face l -> one_per_face (upsert_record face_of f new face l).
Proof.
  intros Hf Hn Hl. unfold upsert_record, one_per_face. destruct (get_record face_of face l) as [r|] eqn:Hg.
  - by rewrite update_record_faces.
  - apply get_record_None in Hg. cbn [map]. apply NoDup_cons. by rewrite Hn.
Qed.

Lemma delete_record_filter face l : one_per_face l ->
  delete_record face_of face l = filter (fun r => face_of r <> face) l.
Proof.
  induction l as [|r l IH]; intros Hnd; [done|]. unfold one_per_face in Hnd. cbn [map] in Hnd.
  apply NoDup_cons in Hnd as [Hr Hnd]. rewrite filter_cons. cbn [delete_record].
  destruct (Z.eqb_spec (face_of r) face) as [<-|Hne]; [rewrite decide_False by tauto|by rewrite decide_True, IH].
  symmetry. clear IH Hnd. induction l as [|x l IH]; [done|]. cbn [map] in Hr. apply not_elem_of_cons in Hr as [Hx Hr].
  rewrite filter_cons, decide_True by congruence. by rewrite IH.
Qed.

Lemma delete_one face l : one_per_face l -> one_per_face (delete_record face_of face l).
Proof.
  intros Hl. rewrite delete_record_filter by done. eapply sublist_NoDup; [exact Hl|]. apply fmap_sublist, sublist_filter.
Qed.

Lemma elem_of_delete face l r : one_per_face l ->
  r ∈ delete_record face_of face l <-> r ∈ l /\ face_of r <> face.
Proof. intros Hl. rewrite delete_record_filter, list_elem_of_filter by done. tauto. Qed.

Lemma get_delete g face l : one_per_face l ->
  get_record face_of g (delete_record face_of face l) =
    if bool_decide (g = face) then None else get_record face_of g l.
Proof.
  intros Hl. apply option_eq. intros r. rewrite get_record_iff by (by apply delete_one).
  rewrite elem_of_delete by done. case_bool_decide as Hg.
  - split; [|done]. intros [[_ ?] ?]. congruence.
  - rewrite get_record_iff by done. split; [tauto|]. intros [? ?]. split_and!; congruence.
Qed.

Lemma elem_of_upsert f new face l r : (forall r, face_of (f r) = face_of r) -> face_of new = face ->
  one_per_face l -> r ∈ upsert_record face_of f new face l <->
    (r ∈ l /\ face_of r <> face) \/ r = from_option f new (get_record face_of face l).
Proof.
  intros Hf Hn Hl. pose proof (upsert_one f new face l Hf Hn Hl) as Hu.
  assert (Hr : r ∈ upsert_record face_of f new face l <-> get_record face_of (face_of r) (upsert_record face_of f new face l) = Some r).
  { rewrite get_record_iff by done. tauto. }
  rewrite Hr, get_upsert by done. case_bool_decide as Hg.
  - split; [intros [= <-]; by right|]. intros [[_ ?]| ->]; [done|done].
  - rewrite get_record_iff by done. split; [intros [? _]; by left|]. intros [[? _]| ->]; [done|].
    destruct Hg. destruct (get_record face_of face l) eqn:He; simpl; [|done]. rewrite Hf. by apply get_record_face in He as [_ ?].
Qed.
End RecordFacts.

Section EntryFacts.
Implicit Types (e : PitEntry).

Record wf_pit e : Prop := {
  pit_in_once : one_per_face ir_face (pe_inRecords e);
  pit_out_once : one_per_face or_face (pe_outRecords e)
}.

Lemma wf_clear e : wf_pit e -> wf_pit (clearStrategyInfo e).
Proof. intros [Hi Ho]. split; unfold one_per_face, clearStrategyInfo; cbn [pe_inRecords pe_outRecords]; by rewrite map_map. Qed.

Lemma clear_idem e : clearStrategyInfo (clearStrategyInfo e) = clearStrategyInfo e.
Proof. unfold clearStrategyInfo. cbn. by rewrite !map_map. Qed.

Lemma wf_pit_new i : wf_pit (PitEntry_new i).
Proof. split; apply NoDup_nil_2. Qed.

Lemma FaceRecord_update_face now i r : fr_face (FaceRecord_update now i r) = fr_face r.
Proof. done. Qed.

Lemma wf_insertIn now face i e : wf_pit e -> wf_pit (insertOrUpdateInRecord now face i e).
Proof. intros [Hi Ho]. split; [by apply upsert_one|done]. Qed.
Lemma wf_insertOut now face i e : wf_pit e -> wf_pit (insertOrUpdateOutRecord now face i e).
Proof. intros [Hi Ho]. split; [done|by apply upsert_one]. Qed.
Lemma wf_deleteIn face e : wf_pit e -> wf_pit (deleteInRecord face e).
Proof. intros [Hi Ho]. split; [by apply delete_one|done]. Qed.
Lemma wf_deleteOut face e : wf_pit e -> wf_pit (deleteOutRecord face e).
Proof. intros [Hi Ho]. split; [done|by apply delete_one]. Qed.
Lemma wf_deleteIns e : wf_pit e -> wf_pit (deleteInRecords e).
Proof. intros [Hi Ho]. split; [apply NoDup_nil_2|done]. Qed.
Lemma wf_timers u s e : wf_pit e -> wf_pit (with_timers u s e).
Proof. intros [Hi Ho]. by split. Qed.

(** The expiry that [update] sets, when it fits the clock. *)
Definition lifetime_of (i : Interest) : Z :=
  if i_interestLifetime i <? 0 then DEFAULT_INTEREST_LIFETIME else i_interestLifetime i.

(** Whatever an entry went through, it has at most one in-record and one
    out-record for a face: [insertOrUpdateInRecord] leaves the record of the
    face with the Interest, its nonce, the current time, the expiry after
    its lifetime (four seconds when it has none) and what strategies had placed on
    it, and every other record as it was; [deleteInRecord] takes out the record of that face and no other; and
    the same of out-records. *)
Theorem pit_entry_records now face i e : wf_pit e ->
  - 2 ^ 63 <= now -> now + milliseconds (lifetime_of i) < 2 ^ 63 ->
  let r := MkFaceRecord face (i_nonce i) now (now + milliseconds (lifetime_of i)) in
  let placed := default ∅ in
  (wf_pit (insertOrUpdateInRecord now face i e) /\ wf_pit (insertOrUpdateOutRecord now face i e) /\
   wf_pit (deleteInRecord face e) /\ wf_pit (deleteOutRecord face e)) /\
  (forall g, getInRecord g (insertOrUpdateInRecord now face i e) =
     if bool_decide (g = face) then Some (MkInRecord (r (placed (fr_strategyInfo ∘ ir_record <$> getInRecord face e))) i true) else getInRecord g e) /\
  (forall g, getInRecord g (deleteInRecord face e) = if bool_decide (g = face) then None else getInRecord g e) /\
  (forall g, getOutRecord g (insertOrUpdateOutRecord now face i e) =
     if bool_decide (g = face)
     then Some (MkOutRecord (r (placed (fr_strategyInfo ∘ or_record <$> getOutRecord face e))) (getOutRecord face e ≫= or_incomingNack)) else getOutRecord g e) /\
  (forall g, getOutRecord g (deleteOutRecord face e) = if bool_decide (g = face) then None else getOutRecord g e).
Proof.
  intros Hw Hlo Hhi r placed. pose proof Hw as [Hi Ho].
  assert (0 <= milliseconds (lifetime_of i)).
  { unfold lifetime_of, milliseconds, DEFAULT_INTEREST_LIFETIME. case_bool; lia. }
  assert (Hr : forall x, fr_face x = face -> FaceRecord_update now i x = r (fr_strategyInfo x)).
  { intros x Hx. unfold FaceRecord_update, r. fold (lifetime_of i). rewrite to_s64_id by lia. by rewrite Hx. }
  split; [split_and!; by auto using wf_insertIn, wf_insertOut, wf_deleteIn, wf_deleteOut|].
  split_and!; intros g.
  - unfold getInRecord, insertOrUpdateInRecord. simpl. rewrite get_upsert by done. case_bool_decide; [|done]. f_equal.
    destruct (get_record ir_face face (pe_inRecords e)) as [x|] eqn:Hx; simpl.
    + apply get_record_face in Hx as [_ Hx]. unfold InRecord_update. by rewrite Hr.
    + unfold InRecord_new, InRecord_update. simpl. by rewrite Hr.
  - by apply get_delete.
  - unfold getOutRecord, insertOrUpdateOutRecord. simpl. rewrite get_upsert by done. case_bool_decide; [|done]. f_equal.
    destruct (get_record or_face face (pe_outRecords e)) as [x|] eqn:Hx; simpl.
    + apply get_record_face in Hx as [_ Hx]. unfold OutRecord_update. by rewrite Hr.
    + unfold OutRecord_new, OutRecord_update. simpl. by rewrite Hr.
  - by apply get_delete.
Qed.

Lemma findNonce_bits same other nonce face k l : forall d,
  Z.testbit (fold_left (fun dnw r => if fr_lastNonce r =? nonce
      then if fr_face r =? face then Z.lor dnw same else Z.lor dnw other else dnw) l d) k =
  Z.testbit d k || existsb (fun r => (fr_lastNonce r =? nonce) &&
      if fr_face r =? face then Z.testbit same k else Z.testbit other k) l.
Proof.
  induction l as [|r l IH]; intros d; cbn [fold_left existsb]; [by rewrite orb_false_r|]. rewrite IH.
  destruct (fr_lastNonce r =? nonce); [|done]. destruct (fr_face r =? face); rewrite Z.lor_spec; by rewrite <- orb_assoc.
Qed.

Lemma existsb_elem {A} (f : A -> bool) l : existsb f l = true <-> exists x, x ∈ l /\ f x = true.
Proof. rewrite existsb_exists. setoid_rewrite list_elem_of_In. done. Qed.

Definition in_nonce nonce face (same : bool) e : Prop :=
  exists r, r ∈ pe_inRecords e /\ fr_lastNonce (ir_record r) = nonce /\ (ir_face r =? face) = same.
Definition out_nonce nonce face (same : bool) e : Prop :=
  exists r, r ∈ pe_outRecords e /\ fr_lastNonce (or_record r) = nonce /\ (or_face r =? face) = same.

Lemma findNonce_testbit nonce face e k :
  Z.testbit (findNonce nonce face e) k =
    existsb (fun r => (fr_lastNonce r =? nonce) &&
      if fr_face r =? face then Z.testbit DUPLICATE_NONCE_IN_SAME k else Z.testbit DUPLICATE_NONCE_IN_OTHER k)
      (map ir_record (pe_inRecords e)) ||
    existsb (fun r => (fr_lastNonce r =? nonce) &&
      if fr_face r =? face then Z.testbit DUPLICATE_NONCE_OUT_SAME k else Z.testbit DUPLICATE_NONCE_OUT_OTHER k)
      (map or_record (pe_outRecords e)).
Proof. unfold findNonce. rewrite !findNonce_bits. unfold DUPLICATE_NONCE_NONE. by rewrite Z.bits_0. Qed.

Lemma existsb_false_map {A} (g : A -> FaceRecord) nonce face l :
  existsb (fun r => (fr_lastNonce r =? nonce) && (if fr_face r =? face then false else false)) (map g l) = false.
Proof. induction l as [|x l IH]; [done|]. simpl. rewrite IH. destruct (_ =? nonce), (_ =? face); done. Qed.

Lemma existsb_same_map {A} (g : A -> FaceRecord) nonce face (same : bool) l :
  existsb (fun r => (fr_lastNonce r =? nonce) && (if fr_face r =? face then same else negb same)) (map g l) = true <->
  exists r, r ∈ l /\ fr_lastNonce (g r) = nonce /\ (fr_face (g r) =? face) = same.
Proof.
  rewrite existsb_elem. split.
  - intros (x&(r&->&Hr)%list_elem_of_fmap&[Hn%Z.eqb_eq Hf]%andb_true_iff). exists r. split_and!; [done|done|].
    destruct (_ =? face), same; done.
  - intros (r&Hr&Hn&Hf). exists (g r). split; [apply list_elem_of_fmap; by exists r|].
    rewrite Hn, Z.eqb_refl, Hf. by destruct same.
Qed.

(** [findNonce] reports where a nonce was seen: each of its four bits is
    set exactly when a record of that list, of the same face or of another,
    has the nonce as its last one, and the result is zero exactly when no
    record has. *)
Theorem pit_findNonce nonce face e :
  (Z.testbit (findNonce nonce face e) 0 = true <-> in_nonce nonce face true e) /\
  (Z.testbit (findNonce nonce face e) 1 = true <-> in_nonce nonce face false e) /\
  (Z.testbit (findNonce nonce face e) 2 = true <-> out_nonce nonce face true e) /\
  (Z.testbit (findNonce nonce face e) 3 = true <-> out_nonce nonce face false e) /\
  (findNonce nonce face e = DUPLICATE_NONCE_NONE <->
     forall same, ~ in_nonce nonce face same e /\ ~ out_nonce nonce face same e).
Proof.
  assert (Hb : (Z.testbit (findNonce nonce face e) 0 = true <-> in_nonce nonce face true e) /\
    (Z.testbit (findNonce nonce face e) 1 = true <-> in_nonce nonce face false e) /\
    (Z.testbit (findNonce nonce face e) 2 = true <-> out_nonce nonce face true e) /\
    (Z.testbit (findNonce nonce face e) 3 = true <-> out_nonce nonce face false e)).
  { split_and!; rewrite findNonce_testbit; cbn -[fold_left existsb map]; rewrite existsb_false_map, ?orb_false_r;
      [apply (existsb_same_map _ _ _ true)|apply (existsb_same_map _ _ _ false)
      |apply (existsb_same_map _ _ _ true)|apply (existsb_same_map _ _ _ false)]. }
  destruct Hb as (H0&H1&H2&H3). split_and!; [done..|]. split.
  - intros Hz same. rewrite Hz in *. unfold DUPLICATE_NONCE_NONE in *. rewrite !Z.bits_0 in *.
    destruct same; split; intros Hin; naive_solver.
  - intros Hno. apply Z.bits_inj_0. intros k. rewrite findNonce_testbit. apply orb_false_iff.
    split; apply not_true_iff_false; intros (x&(r&->&Hr)%list_elem_of_fmap&[Hn%Z.eqb_eq _]%andb_true_iff)%existsb_elem.
    + destruct (Hno (ir_face r =? face)) as [[] _]. by exists r.
    + destruct (Hno (or_face r =? face)) as [_ []]. by exists r.
Qed.

(** [canForwardTo] holds exactly when the face has no unexpired out-record,
    another face has an unexpired in-record, and the scope allows it: a
    [/localhost] Interest goes to local faces only, a [/localhop] Interest to
    non-local faces only when a local face asked for it. *)
Theorem pit_canForwardTo face_at now face e :
  canForwardTo face_at now face e = true <->
    (forall r, r ∈ pe_outRecords e -> or_face r = face -> fr_expiry (or_record r) < now) /\
    (exists r, r ∈ pe_inRecords e /\ ir_face r <> face /\ now <= fr_expiry (ir_record r)) /\
    (f_scope (face_at face) = FACE_SCOPE_NON_LOCAL ->
       isPrefixOf LOCALHOST_NAME (pe_name e) = false /\
       (isPrefixOf LOCALHOP_NAME (pe_name e) = true ->
          exists r, r ∈ pe_inRecords e /\ f_scope (face_at (ir_face r)) = FACE_SCOPE_LOCAL)).
Proof.
  unfold canForwardTo.
  assert (Ho : existsb (fun r => (or_face r =? face) && (now <=? fr_expiry (or_record r))) (pe_outRecords e) = false <->
    forall r, r ∈ pe_outRecords e -> or_face r = face -> fr_expiry (or_record r) < now).
  { rewrite <- not_true_iff_false, existsb_elem. split.
    - intros Hno r Hr Hf. destruct (Z_lt_le_dec (fr_expiry (or_record r)) now); [done|]. destruct Hno. exists r.
      split; [done|]. rewrite Hf, Z.eqb_refl. by apply Z.leb_le.
    - intros Hall (r&Hr&[Hf%Z.eqb_eq Hn%Z.leb_le]%andb_true_iff). specialize (Hall r Hr Hf). lia. }
  assert (Hin : existsb (fun r => negb (ir_face r =? face) && (now <=? fr_expiry (ir_record r))) (pe_inRecords e) = true <->
    exists r, r ∈ pe_inRecords e /\ ir_face r <> face /\ now <= fr_expiry (ir_record r)).
  { rewrite existsb_elem. split; intros (r&Hr&Hx); exists r.
    - apply andb_true_iff in Hx as [Hf%negb_true_iff%Z.eqb_neq Hn%Z.leb_le]. done.
    - split; [done|]. rewrite andb_true_iff, negb_true_iff, Z.eqb_neq, Z.leb_le. done. }
  assert (Hs : violatesScope face_at face e = false <->
    (f_scope (face_at face) = FACE_SCOPE_NON_LOCAL -> isPrefixOf LOCALHOST_NAME (pe_name e) = false /\
       (isPrefixOf LOCALHOP_NAME (pe_name e) = true ->
          exists r, r ∈ pe_inRecords e /\ f_scope (face_at (ir_face r)) = FACE_SCOPE_LOCAL))).
  { unfold violatesScope. assert (Hl : hasLocalInRecord face_at e = true <->
      exists r, r ∈ pe_inRecords e /\ f_scope (face_at (ir_face r)) = FACE_SCOPE_LOCAL).
    { unfold hasLocalInRecord, is_local. rewrite existsb_elem. by setoid_rewrite bool_decide_eq_true. }
    rewrite <- Hl. case_bool_decide as Hn; cbn [andb]; [|done].
    destruct (isPrefixOf LOCALHOST_NAME (pe_name e)), (isPrefixOf LOCALHOP_NAME (pe_name e)), (hasLocalInRecord face_at e);
      cbn [andb negb]; naive_solver. }
  destruct (existsb (fun r => (or_face r =? face) && _) _); [naive_solver|].
  destruct (existsb (fun r => negb (ir_face r =? face) && _) _); cbn [negb]; [|naive_solver].
  rewrite negb_true_iff, Hs. naive_solver.
Qed.
End EntryFacts.

(** An Interest whose lifetime does not fit 64-bit nanoseconds makes a
    record that has expired before it is made: the addition wraps around. *)
Theorem pit_expiry_wraps now i r : 0 <= now -> 0 <= i_interestLifetime i ->
  2 ^ 63 <= now + milliseconds (i_interestLifetime i) < 2 ^ 64 ->
  fr_expiry (FaceRecord_update now i r) < now.
Proof.
  intros Hnow Hl Hb. unfold FaceRecord_update. rewrite (proj2 (Z.ltb_ge _ 0)) by done. cbn [fr_expiry].
  unfold to_s64. rewrite <- (Z_mod_plus_full _ (-1)), Z.mod_small by lia. lia.
Qed.

Module PitSamples.
Definition plain_interest (n : Name) (nonce lifetime : Z) : Interest :=
  MkInterest n Selectors_default nonce lifetime None None None.

Definition entry1 : PitEntry := insertOrUpdateInRecord 1000 1 (plain_interest name_ab 7 4000) (PitEntry_new (plain_interest name_ab 7 4000)).

Lemma pit_entry_records_witness :
  getInRecord 2 (insertOrUpdateInRecord 2000 2 (plain_interest name_ab 8 (-1)) entry1) =
    Some (MkInRecord (MkFaceRecord 2 8 2000 4000002000 ∅) (plain_interest name_ab 8 (-1)) true) /\
  getInRecord 1 (deleteInRecord 2 entry1) = getInRecord 1 entry1.
Proof.
  destruct (pit_entry_records 2000 2 (plain_interest name_ab 8 (-1)) entry1) as (_&Hin&Hdel&_);
    [apply wf_insertIn, wf_pit_new|lia|by vm_compute|].
  split; [apply (Hin 2)|apply (Hdel 1)].
Defined.

Lemma pit_expiry_wraps_witness :
  fr_expiry (FaceRecord_update 1000 (plain_interest name_ab 7 9223372036855) (FaceRecord_new 1)) < 1000.
Proof. apply pit_expiry_wraps; [lia|done|vm_compute; done]. Defined.
End PitSamples.
