(* ===== verification/DeadNonceList.v ===== *)
(** * The dead nonce list: [NFD/daemon/table/dead-nonce-list.cpp]

    A queue of 64-bit hashes of name and nonce, interspersed with marks that
    measure how long entries stay; the capacity follows the number of marks.
    The hash index of the container only speeds up [has] and [countMarks].
    [CityHash64WithSeed] is an interface. *)

From S2P Require Import Prelude StdMap Tlv Block Encoder NameComponent Name Exclude Packet CsEntry.

Class CityHashSeed := {
  cityHash64WithSeed : list Z -> Z -> Z;
  cityHashSeed_range l s : 0 <= cityHash64WithSeed l s < U64
}.

Definition DEFAULT_LIFETIME : Z := milliseconds 6000.
Definition INITIAL_CAPACITY : Z := Z.shiftl 1 7.
Definition MIN_CAPACITY : Z := Z.shiftl 1 3.
Definition MAX_CAPACITY : Z := Z.shiftl 1 24.
Definition MARK : Z := 0.
Definition EXPECTED_MARK_COUNT : nat := 5.
Definition EVICT_LIMIT : Z := Z.shiftl 1 6.

(** [m_actualMarkCounts] is a multiset; only comparisons with its smallest
    and largest elements matter. *)
Record DeadNonceList := MkDnl {
  dnl_lifetime : Z;
  dnl_queue : list Z;
  dnl_capacity : Z;
  dnl_actualMarkCounts : list nat
}.

Section Dnl.
Context `{CityHashSeed}.
Implicit Types (d : DeadNonceList).

Definition DeadNonceList_new (lifetime : Z) : DeadNonceList :=
  MkDnl lifetime (replicate EXPECTED_MARK_COUNT MARK) INITIAL_CAPACITY [].

(** [name.wireEncode()] *)
Definition name_bytes (n : Name) : list Z := tlv_wire TlvType.Name (wires (name_elements n)).

Definition makeEntry (n : Name) (nonce : Z) : Z := cityHash64WithSeed (name_bytes n) nonce.

Definition countMarks d : nat := length (filter (fun x => x = MARK) (dnl_queue d)).
Definition dnl_size d : nat := (length (dnl_queue d) - countMarks d)%nat.

Definition has (n : Name) (nonce : Z) d : bool := bool_decide (makeEntry n nonce ∈ dnl_queue d).

Definition dnl_evictEntries d : DeadNonceList :=
  let nOverCapacity := len (dnl_queue d) - dnl_capacity d in
  if nOverCapacity <=? 0 then d
  else MkDnl (dnl_lifetime d) (drop (Z.to_nat (Z.min nOverCapacity EVICT_LIMIT)) (dnl_queue d))
         (dnl_capacity d) (dnl_actualMarkCounts d).

Definition push_back (x : Z) d : DeadNonceList :=
  MkDnl (dnl_lifetime d) (dnl_queue d ++ [x]) (dnl_capacity d) (dnl_actualMarkCounts d).

Definition dnl_add (n : Name) (nonce : Z) d : DeadNonceList := dnl_evictEntries (push_back (makeEntry n nonce) d).

(** [mark], the callback of a timer *)
Definition mark d : DeadNonceList :=
  let d := push_back MARK d in
  MkDnl (dnl_lifetime d) (dnl_queue d) (dnl_capacity d) (countMarks d :: dnl_actualMarkCounts d).

(** [adjustCapacity], the callback of a timer.  [equal_range] gives
    [second == begin()] when every count is above the expected one, and
    [first == end()] when every one is below.  The products with the doubles
    0.9 and 1.2 are rounded down to integers; for integers up to [MAX_CAPACITY]
    this is the integer division. *)
Definition adjustCapacity d : DeadNonceList :=
  let c := dnl_capacity d in
  let c' :=
    if forallb (fun n => EXPECTED_MARK_COUNT <? n)%nat (dnl_actualMarkCounts d) then Z.max MIN_CAPACITY (c * 9 / 10)
    else if forallb (fun n => n <? EXPECTED_MARK_COUNT)%nat (dnl_actualMarkCounts d) then Z.min MAX_CAPACITY (c * 12 / 10)
    else c in
  dnl_evictEntries (MkDnl (dnl_lifetime d) (dnl_queue d) c' []).
End Dnl.

(** The constants as numbers. *)
Ltac dnl_lia :=
  change MIN_CAPACITY with 8 in *; change MAX_CAPACITY with 16777216 in *;
  change EVICT_LIMIT with 64 in *; lia.

(** ** Runs *)

Inductive dnl_op := DAdd (n : Name) (nonce : Z) | DMark | DAdjust.
#[global] Instance dnl_op_adjust_dec (op : dnl_op) : Decision (op = DAdjust).
Proof. destruct op; (by left) || (by right). Defined.

Section Facts.
Context `{CityHashSeed}.
Implicit Types (d : DeadNonceList).

Definition dnl_exec (op : dnl_op) d : DeadNonceList :=
  match op with DAdd n x => dnl_add n x d | DMark => mark d | DAdjust => adjustCapacity d end.
Definition dnl_run (ops : list dnl_op) d : DeadNonceList := fold_left (fun d op => dnl_exec op d) ops d.

Definition pushes (ops : list dnl_op) : Z := len (filter (fun op => op <> DAdjust) ops).

Definition dnl_inv d : Prop := MIN_CAPACITY <= dnl_capacity d <= MAX_CAPACITY.

Lemma evict_spec d : exists k, dnl_queue (dnl_evictEntries d) = drop k (dnl_queue d) /\
  (k = 0%nat \/ Z.of_nat k <= len (dnl_queue d) - dnl_capacity d) /\ dnl_capacity (dnl_evictEntries d) = dnl_capacity d.
Proof.
  unfold dnl_evictEntries. case_bool; [exists 0%nat; by rewrite drop_0; auto|].
  eexists. split; [done|]. split; [right|done]. dnl_lia.
Qed.

Lemma exec_inv op d : dnl_inv d -> dnl_inv (dnl_exec op d).
Proof.
  unfold dnl_inv. intros Hi. destruct op as [n x| |]; simpl; [|done|].
  - unfold dnl_add. destruct (evict_spec (push_back (makeEntry n x) d)) as (k&_&_&->). done.
  - unfold adjustCapacity. match goal with |- context [dnl_evictEntries ?x] => destruct (evict_spec x) as (k&_&_&->) end.
    simpl. change MIN_CAPACITY with 8 in *. change MAX_CAPACITY with 16777216 in *.
    repeat match goal with |- context [if ?b then _ else _] => destruct b end; try done.
    + split; [lia|]. apply Z.max_lub; [lia|]. apply Z.div_le_upper_bound; lia.
    + split; [|lia]. apply Z.min_glb; [lia|]. apply Z.div_le_lower_bound; lia.
Qed.

(** The entry is in the queue with at most [j] entries behind it. *)
Definition within (x : Z) (j : Z) d : Prop := exists l1 l2, dnl_queue d = l1 ++ x :: l2 /\ len l2 <= j.

Lemma within_elem x j d : within x j d -> x ∈ dnl_queue d.
Proof. intros (l1&l2&->&_). apply elem_of_app. right. left. Qed.

Lemma within_push x j y d : within x j d -> within x (j + 1) (push_back y d).
Proof.
  intros (l1&l2&Hq&Hj). exists l1, (l2 ++ [y]). simpl. rewrite Hq, <- app_assoc. split; [done|].
  rewrite len_app. change (len [y]) with 1. lia.
Qed.

Lemma within_evict x j d : j < dnl_capacity d -> within x j d -> within x j (dnl_evictEntries d).
Proof.
  intros Hc (l1&l2&Hq&Hj). destruct (evict_spec d) as (k&Hd&Hk&_).
  exists (drop k l1), l2. rewrite Hd, Hq. split; [|done]. apply drop_app_le.
  destruct Hk as [->|Hk]; [lia|]. rewrite Hq, len_app, len_cons in Hk. unfold len in *. lia.
Qed.

Lemma within_exec x j c op d : c <= dnl_capacity (dnl_exec op d) -> j + pushes [op] < c ->
  within x j d -> within x (j + pushes [op]) (dnl_exec op d).
Proof.
  destruct op as [n y| |]; intros Hc Hj Hw.
  - change (pushes [DAdd n y]) with 1 in *. cbn [dnl_exec] in *. unfold dnl_add in *.
    apply within_evict; [|by apply within_push].
    destruct (evict_spec (push_back (makeEntry n y) d)) as (k&_&_&Hk). rewrite Hk in Hc. lia.
  - change (pushes [DMark]) with 1 in *. cbn [dnl_exec] in *. unfold mark. by apply within_push.
  - change (pushes [DAdjust]) with 0 in *. cbn [dnl_exec] in *. unfold adjustCapacity in *.
    match goal with |- context [dnl_evictEntries ?x] => destruct (evict_spec x) as (k&_&_&Hk) end.
    rewrite Hk in Hc. apply within_evict; [lia|]. destruct Hw as (l1&l2&?&?). exists l1, l2. split; [done|lia].
Qed.

Lemma pushes_cons op ops : pushes (op :: ops) = pushes [op] + pushes ops.
Proof.
  unfold pushes. rewrite !filter_cons, filter_nil. case_decide; rewrite ?len_cons, ?len_nil; lia.
Qed.

Lemma pushes_nonneg ops : 0 <= pushes ops.
Proof. apply len_nonneg. Qed.

Lemma within_run x ops : forall j d, (forall k, MIN_CAPACITY <= dnl_capacity (dnl_run (take k ops) d)) ->
  j + pushes ops < MIN_CAPACITY -> within x j d -> x ∈ dnl_queue (dnl_run ops d).
Proof.
  induction ops as [|op ops IH]; intros j d Hc Hj Hw; [by eapply within_elem|].
  rewrite pushes_cons in Hj. pose proof (pushes_nonneg ops). apply (IH (j + pushes [op]) (dnl_exec op d)); [|lia|].
  - intros k. apply (Hc (S k)).
  - apply within_exec with MIN_CAPACITY; [apply (Hc 1%nat)|lia|done].
Qed.

Lemma run_inv ops d : dnl_inv d -> dnl_inv (dnl_run ops d).
Proof. revert d. induction ops as [|op ops IH]; intros d Hd; [done|]. by apply IH, exec_inv. Qed.

(** Without [adjustCapacity] the capacity stays. *)
Lemma within_run_fixed x ops : forall j d, Forall (fun op => op <> DAdjust) ops ->
  j + len ops < dnl_capacity d -> within x j d -> x ∈ dnl_queue (dnl_run ops d).
Proof.
  induction ops as [|op ops IH]; intros j d Hno Hj Hw; [by eapply within_elem|].
  apply Forall_cons in Hno as [Hop Hno]. rewrite len_cons in Hj. pose proof (len_nonneg ops).
  assert (Hcap : dnl_capacity (dnl_exec op d) = dnl_capacity d).
  { destruct op as [n y| |]; [|done|done]. simpl. unfold dnl_add. by destruct (evict_spec (push_back (makeEntry n y) d)) as (k&_&_&->). }
  assert (Hp : pushes [op] = 1) by (unfold pushes; by rewrite filter_cons, decide_True).
  apply (IH (j + 1) (dnl_exec op d)); [done|lia|]. rewrite <- Hp.
  apply within_exec with (dnl_capacity d); [lia|lia|done].
Qed.

Lemma within_added n nonce d : dnl_inv d -> within (makeEntry n nonce) 0 (dnl_add n nonce d).
Proof.
  intros [Hmin _]. unfold dnl_add. apply within_evict; [cbn [push_back dnl_capacity]; dnl_lia|].
  by exists (dnl_queue d), [].
Qed.

(** C35. A recorded nonce is found again: through any sequence of additions,
    marks and capacity adjustments with fewer than [MIN_CAPACITY] additions
    and marks, and, while the capacity is not adjusted, with fewer than the
    capacity; eviction takes the oldest entries first. *)
Theorem dnl_finds_recent n nonce ops d : dnl_inv d ->
  (pushes ops < MIN_CAPACITY -> has n nonce (dnl_run ops (dnl_add n nonce d)) = true) /\
  (Forall (fun op => op <> DAdjust) ops -> len ops < dnl_capacity d ->
   has n nonce (dnl_run ops (dnl_add n nonce d)) = true).
Proof.
  intros Hi. pose proof (within_added n nonce d Hi) as Hw. split.
  - intros Hp. apply bool_decide_eq_true. apply (within_run _ ops 0); [|lia|done].
    intros k. apply run_inv. by apply (exec_inv (DAdd n nonce)).
  - intros Hno Hl. apply bool_decide_eq_true. apply (within_run_fixed _ ops 0); [done| |done].
    unfold dnl_add. destruct (evict_spec (push_back (makeEntry n nonce) d)) as (k&_&_&->). simpl. lia.
Qed.

(** C36. The capacity stays between [MIN_CAPACITY] and [MAX_CAPACITY]
    whatever happens; an adjustment moves it towards the expected number of
    marks (strictly, unless a bound is reached) and forgets the counts; and
    eviction never takes the queue below the capacity. *)
Theorem dnl_capacity_control ops lifetime :
  let d := dnl_run ops (DeadNonceList_new lifetime) in
  MIN_CAPACITY <= dnl_capacity d <= MAX_CAPACITY /\
  dnl_actualMarkCounts (adjustCapacity d) = [] /\
  (Forall (fun n => EXPECTED_MARK_COUNT < n)%nat (dnl_actualMarkCounts d) ->
     dnl_capacity (adjustCapacity d) < dnl_capacity d \/ dnl_capacity (adjustCapacity d) = MIN_CAPACITY) /\
  (Forall (fun n => n < EXPECTED_MARK_COUNT)%nat (dnl_actualMarkCounts d) -> dnl_actualMarkCounts d <> [] ->
     dnl_capacity d < dnl_capacity (adjustCapacity d) \/ dnl_capacity (adjustCapacity d) = MAX_CAPACITY) /\
  (dnl_capacity d < len (dnl_queue d) -> dnl_capacity d <= len (dnl_queue (dnl_evictEntries d)) < len (dnl_queue d)).
Proof.
  intros d. assert (Hi : dnl_inv d) by (apply run_inv; done). pose proof Hi as [Hmin Hmax].
  assert (Ha : dnl_actualMarkCounts (adjustCapacity d) = []).
  { unfold adjustCapacity, dnl_evictEntries. by case_bool. }
  assert (Hc : dnl_capacity (adjustCapacity d) =
    if forallb (fun n => EXPECTED_MARK_COUNT <? n)%nat (dnl_actualMarkCounts d) then Z.max MIN_CAPACITY (dnl_capacity d * 9 / 10)
    else if forallb (fun n => n <? EXPECTED_MARK_COUNT)%nat (dnl_actualMarkCounts d) then Z.min MAX_CAPACITY (dnl_capacity d * 12 / 10)
    else dnl_capacity d).
  { unfold adjustCapacity. match goal with |- context [dnl_evictEntries ?x] => destruct (evict_spec x) as (k&_&_&->) end. done. }
  assert (Hdn : dnl_capacity d * 9 / 10 < dnl_capacity d).
  { change MIN_CAPACITY with 8 in Hmin. apply Z.div_lt_upper_bound; lia. }
  assert (Hup : dnl_capacity d < dnl_capacity d * 12 / 10).
  { change MIN_CAPACITY with 8 in Hmin. assert (dnl_capacity d + 1 <= dnl_capacity d * 12 / 10); [|lia].
    apply Z.div_le_lower_bound; lia. }
  split_and!; [done|done|done| | |].
  - intros Hall. rewrite Hc. rewrite (proj2 (forallb_forall _ _)); [lia|].
    intros x Hx%list_elem_of_In. apply Nat.ltb_lt. rewrite Forall_forall in Hall. by apply Hall.
  - intros Hall Hne. rewrite Hc. destruct (dnl_actualMarkCounts d) as [|x l] eqn:E; [done|].
    apply Forall_cons in Hall as [Hx Hall]. cbn [forallb]. rewrite (proj2 (Nat.ltb_ge _ x)) by lia. cbn [andb].
    rewrite (proj2 (Nat.ltb_lt x _)) by done. cbn [andb]. rewrite (proj2 (forallb_forall _ l)); [lia|].
    intros y Hy%list_elem_of_In. apply Nat.ltb_lt. rewrite Forall_forall in Hall. by apply Hall.
  - intros Hover. unfold dnl_evictEntries. case_bool; [lia|]. simpl. unfold len. rewrite length_drop.
    unfold len in *. dnl_lia.
Qed.
End Facts.

Module DnlSamples.
Definition sample_seed (l : list Z) (s : Z) : Z := (fold_left (fun h b => h * 257 + b) l (s + 1)) mod U64.
Lemma sample_seed_range l s : 0 <= sample_seed l s < U64.
Proof. by apply Z.mod_pos_bound. Qed.
Definition SeedHash : CityHashSeed := {| cityHash64WithSeed := sample_seed; cityHashSeed_range := sample_seed_range |}.
#[local] Existing Instance SeedHash.

Definition dnl0 : DeadNonceList := DeadNonceList_new DEFAULT_LIFETIME.
Definition ops0 : list dnl_op := [DMark; DAdd [] 5; DAdjust; DMark].

Lemma dnl_finds_recent_witness : has name_ab 7 (dnl_run ops0 (dnl_add name_ab 7 dnl0)) = true.
Proof.
  destruct (dnl_finds_recent name_ab 7 ops0 dnl0) as [Hr _]; [split; by vm_compute|].
  apply Hr. by vm_compute.
Defined.
End DnlSamples.
