(* ===== verification/City.v ===== *)
(** * CityHash: [NFD/core/city-hash.cpp], and the hash functions of the tables

    The functions of the source over a buffer: a read is checked against the
    buffer, and every operation of C is written at its width.  They implement the
    interfaces [CityHash] of [NameTree] (the 64-bit or the 32-bit function,
    whichever the width of [size_t] chooses) and [CityHashSeed] of
    [DeadNonceList].  The machine is little-endian. *)

From S2P Require Import Prelude StdMap Tlv Block Encoder NameComponent Name Exclude Packet CsEntry CsPolicy Elements NameTree DeadNonceList.

Declare Scope city_scope.
Open Scope city_scope.

(** Arithmetic of [uint64] and of [uint32] *)
Notation "a +! b" := (to_u64 (a + b)) (at level 50, left associativity) : city_scope.
Notation "a -! b" := (to_u64 (a - b)) (at level 50, left associativity) : city_scope.
Notation "a *! b" := (to_u64 (a * b)) (at level 40, left associativity) : city_scope.
Notation "a +~ b" := (to_u32 (a + b)) (at level 50, left associativity) : city_scope.
Notation "a *~ b" := (to_u32 (a * b)) (at level 40, left associativity) : city_scope.
Notation "a ^! b" := (Z.lxor a b) (at level 52, left associativity) : city_scope.

(** [Fetch64] and [Fetch32] at the position [p] of the buffer [s] *)
Definition fetch (n : nat) (s : list Z) (p : Z) : result Z :=
  if (0 <=? p) && (p + Z.of_nat n <=? len s) then Ok (be_decode (rev (slice (Z.to_nat p) (Z.to_nat p + n) s))) else Err OutOfRange.
Definition Fetch64 (s : list Z) (p : Z) : result Z := fetch 8 s p.
Definition Fetch32 (s : list Z) (p : Z) : result Z := fetch 4 s p.
Definition bswap_64 (x : Z) : Z := be_decode (rev (be_encode 8 x)).
Definition bswap_32 (x : Z) : Z := be_decode (rev (be_encode 4 x)).

(** A read of one byte, unsigned and signed *)
Definition byte_at (s : list Z) (p : Z) : result Z :=
  match s !! Z.to_nat p with Some b => if 0 <=? p then Ok b else Err OutOfRange | None => Err OutOfRange end.
Definition signed_char (b : Z) : Z := if 128 <=? b then b - 256 else b.

Definition k0 : Z := 0xc3a5c85c97cb3127.
Definition k1 : Z := 0xb492b66fbe98f273.
Definition k2 : Z := 0x9ae16a3b2f90404f.
Definition c1 : Z := 0xcc9e2d51.
Definition c2 : Z := 0x1b873593.
Definition kMul : Z := 0x9ddfea08eb382d69.

(** ** 32 bits *)

Definition fmix (h : Z) : Z :=
  let h := h ^! Z.shiftr h 16 in
  let h := h *~ 0x85ebca6b in
  let h := h ^! Z.shiftr h 13 in
  let h := h *~ 0xc2b2ae35 in
  h ^! Z.shiftr h 16.

Definition Rotate32 (val shift : Z) : Z :=
  if shift =? 0 then val else Z.lor (Z.shiftr val shift) (to_u32 (Z.shiftl val (32 - shift))).

Definition Mur (a h : Z) : Z :=
  let a := a *~ c1 in
  let a := Rotate32 a 17 in
  let a := a *~ c2 in
  let h := h ^! a in
  let h := Rotate32 h 19 in
  h *~ 5 +~ 0xe6546b64.

Definition Hash32Len13to24 (s : list Z) : result Z :=
  let! a := Fetch32 s (Z.shiftr (len s) 1 - 4) in
  let! b := Fetch32 s 4 in
  let! c := Fetch32 s (len s - 8) in
  let! d := Fetch32 s (Z.shiftr (len s) 1) in
  let! e := Fetch32 s 0 in
  let! f := Fetch32 s (len s - 4) in
  let h := to_u32 (len s) in
  Ok (fmix (Mur f (Mur e (Mur d (Mur c (Mur b (Mur a h))))))).

Definition Hash32Len0to4 (s : list Z) : Z :=
  let '(b, c) := fold_left (fun '(b, c) v => let b := b *~ c1 +~ signed_char v in (b, c ^! b)) s (0, 9) in
  fmix (Mur b (Mur (to_u32 (len s)) c)).

Definition Hash32Len5to12 (s : list Z) : result Z :=
  let a := to_u32 (len s) in
  let b := to_u32 (len s * 5) in
  let c := 9 in
  let d := b in
  let! x := Fetch32 s 0 in
  let a := a +~ x in
  let! x := Fetch32 s (len s - 4) in
  let b := b +~ x in
  let! x := Fetch32 s (Z.land (Z.shiftr (len s) 1) 4) in
  let c := c +~ x in
  Ok (fmix (Mur c (Mur b (Mur a d)))).

(** The five words that are mixed in before the loop, and in it *)
Definition mixed32 (s : list Z) (p : Z) : result Z :=
  let! x := Fetch32 s p in Ok (Rotate32 (x *~ c1) 17 *~ c2).
Definition step32 (r h : Z) : Z := Rotate32 h r *~ 5 +~ 0xe6546b64.

(** One pass over 20 bytes; the last three assignments are [PERMUTE3(f, h, g)]. *)
Definition pass32 (s : list Z) (p : Z) (st : Z * Z * Z) : result (Z * Z * Z) :=
  let '(f, g, h) := st in
  let! a0 := mixed32 s p in
  let! a1 := Fetch32 s (p + 4) in
  let! a2 := mixed32 s (p + 8) in
  let! a3 := mixed32 s (p + 12) in
  let! a4 := Fetch32 s (p + 16) in
  let h := step32 18 (h ^! a0) in
  let f := Rotate32 (f +~ a1) 19 *~ c1 in
  let g := step32 18 (g +~ a2) in
  let h := step32 19 (h ^! (a3 +~ a1)) in
  let g := g ^! a4 in
  let g := bswap_32 g *~ 5 in
  let h := bswap_32 (h +~ a4 *~ 5) in
  let f := f +~ a0 in
  let '(f, h) := (h, f) in
  let '(f, g) := (g, f) in
  Ok (f, g, h).

Fixpoint passes32 (iters : nat) (s : list Z) (p : Z) (st : Z * Z * Z) : result (Z * Z * Z) :=
  match iters with
  | O => Ok st
  | S iters => let! st := pass32 s p st in passes32 iters s (p + 20) st
  end.

Definition CityHash32 (s : list Z) : result Z :=
  let n := len s in
  if n <=? 24 then
    if n <=? 12 then if n <=? 4 then Ok (Hash32Len0to4 s) else Hash32Len5to12 s
    else Hash32Len13to24 s
  else
    let h := to_u32 n in
    let g := to_u32 (c1 * n) in
    let f := g in
    let! a0 := mixed32 s (n - 4) in
    let! a1 := mixed32 s (n - 8) in
    let! a2 := mixed32 s (n - 16) in
    let! a3 := mixed32 s (n - 12) in
    let! a4 := mixed32 s (n - 20) in
    let h := step32 19 (h ^! a0) in
    let h := step32 19 (h ^! a2) in
    let g := step32 19 (g ^! a1) in
    let g := step32 19 (g ^! a3) in
    let f := step32 19 (f +~ a4) in
    let iters := (n - 1) / 20 in
    let! st := passes32 (Z.to_nat iters) s 0 (f, g, h) in
    let '(f, g, h) := st in
    let g := Rotate32 g 11 *~ c1 in
    let g := Rotate32 g 17 *~ c1 in
    let f := Rotate32 f 11 *~ c1 in
    let f := Rotate32 f 17 *~ c1 in
    let h := Rotate32 (h +~ g) 19 in
    let h := h *~ 5 +~ 0xe6546b64 in
    let h := Rotate32 h 17 *~ c1 in
    let h := Rotate32 (h +~ f) 19 in
    let h := h *~ 5 +~ 0xe6546b64 in
    Ok (Rotate32 h 17 *~ c1).

(** ** 64 bits *)

Definition Rotate (val shift : Z) : Z :=
  if shift =? 0 then val else Z.lor (Z.shiftr val shift) (to_u64 (Z.shiftl val (64 - shift))).

Definition ShiftMix (val : Z) : Z := val ^! Z.shiftr val 47.

Definition HashLen16_mul (u v mul : Z) : Z :=
  let a := (u ^! v) *! mul in
  let a := a ^! Z.shiftr a 47 in
  let b := (v ^! a) *! mul in
  let b := b ^! Z.shiftr b 47 in
  b *! mul.

(** [Hash128to64] *)
Definition HashLen16 (u v : Z) : Z := HashLen16_mul u v kMul.

Definition HashLen0to16 (s : list Z) : result Z :=
  let n := len s in
  if 8 <=? n then
    let mul := k2 +! n * 2 in
    let! a := Fetch64 s 0 in
    let a := a +! k2 in
    let! b := Fetch64 s (n - 8) in
    let c := Rotate b 37 *! mul +! a in
    let d := (Rotate a 25 +! b) *! mul in
    Ok (HashLen16_mul c d mul)
  else if 4 <=? n then
    let mul := k2 +! n * 2 in
    let! a := Fetch32 s 0 in
    let! b := Fetch32 s (n - 4) in
    Ok (HashLen16_mul (n +! to_u64 (Z.shiftl a 3)) b mul)
  else if 0 <? n then
    let! a := byte_at s 0 in
    let! b := byte_at s (Z.shiftr n 1) in
    let! c := byte_at s (n - 1) in
    let y := a +~ to_u32 (Z.shiftl b 8) in
    let z := to_u32 (n + to_u32 (Z.shiftl c 2)) in
    Ok (ShiftMix (y *! k2 ^! z *! k0) *! k2)
  else Ok k2.

Definition HashLen17to32 (s : list Z) : result Z :=
  let n := len s in
  let mul := k2 +! n * 2 in
  let! a := Fetch64 s 0 in
  let a := a *! k1 in
  let! b := Fetch64 s 8 in
  let! c := Fetch64 s (n - 8) in
  let c := c *! mul in
  let! d := Fetch64 s (n - 16) in
  let d := d *! k2 in
  Ok (HashLen16_mul (Rotate (a +! b) 43 +! Rotate c 30 +! d) (a +! Rotate (b +! k2) 18 +! c) mul).

Definition WeakHashLen32WithSeeds_words (w x y z a b : Z) : Z * Z :=
  let a := a +! w in
  let b := Rotate (b +! a +! z) 21 in
  let c := a in
  let a := a +! x in
  let a := a +! y in
  let b := b +! Rotate a 44 in
  (a +! z, b +! c).

Definition WeakHashLen32WithSeeds (s : list Z) (p a b : Z) : result (Z * Z) :=
  let! w := Fetch64 s p in
  let! x := Fetch64 s (p + 8) in
  let! y := Fetch64 s (p + 16) in
  let! z := Fetch64 s (p + 24) in
  Ok (WeakHashLen32WithSeeds_words w x y z a b).

Definition HashLen33to64 (s : list Z) : result Z :=
  let n := len s in
  let mul := k2 +! n * 2 in
  let! a := Fetch64 s 0 in let a := a *! k2 in
  let! b := Fetch64 s 8 in
  let! c := Fetch64 s (n - 24) in
  let! d := Fetch64 s (n - 32) in
  let! e := Fetch64 s 16 in let e := e *! k2 in
  let! f := Fetch64 s 24 in let f := f *! 9 in
  let! g := Fetch64 s (n - 8) in
  let! h := Fetch64 s (n - 16) in let h := h *! mul in
  let u := Rotate (a +! g) 43 +! (Rotate b 30 +! c) *! 9 in
  let v := ((a +! g) ^! d) +! f +! 1 in
  let w := bswap_64 ((u +! v) *! mul) +! h in
  let x := Rotate (e +! f) 42 +! c in
  let y := (bswap_64 ((v +! w) *! mul) +! g) *! mul in
  let z := e +! f +! c in
  let a := bswap_64 ((x +! z) *! mul +! y) +! b in
  let b := ShiftMix ((z +! a) *! mul +! d +! h) *! mul in
  Ok (b +! x).

(** The 56 bytes of state of the long loops *)
Record HashState := MkHashState { hs_v : Z * Z; hs_w : Z * Z; hs_x : Z; hs_y : Z; hs_z : Z }.

(** One pass over 64 bytes *)
Definition pass64 (s : list Z) (p : Z) (st : HashState) : result HashState :=
  let '(MkHashState v w x y z) := st in
  let! t := Fetch64 s (p + 8) in
  let x := Rotate (x +! y +! v.1 +! t) 37 *! k1 in
  let! t := Fetch64 s (p + 48) in
  let y := Rotate (y +! v.2 +! t) 42 *! k1 in
  let x := x ^! w.2 in
  let! t := Fetch64 s (p + 40) in
  let y := y +! (v.1 +! t) in
  let z := Rotate (z +! w.1) 33 *! k1 in
  let! v := WeakHashLen32WithSeeds s p (v.2 *! k1) (x +! w.1) in
  let! t := Fetch64 s (p + 16) in
  let! w := WeakHashLen32WithSeeds s (p + 32) (z +! w.2) (y +! t) in
  Ok (MkHashState v w z y x).

(** The loop of [CityHash64], which ends when [len] is 0 *)
Fixpoint CityHash64_loop (fuel : nat) (s : list Z) (p len : Z) (st : HashState) : result HashState :=
  match fuel with
  | O => Err OutOfFuel
  | S fuel =>
      let! st := pass64 s p st in
      let len := len -! 64 in
      if len =? 0 then Ok st else CityHash64_loop fuel s (p + 64) len st
  end.

Definition CityHash64 (s : list Z) : result Z :=
  let n := len s in
  if n <=? 32 then if n <=? 16 then HashLen0to16 s else HashLen17to32 s
  else if n <=? 64 then HashLen33to64 s
  else
    let! x := Fetch64 s (n - 40) in
    let! y := Fetch64 s (n - 16) in
    let! t := Fetch64 s (n - 56) in
    let y := y +! t in
    let! z := Fetch64 s (n - 48) in
    let! t := Fetch64 s (n - 24) in
    let z := HashLen16 (z +! n) t in
    let! v := WeakHashLen32WithSeeds s (n - 64) n z in
    let! w := WeakHashLen32WithSeeds s (n - 32) (y +! k1) x in
    let! t := Fetch64 s 0 in
    let x := x *! k1 +! t in
    let rest := Z.land (n - 1) (Z.lxor 63 u64_max) in
    let! st := CityHash64_loop (length s) s 0 rest (MkHashState v w x y z) in
    let '(MkHashState v w x y z) := st in
    Ok (HashLen16 (HashLen16 v.1 w.1 +! ShiftMix y *! k1 +! z) (HashLen16 v.2 w.2 +! x)).

Definition CityHash64WithSeeds (s : list Z) (seed0 seed1 : Z) : result Z :=
  let! h := CityHash64 s in Ok (HashLen16 (h -! seed0) seed1).
Definition CityHash64WithSeed (s : list Z) (seed : Z) : result Z := CityHash64WithSeeds s k2 seed.

(** ** 128 bits *)

(** The loop of [CityMurmur]: [a], [b], [c], [d] *)
Fixpoint CityMurmur_loop (fuel : nat) (s : list Z) (p l : Z) (st : Z * Z * Z * Z) : result (Z * Z * Z * Z) :=
  match fuel with
  | O => Err OutOfFuel
  | S fuel =>
      let '(a, b, c, d) := st in
      let! t := Fetch64 s p in
      let a := a ^! ShiftMix (t *! k1) *! k1 in
      let a := a *! k1 in
      let b := b ^! a in
      let! t := Fetch64 s (p + 8) in
      let c := c ^! ShiftMix (t *! k1) *! k1 in
      let c := c *! k1 in
      let d := d ^! c in
      if 0 <? l - 16 then CityMurmur_loop fuel s (p + 16) (l - 16) (a, b, c, d) else Ok (a, b, c, d)
  end.

Definition CityMurmur (s : list Z) (seed : Z * Z) : result (Z * Z) :=
  let n := len s in
  let a := seed.1 in
  let b := seed.2 in
  let l := n - 16 in
  let! st :=
    if l <=? 0 then
      let a := ShiftMix (a *! k1) *! k1 in
      let! h := HashLen0to16 s in
      let c := b *! k1 +! h in
      let! t := if 8 <=? n then Fetch64 s 0 else Ok c in
      Ok (a, b, c, ShiftMix (a +! t))
    else
      let! t := Fetch64 s (n - 8) in
      let c := HashLen16 (t +! k1) a in
      let! t := Fetch64 s (n - 16) in
      let d := HashLen16 (b +! n) (c +! t) in
      CityMurmur_loop (length s) s 0 l (a +! d, b, c, d) in
  let '(a, b, c, d) := st in
  let a := HashLen16 a c in
  let b := HashLen16 d b in
  Ok (a ^! b, HashLen16 b a).

(** The loop of [CityHash128WithSeed]: where it stops and what is left *)
Fixpoint CityHash128_loop (fuel : nat) (s : list Z) (p len : Z) (st : HashState) : result (Z * Z * HashState) :=
  match fuel with
  | O => Err OutOfFuel
  | S fuel =>
      let! st := pass64 s p st in
      let! st := pass64 s (p + 64) st in
      if 128 <=? len - 128 then CityHash128_loop fuel s (p + 128) (len - 128) st else Ok (p + 128, len - 128, st)
  end.

(** Its tail: up to four chunks of 32 bytes from the end, which is at [e] *)
Fixpoint CityHash128_tail (fuel : nat) (s : list Z) (e len tail_done : Z) (st : HashState) : result HashState :=
  if tail_done <? len then
    match fuel with
    | O => Err OutOfFuel
    | S fuel =>
        let '(MkHashState v w x y z) := st in
        let tail_done := tail_done + 32 in
        let y := Rotate (x +! y) 42 *! k0 +! v.2 in
        let! t := Fetch64 s (e - tail_done + 16) in
        let w := (w.1 +! t, w.2) in
        let x := x *! k0 +! w.1 in
        let! t := Fetch64 s (e - tail_done) in
        let z := z +! (w.2 +! t) in
        let w := (w.1, w.2 +! v.1) in
        let! v := WeakHashLen32WithSeeds s (e - tail_done) (v.1 +! z) v.2 in
        let v := (v.1 *! k0, v.2) in
        CityHash128_tail fuel s e len tail_done (MkHashState v w x y z)
    end
  else Ok st.

Definition CityHash128WithSeed (s : list Z) (seed : Z * Z) : result (Z * Z) :=
  let n := len s in
  if n <? 128 then CityMurmur s seed
  else
    let x := seed.1 in
    let y := seed.2 in
    let z := n *! k1 in
    let! t := Fetch64 s 0 in
    let v1 := Rotate (y ^! k1) 49 *! k1 +! t in
    let! t := Fetch64 s 8 in
    let v2 := Rotate v1 42 *! k1 +! t in
    let w1 := Rotate (y +! z) 35 *! k1 +! x in
    let! t := Fetch64 s 88 in
    let w2 := Rotate (x +! t) 53 *! k1 in
    let! r := CityHash128_loop (length s) s 0 n (MkHashState (v1, v2) (w1, w2) x y z) in
    let '(p, n, MkHashState v w x y z) := r in
    let x := x +! Rotate (v.1 +! z) 49 *! k0 in
    let y := y *! k0 +! Rotate w.2 37 in
    let z := z *! k0 +! Rotate w.1 27 in
    let w := (w.1 *! 9, w.2) in
    let v := (v.1 *! k0, v.2) in
    let! st := CityHash128_tail 4 s (p + n) n 0 (MkHashState v w x y z) in
    let '(MkHashState v w x y z) := st in
    let x := HashLen16 x v.1 in
    let y := HashLen16 (y +! z) w.1 in
    Ok (HashLen16 (x +! v.2) w.2 +! y, HashLen16 (x +! w.2) (y +! v.2)).

Definition CityHash128 (s : list Z) : result (Z * Z) :=
  if 16 <=? len s then
    let! t := Fetch64 s 0 in
    let! u := Fetch64 s 8 in
    CityHash128WithSeed (drop 16 s) (t, u +! k0)
  else CityHash128WithSeed s (k0, k1).

(** ** Every read is inside the buffer *)

Lemma to_u64_word x : uint64 (to_u64 x).
Proof. by apply Z.mod_pos_bound. Qed.
Lemma to_u32_word x : uint32 (to_u32 x).
Proof. by apply Z.mod_pos_bound. Qed.

Lemma lxor_word32 a b : uint32 a -> uint32 b -> uint32 (Z.lxor a b).
Proof.
  unfold uint32, U32. intros [Ha Ha'] [Hb Hb']. split; [by apply Z.lxor_nonneg|].
  destruct (Z.eq_dec (Z.lxor a b) 0) as [->|Hne]; [done|]. apply Z.log2_lt_pow2.
  - pose proof (proj2 (Z.lxor_nonneg a b) ltac:(tauto)). lia.
  - pose proof (Z.log2_lxor a b Ha Hb). assert (Z.log2 a < 32) by (destruct (Z.eq_dec a 0) as [->|]; [done|]; apply Z.log2_lt_pow2; lia).
    assert (Z.log2 b < 32) by (destruct (Z.eq_dec b 0) as [->|]; [done|]; apply Z.log2_lt_pow2; lia). lia.
Qed.

Lemma shiftr_word32 a k : 0 <= k -> uint32 a -> uint32 (Z.shiftr a k).
Proof.
  intros Hk [Ha Ha']. rewrite Z.shiftr_div_pow2 by done. assert (0 < 2 ^ k) by lia.
  split; [apply Z.div_pos; lia|]. apply Z.le_lt_trans with a; [|done]. apply Z.div_le_upper_bound; nia.
Qed.

Lemma fmix_word h : uint32 h -> uint32 (fmix h).
Proof. intros _. unfold fmix. apply lxor_word32; [|apply shiftr_word32; [done|]]; apply to_u32_word. Qed.

Lemma Mur_word a h : uint32 (Mur a h).
Proof. apply to_u32_word. Qed.

Lemma HashLen16_word u v mul : uint64 (HashLen16_mul u v mul).
Proof. apply to_u64_word. Qed.

Lemma fetch_ok n s p : 0 <= p -> p + Z.of_nat n <= len s -> exists x, fetch n s p = Ok x.
Proof. intros Hp Hn. unfold fetch. rewrite (proj2 (Z.leb_le _ _)), (proj2 (Z.leb_le _ _)) by lia. by eexists. Qed.

Lemma Fetch64_ok s p : 0 <= p -> p + 8 <= len s -> exists x, Fetch64 s p = Ok x.
Proof. apply (fetch_ok 8). Qed.
Lemma Fetch32_ok s p : 0 <= p -> p + 4 <= len s -> exists x, Fetch32 s p = Ok x.
Proof. apply (fetch_ok 4). Qed.

Lemma byte_at_ok s p : 0 <= p < len s -> exists x, byte_at s p = Ok x.
Proof.
  intros Hp. unfold byte_at. destruct (lookup_lt_is_Some_2 s (Z.to_nat p)) as [x ->]; [unfold len in *; lia|].
  rewrite (proj2 (Z.leb_le _ _)) by lia. by eexists.
Qed.

(** Reads in the goal succeed, one after the other. *)
Ltac read :=
  match goal with
  | |- context [rbind (Fetch64 ?s ?p) _] => destruct (Fetch64_ok s p) as [? ->]; [lia|lia|]; cbn [rbind]
  | |- context [rbind (Fetch32 ?s ?p) _] => destruct (Fetch32_ok s p) as [? ->]; [lia|lia|]; cbn [rbind]
  | |- context [rbind (byte_at ?s ?p) _] => destruct (byte_at_ok s p) as [? ->]; [lia|]; cbn [rbind]
  end.
Ltac reads := repeat read.

Lemma half_bounds n : 0 <= n -> 2 * Z.shiftr n 1 <= n <= 2 * Z.shiftr n 1 + 1.
Proof. intros Hn. rewrite Z.shiftr_div_pow2 by done. change (2 ^ 1) with 2. pose proof (Z.mod_pos_bound n 2). pose proof (Z.div_mod n 2). lia. Qed.

Lemma mixed32_ok s p : 0 <= p -> p + 4 <= len s -> exists x, mixed32 s p = Ok x.
Proof. intros ? ?. unfold mixed32. reads. by eexists. Qed.

Lemma pass32_ok s p st : 0 <= p -> p + 20 <= len s -> exists st', pass32 s p st = Ok st'.
Proof.
  intros Hp Hn. destruct st as [[f g] h]. unfold pass32. destruct (mixed32_ok s p) as [? ->]; [lia|lia|]. cbn [rbind]. reads.
  destruct (mixed32_ok s (p + 8)) as [? ->]; [lia|lia|]. cbn [rbind].
  destruct (mixed32_ok s (p + 12)) as [? ->]; [lia|lia|]. cbn [rbind]. reads. by eexists.
Qed.

Lemma passes32_ok s k : forall p st, 0 <= p -> p + 20 * Z.of_nat k <= len s -> exists st', passes32 k s p st = Ok st'.
Proof.
  induction k as [|k IH]; intros p st Hp Hn; [by eexists|]. cbn [passes32]. destruct (pass32_ok s p st) as [st' ->]; [lia|lia|]. apply IH; lia.
Qed.

Lemma CityHash32_total s : exists h, CityHash32 s = Ok h /\ uint32 h.
Proof.
  pose proof (len_nonneg s) as Hpos. unfold CityHash32. pose proof (half_bounds (len s) Hpos).
  destruct (Z.leb_spec (len s) 24) as [Hle|Hgt].
  - destruct (Z.leb_spec (len s) 12); [destruct (Z.leb_spec (len s) 4)|].
    + eexists. split; [done|]. unfold Hash32Len0to4. destruct (fold_left _ s (0, 9)). apply fmix_word, Mur_word.
    + unfold Hash32Len5to12. assert (Hb : 0 <= Z.land (Z.shiftr (len s) 1) 4 <= 4).
      { assert (Hr : Z.shiftr (len s) 1 = 2 \/ Z.shiftr (len s) 1 = 3 \/ Z.shiftr (len s) 1 = 4 \/ Z.shiftr (len s) 1 = 5 \/ Z.shiftr (len s) 1 = 6) by lia.
        by destruct Hr as [->|[->|[->|[->| ->]]]]. }
      assert (Hb8 : len s < 8 -> Z.land (Z.shiftr (len s) 1) 4 = 0).
      { intros Hl. assert (Hr : Z.shiftr (len s) 1 = 2 \/ Z.shiftr (len s) 1 = 3) by lia. by destruct Hr as [->| ->]. }
      reads. eexists. split; [done|]. apply fmix_word, Mur_word.
    + unfold Hash32Len13to24. reads. eexists. split; [done|]. apply fmix_word, Mur_word.
  - repeat match goal with |- context [rbind (mixed32 ?s ?p) _] => destruct (mixed32_ok s p) as [? ->]; [lia|lia|]; cbn [rbind] end.
    assert (Hit : 20 * ((len s - 1) / 20) <= len s - 1) by (apply Z.mul_div_le; lia).
    match goal with |- context [passes32 ?k ?s ?p ?st] => destruct (passes32_ok s k p st) as [[[f g] h] ->] end; [lia| |].
    { rewrite Z2Nat.id by (apply Z.div_pos; lia). lia. }
    cbn [rbind]. eexists. split; [done|]. apply to_u32_word.
Qed.

Lemma Weak_ok s p a b : 0 <= p -> p + 32 <= len s -> exists r, WeakHashLen32WithSeeds s p a b = Ok r.
Proof. intros ? ?. unfold WeakHashLen32WithSeeds. reads. by eexists. Qed.

Ltac weak := match goal with |- context [rbind (WeakHashLen32WithSeeds ?s ?p ?a ?b) _] =>
  destruct (Weak_ok s p a b) as [[? ?] ->]; [lia|lia|]; cbn [rbind] end.

Lemma pass64_ok s p st : 0 <= p -> p + 64 <= len s -> exists st', pass64 s p st = Ok st'.
Proof. intros ? ?. destruct st as [v w x y z]. unfold pass64. reads. weak. reads. weak. by eexists. Qed.

(** [len & ~63] is the multiple of 64 below. *)
Lemma multiple_of_64 n : 0 <= n < U64 -> Z.land n (Z.lxor 63 u64_max) = 64 * (n / 64).
Proof.
  intros Hn. change (Z.lxor 63 u64_max) with (Z.shiftl (Z.ones 58) 6). replace (64 * (n / 64)) with (Z.shiftl (Z.land (Z.shiftr n 6) (Z.ones 58)) 6).
  - apply Z.bits_inj'. intros k Hk. rewrite Z.land_spec, !Z.shiftl_spec by done. destruct (Z.lt_ge_cases k 6).
    + rewrite (Z.testbit_neg_r _ (k - 6)), andb_false_r by lia. symmetry. apply Z.testbit_neg_r. lia.
    + rewrite Z.land_spec, Z.shiftr_spec by lia. by replace (k - 6 + 6) with k by lia.
  - rewrite Z.shiftr_div_pow2, Z.land_ones, Z.shiftl_mul_pow2 by done. change (2 ^ 6) with 64. unfold U64 in Hn. rewrite Z.mod_small; [lia|].
    split; [apply Z.div_pos; lia|]. apply Z.div_lt_upper_bound; lia.
Qed.

Lemma CityHash64_loop_ok s fuel : forall p k st, 0 <= p -> 0 < k <= Z.of_nat fuel -> p + 64 * k <= len s -> 64 * k < U64 ->
  exists st', CityHash64_loop fuel s p (64 * k) st = Ok st'.
Proof.
  induction fuel as [|fuel IH]; intros p k st Hp Hk Hn Hu; [lia|]. cbn [CityHash64_loop].
  destruct (pass64_ok s p st) as [st' ->]; [lia|lia|]. cbn [rbind]. replace (64 * k -! 64) with (64 * (k - 1)).
  2: { unfold to_u64. rewrite Z.mod_small; lia. }
  destruct (Z.eqb_spec (64 * (k - 1)) 0); [by eexists|]. apply IH; lia.
Qed.

Lemma HashLen0to16_total s : len s <= 16 -> exists h, HashLen0to16 s = Ok h /\ uint64 h.
Proof.
  intros Hle. pose proof (len_nonneg s) as Hpos. pose proof (half_bounds (len s) Hpos). unfold HashLen0to16.
  destruct (Z.leb_spec 8 (len s)); [reads; eexists; split; [done|apply HashLen16_word]|].
  destruct (Z.leb_spec 4 (len s)); [reads; eexists; split; [done|apply HashLen16_word]|].
  destruct (Z.ltb_spec 0 (len s)); [reads; eexists; split; [done|apply to_u64_word]|]. by eexists.
Qed.

Lemma CityHash64_total s : len s < U64 -> exists h, CityHash64 s = Ok h /\ uint64 h.
Proof.
  intros Hlen. pose proof (len_nonneg s) as Hpos. unfold CityHash64.
  destruct (Z.leb_spec (len s) 32); [destruct (Z.leb_spec (len s) 16)|destruct (Z.leb_spec (len s) 64)].
  - by apply HashLen0to16_total.
  - unfold HashLen17to32. reads. eexists. split; [done|apply HashLen16_word].
  - unfold HashLen33to64. reads. eexists. split; [done|apply to_u64_word].
  - reads. weak. weak. reads. rewrite multiple_of_64 by (unfold U64 in *; lia).
    pose proof (Z.mul_div_le (len s - 1) 64 ltac:(lia)). assert (1 <= (len s - 1) / 64) by (apply Z.div_le_lower_bound; lia).
    match goal with |- context [CityHash64_loop ?f ?s ?p ?l ?st] => destruct (CityHash64_loop_ok s f p ((len s - 1) / 64) st) as [[vn wn xn yn zn] ->] end;
      [lia|unfold len in *; lia|lia|lia|]. cbn [rbind]. eexists. split; [done|apply HashLen16_word].
Qed.

Lemma seeds_total s a b : len s < U64 -> exists h, CityHash64WithSeeds s a b = Ok h /\ uint64 h.
Proof. intros Hs. unfold CityHash64WithSeeds. destruct (CityHash64_total s Hs) as (h&->&_). eexists. split; [done|apply HashLen16_word]. Qed.

Lemma CityMurmur_loop_ok s fuel : forall p l st, 0 <= p -> 0 < l <= 16 * Z.of_nat fuel -> p + l + 16 <= len s ->
  exists st', CityMurmur_loop fuel s p l st = Ok st'.
Proof.
  induction fuel as [|fuel IH]; intros p l [[[a b] c] d] Hp Hl Hn; [lia|]. cbn [CityMurmur_loop]. reads.
  destruct (Z.ltb_spec 0 (l - 16)); [apply IH; lia|by eexists].
Qed.

Lemma lxor_word64 a b : uint64 a -> uint64 b -> uint64 (Z.lxor a b).
Proof. apply lxor_range. Qed.

Definition word128 (x : Z * Z) : Prop := uint64 x.1 /\ uint64 x.2.

Lemma CityMurmur_total s seed : exists h, CityMurmur s seed = Ok h /\ word128 h.
Proof.
  pose proof (len_nonneg s) as Hpos. unfold CityMurmur. destruct (Z.leb_spec (len s - 16) 0).
  - destruct (HashLen0to16_total s ltac:(lia)) as (h&->&_). cbn [rbind].
    destruct (Z.leb_spec 8 (len s)); [reads|cbn [rbind]]; (eexists; split; [done|]; split; [apply lxor_word64|]; apply HashLen16_word).
  - reads. match goal with |- context [CityMurmur_loop ?f ?s ?p ?l ?st] => destruct (CityMurmur_loop_ok s f p l st) as [[[[a b] c] d] ->] end;
      [lia|unfold len in *; lia|lia|]. cbn [rbind]. eexists. split; [done|]. split; [apply lxor_word64|]; apply HashLen16_word.
Qed.

Lemma CityHash128_loop_ok s fuel : forall p l st, 0 <= p -> 128 <= l <= Z.of_nat fuel -> p + l = len s ->
  exists p' l' st', CityHash128_loop fuel s p l st = Ok (p', l', st') /\ 0 <= l' < 128 /\ p' + l' = len s /\ 128 <= p'.
Proof.
  induction fuel as [|fuel IH]; intros p l st Hp Hl Hn; [lia|]. cbn [CityHash128_loop].
  destruct (pass64_ok s p st) as [st1 ->]; [lia|lia|]. cbn [rbind]. destruct (pass64_ok s (p + 64) st1) as [st2 ->]; [lia|lia|]. cbn [rbind].
  destruct (Z.leb_spec 128 (l - 128)); [apply IH; lia|]. eexists _, _, _. split; [done|]. lia.
Qed.

Lemma CityHash128_tail_ok s e l fuel : forall done st, 0 <= done -> done + 32 * Z.of_nat fuel = 128 -> 0 <= l < 128 -> 128 <= e <= len s ->
  exists st', CityHash128_tail fuel s e l done st = Ok st'.
Proof.
  induction fuel as [|fuel IH]; intros dn st Hd Hf Hl He; cbn [CityHash128_tail]; (destruct (Z.ltb_spec dn l); [|by eexists]); [lia|].
  destruct st as [v w x y z]. reads. weak. apply IH; lia.
Qed.

Lemma CityHash128_seed_total s seed : exists h, CityHash128WithSeed s seed = Ok h /\ word128 h.
Proof.
  unfold CityHash128WithSeed. destruct (Z.ltb_spec (len s) 128); [apply CityMurmur_total|]. reads.
  match goal with |- context [CityHash128_loop ?f ?s ?p ?l ?st] => destruct (CityHash128_loop_ok s f p l st) as (p'&l'&[vl wl xl yl zl]&->&Hl&Hp&Hp') end;
    [lia|unfold len in *; lia|lia|]. cbn [rbind].
  match goal with |- context [CityHash128_tail ?f ?s ?e ?l ?d ?st] => destruct (CityHash128_tail_ok s e l f d st) as ([vn wn xn yn zn]&->) end; [lia|done|lia|lia|].
  cbn [rbind]. eexists. split; [done|]. split; [apply to_u64_word|apply HashLen16_word].
Qed.

(** C27. The hash functions are total and their results are words: on every buffer
    of less than 2^64 bytes all reads of [CityHash32], [CityHash64], its seeded
    variants and [CityHash128] are inside the buffer, their loops end, and the
    result has 32, 64 or twice 64 bits. *)
Theorem city_hash_total s : len s < U64 ->
  (exists h, CityHash32 s = Ok h /\ uint32 h) /\
  (exists h, CityHash64 s = Ok h /\ uint64 h) /\
  (forall seed0 seed1, exists h, CityHash64WithSeeds s seed0 seed1 = Ok h /\ uint64 h) /\
  (forall seed, exists h, CityHash128WithSeed s seed = Ok h /\ word128 h) /\
  (exists h, CityHash128 s = Ok h /\ word128 h).
Proof.
  intros Hs. split_and!.
  - apply CityHash32_total.
  - by apply CityHash64_total.
  - intros a b. by apply seeds_total.
  - apply CityHash128_seed_total.
  - unfold CityHash128. destruct (Z.leb_spec 16 (len s)); [reads|]; apply CityHash128_seed_total.
Qed.

(** ** A seed adds no collisions *)

Definition kMul_inverse : Z := 0xdc56e6f5090b32d9.

Lemma to_u64_mul_l a b : to_u64 (to_u64 a * b) = to_u64 (a * b).
Proof. unfold to_u64. by rewrite Z.mul_mod_idemp_l. Qed.

Lemma kMul_cancel a b : uint64 a -> uint64 b -> a *! kMul = b *! kMul -> a = b.
Proof.
  intros Ha Hb Heq. assert (Hinv : forall x, uint64 x -> x *! kMul *! kMul_inverse = x).
  { intros x Hx. rewrite to_u64_mul_l, <- Z.mul_assoc. unfold to_u64. rewrite <- Z.mul_mod_idemp_r by done.
    replace (kMul * kMul_inverse mod U64) with 1 by (vm_compute; reflexivity). rewrite Z.mul_1_r. by apply Z.mod_small. }
  by rewrite <- (Hinv a Ha), <- (Hinv b Hb), Heq.
Qed.

Lemma shiftr_word64 a k : 0 <= k -> uint64 a -> uint64 (Z.shiftr a k).
Proof.
  intros Hk [Ha Ha']. rewrite Z.shiftr_div_pow2 by done. assert (0 < 2 ^ k) by lia.
  split; [apply Z.div_pos; lia|]. apply Z.le_lt_trans with a; [|done]. apply Z.div_le_upper_bound; nia.
Qed.

Lemma ShiftMix_word a : uint64 a -> uint64 (ShiftMix a).
Proof. intros Ha. apply lxor_word64; [done|by apply shiftr_word64]. Qed.

(** Mixing twice is the identity: what is shifted twice is gone. *)
Lemma ShiftMix_involutive a : uint64 a -> ShiftMix (ShiftMix a) = a.
Proof.
  intros [Ha Ha']. unfold ShiftMix. rewrite Z.shiftr_lxor, Z.shiftr_shiftr by done.
  replace (Z.shiftr a (47 + 47)) with 0.
  - by rewrite Z.lxor_0_r, Z.lxor_assoc, Z.lxor_nilpotent, Z.lxor_0_r.
  - rewrite Z.shiftr_div_pow2 by done. symmetry. apply Z.div_small. unfold U64 in Ha'. lia.
Qed.

Lemma ShiftMix_cancel a b : uint64 a -> uint64 b -> ShiftMix a = ShiftMix b -> a = b.
Proof. intros Ha Hb Heq. by rewrite <- (ShiftMix_involutive a Ha), <- (ShiftMix_involutive b Hb), Heq. Qed.

Lemma lxor_cancel_r a b c : Z.lxor a c = Z.lxor b c -> a = b.
Proof.
  intros Heq. apply (f_equal (fun x => Z.lxor x c)) in Heq. by rewrite !Z.lxor_assoc, Z.lxor_nilpotent, !Z.lxor_0_r in Heq.
Qed.

Lemma HashLen16_cancel u u' v : uint64 u -> uint64 u' -> uint64 v -> HashLen16 u v = HashLen16 u' v -> u = u'.
Proof.
  intros Hu Hu' Hv Heq. unfold HashLen16, HashLen16_mul in Heq. cbn zeta in Heq.
  repeat match type of Heq with context [Z.lxor ?x (Z.shiftr ?x 47)] => change (Z.lxor x (Z.shiftr x 47)) with (ShiftMix x) in Heq end.
  apply kMul_cancel in Heq; [|apply ShiftMix_word, to_u64_word..]. apply ShiftMix_cancel in Heq; [|apply to_u64_word..].
  apply kMul_cancel in Heq; [|apply lxor_word64; [done|apply ShiftMix_word, to_u64_word]..].
  rewrite !(Z.lxor_comm v) in Heq. apply lxor_cancel_r, ShiftMix_cancel, kMul_cancel in Heq; [|by apply lxor_word64..|apply to_u64_word|apply to_u64_word].
  by apply lxor_cancel_r in Heq.
Qed.

(** Two buffers have the same hash under one seed exactly if they have the same
    hash without it: the seed does not make names collide in the dead nonce list
    that [CityHash64] tells apart. *)
Theorem city_seed_no_new_collisions s s' seed : len s < U64 -> len s' < U64 -> uint64 seed ->
  CityHash64WithSeed s seed = CityHash64WithSeed s' seed <-> CityHash64 s = CityHash64 s'.
Proof.
  intros Hs Hs' Hseed. unfold CityHash64WithSeed, CityHash64WithSeeds. destruct (CityHash64_total s Hs) as (h&->&Hh), (CityHash64_total s' Hs') as (h'&->&Hh').
  cbn [rbind]. split; [|by intros [= ->]]. intros [= Heq]. f_equal. apply HashLen16_cancel in Heq; [|apply to_u64_word..|done].
  assert (Hsub : forall x, uint64 x -> x -! k2 +! k2 = x).
  { intros x Hx. unfold to_u64. rewrite Z.add_mod_idemp_l by done. rewrite Z.sub_add. by apply Z.mod_small. }
  by rewrite <- (Hsub h Hh), <- (Hsub h' Hh'), Heq.
Qed.

(** ** The interfaces of the tables *)

(** [CityHash::compute], for the width of [size_t] *)
Definition compute (sizeof_size_t : Z) (s : list Z) : Z :=
  from_ok 0 (if 8 <=? sizeof_size_t then CityHash64 s else CityHash32 s).

(** The hash of a buffer that is too long to exist is left open. *)
Definition in_range (h : Z) : Z := if (0 <=? h) && (h <? U64) then h else 0.
Lemma in_range_word h : uint64 (in_range h).
Proof. unfold in_range, uint64. destruct (Z.leb_spec 0 h), (Z.ltb_spec h U64); cbn [andb]; (lia || by split). Qed.
Lemma in_range_id h : uint64 h -> in_range h = h.
Proof. intros [? ?]. unfold in_range. by rewrite (proj2 (Z.leb_le _ _)), (proj2 (Z.ltb_lt _ _)). Qed.

Definition Hash (sizeof_size_t : Z) : CityHash :=
  {| cityHash s := in_range (compute sizeof_size_t s); cityHash_range s := in_range_word _ |}.
Definition SeededHash : CityHashSeed :=
  {| cityHash64WithSeed s seed := in_range (from_ok 0 (CityHash64WithSeed s seed)); cityHashSeed_range s seed := in_range_word _ |}.

(** The instances are the functions of the source. *)
Lemma instances_compute s seed : len s < U64 -> uint64 seed ->
  (exists h, CityHash64 s = Ok h /\ @cityHash (Hash 8) s = h) /\
  (exists h, CityHash32 s = Ok h /\ @cityHash (Hash 4) s = h) /\
  (exists h, CityHash64WithSeed s seed = Ok h /\ @cityHash64WithSeed SeededHash s seed = h).
Proof.
  intros Hs Hseed. destruct (CityHash64_total s Hs) as (h1&H1&Hw1), (CityHash32_total s) as (h2&H2&Hw2), (seeds_total s k2 seed Hs) as (h3&Hh3&Hw3).
  split_and!; eexists; (split; [done|]); cbn [cityHash cityHash64WithSeed Hash SeededHash]; unfold compute, CityHash64WithSeed in *;
    rewrite ?H1, ?H2, ?Hh3; cbn [from_ok Z.leb]; apply in_range_id; try done. destruct Hw2. split; [done|]. unfold U32, U64 in *. lia.
Qed.

Module CitySamples.
Definition hello : list Z := [104; 101; 108; 108; 111].

Example hash_hello : CityHash64 hello = Ok 13009744463427800296.
Proof. vm_compute. reflexivity. Qed.

Lemma city_hash_total_witness : len hello < U64 /\ exists h, CityHash64 hello = Ok h /\ uint64 h.
Proof. assert (Hs : len hello < U64) by (vm_compute; reflexivity). split; [exact Hs|].
  destruct (city_hash_total hello Hs) as (_&H&_). exact H.
Defined.

Lemma city_seed_witness : CityHash64WithSeed hello 7 = CityHash64WithSeed [] 7 <-> CityHash64 hello = CityHash64 [].
Proof. apply (city_seed_no_new_collisions hello [] 7); [vm_compute; reflexivity|vm_compute; reflexivity|by_decide]. Defined.
End CitySamples.
