(* ===== verification/Tables.v ===== *)
(** * The tables that share the name tree

    What the FIB, the PIT, the measurements table and the strategy choice
    table attach to an entry of the name tree ([NFD/daemon/table/name-tree-entry.cpp]),
    and the state they share.  A PIT entry is an object of its own, referred to
    by the name tree and by the timers: the name tree holds pointers, and the
    objects are in a heap. *)

From S2P Require Import Prelude StdMap Tlv Block Encoder NameComponent Name Exclude Packet CsEntry.
From S2P Require Import CsPolicy NameTree FibEntry PitEntry.

(** [shared_ptr<pit::Entry>] *)
Definition PitPtr : Type := positive.

(** [measurements::Entry]: when it expires and when its cleanup is
    scheduled, and the information that strategies place on it *)
Record MeasurementsEntry := MkMeasurementsEntry { me_expiry : Z; me_cleanup : Z; me_strategyInfo : gmap Z Z }.

(** [StrategyInfoHost::clearStrategyInfo] *)
Definition me_clearStrategyInfo (m : MeasurementsEntry) : MeasurementsEntry :=
  MkMeasurementsEntry (me_expiry m) (me_cleanup m) ∅.

(** What an entry of the name tree carries besides its children.  The strategy
    of a strategy choice entry is the name of an installed strategy. *)
Record NtPayload := MkNtPayload {
  np_fib : option FibEntry;
  np_pit : list PitPtr;
  np_measurements : option MeasurementsEntry;
  np_strategy : option Name
}.

Definition NtPayload_empty : NtPayload := MkNtPayload None [] None None.

(** [name_tree::Entry::isEmpty], apart from the children *)
Definition NtPayload_isEmpty (x : NtPayload) : bool :=
  match np_fib x, np_pit x, np_measurements x, np_strategy x with
  | None, [], None, None => true
  | _, _, _, _ => false
  end.

Lemma NtPayload_isEmpty_iff x : NtPayload_isEmpty x = true <-> x = NtPayload_empty.
Proof. destruct x as [[] [] [] []]; by split. Qed.

#[global] Instance NtPayload_Payload : Payload NtPayload :=
  { payload_empty := NtPayload_empty; payload_isEmpty := NtPayload_isEmpty; payload_isEmpty_iff := NtPayload_isEmpty_iff }.

(** [setFibEntry], [setMeasurementsEntry], [setStrategyChoiceEntry] *)
Definition set_fib (f : option FibEntry) (x : NtPayload) : NtPayload :=
  MkNtPayload f (np_pit x) (np_measurements x) (np_strategy x).
Definition set_measurements (m : option MeasurementsEntry) (x : NtPayload) : NtPayload :=
  MkNtPayload (np_fib x) (np_pit x) m (np_strategy x).
Definition set_strategy (s : option Name) (x : NtPayload) : NtPayload :=
  MkNtPayload (np_fib x) (np_pit x) (np_measurements x) s.

(** [insertPitEntry] and [erasePitEntry]: the last pointer takes the place
    of the erased one. *)
Definition insertPitEntry (p : PitPtr) (x : NtPayload) : NtPayload :=
  MkNtPayload (np_fib x) (np_pit x ++ [p]) (np_measurements x) (np_strategy x).

Fixpoint ptr_index (p : PitPtr) (l : list PitPtr) : option nat :=
  match l with
  | [] => None
  | x :: l' => if bool_decide (x = p) then Some 0%nat else S <$> ptr_index p l'
  end.

Definition remove_ptr (p : PitPtr) (l : list PitPtr) : list PitPtr :=
  match ptr_index p l, last l with
  | Some i, Some x => take (length l - 1) (<[i := x]> l)
  | _, _ => l
  end.

Definition erasePitEntry (p : PitPtr) (x : NtPayload) : NtPayload :=
  MkNtPayload (np_fib x) (remove_ptr p (np_pit x)) (np_measurements x) (np_strategy x).

Definition hasPitEntries (x : NtPayload) : bool := match np_pit x with [] => false | _ => true end.

(** The name tree, the PIT entries, and the counters [m_nItems] of the
    tables, each a [size_t].  [tb_strategies] is the map of installed
    strategies, by name. *)
Record Tables := MkTables {
  tb_tree : NameTree NtPayload;
  tb_heap : gmap PitPtr PitEntry;
  tb_next : PitPtr;
  tb_pitItems : Z;
  tb_fibItems : Z;
  tb_strategyItems : Z;
  tb_measurementsItems : Z;
  tb_strategies : list Name
}.

Definition with_tree (t : NameTree NtPayload) (tb : Tables) : Tables :=
  MkTables t (tb_heap tb) (tb_next tb) (tb_pitItems tb) (tb_fibItems tb) (tb_strategyItems tb)
    (tb_measurementsItems tb) (tb_strategies tb).
Definition with_heap (h : gmap PitPtr PitEntry) (tb : Tables) : Tables :=
  MkTables (tb_tree tb) h (tb_next tb) (tb_pitItems tb) (tb_fibItems tb) (tb_strategyItems tb)
    (tb_measurementsItems tb) (tb_strategies tb).
Definition with_pit (h : gmap PitPtr PitEntry) (next : PitPtr) (n : Z) (tb : Tables) : Tables :=
  MkTables (tb_tree tb) h next n (tb_fibItems tb) (tb_strategyItems tb) (tb_measurementsItems tb) (tb_strategies tb).
Definition with_fibItems (n : Z) (tb : Tables) : Tables :=
  MkTables (tb_tree tb) (tb_heap tb) (tb_next tb) (tb_pitItems tb) n (tb_strategyItems tb)
    (tb_measurementsItems tb) (tb_strategies tb).

(** ** Lemmas *)

Lemma ptr_index_spec p l : p ∈ l -> exists i, ptr_index p l = Some i /\ l !! i = Some p.
Proof.
  induction l as [|x l IH]; intros Hn; [by apply elem_of_nil in Hn|]. simpl. case_bool_decide as Hx.
  - exists 0%nat. by rewrite Hx.
  - apply elem_of_cons in Hn as [->|Hn]; [done|]. destruct (IH Hn) as (i&->&Hi). by exists (S i).
Qed.

Lemma remove_ptr_perm p l : p ∈ l -> l ≡ₚ p :: remove_ptr p l.
Proof.
  intros Hn. unfold remove_ptr. destruct (ptr_index_spec p l Hn) as (i&->&Hi).
  destruct (last l) as [x|] eqn:Hx; [|by apply last_None in Hx as ->; apply elem_of_nil in Hn].
  by apply swap_last_perm.
Qed.
