(* ===== verification/Pit.v ===== *)
(** * The pending Interest table: [NFD/daemon/table/pit.cpp]

    The PIT entries of a name are attached to the name's entry in the name
    tree; [findAllDataMatches] goes through the entries of the prefixes of the
    Data name. *)

From S2P Require Import Prelude StdMap Tlv Block Encoder NameComponent Name Exclude Packet CsEntry.
From S2P Require Import CsPolicy NameTree FibEntry PitEntry Tables.

Section Pit.
Context `{Sha256} `{CityHash}.
Implicit Types (tb : Tables) (i : Interest).

(** The test of [findOrInsert] *)
Definition same_interest i (e : PitEntry) : bool :=
  Name_equals (pe_name e) (i_name i) && Selectors_equals (i_selectors (pe_interest e)) (i_selectors i).

Definition find_ptr i (h : gmap PitPtr PitEntry) (l : list PitPtr) : option PitPtr :=
  List.find (fun p => match h !! p with Some e => same_interest i e | None => false end) l.

(** The entry, if any, and whether it is new.  It is attached to the entry that the
    name tree returns for the name of the Interest, whose own name can differ in the
    types of the components. *)
Definition findOrInsert i (allowInsert : bool) tb : option PitPtr * bool * Tables :=
  let '(nameTreeEntry, t) := lookup_entry (i_name i) (tb_tree tb) in
  let tb := with_tree t tb in
  let pitEntries := np_pit (data_at nameTreeEntry t) in
  match find_ptr i (tb_heap tb) pitEntries with
  | Some p => (Some p, false, tb)
  | None =>
      if negb allowInsert then (None, true, tb)
      else
        let p := tb_next tb in
        let tb := with_tree (update_payload nameTreeEntry (insertPitEntry p) t) tb in
        (Some p, true, with_pit (<[p := PitEntry_new i]> (tb_heap tb)) (Pos.succ p) (tb_pitItems tb + 1) tb)
  end.

Definition Pit_find i tb : option PitPtr * Tables :=
  let '(p, _, tb) := findOrInsert i false tb in (p, tb).
Definition Pit_insert i tb : option PitPtr * bool * Tables := findOrInsert i true tb.

Definition findAllDataMatches (d : Data) tb : list PitPtr :=
  let ntMatches := findAllMatches (d_name d) (fun e => hasPitEntries (nte_payload e)) (tb_tree tb) in
  let matching p := match tb_heap tb !! p with Some e => matchesData (pe_interest e) d | None => false end in
  concat (map (fun e => List.filter matching (np_pit (nte_payload e))) ntMatches).

Definition Pit_erase (p : PitPtr) tb : Tables :=
  match tb_heap tb !! p with
  | None => tb
  | Some e =>
      let n := pe_name e in
      let t := eraseEntryIfEmpty n (update_payload n (erasePitEntry p) (tb_tree tb)) in
      with_pit (delete p (tb_heap tb)) (tb_next tb) (tb_pitItems tb - 1) (with_tree t tb)
  end.
End Pit.

(** ** Selectors *)

Lemma Selectors_equals_iff a b :
  Selectors_equals a b = true <-> exists w, Selectors_wire a = Ok w /\ Selectors_wire b = Ok w.
Proof.
  unfold Selectors_equals. destruct (Selectors_wire a) as [x|], (Selectors_wire b) as [y|];
    rewrite ?bool_decide_eq_true; naive_solver.
Qed.

Lemma Selectors_equals_sym a b : Selectors_equals a b = true -> Selectors_equals b a = true.
Proof. rewrite !Selectors_equals_iff. naive_solver. Qed.

Lemma Selectors_equals_trans a b c :
  Selectors_equals a b = true -> Selectors_equals b c = true -> Selectors_equals a c = true.
Proof. rewrite !Selectors_equals_iff. intros (x&?&?) (y&?&?). exists x. split; congruence. Qed.

(** ** Invariant *)

Section Facts.
Context `{Sha256} `{CityHash}.
Implicit Types (tb : Tables) (i : Interest) (p : PitPtr).

(** The entries and the name tree agree, and no two entries are for the same
    name and selectors. *)
Record pit_inv tb : Prop := {
  pi_tree : nt_inv (tb_tree tb);
  pi_entry p e : tb_heap tb !! p = Some e -> gen_name (pe_name e) /\ p ∈ np_pit (data_at (pe_name e) (tb_tree tb));
  pi_ptr n p : p ∈ np_pit (data_at n (tb_tree tb)) -> exists e, tb_heap tb !! p = Some e /\ pe_name e = n;
  pi_nodup n : NoDup (np_pit (data_at n (tb_tree tb)));
  pi_unique p q e f : tb_heap tb !! p = Some e -> tb_heap tb !! q = Some f -> pe_name e = pe_name f ->
    Selectors_equals (i_selectors (pe_interest e)) (i_selectors (pe_interest f)) = true -> p = q;
  pi_fresh p e : tb_heap tb !! p = Some e -> (p < tb_next tb)%positive;
  pi_items : tb_pitItems tb = Z.of_nat (size (tb_heap tb))
}.

(** There is room in the name tree for the name. *)
Definition room (n : Name) tb : Prop := nt_nItems (tb_tree tb) + len n + 1 <= 2 ^ 30.

Lemma pit_inv_tree t tb : nt_inv t -> (forall m, np_pit (data_at m t) = np_pit (data_at m (tb_tree tb))) ->
  pit_inv tb -> pit_inv (with_tree t tb).
Proof.
  intros Ht Hd Hi. split; simpl; [done|..]; try setoid_rewrite Hd; apply Hi.
Qed.

(** Entries that keep their Interests are still the same entries. *)
Lemma pit_inv_heap h tb : pe_interest <$> h = pe_interest <$> tb_heap tb -> pit_inv tb -> pit_inv (with_heap h tb).
Proof.
  intros Heq Hi.
  assert (Hat : forall q, pe_interest <$> h !! q = pe_interest <$> tb_heap tb !! q) by (intros q; by rewrite <- !lookup_fmap, Heq).
  assert (Hold : forall q f, h !! q = Some f -> exists g, tb_heap tb !! q = Some g /\ pe_interest f = pe_interest g).
  { intros q f Hf. specialize (Hat q). rewrite Hf in Hat. symmetry in Hat. apply fmap_Some in Hat as (g&?&?). by exists g. }
  split; cbn [with_heap tb_tree tb_heap tb_next tb_pitItems].
  - apply Hi.
  - intros q f (g&Hg&Hf)%Hold. unfold pe_name. rewrite Hf. by apply (pi_entry _ Hi).
  - intros n q Hq. destruct (pi_ptr _ Hi n q Hq) as (f&Hf&Hn). specialize (Hat q). rewrite Hf in Hat.
    apply fmap_Some in Hat as (g&Hg&Hfg). exists g. split; [done|]. unfold pe_name. by rewrite <- Hfg.
  - apply Hi.
  - intros a b f g (f'&Hf'&Hf)%Hold (g'&Hg'&Hg)%Hold. unfold pe_name. rewrite Hf, Hg. by apply (pi_unique _ Hi a b).
  - intros q f (g&Hg&_)%Hold. by apply (pi_fresh _ Hi q g).
  - rewrite (pi_items _ Hi), <- (map_size_fmap pe_interest h), Heq. by rewrite map_size_fmap.
Qed.

Lemma pit_inv_update p e e' tb : tb_heap tb !! p = Some e -> pe_interest e' = pe_interest e ->
  pit_inv tb -> pit_inv (with_heap (<[p := e']> (tb_heap tb)) tb).
Proof.
  intros Hp He. apply pit_inv_heap. rewrite fmap_insert, He. apply insert_id. by rewrite lookup_fmap, Hp.
Qed.

Lemma find_ptr_spec i tb p : pit_inv tb -> gen_name (i_name i) ->
  find_ptr i (tb_heap tb) (np_pit (data_at (i_name i) (tb_tree tb))) = Some p <->
  exists e, tb_heap tb !! p = Some e /\ pe_name e = i_name i /\
    Selectors_equals (i_selectors (pe_interest e)) (i_selectors i) = true.
Proof.
  intros Hi Hn.
  assert (Hsound : forall q, find_ptr i (tb_heap tb) (np_pit (data_at (i_name i) (tb_tree tb))) = Some q ->
    exists e, tb_heap tb !! q = Some e /\ pe_name e = i_name i /\
      Selectors_equals (i_selectors (pe_interest e)) (i_selectors i) = true).
  { intros q [Hq Hs]%find_Some_elem. destruct (pi_ptr _ Hi _ _ Hq) as (e&He&Hen). rewrite He in Hs.
    apply andb_true_iff in Hs as [_ Hs]. by exists e. }
  split; [apply Hsound|]. intros (e&He&Hen&Hs).
  destruct (find_ptr i (tb_heap tb) (np_pit (data_at (i_name i) (tb_tree tb)))) as [q|] eqn:Hf.
  - destruct (Hsound q eq_refl) as (f&Hfq&Hfn&Hfs). f_equal.
    apply (pi_unique _ Hi q p f e); [done|done|congruence|].
    by eapply Selectors_equals_trans; [|apply Selectors_equals_sym].
  - exfalso. destruct (pi_entry _ Hi p e He) as [_ Hin]. rewrite Hen in Hin.
    eapply find_None_elem in Hf; [|exact Hin]. simpl in Hf. rewrite He in Hf. unfold same_interest in Hf.
    rewrite Hs, Hen, (proj2 (Name_equals_gen _ _ Hn Hn) eq_refl) in Hf. done.
Qed.

Lemma find_ptr_lookup i tb : pit_inv tb -> gen_name (i_name i) -> room (i_name i) tb ->
  pit_inv (with_tree (lookup (i_name i) (tb_tree tb)) tb) /\
  np_pit (data_at (i_name i) (lookup (i_name i) (tb_tree tb))) = np_pit (data_at (i_name i) (tb_tree tb)).
Proof.
  intros Hi Hn Hr. pose proof (pi_tree _ Hi) as Ht.
  assert (Hd : forall m, data_at m (lookup (i_name i) (tb_tree tb)) = data_at m (tb_tree tb)).
  { intros m. by apply data_lookup. }
  split; [|by rewrite Hd]. apply pit_inv_tree; [by apply lookup_spec|intros m; by rewrite Hd|done].
Qed.

Lemma heap_fresh tb : pit_inv tb -> tb_heap tb !! tb_next tb = None.
Proof.
  intros Hi. destruct (tb_heap tb !! tb_next tb) as [e|] eqn:He; [|done]. apply (pi_fresh _ Hi) in He. lia.
Qed.

(** Attaching a new entry. *)
Lemma pit_inv_insert i tb : pit_inv tb -> gen_name (i_name i) -> is_Some (payload_at (i_name i) (tb_tree tb)) ->
  find_ptr i (tb_heap tb) (np_pit (data_at (i_name i) (tb_tree tb))) = None ->
  pit_inv (with_pit (<[tb_next tb := PitEntry_new i]> (tb_heap tb)) (Pos.succ (tb_next tb)) (tb_pitItems tb + 1)
    (with_tree (update_payload (i_name i) (insertPitEntry (tb_next tb)) (tb_tree tb)) tb)).
Proof.
  intros Hi Hn Hs Hf. pose proof (pi_tree _ Hi) as Ht. pose proof (heap_fresh tb Hi) as Hfr. set (p := tb_next tb) in *.
  assert (Hd : forall m, np_pit (data_at m (update_payload (i_name i) (insertPitEntry p) (tb_tree tb))) =
    if bool_decide (m = i_name i) then np_pit (data_at m (tb_tree tb)) ++ [p] else np_pit (data_at m (tb_tree tb))).
  { intros m. rewrite data_update by done. case_bool_decide as Hm; [|done]. by rewrite Hm. }
  assert (Hnot : forall m, p ∉ np_pit (data_at m (tb_tree tb))).
  { intros m Hin. destruct (pi_ptr _ Hi m p Hin) as (e&He&_). congruence. }
  assert (Hnone : forall q e, tb_heap tb !! q = Some e -> pe_name e = i_name i ->
    Selectors_equals (i_selectors (pe_interest e)) (i_selectors i) = true -> False).
  { intros q e He Hen Hse. rewrite (proj2 (find_ptr_spec i tb q Hi Hn)) in Hf; [done|]. by exists e. }
  split; cbn [with_pit with_tree tb_tree tb_heap tb_next tb_pitItems].
  - by apply update_payload_spec.
  - intros q e. rewrite lookup_insert_Some, Hd. intros [[<- <-]|[Hne He]].
    + split; [done|]. rewrite bool_decide_true by done. apply elem_of_app. right. by apply list_elem_of_singleton.
    + destruct (pi_entry _ Hi q e He) as [Hg Hin]. split; [done|]. case_bool_decide; [|done]. apply elem_of_app. by left.
  - intros n q. rewrite Hd. intros Hq.
    assert (q ∈ np_pit (data_at n (tb_tree tb)) \/ (q = p /\ n = i_name i)) as [Hin|[-> ->]].
    { case_bool_decide; [|by left]. apply elem_of_app in Hq as [?|?%list_elem_of_singleton]; auto. }
    + destruct (pi_ptr _ Hi n q Hin) as (e&He&Hen). exists e. rewrite lookup_insert_ne; [done|]. intros ->. congruence.
    + exists (PitEntry_new i). by rewrite lookup_insert_eq.
  - intros n. rewrite Hd. case_bool_decide; [|apply Hi]. apply NoDup_app. split_and!; [apply Hi| |apply NoDup_singleton].
    intros x Hx ->%list_elem_of_singleton. by apply (Hnot n).
  - intros a b e f. rewrite !lookup_insert_Some. intros [[<- <-]|[Ha He]] [[<- <-]|[Hb Hf']] Hen Hse; [done|exfalso..|].
    + apply (Hnone b f Hf'); [by rewrite <- Hen|by apply Selectors_equals_sym].
    + by apply (Hnone a e He).
    + by apply (pi_unique _ Hi a b e f).
  - intros q e. rewrite lookup_insert_Some. intros [[<- _]|[_ He]]; [lia|]. apply (pi_fresh _ Hi) in He. fold p in He. lia.
  - rewrite map_size_insert_None, (pi_items _ Hi) by done. lia.
Qed.

(** Detaching an entry. *)
Lemma pit_inv_erase p tb : pit_inv tb -> pit_inv (Pit_erase p tb).
Proof.
  intros Hi. unfold Pit_erase. destruct (tb_heap tb !! p) as [e|] eqn:He; [|done]. pose proof (pi_tree _ Hi) as Ht.
  destruct (pi_entry _ Hi p e He) as [Hg Hin]. set (n := pe_name e) in *.
  assert (Hs : is_Some (payload_at n (tb_tree tb))).
  { apply data_present. intros Hd. rewrite Hd in Hin. by apply elem_of_nil in Hin. }
  set (t := update_payload n (erasePitEntry p) (tb_tree tb)).
  assert (Ht' : nt_inv t) by (by apply update_payload_spec).
  assert (Hd : forall m, np_pit (data_at m (eraseEntryIfEmpty n t)) =
    if bool_decide (m = n) then remove_ptr p (np_pit (data_at n (tb_tree tb))) else np_pit (data_at m (tb_tree tb))).
  { intros m. rewrite data_erase by done. unfold t. rewrite data_update by done. by case_bool_decide. }
  pose proof (remove_ptr_perm p _ Hin) as HP. pose proof (pi_nodup _ Hi n) as Hnd. rewrite HP in Hnd.
  apply NoDup_cons in Hnd as [Hnot Hnd].
  assert (Hel : forall m q, q ∈ np_pit (data_at m (eraseEntryIfEmpty n t)) <->
    q ∈ np_pit (data_at m (tb_tree tb)) /\ q <> p).
  { intros m q. rewrite Hd. case_bool_decide as Hm.
    - subst m. assert (q ∈ np_pit (data_at n (tb_tree tb)) <-> q ∈ p :: remove_ptr p (np_pit (data_at n (tb_tree tb)))) as ->
        by (by apply elem_of_Permutation_proper). rewrite elem_of_cons. naive_solver.
    - split; [|tauto]. intros Hq. split; [done|]. intros ->. destruct (pi_ptr _ Hi m p Hq) as (f&Hf&Hfn).
      rewrite He in Hf. injection Hf as <-. done. }
  split; cbn [with_pit with_tree tb_tree tb_heap tb_next tb_pitItems].
  - by apply nt_inv_erase.
  - intros q f. rewrite lookup_delete_Some, Hel. intros [Hne Hf]. destruct (pi_entry _ Hi q f Hf). done.
  - intros m q. rewrite Hel. intros [Hq Hne]. destruct (pi_ptr _ Hi m q Hq) as (f&Hf&Hfn). exists f.
    by rewrite lookup_delete_ne by done.
  - intros m. rewrite Hd. case_bool_decide; [done|apply Hi].
  - intros a b f g. rewrite !lookup_delete_Some. intros [_ Hf] [_ Hg']. by apply (pi_unique _ Hi a b).
  - intros q f. rewrite lookup_delete_Some. intros [_ Hf]. by apply (pi_fresh _ Hi q f).
  - rewrite map_size_delete_Some, (pi_items _ Hi) by (by exists e).
    assert (size (tb_heap tb) <> 0)%nat by (intros Hz%map_size_empty_iff; rewrite Hz in He; by rewrite lookup_empty in He).
    lia.
Qed.

(** What [findOrInsert] does, in terms of the entries. *)
Lemma findOrInsert_spec i allow tb : pit_inv tb -> gen_name (i_name i) -> room (i_name i) tb ->
  exists r isNew tb', findOrInsert i allow tb = (r, isNew, tb') /\ pit_inv tb' /\
  ((exists p e, r = Some p /\ isNew = false /\ tb_heap tb' = tb_heap tb /\ tb_heap tb !! p = Some e /\
      pe_name e = i_name i /\ Selectors_equals (i_selectors (pe_interest e)) (i_selectors i) = true) \/
   ((forall p e, tb_heap tb !! p = Some e -> pe_name e = i_name i ->
       Selectors_equals (i_selectors (pe_interest e)) (i_selectors i) = false) /\ isNew = true /\
    if allow then r = Some (tb_next tb) /\ tb_heap tb' = <[tb_next tb := PitEntry_new i]> (tb_heap tb)
    else r = None /\ tb_heap tb' = tb_heap tb)).
Proof.
  intros Hi Hn Hr. destruct (find_ptr_lookup i tb Hi Hn Hr) as [Hi1 Hd1].
  pose proof (lookup_present (i_name i) (tb_tree tb) (pi_tree _ Hi) Hn Hr) as Hpres.
  unfold findOrInsert. rewrite lookup_entry_gen by (done || apply Hi). cbv zeta. set (t1 := lookup (i_name i) (tb_tree tb)) in *. set (tb1 := with_tree t1 tb) in *.
  change (data_at (i_name i) t1) with (data_at (i_name i) (tb_tree tb1)).
  destruct (find_ptr i (tb_heap tb1) (np_pit (data_at (i_name i) (tb_tree tb1)))) as [p|] eqn:Hf.
  - pose proof (proj1 (find_ptr_spec i tb1 p Hi1 Hn) Hf) as (e&He&Hen&Hes).
    exists (Some p), false, tb1. split_and!; [done|done|]. left. exists p, e. done.
  - assert (Hnone : forall p e, tb_heap tb !! p = Some e -> pe_name e = i_name i ->
       Selectors_equals (i_selectors (pe_interest e)) (i_selectors i) = false).
    { intros p e He Hen. apply not_true_iff_false. intros Hes.
      rewrite (proj2 (find_ptr_spec i tb1 p Hi1 Hn)) in Hf; [done|]. by exists e. }
    destruct allow; cbn [negb].
    + eexists _, _, _. split; [done|]. split; [exact (pit_inv_insert i tb1 Hi1 Hn Hpres Hf)|]. right. done.
    + eexists _, _, _. split; [done|]. split; [done|]. right. done.
Qed.

(** [findOrInsert] does not touch the other tables. *)
Lemma findOrInsert_other i allow tb : pit_inv tb -> gen_name (i_name i) -> room (i_name i) tb ->
  forall m, let x := data_at m (tb_tree (findOrInsert i allow tb).2) in let y := data_at m (tb_tree tb) in
    np_fib x = np_fib y /\ np_measurements x = np_measurements y /\ np_strategy x = np_strategy y.
Proof.
  intros Hi Hn Hr m. pose proof (pi_tree _ Hi) as Ht.
  assert (Hd : forall k, data_at k (lookup (i_name i) (tb_tree tb)) = data_at k (tb_tree tb)) by (intros k; by apply data_lookup).
  unfold findOrInsert. rewrite lookup_entry_gen by done. cbv zeta. destruct (find_ptr _ _ _); [|destruct (negb allow)]; cbn [snd with_pit with_tree tb_tree].
  - by rewrite Hd.
  - by rewrite Hd.
  - rewrite data_update, !Hd by (by apply lookup_spec || by apply lookup_present). by case_bool_decide; [subst m|].
Qed.

(** An empty entry of the tree after the payload at [n] changed is at [n]. *)
Lemma tidy_update {X} `{Payload X} n (f : X -> X) (t : NameTree X) :
  tidy_except None t -> tidy_except (Some n) (update_payload n f t).
Proof.
  intros Ht e He Hem. unfold update_payload in He. rewrite entries_modify in He.
  apply list_elem_of_fmap in He as (x&->&Hx). revert Hem. case_bool_decide as Hxn; intros Hem; [by rewrite <- Hxn|].
  by specialize (Ht x Hx Hem).
Qed.

Lemma erase_tidy {X} `{Payload X} n (t : NameTree X) : nt_inv t -> tidy_except (Some n) t ->
  tidy_except None (eraseEntryIfEmpty n t).
Proof. intros Hi Ht. destruct (erase_loop_spec (S (length n)) n t Hi) as (_&_&_&Htidy). apply Htidy; [lia|done]. Qed.

(** C31. For Interests whose names have generic components only, and room in the name
    tree, the PIT is a map from name and selectors to entries: inserting such an Interest,
    whose selectors can be encoded, gives the entry it already has, or a new one with no
    records, and leaves all other entries alone; finding it afterwards gives the same
    entry.  (Among names of all types it is not such a map: [Component::equals] ignores the
    type, and an Interest with an implicit digest can get the entry of a generic name with
    the same bytes, when they share a bucket.) *)
Theorem pit_insert_find i tb : pit_inv tb -> gen_name (i_name i) -> room (i_name i) tb ->
  Selectors_equals (i_selectors i) (i_selectors i) = true ->
  exists p isNew tb', Pit_insert i tb = (Some p, isNew, tb') /\ pit_inv tb' /\
    tb_heap tb' = (if isNew : bool then <[p := PitEntry_new i]> (tb_heap tb) else tb_heap tb) /\
    (isNew = true -> tb_heap tb !! p = None) /\
    (isNew = false <-> exists q e, tb_heap tb !! q = Some e /\ pe_name e = i_name i /\
       Selectors_equals (i_selectors (pe_interest e)) (i_selectors i) = true) /\
    (room (i_name i) tb' -> (Pit_find i tb').1 = Some p).
Proof.
  intros Hi Hn Hr Hs. unfold Pit_insert.
  destruct (findOrInsert_spec i true tb Hi Hn Hr) as (r&isNew&tb'&->&Hi'&Hcase).
  assert (Hfind : forall p e, room (i_name i) tb' -> tb_heap tb' !! p = Some e -> pe_name e = i_name i ->
    Selectors_equals (i_selectors (pe_interest e)) (i_selectors i) = true -> (Pit_find i tb').1 = Some p).
  { intros p e Hr' He Hen Hes. unfold Pit_find.
    destruct (findOrInsert_spec i false tb' Hi' Hn Hr') as (r2&b2&tb2&->&_&[(q&f&->&_&_&Hf&Hfn&Hfs)|(Hno&_)]).
    - simpl. f_equal. apply (pi_unique _ Hi' q p f e); [done|done|congruence|].
      by eapply Selectors_equals_trans; [|apply Selectors_equals_sym].
    - rewrite (Hno p e He Hen) in Hes. done. }
  destruct Hcase as [(p&e&->&->&Hh&He&Hen&Hes)|(Hno&->&->&Hh)].
  - exists p, false, tb'. split_and!; [done|done|done|done| |].
    + split; [|done]. intros _. by exists p, e.
    + intros Hr'. apply (Hfind p e Hr'); [by rewrite Hh|done|done].
  - exists (tb_next tb), true, tb'. split_and!; [done|done|done| | |].
    + intros _. by apply heap_fresh.
    + split; [done|]. intros (q&f&Hf&Hfn&Hfs). rewrite (Hno q f Hf Hfn) in Hfs. done.
    + intros Hr'. apply (Hfind _ (PitEntry_new i) Hr'); [by rewrite Hh, lookup_insert_eq|done|done].
Qed.

Lemma Pit_erase_other p tb : pit_inv tb ->
  tb_heap (Pit_erase p tb) = delete p (tb_heap tb) /\
  (forall n, let x := data_at n (tb_tree (Pit_erase p tb)) in let y := data_at n (tb_tree tb) in
     np_fib x = np_fib y /\ np_measurements x = np_measurements y /\ np_strategy x = np_strategy y).
Proof.
  intros Hi. unfold Pit_erase.
  destruct (tb_heap tb !! p) as [e|] eqn:He; [|split; [by rewrite delete_id|done]].
  pose proof (pi_tree _ Hi) as Ht. destruct (pi_entry _ Hi p e He) as [Hg Hin].
  assert (Hs : is_Some (payload_at (pe_name e) (tb_tree tb))).
  { apply data_present. intros Hd. rewrite Hd in Hin. by apply elem_of_nil in Hin. }
  cbn [with_pit with_tree tb_tree tb_heap]. split; [done|].
  intros n. rewrite data_erase, data_update by (done || by apply update_payload_spec).
  case_bool_decide as Hn; [|done]. by subst n.
Qed.

(** Erasing a PIT entry removes it and no other, keeps the table and the
    name tree consistent, and leaves no empty entry behind in the name
    tree. *)
Theorem pit_erase_correct p tb : pit_inv tb ->
  pit_inv (Pit_erase p tb) /\ tb_heap (Pit_erase p tb) = delete p (tb_heap tb) /\
  (tidy_except None (tb_tree tb) -> tidy_except None (tb_tree (Pit_erase p tb))) /\
  (forall n, let x := data_at n (tb_tree (Pit_erase p tb)) in let y := data_at n (tb_tree tb) in
     np_fib x = np_fib y /\ np_measurements x = np_measurements y /\ np_strategy x = np_strategy y).
Proof.
  intros Hi. destruct (Pit_erase_other p tb Hi) as [Hh Hother].
  split_and!; [by apply pit_inv_erase|done| |done]. intros Htidy. unfold Pit_erase.
  destruct (tb_heap tb !! p) as [e|] eqn:He; [|done]. cbn [with_pit with_tree tb_tree].
  apply erase_tidy; [apply update_payload_spec, Hi|by apply tidy_update].
Qed.

(** Looking up an Interest that has no PIT entry, as the incoming Nack
    pipeline does, creates entries of the name tree for it: they carry
    nothing and stay. *)
Theorem pit_find_grows_tree i tb : pit_inv tb -> gen_name (i_name i) -> room (i_name i) tb ->
  payload_at (i_name i) (tb_tree tb) = None ->
  exists tb', Pit_find i tb = (None, tb') /\ payload_at (i_name i) (tb_tree tb') = Some payload_empty /\
    ~ tidy_except None (tb_tree tb').
Proof.
  intros Hi Hn Hr Hnone. destruct (lookup_spec (i_name i) (tb_tree tb) (pi_tree _ Hi) Hn Hr) as (Ht&_&Hp).
  assert (Hd : data_at (i_name i) (lookup (i_name i) (tb_tree tb)) = payload_empty).
  { unfold data_at. rewrite Hp, bool_decide_true, Hnone by done. done. }
  unfold Pit_find, findOrInsert. rewrite lookup_entry_gen by (done || apply Hi). cbv zeta. rewrite Hd. cbn [np_pit payload_empty NtPayload_Payload NtPayload_empty find_ptr List.find negb].
  eexists. split; [done|]. cbn [with_tree tb_tree].
  assert (Hpe : payload_at (i_name i) (lookup (i_name i) (tb_tree tb)) = Some payload_empty).
  { by rewrite Hp, bool_decide_true, Hnone. }
  split; [done|]. intros Htidy. destruct (proj1 (tidy_iff (i_name i) _ Ht Htidy)) as (k&x&Hx&Hxe); [by eexists|].
  assert (Hk : is_Some (payload_at (i_name i ++ k) (tb_tree tb)) \/ k = []).
  { rewrite Hp in Hx. revert Hx. case_bool_decide as Hpre; intros Hx; [|left; by eexists]. right.
    apply prefix_length in Hpre. rewrite length_app in Hpre. destruct k; [done|simpl in Hpre; lia]. }
  destruct Hk as [Hk| ->].
  - apply payload_prefix in Hk; [|apply Hi]. rewrite Hnone in Hk. by destruct Hk.
  - rewrite app_nil_r, Hpe in Hx. injection Hx as <-. done.
Qed.

Lemma last_not_digest n c : gen_name n -> last n = Some c -> isImplicitSha256Digest c = false.
Proof.
  intros Hn Hl. apply last_Some in Hl as [l ->]. apply Forall_app in Hn as [_ [Hc _]%Forall_cons].
  destruct Hc as [Hc _]. unfold isImplicitSha256Digest. by rewrite Hc.
Qed.

(** A match is by prefix when the Interest's name has no digest. *)
Lemma matchesData_prefix i d : gen_name (i_name i) -> gen_name (d_name d) -> matchesData i d = true ->
  i_name i `prefix_of` d_name d.
Proof.
  intros Hi Hd. unfold matchesData. cbv zeta. destruct (negb _); [done|]. destruct (_ && _); [done|].
  destruct (Z.eqb_spec (len (i_name i)) (len (d_name d) + 1)) as [He|Hne].
  - destruct (last (i_name i)) as [c|] eqn:Hl; [|done]. rewrite (last_not_digest _ _ Hi Hl). done.
  - destruct (isPrefixOf (i_name i) (d_name d)) eqn:Hp; [|done]. intros _. by apply isPrefixOf_gen.
Qed.

Lemma elem_of_concat_map {A B} (f : A -> list B) l y : y ∈ concat (map f l) <-> exists x, x ∈ l /\ y ∈ f x.
Proof.
  induction l as [|x l IH]; simpl.
  - split; [by intros ?%elem_of_nil|]. intros (?&?%elem_of_nil&_). done.
  - rewrite elem_of_app, IH. setoid_rewrite elem_of_cons. naive_solver.
Qed.

Lemma elem_of_bfilter {A} (f : A -> bool) l x : x ∈ List.filter f l <-> x ∈ l /\ f x = true.
Proof. rewrite !list_elem_of_In. apply filter_In. Qed.

Lemma NoDup_concat_map {A B} (f : A -> list B) l : NoDup l -> (forall x, x ∈ l -> NoDup (f x)) ->
  (forall x y z, x ∈ l -> y ∈ l -> z ∈ f x -> z ∈ f y -> x = y) -> NoDup (concat (map f l)).
Proof.
  induction l as [|x l IH]; intros Hnd Hf Hd; cbn [map concat]; [apply NoDup_nil_2|].
  apply NoDup_cons in Hnd as [Hx Hnd]. apply NoDup_app. split_and!; [apply Hf; left| |].
  - intros z Hz (y&Hy&Hzy)%elem_of_concat_map. destruct Hx. rewrite (Hd x y z); [done|left|by right|done|done].
  - apply IH; [done|intros y Hy; apply Hf; by right|]. intros y y' z Hy Hy'. apply Hd; by right.
Qed.

(** Every match is a PIT entry, once. *)
Lemma findAllDataMatches_entries d tb : pit_inv tb -> NoDup (findAllDataMatches d tb) /\
  forall p, p ∈ findAllDataMatches d tb -> exists e, tb_heap tb !! p = Some e /\ matchesData (pe_interest e) d = true.
Proof.
  intros Hi. pose proof (pi_tree _ Hi) as Ht. unfold findAllDataMatches. cbv zeta.
  destruct (findAllMatches_entries (d_name d) (fun e => hasPitEntries (nte_payload e)) (tb_tree tb) Ht) as [Hin Hnd].
  assert (Hpit : forall x, x ∈ entries (tb_tree tb) -> np_pit (nte_payload x) = np_pit (data_at (nte_prefix x) (tb_tree tb))).
  { intros x Hx. by rewrite data_entry. }
  split.
  - apply NoDup_concat_map; [done| |].
    + intros x Hx. apply NoDup_ListNoDup, List.NoDup_filter, NoDup_ListNoDup. rewrite Hpit by (by apply Hin). apply Hi.
    + intros x y z Hx Hy [Hzx _]%elem_of_bfilter [Hzy _]%elem_of_bfilter. apply Hin in Hx, Hy.
      rewrite Hpit in Hzx, Hzy by done. destruct (pi_ptr _ Hi _ _ Hzx) as (e&He&Hex), (pi_ptr _ Hi _ _ Hzy) as (f&Hf&Hfy).
      rewrite He in Hf. injection Hf as <-. apply (prefix_unique (entries (tb_tree tb))); [apply Ht|done|done|congruence].
  - intros p (x&_&[_ Hm]%elem_of_bfilter)%elem_of_concat_map. destruct (tb_heap tb !! p) as [e|]; [|done]. by exists e.
Qed.

(** [findAllDataMatches] finds exactly the pending Interests that the
    Data satisfies, when the prefixes of the Data name have distinct
    hashes. *)
Theorem pit_data_matches d tb : pit_inv tb -> gen_name (d_name d) -> NoDup (computeHashSet (d_name d)) ->
  forall p, p ∈ findAllDataMatches d tb <->
    exists e, tb_heap tb !! p = Some e /\ matchesData (pe_interest e) d = true.
Proof.
  intros Hi Hd Hnd p. unfold findAllDataMatches. cbv zeta. rewrite elem_of_concat_map. pose proof (pi_tree _ Hi) as Ht.
  setoid_rewrite (findAllMatches_matches (d_name d) _ (tb_tree tb) Ht Hd Hnd). setoid_rewrite elem_of_bfilter. split.
  - intros (x&(Hx&_&_)&Hp&Hm). destruct (tb_heap tb !! p) as [e|]; [|done]. by exists e.
  - intros (e&He&Hm). destruct (pi_entry _ Hi p e He) as [Hg Hin].
    pose proof (matchesData_prefix (pe_interest e) d Hg Hd Hm) as Hpre.
    assert (Hs : hasPitEntries payload_empty = false) by done.
    destruct (proj2 (matches_data (d_name d) hasPitEntries (tb_tree tb) (pe_name e) Ht Hs)) as (x&Hx&Hxp).
    { split; [done|]. unfold hasPitEntries. destruct (np_pit _); [by apply elem_of_nil in Hin|done]. }
    exists x. split_and!; [done| |by rewrite He]. rewrite <- (data_entry x _ Ht), Hxp by apply Hx. done.
Qed.

(** ** Interests with an implicit digest *)

(** Every PIT entry is attached at its name, and parents have shorter
    names. *)
Definition attached tb : bool :=
  forallb (fun e =>
    match nte_parent e with Some n => len n <=? len (nte_prefix e) | None => true end &&
    forallb (fun p => match tb_heap tb !! p with Some x => bool_decide (pe_name x = nte_prefix e) | None => true end)
      (np_pit (nte_payload e))) (entries (tb_tree tb)).

Lemma attached_elem tb e : attached tb = true -> e ∈ entries (tb_tree tb) ->
  (forall n, nte_parent e = Some n -> len n <= len (nte_prefix e)) /\
  (forall p x, p ∈ np_pit (nte_payload e) -> tb_heap tb !! p = Some x -> pe_name x = nte_prefix e).
Proof.
  intros Ha He. unfold attached in Ha. rewrite forallb_forall in Ha. specialize (Ha e). rewrite <- list_elem_of_In in Ha.
  apply andb_true_iff in Ha as [Hp Hx]; [|done]. split.
  - intros n Hn. rewrite Hn in Hp. lia.
  - intros p x Hin Hh. rewrite forallb_forall in Hx. specialize (Hx p). rewrite <- list_elem_of_In, Hh in Hx.
    specialize (Hx Hin). by apply bool_decide_eq_true in Hx.
Qed.

Lemma ancestors_len tb sel fuel : attached tb = true -> forall n x,
  x ∈ ancestors fuel (Some n) sel (tb_tree tb) -> x ∈ entries (tb_tree tb) /\ len (nte_prefix x) <= len n.
Proof.
  intros Ha. induction fuel as [|fuel IH]; intros n x Hx; cbn [ancestors] in Hx; [by apply elem_of_nil in Hx|].
  destruct (deref n (tb_tree tb)) as [e|] eqn:Hd; [|by apply elem_of_nil in Hx]. apply deref_elem in Hd as [He <-].
  apply elem_of_app in Hx as [Hx|Hx].
  - destruct (sel e); [|by apply elem_of_nil in Hx]. apply list_elem_of_singleton in Hx as ->. split; [done|lia].
  - destruct (nte_parent e) as [m|] eqn:Hm; [|destruct fuel; by apply elem_of_nil in Hx].
    destruct (IH m x Hx). split; [done|]. pose proof (proj1 (attached_elem tb e Ha He) m Hm). lia.
Qed.

Lemma lpm_loop_len {X} `{Payload X} hs n sel (t : NameTree X) e : lpm_loop hs n sel t = Some e ->
  e ∈ entries t /\ len (nte_prefix e) <= len n.
Proof.
  intros [He Hp]%lpm_in_tree. split; [done|]. unfold isPrefixOf in Hp. destruct (Z.ltb_spec (len n) (len (nte_prefix e))); [done|lia].
Qed.

(** A pending Interest that asks for a Data by its full name, implicit
    digest included, is never found by [findAllDataMatches], although the
    Data satisfies it: the search only visits prefixes of the Data name, which
    is shorter. *)
Theorem pit_misses_full_names d p e tb : attached tb = true ->
  tb_heap tb !! p = Some e -> pe_name e = getFullName d -> p ∉ findAllDataMatches d tb.
Proof.
  intros Ha He Hn. unfold findAllDataMatches. cbv zeta. rewrite elem_of_concat_map. intros (x&Hx&[Hp _]%elem_of_bfilter).
  assert (Hlen : x ∈ entries (tb_tree tb) /\ len (nte_prefix x) <= len (d_name d)).
  { unfold findAllMatches in Hx. destruct (findLongestPrefixMatch _ _ _) as [y|] eqn:Hy; [|by apply elem_of_nil in Hx].
    apply lpm_loop_len in Hy as [Hy Hly]. apply elem_of_cons in Hx as [->|Hx]; [done|].
    destruct (nte_parent y) as [m|] eqn:Hm; [|destruct (length _); by apply elem_of_nil in Hx].
    destruct (ancestors_len tb _ _ Ha m x Hx). pose proof (proj1 (attached_elem tb y Ha Hy) m Hm). split; [done|lia]. }
  destruct Hlen as [Hx' Hlen]. pose proof (proj2 (attached_elem tb x Ha Hx') p e Hp He) as Hpx.
  rewrite <- Hpx, Hn, len_full in Hlen. lia.
Qed.
End Facts.

(** ** Concrete tables *)

Module PitTableSamples.
#[local] Existing Instance sample_sha256.
#[local] Existing Instance Samples.SampleHash.
Import PitSamples.

(** Four buckets. *)
Definition tables0 : Tables := MkTables (NameTree_empty 4) ∅ 1%positive 0 0 0 0 [].

Lemma pit_inv_tables0 : pit_inv tables0.
Proof.
  assert (Hd : forall m, data_at m (tb_tree tables0) = payload_empty) by (intros m; by vm_compute).
  split.
  - apply (nt_inv_empty 2). lia.
  - intros p e Hp. by vm_compute in Hp.
  - intros n p. rewrite Hd. by intros ?%elem_of_nil.
  - intros n. rewrite Hd. apply NoDup_nil_2.
  - intros p q e f Hp. by vm_compute in Hp.
  - intros p e Hp. by vm_compute in Hp.
  - done.
Qed.

Definition i1 : Interest := plain_interest name_ab 7 4000.
Definition tables1 : Tables := (Pit_insert i1 tables0).2.

Lemma pit_inv_tables1 : pit_inv tables1.
Proof.
  destruct (findOrInsert_spec i1 true tables0) as (r&b&tb'&Heq&Hi&_); [apply pit_inv_tables0|by_decide|by vm_compute|].
  unfold tables1, Pit_insert. by rewrite Heq.
Qed.

Lemma heap_tables1 : tb_heap tables1 !! (1%positive : PitPtr) = Some (PitEntry_new i1).
Proof. by vm_compute. Qed.

Lemma pit_insert_find_witness :
  exists p tb', Pit_insert i1 tables1 = (Some p, false, tb') /\ tb_heap tb' = tb_heap tables1.
Proof.
  destruct (pit_insert_find i1 tables1) as (p&isNew&tb'&Heq&_&Hh&_&Hnew&_);
    [apply pit_inv_tables1|by_decide|by vm_compute|by vm_compute|].
  exists p, tb'. destruct isNew; [exfalso|exact (conj Heq Hh)].
  discriminate (proj2 Hnew (ex_intro _ 1%positive (ex_intro _ (PitEntry_new i1) (conj heap_tables1 (conj eq_refl eq_refl))))).
Defined.

Lemma pit_erase_correct_witness : tb_heap (Pit_erase 1%positive tables1) = ∅ /\ entries (tb_tree (Pit_erase 1%positive tables1)) = [].
Proof.
  destruct (pit_erase_correct 1%positive tables1 pit_inv_tables1) as (_&->&_). split; by vm_compute.
Defined.

Lemma pit_find_grows_tree_witness :
  exists tb', Pit_find i1 tables0 = (None, tb') /\ ~ tidy_except None (tb_tree tb').
Proof.
  destruct (pit_find_grows_tree i1 tables0) as (tb'&Hf&_&Ht);
    [apply pit_inv_tables0|by_decide|by vm_compute|by vm_compute|]. exists tb'. exact (conj Hf Ht).
Defined.

Definition data_abc : Data := MkData (name_ab ++ [generic [99]]) (-1) Block_empty [6; 0] false.

Lemma pit_data_matches_witness : (1%positive : PitPtr) ∈ findAllDataMatches data_abc tables1.
Proof.
  apply (pit_data_matches data_abc tables1 pit_inv_tables1); [by_decide|by_decide|].
  exists (PitEntry_new i1). split; [exact heap_tables1|by vm_compute].
Defined.

(** The full name of [sample_data] is [/a/b] and the digest. *)
Definition tables2 : Tables := (Pit_insert sample_interest tables0).2.

Lemma pit_misses_full_names_witness :
  ((1%positive : PitPtr) ∉ findAllDataMatches sample_data tables2) /\ matchesData sample_interest sample_data = true.
Proof.
  split; [|by vm_compute].
  apply (pit_misses_full_names sample_data 1%positive (PitEntry_new sample_interest) tables2); by vm_compute.
Defined.
End PitTableSamples.
