(* ===== verification/Fib.v ===== *)
(** * The forwarding information base: [NFD/daemon/table/fib.cpp]

    At most one FIB entry is attached to an entry of the name tree.  A pointer
    to a FIB entry is the name it is attached to. *)

From S2P Require Import Prelude StdMap Tlv Block Encoder NameComponent Name Exclude Packet CsEntry.
From S2P Require Import CsPolicy NameTree FibEntry PitEntry Tables Pit.

Section Fib.
Context `{CityHash} `{StdSort}.
Implicit Types (tb : Tables) (n : Name).

(** [predicate_NameTreeEntry_hasFibEntry] *)
Definition hasFibEntry (x : NtPayload) : bool := match np_fib x with Some _ => true | None => false end.

(** [s_emptyEntry] *)
Definition emptyEntry : FibEntry := FibEntry_new [].

Definition fib_of (r : option (NtEntry NtPayload)) : FibEntry :=
  match r with
  | Some nte => default emptyEntry (np_fib (nte_payload nte))
  | None => emptyEntry
  end.

(** [findLongestPrefixMatch] of a name, and of an entry of the name tree *)
Definition Fib_findLongestPrefixMatch n tb : FibEntry :=
  fib_of (findLongestPrefixMatch n (fun e => hasFibEntry (nte_payload e)) (tb_tree tb)).

Definition Fib_findLongestPrefixMatch_entry n tb : FibEntry :=
  match np_fib (data_at n (tb_tree tb)) with
  | Some e => e
  | None => fib_of (findLongestPrefixMatch_entry n (fun e => hasFibEntry (nte_payload e)) (tb_tree tb))
  end.

Definition Fib_findExactMatch n tb : option FibEntry :=
  match findExactMatch n (tb_tree tb) with
  | Some nte => np_fib (nte_payload nte)
  | None => None
  end.

(** The entry of the name tree that has the FIB entry, and whether it is new *)
Definition Fib_insert n tb : Name * bool * Tables :=
  let '(nameTreeEntry, t) := lookup_entry n (tb_tree tb) in
  match np_fib (data_at nameTreeEntry t) with
  | Some _ => (nameTreeEntry, false, with_tree t tb)
  | None =>
      let t := update_payload nameTreeEntry (set_fib (Some (FibEntry_new n))) t in
      (nameTreeEntry, true, with_fibItems (to_u64 (tb_fibItems tb + 1)) (with_tree t tb))
  end.

(** A change of the entry at [n] through a pointer to it *)
Definition Fib_modify n (f : FibEntry -> FibEntry) tb : Tables :=
  with_tree (update_payload n (fun x => set_fib (f <$> np_fib x) x) (tb_tree tb)) tb.

(** [erase(nameTreeEntry)] *)
Definition Fib_eraseEntry n tb : Tables :=
  let t := update_payload n (set_fib None) (tb_tree tb) in
  let t := eraseEntryIfEmpty n t in
  with_fibItems (to_u64 (tb_fibItems tb - 1)) (with_tree t tb).

Definition Fib_erase n tb : Tables :=
  match findExactMatch n (tb_tree tb) with
  | Some nte => Fib_eraseEntry (nte_prefix nte) tb
  | None => tb
  end.

(** The first loop of [removeNextHopFromAllEntries]: one entry of the
    enumeration, and the entries to erase so far. *)
Definition remove_step (face : FacePtr) (acc : Tables * list Name) (nte : NtEntry NtPayload) : Tables * list Name :=
  let '(tb, toErase) := acc in
  match np_fib (nte_payload nte) with
  | None => acc
  | Some e =>
      let e := removeNextHop face e in
      let tb := with_tree (update_payload (nte_prefix nte) (set_fib (Some e)) (tb_tree tb)) tb in
      (tb, if hasNextHops e then toErase else toErase ++ [nte_prefix nte])
  end.

Definition removeNextHopFromAllEntries (face : FacePtr) tb : Tables :=
  let enumerable := fullEnumerate (fun e => hasFibEntry (nte_payload e)) (tb_tree tb) in
  let '(tb, toErase) := fold_left (remove_step face) enumerable (tb, []) in
  fold_left (fun tb n => Fib_eraseEntry n tb) toErase tb.
End Fib.

Section Facts.
Context `{CityHash} `{StdSort}.
Implicit Types (tb : Tables) (n m : Name).

(** The FIB as a map from names to entries. *)
Definition fib_at n tb : option FibEntry := np_fib (data_at n (tb_tree tb)).

Lemma hasFib_iff n tb : hasFibEntry (data_at n (tb_tree tb)) = true <-> is_Some (fib_at n tb).
Proof. unfold hasFibEntry, fib_at. destruct (np_fib _); split; done || (by eexists) || (by intros []). Qed.

Lemma fib_present n tb : is_Some (fib_at n tb) -> is_Some (payload_at n (tb_tree tb)).
Proof. intros [e He]. apply data_present. intros Hd. unfold fib_at in He. by rewrite Hd in He. Qed.

Lemma eraseEntry_spec n tb : nt_inv (tb_tree tb) -> is_Some (payload_at n (tb_tree tb)) ->
  nt_inv (tb_tree (Fib_eraseEntry n tb)) /\
  forall m, data_at m (tb_tree (Fib_eraseEntry n tb)) =
    if bool_decide (m = n) then set_fib None (data_at m (tb_tree tb)) else data_at m (tb_tree tb).
Proof.
  intros Ht Hs. assert (Ht' : nt_inv (update_payload n (set_fib None) (tb_tree tb))) by (by apply update_payload_spec).
  split; [by apply nt_inv_erase|]. intros m. cbn [Fib_eraseEntry with_fibItems with_tree tb_tree].
  rewrite data_erase, data_update by done. case_bool_decide as Hm; [by subst m|done].
Qed.

Lemma erase_all_spec l : forall tb, nt_inv (tb_tree tb) -> NoDup l -> (forall n, n ∈ l -> is_Some (fib_at n tb)) ->
  let tb' := fold_left (fun tb n => Fib_eraseEntry n tb) l tb in
  nt_inv (tb_tree tb') /\ forall m, data_at m (tb_tree tb') =
    if bool_decide (m ∈ l) then set_fib None (data_at m (tb_tree tb)) else data_at m (tb_tree tb).
Proof.
  induction l as [|n l IH]; intros tb Ht Hnd Hfib; cbn [fold_left]; cbv zeta.
  - split; [done|]. intros m. rewrite bool_decide_false; [done|apply not_elem_of_nil].
  - apply NoDup_cons in Hnd as [Hn Hnd].
    destruct (eraseEntry_spec n tb Ht (fib_present n tb (Hfib n ltac:(left)))) as [Ht1 Hd1].
    destruct (IH (Fib_eraseEntry n tb) Ht1 Hnd) as [Ht2 Hd2].
    { intros m Hm. unfold fib_at. rewrite Hd1, bool_decide_false by (intros ->; done). apply Hfib. by right. }
    split; [done|]. intros m. rewrite Hd2, Hd1. destruct (decide (m = n)) as [->|Hne].
    + rewrite (bool_decide_false (n ∈ l)) by done. rewrite !bool_decide_true; [done|left|done].
    + rewrite (bool_decide_false (m = n)) by done. apply bool_decide_ext_if. rewrite elem_of_cons. tauto.
Qed.

(** The entry after the face is gone, [None] when no next hop is left. *)
Definition without (face : FacePtr) (e : FibEntry) : option FibEntry :=
  let e := removeNextHop face e in if hasNextHops e then Some e else None.

Lemma remove_all_spec face l : forall tb acc, nt_inv (tb_tree tb) -> NoDup (map nte_prefix l) ->
  (forall x, x ∈ l -> data_at (nte_prefix x) (tb_tree tb) = nte_payload x /\ is_Some (np_fib (nte_payload x))) ->
  exists tb' er, fold_left (remove_step face) l (tb, acc) = (tb', acc ++ er) /\ nt_inv (tb_tree tb') /\
    er `sublist_of` map nte_prefix l /\
    (forall n, n ∈ er -> exists e, fib_at n tb = Some e /\ without face e = None) /\
    (forall x e, x ∈ l -> fib_at (nte_prefix x) tb = Some e -> without face e = None -> nte_prefix x ∈ er) /\
    forall m, data_at m (tb_tree tb') =
      if bool_decide (m ∈ map nte_prefix l)
      then set_fib (removeNextHop face <$> fib_at m tb) (data_at m (tb_tree tb)) else data_at m (tb_tree tb).
Proof.
  induction l as [|x l IH]; intros tb acc Ht Hnd Hl; cbn [fold_left].
  - exists tb, []. rewrite app_nil_r. split_and!; [done|done|done|by intros ? ?%elem_of_nil|by intros ?? ?%elem_of_nil|].
    intros m. rewrite bool_decide_false; [done|apply not_elem_of_nil].
  - cbn [map] in Hnd. apply NoDup_cons in Hnd as [Hx Hnd]. set (n := nte_prefix x) in *.
    destruct (Hl x ltac:(left)) as [Hd [e He]]. fold n in Hd.
    assert (Hfx : fib_at n tb = Some e) by (unfold fib_at; by rewrite Hd).
    set (tb1 := with_tree (update_payload n (set_fib (Some (removeNextHop face e))) (tb_tree tb)) tb).
    assert (Hd1 : forall m, data_at m (tb_tree tb1) =
      if bool_decide (m = n) then set_fib (Some (removeNextHop face e)) (data_at n (tb_tree tb)) else data_at m (tb_tree tb)).
    { intros m. unfold tb1. cbn [with_tree tb_tree]. rewrite data_update; [done|done|]. apply fib_present. by exists e. }
    assert (Hother : forall m, m <> n -> data_at m (tb_tree tb1) = data_at m (tb_tree tb)).
    { intros m Hm. by rewrite Hd1, bool_decide_false. }
    set (acc1 := if hasNextHops (removeNextHop face e) then acc else acc ++ [n]).
    assert (Hstep : remove_step face (tb, acc) x = (tb1, acc1)) by (unfold remove_step; by rewrite He).
    rewrite Hstep.
    destruct (IH tb1 acc1) as (tb'&er&Hfold&Ht'&Hsub&Her&Her2&Hd'); [by apply update_payload_spec|done| |].
    { intros y Hy. rewrite Hother; [apply Hl; by right|]. intros Hyn. destruct Hx. rewrite <- Hyn. apply list_elem_of_fmap. by exists y. }
    assert (Hnl : forall m, m ∈ map nte_prefix l -> m <> n) by (intros m Hm ->; done).
    assert (Hfo : forall m, m <> n -> fib_at m tb1 = fib_at m tb) by (intros m Hm; unfold fib_at; by rewrite Hother).
    exists tb', ((if hasNextHops (removeNextHop face e) then [] else [n]) ++ er). split_and!.
    + rewrite Hfold. unfold acc1. destruct (hasNextHops _); [done|]. by rewrite <- app_assoc.
    + done.
    + cbn [map]. fold n. destruct (hasNextHops _); cbn [app]; [by apply sublist_cons|by apply sublist_skip].
    + intros m Hm. apply elem_of_app in Hm as [Hm|Hm].
      * destruct (hasNextHops (removeNextHop face e)) eqn:Hh; [by apply elem_of_nil in Hm|].
        apply list_elem_of_singleton in Hm as ->. exists e. unfold without. by rewrite Hh.
      * destruct (Her m Hm) as (f&Hf&Hw). exists f. rewrite <- Hfo; [done|]. apply Hnl.
        by apply (elem_of_sublist _ _ _ Hm) in Hsub.
    + intros y f Hy Hf Hw. apply elem_of_app. apply elem_of_cons in Hy as [->|Hy].
      * left. fold n in Hf |- *. rewrite Hfx in Hf. injection Hf as <-. unfold without in Hw. destruct (hasNextHops _); [done|left].
      * right. apply (Her2 y f Hy); [|done]. rewrite Hfo; [done|]. apply Hnl. apply list_elem_of_fmap. by exists y.
    + intros m. rewrite Hd'. cbn [map]. fold n. destruct (decide (m = n)) as [->|Hne].
      * rewrite (bool_decide_false (n ∈ map nte_prefix l)) by done. rewrite Hd1.
        rewrite !bool_decide_true; [|left|done]. by rewrite Hfx.
      * rewrite Hother, Hfo by done. apply bool_decide_ext_if. rewrite elem_of_cons. tauto.
Qed.

Lemma enumerate_nodup sel tb : nt_inv (tb_tree tb) -> NoDup (map nte_prefix (fullEnumerate sel (tb_tree tb))).
Proof.
  intros Ht. eapply sublist_NoDup; [apply (link_nodup _ (inv_linked _ Ht))|]. apply fmap_sublist.
  unfold fullEnumerate. induction (entries (tb_tree tb)) as [|x es IH]; [done|]. simpl.
  destruct (sel x); [by apply sublist_skip|by apply sublist_cons].
Qed.

Definition other_data (x y : NtPayload) : Prop :=
  np_pit x = np_pit y /\ np_measurements x = np_measurements y /\ np_strategy x = np_strategy y.

Lemma remove_face_spec face tb : nt_inv (tb_tree tb) ->
  let tb' := removeNextHopFromAllEntries face tb in
  nt_inv (tb_tree tb') /\ (forall n, fib_at n tb' = fib_at n tb ≫= without face) /\
  forall n, other_data (data_at n (tb_tree tb')) (data_at n (tb_tree tb)).
Proof.
  intros Ht. unfold removeNextHopFromAllEntries. cbv zeta. set (l := fullEnumerate _ _).
  assert (Hin : forall x, x ∈ l <-> x ∈ entries (tb_tree tb) /\ hasFibEntry (nte_payload x) = true).
  { intros x. unfold l, fullEnumerate. rewrite !list_elem_of_In. apply filter_In. }
  destruct (remove_all_spec face l tb []) as (tb1&er&Hf&Ht1&Hsub&Her&Her2&Hd1).
  - done.
  - by apply enumerate_nodup.
  - intros x [Hx Hfx]%Hin. split; [by apply data_entry|]. unfold hasFibEntry in Hfx. destruct (np_fib _); [by eexists|done].
  - rewrite Hf. cbn [app].
    assert (Hel : forall m, m ∈ map nte_prefix l <-> is_Some (fib_at m tb)).
    { intros m. rewrite <- hasFib_iff. split.
      - intros (x&->&[Hx Hfx]%Hin)%list_elem_of_fmap. by rewrite data_entry.
      - intros Hm. pose proof Hm as [e He]%hasFib_iff%fib_present. apply payload_at_elem in He as (x&Hx&<-&_); [|apply Ht].
        apply list_elem_of_fmap. exists x. split; [done|]. apply Hin. by rewrite <- (data_entry x _ Ht Hx). }
    assert (Hf1 : forall m, fib_at m tb1 = removeNextHop face <$> fib_at m tb).
    { intros m. unfold fib_at at 1. rewrite Hd1. case_bool_decide as Hm; [done|]. rewrite Hel in Hm.
      destruct (fib_at m tb) as [f|] eqn:Hfm; [destruct Hm; by eexists|exact Hfm]. }
    destruct (erase_all_spec er tb1 Ht1) as [Ht2 Hd2].
    { eapply sublist_NoDup; [|exact Hsub]. by apply enumerate_nodup. }
    { intros n Hn. destruct (Her n Hn) as (e&He&_). rewrite Hf1, He. by eexists. }
    split_and!; [done| |].
    + intros n. unfold fib_at at 1. rewrite Hd2. case_bool_decide as Hn.
      * destruct (Her n Hn) as (e&He&Hw). rewrite He. by simpl.
      * change (fib_at n tb1 = fib_at n tb ≫= without face). rewrite Hf1.
        destruct (fib_at n tb) as [e|] eqn:He; [|done]. simpl.
        pose proof (proj2 (Hel n) ltac:(by eexists)) as (x&Hxn&Hx)%list_elem_of_fmap. subst n. unfold without.
        destruct (hasNextHops (removeNextHop face e)) eqn:Hh; [done|]. destruct Hn.
        apply (Her2 x e Hx He). unfold without. by rewrite Hh.
    + intros n. rewrite Hd2, Hd1. by repeat case_bool_decide.
Qed.

(** The other fields. *)
Lemma remove_face_fields face tb : let tb' := removeNextHopFromAllEntries face tb in
  tb_heap tb' = tb_heap tb /\ tb_next tb' = tb_next tb /\ tb_pitItems tb' = tb_pitItems tb.
Proof.
  cbv zeta. unfold removeNextHopFromAllEntries.
  assert (H1 : forall l acc, let tb' := (fold_left (remove_step face) l acc).1 in
    tb_heap tb' = tb_heap acc.1 /\ tb_next tb' = tb_next acc.1 /\ tb_pitItems tb' = tb_pitItems acc.1).
  { induction l as [|x l IH]; intros [tb1 er]; [done|]. cbn [fold_left]. cbv zeta in *.
    destruct (IH (remove_step face (tb1, er) x)) as (->&->&->). unfold remove_step. by destruct (np_fib _). }
  assert (H2 : forall l tb1, let tb' := fold_left (fun tb n => Fib_eraseEntry n tb) l tb1 in
    tb_heap tb' = tb_heap tb1 /\ tb_next tb' = tb_next tb1 /\ tb_pitItems tb' = tb_pitItems tb1).
  { induction l as [|x l IH]; intros tb1; [done|]. cbn [fold_left]. cbv zeta in *. by destruct (IH (Fib_eraseEntry x tb1)) as (->&->&->). }
  specialize (H1 (fullEnumerate (fun e => hasFibEntry (nte_payload e)) (tb_tree tb)) (tb, [])).
  destruct (fold_left (remove_step face) _ (tb, [])) as [tb1 er]. destruct (H2 er tb1) as (->&->&->). exact H1.
Qed.

(** When a face goes away, [removeNextHopFromAllEntries] takes it out of
    every FIB entry and erases the entries that have no next hop left, and
    changes nothing else that is attached to the name tree. *)
Theorem fib_remove_face face tb : nt_inv (tb_tree tb) ->
  let tb' := removeNextHopFromAllEntries face tb in
  nt_inv (tb_tree tb') /\ (forall n, fib_at n tb' = fib_at n tb ≫= without face) /\
  forall n, other_data (data_at n (tb_tree tb')) (data_at n (tb_tree tb)).
Proof. apply remove_face_spec. Qed.

(** The entry of the longest prefix that has one, the empty entry when no
    prefix has one. *)
Definition fib_longest n tb (r : FibEntry) : Prop :=
  (exists p, p `prefix_of` n /\ fib_at p tb = Some r /\
     forall q, q `prefix_of` n -> is_Some (fib_at q tb) -> (length q <= length p)%nat) \/
  ((forall q, q `prefix_of` n -> fib_at q tb = None) /\ r = emptyEntry).

Lemma fib_of_longest n tb r : nt_inv (tb_tree tb) ->
  is_longest n (fun e => hasFibEntry (nte_payload e)) (tb_tree tb) r -> fib_longest n tb (fib_of r).
Proof.
  intros Ht Hl. assert (Hno : hasFibEntry payload_empty = false) by done.
  destruct (longest_matches n hasFibEntry (tb_tree tb) r Ht Hno Hl) as [Hd Hp].
  destruct r as [e|]; simpl in *.
  - left. destruct Hd as (Hpre&Hs&Hmax). exists (nte_prefix e). rewrite (Hp e eq_refl).
    pose proof Hs as [f Hf]%hasFib_iff. split_and!; [done| |].
    + unfold fib_at in *. by rewrite Hf.
    + intros q Hq Hqs. apply Hmax; [done|]. by apply hasFib_iff.
  - right. split; [|done]. intros q Hq. specialize (Hd q Hq). unfold fib_at. unfold hasFibEntry in Hd. by destruct (np_fib _).
Qed.

Lemma fib_lpm_entry n tb : nt_inv (tb_tree tb) -> is_Some (payload_at n (tb_tree tb)) ->
  fib_longest n tb (Fib_findLongestPrefixMatch_entry n tb).
Proof.
  intros Ht Hs. unfold Fib_findLongestPrefixMatch_entry. destruct (np_fib (data_at n (tb_tree tb))) as [e|] eqn:He.
  - left. exists n. split_and!; [done|done|]. intros q Hq _. by apply prefix_length.
  - apply fib_of_longest; [done|]. by apply lpm_entry_longest.
Qed.

(** C32. The FIB entry the forwarder uses is the one of the longest prefix of
    the name that has an entry, or the empty entry when there is none: always
    when it starts from the name tree entry of a PIT entry, and by name when the
    prefixes of the name have distinct hashes. *)
Theorem fib_longest_prefix_match n tb : nt_inv (tb_tree tb) ->
  (is_Some (payload_at n (tb_tree tb)) -> fib_longest n tb (Fib_findLongestPrefixMatch_entry n tb)) /\
  (gen_name n -> NoDup (computeHashSet n) -> fib_longest n tb (Fib_findLongestPrefixMatch n tb)).
Proof.
  intros Ht. split.
  - by apply fib_lpm_entry.
  - intros Hn Hnd. apply fib_of_longest; [done|]. by apply findLongestPrefixMatch_longest.
Qed.

Lemma Fib_insert_entry n tb : nt_inv (tb_tree tb) -> gen_name n -> room n tb -> (Fib_insert n tb).1.1 = n.
Proof. intros Ht Hn Hr. unfold Fib_insert. rewrite lookup_entry_gen by done. by destruct (np_fib _). Qed.

Lemma Fib_insert_spec n tb : nt_inv (tb_tree tb) -> gen_name n -> room n tb ->
  nt_inv (tb_tree (Fib_insert n tb).2) /\
  forall m, fib_at m (Fib_insert n tb).2 =
    (if bool_decide (m = n) then Some (default (FibEntry_new n) (fib_at n tb)) else fib_at m tb) /\
    other_data (data_at m (tb_tree (Fib_insert n tb).2)) (data_at m (tb_tree tb)).
Proof.
  intros Ht Hn Hr. unfold Fib_insert. rewrite lookup_entry_gen by done. assert (Hd : forall m, data_at m (lookup n (tb_tree tb)) = data_at m (tb_tree tb)).
  { intros m. by apply data_lookup. }
  assert (Ht1 : nt_inv (lookup n (tb_tree tb))) by (by apply lookup_spec).
  rewrite Hd. destruct (np_fib (data_at n (tb_tree tb))) as [e|] eqn:He; cbn [snd with_fibItems with_tree tb_tree].
  - split; [done|]. intros m. unfold fib_at. cbn [with_tree tb_tree]. rewrite Hd. split; [|done].
    case_bool_decide; [|done]. subst m. by rewrite He.
  - split; [by apply update_payload_spec|]. intros m. unfold fib_at. cbn [with_fibItems with_tree tb_tree].
    rewrite data_update, !Hd by (done || by apply lookup_present). rewrite He.
    case_bool_decide; [subst m|]; by split.
Qed.

Lemma Fib_erase_spec n tb : nt_inv (tb_tree tb) -> gen_name n ->
  nt_inv (tb_tree (Fib_erase n tb)) /\
  forall m, fib_at m (Fib_erase n tb) = (if bool_decide (m = n) then None else fib_at m tb) /\
    other_data (data_at m (tb_tree (Fib_erase n tb))) (data_at m (tb_tree tb)).
Proof.
  intros Ht Hn. unfold Fib_erase. rewrite findExactMatch_deref by done. destruct (deref n (tb_tree tb)) as [x|] eqn:Hx.
  - pose proof Hx as [_ ->]%deref_elem. destruct (eraseEntry_spec n tb Ht) as [Ht' Hd'].
    { unfold payload_at. rewrite Hx. by eexists. }
    split; [done|]. intros m. unfold fib_at. rewrite Hd'. case_bool_decide; by split.
  - split; [done|]. intros m. split; [|done]. case_bool_decide as Hm; [|done]. subst m. unfold fib_at, data_at, payload_at.
    by rewrite Hx.
Qed.

(** [Fib::insert] gives the name the entry it has or a new one without next
    hops, [Fib::erase] takes the entry of the name away; both leave every
    other name, and what else is attached to it, as it was. *)
Theorem fib_insert_erase n tb : nt_inv (tb_tree tb) -> gen_name n -> room n tb ->
  (nt_inv (tb_tree (Fib_insert n tb).2) /\
   forall m, fib_at m (Fib_insert n tb).2 =
     (if bool_decide (m = n) then Some (default (FibEntry_new n) (fib_at n tb)) else fib_at m tb) /\
     other_data (data_at m (tb_tree (Fib_insert n tb).2)) (data_at m (tb_tree tb))) /\
  (nt_inv (tb_tree (Fib_erase n tb)) /\
   forall m, fib_at m (Fib_erase n tb) = (if bool_decide (m = n) then None else fib_at m tb) /\
     other_data (data_at m (tb_tree (Fib_erase n tb))) (data_at m (tb_tree tb))).
Proof. intros Ht Hn Hr. split; [by apply Fib_insert_spec|by apply Fib_erase_spec]. Qed.

(** [Fib::erase] of a name that is in the name tree but has no FIB entry
    (a longer name has one, or it has a PIT entry) changes no FIB entry, and
    yet decrements the number of entries that [size] reports; from zero it
    wraps around. *)
Theorem fib_erase_absent_miscounts n tb : nt_inv (tb_tree tb) -> gen_name n ->
  is_Some (findExactMatch n (tb_tree tb)) -> fib_at n tb = None ->
  (forall m, fib_at m (Fib_erase n tb) = fib_at m tb) /\
  tb_fibItems (Fib_erase n tb) = to_u64 (tb_fibItems tb - 1).
Proof.
  intros Ht Hn [x Hx] Hf. unfold Fib_erase. rewrite Hx. rewrite findExactMatch_deref in Hx by done.
  pose proof Hx as [_ ->]%deref_elem. split; [|done]. intros m.
  destruct (eraseEntry_spec n tb Ht) as [_ Hd']; [unfold payload_at; rewrite Hx; by eexists|].
  unfold fib_at. rewrite Hd'. case_bool_decide as Hm; [|done]. subst m. exact (eq_sym Hf).
Qed.
End Facts.

Module FibSamples.
#[local] Existing Instance sample_sha256.
#[local] Existing Instance Samples.SampleHash.
#[local] Existing Instance InsertionSort.Sort.
Import PitTableSamples.

Definition name_a : Name := [generic [97]].

(** [/a] with the next hops 1 and 2, [/a/b] with the next hop 1; [/] and
    [/a] are entries of the name tree as well. *)
Definition fib1 : Tables :=
  Fib_modify name_ab (addNextHop 1 10)
    (Fib_insert name_ab (Fib_modify name_a (fun e => addNextHop 2 5 (addNextHop 1 20 e)) (Fib_insert name_a tables0).2)).2.

Lemma inv_modify n f tb : nt_inv (tb_tree tb) -> nt_inv (tb_tree (Fib_modify n f tb)).
Proof. intros Ht. by apply update_payload_spec. Qed.

Lemma inv_insert n tb : nt_inv (tb_tree tb) -> gen_name n -> room n tb -> nt_inv (tb_tree (Fib_insert n tb).2).
Proof.
  intros Ht Hn Hr. unfold Fib_insert. rewrite lookup_entry_gen by done. assert (nt_inv (lookup n (tb_tree tb))) by (by apply lookup_spec).
  destruct (np_fib _); [done|]. by apply update_payload_spec.
Qed.

Lemma inv_fib1 : nt_inv (tb_tree fib1).
Proof.
  apply inv_modify, inv_insert; [|by_decide|by vm_compute].
  apply inv_modify, inv_insert; [apply (nt_inv_empty 2); lia|by_decide|by vm_compute].
Qed.

Lemma fib_remove_face_witness :
  fib_at name_ab (removeNextHopFromAllEntries 1 fib1) = None /\
  map nh_face <$> (fe_nextHops <$> fib_at name_a (removeNextHopFromAllEntries 1 fib1)) = Some [2].
Proof.
  destruct (fib_remove_face 1 fib1 inv_fib1) as (_&Hf&_). split; (rewrite Hf; by vm_compute).
Defined.

Lemma fib_longest_prefix_match_witness : fib_longest name_ab fib1 (Fib_findLongestPrefixMatch name_ab fib1).
Proof. apply (fib_longest_prefix_match name_ab fib1 inv_fib1); by_decide. Defined.

Lemma fib_insert_erase_witness :
  fib_at name_ab (Fib_erase name_ab fib1) = None /\ fib_at [] (Fib_insert [] fib1).2 = Some (FibEntry_new []).
Proof.
  destruct (fib_insert_erase name_ab fib1 inv_fib1) as [_ [_ He]]; [by_decide|by vm_compute|].
  destruct (fib_insert_erase [] fib1 inv_fib1) as [[_ Hi] _]; [by_decide|by vm_compute|].
  split; [rewrite (proj1 (He name_ab)); by vm_compute|rewrite (proj1 (Hi [])); by vm_compute].
Defined.

Lemma fib_erase_absent_miscounts_witness : tb_fibItems fib1 = 2 /\ tb_fibItems (Fib_erase [] fib1) = 1.
Proof.
  split; [by vm_compute|].
  rewrite (proj2 (fib_erase_absent_miscounts [] fib1 inv_fib1 ltac:(by_decide) ltac:(vm_compute; by eexists) ltac:(by vm_compute))).
  by vm_compute.
Defined.
End FibSamples.
