(* ===== verification/StrategyChoice.v ===== *)
(** * The strategy choice table: [NFD/daemon/table/strategy-choice.cpp]

    Which strategy handles the Interests under a name.  A strategy is known
    by its name, which ends in its version.  When the choice of a name changes,
    the information that the old strategy placed on PIT entries and measurements
    is dropped where the change takes effect. *)

From S2P Require Import Prelude StdMap Tlv Block Encoder NameComponent Name Exclude Packet CsEntry.
From S2P Require Import CsPolicy NameTree Enumerate FibEntry PitEntry Tables Pit.

Section StrategyChoice.
Context `{CityHash}.
Implicit Types (tb : Tables) (n : Name).

Definition with_strategy (t : NameTree NtPayload) (items : Z) (l : list Name) tb : Tables :=
  MkTables t (tb_heap tb) (tb_next tb) (tb_pitItems tb) (tb_fibItems tb) items (tb_measurementsItems tb) l.

(** [m_strategyInstances]: the names in increasing order *)
Fixpoint instances_insert (s : Name) (l : list Name) : list Name :=
  match l with
  | [] => [s]
  | x :: l' => if Name_compare s x <? 0 then s :: l else x :: instances_insert s l'
  end.

Definition hasStrategy_exact (s : Name) tb : bool := existsb (fun x => Name_compare x s =? 0) (tb_strategies tb).

Definition install (s : Name) tb : bool * Tables :=
  if hasStrategy_exact s tb then (false, tb)
  else (true, with_strategy (tb_tree tb) (tb_strategyItems tb) (instances_insert s (tb_strategies tb)) tb).

(** The loop of [getStrategy] from [lower_bound] on *)
Fixpoint getStrategy_loop (s : Name) (candidate : option Name) (l : list Name) : option Name :=
  match l with
  | [] => candidate
  | x :: l' =>
      if isPrefixOf s x then
        if len x - len s =? 0 then Some x
        else if len x - len s =? 1 then getStrategy_loop s (Some x) l'
        else getStrategy_loop s candidate l'
      else candidate
  end.

Fixpoint instances_lower_bound (s : Name) (l : list Name) : list Name :=
  match l with
  | [] => []
  | x :: l' => if Name_compare x s <? 0 then instances_lower_bound s l' else l
  end.

Definition getStrategy (s : Name) tb : option Name :=
  getStrategy_loop s None (instances_lower_bound s (tb_strategies tb)).

Definition hasStrategyChoice (x : NtPayload) : bool := match np_strategy x with Some _ => true | None => false end.

Definition StrategyChoice_get n tb : option Name :=
  findExactMatch n (tb_tree tb) ≫= fun nte => np_strategy (nte_payload nte).

(** [findEffectiveStrategy] of a name and of an entry of the name tree;
    [None] is the failed assertion that there is an entry. *)
Definition findEffectiveStrategy n tb : option Name :=
  findLongestPrefixMatch n (fun e => hasStrategyChoice (nte_payload e)) (tb_tree tb) ≫= fun nte => np_strategy (nte_payload nte).

Definition findEffectiveStrategy_entry n tb : option Name :=
  match np_strategy (data_at n (tb_tree tb)) with
  | Some s => Some s
  | None =>
      findLongestPrefixMatch_entry n (fun e => hasStrategyChoice (nte_payload e)) (tb_tree tb) ≫= fun nte => np_strategy (nte_payload nte)
  end.

(** [clearStrategyInfo] of an entry of the name tree: its PIT entries with their
    records, and its measurements entry *)
Definition clearStrategyInfo_entry (nte : NtEntry NtPayload) tb : Tables :=
  let tb := with_heap (fold_left (fun h p => alter clearStrategyInfo p h) (np_pit (nte_payload nte)) (tb_heap tb)) tb in
  match np_measurements (nte_payload nte) with
  | Some _ =>
      with_tree (update_payload (nte_prefix nte) (fun x => set_measurements (me_clearStrategyInfo <$> np_measurements x) x) (tb_tree tb)) tb
  | None => tb
  end.

(** [changeStrategy]: the part of the name tree that the choice of [n]
    covers *)
Definition change_selector n (nte : NtEntry NtPayload) : bool * bool :=
  if bool_decide (nte_prefix nte = n) then (true, true)
  else if hasStrategyChoice (nte_payload nte) then (false, false) else (true, true).

Definition changeStrategy n (oldStrategy newStrategy : Name) tb : result Tables :=
  if bool_decide (oldStrategy = newStrategy) then Ok tb
  else
    let! ntChanged := partialEnumerate n (change_selector n) (tb_tree tb) in
    Ok (fold_left (fun tb nte => clearStrategyInfo_entry nte tb) ntChanged tb).

(** [insert]: false when the strategy is not installed.  The source attaches a
    new entry before [changeStrategy] and gives it its strategy afterwards; here
    both are done afterwards, since [changeStrategy] takes the entry of [n]
    whether or not it has a choice. *)
Definition StrategyChoice_insert n (strategyName : Name) tb : result (bool * Tables) :=
  match getStrategy strategyName tb with
  | None => Ok (false, tb)
  | Some strategy =>
      let '(nte, t) := lookup_entry n (tb_tree tb) in
      let tb := with_tree t tb in
      match np_strategy (data_at nte (tb_tree tb)) with
      | Some oldStrategy =>
          if Name_equals oldStrategy strategy then Ok (true, tb)
          else
            let! tb := changeStrategy nte oldStrategy strategy tb in
            Ok (true, with_tree (update_payload nte (set_strategy (Some strategy)) (tb_tree tb)) tb)
      | None =>
          match findEffectiveStrategy n tb with
          | None => Err AssertFailed
          | Some oldStrategy =>
              let! tb := changeStrategy nte oldStrategy strategy tb in
              Ok (true, with_strategy (update_payload nte (set_strategy (Some strategy)) (tb_tree tb)) (tb_strategyItems tb + 1)
                     (tb_strategies tb) tb)
          end
      end
  end.

Definition StrategyChoice_erase n tb : result Tables :=
  if len n =? 0 then Err AssertFailed
  else
    match findExactMatch n (tb_tree tb) with
    | None => Ok tb
    | Some nte =>
        match np_strategy (nte_payload nte) with
        | None => Ok tb
        | Some oldStrategy =>
            match findEffectiveStrategy (getPrefix n (-1)) tb with
            | None => Err AssertFailed
            | Some parentStrategy =>
                let! tb := changeStrategy n oldStrategy parentStrategy tb in
                let t := eraseEntryIfEmpty n (update_payload n (set_strategy None) (tb_tree tb)) in
                Ok (with_strategy t (tb_strategyItems tb - 1) (tb_strategies tb) tb)
            end
        end
    end.

Definition setDefaultStrategy (s : Name) tb : Tables :=
  let '(_, tb) := install s tb in
  let t := update_payload [] (set_strategy (Some s)) (lookup [] (tb_tree tb)) in
  with_strategy t (tb_strategyItems tb + 1) (tb_strategies tb) tb.
End StrategyChoice.

Section Facts.
Context `{CityHash}.
Implicit Types (tb : Tables) (n m : Name).

Definition strategy_at n tb : option Name := np_strategy (data_at n (tb_tree tb)).

(** The choice of the longest prefix that has one *)
Definition effective n tb (r : option Name) : Prop :=
  exists p, p `prefix_of` n /\ is_Some r /\ strategy_at p tb = r /\
    forall q, q `prefix_of` n -> is_Some (strategy_at q tb) -> (length q <= length p)%nat.

Lemma effective_longest n tb r : nt_inv (tb_tree tb) -> is_Some (strategy_at [] tb) ->
  is_longest n (fun e => hasStrategyChoice (nte_payload e)) (tb_tree tb) r ->
  effective n tb (r ≫= fun nte => np_strategy (nte_payload nte)).
Proof.
  intros Ht Hroot Hl. assert (Hno : hasStrategyChoice payload_empty = false) by done.
  assert (Hiff : forall q, hasStrategyChoice (data_at q (tb_tree tb)) = true <-> is_Some (strategy_at q tb)).
  { intros q. unfold hasStrategyChoice, strategy_at. destruct (np_strategy _); split; done || (by eexists) || (by intros []). }
  destruct (longest_matches n hasStrategyChoice (tb_tree tb) r Ht Hno Hl) as [Hd Hp]. destruct r as [e|]; simpl in *.
  - destruct Hd as (Hpre&Hs&Hmax). exists (nte_prefix e). rewrite (Hp e eq_refl). apply Hiff in Hs.
    split_and!; [done|done|done|]. intros q Hq Hqs. apply Hmax; [done|]. by apply Hiff.
  - exfalso. apply Hiff in Hroot. rewrite (Hd [] (prefix_nil _)) in Hroot. done.
Qed.

(** Two payloads that differ in the strategy and in what strategies placed on
    the measurements *)
Definition not_strategy (x y : NtPayload) : Prop :=
  np_fib x = np_fib y /\ np_pit x = np_pit y /\ me_clearStrategyInfo <$> np_measurements x = me_clearStrategyInfo <$> np_measurements y.

Definition payload_clear (x : NtPayload) : NtPayload := set_measurements (me_clearStrategyInfo <$> np_measurements x) x.

Lemma payload_clear_none x : np_measurements x = None -> payload_clear x = x.
Proof. destruct x as [? ? m ?]. cbn. by intros ->. Qed.

Lemma clear_entry_spec nte tb : nt_inv (tb_tree tb) ->
  (is_Some (np_measurements (nte_payload nte)) <-> is_Some (np_measurements (data_at (nte_prefix nte) (tb_tree tb)))) ->
  exists t h, clearStrategyInfo_entry nte tb = with_tree t (with_heap h tb) /\ nt_inv t /\
    (forall m, data_at m t = if bool_decide (m = nte_prefix nte) then payload_clear (data_at m (tb_tree tb)) else data_at m (tb_tree tb)) /\
    (forall m, is_Some (payload_at m t) <-> is_Some (payload_at m (tb_tree tb))) /\
    (forall p, h !! p = if bool_decide (p ∈ np_pit (nte_payload nte)) then clearStrategyInfo <$> tb_heap tb !! p else tb_heap tb !! p).
Proof.
  intros Ht Hm. set (h := fold_left (fun h p => alter clearStrategyInfo p h) (np_pit (nte_payload nte)) (tb_heap tb)).
  assert (Hh : forall p, h !! p = if bool_decide (p ∈ np_pit (nte_payload nte)) then clearStrategyInfo <$> tb_heap tb !! p else tb_heap tb !! p).
  { intros p. unfold h. generalize (tb_heap tb) as h0. induction (np_pit (nte_payload nte)) as [|q l IH]; intros h0; [done|].
    cbn [fold_left]. rewrite IH. destruct (decide (p = q)) as [->|Hne].
    - rewrite lookup_alter_eq. rewrite (bool_decide_true (q ∈ q :: l)) by left. case_bool_decide; [|done]. destruct (h0 !! q); cbn; by rewrite ?clear_idem.
    - rewrite lookup_alter_ne by done. apply bool_decide_ext_if. rewrite elem_of_cons. tauto. }
  unfold clearStrategyInfo_entry. fold h. cbn [with_heap tb_tree].
  destruct (np_measurements (nte_payload nte)) as [x|].
  - destruct (update_payload_spec (nte_prefix nte) payload_clear (tb_tree tb) Ht) as (Ht'&_&Hp).
    eexists _, h. split_and!; [done|exact Ht'| | |done]; intros m.
    + fold payload_clear. rewrite data_update; [case_bool_decide; [by subst m|done]|done|]. apply data_present. intros Hd.
      rewrite Hd in Hm. destruct Hm as [Hm _]. by destruct (Hm ltac:(by eexists)).
    + fold payload_clear. rewrite Hp. case_bool_decide; [apply fmap_is_Some|done].
  - exists (tb_tree tb), h. split_and!; [by destruct tb|done| |done|done]. intros m. case_bool_decide as He; [|done].
    subst m. rewrite payload_clear_none; [done|]. destruct (np_measurements (data_at _ _)) as [x|]; [|done].
    destruct Hm as [_ Hm]. by destruct (Hm ltac:(by eexists)).
Qed.

Lemma payload_clear_twice x : payload_clear (payload_clear x) = payload_clear x.
Proof. by destruct x as [? ? [] ?]. Qed.

Lemma clear_all_spec l : forall tb, nt_inv (tb_tree tb) ->
  Forall (fun nte => is_Some (np_measurements (nte_payload nte)) <-> is_Some (np_measurements (data_at (nte_prefix nte) (tb_tree tb)))) l ->
  exists t h, fold_left (fun tb nte => clearStrategyInfo_entry nte tb) l tb = with_tree t (with_heap h tb) /\ nt_inv t /\
    (forall m, data_at m t = if bool_decide (m ∈ map nte_prefix l) then payload_clear (data_at m (tb_tree tb)) else data_at m (tb_tree tb)) /\
    (forall m, is_Some (payload_at m t) <-> is_Some (payload_at m (tb_tree tb))) /\
    (forall p, h !! p = if bool_decide (Exists (fun nte => p ∈ np_pit (nte_payload nte)) l) then clearStrategyInfo <$> tb_heap tb !! p
                        else tb_heap tb !! p).
Proof.
  induction l as [|nte l IH]; intros tb Ht Hall.
  - exists (tb_tree tb), (tb_heap tb). cbn [fold_left map]. split_and!; [by destruct tb|done|..]; intros ?; done.
  - apply Forall_cons in Hall as [Hn Hall]. cbn [fold_left map].
    destruct (clear_entry_spec nte tb Ht Hn) as (t1&h1&->&Ht1&Hd1&Hp1&Hh1).
    destruct (IH (with_tree t1 (with_heap h1 tb)) Ht1) as (t2&h2&->&Ht2&Hd2&Hp2&Hh2).
    { eapply Forall_impl; [exact Hall|]. intros y Hy. cbn [with_tree tb_tree]. rewrite Hy, Hd1. case_bool_decide; [|done].
      cbn. by rewrite fmap_is_Some. }
    cbn [with_tree with_heap tb_tree tb_heap] in *. exists t2, h2. split_and!; [done|done|..].
    + intros m. rewrite Hd2, Hd1. destruct (decide (m = nte_prefix nte)) as [->|Hne].
      * rewrite (bool_decide_true (nte_prefix nte ∈ _ :: _)), (bool_decide_true (nte_prefix nte = _)) by (done || left).
        case_bool_decide; [apply payload_clear_twice|done].
      * rewrite (bool_decide_false (m = _)) by done. apply bool_decide_ext_if. rewrite elem_of_cons. tauto.
    + intros m. by rewrite Hp2, Hp1.
    + intros p. rewrite Hh2, Hh1. destruct (decide (p ∈ np_pit (nte_payload nte))) as [Hp|Hp].
      * rewrite (bool_decide_true (p ∈ _)), (bool_decide_true (Exists _ (_ :: _))) by (done || by left).
        case_bool_decide; [|done]. destruct (tb_heap tb !! p); cbn; by rewrite ?clear_idem.
      * rewrite (bool_decide_false (p ∈ _)) by done. apply bool_decide_ext_if. rewrite Exists_cons. tauto.
Qed.

(** The names that the choice of [n] covers: those under [n] with no choice
    further down on the way *)
Definition covered n m tb : Prop :=
  n `prefix_of` m /\ Forall (fun k => (length n < k)%nat -> strategy_at (take k m) tb = None) (seq 0 (S (length m))).

#[global] Instance covered_dec n m tb : Decision (covered n m tb).
Proof. unfold covered. apply _. Defined.

Lemma covered_iff n m tb : covered n m tb <->
  n `prefix_of` m /\ forall q, n `prefix_of` q -> q `prefix_of` m -> q <> n -> strategy_at q tb = None.
Proof.
  unfold covered. rewrite Forall_forall. split; intros [Hp Hall]; (split; [done|]).
  - intros q Hnq [k ->] Hne. specialize (Hall (length q)). rewrite take_app_length in Hall. apply Hall.
    + apply elem_of_seq. rewrite length_app. lia.
    + destruct (decide (length n < length q)%nat); [done|]. destruct Hne. symmetry. apply prefix_length_eq; [done|lia].
  - intros k [_ Hk]%elem_of_seq Hlt.
    assert (Hlen : length (take k m) = k) by (rewrite length_take; lia).
    apply Hall; [|by exists (drop k m); rewrite take_drop|intros <-; lia].
    destruct (prefix_weak_total n (take k m) m) as [?|Hq]; [done|by exists (drop k m); rewrite take_drop|done|].
    apply prefix_length in Hq. lia.
Qed.

Lemma reached_covered n e tb : nt_inv (tb_tree tb) -> e ∈ entries (tb_tree tb) ->
  reached (change_selector n) n (tb_tree tb) e /\ (change_selector n e).1 = true <-> covered n (nte_prefix e) tb.
Proof.
  intros Ht He. rewrite covered_iff. pose proof (inv_linked _ Ht) as Hl.
  assert (Hsel : forall x, x ∈ entries (tb_tree tb) ->
    (change_selector n x).1 = (change_selector n x).2 /\
    ((change_selector n x).1 = true <-> nte_prefix x = n \/ strategy_at (nte_prefix x) tb = None)).
  { intros x Hx. unfold change_selector, strategy_at, hasStrategyChoice. rewrite (data_entry x _ Ht Hx).
    case_bool_decide; [by split; [|split; [left|]]|]. destruct (np_strategy (nte_payload x)); (split; [done|]); split; try done; [by intros [?|?]|by right]. }
  unfold reached. split.
  - intros [(_&Hp&Hb) Ha]. split; [done|]. intros q Hnq Hqe Hne.
    assert (Hs : is_Some (payload_at q (tb_tree tb))).
    { destruct Hqe as [k Hk]. apply (payload_prefix _ k); [done|]. rewrite <- Hk. apply payload_is_Some. exists e. by apply deref_iff. }
    apply payload_is_Some in Hs as [x Hx]. apply deref_iff in Hx as [Hx <-]; [|done].
    destruct (Hsel x Hx) as [Heq Hiff]. assert (Hx1 : (change_selector n x).1 = true).
    { destruct (decide (nte_prefix x = nte_prefix e)) as [Hxe|Hxe]; [by rewrite (same_entry (tb_tree tb) x e)|].
      rewrite Heq. apply Hb; [done..|congruence]. }
    apply Hiff in Hx1 as [?|?]; done.
  - intros [Hp Hall]. assert (Hok : forall x, x ∈ entries (tb_tree tb) -> n `prefix_of` nte_prefix x -> nte_prefix x `prefix_of` nte_prefix e ->
      (change_selector n x).1 = true).
    { intros x Hx Hnx Hxe. apply (Hsel x Hx). destruct (decide (nte_prefix x = n)); [by left|right]. by apply Hall. }
    split_and!; [done|done| |by apply Hok]. intros x Hx Hnx Hxe _. destruct (Hsel x Hx) as [<- _]. by apply Hok.
Qed.

(** [changeStrategy] drops the information on the entries that the choice
    covers, when the strategy is another one, and changes nothing else. *)
Lemma changeStrategy_spec n old new tb : nt_inv (tb_tree tb) -> gen_name n ->
  exists t h, changeStrategy n old new tb = Ok (with_tree t (with_heap h tb)) /\ nt_inv t /\
    (forall m, data_at m t = if bool_decide (old <> new /\ covered n m tb) then payload_clear (data_at m (tb_tree tb)) else data_at m (tb_tree tb)) /\
    (forall m, is_Some (payload_at m t) <-> is_Some (payload_at m (tb_tree tb))) /\
    (forall p, h !! p = tb_heap tb !! p \/ h !! p = clearStrategyInfo <$> tb_heap tb !! p) /\
    (forall p m, p ∈ np_pit (data_at m (tb_tree tb)) -> (forall m', p ∈ np_pit (data_at m' (tb_tree tb)) -> m' = m) ->
       h !! p = if bool_decide (old <> new /\ covered n m tb) then clearStrategyInfo <$> tb_heap tb !! p else tb_heap tb !! p).
Proof.
  intros Ht Hn. unfold changeStrategy. case_bool_decide as Hon.
  { exists (tb_tree tb), (tb_heap tb). split_and!; [by destruct tb|done| |done|by left|]; intros; by rewrite bool_decide_false by tauto. }
  destruct (partialEnumerate_spec n (change_selector n) (tb_tree tb) Ht Hn) as (l&->&_&Hin). cbn [rbind].
  assert (Hl : forall e, e ∈ l -> e ∈ entries (tb_tree tb)) by (intros e He; apply Hin in He as [(?&_) _]; done).
  destruct (clear_all_spec l tb Ht) as (t&h&->&Ht'&Hd&Hp&Hh).
  { apply Forall_forall. intros e He. by rewrite (data_entry e) by auto. }
  assert (Hcov : forall m, is_Some (payload_at m (tb_tree tb)) -> m ∈ map nte_prefix l <-> covered n m tb).
  { intros m Hs. apply payload_is_Some in Hs as [e He]. apply deref_iff in He as [He <-]; [|by apply inv_linked].
    rewrite list_elem_of_fmap, <- reached_covered by done. split.
    - intros (x&Hx&Hxl). rewrite (same_entry (tb_tree tb) e x) by auto. by apply Hin.
    - intros Hr. exists e. split; [done|]. by apply Hin. }
  exists t, h. split_and!; [done|done| |done| |].
  - intros m. rewrite Hd. destruct (payload_at m (tb_tree tb)) as [x|] eqn:Hx.
    + apply bool_decide_ext_if. rewrite Hcov by (by eexists). tauto.
    + assert (Hem : data_at m (tb_tree tb) = NtPayload_empty) by (unfold data_at; by rewrite Hx). rewrite Hem. by repeat case_bool_decide.
  - intros p. rewrite Hh. case_bool_decide; [by right|by left].
  - intros p m Hpm Hu. rewrite Hh. apply bool_decide_ext_if. rewrite <- Hcov.
    2: { apply data_present. intros Hem. rewrite Hem in Hpm. by apply elem_of_nil in Hpm. }
    rewrite Exists_exists, list_elem_of_fmap. split.
    + intros (e&He&Hpe). split; [done|]. exists e. split; [|done]. symmetry. apply Hu. rewrite (data_entry e) by auto. done.
    + intros [_ (e&->&He)]. exists e. split; [done|]. rewrite (data_entry e) in Hpm by auto. done.
Qed.

Lemma find_effective_entry n tb : nt_inv (tb_tree tb) -> is_Some (strategy_at [] tb) ->
  is_Some (payload_at n (tb_tree tb)) -> effective n tb (findEffectiveStrategy_entry n tb).
Proof.
  intros Ht Hroot Hs. unfold findEffectiveStrategy_entry. destruct (np_strategy (data_at n (tb_tree tb))) as [x|] eqn:Hx.
  - exists n. split_and!; [done|by eexists|done|]. intros q Hq _. by apply prefix_length.
  - apply effective_longest; [done|done|]. by apply lpm_entry_longest.
Qed.

Lemma find_effective_name n tb : nt_inv (tb_tree tb) -> is_Some (strategy_at [] tb) -> gen_name n ->
  NoDup (computeHashSet n) -> effective n tb (findEffectiveStrategy n tb).
Proof. intros Ht Hroot Hn Hnd. apply effective_longest; [done|done|]. by apply findLongestPrefixMatch_longest. Qed.

(** The search by name finds the choice of the root if nothing else, whatever
    the hashes are. *)
Lemma find_effective_some n tb : nt_inv (tb_tree tb) -> is_Some (strategy_at [] tb) -> is_Some (findEffectiveStrategy n tb).
Proof.
  intros Ht Hroot. set (sel := fun e : NtEntry NtPayload => hasStrategyChoice (nte_payload e)).
  assert (Hr : exists e, e ∈ bucket 0 (tb_tree tb) /\ (0 =? nte_hash e) && isPrefixOf (nte_prefix e) n && sel e = true).
  { assert (Hs : is_Some (payload_at [] (tb_tree tb))) by (apply data_present; intros Hd; unfold strategy_at in Hroot; rewrite Hd in Hroot; by destruct Hroot).
    apply payload_is_Some in Hs as [e He]. apply deref_iff in He as [He Hp]; [|by apply inv_linked].
    pose proof (placed_hash _ e (inv_placed _ Ht) He) as Hh. rewrite Hp in Hh. change (computeHash []) with 0 in Hh. exists e. split.
    - rewrite <- Hh. apply entry_in_bucket; [apply Ht|done].
    - rewrite Hh, Hp. cbn. unfold sel, hasStrategyChoice. unfold strategy_at in Hroot. rewrite <- Hp, (data_entry e _ Ht He) in Hroot.
      destruct Hroot as [x ->]. by destruct n. }
  assert (Hlast : exists hs, rev (computeHashSet n) = hs ++ [0]) by (by exists (rev (hashSet_loop 0 n))).
  unfold findEffectiveStrategy, findLongestPrefixMatch. destruct Hlast as [hs ->]. fold sel.
  assert (Hf : exists e, lpm_loop (hs ++ [0]) n sel (tb_tree tb) = Some e /\ sel e = true).
  { induction hs as [|h hs IH]; cbn [app lpm_loop].
    - destruct (List.find _ (bucket 0 (tb_tree tb))) as [e|] eqn:Hfe.
      + apply find_Some_elem in Hfe as [_ Hfe]. apply andb_true_iff in Hfe as [_ ?]. by exists e.
      + destruct Hr as (e&He&Hs). by rewrite (find_None_elem _ _ _ Hfe He) in Hs.
    - destruct (List.find _ (bucket h (tb_tree tb))) as [e|] eqn:Hfe; [|done].
      apply find_Some_elem in Hfe as [_ Hfe]. apply andb_true_iff in Hfe as [_ ?]. by exists e. }
  destruct Hf as (e&->&He). cbn. unfold sel, hasStrategyChoice in He. destruct (np_strategy (nte_payload e)); [by eexists|done].
Qed.

(** ** Which names get another strategy *)

Lemma effective_unique n tb r r' : effective n tb r -> effective n tb r' -> r = r'.
Proof.
  intros (p&Hp&Hs&Hr&Hmax) (p'&Hp'&Hs'&Hr'&Hmax').
  assert (Hle : length p = length p') by (apply Nat.le_antisymm; [apply Hmax'|apply Hmax]; congruence).
  assert (p = p') as ->; [|congruence].
  destruct (prefix_weak_total p p' n Hp Hp') as [Hq|Hq]; [|symmetry]; apply (prefix_length_eq _ _ Hq); lia.
Qed.

Definition same_choices_but n tb tb' : Prop := forall m, m <> n -> strategy_at m tb' = strategy_at m tb.

Lemma effective_covered n m tb r : covered n m tb -> effective n tb r -> effective m tb r.
Proof.
  intros [Hnm Hall]%covered_iff (p&Hp&Hs&Hr&Hmax). exists p. split_and!; [by etrans|done|done|].
  intros q Hq Hqs. destruct (prefix_weak_total n q m Hnm Hq) as [Hnq|Hqn]; [|by apply Hmax].
  destruct (decide (q = n)) as [->|Hne]; [by apply Hmax|]. rewrite (Hall q Hnq Hq Hne) in Hqs. by destruct Hqs.
Qed.

Lemma effective_uncovered n m tb tb' r : same_choices_but n tb tb' -> ~ covered n m tb -> effective m tb r -> effective m tb' r.
Proof.
  intros Hsame Hnc (p&Hp&Hs&Hr&Hmax). destruct (decide (n `prefix_of` m)) as [Hnm|Hnm].
  - assert (Hq : exists q, q `prefix_of` m /\ (length n < length q)%nat /\ is_Some (strategy_at q tb)).
    { unfold covered in Hnc.
      destruct (decide (Forall (fun k => (length n < k)%nat -> strategy_at (take k m) tb = None) (seq 0 (S (length m))))) as [?|Hf]; [tauto|].
      apply not_Forall_Exists in Hf; [|apply _]. apply Exists_exists in Hf as (k&[_ Hk]%elem_of_seq&Hn).
      exists (take k m). split_and!; [by exists (drop k m); rewrite take_drop| |].
      - rewrite length_take. destruct (decide (length n < k)%nat); [lia|]. destruct Hn. intros; lia.
      - destruct (strategy_at (take k m) tb) eqn:He; [by eexists|]. by destruct Hn. }
    destruct Hq as (q&Hqm&Hlt&Hqs). pose proof (Hmax q Hqm Hqs) as Hqp.
    exists p. split_and!; [done|done|rewrite Hsame; [done|intros ->; lia]|]. intros q' Hq' Hs'.
    destruct (decide (q' = n)) as [->|Hne]; [lia|]. apply Hmax; [done|]. by rewrite <- Hsame.
  - exists p. split_and!; [done|done|rewrite Hsame; [done|by intros ->]|]. intros q' Hq' Hs'. apply Hmax; [done|].
    rewrite <- Hsame; [done|by intros ->].
Qed.

Lemma covered_ext n m tb tb' : same_choices_but n tb tb' -> covered n m tb -> covered n m tb'.
Proof. intros Hs. rewrite !covered_iff. intros [Hp Hall]. split; [done|]. intros q Hnq Hqm Hne. rewrite Hs by done. by apply Hall. Qed.

(** ** The operations *)

(** What a change of the choice of [n] does to the tables: no choice but that of
    [n] changes, and what strategies placed on PIT entries and measurements is
    dropped for the names that [cover] holds of and kept for the others.  The
    PIT keeps its entries, and the name tree everything else. *)
Record choice_changed n (cover : Name -> Prop) `{forall m, Decision (cover m)} tb tb' : Prop := {
  cc_tree : nt_inv (tb_tree tb');
  cc_others : same_choices_but n tb tb';
  cc_data m : not_strategy (data_at m (tb_tree tb')) (data_at m (tb_tree tb));
  cc_measurements m : np_measurements (data_at m (tb_tree tb')) =
    if bool_decide (cover m) then me_clearStrategyInfo <$> np_measurements (data_at m (tb_tree tb)) else np_measurements (data_at m (tb_tree tb));
  cc_heap p : tb_heap tb' !! p = tb_heap tb !! p \/ tb_heap tb' !! p = clearStrategyInfo <$> tb_heap tb !! p;
  cc_pit p m : p ∈ np_pit (data_at m (tb_tree tb)) -> (forall m', p ∈ np_pit (data_at m' (tb_tree tb)) -> m' = m) ->
    tb_heap tb' !! p = if bool_decide (cover m) then clearStrategyInfo <$> tb_heap tb !! p else tb_heap tb !! p;
  cc_fields : tb_next tb' = tb_next tb /\ tb_pitItems tb' = tb_pitItems tb /\ tb_strategies tb' = tb_strategies tb
}.

Lemma clear_not_strategy x y b : not_strategy x y -> not_strategy (if b : bool then payload_clear x else x) y.
Proof. destruct b; [|done]. intros (?&?&Hm). split_and!; [done|done|]. cbn. rewrite <- Hm. by destruct (np_measurements x). Qed.

(** The common part of [insert] and [erase]: [changeStrategy] and a new choice
    for [n], in a name tree [u] with the same attachments *)
Lemma change_common n old new (x : option Name) tb u tb' : nt_inv (tb_tree tb) -> gen_name n -> nt_inv u -> is_Some (payload_at n u) ->
  (forall m, data_at m u = data_at m (tb_tree tb)) ->
  (forall t h, changeStrategy n old new (with_tree u tb) = Ok (with_tree t (with_heap h (with_tree u tb))) -> nt_inv t -> is_Some (payload_at n t) ->
     nt_inv (tb_tree tb') /\ tb_heap tb' = h /\ (tb_next tb' = tb_next tb /\ tb_pitItems tb' = tb_pitItems tb /\ tb_strategies tb' = tb_strategies tb) /\
     forall m, data_at m (tb_tree tb') = data_at m (update_payload n (set_strategy x) t)) ->
  choice_changed n (fun m => old <> new /\ covered n m tb) tb tb' /\ strategy_at n tb' = x.
Proof.
  intros Ht Hn Hu Hs Hd Hk. destruct (changeStrategy_spec n old new (with_tree u tb) Hu Hn) as (t&h&Hok&Ht'&Hdt&Hpt&Hh&Hhp).
  destruct (Hk t h Hok Ht') as (Htb&<-&Hf&Hd'); [by apply Hpt|]. clear Hk. cbn [with_tree tb_tree tb_heap] in *.
  assert (Hst : forall m, strategy_at m (with_tree u tb) = strategy_at m tb) by (intros m; unfold strategy_at; cbn [with_tree tb_tree]; by rewrite Hd).
  assert (Hcov : forall m, covered n m (with_tree u tb) <-> covered n m tb) by (intros m; rewrite !covered_iff; by setoid_rewrite Hst).
  assert (Hb : forall m, bool_decide (old <> new /\ covered n m (with_tree u tb)) = bool_decide (old <> new /\ covered n m tb)).
  { intros m. apply bool_decide_ext. by rewrite Hcov. }
  assert (Hall : forall m, data_at m (tb_tree tb') = (fun y => if bool_decide (m = n) then set_strategy x y else y)
    (if bool_decide (old <> new /\ covered n m tb) then payload_clear (data_at m (tb_tree tb)) else data_at m (tb_tree tb))).
  { intros m. rewrite Hd', data_update by (done || by apply Hpt). rewrite !Hdt, !Hb, !Hd. by case_bool_decide; subst. }
  split; [split|].
  - done.
  - intros m Hm. unfold strategy_at. rewrite Hall, (bool_decide_false (m = n)) by done. by case_bool_decide.
  - intros m. rewrite Hall. set (b := bool_decide (old <> new /\ _)).
    pose proof (clear_not_strategy (data_at m (tb_tree tb)) (data_at m (tb_tree tb)) b ltac:(done)) as (H1&H2&H3). by case_bool_decide.
  - intros m. rewrite Hall. set (b := bool_decide (old <> new /\ _)). case_bool_decide; by destruct b.
  - done.
  - intros p m Hp Hu'. rewrite (Hhp p m), Hb; [done|by rewrite Hd|]. intros m'. rewrite Hd. apply Hu'.
  - done.
  - unfold strategy_at. rewrite Hall, (bool_decide_true (n = n)) by done. done.
Qed.

Lemma StrategyChoice_insert_spec n s r tb : nt_inv (tb_tree tb) -> gen_name n -> room n tb -> is_Some (strategy_at [] tb) ->
  getStrategy s tb = Some r ->
  exists tb', StrategyChoice_insert n s tb = Ok (true, tb') /\
    ((exists old, strategy_at n tb = Some old /\ Name_equals old r = true /\ tb' = with_tree (lookup n (tb_tree tb)) tb) \/
     exists old, (strategy_at n tb = Some old \/ findEffectiveStrategy n (with_tree (lookup n (tb_tree tb)) tb) = Some old) /\
       (strategy_at n tb = None \/ strategy_at n tb = Some old) /\
       choice_changed n (fun m => old <> r /\ covered n m tb) tb tb' /\ strategy_at n tb' = Some r).
Proof.
  intros Ht Hn Hr Hroot Hg. unfold StrategyChoice_insert. rewrite Hg, lookup_entry_gen by done. cbv zeta. cbn [with_tree tb_tree].
  assert (Hd : forall k, data_at k (lookup n (tb_tree tb)) = data_at k (tb_tree tb)) by (intros k; by apply data_lookup).
  assert (Hu : nt_inv (lookup n (tb_tree tb))) by (by apply lookup_spec).
  assert (Hs : is_Some (payload_at n (lookup n (tb_tree tb)))) by (by apply lookup_present).
  set (u := lookup n (tb_tree tb)) in *. rewrite Hd. fold (strategy_at n tb).
  destruct (strategy_at n tb) as [old|] eqn:Ho.
  - destruct (Name_equals old r) eqn:He; [eexists; split; [done|]; left; by exists old|].
    destruct (changeStrategy_spec n old r (with_tree u tb) Hu Hn) as (t&h&Hok&_). rewrite Hok. cbn [rbind].
    eexists. split; [done|]. right. exists old. split_and!; [by left|by right| |].
    all: apply (change_common n old r (Some r) tb u); try done.
    all: intros t' h' Hok' Ht' Hs'; rewrite Hok in Hok'; injection Hok' as -> ->; cbn [with_tree with_heap with_strategy tb_tree tb_heap tb_next tb_pitItems tb_strategies]; split_and!; try done; by apply update_payload_spec.
  - assert (Hroot' : is_Some (strategy_at [] (with_tree u tb))) by (unfold strategy_at; cbn [with_tree tb_tree]; by rewrite Hd).
    destruct (find_effective_some n (with_tree u tb) Hu Hroot') as [old Hold]. unfold u in Hold |- *. fold u in Hold |- *. rewrite Hold.
    destruct (changeStrategy_spec n old r (with_tree u tb) Hu Hn) as (t&h&Hok&_). rewrite Hok. cbn [rbind].
    eexists. split; [done|]. right. exists old. split_and!; [by right|by left| |].
    all: apply (change_common n old r (Some r) tb u); try done.
    all: intros t' h' Hok' Ht' Hs'; rewrite Hok in Hok'; injection Hok' as -> ->; cbn [with_tree with_heap with_strategy tb_tree tb_heap tb_next tb_pitItems tb_strategies]; split_and!; try done; by apply update_payload_spec.
Qed.

Lemma StrategyChoice_erase_spec n tb : nt_inv (tb_tree tb) -> gen_name n -> n <> [] -> is_Some (strategy_at [] tb) ->
  exists tb', StrategyChoice_erase n tb = Ok tb' /\
    ((strategy_at n tb = None /\ tb' = tb) \/
     exists old new, strategy_at n tb = Some old /\ findEffectiveStrategy (getPrefix n (-1)) tb = Some new /\
       choice_changed n (fun m => old <> new /\ covered n m tb) tb tb' /\ strategy_at n tb' = None).
Proof.
  intros Ht Hn Hne Hroot. unfold StrategyChoice_erase. rewrite findExactMatch_deref by done.
  replace (len n =? 0) with false by (destruct n; [done|]; symmetry; apply Z.eqb_neq; unfold len; cbn; lia).
  destruct (deref n (tb_tree tb)) as [x|] eqn:Hx.
  2: { exists tb. split; [done|]. left. split; [|done]. unfold strategy_at, data_at, payload_at. by rewrite Hx. }
  assert (Hs : is_Some (payload_at n (tb_tree tb))) by (apply payload_is_Some; by eexists).
  pose proof Hx as [Hin Hxn]%deref_elem. pose proof (data_entry x _ Ht Hin) as Hdx. rewrite Hxn in Hdx.
  rewrite <- Hdx. fold (strategy_at n tb). destruct (strategy_at n tb) as [old|] eqn:Ho; [|by exists tb; split; [|left]].
  destruct (find_effective_some (getPrefix n (-1)) tb Ht Hroot) as [new Hnew]. rewrite Hnew.
  assert (Hsame : with_tree (tb_tree tb) tb = tb) by (by destruct tb).
  destruct (changeStrategy_spec n old new tb Ht Hn) as (t&h&Hok&Ht'&_). rewrite Hok. cbn [rbind].
  eexists. split; [done|]. right. exists old, new. split_and!; [done|done| |].
  all: apply (change_common n old new None tb (tb_tree tb)); try done; rewrite Hsame.
  all: intros t' h' Hok' _ Hs'; rewrite Hok in Hok'; injection Hok' as -> ->; cbn [with_tree with_heap with_strategy tb_tree tb_heap tb_next tb_pitItems tb_strategies]; split_and!; try done.
  all: try (by apply nt_inv_erase, update_payload_spec).
  all: intros m; rewrite data_erase; [done|by apply update_payload_spec].
Qed.

(** The choices after the operations *)
Lemma insert_choices n s r tb tb' : nt_inv (tb_tree tb) -> gen_name n -> room n tb -> is_Some (strategy_at [] tb) ->
  getStrategy s tb = Some r -> StrategyChoice_insert n s tb = Ok (true, tb') ->
  nt_inv (tb_tree tb') /\ same_choices_but n tb tb' /\ is_Some (strategy_at [] tb') /\
  (strategy_at n tb' = Some r \/ exists old, strategy_at n tb = Some old /\ strategy_at n tb' = Some old /\ Name_equals old r = true).
Proof.
  intros Ht Hn Hr Hroot Hg Hok. destruct (StrategyChoice_insert_spec n s r tb Ht Hn Hr Hroot Hg) as (tb2&Hok2&Hcase).
  rewrite Hok in Hok2. injection Hok2 as <-.
  assert (Hsome : same_choices_but n tb tb' -> is_Some (strategy_at n tb') -> is_Some (strategy_at [] tb')).
  { intros Hs Hn'. destruct (decide (n = [])) as [<-|Hne]; [done|]. by rewrite Hs. }
  destruct Hcase as [(old&Ho&He&->)|(old&_&_&Hc&Hs)].
  - assert (Hd : forall m, strategy_at m (with_tree (lookup n (tb_tree tb)) tb) = strategy_at m tb)
      by (intros m; unfold strategy_at; cbn [with_tree tb_tree]; by rewrite data_lookup).
    split_and!; [by apply lookup_spec|intros m _; apply Hd|by rewrite Hd|]. right. exists old. by rewrite Hd.
  - split_and!; [apply Hc|apply Hc| |by left]. apply Hsome; [apply Hc|rewrite Hs; by eexists].
Qed.

Lemma erase_choices n tb tb' : nt_inv (tb_tree tb) -> gen_name n -> n <> [] -> is_Some (strategy_at [] tb) ->
  StrategyChoice_erase n tb = Ok tb' ->
  nt_inv (tb_tree tb') /\ is_Some (strategy_at [] tb') /\
  forall m, strategy_at m tb' = if bool_decide (m = n) then None else strategy_at m tb.
Proof.
  intros Ht Hn Hne Hroot Hok. destruct (StrategyChoice_erase_spec n tb Ht Hn Hne Hroot) as (tb2&Hok2&Hcase).
  rewrite Hok in Hok2. injection Hok2 as <-. destruct Hcase as [[Ho ->]|(old&new&_&_&Hc&Hs)].
  - split_and!; [done|done|]. intros m. case_bool_decide; [by subst m|done].
  - split_and!; [apply Hc|rewrite (cc_others _ _ _ _ Hc) by done; done|]. intros m.
    case_bool_decide as Hm; [by subst m|by apply (cc_others _ _ _ _ Hc)].
Qed.

(** What strategies placed on an entry is kept exactly when the strategy of the
    entry stays the same. *)
Definition keeps_info_of_same_strategy tb tb' : Prop :=
  let same n := bool_decide (findEffectiveStrategy_entry n tb' = findEffectiveStrategy_entry n tb) in
  (forall p e, tb_heap tb !! p = Some e -> tb_heap tb' !! p = Some (if same (pe_name e) then e else clearStrategyInfo e)) /\
  (forall m x, np_measurements (data_at m (tb_tree tb)) = Some x ->
     np_measurements (data_at m (tb_tree tb')) = Some (if same m then x else me_clearStrategyInfo x)).

Lemma effective_at n tb s : strategy_at n tb = Some s -> effective n tb (Some s).
Proof. intros Hs. exists n. split_and!; [done|by eexists|done|]. intros q Hq _. by apply prefix_length. Qed.

Lemma effective_ext n tb tb' r : (forall m, strategy_at m tb' = strategy_at m tb) -> effective n tb r -> effective n tb' r.
Proof. intros Hs (p&?&?&?&Hm). exists p. rewrite Hs. split_and!; [done..|]. intros q. rewrite Hs. apply Hm. Qed.

Lemma changed_effective n old new m tb tb' : nt_inv (tb_tree tb) -> is_Some (strategy_at [] tb) -> is_Some (strategy_at [] tb') ->
  choice_changed n (fun m => old <> new /\ covered n m tb) tb tb' ->
  effective n tb (Some old) -> effective n tb' (Some new) -> is_Some (payload_at m (tb_tree tb)) -> is_Some (payload_at m (tb_tree tb')) ->
  findEffectiveStrategy_entry m tb' = findEffectiveStrategy_entry m tb <-> ~ (old <> new /\ covered n m tb).
Proof.
  intros Ht Hr Hr' Hc Ho Hnew Hs Hs'.
  pose proof (find_effective_entry m tb Ht Hr Hs) as He. pose proof (find_effective_entry m tb' (cc_tree _ _ _ _ Hc) Hr' Hs') as He'.
  destruct (decide (covered n m tb)) as [Hcov|Hcov].
  - rewrite (effective_unique m tb _ _ He (effective_covered n m tb _ Hcov Ho)).
    rewrite (effective_unique m tb' _ _ He' (effective_covered n m tb' _ (covered_ext _ _ _ _ (cc_others _ _ _ _ Hc) Hcov) Hnew)).
    destruct (decide (old = new)) as [->|Hne]; [tauto|]. split; [intros [= ->]; tauto|tauto].
  - rewrite (effective_unique m tb' _ _ He' (effective_uncovered n m tb tb' _ (cc_others _ _ _ _ Hc) Hcov He)). tauto.
Qed.

Lemma changed_keeps n old new tb tb' : pit_inv tb -> is_Some (strategy_at [] tb) -> is_Some (strategy_at [] tb') ->
  choice_changed n (fun m => old <> new /\ covered n m tb) tb tb' ->
  effective n tb (Some old) -> effective n tb' (Some new) -> keeps_info_of_same_strategy tb tb'.
Proof.
  intros Hi Hr Hr' Hc Ho Hnew. pose proof (pi_tree _ Hi) as Ht.
  assert (Hsame : forall m, data_at m (tb_tree tb) <> NtPayload_empty -> data_at m (tb_tree tb') <> NtPayload_empty ->
    bool_decide (findEffectiveStrategy_entry m tb' = findEffectiveStrategy_entry m tb) = negb (bool_decide (old <> new /\ covered n m tb))).
  { intros m Hd Hd'. rewrite <- bool_decide_not. apply bool_decide_ext. apply changed_effective; try done; by apply data_present. }
  split.
  - intros p e He. destruct (pi_entry _ Hi p e He) as [_ Hp].
    rewrite (cc_pit _ _ _ _ Hc p (pe_name e) Hp), Hsame.
    + rewrite He. by case_bool_decide.
    + intros Hd. rewrite Hd in Hp. by apply elem_of_nil in Hp.
    + intros Hd. destruct (cc_data _ _ _ _ Hc (pe_name e)) as (_&Heq&_). rewrite Hd in Heq. rewrite <- Heq in Hp. by apply elem_of_nil in Hp.
    + intros m' Hm'. destruct (pi_ptr _ Hi m' p Hm') as (f&Hf&<-). by simplify_eq.
  - intros m x Hx. pose proof (cc_measurements _ _ _ _ Hc m) as Hm. rewrite Hx in Hm. rewrite Hm, Hsame.
    + by case_bool_decide.
    + intros Hd. by rewrite Hd in Hx.
    + intros Hd. rewrite Hd in Hm. by case_bool_decide.
Qed.

(** The choice of a name takes effect: once a default is set at the root, the
    strategy of a name is the one chosen for its longest prefix that has a
    choice -- found from an entry of the name tree always, by name when the prefixes of the
    name have distinct hashes.  [insert] sets the choice of one name to an
    installed strategy (or leaves one with an equal name), [erase] removes it,
    neither fails and neither touches another choice. *)
Theorem strategy_choice_correct n s r tb : nt_inv (tb_tree tb) -> gen_name n -> room n tb ->
  is_Some (strategy_at [] tb) -> getStrategy s tb = Some r ->
  (is_Some (payload_at n (tb_tree tb)) -> effective n tb (findEffectiveStrategy_entry n tb)) /\
  (NoDup (computeHashSet n) -> effective n tb (findEffectiveStrategy n tb)) /\
  (exists tb', StrategyChoice_insert n s tb = Ok (true, tb') /\ same_choices_but n tb tb' /\
     (strategy_at n tb' = Some r \/ exists old, strategy_at n tb' = Some old /\ Name_equals old r = true)) /\
  (n <> [] -> exists tb', StrategyChoice_erase n tb = Ok tb' /\
     forall m, strategy_at m tb' = if bool_decide (m = n) then None else strategy_at m tb).
Proof.
  intros Ht Hn Hr Hroot Hg. split_and!.
  - by apply find_effective_entry.
  - intros Hnd. by apply find_effective_name.
  - destruct (StrategyChoice_insert_spec n s r tb Ht Hn Hr Hroot Hg) as (tb'&Hok&_). exists tb'.
    destruct (insert_choices n s r tb tb' Ht Hn Hr Hroot Hg Hok) as (_&?&_&Hcase). split_and!; [done|done|].
    destruct Hcase as [?|(old&_&?&?)]; [by left|right; by exists old].
  - intros Hne. destruct (StrategyChoice_erase_spec n tb Ht Hn Hne Hroot) as (tb'&Hok&_). exists tb'. split; [done|].
    by apply (erase_choices n tb tb').
Qed.

Lemma NoDup_hashes_parent q c : NoDup (computeHashSet (q ++ [c])) -> NoDup (computeHashSet q).
Proof.
  rewrite !computeHashSet_spec, length_app. simpl length. rewrite Nat.add_1_r, (seq_S (S (length q))), map_app, NoDup_app. intros [Hnd _].
  eassert (map _ _ = map _ _) as <-; [|exact Hnd]. apply map_ext_in. intros k Hk%in_seq. rewrite take_app_le by lia. done.
Qed.

Lemma effective_erased n tb tb' new : nt_inv (tb_tree tb) -> gen_name n -> n <> [] -> room n tb -> NoDup (computeHashSet n) ->
  is_Some (strategy_at [] tb) -> findEffectiveStrategy (getPrefix n (-1)) tb = Some new ->
  (forall m, strategy_at m tb' = if bool_decide (m = n) then None else strategy_at m tb) -> effective n tb' (Some new).
Proof.
  intros Ht Hn Hne Hr Hnd Hroot Hnew Hat. destruct n as [|c n _] using rev_ind; [done|].
  assert (Hlen : len (n ++ [c]) < U64) by (pose proof (inv_items _ Ht) as Hit; unfold room in Hr; rewrite Hit in Hr; unfold len in Hr |- *; unfold U64; lia).
  rewrite getPrefix_neg1 in Hnew by done. assert (Hgn : gen_name n) by (by apply Forall_app in Hn as [? _]).
  pose proof (find_effective_name n tb Ht Hroot Hgn (NoDup_hashes_parent n c Hnd)) as (p&Hp&Hs&Hpr&Hmax). rewrite Hnew in *.
  assert (Hshort : forall q, q `prefix_of` n -> q <> n ++ [c]) by (intros q Hq ->; apply prefix_length in Hq; rewrite length_app in Hq; simpl in Hq; lia).
  exists p. split_and!; [etrans; [done|by eexists]|done|by rewrite Hat, bool_decide_false by auto|].
  intros q Hq Hqs. apply prefix_snoc_cases in Hq as [Hq| ->].
  - rewrite Hat, bool_decide_false in Hqs by auto. by apply Hmax.
  - rewrite Hat, bool_decide_true in Hqs by done. by destruct Hqs.
Qed.

Lemma keeps_lookup n tb : pit_inv tb -> is_Some (strategy_at [] tb) -> gen_name n -> room n tb ->
  keeps_info_of_same_strategy tb (with_tree (lookup n (tb_tree tb)) tb).
Proof.
  intros Hi Hroot Hn Hr. pose proof (pi_tree _ Hi) as Ht. set (tb' := with_tree _ tb).
  assert (Hd : forall m, data_at m (tb_tree tb') = data_at m (tb_tree tb)) by (intros m; by apply data_lookup).
  assert (Hst : forall m, strategy_at m tb' = strategy_at m tb) by (intros m; unfold strategy_at; by rewrite Hd).
  assert (Hsame : forall m, data_at m (tb_tree tb) <> NtPayload_empty ->
    bool_decide (findEffectiveStrategy_entry m tb' = findEffectiveStrategy_entry m tb) = true).
  { intros m Hm. apply bool_decide_eq_true. apply (effective_unique m tb').
    - apply find_effective_entry; [by apply lookup_spec|by rewrite Hst|]. apply data_present. by rewrite Hd.
    - apply (effective_ext m tb); [done|]. apply find_effective_entry; [done|done|]. by apply data_present. }
  split.
  - intros p e He. rewrite Hsame; [done|]. intros Hem. destruct (pi_entry _ Hi p e He) as [_ Hp]. rewrite Hem in Hp. by apply elem_of_nil in Hp.
  - intros m x Hx. rewrite Hsame, Hd; [done|]. intros Hem. by rewrite Hem in Hx.
Qed.

(** C28. A strategy never finds what another one left behind: after the choice of
    a name is set or removed, the information that strategies placed on a PIT
    entry, on its in- and out-records or on the measurements of a name is gone if the effective strategy of
    that name is another one than before, and untouched if it is the same.
    Setting an installed strategy and removing a choice below the root always
    succeed.  (The name has generic components and room in the name tree, and its
    prefixes have distinct hashes, so that the search by name finds the old
    strategy.) *)
Theorem strategy_change_resets_info n s r tb : pit_inv tb -> is_Some (strategy_at [] tb) -> gen_name n -> room n tb ->
  NoDup (computeHashSet n) -> getStrategy s tb = Some r ->
  (exists tb', StrategyChoice_insert n s tb = Ok (true, tb') /\ keeps_info_of_same_strategy tb tb') /\
  (n <> [] -> exists tb', StrategyChoice_erase n tb = Ok tb' /\ keeps_info_of_same_strategy tb tb').
Proof.
  intros Hi Hroot Hn Hr Hnd Hg. pose proof (pi_tree _ Hi) as Ht. split.
  - destruct (StrategyChoice_insert_spec n s r tb Ht Hn Hr Hroot Hg) as (tb'&Hok&Hcase). exists tb'. split; [done|].
    destruct (insert_choices n s r tb tb' Ht Hn Hr Hroot Hg Hok) as (_&_&Hroot'&_).
    set (u := lookup n (tb_tree tb)) in *. assert (Hu : nt_inv u) by (by apply lookup_spec).
    assert (Hd : forall m, data_at m u = data_at m (tb_tree tb)) by (intros m; by apply data_lookup).
    assert (Hst : forall m, strategy_at m (with_tree u tb) = strategy_at m tb) by (intros m; unfold strategy_at; cbn [with_tree tb_tree]; by rewrite Hd).
    destruct Hcase as [(old&Ho&He&->)|(old&Hold&Hat&Hc&Hs)].
    + by apply keeps_lookup.
    + apply (changed_keeps n old r); try done; [|by apply effective_at].
      destruct Hat as [Hat|Hat]; [|by apply effective_at]. destruct Hold as [Hold|Hold]; [by apply effective_at|].
      rewrite <- Hold. apply (effective_ext n (with_tree u tb)); [by intros m|]. apply find_effective_name; [done|by rewrite Hst|done|done].
  - intros Hne. destruct (StrategyChoice_erase_spec n tb Ht Hn Hne Hroot) as (tb'&Hok&Hcase). exists tb'. split; [done|].
    destruct (erase_choices n tb tb' Ht Hn Hne Hroot Hok) as (_&Hroot'&Hat).
    destruct Hcase as [[_ ->]|(old&new&Ho&Hnew&Hc&_)].
    + split; intros; by rewrite bool_decide_true.
    + apply (changed_keeps n old new); try done; [by apply effective_at|]. by apply (effective_erased n tb tb').
Qed.
End Facts.

Module StrategySamples.
#[local] Existing Instance sample_sha256.
#[local] Existing Instance Samples.SampleHash.
Import PitTableSamples.

(** Two strategies, one version each. *)
Definition st1 : Name := [generic [115]; generic [253; 1]].
Definition st2 : Name := [generic [116]; generic [253; 2]].
Definition sc1 : Tables := (install st2 (setDefaultStrategy st1 tables0)).2.

Lemma inv_sc1 : nt_inv (tb_tree sc1).
Proof. unfold sc1. apply update_payload_spec, lookup_spec; [apply (nt_inv_empty 2); lia|by_decide|by vm_compute]. Qed.

Lemma strategy_choice_correct_witness :
  effective name_ab sc1 (findEffectiveStrategy name_ab sc1) /\
  exists tb', StrategyChoice_insert name_ab [generic [116]] sc1 = Ok (true, tb') /\ strategy_at [] tb' = Some st1.
Proof.
  destruct (strategy_choice_correct name_ab [generic [116]] st2 sc1 inv_sc1) as (_&He&(tb'&Hok&Hs&_)&_);
    [by_decide|by vm_compute|vm_compute; by eexists|by vm_compute|].
  split; [apply He; by_decide|]. exists tb'. split; [exact Hok|]. rewrite (Hs []) by done. by vm_compute.
Defined.

(** The first strategy has left information on the PIT entry for [name_ab]. *)
Definition info1 : PitEntry := setStrategyInfo 1020 10 (PitEntry_new i1).
Definition tables2 : Tables := with_heap (<[1%positive := info1]> (tb_heap tables1)) tables1.
Definition sc2 : Tables := (install st2 (setDefaultStrategy st1 tables2)).2.

Lemma pit_inv_sc2 : pit_inv sc2.
Proof.
  assert (Hi : pit_inv tables2) by (apply (pit_inv_update 1%positive (PitEntry_new i1)); [by vm_compute|done|apply pit_inv_tables1]).
  pose proof (pi_tree _ Hi) as Ht. set (t := update_payload [] (set_strategy (Some st1)) (lookup [] (tb_tree tables2))).
  assert (Hr : nt_nItems (tb_tree tables2) + len ([] : Name) + 1 <= 2 ^ 30) by (by vm_compute).
  assert (Hu : nt_inv (lookup [] (tb_tree tables2))) by (apply lookup_spec; [done|by_decide|done]).
  assert (Hi' : pit_inv (with_tree t tables2)).
  { apply pit_inv_tree; [by apply update_payload_spec| |done]. intros m. unfold t.
    rewrite data_update, !data_lookup; [case_bool_decide; [by subst m|done]|try done; by_decide..|].
    apply lookup_present; [done|by_decide|done]. }
  destruct Hi' as [H1 H2 H3 H4 H5 H6 H7]. by split.
Qed.

Lemma strategy_change_resets_info_witness :
  (exists tb', StrategyChoice_insert name_ab [generic [116]] sc2 = Ok (true, tb') /\ keeps_info_of_same_strategy sc2 tb') /\
  pe_strategyInfo <$> tb_heap sc2 !! (1%positive : PitPtr) = Some {[1020 := 10]} /\
  match StrategyChoice_insert name_ab [generic [116]] sc2 with
  | Ok (_, tb') => pe_strategyInfo <$> tb_heap tb' !! (1%positive : PitPtr) = Some ∅
  | Err _ => False
  end.
Proof.
  split; [|split; [by vm_compute|by vm_compute]].
  apply (strategy_change_resets_info name_ab [generic [116]] st2 sc2 pit_inv_sc2); [vm_compute; by eexists|by_decide|by vm_compute|by_decide|by vm_compute].
Defined.
End StrategySamples.
