(* ===== verification/Measurements.v ===== *)
(** * The measurements table: [NFD/daemon/table/measurements.cpp],
    [measurements-accessor.cpp]

    Strategies keep measurements of a name space in entries of the name tree.
    An entry lives for some time: it has an expiry and a cleanup event.  A
    reference to an entry is the name of its name tree entry, or [None] when
    the entry is no longer attached to one. *)

From S2P Require Import Prelude StdMap Tlv Block Encoder NameComponent Name Exclude Packet CsEntry.
From S2P Require Import CsPolicy NameTree Enumerate FibEntry PitEntry DeadNonceList Tables Pit Fib StrategyChoice.

Section Measurements.
Context `{CityHash}.
Implicit Types (tb : Tables) (n : Name).

Definition with_measurements (t : NameTree NtPayload) (items : Z) tb : Tables :=
  MkTables t (tb_heap tb) (tb_next tb) (tb_pitItems tb) (tb_fibItems tb) (tb_strategyItems tb) items (tb_strategies tb).

(** [getInitialLifetime], four seconds *)
Definition getInitialLifetime : Z := milliseconds 4000.

(** [Measurements::get(name_tree::Entry&)] *)
Definition Measurements_get_entry (now : Z) n tb : Tables :=
  match np_measurements (data_at n (tb_tree tb)) with
  | Some _ => tb
  | None =>
      let expiry := now + getInitialLifetime in
      with_measurements (update_payload n (set_measurements (Some (MkMeasurementsEntry expiry expiry ∅))) (tb_tree tb))
        (to_u64 (tb_measurementsItems tb + 1)) tb
  end.

(** [get(const Name&)], [get(const fib::Entry&)], [get(const pit::Entry&)]; the
    name of the entry is that of the name tree entry. *)
Definition Measurements_get (now : Z) n tb : Name * Tables :=
  let '(nte, t) := lookup_entry n (tb_tree tb) in (nte, Measurements_get_entry now nte (with_tree t tb)).

Definition Measurements_get_fib (now : Z) (fibEntry : FibEntry) tb : result Tables :=
  let n := fe_prefix fibEntry in
  match np_fib (data_at n (tb_tree tb)) with
  | Some _ => Ok (Measurements_get_entry now n tb)
  | None => if len n =? 0 then Ok (Measurements_get now n tb).2 else Err AssertFailed
  end.

Definition Measurements_get_pit (now : Z) (e : PitEntry) tb : result Tables :=
  match payload_at (pe_name e) (tb_tree tb) with
  | Some _ => Ok (Measurements_get_entry now (pe_name e) tb)
  | None => Err AssertFailed
  end.

(** [getParent]: the name of the parent's entry *)
Definition Measurements_getParent (now : Z) n tb : result (option Name * Tables) :=
  if len n =? 0 then Ok (None, tb)
  else
    match deref n (tb_tree tb) ≫= nte_parent with
    | Some p => Ok (Some p, Measurements_get_entry now p tb)
    | None => Err AssertFailed
    end.

(** [findLongestPrefixMatch] of a name and of the name tree entry of a PIT
    entry: the name of the match *)
Definition measured (pred : MeasurementsEntry -> bool) (x : NtPayload) : bool :=
  match np_measurements x with Some m => pred m | None => false end.

Definition Measurements_findLongestPrefixMatch n (pred : MeasurementsEntry -> bool) tb : option (NtEntry NtPayload) :=
  findLongestPrefixMatch n (fun e => measured pred (nte_payload e)) (tb_tree tb).
Definition Measurements_findLongestPrefixMatch_pit (e : PitEntry) (pred : MeasurementsEntry -> bool) tb : option (NtEntry NtPayload) :=
  findLongestPrefixMatch_entry (pe_name e) (fun e => measured pred (nte_payload e)) (tb_tree tb).

(** [findExactMatch]: it looks the name up, which adds it to the name tree. *)
Definition Measurements_findExactMatch n tb : option MeasurementsEntry * Tables :=
  let '(nte, t) := lookup_entry n (tb_tree tb) in (np_measurements (data_at nte t), with_tree t tb).

Definition extendLifetime (now : Z) (entry : option Name) (lifetime : Z) tb : Tables :=
  match entry with
  | None => tb
  | Some n =>
      match np_measurements (data_at n (tb_tree tb)) with
      | None => tb
      | Some m =>
          let expiry := now + lifetime in
          if expiry <=? me_expiry m then tb
          else with_tree (update_payload n (set_measurements (Some (MkMeasurementsEntry expiry expiry (me_strategyInfo m)))) (tb_tree tb)) tb
      end
  end.

(** The cleanup event of an entry *)
Definition cleanup (entry : option Name) tb : Tables :=
  match entry with
  | None => tb
  | Some n =>
      let t := update_payload n (set_measurements None) (tb_tree tb) in
      with_measurements (eraseEntryIfEmpty n t) (to_u64 (tb_measurementsItems tb - 1)) tb
  end.

(** [MeasurementsAccessor::filter], for a strategy with a name: a strategy sees
    the entries of the names it is the strategy of. *)
Definition accessor_filter (strategy : Name) (entry : option Name) tb : result (option Name) :=
  match entry with
  | None => Ok None
  | Some n =>
      match findEffectiveStrategy_entry n tb with
      | None => Err AssertFailed
      | Some s => Ok (if bool_decide (s = strategy) then Some n else None)
      end
  end.

(** [MeasurementsAccessor::get] of a name, [findLongestPrefixMatch] of a name;
    [extendLifetime] of the accessor is that of the table. *)
Definition accessor_get (strategy : Name) (now : Z) n tb : result (option Name * Tables) :=
  let '(entry, tb) := Measurements_get now n tb in
  let! r := accessor_filter strategy (Some entry) tb in
  Ok (r, tb).

Definition accessor_findLongestPrefixMatch (strategy : Name) n (pred : MeasurementsEntry -> bool) tb : result (option Name) :=
  accessor_filter strategy (nte_prefix <$> Measurements_findLongestPrefixMatch n pred tb) tb.
End Measurements.

Section Facts.
Context `{CityHash}.
Implicit Types (tb : Tables) (n m : Name).

Definition measurement_at n tb : option MeasurementsEntry := np_measurements (data_at n (tb_tree tb)).

Definition not_measurements (x y : NtPayload) : Prop :=
  np_fib x = np_fib y /\ np_pit x = np_pit y /\ np_strategy x = np_strategy y.

(** Every entry is cleaned up when it expires. *)
Definition timers_ok tb : Prop := forall n e, measurement_at n tb = Some e -> me_cleanup e = me_expiry e.

Lemma measurement_present n tb : is_Some (measurement_at n tb) -> is_Some (payload_at n (tb_tree tb)).
Proof. intros [e He]. apply data_present. intros Hd. unfold measurement_at in He. by rewrite Hd in He. Qed.

(** Writing a measurements entry *)
Lemma set_measurements_spec n x (t : NameTree NtPayload) tb : nt_inv t -> is_Some (payload_at n t) ->
  (forall m, data_at m t = data_at m (tb_tree tb)) ->
  let t' := update_payload n (set_measurements x) t in
  nt_inv t' /\ forall m, not_measurements (data_at m t') (data_at m (tb_tree tb)) /\
    np_measurements (data_at m t') = if bool_decide (m = n) then x else measurement_at m tb.
Proof.
  intros Ht Hs Hd t'. split; [by apply update_payload_spec|]. intros m. unfold t', measurement_at. rewrite data_update by done.
  case_bool_decide as Hm; [subst m|]; rewrite Hd; by split.
Qed.

Lemma get_entry_spec now n t tb : nt_inv t -> is_Some (payload_at n t) -> (forall m, data_at m t = data_at m (tb_tree tb)) ->
  let tb' := Measurements_get_entry now n (with_tree t tb) in
  nt_inv (tb_tree tb') /\ forall m, not_measurements (data_at m (tb_tree tb')) (data_at m (tb_tree tb)) /\
    measurement_at m tb' = if bool_decide (m = n)
      then Some (default (MkMeasurementsEntry (now + getInitialLifetime) (now + getInitialLifetime) ∅) (measurement_at n tb)) else measurement_at m tb.
Proof.
  intros Ht Hs Hd tb'. unfold tb', Measurements_get_entry. cbn [with_tree tb_tree]. rewrite Hd. fold (measurement_at n tb).
  destruct (measurement_at n tb) as [e|] eqn:He.
  - split; [done|]. intros m. unfold measurement_at. cbn [with_tree tb_tree]. rewrite Hd. split; [done|].
    case_bool_decide; [|done]. subst m. exact He.
  - destruct (set_measurements_spec n (Some (MkMeasurementsEntry (now + getInitialLifetime) (now + getInitialLifetime) ∅)) t tb Ht Hs Hd) as [Ht' Hm].
    split; [done|]. intros m. destruct (Hm m) as [? Heq]. split; [done|]. unfold measurement_at at 1. cbn [with_measurements tb_tree].
    rewrite Heq. by case_bool_decide.
Qed.

(** The measurements table: [get] gives a name an entry that lives four
    seconds unless it has one; [extendLifetime] moves the expiry of an entry to
    the later of the two times; [cleanup] removes the entry.  Every operation
    leaves the other entries and whatever else is attached to the name tree
    alone, keeps the name tree sound, and the cleanup of every entry is
    scheduled for its expiry. *)
Theorem measurements_correct now n lifetime tb : nt_inv (tb_tree tb) -> gen_name n -> room n tb -> timers_ok tb ->
  (let tb' := (Measurements_get now n tb).2 in
   nt_inv (tb_tree tb') /\ timers_ok tb' /\ forall m, not_measurements (data_at m (tb_tree tb')) (data_at m (tb_tree tb)) /\
     measurement_at m tb' = if bool_decide (m = n)
       then Some (default (MkMeasurementsEntry (now + getInitialLifetime) (now + getInitialLifetime) ∅) (measurement_at n tb)) else measurement_at m tb) /\
  (let tb' := extendLifetime now (Some n) lifetime tb in
   nt_inv (tb_tree tb') /\ timers_ok tb' /\ forall m, not_measurements (data_at m (tb_tree tb')) (data_at m (tb_tree tb)) /\
     measurement_at m tb' = if bool_decide (m = n)
       then (fun e => let t := Z.max (me_expiry e) (now + lifetime) in MkMeasurementsEntry t t (me_strategyInfo e)) <$> measurement_at n tb
       else measurement_at m tb) /\
  (is_Some (measurement_at n tb) -> let tb' := cleanup (Some n) tb in
   nt_inv (tb_tree tb') /\ timers_ok tb' /\ forall m, not_measurements (data_at m (tb_tree tb')) (data_at m (tb_tree tb)) /\
     measurement_at m tb' = if bool_decide (m = n) then None else measurement_at m tb).
Proof.
  intros Ht Hn Hr Htm. split_and!.
  - cbv zeta. unfold Measurements_get. rewrite lookup_entry_gen by done. cbn [snd]. assert (Ht1 : nt_inv (lookup n (tb_tree tb))) by (by apply lookup_spec).
    destruct (get_entry_spec now n (lookup n (tb_tree tb)) tb Ht1 ltac:(by apply lookup_present) ltac:(intros; by apply data_lookup)) as [Ht' Hm].
    split_and!; [done| |done]. intros m e He. destruct (Hm m) as [_ Hme]. rewrite Hme in He. case_bool_decide; [|by apply (Htm m)].
    destruct (measurement_at n tb) as [x|] eqn:Hx; injection He as <-; [by apply (Htm n)|done].
  - unfold extendLifetime. fold (measurement_at n tb). destruct (measurement_at n tb) as [e|] eqn:He.
    2: { split_and!; [done|done|]. intros m. split; [done|]. case_bool_decide; [|done]. subst m. by rewrite He. }
    destruct (Z.leb_spec (now + lifetime) (me_expiry e)) as [Hle|Hlt].
    { split_and!; [done|done|]. intros m. split; [done|]. case_bool_decide; [|done]. subst m. rewrite He. cbn.
      pose proof (Htm n e He) as Hc. destruct e as [x y z]. cbn in *. subst y. by rewrite Z.max_l. }
    destruct (set_measurements_spec n (Some (MkMeasurementsEntry (now + lifetime) (now + lifetime) (me_strategyInfo e))) (tb_tree tb) tb Ht
      ltac:(apply measurement_present; by eexists) ltac:(done)) as [Ht' Hm].
    split_and!; [done| |].
    + intros m x Hx. unfold measurement_at in Hx. cbn [with_tree tb_tree] in Hx. destruct (Hm m) as [_ Hme]. rewrite Hme in Hx.
      case_bool_decide; [by injection Hx as <-|by apply (Htm m)].
    + intros m. destruct (Hm m) as [? Hme]. split; [done|]. unfold measurement_at at 1. cbn [with_tree tb_tree]. rewrite Hme.
      case_bool_decide; [|done]. cbn. by rewrite Z.max_r by lia.
  - intros Hs. cbv zeta. destruct (set_measurements_spec n None (tb_tree tb) tb Ht ltac:(by apply measurement_present) ltac:(done)) as [Ht' Hm].
    cbv zeta in Hm. unfold cleanup. cbn [with_measurements tb_tree].
    assert (He : forall m, data_at m (eraseEntryIfEmpty n (update_payload n (set_measurements None) (tb_tree tb))) =
      data_at m (update_payload n (set_measurements None) (tb_tree tb))) by (intros; by apply data_erase).
    assert (Hat : forall m, measurement_at m (with_measurements (eraseEntryIfEmpty n (update_payload n (set_measurements None) (tb_tree tb)))
        (to_u64 (tb_measurementsItems tb - 1)) tb) = if bool_decide (m = n) then None else measurement_at m tb).
    { intros m. unfold measurement_at at 1. cbn [with_measurements tb_tree]. rewrite He. by destruct (Hm m) as [_ ->]. }
    split_and!; [by apply nt_inv_erase| |].
    + intros m x Hx. rewrite Hat in Hx. case_bool_decide; [done|by apply (Htm m)].
    + intros m. rewrite He. destruct (Hm m) as [? _]. split; [done|apply Hat].
Qed.

(** [findExactMatch] of a name that is not in the name tree puts it there, and
    nothing takes it out again. *)
Theorem measurements_find_leaks n tb : nt_inv (tb_tree tb) -> gen_name n -> room n tb -> payload_at n (tb_tree tb) = None ->
  let '(r, tb') := Measurements_findExactMatch n tb in
  r = None /\ payload_at n (tb_tree tb') = Some NtPayload_empty.
Proof.
  intros Ht Hn Hr Hp. unfold Measurements_findExactMatch. rewrite lookup_entry_gen by done. cbn [with_tree tb_tree].
  assert (Hd : data_at n (lookup n (tb_tree tb)) = NtPayload_empty) by (rewrite data_lookup by done; unfold data_at; by rewrite Hp).
  rewrite Hd. split; [done|]. pose proof (lookup_present n (tb_tree tb) Ht Hn Hr) as [x Hx]. unfold data_at in Hd. rewrite Hx in Hd. cbn in Hd. by subst x.
Qed.

(** A strategy sees the measurements of its own name space only: through the
    accessor it gets the entry of a name exactly when it is the effective
    strategy of that name, and nothing otherwise, and asking never fails.
    (The entry is there and lives four seconds in either case.) *)
Theorem accessor_isolates strategy now n tb : nt_inv (tb_tree tb) -> is_Some (strategy_at [] tb) -> gen_name n -> room n tb ->
  exists r tb', accessor_get strategy now n tb = Ok (r, tb') /\ is_Some (measurement_at n tb') /\
    (forall m, strategy_at m tb' = strategy_at m tb) /\
    ((r = Some n /\ effective n tb (Some strategy)) \/ (r = None /\ ~ effective n tb (Some strategy))).
Proof.
  intros Ht Hroot Hn Hr. unfold accessor_get, Measurements_get. rewrite lookup_entry_gen by done. set (tb' := Measurements_get_entry _ _ _).
  assert (Hu : nt_inv (lookup n (tb_tree tb))) by (by apply lookup_spec).
  destruct (get_entry_spec now n (lookup n (tb_tree tb)) tb Hu ltac:(by apply lookup_present) ltac:(intros; by apply data_lookup)) as [Ht' Hm].
  fold tb' in Ht', Hm. assert (Hst : forall m, strategy_at m tb' = strategy_at m tb) by (intros m; by destruct (Hm m) as [(_&_&?) _]).
  destruct (Hm n) as [_ Hmn]. rewrite bool_decide_true in Hmn by done.
  assert (Hs : is_Some (measurement_at n tb')) by (rewrite Hmn; by eexists).
  pose proof (find_effective_entry n tb' Ht' ltac:(by rewrite Hst) (measurement_present n tb' Hs)) as Heff.
  cbn [accessor_filter]. pose proof Heff as (_&_&[s Hsome]&_). rewrite Hsome in *.
  apply (effective_ext n tb' tb) in Heff; [|by intros m]. cbn [rbind]. eexists _, tb'. split_and!; [done|done|done|].
  case_bool_decide as Heq; [left; by subst s|right]. split; [done|]. intros Hx. by pose proof (effective_unique _ _ _ _ Heff Hx) as [= ?].
Qed.
End Facts.

Module MeasurementsSamples.
#[local] Existing Instance sample_sha256.
#[local] Existing Instance Samples.SampleHash.
Import PitTableSamples StrategySamples.

Lemma no_measurements_sc1 m : measurement_at m sc1 = None.
Proof.
  assert (Ht : nt_inv (tb_tree tables0)) by (apply (nt_inv_empty 2); lia).
  assert (Hd : forall k, data_at k (tb_tree tables0) = payload_empty) by (intros k; by vm_compute).
  assert (Hr : nt_nItems (tb_tree tables0) + len ([] : Name) + 1 <= 2 ^ 30) by (by vm_compute).
  unfold measurement_at. change (tb_tree sc1) with (update_payload [] (set_strategy (Some st1)) (lookup [] (tb_tree tables0))).
  rewrite data_update, !data_lookup, !Hd by (done || by_decide || (apply lookup_spec; done || by_decide) || (apply lookup_present; done || by_decide)).
  by case_bool_decide.
Qed.

Lemma measurements_correct_witness :
  measurement_at name_ab (Measurements_get 1000 name_ab sc1).2 = Some (MkMeasurementsEntry 4000001000 4000001000 ∅) /\
  measurement_at name_ab sc1 = None.
Proof.
  destruct (measurements_correct 1000 name_ab 5 sc1 inv_sc1) as [(_&_&Hg) _].
  - by_decide.
  - by vm_compute.
  - intros m e. by rewrite no_measurements_sc1.
  - destruct (Hg name_ab) as [_ He]. split; [rewrite He; vm_compute; reflexivity|vm_compute; reflexivity].
Defined.
End MeasurementsSamples.
