(* ===== verification/Forwarder.v ===== *)
(** * The forwarding pipelines: [NFD/daemon/fw/forwarder.cpp]

    The state of the forwarder is its tables, the content store, the dead
    nonce list, the faces and the packets it has handed to faces so far.  A
    pipeline that can fail (an assertion, an iterator outside its container,
    an exception of the content store) is a function into [result].

    Strategies are code of their own: a trigger is a program that, given the
    state, performs one of the actions a strategy has (send the Interest,
    reject it, send a Nack, place information on the PIT entry), is done, or
    stops at an assertion, and sees the state after each action.
    The pipelines take the triggers as an argument, so that a strategy may
    behave differently each time, as one with private state does. *)

From S2P Require Import Prelude StdMap Tlv Block Encoder NameComponent Name Exclude Packet Link CsEntry.
From S2P Require Import CsPolicy Cs NameTree FibEntry PitEntry DeadNonceList Tables Pit Fib StrategyChoice.

(** ** State *)

Inductive Packet := PktInterest (i : Interest) | PktData (d : Data) | PktNack (n : Nack).

Record Counters := MkCounters {
  nInInterests : Z; nOutInterests : Z; nInData : Z; nOutData : Z; nInNacks : Z; nOutNacks : Z
}.
Definition Counters_zero : Counters := MkCounters 0 0 0 0 0 0.

Record Forwarder (P : Type) := MkForwarder {
  fw_tables : Tables;
  fw_cs : Cs P;
  fw_dnl : DeadNonceList;
  fw_regions : list Name;
  fw_faces : gmap FacePtr Face;
  fw_drawn : nat;
  fw_counters : Counters;
  fw_sent : list (FacePtr * Packet)
}.
Arguments MkForwarder {P}. Arguments fw_tables {P}. Arguments fw_cs {P}. Arguments fw_dnl {P}.
Arguments fw_regions {P}. Arguments fw_faces {P}. Arguments fw_drawn {P}. Arguments fw_counters {P}.
Arguments fw_sent {P}.

(** The random numbers of [getGlobalRng], in the order they are drawn. *)
Class Rng := { rng_draw : nat -> Z; rng_range k : 0 <= rng_draw k < U32 }.

(** ** Strategies *)

(** [Strategy::sendInterest], [rejectPendingInterest], [sendNack], and writing
    an item of [StrategyInfoHost] of the PIT entry *)
Inductive Action :=
| ActSendInterest (p : PitPtr) (outFace : FacePtr) (wantNewNonce : bool)
| ActReject (p : PitPtr)
| ActSendNack (p : PitPtr) (outFace : FacePtr) (header : NackHeader)
| ActSetInfo (p : PitPtr) (typeId v : Z).

Inductive Prog (S : Type) :=
| Done
| Fail (x : error)
| Act (a : Action) (k : S -> Prog S).
Arguments Done {S}. Arguments Fail {S}. Arguments Act {S}.

(** The triggers of the strategy with the given name. *)
Record StrategyCode (P : Type) := {
  afterReceiveInterest : Name -> Z -> FacePtr -> Interest -> FibEntry -> PitPtr -> Forwarder P -> Prog (Forwarder P);
  beforeSatisfyInterest : Name -> Z -> PitPtr -> FacePtr -> Data -> Forwarder P -> Prog (Forwarder P);
  beforeExpirePendingInterest : Name -> Z -> PitPtr -> Forwarder P -> Prog (Forwarder P);
  afterReceiveNack : Name -> Z -> FacePtr -> Nack -> FibEntry -> PitPtr -> Forwarder P -> Prog (Forwarder P)
}.
Arguments afterReceiveInterest {P}. Arguments beforeSatisfyInterest {P}.
Arguments beforeExpirePendingInterest {P}. Arguments afterReceiveNack {P}.

(** [std::max_element] *)
Fixpoint max_element {A} (lt : A -> A -> bool) (largest : A) (l : list A) : A :=
  match l with
  | [] => largest
  | x :: l' => max_element lt (if lt largest x then x else largest) l'
  end.

(** ** Links *)

(** [Interest::getSelectedDelegation] and [setSelectedDelegation]; the index
    is that of the delegation in the wire encoding of the link. *)
Definition getSelectedDelegation (i : Interest) : result Name :=
  match i_link i, i_selectedDelegation i with
  | Some link, Some k => match link !! k with Some d => Ok d.2 | None => Err OutOfRange end
  | _, _ => Err PacketError
  end.

Definition set_selected (k : nat) (i : Interest) : Interest :=
  MkInterest (i_name i) (i_selectors i) (i_nonce i) (i_interestLifetime i) (i_link i) (Some k) (i_nextHopFaceId i).

Definition setSelectedDelegation (n : Name) (i : Interest) : result Interest :=
  match i_link i with
  | None => Err InvalidArgument
  | Some link =>
      match delegation_index n 0 link with
      | Some k => Ok (set_selected k i)
      | None => Err InvalidArgument
      end
  end.

Definition set_nonce (nonce : Z) (i : Interest) : Interest :=
  MkInterest (i_name i) (i_selectors i) nonce (i_interestLifetime i) (i_link i) (i_selectedDelegation i) (i_nextHopFaceId i).

Section Forwarder.
Context `{Sha256} `{CityHash} `{CityHashSeed} `{StdSort} `{Rng} {P : Type} `{CsPolicy P}.
Implicit Types (fw : Forwarder P) (p : PitPtr) (face : FacePtr).

(** ** Access to the state *)

Definition with_tables (tb : Tables) fw : Forwarder P :=
  MkForwarder tb (fw_cs fw) (fw_dnl fw) (fw_regions fw) (fw_faces fw) (fw_drawn fw) (fw_counters fw) (fw_sent fw).
Definition with_cs (cs : Cs P) fw : Forwarder P :=
  MkForwarder (fw_tables fw) cs (fw_dnl fw) (fw_regions fw) (fw_faces fw) (fw_drawn fw) (fw_counters fw) (fw_sent fw).
Definition with_dnl (d : DeadNonceList) fw : Forwarder P :=
  MkForwarder (fw_tables fw) (fw_cs fw) d (fw_regions fw) (fw_faces fw) (fw_drawn fw) (fw_counters fw) (fw_sent fw).
Definition with_faces (l : gmap FacePtr Face) fw : Forwarder P :=
  MkForwarder (fw_tables fw) (fw_cs fw) (fw_dnl fw) (fw_regions fw) l (fw_drawn fw) (fw_counters fw) (fw_sent fw).
Definition with_drawn (n : nat) fw : Forwarder P :=
  MkForwarder (fw_tables fw) (fw_cs fw) (fw_dnl fw) (fw_regions fw) (fw_faces fw) n (fw_counters fw) (fw_sent fw).
Definition with_counters (f : Counters -> Counters) fw : Forwarder P :=
  MkForwarder (fw_tables fw) (fw_cs fw) (fw_dnl fw) (fw_regions fw) (fw_faces fw) (fw_drawn fw) (f (fw_counters fw)) (fw_sent fw).

Definition count_in_interest (c : Counters) := MkCounters (nInInterests c + 1) (nOutInterests c) (nInData c) (nOutData c) (nInNacks c) (nOutNacks c).
Definition count_out_interest (c : Counters) := MkCounters (nInInterests c) (nOutInterests c + 1) (nInData c) (nOutData c) (nInNacks c) (nOutNacks c).
Definition count_in_data (c : Counters) := MkCounters (nInInterests c) (nOutInterests c) (nInData c + 1) (nOutData c) (nInNacks c) (nOutNacks c).
Definition count_out_data (c : Counters) := MkCounters (nInInterests c) (nOutInterests c) (nInData c) (nOutData c + 1) (nInNacks c) (nOutNacks c).
Definition count_in_nack (c : Counters) := MkCounters (nInInterests c) (nOutInterests c) (nInData c) (nOutData c) (nInNacks c + 1) (nOutNacks c).
Definition count_out_nack (c : Counters) := MkCounters (nInInterests c) (nOutInterests c) (nInData c) (nOutData c) (nInNacks c) (nOutNacks c + 1).

(** [Face::sendInterest], [sendData], [sendNack] *)
Definition send face (x : Packet) fw : Forwarder P :=
  MkForwarder (fw_tables fw) (fw_cs fw) (fw_dnl fw) (fw_regions fw) (fw_faces fw) (fw_drawn fw) (fw_counters fw)
    (fw_sent fw ++ [(face, x)]).

(** Following a pointer to a face; a face that was never added has no id. *)
Definition face_at fw face : Face :=
  default (MkFace INVALID_FACEID FACE_SCOPE_NON_LOCAL LINK_TYPE_POINT_TO_POINT) (fw_faces fw !! face).

(** Following a pointer to a PIT entry, and writing through one. *)
Definition get_entry p fw : result PitEntry :=
  match tb_heap (fw_tables fw) !! p with Some e => Ok e | None => Err OutOfRange end.
Definition set_entry p (e : PitEntry) fw : Forwarder P :=
  with_tables (with_heap (<[p := e]> (tb_heap (fw_tables fw))) (fw_tables fw)) fw.

Definition violatesLocalhost fw face (n : Name) : bool :=
  bool_decide (f_scope (face_at fw face) = FACE_SCOPE_NON_LOCAL) && isPrefixOf LOCALHOST_NAME n.

(** ** Timers *)

Definition cancelUnsatisfyAndStragglerTimer p fw : result (Forwarder P) :=
  let! e := get_entry p fw in
  Ok (set_entry p (with_timers None None e) fw).

Definition compare_InRecord_expiry (a b : InRecord) : bool := fr_expiry (ir_record a) <? fr_expiry (ir_record b).

(** The timer fires at the latest expiry of an in-record. *)
Definition setUnsatisfyTimer p fw : result (Forwarder P) :=
  let! e := get_entry p fw in
  match pe_inRecords e with
  | [] => Err OutOfRange
  | r :: l =>
      let lastExpiry := fr_expiry (ir_record (max_element compare_InRecord_expiry r l)) in
      Ok (set_entry p (with_timers (Some lastExpiry) (pe_stragglerTimer e) e) fw)
  end.

Definition STRAGGLER_TIME : Z := milliseconds 100.

Definition setStragglerTimer (now : Z) p (isSatisfied : bool) (dataFreshnessPeriod : Z) fw : result (Forwarder P) :=
  let! e := get_entry p fw in
  Ok (set_entry p (with_timers (pe_unsatisfyTimer e) (Some (now + STRAGGLER_TIME, isSatisfied, dataFreshnessPeriod)) e) fw).

(** ** Dead nonces *)

(** [upstream] is [None] for all out-records. *)
Definition insertDeadNonceList p (isSatisfied : bool) (dataFreshnessPeriod : Z) (upstream : option FacePtr) fw
  : result (Forwarder P) :=
  let! e := get_entry p fw in
  let needDnl :=
    if isSatisfied
    then s_mustBeFresh (i_selectors (pe_interest e)) &&
         ((0 <=? dataFreshnessPeriod) && (milliseconds dataFreshnessPeriod <? dnl_lifetime (fw_dnl fw)))
    else true in
  if negb needDnl then Ok fw
  else
    match upstream with
    | None =>
        Ok (with_dnl (fold_left (fun d r => dnl_add (pe_name e) (fr_lastNonce (or_record r)) d)
                        (pe_outRecords e) (fw_dnl fw)) fw)
    | Some face =>
        match getOutRecord face e with
        | Some r => Ok (with_dnl (dnl_add (pe_name e) (fr_lastNonce (or_record r)) (fw_dnl fw)) fw)
        | None => Ok fw
        end
    end.

(** ** Outgoing packets *)

Definition compare_pickInterest (outFace : FacePtr) (a b : InRecord) : bool :=
  let isOutFaceA := ir_face a =? outFace in
  let isOutFaceB := ir_face b =? outFace in
  if negb isOutFaceA && isOutFaceB then false
  else if isOutFaceA && negb isOutFaceB then true
  else fr_lastRenewed (ir_record b) <? fr_lastRenewed (ir_record a).

(** A copy of an Interest shares the buffer of its wire encoding, and
    [setNonce] writes into that buffer: the Interest of the in-record gets the
    new nonce as well, unless it has lost its encoding. *)
Definition renonce (nonce : Z) face (e : PitEntry) : PitEntry :=
  with_inRecords (update_record ir_face
    (fun r => if ir_hasWire r then MkInRecord (ir_record r) (set_nonce nonce (ir_interest r)) true else r)
    face (pe_inRecords e)) e.

Definition onOutgoingInterest (now : Z) p (outFace : FacePtr) (wantNewNonce : bool) fw : result (Forwarder P) :=
  let! e := get_entry p fw in
  if f_id (face_at fw outFace) =? INVALID_FACEID then Ok fw
  else if violatesScope (face_at fw) outFace e then Ok fw
  else
    match pe_inRecords e with
    | [] => Err OutOfRange
    | r :: l =>
        let picked := max_element (compare_pickInterest outFace) r l in
        let nonce := rng_draw (fw_drawn fw) in
        let interest := if wantNewNonce then set_nonce nonce (ir_interest picked) else ir_interest picked in
        let e := if wantNewNonce then renonce nonce (ir_face picked) e else e in
        let fw := if wantNewNonce then with_drawn (S (fw_drawn fw)) fw else fw in
        let e := insertOrUpdateOutRecord now outFace interest e in
        Ok (with_counters count_out_interest (send outFace (PktInterest interest) (set_entry p e fw)))
    end.

Definition onOutgoingData (d : Data) (outFace : FacePtr) fw : Forwarder P :=
  if f_id (face_at fw outFace) =? INVALID_FACEID then fw
  else if violatesLocalhost fw outFace (d_name d) then fw
  else with_counters count_out_data (send outFace (PktData d) fw).

Definition onOutgoingNack p (outFace : FacePtr) (nack : NackHeader) fw : result (Forwarder P) :=
  let! e := get_entry p fw in
  if f_id (face_at fw outFace) =? INVALID_FACEID then Ok fw
  else
    match getInRecord outFace e with
    | None => Ok fw
    | Some r =>
        if bool_decide (f_linkType (face_at fw outFace) = LINK_TYPE_MULTI_ACCESS) then Ok fw
        else
          let nackPkt := MkNack (ir_interest r) nack in
          Ok (with_counters count_out_nack (send outFace (PktNack nackPkt) (set_entry p (deleteInRecord outFace e) fw)))
    end.

Definition onInterestReject (now : Z) p fw : result (Forwarder P) :=
  let! e := get_entry p fw in
  if hasUnexpiredOutRecords now e then Ok fw
  else
    let! fw := cancelUnsatisfyAndStragglerTimer p fw in
    setStragglerTimer now p false (-1) fw.

(** ** Running a strategy *)

Definition exec (now : Z) (a : Action) fw : result (Forwarder P) :=
  match a with
  | ActSendInterest p outFace wantNewNonce => onOutgoingInterest now p outFace wantNewNonce fw
  | ActReject p => onInterestReject now p fw
  | ActSendNack p outFace header => onOutgoingNack p outFace header fw
  | ActSetInfo p typeId v => let! e := get_entry p fw in Ok (set_entry p (setStrategyInfo typeId v e) fw)
  end.

Fixpoint run (now : Z) (prog : Prog (Forwarder P)) fw : result (Forwarder P) :=
  match prog with
  | Done => Ok fw
  | Fail x => Err x
  | Act a k => let! fw := exec now a fw in run now (k fw) fw
  end.

Definition dispatchToStrategy (now : Z) p (trigger : Name -> Forwarder P -> Prog (Forwarder P)) fw
  : result (Forwarder P) :=
  let! e := get_entry p fw in
  match findEffectiveStrategy_entry (pe_name e) (fw_tables fw) with
  | None => Err OutOfRange
  | Some strategy => run now (trigger strategy fw) fw
  end.

(** ** Incoming Interest *)

(** The FIB entry for an Interest with a link that is not in the producer
    region and has no selected delegation: the loop over the delegations. *)
Fixpoint select_delegation (delegations : list (Z * Name)) (last : FibEntry) (tb : Tables) : FibEntry * option Name :=
  match delegations with
  | [] => (last, None)
  | d :: l =>
      let fibEntry := Fib_findLongestPrefixMatch d.2 tb in
      if hasNextHops fibEntry then (fibEntry, Some d.2) else select_delegation l fibEntry tb
  end.

(** The FIB entry, and the Interest with the delegation that was selected. *)
Definition lookup_fib (interest : Interest) (e : PitEntry) fw : result (FibEntry * Interest) :=
  let tb := fw_tables fw in
  match i_link interest with
  | None => Ok (Fib_findLongestPrefixMatch_entry (pe_name e) tb, interest)
  | Some link =>
      if isInProducerRegion (fw_regions fw) (getDelegations link)
      then Ok (Fib_findLongestPrefixMatch_entry (pe_name e) tb, interest)
      else
        match i_selectedDelegation interest with
        | Some _ => let! n := getSelectedDelegation interest in Ok (Fib_findLongestPrefixMatch n tb, interest)
        | None =>
            match getDelegations link with
            | [] => Err OutOfRange
            | d :: _ =>
                let fibEntry := Fib_findLongestPrefixMatch d.2 tb in
                let isDefaultFreeZone := negb ((len (fe_prefix fibEntry) =? 0) && hasNextHops fibEntry) in
                if isDefaultFreeZone then
                  let '(fibEntry, selected) := select_delegation (getDelegations link) fibEntry tb in
                  match selected with
                  | Some n => let! interest := setSelectedDelegation n interest in Ok (fibEntry, interest)
                  | None => Ok (fibEntry, interest)
                  end
                else Ok (fibEntry, interest)
            end
        end
  end.

(** The in-record of the face holds the same object as [interest], so it has
    the selected delegation too, and the Interest loses its encoding. *)
Definition share_selected face (interest : Interest) (e : PitEntry) : PitEntry :=
  match i_selectedDelegation interest with
  | None => e
  | Some k =>
      with_inRecords (update_record ir_face
        (fun r => match i_selectedDelegation (ir_interest r) with
                  | Some _ => r
                  | None => MkInRecord (ir_record r) (set_selected k (ir_interest r)) false
                  end) face (pe_inRecords e)) e
  end.

Definition onContentStoreMiss (sc : StrategyCode P) (now : Z) (inFace : FacePtr) p (interest : Interest) fw
  : result (Forwarder P) :=
  let! e := get_entry p fw in
  let fw := set_entry p (insertOrUpdateInRecord now inFace interest e) fw in
  let! fw := setUnsatisfyTimer p fw in
  let! e := get_entry p fw in
  let! (fibEntry, interest) := lookup_fib interest e fw in
  let fw := set_entry p (share_selected inFace interest e) fw in
  dispatchToStrategy now p (fun s => afterReceiveInterest sc s now inFace interest fibEntry p) fw.

Definition onContentStoreHit (now : Z) (inFace : FacePtr) p (data : Data) fw : result (Forwarder P) :=
  let! fw := setStragglerTimer now p true (d_freshnessPeriod data) fw in
  Ok (onOutgoingData data inFace fw).

(** The pipeline for a duplicate nonce; its only call, in [onIncomingInterest],
    is commented out in the source. *)
Definition onInterestLoop (inFace : FacePtr) (interest : Interest) fw : Forwarder P :=
  if bool_decide (f_linkType (face_at fw inFace) = LINK_TYPE_MULTI_ACCESS) then fw
  else send inFace (PktNack (MkNack interest (MkNackHeader NACK_DUPLICATE))) fw.

Definition onIncomingInterest (sc : StrategyCode P) (now : Z) (inFace : FacePtr) (interest : Interest) fw
  : result (Forwarder P) :=
  let fw := with_counters count_in_interest fw in
  if violatesLocalhost fw inFace (i_name interest) then Ok fw
  else
    let '(r, _, tb) := Pit_insert interest (fw_tables fw) in
    let fw := with_tables tb fw in
    match r with
    | None => Err OutOfRange
    | Some p =>
        let! e := get_entry p fw in
        let dnw := findNonce (i_nonce interest) inFace e in
        let hasDuplicateNonce := negb (dnw =? DUPLICATE_NONCE_NONE) || has (i_name interest) (i_nonce interest) (fw_dnl fw) in
        if hasDuplicateNonce then Ok fw
        else
          let! fw := cancelUnsatisfyAndStragglerTimer p fw in
          match pe_inRecords e with
          | [] =>
              let! (hit, cs) := Cs_find now interest (fw_cs fw) in
              let fw := with_cs cs fw in
              match hit with
              | Some data => onContentStoreHit now inFace p data fw
              | None => onContentStoreMiss sc now inFace p interest fw
              end
          | _ :: _ => onContentStoreMiss sc now inFace p interest fw
          end
    end.

(** ** Finalization *)

Definition onInterestFinalize p (isSatisfied : bool) (dataFreshnessPeriod : Z) fw : result (Forwarder P) :=
  let! fw := insertDeadNonceList p isSatisfied dataFreshnessPeriod None fw in
  let! fw := cancelUnsatisfyAndStragglerTimer p fw in
  Ok (with_tables (Pit_erase p (fw_tables fw)) fw).

Definition onInterestUnsatisfied (sc : StrategyCode P) (now : Z) p fw : result (Forwarder P) :=
  let! fw := dispatchToStrategy now p (fun s => beforeExpirePendingInterest sc s now p) fw in
  onInterestFinalize p false (-1) fw.

(** ** Incoming Data *)

(** [std::set<Face*>], in order of the addresses *)
Fixpoint set_insert (x : FacePtr) (l : list FacePtr) : list FacePtr :=
  match l with
  | [] => [x]
  | y :: l' => if x <? y then x :: l else if y <? x then y :: set_insert x l' else l
  end.

Definition pending_of (now : Z) (e : PitEntry) (s : list FacePtr) : list FacePtr :=
  fold_left (fun s r => if now <? fr_expiry (ir_record r) then set_insert (ir_face r) s else s) (pe_inRecords e) s.

(** One iteration of the loop over the PIT entries *)
Definition satisfy (sc : StrategyCode P) (now : Z) (inFace : FacePtr) (data : Data) p (acc : Forwarder P * list FacePtr)
  : result (Forwarder P * list FacePtr) :=
  let '(fw, pendingDownstreams) := acc in
  let! fw := cancelUnsatisfyAndStragglerTimer p fw in
  let! e := get_entry p fw in
  let pendingDownstreams := pending_of now e pendingDownstreams in
  let! fw := dispatchToStrategy now p (fun s => beforeSatisfyInterest sc s now p inFace data) fw in
  let! fw := insertDeadNonceList p true (d_freshnessPeriod data) (Some inFace) fw in
  let! e := get_entry p fw in
  let fw := set_entry p (deleteOutRecord inFace (deleteInRecords e)) fw in
  let! fw := setStragglerTimer now p true (d_freshnessPeriod data) fw in
  Ok (fw, pendingDownstreams).

Fixpoint satisfy_all (sc : StrategyCode P) (now : Z) (inFace : FacePtr) (data : Data) (pitMatches : list PitPtr)
  (acc : Forwarder P * list FacePtr) : result (Forwarder P * list FacePtr) :=
  match pitMatches with
  | [] => Ok acc
  | p :: l => let! acc := satisfy sc now inFace data p acc in satisfy_all sc now inFace data l acc
  end.

Definition onDataUnsolicited (now : Z) (inFace : FacePtr) (data : Data) fw : result (Forwarder P) :=
  if is_local (face_at fw inFace) then
    let! (_, cs) := Cs_insert now data true (fw_cs fw) in Ok (with_cs cs fw)
  else Ok fw.

Definition onIncomingData (sc : StrategyCode P) (now : Z) (inFace : FacePtr) (data : Data) fw : result (Forwarder P) :=
  let fw := with_counters count_in_data fw in
  if violatesLocalhost fw inFace (d_name data) then Ok fw
  else
    match findAllDataMatches data (fw_tables fw) with
    | [] => onDataUnsolicited now inFace data fw
    | pitMatches =>
        let! (_, cs) := Cs_insert now data false (fw_cs fw) in
        let! (fw, pendingDownstreams) := satisfy_all sc now inFace data pitMatches (with_cs cs fw, []) in
        Ok (fold_left (fun fw face => if face =? inFace then fw else onOutgoingData data face fw) pendingDownstreams fw)
    end.

(** ** Incoming Nack *)

Definition onIncomingNack (sc : StrategyCode P) (now : Z) (inFace : FacePtr) (nack : Nack) fw : result (Forwarder P) :=
  let fw := with_counters count_in_nack fw in
  if bool_decide (f_linkType (face_at fw inFace) = LINK_TYPE_MULTI_ACCESS) then Ok fw
  else
    let '(r, tb) := Pit_find (nack_interest nack) (fw_tables fw) in
    let fw := with_tables tb fw in
    match r with
    | None => Ok fw
    | Some p =>
        let! e := get_entry p fw in
        match getOutRecord inFace e with
        | None => Ok fw
        | Some outRecord =>
            if negb (i_nonce (nack_interest nack) =? fr_lastNonce (or_record outRecord)) then Ok fw
            else
              let e := with_outRecords (update_record or_face (fun r => (setIncomingNack nack r).1) inFace (pe_outRecords e)) e in
              let fw := set_entry p e fw in
              let fibEntry := Fib_findLongestPrefixMatch_entry (pe_name e) (fw_tables fw) in
              dispatchToStrategy now p (fun s => afterReceiveNack sc s now inFace nack fibEntry p) fw
        end
    end.

(** ** Timers that fire, and faces that come and go *)

Definition unsatisfyTimerFires (sc : StrategyCode P) (now : Z) p fw : result (Forwarder P) :=
  let! e := get_entry p fw in
  match pe_unsatisfyTimer e with
  | Some t =>
      if t <=? now
      then onInterestUnsatisfied sc now p (set_entry p (with_timers None (pe_stragglerTimer e) e) fw)
      else Ok fw
  | None => Ok fw
  end.

Definition stragglerTimerFires (now : Z) p fw : result (Forwarder P) :=
  let! e := get_entry p fw in
  match pe_stragglerTimer e with
  | Some (t, isSatisfied, freshness) =>
      if t <=? now
      then onInterestFinalize p isSatisfied freshness (set_entry p (with_timers (pe_unsatisfyTimer e) None e) fw)
      else Ok fw
  | None => Ok fw
  end.

(** [FaceTable::addImpl] and [FaceTable::remove] *)
Definition addFace face (f : Face) fw : Forwarder P := with_faces (<[face := f]> (fw_faces fw)) fw.

Definition removeFace face fw : Forwarder P :=
  let f := face_at fw face in
  let fw := with_faces (<[face := MkFace INVALID_FACEID (f_scope f) (f_linkType f)]> (fw_faces fw)) fw in
  with_tables (removeNextHopFromAllEntries face (fw_tables fw)) fw.
End Forwarder.
