(* ===== verification/ForwarderInv.v ===== *)
(** * The forwarder's invariant

    What holds in every state the forwarder can reach, whatever the strategies
    do: the PIT and the name tree agree, an entry has at most one record for a
    face, and [/localhost] packets stay on local faces. *)

From S2P Require Import Prelude StdMap Tlv Block Encoder NameComponent Name Exclude Packet Link CsEntry.
From S2P Require Import CsPolicy Cs NameTree FibEntry PitEntry DeadNonceList Tables Pit Fib StrategyChoice.
From S2P Require Import Forwarder.

(** ** Results *)

(** The property of the value, if there is one. *)
Definition ensures {A} (m : result A) (Q : A -> Prop) : Prop := forall a, m = Ok a -> Q a.

Lemma ensures_Ok {A} (a : A) (Q : A -> Prop) : Q a -> ensures (Ok a) Q.
Proof. by intros ? ? [= <-]. Qed.
Lemma ensures_Err {A} x (Q : A -> Prop) : ensures (Err x) Q.
Proof. by intros ? ?. Qed.
Lemma ensures_bind {A B} (m : result A) (f : A -> result B) (R : A -> Prop) (Q : B -> Prop) :
  ensures m R -> (forall a, R a -> ensures (f a) Q) -> ensures (rbind m f) Q.
Proof. intros Hm Hf b (a&Ha&Hb)%rbind_Ok. by apply (Hf a (Hm a Ha)). Qed.
Lemma ensures_bind_eq {A B} (m : result A) (f : A -> result B) (Q : B -> Prop) :
  (forall a, m = Ok a -> ensures (f a) Q) -> ensures (rbind m f) Q.
Proof. intros Hf b (a&Ha&Hb)%rbind_Ok. by apply (Hf a Ha). Qed.
Lemma ensures_weaken {A} (m : result A) (R Q : A -> Prop) : ensures m R -> (forall a, R a -> Q a) -> ensures m Q.
Proof. intros Hm HQ a Ha. by apply HQ, Hm. Qed.

Definition packet_name (x : Packet) : Name :=
  match x with PktInterest i => i_name i | PktData d => d_name d | PktNack k => i_name (nack_interest k) end.

Section Inv.
Context `{Sha256} `{CityHash} `{CityHashSeed} `{StdSort} `{Rng} {P : Type} `{CsPolicy P}.
Implicit Types (fw : Forwarder P) (p : PitPtr) (face : FacePtr) (e : PitEntry).

Definition local_only fw face (n : Name) : Prop :=
  isPrefixOf LOCALHOST_NAME n = true -> f_scope (face_at fw face) = FACE_SCOPE_LOCAL.

Record entry_ok fw e : Prop := {
  eo_wf : wf_pit e;
  eo_name r : r ∈ pe_inRecords e -> i_name (ir_interest r) = pe_name e;
  eo_scope r : r ∈ pe_inRecords e -> local_only fw (ir_face r) (pe_name e)
}.

Record fw_inv fw : Prop := {
  fi_pit : pit_inv (fw_tables fw);
  fi_root : is_Some (strategy_at [] (fw_tables fw));
  fi_entry p e : tb_heap (fw_tables fw) !! p = Some e -> entry_ok fw e;
  fi_sent o : o ∈ fw_sent fw -> local_only fw o.1 (packet_name o.2)
}.

(** Changes that leave the tables, the faces and the packets alone. *)
Lemma inv_same fw fw' : fw_tables fw' = fw_tables fw -> fw_faces fw' = fw_faces fw -> fw_sent fw' = fw_sent fw ->
  fw_inv fw -> fw_inv fw'.
Proof.
  intros Ht Hf Hs [Hp Hr He Ho].
  assert (Hl : forall g n, local_only fw g n -> local_only fw' g n) by (unfold local_only, face_at; by rewrite Hf).
  split.
  - by rewrite Ht.
  - by rewrite Ht.
  - intros p e. rewrite Ht. intros Hpe. destruct (He p e Hpe) as [Hw Hn Hsc]. split; [done|done|]. intros r Hin. by apply Hl, Hsc.
  - intros o. rewrite Hs. intros Ho'. by apply Hl, Ho.
Qed.

Lemma entry_ok_faces fw fw' e : fw_faces fw' = fw_faces fw -> entry_ok fw e -> entry_ok fw' e.
Proof.
  intros Hf [Hw Hn Hs]. split; [done|done|]. intros r Hr. unfold local_only, face_at. rewrite Hf. by apply Hs.
Qed.

(** Other tables, other PIT entries. *)
Lemma inv_tables tb fw : fw_inv fw -> pit_inv tb -> is_Some (strategy_at [] tb) ->
  (forall p e, tb_heap tb !! p = Some e -> entry_ok fw e) -> fw_inv (with_tables tb fw).
Proof.
  intros [Hp Hr He Ho] Hp' Hr' He'. split; [done|done| |exact Ho].
  intros p e Hpe. apply (entry_ok_faces fw); [done|]. by apply (He' p).
Qed.

Lemma strategy_heap h tb : strategy_at [] (with_heap h tb) = strategy_at [] tb.
Proof. done. Qed.

Lemma inv_set_entry p e e' fw : fw_inv fw -> tb_heap (fw_tables fw) !! p = Some e ->
  pe_interest e' = pe_interest e -> entry_ok fw e' -> fw_inv (set_entry p e' fw).
Proof.
  intros Hi Hp He Hok. apply inv_tables; [done|by apply (pit_inv_update p e e'), Hi|apply Hi|].
  intros q f. cbn [with_heap tb_heap]. rewrite lookup_insert_Some. intros [[_ <-]|[_ Hf]]; [done|by apply (fi_entry _ Hi q)].
Qed.

Lemma inv_send face x fw : fw_inv fw -> local_only fw face (packet_name x) -> fw_inv (send face x fw).
Proof.
  intros [Hp Hr He Ho] Hl. split; [done|done| |].
  - intros p e Hpe. apply (entry_ok_faces fw); [done|]. by apply (He p).
  - intros o [Ho'|Ho']%elem_of_app; [by apply Ho|]. apply list_elem_of_singleton in Ho' as ->. done.
Qed.

Lemma inv_counters f fw : fw_inv fw -> fw_inv (with_counters f fw).
Proof. by apply inv_same. Qed.

Lemma get_entry_Ok p e fw : get_entry p fw = Ok e <-> tb_heap (fw_tables fw) !! p = Some e.
Proof. unfold get_entry. destruct (tb_heap _ !! p); split; congruence. Qed.

(** The entry a pointer leads to. *)
Lemma ensures_entry {B} p fw (f : PitEntry -> result B) (Q : B -> Prop) : fw_inv fw ->
  (forall e, tb_heap (fw_tables fw) !! p = Some e -> entry_ok fw e -> ensures (f e) Q) ->
  ensures (let! e := get_entry p fw in f e) Q.
Proof.
  intros Hi Hf. apply ensures_bind_eq. intros e He%get_entry_Ok. apply Hf; [done|]. by apply (fi_entry _ Hi p).
Qed.

(** ** Timers and the dead nonce list *)

Lemma entry_ok_timers u s fw e : entry_ok fw e -> entry_ok fw (with_timers u s e).
Proof. intros [Hw Hn Hs]. split; [by apply wf_timers|done|done]. Qed.

Lemma inv_timers p u s e fw : fw_inv fw -> tb_heap (fw_tables fw) !! p = Some e ->
  fw_inv (set_entry p (with_timers u s e) fw).
Proof. intros Hi Hp. apply (inv_set_entry p e); [done|done|done|]. by apply entry_ok_timers, (fi_entry _ Hi p). Qed.

Lemma inv_cancel p fw : fw_inv fw -> ensures (cancelUnsatisfyAndStragglerTimer p fw) fw_inv.
Proof. intros Hi. apply ensures_entry; [done|]. intros e He _. by apply ensures_Ok, inv_timers. Qed.

Lemma inv_unsatisfy p fw : fw_inv fw -> ensures (setUnsatisfyTimer p fw) fw_inv.
Proof.
  intros Hi. apply ensures_entry; [done|]. intros e He _. destruct (pe_inRecords e); [apply ensures_Err|].
  by apply ensures_Ok, inv_timers.
Qed.

Lemma inv_straggler now p b k fw : fw_inv fw -> ensures (setStragglerTimer now p b k fw) fw_inv.
Proof. intros Hi. apply ensures_entry; [done|]. intros e He _. by apply ensures_Ok, inv_timers. Qed.

Lemma inv_dnl d fw : fw_inv fw -> fw_inv (with_dnl d fw).
Proof. by apply inv_same. Qed.

Lemma inv_insertDnl p b k u fw : fw_inv fw -> ensures (insertDeadNonceList p b k u fw) fw_inv.
Proof.
  intros Hi. apply ensures_entry; [done|]. intros e He _. destruct (negb _); [by apply ensures_Ok|].
  destruct u as [face|]; [destruct (getOutRecord face e)|]; apply ensures_Ok; [by apply inv_dnl|done|by apply inv_dnl].
Qed.

(** ** Outgoing packets *)

Lemma max_element_in {A} (lt : A -> A -> bool) l : forall x, max_element lt x l ∈ x :: l.
Proof.
  induction l as [|y l IH]; intros x; cbn [max_element]; [left|].
  specialize (IH (if lt x y then y else x)). rewrite !elem_of_cons in *. destruct (lt x y); tauto.
Qed.

Lemma entry_ok_out now face i fw e : entry_ok fw e -> entry_ok fw (insertOrUpdateOutRecord now face i e).
Proof. intros [Hw Hn Hs]. split; [by apply wf_insertOut|done|done]. Qed.

(** Updating in-records in place. *)
Lemma entry_ok_update f face fw e : (forall r, ir_face (f r) = ir_face r /\ i_name (ir_interest (f r)) = i_name (ir_interest r)) ->
  entry_ok fw e -> entry_ok fw (with_inRecords (update_record ir_face f face (pe_inRecords e)) e).
Proof.
  intros Hf [[Hin Hout] Hn Hs].
  assert (Hel : forall r, r ∈ update_record ir_face f face (pe_inRecords e) ->
    exists x, x ∈ pe_inRecords e /\ ir_face r = ir_face x /\ i_name (ir_interest r) = i_name (ir_interest x)).
  { clear -Hf. induction (pe_inRecords e) as [|x l IH]; intros r Hr; [by apply elem_of_nil in Hr|]. cbn [update_record] in Hr.
    destruct (ir_face x =? face); apply elem_of_cons in Hr as [->|Hr].
    - exists x. split; [left|]. split; apply Hf.
    - exists r. split; [by right|done].
    - exists x. split; [left|done].
    - destruct (IH r Hr) as (y&Hy&?&?). exists y. split; [by right|done]. }
  split.
  - split; [|done]. unfold one_per_face in *. simpl. rewrite update_record_faces; [done|]. intros r. apply Hf.
  - intros r (x&Hx&_&Hnx)%Hel. rewrite Hnx. by apply Hn.
  - intros r (x&Hx&Hfx&_)%Hel. rewrite Hfx. by apply Hs.
Qed.

Lemma entry_ok_renonce k face fw e : entry_ok fw e -> entry_ok fw (renonce k face e).
Proof. apply entry_ok_update. intros r. by destruct (ir_hasWire r). Qed.

Lemma violatesScope_local fw face e : violatesScope (face_at fw) face e = false -> local_only fw face (pe_name e).
Proof.
  unfold violatesScope, local_only. case_bool_decide as Hs; cbn [andb].
  - destruct (isPrefixOf LOCALHOST_NAME (pe_name e)); done.
  - intros _ _. by destruct (f_scope (face_at fw face)).
Qed.

Lemma inv_outgoingInterest now p face b fw : fw_inv fw -> ensures (onOutgoingInterest now p face b fw) fw_inv.
Proof.
  intros Hi. apply ensures_entry; [done|]. intros e He Hok. destruct (_ =? INVALID_FACEID); [by apply ensures_Ok|].
  destruct (violatesScope _ _ _) eqn:Hv; [by apply ensures_Ok|]. destruct (pe_inRecords e) as [|r l] eqn:Hl; [apply ensures_Err|].
  apply ensures_Ok. cbv zeta. set (picked := max_element _ r l).
  assert (Hpick : i_name (ir_interest picked) = pe_name e) by (apply (eo_name _ _ Hok); rewrite Hl; apply max_element_in).
  apply inv_counters, inv_send; [apply (inv_set_entry p e)|].
  - destruct b; [by apply (inv_same fw)|done].
  - by destruct b.
  - by destruct b.
  - apply entry_ok_out. apply (entry_ok_faces fw); [by destruct b|]. destruct b; [by apply entry_ok_renonce|done].
  - apply violatesScope_local in Hv. cbn [packet_name]. destruct b; cbn [set_nonce i_name]; by rewrite Hpick.
Qed.

Lemma inv_outgoingData d face fw : fw_inv fw -> fw_inv (onOutgoingData d face fw).
Proof.
  intros Hi. unfold onOutgoingData. destruct (_ =? INVALID_FACEID); [done|].
  destruct (violatesLocalhost fw face (d_name d)) eqn:Hv; [done|]. apply inv_counters, inv_send; [done|].
  intros Hp. cbn [packet_name] in Hp. unfold violatesLocalhost in Hv. rewrite Hp, andb_true_r in Hv.
  apply bool_decide_eq_false in Hv. by destruct (f_scope (face_at fw face)).
Qed.

Lemma entry_ok_deleteIn face fw e : entry_ok fw e -> entry_ok fw (deleteInRecord face e).
Proof.
  intros [Hw Hn Hs]. pose proof (pit_in_once _ Hw) as Hin.
  split; [by apply wf_deleteIn|intros r Hr..]; apply (elem_of_delete _ _ _ _ Hin) in Hr as [Hr _]; [by apply Hn|by apply Hs].
Qed.

Lemma inv_outgoingNack p face k fw : fw_inv fw -> ensures (onOutgoingNack p face k fw) fw_inv.
Proof.
  intros Hi. apply ensures_entry; [done|]. intros e He Hok. destruct (_ =? INVALID_FACEID); [by apply ensures_Ok|].
  destruct (getInRecord face e) as [r|] eqn:Hr; [|by apply ensures_Ok]. case_bool_decide; [by apply ensures_Ok|].
  apply get_record_face in Hr as [Hr Hf].
  apply ensures_Ok, inv_counters, inv_send; [apply (inv_set_entry p e); [done|done|done|by apply entry_ok_deleteIn]|].
  cbn [packet_name nack_interest]. rewrite (eo_name _ _ Hok r Hr), <- Hf. by apply (eo_scope _ _ Hok r).
Qed.

Lemma inv_reject now p fw : fw_inv fw -> ensures (onInterestReject now p fw) fw_inv.
Proof.
  intros Hi. apply ensures_entry; [done|]. intros e He Hok. destruct (hasUnexpiredOutRecords now e); [by apply ensures_Ok|].
  eapply ensures_bind; [by apply inv_cancel|]. intros fw1 Hi1. by apply inv_straggler.
Qed.

Lemma inv_exec now a fw : fw_inv fw -> ensures (exec now a fw) fw_inv.
Proof.
  intros Hi. destruct a; [by apply inv_outgoingInterest|by apply inv_reject|by apply inv_outgoingNack|]. cbn [exec].
  apply ensures_entry; [done|]. intros e He [Hwf ? ?]. apply ensures_Ok, (inv_set_entry p e); [done|done|done|]. constructor; [by destruct Hwf; constructor|done|done].
Qed.

(** Whatever a strategy does. *)
Lemma inv_run now prog : forall fw, fw_inv fw -> ensures (run now prog fw) fw_inv.
Proof.
  induction prog as [|x|a k IH]; intros fw Hi; cbn [run]; [by apply ensures_Ok|apply ensures_Err|].
  eapply ensures_bind; [by apply inv_exec|]. intros fw1 Hi1. by apply IH.
Qed.

Lemma inv_dispatch now p t fw : fw_inv fw -> ensures (dispatchToStrategy now p t fw) fw_inv.
Proof.
  intros Hi. apply ensures_entry; [done|]. intros e He Hok.
  destruct (findEffectiveStrategy_entry _ _); [by apply inv_run|apply ensures_Err].
Qed.

(** ** Incoming Interest *)

Lemma entry_ok_in now face i fw e : i_name i = pe_name e -> local_only fw face (pe_name e) ->
  entry_ok fw e -> entry_ok fw (insertOrUpdateInRecord now face i e).
Proof.
  intros Hi Hl [Hw Hn Hs]. pose proof (pit_in_once _ Hw) as Hin.
  assert (Hel : forall r, r ∈ pe_inRecords (insertOrUpdateInRecord now face i e) ->
    r ∈ pe_inRecords e \/ (ir_face r = face /\ ir_interest r = i)).
  { intros r. unfold insertOrUpdateInRecord. cbn [with_inRecords pe_inRecords]. rewrite elem_of_upsert by done.
    intros [[Hr _]| ->]; [by left|right].
    destruct (get_record ir_face face (pe_inRecords e)) as [x|] eqn:Hx; simpl; [|done].
    by apply get_record_face in Hx as [_ ?]. }
  split; [by apply wf_insertIn|intros r [Hr|[Hf Hi']]%Hel..].
  - by apply Hn.
  - by rewrite Hi'.
  - by apply Hs.
  - by rewrite Hf.
Qed.

Lemma entry_ok_share face i fw e : entry_ok fw e -> entry_ok fw (share_selected face i e).
Proof.
  intros Hok. unfold share_selected. destruct (i_selectedDelegation i); [|done]. apply entry_ok_update; [|done].
  intros r. by destruct (i_selectedDelegation (ir_interest r)).
Qed.

Lemma share_interest face i e : pe_interest (share_selected face i e) = pe_interest e.
Proof. unfold share_selected. by destruct (i_selectedDelegation i). Qed.

Lemma set_entry_heap p e fw : tb_heap (fw_tables (set_entry p e fw)) !! p = Some e.
Proof. cbn [set_entry with_tables fw_tables with_heap tb_heap]. by rewrite lookup_insert_eq. Qed.

Lemma inv_miss sc now face p i e fw : fw_inv fw -> tb_heap (fw_tables fw) !! p = Some e ->
  pe_name e = i_name i -> local_only fw face (i_name i) -> ensures (onContentStoreMiss sc now face p i fw) fw_inv.
Proof.
  intros Hi He Hn Hl. unfold onContentStoreMiss. rewrite (proj2 (get_entry_Ok p e fw) He). cbn [rbind].
  set (fw1 := set_entry p (insertOrUpdateInRecord now face i e) fw).
  assert (Hi1 : fw_inv fw1).
  { apply (inv_set_entry p e); [done|done|done|]. apply entry_ok_in; [done|by rewrite Hn|by apply (fi_entry _ Hi p)]. }
  eapply ensures_bind; [by apply inv_unsatisfy|]. intros fw2 Hi2. apply ensures_entry; [done|]. intros e2 He2 Hok2.
  apply ensures_bind_eq. intros [fib i'] _.
  apply inv_dispatch. apply (inv_set_entry p e2); [done|done|apply share_interest|by apply entry_ok_share].
Qed.

Lemma inv_cs cs fw : fw_inv fw -> fw_inv (with_cs cs fw).
Proof. by apply inv_same. Qed.

Lemma inv_hit now face p d fw : fw_inv fw -> ensures (onContentStoreHit now face p d fw) fw_inv.
Proof.
  intros Hi. eapply ensures_bind; [by apply inv_straggler|]. intros fw1 Hi1. by apply ensures_Ok, inv_outgoingData.
Qed.

Lemma entry_ok_new fw i : entry_ok fw (PitEntry_new i).
Proof. split; [apply wf_pit_new|intros r Hr; by apply elem_of_nil in Hr..]. Qed.

Lemma inv_findOrInsert i allow fw r b tb' : fw_inv fw -> gen_name (i_name i) -> room (i_name i) (fw_tables fw) ->
  findOrInsert i allow (fw_tables fw) = (r, b, tb') ->
  fw_inv (with_tables tb' fw) /\ forall p, r = Some p -> exists e, tb_heap tb' !! p = Some e /\ pe_name e = i_name i.
Proof.
  intros Hi Hn Hr Heq. pose proof (findOrInsert_other i allow (fw_tables fw) (fi_pit _ Hi) Hn Hr) as Hother.
  destruct (findOrInsert_spec i allow (fw_tables fw) (fi_pit _ Hi) Hn Hr) as (r'&b'&tb2&Heq2&Hp&Hcase).
  rewrite Heq in Heq2, Hother. injection Heq2 as <- <- <-.
  assert (Hroot : is_Some (strategy_at [] tb')).
  { destruct (Hother []) as (_&_&Hst). unfold strategy_at. cbn [snd] in Hst. rewrite Hst. apply Hi. }
  destruct Hcase as [(p&e&->&->&Hh&He&Hen&_)|(_&->&Hcase)].
  - split.
    + apply inv_tables; [done|done|done|]. intros q f. rewrite Hh. apply (fi_entry _ Hi).
    + intros q [= <-]. exists e. by rewrite Hh.
  - destruct allow; destruct Hcase as [-> Hh].
    + split.
      * apply inv_tables; [done|done|done|]. intros q f. rewrite Hh, lookup_insert_Some.
        intros [[_ <-]|[_ Hf]]; [apply entry_ok_new|by apply (fi_entry _ Hi q)].
      * intros q [= <-]. exists (PitEntry_new i). by rewrite Hh, lookup_insert_eq.
    + split; [|done]. apply inv_tables; [done|done|done|]. intros q f. rewrite Hh. apply (fi_entry _ Hi).
Qed.

Lemma not_violates fw face n : violatesLocalhost fw face n = false -> local_only fw face n.
Proof.
  unfold violatesLocalhost, local_only. intros Hv Hp. rewrite Hp, andb_true_r in Hv. apply bool_decide_eq_false in Hv.
  by destruct (f_scope (face_at fw face)).
Qed.

Lemma inv_incomingInterest sc now face i fw : fw_inv fw -> gen_name (i_name i) -> room (i_name i) (fw_tables fw) ->
  ensures (onIncomingInterest sc now face i fw) fw_inv.
Proof.
  intros Hi Hn Hr. unfold onIncomingInterest. cbv zeta. set (fw0 := with_counters count_in_interest fw).
  assert (Hi0 : fw_inv fw0) by (by apply inv_counters).
  destruct (violatesLocalhost fw0 face (i_name i)) eqn:Hv; [by apply ensures_Ok|]. apply not_violates in Hv.
  unfold Pit_insert. destruct (findOrInsert i true (fw_tables fw0)) as [[r b] tb'] eqn:Heq.
  destruct (inv_findOrInsert i true fw0 r b tb' Hi0 Hn Hr Heq) as [Hi1 He1].
  destruct r as [p|]; [|apply ensures_Err]. destruct (He1 p eq_refl) as (e&He&Hen).
  set (fw1 := with_tables tb' fw0) in *. change (tb_heap (fw_tables fw1) !! p = Some e) in He.
  rewrite (proj2 (get_entry_Ok p e fw1) He). cbn [rbind]. destruct (_ || _); [by apply ensures_Ok|].
  unfold cancelUnsatisfyAndStragglerTimer. rewrite (proj2 (get_entry_Ok p e fw1) He). cbn [rbind].
  set (fw2 := set_entry p (with_timers None None e) fw1).
  assert (Hi2 : fw_inv fw2) by (by apply inv_timers).
  assert (He2 : tb_heap (fw_tables fw2) !! p = Some (with_timers None None e)) by apply set_entry_heap.
  assert (Hmiss : forall cs, ensures (onContentStoreMiss sc now face p i (with_cs cs fw2)) fw_inv).
  { intros cs. apply (inv_miss sc now face p i (with_timers None None e)); [by apply inv_cs|done|done|exact Hv]. }
  destruct (pe_inRecords e).
  - apply ensures_bind_eq. intros [hit cs] _. destruct hit; [by apply inv_hit, inv_cs|apply Hmiss].
  - apply (inv_miss sc now face p i (with_timers None None e)); [done|done|done|exact Hv].
Qed.

(** ** Finalization and Data *)

Lemma inv_finalize p b k fw : fw_inv fw -> ensures (onInterestFinalize p b k fw) fw_inv.
Proof.
  intros Hi. eapply ensures_bind; [by apply inv_insertDnl|]. intros fw1 Hi1.
  eapply ensures_bind; [by apply inv_cancel|]. intros fw2 Hi2. apply ensures_Ok.
  destruct (Pit_erase_other p (fw_tables fw2) (fi_pit _ Hi2)) as [Hh Hother].
  apply inv_tables; [done|by apply pit_inv_erase, Hi2| |].
  - unfold strategy_at. destruct (Hother []) as (_&_&->). apply Hi2.
  - intros q f. rewrite Hh, lookup_delete_Some. intros [_ Hf]. by apply (fi_entry _ Hi2 q).
Qed.

Lemma inv_unsatisfied sc now p fw : fw_inv fw -> ensures (onInterestUnsatisfied sc now p fw) fw_inv.
Proof. intros Hi. eapply ensures_bind; [by apply inv_dispatch|]. intros fw1 Hi1. by apply inv_finalize. Qed.

Lemma entry_ok_satisfied face fw e : entry_ok fw e -> entry_ok fw (deleteOutRecord face (deleteInRecords e)).
Proof.
  intros [Hw Hn Hs]. split; [by apply wf_deleteOut, wf_deleteIns|intros r Hr; by apply elem_of_nil in Hr..].
Qed.

Lemma inv_satisfy sc now face d p acc : fw_inv acc.1 -> ensures (satisfy sc now face d p acc) (fun acc => fw_inv acc.1).
Proof.
  destruct acc as [fw pd]. cbn [fst]. intros Hi. unfold satisfy. eapply ensures_bind; [by apply inv_cancel|]. intros fw1 Hi1.
  apply ensures_entry; [done|]. intros e1 He1 Hok1. eapply ensures_bind; [by apply inv_dispatch|]. intros fw2 Hi2.
  eapply ensures_bind; [by apply inv_insertDnl|]. intros fw3 Hi3. apply ensures_entry; [done|]. intros e3 He3 Hok3.
  eapply ensures_bind; [apply inv_straggler; apply (inv_set_entry p e3); [done|done|done|by apply entry_ok_satisfied]|].
  intros fw4 Hi4. by apply ensures_Ok.
Qed.

Lemma inv_satisfy_all sc now face d l : forall acc, fw_inv acc.1 ->
  ensures (satisfy_all sc now face d l acc) (fun acc => fw_inv acc.1).
Proof.
  induction l as [|p l IH]; intros acc Hi; cbn [satisfy_all]; [by apply ensures_Ok|].
  eapply ensures_bind; [by apply inv_satisfy|]. intros acc1 Hi1. by apply IH.
Qed.

Lemma inv_incomingData sc now face d fw : fw_inv fw -> ensures (onIncomingData sc now face d fw) fw_inv.
Proof.
  intros Hi. unfold onIncomingData. cbv zeta. set (fw0 := with_counters count_in_data fw).
  assert (Hi0 : fw_inv fw0) by (by apply inv_counters).
  destruct (violatesLocalhost fw0 face (d_name d)); [by apply ensures_Ok|].
  destruct (findAllDataMatches d (fw_tables fw0)) as [|p l].
  - unfold onDataUnsolicited. destruct (is_local _); [|by apply ensures_Ok].
    apply ensures_bind_eq. intros [b cs] _. by apply ensures_Ok, inv_cs.
  - apply ensures_bind_eq. intros [b cs] _.
    eapply ensures_bind; [apply inv_satisfy_all; by apply inv_cs|]. intros [fw1 pd] Hi1. apply ensures_Ok.
    cbn [fst] in Hi1. revert fw1 Hi1. induction pd as [|x pd IH]; intros fw1 Hi1; [done|]. cbn [fold_left].
    apply IH. destruct (x =? face); [done|by apply inv_outgoingData].
Qed.

Lemma entry_ok_nack k face fw e : entry_ok fw e ->
  entry_ok fw (with_outRecords (update_record or_face (fun r => (setIncomingNack k r).1) face (pe_outRecords e)) e).
Proof.
  intros [[Hin Hout] Hn Hs]. split; [split; [done|]|done|done]. unfold one_per_face in *. simpl.
  rewrite update_record_faces; [done|]. intros r. unfold setIncomingNack. by destruct (negb _).
Qed.

Lemma inv_incomingNack sc now face k fw : fw_inv fw -> gen_name (i_name (nack_interest k)) ->
  room (i_name (nack_interest k)) (fw_tables fw) -> ensures (onIncomingNack sc now face k fw) fw_inv.
Proof.
  intros Hi Hn Hr. unfold onIncomingNack. cbv zeta. set (fw0 := with_counters count_in_nack fw).
  assert (Hi0 : fw_inv fw0) by (by apply inv_counters). case_bool_decide; [by apply ensures_Ok|].
  unfold Pit_find. destruct (findOrInsert (nack_interest k) false (fw_tables fw0)) as [[r b] tb'] eqn:Heq.
  destruct (inv_findOrInsert _ _ _ _ _ _ Hi0 Hn Hr Heq) as [Hi1 _].
  destruct r as [p|]; [|by apply ensures_Ok]. apply ensures_entry; [done|]. intros e He Hok.
  destruct (getOutRecord face e) as [o|]; [|by apply ensures_Ok]. destruct (negb _); [by apply ensures_Ok|].
  apply inv_dispatch. apply (inv_set_entry p e); [done|done|done|by apply entry_ok_nack].
Qed.

Lemma inv_unsatisfyFires sc now p fw : fw_inv fw -> ensures (unsatisfyTimerFires sc now p fw) fw_inv.
Proof.
  intros Hi. apply ensures_entry; [done|]. intros e He Hok. destruct (pe_unsatisfyTimer e); [|by apply ensures_Ok].
  destruct (_ <=? now); [by apply inv_unsatisfied, inv_timers|by apply ensures_Ok].
Qed.

Lemma inv_stragglerFires now p fw : fw_inv fw -> ensures (stragglerTimerFires now p fw) fw_inv.
Proof.
  intros Hi. apply ensures_entry; [done|]. intros e He Hok. destruct (pe_stragglerTimer e) as [[[t b] k]|]; [|by apply ensures_Ok].
  destruct (_ <=? now); [by apply inv_finalize, inv_timers|by apply ensures_Ok].
Qed.

(** ** Faces *)

(** Faces may be added and lose their id; their scope stays. *)
Lemma inv_faces l fw : (forall g, f_scope (face_at fw g) = FACE_SCOPE_LOCAL ->
    f_scope (face_at (with_faces l fw) g) = FACE_SCOPE_LOCAL) -> fw_inv fw -> fw_inv (with_faces l fw).
Proof.
  intros Hf [Hp Hr He Ho]. split; [done|done| |].
  - intros p e Hpe. destruct (He p e Hpe) as [Hw Hn Hs]. split; [done|done|]. intros r Hr' Hl. by apply Hf, Hs.
  - intros o Ho' Hl. by apply Hf, Ho.
Qed.

Lemma inv_addFace g f fw : fw_faces fw !! g = None -> fw_inv fw -> fw_inv (addFace g f fw).
Proof.
  intros Hg. apply inv_faces. intros k. unfold face_at. cbn [with_faces fw_faces].
  destruct (decide (k = g)) as [->|Hne]; [by rewrite Hg|by rewrite lookup_insert_ne].
Qed.

Lemma inv_other_tables tb fw : fw_inv fw -> nt_inv (tb_tree tb) -> tb_heap tb = tb_heap (fw_tables fw) ->
  tb_next tb = tb_next (fw_tables fw) -> tb_pitItems tb = tb_pitItems (fw_tables fw) ->
  (forall m, np_pit (data_at m (tb_tree tb)) = np_pit (data_at m (tb_tree (fw_tables fw)))) ->
  is_Some (strategy_at [] tb) -> fw_inv (with_tables tb fw).
Proof.
  intros Hi Ht Hh Hnx Hit Hd Hr. apply inv_tables; [done| |done|intros p e; rewrite Hh; apply (fi_entry _ Hi)].
  destruct (fi_pit _ Hi) as [Hpt Hpe Hpp Hpn Hpu Hpf Hpi].
  split; rewrite ?Hh, ?Hnx, ?Hit; try setoid_rewrite Hd; done.
Qed.

Lemma inv_removeFace g fw : fw_inv fw -> fw_inv (removeFace g fw).
Proof.
  intros Hi. unfold removeFace. cbv zeta. set (fw1 := with_faces _ fw).
  assert (Hi1 : fw_inv fw1).
  { apply inv_faces; [|done]. intros k. unfold face_at at 2. cbn [with_faces fw_faces].
    destruct (decide (k = g)) as [->|Hne]; [by rewrite lookup_insert_eq|by rewrite lookup_insert_ne]. }
  destruct (remove_face_spec g (fw_tables fw1) (pi_tree _ (fi_pit _ Hi1))) as (Ht&_&Hother).
  destruct (remove_face_fields g (fw_tables fw1)) as (Hh&Hnx&Hit).
  apply inv_other_tables; try done.
  - intros m. by destruct (Hother m) as (?&_&_).
  - unfold strategy_at. destruct (Hother []) as (_&_&->). apply Hi1.
Qed.
End Inv.
