(* ===== verification/ForwarderProps.v ===== *)
(** * What the forwarding pipelines guarantee

    The forwarder as a machine whose steps are the packets that arrive, the
    timers that fire and the changes of its configuration, and the properties of
    the pipelines: scope, loop suppression, delivery of Data, and the life of a
    PIT entry. *)

From S2P Require Import Prelude StdMap Tlv Block Encoder NameComponent Name Exclude Packet Link CsEntry.
From S2P Require Import CsPolicy Cs NameTree FibEntry PitEntry DeadNonceList Tables Pit Fib StrategyChoice.
From S2P Require Import Forwarder ForwarderInv.

Section Machine.
Context `{Sha256} `{CityHash} `{CityHashSeed} `{StdSort} `{Rng} {P : Type} `{CsPolicy P}.
Implicit Types (fw : Forwarder P) (p : PitPtr) (face : FacePtr).

(** One event.  The strategies may behave differently at each event; a
    pipeline that fails ends the run.  Names are those the name tree tells
    apart, and there is room for them. *)
Inductive fw_step : Forwarder P -> Forwarder P -> Prop :=
| StepInterest sc now face i fw fw' : gen_name (i_name i) -> room (i_name i) (fw_tables fw) ->
    onIncomingInterest sc now face i fw = Ok fw' -> fw_step fw fw'
| StepData sc now face d fw fw' : onIncomingData sc now face d fw = Ok fw' -> fw_step fw fw'
| StepNack sc now face k fw fw' : gen_name (i_name (nack_interest k)) ->
    room (i_name (nack_interest k)) (fw_tables fw) ->
    onIncomingNack sc now face k fw = Ok fw' -> fw_step fw fw'
| StepUnsatisfied sc now p fw fw' : unsatisfyTimerFires sc now p fw = Ok fw' -> fw_step fw fw'
| StepStraggler now p fw fw' : stragglerTimerFires now p fw = Ok fw' -> fw_step fw fw'
| StepMark fw : fw_step fw (with_dnl (mark (fw_dnl fw)) fw)
| StepAdjust fw : fw_step fw (with_dnl (adjustCapacity (fw_dnl fw)) fw)
| StepAddFace face f fw : fw_faces fw !! face = None -> fw_step fw (addFace face f fw)
| StepRemoveFace face fw : fw_step fw (removeFace face fw)
| StepFibInsert n fw : gen_name n -> room n (fw_tables fw) -> fw_step fw (with_tables (Fib_insert n (fw_tables fw)).2 fw)
| StepFibModify n f fw : fw_step fw (with_tables (Fib_modify n f (fw_tables fw)) fw)
| StepFibErase n fw : gen_name n -> fw_step fw (with_tables (Fib_erase n (fw_tables fw)) fw)
| StepChoose n s r fw tb : gen_name n -> room n (fw_tables fw) -> getStrategy s (fw_tables fw) = Some r ->
    StrategyChoice_insert n s (fw_tables fw) = Ok (true, tb) -> fw_step fw (with_tables tb fw)
| StepUnchoose n fw tb : gen_name n -> n <> [] -> StrategyChoice_erase n (fw_tables fw) = Ok tb -> fw_step fw (with_tables tb fw).

(** Empty tables with the default strategy at the root *)
Definition fw_init (k : Z) (s : Name) (nMaxPackets : nat) (regions : list Name) : Forwarder P :=
  MkForwarder (setDefaultStrategy s (MkTables (NameTree_empty (Z.to_nat (2 ^ k))) ∅ 1%positive 0 0 0 0 []))
    (Cs_empty nMaxPackets) (DeadNonceList_new DEFAULT_LIFETIME) regions ∅ 0 Counters_zero [].

Inductive fw_reachable : Forwarder P -> Prop :=
| ReachInit k s nMaxPackets regions : 0 <= k <= 32 -> fw_reachable (fw_init k s nMaxPackets regions)
| ReachStep fw fw' : fw_reachable fw -> fw_step fw fw' -> fw_reachable fw'.

Lemma inv_fib_insert n fw : fw_inv fw -> gen_name n -> room n (fw_tables fw) ->
  fw_inv (with_tables (Fib_insert n (fw_tables fw)).2 fw).
Proof.
  intros Hi Hn Hr. destruct (Fib_insert_spec n (fw_tables fw) (pi_tree _ (fi_pit _ Hi)) Hn Hr) as [Ht Hd].
  apply inv_other_tables; [done|done|unfold Fib_insert; destruct (lookup_entry _ _); by destruct (np_fib _)..| |].
  - intros m. by destruct (Hd m) as [_ (?&_&_)].
  - unfold strategy_at. destruct (Hd []) as [_ (_&_&->)]. apply Hi.
Qed.

Lemma inv_fib_erase n fw : fw_inv fw -> gen_name n -> fw_inv (with_tables (Fib_erase n (fw_tables fw)) fw).
Proof.
  intros Hi Hn. destruct (Fib_erase_spec n (fw_tables fw) (pi_tree _ (fi_pit _ Hi)) Hn) as [Ht Hd].
  apply inv_other_tables; [done|done|unfold Fib_erase; by destruct (findExactMatch _ _)..| |].
  - intros m. by destruct (Hd m) as [_ (?&_&_)].
  - unfold strategy_at. destruct (Hd []) as [_ (_&_&->)]. apply Hi.
Qed.

Lemma inv_fib_modify n f fw : fw_inv fw -> fw_inv (with_tables (Fib_modify n f (fw_tables fw)) fw).
Proof.
  intros Hi. pose proof (pi_tree _ (fi_pit _ Hi)) as Ht.
  destruct (update_payload_spec n (fun x => set_fib (f <$> np_fib x) x) (tb_tree (fw_tables fw)) Ht) as (Ht'&_&Hp).
  assert (Hd : forall m, other_data (data_at m (tb_tree (Fib_modify n f (fw_tables fw)))) (data_at m (tb_tree (fw_tables fw)))).
  { intros m. unfold data_at. cbn [Fib_modify with_tree tb_tree]. rewrite Hp. case_bool_decide; [|done].
    by destruct (payload_at m (tb_tree (fw_tables fw))). }
  apply inv_other_tables; try done.
  - intros m. by destruct (Hd m) as (?&_&_).
  - unfold strategy_at. destruct (Hd []) as (_&_&->). apply Hi.
Qed.

Lemma entry_ok_clear fw e : entry_ok fw e -> entry_ok fw (clearStrategyInfo e).
Proof.
  intros [Hw Hn Hs]. split; [by apply wf_clear|..]; intros r; unfold clearStrategyInfo; cbn [pe_inRecords]; intros (r0&->&Hr)%list_elem_of_fmap;
    [exact (Hn r0 Hr)|exact (Hs r0 Hr)].
Qed.

(** A change of a choice drops information, and no entry. *)
Lemma inv_choice_changed n (cover : Name -> Prop) `{forall m, Decision (cover m)} tb fw : fw_inv fw -> is_Some (strategy_at [] tb) ->
  choice_changed n cover (fw_tables fw) tb -> fw_inv (with_tables tb fw).
Proof.
  intros Hi Hroot Hc. pose proof (cc_fields _ _ _ _ Hc) as (Hnx&Hit&_). apply inv_tables; [done| |done|].
  - assert (Hp : pit_inv (with_tree (tb_tree tb) (with_heap (tb_heap tb) (fw_tables fw)))).
    { apply pit_inv_tree; [apply Hc|intros m; by destruct (cc_data _ _ _ _ Hc m) as (_&?&_)|].
      apply pit_inv_heap; [|apply Hi]. apply map_eq. intros p. rewrite !lookup_fmap.
      destruct (cc_heap _ _ _ _ Hc p) as [Hp|Hp]; rewrite Hp; [done|]. by destruct (tb_heap (fw_tables fw) !! p). }
    destruct Hp. cbn [with_tree with_heap tb_tree tb_heap tb_next tb_pitItems] in *.
    split; rewrite ?Hnx, ?Hit; done.
  - intros p e He. destruct (cc_heap _ _ _ _ Hc p) as [Hp|Hp]; rewrite He in Hp; symmetry in Hp; [by apply (fi_entry _ Hi p)|].
    apply fmap_Some in Hp as (f&Hf&->). apply entry_ok_clear. by apply (fi_entry _ Hi p).
Qed.

Lemma inv_choose n s r fw tb : fw_inv fw -> gen_name n -> room n (fw_tables fw) -> getStrategy s (fw_tables fw) = Some r ->
  StrategyChoice_insert n s (fw_tables fw) = Ok (true, tb) -> fw_inv (with_tables tb fw).
Proof.
  intros Hi Hn Hr Hg Hok. pose proof (pi_tree _ (fi_pit _ Hi)) as Ht. pose proof (fi_root _ Hi) as Hroot.
  destruct (insert_choices n s r (fw_tables fw) tb Ht Hn Hr Hroot Hg Hok) as (Ht'&_&Hroot'&_).
  destruct (StrategyChoice_insert_spec n s r (fw_tables fw) Ht Hn Hr Hroot Hg) as (tb2&Hok2&Hcase).
  rewrite Hok in Hok2. injection Hok2 as <-. destruct Hcase as [(old&_&_&->)|(old&_&_&Hc&_)]; [|by eapply inv_choice_changed].
  apply inv_other_tables; try done. intros m. cbn [with_tree tb_tree]. by rewrite data_lookup.
Qed.

Lemma inv_unchoose n fw tb : fw_inv fw -> gen_name n -> n <> [] -> StrategyChoice_erase n (fw_tables fw) = Ok tb -> fw_inv (with_tables tb fw).
Proof.
  intros Hi Hn Hne Hok. pose proof (pi_tree _ (fi_pit _ Hi)) as Ht. pose proof (fi_root _ Hi) as Hroot.
  destruct (erase_choices n (fw_tables fw) tb Ht Hn Hne Hroot Hok) as (_&Hroot'&_).
  destruct (StrategyChoice_erase_spec n (fw_tables fw) Ht Hn Hne Hroot) as (tb2&Hok2&Hcase).
  rewrite Hok in Hok2. injection Hok2 as <-. destruct Hcase as [[_ ->]|(old&new&_&_&Hc&_)]; [by destruct fw|by eapply inv_choice_changed].
Qed.

Lemma inv_step fw fw' : fw_inv fw -> fw_step fw fw' -> fw_inv fw'.
Proof.
  intros Hi Hs. destruct Hs.
  - by eapply inv_incomingInterest.
  - by eapply inv_incomingData.
  - by eapply inv_incomingNack.
  - by eapply inv_unsatisfyFires.
  - by eapply inv_stragglerFires.
  - by apply inv_dnl.
  - by apply inv_dnl.
  - by apply inv_addFace.
  - by apply inv_removeFace.
  - by apply inv_fib_insert.
  - by apply inv_fib_modify.
  - by apply inv_fib_erase.
  - by apply (inv_choose n s r).
  - by apply (inv_unchoose n).
Qed.

Lemma inv_init k s nMax regions : 0 <= k <= 32 -> fw_inv (fw_init k s nMax regions).
Proof.
  intros Hk. pose proof (nt_inv_empty (X := NtPayload) k Hk) as Ht0. set (t0 := NameTree_empty (Z.to_nat (2 ^ k))) in *.
  assert (Hg : gen_name []) by apply Forall_nil_2.
  assert (Hroom : nt_nItems t0 + len (@nil Component) + 1 <= 2 ^ 30) by done.
  destruct (lookup_spec [] t0 Ht0) as (Ht1&_&Hp1); [done|done|].
  set (t1 := update_payload [] (set_strategy (Some s)) (lookup [] t0)).
  assert (Hd : forall m, data_at m t1 = if bool_decide (m = []) then set_strategy (Some s) payload_empty else payload_empty).
  { intros m. unfold t1. rewrite data_update by (done || by apply lookup_present).
    rewrite !(data_lookup []) by done.
    assert (He : forall n, data_at n t0 = payload_empty).
    { intros n. unfold data_at, payload_at, deref, entries, t0, NameTree_empty. cbn [nt_buckets]. by rewrite concat_replicate_nil. }
    rewrite !He. by apply bool_decide_ext_if. }
  assert (Hnp : forall m, np_pit (data_at m t1) = []) by (intros m; rewrite Hd; by case_bool_decide).
  assert (Htb : fw_tables (fw_init k s nMax regions) = MkTables t1 ∅ 1%positive 0 0 1 0 [s]) by reflexivity.
  split; rewrite ?Htb.
  - split; cbn [tb_tree tb_heap tb_next tb_pitItems].
    + by apply update_payload_spec.
    + intros p e Hp. by rewrite lookup_empty in Hp.
    + intros n p. rewrite Hnp. by intros ?%elem_of_nil.
    + intros n. rewrite Hnp. apply NoDup_nil_2.
    + intros p q e f Hp. by rewrite lookup_empty in Hp.
    + intros p e Hp. by rewrite lookup_empty in Hp.
    + by rewrite map_size_empty.
  - unfold strategy_at. cbn [tb_tree]. rewrite Hd, bool_decide_true by done. by eexists.
  - intros p e Hp. change ((∅ : gmap PitPtr PitEntry) !! p = Some e) in Hp. by rewrite lookup_empty in Hp.
  - intros o Ho. by apply elem_of_nil in Ho.
Qed.

Lemma reachable_inv fw : fw_reachable fw -> fw_inv fw.
Proof. induction 1; [by apply inv_init|by eapply inv_step]. Qed.

(** C1. In every state the forwarder can reach, whatever its strategies do, through any
    Data, through Interests and Nacks whose names have generic components only and room in
    the name tree, through timers, and through changes of the faces, the FIB and the strategy
    choice: every Interest, Data or Nack it ever sent with a [/localhost] name went to a local
    face, although the outgoing Nack pipeline does not look at the scope; the PIT entries and
    the name tree agree; no two entries are for the same name and selectors; and no entry
    has two in-records or two out-records for a face.  (An event that throws ends the run.
    Interests that name a Data by its implicit digest are left out: for them the lookup in the
    content store can leave the table, [cs_rightmost_underflow], and the name tree can take
    one name for another, since [Component::equals] ignores the type.) *)
Theorem forwarder_reachable_safe fw : fw_reachable fw ->
  (forall face x, (face, x) ∈ fw_sent fw -> isPrefixOf LOCALHOST_NAME (packet_name x) = true ->
     f_scope (face_at fw face) = FACE_SCOPE_LOCAL) /\
  pit_inv (fw_tables fw) /\
  (forall p e, tb_heap (fw_tables fw) !! p = Some e ->
     NoDup (map ir_face (pe_inRecords e)) /\ NoDup (map or_face (pe_outRecords e))).
Proof.
  intros Hr. apply reachable_inv in Hr as [Hp _ He Ho]. split_and!; [|done|].
  - intros face x Hx. exact (Ho (face, x) Hx).
  - intros p e Hpe. destruct (He p e Hpe) as [[Hin Hout] _ _]. done.
Qed.
End Machine.

Section Pipelines.
Context `{Sha256} `{CityHash} `{CityHashSeed} `{StdSort} `{Rng} {P : Type} `{CsPolicy P}.
Implicit Types (fw : Forwarder P) (p : PitPtr) (face : FacePtr) (e : PitEntry).

Definition heap fw : gmap PitPtr PitEntry := tb_heap (fw_tables fw).

(** No PIT entry is for the Interest. *)
Definition not_pending (i : Interest) fw : Prop :=
  forall p e, heap fw !! p = Some e -> pe_name e = i_name i ->
    Selectors_equals (i_selectors (pe_interest e)) (i_selectors i) = false.

Lemma entry_present p e fw : fw_inv fw -> heap fw !! p = Some e -> is_Some (payload_at (pe_name e) (tb_tree (fw_tables fw))).
Proof.
  intros Hi He. destruct (pi_entry _ (fi_pit _ Hi) p e He) as [_ Hin]. apply data_present. intros Hd. rewrite Hd in Hin.
  by apply elem_of_nil in Hin.
Qed.

Lemma dispatch_run now p t e fw : fw_inv fw -> heap fw !! p = Some e -> exists s,
  effective (pe_name e) (fw_tables fw) (Some s) /\ dispatchToStrategy now p t fw = run now (t s fw) fw.
Proof.
  intros Hi He. pose proof (find_effective_entry (pe_name e) (fw_tables fw) (pi_tree _ (fi_pit _ Hi)) (fi_root _ Hi)
    (entry_present p e fw Hi He)) as Heff.
  unfold dispatchToStrategy. rewrite (proj2 (get_entry_Ok p e fw) He). cbn [rbind].
  destruct (findEffectiveStrategy_entry _ _) as [s|] eqn:Hs; [by exists s|]. destruct Heff as (?&_&[? ?]&_). done.
Qed.

(** The part of [onIncomingInterest] before the nonce is looked at. *)
Lemma incoming_pit i fw : fw_inv fw -> gen_name (i_name i) -> room (i_name i) (fw_tables fw) -> exists p e b tb',
  Pit_insert i (fw_tables fw) = (Some p, b, tb') /\ fw_inv (with_tables tb' fw) /\ tb_heap tb' !! p = Some e /\
  pe_name e = i_name i /\ (forall q f, heap fw !! q = Some f -> tb_heap tb' !! q = Some f) /\
  (not_pending i fw -> heap fw !! p = None /\ e = PitEntry_new i /\ tb_heap tb' = <[p := e]> (heap fw)) /\
  (forall q f, heap fw !! q = Some f -> pe_name f = i_name i ->
     Selectors_equals (i_selectors (pe_interest f)) (i_selectors i) = true -> q = p /\ e = f).
Proof.
  intros Hi Hn Hr. destruct (findOrInsert_spec i true (fw_tables fw) (fi_pit _ Hi) Hn Hr) as (r&b&tb'&Heq&Hp&Hcase).
  destruct (inv_findOrInsert i true fw r b tb' Hi Hn Hr Heq) as [Hi1 _]. unfold Pit_insert, not_pending, heap in *.
  destruct Hcase as [(p&e&->&->&Hh&He&Hen&Hes)|(Hno&->&->&Hh)].
  - exists p, e, false, tb'. rewrite Hh. split_and!; [done|done|done|done|done| |].
    + intros Hnp. rewrite (Hnp p e He Hen) in Hes. done.
    + intros q f Hf Hfn Hfs. assert (q = p) as ->; [|split; congruence].
      apply (pi_unique _ (fi_pit _ Hi) q p f e); [done|done|congruence|].
      by eapply Selectors_equals_trans; [|apply Selectors_equals_sym].
  - pose proof (heap_fresh _ (fi_pit _ Hi)) as Hfr. exists (tb_next (fw_tables fw)), (PitEntry_new i), true, tb'. rewrite Hh.
    split_and!; [done|done|by rewrite lookup_insert_eq|done| |done|].
    + intros q f Hf. rewrite lookup_insert_ne; [done|]. intros <-. congruence.
    + intros q f Hf Hfn Hfs. rewrite (Hno q f Hf Hfn) in Hfs. done.
Qed.

(** C4. An Interest whose nonce is on the dead nonce list, or on a record of its PIT entry, is
    dropped: nothing is sent, the content store is not asked, and every PIT entry stays as it
    was.  This is what the code does, and not what the repository says it should: the comment
    in [onIncomingInterest] and the unit test [InterestLoopNack] want a Nack with the reason
    Duplicate, from the Interest loop pipeline, whose call is commented out. *)
Theorem forwarder_suppresses_duplicates sc now face i fw : fw_inv fw -> gen_name (i_name i) ->
  room (i_name i) (fw_tables fw) ->
  (has (i_name i) (i_nonce i) (fw_dnl fw) = true \/
   exists p e, heap fw !! p = Some e /\ pe_name e = i_name i /\
     Selectors_equals (i_selectors (pe_interest e)) (i_selectors i) = true /\
     findNonce (i_nonce i) face e <> DUPLICATE_NONCE_NONE) ->
  exists fw', onIncomingInterest sc now face i fw = Ok fw' /\ fw_sent fw' = fw_sent fw /\ fw_cs fw' = fw_cs fw /\
    forall q f, heap fw !! q = Some f -> heap fw' !! q = Some f.
Proof.
  intros Hi Hn Hr Hdup. unfold onIncomingInterest. cbv zeta. set (fw0 := with_counters count_in_interest fw).
  destruct (violatesLocalhost fw0 face (i_name i)); [by exists fw0|].
  destruct (incoming_pit i fw0 (inv_counters _ fw Hi) Hn Hr) as (p&e&b&tb'&Heq&_&He&_&Hold&_&Hsame). rewrite Heq.
  rewrite (proj2 (get_entry_Ok p e (with_tables tb' fw0)) He). cbn [rbind].
  assert (Hd : negb (findNonce (i_nonce i) face e =? DUPLICATE_NONCE_NONE) || has (i_name i) (i_nonce i) (fw_dnl (with_tables tb' fw0)) = true).
  { apply orb_true_iff. destruct Hdup as [Hd|(q&f&Hf&Hfn&Hfs&Hnz)]; [by right|left].
    destruct (Hsame q f Hf Hfn Hfs) as [_ ->]. by apply negb_true_iff, Z.eqb_neq. }
  rewrite Hd. exists (with_tables tb' fw0). done.
Qed.

(** The PIT entry of an Interest that is dropped because its nonce is on
    the dead nonce list is created before the check and gets no timer: no timer
    ever removes it. *)
Theorem forwarder_leaks_looped_entry sc now face i fw : fw_inv fw -> gen_name (i_name i) ->
  room (i_name i) (fw_tables fw) -> violatesLocalhost fw face (i_name i) = false ->
  not_pending i fw -> has (i_name i) (i_nonce i) (fw_dnl fw) = true ->
  exists fw' p, onIncomingInterest sc now face i fw = Ok fw' /\ heap fw !! p = None /\
    heap fw' !! p = Some (PitEntry_new i) /\
    forall sc' now', unsatisfyTimerFires sc' now' p fw' = Ok fw' /\ stragglerTimerFires now' p fw' = Ok fw'.
Proof.
  intros Hi Hn Hr Hv Hnp Hd. unfold onIncomingInterest. cbv zeta. set (fw0 := with_counters count_in_interest fw).
  change (violatesLocalhost fw0 face (i_name i)) with (violatesLocalhost fw face (i_name i)). rewrite Hv.
  destruct (incoming_pit i fw0 (inv_counters _ fw Hi) Hn Hr) as (p&e&b&tb'&Heq&_&He&_&_&Hnew&_). rewrite Heq.
  destruct (Hnew Hnp) as (Hnone&->&_). set (fw1 := with_tables tb' fw0).
  rewrite (proj2 (get_entry_Ok p (PitEntry_new i) fw1) He). cbn [rbind].
  change (fw_dnl fw1) with (fw_dnl fw). rewrite Hd, orb_true_r. exists fw1, p. split_and!; [done|done|done|].
  intros sc' now'. unfold unsatisfyTimerFires, stragglerTimerFires.
  by rewrite (proj2 (get_entry_Ok p (PitEntry_new i) fw1) He).
Qed.

(** The state in which the content store is asked about a new Interest. *)
Definition new_entry_state (i : Interest) p fw fw2 : Prop :=
  fw_inv fw2 /\ heap fw !! p = None /\ heap fw2 = <[p := PitEntry_new i]> (heap fw) /\
  fw_sent fw2 = fw_sent fw /\ fw_dnl fw2 = fw_dnl fw /\ fw_faces fw2 = fw_faces fw /\ fw_cs fw2 = fw_cs fw.

Lemma incoming_new sc now face i fw : fw_inv fw -> gen_name (i_name i) -> room (i_name i) (fw_tables fw) ->
  violatesLocalhost fw face (i_name i) = false -> not_pending i fw -> has (i_name i) (i_nonce i) (fw_dnl fw) = false ->
  exists p fw2, new_entry_state i p fw fw2 /\
    onIncomingInterest sc now face i fw =
      let! (hit, cs) := Cs_find now i (fw_cs fw2) in
      match hit with
      | Some data => onContentStoreHit now face p data (with_cs cs fw2)
      | None => onContentStoreMiss sc now face p i (with_cs cs fw2)
      end.
Proof.
  intros Hi Hn Hr Hv Hnp Hd. unfold onIncomingInterest. cbv zeta. set (fw0 := with_counters count_in_interest fw).
  change (violatesLocalhost fw0 face (i_name i)) with (violatesLocalhost fw face (i_name i)). rewrite Hv.
  destruct (incoming_pit i fw0 (inv_counters _ fw Hi) Hn Hr) as (p&e&b&tb'&Heq&Hi1&He&_&_&Hnew&_). rewrite Heq.
  destruct (Hnew Hnp) as (Hnone&->&Hh). set (fw1 := with_tables tb' fw0) in *.
  rewrite (proj2 (get_entry_Ok p (PitEntry_new i) fw1) He). cbn [rbind].
  change (fw_dnl fw1) with (fw_dnl fw). rewrite Hd, orb_false_r.
  change (findNonce (i_nonce i) face (PitEntry_new i)) with DUPLICATE_NONCE_NONE. rewrite Z.eqb_refl. cbn [negb].
  unfold cancelUnsatisfyAndStragglerTimer. rewrite (proj2 (get_entry_Ok p (PitEntry_new i) fw1) He). cbn [rbind].
  set (fw2 := set_entry p (with_timers None None (PitEntry_new i)) fw1). exists p, fw2. split; [|done].
  split_and!; try done.
  - by apply inv_timers.
  - unfold fw2, heap. cbn [set_entry with_tables fw_tables with_heap tb_heap]. change (tb_heap (fw_tables fw1)) with (tb_heap tb').
    rewrite Hh. by rewrite insert_insert_eq.
Qed.

(** Whether [onOutgoingData] sends. *)
Definition deliverable fw (d : Data) face : bool :=
  negb (f_id (face_at fw face) =? INVALID_FACEID) && negb (violatesLocalhost fw face (d_name d)).

Lemma outgoingData_spec d face fw : let fw' := onOutgoingData d face fw in
  fw_sent fw' = fw_sent fw ++ (if deliverable fw d face then [(face, PktData d)] else []) /\
  fw_tables fw' = fw_tables fw /\ fw_faces fw' = fw_faces fw /\ fw_cs fw' = fw_cs fw /\ fw_dnl fw' = fw_dnl fw.
Proof.
  unfold onOutgoingData, deliverable. destruct (_ =? INVALID_FACEID); [by rewrite app_nil_r|].
  destruct (violatesLocalhost fw face (d_name d)); [by rewrite app_nil_r|done].
Qed.

(** An Interest that is new and found in the content store is answered at
    once: the Data goes to the face it came from (unless the face is gone or the
    scope forbids it), no in-record is made, and the PIT entry is left to the
    straggler timer. *)
Theorem forwarder_content_store_hit sc now face i d cs fw : fw_inv fw -> gen_name (i_name i) ->
  room (i_name i) (fw_tables fw) -> violatesLocalhost fw face (i_name i) = false -> not_pending i fw ->
  has (i_name i) (i_nonce i) (fw_dnl fw) = false -> Cs_find now i (fw_cs fw) = Ok (Some d, cs) ->
  exists fw' p, onIncomingInterest sc now face i fw = Ok fw' /\ heap fw !! p = None /\
    heap fw' = <[p := MkPitEntry i [] [] None (Some (now + milliseconds 100, true, d_freshnessPeriod d)) ∅]> (heap fw) /\
    fw_cs fw' = cs /\ fw_sent fw' = fw_sent fw ++ (if deliverable fw d face then [(face, PktData d)] else []).
Proof.
  intros Hi Hn Hr Hv Hnp Hd Hcs.
  destruct (incoming_new sc now face i fw Hi Hn Hr Hv Hnp Hd) as (p&fw2&(Hi2&Hnone&Hh&Hs&_&Hf&Hc)&->).
  rewrite Hc, Hcs. cbn [rbind].
  assert (He : tb_heap (fw_tables (with_cs cs fw2)) !! p = Some (PitEntry_new i)).
  { change (heap fw2 !! p = Some (PitEntry_new i)). by rewrite Hh, lookup_insert_eq. }
  unfold onContentStoreHit, setStragglerTimer. rewrite (proj2 (get_entry_Ok p _ _) He). cbn [rbind].
  set (fw3 := set_entry p _ (with_cs cs fw2)). exists (onOutgoingData d face fw3), p.
  destruct (outgoingData_spec d face fw3) as (Hs3&Ht3&_&Hc3&_). split_and!; [done|done| | |].
  - unfold heap. rewrite Ht3. unfold fw3. cbn [set_entry with_tables fw_tables with_heap tb_heap].
    change (tb_heap (fw_tables (with_cs cs fw2))) with (heap fw2). rewrite Hh. by rewrite insert_insert_eq.
  - by rewrite Hc3.
  - rewrite Hs3. f_equal; [exact Hs|]. unfold deliverable, violatesLocalhost, face_at.
    change (fw_faces fw3) with (fw_faces fw2). by rewrite Hf.
Qed.

(** C3. An Interest without a Link and without a selected delegation, with a name of generic
    components that has room in the name tree, that the scope admits, that is not pending, whose
    nonce is not on the dead nonce list and that is not in the content store: it gets an
    in-record and a timer for its lifetime, and is handed to the effective strategy of its
    name together with the FIB entry of its longest prefix; the rest is up to the strategy's
    program.  (The clock is such that the expiry fits 64 bits.  For an Interest with a Link,
    [onContentStoreMiss] may look up a delegation instead.) *)
Theorem forwarder_content_store_miss sc now face i cs fw : fw_inv fw -> gen_name (i_name i) ->
  room (i_name i) (fw_tables fw) -> violatesLocalhost fw face (i_name i) = false -> not_pending i fw ->
  has (i_name i) (i_nonce i) (fw_dnl fw) = false -> Cs_find now i (fw_cs fw) = Ok (None, cs) ->
  i_link i = None -> i_selectedDelegation i = None ->
  - 2 ^ 63 <= now -> now + milliseconds (lifetime_of i) < 2 ^ 63 ->
  let expiry := now + milliseconds (lifetime_of i) in
  exists p s fib fw',
    onIncomingInterest sc now face i fw = run now (afterReceiveInterest sc s now face i fib p fw') fw' /\
    fw_inv fw' /\ heap fw !! p = None /\
    heap fw' = <[p := MkPitEntry i [MkInRecord (MkFaceRecord face (i_nonce i) now expiry ∅) i true] [] (Some expiry) None ∅]> (heap fw) /\
    effective (i_name i) (fw_tables fw') (Some s) /\ fib_longest (i_name i) (fw_tables fw') fib /\
    fw_cs fw' = cs /\ fw_sent fw' = fw_sent fw /\ fw_faces fw' = fw_faces fw.
Proof.
  intros Hi Hn Hr Hv Hnp Hd Hcs Hlink Hsel Hlo Hhi expiry.
  destruct (incoming_new sc now face i fw Hi Hn Hr Hv Hnp Hd) as (p&fw2&(Hi2&Hnone&Hh&Hs&_&Hf&Hc)&->).
  rewrite Hc, Hcs. cbn [rbind].
  assert (Hex : to_s64 (now + milliseconds (lifetime_of i)) = expiry).
  { apply to_s64_id. unfold lifetime_of, milliseconds, DEFAULT_INTEREST_LIFETIME in *. case_bool; lia. }
  set (e1 := MkPitEntry i [MkInRecord (MkFaceRecord face (i_nonce i) now expiry ∅) i true] [] None None ∅).
  assert (He : get_entry p (with_cs cs fw2) = Ok (PitEntry_new i)).
  { apply get_entry_Ok. change (heap fw2 !! p = Some (PitEntry_new i)). by rewrite Hh, lookup_insert_eq. }
  assert (He1 : insertOrUpdateInRecord now face i (PitEntry_new i) = e1).
  { unfold insertOrUpdateInRecord, e1, InRecord_new, InRecord_update, FaceRecord_update. simpl. fold (lifetime_of i). by rewrite Hex. }
  unfold onContentStoreMiss. rewrite He. cbn [rbind]. rewrite He1. set (fw3 := set_entry p e1 (with_cs cs fw2)).
  unfold setUnsatisfyTimer. rewrite (proj2 (get_entry_Ok p e1 fw3) (set_entry_heap _ _ _)). cbn [rbind pe_inRecords e1 max_element].
  set (e2 := with_timers (Some expiry) None e1). set (fw4 := set_entry p e2 fw3).
  change (set_entry p _ fw3) with fw4. rewrite (proj2 (get_entry_Ok p e2 fw4) (set_entry_heap _ _ _)). cbn [rbind].
  unfold lookup_fib. rewrite Hlink. cbn [rbind]. unfold share_selected. rewrite Hsel.
  set (fw5 := set_entry p e2 fw4).
  assert (Hin1 : pe_interest e1 = pe_interest (PitEntry_new i)) by done.
  assert (Hok : entry_ok (with_cs cs fw2) e1).
  { rewrite <- He1. apply entry_ok_in; [done| |apply entry_ok_new].
    apply not_violates. unfold violatesLocalhost, face_at. change (fw_faces (with_cs cs fw2)) with (fw_faces fw2). rewrite Hf. exact Hv. }
  assert (Hi3 : fw_inv fw3).
  { apply (inv_set_entry p (PitEntry_new i)); [by apply inv_cs|by apply get_entry_Ok|done|done]. }
  assert (Hi5 : fw_inv fw5).
  { apply (inv_set_entry p e2); [|apply set_entry_heap|done|].
    - by apply inv_timers; [|apply set_entry_heap].
    - apply (entry_ok_faces (with_cs cs fw2)); [done|]. by apply entry_ok_timers. }
  assert (He5 : heap fw5 !! p = Some e2) by apply set_entry_heap.
  destruct (dispatch_run now p (fun s => afterReceiveInterest sc s now face i (Fib_findLongestPrefixMatch_entry (pe_name e2) (fw_tables fw4)) p) e2 fw5 Hi5 He5)
    as (s&Heff&Hrun).
  exists p, s, (Fib_findLongestPrefixMatch_entry (pe_name e2) (fw_tables fw4)), fw5. split_and!; try done.
  - unfold fw5, fw4, fw3, heap. cbn [set_entry with_tables fw_tables with_heap tb_heap].
    change (tb_heap (fw_tables (with_cs cs fw2))) with (heap fw2). rewrite Hh. by rewrite !insert_insert_eq.
  - pose proof (entry_present p e2 fw5 Hi5 He5) as Hpres.
    change (tb_tree (fw_tables fw5)) with (tb_tree (fw_tables fw4)) in Hpres.
    change (pe_name e2) with (i_name i) in *. change (fib_longest (i_name i) (fw_tables fw4) (Fib_findLongestPrefixMatch_entry (i_name i) (fw_tables fw4))).
    apply fib_lpm_entry; [exact (pi_tree _ (fi_pit _ Hi5))|exact Hpres].
Qed.

(** ** Data *)

Lemma set_insert_elem x l y : y ∈ set_insert x l <-> y = x \/ y ∈ l.
Proof.
  induction l as [|z l IH]; cbn [set_insert].
  - rewrite list_elem_of_singleton, elem_of_nil. tauto.
  - destruct (Z.ltb_spec x z); [by rewrite elem_of_cons|]. destruct (Z.ltb_spec z x).
    + rewrite !elem_of_cons, IH. tauto.
    + assert (x = z) as -> by lia. rewrite elem_of_cons. tauto.
Qed.

Lemma set_insert_sorted x l : StronglySorted Z.lt l -> StronglySorted Z.lt (set_insert x l).
Proof.
  induction l as [|z l IH]; intros Hs; cbn [set_insert]; [repeat constructor|].
  pose proof Hs as [Hl Hz]%StronglySorted_inv. destruct (Z.ltb_spec x z).
  - constructor; [done|]. constructor; [done|]. eapply Forall_impl; [exact Hz|]. simpl. lia.
  - destruct (Z.ltb_spec z x); [|done]. constructor; [by apply IH|]. apply Forall_forall. intros y [->|Hy]%set_insert_elem; [done|].
    rewrite Forall_forall in Hz. by apply Hz.
Qed.

Lemma sorted_nodup l : StronglySorted Z.lt l -> NoDup l.
Proof.
  induction l as [|z l IH]; intros Hs; [apply NoDup_nil_2|]. apply StronglySorted_inv in Hs as [Hl Hz].
  apply NoDup_cons. split; [|by apply IH]. intros Hin. rewrite Forall_forall in Hz. specialize (Hz z Hin). lia.
Qed.

(** The faces whose in-record has not expired. *)
Definition awaiting (now : Z) e face : Prop := exists r, r ∈ pe_inRecords e /\ ir_face r = face /\ now < fr_expiry (ir_record r).

Lemma pending_of_spec now e : forall s,
  (forall face, face ∈ pending_of now e s <-> face ∈ s \/ awaiting now e face) /\
  (StronglySorted Z.lt s -> StronglySorted Z.lt (pending_of now e s)).
Proof.
  unfold pending_of, awaiting. induction (pe_inRecords e) as [|r l IH]; intros s; cbn [fold_left].
  - split; [|done]. intros face. split; [by left|]. intros [?|(r&?%elem_of_nil&_)]; done.
  - destruct (IH (if now <? fr_expiry (ir_record r) then set_insert (ir_face r) s else s)) as [Hel Hs]. split.
    + intros face. rewrite Hel. setoid_rewrite elem_of_cons. destruct (Z.ltb_spec now (fr_expiry (ir_record r))).
      * rewrite set_insert_elem. naive_solver.
      * split; [naive_solver|]. intros [?|(x&[->|?]&?&?)]; [by left|lia|right; by exists x].
    + intros Hs'. apply Hs. case_bool; [by apply set_insert_sorted|done].
Qed.

(** A strategy that does nothing when an Interest is satisfied. *)
Definition quiet (sc : StrategyCode P) : Prop := forall s now p face d fw, beforeSatisfyInterest sc s now p face d fw = Done.

(** The entry after Data arrived: no in-record, no out-record of the face
    the Data came from, and the straggler timer. *)
Definition satisfied (now : Z) face (d : Data) e : PitEntry :=
  with_timers None (Some (now + milliseconds 100, true, d_freshnessPeriod d)) (deleteOutRecord face (deleteInRecords e)).

Lemma insertDnl_Ok p b k u e fw : heap fw !! p = Some e -> exists d, insertDeadNonceList p b k u fw = Ok (with_dnl d fw).
Proof.
  intros He. assert (Hsame : fw = with_dnl (fw_dnl fw) fw) by (by destruct fw).
  unfold insertDeadNonceList. rewrite (proj2 (get_entry_Ok p e fw) He). cbn [rbind].
  destruct (negb _); [exists (fw_dnl fw); by rewrite <- Hsame|].
  destruct u as [face|]; [|by eexists]. destruct (getOutRecord face e); [by eexists|]. exists (fw_dnl fw). by rewrite <- Hsame.
Qed.

Lemma satisfy_spec sc now face d p e fw pd : quiet sc -> fw_inv fw -> heap fw !! p = Some e ->
  exists fw', satisfy sc now face d p (fw, pd) = Ok (fw', pending_of now e pd) /\ fw_inv fw' /\
    heap fw' = <[p := satisfied now face d e]> (heap fw) /\
    fw_faces fw' = fw_faces fw /\ fw_sent fw' = fw_sent fw /\ fw_cs fw' = fw_cs fw.
Proof.
  intros Hq Hi He. unfold satisfy, cancelUnsatisfyAndStragglerTimer.
  rewrite (proj2 (get_entry_Ok p e fw) He). cbn [rbind]. set (e1 := with_timers None None e). set (fw1 := set_entry p e1 fw).
  assert (Hi1 : fw_inv fw1) by (by apply inv_timers).
  assert (He1 : heap fw1 !! p = Some e1) by apply set_entry_heap.
  rewrite (proj2 (get_entry_Ok p e1 fw1) He1). cbn [rbind]. cbv zeta.
  destruct (dispatch_run now p (fun s => beforeSatisfyInterest sc s now p face d) e1 fw1 Hi1 He1) as (s&_&->).
  rewrite Hq. cbn [run rbind].
  destruct (insertDnl_Ok p true (d_freshnessPeriod d) (Some face) e1 fw1 He1) as (dn&->). cbn [rbind].
  set (fw2 := with_dnl dn fw1). rewrite (proj2 (get_entry_Ok p e1 fw2) He1). cbn [rbind].
  set (e2 := deleteOutRecord face (deleteInRecords e1)). set (fw3 := set_entry p e2 fw2).
  unfold setStragglerTimer. rewrite (proj2 (get_entry_Ok p e2 fw3) (set_entry_heap _ _ _)). cbn [rbind].
  eexists. split; [reflexivity|].
  assert (Hi3 : fw_inv fw3).
  { apply (inv_set_entry p e1); [by apply inv_dnl|exact He1|done|]. apply entry_ok_satisfied. by apply (fi_entry _ (inv_dnl dn fw1 Hi1) p). }
  split_and!; [by apply inv_timers; [|apply set_entry_heap]| |done|done|done].
  unfold heap at 1. cbn [set_entry with_tables fw_tables with_heap tb_heap fw3 fw2 fw1 with_dnl].
  rewrite !insert_insert_eq. done.
Qed.

Lemma satisfy_all_spec sc now face d l : forall fw (pd : list FacePtr), quiet sc -> fw_inv fw -> NoDup l ->
  (forall p, p ∈ l -> is_Some (heap fw !! p)) -> StronglySorted Z.lt pd ->
  exists fw' (pd' : list FacePtr), satisfy_all sc now face d l (fw, pd) = Ok (fw', pd') /\ fw_inv fw' /\ StronglySorted Z.lt pd' /\
    (forall p, heap fw' !! p = if bool_decide (p ∈ l) then satisfied now face d <$> heap fw !! p else heap fw !! p) /\
    (forall g, g ∈ pd' <-> g ∈ pd \/ exists p e, p ∈ l /\ heap fw !! p = Some e /\ awaiting now e g) /\
    fw_faces fw' = fw_faces fw /\ fw_sent fw' = fw_sent fw /\ fw_cs fw' = fw_cs fw.
Proof.
  induction l as [|p l IH]; intros fw pd Hq Hi Hnd Hall Hs; cbn [satisfy_all].
  - exists fw, pd. split_and!; [done|done|done| | |done|done|done].
    + intros p. rewrite bool_decide_false; [done|apply not_elem_of_nil].
    + intros g. split; [by left|]. intros [?|(?&?&?%elem_of_nil&_)]; done.
  - apply NoDup_cons in Hnd as [Hp Hnd]. destruct (Hall p ltac:(left)) as [e He].
    destruct (satisfy_spec sc now face d p e fw pd Hq Hi He) as (fw1&Hrw&Hi1&Hh1&Hf1&Hs1&Hc1).
    destruct (pending_of_spec now e pd) as [Hpel Hps].
    assert (Hother : forall q, q ∈ l -> heap fw1 !! q = heap fw !! q).
    { intros q Hq'. rewrite Hh1, lookup_insert_ne; [done|]. intros <-. done. }
    destruct (IH fw1 (pending_of now e pd) Hq Hi1 Hnd) as (fw2&pd2&Hrun&Hi2&Hsort&Hh2&Hel2&Hf2&Hs2&Hc2).
    { intros q Hq'. rewrite Hother by done. apply Hall. by right. }
    { by apply Hps. }
    exists fw2, pd2. rewrite Hrw. cbn [rbind]. split_and!; [done|done|done| | |congruence|congruence|congruence].
    + intros q. rewrite Hh2. destruct (decide (q = p)) as [->|Hne].
      * rewrite (bool_decide_false (p ∈ l)) by done. rewrite bool_decide_true by left. rewrite Hh1, lookup_insert_eq, He. done.
      * rewrite Hh1, lookup_insert_ne by done. apply bool_decide_ext_if. rewrite elem_of_cons. tauto.
    + intros g. rewrite Hel2, Hpel. split.
      * intros [[?|Hw]|(q&f&Hq'&Hf&Hw)]; [by left|right; exists p, e; split_and!; [left|done|done]|].
        right. exists q, f. rewrite Hother in Hf by done. split_and!; [by right|done|done].
      * intros [?|(q&f&[->|Hq']%elem_of_cons&Hf&Hw)]; [by do 2 left| |].
        -- left. right. congruence.
        -- right. exists q, f. rewrite Hother by done. done.
Qed.

Lemma deliver_all d inFace l : forall fw,
  let fw' := fold_left (fun fw face => if face =? inFace then fw else onOutgoingData d face fw) l fw in
  fw_sent fw' = fw_sent fw ++ map (fun g => (g, PktData d)) (List.filter (fun g => negb (g =? inFace) && deliverable fw d g) l) /\
  fw_tables fw' = fw_tables fw /\ fw_faces fw' = fw_faces fw /\ fw_cs fw' = fw_cs fw.
Proof.
  induction l as [|g l IH]; intros fw; cbn [fold_left List.filter]; cbv zeta; [by rewrite app_nil_r|].
  destruct (IH (if g =? inFace then fw else onOutgoingData d g fw)) as (Hs&Ht&Hf&Hc).
  destruct (g =? inFace) eqn:Hg; cbn [negb andb]; [done|].
  destruct (outgoingData_spec d g fw) as (Hs1&Ht1&Hf1&Hc1&_). split_and!; [|congruence|congruence|congruence].
  rewrite Hs, Hs1, <- app_assoc. f_equal.
  assert (Hdel : forall k, deliverable (onOutgoingData d g fw) d k = deliverable fw d k).
  { intros k. unfold deliverable, violatesLocalhost, face_at. by rewrite Hf1. }
  assert (Hfil : List.filter (fun k => negb (k =? inFace) && deliverable (onOutgoingData d g fw) d k) l =
    List.filter (fun k => negb (k =? inFace) && deliverable fw d k) l).
  { apply filter_ext. intros k. by rewrite Hdel. }
  rewrite Hfil. by destruct (deliverable fw d g).
Qed.

(** C2. Delivery of Data.  When no strategy acts in [beforeSatisfyInterest] ([quiet]; best
    route, best route 2, multicast and client control do not), a Data that the scope admits and
    that the PIT has matches for goes to exactly the faces with an unexpired in-record in one
    of these entries, once each, apart from the face it came from and faces that are gone or
    that the scope excludes; it is put into the content store, if that does not fail; every
    match loses its in-records and the out-record of the face and gets the straggler timer,
    and all other entries stay.  The matches are those of [Pit::findAllDataMatches], which
    looks at the entries of the prefixes of the Data name: an Interest with the full name of
    the Data, digest included, is not among them ([pit_misses_full_names]) and goes on
    waiting. *)
Theorem forwarder_data_to_pending sc now inFace d b cs fw : quiet sc -> fw_inv fw ->
  violatesLocalhost fw inFace (d_name d) = false -> findAllDataMatches d (fw_tables fw) <> [] ->
  Cs_insert now d false (fw_cs fw) = Ok (b, cs) ->
  exists fw' out, onIncomingData sc now inFace d fw = Ok fw' /\ fw_cs fw' = cs /\
    fw_sent fw' = fw_sent fw ++ map (fun g => (g, PktData d)) out /\ NoDup out /\
    (forall g, g ∈ out <-> g <> inFace /\ deliverable fw d g = true /\
       exists p e, p ∈ findAllDataMatches d (fw_tables fw) /\ heap fw !! p = Some e /\ awaiting now e g) /\
    (forall p, heap fw' !! p = if bool_decide (p ∈ findAllDataMatches d (fw_tables fw))
                               then satisfied now inFace d <$> heap fw !! p else heap fw !! p).
Proof.
  intros Hq Hi Hv Hm Hcs. unfold onIncomingData. cbv zeta. set (fw0 := with_counters count_in_data fw).
  change (violatesLocalhost fw0 inFace (d_name d)) with (violatesLocalhost fw inFace (d_name d)). rewrite Hv.
  change (findAllDataMatches d (fw_tables fw0)) with (findAllDataMatches d (fw_tables fw)).
  destruct (findAllDataMatches_entries d (fw_tables fw) (fi_pit _ Hi)) as [Hnd Hex].
  destruct (findAllDataMatches d (fw_tables fw)) as [|p0 l0] eqn:Hpm; [done|]. rewrite <- Hpm in *.
  set (pm := findAllDataMatches d (fw_tables fw)) in *. change (fw_cs fw0) with (fw_cs fw). rewrite Hcs. cbn [rbind].
  destruct (satisfy_all_spec sc now inFace d pm (with_cs cs fw0) [] Hq) as (fw1&pd&Hrun&Hi1&Hsort&Hh&Hel&Hf&Hs&Hc).
  { by apply inv_cs, inv_counters. } { done. }
  { intros p Hp. destruct (Hex p Hp) as (e&He&_). by exists e. } { constructor. }
  rewrite Hrun. cbn [rbind]. destruct (deliver_all d inFace pd fw1) as (Hs2&Ht2&_&Hc2).
  exists (fold_left (fun fw face => if face =? inFace then fw else onOutgoingData d face fw) pd fw1),
    (List.filter (fun g => negb (g =? inFace) && deliverable fw1 d g) pd).
  assert (Hdel : forall g, deliverable fw1 d g = deliverable fw d g).
  { intros g. unfold deliverable, violatesLocalhost, face_at. by rewrite Hf. }
  split_and!; [done|by rewrite Hc2, Hc|by rewrite Hs2, Hs| | |].
  - apply NoDup_ListNoDup, List.NoDup_filter, NoDup_ListNoDup. by apply sorted_nodup.
  - intros g. rewrite elem_of_bfilter, Hel, Hdel, andb_true_iff, negb_true_iff, Z.eqb_neq, elem_of_nil. tauto.
  - intros p. unfold heap at 1. rewrite Ht2. apply (Hh p).
Qed.

(** ** The end of a PIT entry *)

Definition add_nonces e (d : DeadNonceList) : DeadNonceList :=
  fold_left (fun d r => dnl_add (pe_name e) (fr_lastNonce (or_record r)) d) (pe_outRecords e) d.

Lemma fold_add_run n l : forall d, fold_left (fun d r => dnl_add n (fr_lastNonce (or_record r)) d) l d =
  dnl_run (map (fun r => DAdd n (fr_lastNonce (or_record r))) l) d.
Proof. induction l as [|r l IH]; intros d; [done|]. apply IH. Qed.

Lemma pushes_adds n l : pushes (map (fun r => DAdd n (fr_lastNonce (or_record r))) l) = len l.
Proof.
  unfold pushes. induction l as [|r l IH]; [done|]. cbn [map]. rewrite filter_cons, decide_True by done.
  rewrite !len_cons. f_equal. exact IH.
Qed.

Lemma add_nonces_has e d r : dnl_inv d -> len (pe_outRecords e) <= MIN_CAPACITY -> r ∈ pe_outRecords e ->
  has (pe_name e) (fr_lastNonce (or_record r)) (add_nonces e d) = true.
Proof.
  intros Hd Hl Hr. unfold add_nonces. apply list_elem_of_split in Hr as (l1&l2&Hrl). rewrite Hrl, fold_left_app.
  cbn [fold_left]. rewrite !fold_add_run. set (d1 := dnl_run _ d).
  assert (Hd1 : dnl_inv d1) by (by apply run_inv). apply bool_decide_eq_true.
  apply (within_run _ _ 0).
  - intros k. apply run_inv. by apply (exec_inv (DAdd _ _)).
  - rewrite pushes_adds. rewrite Hrl, len_app, len_cons in Hl. pose proof (len_nonneg l1). lia.
  - by apply within_added.
Qed.

(** C5. When an Interest ends unsatisfied (its lifetime is over, or the strategy rejected
    it), its PIT entry is removed, nothing is sent and no other entry changes.  If the dead
    nonce list is in a state it can reach ([dnl_inv]) and the entry has at most [MIN_CAPACITY]
    out-records, the name with the last nonce of each of these out-records is on the list
    afterwards, so that a looping copy is recognized.  (An upstream that got the Interest
    twice has its last nonce there, and one whose out-record was deleted has none.) *)
Theorem forwarder_finalizes_unsatisfied p e k fw : fw_inv fw -> heap fw !! p = Some e ->
  exists fw', onInterestFinalize p false k fw = Ok fw' /\ fw_inv fw' /\ heap fw' = delete p (heap fw) /\
    fw_sent fw' = fw_sent fw /\ fw_cs fw' = fw_cs fw /\
    (dnl_inv (fw_dnl fw) -> len (pe_outRecords e) <= MIN_CAPACITY -> forall r, r ∈ pe_outRecords e ->
       has (pe_name e) (fr_lastNonce (or_record r)) (fw_dnl fw') = true).
Proof.
  intros Hi He. pose proof (inv_finalize p false k fw Hi) as Hens. unfold onInterestFinalize, insertDeadNonceList in *.
  rewrite (proj2 (get_entry_Ok p e fw) He) in *. cbn [rbind negb] in *. set (fw1 := with_dnl _ fw) in *.
  unfold cancelUnsatisfyAndStragglerTimer in *.
  rewrite (proj2 (get_entry_Ok p e fw1) He) in *. cbn [rbind] in *. set (fw2 := set_entry p (with_timers None None e) fw1) in *.
  eexists. split; [reflexivity|]. assert (Hi2 : fw_inv fw2) by (by apply inv_timers; [apply inv_dnl|]).
  destruct (Pit_erase_other p (fw_tables fw2) (fi_pit _ Hi2)) as [Hh _].
  split_and!; [by apply Hens| |done|done|].
  - unfold heap at 1. cbn [with_tables fw_tables]. rewrite Hh. unfold fw2. cbn [set_entry with_tables fw_tables with_heap tb_heap].
    apply delete_insert_eq.
  - intros Hd Hl r Hr. exact (add_nonces_has e (fw_dnl fw) r Hd Hl Hr).
Qed.

(** ** Which Interest is sent *)

Lemma max_element_ge {A} (lt : A -> A -> bool) :
  (forall a b c, lt a b = false -> lt b c = false -> lt a c = false) -> (forall a b, lt a b = true -> lt b a = false) ->
  (forall a, lt a a = false) -> forall l x y, y ∈ x :: l -> lt (max_element lt x l) y = false.
Proof.
  intros Htr Has Hirr. induction l as [|z l IH]; intros x y Hy; cbn [max_element].
  - apply list_elem_of_singleton in Hy as ->. apply Hirr.
  - set (w := if lt x z then z else x).
    assert (Hw : lt (max_element lt w l) w = false) by (apply IH; left).
    rewrite !elem_of_cons in Hy. destruct Hy as [->|[->|Hy]].
    + apply (Htr _ w); [done|]. unfold w. destruct (lt x z) eqn:E; [by apply Has|apply Hirr].
    + apply (Htr _ w); [done|]. unfold w. destruct (lt x z) eqn:E; [apply Hirr|done].
    + apply IH. by right.
Qed.

(** The outgoing Interest is taken from the in-record that was renewed
    first among those of other faces than the one it is sent to, and from that
    face's own in-record only when there is no other; the comment in the source
    promises the last. *)
Theorem forwarder_picks_earliest outFace r l : let m := max_element (compare_pickInterest outFace) r l in
  m ∈ r :: l /\
  (forall x, x ∈ r :: l -> ir_face x <> outFace ->
     ir_face m <> outFace /\ fr_lastRenewed (ir_record m) <= fr_lastRenewed (ir_record x)) /\
  (ir_face m = outFace -> forall x, x ∈ r :: l ->
     ir_face x = outFace /\ fr_lastRenewed (ir_record m) <= fr_lastRenewed (ir_record x)).
Proof.
  intros m. assert (Hge : forall x, x ∈ r :: l -> compare_pickInterest outFace m x = false).
  { intros x Hx. apply max_element_ge; [| | |done]; unfold compare_pickInterest.
    - intros a b c. destruct (ir_face a =? outFace), (ir_face b =? outFace), (ir_face c =? outFace); cbn [negb andb];
        rewrite ?Z.ltb_ge; done || lia.
    - intros a b. destruct (ir_face a =? outFace), (ir_face b =? outFace); cbn [negb andb]; rewrite ?Z.ltb_lt, ?Z.ltb_ge; done || lia.
    - intros a. destruct (ir_face a =? outFace); cbn [negb andb]; apply Z.ltb_irrefl. }
  split_and!; [apply max_element_in| |].
  - intros x Hx Hne. specialize (Hge x Hx). unfold compare_pickInterest in Hge.
    rewrite (proj2 (Z.eqb_neq (ir_face x) outFace) Hne) in Hge.
    destruct (Z.eqb_spec (ir_face m) outFace); cbn [negb andb] in Hge; [done|]. split; [done|]. by apply Z.ltb_ge in Hge.
  - intros Hm x Hx. specialize (Hge x Hx). unfold compare_pickInterest in Hge. rewrite Hm, Z.eqb_refl in Hge.
    destruct (Z.eqb_spec (ir_face x) outFace); cbn [negb andb] in Hge; [|done]. split; [done|]. by apply Z.ltb_ge in Hge.
Qed.

(** Sending an Interest with a new nonce also changes the Interest in the
    in-record it was copied from, since the copy shares its buffer: a Nack sent
    to that downstream afterwards carries the new nonce, which the downstream
    never sent, and not the nonce it did. *)
Theorem forwarder_new_nonce_reaches_nack now p e r l outFace hdr fw : fw_inv fw -> heap fw !! p = Some e ->
  pe_inRecords e = r :: l -> f_id (face_at fw outFace) <> INVALID_FACEID -> violatesScope (face_at fw) outFace e = false ->
  let picked := max_element (compare_pickInterest outFace) r l in
  let nonce := rng_draw (fw_drawn fw) in
  ir_hasWire picked = true -> f_id (face_at fw (ir_face picked)) <> INVALID_FACEID ->
  f_linkType (face_at fw (ir_face picked)) <> LINK_TYPE_MULTI_ACCESS ->
  exists fw1 fw2, onOutgoingInterest now p outFace true fw = Ok fw1 /\
    onOutgoingNack p (ir_face picked) hdr fw1 = Ok fw2 /\
    fw_sent fw2 = fw_sent fw ++ [(outFace, PktInterest (set_nonce nonce (ir_interest picked)));
                                 (ir_face picked, PktNack (MkNack (set_nonce nonce (ir_interest picked)) hdr))].
Proof.
  intros Hi He Hl Hid Hv picked nonce Hw Hid2 Hlt. unfold onOutgoingInterest.
  rewrite (proj2 (get_entry_Ok p e fw) He). cbn [rbind].
  rewrite (proj2 (Z.eqb_neq _ _) Hid), Hv, Hl. cbv zeta. fold picked nonce.
  set (e1 := insertOrUpdateOutRecord now outFace (set_nonce nonce (ir_interest picked)) (renonce nonce (ir_face picked) e)).
  set (fw1 := with_counters count_out_interest _). exists fw1.
  assert (He1 : get_entry p fw1 = Ok e1) by (apply get_entry_Ok; apply set_entry_heap).
  destruct (fi_entry _ Hi p e He) as [[Hin _] _ _].
  assert (Hget : getInRecord (ir_face picked) e1 = Some (MkInRecord (ir_record picked) (set_nonce nonce (ir_interest picked)) true)).
  { unfold getInRecord, e1, insertOrUpdateOutRecord, renonce. cbn [with_outRecords with_inRecords pe_inRecords].
    rewrite get_update by (intros x; by destruct (ir_hasWire x)). rewrite bool_decide_true by done.
    rewrite (proj2 (get_record_iff ir_face (ir_face picked) (pe_inRecords e) picked Hin)).
    - simpl. by rewrite Hw.
    - split; [|done]. rewrite Hl. apply max_element_in. }
  unfold onOutgoingNack. rewrite He1. cbn [rbind].
  change (face_at fw1 (ir_face picked)) with (face_at fw (ir_face picked)).
  rewrite (proj2 (Z.eqb_neq _ _) Hid2), Hget, bool_decide_false by done.
  eexists. split_and!; [done|reflexivity|]. unfold fw1. cbn. by rewrite <- app_assoc.
Qed.

(** ** Nacks *)

(** C6. A Nack is handed to the strategy only when the face is point-to-point
    and the Interest's PIT entry has an out-record for that face with the
    Nack's nonce; otherwise nothing is sent and no PIT entry changes. *)
Theorem forwarder_checks_nacks sc now face k fw : fw_inv fw -> gen_name (i_name (nack_interest k)) ->
  room (i_name (nack_interest k)) (fw_tables fw) ->
  f_linkType (face_at fw face) = LINK_TYPE_MULTI_ACCESS \/
  (forall p e r, heap fw !! p = Some e -> pe_name e = i_name (nack_interest k) ->
     Selectors_equals (i_selectors (pe_interest e)) (i_selectors (nack_interest k)) = true ->
     getOutRecord face e = Some r -> fr_lastNonce (or_record r) <> i_nonce (nack_interest k)) ->
  exists fw', onIncomingNack sc now face k fw = Ok fw' /\ fw_sent fw' = fw_sent fw /\ heap fw' = heap fw.
Proof.
  intros Hi Hn Hr Hno. unfold onIncomingNack. cbv zeta. set (fw0 := with_counters count_in_nack fw).
  case_bool_decide as Hm; [by exists fw0|]. destruct Hno as [?|Hno]; [done|].
  unfold Pit_find. destruct (findOrInsert_spec (nack_interest k) false (fw_tables fw0) (fi_pit _ Hi) Hn Hr)
    as (r&b&tb'&->&_&[(p&e&->&_&Hh&He&Hen&Hes)|(_&_&->&Hh)]); [|by exists (with_tables tb' fw0)].
  set (fw1 := with_tables tb' fw0). assert (He1 : get_entry p fw1 = Ok e) by (apply get_entry_Ok; change (tb_heap tb' !! p = Some e); by rewrite Hh).
  rewrite He1. cbn [rbind]. destruct (getOutRecord face e) as [o|] eqn:Ho; [|by exists fw1].
  specialize (Hno p e o He Hen Hes Ho). rewrite (proj2 (Z.eqb_neq _ _)) by congruence. cbn [negb]. by exists fw1.
Qed.
End Pipelines.

(** A forwarder with a local face 1 and a face 2 to the network, whose strategy
    sends every Interest to face 2. *)
Module ForwarderSamples.
#[local] Existing Instance sample_sha256.
#[local] Existing Instance Samples.SampleHash.
#[local] Existing Instance DnlSamples.SeedHash.
#[local] Existing Instance InsertionSort.Sort.
Import PitSamples PitTableSamples StrategySamples.

Lemma sample_draw_range (k : nat) : 0 <= (Z.of_nat k + 99) mod U32 < U32.
Proof. by apply Z.mod_pos_bound. Qed.
Definition SampleRng : Rng := {| rng_draw k := (Z.of_nat k + 99) mod U32; rng_range := sample_draw_range |}.
#[local] Existing Instance SampleRng.

Definition FW : Type := Forwarder PriorityFifoPolicy.
Definition to_network : StrategyCode PriorityFifoPolicy :=
  {| afterReceiveInterest _ _ _ _ _ p _ := Act (ActSendInterest p 2 false) (fun _ => Done);
     beforeSatisfyInterest _ _ _ _ _ _ := Done;
     beforeExpirePendingInterest _ _ _ _ := Done;
     afterReceiveNack _ _ _ _ _ _ _ := Done |}.

Definition step_to (r : result FW) (fw : FW) : FW := match r with Ok fw' => fw' | Err _ => fw end.
Definition faced : FW :=
  addFace 2 (MkFace 257 FACE_SCOPE_NON_LOCAL LINK_TYPE_POINT_TO_POINT)
    (addFace 1 (MkFace 256 FACE_SCOPE_LOCAL LINK_TYPE_POINT_TO_POINT) (fw_init 2 st1 10 [])).
(** The Interest [/a/b] came from face 1 and was sent to face 2. *)
Definition asked : FW := step_to (onIncomingInterest to_network 0 1 i1 faced) faced.
(** Its lifetime went by. *)
Definition expired : FW := step_to (unsatisfyTimerFires to_network (milliseconds 4000) 1%positive asked) asked.
(** Instead of the Interest, face 1 sent Data. *)
Definition cached : FW := step_to (onIncomingData to_network 0 1 data_abc faced) faced.

Lemma asked_eq : onIncomingInterest to_network 0 1 i1 faced = Ok asked.
Proof. by vm_compute. Qed.
Lemma expired_eq : unsatisfyTimerFires to_network (milliseconds 4000) 1%positive asked = Ok expired.
Proof. by vm_compute. Qed.
Lemma cached_eq : onIncomingData to_network 0 1 data_abc faced = Ok cached.
Proof. by vm_compute. Qed.

Lemma reach_faced : fw_reachable faced.
Proof.
  eapply ReachStep; [eapply ReachStep; [apply ReachInit|apply StepAddFace]|apply StepAddFace]; [lia|by vm_compute..].
Qed.
Lemma reach_asked : fw_reachable asked.
Proof. eapply ReachStep; [apply reach_faced|eapply StepInterest; [| |apply asked_eq]]; [by_decide|by vm_compute]. Qed.
Lemma reach_expired : fw_reachable expired.
Proof. eapply ReachStep; [apply reach_asked|eapply StepUnsatisfied, expired_eq]. Qed.
Lemma reach_cached : fw_reachable cached.
Proof. eapply ReachStep; [apply reach_faced|eapply StepData, cached_eq]. Qed.

Definition entry_asked : PitEntry := default (PitEntry_new i1) (heap asked !! (1%positive : PitPtr)).
Lemma heap_asked : heap asked !! (1%positive : PitPtr) = Some entry_asked.
Proof. by vm_compute. Qed.

Lemma nothing_pending (i : Interest) (fw : FW) : heap fw = ∅ -> not_pending i fw.
Proof. intros Hh p e. rewrite Hh, lookup_empty. done. Qed.

Lemma forwarder_reachable_safe_witness : pit_inv (fw_tables asked) /\ NoDup (map ir_face (pe_inRecords entry_asked)).
Proof.
  destruct (forwarder_reachable_safe asked reach_asked) as (_&Hp&He). split; [exact Hp|apply (He 1%positive entry_asked heap_asked)].
Defined.

Lemma forwarder_suppresses_duplicates_witness :
  exists fw', onIncomingInterest to_network 0 2 i1 asked = Ok fw' /\ fw_sent fw' = fw_sent asked.
Proof.
  destruct (forwarder_suppresses_duplicates to_network 0 2 i1 asked) as (fw'&Hok&Hs&_);
    [exact (reachable_inv asked reach_asked)|by_decide|by vm_compute| |exists fw'; exact (conj Hok Hs)].
  right. exists 1%positive, entry_asked. split; [exact heap_asked|]. by vm_compute.
Defined.

Lemma forwarder_leaks_looped_entry_witness :
  exists fw' p, onIncomingInterest to_network (milliseconds 5000) 2 i1 expired = Ok fw' /\ heap fw' !! p = Some (PitEntry_new i1).
Proof.
  destruct (forwarder_leaks_looped_entry to_network (milliseconds 5000) 2 i1 expired) as (fw'&p&Hok&_&Hh&_);
    [exact (reachable_inv expired reach_expired)|by_decide|by vm_compute|by vm_compute|apply nothing_pending; by vm_compute|by vm_compute|].
  exists fw', p. exact (conj Hok Hh).
Defined.

Lemma forwarder_content_store_hit_witness :
  exists fw', onIncomingInterest to_network 0 2 i1 cached = Ok fw' /\ fw_sent fw' = [(2, PktData data_abc)].
Proof.
  destruct (forwarder_content_store_hit to_network 0 2 i1 data_abc (fw_cs cached) cached) as (fw'&p&Hok&_&_&_&Hs);
    [exact (reachable_inv cached reach_cached)|by_decide|by vm_compute|by vm_compute|apply nothing_pending; by vm_compute
    |by vm_compute|by vm_compute|].
  exists fw'. split; [exact Hok|]. rewrite Hs. by vm_compute.
Defined.

Lemma forwarder_content_store_miss_witness :
  exists p s fib fw', onIncomingInterest to_network 0 1 i1 faced =
    run 0 (afterReceiveInterest to_network s 0 1 i1 fib p fw') fw' /\ effective name_ab (fw_tables fw') (Some s).
Proof.
  destruct (forwarder_content_store_miss to_network 0 1 i1 (fw_cs faced) faced) as (p&s&fib&fw'&Hok&_&_&_&Hs&_);
    [exact (reachable_inv faced reach_faced)|by_decide|by vm_compute|by vm_compute|apply nothing_pending; by vm_compute
    |by vm_compute..|].
  exists p, s, fib, fw'. exact (conj Hok Hs).
Defined.

Lemma forwarder_data_to_pending_witness :
  exists fw' out, onIncomingData to_network 5 2 data_abc asked = Ok fw' /\
    fw_sent fw' = fw_sent asked ++ map (fun g => (g, PktData data_abc)) out /\ 1 ∈ (out : list FacePtr).
Proof.
  destruct (Cs_insert 5 data_abc false (fw_cs asked)) as [[b cs]|] eqn:Hcs; [|by vm_compute in Hcs].
  destruct (forwarder_data_to_pending to_network 5 2 data_abc b cs asked) as (fw'&out&Hok&_&Hs&_&Hout&_);
    [by intros ??????|exact (reachable_inv asked reach_asked)|by vm_compute|by vm_compute|exact Hcs|].
  exists fw', out. split; [exact Hok|split; [exact Hs|]]. apply Hout. split; [done|split; [by vm_compute|]].
  exists 1%positive, entry_asked. split; [vm_compute; left|split; [exact heap_asked|]].
  exists (MkInRecord (MkFaceRecord 1 7 0 (milliseconds 4000) ∅) i1 true).
  split; [vm_compute; left|split; vm_compute; reflexivity].
Defined.

Lemma forwarder_finalizes_unsatisfied_witness :
  exists fw', onInterestFinalize 1%positive false (-1) asked = Ok fw' /\ heap fw' = ∅ /\ has name_ab 7 (fw_dnl fw') = true.
Proof.
  destruct (forwarder_finalizes_unsatisfied 1%positive entry_asked (-1) asked (reachable_inv asked reach_asked) heap_asked)
    as (fw'&Hok&_&Hh&_&_&Hd).
  exists fw'. split; [exact Hok|]. split; [rewrite Hh; by vm_compute|].
  apply (Hd ltac:(split; by vm_compute) ltac:(by vm_compute) (MkOutRecord (MkFaceRecord 2 7 0 (milliseconds 4000) ∅) None)).
  vm_compute. left.
Defined.

Lemma forwarder_new_nonce_reaches_nack_witness :
  exists fw1 fw2, onOutgoingInterest 0 1%positive 2 true asked = Ok fw1 /\
    onOutgoingNack 1%positive 1 (MkNackHeader NACK_NO_ROUTE) fw1 = Ok fw2 /\
    fw_sent fw2 = fw_sent asked ++ [(2, PktInterest (set_nonce 99 i1)); (1, PktNack (MkNack (set_nonce 99 i1) (MkNackHeader NACK_NO_ROUTE)))].
Proof.
  destruct (forwarder_new_nonce_reaches_nack 0 1%positive entry_asked (MkInRecord (MkFaceRecord 1 7 0 (milliseconds 4000) ∅) i1 true) []
    2 (MkNackHeader NACK_NO_ROUTE) asked (reachable_inv asked reach_asked) heap_asked) as (fw1&fw2&H1&H2&Hs); [by vm_compute..|].
  exists fw1, fw2. split; [exact H1|split; [exact H2|]]. rewrite Hs. vm_compute. reflexivity.
Defined.

Lemma forwarder_checks_nacks_witness :
  exists fw', onIncomingNack to_network 0 2 (MkNack (set_nonce 8 i1) (MkNackHeader NACK_NO_ROUTE)) asked = Ok fw' /\ heap fw' = heap asked.
Proof.
  destruct (forwarder_checks_nacks to_network 0 2 (MkNack (set_nonce 8 i1) (MkNackHeader NACK_NO_ROUTE)) asked) as (fw'&Hok&_&Hh);
    [exact (reachable_inv asked reach_asked)|by_decide|by vm_compute| |exists fw'; exact (conj Hok Hh)].
  right. intros p e r He _ _ Hr.
  assert (Hp : heap asked = {[ (1%positive : PitPtr) := entry_asked ]}) by (by vm_compute).
  rewrite Hp in He. apply lookup_singleton_Some in He as [<- <-]. vm_compute in Hr. injection Hr as <-. done.
Defined.
End ForwarderSamples.
