(* ===== verification/Strategies.v ===== *)
(** * Forwarding strategies: [NFD/daemon/fw/best-route-strategy.cpp],
    [multicast-strategy.cpp], [broadcast-strategy.cpp], [client-control-strategy.cpp]

    The triggers of these strategies as programs of the interface of
    [Forwarder], and what they make the forwarder do. *)

From S2P Require Import Prelude StdMap Tlv Block Encoder NameComponent Name Exclude Packet Link CsEntry.
From S2P Require Import CsPolicy Cs NameTree FibEntry PitEntry DeadNonceList Tables Pit Fib StrategyChoice.
From S2P Require Import Forwarder ForwarderInv ForwarderProps.

Section Strategies.
Context {P : Type}.
Implicit Types (fw : Forwarder P) (p : PitPtr).

(** [predicate_PitEntry_canForwardTo_NextHop] *)
Definition can_forward (now : Z) p fw (h : NextHop) : bool :=
  match heap fw !! p with
  | Some e => canForwardTo (face_at fw) now (nh_face h) e
  | None => false
  end.

Definition has_unexpired (now : Z) p fw : bool :=
  match heap fw !! p with Some e => hasUnexpiredOutRecords now e | None => false end.

(** [BestRouteStrategy::afterReceiveInterest] *)
Definition best_route (now : Z) (fibEntry : FibEntry) p fw : Prog (Forwarder P) :=
  if has_unexpired now p fw then Done
  else
    match List.find (can_forward now p fw) (fe_nextHops fibEntry) with
    | None => Act (ActReject p) (fun _ => Done)
    | Some h => Act (ActSendInterest p (nh_face h) false) (fun _ => Done)
    end.

(** [MulticastStrategy::afterReceiveInterest]: the loop over the next hops,
    each seeing the state the previous ones left *)
Fixpoint multicast (now : Z) (nexthops : list NextHop) p fw : Prog (Forwarder P) :=
  match nexthops with
  | [] => if negb (has_unexpired now p fw) then Act (ActReject p) (fun _ => Done) else Done
  | h :: l =>
      if can_forward now p fw h
      then Act (ActSendInterest p (nh_face h) false) (fun fw => multicast now l p fw)
      else multicast now l p fw
  end.

(** [FaceTable::get] *)
Definition getFace (id : Z) fw : option FacePtr :=
  if id =? INVALID_FACEID then None
  else fst <$> List.find (fun x : FacePtr * Face => f_id x.2 =? id) (map_to_list (fw_faces fw)).

(** [ClientControlStrategy::afterReceiveInterest] *)
Definition client_control (now : Z) (interest : Interest) (fibEntry : FibEntry) p fw : Prog (Forwarder P) :=
  match i_nextHopFaceId interest with
  | None => best_route now fibEntry p fw
  | Some outFaceId =>
      match getFace outFaceId fw with
      | None => Act (ActReject p) (fun _ => Done)
      | Some outFace => Act (ActSendInterest p outFace false) (fun _ => Done)
      end
  end.

(** The other triggers only write to the log. *)
Definition code_of (f : Z -> Interest -> FibEntry -> PitPtr -> Forwarder P -> Prog (Forwarder P)) : StrategyCode P :=
  {| afterReceiveInterest _ now _ i fib p fw := f now i fib p fw;
     beforeSatisfyInterest _ _ _ _ _ _ := Done;
     beforeExpirePendingInterest _ _ _ _ := Done;
     afterReceiveNack _ _ _ _ _ _ _ := Done |}.

Definition BestRouteStrategy : StrategyCode P := code_of (fun now _ fib => best_route now fib).
Definition MulticastStrategy : StrategyCode P := code_of (fun now _ fib => multicast now (fe_nextHops fib)).
(** [BroadcastStrategy] is the old name of the multicast strategy: the first
    use is logged. *)
Definition BroadcastStrategy : StrategyCode P := MulticastStrategy.
Definition ClientControlStrategy : StrategyCode P := code_of client_control.
End Strategies.

Section Facts.
Context `{Sha256} `{CityHash} `{CityHashSeed} `{StdSort} `{Rng} {P : Type} `{CsPolicy P}.
Implicit Types (fw : Forwarder P) (p : PitPtr) (e : PitEntry).

Lemma quiet_code f : quiet (code_of (P := P) f).
Proof. by intros s now p face d fw. Qed.

(** The packets sent to [face] for the Interest of the entry. *)
Definition forwards_to now p e face fw fw' : Prop :=
  exists r, r ∈ pe_inRecords e /\ fw_sent fw' = fw_sent fw ++ [(face, PktInterest (ir_interest r))] /\
    heap fw' = <[p := insertOrUpdateOutRecord now face (ir_interest r) e]> (heap fw) /\ fw_faces fw' = fw_faces fw.

Lemma can_forward_inv now p h e fw : heap fw !! p = Some e -> can_forward now p fw h = true ->
  pe_inRecords e <> [] /\ violatesScope (face_at fw) (nh_face h) e = false.
Proof.
  unfold can_forward. intros -> Hc. unfold canForwardTo in Hc. destruct (existsb _ (pe_outRecords e)); [done|].
  destruct (existsb _ (pe_inRecords e)) eqn:Hin; [|done]. cbn [negb] in Hc. apply negb_true_iff in Hc.
  split; [|done]. intros Hnil. by rewrite Hnil in Hin.
Qed.

(** Sending to a face that is there succeeds, when the scope allows it. *)
Lemma send_allowed now p face e fw : heap fw !! p = Some e -> pe_inRecords e <> [] ->
  violatesScope (face_at fw) face e = false -> f_id (face_at fw face) <> INVALID_FACEID ->
  exists fw', exec now (ActSendInterest p face false) fw = Ok fw' /\ forwards_to now p e face fw fw'.
Proof.
  intros He Hin Hv Hid. cbn [exec]. unfold onOutgoingInterest. rewrite (proj2 (get_entry_Ok p e fw) He). cbn [rbind].
  rewrite (proj2 (Z.eqb_neq _ _) Hid), Hv. destruct (pe_inRecords e) as [|r l] eqn:Hl; [done|]. cbv zeta.
  eexists. split; [reflexivity|]. exists (max_element (compare_pickInterest face) r l).
  split_and!; [rewrite Hl; apply max_element_in|done|done|done].
Qed.

Lemma send_eligible now p h e fw : heap fw !! p = Some e -> can_forward now p fw h = true ->
  f_id (face_at fw (nh_face h)) <> INVALID_FACEID ->
  exists fw', exec now (ActSendInterest p (nh_face h) false) fw = Ok fw' /\ forwards_to now p e (nh_face h) fw fw'.
Proof. intros He Hc Hid. destruct (can_forward_inv now p h e fw He Hc). by apply send_allowed. Qed.

Lemma reject_spec now p e fw : heap fw !! p = Some e -> hasUnexpiredOutRecords now e = false ->
  exists fw', exec now (ActReject p) fw = Ok fw' /\ fw_sent fw' = fw_sent fw /\ fw_faces fw' = fw_faces fw /\
    heap fw' = <[p := with_timers None (Some (now + milliseconds 100, false, -1)) e]> (heap fw).
Proof.
  intros He Hu. cbn [exec]. unfold onInterestReject, cancelUnsatisfyAndStragglerTimer, setStragglerTimer.
  rewrite !(proj2 (get_entry_Ok p e fw) He). cbn [rbind]. rewrite Hu. cbn [rbind].
  rewrite (proj2 (get_entry_Ok p _ _) (set_entry_heap _ _ _)). cbn [rbind].
  eexists. split; [reflexivity|]. split_and!; [done|done|].
  unfold heap at 1. cbn [set_entry with_tables fw_tables with_heap tb_heap]. by rewrite insert_insert_eq.
Qed.

Lemma find_sorted {A} (f : A -> bool) (cost : A -> Z) l h : Sorted (fun a b => cost a <= cost b) l ->
  List.find f l = Some h -> f h = true /\ forall x, x ∈ l -> f x = true -> cost h <= cost x.
Proof.
  intros Hs%Sorted_StronglySorted; [|intros ???; lia].
  induction l as [|y l IH]; cbn [List.find]; [done|]. apply StronglySorted_inv in Hs as [Hl Hy].
  destruct (f y) eqn:Hf.
  - intros [= <-]. split; [done|]. intros x [->|Hx]%elem_of_cons _; [lia|]. rewrite Forall_forall in Hy. by apply Hy.
  - intros Hfind. destruct (IH Hl Hfind) as [Hh Hmin]. split; [done|]. intros x [->|Hx]%elem_of_cons Hfx; [congruence|by apply Hmin].
Qed.

(** The best route strategy forwards a new Interest to one next hop: the
    cheapest of those it may be forwarded to (another face waits for the
    answer, the scope allows it); when there is none it rejects the Interest,
    whose PIT entry then goes after 100 milliseconds; and an Interest that is
    already forwarded is not forwarded again. *)
Theorem best_route_correct now i fib p e s face fw : fw_inv fw -> heap fw !! p = Some e -> wf_fib fib ->
  (forall h, h ∈ fe_nextHops fib -> f_id (face_at fw (nh_face h)) <> INVALID_FACEID) ->
  exists fw', run now (afterReceiveInterest BestRouteStrategy s now face i fib p fw) fw = Ok fw' /\
    (hasUnexpiredOutRecords now e = true -> fw' = fw) /\
    (hasUnexpiredOutRecords now e = false ->
       (exists h, h ∈ fe_nextHops fib /\ canForwardTo (face_at fw) now (nh_face h) e = true /\
          (forall x, x ∈ fe_nextHops fib -> canForwardTo (face_at fw) now (nh_face x) e = true -> nh_cost h <= nh_cost x) /\
          forwards_to now p e (nh_face h) fw fw') \/
       ((forall x, x ∈ fe_nextHops fib -> canForwardTo (face_at fw) now (nh_face x) e = false) /\
        fw_sent fw' = fw_sent fw /\
        heap fw' = <[p := with_timers None (Some (now + milliseconds 100, false, -1)) e]> (heap fw))).
Proof.
  intros Hi He [_ Hsort] Hid. cbn [BestRouteStrategy code_of afterReceiveInterest]. unfold best_route, has_unexpired. rewrite He.
  assert (Hcan : forall h, can_forward now p fw h = canForwardTo (face_at fw) now (nh_face h) e) by (intros h; unfold can_forward; by rewrite He).
  destruct (hasUnexpiredOutRecords now e) eqn:Hu; [by exists fw|].
  destruct (List.find (can_forward now p fw) (fe_nextHops fib)) as [h|] eqn:Hf.
  - destruct (find_sorted _ nh_cost _ h Hsort Hf) as [Hh Hmin].
    assert (Hin : h ∈ fe_nextHops fib) by (by apply find_Some_elem in Hf as [? _]).
    destruct (send_eligible now p h e fw He Hh (Hid h Hin)) as (fw'&Hex&Hfw).
    exists fw'. cbn [run]. rewrite Hex. cbn [rbind]. split_and!; [done|done|]. intros _. left. exists h.
    rewrite <- Hcan. split_and!; [done|done| |done]. intros x Hx Hcx. apply Hmin; [done|]. by rewrite Hcan.
  - destruct (reject_spec now p e fw He Hu) as (fw'&Hex&Hs&_&Hh). exists fw'. cbn [run]. rewrite Hex. cbn [rbind].
    split_and!; [done|done|]. intros _. right. split_and!; [|done|done]. intros x Hx. rewrite <- Hcan. by eapply find_None_elem.
Qed.

(** ** Multicast *)

Lemma existsb_upsert_ne {R} (face_of : R -> FacePtr) (q : R -> bool) f new face l :
  q new = false -> (forall r, face_of r = face -> q r = false /\ q (f r) = false) ->
  existsb q (upsert_record face_of f new face l) = existsb q l.
Proof.
  intros Hn Hq. unfold upsert_record. destruct (get_record face_of face l).
  - induction l as [|x l IH]; [done|]. cbn [update_record]. destruct (Z.eqb_spec (face_of x) face) as [Hx|]; cbn [existsb].
    + by destruct (Hq x Hx) as [-> ->].
    + by rewrite IH.
  - cbn [existsb]. by rewrite Hn.
Qed.

(** An out-record of another face does not matter. *)
Lemma canForwardTo_other faces now face other i e : face <> other ->
  canForwardTo faces now face (insertOrUpdateOutRecord now other i e) = canForwardTo faces now face e.
Proof.
  intros Hne. unfold canForwardTo, insertOrUpdateOutRecord, violatesScope, hasLocalInRecord, pe_name.
  cbn [with_outRecords pe_outRecords pe_inRecords pe_interest].
  assert (Hoth : (other =? face) = false) by (apply Z.eqb_neq; congruence).
  rewrite existsb_upsert_ne; [done| |].
  - unfold or_face, OutRecord_new. simpl. by rewrite Hoth.
  - intros r Hr. unfold or_face in *. cbn [OutRecord_update or_record FaceRecord_update fr_face]. by rewrite Hr, Hoth.
Qed.

Definition eligible (now : Z) e fw (l : list NextHop) : list NextHop :=
  List.filter (fun h => canForwardTo (face_at fw) now (nh_face h) e) l.

Lemma multicast_run now p l : forall e fw, heap fw !! p = Some e -> NoDup (map nh_face l) ->
  (forall h, h ∈ l -> f_id (face_at fw (nh_face h)) <> INVALID_FACEID) ->
  exists fw' sent, run now (multicast now l p fw) fw = Ok fw' /\ fw_sent fw' = fw_sent fw ++ sent /\
    map fst sent = map nh_face (eligible now e fw l) /\
    (forall x, x ∈ sent -> exists r, r ∈ pe_inRecords e /\ x.2 = PktInterest (ir_interest r)) /\
    (forall q, q <> p -> heap fw' !! q = heap fw !! q) /\
    (eligible now e fw l = [] -> hasUnexpiredOutRecords now e = true -> fw' = fw) /\
    (eligible now e fw l = [] -> hasUnexpiredOutRecords now e = false ->
       heap fw' = <[p := with_timers None (Some (now + milliseconds 100, false, -1)) e]> (heap fw)).
Proof.
  induction l as [|h l IH]; intros e fw He Hnd Hid; cbn [multicast eligible List.filter].
  - unfold has_unexpired. rewrite He. destruct (hasUnexpiredOutRecords now e) eqn:Hu; cbn [negb run].
    + exists fw, []. rewrite app_nil_r. split_and!; try done. by intros x ?%elem_of_nil.
    + destruct (reject_spec now p e fw He Hu) as (fw'&->&Hs&_&Hh). cbn [rbind].
      exists fw', []. rewrite app_nil_r. split_and!; try done.
      * by intros x ?%elem_of_nil.
      * intros q Hq. by rewrite Hh, lookup_insert_ne.
  - cbn [map] in Hnd. apply NoDup_cons in Hnd as [Hh Hnd].
    assert (Hid' : forall x, x ∈ l -> f_id (face_at fw (nh_face x)) <> INVALID_FACEID) by (intros x Hx; apply Hid; by right).
    assert (Hcan : can_forward now p fw h = canForwardTo (face_at fw) now (nh_face h) e) by (unfold can_forward; by rewrite He).
    rewrite <- Hcan. destruct (can_forward now p fw h) eqn:Hc; [|exact (IH e fw He Hnd Hid')].
    destruct (send_eligible now p h e fw He Hc (Hid h ltac:(left))) as (fw1&Hex&r&Hr&Hs1&Hh1&Hf1).
    cbn [run]. rewrite Hex. cbn [rbind]. set (e1 := insertOrUpdateOutRecord now (nh_face h) (ir_interest r) e) in *.
    assert (Hface : face_at fw1 = face_at fw) by (unfold face_at; by rewrite Hf1).
    assert (Hel : eligible now e1 fw1 l = eligible now e fw l).
    { unfold eligible. rewrite Hface. apply List.filter_ext_in. intros x Hx%list_elem_of_In. apply canForwardTo_other.
      intros Hxe. apply Hh. rewrite <- Hxe. by apply list_elem_of_fmap_2. }
    destruct (IH e1 fw1) as (fw2&sent&Hrun&Hs2&Hm&Hall&Hoth&_); [by rewrite Hh1, lookup_insert_eq|done|by rewrite Hface|].
    exists fw2, ((nh_face h, PktInterest (ir_interest r)) :: sent). split_and!; [done| | | | |done|done].
    + by rewrite Hs2, Hs1, <- app_assoc.
    + cbn [map fst]. rewrite Hm, Hel. done.
    + intros x [->|Hx]%elem_of_cons; [by exists r|apply (Hall x Hx)].
    + intros q Hq. rewrite Hoth by done. by rewrite Hh1, lookup_insert_ne.
Qed.

(** The multicast strategy forwards an Interest to every next hop it may be
    forwarded to, once each and in the order of the FIB entry, and touches no
    other PIT entry; when there is no such next hop it rejects the Interest
    unless it is still forwarded to some face. *)
Theorem multicast_correct now i fib p e s face fw : heap fw !! p = Some e -> wf_fib fib ->
  (forall h, h ∈ fe_nextHops fib -> f_id (face_at fw (nh_face h)) <> INVALID_FACEID) ->
  exists fw' sent, run now (afterReceiveInterest MulticastStrategy s now face i fib p fw) fw = Ok fw' /\
    fw_sent fw' = fw_sent fw ++ sent /\
    map fst sent = map nh_face (List.filter (fun h => canForwardTo (face_at fw) now (nh_face h) e) (fe_nextHops fib)) /\
    (forall x, x ∈ sent -> exists r, r ∈ pe_inRecords e /\ x.2 = PktInterest (ir_interest r)) /\
    (forall q, q <> p -> heap fw' !! q = heap fw !! q) /\
    (sent = [] -> hasUnexpiredOutRecords now e = true -> fw' = fw) /\
    (sent = [] -> hasUnexpiredOutRecords now e = false ->
       heap fw' = <[p := with_timers None (Some (now + milliseconds 100, false, -1)) e]> (heap fw)).
Proof.
  intros He [Hnd _] Hid. destruct (multicast_run now p (fe_nextHops fib) e fw He Hnd Hid) as (fw'&sent&Hr&Hs&Hm&Hall&Ho&Hk&Hj).
  assert (Hnil : sent = [] -> eligible now e fw (fe_nextHops fib) = []).
  { intros ->. by destruct (eligible now e fw (fe_nextHops fib)). }
  exists fw', sent. split_and!; auto.
Qed.
End Facts.

Module StrategyCodeSamples.
#[local] Existing Instance sample_sha256.
#[local] Existing Instance Samples.SampleHash.
#[local] Existing Instance DnlSamples.SeedHash.
#[local] Existing Instance InsertionSort.Sort.
#[local] Existing Instance ForwarderSamples.SampleRng.
Import PitSamples PitTableSamples ForwarderSamples.

(** Face 1 and face 2 are next hops; the Interest came from face 1, so that
    only face 2 is eligible. *)
Definition two_hops : FibEntry := MkFibEntry [] [MkNextHop 1 10; MkNextHop 2 30].
Lemma wf_two_hops : wf_fib two_hops.
Proof. split; [by_decide|]. repeat constructor. simpl. lia. Qed.

Lemma hop_two : MkNextHop 2 30 ∈ fe_nextHops two_hops.
Proof. unfold two_hops, fe_nextHops. right. left. Qed.

(** The Interest was received, and no strategy has acted on it yet. *)
Definition idle : StrategyCode PriorityFifoPolicy := code_of (fun _ _ _ _ _ => Done).
Definition pending : FW := step_to (onIncomingInterest idle 0 1 i1 faced) faced.
Definition entry_pending : PitEntry := insertOrUpdateInRecord 0 1 i1 (PitEntry_new i1).

Lemma pending_eq : onIncomingInterest idle 0 1 i1 faced = Ok pending.
Proof. by vm_compute. Qed.
Lemma inv_pending : fw_inv pending.
Proof.
  apply reachable_inv. eapply ReachStep; [apply reach_faced|eapply StepInterest; [| |apply pending_eq]]; [by_decide|by vm_compute].
Qed.
Lemma heap_pending : heap pending !! (1%positive : PitPtr) = Some (with_timers (Some (milliseconds 4000)) None entry_pending).
Proof. by vm_compute. Qed.
Lemma two_hops_up h : h ∈ fe_nextHops two_hops -> f_id (face_at pending (nh_face h)) <> INVALID_FACEID.
Proof.
  assert (Hall : forallb (fun h => negb (f_id (face_at pending (nh_face h)) =? INVALID_FACEID)) (fe_nextHops two_hops) = true)
    by (vm_compute; reflexivity).
  intros Hh. rewrite forallb_forall in Hall. specialize (Hall h (proj1 (list_elem_of_In _ _) Hh)).
  rewrite negb_true_iff, Z.eqb_neq in Hall. exact Hall.
Qed.

Lemma best_route_correct_witness :
  exists fw', run 0 (afterReceiveInterest BestRouteStrategy [] 0 1 i1 two_hops 1%positive pending) pending = Ok fw' /\
    fw_sent fw' = [(2, PktInterest i1)].
Proof.
  destruct (best_route_correct 0 i1 two_hops 1%positive _ [] 1 pending inv_pending heap_pending wf_two_hops two_hops_up)
    as (fw'&Hok&_&Hcase).
  exists fw'. split; [exact Hok|].
  destruct (Hcase ltac:(by vm_compute)) as [(h&Hh&Hc&_&r&Hr&Hs&_)|(Hno&_)].
  2: { specialize (Hno _ hop_two). vm_compute in Hno. discriminate Hno. }
  rewrite Hs. apply elem_of_cons in Hh as [->|Hh]; [vm_compute in Hc; discriminate Hc|].
  apply list_elem_of_singleton in Hh as ->. apply list_elem_of_singleton in Hr as ->. vm_compute. reflexivity.
Defined.

Lemma multicast_correct_witness :
  exists fw' sent, run 0 (afterReceiveInterest MulticastStrategy [] 0 1 i1 two_hops 1%positive pending) pending = Ok fw' /\
    fw_sent fw' = fw_sent pending ++ sent /\ map fst sent = [2 : FacePtr].
Proof.
  destruct (multicast_correct 0 i1 two_hops 1%positive _ [] 1 pending heap_pending wf_two_hops two_hops_up)
    as (fw'&sent&Hok&Hs&Hm&_).
  exists fw', sent. split; [exact Hok|split; [exact Hs|]]. rewrite Hm. by vm_compute.
Defined.
End StrategyCodeSamples.
