(* ===== verification/BestRoute2.v ===== *)
(** * The second best route strategy: [NFD/daemon/fw/best-route-strategy2.cpp],
    [retx-suppression.cpp], [retx-suppression-exponential.cpp],
    [retx-suppression-fixed.cpp], [strategy.cpp]

    An Interest that is not yet forwarded goes to the cheapest next hop; a
    retransmission is suppressed while the last transmission is recent, and
    otherwise goes to a next hop that was not tried, or to the one tried first.
    The interval of suppression is kept on the PIT entry and grows with every
    retransmission that is let through.  Nacks go downstream when no upstream
    is left.

    Time points are nanoseconds; the interval is kept in microseconds.  The
    multiplier is the [float] 2.0; the product of an interval of at most 250000
    microseconds with it is exact, so that it is an integer here. *)

From S2P Require Import Prelude StdMap Tlv Block Encoder NameComponent Name Exclude Packet Link CsEntry.
From S2P Require Import CsPolicy Cs NameTree FibEntry PitEntry DeadNonceList Tables Pit Fib StrategyChoice.
From S2P Require Import Forwarder ForwarderInv ForwarderProps Strategies.

(** [RetxSuppression::Result] *)
Inductive RetxResult := RETX_NEW | RETX_FORWARD | RETX_SUPPRESS.

Definition compare_lastRenewed (a b : OutRecord) : bool := fr_lastRenewed (or_record a) <? fr_lastRenewed (or_record b).

(** [RetxSuppression::getLastOutgoing] *)
Definition getLastOutgoing (e : PitEntry) : result Z :=
  match pe_outRecords e with
  | [] => Err AssertFailed
  | r :: l => Ok (fr_lastRenewed (or_record (max_element compare_lastRenewed r l)))
  end.

(** ** Exponential suppression *)

Definition microseconds (k : Z) : Z := k * 1000.

Record RetxSuppressionExponential := MkRetxSuppressionExponential {
  m_initialInterval : Z;
  m_multiplier : Z;
  m_maxInterval : Z
}.

(** [PitInfo::getTypeId] *)
Definition PitInfo_typeId : Z := 1020.

(** The interval of the [PitInfo] of the entry, created with the initial one *)
Definition retx_interval (s : RetxSuppressionExponential) (e : PitEntry) : Z :=
  default (m_initialInterval s) (getStrategyInfo PitInfo_typeId e).

(** [RetxSuppressionExponential::decide]: the decision, and the interval left
    in the [PitInfo] unless it is not reached *)
Definition decide_exponential (s : RetxSuppressionExponential) (now : Z) (e : PitEntry) : result (RetxResult * option Z) :=
  if negb (hasUnexpiredOutRecords now e) then Ok (RETX_NEW, None)
  else
    let! lastOutgoing := getLastOutgoing e in
    let sinceLastOutgoing := to_s64 (now - lastOutgoing) in
    let interval := retx_interval s e in
    if sinceLastOutgoing <? microseconds interval then Ok (RETX_SUPPRESS, Some interval)
    else Ok (RETX_FORWARD, Some (Z.min (m_maxInterval s) (interval * m_multiplier s))).

(** [RetxSuppressionFixed::decide], [minRetxInterval] in milliseconds *)
Definition decide_fixed (minRetxInterval now : Z) (e : PitEntry) : result RetxResult :=
  if negb (hasUnexpiredOutRecords now e) then Ok RETX_NEW
  else
    let! lastOutgoing := getLastOutgoing e in
    let sinceLastOutgoing := to_s64 (now - lastOutgoing) in
    Ok (if sinceLastOutgoing <? milliseconds minRetxInterval then RETX_SUPPRESS else RETX_FORWARD).

(** ** The strategy *)

(** [RETX_SUPPRESSION_INITIAL] and [RETX_SUPPRESSION_MAX], 10 and 250
    milliseconds *)
Definition BestRoute2_retx : RetxSuppressionExponential := MkRetxSuppressionExponential 10000 2 250000.

Section BestRoute2.
Context {P : Type}.
Implicit Types (fw : Forwarder P) (p : PitPtr) (e : PitEntry).

(** [wantUnused] comes with the current time. *)
Definition predicate_NextHop_eligible fw e (nexthop : NextHop) (currentDownstream : Z) (wantUnused : option Z) : bool :=
  let upstream := nh_face nexthop in
  if f_id (face_at fw upstream) =? currentDownstream then false
  else if violatesScope (face_at fw) upstream e then false
  else
    match wantUnused with
    | None => true
    | Some now =>
        match getOutRecord upstream e with
        | Some outRecord => negb (now <? fr_expiry (or_record outRecord))
        | None => true
        end
    end.

Fixpoint earliest_loop fw e (currentDownstream : Z) (found : option NextHop) (earliestRenewed : Z) (nexthops : list NextHop)
  : result (option NextHop) :=
  match nexthops with
  | [] => Ok found
  | it :: l =>
      if negb (predicate_NextHop_eligible fw e it currentDownstream None)
      then earliest_loop fw e currentDownstream found earliestRenewed l
      else
        match getOutRecord (nh_face it) e with
        | None => Err AssertFailed
        | Some outRecord =>
            let renewed := fr_lastRenewed (or_record outRecord) in
            if renewed <? earliestRenewed then earliest_loop fw e currentDownstream (Some it) renewed l
            else earliest_loop fw e currentDownstream found earliestRenewed l
        end
  end.

Definition findEligibleNextHopWithEarliestOutRecord fw e (nexthops : list NextHop) (currentDownstream : Z) : result (option NextHop) :=
  earliest_loop fw e currentDownstream None TIME_MAX nexthops.

Definition noRoute : NackHeader := MkNackHeader NACK_NO_ROUTE.

(** The suppression decision writes the interval to the PIT entry. *)
Definition set_interval p (info : option Z) (k : Forwarder P -> Prog (Forwarder P)) fw : Prog (Forwarder P) :=
  match info with
  | None => k fw
  | Some v => Act (ActSetInfo p PitInfo_typeId v) k
  end.

(** A retransmission that is not suppressed *)
Definition retransmit (now : Z) (inFace : FacePtr) (nexthops : list NextHop) p fw : Prog (Forwarder P) :=
  match heap fw !! p with
  | None => Fail OutOfRange
  | Some e =>
      let downstream := f_id (face_at fw inFace) in
      match List.find (fun h => predicate_NextHop_eligible fw e h downstream (Some now)) nexthops with
      | Some it => Act (ActSendInterest p (nh_face it) false) (fun _ => Done)
      | None =>
          match findEligibleNextHopWithEarliestOutRecord fw e nexthops downstream with
          | Err x => Fail x
          | Ok None => Done
          | Ok (Some it) => Act (ActSendInterest p (nh_face it) false) (fun _ => Done)
          end
      end
  end.

(** [BestRouteStrategy2::afterReceiveInterest] *)
Definition best_route2 (now : Z) (inFace : FacePtr) (fibEntry : FibEntry) p fw : Prog (Forwarder P) :=
  let nexthops := fe_nextHops fibEntry in
  match heap fw !! p with
  | None => Fail OutOfRange
  | Some e =>
      match decide_exponential BestRoute2_retx now e with
      | Err x => Fail x
      | Ok (RETX_NEW, info) =>
          set_interval p info (fun fw =>
            match List.find (fun h => predicate_NextHop_eligible fw e h (f_id (face_at fw inFace)) None) nexthops with
            | None => Act (ActSendNack p inFace noRoute) (fun _ => Act (ActReject p) (fun _ => Done))
            | Some it => Act (ActSendInterest p (nh_face it) false) (fun _ => Done)
            end) fw
      | Ok (RETX_SUPPRESS, info) => set_interval p info (fun _ => Done) fw
      | Ok (RETX_FORWARD, info) => set_interval p info (retransmit now inFace nexthops p) fw
      end
  end.

(** ** Nacks *)

(** The values of [lp::NackReason] *)
Definition reason_code (r : NackReason) : Z :=
  match r with NACK_NONE => 0 | NACK_CONGESTION => 50 | NACK_DUPLICATE => 100 | NACK_NO_ROUTE => 150 end.

Definition compareLessSevere (x y : NackReason) : NackReason :=
  if bool_decide (x = NACK_NONE) then y
  else if bool_decide (y = NACK_NONE) then x
  else if reason_code y <? reason_code x then y else x.

Record NackScan := MkNackScan {
  nOutRecordsNotNacked : Z;
  lastFaceNotNacked : option FacePtr;
  leastSevereReason : NackReason
}.

Definition scan_record (a : NackScan) (outR : OutRecord) : NackScan :=
  match or_incomingNack outR with
  | None => MkNackScan (nOutRecordsNotNacked a + 1) (Some (or_face outR)) (leastSevereReason a)
  | Some inNack => MkNackScan (nOutRecordsNotNacked a) (lastFaceNotNacked a) (compareLessSevere (leastSevereReason a) (nk_reason inNack))
  end.

Definition scan_records (l : list OutRecord) : NackScan := fold_left scan_record l (MkNackScan 0 None NACK_NONE).
End BestRoute2.

(** The order in which a [std::unordered_set<const Face*>] is visited, given
    the order in which its elements were inserted, is not specified. *)
Class FaceSetOrder := {
  set_order : list FacePtr -> list FacePtr;
  set_order_perm l : set_order l ≡ₚ l
}.

Section BestRoute2Nack.
Context {P : Type} `{FaceSetOrder}.
Implicit Types (fw : Forwarder P) (p : PitPtr) (e : PitEntry).

Fixpoint send_each p (header : NackHeader) (l : list FacePtr) : Prog (Forwarder P) :=
  match l with
  | [] => Done
  | downstream :: l' => Act (ActSendNack p downstream header) (fun _ => send_each p header l')
  end.

(** [Strategy::sendNacks] *)
Definition sendNacks p e (header : NackHeader) (exceptFaces : list FacePtr) : Prog (Forwarder P) :=
  let downstreams := filter (fun f => f ∉ exceptFaces) (remove_dups (map ir_face (pe_inRecords e))) in
  send_each p header (set_order downstreams).

(** [BestRouteStrategy2::afterReceiveNack] *)
Definition best_route2_nack p fw : Prog (Forwarder P) :=
  match heap fw !! p with
  | None => Fail OutOfRange
  | Some e =>
      let scan := scan_records (pe_outRecords e) in
      let outNack := MkNackHeader (leastSevereReason scan) in
      let rest :=
        if 0 <? nOutRecordsNotNacked scan then Done
        else sendNacks p e outNack [] in
      if nOutRecordsNotNacked scan =? 1 then
        match lastFaceNotNacked scan with
        | None => Fail AssertFailed
        | Some face =>
            match getInRecord face e with
            | Some _ => Act (ActSendNack p face outNack) (fun _ => Done)
            | None => rest
            end
        end
      else rest
  end.

Definition BestRouteStrategy2 : StrategyCode P :=
  {| afterReceiveInterest _ now face _ fib p fw := best_route2 now face fib p fw;
     beforeSatisfyInterest _ _ _ _ _ _ := Done;
     beforeExpirePendingInterest _ _ _ _ := Done;
     afterReceiveNack _ _ _ _ _ p fw := best_route2_nack p fw |}.
End BestRoute2Nack.

(** ** The interval of suppression *)

Section Suppression.
Implicit Types (s : RetxSuppressionExponential) (e : PitEntry).

(** What the constructor asserts *)
Record wf_retx s : Prop := {
  retx_initial : 0 < m_initialInterval s;
  retx_multiplier : 1 <= m_multiplier s;
  retx_max : m_initialInterval s <= m_maxInterval s
}.

(** The interval after [k] retransmissions, as the header documents it *)
Definition backoff s (k : nat) : Z := Z.min (m_maxInterval s) (m_initialInterval s * m_multiplier s ^ Z.of_nat k).

Lemma backoff_step s k : wf_retx s -> Z.min (m_maxInterval s) (backoff s k * m_multiplier s) = backoff s (S k).
Proof.
  intros [Hi Hm Hx]. unfold backoff. rewrite Nat2Z.inj_succ, Z.pow_succ_r by lia.
  assert (0 < m_multiplier s ^ Z.of_nat k) by (apply Z.pow_pos_nonneg; lia).
  set (q := m_initialInterval s * m_multiplier s ^ Z.of_nat k).
  replace (m_initialInterval s * (m_multiplier s * m_multiplier s ^ Z.of_nat k)) with (q * m_multiplier s) by (unfold q; lia).
  assert (0 < q) by (apply Z.mul_pos_pos; lia). destruct (Z.min_spec (m_maxInterval s) q) as [[? ->]|[? ->]]; [|done]. nia.
Qed.

Lemma backoff_bounds s k : wf_retx s -> m_initialInterval s <= backoff s k <= m_maxInterval s.
Proof.
  intros [Hi Hm Hx]. unfold backoff. assert (1 <= m_multiplier s ^ Z.of_nat k) by (pose proof (Z.pow_pos_nonneg (m_multiplier s) (Z.of_nat k)); lia). nia.
Qed.

(** The last transmission was less than [t] microseconds ago. *)
Definition sent_within (now t : Z) e : Prop := exists r, r ∈ pe_outRecords e /\ now - fr_lastRenewed (or_record r) < microseconds t.

(** The records were renewed in the past. *)
Definition past now e : Prop := forall r, r ∈ pe_outRecords e -> 0 <= now - fr_lastRenewed (or_record r) < 2 ^ 63.

Lemma lastOutgoing_spec e : pe_outRecords e <> [] -> exists r, r ∈ pe_outRecords e /\
  getLastOutgoing e = Ok (fr_lastRenewed (or_record r)) /\
  forall x, x ∈ pe_outRecords e -> fr_lastRenewed (or_record x) <= fr_lastRenewed (or_record r).
Proof.
  unfold getLastOutgoing. destruct (pe_outRecords e) as [|r l]; [done|]. intros _.
  exists (max_element compare_lastRenewed r l). split_and!; [apply max_element_in|done|]. intros x Hx.
  assert (Hge : compare_lastRenewed (max_element compare_lastRenewed r l) x = false).
  { apply max_element_ge; unfold compare_lastRenewed; [|intros a b ?..|intros a|done]; intros; rewrite ?Z.ltb_lt, ?Z.ltb_ge in *; lia. }
  apply Z.ltb_ge in Hge. exact Hge.
Qed.

Lemma unexpired_some now e : hasUnexpiredOutRecords now e = true -> pe_outRecords e <> [].
Proof. unfold hasUnexpiredOutRecords. by destruct (pe_outRecords e). Qed.

(** Comparing with the last transmission is comparing with every one. *)
Lemma lastOutgoing_within now t e : past now e -> hasUnexpiredOutRecords now e = true -> exists last,
  getLastOutgoing e = Ok last /\ (to_s64 (now - last) < microseconds t <-> sent_within now t e).
Proof.
  intros Hp Hu. destruct (lastOutgoing_spec e (unexpired_some now e Hu)) as (r&Hr&Hl&Hall).
  eexists. split; [exact Hl|]. pose proof (Hp r Hr). rewrite to_s64_id by lia. split; [by exists r|].
  intros (x&Hx&Hw). specialize (Hall x Hx). lia.
Qed.

Lemma decide_exponential_spec s k now e : wf_retx s -> past now e -> retx_interval s e = backoff s k ->
  (hasUnexpiredOutRecords now e = false /\ decide_exponential s now e = Ok (RETX_NEW, None)) \/
  (hasUnexpiredOutRecords now e = true /\ sent_within now (backoff s k) e /\
     decide_exponential s now e = Ok (RETX_SUPPRESS, Some (backoff s k))) \/
  (hasUnexpiredOutRecords now e = true /\ (~ sent_within now (backoff s k) e) /\
     decide_exponential s now e = Ok (RETX_FORWARD, Some (backoff s (S k)))).
Proof.
  intros Hs Hp Hk. unfold decide_exponential. destruct (hasUnexpiredOutRecords now e) eqn:Hu; [right|by left].
  destruct (lastOutgoing_within now (backoff s k) e Hp Hu) as (last&->&Hw). cbn [negb rbind]. rewrite Hk, backoff_step by done.
  destruct (Z.ltb_spec (to_s64 (now - last)) (microseconds (backoff s k))) as [Hlt|Hge]; [left|right]; split_and!; [done|tauto|done|done| |done].
  rewrite <- Hw. lia.
Qed.

(** [RetxSuppressionFixed] *)
Lemma decide_fixed_spec t now e : past now e ->
  decide_fixed t now e = Ok (if hasUnexpiredOutRecords now e
    then if existsb (fun r => now - fr_lastRenewed (or_record r) <? milliseconds t) (pe_outRecords e) then RETX_SUPPRESS else RETX_FORWARD
    else RETX_NEW).
Proof.
  intros Hp. unfold decide_fixed. destruct (hasUnexpiredOutRecords now e) eqn:Hu; [|done].
  destruct (lastOutgoing_within now (t * 1000) e Hp Hu) as (last&->&Hw). cbn [negb rbind]. f_equal.
  replace (milliseconds t) with (microseconds (t * 1000)) by (unfold milliseconds, microseconds; lia).
  set (b := existsb _ _). assert (Hb : b = true <-> sent_within now (t * 1000) e).
  { unfold b. rewrite existsb_elem. unfold sent_within. by setoid_rewrite Z.ltb_lt. }
  destruct (Z.ltb_spec (to_s64 (now - last)) (microseconds (t * 1000))); destruct b; try done; [|]; exfalso.
  - by assert (false = true) by tauto.
  - assert (to_s64 (now - last) < microseconds (t * 1000)) by tauto. lia.
Qed.
End Suppression.

Section BestRoute2Facts.
Context `{Sha256} `{CityHash} `{CityHashSeed} `{StdSort} `{Rng} {P : Type} `{CsPolicy P} `{FaceSetOrder}.
Implicit Types (fw : Forwarder P) (p : PitPtr) (e : PitEntry) (h : NextHop).

(** ** Sending Nacks *)

Definition nackable fw (face : FacePtr) : bool :=
  negb (f_id (face_at fw face) =? INVALID_FACEID) && negb (bool_decide (f_linkType (face_at fw face) = LINK_TYPE_MULTI_ACCESS)).

(** The Nacks that leave, and the entry, when one is to go to [face]. *)
Definition nack_to fw e (hdr : NackHeader) (face : FacePtr) : list (FacePtr * Packet) :=
  if nackable fw face then from_option (fun r => [(face, PktNack (MkNack (ir_interest r) hdr))]) [] (getInRecord face e) else [].
Definition nacked fw e (face : FacePtr) : PitEntry := if nackable fw face then deleteInRecord face e else e.

Lemma delete_absent face e : getInRecord face e = None -> deleteInRecord face e = e.
Proof.
  unfold getInRecord, deleteInRecord. intros Hn%get_record_None. destruct e as [i ins outs u st info]. cbn [pe_inRecords] in *.
  unfold with_inRecords. cbn. f_equal. clear -Hn. induction ins as [|r l IH]; [done|]. cbn [map] in Hn.
  apply not_elem_of_cons in Hn as [Hr Hl]. cbn [delete_record]. rewrite (proj2 (Z.eqb_neq _ _)) by congruence. by rewrite IH.
Qed.

Lemma send_nack now p face hdr e fw : heap fw !! p = Some e -> exists fw',
  exec now (ActSendNack p face hdr) fw = Ok fw' /\ fw_sent fw' = fw_sent fw ++ nack_to fw e hdr face /\
  heap fw' = <[p := nacked fw e face]> (heap fw) /\ fw_faces fw' = fw_faces fw.
Proof.
  intros He. cbn [exec]. unfold onOutgoingNack, nack_to, nacked, nackable. rewrite (proj2 (get_entry_Ok p e fw) He). cbn [rbind].
  assert (Hsame : exists fw', Ok fw = Ok fw' /\ fw_sent fw' = fw_sent fw ++ [] /\ heap fw' = <[p := e]> (heap fw) /\ fw_faces fw' = fw_faces fw)
    by (exists fw; rewrite app_nil_r, insert_id by done; done).
  destruct (f_id (face_at fw face) =? INVALID_FACEID); [done|]. cbn [negb andb].
  destruct (getInRecord face e) as [r|] eqn:Hr; case_bool_decide; cbn [negb from_option]; [done| |done|by rewrite delete_absent].
  eexists. split_and!; reflexivity.
Qed.

(** The Nacks of [sendNacks] *)
Definition nacks_to fw e (hdr : NackHeader) (l : list FacePtr) : list (FacePtr * Packet) := concat (map (nack_to fw e hdr) l).

Lemma nack_to_other fw e hdr face g : wf_pit e -> face <> g -> nack_to fw (nacked fw e face) hdr g = nack_to fw e hdr g.
Proof.
  intros [Hone _] Hne. unfold nack_to, nacked. destruct (nackable fw g); [|done]. destruct (nackable fw face); [|done].
  unfold getInRecord, deleteInRecord. cbn [with_inRecords pe_inRecords]. rewrite get_delete by done. by rewrite bool_decide_false by congruence.
Qed.

Lemma wf_nacked fw e face : wf_pit e -> wf_pit (nacked fw e face).
Proof. unfold nacked. destruct (nackable fw face); [apply wf_deleteIn|done]. Qed.

Lemma nackable_faces fw fw' : fw_faces fw' = fw_faces fw -> nackable fw' = nackable fw.
Proof. intros Hf. unfold nackable, face_at. by rewrite Hf. Qed.

Lemma send_each_run now p hdr l : forall e fw, heap fw !! p = Some e -> wf_pit e -> NoDup l -> exists fw',
  run now (send_each p hdr l) fw = Ok fw' /\ fw_sent fw' = fw_sent fw ++ nacks_to fw e hdr l /\
  heap fw' = <[p := fold_left (nacked fw) l e]> (heap fw) /\ fw_faces fw' = fw_faces fw.
Proof.
  induction l as [|g l IH]; intros e fw He Hw Hnd; cbn [send_each run fold_left].
  - exists fw. unfold nacks_to. cbn. by rewrite app_nil_r, insert_id.
  - apply NoDup_cons in Hnd as [Hg Hnd]. destruct (send_nack now p g hdr e fw He) as (fw1&->&Hs1&Hh1&Hf1). cbn [rbind].
    pose proof (nackable_faces fw fw1 Hf1) as Hna.
    assert (Hfun : nacked fw1 = nacked fw) by (unfold nacked; by rewrite Hna).
    destruct (IH (nacked fw e g) fw1) as (fw2&->&Hs2&Hh2&Hf2); [by rewrite Hh1, lookup_insert_eq|by apply wf_nacked|done|].
    exists fw2. split_and!; [done| |by rewrite Hh2, Hh1, insert_insert_eq, Hfun|congruence].
    rewrite Hs2, Hs1, <- app_assoc. unfold nacks_to. cbn [map concat]. do 3 f_equal. apply map_ext_in. intros x Hx%list_elem_of_In.
    rewrite <- (nack_to_other fw e hdr g x Hw) by congruence. unfold nack_to. by rewrite Hna.
Qed.

Lemma filter_everything {A} (Q : A -> Prop) `{forall x, Decision (Q x)} (l : list A) : (forall x, x ∈ l -> Q x) -> filter Q l = l.
Proof.
  induction l as [|x l IH]; intros Hl; [done|]. rewrite filter_cons, decide_True by (apply Hl; left). rewrite IH; [done|].
  intros y Hy. apply Hl. by right.
Qed.

(** The in-records left are those of the faces a Nack could not be sent to. *)
Lemma fold_nacked fw l : forall e, wf_pit e -> 
  fold_left (nacked fw) l e = with_inRecords (filter (fun r => ~ (ir_face r ∈ l /\ nackable fw (ir_face r) = true)) (pe_inRecords e)) e.
Proof.
  induction l as [|g l IH]; intros e Hw; cbn [fold_left].
  - rewrite filter_everything; [by destruct e|]. by intros x _ [?%elem_of_nil _].
  - rewrite IH by (by apply wf_nacked). unfold nacked. destruct (nackable fw g) eqn:Hg.
    + destruct Hw as [Hone _]. destruct e. unfold deleteInRecord, with_inRecords. cbn. f_equal. rewrite delete_record_filter by done.
      rewrite list_filter_filter. apply list_filter_iff. intros r. rewrite elem_of_cons.
      split; [intros [Hn Hr] [[Heq|Hin] Hna]; tauto|]. intros Hn. split; [intros [??]; tauto|]. intros Heq. apply Hn. rewrite Heq. tauto.
    + f_equal. apply list_filter_iff. intros r. rewrite elem_of_cons. split; [|tauto]. intros Hn [[Heq|?] Hna]; [congruence|tauto].
Qed.

(** The out-records that no Nack has answered, and the reasons of those that
    have one *)
Definition not_nacked e : list OutRecord := filter (fun r => or_incomingNack r = None) (pe_outRecords e).
Definition nack_reasons (l : list OutRecord) : list NackReason := omap (fun r => nk_reason <$> or_incomingNack r) l.

Lemma scan_fold l : forall a, let s := fold_left scan_record l a in let un := filter (fun r => or_incomingNack r = None) l in
  nOutRecordsNotNacked s = nOutRecordsNotNacked a + len un /\
  lastFaceNotNacked s = from_option (fun r => Some (or_face r)) (lastFaceNotNacked a) (last un) /\
  leastSevereReason s = fold_left compareLessSevere (nack_reasons l) (leastSevereReason a).
Proof.
  induction l as [|r l IH]; intros a; cbn [fold_left]; cbv zeta; [unfold len; cbn; split_and!; [lia|done|done]|].
  destruct (IH (scan_record a r)) as (Hn&Hl&Hr). cbv zeta in *. rewrite filter_cons. rewrite Hn, Hl, Hr. clear IH Hn Hl Hr.
  unfold scan_record, nack_reasons. cbn [omap list_omap]. unfold len. destruct (or_incomingNack r) as [x|].
  - rewrite decide_False by done. done.
  - rewrite decide_True by done. cbn [nOutRecordsNotNacked lastFaceNotNacked leastSevereReason length].
    split_and!; [lia| |done]. rewrite last_cons. by destruct (last _).
Qed.

(** The least severe of some reasons; none at all is the most severe. *)
Definition least_severe (l : list NackReason) (x : NackReason) : Prop :=
  (x = NACK_NONE /\ forall y, y ∈ l -> y = NACK_NONE) \/
  (x <> NACK_NONE /\ x ∈ l /\ forall y, y ∈ l -> y <> NACK_NONE -> reason_code x <= reason_code y).

Lemma compareLessSevere_spec x y : least_severe [x; y] (compareLessSevere x y).
Proof.
  unfold compareLessSevere, least_severe. setoid_rewrite elem_of_cons. setoid_rewrite list_elem_of_singleton.
  case_bool_decide as Hx; [|case_bool_decide as Hy].
  - destruct (decide (y = NACK_NONE)) as [->|Hy]; [left; split; [done|naive_solver]|right; split_and!; [done|by right|]].
    intros z [->| ->] ?; [done|lia].
  - right. split_and!; [done|by left|]. intros z [->| ->] ?; [lia|done].
  - right. destruct (Z.ltb_spec (reason_code y) (reason_code x)); split_and!; try done; try tauto; intros z [->| ->] _; lia.
Qed.

Lemma fold_least_severe l : forall a, least_severe (a :: l) (fold_left compareLessSevere l a).
Proof.
  induction l as [|y l IH]; intros a; cbn [fold_left].
  - pose proof (compareLessSevere_spec a NACK_NONE) as Hs. unfold compareLessSevere in Hs. rewrite (bool_decide_true (NACK_NONE = NACK_NONE)) in Hs by done.
    unfold least_severe in *. setoid_rewrite elem_of_cons in Hs. setoid_rewrite list_elem_of_singleton in Hs. setoid_rewrite list_elem_of_singleton.
    destruct (decide (a = NACK_NONE)); [left|right]; naive_solver lia.
  - specialize (IH (compareLessSevere a y)). pose proof (compareLessSevere_spec a y) as Hs.
    unfold least_severe in *. setoid_rewrite elem_of_cons in Hs. setoid_rewrite list_elem_of_singleton in Hs.
    setoid_rewrite elem_of_cons in IH. setoid_rewrite elem_of_cons. setoid_rewrite elem_of_cons.
    set (f := fold_left _ _ _) in *. set (c := compareLessSevere a y) in *. clearbody f c.
    destruct IH as [[-> Hall]|(Hf&Hin&Hmin)].
    + left. split; [done|]. assert (c = NACK_NONE) by (apply Hall; by left). destruct Hs as [[_ Hs]|[Hs _]]; [|done].
      intros z [->|[->|Hz]]; [apply Hs; by left|apply Hs; by right|apply Hall; by right].
    + right. split_and!; [done| |].
      * destruct Hin as [->|Hin]; [|tauto]. destruct Hs as [[? _]|(_&Hs&_)]; [done|tauto].
      * assert (Hc : forall z, z = a \/ z = y -> z <> NACK_NONE -> reason_code f <= reason_code z).
        { intros z Hz Hzn. destruct Hs as [[Hc Hs]|(Hc&_&Hs)]; [by rewrite (Hs z Hz) in Hzn|].
          specialize (Hs z Hz Hzn). specialize (Hmin c (or_introl eq_refl) Hc). lia. }
        intros z [->|[->|Hz]] Hzn; [apply Hc; tauto|apply Hc; tauto|apply Hmin; tauto].
Qed.

Lemma scan_least_severe l : least_severe (nack_reasons l) (leastSevereReason (scan_records l)).
Proof.
  destruct (scan_fold l (MkNackScan 0 None NACK_NONE)) as (_&_&Hr). fold (scan_records l) in Hr. rewrite Hr. cbn [leastSevereReason].
  pose proof (fold_least_severe (nack_reasons l) NACK_NONE) as Hs. unfold least_severe in *. setoid_rewrite elem_of_cons in Hs.
  set (x := fold_left _ _ _) in *. clearbody x. destruct Hs as [[-> Hs]|(Hx&Hin&Hs)]; [left; split; [done|]; intros y Hy; apply Hs; tauto|right].
  split_and!; [done|destruct Hin; [congruence|done]|]. intros y Hy. apply Hs. tauto.
Qed.

(** The Nack for every in-record whose face can take one *)
Lemma nacks_all fw e hdr l : one_per_face ir_face (pe_inRecords e) -> l ≡ₚ map ir_face (pe_inRecords e) ->
  nacks_to fw e hdr l ≡ₚ map (fun r => (ir_face r, PktNack (MkNack (ir_interest r) hdr)))
                           (filter (fun r => nackable fw (ir_face r) = true) (pe_inRecords e)).
Proof.
  intros Hone Hl. unfold nacks_to. rewrite Hl, map_map.
  assert (Heq : forall r, r ∈ pe_inRecords e -> nack_to fw e hdr (ir_face r) =
    if nackable fw (ir_face r) then [(ir_face r, PktNack (MkNack (ir_interest r) hdr))] else []).
  { intros r Hr. unfold nack_to, getInRecord. by rewrite (proj2 (get_record_iff ir_face (ir_face r) _ r Hone) (conj Hr eq_refl)). }
  clear Hl Hone. induction (pe_inRecords e) as [|r ins IH]; [done|]. cbn [map concat]. rewrite Heq by left.
  rewrite IH by (intros x Hx; apply Heq; by right). rewrite filter_cons. by destruct (nackable fw (ir_face r)).
Qed.

Lemma sendNacks_run now p hdr e fw : heap fw !! p = Some e -> wf_pit e -> exists fw' sent,
  run now (sendNacks p e hdr []) fw = Ok fw' /\ fw_sent fw' = fw_sent fw ++ sent /\
  sent ≡ₚ map (fun r => (ir_face r, PktNack (MkNack (ir_interest r) hdr))) (filter (fun r => nackable fw (ir_face r) = true) (pe_inRecords e)) /\
  heap fw' = <[p := with_inRecords (filter (fun r => nackable fw (ir_face r) = false) (pe_inRecords e)) e]> (heap fw).
Proof.
  intros He Hw. unfold sendNacks. set (l := set_order _).
  assert (Hl : l ≡ₚ map ir_face (pe_inRecords e)).
  { unfold l. rewrite set_order_perm, filter_everything by (intros x _; apply not_elem_of_nil). apply NoDup_Permutation; [apply NoDup_remove_dups|apply Hw|].
    intros x. apply elem_of_remove_dups. }
  assert (Hnd : NoDup l) by (rewrite Hl; apply Hw).
  destruct (send_each_run now p hdr l e fw He Hw Hnd) as (fw'&Hr&Hs&Hh&_). exists fw', (nacks_to fw e hdr l).
  split_and!; [done|done|apply nacks_all; [apply Hw|done]|]. rewrite Hh, fold_nacked by done. do 2 f_equal.
  assert (Hall : forall r, r ∈ pe_inRecords e -> ir_face r ∈ l) by (intros r Hr2; rewrite Hl; by apply list_elem_of_fmap_2).
  clearbody l. clear -Hall. induction (pe_inRecords e) as [|r ins IH]; [done|]. rewrite !filter_cons, IH by (intros x Hx; apply Hall; by right).
  specialize (Hall r ltac:(left)). destruct (nackable fw (ir_face r)); [rewrite decide_False, decide_False|rewrite decide_True, decide_True]; try done; naive_solver.
Qed.

(** C8. When a Nack arrives for a pending Interest, the second best route
    strategy waits as long as an upstream has not answered; when every upstream
    has returned a Nack it sends one Nack to every downstream that can take one
    (its face is there and is not multi-access) and drops their in-records; when
    the only upstream left is itself a downstream, that face alone gets a Nack.
    The Nack carries the least severe of the reasons received. *)
Theorem best_route2_nack_correct now nk fib p e s face fw : heap fw !! p = Some e -> wf_pit e ->
  exists fw' hdr, run now (afterReceiveNack BestRouteStrategy2 s now face nk fib p fw) fw = Ok fw' /\
    least_severe (nack_reasons (pe_outRecords e)) (nk_reason hdr) /\
    (not_nacked e = [] -> exists sent, fw_sent fw' = fw_sent fw ++ sent /\
       sent ≡ₚ map (fun r => (ir_face r, PktNack (MkNack (ir_interest r) hdr))) (filter (fun r => nackable fw (ir_face r) = true) (pe_inRecords e)) /\
       heap fw' = <[p := with_inRecords (filter (fun r => nackable fw (ir_face r) = false) (pe_inRecords e)) e]> (heap fw)) /\
    (forall r, not_nacked e = [r] -> is_Some (getInRecord (or_face r) e) ->
       fw_sent fw' = fw_sent fw ++ nack_to fw e hdr (or_face r) /\ heap fw' = <[p := nacked fw e (or_face r)]> (heap fw)) /\
    (not_nacked e <> [] -> (forall r, not_nacked e = [r] -> getInRecord (or_face r) e = None) -> fw' = fw).
Proof.
  intros He Hw. cbn [BestRouteStrategy2 afterReceiveNack]. unfold best_route2_nack. rewrite He. cbv zeta.
  set (hdr := MkNackHeader (leastSevereReason (scan_records (pe_outRecords e)))).
  assert (Hsev : least_severe (nack_reasons (pe_outRecords e)) (nk_reason hdr)) by apply scan_least_severe.
  destruct (scan_fold (pe_outRecords e) (MkNackScan 0 None NACK_NONE)) as (Hn&Hl&_).
  fold (scan_records (pe_outRecords e)) in Hn, Hl. fold (not_nacked e) in Hn, Hl. rewrite Hn, Hl. cbn [nOutRecordsNotNacked lastFaceNotNacked].
  unfold len. destruct (not_nacked e) as [|r [|r2 un]].
  - cbn. destruct (sendNacks_run now p hdr e fw He Hw) as (fw'&sent&Hr&Hs&Hp&Hh). exists fw', hdr. split_and!; [done|done| |done|done]. by exists sent.
  - cbn [length last from_option]. change (0 + Z.of_nat 1 =? 1) with true. cbn iota. destruct (getInRecord (or_face r) e) as [x|] eqn:Hx.
    + destruct (send_nack now p (or_face r) hdr e fw He) as (fw'&Hex&Hs&Hh&_). exists fw', hdr. cbn [run]. rewrite Hex. cbn [rbind].
      split_and!; [done|done|done| |]; [by intros ? [= <-]|]. intros _ Hno. specialize (Hno r eq_refl). congruence.
    + exists fw, hdr. split_and!; [done|done|done| |done]. intros ? [= <-]. rewrite Hx. by intros [? ?].
  - assert (Hlen : (0 + Z.of_nat (length (r :: r2 :: un)) =? 1) = false) by (apply Z.eqb_neq; cbn [length]; lia). rewrite Hlen.
    assert (Hpos : (0 <? 0 + Z.of_nat (length (r :: r2 :: un))) = true) by (apply Z.ltb_lt; cbn [length]; lia). rewrite Hpos.
    exists fw, hdr. by split_and!.
Qed.

(** ** Interests *)

(** The next hop is not the downstream and the scope allows it; and its
    out-record has not expired. *)
Definition may_use fw e (inFace : FacePtr) h : Prop :=
  f_id (face_at fw (nh_face h)) <> f_id (face_at fw inFace) /\ violatesScope (face_at fw) (nh_face h) e = false.
Definition in_use (now : Z) e h : Prop := exists r, getOutRecord (nh_face h) e = Some r /\ now < fr_expiry (or_record r).

Lemma eligible_iff fw e inFace h :
  predicate_NextHop_eligible fw e h (f_id (face_at fw inFace)) None = true <-> may_use fw e inFace h.
Proof.
  unfold predicate_NextHop_eligible, may_use. destruct (Z.eqb_spec (f_id (face_at fw (nh_face h))) (f_id (face_at fw inFace))) as [|Hne]; [naive_solver|].
  destruct (violatesScope _ _ _); naive_solver.
Qed.

Lemma unused_iff now fw e inFace h :
  predicate_NextHop_eligible fw e h (f_id (face_at fw inFace)) (Some now) = true <-> may_use fw e inFace h /\ ~ in_use now e h.
Proof.
  rewrite <- eligible_iff. unfold predicate_NextHop_eligible, in_use.
  destruct (_ =? _); [naive_solver|]. destruct (violatesScope _ _ _); [naive_solver|].
  destruct (getOutRecord _ e) as [r|]; [|naive_solver]. rewrite negb_true_iff, Z.ltb_ge.
  split; [intros Hle; split; [done|]; intros (?&[= <-]&?); lia|]. intros [_ Hn]. destruct (Z.le_gt_cases (fr_expiry (or_record r)) now); [done|].
  destruct Hn. exists r. split; [done|lia].
Qed.

(** When the next hop was last used *)
Definition renewed e h : Z := from_option (fun r => fr_lastRenewed (or_record r)) TIME_MAX (getOutRecord (nh_face h) e).

Lemma earliest_loop_spec fw e inFace l : forall found t,
  (forall h, h ∈ l -> may_use fw e inFace h -> is_Some (getOutRecord (nh_face h) e)) ->
  exists found', earliest_loop fw e (f_id (face_at fw inFace)) found t l = Ok found' /\
    ((found' = found /\ forall h, h ∈ l -> may_use fw e inFace h -> t <= renewed e h) \/
     exists h, found' = Some h /\ h ∈ l /\ may_use fw e inFace h /\ renewed e h < t /\
       forall x, x ∈ l -> may_use fw e inFace x -> renewed e h <= renewed e x).
Proof.
  induction l as [|y l IH]; intros found t Hout; cbn [earliest_loop].
  - exists found. split; [done|]. left. split; [done|]. by intros h ?%elem_of_nil.
  - assert (Hout' : forall h, h ∈ l -> may_use fw e inFace h -> is_Some (getOutRecord (nh_face h) e)) by (intros; apply Hout; [by right|done]).
    destruct (predicate_NextHop_eligible fw e y _ None) eqn:Hel; cbn [negb].
    + apply eligible_iff in Hel. destruct (Hout y ltac:(left) Hel) as [r Hr].
      assert (Hren : fr_lastRenewed (or_record r) = renewed e y) by (unfold renewed; by rewrite Hr). rewrite Hr, Hren.
      destruct (Z.ltb_spec (renewed e y) t) as [Hlt|Hge].
      * destruct (IH (Some y) (renewed e y) Hout') as (f&->&[[-> Hmin]|(h&->&Hin&Hm&Hlt2&Hmin)]); eexists; (split; [reflexivity|]); right.
        { exists y. split_and!; [done|left|done|done|]. intros x [->|Hx]%elem_of_cons Hxm; [lia|by apply Hmin]. }
        exists h. split_and!; [done|by right|done|lia|]. intros x [->|Hx]%elem_of_cons Hxm; [lia|by apply Hmin].
      * destruct (IH found t Hout') as (f&->&[[-> Hmin]|(h&->&Hin&Hm&Hlt2&Hmin)]); eexists; (split; [reflexivity|]); [left|right].
        { split; [done|]. intros x [->|Hx]%elem_of_cons Hxm; [lia|by apply Hmin]. }
        exists h. split_and!; [done|by right|done|lia|]. intros x [->|Hx]%elem_of_cons Hxm; [lia|by apply Hmin].
    + assert (Hno : ~ may_use fw e inFace y) by (rewrite <- eligible_iff; congruence).
      destruct (IH found t Hout') as (f&->&[[-> Hmin]|(h&->&Hin&Hm&Hlt2&Hmin)]); eexists; (split; [reflexivity|]); [left|right].
      * split; [done|]. intros x [->|Hx]%elem_of_cons Hxm; [done|by apply Hmin].
      * exists h. split_and!; [done|by right|done|lia|]. intros x [->|Hx]%elem_of_cons Hxm; [done|by apply Hmin].
Qed.

(** The cheapest next hop among some *)
Definition cheapest (Q : NextHop -> Prop) (l : list NextHop) h : Prop :=
  h ∈ l /\ Q h /\ forall x, x ∈ l -> Q x -> nh_cost h <= nh_cost x.

Lemma find_cheapest (Q : NextHop -> Prop) f fib : wf_fib fib -> (forall h, f h = true <-> Q h) ->
  match List.find f (fe_nextHops fib) with
  | Some h => cheapest Q (fe_nextHops fib) h
  | None => forall h, h ∈ fe_nextHops fib -> ~ Q h
  end.
Proof.
  intros [_ Hsort] Hf. destruct (List.find f _) as [h|] eqn:Hfind.
  - destruct (find_sorted _ nh_cost _ h Hsort Hfind) as [Hh Hmin]. unfold cheapest. setoid_rewrite <- Hf.
    split_and!; [by apply find_Some_elem in Hfind as [? _]|done|exact Hmin].
  - intros h Hh. rewrite <- Hf. apply not_true_iff_false. by eapply find_None_elem.
Qed.

Definition all_up fw (fib : FibEntry) : Prop := forall h, h ∈ fe_nextHops fib -> f_id (face_at fw (nh_face h)) <> INVALID_FACEID.

Lemma send_hop now p e inFace fib h fw : heap fw !! p = Some e -> pe_inRecords e <> [] -> all_up fw fib ->
  h ∈ fe_nextHops fib -> may_use fw e inFace h ->
  exists fw', run now (Act (ActSendInterest p (nh_face h) false) (fun _ => Done)) fw = Ok fw' /\ forwards_to now p e (nh_face h) fw fw'.
Proof.
  intros He Hin Hup Hh [_ Hv]. destruct (send_allowed now p (nh_face h) e fw He Hin Hv (Hup h Hh)) as (fw'&Hex&Hf).
  exists fw'. cbn [run]. by rewrite Hex.
Qed.

(** A retransmission that is let through *)
Definition retransmitted now p e inFace fib fw fw' : Prop :=
  (exists h, cheapest (fun h => may_use fw e inFace h /\ ~ in_use now e h) (fe_nextHops fib) h /\ forwards_to now p e (nh_face h) fw fw') \/
  ((forall x, x ∈ fe_nextHops fib -> may_use fw e inFace x -> in_use now e x) /\
   exists h, h ∈ fe_nextHops fib /\ may_use fw e inFace h /\
     (forall x, x ∈ fe_nextHops fib -> may_use fw e inFace x -> renewed e h <= renewed e x) /\ forwards_to now p e (nh_face h) fw fw') \/
  ((forall x, x ∈ fe_nextHops fib -> ~ may_use fw e inFace x) /\ fw' = fw).

Lemma in_use_dec now e h : in_use now e h \/ ~ in_use now e h.
Proof.
  unfold in_use. destruct (getOutRecord (nh_face h) e) as [r|]; [|right; naive_solver].
  destruct (Z.lt_ge_cases now (fr_expiry (or_record r))); [left; by exists r|right]. intros (?&[= <-]&?). lia.
Qed.

Lemma retransmit_run now p e inFace fib fw : heap fw !! p = Some e -> pe_inRecords e <> [] -> all_up fw fib -> wf_fib fib ->
  past now e -> now < TIME_MAX ->
  exists fw', run now (retransmit now inFace (fe_nextHops fib) p fw) fw = Ok fw' /\ retransmitted now p e inFace fib fw fw'.
Proof.
  intros He Hin Hup Hw Hp Hnow. unfold retransmit, retransmitted. rewrite He. cbv zeta.
  pose proof (find_cheapest _ _ fib Hw (unused_iff now fw e inFace)) as Hfind. destruct (List.find _ _) as [h|].
  { pose proof Hfind as (Hh&[Hm _]&_). destruct (send_hop now p e inFace fib h fw He Hin Hup Hh Hm) as (fw'&Hr&Hf). exists fw'. split; [done|]. left. by exists h. }
  assert (Hused : forall x, x ∈ fe_nextHops fib -> may_use fw e inFace x -> in_use now e x).
  { intros x Hx Hm. specialize (Hfind x Hx). destruct (in_use_dec now e x); [done|tauto]. }
  assert (Hren : forall x, x ∈ fe_nextHops fib -> may_use fw e inFace x -> renewed e x < TIME_MAX).
  { intros x Hx Hm. destruct (Hused x Hx Hm) as (r&Hr&_). unfold renewed. rewrite Hr. cbn.
    apply get_record_face in Hr as [Hr _]. specialize (Hp r Hr). lia. }
  unfold findEligibleNextHopWithEarliestOutRecord.
  destruct (earliest_loop_spec fw e inFace (fe_nextHops fib) None TIME_MAX) as (f&->&[[-> Hmin]|(h&->&Hh&Hm&_&Hmin)]).
  - intros h Hh Hm. destruct (Hused h Hh Hm) as (r&->&_). done.
  - exists fw. split; [done|]. right. right. split; [|done]. intros x Hx Hm. specialize (Hmin x Hx Hm). specialize (Hren x Hx Hm). lia.
  - destruct (send_hop now p e inFace fib h fw He Hin Hup Hh Hm) as (fw'&Hr&Hf). exists fw'. split; [done|]. right. left. split; [done|]. by exists h.
Qed.

(** A new Interest: to the cheapest next hop, or a Nack and the end of the entry *)
Definition newly_forwarded now p e inFace fib fw fw' : Prop :=
  (exists h, cheapest (may_use fw e inFace) (fe_nextHops fib) h /\ forwards_to now p e (nh_face h) fw fw') \/
  ((forall x, x ∈ fe_nextHops fib -> ~ may_use fw e inFace x) /\
   fw_sent fw' = fw_sent fw ++ nack_to fw e noRoute inFace /\
   heap fw' = <[p := with_timers None (Some (now + milliseconds 100, false, -1)) (nacked fw e inFace)]> (heap fw)).

Lemma new_run now p e inFace fib fw : heap fw !! p = Some e -> pe_inRecords e <> [] -> all_up fw fib -> wf_fib fib ->
  hasUnexpiredOutRecords now e = false ->
  exists fw', run now (match List.find (fun h => predicate_NextHop_eligible fw e h (f_id (face_at fw inFace)) None) (fe_nextHops fib) with
      | None => Act (ActSendNack p inFace noRoute) (fun _ => Act (ActReject p) (fun _ => Done))
      | Some it => Act (ActSendInterest p (nh_face it) false) (fun _ => Done)
      end) fw = Ok fw' /\ newly_forwarded now p e inFace fib fw fw'.
Proof.
  intros He Hin Hup Hw Hu. unfold newly_forwarded.
  pose proof (find_cheapest _ _ fib Hw (eligible_iff fw e inFace)) as Hfind. destruct (List.find _ _) as [h|].
  - pose proof Hfind as (Hh&Hm&_). destruct (send_hop now p e inFace fib h fw He Hin Hup Hh Hm) as (fw'&Hr&Hf). exists fw'. split; [done|]. left. by exists h.
  - destruct (send_nack now p inFace noRoute e fw He) as (fw1&Hex&Hs1&Hh1&_).
    assert (Hu1 : hasUnexpiredOutRecords now (nacked fw e inFace) = false) by (unfold nacked; by destruct (nackable fw inFace)).
    destruct (reject_spec now p (nacked fw e inFace) fw1) as (fw2&Hex2&Hs2&_&Hh2); [by rewrite Hh1, lookup_insert_eq|done|].
    exists fw2. cbn [run]. rewrite Hex. cbn [rbind]. rewrite Hex2. cbn [rbind]. split; [done|]. right.
    split_and!; [done|by rewrite Hs2, Hs1|by rewrite Hh2, Hh1, insert_insert_eq].
Qed.

(** C7. The second best route strategy and its suppression of retransmissions, when every
    next hop is a face that is up, the records were renewed in the past and the FIB entry is
    well-formed.  After [k] retransmissions were let through (the interval on the PIT entry is
    then the minimum of 10 ms * 2^k and 250 ms): an Interest that is not forwarded, or whose
    out-records have all expired, goes to the cheapest next hop other than its downstream, or
    else its entry is rejected and a Nack [NoRoute] goes to the face it came from, if that has
    an in-record and is not multi-access, and to no other downstream; a retransmission within
    the interval of any transmission sends nothing; and a later one advances [k] and goes to
    the cheapest next hop without an unexpired out-record, else to the one that was used the
    longest ago, and sends nothing, neither Interest nor Nack, when there is no next hop that
    may be used.  No assertion fails.  (The comment of the class says that the Nack goes to
    all downstreams.) *)
Theorem best_route2_correct now i fib p e s face k fw : heap fw !! p = Some e -> wf_fib fib -> all_up fw fib ->
  pe_inRecords e <> [] -> past now e -> now < TIME_MAX -> retx_interval BestRoute2_retx e = backoff BestRoute2_retx k ->
  exists fw', run now (afterReceiveInterest BestRouteStrategy2 s now face i fib p fw) fw = Ok fw' /\
    (hasUnexpiredOutRecords now e = false -> newly_forwarded now p e face fib fw fw') /\
    (hasUnexpiredOutRecords now e = true -> sent_within now (backoff BestRoute2_retx k) e ->
       fw' = set_entry p (setStrategyInfo PitInfo_typeId (backoff BestRoute2_retx k) e) fw) /\
    (hasUnexpiredOutRecords now e = true -> ~ sent_within now (backoff BestRoute2_retx k) e ->
       let e' := setStrategyInfo PitInfo_typeId (backoff BestRoute2_retx (S k)) e in
       retransmitted now p e' face fib (set_entry p e' fw) fw').
Proof.
  intros He Hw Hup Hin Hp Hnow Hk. cbn [BestRouteStrategy2 afterReceiveInterest]. unfold best_route2. rewrite He.
  assert (Hwf : wf_retx BestRoute2_retx) by (split; cbn; lia).
  destruct (decide_exponential_spec BestRoute2_retx k now e Hwf Hp Hk) as [[Hu ->]|[(Hu&Hs&->)|(Hu&Hs&->)]]; cbn [set_interval].
  - destruct (new_run now p e face fib fw He Hin Hup Hw Hu) as (fw'&Hr&Hn). exists fw'. split_and!; [done|done|congruence|congruence].
  - cbn [run exec]. rewrite (proj2 (get_entry_Ok p e fw) He). cbn [rbind]. eexists. by split_and!; [reflexivity|congruence| |].
  - cbn [run exec]. rewrite (proj2 (get_entry_Ok p e fw) He). cbn [rbind]. set (e' := setStrategyInfo _ _ e).
    destruct (retransmit_run now p e' face fib (set_entry p e' fw)) as (fw'&Hr&Ht); [apply set_entry_heap|done|done|done|done|done|].
    exists fw'. by split_and!; [|congruence|congruence|].
Qed.

(** ** A Nack of the past *)

(** Sending the Interest again to an upstream that has returned a Nack does
    not clear the Nack: the strategy goes on counting it as answered, so that
    the next Nack of another upstream is passed on as if none were waiting. *)
Theorem best_route2_resend_keeps_nack now face i r e : getOutRecord face e = Some r -> or_incomingNack r <> None ->
  not_nacked (insertOrUpdateOutRecord now face i e) = not_nacked e.
Proof.
  unfold not_nacked, getOutRecord, insertOrUpdateOutRecord, upsert_record. intros Hr Hn. cbn [with_outRecords pe_outRecords]. rewrite Hr.
  revert Hr. unfold get_record. induction (pe_outRecords e) as [|x l IH]; [done|]. cbn [List.find update_record]. destruct (or_face x =? face).
  - intros [= ->]. rewrite !filter_cons. rewrite !decide_False by done. done.
  - intros Hl. rewrite !filter_cons. by rewrite IH.
Qed.
End BestRoute2Facts.

Module BestRoute2Samples.
#[local] Existing Instance sample_sha256.
#[local] Existing Instance Samples.SampleHash.
#[local] Existing Instance DnlSamples.SeedHash.
#[local] Existing Instance InsertionSort.Sort.
#[local] Existing Instance ForwarderSamples.SampleRng.
Import PitSamples PitTableSamples ForwarderSamples StrategyCodeSamples.

Lemma same_order_perm (l : list FacePtr) : l ≡ₚ l.
Proof. done. Qed.
#[local] Instance SameOrder : FaceSetOrder := {| set_order l := l; set_order_perm := same_order_perm |}.

Definition entry_at (fw : FW) : PitEntry := default (PitEntry_new i1) (heap fw !! (1%positive : PitPtr)).

(** The Interest of face 1 was sent to face 2; it comes again 20 milliseconds
    later. *)
Definition routed : FW := step_to (run 0 (afterReceiveInterest BestRouteStrategy2 [] 0 1 i1 two_hops 1%positive pending) pending) pending.

Lemma heap_routed : heap routed !! (1%positive : PitPtr) = Some (entry_at routed).
Proof. by vm_compute. Qed.
Lemma up_routed : all_up routed two_hops.
Proof.
  assert (Hall : forallb (fun h => negb (f_id (face_at routed (nh_face h)) =? INVALID_FACEID)) (fe_nextHops two_hops) = true)
    by (vm_compute; reflexivity).
  intros h Hh. rewrite forallb_forall in Hall. specialize (Hall h (proj1 (list_elem_of_In _ _) Hh)).
  rewrite negb_true_iff, Z.eqb_neq in Hall. exact Hall.
Qed.

(** The entry has the one out-record of face 2. *)
Definition out_two : OutRecord := MkOutRecord (MkFaceRecord 2 (i_nonce i1) 0 (milliseconds 4000) ∅) None.
Lemma outs_routed : pe_outRecords (entry_at routed) = [out_two].
Proof. by vm_compute. Qed.
Lemma past_routed : past (milliseconds 20) (entry_at routed).
Proof. intros r. rewrite outs_routed. intros ->%list_elem_of_singleton. vm_compute. split; [discriminate|reflexivity]. Qed.
Lemma not_recent : ~ sent_within (milliseconds 20) (backoff BestRoute2_retx 0) (entry_at routed).
Proof. intros (r&Hr&Hlt). rewrite outs_routed in Hr. apply list_elem_of_singleton in Hr as ->. vm_compute in Hlt. discriminate Hlt. Qed.

Lemma best_route2_correct_witness :
  exists fw', run (milliseconds 20) (afterReceiveInterest BestRouteStrategy2 [] (milliseconds 20) 1 i1 two_hops 1%positive routed) routed = Ok fw' /\
    map fst (fw_sent fw') = [2 : FacePtr; 2].
Proof.
  destruct (best_route2_correct (milliseconds 20) i1 two_hops 1%positive (entry_at routed) [] 1 0 routed heap_routed wf_two_hops up_routed)
    as (fw'&Hok&_&_&Hcase); [vm_compute; discriminate|exact past_routed|vm_compute; reflexivity|vm_compute; reflexivity|].
  exists fw'. split; [exact Hok|]. pose proof Hok as Hrun. vm_compute in Hrun.
  destruct (Hcase ltac:(vm_compute; reflexivity) not_recent) as [(h&_&_)|[_|[_ Heq]]]; [..|subst fw'; vm_compute in Hrun; discriminate Hrun];
    injection Hrun as <-; vm_compute; reflexivity.
Defined.

(** Face 2 returns a Nack. *)
Definition refused : FW := set_entry 1%positive (with_outRecords [MkOutRecord (or_record out_two) (Some (MkNackHeader NACK_CONGESTION))] (entry_at routed)) routed.
Lemma heap_refused : heap refused !! (1%positive : PitPtr) = Some (entry_at refused).
Proof. by vm_compute. Qed.
Lemma wf_refused : wf_pit (entry_at refused).
Proof. split; by_decide. Qed.

Lemma best_route2_nack_correct_witness :
  exists fw' hdr, run 0 (afterReceiveNack BestRouteStrategy2 [] 0 2 (MkNack i1 (MkNackHeader NACK_CONGESTION)) two_hops 1%positive refused) refused = Ok fw' /\
    least_severe [NACK_CONGESTION] (nk_reason hdr) /\
    exists sent, fw_sent fw' = fw_sent refused ++ sent /\ sent ≡ₚ [(1 : FacePtr, PktNack (MkNack i1 hdr))].
Proof.
  destruct (best_route2_nack_correct 0 (MkNack i1 (MkNackHeader NACK_CONGESTION)) two_hops 1%positive (entry_at refused) [] 2 refused
    heap_refused wf_refused) as (fw'&hdr&Hok&Hsev&Hall&_).
  exists fw', hdr. split; [exact Hok|split; [exact Hsev|]].
  destruct (Hall ltac:(vm_compute; reflexivity)) as (sent&Hs&Hp&_). exists sent. split; [exact Hs|].
  replace [(1 : FacePtr, PktNack (MkNack i1 hdr))] with
    (map (fun r => (ir_face r, PktNack (MkNack (ir_interest r) hdr))) (filter (fun r => nackable refused (ir_face r) = true) (pe_inRecords (entry_at refused))))
    by (vm_compute; reflexivity). exact Hp.
Defined.
End BestRoute2Samples.
