(* ===== verification/LpPacket.v ===== *)
(** * Link protocol packets: [ndn-cxx/src/lp/packet.cpp], [lp/packet.hpp],
    [lp/fields.hpp] and [lp/detail]

    A packet of the link protocol is a block whose elements are header fields
    in increasing order of type, followed by the fragment.  The block has a wire
    encoding when it was received or was encoded, and loses it when a field is
    added or removed; its elements are parsed when they are looked at. *)

From S2P Require Import Prelude Tlv Block Encoder Elements.

Module LpTlv.
Definition LpPacket := 100.
Definition Fragment := 80.
Definition Sequence := 81.
Definition FragIndex := 82.
Definition FragCount := 83.
Definition Nack := 800.
Definition NackReason := 801.
Definition NextHopFaceId := 816.
Definition IncomingFaceId := 817.
Definition CachePolicy := 820.
Definition CachePolicyType := 821.
Definition HEADER3_MIN := 800.
Definition HEADER3_MAX := 959.
End LpTlv.

(** ** Fields *)

Record FieldInfo := MkFieldInfo {
  tlvType : Z;
  isRecognized : bool;
  canIgnore : bool;
  isRepeatable : bool;
  locationSortOrder : Z
}.

(** [getLocationSortOrder] *)
Definition HEADER_ORDER : Z := 1.
Definition FRAGMENT_ORDER : Z := 2.

(** [FieldSet]: the types of the fields and their locations; none of them is
    repeatable. *)
Definition FieldSet : list (Z * Z) :=
  [(LpTlv.Fragment, FRAGMENT_ORDER); (LpTlv.Sequence, HEADER_ORDER); (LpTlv.FragIndex, HEADER_ORDER);
   (LpTlv.FragCount, HEADER_ORDER); (LpTlv.Nack, HEADER_ORDER); (LpTlv.NextHopFaceId, HEADER_ORDER);
   (LpTlv.CachePolicy, HEADER_ORDER); (LpTlv.IncomingFaceId, HEADER_ORDER)].

(** [FieldInfo::FieldInfo(uint64_t tlv)] *)
Definition FieldInfo_of (tlv : Z) : FieldInfo :=
  match List.find (fun f => f.1 =? tlv) FieldSet with
  | Some f => MkFieldInfo tlv true false false f.2
  | None =>
      MkFieldInfo tlv false
        ((LpTlv.HEADER3_MIN <=? tlv) && (tlv <=? LpTlv.HEADER3_MAX) && (Z.land tlv 1 =? 1)) false HEADER_ORDER
  end.

Definition compareFieldSortOrder (first second : FieldInfo) : bool :=
  (locationSortOrder first <? locationSortOrder second) ||
  ((locationSortOrder first =? locationSortOrder second) && (tlvType first <? tlvType second)).

(** ** Packets *)

Definition LpPacket : Type := Block.

(** [Packet::Packet()] *)
Definition Packet_new : LpPacket := Block_of_type LpTlv.LpPacket.

(** [count], [has], [get] and [list] *)
Definition fields (type : Z) (p : LpPacket) : result (list Block) :=
  let! b := Block_parse p in Ok (List.filter (fun x => m_type x =? type) (m_subBlocks b)).

Definition count (type : Z) (p : LpPacket) : result Z :=
  let! l := fields type p in Ok (len l).

Definition hasField (type : Z) (p : LpPacket) : result bool :=
  let! n := count type p in Ok (0 <? n).

Definition getField (type : Z) (index : nat) (p : LpPacket) : result Block :=
  let! l := fields type p in
  match l !! index with Some x => Ok x | None => Err OutOfRange end.

(** The decoding of a field of integers, and of the fragment *)
Definition getInteger (type : Z) (p : LpPacket) : result Z :=
  let! x := getField type 0 p in readNonNegativeIntegerBlock x.

Definition getFragment (p : LpPacket) : result (list Z) :=
  let! x := getField LpTlv.Fragment 0 p in
  if value_size x =? 0 then Err LpError else Ok (value x).

(** [comparePos] and [std::lower_bound] on elements in order *)
Definition comparePos (first : Block) (second : Z) : bool :=
  compareFieldSortOrder (FieldInfo_of (m_type first)) (FieldInfo_of second).

Fixpoint lower_bound_pos (l : list Block) (type : Z) : nat :=
  match l with
  | [] => 0
  | x :: l' => if comparePos x type then S (lower_bound_pos l' type) else 0
  end.

(** [add] of the encoded field, [clear] and [set] *)
Definition addField (type : Z) (field : result Block) (p : LpPacket) : result LpPacket :=
  let! h := hasField type p in
  if negb (isRepeatable (FieldInfo_of type)) && h then Err LengthError
  else
    let! block := field in
    let! b := Block_parse p in
    Ok (insert b (lower_bound_pos (m_subBlocks b) type) block).

Definition clearField (type : Z) (p : LpPacket) : result LpPacket :=
  let! b := Block_parse p in Ok (remove b type).

Definition setField (type : Z) (field : result Block) (p : LpPacket) : result LpPacket :=
  let! p := clearField type p in addField type field p.

(** [remove]: the [index]-th occurrence *)
Fixpoint nth_field (type : Z) (index pos : nat) (l : list Block) : option nat :=
  match l with
  | [] => None
  | x :: l' =>
      if m_type x =? type
      then match index with O => Some pos | S k => nth_field type k (S pos) l' end
      else nth_field type index (S pos) l'
  end.

Definition removeField (type : Z) (index : nat) (p : LpPacket) : result LpPacket :=
  let! b := Block_parse p in
  match nth_field type index 0 (m_subBlocks b) with
  | Some pos => Ok (erase b pos (S pos))
  | None => Err OutOfRange
  end.

(** [EncodeHelper] of integers and of ranges of bytes *)
Definition integerField (type v : Z) : result Block := makeNonNegativeIntegerBlock type v.
Definition fragmentField (bytes : list Z) : result Block := makeStringBlock LpTlv.Fragment bytes.

(** ** Encoding *)

Section Encode.
Context {E : Type} `{EncodingImpl E}.

(** [Packet::wireEncode(encoder)] of a packet without a wire *)
Definition Packet_wireEncode (p : LpPacket) : state E Z :=
  let~ length := prependBlocks (rev (m_subBlocks p)) 0 in
  let~ l1 := prependVarNumber length in
  let~ l2 := prependVarNumber LpTlv.LpPacket in
  sret (length + l1 + l2).
End Encode.

(** [Packet::wireEncode()]: the encoding, and the packet, which keeps it.  A
    packet that is nothing but a fragment is encoded as the network packet in
    the fragment. *)
Definition Packet_wire (p : LpPacket) : result (Block * LpPacket) :=
  if hasWire p then Ok (p, p)
  else
    match m_subBlocks p with
    | [f] =>
        if m_type f =? LpTlv.Fragment then
          let! f := Block_parse f in
          match m_subBlocks f with
          | [] => Err OutOfRange
          | netPkt :: _ => let! netPkt := Block_parse netPkt in Ok (netPkt, p)
          end
        else
          let! b := Encoder.block true (twoPass (fun E _ => Packet_wireEncode p)) in Ok (b, b)
    | _ => let! b := Encoder.block true (twoPass (fun E _ => Packet_wireEncode p)) in Ok (b, b)
    end.

(** ** Decoding *)

(** The loop over the elements; [prev] is the information on the element
    before, if there is one. *)
Fixpoint check_fields (prev : option FieldInfo) (l : list Block) : result unit :=
  match l with
  | [] => Ok tt
  | element :: l' =>
      let info := FieldInfo_of (m_type element) in
      if negb (isRecognized info) && negb (canIgnore info) then Err LpError
      else
        match prev with
        | Some q =>
            if (tlvType info =? tlvType q) && negb (isRepeatable info) then Err LpError
            else if negb (tlvType info =? tlvType q) && negb (compareFieldSortOrder q info) then Err LpError
            else check_fields (Some info) l'
        | None => check_fields (Some info) l'
        end
  end.

(** [Packet::wireDecode] *)
Definition Packet_wireDecode (w : Block) : result LpPacket :=
  if (m_type w =? TlvType.Interest) || (m_type w =? TlvType.Data) then
    let! bytes := wire w in
    addField LpTlv.Fragment (fragmentField bytes) Packet_new
  else if negb (m_type w =? LpTlv.LpPacket) then Err LpError
  else
    let! b := Block_parse w in
    let! _ := check_fields None (m_subBlocks b) in
    Ok b.

(** ** Packets as lists of fields *)

(** [p] holds the fields [es]: it was put together from them, or it has the
    encoding of them. *)
Inductive lp_repr (p : LpPacket) (es : list (Z * list Z)) : Prop :=
| ReprFresh : m_type p = LpTlv.LpPacket -> m_buffer p = None -> Forall2 elem_ok (m_subBlocks p) es -> lp_repr p es
| ReprWired : m_type p = LpTlv.LpPacket -> wf_block p -> wire p = Ok (tlv_wire LpTlv.LpPacket (wires es)) ->
    value p = wires es -> Block_size p = Ok (len (tlv_wire LpTlv.LpPacket (wires es))) ->
    m_subBlocks p = [] \/ Forall2 elem_ok (m_subBlocks p) es -> lp_repr p es.

Lemma repr_new : lp_repr Packet_new [].
Proof. apply ReprFresh; [done|done|constructor]. Qed.

Lemma repr_parse p es : lp_repr p es -> wf_fields es ->
  exists q, Block_parse p = Ok q /\ lp_repr q es /\ Forall2 elem_ok (m_subBlocks q) es /\ hasWire q = hasWire p /\ m_buffer q = m_buffer p.
Proof.
  intros [Ht Hb Hs|Ht Hwf Hw Hv Hz Hs] Hes.
  - exists p. unfold Block_parse. rewrite parse_empty by (unfold value_size, hasValue; by rewrite Hb).
    split_and!; [done|by apply ReprFresh|done..].
  - destruct (m_subBlocks p) as [|y l] eqn:Hl.
    + destruct (Block_parse_value p es Hwf Hl Hv Hes) as (l&Hp&Hok). exists (set_subBlocks p l). rewrite Hp.
      split_and!; [done| |done|done|done]. apply ReprWired; try done. by right.
    + destruct Hs as [?|Hs]; [done|]. exists p. unfold Block_parse. rewrite (parse_done p (y :: l)) by done.
      rewrite Hl. split_and!; [done| |done..]. apply ReprWired; try done. rewrite Hl. by right.
Qed.

(** ** Access to fields *)

Definition fields_of (type : Z) (es : list (Z * list Z)) : list (Z * list Z) := List.filter (fun x => x.1 =? type) es.

Lemma Forall2_fields type l es : Forall2 elem_ok l es ->
  Forall2 elem_ok (List.filter (fun b => m_type b =? type) l) (fields_of type es).
Proof.
  unfold fields_of. induction 1 as [|b x l es Hx Hl IH]; [constructor|]. cbn [List.filter]. rewrite (elem_ok_type b x Hx).
  destruct (x.1 =? type); [by constructor|done].
Qed.

Lemma fields_spec type p es : lp_repr p es -> wf_fields es ->
  exists l, fields type p = Ok l /\ Forall2 elem_ok l (fields_of type es).
Proof.
  intros Hr Hw. destruct (repr_parse p es Hr Hw) as (q&Hp&_&Hq&_). unfold fields. rewrite Hp. cbn [rbind].
  eexists. split; [done|]. by apply Forall2_fields.
Qed.

Lemma fields_of_nil type es : fields_of type es = [] <-> type ∉ map fst es.
Proof.
  unfold fields_of. induction es as [|x es IH]; cbn [List.filter map].
  - split; [intros _; apply not_elem_of_nil|done].
  - rewrite not_elem_of_cons. destruct (Z.eqb_spec x.1 type); [split; [done|intros [? _]; congruence]|]. rewrite IH.
    split; [intros ?; split; [congruence|done]|by intros [_ ?]].
Qed.

Lemma hasField_spec type p es : lp_repr p es -> wf_fields es -> hasField type p = Ok (bool_decide (type ∈ map fst es)).
Proof.
  intros Hr Hw. destruct (fields_spec type p es Hr Hw) as (l&Hl&H2). unfold hasField, count. rewrite Hl. cbn [rbind]. f_equal.
  pose proof (fields_of_nil type es) as Hnil. apply Forall2_length in H2. unfold len. rewrite H2.
  destruct (fields_of type es) as [|y r] eqn:Hf.
  - rewrite bool_decide_false by (by apply Hnil). done.
  - rewrite bool_decide_true; [done|]. apply dec_stable. intros Hn. by apply Hnil in Hn.
Qed.

Lemma fields_of_In type v es : NoDup (map fst es) -> (type, v) ∈ es -> fields_of type es = [(type, v)].
Proof.
  unfold fields_of. induction es as [|x es IH]; intros Hnd Hin; [by apply elem_of_nil in Hin|].
  cbn [map List.filter] in *. apply NoDup_cons in Hnd as [Hx Hnd]. apply elem_of_cons in Hin as [<-|Hin].
  - cbn [fst]. rewrite Z.eqb_refl. f_equal. apply (fields_of_nil type es). done.
  - destruct (Z.eqb_spec x.1 type) as [He|]; [|by apply IH]. exfalso. apply Hx. rewrite He.
    apply list_elem_of_fmap. by exists (type, v).
Qed.

Lemma getField_spec type v p es : lp_repr p es -> wf_fields es -> NoDup (map fst es) -> (type, v) ∈ es ->
  exists b, getField type 0 p = Ok b /\ elem_ok b (type, v).
Proof.
  intros Hr Hw Hnd Hin. destruct (fields_spec type p es Hr Hw) as (l&Hl&H2). unfold getField. rewrite Hl. cbn [rbind].
  rewrite (fields_of_In type v es) in H2 by done. destruct l as [|b l]; [by inversion H2|].
  apply Forall2_cons in H2 as [Hb _]. by exists b.
Qed.

Lemma getInteger_spec type n p es : lp_repr p es -> wf_fields es -> NoDup (map fst es) ->
  (type, encoderIntegerBytes n) ∈ es -> 0 <= n < U64 -> getInteger type p = Ok n.
Proof.
  intros Hr Hw Hnd Hin Hn. destruct (getField_spec type _ p es Hr Hw Hnd Hin) as (b&Hb&Hok). unfold getInteger. rewrite Hb. cbn [rbind].
  unfold readNonNegativeIntegerBlock. rewrite (ek_size _ _ Hok), (elem_ok_value _ _ Hok). cbn [snd].
  rewrite len_encoderIntegerBytes, <- (app_nil_r (encoderIntegerBytes n)), read_encoderInteger by done. done.
Qed.

Lemma getFragment_spec w p es : lp_repr p es -> wf_fields es -> NoDup (map fst es) ->
  (LpTlv.Fragment, w) ∈ es -> w <> [] -> getFragment p = Ok w.
Proof.
  intros Hr Hw Hnd Hin Hne. destruct (getField_spec _ _ p es Hr Hw Hnd Hin) as (b&Hb&Hok). unfold getFragment. rewrite Hb. cbn [rbind].
  rewrite (ek_size _ _ Hok), (elem_ok_value _ _ Hok). cbn [snd].
  rewrite (proj2 (Z.eqb_neq _ _)); [done|]. destruct w; [done|]. unfold len. simpl. lia.
Qed.

(** ** The order of fields *)

Definition field_lt (t u : Z) : bool := compareFieldSortOrder (FieldInfo_of t) (FieldInfo_of u).

Lemma FieldInfo_of_spec t : let i := FieldInfo_of t in
  tlvType i = t /\ isRepeatable i = false /\ locationSortOrder i = if t =? LpTlv.Fragment then FRAGMENT_ORDER else HEADER_ORDER.
Proof.
  unfold FieldInfo_of, FieldSet. cbn [List.find fst]. rewrite (Z.eqb_sym t).
  destruct (LpTlv.Fragment =? t); [done|].
  repeat match goal with |- context [if ?c =? t then _ else _] => destruct (c =? t); [done|] end. done.
Qed.

Lemma field_lt_iff t u : field_lt t u = true <-> t <> LpTlv.Fragment /\ (u = LpTlv.Fragment \/ t < u).
Proof.
  unfold field_lt, compareFieldSortOrder. destruct (FieldInfo_of_spec t) as (->&_&->), (FieldInfo_of_spec u) as (->&_&->).
  rewrite orb_true_iff, andb_true_iff, !Z.ltb_lt, Z.eqb_eq. unfold FRAGMENT_ORDER, HEADER_ORDER.
  destruct (Z.eqb_spec t LpTlv.Fragment), (Z.eqb_spec u LpTlv.Fragment); lia.
Qed.

Definition ordered (es : list (Z * list Z)) : Prop := StronglySorted (fun a b => field_lt a.1 b.1 = true) es.

Lemma ordered_NoDup es : ordered es -> NoDup (map fst es).
Proof.
  induction 1 as [|x es Hs IH Hx]; [apply NoDup_nil_2|]. apply NoDup_cons. split; [|done].
  intros (y&He&Hy)%list_elem_of_fmap. rewrite Forall_forall in Hx. specialize (Hx y Hy). apply field_lt_iff in Hx. lia.
Qed.

(** Where [add] puts a field *)
Fixpoint ins (x : Z * list Z) (es : list (Z * list Z)) : list (Z * list Z) :=
  match es with
  | [] => [x]
  | y :: es' => if field_lt y.1 x.1 then y :: ins x es' else x :: es
  end.

Lemma ins_perm x es : ins x es ≡ₚ x :: es.
Proof. induction es as [|y es IH]; cbn [ins]; [done|]. destruct (field_lt _ _); [|done]. rewrite IH. apply Permutation_swap. Qed.

Lemma ins_ordered x es : ordered es -> x.1 ∉ map fst es -> ordered (ins x es).
Proof.
  induction es as [|y es IH]; intros Ho Hn; cbn [ins map] in *; [repeat constructor|].
  apply not_elem_of_cons in Hn as [Hxy Hn]. pose proof Ho as [Ho' Hy]%StronglySorted_inv.
  destruct (field_lt y.1 x.1) eqn:Hlt.
  - constructor; [by apply IH|]. rewrite ins_perm. by constructor.
  - assert (Hxy' : field_lt x.1 y.1 = true).
    { apply field_lt_iff. destruct (field_lt_iff y.1 x.1) as [_ Hc].
      assert (~ (y.1 <> LpTlv.Fragment /\ (x.1 = LpTlv.Fragment \/ y.1 < x.1))) by (intros Hc'; rewrite Hc in Hlt; done).
      destruct (Z.eq_dec y.1 LpTlv.Fragment); lia. }
    constructor; [done|]. constructor; [done|]. eapply Forall_impl; [exact Hy|]. intros z Hz. simpl in *.
    rewrite field_lt_iff in *. lia.
Qed.

Lemma wf_fields_perm es1 es2 : es1 ≡ₚ es2 -> wf_fields es1 -> wf_fields es2.
Proof. unfold wf_fields. by intros ->. Qed.

Lemma len_wires_perm es1 es2 : es1 ≡ₚ es2 -> len (wires es1) = len (wires es2).
Proof.
  induction 1 as [|[t v] ? ? ? IH|[t v] [u w] ?|]; rewrite ?wires_cons, ?len_app; lia.
Qed.

(** ** Changes of fields *)

Lemma Forall2_ins l es b x : Forall2 elem_ok l es -> elem_ok b x ->
  Forall2 elem_ok (take (lower_bound_pos l x.1) l ++ b :: drop (lower_bound_pos l x.1) l) (ins x es).
Proof.
  intros H2 Hb. induction H2 as [|c y l es Hc Hl IH]; cbn [lower_bound_pos ins]; [constructor; [done|constructor]|].
  unfold comparePos. rewrite (elem_ok_type c y Hc). fold (field_lt y.1 x.1). destruct (field_lt y.1 x.1).
  - cbn [take drop app]. by constructor.
  - cbn [take drop app]. repeat (constructor; try done).
Qed.

Lemma addField_spec p es b x : lp_repr p es -> wf_fields es -> elem_ok b x -> x.1 ∉ map fst es ->
  exists q, addField x.1 (Ok b) p = Ok q /\ lp_repr q (ins x es) /\ m_buffer q = None.
Proof.
  intros Hr Hw Hb Hn. unfold addField. rewrite (hasField_spec x.1 p es) by done. cbn [rbind].
  rewrite bool_decide_false, andb_false_r by done. destruct (repr_parse p es Hr Hw) as (q&Hp&Hq&H2&_). rewrite Hp. cbn [rbind].
  eexists. split; [done|]. split; [|done]. apply ReprFresh; [|done|by apply Forall2_ins].
  by destruct Hq.
Qed.

Definition without_field (type : Z) (es : list (Z * list Z)) : list (Z * list Z) := List.filter (fun x => negb (x.1 =? type)) es.

Lemma Forall2_without type l es : Forall2 elem_ok l es ->
  Forall2 elem_ok (List.filter (fun b => negb (m_type b =? type)) l) (without_field type es).
Proof.
  unfold without_field. induction 1 as [|b x l es Hx Hl IH]; [constructor|]. cbn [List.filter]. rewrite (elem_ok_type b x Hx).
  destruct (negb _); [by constructor|done].
Qed.

Lemma clearField_spec type p es : lp_repr p es -> wf_fields es ->
  exists q, clearField type p = Ok q /\ lp_repr q (without_field type es) /\ m_buffer q = None.
Proof.
  intros Hr Hw. unfold clearField. destruct (repr_parse p es Hr Hw) as (q&Hp&Hq&H2&_). rewrite Hp. cbn [rbind].
  eexists. split; [done|]. split; [|done]. apply ReprFresh; [by destruct Hq|done|by apply Forall2_without].
Qed.

Lemma without_not_in type es : type ∉ map fst (without_field type es).
Proof.
  intros (x&->&Hx)%list_elem_of_fmap. unfold without_field in Hx. apply list_elem_of_In, List.filter_In in Hx as [_ Hx].
  by rewrite Z.eqb_refl in Hx.
Qed.

Lemma without_sub type es x : x ∈ without_field type es -> x ∈ es.
Proof. unfold without_field. intros [? _]%list_elem_of_In%List.filter_In. by apply list_elem_of_In. Qed.

Lemma without_same type es : type ∉ map fst es -> without_field type es = es.
Proof.
  unfold without_field. induction es as [|x es IH]; cbn [map List.filter]; [done|]. intros [Hx Hn]%not_elem_of_cons.
  rewrite (proj2 (Z.eqb_neq x.1 type)) by congruence. cbn [negb]. by rewrite IH.
Qed.

Lemma wf_fields_without type es : wf_fields es -> wf_fields (without_field type es).
Proof. intros [H1 H2]. split; apply Forall_forall; intros x Hx%without_sub; [by rewrite Forall_forall in H1; apply H1|by rewrite Forall_forall in H2; apply H2]. Qed.

Lemma ordered_without type es : ordered es -> ordered (without_field type es).
Proof.
  unfold without_field. induction 1 as [|x es Hs IH Hx]; cbn [List.filter]; [constructor|].
  destruct (negb _); [|done]. constructor; [done|]. apply Forall_forall. intros y Hy. rewrite Forall_forall in Hx. apply Hx.
  by apply (without_sub type).
Qed.

Lemma setField_spec p es b x : lp_repr p es -> wf_fields es -> elem_ok b x ->
  exists q, setField x.1 (Ok b) p = Ok q /\ lp_repr q (ins x (without_field x.1 es)) /\ m_buffer q = None.
Proof.
  intros Hr Hw Hb. unfold setField. destruct (clearField_spec x.1 p es Hr Hw) as (q&->&Hq&_). cbn [rbind].
  apply addField_spec; [done|by apply wf_fields_without|done|apply without_not_in].
Qed.

Lemma integerField_ok t n : 0 <= t < U32 -> 0 <= n -> exists b, integerField t n = Ok b /\ elem_ok b (t, encoderIntegerBytes n).
Proof.
  intros Ht Hn. destruct (makeIntegerBlock_ok t n Ht) as (b&Hb&Hok). exists b. split; [done|].
  apply built_elem_ok; [done|by apply wf_encoderIntegerBytes].
Qed.

Lemma fragmentField_ok w : len w < U64 -> wf_bytes w -> exists b, fragmentField w = Ok b /\ elem_ok b (LpTlv.Fragment, w).
Proof.
  intros Hl Hw. destruct (twoPass_block (fun E _ => prependStringBlock LpTlv.Fragment w) LpTlv.Fragment w) as (b&Hb&Hok).
  - apply (prependStringBlock_size (E := Estimator.t)).
  - apply Prepends_StringBlock.
  - split; [by vm_compute|done].
  - exists b. split; [done|]. by apply built_elem_ok.
Qed.

(** ** Encoding *)

Lemma Encodes_Packet p es : Forall2 elem_ok (m_subBlocks p) es ->
  Encodes (fun E _ => Packet_wireEncode p) (len (tlv_wire LpTlv.LpPacket (wires es))) (tlv_wire LpTlv.LpPacket (wires es)).
Proof. intros H2. unfold Packet_wireEncode. apply Encodes_header. by apply Encodes_rev_Blocks. Qed.

(** The block of a packet that is encoded as such, and not as the network
    packet in its only fragment *)
Lemma encode_packet p es : Forall2 elem_ok (m_subBlocks p) es -> wf_fields es -> len (wires es) < U64 ->
  exists b, Encoder.block true (twoPass (fun E _ => Packet_wireEncode p)) = Ok b /\ built b LpTlv.LpPacket (wires es).
Proof.
  intros H2 [Hes Hby] Hl. apply Encodes_block; [by apply Encodes_Packet|]. split; [by vm_compute|done].
Qed.

Lemma built_repr b es : built b LpTlv.LpPacket (wires es) -> wf_fields es -> lp_repr b es.
Proof.
  intros [Hv _ Hw _ Hs Hwf Ht] [Hes Hby]. injection Hv as Hty Hval.
  apply ReprWired; [done|by apply Hwf, wf_wires|done|done|done|by left].
Qed.

Lemma wire_hasWire b w : wire b = Ok w -> hasWire b = true.
Proof. unfold wire. by destruct (hasWire b). Qed.

(** A packet with header fields is encoded with them. *)
Lemma Packet_wire_headers p es : lp_repr p es -> wf_fields es -> len (wires es) < U64 -> (forall w, es <> [(LpTlv.Fragment, w)]) ->
  exists b, Packet_wire p = Ok (b, b) /\ lp_repr b es /\ wire b = Ok (tlv_wire LpTlv.LpPacket (wires es)) /\
    Block_size b = Ok (len (tlv_wire LpTlv.LpPacket (wires es))) /\ m_type b = LpTlv.LpPacket.
Proof.
  intros Hr Hw Hl Hne. unfold Packet_wire. pose proof Hr as [Ht Hb H2|Ht Hwf Hwi Hv Hz _].
  - unfold hasWire. rewrite Hb. destruct (encode_packet p es H2 Hw Hl) as (b&Hblk&Hbu).
    assert (Hgo : exists b, Encoder.block true (twoPass (fun E _ => Packet_wireEncode p)) = Ok b /\ lp_repr b es /\
      wire b = Ok (tlv_wire LpTlv.LpPacket (wires es)) /\ Block_size b = Ok (len (tlv_wire LpTlv.LpPacket (wires es))) /\ m_type b = LpTlv.LpPacket).
    { exists b. destruct Hbu as [Hv' ? ? ? ? ? ?]. split_and!; [done|by apply built_repr|done|done|by injection Hv']. }
    clear b Hblk Hbu. destruct Hgo as (b&Hblk&Hrest). exists b. split; [|done].
    destruct (m_subBlocks p) as [|f [|g l]] eqn:Hs; [by rewrite Hblk| |by rewrite Hblk].
    destruct (Z.eqb_spec (m_type f) LpTlv.Fragment) as [Hf|]; [|by rewrite Hblk]. exfalso.
    destruct es as [|x [|y es]]; [by inversion H2| |by apply Forall2_cons in H2 as [_ H2]; inversion H2].
    apply Forall2_cons in H2 as [Hx _]. rewrite (elem_ok_type _ _ Hx) in Hf. apply (Hne x.2). destruct x as [t v]. simpl in *. congruence.
  - rewrite (wire_hasWire _ _ Hwi). exists p. done.
Qed.

(** A packet that is only a fragment is encoded as the network packet. *)
Lemma Packet_wire_bare p es t v : lp_repr p es -> m_buffer p = None ->
  es = [(LpTlv.Fragment, tlv_wire t v)] -> wf_element (t, v) -> wf_bytes v -> wf_fields es ->
  (forall b, built b t v \/ elem_ok b (t, v) -> exists q, Block_parse b = Ok q) ->
  exists b, Packet_wire p = Ok (b, p) /\ wire b = Ok (tlv_wire t v) /\ m_type b = t /\
    Block_size b = Ok (len (tlv_wire t v)).
Proof.
  intros Hr Hb -> Hel Hv Hw Hin. unfold Packet_wire, hasWire. rewrite Hb.
  destruct Hr as [_ _ H2|_ _ Hwi _ _ _]; [|apply wire_hasWire in Hwi; unfold hasWire in Hwi; by rewrite Hb in Hwi].
  destruct (m_subBlocks p) as [|f l]; [by inversion H2|]. apply Forall2_cons in H2 as [Hf Hl].
  destruct l; [|by inversion Hl]. rewrite (elem_ok_type _ _ Hf). cbn [fst]. rewrite Z.eqb_refl.
  destruct (Block_parse_value f [(t, v)]) as (k&Hk&Hk2).
  - apply Hf. - apply Hf. - rewrite (elem_ok_value _ _ Hf). by rewrite wires_cons, app_nil_r.
  - split; by apply Forall_singleton.
  - rewrite Hk. cbn [rbind set_subBlocks m_subBlocks]. destruct k as [|n k]; [by inversion Hk2|].
    apply Forall2_cons in Hk2 as [Hn _]. destruct (Hin n (or_intror Hn)) as (q&Hq). rewrite Hq. cbn [rbind].
    exists q. split; [done|]. unfold Block_parse in Hq. destruct (parse n) as [n' [x|]] eqn:Hp; [done|]. injection Hq as <-.
    assert (Hsame : exists l, n' = set_subBlocks n l).
    { unfold parse in Hp. destruct (_ || _); [injection Hp as <-; exists (m_subBlocks n); by destruct n|].
      destruct (m_buffer n); [|injection Hp as <-; exists (m_subBlocks n); by destruct n].
      destruct (parse_loop _ _ _ _ _). injection Hp as <- _. by eexists. }
    destruct Hsame as (l&->). destruct Hn as [Hvw Hwi _ Ht _ _]. split_and!; [exact Hwi|by injection Hvw|exact Ht].
Qed.

(** ** Decoding *)

(** The field is known, or unknown but safe to ignore. *)
Definition acceptable (type : Z) : bool := isRecognized (FieldInfo_of type) || canIgnore (FieldInfo_of type).

(** The check of the elements accepts exactly acceptable types in strictly
    increasing order. *)
Lemma check_fields_iff l : forall prev, check_fields (FieldInfo_of <$> prev) l = Ok tt <->
  Forall (fun t => acceptable t = true) (map m_type l) /\ StronglySorted (fun t u => field_lt t u = true) (option_list prev ++ map m_type l).
Proof.
  assert (Htr : Transitive (fun t u => field_lt t u = true)) by (intros ???; rewrite !field_lt_iff; lia).
  induction l as [|b l IH]; intros prev; cbn [check_fields map].
  - rewrite app_nil_r. split; [|done]. intros _. split; [constructor|]. destruct prev; repeat constructor.
  - unfold acceptable in *. rewrite Forall_cons, <- negb_orb. set (i := FieldInfo_of (m_type b)).
    destruct (isRecognized i || canIgnore i) eqn:Ha; cbn [negb]; [|split; [done|intros [[? _] _]; done]].
    specialize (IH (Some (m_type b))). cbn [fmap option_fmap option_map option_list app] in IH. fold i in IH.
    destruct prev as [q|]; cbn [fmap option_fmap option_map option_list app].
    + destruct (FieldInfo_of_spec q) as (Hq&_&_), (FieldInfo_of_spec (m_type b)) as (Hi&Hrep&_). fold i in Hi, Hrep. rewrite Hi, Hq, Hrep.
      fold (field_lt q (m_type b)). change (compareFieldSortOrder (FieldInfo_of q) i) with (field_lt q (m_type b)).
      destruct (field_lt q (m_type b)) eqn:Hlt.
      * pose proof Hlt as Hlt'. rewrite field_lt_iff in Hlt'. rewrite (proj2 (Z.eqb_neq (m_type b) q)) by lia. cbn [andb negb].
        rewrite IH. split; [|by intros [[_ ?] [? _]%StronglySorted_inv]].
        intros [? Hs]. split; [done|]. constructor; [done|]. pose proof Hs as [_ Hb]%StronglySorted_inv.
        constructor; [done|]. eapply Forall_impl; [exact Hb|]. intros u Hu. simpl in Hu. by eapply Htr.
      * split; [by destruct (m_type b =? q)|]. intros [_ [_ Hb]%StronglySorted_inv]. apply Forall_cons in Hb as [Hb _]. congruence.
    + rewrite IH. tauto.
Qed.

Lemma check_fields_first l : check_fields None l = Ok tt <->
  Forall (fun t => acceptable t = true) (map m_type l) /\ StronglySorted (fun t u => field_lt t u = true) (map m_type l).
Proof. apply (check_fields_iff l None). Qed.

Lemma ordered_types es : ordered es <-> StronglySorted (fun t u => field_lt t u = true) (map fst es).
Proof.
  unfold ordered. induction es as [|x es IH]; cbn [map]; [split; constructor|].
  split; intros [Hs Hx]%StronglySorted_inv; (constructor; [by apply IH|]); by rewrite Forall_map in *.
Qed.

(** Decoding a block that holds the fields [es] *)
Lemma Packet_wireDecode_ok b es : built b LpTlv.LpPacket (wires es) -> wf_fields es -> ordered es ->
  Forall (fun t => acceptable t = true) (map fst es) ->
  exists q, Packet_wireDecode b = Ok q /\ lp_repr q es /\ map view (m_subBlocks q) = es.
Proof.
  intros Hb Hw Ho Ha. destruct (repr_parse b es (built_repr b es Hb Hw) Hw) as (q&Hp&Hq&H2&_).
  unfold Packet_wireDecode. destruct Hb as [Hv _ _ _ _ _ _]. injection Hv as Hty _. rewrite Hty. simpl. rewrite Hp. cbn [rbind].
  rewrite (proj2 (check_fields_first (m_subBlocks q))).
  - cbn [rbind]. exists q. split_and!; [done|done|by apply elem_ok_views].
  - rewrite (elem_ok_types _ es) by done. split; [done|by apply ordered_types].
Qed.

Lemma Packet_wireDecode_bare b t v : m_type b = t -> wire b = Ok (tlv_wire t v) -> t = TlvType.Interest \/ t = TlvType.Data ->
  len (tlv_wire t v) < U64 -> wf_element (t, v) -> wf_bytes v ->
  exists q, Packet_wireDecode b = Ok q /\ lp_repr q [(LpTlv.Fragment, tlv_wire t v)] /\ m_buffer q = None.
Proof.
  intros Hty Hw Ht Hl Hel Hb. unfold Packet_wireDecode. rewrite Hty.
  replace ((t =? TlvType.Interest) || (t =? TlvType.Data)) with true by (destruct Ht as [->| ->]; done).
  rewrite Hw. cbn [rbind]. destruct (fragmentField_ok (tlv_wire t v)) as (f&->&Hf); [done|by apply wf_tlv_wire|].
  apply (addField_spec Packet_new [] f (LpTlv.Fragment, tlv_wire t v)); [apply repr_new|split; constructor|done|apply not_elem_of_nil].
Qed.

(** A link packet with header fields survives encoding and decoding: the
    bytes it is encoded to are read back as a packet with the same fields in
    the same order, whether it was put together field by field or has an
    encoding already. *)
Theorem lp_packet_roundtrip p es : lp_repr p es -> wf_fields es -> ordered es ->
  Forall (fun t => acceptable t = true) (map fst es) -> len (wires es) < U64 -> (forall w, es <> [(LpTlv.Fragment, w)]) ->
  exists b w r q, Packet_wire p = Ok (b, b) /\ wire b = Ok w /\ Block_of_buffer w = Ok r /\
    Packet_wireDecode r = Ok q /\ map view (m_subBlocks q) = es.
Proof.
  intros Hr Hw Ho Ha Hl Hne. destruct (Packet_wire_headers p es Hr Hw Hl Hne) as (b&Hb&_&Hwi&_).
  destruct (Block_of_buffer_built LpTlv.LpPacket (wires es)) as (r&Hr'&Hbu); [split; [by vm_compute|done]|].
  destruct (Packet_wireDecode_ok r es Hbu Hw Ho Ha) as (q&Hq&_&Hv). by exists b, (tlv_wire LpTlv.LpPacket (wires es)), r, q.
Qed.

(** The decoder accepts a link packet exactly when its value is a sequence of
    elements, each of a known type or of an unknown type that may be ignored,
    in strictly increasing order with the fragment last: a field never occurs
    twice. *)
Theorem lp_decode_accepts b : m_type b = LpTlv.LpPacket ->
  is_ok (Packet_wireDecode b) = true <->
  exists q, Block_parse b = Ok q /\ Forall (fun t => acceptable t = true) (map m_type (m_subBlocks q)) /\
    StronglySorted (fun t u => t <> LpTlv.Fragment /\ (u = LpTlv.Fragment \/ t < u)) (map m_type (m_subBlocks q)).
Proof.
  intros Ht. unfold Packet_wireDecode. rewrite Ht. simpl. destruct (Block_parse b) as [q|e] eqn:Hp; cbn [rbind].
  2: { split; [done|]. by intros (q&?&_). }
  assert (Hss : forall l, StronglySorted (fun t u => field_lt t u = true) l <->
    StronglySorted (fun t u => t <> LpTlv.Fragment /\ (u = LpTlv.Fragment \/ t < u)) l).
  { intros l. split; induction 1; constructor; try done; (eapply Forall_impl; [done|]); intros ? ?; by apply field_lt_iff. }
  pose proof (check_fields_first (m_subBlocks q)) as Hiff. rewrite Hss in Hiff.
  destruct (check_fields None (m_subBlocks q)) as [[]|x]; cbn [rbind is_ok].
  - split; [intros _; exists q; split; [done|by apply Hiff]|done].
  - split; [done|]. intros (q'&[= <-]&Hc). by apply Hiff in Hc.
Qed.

(** ** A packet *)

Module LpSamples.
(** A network packet of 62 bytes, and a packet that carries it to face 7 *)
Definition net : list Z := [5; 60] ++ replicate 60 65.
Definition headers : list (Z * list Z) := [(LpTlv.NextHopFaceId, [7])].
Definition packet : LpPacket := Eval vm_compute in
  from_ok Packet_new
    (let! p := addField LpTlv.Fragment (fragmentField net) Packet_new in
     addField LpTlv.NextHopFaceId (integerField LpTlv.NextHopFaceId 7) p).
Definition packet_fields : list (Z * list Z) := headers ++ [(LpTlv.Fragment, net)].

Lemma wf_packet_fields : wf_fields packet_fields.
Proof. by_decide. Qed.

Lemma repr_packet : lp_repr packet packet_fields.
Proof.
  destruct (fragmentField_ok net) as (f&Hf&Hfo); [done|by_decide|].
  destruct (addField_spec Packet_new [] f (LpTlv.Fragment, net) repr_new) as (p&Hp&Hpr&_); [split; constructor|done|apply not_elem_of_nil|].
  destruct (integerField_ok LpTlv.NextHopFaceId 7) as (g&Hg&Hgo); [by vm_compute|done|].
  destruct (addField_spec p _ g (LpTlv.NextHopFaceId, encoderIntegerBytes 7) Hpr) as (q&Hq&Hqr&_); [by_decide|done|by_decide|].
  assert (Heq : Ok packet = Ok q).
  { transitivity (let! p := addField LpTlv.Fragment (fragmentField net) Packet_new in
                  addField LpTlv.NextHopFaceId (integerField LpTlv.NextHopFaceId 7) p); [by vm_compute|].
    rewrite Hf, Hg. cbn [fst] in Hp. rewrite Hp. cbn [rbind]. exact Hq. }
  injection Heq as ->. exact Hqr.
Qed.

Lemma ordered_packet_fields : ordered packet_fields.
Proof. repeat constructor. Qed.

Lemma acceptable_packet_fields : Forall (fun t => acceptable t = true) (map fst packet_fields).
Proof. repeat constructor. Qed.

Lemma lp_packet_roundtrip_witness : exists b w r q, Packet_wire packet = Ok (b, b) /\ wire b = Ok w /\ Block_of_buffer w = Ok r /\
  Packet_wireDecode r = Ok q /\ map view (m_subBlocks q) = packet_fields.
Proof.
  apply lp_packet_roundtrip;
    [exact repr_packet|exact wf_packet_fields|exact ordered_packet_fields|exact acceptable_packet_fields|reflexivity|intros w; discriminate].
Defined.

(** An unknown field that may be ignored, and one that may not *)
Definition with_unknown (t : Z) : Block := from_ok Block_empty (Block_of_buffer (tlv_wire LpTlv.LpPacket (wires ((t, []) :: [(LpTlv.Fragment, net)])))).

Lemma lp_decode_accepts_witness :
  is_ok (Packet_wireDecode (with_unknown 901)) = true /\ is_ok (Packet_wireDecode (with_unknown 900)) = false.
Proof.
  split; [|vm_compute; reflexivity].
  apply (lp_decode_accepts (with_unknown 901)); [reflexivity|]. eexists. split; [vm_compute; reflexivity|].
  split; [repeat constructor|]. repeat constructor; vm_compute; congruence.
Defined.
End LpSamples.
