(* ===== verification/LpFragmenter.v ===== *)
(** * Fragmentation: [NFD/daemon/face/lp-fragmenter.cpp]

    A link packet that does not fit into the MTU is split: its fragment is cut
    into pieces, the first of which travels with the other fields. *)

From S2P Require Import Prelude Tlv Block Encoder Elements LpPacket.

Definition MAX_SINGLE_FRAG_OVERHEAD : Z := 1 + 9 + (1 + 1 + 8) + (1 + 9).
Definition MAX_FRAG_OVERHEAD : Z := 1 + 9 + (1 + 1 + 8) + (1 + 1 + 8) + (1 + 1 + 8) + (1 + 9).

(** The sizes of the elements other than the fragment *)
Fixpoint header_size (l : list Block) : result Z :=
  match l with
  | [] => Ok 0
  | element :: l' =>
      let! n := header_size l' in
      if m_type element =? LpTlv.Fragment then Ok n
      else let! k := Block_size element in Ok (k + n)
  end.

(** One fragment: the fields added to [frag] *)
Definition make_fragment (fragIndex fragCount : Z) (payload : list Z) (frag : LpPacket) : result LpPacket :=
  let! frag := addField LpTlv.FragIndex (integerField LpTlv.FragIndex fragIndex) frag in
  let! frag := addField LpTlv.FragCount (integerField LpTlv.FragCount fragCount) frag in
  setField LpTlv.Fragment (fragmentField payload) frag.

(** The loop that fills the fragments; [size] is the distance from [fragBegin] to
    [fragEnd], and [rest] is what follows [fragBegin].  Each turn takes a byte at
    least, so the length of [rest] is enough fuel. *)
Fixpoint populate (fuel : nat) (packet : LpPacket) (fragIndex fragCount size payloadSize : Z) (rest : list Z)
  : result (list LpPacket) :=
  match fuel, rest with
  | S fuel', _ :: _ =>
      let! frag := make_fragment fragIndex fragCount (take (Z.to_nat size) rest) packet in
      let rest' := drop (Z.to_nat size) rest in
      let! l := populate fuel' Packet_new (fragIndex + 1) fragCount (Z.min (len rest') payloadSize) payloadSize rest' in
      Ok (frag :: l)
  | _, _ => Ok []
  end.

(** The assertions on a packet that is not a fragment *)
Definition assert_whole (packet : LpPacket) : result unit :=
  let! hasIndex := hasField LpTlv.FragIndex packet in
  let! hasCount := hasField LpTlv.FragCount packet in
  if hasIndex || hasCount then Err AssertFailed else Ok tt.

(** [LpFragmenter::fragmentPacket]; [None] is the result [false].  The assertion of the
    loop, that the encoding of a fragment is not larger than the MTU, is left out of
    [populate], since it would encode the fragment there; [fragmenter_correct] shows that
    it holds. *)
Definition fragmentPacket (nMaxFragments : Z) (packet : LpPacket) (mtu : Z) : result (option (list LpPacket)) :=
  let! hasFragment := hasField LpTlv.Fragment packet in
  if negb hasFragment then Err AssertFailed else
  let! _ := assert_whole packet in
  let! (w, packet) := Packet_wire packet in
  let! size := Block_size w in
  if MAX_SINGLE_FRAG_OVERHEAD + size <=? mtu then Ok (Some [packet])
  else
    let! netPkt := getFragment packet in
    let! packet := Block_parse packet in
    let netPktSize := len netPkt in
    let! (packetWire, packet) := Packet_wire packet in
    let! firstHeaderSize :=
      if m_type packetWire =? LpTlv.LpPacket then header_size (m_subBlocks packetWire) else Ok 0 in
    if mtu <? MAX_FRAG_OVERHEAD + firstHeaderSize + 1 then Ok None
    else
      let firstPayloadSize := Z.min netPktSize (mtu - firstHeaderSize - MAX_FRAG_OVERHEAD) in
      let payloadSize := mtu - MAX_FRAG_OVERHEAD in
      let fragCount := 1 + (netPktSize - firstPayloadSize) / payloadSize +
                       (if (netPktSize - firstPayloadSize) mod payloadSize =? 0 then 0 else 1) in
      if nMaxFragments <? fragCount then Ok None
      else
        let! frags := populate (length netPkt) packet 0 fragCount firstPayloadSize payloadSize netPkt in
        if len frags =? fragCount then Ok (Some frags) else Err OutOfRange.

(** ** The pieces *)

Fixpoint chunks (fuel : nat) (size payloadSize : Z) (rest : list Z) : list (list Z) :=
  match fuel, rest with
  | S fuel', _ :: _ =>
      let rest' := drop (Z.to_nat size) rest in
      take (Z.to_nat size) rest :: chunks fuel' (Z.min (len rest') payloadSize) payloadSize rest'
  | _, _ => []
  end.

Lemma chunks_spec fuel : forall size pay rest, (length rest <= fuel)%nat -> 1 <= pay -> size <= len rest -> (rest <> [] -> 1 <= size) ->
  concat (chunks fuel size pay rest) = rest /\
  (forall c k, chunks fuel size pay rest !! k = Some c -> c <> [] /\ len c <= if (k =? 0)%nat then size else pay) /\
  len (chunks fuel size pay rest) = if (length rest =? 0)%nat then 0 else
    1 + (len rest - size) / pay + (if (len rest - size) mod pay =? 0 then 0 else 1).
Proof.
  induction fuel as [|fuel IH]; intros size pay rest Hf Hp Hs H1.
  { destruct rest; [|simpl in Hf; lia]. done. }
  destruct rest as [|b rest0]; [done|]. cbn [chunks]. set (rest := b :: rest0) in *. specialize (H1 ltac:(done)).
  assert (Hlr : (1 <= length rest)%nat) by (unfold rest; simpl; lia).
  set (rest' := drop (Z.to_nat size) rest). assert (Hr : len rest' = len rest - size).
  { unfold rest', len. rewrite length_drop. unfold len in Hs. lia. }
  destruct (IH (Z.min (len rest') pay) pay rest') as (Hc&Hall&Hlen).
  - unfold len in Hr. lia.
  - done.
  - lia.
  - intros Hne. assert (1 <= len rest'); [|lia]. destruct rest'; [done|]. unfold len. simpl. lia.
  - split_and!.
    + cbn [concat]. rewrite Hc. apply take_drop.
    + intros c [|k] Hk; cbn in Hk.
      * injection Hk as <-. cbn [Nat.eqb]. split.
        -- intros He%(f_equal length). rewrite length_take in He. simpl in He. lia.
        -- unfold len. rewrite length_take. lia.
      * destruct (Hall c k Hk) as [? Hle]. split; [done|]. simpl. destruct (k =? 0)%nat; lia.
    + rewrite len_cons, Hlen. rewrite (proj2 (Nat.eqb_neq (length rest) 0)) by lia. rewrite <- Hr.
      destruct (Nat.eqb_spec (length rest') 0) as [Hz|Hz].
      * assert (len rest' = 0) as -> by (unfold len; lia). rewrite Z.div_0_l, Z.mod_0_l by lia. done.
      * assert (Hpos : 1 <= len rest') by (unfold len; lia). clearbody rest'. clear -Hpos Hp.
        destruct (Z.min_spec (len rest') pay) as [[? ->]|[? ->]].
        -- rewrite Z.sub_diag, Z.div_0_l, Z.mod_0_l by lia. rewrite Z.div_small, Z.mod_small by lia.
           rewrite (proj2 (Z.eqb_neq (len rest') 0)) by lia. simpl. lia.
        -- replace (len rest') with (len rest' - pay + 1 * pay) at 3 4 by lia. rewrite Z.div_add, Z.mod_add by lia. lia.
Qed.

(** ** The fields of a fragment *)

Definition frag_fields (fragIndex fragCount : Z) (payload : list Z) (base : list (Z * list Z)) : list (Z * list Z) :=
  ins (LpTlv.Fragment, payload)
    (without_field LpTlv.Fragment
       (ins (LpTlv.FragCount, encoderIntegerBytes fragCount) (ins (LpTlv.FragIndex, encoderIntegerBytes fragIndex) base))).

Fixpoint frag_list (fragIndex fragCount : Z) (base : list (Z * list Z)) (cs : list (list Z)) : list (list (Z * list Z)) :=
  match cs with
  | [] => []
  | c :: cs' => frag_fields fragIndex fragCount c base :: frag_list (fragIndex + 1) fragCount [] cs'
  end.

(** The fields with a sequence number, as the link service assigns it *)
Definition with_sequence (seq : Z) (es : list (Z * list Z)) : list (Z * list Z) :=
  ins (LpTlv.Sequence, encoderIntegerBytes seq) (without_field LpTlv.Sequence es).

Definition not_fragmented (es : list (Z * list Z)) : Prop := (LpTlv.FragIndex ∉ map fst es) /\ (LpTlv.FragCount ∉ map fst es).

Lemma wf_fields_ins x es : wf_element x -> wf_bytes x.2 -> wf_fields es -> wf_fields (ins x es).
Proof. intros H1 H2 H3. eapply wf_fields_perm; [symmetry; apply ins_perm|]. by apply wf_fields_cons. Qed.

Lemma types_ins x es t : t ∈ map fst (ins x es) <-> t = x.1 \/ t ∈ map fst es.
Proof. rewrite (Permutation_map fst (ins_perm x es)). cbn [map]. by rewrite elem_of_cons. Qed.

Lemma types_without t u es : t ∈ map fst (without_field u es) <-> t <> u /\ t ∈ map fst es.
Proof.
  unfold without_field. rewrite !list_elem_of_fmap. setoid_rewrite list_elem_of_In. setoid_rewrite List.filter_In.
  setoid_rewrite negb_true_iff. setoid_rewrite Z.eqb_neq. naive_solver.
Qed.

(** Well-formed, ordered, acceptable: what every packet here keeps. *)
Record good_fields (es : list (Z * list Z)) : Prop := {
  gf_wf : wf_fields es;
  gf_ordered : ordered es;
  gf_accept : Forall (fun t => acceptable t = true) (map fst es)
}.

Lemma good_nil : good_fields [].
Proof. split; [split; constructor|constructor|constructor]. Qed.

Lemma good_ins x es : good_fields es -> wf_element x -> wf_bytes x.2 -> acceptable x.1 = true -> x.1 ∉ map fst es -> good_fields (ins x es).
Proof.
  intros [Hw Ho Ha] H1 H2 H3 H4. split; [by apply wf_fields_ins|by apply ins_ordered|].
  apply Forall_forall. intros t [->|Ht]%types_ins; [done|]. rewrite Forall_forall in Ha. by apply Ha.
Qed.

Lemma good_without t es : good_fields es -> good_fields (without_field t es).
Proof.
  intros [Hw Ho Ha]. split; [by apply wf_fields_without|by apply ordered_without|].
  apply Forall_forall. intros u [_ Hu]%types_without. rewrite Forall_forall in Ha. by apply Ha.
Qed.

Lemma good_integer t n es : good_fields es -> 0 <= t < U32 -> 0 <= n -> acceptable t = true -> t ∉ map fst es ->
  good_fields (ins (t, encoderIntegerBytes n) es).
Proof. intros Hg Ht Hn Ha Hnot. destruct (wf_integer_field t n Ht Hn). by apply good_ins. Qed.

Lemma good_frag i n c base : good_fields base -> not_fragmented base -> 0 <= i -> 0 <= n -> wf_bytes c -> len c < U64 ->
  good_fields (frag_fields i n c base).
Proof.
  intros Hg [H1 H2] Hi Hn Hc Hl. unfold frag_fields. apply good_ins; [|split; [by vm_compute|done]|done|done|apply without_not_in].
  apply good_without. apply good_integer; [|by vm_compute|done|done|].
  - apply good_integer; [done|by vm_compute|done|done|done].
  - intros [?|?]%types_ins; done.
Qed.

Lemma good_sequence s es : good_fields es -> 0 <= s -> good_fields (with_sequence s es).
Proof. intros Hg Hs. unfold with_sequence. apply good_integer; [by apply good_without|by vm_compute|done|done|apply without_not_in]. Qed.

Lemma make_fragment_spec i n c p base : lp_repr p base -> good_fields base -> not_fragmented base -> 0 <= i -> 0 <= n ->
  wf_bytes c -> len c < U64 ->
  exists q, make_fragment i n c p = Ok q /\ lp_repr q (frag_fields i n c base) /\ m_buffer q = None.
Proof.
  intros Hr Hg [H1 H2] Hi Hn Hc Hl. unfold make_fragment.
  destruct (integerField_ok LpTlv.FragIndex i) as (b1&->&Hb1); [by vm_compute|done|].
  destruct (addField_spec p base b1 _ Hr (gf_wf _ Hg) Hb1 H1) as (q1&Hq1&Hr1&_). cbn [fst] in Hq1. rewrite Hq1. cbn [rbind].
  assert (Hg1 : good_fields (ins (LpTlv.FragIndex, encoderIntegerBytes i) base)) by (apply good_integer; try done; by vm_compute).
  destruct (integerField_ok LpTlv.FragCount n) as (b2&->&Hb2); [by vm_compute|done|].
  assert (Hn2 : LpTlv.FragCount ∉ map fst (ins (LpTlv.FragIndex, encoderIntegerBytes i) base)) by (intros [?|?]%types_ins; done).
  destruct (addField_spec q1 _ b2 _ Hr1 (gf_wf _ Hg1) Hb2 Hn2) as (q2&Hq2&Hr2&_). cbn [fst] in Hq2. rewrite Hq2. cbn [rbind].
  destruct (fragmentField_ok c Hl Hc) as (b3&->&Hb3).
  apply (setField_spec q2 _ b3 (LpTlv.Fragment, c) Hr2); [|done].
  apply gf_wf. apply good_integer; try done; by vm_compute.
Qed.

Lemma populate_spec fuel : forall p base i n size pay rest, lp_repr p base -> good_fields base -> not_fragmented base ->
  0 <= i -> 0 <= n -> wf_bytes rest -> len rest < U64 ->
  exists l, populate fuel p i n size pay rest = Ok l /\
    Forall2 (fun q es => lp_repr q es /\ m_buffer q = None) l (frag_list i n base (chunks fuel size pay rest)).
Proof.
  induction fuel as [|fuel IH]; intros p base i n size pay rest Hr Hg Hnf Hi Hn Hw Hl.
  { exists []. split; [by destruct rest|by destruct rest]. }
  cbn [populate chunks]. destruct rest as [|b rest0] eqn:Hrest; [exists []; split; [done|constructor]|]. rewrite <- Hrest in *. clear Hrest.
  destruct (make_fragment_spec i n (take (Z.to_nat size) rest) p base) as (q&Hq&Hqr&Hqb); try done.
  { by apply wf_bytes_take. } { unfold len in *. rewrite length_take. lia. }
  rewrite Hq. cbn [rbind].
  destruct (IH Packet_new [] (i + 1) n (Z.min (len (drop (Z.to_nat size) rest)) pay) pay (drop (Z.to_nat size) rest)) as (l&Hp&H2).
  - apply repr_new.
  - apply good_nil.
  - split; apply not_elem_of_nil.
  - lia.
  - done.
  - by apply wf_bytes_drop.
  - unfold len in *. rewrite length_drop. lia.
  - rewrite Hp. cbn [rbind]. eexists. split; [done|]. cbn [frag_list]. by constructor.
Qed.

(** ** Sizes *)

Definition header_bytes (es : list (Z * list Z)) : Z := len (wires (without_field LpTlv.Fragment es)).

Lemma header_size_spec l es : Forall2 elem_ok l es -> header_size l = Ok (header_bytes es).
Proof.
  unfold header_bytes, without_field. induction 1 as [|b [t v] l es Hx Hl IH]; [done|]. cbn [header_size List.filter]. rewrite IH. cbn [rbind].
  rewrite (elem_ok_type _ _ Hx). cbn [fst]. destruct (t =? LpTlv.Fragment); cbn [negb]; [done|].
  rewrite (ek_total _ _ Hx). cbn [rbind fst snd]. by rewrite wires_cons, len_app.
Qed.

Lemma len_tlv_wire_small t v : 0 <= t < 253 -> len v < U64 -> 2 + len v <= len (tlv_wire t v) <= 10 + len v.
Proof.
  intros Ht Hl. pose proof (len_nonneg v). unfold tlv_wire. rewrite !len_app, !len_writeVarNumber. unfold sizeOfVarNumber.
  repeat case_bool; lia.
Qed.

Lemma len_integer_field t n : 0 <= t < 253 -> len (tlv_wire t (encoderIntegerBytes n)) <= 10.
Proof.
  intros Ht. unfold tlv_wire. rewrite !len_app, !len_writeVarNumber, len_encoderIntegerBytes. unfold encoderIntegerSize, sizeOfVarNumber.
  repeat case_bool; lia.
Qed.

Lemma len_wires_without t es : len (wires (without_field t es)) <= len (wires es).
Proof.
  unfold without_field. induction es as [|[u v] es IH]; [done|]. cbn [List.filter]. rewrite wires_cons, len_app.
  pose proof (len_nonneg (tlv_wire u v)). destruct (negb _); [rewrite wires_cons, len_app|]; lia.
Qed.

Lemma len_wires_ins x es : len (wires (ins x es)) = len (tlv_wire x.1 x.2) + len (wires es).
Proof. rewrite (len_wires_perm _ _ (ins_perm x es)). destruct x. by rewrite wires_cons, len_app. Qed.

Lemma without_ins t x es : x.1 <> t -> without_field t (ins x es) ≡ₚ x :: without_field t es.
Proof.
  intros Hne. unfold without_field.
  assert (Hp : forall l1 l2, l1 ≡ₚ l2 -> List.filter (fun x : Z * list Z => negb (x.1 =? t)) l1 ≡ₚ List.filter (fun x => negb (x.1 =? t)) l2).
  { induction 1 as [|y ? ? ? IH|y z ?|]; cbn [List.filter]; repeat destruct (negb _); try done; [by rewrite IH|by apply Permutation_swap|by etrans]. }
  rewrite (Hp _ _ (ins_perm x es)). cbn [List.filter]. by rewrite (proj2 (Z.eqb_neq _ _) Hne).
Qed.

Lemma types_small : (0 <= LpTlv.Sequence < 253) /\ (0 <= LpTlv.Fragment < 253) /\ (0 <= LpTlv.FragCount < 253) /\
  (0 <= LpTlv.FragIndex < 253) /\ (0 <= LpTlv.LpPacket < 253) /\ LpTlv.FragCount <> LpTlv.Fragment /\ LpTlv.FragIndex <> LpTlv.Fragment.
Proof. by vm_compute. Qed.

(** A fragment with its sequence number is within the overhead that the
    fragmenter reckons with. *)
Lemma fragment_fits i n c base s : len c < U64 -> len (wires base) < 2 ^ 60 -> len c < 2 ^ 60 ->
  let w := wires (with_sequence s (frag_fields i n c base)) in
  len w < U64 /\ len (tlv_wire LpTlv.LpPacket w) <= MAX_FRAG_OVERHEAD + header_bytes base + len c.
Proof.
  intros Hc Hb Hc' w. destruct types_small as (Tseq&Tfrag&Tcount&Tindex&Tlp&Tc&Ti).
  assert (Hw : len w <= 10 + (10 + len c) + 10 + 10 + header_bytes base).
  { unfold w, with_sequence. rewrite len_wires_ins. cbn [fst snd]. pose proof (len_integer_field LpTlv.Sequence s Tseq).
    pose proof (len_wires_without LpTlv.Sequence (frag_fields i n c base)) as H1. unfold frag_fields in H1 at 2.
    rewrite len_wires_ins in H1. cbn [fst snd] in H1. pose proof (len_tlv_wire_small LpTlv.Fragment c Tfrag Hc).
    rewrite (len_wires_perm _ _ (without_ins _ (LpTlv.FragCount, _) _ Tc)), wires_cons, len_app in H1.
    rewrite (len_wires_perm _ _ (without_ins _ (LpTlv.FragIndex, _) _ Ti)), wires_cons, len_app in H1.
    pose proof (len_integer_field LpTlv.FragCount n Tcount). pose proof (len_integer_field LpTlv.FragIndex i Tindex).
    unfold header_bytes. lia. }
  assert (Hlt : len w < U64).
  { pose proof (len_wires_without LpTlv.Fragment base). unfold header_bytes, U64 in *. lia. }
  split; [done|]. pose proof (len_tlv_wire_small LpTlv.LpPacket w Tlp Hlt). unfold MAX_FRAG_OVERHEAD. lia.
Qed.

(** ** The fragmenter *)

(** The packet can be encoded, in [size] bytes: with its header fields, or as
    the network packet it carries. *)
Inductive encodable (p : LpPacket) (es : list (Z * list Z)) (size : Z) : Prop :=
| EncHeaders b : lp_repr p es -> Packet_wire p = Ok (b, b) -> lp_repr b es -> hasWire b = true -> m_type b = LpTlv.LpPacket ->
    Block_size b = Ok size -> size = len (tlv_wire LpTlv.LpPacket (wires es)) -> encodable p es size
| EncBare b net : es = [(LpTlv.Fragment, net)] -> Packet_wire p = Ok (b, p) -> lp_repr p es -> m_buffer p = None ->
    m_type b <> LpTlv.LpPacket -> Block_size b = Ok size -> size = len net -> encodable p es size.

Lemma encodable_headers p es : lp_repr p es -> wf_fields es -> len (wires es) < U64 -> (forall w, es <> [(LpTlv.Fragment, w)]) ->
  encodable p es (len (tlv_wire LpTlv.LpPacket (wires es))).
Proof.
  intros Hr Hw Hl Hne. destruct (Packet_wire_headers p es Hr Hw Hl Hne) as (b&Hb&Hrb&Hwi&Hs&Ht).
  apply (EncHeaders _ _ _ b); try done. by eapply wire_hasWire.
Qed.

Lemma encodable_repr p es size : encodable p es size -> lp_repr p es.
Proof. by intros []. Qed.

Lemma assert_whole_ok p es : lp_repr p es -> wf_fields es -> not_fragmented es -> assert_whole p = Ok tt.
Proof.
  intros Hr Hw [Hi Hc]. unfold assert_whole. rewrite !(hasField_spec _ p es Hr Hw). cbn [rbind]. by rewrite !bool_decide_false.
Qed.

Lemma Block_parse_fresh p : m_buffer p = None -> Block_parse p = Ok p.
Proof. intros Hb. unfold Block_parse. by rewrite parse_empty by (unfold value_size, hasValue; by rewrite Hb). Qed.

(** What the slow path finds out before it splits the packet *)
Lemma slow_path p es size net : encodable p es size -> good_fields es -> (LpTlv.Fragment, net) ∈ es -> net <> [] ->
  exists w p1 p2 pw p3, Packet_wire p = Ok (w, p1) /\ Block_size w = Ok size /\ lp_repr p1 es /\ getFragment p1 = Ok net /\
    Block_parse p1 = Ok p2 /\ Packet_wire p2 = Ok (pw, p3) /\ lp_repr p3 es /\
    (if m_type pw =? LpTlv.LpPacket then header_size (m_subBlocks pw) else Ok 0) = Ok (header_bytes es) /\
    size <= 20 + header_bytes es + len net.
Proof.
  intros He [Hw Ho _] Hin Hne. pose proof (ordered_NoDup es Ho) as Hnd.
  destruct He as [b _ Hb Hr Hwi Ht Hs ->|b net' -> Hb Hr Hfr Ht Hs ->].
  - destruct (repr_parse b es Hr Hw) as (q&Hq&Hqr&H2&Hqw&_). exists b, b, q, q, q.
    assert (Hqt : m_type q = LpTlv.LpPacket) by (by destruct Hqr).
    split_and!; try done.
    + by eapply getFragment_spec.
    + unfold Packet_wire. by rewrite Hqw, Hwi.
    + rewrite Hqt, Z.eqb_refl. by apply header_size_spec.
    + assert (Hsplit : len (wires es) = len (tlv_wire LpTlv.Fragment net) + header_bytes es).
      { assert (Hp : es ≡ₚ (LpTlv.Fragment, net) :: without_field LpTlv.Fragment es).
        { clear -Hin Hnd. induction es as [|x es IH]; [by apply elem_of_nil in Hin|]. cbn [map] in Hnd. apply NoDup_cons in Hnd as [Hx Hnd].
          unfold without_field in *. cbn [List.filter]. apply elem_of_cons in Hin as [<-|Hin].
          - cbn [fst]. rewrite Z.eqb_refl. cbn [negb]. fold (without_field LpTlv.Fragment es). by rewrite without_same.
          - destruct (Z.eqb_spec x.1 LpTlv.Fragment) as [He|]; cbn [negb].
            + exfalso. apply Hx. rewrite He. apply list_elem_of_fmap. by exists (LpTlv.Fragment, net).
            + rewrite (IH Hin Hnd) at 1. apply Permutation_swap. }
        rewrite (len_wires_perm _ _ Hp), wires_cons, len_app. done. }
      destruct types_small as (_&Tf&_&_&Tl&_). destruct Hw as [Hel _]. rewrite Forall_forall in Hel. pose proof (Hel _ Hin) as [_ Hl]. simpl in Hl.
      pose proof (len_tlv_wire_small LpTlv.Fragment net Tf Hl).
      assert (Hsz : len (tlv_wire LpTlv.LpPacket (wires es)) <= 10 + len (wires es)).
      { unfold tlv_wire. rewrite !len_app, !len_writeVarNumber. unfold sizeOfVarNumber, LpTlv.LpPacket. repeat case_bool; lia. }
      lia.
  - apply list_elem_of_singleton in Hin. injection Hin as ->.
    exists b, p, p, b, p. rewrite (Block_parse_fresh p Hfr).
    split_and!; try done.
    + eapply getFragment_spec; try done. by left.
    + by rewrite (proj2 (Z.eqb_neq _ _) Ht).
    + unfold header_bytes, without_field, len. simpl. lia.
Qed.

Lemma frag_list_lookup cs : forall i n base k fs, frag_list i n base cs !! k = Some fs ->
  exists c, cs !! k = Some c /\ fs = frag_fields (i + Z.of_nat k) n c (if (k =? 0)%nat then base else []).
Proof.
  induction cs as [|c cs IH]; intros i n base k fs Hk; [done|]. destruct k as [|k]; cbn in Hk.
  - injection Hk as <-. exists c. by rewrite Z.add_0_r.
  - destruct (IH _ _ _ _ _ Hk) as (c'&Hc'&->). exists c'. split; [done|]. replace (i + 1 + Z.of_nat k) with (i + Z.of_nat (S k)) by lia.
    by destruct k.
Qed.

Lemma frag_list_length cs : forall i n base, length (frag_list i n base cs) = length cs.
Proof. induction cs as [|c cs IH]; intros; [done|]. cbn [frag_list length]. by rewrite IH. Qed.

(** [l] are fragments of the packet with fields [es]: they carry the pieces of
    [net] in order, numbered from 0, the first one with the other fields. *)
Definition fragments (mtu : Z) (es : list (Z * list Z)) (net : list Z) (l : list LpPacket) : Prop :=
  exists cs, concat cs = net /\ (forall c, c ∈ cs -> c <> []) /\
    Forall2 (fun q fs => lp_repr q fs /\ m_buffer q = None) l (frag_list 0 (len l) es cs) /\
    (forall fs s, fs ∈ frag_list 0 (len l) es cs ->
       len (wires (with_sequence s fs)) < U64 /\ len (tlv_wire LpTlv.LpPacket (wires (with_sequence s fs))) <= mtu).

(** The fragmenter leaves a packet whole exactly when it fits into the MTU
    with room for a sequence number; otherwise it drops it, when the MTU has no
    room for the header fields and a byte or the limit of fragments is too small
    for its size, or splits it into at least two fragments: their payloads,
    none empty, are together the network packet, and each of them, with its
    sequence number, fits into the MTU. *)
Theorem fragmenter_correct nMax p es size net mtu : encodable p es size -> good_fields es -> not_fragmented es ->
  (LpTlv.Fragment, net) ∈ es -> net <> [] -> len (wires es) < 2 ^ 60 ->
  (MAX_SINGLE_FRAG_OVERHEAD + size <= mtu /\ exists w q, Packet_wire p = Ok (w, q) /\ fragmentPacket nMax p mtu = Ok (Some [q]) /\ lp_repr q es) \/
  (mtu < MAX_SINGLE_FRAG_OVERHEAD + size /\ fragmentPacket nMax p mtu = Ok None /\
     (mtu <= MAX_FRAG_OVERHEAD + header_bytes es \/ nMax * (mtu - MAX_FRAG_OVERHEAD) < header_bytes es + len net)) \/
  (mtu < MAX_SINGLE_FRAG_OVERHEAD + size /\ exists frags, fragmentPacket nMax p mtu = Ok (Some frags) /\
     2 <= len frags <= nMax /\ fragments mtu es net frags).
Proof.
  intros He Hg Hnf Hin Hne Hl60. destruct (slow_path p es size net He Hg Hin Hne) as (w&p1&p2&pw&p3&Hw&Hsz&Hr1&Hnet&Hp2&Hpw&Hr3&Hhdr&Hle).
  pose proof (encodable_repr _ _ _ He) as Hr0. unfold fragmentPacket.
  rewrite (hasField_spec _ p es Hr0 (gf_wf _ Hg)), bool_decide_true by (apply list_elem_of_fmap; by exists (LpTlv.Fragment, net)).
  cbn [rbind negb]. rewrite (assert_whole_ok p es Hr0 (gf_wf _ Hg) Hnf). cbn [rbind]. rewrite Hw. cbn [rbind]. rewrite Hsz. cbn [rbind].
  destruct (Z.leb_spec (MAX_SINGLE_FRAG_OVERHEAD + size) mtu) as [Hfit|Hbig]; [left; split; [done|by exists w, p1]|right].
  rewrite Hnet. cbn [rbind]. rewrite Hp2. cbn [rbind]. rewrite Hpw. cbn [rbind]. rewrite Hhdr. cbn [rbind]. set (h := header_bytes es) in *.
  assert (H0 : 0 <= h) by apply len_nonneg.
  destruct (Z.ltb_spec mtu (MAX_FRAG_OVERHEAD + h + 1)); [left; split_and!; [done|done|left; lia]|].
  assert (Hfirst : Z.min (len net) (mtu - h - MAX_FRAG_OVERHEAD) = mtu - h - MAX_FRAG_OVERHEAD).
  { unfold MAX_SINGLE_FRAG_OVERHEAD, MAX_FRAG_OVERHEAD in *. lia. }
  rewrite Hfirst. set (first := mtu - h - MAX_FRAG_OVERHEAD) in *. set (pay := mtu - MAX_FRAG_OVERHEAD).
  assert (Hlt : first < len net) by (unfold first, MAX_SINGLE_FRAG_OVERHEAD, MAX_FRAG_OVERHEAD in *; lia).
  assert (Hpay : 1 <= pay) by (unfold pay, first in *; lia).
  assert (Hnetel : wf_bytes net /\ len net < U64).
  { destruct Hg as [[Hel Hby] _ _]. rewrite Forall_forall in Hel, Hby. split; [apply (Hby _ Hin)|apply (Hel _ Hin)]. }
  set (n := 1 + (len net - first) / pay + (if (len net - first) mod pay =? 0 then 0 else 1)).
  assert (Hdm : len net - first = pay * ((len net - first) / pay) + (len net - first) mod pay /\ 0 <= (len net - first) mod pay < pay).
  { split; [apply Z.div_mod; lia|apply Z.mod_pos_bound; lia]. }
  assert (Hn2 : 2 <= n).
  { unfold n. pose proof (Z.div_pos (len net - first) pay). destruct (Z.eqb_spec ((len net - first) mod pay) 0); nia. }
  destruct (Z.ltb_spec nMax n) as [Hmax|Hmax].
  { left. split_and!; [done|done|right]. unfold n in Hmax. fold pay. unfold first, pay in *.
    destruct (Z.eqb_spec ((len net - (mtu - h - MAX_FRAG_OVERHEAD)) mod (mtu - MAX_FRAG_OVERHEAD)) 0); nia. }
  right. split; [done|].
  destruct (populate_spec (length net) p3 es 0 n first pay net) as (l&Hpop&H2); try done; [lia..|apply Hnetel|apply Hnetel|].
  destruct (chunks_spec (length net) first pay net) as (Hcat&Hcs&Hclen); [lia|done|lia|unfold first; lia|].
  rewrite (proj2 (Nat.eqb_neq (length net) 0)) in Hclen by (by destruct net). fold n in Hclen.
  assert (Hlen : len l = n).
  { apply Forall2_length in H2. rewrite frag_list_length in H2. unfold len in *. lia. }
  rewrite Hpop. cbn [rbind]. rewrite Hlen, Z.eqb_refl. exists l. split; [done|]. split; [lia|].
  exists (chunks (length net) first pay net). rewrite Hlen. split_and!; [done| |done|].
  - intros c (k&Hk)%list_elem_of_lookup. by apply (Hcs c k).
  - intros fs s (k&Hk)%list_elem_of_lookup. destruct (frag_list_lookup _ _ _ _ _ _ Hk) as (c&Hc&->). destruct (Hcs c k Hc) as [_ Hcl].
    assert (Hcn : len c <= len net).
    { rewrite <- Hcat. apply list_elem_of_lookup_2, list_elem_of_split in Hc as (l1&l2&->). rewrite concat_app. cbn [concat].
      rewrite !len_app. pose proof (len_nonneg (concat l1)). pose proof (len_nonneg (concat l2)). lia. }
    assert (Hnw : len net <= len (wires es)).
    { clear -Hin. apply list_elem_of_split in Hin as (l1&l2&->). rewrite wires_app, wires_cons, !len_app.
      unfold tlv_wire. rewrite !len_app. pose proof (len_nonneg (wires l1)). pose proof (len_nonneg (wires l2)).
      pose proof (len_nonneg (writeVarNumber LpTlv.Fragment)). pose proof (len_nonneg (writeVarNumber (len net))). lia. }
    destruct (fragment_fits (0 + Z.of_nat k) n c (if (k =? 0)%nat then es else []) s) as [H1 H3];
      [unfold U64; lia|destruct (k =? 0)%nat; [done|by vm_compute]|lia|].
    split; [done|]. destruct (k =? 0)%nat; [unfold first, pay, h in *; lia|].
    change (header_bytes []) with 0 in H3. unfold pay in *. lia.
Qed.

Module LpFragmenterSamples.
Import LpSamples.

Lemma good_packet : good_fields packet_fields.
Proof. split; [exact wf_packet_fields|exact ordered_packet_fields|exact acceptable_packet_fields]. Qed.

Lemma encodable_packet : encodable packet packet_fields 71.
Proof. apply (encodable_headers packet packet_fields repr_packet wf_packet_fields); [reflexivity|intros w; discriminate]. Qed.

(** With an MTU of 80 bytes the packet is split. *)
Lemma fragmenter_correct_witness :
  exists frags, fragmentPacket 400 packet 80 = Ok (Some frags) /\ 2 <= len frags <= 400 /\ fragments 80 packet_fields net frags.
Proof.
  destruct (fragmenter_correct 400 packet packet_fields 71 net 80) as [[H _]|[(_&H&_)|[_ H]]].
  - exact encodable_packet.
  - exact good_packet.
  - split; by_decide.
  - by_decide.
  - discriminate.
  - reflexivity.
  - exfalso. revert H. by vm_compute.
  - exfalso. revert H. by vm_compute.
  - exact H.
Defined.
End LpFragmenterSamples.
