(* ===== verification/LpReassembler.v ===== *)
(** * Reassembly: [NFD/daemon/face/lp-reassembler.cpp]

    Fragments are collected per remote endpoint and message, where a message is
    named by the sequence number of its first fragment, until all have arrived
    or none has arrived for some time. *)

From S2P Require Import Prelude Tlv Block Encoder Elements LpPacket.

(** ** State *)

(** The drop timer is the time it fires at. *)
Record PartialPacket := MkPartialPacket {
  pp_fragments : list LpPacket;
  pp_fragCount : Z;
  pp_nReceivedFragments : Z;
  pp_dropTimer : option Z
}.

(** The value that [operator[]] of the map creates *)
Definition PartialPacket_zero : PartialPacket := MkPartialPacket [] 0 0 None.

Definition Key : Type := Z * Z.

Record Reassembler := MkReassembler {
  ra_nMaxFragments : Z;
  ra_reassemblyTimeout : Z;
  ra_partialPackets : gmap Key PartialPacket
}.

Definition with_partial (m : gmap Key PartialPacket) (ra : Reassembler) : Reassembler :=
  MkReassembler (ra_nMaxFragments ra) (ra_reassemblyTimeout ra) m.

(** ** Operations *)

(** [FragIndex] and [FragCount], with their default values *)
Definition read_index (packet : LpPacket) : result (Z * Z) :=
  let! hasIndex := hasField LpTlv.FragIndex packet in
  let! fragIndex := if hasIndex then getInteger LpTlv.FragIndex packet else Ok 0 in
  let! hasCount := hasField LpTlv.FragCount packet in
  let! fragCount := if hasCount then getInteger LpTlv.FragCount packet else Ok 1 in
  Ok (fragIndex, fragCount).

(** The payloads, one after the other *)
Fixpoint payloads (l : list LpPacket) : result (list Z) :=
  match l with
  | [] => Ok []
  | frag :: l' => let! c := getFragment frag in let! r := payloads l' in Ok (c ++ r)
  end.

Definition doReassembly (pp : PartialPacket) : result Block :=
  let! fragBuffer := payloads (pp_fragments pp) in Block_of_array fragBuffer.

(** The fragment is put into the partial packet of its message. *)
Definition add_fragment (now : Z) (key : Key) (fragIndex fragCount : Z) (packet : LpPacket) (ra : Reassembler)
  : Reassembler * result (option (Block * LpPacket)) :=
  let pp := default PartialPacket_zero (ra_partialPackets ra !! key) in
  if negb (pp_fragCount pp =? 0) && negb (fragCount =? pp_fragCount pp) then (ra, Ok None)
  else
    let pp := if pp_fragCount pp =? 0
              then MkPartialPacket (replicate (Z.to_nat fragCount) Packet_new) fragCount 0 (pp_dropTimer pp)
              else pp in
    let ra := with_partial (<[key := pp]> (ra_partialPackets ra)) ra in
    match pp_fragments pp !! Z.to_nat fragIndex with
    | None => (ra, Err OutOfRange)
    | Some old =>
        match hasField LpTlv.Sequence old with
        | Err e => (ra, Err e)
        | Ok true => (ra, Ok None)
        | Ok false =>
            let pp := MkPartialPacket (<[Z.to_nat fragIndex := packet]> (pp_fragments pp)) (pp_fragCount pp)
                        (pp_nReceivedFragments pp + 1) (pp_dropTimer pp) in
            if pp_nReceivedFragments pp =? pp_fragCount pp then
              match doReassembly pp, pp_fragments pp !! 0%nat with
              | Ok reassembled, Some firstFrag =>
                  (with_partial (delete key (ra_partialPackets ra)) ra, Ok (Some (reassembled, firstFrag)))
              | Ok _, None => (ra, Err OutOfRange)
              | Err e, _ => (with_partial (<[key := pp]> (ra_partialPackets ra)) ra, Err e)
              end
            else
              let pp := MkPartialPacket (pp_fragments pp) (pp_fragCount pp) (pp_nReceivedFragments pp)
                          (Some (now + ra_reassemblyTimeout ra)) in
              (with_partial (<[key := pp]> (ra_partialPackets ra)) ra, Ok None)
        end
    end.

(** [LpReassembler::receiveFragment]: the new state and the packet with its
    first fragment, if it is complete *)
Definition receiveFragment (now remoteEndpoint : Z) (packet : LpPacket) (ra : Reassembler)
  : Reassembler * result (option (Block * LpPacket)) :=
  match read_index packet with
  | Err e => (ra, Err e)
  | Ok (fragIndex, fragCount) =>
      if fragCount <=? fragIndex then (ra, Ok None)
      else if ra_nMaxFragments ra <? fragCount then (ra, Ok None)
      else if (fragIndex =? 0) && (fragCount =? 1) then
        (ra, let! frag := getFragment packet in let! netPkt := Block_of_array frag in Ok (Some (netPkt, packet)))
      else
        match hasField LpTlv.Sequence packet with
        | Err e => (ra, Err e)
        | Ok false => (ra, Ok None)
        | Ok true =>
            match getInteger LpTlv.Sequence packet with
            | Err e => (ra, Err e)
            | Ok sequence =>
                let messageIdentifier := to_u64 (sequence - fragIndex) in
                add_fragment now (remoteEndpoint, messageIdentifier) fragIndex fragCount packet ra
            end
        end
  end.

(** [LpReassembler::timeoutPartialPacket], when the drop timer of the key fires:
    the new state and what the signal [beforeTimeout] carries *)
Definition timeoutPartialPacket (now : Z) (key : Key) (ra : Reassembler) : Reassembler * option (Z * Z) :=
  match ra_partialPackets ra !! key with
  | None => (ra, None)
  | Some pp =>
      match pp_dropTimer pp with
      | Some t =>
          if t <=? now
          then (with_partial (delete key (ra_partialPackets ra)) ra, Some (key.1, pp_nReceivedFragments pp))
          else (ra, None)
      | None => (ra, None)
      end
  end.

(** ** The invariant *)

Definition got (p : LpPacket) : bool := match hasField LpTlv.Sequence p with Ok true => true | _ => false end.

Lemma hasField_new t : hasField t Packet_new = Ok false.
Proof. done. Qed.

Record pp_inv (nMax : Z) (pp : PartialPacket) : Prop := {
  pi_count : 2 <= pp_fragCount pp <= nMax;
  pi_length : length (pp_fragments pp) = Z.to_nat (pp_fragCount pp);
  pi_slots : Forall (fun s => s = Packet_new \/ got s = true) (pp_fragments pp);
  pi_received : pp_nReceivedFragments pp = len (List.filter got (pp_fragments pp));
  pi_timer : is_Some (pp_dropTimer pp)
}.

Definition ra_inv (ra : Reassembler) : Prop := map_Forall (fun _ pp => pp_inv (ra_nMaxFragments ra) pp) (ra_partialPackets ra).

Lemma filter_got_insert l i old new : l !! i = Some old -> got old = false -> got new = true ->
  len (List.filter got (<[i := new]> l)) = len (List.filter got l) + 1.
Proof.
  revert i. induction l as [|x l IH]; intros [|i] Hi Ho Hn; [done|done| |]; cbn in Hi.
  - injection Hi as ->. simpl. rewrite Hn, Ho. unfold len. simpl. lia.
  - simpl. specialize (IH i Hi Ho Hn). unfold len in *. destruct (got x); simpl; lia.
Qed.

Lemma filter_got_new n : List.filter got (replicate n Packet_new) = [].
Proof. induction n; done. Qed.

Lemma slot_cases s : s = Packet_new \/ got s = true -> hasField LpTlv.Sequence s = Ok (got s).
Proof. intros [->|Hs]; [done|]. unfold got in *. by destruct (hasField _ _) as [[]|]. Qed.

Lemma add_fragment_inv now key i n packet ra : ra_inv ra -> 0 <= i < n -> 2 <= n <= ra_nMaxFragments ra -> got packet = true ->
  ra_inv (add_fragment now key i n packet ra).1 /\
  ra_nMaxFragments (add_fragment now key i n packet ra).1 = ra_nMaxFragments ra.
Proof.
  intros Hinv Hi Hn Hgot. unfold add_fragment. set (pp0 := default _ _).
  assert (Hpp0 : pp_fragCount pp0 = 0 \/ (pp_inv (ra_nMaxFragments ra) pp0 /\ ra_partialPackets ra !! key = Some pp0)).
  { unfold pp0. destruct (ra_partialPackets ra !! key) as [pp|] eqn:Hk; [right|by left]. split; [|done]. by apply (Hinv key). }
  destruct (negb _ && negb _) eqn:Hch; [done|].
  (* the partial packet the fragment goes to *)
  set (pp1 := if pp_fragCount pp0 =? 0 then _ else pp0).
  assert (Hpp1 : pp_fragCount pp1 = n /\ length (pp_fragments pp1) = Z.to_nat n /\
    Forall (fun s => s = Packet_new \/ got s = true) (pp_fragments pp1) /\
    pp_nReceivedFragments pp1 = len (List.filter got (pp_fragments pp1)) /\
    (ra_partialPackets ra !! key = Some pp1 \/ pp_nReceivedFragments pp1 = 0 /\ pp_fragments pp1 = replicate (Z.to_nat n) Packet_new) /\
    (pp_nReceivedFragments pp1 <> 0 -> is_Some (pp_dropTimer pp1))).
  { unfold pp1. destruct (Z.eqb_spec (pp_fragCount pp0) 0) as [H0|H0].
    - cbn. rewrite length_replicate, filter_got_new. split_and!; try done; [by apply Forall_replicate; left|by right].
    - destruct Hpp0 as [?|[[? ? ? ? ?] Hk]]; [done|]. cbn [negb andb] in Hch. apply negb_false_iff, Z.eqb_eq in Hch. subst n.
      split_and!; try done. by left. }
  clearbody pp1. clear Hpp0 Hch pp0. destruct Hpp1 as (Hc&Hl&Hs&Hr&Hold&Ht).
  assert (Hsame : forall pp, pp_inv (ra_nMaxFragments ra) pp -> ra_inv (with_partial (<[key := pp]> (<[key := pp1]> (ra_partialPackets ra))) ra)).
  { intros pp Hp. unfold ra_inv. cbn. rewrite insert_insert_eq. by apply map_Forall_insert_2. }
  destruct (pp_fragments pp1 !! Z.to_nat i) as [old|] eqn:Ho.
  2: { apply lookup_ge_None in Ho. lia. }
  rewrite Forall_forall in Hs. rewrite (slot_cases old) by (apply Hs; by eapply list_elem_of_lookup_2).
  destruct (got old) eqn:Hgo.
  { split; [|done]. destruct Hold as [Hold|[_ Hrep]].
    - unfold ra_inv. cbn. by rewrite insert_id.
    - rewrite Hrep in Ho. apply lookup_replicate in Ho as [-> _]. done. }
  cbn [pp_fragments pp_fragCount pp_nReceivedFragments pp_dropTimer]. pose proof (filter_got_insert _ _ _ packet Ho Hgo Hgot) as Hcount.
  assert (Hinv2 : forall t, is_Some t -> pp_inv (ra_nMaxFragments ra)
    (MkPartialPacket (<[Z.to_nat i := packet]> (pp_fragments pp1)) (pp_fragCount pp1) (pp_nReceivedFragments pp1 + 1) t)).
  { intros t Hts. split; cbn; [lia|rewrite length_insert; lia| |lia|done].
    apply Forall_insert; [by apply Forall_forall|by right]. }
  destruct (Z.eqb_spec (pp_nReceivedFragments pp1 + 1) (pp_fragCount pp1)) as [Hfull|_].
  2: { split; [|done]. apply Hsame. by apply Hinv2. }
  assert (Htm : is_Some (pp_dropTimer pp1)) by (apply Ht; lia).
  destruct (doReassembly _) as [blk|e]; [|split; [|done]; by apply Hsame, Hinv2].
  destruct (<[_ := packet]> (pp_fragments pp1) !! 0%nat) eqn:H0.
  - split; [|done]. unfold ra_inv. cbn. rewrite delete_insert_eq. by apply map_Forall_delete.
  - apply lookup_ge_None in H0. rewrite length_insert in H0. lia.
Qed.


(** The fields of the packet are bytes. *)
Definition byte_packet (p : LpPacket) : Prop := forall q b, Block_parse p = Ok q -> b ∈ m_subBlocks q -> wf_bytes (value b).

Lemma readNonNegativeInteger_nonneg n s v r : wf_bytes s -> readNonNegativeInteger n s = Ok (v, r) -> 0 <= v.
Proof.
  intros Hs. unfold readNonNegativeInteger. destruct (n =? 1).
  { destruct s as [|b s]; [done|]. intros ?. simplify_eq. apply wf_bytes_cons in Hs as [Hb _]. unfold is_byte in Hb. lia. }
  assert (Hd : forall k, 0 <= be_decode (take k s)) by (intros k; apply be_decode_bounds; by apply wf_bytes_take).
  destruct (n =? 2); [destruct (len s <? 2); [done|]; intros ?; simplify_eq; apply Hd|].
  destruct (n =? 4); [destruct (len s <? 4); [done|]; intros ?; simplify_eq; apply Hd|].
  destruct (n =? 8); [destruct (len s <? 8); [done|]; intros ?; simplify_eq; apply Hd|done].
Qed.

Lemma getInteger_nonneg t p v : byte_packet p -> getInteger t p = Ok v -> 0 <= v.
Proof.
  intros Hb. unfold getInteger, getField, fields. intros (x&Hx&Hv)%rbind_Ok. apply rbind_Ok in Hx as (l&Hl&Hx).
  apply rbind_Ok in Hl as (q&Hq&Hl). injection Hl as <-. destruct (_ !! 0%nat) as [y|] eqn:Hy; [|done]. injection Hx as ->.
  apply list_elem_of_lookup_2, list_elem_of_In, List.filter_In in Hy as [Hy _]. apply list_elem_of_In in Hy.
  unfold readNonNegativeIntegerBlock in Hv. apply rbind_Ok in Hv as ([n r]&Hr&[= <-]).
  eapply readNonNegativeInteger_nonneg; [by apply (Hb q)|exact Hr].
Qed.

Lemma read_index_nonneg p i n : byte_packet p -> read_index p = Ok (i, n) -> 0 <= i.
Proof.
  intros Hb. unfold read_index. intros (b1&H1&H)%rbind_Ok. apply rbind_Ok in H as (x&Hx&H). apply rbind_Ok in H as (b2&H2&H).
  apply rbind_Ok in H as (y&_&[= <- _]). destruct b1; [by eapply getInteger_nonneg|]. by injection Hx as <-.
Qed.

(** C30. Whatever fragments arrive, every packet that is being reassembled has
    between two and the maximal number of slots, counts exactly the slots that
    are filled, and has a drop timer, so that none stays forever; no slot is
    written outside the vector. *)
Theorem reassembler_invariant now remote packet key ra : ra_inv ra -> byte_packet packet ->
  ra_inv (receiveFragment now remote packet ra).1 /\ ra_inv (timeoutPartialPacket now key ra).1 /\
  (forall key' pp, ra_partialPackets ra !! key' = Some pp -> exists t, pp_dropTimer pp = Some t /\
     forall now', t <= now' -> ra_partialPackets (timeoutPartialPacket now' key' ra).1 !! key' = None).
Proof.
  intros Hinv Hb. split_and!.
  - unfold receiveFragment. destruct (read_index packet) as [[i n]|] eqn:Hidx; [|done].
    pose proof (read_index_nonneg packet i n Hb Hidx).
    destruct (Z.leb_spec n i); [done|]. destruct (Z.ltb_spec (ra_nMaxFragments ra) n); [done|].
    destruct ((i =? 0) && (n =? 1)) eqn:Hfast; [done|]. destruct (hasField LpTlv.Sequence packet) as [[]|] eqn:Hseq; [|done|done].
    destruct (getInteger LpTlv.Sequence packet); [|done].
    apply add_fragment_inv; [done|lia| |unfold got; by rewrite Hseq].
    destruct (Z.eqb_spec i 0), (Z.eqb_spec n 1); cbn [andb] in Hfast; try done; lia.
  - unfold timeoutPartialPacket. destruct (ra_partialPackets ra !! key) as [pp|]; [|done]. destruct (pp_dropTimer pp); [|done].
    destruct (_ <=? now); [|done]. unfold ra_inv. cbn. by apply map_Forall_delete.
  - intros key' pp Hk. destruct (pi_timer _ _ (Hinv key' pp Hk)) as [t Ht]. exists t. split; [done|]. intros now' Hle.
    unfold timeoutPartialPacket. rewrite Hk, Ht, (proj2 (Z.leb_le t now') Hle). cbn. apply lookup_delete_eq.
Qed.

(** ** Reassembly *)

(** The message key a fragment belongs to *)
Definition key_of (remote : Z) (packet : LpPacket) : option Key :=
  match read_index packet, getInteger LpTlv.Sequence packet with
  | Ok (i, _), Ok s => Some (remote, to_u64 (s - i))
  | _, _ => None
  end.

(** A fragment of another message leaves the message alone. *)
Lemma receive_foreign now remote packet ra key : key_of remote packet <> Some key ->
  ra_partialPackets (receiveFragment now remote packet ra).1 !! key = ra_partialPackets ra !! key /\
  ra_nMaxFragments (receiveFragment now remote packet ra).1 = ra_nMaxFragments ra.
Proof.
  unfold key_of, receiveFragment. destruct (read_index packet) as [[i n]|]; [|done].
  destruct (getInteger LpTlv.Sequence packet) as [s|]; intros Hk.
  2: { repeat case_match; done. }
  destruct (n <=? i); [done|]. destruct (_ <? n); [done|]. destruct (_ && _); [done|].
  destruct (hasField LpTlv.Sequence packet) as [[]|]; try done.
  assert (Hne : (remote, to_u64 (s - i)) <> key) by (intros He; apply Hk; by rewrite He). clear Hk.
  generalize dependent (remote, to_u64 (s - i)). intros key' Hne.
  unfold add_fragment. cbv zeta. destruct (negb _ && negb _); [done|].
  match goal with |- context [pp_fragments ?x !! _] => generalize x; intros pp1 end.
  destruct (pp_fragments _ !! _) as [old|]; [|cbn; by rewrite lookup_insert_ne].
  destruct (hasField LpTlv.Sequence old) as [[]|]; [cbn; by rewrite lookup_insert_ne| |cbn; by rewrite lookup_insert_ne].
  cbn [pp_nReceivedFragments pp_fragCount]. destruct (_ + 1 =? _).
  - destruct (doReassembly _); [destruct (_ !! 0%nat)|]; cbn; by rewrite ?lookup_delete_ne, ?lookup_insert_ne.
  - cbn. by rewrite !lookup_insert_ne.
Qed.

Section Message.
Context (remote s : Z) (frags : list LpPacket) (cs : list (list Z)).

(** The fragments of one message, numbered, with consecutive sequence numbers
    (modulo 2^64), and their payloads *)
Record numbered : Prop := {
  nb_index : forall k q, frags !! k = Some q -> read_index q = Ok (Z.of_nat k, len frags);
  nb_seq : forall k q, frags !! k = Some q ->
    hasField LpTlv.Sequence q = Ok true /\ getInteger LpTlv.Sequence q = Ok (to_u64 (s + Z.of_nat k));
  nb_payload : Forall2 (fun q c => getFragment q = Ok c) frags cs
}.

Definition message_key : Key := (remote, to_u64 s).

Lemma message_identifier k : to_u64 (to_u64 (s + k) - k) = to_u64 s.
Proof. unfold to_u64. rewrite Zminus_mod_idemp_l. f_equal. lia. Qed.

(** The slots when the fragments with the numbers in [X] have arrived *)
Definition slots (X : gset nat) : list LpPacket := imap (fun k q => if bool_decide (k ∈ X) then q else Packet_new) frags.

Lemma slots_lookup X k : slots X !! k = (fun q => if bool_decide (k ∈ X) then q else Packet_new) <$> frags !! k.
Proof. apply list_lookup_imap. Qed.

Lemma slots_length X : length (slots X) = length frags.
Proof. apply length_imap. Qed.

Lemma slots_insert X k q : frags !! k = Some q -> <[k := q]> (slots X) = slots ({[k]} ∪ X).
Proof.
  intros Hk. apply list_eq. intros j. rewrite slots_lookup. destruct (decide (j = k)) as [->|Hne].
  - rewrite list_lookup_insert_eq by (rewrite slots_length; by eapply lookup_lt_Some). rewrite Hk. simpl.
    by rewrite bool_decide_true by set_solver.
  - rewrite list_lookup_insert_ne, slots_lookup by done. destruct (frags !! j); [|done]. simpl. f_equal.
    apply bool_decide_ext_if. set_solver.
Qed.

Lemma slots_empty : slots ∅ = replicate (length frags) Packet_new.
Proof.
  apply list_eq. intros j. rewrite slots_lookup. destruct (frags !! j) eqn:Hj; simpl.
  - symmetry. apply lookup_replicate. split; [|by eapply lookup_lt_Some]. by rewrite bool_decide_false by set_solver.
  - symmetry. apply lookup_replicate_None. by apply lookup_ge_None.
Qed.

Lemma slots_full X : set_seq 0 (length frags) ⊆ X -> slots X = frags.
Proof.
  intros HX. apply list_eq. intros j. rewrite slots_lookup. destruct (frags !! j) eqn:Hj; [|done]. simpl. f_equal.
  rewrite bool_decide_true; [done|]. apply HX. apply lookup_lt_Some in Hj. rewrite elem_of_set_seq. lia.
Qed.

Lemma payloads_concat l ps : Forall2 (fun q c => getFragment q = Ok c) l ps -> payloads l = Ok (concat ps).
Proof. induction 1 as [|q c l ps Hq Hl IH]; [done|]. cbn [payloads concat]. rewrite Hq. cbn [rbind]. rewrite IH. done. Qed.

(** The reassembler has received exactly the fragments in [X] of the message. *)
Definition holds (X : gset nat) (ra : Reassembler) : Prop :=
  match ra_partialPackets ra !! message_key with
  | None => X = ∅
  | Some pp => pp_fragments pp = slots X /\ pp_fragCount pp = len frags /\ pp_nReceivedFragments pp = Z.of_nat (size X)
  end.

Lemma receive_ours now k q ra : numbered -> 2 <= len frags <= ra_nMaxFragments ra -> frags !! k = Some q ->
  receiveFragment now remote q ra = add_fragment now message_key (Z.of_nat k) (len frags) q ra.
Proof.
  intros Hnb Hn Hk. unfold receiveFragment. rewrite (nb_index Hnb k q Hk). pose proof (lookup_lt_Some _ _ _ Hk). unfold len in *.
  destruct (Z.leb_spec (Z.of_nat (length frags)) (Z.of_nat k)); [lia|].
  destruct (Z.ltb_spec (ra_nMaxFragments ra) (Z.of_nat (length frags))); [lia|].
  rewrite (proj2 (Z.eqb_neq (Z.of_nat (length frags)) 1)), andb_false_r by lia.
  destruct (nb_seq Hnb k q Hk) as [-> ->]. by rewrite message_identifier.
Qed.

(** One fragment: a duplicate is dropped, a new one is kept, and the last one
    completes the message. *)
Lemma receive_step now k q ra X : numbered -> 2 <= len frags <= ra_nMaxFragments ra -> frags !! k = Some q -> holds X ra ->
  let r := receiveFragment now remote q ra in
  ra_nMaxFragments r.1 = ra_nMaxFragments ra /\
  (k ∈ X -> r.2 = Ok None /\ holds X r.1) /\
  (k ∉ X -> Z.of_nat (size X) + 1 <> len frags -> r.2 = Ok None /\ holds ({[k]} ∪ X) r.1) /\
  (k ∉ X -> Z.of_nat (size X) + 1 = len frags -> set_seq 0 (length frags) ⊆ {[k]} ∪ X ->
     forall blk first, Block_of_array (concat cs) = Ok blk -> frags !! 0%nat = Some first ->
     r.2 = Ok (Some (blk, first)) /\ ra_partialPackets r.1 !! message_key = None).
Proof.
  intros Hnb Hn Hk Hh. cbv zeta. rewrite (receive_ours now k q ra) by done. unfold add_fragment. set (pp0 := default _ _).
  set (pp1 := if pp_fragCount pp0 =? 0 then _ else pp0).
  assert (Hpp : (negb (pp_fragCount pp0 =? 0) && negb (len frags =? pp_fragCount pp0)) = false /\
    pp_fragments pp1 = slots X /\ pp_fragCount pp1 = len frags /\ pp_nReceivedFragments pp1 = Z.of_nat (size X)).
  { unfold pp1, pp0. unfold holds in Hh. destruct (ra_partialPackets ra !! message_key) as [pp|]; cbn [default from_option id].
    - destruct Hh as (Hf&Hc&Hr). rewrite Hc, (proj2 (Z.eqb_neq (len frags) 0)), Z.eqb_refl by lia. done.
    - subst X. cbn. split_and!; [done| |done|done]. rewrite slots_empty. unfold len. by rewrite Nat2Z.id. }
  destruct Hpp as (->&Hf&Hc&Hr). clearbody pp1. clear pp0. rewrite Hf, Nat2Z.id, slots_lookup, Hk. cbn [fmap option_fmap option_map].
  assert (Hgot : hasField LpTlv.Sequence (if bool_decide (k ∈ X) then q else Packet_new) = Ok (bool_decide (k ∈ X))).
  { case_bool_decide; [apply (nb_seq Hnb k q Hk)|done]. }
  rewrite Hgot. case_bool_decide as Hin.
  { split_and!; [done| |done|done]. intros _. split; [done|]. unfold holds. cbn. rewrite lookup_insert_eq. done. }
  rewrite (slots_insert X k q Hk). cbn [pp_fragments pp_fragCount pp_nReceivedFragments pp_dropTimer]. rewrite Hc, Hr.
  assert (Hsize : size ({[k]} ∪ X) = S (size X)) by (rewrite size_union, size_singleton by set_solver; lia).
  destruct (Z.eqb_spec (Z.of_nat (size X) + 1) (len frags)) as [Hfull|Hnot].
  - split_and!; [|done|done|].
    { destruct (doReassembly _); [by destruct (_ !! 0%nat)|done]. }
    intros _ _ Hall blk first Hblk H0. unfold doReassembly. cbn [pp_fragments]. rewrite slots_full by done.
    rewrite (payloads_concat _ cs (nb_payload Hnb)). cbn [rbind]. rewrite Hblk, H0. cbn. split; [done|apply lookup_delete_eq].
  - split_and!; [done|done| |done]. intros _ _. split; [done|]. unfold holds. cbn. rewrite lookup_insert_eq. cbn. split_and!; try done. lia.
Qed.

(** Packets as they arrive: time, remote endpoint, packet *)
Definition event : Type := Z * Z * LpPacket.

Fixpoint receive_all (evs : list event) (ra : Reassembler) : Reassembler * list (result (option (Block * LpPacket))) :=
  match evs with
  | [] => (ra, [])
  | (now, from, packet) :: evs' =>
      let '(ra, r) := receiveFragment now from packet ra in
      let '(ra, rs) := receive_all evs' ra in (ra, r :: rs)
  end.

(** The event is the arrival of fragment [k] of the message. *)
Definition arrival (k : nat) (ev : event) : Prop := ev.1.2 = remote /\ frags !! k = Some ev.2.

Lemma receive_all_spec k0 evs : forall ra X, numbered -> 2 <= len frags <= ra_nMaxFragments ra -> holds X ra ->
  (k0 < length frags)%nat -> k0 ∉ X -> X ⊆ set_seq 0 (length frags) ->
  (forall ev, ev ∈ evs -> key_of ev.1.2 ev.2 <> Some message_key \/ exists k, k <> k0 /\ arrival k ev) ->
  exists Y, holds Y (receive_all evs ra).1 /\ ra_nMaxFragments (receive_all evs ra).1 = ra_nMaxFragments ra /\
    (k0 ∉ Y) /\ X ⊆ Y /\ Y ⊆ set_seq 0 (length frags) /\
    (forall ev k, ev ∈ evs -> k <> k0 -> arrival k ev -> k ∈ Y) /\
    (forall j ev k, evs !! j = Some ev -> arrival k ev -> (receive_all evs ra).2 !! j = Some (Ok None)).
Proof.
  induction evs as [|[[now from] packet] evs IH]; intros ra X Hnb Hn Hh Hk0 Hk0X HX Hevs.
  { exists X. split_and!; try done. by intros ? ? ?%elem_of_nil. }
  cbn [receive_all]. destruct (receiveFragment now from packet ra) as [ra1 r] eqn:Hr.
  assert (Hstep : exists X1, holds X1 ra1 /\ ra_nMaxFragments ra1 = ra_nMaxFragments ra /\ (k0 ∉ X1) /\ X ⊆ X1 /\ X1 ⊆ set_seq 0 (length frags) /\
    (forall k, arrival k (now, from, packet) -> k ∈ X1 /\ r = Ok None)).
  { assert (Hkey : forall k, arrival k (now, from, packet) -> key_of from packet = Some message_key).
    { intros k [Hfrom Hk]. simpl in *. subst from. unfold key_of. rewrite (nb_index Hnb k packet Hk). destruct (nb_seq Hnb k packet Hk) as [_ ->].
      by rewrite message_identifier. }
    destruct (Hevs _ ltac:(left)) as [Hfor|(k&Hne&[Hfrom Hk])]; simpl in *.
    - destruct (receive_foreign now from packet ra message_key Hfor) as [Hsame HnM]. rewrite Hr in Hsame, HnM. simpl in *.
      exists X. split_and!; try done; [unfold holds in *; by rewrite Hsame|]. intros k Hk. by apply Hkey in Hk.
    - subst from. destruct (receive_step now k packet ra X Hnb Hn Hk Hh) as (HnM&Hdup&Hnew&_). rewrite Hr in HnM, Hdup, Hnew. simpl in *.
      assert (Huniq : forall k', arrival k' (now, remote, packet) -> k' = k).
      { intros k' [_ Hk']. simpl in Hk'. pose proof (nb_index Hnb k' packet Hk'). pose proof (nb_index Hnb k packet Hk).
        assert (Heq : Ok (Z.of_nat k', len frags) = Ok (Z.of_nat k, len frags)) by congruence. injection Heq as Heq. lia. }
      apply lookup_lt_Some in Hk. destruct (decide (k ∈ X)) as [Hin|Hout].
      + destruct (Hdup Hin) as [-> Hh1]. exists X. split_and!; try done. intros k' Hk'%Huniq. by subst k'.
      + assert (Hsz : Z.of_nat (size X) + 1 <> len frags).
        { assert (Hss : (size ({[k0]} ∪ ({[k]} ∪ X)) <= length frags)%nat).
          { rewrite <- (size_set_seq (C := gset nat) 0 (length frags)). apply subseteq_size. intros j. rewrite !elem_of_union, !elem_of_singleton, elem_of_set_seq.
            intros [->|[->|Hj]]; [lia|lia|]. apply HX in Hj. rewrite elem_of_set_seq in Hj. lia. }
          rewrite !size_union, !size_singleton in Hss by set_solver. unfold len. lia. }
        destruct (Hnew Hout Hsz) as [-> Hh1]. exists ({[k]} ∪ X). split_and!; try done; [set_solver|set_solver| |].
        * intros j. rewrite elem_of_union, elem_of_singleton. intros [->|Hj]; [rewrite elem_of_set_seq; lia|by apply HX].
        * intros k' Hk'%Huniq. subst k'. split; [set_solver|done]. }
  destruct Hstep as (X1&Hh1&HnM1&Hk1&HX1&Hsub1&Hres).
  destruct (IH ra1 X1) as (Y&HhY&HnMY&HkY&HXY&HsubY&Hall&Hrs); [done|by rewrite HnM1|done|done|done|done|intros ev Hev; apply Hevs; by right|].
  destruct (receive_all evs ra1) as [ra2 rs] eqn:Hra2. simpl in *. exists Y. split_and!; try done; [congruence|set_solver| |].
  - intros ev k [->|Hev]%elem_of_cons Hne Ha; [apply HXY; by apply Hres|by apply (Hall ev k)].
  - intros [|j] ev k Hj Ha; simpl in *; [injection Hj as <-; by destruct (Hres k Ha) as [_ ->]|by apply (Hrs j ev k)].
Qed.

(** Reassembly does not depend on the order: when the fragments of a message
    arrive in any order, some of them repeatedly, among fragments of other
    messages and other endpoints, each yields nothing until the last missing
    one arrives, which yields the network packet put together from the payloads
    in order, with the first fragment, and the message is forgotten. *)
Theorem reassembles_any_order evs now k0 q0 first blk ra : numbered -> 2 <= len frags <= ra_nMaxFragments ra ->
  ra_partialPackets ra !! message_key = None -> Block_of_array (concat cs) = Ok blk ->
  frags !! k0 = Some q0 -> frags !! 0%nat = Some first ->
  (forall ev, ev ∈ evs -> key_of ev.1.2 ev.2 <> Some message_key \/ exists k, k <> k0 /\ arrival k ev) ->
  (forall k, (k < length frags)%nat -> k <> k0 -> exists ev, ev ∈ evs /\ arrival k ev) ->
  (forall j ev k, evs !! j = Some ev -> arrival k ev -> (receive_all evs ra).2 !! j = Some (Ok None)) /\
  exists ra', receiveFragment now remote q0 (receive_all evs ra).1 = (ra', Ok (Some (blk, first))) /\
    ra_partialPackets ra' !! message_key = None.
Proof.
  intros Hnb Hn Hnone Hblk Hq0 Hfirst Hevs Hall. pose proof (lookup_lt_Some _ _ _ Hq0) as Hk0.
  destruct (receive_all_spec k0 evs ra ∅) as (Y&HhY&HnM&HkY&_&HsubY&HinY&Hrs);
    [done|done|unfold holds; by rewrite Hnone|done|apply not_elem_of_empty|apply empty_subseteq|done|].
  split; [done|]. rewrite <- HnM in Hn.
  assert (HY : {[k0]} ∪ Y = set_seq 0 (length frags)).
  { apply set_eq. intros j. rewrite elem_of_union, elem_of_singleton, elem_of_set_seq. split.
    - intros [->|Hj]; [lia|]. apply HsubY in Hj. rewrite elem_of_set_seq in Hj. lia.
    - intros Hj. destruct (decide (j = k0)) as [->|Hne]; [by left|right]. destruct (Hall j) as (ev&Hev&Ha); [lia|done|]. by apply (HinY ev j). }
  assert (Hsz : Z.of_nat (size Y) + 1 = len frags).
  { pose proof (f_equal size HY) as Hs. rewrite size_union, size_singleton, size_set_seq in Hs by (intros j ->%elem_of_singleton; done). unfold len. lia. }
  destruct (receive_step now k0 q0 (receive_all evs ra).1 Y Hnb Hn Hq0 HhY) as (_&_&_&Hlast).
  destruct (Hlast HkY Hsz ltac:(by rewrite HY) blk first Hblk Hfirst) as [Hr Hd].
  destruct (receiveFragment now remote q0 (receive_all evs ra).1) as [ra' r]. simpl in *. subst r. by exists ra'.
Qed.
End Message.

Module LpReassemblerSamples.
Import LpSamples.

(** Two fragments of a network packet of four bytes, with sequence numbers
    around the end of the range *)
Definition piece (seq fragIndex : Z) (payload : list Z) : LpPacket :=
  from_ok Packet_new
    (let! p := addField LpTlv.Fragment (fragmentField payload) Packet_new in
     let! p := addField LpTlv.FragCount (integerField LpTlv.FragCount 2) p in
     let! p := addField LpTlv.FragIndex (integerField LpTlv.FragIndex fragIndex) p in
     setField LpTlv.Sequence (integerField LpTlv.Sequence seq) p).
Definition piece0 : LpPacket := Eval vm_compute in piece u64_max 0 [6; 2].
Definition piece1 : LpPacket := Eval vm_compute in piece 0 1 [7; 0].
Definition idle : Reassembler := MkReassembler 400 500 ∅.

Lemma numbered_pieces : numbered u64_max [piece0; piece1] [[6; 2]; [7; 0]].
Proof.
  split.
  - intros [|[|k]] q Hq; [injection Hq as <-; vm_compute; reflexivity..|discriminate].
  - intros [|[|k]] q Hq; [injection Hq as <-; vm_compute; done..|discriminate].
  - repeat constructor.
Qed.

Lemma byte_piece : byte_packet piece0.
Proof.
  intros q b Hq Hb. assert (Hl : Forall (fun b => wf_bytes (value b)) (m_subBlocks q)); [|rewrite Forall_forall in Hl; by apply Hl].
  assert (Hqe : q = piece0) by (revert Hq; vm_compute; congruence). subst q. by_decide.
Qed.

Lemma reassembler_invariant_witness :
  ra_inv idle /\ ra_inv (receiveFragment 7 1 piece0 idle).1.
Proof.
  assert (Hi : ra_inv idle) by apply map_Forall_empty. split; [exact Hi|].
  apply (reassembler_invariant 7 1 piece0 (1, 2) idle Hi byte_piece).
Defined.

(** The second fragment, the second again, then the first *)
Lemma reassembles_any_order_witness :
  exists ra', receiveFragment 9 1 piece0 (receive_all [(7, 1, piece1); (8, 1, piece1)] idle).1 =
      (ra', Ok (Some (from_ok Block_empty (Block_of_array [6; 2; 7; 0]), piece0))) /\
    ra_partialPackets ra' !! message_key 1 u64_max = None.
Proof.
  apply (reassembles_any_order 1 u64_max [piece0; piece1] [[6; 2]; [7; 0]] [(7, 1, piece1); (8, 1, piece1)] 9 0 piece0 piece0).
  - exact numbered_pieces.
  - vm_compute. split; discriminate.
  - reflexivity.
  - vm_compute. reflexivity.
  - reflexivity.
  - reflexivity.
  - intros ev Hev. right. exists 1%nat. split; [discriminate|].
    apply elem_of_cons in Hev as [->|Hev]; [split; reflexivity|]. apply list_elem_of_singleton in Hev as ->. split; reflexivity.
  - intros [|[|k]] Hk Hne; [by destruct Hne| |simpl in Hk; lia]. exists (7, 1, piece1). split; [left|split; reflexivity].
Defined.
End LpReassemblerSamples.
