(* ===== verification/LinkService.v ===== *)
(** * The link service: [NFD/daemon/face/generic-link-service.cpp], [link-service.cpp],
    [ndn-cxx/src/lp/nack-header.cpp] and [cache-policy.cpp]

    Network packets go out as link packets, split if necessary, and link packets
    that come in are put together and decoded. *)

From S2P Require Import Prelude StdMap Tlv Block Encoder Elements NameComponent Name KeyLocator Exclude MetaInfo SignatureInfo Packet.
From S2P Require Import DataPacket Link InterestPacket LpPacket LpFragmenter LpReassembler.

(** ** Header fields *)

Inductive LpNackReason := LP_NONE | LP_CONGESTION | LP_DUPLICATE | LP_NO_ROUTE.

Definition reason_value (r : LpNackReason) : Z :=
  match r with LP_NONE => 0 | LP_CONGESTION => 50 | LP_DUPLICATE => 100 | LP_NO_ROUTE => 150 end.

(** [NackHeader::getReason]: [m_reason] is any [int]. *)
Definition getReason (m_reason : Z) : LpNackReason :=
  if m_reason =? 50 then LP_CONGESTION
  else if m_reason =? 100 then LP_DUPLICATE
  else if m_reason =? 150 then LP_NO_ROUTE
  else LP_NONE.

Definition NackHeader_wireEncode {E} `{EncodingImpl E} (m_reason : Z) : state E Z :=
  let~ length := prependNonNegativeIntegerBlock LpTlv.NackReason (to_u32 m_reason) in
  let~ l1 := prependVarNumber length in
  let~ l2 := prependVarNumber LpTlv.Nack in
  sret (length + l1 + l2).

Definition NackHeader_wireDecode (wire : Block) : result Z :=
  if negb (m_type wire =? LpTlv.Nack) then Err LpError
  else
    let! w := Block_parse wire in
    match m_subBlocks w with
    | [] => Ok (reason_value LP_NONE)
    | it :: _ =>
        if m_type it =? LpTlv.NackReason
        then let! n := readNonNegativeIntegerBlock it in Ok (to_s32 n)
        else Err LpError
    end.

(** [CachePolicy::wireDecode]; the only policy is [NO_CACHE]. *)
Definition NO_CACHE : Z := 1.

Definition CachePolicy_wireDecode (wire : Block) : result Z :=
  if negb (m_type wire =? LpTlv.CachePolicy) then Err LpError
  else
    let! w := Block_parse wire in
    match m_subBlocks w with
    | [] => Err LpError
    | it :: _ =>
        if m_type it =? LpTlv.CachePolicyType then
          let! n := readNonNegativeIntegerBlock it in
          if to_s32 n =? NO_CACHE then Ok NO_CACHE else Err LpError
        else Err LpError
    end.

Definition nackField (m_reason : Z) : result Block := Encoder.block true (twoPass (fun E _ => NackHeader_wireEncode m_reason)).

(** ** State *)

Record Options := MkOptions { allowLocalFields : bool; allowFragmentation : bool; allowReassembly : bool; nMaxFragments : Z }.

Record Counters := MkCounters {
  nOutInterests : Z; nOutData : Z; nOutNacks : Z;
  nInInterests : Z; nInData : Z; nInNacks : Z;
  nFragmentationErrors : Z; nOutOverMtu : Z;
  nInLpInvalid : Z; nReassemblyTimeouts : Z; nInNetInvalid : Z
}.

Record LinkService := MkLinkService {
  ls_options : Options;
  ls_lastSeqNo : Z;
  ls_reassembler : Reassembler;
  ls_counters : Counters
}.

Definition Counters_zero : Counters := MkCounters 0 0 0 0 0 0 0 0 0 0 0.

(** [GenericLinkService::GenericLinkService]: the last sequence number is -2. *)
Definition LinkService_new (o : Options) (ra : Reassembler) : LinkService := MkLinkService o (U64 - 2) ra Counters_zero.

Definition with_counters (c : Counters) (ls : LinkService) : LinkService :=
  MkLinkService (ls_options ls) (ls_lastSeqNo ls) (ls_reassembler ls) c.
Definition with_reassembler (ra : Reassembler) (ls : LinkService) : LinkService :=
  MkLinkService (ls_options ls) (ls_lastSeqNo ls) ra (ls_counters ls).

Definition count_sent (interests data nacks : Z) (ls : LinkService) : LinkService :=
  let c := ls_counters ls in
  with_counters (MkCounters (nOutInterests c + interests) (nOutData c + data) (nOutNacks c + nacks) (nInInterests c) (nInData c) (nInNacks c)
    (nFragmentationErrors c) (nOutOverMtu c) (nInLpInvalid c) (nReassemblyTimeouts c) (nInNetInvalid c)) ls.
Definition count_received (interests data nacks : Z) (ls : LinkService) : LinkService :=
  let c := ls_counters ls in
  with_counters (MkCounters (nOutInterests c) (nOutData c) (nOutNacks c) (nInInterests c + interests) (nInData c + data) (nInNacks c + nacks)
    (nFragmentationErrors c) (nOutOverMtu c) (nInLpInvalid c) (nReassemblyTimeouts c) (nInNetInvalid c)) ls.
Definition count_send_errors (fragmentation overMtu : Z) (ls : LinkService) : LinkService :=
  let c := ls_counters ls in
  with_counters (MkCounters (nOutInterests c) (nOutData c) (nOutNacks c) (nInInterests c) (nInData c) (nInNacks c)
    (nFragmentationErrors c + fragmentation) (nOutOverMtu c + overMtu) (nInLpInvalid c) (nReassemblyTimeouts c) (nInNetInvalid c)) ls.
Definition count_receive_errors (lpInvalid timeouts netInvalid : Z) (ls : LinkService) : LinkService :=
  let c := ls_counters ls in
  with_counters (MkCounters (nOutInterests c) (nOutData c) (nOutNacks c) (nInInterests c) (nInData c) (nInNacks c)
    (nFragmentationErrors c) (nOutOverMtu c) (nInLpInvalid c + lpInvalid) (nReassemblyTimeouts c + timeouts) (nInNetInvalid c + netInvalid)) ls.

(** ** Sending *)

Definition MTU_UNLIMITED : Z := -1.

(** What a transport has as its MTU: an [ssize_t] *)
Definition mtu_ok (mtu : Z) : Prop := mtu = MTU_UNLIMITED \/ 0 <= mtu < 2 ^ 63.

Lemma mtu_unsigned mtu : mtu_ok mtu -> mtu <> MTU_UNLIMITED -> to_u64 mtu = mtu.
Proof. intros [?|Hm] ?; [done|]. unfold to_u64. apply Z.mod_small. unfold U64. lia. Qed.

(** [assignSequence] and [assignSequences] *)
Definition assignSequence (pkt : LpPacket) (ls : LinkService) : result (LpPacket * LinkService) :=
  let seq := to_u64 (ls_lastSeqNo ls + 1) in
  let! pkt := setField LpTlv.Sequence (integerField LpTlv.Sequence seq) pkt in
  Ok (pkt, MkLinkService (ls_options ls) seq (ls_reassembler ls) (ls_counters ls)).

Fixpoint assignSequences (pkts : list LpPacket) (ls : LinkService) : result (list LpPacket * LinkService) :=
  match pkts with
  | [] => Ok ([], ls)
  | p :: l =>
      let! (p, ls) := assignSequence p ls in
      let! (l, ls) := assignSequences l ls in
      Ok (p :: l, ls)
  end.

(** The loop that sends: a packet over the MTU, which is converted to [size_t], is
    counted and dropped. *)
Fixpoint send_all (mtu : Z) (frags : list LpPacket) (ls : LinkService) : result (list Block * LinkService) :=
  match frags with
  | [] => Ok ([], ls)
  | frag :: l =>
      let! (tp, _) := Packet_wire frag in
      let! size := Block_size tp in
      if negb (mtu =? MTU_UNLIMITED) && (to_u64 mtu <? size) then send_all mtu l (count_send_errors 0 1 ls)
      else let! (out, ls) := send_all mtu l ls in Ok (tp :: out, ls)
  end.

(** [sendNetPacket]: what is given to the transport *)
Definition sendNetPacket (mtu : Z) (pkt : LpPacket) (ls : LinkService) : result (list Block * LinkService) :=
  let! frags := if allowFragmentation (ls_options ls) && negb (mtu =? MTU_UNLIMITED)
                then fragmentPacket (nMaxFragments (ls_options ls)) pkt (to_u64 mtu)
                else Ok (Some [pkt]) in
  match frags with
  | None => Ok ([], count_send_errors 1 0 ls)
  | Some frags =>
      let! (frags, ls) :=
        (if 1 <? len frags then assignSequences frags ls
         else match frags with
              | [] => Err AssertFailed
              | frag :: _ => let! _ := assert_whole frag in Ok (frags, ls)
              end) in
      send_all mtu frags ls
  end.

(** [encodeLocalFields]; the tag of the packet is an argument. *)
Definition encodeLocalFields (incomingFaceId : option Z) (pkt : LpPacket) (ls : LinkService) : result LpPacket :=
  match allowLocalFields (ls_options ls), incomingFaceId with
  | true, Some id => addField LpTlv.IncomingFaceId (integerField LpTlv.IncomingFaceId id) pkt
  | _, _ => Ok pkt
  end.

(** [sendInterest], [sendData] and [sendNack] with [doSend...] *)
Definition sendInterest (mtu word : Z) (interest : InterestPacket) (incoming : option Z) (ls : LinkService) : result (list Block * LinkService) :=
  let ls := count_sent 1 0 0 ls in
  let! (b, _) := Interest_wire word interest in
  let! pkt := Packet_wireDecode b in
  let! pkt := encodeLocalFields incoming pkt ls in
  sendNetPacket mtu pkt ls.

Definition sendData (mtu : Z) (data : DataPacket) (incoming : option Z) (ls : LinkService) : result (list Block * LinkService) :=
  let ls := count_sent 0 1 0 ls in
  let! (b, _) := Data_wire data in
  let! pkt := Packet_wireDecode b in
  let! pkt := encodeLocalFields incoming pkt ls in
  sendNetPacket mtu pkt ls.

Definition sendNack (mtu word : Z) (interest : InterestPacket) (m_reason : Z) (incoming : option Z) (ls : LinkService)
  : result (list Block * LinkService) :=
  let ls := count_sent 0 0 1 ls in
  let! (b, _) := Interest_wire word interest in
  let! pkt := Packet_wireDecode b in
  let! pkt := addField LpTlv.Nack (nackField m_reason) pkt in
  let! pkt := encodeLocalFields incoming pkt ls in
  sendNetPacket mtu pkt ls.

(** ** Receiving *)

(** What is handed to the forwarder, with the tags of the local fields *)
Inductive Received :=
| RxInterest (interest : InterestPacket) (nextHopFaceId : option Z)
| RxData (data : DataPacket) (noCache : bool)
| RxNack (interest : InterestPacket) (m_reason : Z).

(** A packet is delivered, or dropped, which may be counted. *)
Inductive Outcome := Deliver (r : Received) | Drop (counted : bool).

Definition decodeInterest (allowLocal : bool) (netPkt : Block) (firstPkt : LpPacket) : result Outcome :=
  let! interest := Interest_wireDecode netPkt in
  let! hasNextHop := hasField LpTlv.NextHopFaceId firstPkt in
  let! nextHop := if hasNextHop && allowLocal then let! id := getInteger LpTlv.NextHopFaceId firstPkt in Ok (Some id) else Ok None in
  if hasNextHop && negb allowLocal then Ok (Drop false)
  else
    let! hasPolicy := hasField LpTlv.CachePolicy firstPkt in
    if hasPolicy then Ok (Drop true) else Ok (Deliver (RxInterest interest nextHop)).

Definition decodeData (allowLocal : bool) (netPkt : Block) (firstPkt : LpPacket) : result Outcome :=
  let! data := DataPacket_of_block netPkt in
  let! hasNack := hasField LpTlv.Nack firstPkt in
  if hasNack then Ok (Drop true)
  else
    let! hasNextHop := hasField LpTlv.NextHopFaceId firstPkt in
    if hasNextHop then Ok (Drop true)
    else
      let! hasPolicy := hasField LpTlv.CachePolicy firstPkt in
      let! noCache := if hasPolicy && allowLocal
                      then let! x := getField LpTlv.CachePolicy 0 firstPkt in let! _ := CachePolicy_wireDecode x in Ok true
                      else Ok false in
      Ok (Deliver (RxData data noCache)).

Definition decodeNack (netPkt : Block) (firstPkt : LpPacket) : result Outcome :=
  let! interest := Interest_wireDecode netPkt in
  let! x := getField LpTlv.Nack 0 firstPkt in
  let! m_reason := NackHeader_wireDecode x in
  let! hasNextHop := hasField LpTlv.NextHopFaceId firstPkt in
  if hasNextHop then Ok (Drop true)
  else
    let! hasPolicy := hasField LpTlv.CachePolicy firstPkt in
    if hasPolicy then Ok (Drop true) else Ok (Deliver (RxNack interest m_reason)).

(** The exceptions derived from [tlv::Error], which the service catches *)
Definition is_tlv_error (e : error) : bool :=
  match e with
  | OutOfRange | InvalidArgument | LengthError | RuntimeError | DomainError | BadCast | AssertFailed | NullPointer | UseAfterFree | OutOfFuel => false
  | _ => true
  end.

Definition count_delivery (r : Received) (ls : LinkService) : LinkService :=
  match r with
  | RxInterest _ _ => count_received 1 0 0 ls
  | RxData _ _ => count_received 0 1 0 ls
  | RxNack _ _ => count_received 0 0 1 ls
  end.

(** [decodeNetPacket] *)
Definition decodeNetPacket (netPkt : Block) (firstPkt : LpPacket) (ls : LinkService) : LinkService * result (option Received) :=
  let allowLocal := allowLocalFields (ls_options ls) in
  let outcome :=
    if m_type netPkt =? TlvType.Interest then
      let! hasNack := hasField LpTlv.Nack firstPkt in
      if hasNack then decodeNack netPkt firstPkt else decodeInterest allowLocal netPkt firstPkt
    else if m_type netPkt =? TlvType.Data then decodeData allowLocal netPkt firstPkt
    else Ok (Drop true) in
  match outcome with
  | Ok (Deliver r) => (count_delivery r ls, Ok (Some r))
  | Ok (Drop counted) => (if counted then count_receive_errors 0 0 1 ls else ls, Ok None)
  | Err e => if is_tlv_error e then (count_receive_errors 0 0 1 ls, Ok None) else (ls, Err e)
  end.

(** The packet before it is reassembled: [None] when it is dropped *)
Definition accept_packet (packet : Block) (ls : LinkService) : result (option LpPacket) :=
  let! pkt := Packet_wireDecode packet in
  let! hasFragment := hasField LpTlv.Fragment pkt in
  if negb hasFragment then Ok None
  else
    let! hasIndex := hasField LpTlv.FragIndex pkt in
    let! hasCount := hasField LpTlv.FragCount pkt in
    if (hasIndex || hasCount) && negb (allowReassembly (ls_options ls)) then Ok None else Ok (Some pkt).

(** [doReceivePacket] *)
Definition doReceivePacket (now remoteEndpoint : Z) (packet : Block) (ls : LinkService) : LinkService * result (option Received) :=
  let '(ls, r) :=
    match accept_packet packet ls with
    | Err e => (ls, Err e)
    | Ok None => (ls, Ok None)
    | Ok (Some pkt) =>
        let '(ra, r) := receiveFragment now remoteEndpoint pkt (ls_reassembler ls) in
        let ls := with_reassembler ra ls in
        match r with
        | Err e => (ls, Err e)
        | Ok None => (ls, Ok None)
        | Ok (Some (netPkt, firstPkt)) => decodeNetPacket netPkt firstPkt ls
        end
    end in
  match r with
  | Err e => if is_tlv_error e then (count_receive_errors 1 0 0 ls, Ok None) else (ls, Err e)
  | Ok x => (ls, Ok x)
  end.

(** The drop timer of a partial packet fires. *)
Definition onReassemblyTimeout (now : Z) (key : Key) (ls : LinkService) : LinkService :=
  let '(ra, lost) := timeoutPartialPacket now key (ls_reassembler ls) in
  let ls := with_reassembler ra ls in
  match lost with Some _ => count_receive_errors 0 1 0 ls | None => ls end.

(** ** Sequence numbers *)

(** The fields with consecutive sequence numbers from [s] on *)
Fixpoint with_sequences (s : Z) (fss : list (list (Z * list Z))) : list (list (Z * list Z)) :=
  match fss with
  | [] => []
  | fs :: fss' => with_sequence (to_u64 s) fs :: with_sequences (s + 1) fss'
  end.

Lemma with_sequences_lookup fss : forall s k, with_sequences s fss !! k = with_sequence (to_u64 (s + Z.of_nat k)) <$> fss !! k.
Proof.
  induction fss as [|fs fss IH]; intros s [|k]; cbn [with_sequences]; [done|done|cbn; by rewrite Z.add_0_r|].
  cbn. rewrite IH. by replace (s + 1 + Z.of_nat k) with (s + Z.of_nat (S k)) by lia.
Qed.

Lemma with_sequences_length fss s : length (with_sequences s fss) = length fss.
Proof. revert s. induction fss; intros s; cbn; congruence. Qed.

Lemma with_sequences_mod fss : forall s s', to_u64 s = to_u64 s' -> with_sequences s fss = with_sequences s' fss.
Proof.
  induction fss as [|fs fss IH]; intros s s' Hs; cbn [with_sequences]; [done|]. rewrite Hs. f_equal. apply IH.
  unfold to_u64 in *. rewrite (Zplus_mod s), (Zplus_mod s'). by rewrite Hs.
Qed.

Lemma to_u64_range s : 0 <= to_u64 s < U64.
Proof. apply Z.mod_pos_bound. width_lia. Qed.

Lemma assignSequences_spec l : forall fss ls, Forall2 (fun q fs => lp_repr q fs /\ m_buffer q = None) l fss -> Forall good_fields fss ->
  exists l' last, assignSequences l ls = Ok (l', MkLinkService (ls_options ls) last (ls_reassembler ls) (ls_counters ls)) /\
    Forall2 (fun q fs => lp_repr q fs) l' (with_sequences (ls_lastSeqNo ls + 1) fss).
Proof.
  induction l as [|p l IH]; intros fss ls H2 Hg; destruct fss as [|fs fss]; [|by inversion H2|by inversion H2|].
  { exists [], (ls_lastSeqNo ls). split; [by destruct ls|constructor]. }
  apply Forall2_cons in H2 as [[Hp _] H2]. apply Forall_cons in Hg as [Hgf Hg]. cbn [assignSequences]. unfold assignSequence.
  destruct (integerField_ok LpTlv.Sequence (to_u64 (ls_lastSeqNo ls + 1))) as (b&->&Hb); [by vm_compute|apply to_u64_range|].
  destruct (setField_spec p fs b _ Hp (gf_wf _ Hgf) Hb) as (q&Hq&Hqr&_). cbn [fst] in Hq. rewrite Hq. cbn [rbind].
  set (ls1 := MkLinkService (ls_options ls) (to_u64 (ls_lastSeqNo ls + 1)) (ls_reassembler ls) (ls_counters ls)).
  destruct (IH fss ls1 H2 Hg) as (l'&last&->&Hl'). cbn [rbind]. exists (q :: l'), last. split; [done|]. cbn [with_sequences]. constructor; [done|].
  cbn [ls_lastSeqNo ls1] in Hl'. erewrite with_sequences_mod; [exact Hl'|]. unfold to_u64. by rewrite Zplus_mod_idemp_l.
Qed.

(** ** Sending what fits *)

Lemma send_all_spec mtu l fss : to_u64 mtu = mtu -> Forall2 (fun q fs => lp_repr q fs) l fss ->
  Forall (fun fs => good_fields fs /\ (forall w, fs <> [(LpTlv.Fragment, w)]) /\ len (wires fs) < U64 /\ len (tlv_wire LpTlv.LpPacket (wires fs)) <= mtu) fss ->
  exists bs, (forall ls, send_all mtu l ls = Ok (bs, ls)) /\ Forall2 (fun b fs => wire b = Ok (tlv_wire LpTlv.LpPacket (wires fs))) bs fss.
Proof.
  intros Hu. revert fss. induction l as [|p l IH]; intros fss H2 Hall; destruct fss as [|fs fss]; [|by inversion H2|by inversion H2|].
  { exists []. split; [done|constructor]. }
  apply Forall2_cons in H2 as [Hp H2]. apply Forall_cons in Hall as [(Hg&Hne&Hl&Hm) Hall].
  destruct (Packet_wire_headers p fs Hp (gf_wf _ Hg) Hl Hne) as (b&Hb&_&Hw&Hs&_). destruct (IH fss H2 Hall) as (bs&Hsend&Hbs).
  exists (b :: bs). split; [|by constructor]. intros ls. cbn [send_all]. rewrite Hb. cbn [rbind]. rewrite Hs. cbn [rbind].
  rewrite Hu, (proj2 (Z.ltb_ge _ _)), andb_false_r by lia. by rewrite Hsend.
Qed.

(** ** The fields of a fragment on the wire *)

Lemma elem_of_ins x y es : x ∈ ins y es <-> x = y \/ x ∈ es.
Proof. rewrite (ins_perm y es). apply elem_of_cons. Qed.

Lemma elem_of_without t x es : x ∈ without_field t es <-> x.1 <> t /\ x ∈ es.
Proof.
  unfold without_field. rewrite !list_elem_of_In, List.filter_In, negb_true_iff, Z.eqb_neq. tauto.
Qed.

Lemma frag_members s i n c base x : not_fragmented base ->
  x ∈ with_sequence s (frag_fields i n c base) <->
  x = (LpTlv.Sequence, encoderIntegerBytes s) \/ x = (LpTlv.Fragment, c) \/ x = (LpTlv.FragCount, encoderIntegerBytes n) \/
  x = (LpTlv.FragIndex, encoderIntegerBytes i) \/ x ∈ base /\ x.1 <> LpTlv.Fragment /\ x.1 <> LpTlv.Sequence.
Proof.
  intros _. unfold with_sequence, frag_fields. rewrite !elem_of_ins, elem_of_without, elem_of_ins, elem_of_without, !elem_of_ins.
  split.
  - intros [->|[Hs [->|[Hf [->|[->|Hb]]]]]]; tauto.
  - intros [->|[->|[->|[->|(Hb&Hf&Hs)]]]]; [by left|right; by split; [|left]|right; split; [done|right]; split; [done|by left]| |].
    + right; split; [done|right]; split; [done|right; by left].
    + right; split; [done|right]; split; [done|right; by right].
Qed.

(** What the receiver reads of a fragment *)
Record fragment_read (q : LpPacket) (s i n : Z) (c : list Z) : Prop := {
  fg_index : read_index q = Ok (i, n);
  fg_sequence : hasField LpTlv.Sequence q = Ok true /\ getInteger LpTlv.Sequence q = Ok s;
  fg_payload : getFragment q = Ok c;
  fg_has : hasField LpTlv.Fragment q = Ok true
}.

Lemma hasField_in q fs t v : lp_repr q fs -> wf_fields fs -> (t, v) ∈ fs -> hasField t q = Ok true.
Proof. intros Hr Hw Hx. rewrite (hasField_spec t q fs Hr Hw), bool_decide_true; [done|]. apply list_elem_of_fmap. by exists (t, v). Qed.

Lemma read_fragment q s i n c base : lp_repr q (with_sequence s (frag_fields i n c base)) -> good_fields (with_sequence s (frag_fields i n c base)) ->
  not_fragmented base -> 0 <= s < U64 -> 0 <= i < U64 -> 0 <= n < U64 -> c <> [] -> fragment_read q s i n c.
Proof.
  intros Hr Hg Hnf Hs Hi Hn Hc. set (fs := with_sequence s (frag_fields i n c base)) in *. destruct Hg as [Hw Ho _]. pose proof (ordered_NoDup fs Ho) as Hnd.
  assert (Hm : forall x, x = (LpTlv.Sequence, encoderIntegerBytes s) \/ x = (LpTlv.Fragment, c) \/ x = (LpTlv.FragCount, encoderIntegerBytes n) \/
    x = (LpTlv.FragIndex, encoderIntegerBytes i) -> x ∈ fs) by (intros x Hx; apply frag_members; tauto).
  pose proof (Hm (LpTlv.Sequence, _) ltac:(by left)) as H1. pose proof (Hm (LpTlv.Fragment, _) ltac:(right; by left)) as H2.
  pose proof (Hm (LpTlv.FragCount, _) ltac:(do 2 right; by left)) as H3. pose proof (Hm (LpTlv.FragIndex, _) ltac:(by do 3 right)) as H4.
  split.
  - unfold read_index. rewrite (hasField_in q fs _ _ Hr Hw H4). cbn [rbind]. rewrite (getInteger_spec _ i q fs) by done. cbn [rbind].
    rewrite (hasField_in q fs _ _ Hr Hw H3). cbn [rbind]. rewrite (getInteger_spec _ n q fs) by done. done.
  - split; [exact (hasField_in q fs _ _ Hr Hw H1)|by apply (getInteger_spec _ s q fs)].
  - by apply (getFragment_spec c q fs).
  - exact (hasField_in q fs _ _ Hr Hw H2).
Qed.

(** ** Receiving fragments *)

Lemma decodeNetPacket_error netPkt firstPkt ls e : (decodeNetPacket netPkt firstPkt ls).2 = Err e -> is_tlv_error e = false.
Proof.
  unfold decodeNetPacket. destruct (if m_type netPkt =? TlvType.Interest then _ else _) as [[r|counted]|e']; [done|done|].
  destruct (is_tlv_error e') eqn:He; [done|]. cbn. intros [= <-]. done.
Qed.

(** The link packet in the block passes the checks of a service that reassembles. *)
Definition decoded (r : Block) (q : LpPacket) : Prop :=
  forall ls, allowReassembly (ls_options ls) = true -> accept_packet r ls = Ok (Some q).

Lemma doReceive_decoded now remote r q ls ra x : decoded r q -> allowReassembly (ls_options ls) = true ->
  receiveFragment now remote q (ls_reassembler ls) = (ra, x) ->
  match x with
  | Ok None => doReceivePacket now remote r ls = (with_reassembler ra ls, Ok None)
  | Ok (Some (netPkt, firstPkt)) => doReceivePacket now remote r ls = decodeNetPacket netPkt firstPkt (with_reassembler ra ls)
  | Err _ => True
  end.
Proof.
  intros Hd Ha Hr. unfold doReceivePacket. rewrite (Hd ls Ha), Hr. destruct x as [[[netPkt firstPkt]|]|e]; [|done|done].
  pose proof (decodeNetPacket_error netPkt firstPkt (with_reassembler ra ls)) as He.
  destruct (decodeNetPacket netPkt firstPkt (with_reassembler ra ls)) as [ls' [y|e]]; [done|]. by rewrite (He e eq_refl).
Qed.

(** Packets from one endpoint, with the times they arrive at *)
Fixpoint receive_blocks (remote : Z) (evs : list (Z * Block)) (ls : LinkService) : LinkService * list (result (option Received)) :=
  match evs with
  | [] => (ls, [])
  | (now, r) :: evs' =>
      let '(ls, x) := doReceivePacket now remote r ls in
      let '(ls, l) := receive_blocks remote evs' ls in (ls, x :: l)
  end.

Lemma receive_blocks_spec remote bevs : forall evs ls, allowReassembly (ls_options ls) = true ->
  Forall2 (fun (b : Z * Block) (ev : event) => ev.1 = (b.1, remote) /\ decoded b.2 ev.2) bevs evs ->
  (forall j ev, evs !! j = Some ev -> (receive_all evs (ls_reassembler ls)).2 !! j = Some (Ok None)) ->
  receive_blocks remote bevs ls = (with_reassembler (receive_all evs (ls_reassembler ls)).1 ls, replicate (length bevs) (Ok None)).
Proof.
  induction bevs as [|[now r] bevs IH]; intros evs ls Ha H2 Hall; destruct evs as [|[[now' from] q] evs]; [by destruct ls|by inversion H2|by inversion H2|].
  apply Forall2_cons in H2 as [[He Hd] H2]. cbn [fst snd] in *. injection He as -> ->. cbn [receive_blocks receive_all].
  destruct (receiveFragment now remote q (ls_reassembler ls)) as [ra x] eqn:Hr. destruct (receive_all evs ra) as [ra' xs] eqn:Hra.
  assert (Hx : x = Ok None).
  { specialize (Hall 0%nat _ eq_refl). cbn [receive_all] in Hall. rewrite Hr, Hra in Hall. cbn in Hall. by injection Hall as ->. }
  subst x. rewrite (doReceive_decoded now remote r q ls ra (Ok None) Hd Ha Hr).
  rewrite (IH evs (with_reassembler ra ls)); [|done|done|].
  - cbn. by rewrite Hra.
  - intros j ev Hj. specialize (Hall (S j) ev Hj). cbn [receive_all] in Hall. rewrite Hr, Hra in Hall. cbn in Hall. cbn. by rewrite Hra.
Qed.

(** ** Fragments across the link *)

Section Transfer.
Context (remote s n : Z) (es : list (Z * list Z)) (cs : list (list Z)) (rs : list Block).

(** The fields of the fragments *)
Let fss : list (list (Z * list Z)) := with_sequences s (frag_list 0 n es cs).

(** The payloads [cs] are of [n] fragments of a packet with fields [es]. *)
Record pieces : Prop := {
  pc_count : n = len cs /\ 2 <= n < U64;
  pc_good : good_fields es /\ not_fragmented es;
  pc_payloads : forall c, c ∈ cs -> c <> [] /\ wf_bytes c /\ len c < U64
}.

(** [rs] are the fragments, as they are read from the wire. *)
Record carries : Prop := {
  ca_pieces : pieces;
  ca_sizes : Forall (fun fs => len (wires fs) < U64) fss;
  ca_wire : Forall2 (fun r fs => Block_of_buffer (tlv_wire LpTlv.LpPacket (wires fs)) = Ok r) rs fss
}.

Lemma fragment_fields k fs : pieces -> fss !! k = Some fs ->
  exists c base, cs !! k = Some c /\ fs = with_sequence (to_u64 (s + Z.of_nat k)) (frag_fields (Z.of_nat k) n c base) /\
    good_fields base /\ not_fragmented base /\ good_fields fs /\ base = (if (k =? 0)%nat then es else []).
Proof.
  intros [[Hn Hn2] [Hg Hnf] Hc] Hk. unfold fss in Hk. rewrite with_sequences_lookup in Hk. apply fmap_Some in Hk as (fs0&Hk&->).
  destruct (frag_list_lookup _ _ _ _ _ _ Hk) as (c&Hck&->). rewrite Z.add_0_l. exists c, (if (k =? 0)%nat then es else []).
  assert (Hb : good_fields (if (k =? 0)%nat then es else []) /\ not_fragmented (if (k =? 0)%nat then es else [])).
  { destruct (k =? 0)%nat; [done|]. split; [apply good_nil|split; apply not_elem_of_nil]. }
  destruct (Hc c) as (_&Hcb&Hcl); [by eapply list_elem_of_lookup_2|]. split_and!; try done; [apply Hb|apply Hb|].
  apply good_sequence; [|apply to_u64_range]. apply good_frag; [apply Hb|apply Hb|lia|lia|done|done].
Qed.

(** The packets that the fragments are decoded to *)
Lemma carries_decoded : carries -> exists frs, Forall2 decoded rs frs /\ length frs = length cs /\
  (forall k q, frs !! k = Some q -> exists c fs, cs !! k = Some c /\ fss !! k = Some fs /\ lp_repr q fs /\ fragment_read q (to_u64 (s + Z.of_nat k)) (Z.of_nat k) n c).
Proof.
  intros Hca. assert (Hex : forall k r, rs !! k = Some r -> exists q c fs, decoded r q /\ cs !! k = Some c /\ fss !! k = Some fs /\ lp_repr q fs /\
    fragment_read q (to_u64 (s + Z.of_nat k)) (Z.of_nat k) n c).
  { intros k r Hr. destruct (Forall2_lookup_l _ _ _ _ _ (ca_wire Hca) Hr) as (fs&Hfs&Hb).
    destruct (fragment_fields k fs (ca_pieces Hca) Hfs) as (c&base&Hc&->&Hgb&Hnb&Hg&_). pose proof (ca_sizes Hca) as Hsz. rewrite Forall_forall in Hsz.
    specialize (Hsz _ ltac:(by eapply list_elem_of_lookup_2)).
    destruct (Block_of_buffer_built LpTlv.LpPacket _ ltac:(split; [by vm_compute|exact Hsz])) as (r'&Hr'&Hbu). rewrite Hb in Hr'. injection Hr' as <-.
    destruct (Packet_wireDecode_ok r _ Hbu (gf_wf _ Hg) (gf_ordered _ Hg) (gf_accept _ Hg)) as (q&Hq&Hqr&_).
    destruct (pc_payloads (ca_pieces Hca) c ltac:(by eapply list_elem_of_lookup_2)) as (Hne&_&_). destruct (pc_count (ca_pieces Hca)) as [Hn Hn2].
    assert (Hk : 0 <= Z.of_nat k < U64) by (apply lookup_lt_Some in Hc; unfold len in Hn; lia).
    pose proof (read_fragment q _ _ n c base Hqr Hg Hnb (to_u64_range _) Hk ltac:(lia) Hne) as Hread.
    exists q, c. eexists. split_and!; [|done|done|done|done]. intros ls Ha. unfold accept_packet. rewrite Hq. cbn [rbind]. rewrite (fg_has _ _ _ _ _ Hread). cbn [rbind negb].
    rewrite !(hasField_spec _ q _ Hqr (gf_wf _ Hg)). cbn [rbind]. by rewrite Ha, andb_false_r. }
  assert (Hlen : length rs = length cs).
  { pose proof (Forall2_length _ _ _ (ca_wire Hca)) as Hl. unfold fss in Hl. rewrite with_sequences_length, frag_list_length in Hl. done. }
  destruct (list_choice rs (fun k r q => exists c fs, decoded r q /\ cs !! k = Some c /\ fss !! k = Some fs /\ lp_repr q fs /\
    fragment_read q (to_u64 (s + Z.of_nat k)) (Z.of_nat k) n c) Hex) as (frs&Hl&Hall).
  exists frs. split_and!; [|congruence|].
  - apply Forall2_same_length_lookup_2; [done|]. intros k r q Hr Hq. by destruct (Hall k r q Hr Hq) as (c&fs&?&_).
  - intros k q Hq. destruct (lookup_lt_is_Some_2 rs k) as [r Hr]; [rewrite <- Hl; by eapply lookup_lt_Some|].
    destruct (Hall k r q Hr Hq) as (c&fs&_&?). by exists c, fs.
Qed.

(** The order in which the fragments arrive before the last one, [k0]: each of the
    others at least once *)
Definition others_arrive (k0 : nat) (ks : list (Z * nat)) : Prop :=
  (forall t k, (t, k) ∈ ks -> k <> k0) /\ (forall k, (k < length rs)%nat -> k <> k0 -> exists t, (t, k) ∈ ks).

Lemma fragments_delivered ls netBlk now k0 r0 bevs ks : carries -> allowReassembly (ls_options ls) = true ->
  n <= ra_nMaxFragments (ls_reassembler ls) -> ra_partialPackets (ls_reassembler ls) !! (remote, to_u64 s) = None ->
  Block_of_array (concat cs) = Ok netBlk -> rs !! k0 = Some r0 -> others_arrive k0 ks ->
  Forall2 (fun (b : Z * Block) (tk : Z * nat) => b.1 = tk.1 /\ rs !! tk.2 = Some b.2) bevs ks ->
  exists ra ra' first c, receive_blocks remote bevs ls = (with_reassembler ra ls, replicate (length bevs) (Ok None)) /\
    doReceivePacket now remote r0 (with_reassembler ra ls) = decodeNetPacket netBlk first (with_reassembler ra' ls) /\
    lp_repr first (with_sequence (to_u64 s) (frag_fields 0 n c es)) /\ good_fields (with_sequence (to_u64 s) (frag_fields 0 n c es)).
Proof.
  intros Hca Ha Hmax Hnone Hblk Hr0 [Ho1 Ho2] Hb. destruct (carries_decoded Hca) as (frs&Hdec&Hlen&Hread). destruct (pc_count (ca_pieces Hca)) as [Hn Hn2].
  assert (Hnf : len frs = n) by (unfold len in *; lia).
  assert (Hnb : numbered s frs cs).
  { split.
    - intros k q Hq. destruct (Hread k q Hq) as (c&fs&_&_&_&[Hi _ _ _]). by rewrite Hnf.
    - intros k q Hq. by destruct (Hread k q Hq) as (c&fs&_&_&_&[_ Hs _ _]).
    - apply Forall2_same_length_lookup_2; [done|]. intros k q c Hq Hc. destruct (Hread k q Hq) as (c'&fs&Hc'&_&_&[_ _ Hp _]). congruence. }
  pose proof (Forall2_length _ _ _ Hdec) as Hlr.
  destruct (list_choice ks (fun j tk (ev : event) => ev.1 = (tk.1, remote) /\ frs !! tk.2 = Some ev.2)) as (evs&Hel&Hevs).
  { intros j [t k] Hj. destruct (Forall2_lookup_r _ _ _ _ _ Hb Hj) as (b&_&_&Hrk). cbn [snd] in *.
    destruct (lookup_lt_is_Some_2 frs k) as [q Hq]; [rewrite <- Hlr; by eapply lookup_lt_Some|]. by exists (t, remote, q). }
  assert (Hev : forall ev, ev ∈ evs -> exists k, k <> k0 /\ arrival remote frs k ev).
  { intros ev (j&Hj)%list_elem_of_lookup. destruct (lookup_lt_is_Some_2 ks j) as [[t k] Hk]; [rewrite <- Hel; by eapply lookup_lt_Some|].
    destruct (Hevs j _ _ Hk Hj) as [He Hq]. exists k. split; [by eapply Ho1, list_elem_of_lookup_2|]. split; [by rewrite He|done]. }
  destruct (lookup_lt_is_Some_2 frs k0) as [q0 Hq0]; [rewrite <- Hlr; by eapply lookup_lt_Some|].
  destruct (lookup_lt_is_Some_2 frs 0) as [first Hfirst]; [unfold len in Hnf; lia|].
  destruct (reassembles_any_order remote s frs cs evs now k0 q0 first netBlk (ls_reassembler ls) Hnb) as (Hres&ra'&Hlast&_); try done.
  - rewrite Hnf. lia.
  - intros ev Hin. right. by apply Hev.
  - intros k Hk Hne. destruct (Ho2 k) as (t&Ht); [lia|done|]. apply list_elem_of_lookup in Ht as (j&Hj).
    destruct (lookup_lt_is_Some_2 evs j) as [ev Hevj]; [rewrite Hel; by eapply lookup_lt_Some|]. destruct (Hevs j _ _ Hj Hevj) as [He Hq].
    exists ev. split; [by eapply list_elem_of_lookup_2|]. split; [by rewrite He|done].
  - destruct (Hread 0%nat first Hfirst) as (c&fs&Hc&Hfs&Hrep&_). destruct (fragment_fields 0 fs (ca_pieces Hca) Hfs) as (c'&base&Hc'&->&_&_&Hg&->). cbn [Nat.eqb] in *.
    rewrite Z.add_0_r in *. exists (receive_all evs (ls_reassembler ls)).1, ra', first, c'. split_and!; [| |done|done].
    + apply (receive_blocks_spec remote bevs evs ls Ha).
      * apply Forall2_same_length_lookup_2; [apply Forall2_length in Hb; congruence|]. intros j b ev Hbj Hej.
        destruct (Forall2_lookup_l _ _ _ _ _ Hb Hbj) as ([t k]&Hk&Hbt&Hrk). destruct (Hevs j _ _ Hk Hej) as [He Hq]. cbn [fst snd] in *.
        rewrite He, Hbt. split; [done|]. by apply (Forall2_lookup_lr _ _ _ _ _ _ Hdec Hrk Hq).
      * intros j ev Hj. destruct (Hev ev) as (k&_&Hk); [by eapply list_elem_of_lookup_2|]. by eapply Hres.
    + pose proof (Forall2_lookup_lr _ _ _ _ _ _ Hdec Hr0 Hq0) as Hd0.
      exact (doReceive_decoded now remote r0 q0 (with_reassembler (receive_all evs (ls_reassembler ls)).1 ls) ra' (Ok (Some (netBlk, first))) Hd0 Ha Hlast).
Qed.
End Transfer.

(** ** Network packets across the link *)

Lemma Block_of_array_built t v : wf_element (t, v) -> exists b, Block_of_array (tlv_wire t v) = Ok b /\ built b t v.
Proof.
  intros Hel. unfold Block_of_array. destruct (read_header t v [] Hel) as [H1 H2]. rewrite !app_nil_r in *. rewrite H1. cbn [rbind]. rewrite H2. cbn [rbind].
  rewrite Z.ltb_irrefl. eexists. split; [done|]. pose proof (raw_built t v Hel) as Hr.
  assert (Ht : take (length (tlv_wire t v) - length v + Z.to_nat (len v)) (tlv_wire t v) = tlv_wire t v).
  { apply take_ge. unfold len. rewrite length_tlv_wire. lia. }
  by rewrite Ht.
Qed.

(** The blocks as they are read from the wire *)
Definition received (bs rs : list Block) : Prop := Forall2 (fun b r => exists w, wire b = Ok w /\ Block_of_buffer w = Ok r) bs rs.

(** The receiver reassembles, has room for [n] fragments, and has no fragment of
    the message yet. *)
Record can_receive (rx : LinkService) (n remote s : Z) : Prop := {
  cr_allow : allowReassembly (ls_options rx) = true;
  cr_max : n <= ra_nMaxFragments (ls_reassembler rx);
  cr_fresh : ra_partialPackets (ls_reassembler rx) !! (remote, to_u64 s) = None
}.

(** A link packet without header fields for the forwarder *)
Definition plain_packet (p : LpPacket) : Prop :=
  hasField LpTlv.Nack p = Ok false /\ hasField LpTlv.NextHopFaceId p = Ok false /\ hasField LpTlv.CachePolicy p = Ok false.

(** The blocks [bs] bring the network packet of type [t] and value [v]: in whatever
    order they arrive, they give nothing until the last, which gives the packet
    to the decoder. *)
Definition brings (bs : list Block) (s t : Z) (v : list Z) : Prop :=
  forall rs rx remote now k0 r0 bevs ks, received bs rs -> can_receive rx (len bs) remote s -> rs !! k0 = Some r0 -> others_arrive rs k0 ks ->
    Forall2 (fun (b : Z * Block) (tk : Z * nat) => b.1 = tk.1 /\ rs !! tk.2 = Some b.2) bevs ks ->
    exists ra ra' netBlk first, receive_blocks remote bevs rx = (with_reassembler ra rx, replicate (length bevs) (Ok None)) /\
      doReceivePacket now remote r0 (with_reassembler ra rx) = decodeNetPacket netBlk first (with_reassembler ra' rx) /\
      elem_ok netBlk (t, v) /\ plain_packet first.

Lemma plain_fields p fs : lp_repr p fs -> wf_fields fs -> (forall x, x ∈ fs -> (x.1 ∉ [LpTlv.Nack; LpTlv.NextHopFaceId; LpTlv.CachePolicy])) -> plain_packet p.
Proof.
  intros Hr Hw Hno. assert (Hf : forall t, t ∈ [LpTlv.Nack; LpTlv.NextHopFaceId; LpTlv.CachePolicy] -> hasField t p = Ok false).
  { intros t Ht. rewrite (hasField_spec t p fs Hr Hw), bool_decide_false; [done|]. intros (x&->&Hx)%list_elem_of_fmap. by apply (Hno x). }
  split_and!; apply Hf; by_decide.
Qed.

(** One packet, the network packet itself *)
Lemma bare_brings b t v s : wire b = Ok (tlv_wire t v) -> t = TlvType.Interest \/ t = TlvType.Data -> len (tlv_wire t v) < U64 ->
  wf_element (t, v) -> wf_bytes v -> brings [b] s t v.
Proof.
  intros Hb Ht Hl Hel Hv rs rx remote now k0 r0 bevs ks Hrs [Ha Hmax _] Hr0 [Ho1 _] Hbev.
  destruct rs as [|r [|? rs]]; [by inversion Hrs| |by apply Forall2_cons in Hrs as [_ Hrs]; inversion Hrs].
  apply Forall2_cons in Hrs as [(w&Hw&Hr) _]. rewrite Hb in Hw. injection Hw as <-. destruct k0; [|done]. injection Hr0 as <-.
  assert (Hks : ks = []).
  { destruct ks as [|[tm k] ks]; [done|]. exfalso. apply (Ho1 tm k); [left|]. destruct bevs; [by inversion Hbev|].
    apply Forall2_cons in Hbev as [[_ Hk] _]. cbn [snd] in Hk. by destruct k. }
  subst ks. destruct bevs; [|by inversion Hbev].
  destruct (Block_of_buffer_built t v Hel) as (r'&Hr'&Hbu). rewrite Hr in Hr'. injection Hr' as <-.
  destruct (Packet_wireDecode_bare r t v) as (q&Hq&Hqr&_); [by destruct Hbu as [[= ? ?] _ _ _ _ _ _]|apply Hbu|done..|].
  destruct (Block_of_array_built t v Hel) as (netBlk&Hnet&Hnb).
  assert (Hwf : wf_fields [(LpTlv.Fragment, tlv_wire t v)]).
  { apply wf_fields_cons. split; [split; [split; [by vm_compute|done]|by apply wf_tlv_wire]|split; constructor]. }
  assert (Hf : forall u, hasField u q = Ok (bool_decide (u ∈ [LpTlv.Fragment]))) by (intros u; exact (hasField_spec u q _ Hqr Hwf)).
  assert (Hf1 : hasField LpTlv.Fragment q = Ok true) by (rewrite Hf; by vm_compute).
  assert (Hf2 : hasField LpTlv.FragIndex q = Ok false) by (rewrite Hf; by vm_compute).
  assert (Hf3 : hasField LpTlv.FragCount q = Ok false) by (rewrite Hf; by vm_compute).
  assert (Hd : decoded r q).
  { intros ls Hal. unfold accept_packet. rewrite Hq. cbn [rbind]. by rewrite Hf1, Hf2, Hf3. }
  assert (Hfrag : receiveFragment now remote q (ls_reassembler rx) = (ls_reassembler rx, Ok (Some (netBlk, q)))).
  { unfold receiveFragment, read_index. rewrite Hf2, Hf3. cbn. rewrite (proj2 (Z.ltb_ge _ _)) by exact Hmax. cbn.
    rewrite (getFragment_spec (tlv_wire t v) q _ Hqr Hwf); [|by_decide|by left|apply tlv_wire_not_nil]. cbn [rbind]. by rewrite Hnet. }
  exists (ls_reassembler rx), (ls_reassembler rx), netBlk, q. split_and!.
  - by destruct rx.
  - exact (doReceive_decoded now remote r q (with_reassembler (ls_reassembler rx) rx) _ _ Hd Ha Hfrag).
  - by apply built_elem_ok.
  - apply (plain_fields q _ Hqr Hwf). intros x ->%list_elem_of_singleton. by_decide.
Qed.

Lemma len_concat_nonempty (cs : list (list Z)) : (forall c, c ∈ cs -> c <> []) -> len cs <= len (concat cs) /\ (forall c, c ∈ cs -> len c <= len (concat cs)).
Proof.
  induction cs as [|c cs IH]; intros Hne; [split; [done|by intros c ?%elem_of_nil]|].
  destruct IH as [IH1 IH2]; [intros d Hd; apply Hne; by right|]. cbn [concat]. rewrite len_app, len_cons.
  assert (Hc : 1 <= len c) by (specialize (Hne c ltac:(by left)); destruct c; [done|rewrite len_cons; pose proof (len_nonneg c); lia]).
  split; [lia|]. intros d [->|Hd]%elem_of_cons; [pose proof (len_nonneg (concat cs)); lia|]. specialize (IH2 d Hd). lia.
Qed.

(** The fields of a packet that is only a network packet *)
Definition bare_fields (net : list Z) : list (Z * list Z) := [(LpTlv.Fragment, net)].

Lemma good_bare net : wf_bytes net -> len net < U64 -> good_fields (bare_fields net) /\ not_fragmented (bare_fields net).
Proof.
  intros Hb Hl. split; [|split; by_decide].
  apply (good_ins (LpTlv.Fragment, net) []); [apply good_nil|split; [by vm_compute|done]|done|by vm_compute|apply not_elem_of_nil].
Qed.

(** Fragments, numbered by the link service, are sent and bring the packet. *)
Lemma fragments_bring mtu t v l tx : fragments mtu (bare_fields (tlv_wire t v)) (tlv_wire t v) l -> 2 <= len l -> to_u64 mtu = mtu ->
  wf_element (t, v) -> wf_bytes v -> len (tlv_wire t v) < U64 ->
  exists l' last bs, assignSequences l tx = Ok (l', MkLinkService (ls_options tx) last (ls_reassembler tx) (ls_counters tx)) /\
    (forall tx', send_all mtu l' tx' = Ok (bs, tx')) /\ len bs = len l /\
    Forall (fun b => exists w, wire b = Ok w /\ len w <= mtu) bs /\ brings bs (ls_lastSeqNo tx + 1) t v.
Proof.
  intros (cs&Hcat&Hne&H2&Hfit) Hlen Hu Hel Hv Hl. set (es := bare_fields (tlv_wire t v)) in *. set (s := ls_lastSeqNo tx + 1).
  assert (Hlc : len l = len cs) by (apply Forall2_length in H2; rewrite frag_list_length in H2; unfold len; lia).
  destruct (len_concat_nonempty cs Hne) as [Hcn Hcl]. rewrite Hcat in *.
  assert (Hpc : pieces (len l) es cs).
  { split; [lia|apply good_bare; [by apply wf_tlv_wire|done]|]. intros c Hc. split_and!; [by apply Hne| |specialize (Hcl c Hc); lia].
    assert (Hw : wf_bytes (concat cs)) by (rewrite Hcat; by apply wf_tlv_wire). unfold wf_bytes in *. rewrite Forall_forall in *.
    intros x Hx. apply Hw. apply list_elem_of_In, in_concat. exists c. by rewrite <- !list_elem_of_In. }
  set (fss := frag_list 0 (len l) es cs) in *.
  assert (Hall : Forall (fun fs => good_fields fs /\ (forall w, fs <> [(LpTlv.Fragment, w)]) /\ len (wires fs) < U64 /\ len (tlv_wire LpTlv.LpPacket (wires fs)) <= mtu)
    (with_sequences s fss)).
  { apply Forall_lookup_2. intros k fs Hk. destruct (fragment_fields s _ es cs k fs Hpc Hk) as (c&base&_&Hfs&_&Hnb&Hg&_).
    pose proof Hk as Hk'. rewrite with_sequences_lookup in Hk'. apply fmap_Some in Hk' as (fs0&Hk0&Hfs0).
    destruct (Hfit fs0 (to_u64 (s + Z.of_nat k)) ltac:(by eapply list_elem_of_lookup_2)) as [Hs1 Hs2]. rewrite <- Hfs0 in Hs1, Hs2. split_and!; try done.
    intros w Hw. assert (Hin : (LpTlv.Sequence, encoderIntegerBytes (to_u64 (s + Z.of_nat k))) ∈ fs) by (rewrite Hfs; apply frag_members; [done|by left]).
    rewrite Hw in Hin. by apply list_elem_of_singleton in Hin. }
  destruct (assignSequences_spec l fss tx H2) as (l'&last&Hassign&Hrepr).
  { apply Forall_lookup_2. intros k fs Hk. destruct (frag_list_lookup _ _ _ _ _ _ Hk) as (c&Hc&->). destruct Hpc as [[_ Hn2] [Hg Hnf] Hp].
    destruct (Hp c ltac:(by eapply list_elem_of_lookup_2)) as (_&?&?). apply good_frag; try done; try lia.
    - destruct (k =? 0)%nat; [done|apply good_nil].
    - destruct (k =? 0)%nat; [done|split; apply not_elem_of_nil]. }
  destruct (send_all_spec mtu l' _ Hu Hrepr Hall) as (bs&Hsend&Hbs). exists l', last, bs.
  assert (Hlb : len bs = len l).
  { apply Forall2_length in Hbs. rewrite with_sequences_length in Hbs. unfold fss in Hbs. rewrite frag_list_length in Hbs. unfold len in *. lia. }
  split_and!; [done|done|done| |].
  - apply Forall_lookup_2. intros k b Hk. destruct (Forall2_lookup_l _ _ _ _ _ Hbs Hk) as (fs&Hfs&Hw). eexists. split; [exact Hw|].
    rewrite Forall_lookup in Hall. apply (Hall _ _ Hfs).
  - intros rs rx remote now k0 r0 bevs ks Hrs [Ha Hmax Hfresh] Hr0 Ho Hbev. fold s in Hfresh.
    destruct (Block_of_array_built t v Hel) as (netBlk&Hnet&Hnb).
    assert (Hca : carries s (len l) es cs rs).
    { split; [done|eapply Forall_impl; [exact Hall|by intros fs (_&_&?&_)]|]. apply Forall2_same_length_lookup_2.
      - apply Forall2_length in Hrs, Hbs. etrans; [symmetry; exact Hrs|exact Hbs].
      - intros k r fs Hr Hfs. destruct (Forall2_lookup_r _ _ _ _ _ Hrs Hr) as (b&Hb&w&Hw&Hbuf). destruct (Forall2_lookup_l _ _ _ _ _ Hbs Hb) as (fs'&Hfs'&Hw').
        assert (Some fs' = Some fs) as [= ->] by (rewrite <- Hfs'; exact Hfs). congruence. }
    destruct (fragments_delivered remote s (len l) es cs rs rx netBlk now k0 r0 bevs ks) as (ra&ra'&first&c&H1&H3&Hrep&Hg); try done; [lia|by rewrite Hcat|].
    exists ra, ra', netBlk, first. split_and!; [done|done|by apply built_elem_ok|].
    apply (plain_fields first _ Hrep (gf_wf _ Hg)). intros x Hx. apply frag_members in Hx; [|apply Hpc].
    destruct Hx as [->|[->|[->|[->|[Hx _]]]]]; [by_decide..|]. apply list_elem_of_singleton in Hx as ->. by_decide.
Qed.

(** What becomes of a network packet that is sent: it goes out in blocks that fit
    into the MTU and bring it, or it is dropped and counted, because it cannot be
    split into few enough fragments or must not be split. *)
Inductive sending (mtu t : Z) (v : list Z) (tx : LinkService) : list Block -> LinkService -> Prop :=
| Sent bs tx' : bs <> [] -> Forall (fun b => exists w, wire b = Ok w /\ (mtu = MTU_UNLIMITED \/ len w <= mtu)) bs ->
    ls_counters tx' = ls_counters tx -> brings bs (ls_lastSeqNo tx + 1) t v -> sending mtu t v tx bs tx'
| NotSplit : allowFragmentation (ls_options tx) = true ->
    mtu <= MAX_FRAG_OVERHEAD \/ nMaxFragments (ls_options tx) * (mtu - MAX_FRAG_OVERHEAD) < len (tlv_wire t v) ->
    sending mtu t v tx [] (count_send_errors 1 0 tx)
| OverMtu : allowFragmentation (ls_options tx) = false -> mtu < len (tlv_wire t v) -> sending mtu t v tx [] (count_send_errors 0 1 tx).

Section Bare.
Context (p : LpPacket) (t : Z) (nes : list (Z * list Z)).
Let net : list Z := tlv_wire t (wires nes).
Hypothesis Hrepr : lp_repr p (bare_fields net).
Hypothesis Hfresh : m_buffer p = None.
Hypothesis Htype : t = TlvType.Interest \/ t = TlvType.Data.
Hypothesis Hwf : wf_fields nes.
Hypothesis Hlen : len net < 2 ^ 59.

Lemma bare_element : wf_element (t, wires nes) /\ wf_bytes (wires nes) /\ wf_bytes net.
Proof using Htype Hwf Hlen.
  assert (Hb : wf_bytes (wires nes)) by (by apply wf_fields_bytes).
  assert (Hel : wf_element (t, wires nes)).
  { split; [clear -Htype; destruct Htype as [->| ->]; by vm_compute|]. unfold net, tlv_wire in Hlen. rewrite !len_app in Hlen. cbn [snd].
    pose proof (len_nonneg (writeVarNumber t)). pose proof (len_nonneg (writeVarNumber (len (wires nes)))). width_lia. }
  split_and!; [done|done|by apply wf_tlv_wire].
Qed.

Lemma bare_wire : exists b, Packet_wire p = Ok (b, p) /\ wire b = Ok net /\ m_type b = t /\ Block_size b = Ok (len net).
Proof.
  destruct bare_element as (Hel&Hv&Hn). apply (Packet_wire_bare p (bare_fields net)); try done.
  - apply good_bare; [done|width_lia].
  - intros b [Hb|Hb]; [apply built_elem_ok in Hb; [|done]|].
    all: destruct (Block_parse_value b _ (ek_wf _ _ Hb) (ek_sub _ _ Hb) (elem_ok_value _ _ Hb) Hwf) as (l&Hp&_); by eexists.
Qed.

(** A packet that is sent whole *)
Lemma send_whole mtu tx : mtu_ok mtu -> mtu = MTU_UNLIMITED \/ len net <= mtu ->
  exists b, send_all mtu [p] tx = Ok ([b], tx) /\ sending mtu t (wires nes) tx [b] tx.
Proof.
  intros Hmo Hm. destruct bare_wire as (b&Hb&Hw&_&Hs). destruct bare_element as (Hel&Hv&Hn). exists b. cbn [send_all]. rewrite Hb. cbn [rbind]. rewrite Hs. cbn [rbind].
  assert (Hc : negb (mtu =? MTU_UNLIMITED) && (to_u64 mtu <? len net) = false).
  { destruct (Z.eqb_spec mtu MTU_UNLIMITED); [done|]. rewrite mtu_unsigned by done. cbn. destruct Hm as [?|?]; [done|]. by apply Z.ltb_ge. }
  rewrite Hc. split; [done|]. apply Sent; [done| |done|].
  - constructor; [by exists net|constructor].
  - apply bare_brings; try done. fold net. width_lia.
Qed.

Lemma net_crosses mtu tx : mtu_ok mtu -> exists bs tx', sendNetPacket mtu p tx = Ok (bs, tx') /\ sending mtu t (wires nes) tx bs tx'.
Proof.
  intros Hmo. destruct bare_wire as (b&Hb&Hw&Hty&Hs). destruct bare_element as (Hel&Hv&Hn). unfold sendNetPacket.
  destruct (good_bare net Hn) as [Hg Hnf]; [width_lia|]. pose proof (assert_whole_ok p _ Hrepr (gf_wf _ Hg) Hnf) as Hwhole.
  destruct (allowFragmentation (ls_options tx)) eqn:Hal; cbn [andb].
  - destruct (Z.eqb_spec mtu MTU_UNLIMITED) as [->|Hmtu]; cbn [negb rbind].
    { destruct (send_whole MTU_UNLIMITED tx Hmo ltac:(by left)) as (b'&Hsend&Hsg). change (1 <? len [p]) with false. rewrite Hwhole. cbn [rbind]. rewrite Hsend. by eexists _, _. }
    rewrite (mtu_unsigned mtu Hmo Hmtu).
    destruct (fragmenter_correct (nMaxFragments (ls_options tx)) p (bare_fields net) (len net) net mtu) as [(Hfit&w&q&Hw'&->&_)|[(_&->&Hbad)|(_&frags&->&Hcnt&Hfr)]]; try done.
    + apply (EncBare _ _ _ b net); try done. rewrite Hty. by destruct Htype as [->| ->].
    + by left.
    + unfold net. apply tlv_wire_not_nil.
    + unfold bare_fields. rewrite wires_cons, wires_nil, app_nil_r. pose proof (len_tlv_wire_small LpTlv.Fragment net ltac:(by vm_compute) ltac:(width_lia)). simpl. width_lia.
    + rewrite Hb in Hw'. injection Hw' as <- <-. cbn [rbind]. unfold MAX_SINGLE_FRAG_OVERHEAD in Hfit.
      destruct (send_whole mtu tx Hmo ltac:(right; lia)) as (b'&Hsend&Hsg). change (1 <? len [p]) with false. rewrite Hwhole. cbn [rbind]. rewrite Hsend. by eexists _, _.
    + cbn [rbind]. eexists _, _. split; [done|]. apply NotSplit; [done|]. change (header_bytes (bare_fields net)) with 0 in Hbad.
      fold net. rewrite Z.add_0_r, Z.add_0_l in Hbad. exact Hbad.
    + cbn [rbind]. rewrite (proj2 (Z.ltb_lt _ _)) by lia.
      destruct (fragments_bring mtu t (wires nes) frags tx Hfr) as (l'&last&bs&->&Hsend&Hl&Hfit&Hbr); [lia|by apply mtu_unsigned|done|done|fold net; width_lia|]. cbn [rbind].
      rewrite Hsend. eexists _, _. split; [done|]. apply Sent; [by intros ->; unfold len in *; cbn in *; lia| |done|done].
      eapply Forall_impl; [exact Hfit|]. intros b' (w&?&?). exists w. auto.
  - cbn [rbind]. change (1 <? len [p]) with false. rewrite Hwhole. cbn [rbind]. destruct (decide (mtu = MTU_UNLIMITED \/ len net <= mtu)) as [Hm|Hm].
    + destruct (send_whole mtu tx Hmo Hm) as (b'&Hsend&Hsg). rewrite Hsend. by eexists _, _.
    + cbn [send_all]. rewrite Hb. cbn [rbind]. rewrite Hs. cbn [rbind]. rewrite (mtu_unsigned mtu Hmo), (proj2 (Z.eqb_neq _ _)), (proj2 (Z.ltb_lt _ _)) by lia. cbn [negb andb].
      eexists _, _. split; [done|]. apply OverMtu; [done|]. fold net. lia.
Qed.
End Bare.

(** The blocks [bs], numbered from [s], deliver what [P] describes: a receiver that
    gets them in any order delivers nothing until the last of them, and then
    one packet, which it counts. *)
Definition delivers (bs : list Block) (s : Z) (P : Received -> Prop) : Prop :=
  forall rs rx remote now k0 r0 bevs ks, received bs rs -> can_receive rx (len bs) remote s -> rs !! k0 = Some r0 -> others_arrive rs k0 ks ->
    Forall2 (fun (b : Z * Block) (tk : Z * nat) => b.1 = tk.1 /\ rs !! tk.2 = Some b.2) bevs ks ->
    exists ra ra' x, receive_blocks remote bevs rx = (with_reassembler ra rx, replicate (length bevs) (Ok None)) /\
      doReceivePacket now remote r0 (with_reassembler ra rx) = (count_delivery x (with_reassembler ra' rx), Ok (Some x)) /\ P x.

Lemma brings_delivers bs s t v (P : Received -> Prop) : brings bs s t v ->
  (forall netBlk first ls, elem_ok netBlk (t, v) -> plain_packet first ->
     exists x, decodeNetPacket netBlk first ls = (count_delivery x ls, Ok (Some x)) /\ P x) -> delivers bs s P.
Proof.
  intros Hb Hd rs rx remote now k0 r0 bevs ks H1 H2 H3 H4 H5.
  destruct (Hb rs rx remote now k0 r0 bevs ks H1 H2 H3 H4 H5) as (ra&ra'&netBlk&first&Hrb&Hdo&Hel&Hpl).
  destruct (Hd netBlk first (with_reassembler ra' rx) Hel Hpl) as (x&Hx&HP). exists ra, ra', x. by rewrite Hdo, Hx.
Qed.

(** What becomes of a packet that is given to the link service [tx], which is [tx1]
    after it has counted it *)
Inductive crossing (mtu size : Z) (P : Received -> Prop) (tx1 : LinkService) : list Block -> LinkService -> Prop :=
| Crossed bs tx' : bs <> [] -> Forall (fun b => exists w, wire b = Ok w /\ (mtu = MTU_UNLIMITED \/ len w <= mtu)) bs ->
    ls_counters tx' = ls_counters tx1 -> delivers bs (ls_lastSeqNo tx1 + 1) P -> crossing mtu size P tx1 bs tx'
| CannotSplit : allowFragmentation (ls_options tx1) = true ->
    mtu <= MAX_FRAG_OVERHEAD \/ nMaxFragments (ls_options tx1) * (mtu - MAX_FRAG_OVERHEAD) < size ->
    crossing mtu size P tx1 [] (count_send_errors 1 0 tx1)
| TooLarge : allowFragmentation (ls_options tx1) = false -> mtu < size -> crossing mtu size P tx1 [] (count_send_errors 0 1 tx1).

(** A packet whose encoding is the block [b] *)
Lemma block_crosses mtu t nes b incoming tx1 (P : Received -> Prop) : mtu_ok mtu -> m_type b = t -> wire b = Ok (tlv_wire t (wires nes)) ->
  t = TlvType.Interest \/ t = TlvType.Data -> wf_fields nes -> len (tlv_wire t (wires nes)) < 2 ^ 59 ->
  allowLocalFields (ls_options tx1) = false \/ incoming = None ->
  (forall netBlk first ls, elem_ok netBlk (t, wires nes) -> plain_packet first ->
     exists x, decodeNetPacket netBlk first ls = (count_delivery x ls, Ok (Some x)) /\ P x) ->
  exists bs tx', (let! pkt := Packet_wireDecode b in let! pkt := encodeLocalFields incoming pkt tx1 in sendNetPacket mtu pkt tx1) = Ok (bs, tx') /\
    crossing mtu (len (tlv_wire t (wires nes))) P tx1 bs tx'.
Proof.
  intros Hmo Hty Hw Ht Hwf Hl Hloc Hdec. destruct (bare_element t nes Ht Hwf Hl) as (Hel&Hv&_).
  destruct (Packet_wireDecode_bare b t (wires nes) Hty Hw Ht) as (p&->&Hr&Hfr); [width_lia|done|done|]. cbn [rbind].
  assert (Henc : encodeLocalFields incoming p tx1 = Ok p) by (unfold encodeLocalFields; destruct Hloc as [->| ->]; [done|by destruct (allowLocalFields _)]).
  rewrite Henc. cbn [rbind]. destruct (net_crosses p t nes Hr Hfr Ht Hwf Hl mtu tx1 Hmo) as (bs&tx'&->&Hs). exists bs, tx'. split; [done|].
  destruct Hs as [bs' tx'' Hne Hfit Hc Hbr|Ha Hsize|Ha Hsize]; [|by apply CannotSplit|by apply TooLarge].
  apply Crossed; try done. by eapply brings_delivers.
Qed.

Lemma decode_plain_interest netBlk first ls i nv lv : elem_ok netBlk (TlvType.Interest, wires (ip_elements i nv lv)) -> ip_ok i nv lv -> plain_packet first ->
  exists x, decodeNetPacket netBlk first ls = (count_delivery x ls, Ok (Some x)) /\ exists i3, x = RxInterest i3 None /\ ip_read i i3 nv lv.
Proof.
  intros Hb Hok (H1&H2&H3). destruct (Interest_decode_elem netBlk i nv lv Hb Hok) as (i3&Hd&Hr). unfold decodeNetPacket, decodeInterest.
  rewrite (elem_ok_type _ _ Hb). cbn [fst]. rewrite Z.eqb_refl, H1. cbn [rbind]. rewrite Hd. cbn [rbind]. rewrite H2. cbn [rbind andb]. rewrite H3. cbn [rbind].
  exists (RxInterest i3 None). split; [done|by exists i3].
Qed.

Lemma decode_plain_data netBlk first ls d os cv sv : elem_ok netBlk (TlvType.Data, wires (dp_elements d os cv sv)) -> dp_ok d os cv sv -> plain_packet first ->
  exists x, decodeNetPacket netBlk first ls = (count_delivery x ls, Ok (Some x)) /\ exists d2, x = RxData d2 false /\ dp_read d d2 os cv sv [].
Proof.
  intros Hb Hok (H1&H2&H3). destruct (Data_decode_elem netBlk d (MkDataPacket [] MetaInfo_new Block_empty Signature_new Block_empty []) os cv sv Hb Hok) as (d2&Hd&Hr).
  unfold decodeNetPacket, decodeData. rewrite (elem_ok_type _ _ Hb). cbn [fst].
  change (DataPacket_of_block netBlk = Ok d2) in Hd. rewrite Hd. change (TlvType.Data =? TlvType.Interest) with false. rewrite Z.eqb_refl. cbn [rbind].
  rewrite H1. cbn [rbind]. rewrite H2. cbn [rbind]. rewrite H3. cbn [rbind andb]. exists (RxData d2 false). split; [done|by exists d2].
Qed.

(** C9. An Interest crosses a link.  An Interest without an encoding, with the nonce that is
    chosen for it if it has none, and sent without a field for the incoming face: the link
    service that sends it either counts and drops it, because it needs more fragments than are
    allowed or is over the MTU and must not be fragmented, or gives the transport link
    packets that all fit into the MTU.  A receiver that allows reassembly, with room for as
    many fragments and no partial packet of this sender and sequence number, gets these
    packets in any order, each of those before the last one to arrive at least once and
    perhaps again: it delivers nothing until the last one, and then the Interest, with the
    name, selectors, nonce, lifetime and link it was sent with.  (Nothing is said of packets
    that come again after that; an Interest in one packet is then delivered again.) *)
Theorem interest_crosses_link mtu word i i1 nv lv incoming tx : mtu_ok mtu -> nonce_chosen word i = Ok i1 -> ip_ok i1 nv lv -> hasWire (ip_wire i) = false ->
  len (tlv_wire TlvType.Interest (wires (ip_elements i1 nv lv))) < 2 ^ 59 -> allowLocalFields (ls_options tx) = false \/ incoming = None ->
  exists bs tx', sendInterest mtu word i incoming tx = Ok (bs, tx') /\
    crossing mtu (len (tlv_wire TlvType.Interest (wires (ip_elements i1 nv lv))))
      (fun x => exists i3, x = RxInterest i3 None /\ ip_read i1 i3 nv lv) (count_sent 1 0 0 tx) bs tx'.
Proof.
  intros Hmo Hch Hok Hw Hl Hloc. destruct (Interest_wire_ok word i i1 nv lv Hch Hok Hw) as (i2&Hi2&Hr2). unfold sendInterest. rewrite Hi2. cbn [rbind].
  apply block_crosses; [done|apply Hr2|apply Hr2|by left|by apply wf_ip_elements|done|done|].
  intros netBlk first ls Hel Hpl. by apply decode_plain_interest.
Qed.

(** A Data crosses a link in the same way: it is dropped and counted, or sent in
    link packets within the MTU, from which a receiver delivers, whatever order
    they come in, one Data with the same name, meta information, content and
    signature, that may be cached. *)
Theorem data_crosses_link mtu d os cv sv incoming tx : mtu_ok mtu -> dp_ok d os cv sv -> hasWire (dp_wire d) = false ->
  len (tlv_wire TlvType.Data (wires (dp_elements d os cv sv))) < 2 ^ 59 -> allowLocalFields (ls_options tx) = false \/ incoming = None ->
  exists bs tx', sendData mtu d incoming tx = Ok (bs, tx') /\
    crossing mtu (len (tlv_wire TlvType.Data (wires (dp_elements d os cv sv))))
      (fun x => exists d2, x = RxData d2 false /\ dp_read d d2 os cv sv []) (count_sent 0 1 0 tx) bs tx'.
Proof.
  intros Hmo Hok Hw Hl Hloc. destruct (Data_wire_ok d os cv sv Hok Hw) as (b&d1&Hd1&->&Hr). unfold sendData. rewrite Hd1. cbn [rbind].
  apply block_crosses; [done|apply Hr|apply Hr|by right|by apply wf_dp_elements|done|done|].
  intros netBlk first ls Hel Hpl. by apply decode_plain_data.
Qed.

(** ** A link with a small MTU *)

Module LinkServiceSamples.
Import DataSamples InterestSamples LinkSamples.

(** A service that fragments and reassembles, without local fields *)
Definition service : LinkService := LinkService_new (MkOptions false true true 400) (MkReassembler 400 500 ∅).

Definition fragments_sent : list Block := Eval vm_compute in from_ok [] (let! (bs, _) := sendData 90 data None service in Ok bs).

(** Four fragments, of which the receiver delivers the Data *)
Lemma data_crosses_link_witness : len fragments_sent = 4 /\
  crossing 90 (len (tlv_wire TlvType.Data (wires (dp_elements data [] content [7; 7]))))
    (fun x => exists d2, x = RxData d2 false /\ dp_read data d2 [] content [7; 7] []) (count_sent 0 1 0 service) fragments_sent
    (MkLinkService (ls_options service) 2 (ls_reassembler service) (MkCounters 0 1 0 0 0 0 0 0 0 0 0)).
Proof.
  split; [vm_compute; reflexivity|].
  destruct (data_crosses_link 90 data [] content [7; 7] None service) as (bs&tx'&Hs&Hc);
    [right; split; [discriminate|reflexivity]|exact dp_ok_data|reflexivity|vm_compute; reflexivity|left; reflexivity|].
  vm_compute in Hs. injection Hs as <- <-. exact Hc.
Defined.

(** The Interest, over a link on which it fits *)
Definition interest_sent : list Block := Eval vm_compute in from_ok [] (let! (bs, _) := sendInterest 8800 word interest None service in Ok bs).

Lemma interest_crosses_link_witness : len interest_sent = 1 /\
  crossing 8800 (len (tlv_wire TlvType.Interest (wires (ip_elements chosen (le_bytes word) (wires link_fields)))))
    (fun x => exists i3, x = RxInterest i3 None /\ ip_read chosen i3 (le_bytes word) (wires link_fields)) (count_sent 1 0 0 service) interest_sent
    (count_sent 1 0 0 service).
Proof.
  split; [vm_compute; reflexivity|].
  destruct (interest_crosses_link 8800 word interest chosen (le_bytes word) (wires link_fields) None service) as (bs&tx'&Hs&Hc);
    [right; split; [discriminate|reflexivity]|vm_compute; reflexivity|exact ip_ok_chosen|reflexivity|vm_compute; reflexivity|left; reflexivity|].
  vm_compute in Hs. injection Hs as <- <-. exact Hc.
Defined.
End LinkServiceSamples.
