(* ===== verification/Transport.v ===== *)
(** * Transports: [NFD/daemon/face/transport.cpp], [stream-transport.hpp] and
    [datagram-transport.hpp]

    A transport sends and receives blocks over a socket.  Its state goes from up
    or down over closing or failed to closed.  A stream transport cuts the
    bytes it receives into blocks; the socket is what it is asked to write and
    the bytes it returns. *)

From S2P Require Import Prelude Tlv Block Encoder Elements.

(** ** The base class *)

Inductive TransportState := STATE_NONE | UP | DOWN | CLOSING | FAILED | CLOSED.
Inductive FacePersistency := PERSISTENCY_NONE | PERSISTENT | ON_DEMAND | PERMANENT.

#[global] Instance TransportState_eq_dec : EqDecision TransportState.
Proof. solve_decision. Defined.
#[global] Instance FacePersistency_eq_dec : EqDecision FacePersistency.
Proof. solve_decision. Defined.

Record Transport := MkTransport {
  tr_state : TransportState;
  tr_persistency : FacePersistency;
  tr_nInPackets : Z;
  tr_nOutPackets : Z;
  tr_nInBytes : Z;
  tr_nOutBytes : Z
}.

Definition Transport_new : Transport := MkTransport UP PERSISTENCY_NONE 0 0 0 0.

Definition valid_transition (oldState newState : TransportState) : bool :=
  match oldState with
  | UP => bool_decide (newState = DOWN) || bool_decide (newState = CLOSING) || bool_decide (newState = FAILED)
  | DOWN => bool_decide (newState = UP) || bool_decide (newState = CLOSING) || bool_decide (newState = FAILED)
  | CLOSING | FAILED => bool_decide (newState = CLOSED)
  | _ => false
  end.

Definition with_state (s : TransportState) (t : Transport) : Transport :=
  MkTransport s (tr_persistency t) (tr_nInPackets t) (tr_nOutPackets t) (tr_nInBytes t) (tr_nOutBytes t).

(** [Transport::setState] *)
Definition setState (newState : TransportState) (t : Transport) : result Transport :=
  if bool_decide (tr_state t = newState) then Ok t
  else if negb (valid_transition (tr_state t) newState) then Err RuntimeError
  else Ok (with_state newState t).

(** [Transport::setPersistency]; [before] is [beforeChangePersistency], which may
    throw. *)
Definition setPersistency (before : FacePersistency -> result unit) (newPersistency : FacePersistency) (t : Transport) : result Transport :=
  if bool_decide (tr_persistency t = newPersistency) then Ok t
  else if bool_decide (newPersistency = PERSISTENCY_NONE) then Err RuntimeError
  else
    let! _ := if bool_decide (tr_persistency t = PERSISTENCY_NONE) then Ok tt else before newPersistency in
    Ok (MkTransport (tr_state t) newPersistency (tr_nInPackets t) (tr_nOutPackets t) (tr_nInBytes t) (tr_nOutBytes t)).

(** The transport counts what it sends while it is up, and what it receives. *)
Definition count_out (size : Z) (t : Transport) : Transport :=
  MkTransport (tr_state t) (tr_persistency t) (tr_nInPackets t) (tr_nOutPackets t + 1) (tr_nInBytes t) (tr_nOutBytes t + size).
Definition count_in (size : Z) (t : Transport) : Transport :=
  MkTransport (tr_state t) (tr_persistency t) (tr_nInPackets t + 1) (tr_nOutPackets t) (tr_nInBytes t + size) (tr_nOutBytes t).

Definition is_open (s : TransportState) : bool := bool_decide (s = UP) || bool_decide (s = DOWN).

(** ** Stream transports *)

(** [ndn::MAX_NDN_PACKET_SIZE] *)
Definition MAX_NDN_PACKET_SIZE : Z := 8800000.

(** The errors of the socket *)
Inductive SocketError := EOF | OPERATION_ABORTED | SHUT_DOWN | OTHER_ERROR.

(** The bytes in the receive buffer, the queue, the block that is being written,
    whether a read is pending, and how many calls of [deferredClose] are posted *)
Record StreamTransport := MkStreamTransport {
  st_transport : Transport;
  st_receiveBuffer : list Z;
  st_sendQueue : list Block;
  st_writing : option Block;
  st_reading : bool;
  st_socketOpen : bool;
  st_deferred : nat
}.

Definition StreamTransport_new : StreamTransport := MkStreamTransport Transport_new [] [] None true true 0.

Definition with_transport (t : Transport) (st : StreamTransport) : StreamTransport :=
  MkStreamTransport t (st_receiveBuffer st) (st_sendQueue st) (st_writing st) (st_reading st) (st_socketOpen st) (st_deferred st).

Definition doClose (st : StreamTransport) : StreamTransport :=
  MkStreamTransport (st_transport st) (st_receiveBuffer st) (st_sendQueue st) (st_writing st) (st_reading st) (st_socketOpen st) (S (st_deferred st)).

Definition deferredClose (st : StreamTransport) : result StreamTransport :=
  let st := MkStreamTransport (st_transport st) (st_receiveBuffer st) [] None (st_reading st) false (pred (st_deferred st)) in
  let! t := setState CLOSED (st_transport st) in Ok (with_transport t st).

(** [Transport::close] *)
Definition close (st : StreamTransport) : result StreamTransport :=
  if negb (is_open (tr_state (st_transport st))) then Ok st
  else let! t := setState CLOSING (st_transport st) in Ok (doClose (with_transport t st)).

(** The block at the front of the queue is given to the socket. *)
Definition sendFromQueue (st : StreamTransport) : StreamTransport :=
  MkStreamTransport (st_transport st) (st_receiveBuffer st) (st_sendQueue st) (head (st_sendQueue st)) (st_reading st) (st_socketOpen st) (st_deferred st).

Definition with_queue (q : list Block) (st : StreamTransport) : StreamTransport :=
  MkStreamTransport (st_transport st) (st_receiveBuffer st) q (st_writing st) (st_reading st) (st_socketOpen st) (st_deferred st).

Definition doSend (packet : Block) (st : StreamTransport) : StreamTransport :=
  let wasQueueEmpty := match st_sendQueue st with [] => true | _ => false end in
  let st := with_queue (st_sendQueue st ++ [packet]) st in
  if wasQueueEmpty then sendFromQueue st else st.

(** [Transport::send] *)
Definition send (packet : Block) (st : StreamTransport) : result StreamTransport :=
  if negb (is_open (tr_state (st_transport st))) then Ok st
  else
    let! st := if bool_decide (tr_state (st_transport st) = UP)
               then let! n := Block_size packet in Ok (with_transport (count_out n (st_transport st)) st)
               else Ok st in
    Ok (doSend packet st).

(** [processErrorCode] *)
Definition processErrorCode (error : SocketError) (st : StreamTransport) : result StreamTransport :=
  if negb (is_open (tr_state (st_transport st))) then Ok st
  else
    match error with
    | OPERATION_ABORTED | SHUT_DOWN => Ok st
    | _ => let! t := setState FAILED (st_transport st) in Ok (doClose (with_transport t st))
    end.

(** The write is done; the queue is not empty when it succeeds. *)
Definition handleSend (error : option SocketError) (st : StreamTransport) : result StreamTransport :=
  match error with
  | Some e => processErrorCode e st
  | None =>
      match st_sendQueue st with
      | [] => Err OutOfRange
      | _ :: q =>
          let st := MkStreamTransport (st_transport st) (st_receiveBuffer st) q None (st_reading st) (st_socketOpen st) (st_deferred st) in
          Ok (match q with [] => st | _ => sendFromQueue st end)
      end
  end.

(** The loop that takes blocks from the buffer: the blocks, the number of bytes
    they take, and whether all bytes were taken.  Each block has a byte at least,
    so the length of the buffer is enough fuel. *)
Fixpoint receive_loop (fuel : nat) (data : list Z) : result (list Block * Z * bool) :=
  match fuel, data with
  | S fuel', _ :: _ =>
      match fromArray data with
      | None => Ok ([], 0, false)
      | Some element =>
          let! n := Block_size element in
          let! (l, offset, isOk) := receive_loop fuel' (drop (Z.to_nat n) data) in
          Ok (element :: l, n + offset, isOk)
      end
  | _, _ => Ok ([], 0, true)
  end.

Fixpoint count_all (l : list Block) (t : Transport) : result Transport :=
  match l with
  | [] => Ok t
  | b :: l' => let! n := Block_size b in count_all l' (count_in n t)
  end.

(** [handleReceive] with an error: there is no further read. *)
Definition handleReceiveError (error : SocketError) (st : StreamTransport) : result StreamTransport :=
  processErrorCode error
    (MkStreamTransport (st_transport st) (st_receiveBuffer st) (st_sendQueue st) (st_writing st) false (st_socketOpen st) (st_deferred st)).

(** [handleReceive]: the blocks that are given to the link service *)
Definition handleReceive (bytes : list Z) (st : StreamTransport) : result (list Block * StreamTransport) :=
  let buffer := st_receiveBuffer st ++ bytes in
  let! (l, offset, isOk) := receive_loop (length buffer) buffer in
  let! t := count_all l (st_transport st) in
  if negb isOk && (len buffer =? MAX_NDN_PACKET_SIZE) && (offset =? 0) then
    let! t := setState FAILED t in
    Ok (l, doClose (MkStreamTransport t buffer (st_sendQueue st) (st_writing st) false (st_socketOpen st) (st_deferred st)))
  else
    Ok (l, MkStreamTransport t (drop (Z.to_nat offset) buffer) (st_sendQueue st) (st_writing st) true (st_socketOpen st) (st_deferred st)).

(** ** Datagram transports *)

(** [receiveDatagram] without an error: the block of the datagram, if it is one *)
Definition receiveDatagram (bytes : list Z) (t : Transport) : result (option Block * Transport) :=
  match fromArray bytes with
  | None => Ok (None, t)
  | Some element =>
      let! n := Block_size element in
      if negb (n =? len bytes) then Ok (None, t) else Ok (Some element, count_in n t)
  end.

(** ** Cutting a stream into blocks *)

Lemma readVarNumber_more s n s' q : readVarNumber_opt s = (Some n, s') -> readVarNumber_opt (s ++ q) = (Some n, s' ++ q).
Proof.
  destruct s as [|b s]; [done|]. unfold readVarNumber_opt. cbn [app].
  assert (Hk : forall k, (len s <? Z.of_nat k) = false -> (len (s ++ q) <? Z.of_nat k) = false /\ take k (s ++ q) = take k s /\ drop k (s ++ q) = drop k s ++ q).
  { intros k Hk%Z.ltb_ge. unfold len in *. rewrite length_app. split_and!; [apply Z.ltb_ge; lia|rewrite take_app_le; [done|lia]|rewrite drop_app_le; [done|lia]]. }
  destruct (b <? 253); [by intros [= <- <-]|].
  destruct (b =? 253); [|destruct (b =? 254)].
  - destruct (len s <? 2) eqn:E; [done|]. destruct (Hk 2%nat E) as (E1&->&->). change (Z.of_nat 2) with 2 in E1. rewrite E1. by intros [= <- <-].
  - destruct (len s <? 4) eqn:E; [done|]. destruct (Hk 4%nat E) as (E1&->&->). change (Z.of_nat 4) with 4 in E1. rewrite E1. by intros [= <- <-].
  - destruct (len s <? 8) eqn:E; [done|]. destruct (Hk 8%nat E) as (E1&->&->). change (Z.of_nat 8) with 8 in E1. rewrite E1. by intros [= <- <-].
Qed.

Lemma readType_more s n s' q : readType_opt s = (Some n, s') -> readType_opt (s ++ q) = (Some n, s' ++ q).
Proof.
  unfold readType_opt. destruct (readVarNumber_opt s) as [[m|] s0] eqn:E; [|done]. rewrite (readVarNumber_more _ _ _ q E).
  case_bool; [done|]. by intros [= <- <-].
Qed.

(** A block at the front of the buffer is taken. *)
Lemma fromArray_whole t v rest : wf_element (t, v) ->
  exists b, fromArray (tlv_wire t v ++ rest) = Some b /\ built b t v.
Proof.
  intros Hel. destruct (read_header t v rest Hel) as [H1 H2]. unfold fromArray. apply readType_Ok in H1. apply readVarNumber_Ok in H2.
  rewrite H1, H2, len_ltb_app. eexists. split; [done|].
  replace (length (tlv_wire t v ++ rest) - length (v ++ rest))%nat with (length (tlv_wire t v) - length v)%nat
    by (rewrite !length_app, length_tlv_wire; lia).
  assert (Ht : take (length (tlv_wire t v) - length v + Z.to_nat (len v)) (tlv_wire t v ++ rest) = tlv_wire t v).
  { replace (length (tlv_wire t v) - length v + Z.to_nat (len v))%nat with (length (tlv_wire t v)) by (unfold len; rewrite length_tlv_wire; lia).
    apply take_app_length. }
  rewrite Ht. by apply raw_built.
Qed.

(** A part of a block is not. *)
Lemma fromArray_part t v p q : wf_element (t, v) -> p ++ q = tlv_wire t v -> q <> [] -> fromArray p = None.
Proof.
  intros Hel Hpq Hq. destruct (read_header t v [] Hel) as [H1 H2]. rewrite !app_nil_r in *. apply readType_Ok in H1. apply readVarNumber_Ok in H2.
  unfold fromArray. destruct (readType_opt p) as [[t'|] s1] eqn:E1; [|done]. pose proof (readType_more _ _ _ q E1) as E1'. rewrite Hpq, H1 in E1'.
  injection E1' as -> Hs1. destruct (readVarNumber_opt s1) as [[n|] s2] eqn:E2; [|done]. pose proof (readVarNumber_more _ _ _ q E2) as E2'.
  rewrite <- Hs1, H2 in E2'. injection E2' as <- Hs2. rewrite (proj2 (Z.ltb_lt _ _)); [done|].
  rewrite Hs2, len_app. destruct q; [done|]. rewrite len_cons. pose proof (len_nonneg q). lia.
Qed.

(** What is left of the stream [es] after the blocks [done] were taken: nothing,
    or a proper part of the next block *)
Definition leftover (rest : list Z) (es : list (Z * list Z)) : Prop :=
  match es with
  | [] => rest = []
  | (t, v) :: _ => exists q, q <> [] /\ rest ++ q = tlv_wire t v
  end.

(** The bytes received so far are a part of a stream of elements. *)
Lemma receive_loop_spec es : forall fuel data more, Forall wf_element es -> data ++ more = wires es -> (length data <= fuel)%nat ->
  exists k l rest, receive_loop fuel data = Ok (l, len (wires (take k es)), bool_decide (rest = [])) /\
    Forall2 (fun b x => built b x.1 x.2) l (take k es) /\ data = wires (take k es) ++ rest /\ leftover rest (drop k es).
Proof.
  induction es as [|[t v] es IH]; intros fuel data more Hwf Hd Hf.
  { apply app_eq_nil in Hd as [-> _]. exists 0%nat, [], []. destruct fuel; split_and!; done || constructor. }
  apply Forall_cons in Hwf as [Hel Hwf]. rewrite wires_cons in Hd. cbn [fst snd] in Hd.
  destruct (decide (length (tlv_wire t v) <= length data)%nat) as [Hge|Hlt].
  - (* the block has arrived *)
    assert (Hdata : exists d', data = tlv_wire t v ++ d' /\ d' ++ more = wires es).
    { exists (drop (length (tlv_wire t v)) data). apply (f_equal (take (length (tlv_wire t v)))) in Hd as Hd1. apply (f_equal (drop (length (tlv_wire t v)))) in Hd as Hd2.
      rewrite take_app_length, take_app_le in Hd1 by done. rewrite drop_app_length, drop_app_le in Hd2 by done.
      split; [|done]. rewrite <- Hd1 at 1. by rewrite take_drop. }
    destruct Hdata as (d'&->&Hd'). destruct (fromArray_whole t v d' Hel) as (b&Hb&Hbu).
    assert (Hlt : (0 < length (tlv_wire t v))%nat) by (pose proof (tlv_wire_not_nil t v); destruct (tlv_wire t v); [done|simpl; lia]).
    rewrite length_app in Hf. destruct fuel as [|fuel]; [lia|].
    destruct (IH fuel d' more Hwf Hd') as (k&l&rest&Hloop&H2&Heq&Hleft); [lia|].
    exists (S k), (b :: l), rest. cbn [take drop]. split_and!; [|by constructor| |done].
    + cbn [receive_loop]. destruct (tlv_wire t v ++ d') as [|x w] eqn:Hw; [by apply app_eq_nil in Hw as [Hw _]; apply tlv_wire_not_nil in Hw|].
      rewrite Hb, (built_total _ _ _ Hbu). cbn [rbind]. rewrite <- Hw.
      replace (drop (Z.to_nat (len (tlv_wire t v))) (tlv_wire t v ++ d')) with d' by (unfold len; rewrite Nat2Z.id; by rewrite drop_app_length).
      rewrite Hloop. cbn [rbind]. by rewrite wires_cons, len_app.
    + rewrite wires_cons. cbn [fst snd]. by rewrite Heq, app_assoc.
  - (* only a part of it *)
    assert (Hp : exists q, q <> [] /\ data ++ q = tlv_wire t v).
    { exists (drop (length data) (tlv_wire t v)). apply (f_equal (take (length data))) in Hd as Hd1. rewrite take_app_length, take_app_le in Hd1 by lia. split.
      - intros Hnil. apply (f_equal length) in Hnil. rewrite length_drop in Hnil. simpl in Hnil. lia.
      - rewrite Hd1 at 1. apply take_drop. }
    destruct Hp as (q&Hq&Hp). exists 0%nat, [], data. cbn [take drop].
    destruct data as [|x data]; [destruct fuel; (split_and!; [done|done|done|by exists q])|].
    destruct fuel as [|fuel]; [simpl in Hf; lia|]. cbn [receive_loop]. rewrite (fromArray_part t v _ q Hel Hp Hq).
    split_and!; [by rewrite bool_decide_false|done|done|by exists q].
Qed.

(** Several reads, one after the other *)
Fixpoint receives (chunks : list (list Z)) (st : StreamTransport) : result (list Block * StreamTransport) :=
  match chunks with
  | [] => Ok ([], st)
  | c :: cs =>
      let! (l, st) := handleReceive c st in
      let! (l', st) := receives cs st in
      Ok (l ++ l', st)
  end.

(** What receiving [l] changes: the buffer and the counters *)
Definition received_into (l : list Block) (n : Z) (rest : list Z) (st : StreamTransport) : StreamTransport :=
  let t := st_transport st in
  MkStreamTransport
    (MkTransport (tr_state t) (tr_persistency t) (tr_nInPackets t + len l) (tr_nOutPackets t) (tr_nInBytes t + n) (tr_nOutBytes t))
    rest (st_sendQueue st) (st_writing st) true (st_socketOpen st) (st_deferred st).

Lemma count_all_spec l es : forall t, Forall2 (fun b x => built b x.1 x.2) l es ->
  count_all l t = Ok (MkTransport (tr_state t) (tr_persistency t) (tr_nInPackets t + len l) (tr_nOutPackets t) (tr_nInBytes t + len (wires es)) (tr_nOutBytes t)).
Proof.
  revert es. induction l as [|b l IH]; intros es t H2; destruct es as [|[ty v] es]; [|by inversion H2|by inversion H2|].
  { destruct t. cbn. by rewrite !Z.add_0_r. }
  apply Forall2_cons in H2 as [Hb H2]. cbn [count_all]. rewrite (built_total _ _ _ Hb). cbn [rbind]. rewrite (IH es _ H2). unfold count_in.
  cbn [tr_state tr_persistency tr_nInPackets tr_nOutPackets tr_nInBytes tr_nOutBytes fst snd]. rewrite wires_cons, len_app, len_cons. do 2 f_equal; lia.
Qed.

Definition small_elements (es : list (Z * list Z)) : Prop := Forall (fun x => wf_element x /\ len (tlv_wire x.1 x.2) <= MAX_NDN_PACKET_SIZE) es.

Lemma leftover_room rest es : leftover rest es -> small_elements es -> len rest < MAX_NDN_PACKET_SIZE.
Proof.
  intros Hl Hs. destruct es as [|[t v] es]; [by rewrite Hl|]. destruct Hl as (q&Hq&Heq). apply Forall_cons in Hs as [[_ Hs] _]. cbn [fst snd] in Hs.
  rewrite <- Heq, len_app in Hs. destruct q; [done|]. rewrite len_cons in Hs. pose proof (len_nonneg q). lia.
Qed.

(** One read *)
Lemma handleReceive_spec es c more st : small_elements es -> (st_receiveBuffer st ++ c) ++ more = wires es ->
  exists k l rest, handleReceive c st = Ok (l, received_into l (len (wires (take k es))) rest st) /\
    Forall2 (fun b x => built b x.1 x.2) l (take k es) /\ st_receiveBuffer st ++ c = wires (take k es) ++ rest /\ leftover rest (drop k es).
Proof.
  intros Hs Heq. set (data := st_receiveBuffer st ++ c) in *.
  assert (Hwf : Forall wf_element es) by (eapply Forall_impl; [exact Hs|by intros ? []]).
  destruct (receive_loop_spec es (length data) data more Hwf Heq ltac:(done)) as (k&l&rest&Hloop&H2&Hdata&Hleft).
  exists k, l, rest. split_and!; [|done|done|done]. unfold handleReceive. fold data. rewrite Hloop. cbn [rbind]. rewrite (count_all_spec l _ _ H2). cbn [rbind].
  assert (Hdrop : drop (Z.to_nat (len (wires (take k es)))) data = rest).
  { rewrite Hdata. unfold len. by rewrite Nat2Z.id, drop_app_length. }
  assert (Hno : negb (bool_decide (rest = [])) && (len data =? MAX_NDN_PACKET_SIZE) && (len (wires (take k es)) =? 0) = false).
  { destruct (bool_decide_reflect (rest = [])) as [|Hne]; [done|]. cbn [negb andb].
    destruct (Z.eqb_spec (len data) MAX_NDN_PACKET_SIZE) as [Hmax|]; [|done]. apply Z.eqb_neq. intros H0.
    assert (Hr : len rest = len data) by (rewrite Hdata, len_app; lia).
    pose proof (leftover_room rest (drop k es) Hleft ltac:(by apply Forall_drop)). lia. }
  rewrite Hno, Hdrop. unfold received_into. done.
Qed.

(** C10. A stream transport finds the blocks of a stream, however the socket cuts
    it: when the bytes of the reads are the beginning of a sequence of blocks,
    none larger than the buffer, the transport gives the link service exactly
    the blocks that have arrived completely, in order, and counts them; it
    keeps the part of the next block, has room for more, and stays up.  When all
    bytes have arrived all blocks have been given. *)
Theorem stream_framing es chunks more st : small_elements es -> st_receiveBuffer st = [] -> st_reading st = true -> concat chunks ++ more = wires es ->
  exists k l rest, receives chunks st = Ok (l, received_into l (len (wires (take k es))) rest st) /\
    Forall2 (fun b x => built b x.1 x.2) l (take k es) /\ concat chunks = wires (take k es) ++ rest /\ leftover rest (drop k es) /\
    len rest < MAX_NDN_PACKET_SIZE /\ (more = [] -> take k es = es /\ rest = []).
Proof.
  intros Hs Hnil Hrd Heq. assert (Hgen : forall chunks es st, small_elements es -> st_receiveBuffer st ++ concat chunks ++ more = wires es -> leftover (st_receiveBuffer st) es -> st_reading st = true ->
    exists k l rest, receives chunks st = Ok (l, received_into l (len (wires (take k es))) rest st) /\
      Forall2 (fun b x => built b x.1 x.2) l (take k es) /\ st_receiveBuffer st ++ concat chunks = wires (take k es) ++ rest /\ leftover rest (drop k es)).
  { clear. intros chunks. induction chunks as [|c cs IH]; intros es st Hs Heq Hleft Hrd.
    - exists 0%nat, [], (st_receiveBuffer st). cbn [receives concat take drop] in *. split_and!; [|done|by rewrite app_nil_r|done].
      unfold received_into. destruct st as [[] ? ? ? ? ? ?]. cbn in *. subst. by rewrite !Z.add_0_r.
    - cbn [concat] in Heq. rewrite <- !app_assoc in Heq. destruct (handleReceive_spec es c (concat cs ++ more) st Hs) as (k&l&rest&Hr&H2&Hd&Hl);
        [by rewrite <- !app_assoc|].
      destruct (IH (drop k es) (received_into l (len (wires (take k es))) rest st)) as (k2&l2&rest2&Hr2&H22&Hd2&Hl2).
      + by apply Forall_drop.
      + cbn [received_into st_receiveBuffer]. assert (Hw : wires es = wires (take k es) ++ wires (drop k es)) by (by rewrite <- wires_app, take_drop).
        rewrite app_assoc, Hd, <- app_assoc, Hw in Heq. by apply app_inv_head in Heq.
      + done.
      + done.
      + assert (Htk : take (k + k2) es = take k es ++ take k2 (drop k es)).
        { rewrite <- (take_drop k es) at 1. destruct (decide (k <= length es)%nat).
          - rewrite take_app_add'; [done|]. rewrite length_take. lia.
          - rewrite (take_ge es k), (drop_ge es k) by lia. rewrite app_nil_r, (take_ge es (k + k2)) by lia. by rewrite take_nil, app_nil_r. }
        exists (k + k2)%nat, (l ++ l2), rest2. cbn [receives]. rewrite Hr. cbn [rbind]. rewrite Hr2. cbn [rbind]. rewrite Htk.
        split_and!; [|by apply Forall2_app| |by rewrite <- drop_drop].
        * unfold received_into. cbn. rewrite wires_app, !len_app. do 4 f_equal; lia.
        * cbn [concat received_into st_receiveBuffer] in *. by rewrite app_assoc, Hd, <- app_assoc, Hd2, wires_app, app_assoc. }
  destruct (Hgen chunks es st Hs) as (k&l&rest&Hr&H2&Hd&Hl); [by rewrite Hnil| |done|].
  { rewrite Hnil. destruct es as [|[t v] es]; [done|]. exists (tlv_wire t v). split; [apply tlv_wire_not_nil|done]. }
  rewrite Hnil in Hd. cbn [app] in Hd. exists k, l, rest. split_and!; try done.
  - eapply leftover_room; [done|by apply Forall_drop].
  - intros ->. rewrite app_nil_r in Heq. rewrite Heq in Hd. assert (Hw : wires es = wires (take k es) ++ wires (drop k es)) by (by rewrite <- wires_app, take_drop).
    rewrite Hw in Hd at 1. apply app_inv_head in Hd. rewrite <- Hd in *. destruct (drop k es) as [|[t v] d] eqn:Hdr; [|].
    + split; [|done]. rewrite <- (take_drop k es) at 2. by rewrite Hdr, app_nil_r.
    + destruct Hl as (q&Hq&Hl). rewrite wires_cons, <- app_assoc in Hl. cbn [fst snd] in Hl. rewrite <- (app_nil_r (tlv_wire t v)) in Hl at 2.
      apply app_inv_head in Hl. by apply app_eq_nil in Hl as [_ ->].
Qed.

(** ** The states of a stream transport *)

(** What happens to a transport: calls of its owner, and calls of the I/O library *)
Inductive stream_op :=
| OpSend (packet : Block)
| OpClose
| OpWritten (error : option SocketError)
| OpRead (bytes : list Z)
| OpReadError (error : SocketError)
| OpDeferredClose.

Definition stream_exec (op : stream_op) (st : StreamTransport) : result StreamTransport :=
  match op with
  | OpSend packet => send packet st
  | OpClose => close st
  | OpWritten error => handleSend error st
  | OpRead bytes => let! (_, st) := handleReceive bytes st in Ok st
  | OpReadError error => handleReceiveError error st
  | OpDeferredClose => deferredClose st
  end.

(** What the I/O library does: a write succeeds if there is one and the socket is
    open, a read returns at most as many bytes as there is room for, and what
    was posted is called.  Blocks that are sent have a size. *)
Definition stream_enabled (op : stream_op) (st : StreamTransport) : Prop :=
  match op with
  | OpSend packet => is_ok (Block_size packet) = true
  | OpClose | OpWritten (Some _) => True
  | OpWritten None => st_writing st <> None /\ st_socketOpen st = true
  | OpRead bytes => st_reading st = true /\ st_socketOpen st = true /\ wf_bytes bytes /\ len (st_receiveBuffer st) + len bytes <= MAX_NDN_PACKET_SIZE
  | OpReadError _ => st_reading st = true
  | OpDeferredClose => (0 < st_deferred st)%nat
  end.

Inductive stream_reachable : StreamTransport -> Prop :=
| SrNew : stream_reachable StreamTransport_new
| SrStep op st st' : stream_reachable st -> stream_enabled op st -> stream_exec op st = Ok st' -> stream_reachable st'.

(** The block at the front of the queue is being written; a transport that is being
    closed has a close posted, and one that is closed has neither socket nor queue. *)
Record stream_inv (st : StreamTransport) : Prop := {
  si_states : tr_state (st_transport st) ∈ [UP; CLOSING; FAILED; CLOSED];
  si_up : tr_state (st_transport st) = UP <-> st_socketOpen st = true /\ st_deferred st = 0%nat;
  si_closing : tr_state (st_transport st) ∈ [CLOSING; FAILED] -> st_socketOpen st = true /\ (0 < st_deferred st)%nat;
  si_closed : tr_state (st_transport st) = CLOSED -> st_socketOpen st = false /\ st_sendQueue st = [];
  si_writing : st_writing st = head (st_sendQueue st);
  si_buffer : wf_bytes (st_receiveBuffer st) /\ len (st_receiveBuffer st) <= MAX_NDN_PACKET_SIZE
}.

(** What a read may be followed by *)
Lemma receive_loop_sound fuel : forall data, wf_bytes data -> (length data <= fuel)%nat ->
  exists l offset isOk, receive_loop fuel data = Ok (l, offset, isOk) /\ 0 <= offset <= len data /\ Forall (fun b => is_ok (Block_size b) = true) l.
Proof.
  induction fuel as [|fuel IH]; intros data Hwf Hf; destruct data as [|x data]; try (exists [], 0, true; by (split; [|split; [unfold len; simpl; lia|constructor]])).
  cbn [receive_loop]. destruct (fromArray (x :: data)) as [b|] eqn:Hb.
  2: { exists [], 0, false. split; [done|]. split; [|constructor]. unfold len. simpl. lia. }
  unfold fromArray in Hb. destruct (readType_opt (x :: data)) as [[t|] s1] eqn:E1; [|done]. destruct (readVarNumber_opt s1) as [[n|] s2] eqn:E2; [|done].
  apply readType_opt_Some in E1 as ((h1&Hs1&Hh1)&_&Hw1); [|done]. apply readVarNumber_opt_Some in E2 as ((h2&Hs2&Hh2)&Hn&_); [|done].
  destruct (Z.ltb_spec (len s2) n); [done|]. apply (inj Some) in Hb.
  set (vb := (length (x :: data) - length s2)%nat). set (shared := take (vb + Z.to_nat n) (x :: data)).
  assert (Hl : length (x :: data) = (length h1 + (length h2 + length s2))%nat) by (rewrite Hs1, Hs2, !length_app; done).
  assert (Hsh : length shared = (vb + Z.to_nat n)%nat).
  { unfold shared. rewrite length_take. unfold len in *. unfold vb. rewrite Hl. lia. }
  fold vb in Hb. fold shared in Hb.
  assert (Hsize : Block_size b = Ok (len shared)).
  { rewrite <- Hb. unfold Block_size, hasWire. cbn [Block_raw m_buffer m_begin m_end m_size]. destruct shared as [|y shared'] eqn:Hs; [simpl in Hsh; unfold vb in Hsh; rewrite Hl in Hsh; lia|].
    done. }
  rewrite Hsize. cbn [rbind].
  destruct (IH (drop (Z.to_nat (len shared)) (x :: data))) as (l&offset&isOk&->&Ho&Hall).
  - by apply wf_bytes_drop.
  - rewrite length_drop. unfold len. rewrite Nat2Z.id, Hsh. unfold vb. rewrite Hl in *. lia.
  - cbn [rbind]. eexists (_ :: l), (len shared + offset), isOk. split; [done|]. split.
    + unfold len in *. rewrite length_drop, Nat2Z.id in Ho. rewrite Hsh in *. unfold vb in *. rewrite Hl in *. lia.
    + constructor; [by rewrite Hsize|done].
Qed.

Lemma count_all_Ok l : forall t, Forall (fun b => is_ok (Block_size b) = true) l -> exists t', count_all l t = Ok t' /\ tr_state t' = tr_state t.
Proof.
  induction l as [|b l IH]; intros t Hl; [by exists t|]. apply Forall_cons in Hl as [Hb Hl]. cbn [count_all].
  destruct (Block_size b) as [n|]; [|done]. cbn [rbind]. destruct (IH (count_in n t) Hl) as (t'&->&Ht). by exists t'.
Qed.

(** A read keeps the buffer within its size; it throws only while the transport is
    closing. *)
Lemma handleReceive_sound bytes st : wf_bytes (st_receiveBuffer st ++ bytes) ->
  exists l t rest, wf_bytes rest /\ len rest <= len (st_receiveBuffer st ++ bytes) /\ tr_state t = tr_state (st_transport st) /\
    (handleReceive bytes st = Ok (l, MkStreamTransport t rest (st_sendQueue st) (st_writing st) true (st_socketOpen st) (st_deferred st)) \/
     handleReceive bytes st = let! t := setState FAILED t in
       Ok (l, doClose (MkStreamTransport t rest (st_sendQueue st) (st_writing st) false (st_socketOpen st) (st_deferred st)))).
Proof.
  intros Hwf. unfold handleReceive. set (buffer := st_receiveBuffer st ++ bytes) in *.
  destruct (receive_loop_sound (length buffer) buffer Hwf ltac:(done)) as (l&offset&isOk&->&Ho&Hall). cbn [rbind].
  destruct (count_all_Ok l (st_transport st) Hall) as (t&->&Ht). cbn [rbind]. destruct (_ && _ && _).
  - exists l, t, buffer. split_and!; [done|lia|done|by right].
  - exists l, t, (drop (Z.to_nat offset) buffer). split_and!; [by apply wf_bytes_drop| |done|by left]. unfold len. rewrite length_drop. lia.
Qed.

Lemma setState_valid s t : valid_transition (tr_state t) s = true -> setState s t = Ok (with_state s t).
Proof.
  intros Hv. unfold setState. rewrite Hv. destruct (bool_decide_reflect (tr_state t = s)) as [He|]; [|done].
  exfalso. rewrite He in Hv. by destruct s.
Qed.

(** The transport begins to close. *)
Lemma inv_close s st : stream_inv st -> tr_state (st_transport st) = UP -> s = CLOSING \/ s = FAILED ->
  stream_inv (doClose (with_transport (with_state s (st_transport st)) st)).
Proof.
  intros [H1 H2 H3 H4 H5 H6] Hup Hs. destruct (proj1 H2 Hup) as [Ho _].
  split; cbn [doClose with_transport with_state st_transport tr_state st_socketOpen st_deferred st_sendQueue st_writing st_receiveBuffer].
  - destruct Hs as [->| ->]; by_decide.
  - split; [destruct Hs as [->| ->]; discriminate|]. by intros [_ ?].
  - intros _. split; [done|lia].
  - destruct Hs as [->| ->]; discriminate.
  - done.
  - done.
Qed.

Lemma open_up st : stream_inv st -> is_open (tr_state (st_transport st)) = bool_decide (tr_state (st_transport st) = UP).
Proof. intros [H1 _ _ _ _ _]. destruct (tr_state (st_transport st)); try done. exfalso. revert H1. by_decide. Qed.

Lemma inv_not_up st : stream_inv st -> is_open (tr_state (st_transport st)) = true -> tr_state (st_transport st) = UP.
Proof. intros Hi Ho. rewrite (open_up st Hi) in Ho. by apply bool_decide_eq_true in Ho. Qed.

Lemma inv_processError e st : stream_inv st -> exists st', processErrorCode e st = Ok st' /\ stream_inv st'.
Proof.
  intros Hi. unfold processErrorCode. destruct (is_open (tr_state (st_transport st))) eqn:Ho; cbn [negb]; [|by exists st].
  pose proof (inv_not_up st Hi Ho) as Hup.
  assert (Hf : exists st', (let! t := setState FAILED (st_transport st) in Ok (doClose (with_transport t st))) = Ok st' /\ stream_inv st').
  { rewrite setState_valid by (by rewrite Hup). cbn [rbind]. eexists. split; [done|]. apply inv_close; auto. }
  destruct e; [done|by exists st|by exists st|done].
Qed.

Lemma inv_queue q w st : stream_inv st -> tr_state (st_transport st) <> CLOSED -> w = head q ->
  stream_inv (MkStreamTransport (st_transport st) (st_receiveBuffer st) q w (st_reading st) (st_socketOpen st) (st_deferred st)).
Proof. intros [H1 H2 H3 H4 H5 H6] Hc ->. by split. Qed.

Lemma inv_transport t st : stream_inv st -> tr_state t = tr_state (st_transport st) -> stream_inv (with_transport t st).
Proof. intros [H1 H2 H3 H4 H5 H6] Ht. by split; cbn [with_transport st_transport]; rewrite ?Ht. Qed.

Lemma inv_reading st bufr r : stream_inv st -> wf_bytes bufr /\ len bufr <= MAX_NDN_PACKET_SIZE ->
  stream_inv (MkStreamTransport (st_transport st) bufr (st_sendQueue st) (st_writing st) r (st_socketOpen st) (st_deferred st)).
Proof. intros [H1 H2 H3 H4 H5 H6] Hb. by split. Qed.

Lemma stream_inv_send packet st : stream_inv st -> is_ok (Block_size packet) = true -> exists st', send packet st = Ok st' /\ stream_inv st'.
Proof.
  intros Hi Hs. unfold send. destruct (is_open (tr_state (st_transport st))) eqn:Ho; cbn [negb]; [|by exists st].
  pose proof (inv_not_up st Hi Ho) as Hup. rewrite bool_decide_true by done. destruct (Block_size packet) as [n|]; [|done]. cbn [rbind].
  eexists. split; [done|]. pose proof (inv_transport (count_out n (st_transport st)) st Hi eq_refl) as Hi'.
  pose proof (si_writing _ Hi) as Hw. unfold doSend. cbn [with_transport st_sendQueue]. destruct (st_sendQueue st) as [|b q] eqn:Hq.
  - unfold sendFromQueue, with_queue. cbn. apply (inv_queue [packet] (Some packet) _ Hi'); [cbn; by rewrite Hup|done].
  - unfold with_queue. cbn. apply (inv_queue ((b :: q) ++ [packet]) _ _ Hi'); [cbn; by rewrite Hup|by rewrite Hw].
Qed.

(** Every operation that can happen keeps the invariant, or is a read that throws
    while the transport is closing. *)
Lemma stream_step op st : stream_inv st -> stream_enabled op st ->
  (exists st', stream_exec op st = Ok st' /\ stream_inv st') \/
  (tr_state (st_transport st) = CLOSING /\ stream_exec op st = Err RuntimeError /\ exists bytes, op = OpRead bytes).
Proof.
  intros Hi He. destruct op as [packet| |[e|]|bytes|e|]; cbn [stream_exec stream_enabled] in *.
  - left. by apply stream_inv_send.
  - left. unfold close. destruct (is_open (tr_state (st_transport st))) eqn:Ho; cbn [negb]; [|by exists st].
    pose proof (inv_not_up st Hi Ho) as Hup. rewrite setState_valid by (by rewrite Hup). cbn [rbind]. eexists. split; [done|]. apply inv_close; auto.
  - left. by apply inv_processError.
  - left. destruct He as [Hw Ho]. pose proof (si_writing _ Hi) as Hw'. unfold handleSend. destruct (st_sendQueue st) as [|b q] eqn:Hq; [by rewrite Hw' in Hw|].
    assert (Hc : tr_state (st_transport st) <> CLOSED) by (intros Hc; by destruct (si_closed _ Hi Hc) as [? _]; congruence).
    eexists. split; [done|]. destruct q as [|b' q]; [by apply (inv_queue [] None)|]. unfold sendFromQueue. cbn. by apply (inv_queue (b' :: q) (Some b')).
  - destruct He as (Hr&Ho&Hwb&Hroom). destruct (si_buffer _ Hi) as [Hb Hl].
    destruct (handleReceive_sound bytes st) as (l&t&rest&Hwr&Hlr&Ht&Hcase); [by apply wf_bytes_app|]. rewrite len_app in Hlr.
    assert (Hrest : wf_bytes rest /\ len rest <= MAX_NDN_PACKET_SIZE) by (split; [done|lia]).
    destruct Hcase as [-> | ->]; cbn [rbind].
    + left. eexists. split; [done|]. apply (inv_transport t) in Hi; [|done]. exact (inv_reading _ rest true Hi Hrest).
    + assert (Hc : tr_state (st_transport st) <> CLOSED) by (intros Hc; by destruct (si_closed _ Hi Hc) as [? _]; congruence).
      pose proof (inv_transport t st Hi Ht) as Hi1. pose proof (inv_reading _ rest false Hi1 Hrest) as Hi2. cbn [with_transport st_transport st_sendQueue st_writing st_socketOpen st_deferred] in Hi2.
      destruct (tr_state (st_transport st)) eqn:Hst; try done; try (exfalso; pose proof (si_states _ Hi) as Hs; rewrite Hst in Hs; revert Hs; by_decide).
      * left. rewrite setState_valid by (by rewrite Ht). cbn [rbind]. eexists. split; [done|].
        refine (inv_close FAILED (MkStreamTransport t rest (st_sendQueue st) (st_writing st) false (st_socketOpen st) (st_deferred st)) Hi2 _ _); [done|by right].
      * right. unfold setState. rewrite Ht. split_and!; [done|done|by exists bytes].
      * left. unfold setState. rewrite Ht. cbn [bool_decide decide rbind]. eexists. split; [rewrite bool_decide_true by done; done|].
        destruct Hi2 as [I1 I2 I3 I4 I5 I6]. split; cbn in *; [done| |intros Hx; split; [by apply I3|lia]|done|done|done].
        rewrite Ht. split; [done|]. by intros [_ ?].
  - left. apply inv_processError. destruct (si_buffer _ Hi). by apply inv_reading.
  - left. unfold deferredClose. assert (Hv : exists t, setState CLOSED (st_transport st) = Ok t /\ tr_state t = CLOSED).
    { unfold setState. destruct (bool_decide_reflect (tr_state (st_transport st) = CLOSED)); [by eexists|].
      pose proof (si_states _ Hi) as Hs. pose proof (si_up _ Hi) as Hu. destruct (tr_state (st_transport st)) eqn:Hst; try done.
      - exfalso. revert Hs. by_decide.
      - exfalso. destruct (proj1 Hu eq_refl) as [_ Hd]. lia.
      - exfalso. revert Hs. by_decide.
      - by eexists.
      - by eexists. }
    destruct Hv as (t&Hset&Ht). cbn [st_transport]. rewrite Hset. cbn [rbind]. eexists. split; [done|]. destruct (si_buffer _ Hi).
    split; cbn; rewrite ?Ht; [by_decide|split; [done|by intros []]| |done|done|done]. intros Hx. exfalso. revert Hx. by_decide.
Qed.

Lemma stream_reachable_inv st : stream_reachable st -> stream_inv st.
Proof.
  induction 1 as [|op st st' Hr IH He Hx].
  - split; cbn; [by_decide|done| |done|done|split; [constructor|by vm_compute]]. intros Hx. exfalso. revert Hx. by_decide.
  - destruct (stream_step op st IH He) as [(st2&H2&Hi)|(_&H2&_)]; [congruence|congruence].
Qed.

(** C11. A stream transport is closed once and for all: in every state it can reach,
    nothing that can happen throws, except a read that completes while the
    transport is closing; a transport that is being closed, or has failed, has a
    close posted, which closes it; a closed transport stays closed; the block at
    the front of the queue, and no other, is being written; and the bytes that
    wait for the rest of their block fit into the buffer. *)
Theorem stream_transport_safe st : stream_reachable st ->
  (forall op, stream_enabled op st -> is_ok (stream_exec op st) = true \/
     tr_state (st_transport st) = CLOSING /\ exists bytes, op = OpRead bytes) /\
  (tr_state (st_transport st) = UP \/ tr_state (st_transport st) = CLOSED \/
     stream_enabled OpDeferredClose st /\ exists st', stream_exec OpDeferredClose st = Ok st' /\ tr_state (st_transport st') = CLOSED) /\
  (tr_state (st_transport st) = CLOSED -> forall op st', stream_enabled op st -> stream_exec op st = Ok st' -> tr_state (st_transport st') = CLOSED) /\
  st_writing st = head (st_sendQueue st) /\ len (st_receiveBuffer st) <= MAX_NDN_PACKET_SIZE.
Proof.
  intros Hr. pose proof (stream_reachable_inv st Hr) as Hi. split_and!; [| | |apply Hi|apply Hi].
  - intros op He. destruct (stream_step op st Hi He) as [(st'&->&_)|(?&_&?)]; [by left|by right].
  - pose proof (si_states _ Hi) as Hs. pose proof (si_closing _ Hi) as Hc.
    destruct (decide (tr_state (st_transport st) ∈ [CLOSING; FAILED])) as [Hin|Hn].
    + do 2 right. destruct (Hc Hin) as [_ Hd]. split; [done|]. cbn [stream_exec]. unfold deferredClose. cbn [st_transport].
      rewrite setState_valid. { eexists. by split. }
      rewrite !elem_of_cons in Hin. destruct Hin as [->|[->|[]%elem_of_nil]]; done.
    + rewrite !elem_of_cons in Hs. rewrite !elem_of_cons in Hn. destruct Hs as [?|[?|[?|[?|[]%elem_of_nil]]]]; tauto.
  - intros Hc op st' He Hx. destruct (si_closed _ Hi Hc) as [Hso Hq].
    destruct op as [packet| |[e|]|bytes|e|]; cbn [stream_exec stream_enabled] in *.
    + unfold send in Hx. rewrite Hc in Hx. by injection Hx as <-.
    + unfold close in Hx. rewrite Hc in Hx. by injection Hx as <-.
    + unfold handleSend, processErrorCode in Hx. rewrite Hc in Hx. by injection Hx as <-.
    + destruct He. congruence.
    + destruct He as (_&?&_). congruence.
    + unfold handleReceiveError, processErrorCode in Hx. cbn in Hx. rewrite Hc in Hx. by injection Hx as <-.
    + unfold deferredClose in Hx. cbn [st_transport] in Hx. unfold setState in Hx. rewrite bool_decide_true in Hx by done. by injection Hx as <-.
Qed.

(** A block that is larger than the buffer: the transport fails when the buffer is
    full; if it is closing, the transition is not valid and an exception is
    thrown. *)
Theorem stream_large_block t v p q bytes st : wf_element (t, v) -> p ++ q = tlv_wire t v -> q <> [] -> len p = MAX_NDN_PACKET_SIZE ->
  st_receiveBuffer st ++ bytes = p ->
  handleReceive bytes st = let! tr := setState FAILED (st_transport st) in
    Ok ([], doClose (MkStreamTransport tr p (st_sendQueue st) (st_writing st) false (st_socketOpen st) (st_deferred st))).
Proof.
  intros Hel Hpq Hq Hl Hb. unfold handleReceive. rewrite Hb. destruct p as [|x p]; [done|]. cbn [receive_loop length].
  rewrite (fromArray_part t v _ q Hel Hpq Hq). cbn [rbind count_all negb]. by rewrite Hl.
Qed.

(** ** The queue of a stream transport *)

(** The blocks that are given to the socket by an operation *)
Definition issued (op : stream_op) (st st' : StreamTransport) : list Block :=
  match op with
  | OpSend _ => match st_sendQueue st with [] => option_list (st_writing st') | _ => [] end
  | OpWritten None => option_list (st_writing st')
  | _ => []
  end.

Fixpoint stream_run (ops : list stream_op) (st : StreamTransport) : result (list Block * StreamTransport) :=
  match ops with
  | [] => Ok ([], st)
  | op :: ops' =>
      let! st1 := stream_exec op st in
      let! (l, st2) := stream_run ops' st1 in
      Ok (issued op st st1 ++ l, st2)
  end.

(** Each operation can happen when it does. *)
Fixpoint stream_runnable (ops : list stream_op) (st : StreamTransport) : Prop :=
  match ops with
  | [] => True
  | op :: ops' => stream_enabled op st /\ match stream_exec op st with Ok st1 => stream_runnable ops' st1 | Err _ => True end
  end.

Fixpoint sent_blocks (ops : list stream_op) : list Block :=
  match ops with
  | [] => []
  | OpSend packet :: ops' => packet :: sent_blocks ops'
  | _ :: ops' => sent_blocks ops'
  end.

Definition sends_or_writes (op : stream_op) : bool := match op with OpSend _ | OpWritten None => true | _ => false end.

Lemma send_queue packet st st1 : stream_inv st -> tr_state (st_transport st) = UP -> send packet st = Ok st1 ->
  tr_state (st_transport st1) = UP /\ tail (st_sendQueue st) ++ [packet] = issued (OpSend packet) st st1 ++ tail (st_sendQueue st1).
Proof.
  intros Hi Hup. unfold send. rewrite Hup. cbn [is_open bool_decide negb]. rewrite bool_decide_true by done. intros (st2&Hst2&[= <-])%rbind_Ok.
  apply rbind_Ok in Hst2 as (n&_&[= <-]). unfold doSend, issued. cbn [with_transport st_sendQueue]. destruct (st_sendQueue st) as [|b q]; by split.
Qed.

Lemma written_queue st st1 : stream_inv st -> tr_state (st_transport st) = UP -> handleSend None st = Ok st1 ->
  tr_state (st_transport st1) = UP /\ tail (st_sendQueue st) = issued (OpWritten None) st st1 ++ tail (st_sendQueue st1).
Proof.
  intros Hi Hup. unfold handleSend, issued. destruct (st_sendQueue st) as [|b [|b' q]]; [done|by intros [= <-]..].
Qed.

Lemma run_queue ops : forall st, stream_inv st -> tr_state (st_transport st) = UP -> forallb sends_or_writes ops = true -> stream_runnable ops st ->
  exists ws st', stream_run ops st = Ok (ws, st') /\ stream_inv st' /\ tail (st_sendQueue st) ++ sent_blocks ops = ws ++ tail (st_sendQueue st').
Proof.
  induction ops as [|op ops IH]; intros st Hi Hup Hops Hrun.
  - exists [], st. cbn [stream_run sent_blocks]. by rewrite app_nil_r.
  - cbn [forallb] in Hops. apply andb_true_iff in Hops as [Hop Hops]. destruct Hrun as [He Hrun].
    destruct (stream_step op st Hi He) as [(st1&Hx&Hi1)|(Hc&_)]; [|congruence]. cbn [stream_run]. rewrite Hx in *. cbn [rbind].
    destruct op as [packet| |[e|]|bytes|e|]; try done; cbn [stream_exec] in Hx.
    + destruct (send_queue packet st st1 Hi Hup Hx) as [Hup1 Hq]. destruct (IH st1 Hi1 Hup1 Hops Hrun) as (ws&st'&->&Hi'&Heq). cbn [rbind sent_blocks].
      eexists _, st'. split_and!; [done|done|]. rewrite <- app_assoc, <- Heq, app_assoc, <- Hq. by rewrite <- app_assoc.
    + destruct (written_queue st st1 Hi Hup Hx) as [Hup1 Hq]. destruct (IH st1 Hi1 Hup1 Hops Hrun) as (ws&st'&->&Hi'&Heq). cbn [rbind sent_blocks].
      eexists _, st'. split_and!; [done|done|]. by rewrite <- app_assoc, <- Heq, app_assoc, <- Hq.
Qed.

(** C12. Blocks are written to the socket one at a time and in the order they are
    sent, none of them lost or repeated: after any sends and completed writes of
    a transport that is up, what was written is the beginning of what was sent,
    and the rest waits in the queue behind the block that is being written. *)
Theorem stream_sends_in_order ops st : stream_reachable st -> tr_state (st_transport st) = UP -> st_sendQueue st = [] ->
  forallb sends_or_writes ops = true -> stream_runnable ops st ->
  exists ws st', stream_run ops st = Ok (ws, st') /\ sent_blocks ops = ws ++ tail (st_sendQueue st') /\ st_writing st' = head (st_sendQueue st').
Proof.
  intros Hr Hup Hq Hops Hrun. destruct (run_queue ops st (stream_reachable_inv st Hr) Hup Hops Hrun) as (ws&st'&Hx&Hi'&Heq).
  rewrite Hq in Heq. exists ws, st'. split_and!; [done|done|apply Hi'].
Qed.

(** A datagram is delivered exactly when it is one block. *)
Theorem datagram_exact bytes t :
  (forall ty v, bytes = tlv_wire ty v -> wf_element (ty, v) -> exists b, receiveDatagram bytes t = Ok (Some b, count_in (len bytes) t) /\ built b ty v) /\
  (forall ty v rest, bytes = tlv_wire ty v ++ rest -> rest <> [] -> wf_element (ty, v) -> receiveDatagram bytes t = Ok (None, t)).
Proof.
  split.
  - intros ty v -> Hel. destruct (fromArray_whole ty v [] Hel) as (b&Hb&Hbu). rewrite app_nil_r in Hb. unfold receiveDatagram. rewrite Hb, (built_total _ _ _ Hbu).
    cbn [rbind]. rewrite Z.eqb_refl. by exists b.
  - intros ty v rest -> Hr Hel. destruct (fromArray_whole ty v rest Hel) as (b&Hb&Hbu). unfold receiveDatagram. rewrite Hb, (built_total _ _ _ Hbu).
    cbn [rbind]. rewrite len_app, (proj2 (Z.eqb_neq _ _)); [done|]. destruct rest; [done|]. rewrite len_cons. pose proof (len_nonneg rest). lia.
Qed.

(** ** Runs *)

Module TransportSamples.
Definition one : Block := Eval vm_compute in from_ok Block_empty (makeBinaryBlock 5 [1; 2]).
Definition two : Block := Eval vm_compute in from_ok Block_empty (makeBinaryBlock 6 []).

(** Two blocks in three reads, the second of which ends in the second block *)
Definition stream_elements : list (Z * list Z) := [(5, [1; 2]); (6, [])].

Lemma stream_framing_witness : exists l, receives [[5; 2]; [1; 2; 6]; [0]] StreamTransport_new = Ok (l, received_into l 6 [] StreamTransport_new) /\
  map view l = stream_elements.
Proof.
  destruct (stream_framing stream_elements [[5; 2]; [1; 2; 6]; [0]] [] StreamTransport_new) as (k&l&rest&Hr&H2&_&_&_&Hall).
  - apply Forall_cons. split; [split; [by_decide|by vm_compute]|]. apply Forall_cons. split; [split; [by_decide|by vm_compute]|apply Forall_nil; exact I].
  - reflexivity.
  - reflexivity.
  - vm_compute. reflexivity.
  - destruct (Hall eq_refl) as [Hk ->]. rewrite Hk in *. exists l. split; [exact Hr|].
    clear -H2. unfold stream_elements in *. apply Forall2_cons_inv_r in H2 as (b&l1&[V1 _ _ _ _ _ _]&H2&->). apply Forall2_cons_inv_r in H2 as (b2&l2&[V2 _ _ _ _ _ _]&H2&->).
    apply Forall2_nil_inv_r in H2 as ->. cbn [map]. rewrite V1, V2. reflexivity.
Defined.

Lemma stream_transport_safe_witness : exists st, stream_exec OpClose StreamTransport_new = Ok st /\ tr_state (st_transport st) = CLOSING /\
  exists st', stream_exec OpDeferredClose st = Ok st' /\ tr_state (st_transport st') = CLOSED.
Proof.
  eexists. split; [vm_compute; reflexivity|]. split; [reflexivity|].
  edestruct stream_transport_safe as (_&H&_).
  - eapply (SrStep OpClose); [exact SrNew|exact I|vm_compute; reflexivity].
  - destruct H as [H|[H|[_ H]]]; [discriminate|discriminate|exact H].
Defined.

Lemma stream_sends_in_order_witness : exists ws st', stream_run [OpSend one; OpSend two; OpWritten None] StreamTransport_new = Ok (ws, st') /\
  [one; two] = ws ++ tail (st_sendQueue st') /\ st_writing st' = head (st_sendQueue st').
Proof.
  apply (stream_sends_in_order [OpSend one; OpSend two; OpWritten None] StreamTransport_new);
    [exact SrNew|reflexivity|reflexivity|reflexivity|].
  vm_compute. split; [reflexivity|]. split; [reflexivity|]. split; [split; [discriminate|reflexivity]|exact I].
Defined.
End TransportSamples.
