(* ===== verification/RibEntry.v ===== *)
(** * Entries of the routing information base: [NFD/rib/rib-entry.cpp], [route.hpp]

    A name prefix has routes, each over a face and from an origin, and routes
    it inherits from shorter prefixes. *)

From S2P Require Import Prelude StdMap Tlv NameComponent Name.

(** ** Routes *)

(** The event that expires the route is a number. *)
Record Route := MkRoute {
  r_faceId : Z;
  r_origin : Z;
  r_flags : Z;
  r_cost : Z;
  r_expires : Z;
  r_expirationEvent : option Z
}.

#[global] Instance Route_eq_dec : EqDecision Route.
Proof. solve_decision. Defined.

Definition ROUTE_FLAG_CHILD_INHERIT : Z := 1.
Definition ROUTE_FLAG_CAPTURE : Z := 2.

Definition isChildInherit (r : Route) : bool := negb (Z.land (r_flags r) ROUTE_FLAG_CHILD_INHERIT =? 0).
Definition isCapture (r : Route) : bool := negb (Z.land (r_flags r) ROUTE_FLAG_CAPTURE =? 0).

Definition compareFaceIdAndOrigin (lhs rhs : Route) : bool := (r_faceId lhs =? r_faceId rhs) && (r_origin lhs =? r_origin rhs).
Definition compareFaceId (route : Route) (faceId : Z) : bool := r_faceId route =? faceId.

(** ** Entries *)

(** A pointer to an entry is the name of the entry. *)
Record RibEntry := MkRibEntry {
  re_name : Name;
  re_children : list Name;
  re_parent : option Name;
  re_routes : list Route;
  re_inheritedRoutes : list Route;
  re_nRoutesWithCaptureSet : Z
}.

Definition RibEntry_new : RibEntry := MkRibEntry [] [] None [] [] 0.

Definition setName (n : Name) (e : RibEntry) : RibEntry :=
  MkRibEntry n (re_children e) (re_parent e) (re_routes e) (re_inheritedRoutes e) (re_nRoutesWithCaptureSet e).
Definition setParent (p : option Name) (e : RibEntry) : RibEntry :=
  MkRibEntry (re_name e) (re_children e) p (re_routes e) (re_inheritedRoutes e) (re_nRoutesWithCaptureSet e).
Definition setChildren (l : list Name) (e : RibEntry) : RibEntry :=
  MkRibEntry (re_name e) l (re_parent e) (re_routes e) (re_inheritedRoutes e) (re_nRoutesWithCaptureSet e).
Definition setRoutes (l : list Route) (n : Z) (e : RibEntry) : RibEntry :=
  MkRibEntry (re_name e) (re_children e) (re_parent e) l (re_inheritedRoutes e) n.
Definition setInherited (l : list Route) (e : RibEntry) : RibEntry :=
  MkRibEntry (re_name e) (re_children e) (re_parent e) (re_routes e) l (re_nRoutesWithCaptureSet e).

Definition findRoute (route : Route) (e : RibEntry) : option Route :=
  List.find (fun r => compareFaceIdAndOrigin r route) (re_routes e).

(** [insertRoute]: the result says whether the route is new. *)
Definition insertRoute (route : Route) (e : RibEntry) : RibEntry * bool :=
  match findRoute route e with
  | Some _ => (e, false)
  | None =>
      (setRoutes (re_routes e ++ [route]) (if isCapture route then to_u64 (re_nRoutesWithCaptureSet e + 1) else re_nRoutesWithCaptureSet e) e, true)
  end.

(** The first route of the face and the origin is erased. *)
Fixpoint erase_route (route : Route) (l : list Route) : list Route :=
  match l with
  | [] => []
  | r :: l' => if compareFaceIdAndOrigin r route then l' else r :: erase_route route l'
  end.

(** [eraseRoute]: the entry, and the event that is cancelled *)
Definition eraseRoute (route : Route) (e : RibEntry) : RibEntry * option Z :=
  match findRoute route e with
  | None => (e, None)
  | Some r =>
      (setRoutes (erase_route route (re_routes e)) (if isCapture r then to_u64 (re_nRoutesWithCaptureSet e - 1) else re_nRoutesWithCaptureSet e) e,
       r_expirationEvent r)
  end.

Definition hasRoute (route : Route) (e : RibEntry) : bool := match findRoute route e with Some _ => true | None => false end.
Definition hasFaceId (faceId : Z) (e : RibEntry) : bool := existsb (fun r => compareFaceId r faceId) (re_routes e).
Definition getNRoutes (e : RibEntry) : Z := len (re_routes e).
Definition hasCapture (e : RibEntry) : bool := 0 <? re_nRoutesWithCaptureSet e.

Definition addInheritedRoute (route : Route) (e : RibEntry) : RibEntry := setInherited (re_inheritedRoutes e ++ [route]) e.

Definition findInheritedRoute (route : Route) (e : RibEntry) : option Route :=
  List.find (fun r => compareFaceId r (r_faceId route)) (re_inheritedRoutes e).
Definition hasInheritedRoute (route : Route) (e : RibEntry) : bool := match findInheritedRoute route e with Some _ => true | None => false end.

Fixpoint erase_face (faceId : Z) (l : list Route) : list Route :=
  match l with
  | [] => []
  | r :: l' => if compareFaceId r faceId then l' else r :: erase_face faceId l'
  end.

(** [removeInheritedRoute]: [std::list::erase] of [end()], when there is none, is
    not defined. *)
Definition removeInheritedRoute (route : Route) (e : RibEntry) : result RibEntry :=
  if hasInheritedRoute route e then Ok (setInherited (erase_face (r_faceId route) (re_inheritedRoutes e)) e) else Err OutOfRange.

Definition hasChildInheritOnFaceId (faceId : Z) (e : RibEntry) : bool :=
  existsb (fun r => (r_faceId r =? faceId) && isChildInherit r) (re_routes e).

(** The loop for the route of lowest cost among those that [sel] accepts *)
Fixpoint lowest_cost (sel : Route -> bool) (candidate : option Route) (l : list Route) : option Route :=
  match l with
  | [] => candidate
  | route :: l' =>
      let candidate :=
        if sel route then
          match candidate with
          | None => Some route
          | Some c => if r_cost route <? r_cost c then Some route else candidate
          end
        else candidate in
      lowest_cost sel candidate l'
  end.

Definition getRouteWithLowestCostByFaceId (faceId : Z) (e : RibEntry) : option Route :=
  lowest_cost (fun r => r_faceId r =? faceId) None (re_routes e).

Definition getRouteWithLowestCostAndChildInheritByFaceId (faceId : Z) (e : RibEntry) : option Route :=
  lowest_cost (fun r => (r_faceId r =? faceId) && (Z.land (r_flags r) ROUTE_FLAG_CHILD_INHERIT =? ROUTE_FLAG_CHILD_INHERIT)) None (re_routes e).

(** ** Lemmas *)

Definition route_key (r : Route) : Z * Z := (r_faceId r, r_origin r).

Lemma compare_key_iff a b : compareFaceIdAndOrigin a b = true <-> route_key a = route_key b.
Proof. unfold compareFaceIdAndOrigin, route_key. rewrite andb_true_iff, !Z.eqb_eq. split; [by intros [-> ->]|by intros [= -> ->]]. Qed.

Lemma findRoute_Some route e r : findRoute route e = Some r -> r ∈ re_routes e /\ route_key r = route_key route.
Proof. intros [Hin Hc]%List.find_some. split; [by apply list_elem_of_In|by apply compare_key_iff]. Qed.

Lemma findRoute_None route e : findRoute route e = None <-> route_key route ∉ map route_key (re_routes e).
Proof.
  unfold findRoute. split.
  - intros Hf Hin. apply list_elem_of_fmap in Hin as (r&Hk&Hr). apply list_elem_of_In in Hr. pose proof (List.find_none _ _ Hf r Hr) as Hn.
    apply not_true_iff_false in Hn. apply Hn, compare_key_iff. done.
  - intros Hn. destruct (List.find _ _) as [r|] eqn:Hf; [|done]. exfalso. apply Hn. apply List.find_some in Hf as [Hr Hc].
    apply compare_key_iff in Hc. rewrite <- Hc. apply list_elem_of_fmap. exists r. by rewrite list_elem_of_In.
Qed.

(** At most one route per face and origin *)
Definition routes_ok (l : list Route) : Prop := NoDup (map route_key l).

Lemma elem_of_erase_route route l r : routes_ok l -> r ∈ erase_route route l <-> r ∈ l /\ route_key r <> route_key route.
Proof.
  induction l as [|x l IH]; intros Hd; cbn [erase_route]; [split; [by intros ?%elem_of_nil|by intros [?%elem_of_nil _]]|]. unfold routes_ok in *. cbn [map] in Hd.
  apply NoDup_cons in Hd as [Hx Hd]. destruct (compareFaceIdAndOrigin x route) eqn:Hc.
  - apply compare_key_iff in Hc. rewrite elem_of_cons. split.
    + intros Hr. split; [by right|]. intros He. apply Hx. rewrite Hc, <- He. apply list_elem_of_fmap. by exists r.
    + intros [[->|Hr] Hn]; [done|done].
  - assert (Hxk : route_key x <> route_key route) by (rewrite <- compare_key_iff; congruence).
    rewrite !elem_of_cons, (IH Hd). split; [intros [->|[? ?]]; auto|tauto].
Qed.

Lemma erase_route_perm route l r : List.find (fun x => compareFaceIdAndOrigin x route) l = Some r -> l ≡ₚ r :: erase_route route l.
Proof.
  induction l as [|x l IH]; cbn [List.find erase_route]; [done|]. destruct (compareFaceIdAndOrigin x route).
  - by intros [= ->].
  - intros Hf. rewrite (IH Hf) at 1. apply Permutation_swap.
Qed.

Lemma erase_route_ok route l : routes_ok l -> routes_ok (erase_route route l).
Proof.
  unfold routes_ok. induction l as [|x l IH]; cbn [erase_route map]; [done|]. intros [Hx Hd]%NoDup_cons. destruct (compareFaceIdAndOrigin x route); [done|].
  cbn [map]. apply NoDup_cons. split; [|by apply IH]. intros (r&Hr&Hin)%list_elem_of_fmap. apply Hx. apply elem_of_erase_route in Hin as [Hin _]; [|done].
  rewrite Hr. apply list_elem_of_fmap. by exists r.
Qed.

(** The route of lowest cost is selected, and none of lower cost is. *)
Lemma lowest_cost_spec sel l : forall c, (forall r, c = Some r -> sel r = true) ->
  match lowest_cost sel c l with
  | None => c = None /\ Forall (fun r => sel r = false) l
  | Some r => sel r = true /\ (c = Some r \/ r ∈ l) /\ Forall (fun x => sel x = true -> r_cost r <= r_cost x) (option_list c ++ l)
  end.
Proof.
  induction l as [|x l IH]; intros c Hc; cbn [lowest_cost].
  - destruct c as [r|]; [|split; [done|constructor]]. split_and!; [by apply Hc|by left|]. cbn. constructor; [lia|constructor].
  - destruct (sel x) eqn:Hx.
    + set (c' := match c with None => Some x | Some c0 => if r_cost x <? r_cost c0 then Some x else c end).
      assert (Hc' : forall r, c' = Some r -> sel r = true).
      { intros r. unfold c'. destruct c as [c0|]; [destruct (r_cost x <? r_cost c0)|]; try (by intros [= <-]); apply Hc. }
      specialize (IH c' Hc'). destruct (lowest_cost sel c' l) as [r|].
      * destruct IH as (Hr&Hin&Hall). split_and!; [done| |].
        { destruct Hin as [Hin|Hin]; [|right; by right]. unfold c' in Hin. destruct c as [c0|]; [destruct (r_cost x <? r_cost c0)|];
            [injection Hin as <-; right; by left|by left|injection Hin as <-; right; by left]. }
        { apply Forall_app in Hall as [Hc0 Hl]. apply Forall_app. unfold c' in Hc0. destruct c as [c0|]; cbn [option_list app] in *.
          - destruct (Z.ltb_spec (r_cost x) (r_cost c0)); cbn [option_list app] in Hc0; apply Forall_cons in Hc0 as [Hy _].
            + split; [constructor; [intros _; specialize (Hy Hx); lia|constructor]|by constructor].
            + specialize (Hc c0 eq_refl). split; [constructor; [done|constructor]|constructor; [intros _; specialize (Hy Hc); lia|done]].
          - apply Forall_cons in Hc0 as [Hy _]. split; [constructor|by constructor]. }
      * exfalso. destruct IH as [Hn _]. unfold c' in Hn. destruct c as [c0|]; [by destruct (r_cost x <? r_cost c0)|done].
    + specialize (IH c Hc). destruct (lowest_cost sel c l) as [r|].
      * destruct IH as (Hr&Hin&Hall). split_and!; [done|destruct Hin as [?|?]; [by left|right; by right]|].
        apply Forall_app in Hall as [? ?]. apply Forall_app. split; [done|]. constructor; [by rewrite Hx|done].
      * destruct IH as [-> Hall]. split; [done|by constructor].
Qed.
