(* ===== verification/Rib.v ===== *)
(** * The routing information base: [NFD/rib/rib.cpp]

    The entries form a tree: the parent of an entry is the entry of the longest
    proper prefix of its name.  Updates wait in a queue for the answer of the
    FIB updater.  The file proves that the operations keep the tree, the count
    of routes and the lookup table of the faces exact, that the RIB refines a
    finite map from names to routes, which routes a name inherits, and that the
    queue is served in order. *)

From S2P Require Import Prelude StdMap Tlv NameComponent Name CsEntry RibEntry.

(** ** Updates: [rib-update.hpp], [rib-update-batch.cpp] *)

Inductive RibAction : Set := REGISTER | UNREGISTER | REMOVE_FACE.

Record RibUpdate := MkRibUpdate {
  ru_action : RibAction;
  ru_name : Name;
  ru_route : Route
}.

Record RibUpdateBatch := MkRibUpdateBatch {
  rub_faceId : Z;
  rub_updates : list RibUpdate
}.

Definition RibUpdateBatch_new (faceId : Z) : RibUpdateBatch := MkRibUpdateBatch faceId [].

Definition RibUpdateBatch_add (update : RibUpdate) (b : RibUpdateBatch) : result RibUpdateBatch :=
  if rub_faceId b =? r_faceId (ru_route update) then Ok (MkRibUpdateBatch (rub_faceId b) (rub_updates b ++ [update])) else Err AssertFailed.

(** A callback of the manager is a number, or null. *)
Record UpdateQueueItem := MkUpdateQueueItem {
  uqi_batch : RibUpdateBatch;
  uqi_onSuccess : option Z;
  uqi_onFailure : option Z
}.

(** ** The table

    [m_rib] is an [std::map] by name.  A [shared_ptr] to an entry is the name of
    the entry; every operation follows pointers of entries of the table only. *)

Definition RibTable : Type := list (Name * RibEntry).

(** [m_rib.find(prefix)] *)
Definition table_find (prefix : Name) (t : RibTable) : option RibEntry := snd <$> map_find Name_compare prefix t.

(** The entry behind a pointer, and a change of it *)
Definition deref (p : Name) (t : RibTable) : option RibEntry := snd <$> List.find (fun e => bool_decide (e.1 = p)) t.
Definition modify (p : Name) (f : RibEntry -> RibEntry) (t : RibTable) : RibTable :=
  map (fun e => if decide (e.1 = p) then (e.1, f e.2) else e) t.

(** [RibEntry::addChild], [RibEntry::removeChild] of the entry [p] *)
Definition addChild (p child : Name) (t : RibTable) : result RibTable :=
  match deref child t with
  | None => Err OutOfRange
  | Some c =>
      match re_parent c with
      | Some _ => Err AssertFailed
      | None => Ok (modify p (fun e => setChildren (re_children e ++ [child]) e) (modify child (setParent (Some p)) t))
      end
  end.

Definition removeChild (p child : Name) (t : RibTable) : result RibTable :=
  match deref child t with
  | None => Err OutOfRange
  | Some c =>
      if decide (re_parent c = Some p) then
        Ok (modify p (fun e => setChildren (filter (fun x => x <> child) (re_children e)) e) (modify child (setParent None) t))
      else Err AssertFailed
  end.

(** The loop of [findParent]: [k] is [i + 1]. *)
Fixpoint findParent_loop (prefix : Name) (t : RibTable) (k : nat) : option Name :=
  match k with
  | O => None
  | S i =>
      match table_find (getPrefix prefix (Z.of_nat i)) t with
      | Some e => Some (re_name e)
      | None => findParent_loop prefix t i
      end
  end.
Definition findParent (prefix : Name) (t : RibTable) : option Name := findParent_loop prefix t (length prefix).

(** The loop of [findDescendants] *)
Fixpoint descendants_loop (prefix : Name) (l : RibTable) : list Name :=
  match l with
  | [] => []
  | (n, e) :: l' => if isPrefixOf prefix n then re_name e :: descendants_loop prefix l' else []
  end.
Definition findDescendants (prefix : Name) (t : RibTable) : list Name :=
  match table_find prefix t with
  | None => []
  | Some _ => descendants_loop prefix (tail (from Name_compare prefix t))
  end.

Definition findDescendantsForNonInsertedName (prefix : Name) (t : RibTable) : list Name :=
  map (fun e => re_name e.2) (filter (fun e => isPrefixOf prefix e.1 = true) t).

(** ** Routes that a name inherits *)

(** [RouteSet]: a set ordered by [faceId]; [insert] leaves a route of the face as it is. *)
Fixpoint RouteSet_insert (route : Route) (s : list Route) : list Route :=
  match s with
  | [] => [route]
  | r :: s' =>
      if r_faceId route <? r_faceId r then route :: s
      else if r_faceId r <? r_faceId route then r :: RouteSet_insert route s'
      else s
  end.

Definition RouteSet_find (route : Route) (s : list Route) : option Route := List.find (fun r => r_faceId r =? r_faceId route) s.

(** [for (route : parent->getRoutes()) if (route.isChildInherit()) ancestorRoutes.insert(route)] *)
Definition inherit_from (e : RibEntry) (s : list Route) : list Route :=
  fold_left (fun s r => if isChildInherit r then RouteSet_insert r s else s) (re_routes e) s.

(** [while (parent != nullptr)]; [None] when the fuel runs out *)
Fixpoint ancestor_loop (fuel : nat) (parent : option Name) (t : RibTable) (s : list Route) : option (list Route) :=
  match parent with
  | None => Some s
  | Some p =>
      match fuel with
      | O => None
      | S fuel =>
          match deref p t with
          | None => None
          | Some e =>
              let s := inherit_from e s in
              if hasCapture e then Some s else ancestor_loop fuel (re_parent e) t s
          end
      end
  end.

(** [getAncestorRoutes(entry)] and [getAncestorRoutes(name)]: a chain of parents is
    not longer than the table. *)
Definition getAncestorRoutes (entry : RibEntry) (t : RibTable) : option (list Route) :=
  ancestor_loop (length t) (re_parent entry) t [].
Definition getAncestorRoutes_name (name : Name) (t : RibTable) : option (list Route) :=
  ancestor_loop (length t) (findParent name t) t [].

(** ** The RIB *)

(** What the RIB tells others: events that are cancelled, the two signals,
    callbacks of the manager *)
Inductive RibOutput : Type :=
| Cancelled (event : Z)
| AfterInsertEntry (n : Name)
| AfterEraseEntry (n : Name)
| CalledSuccess (callback : Z)
| CalledFailure (callback code : Z).

(** [rib_inFlight] is the item whose callbacks the FIB updater holds. *)
Record Rib := MkRib {
  m_rib : RibTable;
  m_faceMap : gmap Z (list Name);
  m_nItems : Z;
  m_updateBatches : list UpdateQueueItem;
  m_isUpdateInProgress : bool;
  rib_inFlight : option UpdateQueueItem;
  rib_output : list RibOutput
}.

Definition Rib_new : Rib := MkRib [] ∅ 0 [] false None [].

Definition with_table (t : RibTable) (fm : gmap Z (list Name)) (n : Z) (out : list RibOutput) (r : Rib) : Rib :=
  MkRib t fm n (m_updateBatches r) (m_isUpdateInProgress r) (rib_inFlight r) (rib_output r ++ out).
Definition with_queue (q : list UpdateQueueItem) (busy : bool) (fl : option UpdateQueueItem) (out : list RibOutput) (r : Rib) : Rib :=
  MkRib (m_rib r) (m_faceMap r) (m_nItems r) q busy fl (rib_output r ++ out).

Definition Rib_find (prefix : Name) (r : Rib) : option RibEntry := table_find prefix (m_rib r).

Definition Rib_find_route (prefix : Name) (route : Route) (r : Rib) : option Route :=
  match table_find prefix (m_rib r) with
  | None => None
  | Some e => findRoute route e
  end.

Definition cancel_event (ev : option Z) : list RibOutput := match ev with Some i => [Cancelled i] | None => [] end.

(** [m_faceMap[faceId].push_back(entry)] and [m_faceMap[faceId].remove(entry)] *)
Definition face_push (faceId : Z) (n : Name) (fm : gmap Z (list Name)) : gmap Z (list Name) :=
  <[faceId := default [] (fm !! faceId) ++ [n]]> fm.
Definition face_remove (faceId : Z) (n : Name) (fm : gmap Z (list Name)) : gmap Z (list Name) :=
  <[faceId := filter (fun x => x <> n) (default [] (fm !! faceId))]> fm.

(** The fields of the existing route are replaced; its face and its origin stay. *)
Fixpoint update_route (route : Route) (l : list Route) : list Route :=
  match l with
  | [] => []
  | r :: l' =>
      if compareFaceIdAndOrigin r route then
        MkRoute (r_faceId r) (r_origin r) (r_flags route) (r_cost route) (r_expires route) (r_expirationEvent route) :: l'
      else r :: update_route route l'
  end.

(** [for (child : children) if (child->getParent() == parent)] of [insert] *)
Fixpoint adopt (parent : option Name) (entry : Name) (children : list Name) (t : RibTable) : result RibTable :=
  match children with
  | [] => Ok t
  | child :: children' =>
      match deref child t with
      | None => Err OutOfRange
      | Some c =>
          if decide (re_parent c = parent) then
            let! t := (match parent with Some p => removeChild p child t | None => Ok t end) in
            let! t := addChild entry child t in
            adopt parent entry children' t
          else adopt parent entry children' t
      end
  end.

Definition Rib_insert (prefix : Name) (route : Route) (r : Rib) : result Rib :=
  let t := m_rib r in
  match table_find prefix t with
  | Some entry =>
      match findRoute route entry with
      | None =>
          Ok (with_table (modify (re_name entry) (fun e => (insertRoute route e).1) t) (face_push (r_faceId route) (re_name entry) (m_faceMap r))
                         (to_u64 (m_nItems r + 1)) [] r)
      | Some old =>
          Ok (with_table (modify (re_name entry) (fun e => setRoutes (update_route route (re_routes e)) (re_nRoutesWithCaptureSet e) e) t) (m_faceMap r)
                         (m_nItems r) (cancel_event (r_expirationEvent old)) r)
      end
  | None =>
      let entry := (insertRoute route (setName prefix RibEntry_new)).1 in
      let t := map_assign Name_compare prefix entry t in
      let parent := findParent prefix t in
      let! t := (match parent with Some p => addChild p prefix t | None => Ok t end) in
      let! t := adopt parent prefix (findDescendants prefix t) t in
      Ok (with_table t (face_push (r_faceId route) prefix (m_faceMap r)) (to_u64 (m_nItems r + 1)) [AfterInsertEntry prefix] r)
  end.

(** The loop over the children in [eraseEntry] *)
Fixpoint release (parent : option Name) (entry : Name) (children : list Name) (t : RibTable) : result RibTable :=
  match children with
  | [] => Ok t
  | child :: children' =>
      let! t := removeChild entry child t in
      let! t := (match parent with Some p => addChild p child t | None => Ok t end) in
      release parent entry children' t
  end.

Definition eraseEntry (entry : RibEntry) (t : RibTable) : result RibTable :=
  let n := re_name entry in
  let parent := re_parent entry in
  let! t := (match parent with Some p => removeChild p n t | None => Ok t end) in
  let! t := release parent n (re_children entry) t in
  Ok (map_erase Name_compare n t).

Definition Rib_erase (prefix : Name) (route : Route) (r : Rib) : result Rib :=
  let t := m_rib r in
  match table_find prefix t with
  | None => Ok r
  | Some entry =>
      match findRoute route entry with
      | None => Ok r
      | Some _ =>
          let '(entry', ev) := eraseRoute route entry in
          let t := modify (re_name entry) (fun e => (eraseRoute route e).1) t in
          let fm := if hasFaceId (r_faceId route) entry' then m_faceMap r else face_remove (r_faceId route) (re_name entry) (m_faceMap r) in
          if len (re_routes entry') =? 0 then
            let! t := eraseEntry entry' t in
            Ok (with_table t fm (to_u64 (m_nItems r - 1)) (cancel_event ev ++ [AfterEraseEntry (re_name entry)]) r)
          else Ok (with_table t fm (to_u64 (m_nItems r - 1)) (cancel_event ev) r)
      end
  end.

(** [findRoutesWithFaceId] *)
Definition routes_of (faceId : Z) (t : RibTable) (n : Name) : list (Name * Route) :=
  match deref n t with
  | None => []
  | Some e => map (fun route => (re_name e, route)) (filter (fun route => r_faceId route = faceId) (re_routes e))
  end.
Definition findRoutesWithFaceId (faceId : Z) (r : Rib) : list (Name * Route) :=
  match m_faceMap r !! faceId with
  | None => []
  | Some l => flat_map (routes_of faceId (m_rib r)) l
  end.

(** [modifyInheritedRoutes] *)
Fixpoint modifyInheritedRoutes (l : list RibUpdate) (t : RibTable) : result RibTable :=
  match l with
  | [] => Ok t
  | u :: l' =>
      match table_find (ru_name u) t with
      | None => Err AssertFailed
      | Some e =>
          match ru_action u with
          | REGISTER => modifyInheritedRoutes l' (modify (re_name e) (addInheritedRoute (ru_route u)) t)
          | UNREGISTER =>
              let! e' := removeInheritedRoute (ru_route u) e in
              modifyInheritedRoutes l' (modify (re_name e) (fun _ => e') t)
          | REMOVE_FACE => modifyInheritedRoutes l' t
          end
      end
  end.

(** ** The queue of updates *)

Definition addUpdateToQueue (update : RibUpdate) (onSuccess onFailure : option Z) (r : Rib) : result Rib :=
  let! batch := RibUpdateBatch_add update (RibUpdateBatch_new (r_faceId (ru_route update))) in
  Ok (with_queue (m_updateBatches r ++ [MkUpdateQueueItem batch onSuccess onFailure]) (m_isUpdateInProgress r) (rib_inFlight r) [] r).

(** [sendBatchFromQueue]: the FIB updater gets the batch; its answer is a later
    call of [onFibUpdateSuccess] or [onFibUpdateFailure]. *)
Definition sendBatchFromQueue (r : Rib) : result Rib :=
  match m_updateBatches r with
  | [] => Ok r
  | item :: q =>
      if m_isUpdateInProgress r then Ok r
      else if len (rub_updates (uqi_batch item)) =? 1 then Ok (with_queue q true (Some item) [] r)
      else Err AssertFailed
  end.

Definition beginApplyUpdate (update : RibUpdate) (onSuccess onFailure : option Z) (r : Rib) : result Rib :=
  let! r := addUpdateToQueue update onSuccess onFailure r in
  sendBatchFromQueue r.

Fixpoint queue_removals (l : list (Name * Route)) (r : Rib) : result Rib :=
  match l with
  | [] => Ok r
  | (n, route) :: l' =>
      let! r := addUpdateToQueue (MkRibUpdate REMOVE_FACE n route) None None r in
      queue_removals l' r
  end.

Definition beginRemoveFace (faceId : Z) (r : Rib) : result Rib :=
  let! r := queue_removals (findRoutesWithFaceId faceId r) r in
  sendBatchFromQueue r.

Definition onRouteExpiration (prefix : Name) (route : Route) (r : Rib) : result Rib :=
  beginApplyUpdate (MkRibUpdate UNREGISTER prefix route) None None r.

Fixpoint apply_batch (l : list RibUpdate) (r : Rib) : result Rib :=
  match l with
  | [] => Ok r
  | u :: l' =>
      let! r := (match ru_action u with
                 | REGISTER => Rib_insert (ru_name u) (ru_route u) r
                 | UNREGISTER | REMOVE_FACE => Rib_erase (ru_name u) (ru_route u) r
                 end) in
      apply_batch l' r
  end.

Definition onFibUpdateSuccess (batch : RibUpdateBatch) (inheritedRoutes : list RibUpdate) (onSuccess : option Z) (r : Rib) : result Rib :=
  let! r := apply_batch (rub_updates batch) r in
  let! t := modifyInheritedRoutes inheritedRoutes (m_rib r) in
  let r := with_table t (m_faceMap r) (m_nItems r) [] r in
  let out := match onSuccess with Some c => [CalledSuccess c] | None => [] end in
  sendBatchFromQueue (with_queue (m_updateBatches r) false None out r).

Definition onFibUpdateFailure (onFailure : option Z) (code : Z) (r : Rib) : result Rib :=
  let out := match onFailure with Some c => [CalledFailure c code] | None => [] end in
  sendBatchFromQueue (with_queue (m_updateBatches r) false None out r).
