(* ===== verification/RibTree.v ===== *)
(** * The tree of the RIB

    Every operation of [Rib] keeps the entries in a tree in which the parent of
    an entry is the entry of the longest proper prefix of its name. *)

From S2P Require Import Prelude StdMap Tlv NameComponent Name Packet CsEntry RibEntry Rib.

(** ** Pointers into the table *)

Definition keys (t : RibTable) : list Name := map fst t.

Lemma deref_cons k e t : deref k (e :: t) = if decide (e.1 = k) then Some e.2 else deref k t.
Proof. unfold deref. cbn [List.find]. case_bool_decide; destruct (decide _); done. Qed.

Lemma deref_app k t1 t2 : deref k (t1 ++ t2) = match deref k t1 with Some e => Some e | None => deref k t2 end.
Proof. induction t1 as [|x t1 IH]; [done|]. cbn [app]. rewrite !deref_cons. by destruct (decide _). Qed.

Lemma deref_absent k t : deref k t = None <-> k ∉ keys t.
Proof.
  induction t as [|x t IH]; [split; [intros _; apply not_elem_of_nil|done]|]. rewrite deref_cons. cbn [keys map]. rewrite not_elem_of_cons, <- IH.
  destruct (decide (x.1 = k)); [|naive_solver]. split; [done|]. naive_solver.
Qed.

Lemma deref_is_Some k t : is_Some (deref k t) <-> k ∈ keys t.
Proof. rewrite <- not_eq_None_Some, deref_absent. destruct (decide (k ∈ keys t)); naive_solver. Qed.

Lemma deref_key k t e : deref k t = Some e -> k ∈ keys t.
Proof. intros H. apply deref_is_Some. by rewrite H. Qed.

Lemma deref_modify p f t k : deref k (modify p f t) = if decide (k = p) then f <$> deref k t else deref k t.
Proof.
  induction t as [|x t IH]; [by destruct (decide _)|]. cbn [modify map]. rewrite !deref_cons. fold (modify p f t). rewrite IH.
  destruct (decide (x.1 = p)) as [Hp|Hp]; cbn [fst snd]; destruct (decide (x.1 = k)) as [Hk|Hk]; try done.
  - rewrite decide_True by congruence. done.
  - rewrite decide_False by congruence. done.
Qed.

Lemma keys_modify p f t : keys (modify p f t) = keys t.
Proof. unfold keys, modify. rewrite map_map. apply map_ext. intros x. by destruct (decide _). Qed.

(** ** Sorted tables *)

(** The names of a RIB: [findParent] counts components in an [int]. *)
Definition rib_name (n : Name) : Prop := gen_name n /\ len n < 2 ^ 31.
#[global] Instance rib_name_dec n : Decision (rib_name n).
Proof. unfold rib_name. apply _. Defined.

Definition keys_sorted (l : list Name) : Prop := StronglySorted (fun a b => Name_compare a b < 0) l.
Definition keys_ok (l : list Name) : Prop := keys_sorted l /\ Forall rib_name l.

Lemma sorted_map_keys t : sorted_map Name_compare t <-> keys_sorted (keys t).
Proof.
  unfold sorted_map, keys_sorted, keys. induction t as [|x t IH]; cbn [map]; [split; constructor|].
  split; intros [H1 H2]%StronglySorted_inv; (constructor; [by apply IH|]); by rewrite Forall_map in *.
Qed.

Lemma rib_name_bytes n : rib_name n -> bytes_name n.
Proof. intros [? _]. by apply gen_name_bytes. Qed.
#[export] Hint Resolve rib_name_bytes : ndn.

Lemma keys_ok_split t : keys_ok (keys t) -> sorted_map Name_compare t /\ keys_in (P := bytes_name) t.
Proof.
  intros [Hs Hn]. split; [by apply sorted_map_keys|]. unfold keys in Hn. rewrite Forall_map in Hn. eapply Forall_impl; [exact Hn|]. intros x.
  apply rib_name_bytes.
Qed.

Lemma keys_ok_name l n : keys_ok l -> n ∈ l -> rib_name n.
Proof. intros [_ Hn] Hin. rewrite Forall_forall in Hn. by apply Hn. Qed.

Lemma keys_sorted_NoDup l : keys_sorted l -> NoDup l.
Proof.
  induction l as [|x l IH]; [constructor|]. intros [Hs Hf]%StronglySorted_inv. constructor; [|by apply IH].
  intros Hin. rewrite Forall_forall in Hf. specialize (Hf x Hin). rewrite cmp_refl in Hf. lia.
Qed.

Lemma deref_before k t : deref k (before Name_compare k t) = None.
Proof.
  apply deref_absent. intros Hin. unfold keys in Hin. apply list_elem_of_fmap in Hin as (x&->&Hx).
  pose proof (before_lt (cmp := Name_compare) x.1 t) as Hf. rewrite Forall_forall in Hf. specialize (Hf x Hx). rewrite cmp_refl in Hf. lia.
Qed.

Lemma deref_split k x t :
  deref x t = match deref x (before Name_compare k t) with Some e => Some e | None => deref x (from Name_compare k t) end.
Proof. by rewrite <- deref_app, before_from. Qed.

(** The entry at the lower bound is the only one that can have the name. *)
Lemma deref_from k t : keys_ok (keys t) -> rib_name k ->
  deref k t = match from Name_compare k t with e :: _ => if decide (e.1 = k) then Some e.2 else None | [] => None end.
Proof.
  intros Hok Hk. destruct (keys_ok_split t Hok) as [Hs Hin]. rewrite <- (before_from (cmp := Name_compare) k t) at 1.
  rewrite deref_app, deref_before. destruct (sorted_split t k Hs) as [_ Hs2]. destruct (keys_split (P := bytes_name) (cmp := Name_compare) t k Hin) as [_ Hin2].
  pose proof (from_ge (P := bytes_name) k t Hin (rib_name_bytes _ Hk) Hs) as Hge.
  destruct (from Name_compare k t) as [|e l]; [done|]. rewrite deref_cons. destruct (decide (e.1 = k)) as [|Hne]; [done|]. apply deref_absent. intros Hk2.
  apply sorted_cons in Hs2 as [_ Hlt]. apply list_elem_of_fmap in Hk2 as (x&->&Hx). rewrite Forall_forall in Hlt. specialize (Hlt x Hx).
  apply Forall_cons in Hge as [He _]. apply Forall_cons in Hin2 as [Hbe Hbl]. rewrite Forall_forall in Hbl. lia.
Qed.

Lemma table_find_deref k t : keys_ok (keys t) -> rib_name k -> table_find k t = deref k t.
Proof.
  intros Hok Hk. rewrite (deref_from k t Hok Hk). unfold table_find, map_find, lower_bound, key_lt.
  destruct (keys_ok_split t Hok) as [Hs Hin]. pose proof (from_ge (P := bytes_name) k t Hin (rib_name_bytes _ Hk) Hs) as Hge.
  destruct (keys_split (P := bytes_name) (cmp := Name_compare) t k Hin) as [_ Hin2].
  destruct (from Name_compare k t) as [|e l]; [done|]. cbn [head]. apply Forall_cons in Hge as [He _]. apply Forall_cons in Hin2 as [Hbe _].
  destruct (Z.ltb_spec (Name_compare k e.1) 0) as [Hlt|Hge].
  - destruct (decide (e.1 = k)) as [Heq|]; [|done]. rewrite Heq, cmp_refl in Hlt. lia.
  - destruct (decide (e.1 = k)) as [|Hne]; [done|]. exfalso. apply Hne.
    apply (cmp_eq (P := bytes_name) (cmp := Name_compare)); [done|by apply rib_name_bytes|].
    pose proof (cmp_anti (P := bytes_name) (cmp := Name_compare) e.1 k Hbe (rib_name_bytes _ Hk)). lia.
Qed.

(** ** A new entry, and the end of an entry *)

Lemma assign_new k v t : keys_ok (keys t) -> rib_name k -> deref k t = None ->
  map_assign Name_compare k v t = before Name_compare k t ++ (k, v) :: from Name_compare k t.
Proof.
  intros Hok Hk Hn. rewrite <- table_find_deref in Hn by done. unfold table_find in Hn. unfold map_assign, map_insert.
  destruct (map_find Name_compare k t); done.
Qed.

Lemma deref_assign k v t x : keys_ok (keys t) -> rib_name k -> deref k t = None ->
  deref x (map_assign Name_compare k v t) = if decide (x = k) then Some v else deref x t.
Proof.
  intros Hok Hk Hn. rewrite (assign_new k v t Hok Hk Hn), (deref_split k x t), deref_app, deref_cons.
  cbn [fst snd]. destruct (decide (x = k)) as [->|Hx]; [by rewrite deref_before, decide_True|]. by rewrite decide_False by congruence.
Qed.

Lemma keys_assign k v t : keys_ok (keys t) -> rib_name k -> deref k t = None -> keys (map_assign Name_compare k v t) ≡ₚ k :: keys t.
Proof.
  intros Hok Hk Hn. rewrite (assign_new k v t Hok Hk Hn). unfold keys. rewrite map_app. cbn [map fst]. rewrite <- Permutation_middle.
  by rewrite <- map_app, before_from.
Qed.

Lemma keys_ok_assign k v t : keys_ok (keys t) -> rib_name k -> deref k t = None -> keys_ok (keys (map_assign Name_compare k v t)).
Proof.
  intros Hok Hk Hn. split; [|rewrite (keys_assign k v t Hok Hk Hn); constructor; [done|apply Hok]].
  rewrite (assign_new k v t Hok Hk Hn). apply sorted_map_keys. destruct (keys_ok_split t Hok) as [Hs Hin].
  pose proof (rib_name_bytes _ Hk) as Hb. pose proof (from_ge (P := bytes_name) k t Hin Hb Hs) as Hge.
  pose proof (deref_from k t Hok Hk) as Hfr. rewrite Hn in Hfr.
  pose proof (before_lt (cmp := Name_compare) k t) as Hlt. pose proof Hs as Hs'. rewrite <- (before_from (cmp := Name_compare) k t) in Hs', Hin.
  apply sorted_app in Hs' as (Hs1&Hs2&Hcr). apply Forall_app in Hin as [Hi1 Hi2]. apply sorted_app. split_and!; [done| |].
  - apply sorted_cons. split; [done|]. destruct (from Name_compare k t) as [|e l]; [constructor|]. cbn [fst].
    apply Forall_cons in Hge as [He _]. apply Forall_cons in Hi2 as [Hbe Hbl]. apply sorted_cons in Hs2 as [_ Hel].
    assert (Hke : Name_compare k e.1 < 0).
    { pose proof (cmp_anti (P := bytes_name) (cmp := Name_compare) e.1 k Hbe Hb). destruct (decide (e.1 = k)); [done|].
      destruct (Z.eq_dec (Name_compare e.1 k) 0) as [Hz|]; [apply (cmp_eq (P := bytes_name)) in Hz; done|]. lia. }
    constructor; [done|]. rewrite Forall_forall in *. intros x Hx. apply (cmp_trans (P := bytes_name) k e.1 x.1); auto.
  - rewrite Forall_forall in *. intros x Hx. constructor; [by apply Hlt|]. by apply Hcr.
Qed.

Lemma from_key k t : keys_ok (keys t) -> k ∈ keys t -> exists v l, from Name_compare k t = (k, v) :: l.
Proof.
  intros Hok Hin. pose proof (deref_from k t Hok (keys_ok_name _ _ Hok Hin)) as Hd. apply deref_is_Some in Hin as [v Hv]. rewrite Hv in Hd.
  destruct (from Name_compare k t) as [|[k' v'] l]; [done|]. cbn [fst] in Hd. destruct (decide (k' = k)) as [->|]; [by exists v', l|done].
Qed.

Lemma table_keys_erase k t : keys_ok (keys t) -> k ∈ keys t -> keys t ≡ₚ k :: keys (map_erase Name_compare k t).
Proof.
  intros Hok Hin. destruct (from_key k t Hok Hin) as (v&l&Hf). unfold map_erase. rewrite <- (before_from (cmp := Name_compare) k t) at 1.
  rewrite Hf. unfold keys. rewrite !map_app. cbn [map tail fst]. by rewrite Permutation_middle.
Qed.

Lemma deref_erase k t x : keys_ok (keys t) -> k ∈ keys t ->
  deref x (map_erase Name_compare k t) = if decide (x = k) then None else deref x t.
Proof.
  intros Hok Hin. destruct (from_key k t Hok Hin) as (v&l&Hf). destruct (decide (x = k)) as [->|Hx].
  - apply deref_absent. pose proof (table_keys_erase k t Hok Hin) as Hp. apply NoDup_Permutation_proper in Hp.
    assert (Hd : NoDup (keys t)) by apply keys_sorted_NoDup, Hok. apply Hp in Hd. by apply NoDup_cons in Hd as [? _].
  - rewrite (deref_split k x t). unfold map_erase. rewrite Hf, deref_app, deref_cons. cbn [tail fst].
    by rewrite decide_False by congruence.
Qed.

Lemma keys_ok_erase k t : keys_ok (keys t) -> k ∈ keys t -> keys_ok (keys (map_erase Name_compare k t)).
Proof.
  intros Hok Hin. pose proof (table_keys_erase k t Hok Hin) as Hp. split.
  - destruct (from_key k t Hok Hin) as (v&l&Hf). apply sorted_map_keys. destruct (keys_ok_split t Hok) as [Hs _].
    rewrite <- (before_from (cmp := Name_compare) k t), Hf in Hs. unfold map_erase. rewrite Hf. cbn [tail].
    apply sorted_app in Hs as (?&Hs2&Hcr). apply sorted_cons in Hs2 as [? _]. apply sorted_app. split_and!; [done..|].
    eapply Forall_impl; [exact Hcr|]. intros x Hx. by apply Forall_cons in Hx as [_ ?].
  - destruct Hok as [_ Hn]. rewrite Hp in Hn. by apply Forall_cons in Hn as [_ ?].
Qed.

(** ** Links between entries *)

(** What [addChild] and [removeChild] leave alone *)
Definition body (e : RibEntry) : Name * list Route * list Route * Z :=
  (re_name e, re_routes e, re_inheritedRoutes e, re_nRoutesWithCaptureSet e).

Definition body_at (t : RibTable) (k : Name) := body <$> deref k t.
Definition parent_at (t : RibTable) (k : Name) : option (option Name) := re_parent <$> deref k t.

(** The children of an entry are the entries whose parent it is. *)
Definition linked (t : RibTable) : Prop :=
  (forall x e, deref x t = Some e -> NoDup (re_children e) /\ forall c, c ∈ re_children e <-> parent_at t c = Some (Some x)) /\
  (forall c x, parent_at t c = Some (Some x) -> x ∈ keys t).

(** [t'] is [t] with other links. *)
Record relinks (t t' : RibTable) (f : Name -> option (option Name)) : Prop := {
  relinks_keys : keys t' = keys t;
  relinks_body k : body_at t' k = body_at t k;
  relinks_parent k : parent_at t' k = f k;
  relinks_linked : linked t'
}.

Lemma parent_at_modify p f t k : (forall e, re_parent (f e) = re_parent e) -> parent_at (modify p f t) k = parent_at t k.
Proof. intros Hf. unfold parent_at. rewrite deref_modify. destruct (decide _); [|done]. destruct (deref k t); [|done]. cbn. by rewrite Hf. Qed.

Lemma parent_at_setParent c o t k :
  parent_at (modify c (setParent o) t) k = if decide (k = c) then const o <$> deref k t else parent_at t k.
Proof. unfold parent_at. rewrite deref_modify. destruct (decide _); [|done]. by destruct (deref k t). Qed.

Lemma body_at_modify p f t k : (forall e, body (f e) = body e) -> body_at (modify p f t) k = body_at t k.
Proof. intros Hf. unfold body_at. rewrite deref_modify. destruct (decide _); [|done]. destruct (deref k t); [|done]. cbn. by rewrite Hf. Qed.

Lemma addChild_relinks p c t : linked t -> parent_at t c = Some None -> p ∈ keys t ->
  exists t', addChild p c t = Ok t' /\ relinks t t' (fun k => if decide (k = c) then Some (Some p) else parent_at t k).
Proof.
  intros [Hl He] Hc Hp. unfold addChild. unfold parent_at in Hc. destruct (deref c t) as [ce|] eqn:Hd; [|done]. cbn in Hc. injection Hc as Hce. rewrite Hce.
  eexists. split; [done|].
  assert (Hpar : forall k, parent_at (modify p (fun e => setChildren (re_children e ++ [c]) e) (modify c (setParent (Some p)) t)) k
                           = if decide (k = c) then Some (Some p) else parent_at t k).
  { intros k. rewrite parent_at_modify, parent_at_setParent by done. destruct (decide (k = c)) as [->|]; [by rewrite Hd|done]. }
  constructor; [by rewrite !keys_modify| |exact Hpar|].
  - intros k. by rewrite !body_at_modify.
  - split.
    + intros x e. rewrite !deref_modify. intros Hx. setoid_rewrite Hpar.
      assert (exists e0, deref x t = Some e0 /\ re_children e = if decide (x = p) then re_children e0 ++ [c] else re_children e0) as (e0&He0&->).
      { destruct (decide (x = p)), (decide (x = c)); destruct (deref x t) as [y|]; try done; exists y; split; try done;
          cbn in Hx; by injection Hx as <-. }
      destruct (Hl x e0 He0) as [Hnd Hiff].
      assert (Hcx : c ∉ re_children e0) by (rewrite Hiff; unfold parent_at; rewrite Hd; cbn; congruence).
      destruct (decide (x = p)) as [->|Hxp].
      * split; [apply NoDup_app; split_and!; [done| |apply NoDup_singleton]; intros y Hy ->%list_elem_of_singleton; done|].
        intros k. rewrite elem_of_app, list_elem_of_singleton, Hiff. destruct (decide (k = c)) as [->|]; naive_solver.
      * split; [done|]. intros k. rewrite Hiff. destruct (decide (k = c)) as [->|]; [|done].
        split; [|intros [= ->]; done]. unfold parent_at. rewrite Hd. cbn. congruence.
    + intros k x. rewrite Hpar, !keys_modify. destruct (decide (k = c)); [by intros [= <-]|apply He].
Qed.

Lemma removeChild_relinks p c t : linked t -> parent_at t c = Some (Some p) ->
  exists t', removeChild p c t = Ok t' /\ relinks t t' (fun k => if decide (k = c) then Some None else parent_at t k).
Proof.
  intros [Hl He] Hc. unfold removeChild. pose proof Hc as Hc'. unfold parent_at in Hc. destruct (deref c t) as [ce|] eqn:Hd; [|done]. cbn in Hc.
  injection Hc as Hce. rewrite decide_True by done. eexists. split; [done|].
  assert (Hpar : forall k, parent_at (modify p (fun e => setChildren (filter (fun x => x <> c) (re_children e)) e) (modify c (setParent None) t)) k
                           = if decide (k = c) then Some None else parent_at t k).
  { intros k. rewrite parent_at_modify, parent_at_setParent by done. destruct (decide (k = c)) as [->|]; [by rewrite Hd|done]. }
  constructor; [by rewrite !keys_modify| |exact Hpar|].
  - intros k. by rewrite !body_at_modify.
  - split.
    + intros x e. rewrite !deref_modify. intros Hx. setoid_rewrite Hpar.
      assert (exists e0, deref x t = Some e0 /\ re_children e = if decide (x = p) then filter (fun y => y <> c) (re_children e0) else re_children e0)
        as (e0&He0&->).
      { destruct (decide (x = p)), (decide (x = c)); destruct (deref x t) as [y|]; try done; exists y; split; try done;
          cbn in Hx; by injection Hx as <-. }
      destruct (Hl x e0 He0) as [Hnd Hiff]. destruct (decide (x = p)) as [->|Hxp].
      * split; [by apply NoDup_filter|]. intros k. rewrite list_elem_of_filter, Hiff. destruct (decide (k = c)); naive_solver.
      * split; [done|]. intros k. rewrite Hiff. destruct (decide (k = c)) as [->|]; [|done]. rewrite Hc'. naive_solver.
    + intros k x. rewrite Hpar, !keys_modify. destruct (decide (k = c)); [done|apply He].
Qed.

Lemma relinks_trans t1 t2 t3 f g : relinks t1 t2 f -> relinks t2 t3 g -> relinks t1 t3 g.
Proof. intros [? Hb ? ?] [? Hb' ? ?]. constructor; [congruence|intros k; by rewrite Hb', Hb|done|done]. Qed.

Lemma relinks_ext t t' f g : (forall k, f k = g k) -> relinks t t' f -> relinks t t' g.
Proof. intros Hf [? ? Hp ?]. constructor; [done|done|intros k; by rewrite Hp|done]. Qed.

Lemma relinks_refl t : linked t -> relinks t t (parent_at t).
Proof. by constructor. Qed.

(** A child that moves from the parent to the entry *)
Lemma move_child o n c t : linked t -> parent_at t c = Some o -> n ∈ keys t ->
  exists t', (let! t := (match o with Some p => removeChild p c t | None => Ok t end) in addChild n c t) = Ok t' /\
    relinks t t' (fun k => if decide (k = c) then Some (Some n) else parent_at t k).
Proof.
  intros Hl Hc Hn. destruct o as [p|].
  - destruct (removeChild_relinks p c t Hl Hc) as (t1&->&H1). cbn [rbind].
    destruct (addChild_relinks n c t1 (relinks_linked _ _ _ H1)) as (t2&->&H2);
      [by rewrite (relinks_parent _ _ _ H1), decide_True|by rewrite (relinks_keys _ _ _ H1)|].
    eexists. split; [done|]. eapply relinks_ext; [|eapply relinks_trans; eassumption]. intros k. cbv beta. rewrite (relinks_parent _ _ _ H1).
    by destruct (decide (k = c)).
  - cbn [rbind]. by apply addChild_relinks.
Qed.

(** [adopt] moves the entries of the list whose parent was the parent of the entry. *)
Lemma adopt_relinks o n cs : forall t, linked t -> n ∈ keys t -> NoDup cs -> (forall c, c ∈ cs -> c ∈ keys t) -> (forall q, o = Some q -> q <> n) ->
  exists t', adopt o n cs t = Ok t' /\
    relinks t t' (fun k => if decide (k ∈ cs /\ parent_at t k = Some o) then Some (Some n) else parent_at t k).
Proof.
  induction cs as [|c cs IH]; intros t Hl Hn Hd Hk Ho; cbn [adopt].
  { exists t. split; [done|]. eapply relinks_ext; [|by apply relinks_refl]. intros k. rewrite decide_False; [done|]. by intros [?%elem_of_nil _]. }
  apply NoDup_cons in Hd as [Hc Hd]. assert (Hck : c ∈ keys t) by (apply Hk; by left). apply deref_is_Some in Hck as [ce Hce]. rewrite Hce.
  destruct (decide (re_parent ce = o)) as [Hpo|Hpo].
  - assert (Hco : parent_at t c = Some o) by (unfold parent_at; rewrite Hce; cbn; by rewrite Hpo).
    destruct (move_child o n c t Hl Hco Hn) as (t1&Hm&H1). apply rbind_Ok in Hm as (t0&->&Hm). cbn [rbind]. rewrite Hm. cbn [rbind].
    destruct (IH t1) as (t2&->&H2); [apply H1|by rewrite (relinks_keys _ _ _ H1)|done| |done|].
    { intros x Hx. rewrite (relinks_keys _ _ _ H1). apply Hk. by right. }
    eexists. split; [done|]. eapply relinks_ext; [|eapply relinks_trans; eassumption]. intros k. cbv beta. rewrite !(relinks_parent _ _ _ H1).
    destruct (decide (k = c)) as [->|Hkc].
    + rewrite (decide_False (P := c ∈ cs /\ _)) by tauto. rewrite decide_True; [done|]. split; [by left|done].
    + destruct (decide (k ∈ cs /\ _)) as [Ha|Ha], (decide (k ∈ c :: cs /\ _)) as [Hb|Hb]; try done; rewrite elem_of_cons in Hb; tauto.
  - destruct (IH t) as (t2&->&H2); [done..| |done|].
    { intros x Hx. apply Hk. by right. }
    eexists. split; [done|]. eapply relinks_ext; [|exact H2]. intros k. cbv beta.
    assert (Hnc : parent_at t c <> Some o) by (unfold parent_at; rewrite Hce; cbn; congruence).
    destruct (decide (k ∈ cs /\ _)) as [Ha|Ha], (decide (k ∈ c :: cs /\ _)) as [Hb|Hb]; try done; rewrite elem_of_cons in Hb.
    + tauto.
    + exfalso. destruct Hb as [[->|Hb] Hb2]; tauto.
Qed.

(** [release] gives the children of the entry to its parent. *)
Lemma release_relinks o n cs : forall t, linked t -> NoDup cs -> (forall c, c ∈ cs -> parent_at t c = Some (Some n)) -> (forall p, o = Some p -> p ∈ keys t) ->
  exists t', release o n cs t = Ok t' /\ relinks t t' (fun k => if decide (k ∈ cs) then Some o else parent_at t k).
Proof.
  induction cs as [|c cs IH]; intros t Hl Hd Hc Ho; cbn [release].
  { exists t. split; [done|]. eapply relinks_ext; [|by apply relinks_refl]. intros k. rewrite decide_False; [done|]. apply not_elem_of_nil. }
  apply NoDup_cons in Hd as [Hnc Hd].
  destruct (removeChild_relinks n c t Hl) as (t1&->&H1); [apply Hc; by left|]. cbn [rbind].
  assert (exists t2, (match o with Some p => addChild p c t1 | None => Ok t1 end) = Ok t2 /\
            relinks t t2 (fun k => if decide (k = c) then Some o else parent_at t k)) as (t2&->&H2).
  { destruct o as [p|]; [|exists t1; split; [done|exact H1]].
    destruct (addChild_relinks p c t1 (relinks_linked _ _ _ H1)) as (t2&->&H2);
      [by rewrite (relinks_parent _ _ _ H1), decide_True|rewrite (relinks_keys _ _ _ H1); by apply Ho|].
    eexists. split; [done|]. eapply relinks_ext; [|eapply relinks_trans; eassumption]. intros k. cbv beta. rewrite (relinks_parent _ _ _ H1).
    by destruct (decide (k = c)). }
  cbn [rbind]. destruct (IH t2) as (t3&->&H3); [apply H2|done| | |].
  - intros x Hx. rewrite (relinks_parent _ _ _ H2). rewrite decide_False by congruence. apply Hc. by right.
  - intros p Hp. rewrite (relinks_keys _ _ _ H2). by apply Ho.
  - eexists. split; [done|]. eapply relinks_ext; [|eapply relinks_trans; eassumption]. intros k. cbv beta. rewrite (relinks_parent _ _ _ H2).
    destruct (decide (k ∈ cs)) as [Ha|Ha], (decide (k = c)) as [Hb|Hb], (decide (k ∈ c :: cs)) as [Hx|Hx]; try done;
      rewrite elem_of_cons in Hx; tauto.
Qed.

(** ** Longest proper prefixes *)

Definition under (p n : Name) : Prop := p `prefix_of` n /\ p <> n.

(** [o] is the longest of the [names] that are proper prefixes of [n]. *)
Definition is_parent (names : list Name) (n : Name) (o : option Name) : Prop :=
  match o with
  | Some p => p ∈ names /\ under p n /\ forall q, q ∈ names -> under q n -> q `prefix_of` p
  | None => forall q, q ∈ names -> ~ under q n
  end.

Lemma is_parent_unique names n o1 o2 : is_parent names n o1 -> is_parent names n o2 -> o1 = o2.
Proof.
  destruct o1 as [p|], o2 as [q|]; cbn; [|naive_solver..|done]. intros (Hp&Hpn&H1) (Hq&Hqn&H2). f_equal.
  apply (prefix_length_eq p q); [by apply H2|]. apply prefix_length. by apply H1.
Qed.

Lemma under_length p n : under p n -> (length p < length n)%nat.
Proof. intros [[k ->] Hne]. rewrite length_app. destruct k; [by rewrite app_nil_r in Hne|cbn; lia]. Qed.

Lemma under_take p n : under p n -> p = take (length p) n.
Proof. intros [[k ->] _]. by rewrite take_app_length. Qed.

Lemma under_total p q n : under p n -> q `prefix_of` n -> under p q \/ q `prefix_of` p.
Proof.
  intros [Hp _] Hq. destruct (prefix_weak_total p q n Hp Hq) as [H|H]; [|by right]. destruct (decide (p = q)) as [->|]; [by right|by left].
Qed.

Lemma under_trans p q n : under p q -> q `prefix_of` n -> under p n.
Proof.
  intros Hpq Hqn. pose proof (under_length _ _ Hpq). pose proof (prefix_length _ _ Hqn). split; [by transitivity q; [apply Hpq|]|]. intros ->. lia.
Qed.

Lemma findParent_loop_spec n t k : keys_ok (keys t) -> rib_name n -> (k <= length n)%nat -> (forall x e, deref x t = Some e -> re_name e = x) ->
  match findParent_loop n t k with
  | Some p => p ∈ keys t /\ p `prefix_of` n /\ (length p < k)%nat /\ forall q, q ∈ keys t -> q `prefix_of` n -> (length q < k)%nat -> q `prefix_of` p
  | None => forall q, q ∈ keys t -> q `prefix_of` n -> ~ (length q < k)%nat
  end.
Proof.
  intros Hok [Hg Hl] Hk Hnm. induction k as [|i IH]; cbn [findParent_loop]; [intros; lia|].
  rewrite getPrefix_take by (unfold len in *; width_lia). rewrite Nat2Z.id.
  assert (Hti : rib_name (take i n)) by (split; [by apply Forall_take|unfold len in *; rewrite length_take; lia]).
  rewrite table_find_deref by done. assert (Hq : forall q, q `prefix_of` n -> length q = i -> q = take i n).
  { intros q [l ->] <-. by rewrite take_app_length. }
  destruct (deref (take i n) t) as [e|] eqn:He.
  - rewrite (Hnm _ _ He). split_and!; [by eapply deref_key|apply prefix_take|rewrite length_take; lia|]. intros q _ Hqn Hlq.
    destruct (prefix_weak_total q (take i n) n Hqn (prefix_take _ _)) as [H|H]; [done|].
    pose proof (prefix_length _ _ H) as Hlen. rewrite length_take in Hlen. rewrite (Hq q Hqn) by lia. done.
  - apply deref_absent in He. specialize (IH ltac:(lia)). destruct (findParent_loop n t i) as [p|].
    + destruct IH as (?&?&?&Hall). split_and!; [done|done|lia|]. intros q Hqt Hqn Hlq. apply Hall; [done..|].
      destruct (decide (length q = i)) as [Hli|]; [|lia]. rewrite (Hq q Hqn Hli) in Hqt. done.
    + intros q Hqt Hqn Hlq. apply (IH q Hqt Hqn). destruct (decide (length q = i)) as [Hli|]; [|lia]. by rewrite (Hq q Hqn Hli) in Hqt.
Qed.

Lemma findParent_spec n t : keys_ok (keys t) -> rib_name n -> (forall x e, deref x t = Some e -> re_name e = x) -> is_parent (keys t) n (findParent n t).
Proof.
  intros Hok Hn Hnm. pose proof (findParent_loop_spec n t (length n) Hok Hn (le_n _) Hnm) as Hs. unfold findParent, is_parent.
  destruct (findParent_loop n t (length n)) as [p|].
  - destruct Hs as (?&?&Hl&Hall). split_and!; [done|split; [done|intros ->; lia]|]. intros q Hq Hu. apply Hall; [done|apply Hu|by apply under_length].
  - intros q Hq Hu. apply (Hs q Hq); [apply Hu|by apply under_length].
Qed.

(** ** Names below a prefix *)

Lemma isPrefixOf_iff p n : rib_name p -> rib_name n -> isPrefixOf p n = true <-> p `prefix_of` n.
Proof.
  intros [Hp _] [Hn _]. split; [by apply isPrefixOf_gen|]. intros [k ->]. unfold isPrefixOf. rewrite (proj2 (Z.ltb_ge _ _)) by (rewrite len_app; pose proof (len_nonneg k); lia).
  clear. induction p as [|c p IH]; [by destruct k|]. cbn [app components_match]. by rewrite (proj2 (equals_value c c)).
Qed.

Lemma descendants_loop_spec n l : rib_name n -> (forall x e, (x, e) ∈ l -> re_name e = x) -> keys_ok (keys l) -> Forall (fun x => Name_compare n x < 0) (keys l) ->
  exists a b, keys l = a ++ b /\ descendants_loop n l = a /\ Forall (fun x => n `prefix_of` x) a /\ Forall (fun x => ~ n `prefix_of` x) b.
Proof.
  intros Hn Hnm [Hs Hf] Hlt. induction l as [|[x e] l IH]; cbn [descendants_loop].
  { exists [], []. split_and!; [done..|constructor|constructor]. }
  cbn [keys map fst] in *. fold (keys l) in *. apply StronglySorted_inv in Hs as [Hs Hx]. apply Forall_cons in Hf as [Hnx Hf]. apply Forall_cons in Hlt as [Hx0 Hlt].
  destruct (isPrefixOf n x) eqn:Hp.
  - apply isPrefixOf_iff in Hp; [|done..]. destruct IH as (a&b&Hk&->&Ha&Hb); [intros y z Hy; apply Hnm; by right|done..|].
    exists (x :: a), b. rewrite Hk, (Hnm x e) by by left. split_and!; [done|done|by constructor|done].
  - assert (Hnp : ~ n `prefix_of` x) by (rewrite <- isPrefixOf_iff by done; by rewrite Hp).
    exists [], (x :: keys l). split_and!; [done|done|constructor|]. constructor; [done|]. rewrite Forall_forall in *. intros y Hy Hny. apply Hnp.
    apply (prefix_between n x y); [by apply rib_name_bytes|by apply rib_name_bytes|done|lia|]. specialize (Hx y Hy). lia.
Qed.

Lemma findDescendants_spec n t : keys_ok (keys t) -> n ∈ keys t -> (forall x e, deref x t = Some e -> re_name e = x) ->
  NoDup (findDescendants n t) /\ forall x, x ∈ findDescendants n t <-> x ∈ keys t /\ under n x.
Proof.
  intros Hok Hn Hnm. pose proof (keys_ok_name _ _ Hok Hn) as Hrn. unfold findDescendants. rewrite table_find_deref by done.
  pose proof Hn as [en ->]%deref_is_Some. destruct (from_key n t Hok Hn) as (v&l&Hf). rewrite Hf. cbn [tail].
  pose proof (before_from (cmp := Name_compare) n t) as Ht. rewrite Hf in Ht.
  assert (Hkeys : keys t = keys (before Name_compare n t) ++ n :: keys l) by (rewrite <- Ht at 1; unfold keys; by rewrite map_app).
  pose proof (keys_sorted_NoDup _ (proj1 Hok)) as Hnd.
  assert (Hel : forall x e, (x, e) ∈ l -> re_name e = x).
  { intros x e Hx. apply Hnm. rewrite (deref_split n x t), Hf, deref_cons. cbn [fst snd].
    assert (Hxl : x ∈ keys l) by (apply list_elem_of_fmap; by exists (x, e)). rewrite Hkeys in Hnd. apply NoDup_app in Hnd as (_&Hdis&Hnl).
    apply NoDup_cons in Hnl as [Hnl Hndl]. rewrite (proj2 (deref_absent x _)); [|intros Hb; apply (Hdis x Hb); by right].
    rewrite decide_False by (intros ->; done). clear -Hx Hndl. induction l as [|[y z] l IH]; [by apply elem_of_nil in Hx|].
    rewrite deref_cons. cbn [keys map fst] in Hndl. apply NoDup_cons in Hndl as [Hy Hndl]. apply elem_of_cons in Hx as [[= -> ->]|Hx]; [by rewrite decide_True|].
    rewrite decide_False; [by apply IH|]. cbn. intros ->. apply Hy. apply list_elem_of_fmap. by exists (x, e). }
  destruct Hok as [Hs Hfr]. rewrite Hkeys in Hs, Hfr. apply Forall_app in Hfr as [Hf1 Hf2]. apply Forall_cons in Hf2 as [_ Hf2].
  assert (Hsl : keys_sorted (n :: keys l)).
  { clear -Hs. unfold keys_sorted in *. induction (keys (before Name_compare n t)); [done|]. by apply StronglySorted_inv in Hs as [? _]; auto. }
  apply StronglySorted_inv in Hsl as [Hsl Hnl]. destruct (descendants_loop_spec n l Hrn Hel) as (a&b&Hab&->&Ha&Hb); [by split|done|].
  rewrite Hkeys in Hnd. split.
  - apply NoDup_app in Hnd as (_&_&Hnd). apply NoDup_cons in Hnd as [_ Hnd]. rewrite Hab in Hnd. by apply NoDup_app in Hnd as (?&_).
  - intros x. rewrite Hkeys, Hab. rewrite Forall_forall in Ha, Hb. split.
    + intros Hx. split; [rewrite elem_of_app, elem_of_cons, elem_of_app; tauto|]. split; [by apply Ha|]. intros ->.
      apply NoDup_app in Hnd as (_&_&Hnd). apply NoDup_cons in Hnd as [Hnx _]. apply Hnx. rewrite Hab. rewrite elem_of_app. by left.
    + intros [Hx [Hpre Hne]]. rewrite elem_of_app, elem_of_cons, elem_of_app in Hx. destruct Hx as [Hx|[->|[Hx|Hx]]]; [|done..|by destruct (Hb x Hx)].
      exfalso. unfold keys in Hx. apply list_elem_of_fmap in Hx as (y&->&Hy). pose proof (before_lt (cmp := Name_compare) n t) as Hlt.
      rewrite Forall_forall in Hlt. specialize (Hlt y Hy). pose proof (prefix_le _ _ Hpre).
      rewrite Forall_forall in Hf1. assert (Hby : bytes_name y.1) by (apply rib_name_bytes, Hf1, list_elem_of_fmap; by exists y).
      pose proof (cmp_anti (P := bytes_name) (cmp := Name_compare) y.1 n Hby (rib_name_bytes _ Hrn)). lia.
Qed.

(** ** The tree *)

Record rib_tree (t : RibTable) : Prop := {
  tree_keys : keys_ok (keys t);
  tree_named k e : deref k t = Some e -> re_name e = k;
  tree_linked : linked t;
  tree_parent k o : parent_at t k = Some o -> is_parent (keys t) k o
}.

Lemma is_parent_ext l l' n o : (forall q, q ∈ l <-> q ∈ l') -> is_parent l n o -> is_parent l' n o.
Proof. intros Hl. destruct o as [p|]; cbn; setoid_rewrite Hl; done. Qed.

Lemma is_parent_insert l n o k p : is_parent l n p -> k <> n -> is_parent l k o ->
  is_parent (n :: l) k (if decide (under n k /\ o = p) then Some n else o).
Proof.
  intros Hp Hkn Ho. destruct (decide (under n k /\ o = p)) as [[Hu ->]|Hd].
  - split_and!; [by left|done|]. intros q [->|Hq]%elem_of_cons Huq; [done|].
    destruct p as [p|]; cbn in Hp, Ho.
    + destruct Hp as (_&Hpn&Hpmax), Ho as (_&_&Hmax). transitivity p; [by apply Hmax|apply Hpn].
    + by destruct (Ho q Hq).
  - destruct o as [q|]; cbn in Ho |- *.
    + destruct Ho as (Hq&Hqk&Hmax). split_and!; [by right|done|]. intros y [->|Hy]%elem_of_cons Huy; [|by apply Hmax].
      destruct (under_total q n k Hqk (proj1 Huy)) as [Hqn|]; [|done]. exfalso. apply Hd. split; [done|].
      apply (is_parent_unique l n); [|done]. split_and!; [done|done|]. intros y Hy Hyn. apply Hmax; [done|]. by apply (under_trans y n k); [|apply Huy].
    + intros y [->|Hy]%elem_of_cons Huy; [|by apply (Ho y)]. apply Hd. split; [done|]. apply (is_parent_unique l n); [|done].
      intros z Hz Hzn. apply (Ho z Hz). by apply (under_trans z n k); [|apply Huy].
Qed.

Lemma is_parent_erase l l' x p k o : (forall q, q ∈ l' <-> q ∈ l /\ q <> x) -> is_parent l x p -> is_parent l k o ->
  is_parent l' k (if decide (o = Some x) then p else o).
Proof.
  intros Hl Hp Ho. destruct (decide (o = Some x)) as [->|Hd].
  - destruct Ho as (Hx&Hxk&Hmax). destruct p as [p|]; cbn in Hp |- *; setoid_rewrite Hl.
    + destruct Hp as (Hpl&Hpx&Hpmax). split_and!; [done|intros ->; by apply Hpx|by apply (under_trans p x k); [|apply Hxk]|].
      intros q [Hq Hqx] Hqk. apply Hpmax; [done|]. split; [by apply Hmax|done].
    + intros q [Hq Hqx] Hqk. apply (Hp q Hq). split; [by apply Hmax|done].
  - destruct o as [q|]; cbn in Ho |- *; setoid_rewrite Hl; [|naive_solver]. destruct Ho as (Hq&Hqk&Hmax). split_and!; [done|congruence|done|].
    intros y [Hy _]. by apply Hmax.
Qed.

Lemma body_at_named t k e : deref k t = Some e -> body_at t k = Some (body e).
Proof. unfold body_at. by intros ->. Qed.

Lemma relinks_tree t t' f : (forall k e, deref k t = Some e -> re_name e = k) -> keys_ok (keys t) -> relinks t t' f ->
  (forall k o, f k = Some o -> is_parent (keys t) k o) -> rib_tree t'.
Proof.
  intros Hnm Hok [Hk Hb Hp Hl] Hf. constructor; [by rewrite Hk| |done|].
  - intros k e He. specialize (Hb k). unfold body_at in Hb. rewrite He in Hb. destruct (deref k t) as [e0|] eqn:He0; [|done].
    cbn in Hb. injection Hb as Hn _ _ _. rewrite Hn. by apply Hnm.
  - intros k o. rewrite Hk, Hp. apply Hf.
Qed.

(** A new entry takes its place between its parent and its descendants. *)
Lemma insert_tree n v t : rib_tree t -> rib_name n -> n ∉ keys t -> re_name v = n -> re_parent v = None -> re_children v = [] ->
  let t1 := map_assign Name_compare n v t in
  exists t2 t3, (match findParent n t1 with Some p => addChild p n t1 | None => Ok t1 end) = Ok t2 /\
    adopt (findParent n t1) n (findDescendants n t2) t2 = Ok t3 /\ rib_tree t3 /\ keys t3 ≡ₚ n :: keys t /\
    forall k, body_at t3 k = if decide (k = n) then Some (body v) else body_at t k.
Proof.
  intros Ht Hn Hnt Hvn Hvp Hvc t1. pose proof (tree_keys _ Ht) as Hok. apply deref_absent in Hnt as Hdn.
  assert (Hd1 : forall k, deref k t1 = if decide (k = n) then Some v else deref k t) by (intros k; by apply deref_assign).
  assert (Hk1 : keys t1 ≡ₚ n :: keys t) by by apply keys_assign. assert (Hok1 : keys_ok (keys t1)) by by apply keys_ok_assign.
  assert (Hp1 : forall k, parent_at t1 k = if decide (k = n) then Some None else parent_at t k).
  { intros k. unfold parent_at. rewrite Hd1. destruct (decide (k = n)); [cbn; by rewrite Hvp|done]. }
  assert (Hnm1 : forall k e, deref k t1 = Some e -> re_name e = k).
  { intros k e. rewrite Hd1. destruct (decide (k = n)) as [->|]; [by intros [= <-]|apply (tree_named _ Ht)]. }
  assert (Hpn : parent_at t n = None) by (unfold parent_at; by rewrite Hdn).
  assert (Hl1 : linked t1).
  { destruct (tree_linked _ Ht) as [Hl He]. split.
    - intros x e. rewrite Hd1. setoid_rewrite Hp1. destruct (decide (x = n)) as [->|Hx].
      + intros [= <-]. rewrite Hvc. split; [constructor|]. intros c. split; [by intros ?%elem_of_nil|]. destruct (decide (c = n)); [done|].
        intros Hc. apply He in Hc. done.
      + intros Hxe. destruct (Hl x e Hxe) as [Hnd Hiff]. split; [done|]. intros c. rewrite Hiff. destruct (decide (c = n)) as [->|]; [|done]. by rewrite Hpn.
    - intros c x. rewrite Hp1, Hk1. destruct (decide (c = n)); [done|]. intros Hc. right. by eapply He. }
  pose proof (findParent_spec n t1 Hok1 Hn Hnm1) as Hfp. set (p := findParent n t1) in *.
  assert (Hpt : is_parent (keys t) n p).
  { destruct p as [p|]; cbn in Hfp |- *; setoid_rewrite Hk1 in Hfp; [|intros q Hq; apply Hfp; by right].
    destruct Hfp as (Hpk&Hpu&Hmax). split_and!; [|done|intros q Hq; apply Hmax; by right]. apply elem_of_cons in Hpk as [->|]; [by destruct Hpu|done]. }
  assert (exists t2, (match p with Some p => addChild p n t1 | None => Ok t1 end) = Ok t2 /\
            relinks t1 t2 (fun k => if decide (k = n) then Some p else parent_at t k)) as (t2&Ht2&H2).
  { destruct p as [p|].
    - destruct (addChild_relinks p n t1 Hl1) as (t2&->&H2); [by rewrite Hp1, decide_True|rewrite Hk1; right; apply Hpt|].
      eexists. split; [done|]. eapply relinks_ext; [|exact H2]. intros k. cbv beta. rewrite Hp1. by destruct (decide (k = n)).
    - exists t1. split; [done|]. eapply relinks_ext; [|by apply relinks_refl]. intros k. apply Hp1. }
  rewrite Ht2. exists t2.
  assert (Hnm2 : forall k e, deref k t2 = Some e -> re_name e = k).
  { intros k e He. pose proof (relinks_body _ _ _ H2 k) as Hb. unfold body_at in Hb. rewrite He in Hb. destruct (deref k t1) as [e0|] eqn:He0; [|done].
    injection Hb as Hb _ _ _. rewrite Hb. by apply Hnm1. }
  assert (Hk2 : keys t2 = keys t1) by apply H2. destruct (findDescendants_spec n t2) as [Hnd Hdesc]; [by rewrite Hk2|rewrite Hk2, Hk1; by left|done|].
  destruct (adopt_relinks p n (findDescendants n t2) t2) as (t3&Ht3&H3); [apply H2|rewrite Hk2, Hk1; by left|done|by intros c [? _]%Hdesc| |].
  { intros q Hq ->. rewrite Hq in Hpt. by destruct Hpt as (_&[_ ?]&_). }
  exists t3. pose proof (relinks_trans _ _ _ _ _ H2 H3) as H13. split_and!; [done|done| | |].
  - eapply (relinks_tree t1); [exact Hnm1|exact Hok1|exact H13|]. intros k o. cbv beta. rewrite !(relinks_parent _ _ _ H2).
    destruct (decide (k = n)) as [->|Hkn].
    + rewrite decide_False by (intros [[_ [_ ?]]%Hdesc _]; done). intros [= <-]. done.
    + destruct (parent_at t k) as [o'|] eqn:Hko; [|by destruct (decide (_ /\ _)) as [[_ ?]|]]. intros Ho.
      pose proof (is_parent_insert (keys t) n o' k p Hpt Hkn (tree_parent _ Ht _ _ Hko)) as Hip. apply (is_parent_ext (n :: keys t)); [by intros q; rewrite Hk1|].
      assert (Hkk : k ∈ keys t2).
      { rewrite Hk2, Hk1. right. unfold parent_at in Hko. destruct (deref k t) eqn:Hdk; [|done]. by eapply deref_key. }
      destruct (decide (under n k /\ o' = p)) as [[Hu ->]|Hd].
      * rewrite decide_True in Ho by (split; [by apply Hdesc|done]). by injection Ho as <-.
      * rewrite decide_False in Ho; [by injection Ho as <-|]. intros [[_ Hu]%Hdesc [= ->]]. apply Hd. done.
  - by rewrite (relinks_keys _ _ _ H13).
  - intros k. rewrite (relinks_body _ _ _ H13). unfold body_at. rewrite Hd1. by destruct (decide (k = n)).
Qed.

(** The children of an entry that goes away become children of its parent. *)
Lemma erase_tree n e t : rib_tree t -> deref n t = Some e ->
  exists t', eraseEntry e t = Ok t' /\ rib_tree t' /\ keys t ≡ₚ n :: keys t' /\ forall k, body_at t' k = if decide (k = n) then None else body_at t k.
Proof.
  intros Ht He. pose proof (tree_keys _ Ht) as Hok. pose proof (tree_linked _ Ht) as Hl. pose proof (deref_key _ _ _ He) as Hn.
  unfold eraseEntry. rewrite (tree_named _ Ht _ _ He). set (p := re_parent e).
  assert (Hpn : parent_at t n = Some p) by (unfold parent_at; by rewrite He). pose proof (tree_parent _ Ht _ _ Hpn) as Hip.
  assert (exists t1, (match p with Some p => removeChild p n t | None => Ok t end) = Ok t1 /\
            relinks t t1 (fun k => if decide (k = n) then Some None else parent_at t k)) as (t1&->&H1).
  { destruct p as [p|]; [by apply removeChild_relinks|]. exists t. split; [done|]. eapply relinks_ext; [|by apply relinks_refl].
    intros k. by destruct (decide (k = n)) as [->|]. }
  cbn [rbind]. destruct (proj1 Hl n e He) as [Hnd Hch].
  assert (Hnc : n ∉ re_children e).
  { rewrite Hch, Hpn. intros [= Hpp]. rewrite Hpp in Hip. by destruct Hip as (_&[_ ?]&_). }
  destruct (release_relinks p n (re_children e) t1) as (t2&->&H2); [apply H1|done| | |].
  { intros c Hc. rewrite (relinks_parent _ _ _ H1). rewrite decide_False by congruence. by apply Hch. }
  { intros q Hq. rewrite (relinks_keys _ _ _ H1). rewrite Hq in Hip. apply Hip. }
  cbn [rbind]. pose proof (relinks_trans _ _ _ _ _ H1 H2) as H12. pose proof (relinks_keys _ _ _ H12) as Hk2.
  assert (Hok2 : keys_ok (keys t2)) by by rewrite Hk2. assert (Hn2 : n ∈ keys t2) by by rewrite Hk2. eexists. split; [done|].
  assert (Hd : forall k, deref k (map_erase Name_compare n t2) = if decide (k = n) then None else deref k t2) by (intros k; by apply deref_erase).
  assert (Hpar2 : forall k, parent_at t2 k = if decide (k ∈ re_children e) then Some p else if decide (k = n) then Some None else parent_at t k).
  { intros k. rewrite (relinks_parent _ _ _ H2), (relinks_parent _ _ _ H1). done. }
  assert (Hpar : forall k, parent_at (map_erase Name_compare n t2) k =
                   if decide (k = n) then None else if decide (k ∈ re_children e) then Some p else parent_at t k).
  { intros k. unfold parent_at at 1. rewrite Hd. destruct (decide (k = n)) as [|Hkn]; [done|]. fold (parent_at t2 k). rewrite Hpar2.
    by rewrite (decide_False (P := k = n)). }
  assert (Hke : forall k, k ∈ keys (map_erase Name_compare n t2) <-> k ∈ keys t /\ k <> n).
  { intros k. rewrite <- !deref_is_Some, Hd, !deref_is_Some, <- Hk2. destruct (decide (k = n)); [|rewrite deref_is_Some; tauto].
    split; [by intros [? ?]|tauto]. }
  split_and!; [constructor| |].
  - by apply keys_ok_erase.
  - intros k e'. rewrite Hd. destruct (decide (k = n)) as [|Hkn]; [done|]. intros He'.
    pose proof (relinks_body _ _ _ H12 k) as Hb. unfold body_at in Hb. rewrite He' in Hb. destruct (deref k t) as [e0|] eqn:He0; [|done].
    injection Hb as Hb _ _ _. rewrite Hb. by apply (tree_named _ Ht).
  - destruct (relinks_linked _ _ _ H12) as [Hl2 He2]. split.
    + intros x e'. rewrite Hd. destruct (decide (x = n)) as [|Hxn]; [done|]. intros Hx. destruct (Hl2 x e' Hx) as [Hnd2 Hiff]. split; [done|].
      intros c. rewrite Hiff, Hpar2, Hpar. destruct (decide (c = n)) as [->|]; [|done]. by rewrite decide_False.
    + intros c x. rewrite Hpar, Hke. destruct (decide (c = n)) as [|Hcn]; [done|]. intros Hc. split.
      * rewrite <- Hk2. apply (He2 c). rewrite Hpar2, (decide_False (P := c = n)) by done. done.
      * intros ->. destruct (decide (c ∈ re_children e)) as [|Hcc]; [|by apply Hcc, Hch].
        injection Hc as Hc. rewrite Hc in Hip. by destruct Hip as (_&[_ ?]&_).
  - intros k o. rewrite Hpar. destruct (decide (k = n)) as [|Hkn]; [done|]. intros Ho.
    destruct (decide (k ∈ re_children e)) as [Hkc|Hkc].
    + injection Ho as <-. apply Hch in Hkc. pose proof (is_parent_erase _ _ n p k _ Hke Hip (tree_parent _ Ht _ _ Hkc)) as Hres.
      by rewrite decide_True in Hres.
    + pose proof (is_parent_erase _ _ n p k _ Hke Hip (tree_parent _ Ht _ _ Ho)) as Hres. rewrite decide_False in Hres; [done|].
      intros ->. apply Hkc. by apply Hch.
  - rewrite <- Hk2. by apply table_keys_erase.
  - intros k. unfold body_at. rewrite Hd. destruct (decide (k = n)); [done|]. apply (relinks_body _ _ _ H12).
Qed.

(** Operations that leave the links alone *)
Definition keeps_links (f : RibEntry -> RibEntry) : Prop :=
  forall e, re_name (f e) = re_name e /\ re_parent (f e) = re_parent e /\ re_children (f e) = re_children e.

Lemma modify_tree p f t : keeps_links f -> rib_tree t -> rib_tree (modify p f t).
Proof.
  intros Hf Ht. assert (Hp : forall k, parent_at (modify p f t) k = parent_at t k) by (intros k; apply parent_at_modify; intros e; apply Hf).
  assert (Hd : forall k e, deref k (modify p f t) = Some e -> exists e0, deref k t = Some e0 /\ re_name e = re_name e0 /\ re_children e = re_children e0).
  { intros k e. rewrite deref_modify. destruct (decide (k = p)); [|by eauto]. destruct (deref k t) as [y|]; [|done]. intros [= <-]. exists y.
    split_and!; [done|apply Hf..]. }
  constructor.
  - rewrite keys_modify. apply Ht.
  - intros k e (e0&He0&->&_)%Hd. by apply (tree_named _ Ht).
  - split.
    + intros x e (e0&He0&_&->)%Hd. setoid_rewrite Hp. by apply (tree_linked _ Ht).
    + intros c x. rewrite Hp, keys_modify. apply (tree_linked _ Ht).
  - intros k o. rewrite Hp, keys_modify. apply (tree_parent _ Ht).
Qed.
