(* ===== verification/RibProps.v ===== *)
(** * Correctness of the RIB

    Registration and unregistration keep the invariant of the RIB and act on the
    routes of one name; the update queue serves the updates in order; the
    ancestors of a name give the routes that the prefixes of the name allow. *)

From S2P Require Import Prelude StdMap Tlv NameComponent Name Packet CsEntry RibEntry Rib RibTree.

(** ** The invariant *)

Definition routes_at (r : Rib) (n : Name) : list Route := match deref n (m_rib r) with Some e => re_routes e | None => [] end.

Definition total_routes (t : RibTable) : nat := sum_list_with (fun e => length (re_routes e.2)) t.

Definition faces_of (fm : gmap Z (list Name)) (f : Z) : list Name := default [] (fm !! f).

Record rib_inv (r : Rib) : Prop := {
  rib_inv_tree : rib_tree (m_rib r);
  rib_inv_routes n e : deref n (m_rib r) = Some e -> routes_ok (re_routes e) /\ re_routes e <> [];
  rib_inv_count : m_nItems r = to_u64 (Z.of_nat (total_routes (m_rib r)));
  rib_inv_faces f n : n ∈ faces_of (m_faceMap r) f <-> exists e, deref n (m_rib r) = Some e /\ hasFaceId f e = true
}.

(** *** Counting routes *)

Definition routes_in (t : RibTable) (n : Name) : nat := match deref n t with Some e => length (re_routes e) | None => 0%nat end.

Lemma sum_with_ext {A} (f g : A -> nat) l : (forall x, x ∈ l -> f x = g x) -> sum_list_with f l = sum_list_with g l.
Proof.
  induction l as [|x l IH]; [done|]. intros H. cbn [sum_list_with]. rewrite (H x), IH; [done| |by left]. intros y Hy. apply H. by right.
Qed.

Lemma sum_with_perm {A} (f : A -> nat) l l' : l ≡ₚ l' -> sum_list_with f l = sum_list_with f l'.
Proof. induction 1; cbn [sum_list_with]; lia. Qed.

Lemma total_keys t : NoDup (keys t) -> total_routes t = sum_list_with (routes_in t) (keys t).
Proof.
  unfold total_routes. induction t as [|[k e] t IH]; [done|]. cbn [keys map sum_list_with fst snd]. fold (keys t). intros [Hk Hd]%NoDup_cons.
  rewrite (IH Hd). unfold routes_in at 2. rewrite deref_cons, decide_True by done. cbn [snd]. f_equal. apply sum_with_ext. intros x Hx.
  unfold routes_in. rewrite deref_cons, decide_False; [done|]. cbn. by intros ->.
Qed.

Lemma sum_with_at {A} `{EqDecision A} (f g : A -> nat) l x : NoDup l -> x ∈ l -> (forall y, y ∈ l -> y <> x -> f y = g y) ->
  (sum_list_with f l + g x = sum_list_with g l + f x)%nat.
Proof.
  intros Hd Hx Hfg. apply list_elem_of_split in Hx as (a&b&->). apply NoDup_app in Hd as (_&Ha&Hb). apply NoDup_cons in Hb as [Hb _].
  rewrite !sum_list_with_app. cbn [sum_list_with]. rewrite (sum_with_ext f g a), (sum_with_ext f g b); [lia| |]; intros y Hy; apply Hfg.
  - rewrite elem_of_app, elem_of_cons. tauto.
  - intros ->. done.
  - rewrite elem_of_app. tauto.
  - intros ->. apply (Ha x Hy). by left.
Qed.

(** The table changes at one name only. *)
Lemma total_modify n f t e : keys_ok (keys t) -> deref n t = Some e ->
  (total_routes (modify n f t) + length (re_routes e) = total_routes t + length (re_routes (f e)))%nat.
Proof.
  intros [Hs _] He. pose proof (keys_sorted_NoDup _ Hs) as Hd. rewrite !total_keys by (rewrite ?keys_modify; done). rewrite keys_modify.
  pose proof (sum_with_at (routes_in (modify n f t)) (routes_in t) (keys t) n Hd (deref_key _ _ _ He)) as Hsum.
  assert (Hn : routes_in t n = length (re_routes e)) by (unfold routes_in; by rewrite He).
  assert (Hm : routes_in (modify n f t) n = length (re_routes (f e))) by (unfold routes_in; by rewrite deref_modify, decide_True, He).
  rewrite <- Hn, <- Hm. apply Hsum. intros y _ Hy. unfold routes_in. by rewrite deref_modify, decide_False.
Qed.

Lemma routes_in_body t t' k : body_at t' k = body_at t k -> routes_in t' k = routes_in t k.
Proof.
  unfold body_at, routes_in. destruct (deref k t'), (deref k t); cbn; try done. intros [= _ -> _ _]. done.
Qed.

(** *** Faces of an entry *)

Lemma hasFaceId_iff f e : hasFaceId f e = true <-> f ∈ map r_faceId (re_routes e).
Proof.
  unfold hasFaceId, compareFaceId. rewrite existsb_exists, list_elem_of_fmap. split; intros (r&H1&H2); exists r.
  - apply Z.eqb_eq in H2. by rewrite list_elem_of_In.
  - rewrite Z.eqb_eq. by rewrite <- list_elem_of_In.
Qed.

Lemma elem_of_face_push g f n fm x : x ∈ faces_of (face_push g n fm) f <-> x ∈ faces_of fm f \/ (f = g /\ x = n).
Proof.
  unfold faces_of, face_push. destruct (decide (f = g)) as [->|Hf].
  - rewrite lookup_insert_eq. cbn. rewrite elem_of_app, list_elem_of_singleton. tauto.
  - rewrite lookup_insert_ne by done. tauto.
Qed.

Lemma elem_of_face_remove g f n fm x : x ∈ faces_of (face_remove g n fm) f <-> x ∈ faces_of fm f /\ ~ (f = g /\ x = n).
Proof.
  unfold faces_of, face_remove. destruct (decide (f = g)) as [->|Hf].
  - rewrite lookup_insert_eq. cbn. rewrite list_elem_of_filter. tauto.
  - rewrite lookup_insert_ne by done. tauto.
Qed.

Lemma update_route_keys route l : map route_key (update_route route l) = map route_key l.
Proof. induction l as [|r l IH]; [done|]. cbn [update_route]. destruct (compareFaceIdAndOrigin r route); [done|]. cbn [map]. by rewrite IH. Qed.

Lemma faces_keys l : map r_faceId l = map fst (map route_key l).
Proof. by rewrite map_map. Qed.

(** ** Registration *)

(** What a registration does to the routes of the name *)
Definition register (route : Route) (l : list Route) : list Route :=
  if decide (route_key route ∈ map route_key l) then update_route route l else l ++ [route].

Lemma register_ok route l : routes_ok l -> routes_ok (register route l) /\ register route l <> [].
Proof.
  intros Hl. unfold register, routes_ok in *. destruct (decide _) as [Hin|Hn].
  - rewrite update_route_keys. split; [done|]. intros He. rewrite <- (update_route_keys route l), He in Hin. by apply elem_of_nil in Hin.
  - split; [|by destruct l]. rewrite map_app. apply NoDup_app. split_and!; [done| |apply NoDup_singleton]. intros x Hx ->%list_elem_of_singleton. done.
Qed.

Lemma register_faces route l f : f ∈ map r_faceId (register route l) <-> f ∈ map r_faceId l \/ f = r_faceId route.
Proof.
  unfold register. destruct (decide _) as [Hin|Hn].
  - rewrite !faces_keys, update_route_keys. split; [tauto|]. intros [?| ->]; [done|]. apply list_elem_of_fmap in Hin as (r&Hr&Hin).
    rewrite <- faces_keys. injection Hr as -> _. apply list_elem_of_fmap. by exists r.
  - rewrite map_app, elem_of_app. cbn. rewrite list_elem_of_singleton. tauto.
Qed.

Lemma to_u64_add a b : to_u64 (to_u64 a + b) = to_u64 (a + b).
Proof. unfold to_u64. by rewrite Z.add_mod_idemp_l by done. Qed.

(** The routes of one entry change. *)
Lemma change_inv r n e f fm cnt out : rib_inv r -> deref n (m_rib r) = Some e -> keeps_links f ->
  routes_ok (re_routes (f e)) -> re_routes (f e) <> [] -> cnt = to_u64 (m_nItems r + (len (re_routes (f e)) - len (re_routes e))) ->
  (forall g x, x ∈ faces_of fm g <-> (x <> n /\ x ∈ faces_of (m_faceMap r) g) \/ (x = n /\ g ∈ map r_faceId (re_routes (f e)))) ->
  rib_inv (with_table (modify n f (m_rib r)) fm cnt out r) /\
  forall k, routes_at (with_table (modify n f (m_rib r)) fm cnt out r) k = if decide (k = n) then re_routes (f e) else routes_at r k.
Proof.
  intros Hi He Hf Hok Hne Hcnt Hfm. pose proof (tree_keys _ (rib_inv_tree _ Hi)) as Hk.
  assert (Hd : forall k, deref k (modify n f (m_rib r)) = if decide (k = n) then Some (f e) else deref k (m_rib r)).
  { intros k. rewrite deref_modify. destruct (decide (k = n)) as [->|]; [by rewrite He|done]. }
  split; [constructor; cbn [m_rib m_faceMap m_nItems with_table]|].
  - apply modify_tree; [done|apply Hi].
  - intros k e'. rewrite Hd. destruct (decide (k = n)); [by intros [= <-]|apply (rib_inv_routes _ Hi)].
  - rewrite Hcnt, (rib_inv_count _ Hi), to_u64_add. f_equal. pose proof (total_modify n f _ e Hk He) as Ht. unfold len. lia.
  - intros g x. rewrite Hfm, Hd, (rib_inv_faces _ Hi). destruct (decide (x = n)) as [->|].
    + rewrite <- hasFaceId_iff. naive_solver.
    + naive_solver.
  - intros k. unfold routes_at. cbn [m_rib with_table]. rewrite Hd. by destruct (decide (k = n)).
Qed.

Lemma faces_at r n e g : rib_inv r -> deref n (m_rib r) = Some e -> n ∈ faces_of (m_faceMap r) g <-> g ∈ map r_faceId (re_routes e).
Proof. intros Hi He. rewrite (rib_inv_faces _ Hi), He, <- hasFaceId_iff. naive_solver. Qed.

Lemma insertRoute_new route e : findRoute route e = None ->
  re_routes (insertRoute route e).1 = re_routes e ++ [route].
Proof. intros Hf. unfold insertRoute. by rewrite Hf. Qed.

Lemma keeps_links_insertRoute route : keeps_links (fun e => (insertRoute route e).1).
Proof. intros e. unfold insertRoute. by destruct (findRoute route e). Qed.

Lemma keeps_links_eraseRoute route : keeps_links (fun e => (eraseRoute route e).1).
Proof. intros e. unfold eraseRoute. by destruct (findRoute route e). Qed.

Lemma rib_insert_existing r n e route : rib_inv r -> rib_name n -> deref n (m_rib r) = Some e ->
  exists r', Rib_insert n route r = Ok r' /\ rib_inv r' /\
    forall k, routes_at r' k = if decide (k = n) then register route (re_routes e) else routes_at r k.
Proof.
  intros Hi Hn He. unfold Rib_insert. pose proof (rib_inv_tree _ Hi) as Ht. rewrite (table_find_deref _ _ (tree_keys _ Ht) Hn), He.
  rewrite (tree_named _ Ht _ _ He). destruct (rib_inv_routes _ Hi _ _ He) as [Hok Hne]. destruct (register_ok route _ Hok) as [Hok' Hne'].
  destruct (findRoute route e) as [old|] eqn:Hf; eexists; (split; [done|]).
  - assert (Hin : route_key route ∈ map route_key (re_routes e)).
    { destruct (decide (route_key route ∈ map route_key (re_routes e))) as [|Hn0]; [done|]. apply findRoute_None in Hn0. congruence. }
    assert (Hr : register route (re_routes e) = update_route route (re_routes e)) by (unfold register; by rewrite decide_True).
    rewrite Hr in *. apply (change_inv r n e); [done|done|done|done|done| |].
    + cbn [re_routes setRoutes]. assert (len (update_route route (re_routes e)) = len (re_routes e)) as ->.
      { unfold len. f_equal. rewrite <- (length_map route_key), update_route_keys. apply length_map. }
      rewrite (rib_inv_count _ Hi), to_u64_add. f_equal. lia.
    + intros g x. cbn [re_routes setRoutes]. rewrite faces_keys, update_route_keys, <- faces_keys, <- (faces_at r n e g Hi He).
      destruct (decide (x = n)) as [->|]; tauto.
  - assert (Hr : register route (re_routes e) = re_routes e ++ [route]).
    { unfold register. rewrite decide_False; [done|]. by apply findRoute_None. }
    rewrite Hr in *. rewrite <- (insertRoute_new route e Hf) in *. apply (change_inv r n e); [done|done|apply keeps_links_insertRoute|done|done| |].
    + rewrite insertRoute_new by done. f_equal. rewrite len_app. change (len [route]) with 1. lia.
    + intros g x. rewrite elem_of_face_push, insertRoute_new, map_app, elem_of_app by done. cbn. rewrite list_elem_of_singleton, <- (faces_at r n e g Hi He).
      destruct (decide (x = n)) as [->|]; naive_solver.
Qed.

Lemma deref_body t n b : body_at t n = Some b -> exists e, deref n t = Some e /\ body e = b.
Proof. unfold body_at. destruct (deref n t) as [e|]; [|done]. intros [= <-]. by exists e. Qed.

Lemma body_routes e e' : body e = body e' -> re_routes e = re_routes e'.
Proof. by intros [= _ -> _ _]. Qed.

(** The entry that the table has under a name, if the body is unchanged *)
Lemma body_same t t' n e : body_at t' n = body_at t n -> deref n t' = Some e -> exists e0, deref n t = Some e0 /\ re_routes e0 = re_routes e.
Proof.
  intros Hb He. rewrite (body_at_named _ _ _ He) in Hb. symmetry in Hb. apply deref_body in Hb as (e0&He0&Hb). exists e0. split; [done|]. by apply body_routes.
Qed.

Lemma routes_at_body r r' n : body_at (m_rib r') n = body_at (m_rib r) n -> routes_at r' n = routes_at r n.
Proof. unfold routes_at, body_at. destruct (deref n (m_rib r')), (deref n (m_rib r)); try done. by intros [= _ -> _ _]. Qed.

Lemma hasFaceId_routes f e e' : re_routes e = re_routes e' -> hasFaceId f e = hasFaceId f e'.
Proof. unfold hasFaceId. by intros ->. Qed.

Lemma rib_insert_new r n route : rib_inv r -> rib_name n -> deref n (m_rib r) = None ->
  exists r', Rib_insert n route r = Ok r' /\ rib_inv r' /\ forall k, routes_at r' k = if decide (k = n) then [route] else routes_at r k.
Proof.
  intros Hi Hn He. unfold Rib_insert. pose proof (rib_inv_tree _ Hi) as Ht. rewrite (table_find_deref _ _ (tree_keys _ Ht) Hn), He.
  set (v := (insertRoute route (setName n RibEntry_new)).1).
  destruct (insert_tree n v (m_rib r) Ht Hn) as (t2&t3&->&H3&Ht3&Hk3&Hb3); [by apply deref_absent|done..|]. cbn [rbind]. rewrite H3. cbn [rbind].
  eexists. split; [done|].
  assert (Hold : forall k e, k <> n -> deref k t3 = Some e -> exists e0, deref k (m_rib r) = Some e0 /\ re_routes e0 = re_routes e).
  { intros k e Hkn. apply body_same. rewrite Hb3. by rewrite decide_False. }
  assert (Hnew : exists e, deref n t3 = Some e /\ re_routes e = [route]).
  { pose proof (Hb3 n) as Hb. rewrite decide_True in Hb by done. apply deref_body in Hb as (e&Hd&Hb). exists e. split; [done|]. by rewrite (body_routes _ _ Hb). }
  split; [constructor; cbn [m_rib m_faceMap m_nItems with_table]|].
  - done.
  - intros k e Hk. destruct (decide (k = n)) as [->|Hkn].
    + destruct Hnew as (e'&He'&Hr). rewrite He' in Hk. injection Hk as <-. rewrite Hr. split; [apply NoDup_singleton|done].
    + destruct (Hold k e Hkn Hk) as (e0&He0&<-). by apply (rib_inv_routes _ Hi k).
  - rewrite (rib_inv_count _ Hi), to_u64_add. f_equal.
    rewrite (total_keys t3), (total_keys (m_rib r)) by (apply keys_sorted_NoDup; apply tree_keys; done).
    rewrite (sum_with_perm _ _ _ Hk3). cbn [sum_list_with]. rewrite (sum_with_ext (routes_in t3) (routes_in (m_rib r)) (keys (m_rib r))).
    + unfold routes_in at 2. destruct Hnew as (e&->&->). cbn. lia.
    + intros x Hx. apply routes_in_body. rewrite Hb3, decide_False; [done|]. intros ->. by apply deref_absent in He.
  - intros f x. rewrite elem_of_face_push, (rib_inv_faces _ Hi). destruct (decide (x = n)) as [->|Hxn].
    + destruct Hnew as (e&->&Hr). rewrite He. setoid_rewrite hasFaceId_iff. split.
      * intros [(?&?&_)|[-> _]]; [done|]. exists e. split; [done|]. rewrite Hr. by left.
      * intros (e'&[= <-]&Hf). right. rewrite Hr in Hf. by apply list_elem_of_singleton in Hf.
    + split.
      * intros [(e&Hde&Hf)|[_ ?]]; [|done]. assert (Hb : body_at (m_rib r) x = body_at t3 x) by by rewrite Hb3, decide_False.
        destruct (body_same _ _ _ _ Hb Hde) as (e0&He0&Hr). exists e0. split; [done|]. by rewrite (hasFaceId_routes f e0 e).
      * intros (e&Hde&Hf). left. destruct (Hold x e Hxn Hde) as (e0&He0&Hr). exists e0. split; [done|]. by rewrite (hasFaceId_routes f e0 e).
  - intros k. destruct (decide (k = n)) as [->|Hkn].
    + unfold routes_at. cbn [m_rib with_table]. destruct Hnew as (e&->&->). done.
    + apply routes_at_body. cbn [m_rib with_table]. by rewrite Hb3, decide_False.
Qed.

Lemma Rib_insert_spec r n route : rib_inv r -> rib_name n ->
  exists r', Rib_insert n route r = Ok r' /\ rib_inv r' /\
    forall k, routes_at r' k = if decide (k = n) then register route (routes_at r n) else routes_at r k.
Proof.
  intros Hi Hn. destruct (deref n (m_rib r)) as [e|] eqn:He.
  - destruct (rib_insert_existing r n e route Hi Hn He) as (r'&?&?&Hr). exists r'. split_and!; [done|done|]. intros k. rewrite Hr. unfold routes_at at 2. by rewrite He.
  - destruct (rib_insert_new r n route Hi Hn He) as (r'&?&?&Hr). exists r'. split_and!; [done|done|]. intros k. rewrite Hr. unfold routes_at at 2. by rewrite He.
Qed.

(** ** Unregistration *)

Lemma erase_route_absent route l : route_key route ∉ map route_key l -> erase_route route l = l.
Proof.
  induction l as [|r l IH]; [done|]. cbn [map erase_route]. rewrite not_elem_of_cons. intros [Hr Hl].
  destruct (compareFaceIdAndOrigin r route) eqn:Hc; [apply compare_key_iff in Hc; congruence|]. by rewrite IH.
Qed.

Lemma eraseRoute_routes route e : re_routes (eraseRoute route e).1 = erase_route route (re_routes e).
Proof.
  unfold eraseRoute. destruct (findRoute route e) eqn:Hf; [done|]. symmetry. apply erase_route_absent. by apply findRoute_None.
Qed.

Lemma erase_route_length route e r : findRoute route e = Some r -> length (re_routes e) = S (length (erase_route route (re_routes e))).
Proof. intros Hf. rewrite (erase_route_perm route (re_routes e) r Hf) at 1. done. Qed.

Lemma erase_faces route e r f : findRoute route e = Some r -> f <> r_faceId route ->
  f ∈ map r_faceId (erase_route route (re_routes e)) <-> f ∈ map r_faceId (re_routes e).
Proof.
  intros Hf Hn. pose proof (erase_route_perm route (re_routes e) r Hf) as Hp. apply findRoute_Some in Hf as [_ [= Hr _]].
  apply (Permutation_map r_faceId) in Hp. rewrite Hp. cbn [map]. rewrite elem_of_cons. split; [tauto|]. intros [->|]; [congruence|done].
Qed.

(** The last route of an entry goes: the entry goes with it. *)
Lemma rib_erase_last r n e route old fm out : rib_inv r -> deref n (m_rib r) = Some e -> findRoute route e = Some old ->
  re_routes (eraseRoute route e).1 = [] ->
  (forall g x, x ∈ faces_of fm g <-> x ∈ faces_of (m_faceMap r) g /\ ~ (g = r_faceId route /\ x = n)) ->
  exists t', eraseEntry (eraseRoute route e).1 (modify n (fun e => (eraseRoute route e).1) (m_rib r)) = Ok t' /\
    let r' := with_table t' fm (to_u64 (m_nItems r - 1)) out r in
    rib_inv r' /\ forall k, routes_at r' k = if decide (k = n) then [] else routes_at r k.
Proof.
  intros Hi He Hold Hnil Hfm. set (f := fun e => (eraseRoute route e).1). set (t1 := modify n f (m_rib r)).
  assert (Ht1 : rib_tree t1) by (apply modify_tree; [apply keeps_links_eraseRoute|apply Hi]).
  assert (He1 : deref n t1 = Some (f e)) by (unfold t1; by rewrite deref_modify, decide_True, He).
  destruct (erase_tree n (f e) t1 Ht1 He1) as (t'&Het&Ht'&Hk'&Hb'). exists t'. split; [exact Het|]. cbv zeta.
  assert (Hb : forall k, k <> n -> body_at t' k = body_at (m_rib r) k).
  { intros k Hk. rewrite Hb', decide_False by done. unfold t1, body_at. by rewrite deref_modify, decide_False. }
  assert (Hnt : deref n t' = None).
  { pose proof (Hb' n) as H. rewrite decide_True in H by done. unfold body_at in H. by destruct (deref n t'). }
  assert (Hone : length (re_routes e) = 1%nat) by (rewrite (erase_route_length route e old Hold), <- eraseRoute_routes, Hnil; done).
  split; [constructor; cbn [m_rib m_faceMap m_nItems with_table]|].
  - done.
  - intros k e' Hk. destruct (decide (k = n)) as [->|Hkn]; [congruence|]. destruct (body_same _ _ _ _ (Hb k Hkn) Hk) as (e0&He0&<-).
    by apply (rib_inv_routes _ Hi k).
  - rewrite (rib_inv_count _ Hi). rewrite <- Z.add_opp_r, to_u64_add. f_equal.
    pose proof (total_modify n f (m_rib r) e (tree_keys _ (rib_inv_tree _ Hi)) He) as Htot. fold t1 in Htot. rewrite Hone in Htot.
    assert (Hf0 : re_routes (f e) = []) by exact Hnil. rewrite Hf0 in Htot. cbn [length] in Htot.
    assert (total_routes t' = total_routes t1) as ->; [|lia].
    rewrite (total_keys t'), (total_keys t1) by (apply keys_sorted_NoDup, tree_keys; done). rewrite (sum_with_perm _ _ _ Hk'). cbn [sum_list_with].
    unfold routes_in at 2. rewrite He1, Hf0. cbn [length plus]. apply sum_with_ext. intros x Hx. apply routes_in_body. rewrite Hb', decide_False; [done|].
    intros ->. by apply deref_absent in Hnt.
  - intros g x. rewrite Hfm, (rib_inv_faces _ Hi). destruct (decide (x = n)) as [->|Hxn].
    + rewrite Hnt, He. split; [|by intros (?&?&_)]. intros [(e'&[= <-]&Hg) Hng]. exfalso. apply Hng. split; [|done].
      apply hasFaceId_iff in Hg. destruct (decide (g = r_faceId route)) as [|Hgr]; [done|]. apply (erase_faces route e old g Hold Hgr) in Hg.
      rewrite <- eraseRoute_routes, Hnil in Hg. by apply elem_of_nil in Hg.
    + split.
      * intros [(e'&Hde&Hg) _]. destruct (body_same _ _ _ _ (eq_sym (Hb x Hxn)) Hde) as (e0&He0&Hr). exists e0. split; [done|]. by rewrite (hasFaceId_routes g e0 e').
      * intros (e'&Hde&Hg). split; [|tauto]. destruct (body_same _ _ _ _ (Hb x Hxn) Hde) as (e0&He0&Hr). exists e0. split; [done|]. by rewrite (hasFaceId_routes g e0 e').
  - intros k. destruct (decide (k = n)) as [->|Hkn]; [unfold routes_at; cbn [m_rib with_table]; by rewrite Hnt|]. apply routes_at_body. by apply Hb.
Qed.

(** The lookup table after the route is gone *)
Lemma erase_face_map r n e route old : rib_inv r -> deref n (m_rib r) = Some e -> findRoute route e = Some old ->
  let fm := if hasFaceId (r_faceId route) (eraseRoute route e).1 then m_faceMap r else face_remove (r_faceId route) n (m_faceMap r) in
  forall g x, x ∈ faces_of fm g <-> (x <> n /\ x ∈ faces_of (m_faceMap r) g) \/ (x = n /\ g ∈ map r_faceId (erase_route route (re_routes e))).
Proof.
  intros Hi He Hold fm g x. unfold fm.
  assert (Hg : g <> r_faceId route -> n ∈ faces_of (m_faceMap r) g <-> g ∈ map r_faceId (erase_route route (re_routes e))).
  { intros Hgr. rewrite (erase_faces route e old g Hold Hgr). by apply faces_at. }
  destruct (hasFaceId (r_faceId route) (eraseRoute route e).1) eqn:Hh.
  - apply hasFaceId_iff in Hh. rewrite eraseRoute_routes in Hh. destruct (decide (x = n)) as [->|]; [|naive_solver].
    destruct (decide (g = r_faceId route)) as [->|Hgr]; [|naive_solver].
    assert (n ∈ faces_of (m_faceMap r) (r_faceId route)); [|naive_solver]. rewrite (faces_at r n e _ Hi He).
    apply findRoute_Some in Hold as [Hin [= <- _]]. apply list_elem_of_fmap. by exists old.
  - assert (Hn : r_faceId route ∉ map r_faceId (erase_route route (re_routes e))).
    { rewrite <- eraseRoute_routes, <- hasFaceId_iff. by rewrite Hh. }
    rewrite elem_of_face_remove. destruct (decide (x = n)) as [->|]; [|naive_solver]. destruct (decide (g = r_faceId route)) as [->|Hgr]; naive_solver.
Qed.

Lemma Rib_erase_spec r n route : rib_inv r -> rib_name n ->
  exists r', Rib_erase n route r = Ok r' /\ rib_inv r' /\
    forall k, routes_at r' k = if decide (k = n) then erase_route route (routes_at r n) else routes_at r k.
Proof.
  intros Hi Hn. unfold Rib_erase. pose proof (rib_inv_tree _ Hi) as Ht. rewrite (table_find_deref _ _ (tree_keys _ Ht) Hn).
  assert (Hsame : erase_route route (routes_at r n) = routes_at r n -> forall k, routes_at r k = if decide (k = n) then erase_route route (routes_at r n) else routes_at r k).
  { intros Heq k. destruct (decide (k = n)) as [->|]; [done|done]. }
  destruct (deref n (m_rib r)) as [e|] eqn:He; [|exists r; split_and!; [done..|]; apply Hsame; unfold routes_at; by rewrite He].
  assert (Hre : routes_at r n = re_routes e) by (unfold routes_at; by rewrite He).
  destruct (findRoute route e) as [old|] eqn:Hold.
  2:{ exists r. split_and!; [done..|]. apply Hsame. rewrite Hre. apply erase_route_absent. by apply findRoute_None. }
  pose proof (erase_face_map r n e route old Hi He Hold) as Hfm. cbv zeta in Hfm. rewrite (tree_named _ Ht _ _ He).
  rewrite (surjective_pairing (eraseRoute route e)). set (fm := if hasFaceId _ _ then _ else _) in *.
  pose proof (eraseRoute_routes route e) as Her. destruct (rib_inv_routes _ Hi _ _ He) as [Hok _]. rewrite Hre.
  destruct (Z.eqb_spec (len (re_routes (eraseRoute route e).1)) 0) as [H0|H0].
  - assert (Hnil : re_routes (eraseRoute route e).1 = []) by (destruct (re_routes (eraseRoute route e).1); [done|rewrite len_cons in H0; pose proof (len_nonneg l); lia]).
    destruct (rib_erase_last r n e route old fm (cancel_event (eraseRoute route e).2 ++ [AfterEraseEntry n]) Hi He Hold Hnil) as (t'&->&Hi'&Hr').
    { intros g x. rewrite Hfm, <- Her, Hnil. cbn [map]. destruct (decide (x = n)) as [->|]; [|naive_solver]. split.
      - intros [[? _]|[_ ?%elem_of_nil]]; done.
      - intros [Hin Hng]. exfalso. apply Hng. split; [|done]. destruct (decide (g = r_faceId route)) as [|Hgr]; [done|].
        rewrite (faces_at r n e g Hi He), <- (erase_faces route e old g Hold Hgr), <- Her, Hnil in Hin. by apply elem_of_nil in Hin. }
    cbn [rbind]. eexists. split_and!; [done|done|]. intros k. rewrite Hr'. by rewrite <- Her, Hnil.
  - eexists. split; [done|]. rewrite <- Her.
    apply (change_inv r n e (fun e => (eraseRoute route e).1)); [done|done|apply keeps_links_eraseRoute| | | |].
    + rewrite Her. by apply erase_route_ok.
    + intros Hnil. rewrite Hnil in H0. done.
    + f_equal. rewrite Her. pose proof (erase_route_length route e old Hold). unfold len. lia.
    + intros g x. rewrite Her. apply Hfm.
Qed.

(** ** Routes that a name inherits *)

(** [o] is the longest name of the table that is a prefix of [n] shorter than [k]. *)
Definition longest_below (t : RibTable) (n : Name) (k : nat) (o : option Name) : Prop :=
  match o with
  | Some p => p ∈ keys t /\ p `prefix_of` n /\ (length p < k)%nat /\ forall q, q ∈ keys t -> q `prefix_of` n -> (length q < k)%nat -> q `prefix_of` p
  | None => forall q, q ∈ keys t -> q `prefix_of` n -> ~ (length q < k)%nat
  end.

Lemma longest_below_parent t n k o : (k <= length n)%nat -> is_parent (keys t) (take k n) o -> longest_below t n k o.
Proof.
  intros Hk Ho. assert (Hq : forall q, under q (take k n) <-> q `prefix_of` n /\ (length q < k)%nat).
  { intros q. split.
    - intros Hu. pose proof (under_length _ _ Hu) as Hl. rewrite length_take in Hl. split; [|lia]. transitivity (take k n); [apply Hu|apply prefix_take].
    - intros [[l ->] Hl]. split; [|intros Heq; apply (f_equal length) in Heq; rewrite length_take in Heq; lia]. rewrite take_app_ge by lia. by eexists. }
  destruct o as [p|]; unfold is_parent, longest_below in *.
  2:{ intros q Hqt Hqn Hl. apply (Ho q Hqt). by apply Hq. }
  destruct Ho as (Hp&Hu&Hmax). apply Hq in Hu as [? ?]. split_and!; [done..|]. intros q Hqk Hqn Hl. apply Hmax; [done|]. by apply Hq.
Qed.

Lemma longest_below_unique t n k o1 o2 : longest_below t n k o1 -> longest_below t n k o2 -> o1 = o2.
Proof.
  destruct o1 as [p|], o2 as [q|]; unfold longest_below; [|intros (?&?&?&_) Hno; by destruct (Hno p)|intros Hno (?&?&?&_); by destruct (Hno q)|done].
  intros (Hp&Hpn&Hpk&H1) (Hq&Hqn&Hqk&H2). f_equal.
  apply (prefix_length_eq p q); [by apply H2|]. apply prefix_length. by apply H1.
Qed.

(** The entries whose routes count for the name: those of its proper prefixes, the
    longest first, up to the first that captures *)
Fixpoint visible (t : RibTable) (n : Name) (k : nat) : list RibEntry :=
  match k with
  | O => []
  | S i =>
      match deref (take i n) t with
      | None => visible t n i
      | Some e => e :: if hasCapture e then [] else visible t n i
      end
  end.

Definition inheritable (t : RibTable) (n : Name) : list Route :=
  flat_map (fun e => filter (fun r => isChildInherit r = true) (re_routes e)) (visible t n (length n)).

Definition RouteSet_of (l s : list Route) : list Route := fold_left (fun s r => RouteSet_insert r s) l s.

Lemma inherit_from_filter e s : inherit_from e s = RouteSet_of (filter (fun r => isChildInherit r = true) (re_routes e)) s.
Proof.
  unfold inherit_from, RouteSet_of. generalize (re_routes e) as l. intros l. revert s. induction l as [|r l IH]; intros s; [done|]. cbn [fold_left].
  rewrite filter_cons. destruct (isChildInherit r) eqn:Hr; [rewrite decide_True by done|rewrite decide_False by done]; apply IH.
Qed.

(** The names of the table that the walk can still meet *)
Definition to_meet (t : RibTable) (n : Name) (k : nat) : nat := length (filter (fun q => q `prefix_of` n /\ (length q < k)%nat) (keys t)).

Lemma filter_length_le {A} (P Q : A -> Prop) `{!forall x, Decision (P x), !forall x, Decision (Q x)} l :
  (forall x, P x -> Q x) -> (length (filter P l) <= length (filter Q l))%nat.
Proof.
  intros HPQ. induction l as [|x l IH]; [done|]. rewrite !filter_cons. destruct (decide (P x)) as [HP|]; [rewrite decide_True by auto; cbn; lia|].
  destruct (decide (Q x)); cbn; lia.
Qed.

Lemma filter_length_lt {A} (P Q : A -> Prop) `{!forall x, Decision (P x), !forall x, Decision (Q x)} l y :
  (forall x, P x -> Q x) -> y ∈ l -> Q y -> ~ P y -> (length (filter P l) < length (filter Q l))%nat.
Proof.
  intros HPQ (a&b&->)%list_elem_of_split HQ HP. rewrite !filter_app, !filter_cons, (decide_True (P := Q y)), (decide_False (P := P y)) by done.
  rewrite !length_app. cbn [length]. pose proof (filter_length_le P Q a HPQ). pose proof (filter_length_le P Q b HPQ). lia.
Qed.

Lemma ancestor_loop_visible t n : rib_tree t -> forall k fuel o s, (k <= length n)%nat -> longest_below t n k o -> (to_meet t n k <= fuel)%nat ->
  ancestor_loop fuel o t s = Some (RouteSet_of (flat_map (fun e => filter (fun r => isChildInherit r = true) (re_routes e)) (visible t n k)) s).
Proof.
  intros Ht. induction k as [|i IH]; intros fuel o s Hk Ho Hfuel; cbn [visible].
  { destruct o as [p|]; [destruct Ho as (_&_&?&_); lia|]. by destruct fuel. }
  assert (Hlt : length (take i n) = i) by (rewrite length_take; lia).
  assert (Hin : forall q, q `prefix_of` n -> length q = i -> q = take i n) by (intros q [l ->] <-; by rewrite take_app_length).
  destruct (deref (take i n) t) as [e|] eqn:He.
  - assert (Ho' : o = Some (take i n)).
    { apply (longest_below_unique t n (S i)); [done|]. split_and!; [by eapply deref_key|apply prefix_take|lia|].
      intros q _ Hqn Hl. destruct (decide (length q = i)) as [Hq|]; [rewrite (Hin q Hqn Hq); done|].
      destruct (prefix_weak_total q (take i n) n Hqn (prefix_take _ _)) as [|Hp]; [done|]. apply prefix_length in Hp. lia. }
    subst o. assert (Hm : (to_meet t n i < to_meet t n (S i))%nat).
    { unfold to_meet. apply (filter_length_lt _ _ _ (take i n)); [intros x [? ?]; split; [done|lia]|by eapply deref_key|split; [apply prefix_take|lia]|lia]. }
    destruct fuel as [|fuel]; [lia|]. cbn [ancestor_loop flat_map]. rewrite He, inherit_from_filter. unfold RouteSet_of. rewrite fold_left_app.
    destruct (hasCapture e); [done|]. apply IH; [lia| |lia]. apply longest_below_parent; [lia|]. apply (tree_parent _ Ht). unfold parent_at. by rewrite He.
  - apply deref_absent in He. assert (Hne : forall q, q ∈ keys t -> q `prefix_of` n -> (length q < S i)%nat -> (length q < i)%nat).
    { intros q Hq Hqn Hl. destruct (decide (length q = i)) as [Hqi|]; [|lia]. by rewrite (Hin q Hqn Hqi) in Hq. }
    apply IH; [lia| |].
    + destruct o as [p|]; cbn in Ho |- *.
      * destruct Ho as (Hp&Hpn&Hl&Hmax). split_and!; [done|done|by apply Hne|]. intros q Hq Hqn Hql. apply Hmax; [done|done|lia].
      * intros q Hq Hqn Hql. apply (Ho q Hq Hqn). lia.
    + etransitivity; [|exact Hfuel]. unfold to_meet. apply filter_length_le. intros x [? ?]. split; [done|lia].
Qed.

(** A set keeps the first route of each face. *)
Definition faces_sorted (s : list Route) : Prop := StronglySorted (fun a b => r_faceId a < r_faceId b) s.

Lemma RouteSet_insert_spec r s : faces_sorted s ->
  faces_sorted (RouteSet_insert r s) /\
  forall x, x ∈ RouteSet_insert r s <-> x ∈ s \/ (x = r /\ r_faceId r ∉ map r_faceId s).
Proof.
  induction s as [|y s IH]; intros Hs; cbn [RouteSet_insert map].
  { split; [repeat constructor|]. intros x. rewrite list_elem_of_singleton. split; [intros ->; right; split; [done|apply not_elem_of_nil]|].
    by intros [?%elem_of_nil|[-> _]]. }
  apply StronglySorted_inv in Hs as [Hs Hy]. rewrite Forall_forall in Hy. destruct (Z.ltb_spec (r_faceId r) (r_faceId y)) as [Hlt|Hge].
  - assert (Hn : r_faceId r ∉ r_faceId y :: map r_faceId s).
    { rewrite elem_of_cons, list_elem_of_fmap. intros [?|(z&Hz&Hin)]; [lia|]. specialize (Hy z Hin). lia. }
    split; [|intros x; rewrite elem_of_cons; tauto]. constructor; [by constructor; [|apply Forall_forall]|]. constructor; [done|]. apply Forall_forall.
    intros z Hz. specialize (Hy z Hz). lia.
  - destruct (IH Hs) as [IHs IHm]. destruct (Z.ltb_spec (r_faceId y) (r_faceId r)) as [Hlt|Hge'].
    + split.
      * constructor; [done|]. apply Forall_forall. intros z [Hz|[-> _]]%IHm; [by apply Hy|done].
      * intros x. rewrite !elem_of_cons, IHm. assert (r_faceId r <> r_faceId y) by lia. tauto.
    + split; [by constructor; [|apply Forall_forall]|]. intros x. split; [tauto|]. intros [?|[_ Hn]]; [done|]. rewrite not_elem_of_cons in Hn. lia.
Qed.

Definition first_of_face (r : Route) (l : list Route) : Prop := List.find (fun x => r_faceId x =? r_faceId r) l = Some r.

Lemma RouteSet_of_spec l : forall s, faces_sorted s ->
  faces_sorted (RouteSet_of l s) /\ forall x, x ∈ RouteSet_of l s <-> x ∈ s \/ ((r_faceId x ∉ map r_faceId s) /\ first_of_face x l).
Proof.
  induction l as [|r l IH]; intros s Hs; unfold RouteSet_of, first_of_face; cbn [fold_left List.find].
  { split; [done|]. naive_solver. }
  destruct (RouteSet_insert_spec r s Hs) as [Hs' Hm]. destruct (IH _ Hs') as [IHs IHm]. split; [done|]. intros x. unfold RouteSet_of in IHm. rewrite IHm, Hm.
  assert (Hf : r_faceId x ∉ map r_faceId (RouteSet_insert r s) <-> (r_faceId x ∉ map r_faceId s) /\ r_faceId x <> r_faceId r).
  { rewrite !list_elem_of_fmap. split.
    - intros Hn. split; [intros (z&Hz&Hin); apply Hn; exists z; split; [done|apply Hm; by left]|]. intros Hxr. apply Hn.
      destruct (decide (r_faceId r ∈ map r_faceId s)) as [(z&Hz&Hin)%list_elem_of_fmap|Hnr].
      + exists z. split; [congruence|]. apply Hm. by left.
      + exists r. split; [done|]. apply Hm. by right.
    - intros [Hn Hxr] (z&Hz&[Hin|[-> _]]%Hm); [apply Hn; by exists z|done]. }
  rewrite Hf. unfold first_of_face. destruct (Z.eqb_spec (r_faceId r) (r_faceId x)) as [He|He].
  - split; [intros [[?|[-> ?]]|[[_ ?] _]]; [by left|right; by rewrite <- ?He|congruence]|].
    intros [?|[? [= ->]]]; [tauto|]. left. right. done.
  - split; [intros [[?|[-> ?]]|[[? _] ?]]; [by left|done|by right]|]. intros [?|[? ?]]; [tauto|]. right. split; [split; [done|congruence]|done].
Qed.

Lemma length_keys t : length (keys t) = length t.
Proof. apply length_map. Qed.

Lemma to_meet_le t n k : (to_meet t n k <= length t)%nat.
Proof. unfold to_meet. rewrite <- length_keys. apply length_filter. Qed.

Lemma routes_ok_inj l x y : routes_ok l -> x ∈ l -> y ∈ l -> route_key x = route_key y -> x = y.
Proof.
  unfold routes_ok. induction l as [|z l IH]; cbn [map]; intros Hd Hx Hy Hk; [by apply elem_of_nil in Hx|]. apply NoDup_cons in Hd as [Hz Hd].
  apply elem_of_cons in Hx as [->|Hx]; apply elem_of_cons in Hy as [->|Hy]; [done| | |by apply IH]; exfalso; apply Hz;
    [rewrite Hk|rewrite <- Hk]; apply list_elem_of_fmap; eauto.
Qed.

(** The routes that the walk over the parents finds: one per face, that of the
    longest prefix that has one *)
Definition ancestor_routes (t : RibTable) (n : Name) (s : list Route) : Prop :=
  faces_sorted s /\ forall x, x ∈ s <-> first_of_face x (inheritable t n).

Lemma ancestor_loop_routes t n o : rib_tree t -> is_parent (keys t) n o ->
  exists s, ancestor_loop (length t) o t [] = Some s /\ ancestor_routes t n s.
Proof.
  intros Ht Ho. rewrite <- (firstn_all n) in Ho. apply longest_below_parent in Ho; [|done].
  rewrite (ancestor_loop_visible t n Ht _ _ _ _ (le_n _) Ho (to_meet_le t n _)). eexists. split; [done|].
  destruct (RouteSet_of_spec (inheritable t n) [] ltac:(constructor)) as [Hs Hm]. split; [exact Hs|]. intros x. unfold inheritable in *. rewrite Hm.
  split; [intros [?%elem_of_nil|[_ ?]]; done|]. intros Hf. right. split; [apply not_elem_of_nil|done].
Qed.

(** C15. [getAncestorRoutes] terminates on every tree and finds what the prefixes allow:
    of each face, the first child-inherit route in the entries of the proper prefixes
    of the name, the longest prefix first, up to the first entry that captures; by name
    and by entry the result is the same. *)
Theorem rib_ancestor_routes (t : RibTable) (n : Name) (Ht : rib_tree t) (Hn : rib_name n) :
  exists s, getAncestorRoutes_name n t = Some s /\ ancestor_routes t n s /\ forall e, deref n t = Some e -> getAncestorRoutes e t = Some s.
Proof.
  pose proof (findParent_spec n t (tree_keys _ Ht) Hn (tree_named _ Ht)) as Hp. unfold getAncestorRoutes_name, getAncestorRoutes.
  destruct (ancestor_loop_routes t n _ Ht Hp) as (s&Hs&Hr). exists s. split_and!; [done|done|]. intros e He. rewrite <- Hs. f_equal.
  apply (is_parent_unique (keys t) n); [|done]. apply (tree_parent _ Ht). unfold parent_at. by rewrite He.
Qed.

(** C13. The RIB is a map from names to routes.  Registering a route in a RIB that
    satisfies the invariant fails no assertion, keeps the invariant (the tree of longest
    prefixes, the count, the lookup table of the faces) and registers the route under
    the name only; unregistering removes the route of the face and the origin under the
    name only, and the entry with its last route; a lookup finds what is registered. *)
Theorem rib_refines_map (r : Rib) (n : Name) (route : Route) (Hr : rib_inv r) (Hn : rib_name n) :
  (exists r', Rib_insert n route r = Ok r' /\ rib_inv r' /\
     forall k, routes_at r' k = if decide (k = n) then register route (routes_at r n) else routes_at r k) /\
  (exists r', Rib_erase n route r = Ok r' /\ rib_inv r' /\
     forall k, routes_at r' k = if decide (k = n) then erase_route route (routes_at r n) else routes_at r k) /\
  (forall x, Rib_find_route n route r = Some x <-> x ∈ routes_at r n /\ route_key x = route_key route) /\
  (Rib_find n r = None <-> routes_at r n = []).
Proof.
  split_and!; [by apply Rib_insert_spec|by apply Rib_erase_spec| |]; unfold Rib_find_route, Rib_find, routes_at;
    rewrite (table_find_deref _ _ (tree_keys _ (rib_inv_tree _ Hr)) Hn); destruct (deref n (m_rib r)) as [e|] eqn:He.
  - destruct (rib_inv_routes _ Hr _ _ He) as [Hok _]. intros x. split; [apply findRoute_Some|]. intros [Hx Hk].
    destruct (findRoute route e) as [y|] eqn:Hy.
    + apply findRoute_Some in Hy as [Hy Hky]. f_equal. apply (routes_ok_inj (re_routes e)); [done..|congruence].
    + apply findRoute_None in Hy. destruct Hy. rewrite <- Hk. apply list_elem_of_fmap. by exists x.
  - intros x. split; [done|]. by intros [?%elem_of_nil _].
  - destruct (rib_inv_routes _ Hr _ _ He) as [_ Hne]. split; [done|]. intros ?. by destruct Hne.
  - done.
Qed.

(** [findRoutesWithFaceId] finds exactly the routes over the face, under their names. *)
Lemma face_routes (r : Rib) (f : Z) (n : Name) (route : Route) (Hr : rib_inv r) :
  (n, route) ∈ findRoutesWithFaceId f r <-> route ∈ routes_at r n /\ r_faceId route = f.
Proof.
  pose proof (rib_inv_faces _ Hr f n) as Hf. unfold faces_of in Hf. unfold findRoutesWithFaceId, routes_at.
  assert (Hro : forall l, (n, route) ∈ flat_map (routes_of f (m_rib r)) l <-> n ∈ l /\ (n, route) ∈ routes_of f (m_rib r) n).
  { intros l. rewrite list_elem_of_In, in_flat_map. split.
    - intros (y&Hy&Hin). apply list_elem_of_In in Hy; apply list_elem_of_In in Hin. assert (y = n) as ->; [|done]. unfold routes_of in Hin.
      destruct (deref y (m_rib r)) as [e|] eqn:He; [|by apply elem_of_nil in Hin]. apply list_elem_of_fmap in Hin as (z&[= -> _]&_).
      by rewrite (tree_named _ (rib_inv_tree _ Hr) _ _ He).
    - intros [Hy Hin]. exists n. split; by apply list_elem_of_In. }
  assert (Hl : (n, route) ∈ match m_faceMap r !! f with Some l => flat_map (routes_of f (m_rib r)) l | None => [] end <->
                n ∈ default [] (m_faceMap r !! f) /\ (n, route) ∈ routes_of f (m_rib r) n).
  { destruct (m_faceMap r !! f); [by apply Hro|]. cbn. split; [by intros ?%elem_of_nil|by intros [?%elem_of_nil _]]. }
  rewrite Hl, Hf. unfold routes_of. destruct (deref n (m_rib r)) as [e|] eqn:He.
  - rewrite list_elem_of_fmap. rewrite (tree_named _ (rib_inv_tree _ Hr) _ _ He). split.
    + intros [_ (z&[= <-]&Hz)]. apply list_elem_of_filter in Hz. tauto.
    + intros [Hin Hfc]. split; [exists e; split; [done|]; apply hasFaceId_iff, list_elem_of_fmap; by exists route|].
      exists route. split; [done|]. by apply list_elem_of_filter.
  - split; [by intros [(?&?&_) _]|by intros [?%elem_of_nil _]].
Qed.

(** The count of capturing routes is not kept when a registration changes the flags
    of a route: an entry can have a route that captures while [hasCapture] says none does. *)
Theorem rib_capture_not_counted (r : Rib) (n : Name) (e : RibEntry) (route old : Route) (Hr : rib_inv r) (Hn : rib_name n)
  (He : deref n (m_rib r) = Some e) (Hold : findRoute route e = Some old) (Hc : hasCapture e = false) (Hcap : isCapture route = true) :
  exists r' e', Rib_insert n route r = Ok r' /\ deref n (m_rib r') = Some e' /\ hasCapture e' = false /\ Exists (fun x => isCapture x = true) (re_routes e').
Proof.
  unfold Rib_insert. pose proof (rib_inv_tree _ Hr) as Ht. rewrite (table_find_deref _ _ (tree_keys _ Ht) Hn), He, Hold. eexists _, _. split; [done|].
  cbn [m_rib with_table]. rewrite (tree_named _ Ht _ _ He), deref_modify, decide_True, He by done. split_and!; [done|done|]. cbn [re_routes setRoutes].
  unfold findRoute in Hold. clear -Hold Hcap. induction (re_routes e) as [|x l IH]; [done|]. cbn [List.find update_route] in *.
  destruct (compareFaceIdAndOrigin x route); [by constructor|]. apply Exists_cons_tl. by apply IH.
Qed.
