(* ===== verification/RibQueue.v ===== *)
(** * The update queue of the RIB

    Updates wait until the FIB updater has answered the one before.  A run of the
    RIB is a sequence of submissions and answers; what the RIB holds is the replay
    of the updates that succeeded, in the order of their submission. *)

From S2P Require Import Prelude StdMap Tlv NameComponent Name Packet CsEntry RibEntry Rib RibTree RibProps.

(** ** Inherited routes *)

Lemma modify_const n e f t : NoDup (keys t) -> deref n t = Some e -> modify n (fun _ => f e) t = modify n f t.
Proof.
  intros Hd He. unfold modify. apply map_ext_in. intros [k x] Hin%list_elem_of_In. cbn [fst snd]. destruct (decide (k = n)) as [->|]; [|done].
  assert (x = e) as ->; [|done]. clear -Hd He Hin. induction t as [|[y z] t IH]; [by apply elem_of_nil in Hin|]. rewrite deref_cons in He. cbn [fst snd] in He.
  cbn [keys map fst] in Hd. apply NoDup_cons in Hd as [Hy Hd]. destruct (decide (y = n)) as [->|Hyn].
  - injection He as ->. apply elem_of_cons in Hin as [[= <-]|Hin]; [done|]. destruct Hy. apply list_elem_of_fmap. by exists (n, x).
  - apply elem_of_cons in Hin as [[= -> ->]|Hin]; [done|]. by apply IH.
Qed.

(** Only the inherited routes of the table differ. *)
Definition same_routes (t t' : RibTable) : Prop :=
  keys t' = keys t /\ forall k, (fun e => re_routes e) <$> deref k t' = (fun e => re_routes e) <$> deref k t.

Lemma same_routes_modify n f t : (forall e, re_routes (f e) = re_routes e) -> same_routes t (modify n f t).
Proof.
  intros Hf. split; [apply keys_modify|]. intros k. rewrite deref_modify. destruct (decide (k = n)); [|done]. destruct (deref k t); [|done]. cbn. by rewrite Hf.
Qed.

Lemma modifyInheritedRoutes_spec l : forall t t', rib_tree t -> Forall (fun u => rib_name (ru_name u)) l ->
  modifyInheritedRoutes l t = Ok t' -> rib_tree t' /\ same_routes t t'.
Proof.
  induction l as [|u l IH]; intros t t' Ht Hl; cbn [modifyInheritedRoutes]; [intros [= <-]; split; [done|by split]|].
  apply Forall_cons in Hl as [Hu Hl]. rewrite (table_find_deref _ _ (tree_keys _ Ht) Hu). destruct (deref (ru_name u) t) as [e|] eqn:He; [|done].
  rewrite (tree_named _ Ht _ _ He).
  assert (Hstep : forall f, keeps_links f -> (forall e, re_routes (f e) = re_routes e) ->
            modifyInheritedRoutes l (modify (ru_name u) f t) = Ok t' -> rib_tree t' /\ same_routes t t').
  { intros f Hf Hfr Hm. destruct (IH _ _ (modify_tree (ru_name u) f t Hf Ht) Hl Hm) as [Ht' [Hk Hr]]. split; [done|].
    destruct (same_routes_modify (ru_name u) f t Hfr) as [Hk1 Hr1]. split; [congruence|]. intros k. by rewrite Hr, Hr1. }
  destruct (ru_action u).
  - by apply Hstep.
  - unfold removeInheritedRoute. destruct (hasInheritedRoute (ru_route u) e); [|done]. cbn [rbind].
    rewrite (modify_const _ e (fun e => setInherited (erase_face (r_faceId (ru_route u)) (re_inheritedRoutes e)) e));
      [by apply Hstep|apply keys_sorted_NoDup, tree_keys; done|done].
  - by apply IH.
Qed.

Lemma same_routes_inv r t : rib_inv r -> rib_tree t -> same_routes (m_rib r) t ->
  rib_inv (with_table t (m_faceMap r) (m_nItems r) [] r) /\ forall k, routes_at (with_table t (m_faceMap r) (m_nItems r) [] r) k = routes_at r k.
Proof.
  intros Hi Ht [Hk Hs].
  assert (Hd : forall k e, deref k t = Some e -> exists e0, deref k (m_rib r) = Some e0 /\ re_routes e0 = re_routes e).
  { intros k e He. specialize (Hs k). rewrite He in Hs. destruct (deref k (m_rib r)) as [y|]; [|done]. cbn in Hs. exists y. split; [done|]. congruence. }
  assert (Hd' : forall k e, deref k (m_rib r) = Some e -> exists e0, deref k t = Some e0 /\ re_routes e0 = re_routes e).
  { intros k e He. specialize (Hs k). rewrite He in Hs. destruct (deref k t) as [y|]; [|done]. cbn in Hs. exists y. split; [done|]. congruence. }
  split; [constructor; cbn [m_rib m_faceMap m_nItems with_table]|].
  - done.
  - intros n e (e0&He0&<-)%Hd. by apply (rib_inv_routes _ Hi n).
  - rewrite (rib_inv_count _ Hi). do 2 f_equal. rewrite (total_keys t), (total_keys (m_rib r)) by (apply keys_sorted_NoDup, tree_keys; first [done|apply Hi]).
    rewrite Hk. apply sum_with_ext. intros x _. unfold routes_in. specialize (Hs x). destruct (deref x t), (deref x (m_rib r)); cbn in Hs; try done.
    by injection Hs as ->.
  - intros f n. rewrite (rib_inv_faces _ Hi). split.
    + intros (e&He&Hf). destruct (Hd' n e He) as (e0&?&Hr). exists e0. split; [done|]. by rewrite (hasFaceId_routes f e0 e).
    + intros (e&He&Hf). destruct (Hd n e He) as (e0&?&Hr). exists e0. split; [done|]. by rewrite (hasFaceId_routes f e0 e).
  - intros k. unfold routes_at. cbn [m_rib with_table]. specialize (Hs k). destruct (deref k t), (deref k (m_rib r)); cbn in Hs; congruence.
Qed.

(** ** The abstract RIB: a function from names to routes *)

Definition RouteMap : Type := Name -> list Route.

Definition apply_update (m : RouteMap) (u : RibUpdate) : RouteMap := fun k =>
  if decide (k = ru_name u) then
    match ru_action u with REGISTER => register (ru_route u) (m k) | _ => erase_route (ru_route u) (m k) end
  else m k.

(** The updates that succeeded, one after the other *)
Definition replay (answered : list (UpdateQueueItem * bool)) : RouteMap :=
  fold_left (fun m a => if a.2 : bool then fold_left apply_update (rub_updates (uqi_batch a.1)) m else m) answered (fun _ => []).

Definition item_of (u : RibUpdate) (onSuccess onFailure : option Z) : UpdateQueueItem :=
  MkUpdateQueueItem (MkRibUpdateBatch (r_faceId (ru_route u)) [u]) onSuccess onFailure.

(** Removals that [beginRemoveFace] submits *)
Definition removals (faceId : Z) (r : Rib) : list UpdateQueueItem :=
  map (fun nr => item_of (MkRibUpdate REMOVE_FACE nr.1 nr.2) None None) (findRoutesWithFaceId faceId r).

(** A run: what was submitted, and what the FIB updater answered, so far *)
Inductive rib_run : Rib -> list UpdateQueueItem -> list (UpdateQueueItem * bool) -> Prop :=
| RunNew : rib_run Rib_new [] []
| RunUpdate r r' sub ans u s f : rib_run r sub ans -> rib_name (ru_name u) -> beginApplyUpdate u s f r = Ok r' ->
    rib_run r' (sub ++ [item_of u s f]) ans
| RunExpire r r' sub ans n route : rib_run r sub ans -> rib_name n -> onRouteExpiration n route r = Ok r' ->
    rib_run r' (sub ++ [item_of (MkRibUpdate UNREGISTER n route) None None]) ans
| RunRemoveFace r r' sub ans faceId : rib_run r sub ans -> beginRemoveFace faceId r = Ok r' ->
    rib_run r' (sub ++ removals faceId r) ans
| RunSuccess r r' sub ans it inh : rib_run r sub ans -> rib_inFlight r = Some it -> Forall (fun u => rib_name (ru_name u)) inh ->
    onFibUpdateSuccess (uqi_batch it) inh (uqi_onSuccess it) r = Ok r' -> rib_run r' sub (ans ++ [(it, true)])
| RunFailure r r' sub ans it code : rib_run r sub ans -> rib_inFlight r = Some it ->
    onFibUpdateFailure (uqi_onFailure it) code r = Ok r' -> rib_run r' sub (ans ++ [(it, false)]).

(** ** The queue *)

Definition pending (r : Rib) : list UpdateQueueItem := option_list (rib_inFlight r) ++ m_updateBatches r.

Definition item_ok (it : UpdateQueueItem) : Prop := exists u s f, it = item_of u s f /\ rib_name (ru_name u).

Record queue_ok (r : Rib) : Prop := {
  queue_busy : m_isUpdateInProgress r = true <-> is_Some (rib_inFlight r);
  queue_items : Forall item_ok (pending r)
}.

(** Nothing waits while nothing is in flight. *)
Definition served (r : Rib) : Prop := rib_inFlight r = None -> m_updateBatches r = [].

(** The part of the RIB that the queue does not touch *)
Definition same_rib (r r' : Rib) : Prop := m_rib r' = m_rib r /\ m_faceMap r' = m_faceMap r /\ m_nItems r' = m_nItems r.

Lemma same_rib_inv r r' : same_rib r r' -> rib_inv r -> rib_inv r' /\ forall k, routes_at r' k = routes_at r k.
Proof.
  intros (Ht&Hf&Hc) [? ? ? ?]. split; [|intros k; unfold routes_at; by rewrite Ht]. constructor; rewrite ?Ht, ?Hf, ?Hc; done.
Qed.

Lemma sendBatch_spec r : queue_ok r ->
  exists r', sendBatchFromQueue r = Ok r' /\ queue_ok r' /\ served r' /\ pending r' = pending r /\ same_rib r r'.
Proof.
  intros [Hb Hi]. unfold sendBatchFromQueue, served. destruct (m_updateBatches r) as [|it q] eqn:Hq; [by exists r|].
  destruct (m_isUpdateInProgress r) eqn:Hp.
  - exists r. destruct (proj1 Hb eq_refl) as [x Hx]. split_and!; [done|constructor; [by rewrite Hp|done]|by rewrite Hx|done|done].
  - assert (Hn : rib_inFlight r = None) by (destruct (rib_inFlight r); [|done]; destruct Hb as [_ Hb]; discriminate Hb; by eexists).
    assert (Hit : item_ok it) by (unfold pending in Hi; rewrite Hn, Hq in Hi; by apply Forall_cons in Hi as [? _]).
    destruct Hit as (u&s&f&->&_). cbn [item_of uqi_batch rub_updates]. eexists. split; [done|]. unfold pending in *. rewrite Hn, Hq in *.
    split_and!; [constructor; [by cbn|done]|done|done|done].
Qed.

Lemma addUpdate_spec u s f r :
  addUpdateToQueue u s f r = Ok (with_queue (m_updateBatches r ++ [item_of u s f]) (m_isUpdateInProgress r) (rib_inFlight r) [] r).
Proof. unfold addUpdateToQueue, RibUpdateBatch_add, RibUpdateBatch_new. cbn [rub_faceId rub_updates app]. by rewrite Z.eqb_refl. Qed.

Lemma queue_ok_push r q : queue_ok r -> Forall item_ok q ->
  queue_ok (with_queue (m_updateBatches r ++ q) (m_isUpdateInProgress r) (rib_inFlight r) [] r).
Proof. intros [Hb Hi] Hq. constructor; [done|]. unfold pending in *. cbn [rib_inFlight m_updateBatches with_queue]. rewrite app_assoc. by apply Forall_app. Qed.

Lemma queue_removals_spec l : forall r, queue_removals l r = Ok (with_queue
    (m_updateBatches r ++ map (fun nr => item_of (MkRibUpdate REMOVE_FACE nr.1 nr.2) None None) l) (m_isUpdateInProgress r) (rib_inFlight r) [] r).
Proof.
  induction l as [|[n route] l IH]; intros r; cbn [queue_removals map].
  - unfold with_queue. rewrite !app_nil_r. by destruct r.
  - rewrite addUpdate_spec. cbn [rbind]. rewrite IH. cbn [m_updateBatches m_isUpdateInProgress rib_inFlight with_queue]. f_equal. unfold with_queue.
    cbn [m_rib m_faceMap m_nItems rib_output]. rewrite <- app_assoc. f_equal. by rewrite !app_nil_r.
Qed.

Definition same_queue (r r' : Rib) : Prop :=
  m_updateBatches r' = m_updateBatches r /\ m_isUpdateInProgress r' = m_isUpdateInProgress r /\ rib_inFlight r' = rib_inFlight r.

Lemma Rib_insert_queue n route r r' : Rib_insert n route r = Ok r' -> same_queue r r'.
Proof.
  unfold Rib_insert. destruct (table_find n (m_rib r)) as [e|]; [destruct (findRoute route e); by intros [= <-]|].
  intros (t1&_&(t2&_&[= <-])%rbind_Ok)%rbind_Ok. done.
Qed.

Lemma Rib_erase_queue n route r r' : Rib_erase n route r = Ok r' -> same_queue r r'.
Proof.
  unfold Rib_erase. destruct (table_find n (m_rib r)) as [e|]; [|by intros [= <-]]. destruct (findRoute route e); [|by intros [= <-]].
  destruct (eraseRoute route e) as [e' ev]. destruct (_ =? 0); [|by intros [= <-]]. intros (t1&_&[= <-])%rbind_Ok. done.
Qed.

Lemma apply_one u r : rib_inv r -> rib_name (ru_name u) ->
  exists r', apply_batch [u] r = Ok r' /\ rib_inv r' /\ same_queue r r' /\ forall k, routes_at r' k = apply_update (routes_at r) u k.
Proof.
  intros Hi Hn. cbn [apply_batch]. destruct (Rib_insert_spec r (ru_name u) (ru_route u) Hi Hn) as (r1&H1&Hi1&Hr1).
  destruct (Rib_erase_spec r (ru_name u) (ru_route u) Hi Hn) as (r2&H2&Hi2&Hr2).
  pose proof (Rib_insert_queue _ _ _ _ H1). pose proof (Rib_erase_queue _ _ _ _ H2). unfold apply_update. destruct (ru_action u).
  - exists r1. rewrite H1. split_and!; [done..|]. intros k. rewrite Hr1. by destruct (decide _) as [->|].
  - exists r2. rewrite H2. split_and!; [done..|]. intros k. rewrite Hr2. by destruct (decide _) as [->|].
  - exists r2. rewrite H2. split_and!; [done..|]. intros k. rewrite Hr2. by destruct (decide _) as [->|].
Qed.

Lemma names_of_routes r f nr : rib_inv r -> nr ∈ findRoutesWithFaceId f r -> rib_name nr.1.
Proof.
  intros Hi Hin. unfold findRoutesWithFaceId in Hin. destruct (m_faceMap r !! f) as [l|]; [|by apply elem_of_nil in Hin].
  apply list_elem_of_In, in_flat_map in Hin as (y&_&Hin%list_elem_of_In). unfold routes_of in Hin. destruct (deref y (m_rib r)) as [e|] eqn:He; [|by apply elem_of_nil in Hin].
  apply list_elem_of_fmap in Hin as (z&->&_). cbn [fst]. rewrite (tree_named _ (rib_inv_tree _ Hi) _ _ He).
  apply (keys_ok_name (keys (m_rib r))); [apply (tree_keys _ (rib_inv_tree _ Hi))|by eapply deref_key].
Qed.

(** What a run establishes *)
Record run_inv (r : Rib) (sub : list UpdateQueueItem) (ans : list (UpdateQueueItem * bool)) : Prop := {
  run_rib : rib_inv r;
  run_queue : queue_ok r;
  run_served : served r;
  run_order : sub = map fst ans ++ pending r;
  run_replay : forall n, routes_at r n = replay ans n
}.

(** Submissions are queued behind those that wait. *)
Lemma submit_spec r sub ans q : run_inv r sub ans -> Forall item_ok q ->
  exists r', sendBatchFromQueue (with_queue (m_updateBatches r ++ q) (m_isUpdateInProgress r) (rib_inFlight r) [] r) = Ok r' /\ run_inv r' (sub ++ q) ans.
Proof.
  intros [Hi Hq _ Ho Hr] Hok. destruct (sendBatch_spec _ (queue_ok_push r q Hq Hok)) as (r'&->&Hq'&Hs&Hp&Hsame). exists r'. split; [done|].
  destruct (same_rib_inv r r' Hsame Hi) as [Hi' Hr']. constructor; [done|done|done| |].
  - rewrite Hp, Ho. unfold pending. cbn [rib_inFlight m_updateBatches with_queue]. by rewrite !app_assoc.
  - intros n. by rewrite Hr'.
Qed.

Lemma update_spec u s f r sub ans : run_inv r sub ans -> rib_name (ru_name u) ->
  exists r', beginApplyUpdate u s f r = Ok r' /\ run_inv r' (sub ++ [item_of u s f]) ans.
Proof.
  intros Hr Hu. unfold beginApplyUpdate. rewrite addUpdate_spec. cbn [rbind]. apply submit_spec; [done|]. apply Forall_singleton. by exists u, s, f.
Qed.

Lemma lost_face_spec faceId r sub ans : run_inv r sub ans -> exists r', beginRemoveFace faceId r = Ok r' /\ run_inv r' (sub ++ removals faceId r) ans.
Proof.
  intros Hr. unfold beginRemoveFace. rewrite queue_removals_spec. cbn [rbind]. apply submit_spec; [done|]. apply Forall_map, Forall_forall.
  intros nr Hnr. eexists _, _, _. split; [done|]. by apply (names_of_routes r faceId); [apply Hr|].
Qed.

(** After an answer the next update is sent. *)
Lemma answer_spec r r1 sub ans it out ok : run_inv r sub ans -> rib_inFlight r = Some it -> rib_inv r1 -> same_queue r r1 ->
  (forall n, routes_at r1 n = replay (ans ++ [(it, ok)]) n) ->
  exists r', sendBatchFromQueue (with_queue (m_updateBatches r1) false None out r1) = Ok r' /\ run_inv r' sub (ans ++ [(it, ok)]).
Proof.
  intros [Hi [Hb Hq] _ Ho Hr] Hf Hi1 (Hq1&Hb1&Hf1) Hr1. unfold pending in Hq, Ho. rewrite Hf in Hq, Ho. cbn [option_list app] in Hq, Ho.
  apply Forall_cons in Hq as [_ Hq]. destruct (sendBatch_spec (with_queue (m_updateBatches r1) false None out r1)) as (r'&->&Hq'&Hs&Hp&Hsame).
  { constructor; [cbn; split; [done|by intros [? ?]]|]. unfold pending. cbn [rib_inFlight m_updateBatches with_queue option_list app]. by rewrite Hq1. }
  exists r'. split; [done|]. destruct (same_rib_inv (with_queue (m_updateBatches r1) false None out r1) r' Hsame) as [Hi' Hr'].
  { apply (same_rib_inv r1); [done|done]. }
  constructor; [done|done|done| |].
  - rewrite Hp, Ho, map_app. unfold pending. cbn [rib_inFlight m_updateBatches with_queue option_list app map fst]. by rewrite Hq1, <- app_assoc.
  - intros n. rewrite Hr'. apply Hr1.
Qed.

Lemma replay_snoc ans it ok n : replay (ans ++ [(it, ok)]) n = (if ok : bool then fold_left apply_update (rub_updates (uqi_batch it)) (replay ans) else replay ans) n.
Proof. unfold replay. rewrite fold_left_app. done. Qed.

Lemma failure_spec r sub ans it code : run_inv r sub ans -> rib_inFlight r = Some it ->
  exists r', onFibUpdateFailure (uqi_onFailure it) code r = Ok r' /\ run_inv r' sub (ans ++ [(it, false)]).
Proof. intros Hr Hf. apply (answer_spec r r); [done|done|apply Hr|done|]. intros n. rewrite replay_snoc. apply Hr. Qed.

Lemma item_in_flight r it : queue_ok r -> rib_inFlight r = Some it -> item_ok it.
Proof. intros [_ Hq] Hf. unfold pending in Hq. rewrite Hf in Hq. by apply Forall_cons in Hq as [? _]. Qed.

(** A success changes the table, whatever the inherited routes, if these fit. *)
Lemma success_spec r sub ans it : run_inv r sub ans -> rib_inFlight r = Some it ->
  exists r1, apply_batch (rub_updates (uqi_batch it)) r = Ok r1 /\
    forall inh t, Forall (fun u => rib_name (ru_name u)) inh -> modifyInheritedRoutes inh (m_rib r1) = Ok t ->
      exists r', onFibUpdateSuccess (uqi_batch it) inh (uqi_onSuccess it) r = Ok r' /\ run_inv r' sub (ans ++ [(it, true)]).
Proof.
  intros Hr Hf. destruct (item_in_flight r it (run_queue _ _ _ Hr) Hf) as (u&s&f&Hit&Hu).
  destruct (apply_one u r (run_rib _ _ _ Hr) Hu) as (r1&Ha&Hi1&Hq1&Hr1). exists r1. unfold onFibUpdateSuccess. rewrite Hit in *.
  cbn [item_of uqi_batch uqi_onSuccess rub_updates] in *. rewrite Ha. split; [done|]. intros inh t Hinh Hm. cbn [rbind]. rewrite Hm. cbn [rbind].
  destruct (modifyInheritedRoutes_spec inh _ _ (rib_inv_tree _ Hi1) Hinh Hm) as [Ht Hs]. destruct (same_routes_inv r1 t Hi1 Ht Hs) as [Hi2 Hr2].
  apply (answer_spec r); [done|done|done|done|]. intros n. rewrite Hr2, Hr1, replay_snoc. cbn [item_of uqi_batch rub_updates fold_left].
  unfold apply_update. by rewrite (run_replay _ _ _ Hr).
Qed.

Lemma rib_inv_new : rib_inv Rib_new.
Proof.
  constructor.
  - constructor; cbn [m_rib Rib_new].
    + split; [constructor|constructor].
    + done.
    + split; [done|done].
    + done.
  - done.
  - done.
  - intros f n. unfold faces_of. cbn [m_faceMap Rib_new]. rewrite lookup_empty. cbn. split; [by intros ?%elem_of_nil|by intros (?&?&_)].
Qed.

Lemma run_invariant r sub ans : rib_run r sub ans -> run_inv r sub ans.
Proof.
  induction 1 as [|r r' sub ans u s f _ IH Hu Hs|r r' sub ans n route _ IH Hn Hs|r r' sub ans faceId _ IH Hs|r r' sub ans it inh _ IH Hf Hinh Hs|r r' sub ans it code _ IH Hf Hs].
  - constructor; [apply rib_inv_new| |done|done|done]. constructor; [split; [done|by intros [? ?]]|constructor].
  - destruct (update_spec u s f r sub ans IH Hu) as (r1&H1&H2). congruence.
  - destruct (update_spec (MkRibUpdate UNREGISTER n route) None None r sub ans IH Hn) as (r1&H1&H2). unfold onRouteExpiration in Hs. congruence.
  - destruct (lost_face_spec faceId r sub ans IH) as (r1&H1&H2). congruence.
  - destruct (success_spec r sub ans it IH Hf) as (r1&Ha&Hall). pose proof Hs as Hs'. unfold onFibUpdateSuccess in Hs'. rewrite Ha in Hs'. cbn [rbind] in Hs'.
    apply rbind_Ok in Hs' as (t&Hm&_). destruct (Hall inh t Hinh Hm) as (r2&H2&H3). congruence.
  - destruct (failure_spec r sub ans it code IH Hf) as (r1&H1&H2). congruence.
Qed.

(** C14. The RIB serves its updates in the order of their submission, one at a time: in
    every run the submitted updates are those that are answered, then the one in flight,
    then those that wait, and nothing waits while none is in flight; the routes of every
    name are the replay of the answered updates that succeeded.  No assertion fails: a
    submission, the loss of a face, a failure and a success without inherited routes
    always lead to a next state. *)
Theorem rib_queue_refines_replay (r : Rib) (sub : list UpdateQueueItem) (ans : list (UpdateQueueItem * bool)) (Hrun : rib_run r sub ans) :
  sub = map fst ans ++ option_list (rib_inFlight r) ++ m_updateBatches r /\
  (rib_inFlight r = None -> m_updateBatches r = []) /\
  rib_inv r /\ (forall n, routes_at r n = replay ans n) /\
  (forall u s f, rib_name (ru_name u) -> exists r', beginApplyUpdate u s f r = Ok r') /\
  (forall faceId, exists r', beginRemoveFace faceId r = Ok r') /\
  (forall it, rib_inFlight r = Some it ->
     (forall code, exists r', onFibUpdateFailure (uqi_onFailure it) code r = Ok r') /\
     (exists r', onFibUpdateSuccess (uqi_batch it) [] (uqi_onSuccess it) r = Ok r')).
Proof.
  pose proof (run_invariant r sub ans Hrun) as Hi. split_and!; [apply Hi..| | |].
  - intros u s f Hu. destruct (update_spec u s f r sub ans Hi Hu) as (r'&?&_). eauto.
  - intros faceId. destruct (lost_face_spec faceId r sub ans Hi) as (r'&?&_). eauto.
  - intros it Hf. split.
    + intros code. destruct (failure_spec r sub ans it code Hi Hf) as (r'&?&_). eauto.
    + destruct (success_spec r sub ans it Hi Hf) as (r1&_&Hall). destruct (Hall [] (m_rib r1)) as (r'&?&_); [constructor|done|eauto].
Qed.

(** ** The loss of a face *)

Definition removal_of (nr : Name * Route) : RibUpdate := MkRibUpdate REMOVE_FACE nr.1 nr.2.

Lemma fold_removals l : forall (m : RouteMap) n, routes_ok (m n) ->
  routes_ok (fold_left apply_update (map removal_of l) m n) /\
  forall x, x ∈ fold_left apply_update (map removal_of l) m n <-> x ∈ m n /\ forall route, (n, route) ∈ l -> route_key x <> route_key route.
Proof.
  induction l as [|[k route] l IH]; intros m n Hok; cbn [map fold_left].
  { split; [done|]. intros x. split; [|tauto]. intros Hx. split; [done|]. intros ? ?%elem_of_nil. done. }
  assert (Hok' : routes_ok (apply_update m (removal_of (k, route)) n)).
  { unfold apply_update. cbn. destruct (decide (n = k)); [by apply erase_route_ok|done]. }
  destruct (IH _ n Hok') as [IH1 IH2]. split; [done|]. intros x. rewrite IH2. unfold apply_update. cbn [removal_of ru_name ru_action ru_route fst snd].
  destruct (decide (n = k)) as [->|Hnk].
  - rewrite (elem_of_erase_route route (m k) x Hok). split.
    + intros [[Hx Hk] Hall]. split; [done|]. intros y [[= <-]|Hy]%elem_of_cons; [done|by apply Hall].
    + intros [Hx Hall]. split_and!; [done|apply Hall; by left|]. intros y Hy. apply Hall. by right.
  - split; intros [Hx Hall]; (split; [done|]); intros y Hy; apply Hall; [apply elem_of_cons in Hy as [[= -> _]|]; done|by right].
Qed.

(** When a face is lost, the removals that [beginRemoveFace] submits take exactly the
    routes over that face out of the RIB, under every name. *)
Theorem rib_remove_face (r : Rib) (f : Z) (n : Name) (x : Route) (Hr : rib_inv r) :
  x ∈ fold_left apply_update (map removal_of (findRoutesWithFaceId f r)) (routes_at r) n <-> x ∈ routes_at r n /\ r_faceId x <> f.
Proof.
  assert (Hok : routes_ok (routes_at r n)).
  { unfold routes_at. destruct (deref n (m_rib r)) as [e|] eqn:He; [by apply (rib_inv_routes _ Hr n)|constructor]. }
  rewrite (proj2 (fold_removals (findRoutesWithFaceId f r) (routes_at r) n Hok) x). setoid_rewrite (face_routes r f n _ Hr). split.
  - intros [Hx Hall]. split; [done|]. intros Hxf. by apply (Hall x).
  - intros [Hx Hxf]. split; [done|]. intros y [Hy Hyf] [= Hk _]. congruence.
Qed.

(** ** Samples *)

Module RibSamples.
Ltac by_compute := vm_compute; reflexivity.

Definition nm (l : list Z) : Name := map (fun v => generic [v]) l.
Definition route1 : Route := MkRoute 256 0 1 10 0 None.
Definition route2 : Route := MkRoute 257 0 3 20 0 (Some 7).
Definition route3 : Route := MkRoute 256 128 1 5 0 None.

Definition ok_or (r : Rib) (x : result Rib) : Rib := match x with Ok r' => r' | Err _ => r end.

(** /A and /A/B/C, then /A/B between them *)
Definition rib1 : Rib := ok_or Rib_new (Rib_insert (nm [65]) route1 Rib_new).
Definition rib2 : Rib := ok_or Rib_new (Rib_insert (nm [65; 66; 67]) route1 rib1).
Definition rib3 : Rib := ok_or Rib_new (Rib_insert (nm [65; 66]) route2 rib2).

Lemma rib_inv_ok_or n route r : rib_inv r -> rib_name n -> rib_inv (ok_or Rib_new (Rib_insert n route r)).
Proof. intros Hr Hn. destruct (Rib_insert_spec r n route Hr Hn) as (r'&->&Hi&_). exact Hi. Qed.

Lemma rib_inv_rib2 : rib_inv rib2.
Proof. apply rib_inv_ok_or; [apply rib_inv_ok_or; [apply rib_inv_new|]|]; by_decide. Qed.
Lemma rib_inv_rib3 : rib_inv rib3.
Proof. apply rib_inv_ok_or; [apply rib_inv_rib2|]. by_decide. Qed.

Definition entry_at (n : Name) (r : Rib) : RibEntry := match deref n (m_rib r) with Some e => e | None => RibEntry_new end.

(** The entry of /A/B became the child of /A and the parent of /A/B/C. *)
Lemma rib_refines_map_witness :
  re_children (entry_at (nm [65]) rib3) = [nm [65; 66]] /\ re_parent (entry_at (nm [65; 66; 67]) rib3) = Some (nm [65; 66]) /\
  exists r', Rib_insert (nm [65; 66]) route2 rib2 = Ok r' /\ rib_inv r' /\
    forall k, routes_at r' k = if decide (k = nm [65; 66]) then register route2 (routes_at rib2 (nm [65; 66])) else routes_at rib2 k.
Proof. split_and!; [by_compute|by_compute|]. refine (proj1 (rib_refines_map rib2 (nm [65; 66]) route2 rib_inv_rib2 _)). by_decide. Defined.

(** /A/B captures, so /A/B/C inherits its route only. *)
Lemma rib_ancestor_routes_witness :
  getAncestorRoutes_name (nm [65; 66; 67]) (m_rib rib3) = Some [route2] /\
  exists s, getAncestorRoutes_name (nm [65; 66; 67]) (m_rib rib3) = Some s /\ ancestor_routes (m_rib rib3) (nm [65; 66; 67]) s /\
    forall e, deref (nm [65; 66; 67]) (m_rib rib3) = Some e -> getAncestorRoutes e (m_rib rib3) = Some s.
Proof.
  split; [by_compute|]. apply (rib_ancestor_routes (m_rib rib3) (nm [65; 66; 67])); [apply (rib_inv_tree _ rib_inv_rib3)|by_decide].
Defined.

Lemma rib_remove_face_witness :
  route2 ∈ fold_left apply_update (map removal_of (findRoutesWithFaceId 256 rib3)) (routes_at rib3) (nm [65; 66]).
Proof.
  apply (rib_remove_face rib3 256 (nm [65; 66]) route2 rib_inv_rib3). split; [|done].
  replace (routes_at rib3 (nm [65; 66])) with [route2] by by_compute. by apply list_elem_of_singleton.
Defined.

Definition route1c : Route := MkRoute 256 0 3 10 0 None.
Lemma rib_capture_not_counted_witness :
  exists r' e', Rib_insert (nm [65]) route1c rib2 = Ok r' /\ deref (nm [65]) (m_rib r') = Some e' /\ hasCapture e' = false /\
    Exists (fun x => isCapture x = true) (re_routes e').
Proof.
  apply (rib_capture_not_counted rib2 (nm [65]) (entry_at (nm [65]) rib2) route1c route1 rib_inv_rib2); [by_decide|by_compute..].
Defined.

(** Two registrations of which the first is in flight, then the first fails *)
Definition upd1 : RibUpdate := MkRibUpdate REGISTER (nm [65]) route1.
Definition upd2 : RibUpdate := MkRibUpdate REGISTER (nm [65; 66]) route2.
Definition run1 : Rib := ok_or Rib_new (beginApplyUpdate upd1 (Some 1) None Rib_new).
Definition run2 : Rib := ok_or Rib_new (beginApplyUpdate upd2 (Some 2) None run1).
Definition run3 : Rib := ok_or Rib_new (onFibUpdateFailure None 410 run2).
Definition run4 : Rib := ok_or Rib_new (onFibUpdateSuccess (MkRibUpdateBatch 257 [upd2]) [] (Some 2) run3).

Lemma rib_queue_refines_replay_witness :
  routes_at run4 (nm [65]) = [] /\ routes_at run4 (nm [65; 66]) = [route2] /\
  [item_of upd1 (Some 1) None; item_of upd2 (Some 2) None] =
    map fst [(item_of upd1 (Some 1) None, false); (item_of upd2 (Some 2) None, true)] ++ option_list (rib_inFlight run4) ++ m_updateBatches run4.
Proof.
  split_and!; [by_compute|by_compute|].
  refine (proj1 (rib_queue_refines_replay run4 [item_of upd1 (Some 1) None; item_of upd2 (Some 2) None]
            [(item_of upd1 (Some 1) None, false); (item_of upd2 (Some 2) None, true)] _)).
  apply (RunSuccess run3 run4 _ [_] _ []); [|by_compute|constructor|by_compute].
  apply (RunFailure run2 run3 _ [] _ 410); [|by_compute|by_compute].
  apply (RunUpdate run1 run2 [_] [] upd2 (Some 2) None); [|by_decide|by_compute].
  apply (RunUpdate Rib_new run1 [] [] upd1 (Some 1) None); [constructor|by_decide|by_compute].
Defined.
End RibSamples.
