(* ===== verification/FibUpdater.v ===== *)
(** * From the RIB to the FIB: [NFD/rib/fib-updater.cpp]

    An update of the RIB is turned into commands for the FIB and into changes of
    the inherited routes of the RIB entries, before the RIB itself changes.  The
    commands for the face of the update go first; the others follow when they are
    answered.  The file proves that the updates concern names under the name of the
    update only, that the traversal of the tree ends, and where the computation
    throws or reads freed memory; [FibExchange] is about the answers. *)

From S2P Require Import Prelude StdMap Tlv NameComponent Name Packet CsEntry RibEntry Rib RibTree RibProps RibQueue.

(** ** FIB updates: [fib-update.hpp] *)

Inductive FibAction : Set := ADD_NEXTHOP | REMOVE_NEXTHOP.

#[global] Instance FibAction_eq_dec : EqDecision FibAction.
Proof. solve_decision. Defined.

Record FibUpdate := MkFibUpdate {
  fu_name : Name;
  fu_faceId : Z;
  fu_cost : Z;
  fu_action : FibAction
}.

#[global] Instance FibUpdate_eq_dec : EqDecision FibUpdate.
Proof. solve_decision. Defined.

(** [FibUpdate::operator==] *)
Definition FibUpdate_equals (a b : FibUpdate) : bool :=
  Name_equals (fu_name a) (fu_name b) && (fu_faceId a =? fu_faceId b) && (fu_cost a =? fu_cost b) && bool_decide (fu_action a = fu_action b).

Definition createAddUpdate (name : Name) (faceId cost : Z) : FibUpdate := MkFibUpdate name faceId cost ADD_NEXTHOP.
Definition createRemoveUpdate (name : Name) (faceId : Z) : FibUpdate := MkFibUpdate name faceId 0 REMOVE_NEXTHOP.

(** ** The updater *)

(** A command for the forwarder's FIB management, with the update it was sent for and
    the number of its timeouts *)
Record Command := MkCommand {
  cmd_action : FibAction;
  cmd_update : FibUpdate;
  cmd_nTimeouts : Z
}.

#[global] Instance Command_eq_dec : EqDecision Command.
Proof. solve_decision. Defined.

(** [fu_commands] are the commands without an answer; [fu_cancelled] the events that the
    computation cancelled. *)
Record FibUpdater := MkFibUpdater {
  m_batchFaceId : Z;
  m_updatesForBatchFaceId : list FibUpdate;
  m_updatesForNonBatchFaceId : list FibUpdate;
  m_inheritedRoutes : list RibUpdate;
  fu_commands : list Command;
  fu_cancelled : list Z
}.

Definition with_updates (b nb : list FibUpdate) (u : FibUpdater) : FibUpdater :=
  MkFibUpdater (m_batchFaceId u) b nb (m_inheritedRoutes u) (fu_commands u) (fu_cancelled u).
Definition with_inherited (l : list RibUpdate) (u : FibUpdater) : FibUpdater :=
  MkFibUpdater (m_batchFaceId u) (m_updatesForBatchFaceId u) (m_updatesForNonBatchFaceId u) l (fu_commands u) (fu_cancelled u).
Definition with_commands (l : list Command) (u : FibUpdater) : FibUpdater :=
  MkFibUpdater (m_batchFaceId u) (m_updatesForBatchFaceId u) (m_updatesForNonBatchFaceId u) (m_inheritedRoutes u) l (fu_cancelled u).
Definition with_cancelled (l : list Z) (u : FibUpdater) : FibUpdater :=
  MkFibUpdater (m_batchFaceId u) (m_updatesForBatchFaceId u) (m_updatesForNonBatchFaceId u) (m_inheritedRoutes u) (fu_commands u) l.

(** *** Recording updates *)

(** An update of the same name and face is replaced. *)
Fixpoint put_update (update : FibUpdate) (l : list FibUpdate) : list FibUpdate :=
  match l with
  | [] => [update]
  | other :: l' =>
      if Name_equals (fu_name update) (fu_name other) && (fu_faceId update =? fu_faceId other) then
        MkFibUpdate (fu_name other) (fu_faceId other) (fu_cost update) (fu_action update) :: l'
      else other :: put_update update l'
  end.

Definition addFibUpdate (update : FibUpdate) (u : FibUpdater) : FibUpdater :=
  if fu_faceId update =? m_batchFaceId u
  then with_updates (put_update update (m_updatesForBatchFaceId u)) (m_updatesForNonBatchFaceId u) u
  else with_updates (m_updatesForBatchFaceId u) (put_update update (m_updatesForNonBatchFaceId u)) u.

(** [addInheritedRoute(name, route)] and [removeInheritedRoute(name, route)] *)
Definition recordInherited (name : Name) (route : Route) (u : FibUpdater) : FibUpdater :=
  with_inherited (m_inheritedRoutes u ++ [MkRibUpdate REGISTER name route]) u.
Definition recordRemoved (name : Name) (route : Route) (u : FibUpdater) : FibUpdater :=
  with_inherited (m_inheritedRoutes u ++ [MkRibUpdate UNREGISTER name route]) u.

Definition inherit (name : Name) (route : Route) (u : FibUpdater) : FibUpdater :=
  addFibUpdate (createAddUpdate name (r_faceId route) (r_cost route)) (recordInherited name route u).
Definition disinherit (name : Name) (route : Route) (u : FibUpdater) : FibUpdater :=
  addFibUpdate (createRemoveUpdate name (r_faceId route)) (recordRemoved name route u).

(** [addInheritedRoutes(entry, routesToAdd)] *)
Definition addInheritedRoutes (entry : RibEntry) (routesToAdd : list Route) (u : FibUpdater) : FibUpdater :=
  fold_left (fun u route => if hasFaceId (r_faceId route) entry then u else inherit (re_name entry) route u) routesToAdd u.

(** [addInheritedRoutes(name, routesToAdd, ignore)] *)
Definition addInheritedRoutes_name (name : Name) (routesToAdd : list Route) (ignore : Route) (u : FibUpdater) : FibUpdater :=
  fold_left (fun u route => if r_faceId route =? r_faceId ignore then u else inherit name route u) routesToAdd u.

Definition removeInheritedRoutes (entry : RibEntry) (routesToRemove : list Route) (u : FibUpdater) : FibUpdater :=
  fold_left (fun u route => if hasInheritedRoute route entry then disinherit (re_name entry) route u else u) routesToRemove u.

(** *** The traversal *)

(** The two loops of [traverseSubTree]: the routes that are left for the children, and
    the updates *)
Fixpoint remove_loop (entry : RibEntry) (routesToRemove : list Route) (u : FibUpdater) : list Route * FibUpdater :=
  match routesToRemove with
  | [] => ([], u)
  | route :: l =>
      if hasChildInheritOnFaceId (r_faceId route) entry then remove_loop entry l u
      else
        let u := if hasInheritedRoute route entry then disinherit (re_name entry) route u else u in
        let '(l', u) := remove_loop entry l u in (route :: l', u)
  end.

Fixpoint add_loop (entry : RibEntry) (routesToAdd : list Route) (u : FibUpdater) : list Route * FibUpdater :=
  match routesToAdd with
  | [] => ([], u)
  | route :: l =>
      if hasChildInheritOnFaceId (r_faceId route) entry then add_loop entry l u
      else
        let u := if hasFaceId (r_faceId route) entry then u else inherit (re_name entry) route u in
        let '(l', u) := add_loop entry l u in (route :: l', u)
  end.

Section Fold.
Context {A S : Type} (f : A -> S -> result S).
(** A loop whose body can fail *)
Fixpoint for_each (l : list A) (s : S) : result S :=
  match l with
  | [] => Ok s
  | x :: l' => let! s := f x s in for_each l' s
  end.
End Fold.

Fixpoint traverseSubTree (fuel : nat) (t : RibTable) (entry : Name) (routesToAdd routesToRemove : list Route) (u : FibUpdater) : result FibUpdater :=
  match fuel with
  | O => Err OutOfFuel
  | S fuel =>
      match deref entry t with
      | None => Err OutOfRange
      | Some e =>
          if hasCapture e then Ok u
          else
            let '(routesToRemove, u) := remove_loop e routesToRemove u in
            let '(routesToAdd, u) := add_loop e routesToAdd u in
            for_each (fun child => traverseSubTree fuel t child routesToAdd routesToRemove) (re_children e) u
      end
  end.

(** A path from an entry to a leaf is not longer than the table. *)
Definition modifyChildrensInheritedRoutes (t : RibTable) (children : list Name) (routesToAdd routesToRemove : list Route) (u : FibUpdater) : result FibUpdater :=
  for_each (fun child => traverseSubTree (length t) t child routesToAdd routesToRemove) children u.

(** *** Updates for one change of the RIB *)

Definition fueled {A} (o : option A) : result A := match o with Some a => Ok a | None => Err OutOfFuel end.

(** Sets that the code makes with the default constructor have no comparison function;
    at most one route is inserted into such a set, which needs none. *)
Definition createFibUpdatesForNewRibEntry (t : RibTable) (name : Name) (route : Route) (children : list Name) (u : FibUpdater) : result FibUpdater :=
  let u := addFibUpdate (createAddUpdate name (r_faceId route) (r_cost route)) u in
  let! ancestorRoutes := fueled (getAncestorRoutes_name name t) in
  if negb (isChildInherit route) && negb (isCapture route) then
    Ok (addInheritedRoutes_name name ancestorRoutes route u)
  else if isChildInherit route && isCapture route then
    modifyChildrensInheritedRoutes t children [route] ancestorRoutes u
  else if isChildInherit route then
    let u := addInheritedRoutes_name name ancestorRoutes route u in
    let others := filter (fun r => r_faceId r <> r_faceId route) ancestorRoutes in
    modifyChildrensInheritedRoutes t children (RouteSet_insert route others) [] u
  else modifyChildrensInheritedRoutes t children [] ancestorRoutes u.

(** [route.cost <= other->cost], when there is another *)
Definition not_costlier (route : Route) (other : option Route) : bool :=
  match other with None => true | Some o => r_cost route <=? r_cost o end.

Definition createFibUpdatesForNewRoute (t : RibTable) (entry : RibEntry) (route : Route) (captureWasTurnedOn : bool) (u : FibUpdater) : result FibUpdater :=
  let prevRoute := getRouteWithLowestCostAndChildInheritByFaceId (r_faceId route) entry in
  let routesToAdd := if isChildInherit route && not_costlier route prevRoute then [route] else [] in
  let! (routesToRemove, u) :=
    (if captureWasTurnedOn then
       let! anc := fueled (getAncestorRoutes entry t) in
       Ok (anc, removeInheritedRoutes entry anc u)
     else Ok ([], u)) in
  let! u := modifyChildrensInheritedRoutes t (re_children entry) routesToAdd routesToRemove u in
  let other := getRouteWithLowestCostByFaceId (r_faceId route) entry in
  if not_costlier route other then Ok (addFibUpdate (createAddUpdate (re_name entry) (r_faceId route) (r_cost route)) u) else Ok u.

(** The update of the entry itself, when the cost changed: [prevRoute] can be null where
    it is dereferenced. *)
Definition update_own_cost (entry : RibEntry) (route existingRoute : Route) (prevRoute : option Route) (u : FibUpdater) : result FibUpdater :=
  match getRouteWithLowestCostByFaceId (r_faceId route) entry with
  | None => Err NullPointer
  | Some lowest =>
      if r_cost route <=? r_cost lowest then Ok (addFibUpdate (createAddUpdate (re_name entry) (r_faceId route) (r_cost route)) u)
      else if r_cost existingRoute <? r_cost lowest then
        match prevRoute with
        | None => Err NullPointer
        | Some p => Ok (addFibUpdate (createAddUpdate (re_name entry) (r_faceId p) (r_cost p)) u)
        end
      else Ok u
  end.

(** Child inherit was turned on, or off. *)
Definition update_child_inherit (t : RibTable) (entry : RibEntry) (route existingRoute : Route) (prevRoute : option Route) (u : FibUpdater) : result FibUpdater :=
  if negb (isChildInherit existingRoute) && isChildInherit route then
    if not_costlier route prevRoute then modifyChildrensInheritedRoutes t (re_children entry) [route] [] u else Ok u
  else if isChildInherit existingRoute && negb (isChildInherit route) then
    let! routesToAdd :=
      (match prevRoute with
       | Some p => Ok [p]
       | None => let! anc := fueled (getAncestorRoutes entry t) in Ok (option_list (RouteSet_find route anc))
       end) in
    modifyChildrensInheritedRoutes t (re_children entry) routesToAdd [route] u
  else Ok u.

(** Capture was turned on, or off. *)
Definition update_capture (t : RibTable) (entry : RibEntry) (route existingRoute : Route) (u : FibUpdater) : result FibUpdater :=
  if negb (isCapture existingRoute) && isCapture route then
    let! anc := fueled (getAncestorRoutes entry t) in
    modifyChildrensInheritedRoutes t (re_children entry) [] anc (removeInheritedRoutes entry anc u)
  else if isCapture existingRoute && negb (isCapture route) then
    let! anc := fueled (getAncestorRoutes entry t) in
    modifyChildrensInheritedRoutes t (re_children entry) anc [] (addInheritedRoutes entry anc u)
  else Ok u.

Definition createFibUpdatesForUpdatedRoute (t : RibTable) (entry : RibEntry) (route existingRoute : Route) (u : FibUpdater) : result FibUpdater :=
  let costDidChange := negb (r_cost route =? r_cost existingRoute) in
  let prevRoute := getRouteWithLowestCostAndChildInheritByFaceId (r_faceId route) entry in
  if (r_flags route =? r_flags existingRoute) && negb costDidChange then Ok u
  else
    let! u := (if costDidChange then update_own_cost entry route existingRoute prevRoute u else Ok u) in
    if costDidChange && not_costlier route prevRoute && (r_flags route =? r_flags existingRoute) && isChildInherit route then
      modifyChildrensInheritedRoutes t (re_children entry) [route] [] u
    else
      let! u := update_child_inherit t entry route existingRoute prevRoute u in
      update_capture t entry route existingRoute u.

(** The part of [createFibUpdatesForErasedRoute] that depends on the flags of the route *)
Definition erased_flags (t : RibTable) (entry : RibEntry) (route : Route) (captureWasTurnedOff : bool) (u : FibUpdater) : result FibUpdater :=
  let! anc := fueled (getAncestorRoutes entry t) in
  let uncaptured := captureWasTurnedOff && negb (getNRoutes entry =? 0) in
  if isChildInherit route && isCapture route then
    if uncaptured then modifyChildrensInheritedRoutes t (re_children entry) anc [route] (addInheritedRoutes entry anc u)
    else modifyChildrensInheritedRoutes t (re_children entry) [] [route] u
  else if isChildInherit route then
    modifyChildrensInheritedRoutes t (re_children entry) (if hasCapture entry then [] else anc) [route] u
  else if isCapture route then
    if uncaptured then modifyChildrensInheritedRoutes t (re_children entry) anc [] (addInheritedRoutes entry anc u)
    else modifyChildrensInheritedRoutes t (re_children entry) [] [] u
  else Ok u.

Definition createFibUpdatesForErasedRoute (t : RibTable) (entry : RibEntry) (route : Route) (captureWasTurnedOff : bool) (u : FibUpdater) : result FibUpdater :=
  let u := addFibUpdate (createRemoveUpdate (re_name entry) (r_faceId route)) u in
  let! u := erased_flags t entry route captureWasTurnedOff u in
  let! ancestorRoutes := fueled (getAncestorRoutes entry t) in
  if negb (hasCapture entry) && negb (getNRoutes entry =? 0) then
    match RouteSet_find route ancestorRoutes with
    | Some r => Ok (inherit (re_name entry) r u)
    | None => Ok u
    end
  else Ok u.

Definition createFibUpdatesForErasedRibEntry (entry : RibEntry) (u : FibUpdater) : FibUpdater :=
  fold_left (fun u route => addFibUpdate (createRemoveUpdate (re_name entry) (r_faceId route)) u) (re_inheritedRoutes entry) u.

(** A pointer to an object whose storage is released, with the value the object had; to
    read through it is an error. *)
Record Freed (A : Type) := MkFreed { freed_value : A }.
Arguments MkFreed {A} _.

Definition read_freed {A} (p : Freed A) : result A := Err UseAfterFree.

(** [getRouteWithSecondLowestCostByFaceId]: [nth_element] on a local copy of the routes of
    the face; equal costs are kept in order.  The pointer that the code returns points into
    the copy, which is destroyed on return. *)
Fixpoint cost_insert (route : Route) (l : list Route) : list Route :=
  match l with
  | [] => [route]
  | r :: l' => if r_cost route <? r_cost r then route :: l else r :: cost_insert route l'
  end.
Definition getRouteWithSecondLowestCostByFaceId (faceId : Z) (e : RibEntry) : option (Freed Route) :=
  let matches := filter (fun r => r_faceId r = faceId) (re_routes e) in
  if len matches <? 2 then None else MkFreed <$> fold_left (fun l r => cost_insert r l) matches [] !! 1%nat.

(** [routeToUpdate] of the copied entry *)
Fixpoint copy_fields (route : Route) (l : list Route) : list Route :=
  match l with
  | [] => []
  | r :: l' =>
      if compareFaceIdAndOrigin r route then
        MkRoute (r_faceId r) (r_origin r) (r_flags route) (r_cost route) (r_expires route) (r_expirationEvent r) :: l'
      else r :: copy_fields route l'
  end.

Definition computeUpdatesForRegistration (t : RibTable) (update : RibUpdate) (u : FibUpdater) : result FibUpdater :=
  let prefix := ru_name update in
  let route := ru_route update in
  match table_find prefix t with
  | Some entry =>
      match findRoute route entry with
      | None => createFibUpdatesForNewRoute t entry route (negb (hasCapture entry) && isCapture route) u
      | Some existingRoute =>
          let entryCopy := setRoutes (copy_fields route (re_routes entry)) (re_nRoutesWithCaptureSet entry) entry in
          createFibUpdatesForUpdatedRoute t entryCopy route existingRoute u
      end
  | None =>
      let parent := findParent prefix t in
      let descendants := findDescendantsForNonInsertedName prefix t in
      let children := filter (fun d => parent_at t d = Some parent) descendants in
      createFibUpdatesForNewRibEntry t prefix route children u
  end.

(** Erasing the route of the copy [temp] cancels the expiration of the route. *)
Definition computeUpdatesForUnregistration (t : RibTable) (update : RibUpdate) (u : FibUpdater) : result FibUpdater :=
  let route := ru_route update in
  match table_find (ru_name update) t with
  | None => Ok u
  | Some entry =>
      match findRoute route entry with
      | None => Ok u
      | Some existing =>
          let '(temp, ev) := eraseRoute route entry in
          let u := with_cancelled (fu_cancelled u ++ option_list ev) u in
          let captureWasTurnedOff := hasCapture entry && negb (hasCapture temp) in
          let! u := createFibUpdatesForErasedRoute t temp existing captureWasTurnedOff u in
          let! u := (match getRouteWithSecondLowestCostByFaceId (r_faceId route) entry with
                     | Some next => let! next := read_freed next in createFibUpdatesForNewRoute t temp next false u
                     | None => Ok u
                     end) in
          if getNRoutes entry =? 1 then Ok (createFibUpdatesForErasedRibEntry entry u) else Ok u
      end
  end.

Definition computeUpdate (t : RibTable) (update : RibUpdate) (u : FibUpdater) : result FibUpdater :=
  match ru_action update with
  | REGISTER => computeUpdatesForRegistration t update u
  | UNREGISTER => computeUpdatesForUnregistration t update u
  | REMOVE_FACE =>
      let! u := computeUpdatesForUnregistration t update u in
      Ok (with_updates [] (m_updatesForNonBatchFaceId u) u)
  end.

Definition computeUpdates (t : RibTable) (batch : RibUpdateBatch) (u : FibUpdater) : result FibUpdater :=
  for_each (computeUpdate t) (rub_updates batch) u.

(** ** Commands and answers *)

(** What the callbacks tell the RIB *)
Inductive Outcome : Type :=
| Waiting
| Succeeded (inheritedRoutes : list RibUpdate)
| Failed (code : Z).

Definition MAX_NUM_TIMEOUTS : Z := 10.
Definition ERROR_FACE_NOT_FOUND : Z := 410.
(** [ndn::nfd::Controller::ERROR_TIMEOUT] *)
Definition ERROR_TIMEOUT : Z := 10060.

Definition sendAddNextHopUpdate (update : FibUpdate) (nTimeouts : Z) (u : FibUpdater) : FibUpdater :=
  with_commands (fu_commands u ++ [MkCommand ADD_NEXTHOP update nTimeouts]) u.
Definition sendRemoveNextHopUpdate (update : FibUpdate) (nTimeouts : Z) (u : FibUpdater) : FibUpdater :=
  with_commands (fu_commands u ++ [MkCommand REMOVE_NEXTHOP update nTimeouts]) u.

Definition sendUpdates (updates : list FibUpdate) (u : FibUpdater) : FibUpdater :=
  fold_left (fun u update =>
    match fu_action update with
    | ADD_NEXTHOP => sendAddNextHopUpdate update 0 u
    | REMOVE_NEXTHOP => sendRemoveNextHopUpdate update 0 u
    end) updates u.

Definition sendUpdatesForNonBatchFaceId (u : FibUpdater) : FibUpdater * Outcome :=
  if 0 <? len (m_updatesForNonBatchFaceId u) then (sendUpdates (m_updatesForNonBatchFaceId u) u, Waiting)
  else (u, Succeeded (m_inheritedRoutes u)).

Definition sendUpdatesForBatchFaceId (u : FibUpdater) : FibUpdater * Outcome :=
  if 0 <? len (m_updatesForBatchFaceId u) then (sendUpdates (m_updatesForBatchFaceId u) u, Waiting)
  else sendUpdatesForNonBatchFaceId u.

(** [std::list::remove(update)] *)
Definition remove_update (update : FibUpdate) (l : list FibUpdate) : list FibUpdate :=
  filter (fun x => FibUpdate_equals x update = false) l.

Definition onUpdateSuccess (update : FibUpdate) (u : FibUpdater) : FibUpdater * Outcome :=
  if fu_faceId update =? m_batchFaceId u then
    let u := with_updates (remove_update update (m_updatesForBatchFaceId u)) (m_updatesForNonBatchFaceId u) u in
    if len (m_updatesForBatchFaceId u) =? 0 then sendUpdatesForNonBatchFaceId u else (u, Waiting)
  else
    let u := with_updates (m_updatesForBatchFaceId u) (remove_update update (m_updatesForNonBatchFaceId u)) u in
    if len (m_updatesForNonBatchFaceId u) =? 0 then (u, Succeeded (m_inheritedRoutes u)) else (u, Waiting).

(** A command that timed out is sent again as one that adds a next hop. *)
Definition onUpdateError (update : FibUpdate) (code nTimeouts : Z) (u : FibUpdater) : result (FibUpdater * Outcome) :=
  if (code =? ERROR_TIMEOUT) && (nTimeouts <? MAX_NUM_TIMEOUTS) then Ok (sendAddNextHopUpdate update (nTimeouts + 1) u, Waiting)
  else if code =? ERROR_FACE_NOT_FOUND then
    if fu_faceId update =? m_batchFaceId u then Ok (u, Failed code)
    else
      let u := with_updates (m_updatesForBatchFaceId u) (remove_update update (m_updatesForNonBatchFaceId u)) u in
      if len (m_updatesForNonBatchFaceId u) =? 0 then Ok (u, Succeeded (m_inheritedRoutes u)) else Ok (u, Waiting)
  else Err RuntimeError.

Definition computeAndSendFibUpdates (t : RibTable) (batch : RibUpdateBatch) (u : FibUpdater) : result (FibUpdater * Outcome) :=
  let u := MkFibUpdater (rub_faceId batch) [] [] [] (fu_commands u) (fu_cancelled u) in
  let! u := computeUpdates t batch u in
  Ok (sendUpdatesForBatchFaceId u).

(** ** What the updates are about *)

(** A list has one update per name and face. *)
Definition update_key (x : FibUpdate) : Name * Z := (fu_name x, fu_faceId x).
Definition unique (l : list FibUpdate) : Prop := NoDup (map update_key l).

(** The FIB updates concern names in [P], the inherited routes names in [Q]; the first
    list has the updates of the face of the batch; the commands [C] are out. *)
Record about (P Q : Name -> Prop) (C : list Command) (u : FibUpdater) : Prop := {
  about_batch : Forall (fun x => P (fu_name x) /\ fu_faceId x = m_batchFaceId u) (m_updatesForBatchFaceId u);
  about_others : Forall (fun x => P (fu_name x) /\ fu_faceId x <> m_batchFaceId u) (m_updatesForNonBatchFaceId u);
  about_inherited : Forall (fun x => Q (ru_name x)) (m_inheritedRoutes u);
  about_unique : unique (m_updatesForBatchFaceId u) /\ unique (m_updatesForNonBatchFaceId u);
  about_commands : fu_commands u = C
}.

(** Names on which [==] is equality *)
Class GenNames (P : Name -> Prop) : Prop := gen_of k : P k -> gen_name k.

Section About.
Context {P Q : Name -> Prop} {C : list Command} `{!GenNames P}.
Implicit Types u : FibUpdater.

Lemma put_update_spec (R : Z -> Prop) update l : P (fu_name update) -> R (fu_faceId update) ->
  Forall (fun x => P (fu_name x) /\ R (fu_faceId x)) l -> unique l ->
  Forall (fun x => P (fu_name x) /\ R (fu_faceId x)) (put_update update l) /\ unique (put_update update l) /\
  forall k, k ∈ map update_key (put_update update l) -> k = update_key update \/ k ∈ map update_key l.
Proof.
  intros Hu HR Hl. unfold unique. induction Hl as [|x l Hx Hl IH]; cbn [put_update map].
  { intros _. split_and!; [by apply Forall_singleton|apply NoDup_singleton|]. intros k ->%list_elem_of_singleton. by left. }
  intros [Hxl Hd]%NoDup_cons. destruct (_ && _) eqn:He.
  - split_and!; [by constructor|by constructor|]. intros k Hk. by right.
  - destruct (IH Hd) as (IH1&IH2&IH3). split_and!; [by constructor| |].
    + cbn [map]. apply NoDup_cons. split; [|done]. intros [Hk|Hk]%IH3; [|done]. injection Hk as Hn Hf.
      apply andb_false_iff in He as [He|He%Z.eqb_neq]; [|congruence]. apply not_true_iff_false in He. apply He.
      apply Name_equals_gen; [by apply gen_of|apply gen_of, Hx|done].
    + cbn [map]. intros k [->|Hk]%elem_of_cons; [right; by left|]. destruct (IH3 k Hk) as [?|?]; [by left|right; by right].
Qed.

Lemma about_add update u : P (fu_name update) -> about P Q C u -> about P Q C (addFibUpdate update u).
Proof.
  intros Hu [Hb Ho ? [? ?] ?]. unfold addFibUpdate. destruct (Z.eqb_spec (fu_faceId update) (m_batchFaceId u)) as [He|He].
  - destruct (put_update_spec (fun f => f = m_batchFaceId u) update _ Hu He Hb) as (?&?&_); [done|]. by constructor.
  - destruct (put_update_spec (fun f => f <> m_batchFaceId u) update _ Hu He Ho) as (?&?&_); [done|]. by constructor.
Qed.

Lemma about_record l u : Forall (fun x => Q (ru_name x)) l -> about P Q C u -> about P Q C (with_inherited (m_inheritedRoutes u ++ l) u).
Proof. intros Hl [? ? ? ? ?]. constructor; [done|done| |done|done]. by apply Forall_app. Qed.

Lemma about_inherit n route u : P n -> Q n -> about P Q C u -> about P Q C (inherit n route u).
Proof. intros HP HQ Hu. apply about_add; [done|]. apply about_record; [by apply Forall_singleton|done]. Qed.

Lemma about_disinherit n route u : P n -> Q n -> about P Q C u -> about P Q C (disinherit n route u).
Proof. intros HP HQ Hu. apply about_add; [done|]. apply about_record; [by apply Forall_singleton|done]. Qed.

Lemma about_fold {A} (f : FibUpdater -> A -> FibUpdater) l : (forall u x, about P Q C u -> about P Q C (f u x)) ->
  forall u, about P Q C u -> about P Q C (fold_left f l u).
Proof. intros Hf. induction l as [|x l IH]; intros u Hu; [done|]. cbn [fold_left]. by apply IH, Hf. Qed.

Lemma about_addInherited e l u : P (re_name e) -> Q (re_name e) -> about P Q C u -> about P Q C (addInheritedRoutes e l u).
Proof. intros ? ?. apply about_fold. intros v x Hv. destruct (hasFaceId _ _); [done|by apply about_inherit]. Qed.

Lemma about_addInherited_name n l ignore u : P n -> Q n -> about P Q C u -> about P Q C (addInheritedRoutes_name n l ignore u).
Proof. intros ? ?. apply about_fold. intros v x Hv. destruct (_ =? _); [done|by apply about_inherit]. Qed.

Lemma about_removeInherited e l u : P (re_name e) -> Q (re_name e) -> about P Q C u -> about P Q C (removeInheritedRoutes e l u).
Proof. intros ? ?. apply about_fold. intros v x Hv. destruct (hasInheritedRoute _ _); [by apply about_disinherit|done]. Qed.

Lemma about_remove_loop e l : P (re_name e) -> Q (re_name e) -> forall u, about P Q C u -> about P Q C (remove_loop e l u).2.
Proof.
  intros HP HQ. induction l as [|r l IH]; intros u Hu; cbn [remove_loop]; [done|]. destruct (hasChildInheritOnFaceId _ _); [by apply IH|].
  set (v := if hasInheritedRoute r e then _ else _). specialize (IH v). destruct (remove_loop e l v) as [l' w]. apply IH. unfold v.
  destruct (hasInheritedRoute r e); [by apply about_disinherit|done].
Qed.

Lemma about_add_loop e l : P (re_name e) -> Q (re_name e) -> forall u, about P Q C u -> about P Q C (add_loop e l u).2.
Proof.
  intros HP HQ. induction l as [|r l IH]; intros u Hu; cbn [add_loop]; [done|]. destruct (hasChildInheritOnFaceId _ _); [by apply IH|].
  set (v := if hasFaceId (r_faceId r) e then _ else _). specialize (IH v). destruct (add_loop e l v) as [l' w]. apply IH. unfold v.
  destruct (hasFaceId _ e); [done|by apply about_inherit].
Qed.
End About.

Lemma for_each_ok {A S} (I : S -> Prop) (f : A -> S -> result S) l : (forall x s, x ∈ l -> I s -> exists s', f x s = Ok s' /\ I s') ->
  forall s, I s -> exists s', for_each f l s = Ok s' /\ I s'.
Proof.
  induction l as [|x l IH]; intros Hf s Hs; cbn [for_each]; [by exists s|]. destruct (Hf x s) as (s1&->&H1); [by left|done|]. cbn [rbind].
  apply IH; [|done]. intros y z Hy. apply Hf. by right.
Qed.

(** *** The traversal ends *)

(** The names at and below a name *)
Definition below (t : RibTable) (n : Name) : nat := length (filter (fun q => n `prefix_of` q) (keys t)).

Lemma below_le t n : (below t n <= length t)%nat.
Proof. unfold below. rewrite <- length_keys. apply length_filter. Qed.

Lemma child_under t p c : rib_tree t -> parent_at t c = Some (Some p) -> under p c /\ c ∈ keys t.
Proof.
  intros Ht Hc. destruct (tree_parent _ Ht _ _ Hc) as (_&Hu&_). split; [done|]. unfold parent_at in Hc. destruct (deref c t) eqn:Hd; [|done]. by eapply deref_key.
Qed.

Lemma below_child t p c : rib_tree t -> p ∈ keys t -> parent_at t c = Some (Some p) -> (below t c < below t p)%nat.
Proof.
  intros Ht Hp Hc. destruct (child_under t p c Ht Hc) as [[Hu Hne] _]. unfold below. apply (filter_length_lt _ _ _ p); [|done|done|].
  - intros x Hx. by transitivity c.
  - intros Hcp. apply Hne. apply (prefix_length_eq p c); [done|by apply prefix_length].
Qed.

Lemma below_self t n : n ∈ keys t -> (0 < below t n)%nat.
Proof.
  intros Hn. unfold below. destruct (filter (fun q => n `prefix_of` q) (keys t)) eqn:Hf; [|cbn; lia].
  assert (Hin : n ∈ filter (fun q => n `prefix_of` q) (keys t)) by by apply list_elem_of_filter. rewrite Hf in Hin. by apply elem_of_nil in Hin.
Qed.

(** A set of names that is closed under children *)
Definition closed (t : RibTable) (P : Name -> Prop) : Prop := forall p c, P p -> parent_at t c = Some (Some p) -> P c.

Section Traversal.
Context (t : RibTable) (Ht : rib_tree t) {P Q : Name -> Prop} {C : list Command} `{!GenNames P} (HP : closed t P) (HQ : closed t Q).

Lemma children_of e n c : deref n t = Some e -> c ∈ re_children e <-> parent_at t c = Some (Some n).
Proof. intros He. apply (proj1 (tree_linked _ Ht) n e He). Qed.

Lemma traverse_about fuel : forall n a r u, n ∈ keys t -> P n -> Q n -> (below t n <= fuel)%nat -> about P Q C u ->
  exists u', traverseSubTree fuel t n a r u = Ok u' /\ about P Q C u'.
Proof.
  induction fuel as [|fuel IH]; intros n a r u Hn HPn HQn Hf Hu; cbn [traverseSubTree]; [pose proof (below_self t n Hn); lia|].
  pose proof Hn as [e He]%deref_is_Some. rewrite He. destruct (hasCapture e); [by exists u|].
  assert (Hname : re_name e = n) by by apply (tree_named _ Ht).
  pose proof (about_remove_loop (P := P) (Q := Q) e r ltac:(by rewrite Hname) ltac:(by rewrite Hname) u Hu) as H1. destruct (remove_loop e r u) as [r' u1]. cbn [snd] in H1.
  pose proof (about_add_loop (P := P) (Q := Q) e a ltac:(by rewrite Hname) ltac:(by rewrite Hname) u1 H1) as H2. destruct (add_loop e a u1) as [a' u2]. cbn [snd] in H2.
  apply (for_each_ok (about P Q C)); [|done]. intros c v Hc Hv. apply (children_of e n c He) in Hc. apply IH; [by apply (child_under t n c)|by eapply HP|by eapply HQ| |done].
  pose proof (below_child t n c Ht Hn Hc). lia.
Qed.

Lemma modifyChildren_about cs a r u : (forall c, c ∈ cs -> c ∈ keys t /\ P c /\ Q c) -> about P Q C u ->
  exists u', modifyChildrensInheritedRoutes t cs a r u = Ok u' /\ about P Q C u'.
Proof.
  intros Hcs Hu. apply (for_each_ok (about P Q C)); [|done]. intros c v Hc Hv. destruct (Hcs c Hc) as (?&?&?). apply traverse_about; [done..| |done]. apply below_le.
Qed.
End Traversal.

(** *** One change of the RIB *)

(** The names that an update of [n] can concern: in the FIB, [n] and names below it; in the
    RIB, the entries below [n], and [n] if it has an entry afterwards *)
Definition in_scope (n k : Name) : Prop := n `prefix_of` k /\ gen_name k.
Definition has_entry (t : RibTable) (n : Name) (survives : Prop) (k : Name) : Prop := (k ∈ keys t /\ under n k) \/ (k = n /\ survives).

#[global] Instance in_scope_gen n : GenNames (in_scope n).
Proof. by intros k [_ ?]. Qed.

(** The entry of the name, or a copy of it with other routes *)
Definition copy_of (t : RibTable) (n : Name) (e : RibEntry) : Prop :=
  exists e0, deref n t = Some e0 /\ re_name e = n /\ re_children e = re_children e0 /\ re_parent e = re_parent e0.

Section Changes.
Context (t : RibTable) (Ht : rib_tree t) (n : Name) (Hname : rib_name n) (survives : Prop) {C : list Command}.
Abbreviation concerns := (about (in_scope n) (has_entry t n survives) C).

Lemma closed_scope : closed t (in_scope n).
Proof.
  intros p c [Hp _] Hc. destruct (child_under t p c Ht Hc) as [[Hu _] Hk]. split; [by transitivity p|].
  by apply (keys_ok_name (keys t)); [apply Ht|].
Qed.

Lemma in_scope_under c : c ∈ keys t -> under n c -> in_scope n c.
Proof. intros Hk [Hp _]. split; [done|]. by apply (keys_ok_name (keys t)); [apply Ht|]. Qed.

Lemma closed_entry : closed t (has_entry t n survives).
Proof.
  intros p c Hp Hc. destruct (child_under t p c Ht Hc) as [Hu Hk]. left. split; [done|]. destruct Hp as [[_ Hnp]|[-> _]]; [|done].
  apply (under_trans n p c); [done|apply Hu].
Qed.

Lemma concerns_children e a r u : copy_of t n e -> concerns u -> exists u', modifyChildrensInheritedRoutes t (re_children e) a r u = Ok u' /\ concerns u'.
Proof.
  intros (e0&He0&_&->&_) Hu. apply (modifyChildren_about t Ht closed_scope closed_entry); [|done].
  intros c Hc. apply (children_of t Ht e0 n c He0) in Hc. destruct (child_under t n c Ht Hc) as [Hun Hk]. split_and!; [done|by apply in_scope_under|by left].
Qed.

Lemma copy_ancestors e : copy_of t n e -> exists s, fueled (getAncestorRoutes e t) = Ok s.
Proof.
  intros (e0&He0&_&_&Hp). unfold getAncestorRoutes. rewrite Hp. destruct (ancestor_loop_routes t n (re_parent e0) Ht) as (s&->&_); [|by exists s].
  apply (tree_parent _ Ht). unfold parent_at. by rewrite He0.
Qed.

Lemma in_scope_self : in_scope n n.
Proof. split; [done|apply Hname]. Qed.
Hint Resolve in_scope_self : ndn.

Lemma name_survives : survives -> has_entry t n survives n.
Proof. by right. Qed.
Hint Resolve name_survives : ndn.

Lemma concerns_own face cost e u : copy_of t n e -> concerns u -> concerns (addFibUpdate (createAddUpdate (re_name e) face cost) u).
Proof. intros (_&_&Hn&_&_) Hu. apply about_add; [|done]. cbn. rewrite Hn. apply in_scope_self. Qed.

Lemma newRoute_concerns e route b u : copy_of t n e -> (b = true -> survives) -> concerns u ->
  exists u', createFibUpdatesForNewRoute t e route b u = Ok u' /\ concerns u'.
Proof.
  intros He Hb Hu. unfold createFibUpdatesForNewRoute. destruct (copy_ancestors e He) as [anc Hanc].
  assert (exists l v, (if b then let! anc := fueled (getAncestorRoutes e t) in Ok (anc, removeInheritedRoutes e anc u) else Ok ([], u)) = Ok (l, v) /\ concerns v)
    as (l&v&->&Hv).
  { destruct b; [rewrite Hanc; cbn [rbind]|by eexists _, _]. eexists _, _. split; [done|]. pose proof He as (_&_&Hn&_&_).
    apply about_removeInherited; rewrite ?Hn; auto with ndn. }
  cbn [rbind]. destruct (concerns_children e (if isChildInherit route && not_costlier route (getRouteWithLowestCostAndChildInheritByFaceId (r_faceId route) e) then [route] else []) l v He Hv) as (w&->&Hw).
  cbn [rbind]. destruct (not_costlier _ _); eexists; (split; [done|]); [by apply concerns_own|done].
Qed.

Lemma newRibEntry_concerns route cs u : survives -> (forall c, c ∈ cs -> c ∈ keys t /\ under n c) -> concerns u ->
  exists u', createFibUpdatesForNewRibEntry t n route cs u = Ok u' /\ concerns u'.
Proof.
  intros Hs Hcs Hu. unfold createFibUpdatesForNewRibEntry, getAncestorRoutes_name.
  destruct (ancestor_loop_routes t n (findParent n t) Ht) as (anc&->&_); [by apply findParent_spec; [apply Ht|done|apply Ht]|]. cbn [fueled rbind].
  set (v := addFibUpdate _ u). assert (Hv : concerns v) by (apply about_add; [apply in_scope_self|done]).
  assert (Hw : forall ig, concerns (addInheritedRoutes_name n anc ig v)) by (intros ig; apply about_addInherited_name; auto with ndn).
  assert (Hm : forall a r w, concerns w -> exists u', modifyChildrensInheritedRoutes t cs a r w = Ok u' /\ concerns u').
  { intros a r w. apply (modifyChildren_about t Ht closed_scope closed_entry). intros c Hc. destruct (Hcs c Hc) as [Hk Hun].
    split_and!; [done|by apply in_scope_under|by left]. }
  destruct (negb _ && negb _); [eexists; by split; [|apply Hw]|]. destruct (isChildInherit route && isCapture route); [by apply Hm|].
  destruct (isChildInherit route); apply Hm; [apply Hw|done].
Qed.

(** The update of a route can dereference a null pointer. *)
Definition concerns_or_null (x : result FibUpdater) : Prop := match x with Ok u => concerns u | Err e => e = NullPointer end.

Lemma updatedRoute_concerns e route old u : copy_of t n e -> survives -> concerns u -> concerns_or_null (createFibUpdatesForUpdatedRoute t e route old u).
Proof.
  intros He Hs Hu. pose proof He as (_&_&Hn&_&_). unfold createFibUpdatesForUpdatedRoute. destruct (_ && negb _); [done|].
  set (prev := getRouteWithLowestCostAndChildInheritByFaceId _ e).
  assert (Hown : concerns_or_null (if negb (r_cost route =? r_cost old) then update_own_cost e route old prev u else Ok u)).
  { destruct (negb _); [|done]. unfold update_own_cost. destruct (getRouteWithLowestCostByFaceId _ e); [|done].
    destruct (_ <=? _); [by apply concerns_own|]. destruct (_ <? _); [|done]. destruct prev; [by apply concerns_own|done]. }
  destruct (if negb _ then _ else _) as [v|x]; [|exact Hown]. cbn [rbind].
  assert (Hch : forall a r w, concerns w -> concerns_or_null (modifyChildrensInheritedRoutes t (re_children e) a r w)).
  { intros a r w Hw. destruct (concerns_children e a r w He Hw) as (w'&->&?). done. }
  destruct (_ && isChildInherit route); [by apply Hch|]. destruct (copy_ancestors e He) as [anc Hanc].
  assert (Hci : concerns_or_null (update_child_inherit t e route old prev v)).
  { unfold update_child_inherit. destruct (_ && isChildInherit route); [destruct (not_costlier _ _); [by apply Hch|done]|]. destruct (_ && negb _); [|done].
    rewrite Hanc. destruct prev; cbn [rbind]; by apply Hch. }
  destruct (update_child_inherit t e route old prev v) as [w|x]; [|exact Hci]. cbn [rbind]. unfold update_capture. rewrite Hanc. cbn [rbind].
  destruct (_ && isCapture route); [apply Hch, about_removeInherited; rewrite ?Hn; auto with ndn|].
  destruct (_ && negb _); [apply Hch, about_addInherited; rewrite ?Hn; auto with ndn|done].
Qed.

Lemma erasedRoute_concerns e route b u : copy_of t n e -> (getNRoutes e <> 0 -> survives) -> concerns u ->
  exists u', createFibUpdatesForErasedRoute t e route b u = Ok u' /\ concerns u'.
Proof.
  intros He Hs Hu. pose proof He as (_&_&Hn&_&_). unfold createFibUpdatesForErasedRoute, erased_flags. destruct (copy_ancestors e He) as [anc Hanc].
  set (v := addFibUpdate _ u). assert (Hv : concerns v) by (apply about_add; [cbn; rewrite Hn; apply in_scope_self|done]). rewrite Hanc. cbn [rbind].
  assert (Hch : forall a r w, concerns w -> exists u', modifyChildrensInheritedRoutes t (re_children e) a r w = Ok u' /\ concerns u').
  { intros a r w Hw. by apply concerns_children. }
  assert (Hadd : negb (getNRoutes e =? 0) = true -> concerns (addInheritedRoutes e anc v)).
  { intros Hz%negb_true_iff%Z.eqb_neq. apply about_addInherited; rewrite ?Hn; auto with ndn. }
  match goal with |- context [rbind ?x _] => assert (exists w, x = Ok w /\ concerns w) as (w&->&Hw) end.
  { destruct (isChildInherit route && isCapture route); [|destruct (isChildInherit route); [by apply Hch|destruct (isCapture route); [|by exists v]]];
      (destruct b; cbn [andb]; [destruct (negb (getNRoutes e =? 0)) eqn:Hz; apply Hch; auto|by apply Hch]). }
  cbn [rbind]. destruct (negb (hasCapture e)); cbn [andb]; [|by exists w]. destruct (negb (getNRoutes e =? 0)) eqn:Hz; [|by exists w].
  apply negb_true_iff, Z.eqb_neq in Hz. destruct (RouteSet_find route anc); [|by exists w]. eexists. split; [done|]. apply about_inherit; rewrite ?Hn; auto with ndn.
Qed.

Lemma erasedEntry_concerns e u : re_name e = n -> concerns u -> concerns (createFibUpdatesForErasedRibEntry e u).
Proof. intros Hn. apply about_fold. intros v x Hv. apply about_add; [|done]. cbn. rewrite Hn. apply in_scope_self. Qed.
End Changes.

(** *** A whole update *)

Lemma descendants_spec t n : rib_tree t -> rib_name n -> n ∉ keys t ->
  forall c, c ∈ findDescendantsForNonInsertedName n t -> c ∈ keys t /\ under n c.
Proof.
  intros Ht Hn Hnt c Hc. unfold findDescendantsForNonInsertedName in Hc. apply list_elem_of_fmap in Hc as ([k e]&->&Hin). cbn [snd].
  apply list_elem_of_filter in Hin as [Hp Hin]. cbn [fst] in Hp. assert (Hk : k ∈ keys t) by (apply list_elem_of_fmap; by exists (k, e)).
  assert (re_name e = k) as ->.
  { apply (tree_named _ Ht). pose proof (keys_sorted_NoDup _ (proj1 (tree_keys _ Ht))) as Hd. clear -Hin Hd.
    induction t as [|[y z] t IH]; [by apply elem_of_nil in Hin|]. rewrite deref_cons. cbn [keys map fst] in Hd. apply NoDup_cons in Hd as [Hy Hd].
    apply elem_of_cons in Hin as [[= -> ->]|Hin]; [by rewrite decide_True|]. rewrite decide_False; [by apply IH|]. cbn. intros ->. apply Hy.
    apply list_elem_of_fmap. by exists (k, e). }
  split; [done|]. split; [|congruence]. apply isPrefixOf_iff; [done| |done]. by apply (keys_ok_name (keys t)); [apply Ht|].
Qed.

Lemma copy_of_self t n e : deref n t = Some e -> rib_tree t -> copy_of t n e.
Proof. intros He Ht. exists e. split_and!; [done|by apply (tree_named _ Ht)|done|done]. Qed.

Lemma copy_of_keeps t n e f : deref n t = Some e -> rib_tree t -> keeps_links f -> copy_of t n (f e).
Proof. intros He Ht Hf. exists e. destruct (Hf e) as (->&->&->). split_and!; [done|by apply (tree_named _ Ht)|done|done]. Qed.

Lemma registration_concerns t upd u survives C : rib_tree t -> rib_name (ru_name upd) -> survives ->
  about (in_scope (ru_name upd)) (has_entry t (ru_name upd) survives) C u ->
  match computeUpdatesForRegistration t upd u with
  | Ok u' => about (in_scope (ru_name upd)) (has_entry t (ru_name upd) survives) C u'
  | Err e => e = NullPointer /\ exists entry, deref (ru_name upd) t = Some entry /\ hasRoute (ru_route upd) entry = true
  end.
Proof.
  intros Ht Hn Hs Hu. unfold computeUpdatesForRegistration. rewrite (table_find_deref _ _ (tree_keys _ Ht) Hn).
  destruct (deref (ru_name upd) t) as [e|] eqn:He.
  - destruct (findRoute (ru_route upd) e) as [old|] eqn:Hf.
    + pose proof (updatedRoute_concerns (C := C) t Ht (ru_name upd) Hn survives
        (setRoutes (copy_fields (ru_route upd) (re_routes e)) (re_nRoutesWithCaptureSet e) e) (ru_route upd) old u) as Hc.
      specialize (Hc ltac:(by apply (copy_of_keeps t _ e (fun e => setRoutes _ _ e))) Hs Hu).
      destruct (createFibUpdatesForUpdatedRoute _ _ _ _ _) as [u'|x]; cbn [concerns_or_null] in Hc; [done|].
      split; [done|]. exists e. split; [done|]. unfold hasRoute. by rewrite Hf.
    + destruct (newRoute_concerns (C := C) t Ht (ru_name upd) Hn survives e (ru_route upd) (negb (hasCapture e) && isCapture (ru_route upd)) u) as (u'&->&?); [|done..].
      by apply copy_of_self.
  - apply deref_absent in He. destruct (newRibEntry_concerns (C := C) t Ht (ru_name upd) Hn survives (ru_route upd)
      (filter (fun d => parent_at t d = Some (findParent (ru_name upd) t)) (findDescendantsForNonInsertedName (ru_name upd) t)) u) as (u'&->&?); [done| |done|done].
    intros c [_ Hc]%list_elem_of_filter. by apply descendants_spec.
Qed.

(** The route of the update is in the RIB, and so is another one over its face. *)
Definition shares_face (t : RibTable) (upd : RibUpdate) : Prop :=
  exists entry, deref (ru_name upd) t = Some entry /\ hasRoute (ru_route upd) entry = true /\
    2 <= len (filter (fun r => r_faceId r = r_faceId (ru_route upd)) (re_routes entry)).

Lemma cost_insert_length r l : length (cost_insert r l) = S (length l).
Proof. induction l as [|x l IH]; [done|]. cbn [cost_insert]. destruct (_ <? _); cbn [length]; [done|by rewrite IH]. Qed.

Lemma second_lowest_spec f e :
  getRouteWithSecondLowestCostByFaceId f e = None <-> len (filter (fun r => r_faceId r = f) (re_routes e)) < 2.
Proof.
  unfold getRouteWithSecondLowestCostByFaceId. destruct (Z.ltb_spec (len (filter (fun r => r_faceId r = f) (re_routes e))) 2) as [Hl|Hl]; [done|].
  assert (Hlen : forall l acc, length (fold_left (fun l r => cost_insert r l) l acc) = (length l + length acc)%nat).
  { induction l as [|r l IH]; intros acc; cbn [fold_left length]; [done|]. rewrite IH, cost_insert_length. lia. }
  rewrite fmap_None, lookup_ge_None, Hlen. unfold len in *. cbn [length]. split; lia.
Qed.

Lemma unregistration_concerns t upd u (survives : Prop) C : rib_tree t -> rib_name (ru_name upd) ->
  (forall e, deref (ru_name upd) t = Some e -> erase_route (ru_route upd) (re_routes e) <> [] -> survives) ->
  about (in_scope (ru_name upd)) (has_entry t (ru_name upd) survives) C u ->
  match computeUpdatesForUnregistration t upd u with
  | Ok u' => about (in_scope (ru_name upd)) (has_entry t (ru_name upd) survives) C u' /\ ~ shares_face t upd
  | Err e => e = UseAfterFree /\ shares_face t upd
  end.
Proof.
  intros Ht Hn Hs Hu. unfold computeUpdatesForUnregistration, shares_face. rewrite (table_find_deref _ _ (tree_keys _ Ht) Hn).
  destruct (deref (ru_name upd) t) as [e|] eqn:He; [|split; [done|by intros (?&?&_)]]. unfold hasRoute.
  destruct (findRoute (ru_route upd) e) as [old|] eqn:Hf; [|split; [done|by intros (?&[= <-]&Hh&_); rewrite Hf in Hh]].
  pose proof (copy_of_keeps t _ e (fun e => (eraseRoute (ru_route upd) e).1) He Ht (keeps_links_eraseRoute _)) as Hcopy. cbv beta in Hcopy.
  pose proof (eraseRoute_routes (ru_route upd) e) as Hroutes. destruct (eraseRoute (ru_route upd) e) as [temp ev]. cbn [fst] in Hcopy, Hroutes.
  set (v := with_cancelled _ u). assert (Hv : about (in_scope (ru_name upd)) (has_entry t (ru_name upd) survives) C v) by (destruct Hu; by constructor).
  destruct (erasedRoute_concerns (C := C) t Ht (ru_name upd) Hn survives temp old (hasCapture e && negb (hasCapture temp)) v Hcopy) as (w&->&Hw); [|done|].
  { intros Hz. apply (Hs e eq_refl). intros Hnil. apply Hz. unfold getNRoutes. by rewrite Hroutes, Hnil. }
  cbn [rbind]. pose proof (second_lowest_spec (r_faceId (ru_route upd)) e) as Hsec. destruct (getRouteWithSecondLowestCostByFaceId _ e) as [p|]; cbn [read_freed rbind].
  { split; [done|]. exists e. rewrite Hf. split_and!; [done|done|]. apply Z.nlt_ge. by rewrite <- Hsec. }
  assert (Hno : ~ exists entry, Some e = Some entry /\ (match findRoute (ru_route upd) entry with Some _ => true | None => false end) = true /\
    2 <= len (filter (fun r => r_faceId r = r_faceId (ru_route upd)) (re_routes entry))).
  { intros (?&[= <-]&_&Hl). apply proj1 in Hsec. specialize (Hsec eq_refl). lia. }
  destruct (_ =? 1); (split; [|exact Hno]); [|done]. apply erasedEntry_concerns; [done|by apply (tree_named _ Ht)|done].
Qed.

Lemma send_lists u : (sendUpdatesForBatchFaceId u).1 = u \/ (exists l, (sendUpdatesForBatchFaceId u).1 = sendUpdates l u).
Proof. unfold sendUpdatesForBatchFaceId, sendUpdatesForNonBatchFaceId. destruct (_ <? _); [eauto|]. destruct (_ <? _); eauto. Qed.

Lemma sendUpdates_commands l : forall u, sendUpdates l u = with_commands (fu_commands u ++ map (fun x => MkCommand (fu_action x) x 0) l) u.
Proof.
  induction l as [|x l IH]; intros u; cbn [sendUpdates fold_left map]; [rewrite app_nil_r; by destruct u|]. fold (sendUpdates l).
  rewrite IH. destruct (fu_action x); unfold sendAddNextHopUpdate, sendRemoveNextHopUpdate; cbn [fu_commands with_commands]; by rewrite <- app_assoc.
Qed.

Lemma about_send P Q C u : about P Q C u -> exists C', about P Q C' (sendUpdatesForBatchFaceId u).1.
Proof. intros Hu. destruct (send_lists u) as [->|[l ->]]; [by exists C|]. rewrite sendUpdates_commands. eexists. destruct Hu. by constructor. Qed.

Lemma keys_of_routes r k : rib_inv r -> k ∈ keys (m_rib r) <-> routes_at r k <> [].
Proof.
  intros Hr. rewrite <- deref_is_Some. unfold routes_at. destruct (deref k (m_rib r)) as [e|] eqn:He; [|split; [by intros [? ?]|done]].
  split; [|by eexists]. intros _. by apply (rib_inv_routes _ Hr k).
Qed.

Lemma about_fresh P Q face cmds cancelled : about P Q cmds (MkFibUpdater face [] [] [] cmds cancelled).
Proof. constructor; cbn; [constructor..|split; constructor|done]. Qed.

Lemma about_clear P Q C u : about P Q C u -> about P Q C (with_updates [] (m_updatesForNonBatchFaceId u) u).
Proof. intros [? ? ? [_ ?] ?]. constructor; cbn; [constructor|done|done|split; [constructor|done]|done]. Qed.

(** The two faults of the computation: a null pointer when a route is registered again,
    and a read of freed memory when one of several routes over a face goes. *)
Definition compute_fault (r : Rib) (upd : RibUpdate) (e : error) : Prop :=
  (e = NullPointer /\ ru_action upd = REGISTER /\ exists entry, deref (ru_name upd) (m_rib r) = Some entry /\ hasRoute (ru_route upd) entry = true) \/
  (e = UseAfterFree /\ ru_action upd <> REGISTER /\ shares_face (m_rib r) upd).

(** The updates that are computed for an update that turns [r] into [r'] *)
Lemma compute_concerns r r' upd v C : rib_inv r -> rib_name (ru_name upd) -> (forall k, routes_at r' k = apply_update (routes_at r) upd k) ->
  let concerns := about (in_scope (ru_name upd)) (has_entry (m_rib r) (ru_name upd) (routes_at r' (ru_name upd) <> [])) C in
  concerns v ->
  match computeUpdate (m_rib r) upd v with
  | Ok w => concerns w /\ (ru_action upd = REGISTER \/ ~ shares_face (m_rib r) upd)
  | Err e => compute_fault r upd e
  end.
Proof.
  intros Hr Hn Hroutes concerns Hv. pose proof (rib_inv_tree _ Hr) as Ht. unfold computeUpdate.
  assert (Hself : routes_at r' (ru_name upd) = match ru_action upd with REGISTER => register (ru_route upd) (routes_at r (ru_name upd))
                                               | _ => erase_route (ru_route upd) (routes_at r (ru_name upd)) end).
  { rewrite Hroutes. unfold apply_update. by rewrite decide_True. }
  assert (Hun : ru_action upd <> REGISTER -> match computeUpdatesForUnregistration (m_rib r) upd v with
      | Ok w => concerns w /\ ~ shares_face (m_rib r) upd | Err e => e = UseAfterFree /\ shares_face (m_rib r) upd end).
  { intros Ha. apply unregistration_concerns; [done|done| |done]. intros e He Hne. rewrite Hself. unfold routes_at. rewrite He. by destruct (ru_action upd). }
  unfold compute_fault.
  destruct (ru_action upd) eqn:Ha.
  - pose proof (registration_concerns (m_rib r) upd v (routes_at r' (ru_name upd) <> []) C Ht Hn) as Hreg.
    assert (Hs : routes_at r' (ru_name upd) <> []).
    { rewrite Hself. apply register_ok. unfold routes_at. destruct (deref _ (m_rib r)) as [e|] eqn:He; [by apply (rib_inv_routes _ Hr _ _ He)|constructor]. }
    specialize (Hreg Hs Hv). destruct (computeUpdatesForRegistration _ _ _) as [w|x]; [|left; tauto]. split; [done|by left].
  - specialize (Hun ltac:(done)). destruct (computeUpdatesForUnregistration _ _ _) as [w|x]; [|right; by destruct Hun]. split; [apply Hun|right; apply Hun].
  - specialize (Hun ltac:(done)). destruct (computeUpdatesForUnregistration _ _ _) as [w|x]; cbn [rbind]; [|right; by destruct Hun].
    split; [apply about_clear, Hun|right; apply Hun].
Qed.

(** C16. The updater changes nothing outside the name space of an update.  When the computation
    for an update succeeds, the FIB updates concern the name of the update and names under it,
    at most one per name and face, and the inherited routes that it plans belong to entries
    that the RIB has once the update is applied, which [modifyInheritedRoutes] asserts.  It
    ends always, and fails in two cases only: at a null pointer, for the
    registration of a route that is registered already; and with a read of freed memory, when
    the route that is unregistered, or removed with its face, is in the RIB next to another
    route over the same face.  In the second case it fails always, since the second cheapest
    route is returned by a pointer into a local vector. *)
Theorem fib_updates_local (r : Rib) (upd : RibUpdate) (u0 : FibUpdater) (Hr : rib_inv r) (Hn : rib_name (ru_name upd)) :
  match computeAndSendFibUpdates (m_rib r) (MkRibUpdateBatch (r_faceId (ru_route upd)) [upd]) u0 with
  | Ok (u1, _) =>
      Forall (fun x => ru_name upd `prefix_of` fu_name x) (m_updatesForBatchFaceId u1 ++ m_updatesForNonBatchFaceId u1) /\
      NoDup (map update_key (m_updatesForBatchFaceId u1)) /\ NoDup (map update_key (m_updatesForNonBatchFaceId u1)) /\
      (ru_action upd = REGISTER \/ ~ shares_face (m_rib r) upd) /\
      exists r', apply_batch [upd] r = Ok r' /\ Forall (fun x => ru_name x ∈ keys (m_rib r')) (m_inheritedRoutes u1)
  | Err e => compute_fault r upd e
  end.
Proof.
  destruct (apply_one upd r Hr Hn) as (r'&Hap&Hr'&_&Hroutes).
  assert (Hkeys : forall k, has_entry (m_rib r) (ru_name upd) (routes_at r' (ru_name upd) <> []) k -> k ∈ keys (m_rib r')).
  { intros k [[Hk Hu]|[-> Hs]]; apply keys_of_routes; try done. rewrite Hroutes. unfold apply_update. rewrite decide_False by (intros ->; by destruct Hu).
    by apply keys_of_routes. }
  unfold computeAndSendFibUpdates, computeUpdates. cbn [rub_updates for_each rub_faceId]. set (v := MkFibUpdater _ [] [] [] _ _).
  pose proof (compute_concerns r r' upd v _ Hr Hn Hroutes (about_fresh _ _ _ _ _)) as Hc. destruct (computeUpdate (m_rib r) upd v) as [w|x]; [|exact Hc].
  cbn [rbind]. destruct Hc as [Hc Hsh]. apply about_send in Hc as [C [H1 H2 H3 [H4 H5] _]]. rewrite (surjective_pairing (sendUpdatesForBatchFaceId w)).
  split_and!; [|done|done|done|].
  - apply Forall_app. split; (eapply Forall_impl; [eassumption|]); by intros x [[? _] _].
  - exists r'. split; [done|]. eapply Forall_impl; [exact H3|]. intros x. apply Hkeys.
Qed.

(** ** Two faults of the computation *)

(** A null pointer: an entry has two routes over a face, neither inherited by children.
    When the cheaper one is registered again with a cost above that of the other, the
    computation looks for a child-inherit route, finds none and dereferences it. *)
Theorem fib_update_null_route (t : RibTable) (upd : RibUpdate) (e : RibEntry) (old other : Route) (u : FibUpdater)
  (Ht : rib_tree t) (Hn : rib_name (ru_name upd)) (Hact : ru_action upd = REGISTER) (He : deref (ru_name upd) t = Some e)
  (Hroutes : re_routes e = [old; other]) (Hold : route_key old = route_key (ru_route upd)) (Hface : r_faceId other = r_faceId old)
  (Horigin : r_origin other <> r_origin old) (Hc1 : r_cost old < r_cost other) (Hc2 : r_cost other < r_cost (ru_route upd))
  (Hi1 : isChildInherit other = false) (Hi2 : isChildInherit (ru_route upd) = false) :
  computeUpdate t upd u = Err NullPointer.
Proof.
  injection Hold as Hof Hoo. unfold computeUpdate, computeUpdatesForRegistration. rewrite Hact, (table_find_deref _ _ (tree_keys _ Ht) Hn), He.
  assert (Hcmp : compareFaceIdAndOrigin old (ru_route upd) = true) by (apply compare_key_iff; unfold route_key; congruence).
  unfold findRoute. rewrite Hroutes. cbn [List.find copy_fields]. rewrite Hcmp. unfold createFibUpdatesForUpdatedRoute. rewrite (proj2 (Z.eqb_neq (r_cost (ru_route upd)) (r_cost old))) by lia.
  rewrite andb_false_r. cbn [negb]. unfold update_own_cost, getRouteWithLowestCostByFaceId, getRouteWithLowestCostAndChildInheritByFaceId.
  cbn [re_routes setRoutes lowest_cost r_faceId r_cost r_flags]. rewrite Hof, Hface, Hof, Z.eqb_refl. cbn [andb].
  assert (Hci : forall r, isChildInherit r = false -> (Z.land (r_flags r) ROUTE_FLAG_CHILD_INHERIT =? ROUTE_FLAG_CHILD_INHERIT) = false).
  { intros r Hr. unfold isChildInherit in Hr. apply negb_false_iff, Z.eqb_eq in Hr. by rewrite Hr. }
  rewrite (Hci _ Hi1), (Hci _ Hi2). cbn [r_cost]. rewrite (proj2 (Z.ltb_lt (r_cost other) (r_cost (ru_route upd)))) by lia.
  rewrite (proj2 (Z.leb_gt (r_cost (ru_route upd)) (r_cost other))) by lia. by rewrite (proj2 (Z.ltb_lt (r_cost old) (r_cost other))) by lia.
Qed.

(** A pointer into freed memory: unregistering a route, or removing its face, reads the
    second cheapest route over the face through a pointer into a vector that is destroyed,
    whenever the entry has another route over the face. *)
Theorem fib_unregister_reads_freed (r : Rib) (upd : RibUpdate) (u : FibUpdater)
  (Hr : rib_inv r) (Hn : rib_name (ru_name upd)) (Hact : ru_action upd <> REGISTER) (Hshare : shares_face (m_rib r) upd) :
  computeAndSendFibUpdates (m_rib r) (MkRibUpdateBatch (r_faceId (ru_route upd)) [upd]) u = Err UseAfterFree.
Proof.
  destruct (apply_one upd r Hr Hn) as (r'&_&_&_&Hroutes). unfold computeAndSendFibUpdates, computeUpdates. cbn [rub_updates for_each rub_faceId].
  pose proof (compute_concerns r r' upd _ _ Hr Hn Hroutes (about_fresh _ _ (r_faceId (ru_route upd)) (fu_commands u) (fu_cancelled u))) as Hc. cbv zeta in Hc.
  destruct (computeUpdate (m_rib r) upd _) as [w|x]; [by destruct Hc as [_ [?|?]]|]. destruct Hc as [(_&?&_)|(->&_&_)]; done.
Qed.
