(* ===== verification/FibExchange.v ===== *)
(** * The exchange between the FIB updater and the forwarder

    The commands of an update are answered in any order, some after timeouts.  Answers
    can arrive after the RIB was told of a failure, and an answer can end the program with
    an exception.  The exchange ends after a bounded number of answers: the RIB is told of
    the success once, when every command is answered, and of a failure for every command
    that finds the face of the update gone. *)

From S2P Require Import Prelude StdMap Tlv NameComponent Name Packet CsEntry RibEntry Rib RibTree RibProps RibQueue FibUpdater.

#[local] Arguments remove_update : simpl never.

(** ** Answers *)

Inductive Answer : Type := AnswerOk | AnswerError (code : Z).

Fixpoint remove_command (cmd : Command) (l : list Command) : list Command :=
  match l with
  | [] => []
  | c :: l' => if decide (c = cmd) then l' else c :: remove_command cmd l'
  end.

(** The callback of the command that is answered *)
Definition on_answer (cmd : Command) (a : Answer) (u : FibUpdater) : result (FibUpdater * Outcome) :=
  let u := with_commands (remove_command cmd (fu_commands u)) u in
  match a with
  | AnswerOk => Ok (onUpdateSuccess (cmd_update cmd) u)
  | AnswerError code => onUpdateError (cmd_update cmd) code (cmd_nTimeouts cmd) u
  end.

(** The call of a callback, if there is one *)
Definition calls_of (o : Outcome) : list Outcome := match o with Waiting => [] | _ => [o] end.

(** The answers to the commands of one computation, as they arrive: how many there were,
    the updater or the exception after them, and the calls of the two callbacks.  A
    callback that was called does not stop the answers that are still to come. *)
Inductive exchange (u1 : FibUpdater) (o1 : Outcome) : nat -> result FibUpdater -> list Outcome -> Prop :=
| ExchangeStart : exchange u1 o1 0 (Ok u1) (calls_of o1)
| ExchangeAnswer k u calls cmd a u' o' : exchange u1 o1 k (Ok u) calls -> cmd ∈ fu_commands u -> on_answer cmd a u = Ok (u', o') ->
    exchange u1 o1 (S k) (Ok u') (calls ++ calls_of o')
| ExchangeThrow k u calls cmd a e : exchange u1 o1 k (Ok u) calls -> cmd ∈ fu_commands u -> on_answer cmd a u = Err e ->
    exchange u1 o1 (S k) (Err e) calls.

(** ** Lists of updates *)

Lemma remove_command_perm cmd l : cmd ∈ l -> l ≡ₚ cmd :: remove_command cmd l.
Proof.
  induction l as [|c l IH]; intros Hin; [by apply elem_of_nil in Hin|]. cbn [remove_command]. destruct (decide (c = cmd)) as [->|Hc]; [done|].
  apply elem_of_cons in Hin as [->|Hin]; [done|]. rewrite (IH Hin) at 1. apply Permutation_swap.
Qed.

#[local] Arguments remove_command : simpl never.

Lemma FibUpdate_equals_gen a b : gen_name (fu_name a) -> gen_name (fu_name b) -> FibUpdate_equals a b = true <-> a = b.
Proof.
  intros Ha Hb. unfold FibUpdate_equals. rewrite !andb_true_iff, (Name_equals_gen _ _ Ha Hb), !Z.eqb_eq, bool_decide_eq_true. destruct a, b; cbn. split.
  - by intros [[[-> ->] ->] ->].
  - by intros [= -> -> -> ->].
Qed.

Lemma unique_NoDup l : unique l -> NoDup l.
Proof. apply NoDup_fmap_1. Qed.

Lemma remove_update_perm x l : unique l -> Forall (fun y => gen_name (fu_name y)) l -> x ∈ l -> l ≡ₚ x :: remove_update x l.
Proof.
  intros Hu%unique_NoDup Hg Hx. unfold remove_update. assert (Hgx : gen_name (fu_name x)) by (rewrite Forall_forall in Hg; by apply Hg).
  apply NoDup_Permutation; [done| |].
  - apply NoDup_cons. split; [|by apply NoDup_filter]. intros [Hf _]%list_elem_of_filter. apply not_true_iff_false in Hf. apply Hf. by apply FibUpdate_equals_gen.
  - intros y. rewrite elem_of_cons, list_elem_of_filter. rewrite Forall_forall in Hg. split.
    + intros Hy. destruct (decide (y = x)) as [|Hn]; [by left|]. right. split; [|done]. apply not_true_iff_false. rewrite FibUpdate_equals_gen; auto.
    + intros [->|[_ ?]]; done.
Qed.

Lemma unique_remove x l : unique l -> unique (remove_update x l).
Proof. unfold unique, remove_update. intros Hu. apply (sublist_NoDup _ (map update_key l)); [done|]. apply fmap_sublist, sublist_filter. Qed.

Lemma Forall_remove (P : FibUpdate -> Prop) x l : Forall P l -> Forall P (remove_update x l).
Proof. rewrite !Forall_forall. intros Hl y [_ Hy]%list_elem_of_filter. by apply Hl. Qed.

(** ** The state of an exchange *)

(** The list whose commands are out *)
Definition current (u : FibUpdater) : list FibUpdate :=
  match m_updatesForBatchFaceId u with [] => m_updatesForNonBatchFaceId u | l => l end.

(** Answers that are still possible: eleven for an update *)
Definition patience (l : list Command) : Z := foldr (fun c n => (MAX_NUM_TIMEOUTS + 1 - cmd_nTimeouts c) + n) 0 l.
Definition measure (u : FibUpdater) : Z :=
  patience (fu_commands u) + match m_updatesForBatchFaceId u with [] => 0 | _ => 11 * len (m_updatesForNonBatchFaceId u) end.

Section Exchange.
Context {P Q : Name -> Prop} `{!GenNames P}.

(** Commands are out for the updates of the current list, but those that were refused. *)
Record waiting (refused : list FibUpdate) (u : FibUpdater) : Prop := {
  waiting_about : about P Q (fu_commands u) u;
  waiting_commands : map cmd_update (fu_commands u) ++ refused ≡ₚ current u;
  waiting_refused : refused <> [] -> m_updatesForBatchFaceId u <> [];
  waiting_timeouts : Forall (fun c => 0 <= cmd_nTimeouts c <= MAX_NUM_TIMEOUTS) (fu_commands u)
}.

Lemma patience_perm l l' : l ≡ₚ l' -> patience l = patience l'.
Proof. unfold patience. induction 1; cbn [foldr]; lia. Qed.

Lemma patience_cons c l : patience (c :: l) = MAX_NUM_TIMEOUTS + 1 - cmd_nTimeouts c + patience l.
Proof. done. Qed.

Lemma patience_fresh l : patience (map (fun x => MkCommand (fu_action x) x 0) l) = 11 * len l.
Proof. unfold patience. induction l as [|x l IH]; [done|]. cbn [map foldr cmd_nTimeouts]. rewrite IH, len_cons. unfold MAX_NUM_TIMEOUTS. lia. Qed.

Lemma patience_nonneg l : Forall (fun c => 0 <= cmd_nTimeouts c <= MAX_NUM_TIMEOUTS) l -> 0 <= patience l.
Proof. unfold patience. induction 1; cbn [foldr]; lia. Qed.

Lemma about_names u C : about P Q C u ->
  Forall (fun y => gen_name (fu_name y)) (m_updatesForBatchFaceId u) /\ Forall (fun y => gen_name (fu_name y)) (m_updatesForNonBatchFaceId u).
Proof. intros [Hb Ho _ _ _]. split; (eapply Forall_impl; [eassumption|]); intros x [? _]; by apply gen_of. Qed.

Lemma about_remove_batch x u C : about P Q C u ->
  about P Q C (with_updates (remove_update x (m_updatesForBatchFaceId u)) (m_updatesForNonBatchFaceId u) u).
Proof. intros [? ? ? [? ?] ?]. constructor; cbn; [by apply Forall_remove|done|done|split; [by apply unique_remove|done]|done]. Qed.

Lemma about_remove_others x u C : about P Q C u ->
  about P Q C (with_updates (m_updatesForBatchFaceId u) (remove_update x (m_updatesForNonBatchFaceId u)) u).
Proof. intros [? ? ? [? ?] ?]. constructor; cbn; [done|by apply Forall_remove|done|split; [done|by apply unique_remove]|done]. Qed.

(** Nothing is left to send or to answer. *)
Definition finished (u : FibUpdater) : Prop := fu_commands u = [] /\ m_updatesForBatchFaceId u = [] /\ m_updatesForNonBatchFaceId u = [].

(** What one answer leads to *)
Definition settled (refused : list FibUpdate) (inh : list RibUpdate) (m : Z) (x : FibUpdater * Outcome) : Prop :=
  match x.2 with
  | Waiting => waiting refused x.1 /\ (refused = [] -> current x.1 <> [])
  | Succeeded l => l = inh /\ refused = [] /\ finished x.1
  | Failed code => code = ERROR_FACE_NOT_FOUND /\ exists y, waiting (refused ++ [y]) x.1
  end /\ m_inheritedRoutes x.1 = inh /\ 0 <= measure x.1 < m.

Lemma finished_measure u : finished u -> measure u = 0.
Proof. intros (Hc&Hb&_). unfold measure. by rewrite Hc, Hb. Qed.

Lemma len_zero {A} (l : list A) : len l <= 0 -> l = [].
Proof. destruct l as [|x l]; [done|]. rewrite len_cons. pose proof (len_nonneg l). lia. Qed.

(** Sending the second list *)
Lemma send_others u : about P Q [] u -> m_updatesForBatchFaceId u = [] ->
  forall m, 11 * len (m_updatesForNonBatchFaceId u) < m -> settled [] (m_inheritedRoutes u) m (sendUpdatesForNonBatchFaceId u).
Proof.
  intros Hu Hb m Hm. pose proof (about_commands _ _ _ _ Hu) as Hc. unfold sendUpdatesForNonBatchFaceId. pose proof (len_nonneg (m_updatesForNonBatchFaceId u)).
  destruct (Z.ltb_spec 0 (len (m_updatesForNonBatchFaceId u))) as [Hl|Hl].
  - rewrite sendUpdates_commands, Hc. cbn [app]. unfold settled, current, measure. cbn [fst snd m_updatesForBatchFaceId with_commands fu_commands m_updatesForNonBatchFaceId].
    rewrite Hb, patience_fresh. split_and!; [|by intros _ Hn; rewrite Hn in Hl|done|lia|lia]. constructor; [destruct Hu; by constructor| |done|].
    + unfold current. cbn [m_updatesForBatchFaceId with_commands fu_commands m_updatesForNonBatchFaceId]. rewrite Hb, map_map, app_nil_r. cbn. by rewrite map_id.
    + cbn [fu_commands with_commands]. apply Forall_map, Forall_true. intros x. unfold MAX_NUM_TIMEOUTS. cbn. lia.
  - assert (Hf : finished u) by (split_and!; [done|done|by apply len_zero]). split_and!; [split_and!; done|done|..]; cbn [fst]; rewrite (finished_measure _ Hf); lia.
Qed.

(** *** One answer *)

Context (refused : list FibUpdate) (u : FibUpdater) (Hw : waiting refused u) (cmd : Command) (Hcmd : cmd ∈ fu_commands u).
Abbreviation x := (cmd_update cmd).
Abbreviation rest := (remove_command cmd (fu_commands u)).
Abbreviation u0 := (with_commands rest u).

Lemma rest_perm : current u ≡ₚ x :: map cmd_update rest ++ refused.
Proof. rewrite <- (waiting_commands _ _ Hw). rewrite (remove_command_perm cmd _ Hcmd) at 1. done. Qed.

Lemma rest_patience : patience (fu_commands u) = MAX_NUM_TIMEOUTS + 1 - cmd_nTimeouts cmd + patience rest.
Proof. by rewrite (patience_perm _ _ (remove_command_perm cmd _ Hcmd)). Qed.

Lemma rest_timeouts : 0 <= cmd_nTimeouts cmd <= MAX_NUM_TIMEOUTS /\ Forall (fun c => 0 <= cmd_nTimeouts c <= MAX_NUM_TIMEOUTS) rest.
Proof.
  pose proof (waiting_timeouts _ _ Hw) as Ht. rewrite (remove_command_perm cmd _ Hcmd) in Ht. by apply Forall_cons in Ht.
Qed.

Lemma about_u0 : about P Q rest u0.
Proof. destruct (waiting_about _ _ Hw). by constructor. Qed.

Lemma measure_pos : 0 < measure u.
Proof.
  unfold measure. rewrite rest_patience. destruct rest_timeouts as [? Hr]. pose proof (patience_nonneg _ Hr). pose proof (len_nonneg (m_updatesForNonBatchFaceId u)).
  destruct (m_updatesForBatchFaceId u); lia.
Qed.

(** The update is one of the face of the batch as long as that list is not empty. *)
Lemma batch_phase : m_updatesForBatchFaceId u <> [] -> x ∈ m_updatesForBatchFaceId u /\ fu_faceId x = m_batchFaceId u /\
  map cmd_update rest ++ refused ≡ₚ remove_update x (m_updatesForBatchFaceId u).
Proof.
  intros Hb. pose proof rest_perm as Hp. unfold current in Hp. destruct (m_updatesForBatchFaceId u) as [|y l] eqn:He; [done|]. rewrite <- He in *.
  assert (Hx : x ∈ m_updatesForBatchFaceId u) by (rewrite Hp; by left). split; [done|]. destruct (waiting_about _ _ Hw) as [Ha _ _ [Hu _] _]. split.
  - rewrite Forall_forall in Ha. by apply Ha.
  - apply (Permutation_cons_inv (a := x)). rewrite <- Hp. apply remove_update_perm; [done|apply (about_names u _ (waiting_about _ _ Hw))|done].
Qed.

Lemma others_phase : m_updatesForBatchFaceId u = [] -> refused = [] /\ x ∈ m_updatesForNonBatchFaceId u /\ fu_faceId x <> m_batchFaceId u /\
  map cmd_update rest ≡ₚ remove_update x (m_updatesForNonBatchFaceId u).
Proof.
  intros Hb. pose proof rest_perm as Hp. unfold current in Hp. rewrite Hb in Hp. assert (Hx : x ∈ m_updatesForNonBatchFaceId u) by (rewrite Hp; by left).
  assert (Hr : refused = []) by (destruct (decide (refused = [])) as [|Hn]; [done|]; by destruct (waiting_refused _ _ Hw Hn)). rewrite Hr, app_nil_r in Hp.
  destruct (waiting_about _ _ Hw) as [_ Ha _ [_ Hu] _]. split_and!; [done|done| |].
  - rewrite Forall_forall in Ha. by apply Ha.
  - apply (Permutation_cons_inv (a := x)). rewrite <- Hp. apply remove_update_perm; [done|apply (about_names u _ (waiting_about _ _ Hw))|done].
Qed.

(** The update leaves the second list. *)
Lemma others_done : m_updatesForBatchFaceId u = [] ->
  let v := with_updates (m_updatesForBatchFaceId u0) (remove_update x (m_updatesForNonBatchFaceId u0)) u0 in
  settled refused (m_inheritedRoutes u) (measure u) (if len (m_updatesForNonBatchFaceId v) =? 0 then (v, Succeeded (m_inheritedRoutes v)) else (v, Waiting)).
Proof.
  intros Hb v. destruct (others_phase Hb) as (Hrf&Hx&Hf&Hp). destruct rest_timeouts as [Ht Hr]. pose proof (patience_nonneg _ Hr).
  assert (Hm : 0 <= measure v < measure u).
  { unfold measure, v. cbn [fu_commands with_updates with_commands m_updatesForBatchFaceId]. rewrite Hb, rest_patience. lia. }
  rewrite Hrf.
  change (m_updatesForNonBatchFaceId v) with (remove_update x (m_updatesForNonBatchFaceId u)). destruct (Z.eqb_spec (len (remove_update x (m_updatesForNonBatchFaceId u))) 0) as [Hl|Hl].
  - assert (Hnil : remove_update x (m_updatesForNonBatchFaceId u) = []) by (apply len_zero; lia).
    rewrite Hnil in Hp. apply Permutation_nil_r, map_eq_nil in Hp. by split.
  - split; [|done]. cbn [fst snd]. unfold current. cbn [m_updatesForBatchFaceId m_updatesForNonBatchFaceId v with_updates with_commands]. rewrite Hb.
    split; [|by intros _ Hn; rewrite Hn in Hl]. constructor; [apply about_remove_others, about_u0| |done|done].
    unfold current. cbn. rewrite Hb, app_nil_r. exact Hp.
Qed.

Lemma success_settled : settled refused (m_inheritedRoutes u) (measure u) (onUpdateSuccess x u0).
Proof.
  unfold onUpdateSuccess. destruct rest_timeouts as [Ht Hr]. pose proof (patience_nonneg _ Hr). pose proof (len_nonneg (m_updatesForNonBatchFaceId u)).
  destruct (decide (m_updatesForBatchFaceId u = [])) as [Hb|Hb].
  - destruct (others_phase Hb) as (_&Hx&Hf&_). change (m_batchFaceId u0) with (m_batchFaceId u). rewrite (proj2 (Z.eqb_neq _ _)) by done. by apply others_done.
  - destruct (batch_phase Hb) as (Hx&Hf&Hp). change (m_batchFaceId u0) with (m_batchFaceId u). rewrite (proj2 (Z.eqb_eq _ _)) by done.
    set (v := with_updates _ _ u0). assert (Hv : about P Q rest v) by (apply (about_remove_batch x u0), about_u0).
    change (m_updatesForBatchFaceId v) with (remove_update x (m_updatesForBatchFaceId u)).
    destruct (Z.eqb_spec (len (remove_update x (m_updatesForBatchFaceId u))) 0) as [Hl|Hl].
    + assert (Hnil : remove_update x (m_updatesForBatchFaceId u) = []) by (apply len_zero; lia).
      rewrite Hnil in Hp. apply Permutation_nil_r, app_nil in Hp as [Hp%map_eq_nil Hrf]. rewrite Hrf. rewrite Hp in Hv. apply (send_others v Hv Hnil). unfold measure. rewrite rest_patience, Hp.
      destruct (m_updatesForBatchFaceId u); [done|]. change (patience []) with 0. cbn. lia.
    + assert (Hne : remove_update x (m_updatesForBatchFaceId u) <> []) by (intros Hn; by rewrite Hn in Hl). unfold settled, current, measure, v.
      cbn [fst snd fu_commands with_updates with_commands m_updatesForBatchFaceId m_updatesForNonBatchFaceId]. rewrite rest_patience.
      split_and!; [|by destruct (remove_update x (m_updatesForBatchFaceId u))|done|..];
        [|destruct (m_updatesForBatchFaceId u), (remove_update x _); try done; lia..].
      constructor; [exact Hv| |done|done]. unfold current. cbn. by destruct (remove_update x (m_updatesForBatchFaceId u)).
Qed.

Lemma measure_resent : 0 <= measure (sendAddNextHopUpdate x (cmd_nTimeouts cmd + 1) u0) < measure u.
Proof.
  destruct rest_timeouts as [Ht Hr]. pose proof (patience_nonneg _ Hr). pose proof (len_nonneg (m_updatesForNonBatchFaceId u)).
  unfold measure. cbn [fu_commands with_updates with_commands m_updatesForBatchFaceId m_updatesForNonBatchFaceId sendAddNextHopUpdate].
  rewrite rest_patience, (patience_perm _ _ (Permutation_app_comm _ _)). cbn [app]. rewrite patience_cons. cbn [cmd_nTimeouts].
  destruct (m_updatesForBatchFaceId u); lia.
Qed.

Lemma timeout_settled : cmd_nTimeouts cmd < MAX_NUM_TIMEOUTS ->
  settled refused (m_inheritedRoutes u) (measure u) (sendAddNextHopUpdate x (cmd_nTimeouts cmd + 1) u0, Waiting).
Proof.
  intros Hlt. destruct rest_timeouts as [Ht Hr]. unfold settled. cbn [fst snd]. split_and!; [..|done| |].
  - constructor; [destruct (waiting_about _ _ Hw); by constructor| |exact (waiting_refused _ _ Hw)|].
    + change (current (sendAddNextHopUpdate x (cmd_nTimeouts cmd + 1) u0)) with (current u). rewrite rest_perm. cbn. rewrite map_app. cbn.
      rewrite <- app_assoc. cbn. by rewrite <- Permutation_middle.
    + cbn. apply Forall_app. split; [done|]. apply Forall_singleton. cbn. lia.
  - intros _. change (current u <> []). intros Hn. pose proof rest_perm as Hp. rewrite Hn in Hp. by apply Permutation_nil_l in Hp.
  - apply measure_resent.
  - apply measure_resent.
Qed.

(** The face of the batch is gone: its update stays in the list. *)
Lemma refused_settled : m_updatesForBatchFaceId u <> [] -> settled refused (m_inheritedRoutes u) (measure u) (u0, Failed ERROR_FACE_NOT_FOUND).
Proof.
  intros Hb. destruct rest_timeouts as [Ht Hr]. pose proof (patience_nonneg _ Hr). pose proof (len_nonneg (m_updatesForNonBatchFaceId u)).
  split_and!; [|done|..]; cbn [fst snd].
  - split; [done|]. exists x. constructor; [apply about_u0| |done|done]. change (current u0) with (current u). rewrite rest_perm. cbn [fu_commands with_commands].
    rewrite app_assoc. by rewrite Permutation_app_comm.
  - unfold measure. cbn [fu_commands with_commands m_updatesForBatchFaceId m_updatesForNonBatchFaceId]. destruct (m_updatesForBatchFaceId u); lia.
  - unfold measure. cbn [fu_commands with_commands m_updatesForBatchFaceId m_updatesForNonBatchFaceId]. rewrite rest_patience. destruct (m_updatesForBatchFaceId u); lia.
Qed.

(** The answers that are not recovered from *)
Definition fatal (cmd : Command) (a : Answer) : Prop :=
  exists code, a = AnswerError code /\ code <> ERROR_FACE_NOT_FOUND /\ (code = ERROR_TIMEOUT -> cmd_nTimeouts cmd = MAX_NUM_TIMEOUTS).

Lemma answer_settled a : match on_answer cmd a u with
  | Ok y => settled refused (m_inheritedRoutes u) (measure u) y
  | Err e => e = RuntimeError /\ fatal cmd a
  end.
Proof.
  unfold on_answer. destruct a as [|code]; [apply success_settled|]. unfold onUpdateError. destruct rest_timeouts as [Ht _].
  destruct ((code =? ERROR_TIMEOUT) && (cmd_nTimeouts cmd <? MAX_NUM_TIMEOUTS)) eqn:Hto.
  { apply andb_true_iff in Hto as [_ Hlt%Z.ltb_lt]. by apply timeout_settled. }
  destruct (Z.eqb_spec code ERROR_FACE_NOT_FOUND) as [->|Hc].
  - change (m_batchFaceId u0) with (m_batchFaceId u). destruct (decide (m_updatesForBatchFaceId u = [])) as [Hb|Hb].
    + destruct (others_phase Hb) as (_&Hx&Hf&_). rewrite (proj2 (Z.eqb_neq _ _)) by done. pose proof (others_done Hb) as Hd. cbv zeta in Hd.
      destruct (_ =? 0); exact Hd.
    + destruct (batch_phase Hb) as (Hx&Hf&_). rewrite (proj2 (Z.eqb_eq _ _)) by done. by apply refused_settled.
  - split; [done|]. exists code. split_and!; [done|done|]. intros ->. apply Z.ltb_ge in Hto. lia.
Qed.

(** An answer throws exactly when it is fatal. *)
Lemma answer_throws a : match on_answer cmd a u with Ok _ => ~ fatal cmd a | Err e => e = RuntimeError /\ fatal cmd a end.
Proof.
  pose proof (answer_settled a) as Ha. destruct (on_answer cmd a u) as [y|e] eqn:Hy; [|done]. intros (code&->&Hc&Hto). revert Hy. unfold on_answer, onUpdateError.
  rewrite (proj2 (Z.eqb_neq _ _) Hc). destruct (Z.eqb_spec code ERROR_TIMEOUT) as [He|He]; [|done]. rewrite (Hto He). done.
Qed.
End Exchange.

(** ** The whole exchange *)

Lemma start_settled P Q `{!GenNames P} w : about P Q [] w ->
  let total := len (m_updatesForBatchFaceId w) + len (m_updatesForNonBatchFaceId w) in
  settled (P := P) (Q := Q) [] (m_inheritedRoutes w) (11 * total + 1) (sendUpdatesForBatchFaceId w).
Proof.
  intros Hw total. pose proof (about_commands _ _ _ _ Hw) as Hc. unfold sendUpdatesForBatchFaceId. pose proof (len_nonneg (m_updatesForNonBatchFaceId w)).
  destruct (Z.ltb_spec 0 (len (m_updatesForBatchFaceId w))) as [Hl|Hl].
  - rewrite sendUpdates_commands, Hc. cbn [app]. assert (Hne : m_updatesForBatchFaceId w <> []) by (intros Hn; by rewrite Hn in Hl).
    unfold settled, current, measure. cbn [fst snd m_updatesForBatchFaceId with_commands fu_commands m_updatesForNonBatchFaceId].
    rewrite patience_fresh. split_and!; [constructor|intros _|done|..]; unfold current; cbn [m_updatesForBatchFaceId with_commands fu_commands m_updatesForNonBatchFaceId].
    + destruct Hw. by constructor.
    + rewrite map_map, app_nil_r. cbn. rewrite map_id. by destruct (m_updatesForBatchFaceId w).
    + done.
    + apply Forall_map, Forall_true. intros x. unfold MAX_NUM_TIMEOUTS. cbn. lia.
    + by destruct (m_updatesForBatchFaceId w).
    + destruct (m_updatesForBatchFaceId w); lia.
    + destruct (m_updatesForBatchFaceId w); lia.
  - assert (Hb : m_updatesForBatchFaceId w = []) by (by apply len_zero). apply (send_others w Hw Hb). unfold total. rewrite Hb. change (len []) with 0. lia.
Qed.

(** What the RIB was told: of the success, or of the updates that were refused *)
Definition told (P Q : Name -> Prop) (inh : list RibUpdate) (u : FibUpdater) (calls : list Outcome) : Prop :=
  (calls = [Succeeded inh] /\ finished u) \/
  exists refused, calls = map (fun _ => Failed ERROR_FACE_NOT_FOUND) refused /\ waiting (P := P) (Q := Q) refused u /\ (refused = [] -> current u <> []).

Lemma told_settled P Q refused inh m u o : settled (P := P) (Q := Q) refused inh m (u, o) ->
  told P Q inh u (map (fun _ => Failed ERROR_FACE_NOT_FOUND) refused ++ calls_of o).
Proof.
  intros [Ho _]. unfold told. destruct o as [|l|code]; cbn [fst snd calls_of] in *.
  - right. exists refused. rewrite app_nil_r. tauto.
  - left. destruct Ho as (->&->&?). done.
  - right. destruct Ho as (->&y&Hy). exists (refused ++ [y]). rewrite map_app. split_and!; [done|done|]. by destruct refused.
Qed.

(** Every state of an exchange *)
Lemma exchange_told P Q `{!GenNames P} inh M u1 o1 : settled (P := P) (Q := Q) [] inh (M + 1) (u1, o1) ->
  forall k x calls, exchange u1 o1 k x calls ->
    match x with
    | Ok u => told P Q inh u calls /\ m_inheritedRoutes u = inh /\ 0 <= measure u /\ Z.of_nat k + measure u <= M
    | Err e => Z.of_nat k <= M /\ e = RuntimeError
    end.
Proof.
  intros Hs k x calls Hex.
  assert (Hnext : forall k u calls cmd a, told P Q inh u calls -> m_inheritedRoutes u = inh -> Z.of_nat k + measure u <= M -> cmd ∈ fu_commands u ->
    exists refused, calls = map (fun _ => Failed ERROR_FACE_NOT_FOUND) refused /\ Z.of_nat (S k) <= M /\
      match on_answer cmd a u with Ok y => settled (P := P) (Q := Q) refused inh (measure u) y | Err e => e = RuntimeError /\ fatal cmd a end).
  { clear k x calls Hex. intros k u calls cmd a [[_ (Hc&_)]|(refused&->&Hw&_)] Hinh HM Hcmd; [rewrite Hc in Hcmd; by apply elem_of_nil in Hcmd|].
    exists refused. pose proof (measure_pos refused u Hw cmd Hcmd). split_and!; [done|lia|]. rewrite <- Hinh. by apply answer_settled. }
  induction Hex as [|k u calls cmd a u' o' Hex IH Hcmd Ha|k u calls cmd a e Hex IH Hcmd Ha].
  - pose proof Hs as (_&?&?). cbn [fst] in *. split_and!; [exact (told_settled _ _ [] _ _ _ _ Hs)|done|lia|lia].
  - destruct IH as (Ht&Hinh&_&HM). destruct (Hnext k u calls cmd a Ht Hinh HM Hcmd) as (refused&->&_&Hset). rewrite Ha in Hset.
    pose proof Hset as (_&?&?). cbn [fst] in *. split_and!; [by eapply told_settled|done|lia|lia].
  - destruct IH as (Ht&Hinh&_&HM). destruct (Hnext k u calls cmd a Ht Hinh HM Hcmd) as (refused&_&?&Hset). rewrite Ha in Hset. tauto.
Qed.


(** ** Samples *)

Module FibSamplesRib.
Import RibSamples.

Definition idle : FibUpdater := MkFibUpdater 0 [] [] [] [] [].
(** /A/B is registered between /A and /A/B/C, whose inherited route is replaced. *)
Definition upd_ab : RibUpdate := MkRibUpdate REGISTER (nm [65; 66]) route2.
Definition computed : FibUpdater * Outcome :=
  match computeAndSendFibUpdates (m_rib rib2) (MkRibUpdateBatch 257 [upd_ab]) idle with Ok x => x | Err _ => (idle, Waiting) end.

Lemma fib_updates_local_witness :
  map (fun x => (fu_name x, fu_cost x)) (m_updatesForBatchFaceId computed.1) = [(nm [65; 66], 20); (nm [65; 66; 67], 20)] /\
  match computeAndSendFibUpdates (m_rib rib2) (MkRibUpdateBatch 257 [upd_ab]) idle with
  | Ok (u1, _) =>
      Forall (fun x => nm [65; 66] `prefix_of` fu_name x) (m_updatesForBatchFaceId u1 ++ m_updatesForNonBatchFaceId u1) /\
      NoDup (map update_key (m_updatesForBatchFaceId u1)) /\ NoDup (map update_key (m_updatesForNonBatchFaceId u1)) /\
      (REGISTER = REGISTER \/ ~ shares_face (m_rib rib2) upd_ab) /\
      exists r', apply_batch [upd_ab] rib2 = Ok r' /\ Forall (fun x => ru_name x ∈ keys (m_rib r')) (m_inheritedRoutes u1)
  | Err e => compute_fault rib2 upd_ab e
  end.
Proof. split; [by_compute|]. apply (fib_updates_local rib2 upd_ab idle rib_inv_rib2). by_decide. Defined.

(** The first command times out, then both are answered. *)
Definition cmd1 : Command := MkCommand ADD_NEXTHOP (createAddUpdate (nm [65; 66]) 257 20) 0.
Definition cmd1' : Command := MkCommand ADD_NEXTHOP (createAddUpdate (nm [65; 66]) 257 20) 1.
Definition cmd2 : Command := MkCommand ADD_NEXTHOP (createAddUpdate (nm [65; 66; 67]) 257 20) 0.
Definition answered (cmd : Command) (a : Answer) (u : FibUpdater) : FibUpdater * Outcome :=
  match on_answer cmd a u with Ok x => x | Err _ => (u, Waiting) end.
Definition after1 : FibUpdater * Outcome := answered cmd1 (AnswerError ERROR_TIMEOUT) computed.1.
Definition after2 : FibUpdater * Outcome := answered cmd2 AnswerOk after1.1.
Definition after3 : FibUpdater * Outcome := answered cmd1' AnswerOk after2.1.

(** The face is gone: both commands are refused, and the RIB is told twice. *)
Definition refused1 : FibUpdater * Outcome := answered cmd1 (AnswerError ERROR_FACE_NOT_FOUND) computed.1.
Definition refused2 : FibUpdater * Outcome := answered cmd2 (AnswerError ERROR_FACE_NOT_FOUND) refused1.1.

Example told_twice : exchange computed.1 computed.2 2 (Ok refused2.1) [Failed ERROR_FACE_NOT_FOUND; Failed ERROR_FACE_NOT_FOUND].
Proof.
  apply (ExchangeAnswer _ _ 1 refused1.1 [Failed ERROR_FACE_NOT_FOUND] cmd2 (AnswerError ERROR_FACE_NOT_FOUND) _ (Failed ERROR_FACE_NOT_FOUND));
    [|apply list_elem_of_In; vm_compute; tauto|by_compute].
  apply (ExchangeAnswer _ _ 0 computed.1 [] cmd1 (AnswerError ERROR_FACE_NOT_FOUND) _ (Failed ERROR_FACE_NOT_FOUND));
    [|apply list_elem_of_In; vm_compute; tauto|by_compute].
  apply (ExchangeStart computed.1 Waiting).
Qed.


(** Two routes of face 256 under /A, with costs 10 and 30, without flags *)
Definition plain_a : Route := MkRoute 256 0 0 10 0 None.
Definition plain_b : Route := MkRoute 256 128 0 30 0 None.
Definition rib_plain : Rib := ok_or Rib_new (Rib_insert (nm [65]) plain_b (ok_or Rib_new (Rib_insert (nm [65]) plain_a Rib_new))).

Lemma rib_inv_plain : rib_inv rib_plain.
Proof. apply rib_inv_ok_or; [apply rib_inv_ok_or; [apply rib_inv_new|]|]; by_decide. Qed.

Lemma fib_unregister_reads_freed_witness :
  computeAndSendFibUpdates (m_rib rib_plain) (MkRibUpdateBatch 256 [MkRibUpdate UNREGISTER (nm [65]) plain_b]) idle = Err UseAfterFree.
Proof.
  apply (fib_unregister_reads_freed rib_plain (MkRibUpdate UNREGISTER (nm [65]) plain_b) idle rib_inv_plain); [by_decide|done|].
  exists (entry_at (nm [65]) rib_plain). split_and!; [by_compute|by_compute|by vm_compute].
Defined.

Definition upd_costlier : RibUpdate := MkRibUpdate REGISTER (nm [65]) (MkRoute 256 0 0 50 0 None).
Lemma fib_update_null_route_witness : computeUpdate (m_rib rib_plain) upd_costlier idle = Err NullPointer.
Proof.
  apply (fib_update_null_route (m_rib rib_plain) upd_costlier (entry_at (nm [65]) rib_plain) plain_a plain_b idle (rib_inv_tree _ rib_inv_plain));
    try by_compute; [by_decide|by vm_compute].
Defined.
End FibSamplesRib.
