(* ===== verification/ControlParameters.v ===== *)
(** * Control commands: [ndn-cxx/src/management/nfd-control-parameters.cpp],
    [nfd-control-command.cpp]

    The parameters of a management command with their encoding, and the
    commands: which parameters each requires or allows, in requests and
    responses, and the values that stand for missing ones. *)

From S2P Require Import Prelude StdMap Tlv Block Encoder Elements NameComponent Name KeyLocator.

(** The numbers of [encoding/tlv-nfd.hpp] *)
Module NfdTlv.
Definition ControlResponse : Z := 101.
Definition StatusCode : Z := 102.
Definition StatusText : Z := 103.
Definition ControlParameters : Z := 104.
Definition FaceId : Z := 105.
Definition Cost : Z := 106.
Definition Strategy : Z := 107.
Definition Flags : Z := 108.
Definition ExpirationPeriod : Z := 109.
Definition LocalControlFeature : Z := 110.
Definition Origin : Z := 111.
Definition Uri : Z := 114.
Definition FacePersistency : Z := 133.
End NfdTlv.

(** A field is [None] when [m_hasFields] says that it is absent; the value that
    the object then still holds cannot be read.  The URI is its characters, the
    expiration period a signed number of milliseconds. *)
Record ControlParameters := MkControlParameters {
  cp_name : option Name;
  cp_faceId : option Z;
  cp_uri : option (list Z);
  cp_localControlFeature : option Z;
  cp_origin : option Z;
  cp_cost : option Z;
  cp_flags : option Z;
  cp_strategy : option Name;
  cp_expirationPeriod : option Z;
  cp_facePersistency : option Z;
  cp_wire : Block
}.

Definition ControlParameters_new : ControlParameters :=
  MkControlParameters None None None None None None None None None None Block_empty.

(** ** Setters, which drop the encoding *)

Definition setName (n : Name) (c : ControlParameters) : ControlParameters :=
  MkControlParameters (Some n) (cp_faceId c) (cp_uri c) (cp_localControlFeature c) (cp_origin c) (cp_cost c) (cp_flags c)
    (cp_strategy c) (cp_expirationPeriod c) (cp_facePersistency c) (reset (cp_wire c)).
Definition setFaceId (faceId : Z) (c : ControlParameters) : ControlParameters :=
  MkControlParameters (cp_name c) (Some faceId) (cp_uri c) (cp_localControlFeature c) (cp_origin c) (cp_cost c) (cp_flags c)
    (cp_strategy c) (cp_expirationPeriod c) (cp_facePersistency c) (reset (cp_wire c)).
Definition setOrigin (origin : Z) (c : ControlParameters) : ControlParameters :=
  MkControlParameters (cp_name c) (cp_faceId c) (cp_uri c) (cp_localControlFeature c) (Some origin) (cp_cost c) (cp_flags c)
    (cp_strategy c) (cp_expirationPeriod c) (cp_facePersistency c) (reset (cp_wire c)).
Definition setCost (cost : Z) (c : ControlParameters) : ControlParameters :=
  MkControlParameters (cp_name c) (cp_faceId c) (cp_uri c) (cp_localControlFeature c) (cp_origin c) (Some cost) (cp_flags c)
    (cp_strategy c) (cp_expirationPeriod c) (cp_facePersistency c) (reset (cp_wire c)).
Definition setFlags (flags : Z) (c : ControlParameters) : ControlParameters :=
  MkControlParameters (cp_name c) (cp_faceId c) (cp_uri c) (cp_localControlFeature c) (cp_origin c) (cp_cost c) (Some flags)
    (cp_strategy c) (cp_expirationPeriod c) (cp_facePersistency c) (reset (cp_wire c)).
Definition setStrategy (strategy : Name) (c : ControlParameters) : ControlParameters :=
  MkControlParameters (cp_name c) (cp_faceId c) (cp_uri c) (cp_localControlFeature c) (cp_origin c) (cp_cost c) (cp_flags c)
    (Some strategy) (cp_expirationPeriod c) (cp_facePersistency c) (reset (cp_wire c)).
Definition setUri (uri : list Z) (c : ControlParameters) : ControlParameters :=
  MkControlParameters (cp_name c) (cp_faceId c) (Some uri) (cp_localControlFeature c) (cp_origin c) (cp_cost c) (cp_flags c)
    (cp_strategy c) (cp_expirationPeriod c) (cp_facePersistency c) (reset (cp_wire c)).
Definition setLocalControlFeature (feature : Z) (c : ControlParameters) : ControlParameters :=
  MkControlParameters (cp_name c) (cp_faceId c) (cp_uri c) (Some feature) (cp_origin c) (cp_cost c) (cp_flags c)
    (cp_strategy c) (cp_expirationPeriod c) (cp_facePersistency c) (reset (cp_wire c)).
Definition setExpirationPeriod (period : Z) (c : ControlParameters) : ControlParameters :=
  MkControlParameters (cp_name c) (cp_faceId c) (cp_uri c) (cp_localControlFeature c) (cp_origin c) (cp_cost c) (cp_flags c)
    (cp_strategy c) (Some period) (cp_facePersistency c) (reset (cp_wire c)).
Definition setFacePersistency (persistency : Z) (c : ControlParameters) : ControlParameters :=
  MkControlParameters (cp_name c) (cp_faceId c) (cp_uri c) (cp_localControlFeature c) (cp_origin c) (cp_cost c) (cp_flags c)
    (cp_strategy c) (cp_expirationPeriod c) (Some persistency) (reset (cp_wire c)).

(** A getter asserts that the field is there. *)
Definition cp_get {A} (field : option A) : result A := match field with Some a => Ok a | None => Err AssertFailed end.

(** [getPresentFields], in the order of [ControlParameterField] *)
Definition present {A} (field : option A) : bool := match field with Some _ => true | None => false end.
Definition getPresentFields (c : ControlParameters) : list bool :=
  [present (cp_name c); present (cp_faceId c); present (cp_uri c); present (cp_localControlFeature c); present (cp_origin c);
   present (cp_cost c); present (cp_flags c); present (cp_strategy c); present (cp_expirationPeriod c); present (cp_facePersistency c)].

(** ** Encoding *)

Section Encode.
Context {E} `{EncodingImpl E}.

(** A field that is encoded when it is there *)
Definition prependField {A} (field : option A) (f : A -> state E Z) : state E Z :=
  match field with Some a => f a | None => sret 0 end.

(** [prependNestedBlock] of a name *)
Definition prependNestedName (type : Z) (n : Name) : state E Z :=
  let~ valueLength := Name_wireEncode n in
  let~ l1 := prependVarNumber valueLength in
  let~ l2 := prependVarNumber type in
  sret (valueLength + l1 + l2).

Definition prependUri (uri : list Z) : state E Z :=
  let~ valLength := prependByteArray uri in
  let~ l1 := prependVarNumber valLength in
  let~ l2 := prependVarNumber NfdTlv.Uri in
  sret (valLength + l1 + l2).

Definition ControlParameters_value (c : ControlParameters) : state E Z :=
  let~ l1 := prependField (cp_facePersistency c) (prependNonNegativeIntegerBlock NfdTlv.FacePersistency) in
  let~ l2 := prependField (cp_expirationPeriod c) (fun n => prependNonNegativeIntegerBlock NfdTlv.ExpirationPeriod (to_u64 n)) in
  let~ l3 := prependField (cp_strategy c) (prependNestedName NfdTlv.Strategy) in
  let~ l4 := prependField (cp_flags c) (prependNonNegativeIntegerBlock NfdTlv.Flags) in
  let~ l5 := prependField (cp_cost c) (prependNonNegativeIntegerBlock NfdTlv.Cost) in
  let~ l6 := prependField (cp_origin c) (prependNonNegativeIntegerBlock NfdTlv.Origin) in
  let~ l7 := prependField (cp_localControlFeature c) (prependNonNegativeIntegerBlock NfdTlv.LocalControlFeature) in
  let~ l8 := prependField (cp_uri c) prependUri in
  let~ l9 := prependField (cp_faceId c) (prependNonNegativeIntegerBlock NfdTlv.FaceId) in
  let~ l10 := prependField (cp_name c) Name_wireEncode in
  sret (l1 + l2 + l3 + l4 + l5 + l6 + l7 + l8 + l9 + l10).

Definition ControlParameters_wireEncode (c : ControlParameters) : state E Z :=
  let~ totalLength := ControlParameters_value c in
  let~ l1 := prependVarNumber totalLength in
  let~ l2 := prependVarNumber NfdTlv.ControlParameters in
  sret (totalLength + l1 + l2).
End Encode.

Definition with_wire (b : Block) (c : ControlParameters) : ControlParameters :=
  MkControlParameters (cp_name c) (cp_faceId c) (cp_uri c) (cp_localControlFeature c) (cp_origin c) (cp_cost c) (cp_flags c)
    (cp_strategy c) (cp_expirationPeriod c) (cp_facePersistency c) b.

(** [ControlParameters::wireEncode()]: the block, and the object, which keeps it *)
Definition ControlParameters_wire (c : ControlParameters) : result (Block * ControlParameters) :=
  if hasWire (cp_wire c) then Ok (cp_wire c, c)
  else
    let! b := Encoder.block true (twoPass (fun E _ => ControlParameters_wireEncode c)) in
    Ok (b, with_wire b c).

(** ** Decoding *)

(** [find], and how the element is read *)
Definition read_field {A} (w : Block) (type : Z) (f : Block -> result A) : result (option A) :=
  match find w type with
  | None => Ok None
  | Some val => let! a := f val in Ok (Some a)
  end.

Definition read_strategy (val : Block) : result Name :=
  let! v := Block_parse val in
  match m_subBlocks v with
  | [] => Err PacketError
  | x :: _ => Name_wireDecode x
  end.

(** The numbers become an [enum] over [unsigned int], one over [uint8_t] and a
    64-bit signed duration. *)
Definition ControlParameters_wireDecode (block : Block) : result ControlParameters :=
  if negb (m_type block =? NfdTlv.ControlParameters) then Err PacketError
  else
    let! w := Block_parse block in
    let! n := read_field w TlvType.Name Name_wireDecode in
    let! faceId := read_field w NfdTlv.FaceId readNonNegativeIntegerBlock in
    let! uri := read_field w NfdTlv.Uri (fun val => Ok (value val)) in
    let! feature := read_field w NfdTlv.LocalControlFeature (fun val => let! k := readNonNegativeIntegerBlock val in Ok (to_u32 k)) in
    let! origin := read_field w NfdTlv.Origin readNonNegativeIntegerBlock in
    let! cost := read_field w NfdTlv.Cost readNonNegativeIntegerBlock in
    let! flags := read_field w NfdTlv.Flags readNonNegativeIntegerBlock in
    let! strategy := read_field w NfdTlv.Strategy read_strategy in
    let! expiration := read_field w NfdTlv.ExpirationPeriod (fun val => let! k := readNonNegativeIntegerBlock val in Ok (to_s64 k)) in
    let! persistency := read_field w NfdTlv.FacePersistency (fun val => let! k := readNonNegativeIntegerBlock val in Ok (k mod 256)) in
    Ok (MkControlParameters n faceId uri feature origin cost flags strategy expiration persistency w).

(** ** Round trip *)

(** The elements of a field *)
Definition field {A} (type : Z) (enc : A -> list Z) (o : option A) : list (Z * list Z) :=
  match o with Some a => [(type, enc a)] | None => [] end.

Definition name_value (n : Name) : list Z := wires (name_elements n).

Definition cp_elements (c : ControlParameters) : list (Z * list Z) :=
  field TlvType.Name name_value (cp_name c) ++
  field NfdTlv.FaceId encoderIntegerBytes (cp_faceId c) ++
  field NfdTlv.Uri (fun u => u) (cp_uri c) ++
  field NfdTlv.LocalControlFeature encoderIntegerBytes (cp_localControlFeature c) ++
  field NfdTlv.Origin encoderIntegerBytes (cp_origin c) ++
  field NfdTlv.Cost encoderIntegerBytes (cp_cost c) ++
  field NfdTlv.Flags encoderIntegerBytes (cp_flags c) ++
  field NfdTlv.Strategy (fun n => tlv_wire TlvType.Name (name_value n)) (cp_strategy c) ++
  field NfdTlv.ExpirationPeriod (fun n => encoderIntegerBytes (to_u64 n)) (cp_expirationPeriod c) ++
  field NfdTlv.FacePersistency encoderIntegerBytes (cp_facePersistency c).

Definition option_ok {A} (Q : A -> Prop) (o : option A) : Prop := match o with Some a => Q a | None => True end.

(** The values are in the range of their types, the names can be encoded, and
    the whole fits a length. *)
Record cp_ok (c : ControlParameters) : Prop := {
  co_name : option_ok name_ok (cp_name c);
  co_faceId : option_ok (fun n => 0 <= n < U64) (cp_faceId c);
  co_uri : option_ok wf_bytes (cp_uri c);
  co_feature : option_ok (fun n => 0 <= n < U32) (cp_localControlFeature c);
  co_origin : option_ok (fun n => 0 <= n < U64) (cp_origin c);
  co_cost : option_ok (fun n => 0 <= n < U64) (cp_cost c);
  co_flags : option_ok (fun n => 0 <= n < U64) (cp_flags c);
  co_strategy : option_ok name_ok (cp_strategy c);
  co_expiration : option_ok (fun n => - 2 ^ 63 <= n < 2 ^ 63) (cp_expirationPeriod c);
  co_persistency : option_ok (fun n => 0 <= n < 256) (cp_facePersistency c);
  co_length : len (wires (cp_elements c)) < U64
}.

Lemma Encodes_field {A} type (enc : A -> list Z) (o : option A) (f : forall E, EncodingImpl E -> A -> state E Z) :
  (forall a, o = Some a -> Encodes (fun E H => f E H a) (len (tlv_wire type (enc a))) (tlv_wire type (enc a))) ->
  Encodes (fun E H => prependField o (f E H)) (len (wires (field type enc o))) (wires (field type enc o)).
Proof. intros Hf. destruct o as [a|]; cbn [prependField field]; [rewrite wires_single; by apply Hf|apply Encodes_ret]. Qed.

Lemma Encodes_ControlParameters c :
  Encodes (fun E _ => ControlParameters_wireEncode c) (len (tlv_wire NfdTlv.ControlParameters (wires (cp_elements c))))
    (tlv_wire NfdTlv.ControlParameters (wires (cp_elements c))).
Proof.
  unfold ControlParameters_wireEncode. apply Encodes_header. unfold ControlParameters_value.
  assert (Hint : forall t (o : option Z), Encodes (fun E _ => prependField o (prependNonNegativeIntegerBlock t))
    (len (wires (field t encoderIntegerBytes o))) (wires (field t encoderIntegerBytes o))).
  { intros t o. apply Encodes_field. intros a _. apply Encodes_IntegerBlock. }
  eapply Encodes_eq.
  - eapply Encodes_bind; [apply Hint|].
    eapply Encodes_bind; [apply (Encodes_field NfdTlv.ExpirationPeriod (fun n => encoderIntegerBytes (to_u64 n)) _ (fun E _ n => prependNonNegativeIntegerBlock NfdTlv.ExpirationPeriod (to_u64 n)));
      intros a _; apply Encodes_IntegerBlock|].
    eapply Encodes_bind; [apply (Encodes_field NfdTlv.Strategy (fun n => tlv_wire TlvType.Name (name_value n)) _ (fun E _ => prependNestedName NfdTlv.Strategy))|].
    { intros a _. unfold prependNestedName. apply Encodes_header, Encodes_Name. }
    do 4 (eapply Encodes_bind; [apply Hint|]).
    eapply Encodes_bind; [apply (Encodes_field NfdTlv.Uri (fun u => u) _ (fun E _ => prependUri))|].
    { intros a _. unfold prependUri. apply Encodes_header, Encodes_ByteArray. }
    eapply Encodes_bind; [apply Hint|].
    eapply Encodes_bind; [apply (Encodes_field TlvType.Name name_value _ (fun E _ => Name_wireEncode)); intros a _; apply Encodes_Name|apply Encodes_ret].
  - unfold cp_elements. rewrite !wires_app, !len_app. lia.
  - unfold cp_elements. rewrite !wires_app. cbn [app]. by rewrite <- !app_assoc.
Qed.

Lemma wf_field {A} t (enc : A -> list Z) (o : option A) : 0 <= t < U32 -> (forall a, o = Some a -> wf_bytes (enc a)) ->
  Forall (fun t => 0 <= t < U32) (map fst (field t enc o)) /\ Forall wf_bytes (map snd (field t enc o)).
Proof. intros Ht Hb. destruct o as [a|]; cbn [field map]; split; repeat constructor; try apply Ht. by apply Hb. Qed.

Lemma option_ok_Some {A} (Q : A -> Prop) o a : option_ok Q o -> o = Some a -> Q a.
Proof. by intros Ho ->. Qed.

Lemma wf_cp_elements c : cp_ok c -> wf_fields (cp_elements c).
Proof.
  intros [Hn Hf Hu Hl Ho Hc Hfl Hs He Hp Hlen].
  assert (Hfields : Forall (fun t => 0 <= t < U32) (map fst (cp_elements c)) /\ Forall wf_bytes (map snd (cp_elements c))).
  { unfold cp_elements. rewrite !map_app, !Forall_app.
    assert (Hint : forall t (o : option Z), 0 <= t < U32 -> option_ok (fun n => 0 <= n) o ->
      Forall (fun t => 0 <= t < U32) (map fst (field t encoderIntegerBytes o)) /\ Forall wf_bytes (map snd (field t encoderIntegerBytes o))).
    { intros t o Ht Hok. apply wf_field; [done|]. intros a ->. by apply wf_encoderIntegerBytes. }
    assert (Hpos : forall (o : option Z) k, option_ok (fun n => 0 <= n < k) o -> option_ok (fun n => 0 <= n) o) by (intros [|] ??; [simpl in *; lia|done]).
    destruct (wf_field TlvType.Name name_value (cp_name c)) as [N1 N2]; [by vm_compute|intros a Ha; exact (name_ok_bytes a (option_ok_Some _ _ _ Hn Ha))|].
    destruct (wf_field NfdTlv.Uri (fun u => u) (cp_uri c)) as [U1 U2]; [by vm_compute|intros a Ha; exact (option_ok_Some _ _ _ Hu Ha)|].
    destruct (wf_field NfdTlv.Strategy (fun n => tlv_wire TlvType.Name (name_value n)) (cp_strategy c)) as [S1 S2]; [by vm_compute| |].
    { intros a Ha. apply wf_tlv_wire; [|exact (name_ok_bytes a (option_ok_Some _ _ _ Hs Ha))]. split; [by vm_compute|]. simpl.
      assert (Hin : (NfdTlv.Strategy, tlv_wire TlvType.Name (name_value a)) ∈ cp_elements c).
      { unfold cp_elements. rewrite Ha. cbn [field]. rewrite !elem_of_app. do 7 right. left. left. }
      apply len_wires_In in Hin. cbn [snd] in Hin. rewrite tlv_wire_unfold, !len_app in Hin. len_lia. }
    destruct (wf_field NfdTlv.ExpirationPeriod (fun n => encoderIntegerBytes (to_u64 n)) (cp_expirationPeriod c)) as [E1 E2]; [by vm_compute| |].
    { intros a _. apply wf_encoderIntegerBytes. unfold to_u64. apply Z.mod_pos_bound. by vm_compute. }
    pose proof (Hint NfdTlv.FaceId (cp_faceId c) ltac:(by vm_compute) (Hpos _ _ Hf)) as [].
    pose proof (Hint NfdTlv.LocalControlFeature (cp_localControlFeature c) ltac:(by vm_compute) (Hpos _ _ Hl)) as [].
    pose proof (Hint NfdTlv.Origin (cp_origin c) ltac:(by vm_compute) (Hpos _ _ Ho)) as [].
    pose proof (Hint NfdTlv.Cost (cp_cost c) ltac:(by vm_compute) (Hpos _ _ Hc)) as [].
    pose proof (Hint NfdTlv.Flags (cp_flags c) ltac:(by vm_compute) (Hpos _ _ Hfl)) as [].
    pose proof (Hint NfdTlv.FacePersistency (cp_facePersistency c) ltac:(by vm_compute) (Hpos _ _ Hp)) as [].
    by split_and!. }
  apply wf_fields_intro; [apply Hfields|apply Hfields|done].
Qed.

(** Reading a field back *)
Lemma find_elem_field {A} t u (enc : A -> list Z) o : find_elem t (field u enc o) = if u =? t then enc <$> o else None.
Proof. unfold find_elem, field. destruct o; cbn [List.find fst]; destruct (u =? t); done. Qed.

Lemma read_field_elem {A} w t es (enc : A -> list Z) o (f : Block -> result A) :
  Forall2 elem_ok (m_subBlocks w) es -> find_elem t es = enc <$> o ->
  (forall x a, o = Some a -> elem_ok x (t, enc a) -> f x = Ok a) -> read_field w t f = Ok o.
Proof.
  intros H2 Hf Hr. unfold read_field. destruct o as [a|].
  - destruct (find_Some w t es (enc a) H2 Hf) as (x&->&Hx). by rewrite (Hr x a).
  - by rewrite (find_None w t es H2 Hf).
Qed.

Lemma read_strategy_elem x n : elem_ok x (NfdTlv.Strategy, tlv_wire TlvType.Name (name_value n)) -> name_ok n ->
  len (name_value n) < U64 -> read_strategy x = Ok n.
Proof.
  intros Hx Hn Hl. unfold read_strategy.
  assert (Hf : wf_fields [(TlvType.Name, name_value n)]).
  { apply wf_fields_cons. split; [split; [split; [by vm_compute|done]|by apply name_ok_bytes]|split; constructor]. }
  destruct (Block_parse_value x [(TlvType.Name, name_value n)] (ek_wf _ _ Hx) (ek_sub _ _ Hx)) as (l&->&H2);
    [by rewrite wires_single, (elem_ok_value _ _ Hx)|done|].
  cbn [rbind set_subBlocks m_subBlocks]. destruct l as [|y l]; [by inversion H2|]. apply Forall2_cons in H2 as [Hy _]. by apply Name_decode_elem.
Qed.

Lemma to_s64_u64 n : - 2 ^ 63 <= n < 2 ^ 63 -> to_s64 (to_u64 n) = n.
Proof.
  intros Hn. rewrite <- (to_s64_id n Hn) at 2. unfold to_s64, to_u64, U64. by rewrite Z.add_mod_idemp_l by lia.
Qed.

(** Looking a field up among the elements *)
Ltac find_field :=
  unfold cp_elements; rewrite !find_elem_app, !find_elem_field;
  repeat match goal with |- context [?a =? ?b] => let v := eval vm_compute in (a =? b) in change (a =? b) with v end;
  cbv iota; match goal with |- context [_ <$> ?o] => by destruct o end.

Lemma read_integer_field w es t o : Forall2 elem_ok (m_subBlocks w) es -> find_elem t es = encoderIntegerBytes <$> o ->
  option_ok (fun n => 0 <= n < U64) o -> read_field w t readNonNegativeIntegerBlock = Ok o.
Proof.
  intros H2 Hf Ho. apply (read_field_elem w t es encoderIntegerBytes); [done|done|]. intros x a Ha Hx.
  apply (read_integer_elem x t a Hx), (option_ok_Some _ _ _ Ho Ha).
Qed.

(** The same when the number is kept in another type *)
Lemma read_converted_field w es t (g f : Z -> Z) (Q : Z -> Prop) o : Forall2 elem_ok (m_subBlocks w) es ->
  find_elem t es = (fun n => encoderIntegerBytes (g n)) <$> o -> option_ok Q o -> (forall n, Q n -> 0 <= g n < U64 /\ f (g n) = n) ->
  read_field w t (fun val => let! k := readNonNegativeIntegerBlock val in Ok (f k)) = Ok o.
Proof.
  intros H2 Hf Ho Hq. apply (read_field_elem w t es (fun n => encoderIntegerBytes (g n))); [done|done|]. intros x a Ha Hx.
  destruct (Hq a (option_ok_Some _ _ _ Ho Ha)) as [Hr Hi]. rewrite (read_integer_elem x t _ Hx Hr). cbn [rbind]. by rewrite Hi.
Qed.

Lemma strategy_length c n : cp_ok c -> cp_strategy c = Some n -> len (name_value n) < U64.
Proof.
  intros Hok Hs. assert (Hin : (NfdTlv.Strategy, tlv_wire TlvType.Name (name_value n)) ∈ cp_elements c).
  { unfold cp_elements. rewrite Hs. cbn [field]. rewrite !elem_of_app. do 7 right. left. left. }
  apply len_wires_In in Hin. cbn [snd] in Hin. rewrite tlv_wire_unfold, !len_app in Hin. pose proof (co_length c Hok). len_lia.
Qed.

(** Decoding the block of [c] *)
Lemma ControlParameters_decode_elem b c : elem_ok b (NfdTlv.ControlParameters, wires (cp_elements c)) -> cp_ok c ->
  exists w, ControlParameters_wireDecode b = Ok (with_wire w c) /\ wire w = Ok (tlv_wire NfdTlv.ControlParameters (wires (cp_elements c))).
Proof.
  intros Hb Hok. pose proof (wf_cp_elements c Hok) as Hw. unfold ControlParameters_wireDecode.
  rewrite (elem_ok_type _ _ Hb). cbn [fst]. rewrite Z.eqb_refl. cbn [negb].
  destruct (Block_parse_value b _ (ek_wf _ _ Hb) (ek_sub _ _ Hb) (elem_ok_value _ _ Hb) Hw) as (l&->&H2). cbn [rbind].
  set (w := set_subBlocks b l). change l with (m_subBlocks w) in H2. pose proof Hok as Hcp. destruct Hcp as [Hn Hf Hu Hl Ho Hc Hfl Hs He Hp Hlen].
  rewrite (read_field_elem w TlvType.Name _ name_value (cp_name c) _ H2); [cbn [rbind]|find_field|].
  2: { intros x a Ha Hx. exact (Name_decode_elem x a Hx (option_ok_Some _ _ _ Hn Ha)). }
  rewrite (read_integer_field w _ NfdTlv.FaceId (cp_faceId c) H2); [cbn [rbind]|find_field|done].
  rewrite (read_field_elem w NfdTlv.Uri _ (fun u => u) (cp_uri c) _ H2); [cbn [rbind]|find_field|].
  2: { intros x a Ha Hx. by rewrite (elem_ok_value _ _ Hx). }
  rewrite (read_converted_field w _ NfdTlv.LocalControlFeature (fun n => n) to_u32 (fun n => 0 <= n < U32) (cp_localControlFeature c) H2); [cbn [rbind]|find_field|exact Hl|].
  2: { intros n Hr. split; [width_lia|]. unfold to_u32. by apply Z.mod_small. }
  rewrite (read_integer_field w _ NfdTlv.Origin (cp_origin c) H2); [cbn [rbind]|find_field|done].
  rewrite (read_integer_field w _ NfdTlv.Cost (cp_cost c) H2); [cbn [rbind]|find_field|done].
  rewrite (read_integer_field w _ NfdTlv.Flags (cp_flags c) H2); [cbn [rbind]|find_field|done].
  rewrite (read_field_elem w NfdTlv.Strategy _ (fun n => tlv_wire TlvType.Name (name_value n)) (cp_strategy c) _ H2); [cbn [rbind]|find_field|].
  2: { intros x a Ha Hx. exact (read_strategy_elem x a Hx (option_ok_Some _ _ _ Hs Ha) (strategy_length c a Hok Ha)). }
  rewrite (read_converted_field w _ NfdTlv.ExpirationPeriod to_u64 to_s64 (fun n => - 2 ^ 63 <= n < 2 ^ 63) (cp_expirationPeriod c) H2); [cbn [rbind]|find_field|exact He|].
  2: { intros n Hr. split; [apply Z.mod_pos_bound; by vm_compute|by apply to_s64_u64]. }
  rewrite (read_converted_field w _ NfdTlv.FacePersistency (fun n => n) (fun n => n mod 256) (fun n => 0 <= n < 256) (cp_facePersistency c) H2); [cbn [rbind]|find_field|exact Hp|].
  2: { intros n Hr. simpl in Hr. split; [width_lia|by apply Z.mod_small]. }
  exists w. split; [done|exact (ek_wire _ _ Hb)].
Qed.

Lemma ControlParameters_wire_ok c : cp_ok c -> hasWire (cp_wire c) = false ->
  exists b, ControlParameters_wire c = Ok (b, with_wire b c) /\ built b NfdTlv.ControlParameters (wires (cp_elements c)).
Proof.
  intros Hok Hw. unfold ControlParameters_wire. rewrite Hw.
  destruct (Encodes_block _ _ _ (Encodes_ControlParameters c)) as (b&->&Hb); [split; [by vm_compute|apply Hok]|]. by exists b.
Qed.

(** The parameters of a management command survive encoding and decoding:
    exactly the fields that were set come back, each with its value (an
    expiration period also when it is negative). *)
Theorem control_parameters_roundtrip c : cp_ok c -> hasWire (cp_wire c) = false ->
  exists b bytes r w, ControlParameters_wire c = Ok (b, with_wire b c) /\ wire b = Ok bytes /\
    Block_of_buffer bytes = Ok r /\ ControlParameters_wireDecode r = Ok (with_wire w c).
Proof.
  intros Hok Hw. destruct (ControlParameters_wire_ok c Hok Hw) as (b&Hb&Hbuilt).
  destruct (Block_of_buffer_built NfdTlv.ControlParameters (wires (cp_elements c))) as (r&Hr&Hbu); [split; [by vm_compute|apply Hok]|].
  destruct (ControlParameters_decode_elem r c) as (w&Hd&_); [|done|].
  { apply (built_elem_ok _ _ _ Hbu), wf_fields_bytes. by apply wf_cp_elements. }
  exists b, (tlv_wire NfdTlv.ControlParameters (wires (cp_elements c))), r, w. split_and!; [done|apply Hbuilt|done|done].
Qed.

(** ** Commands *)

Inductive ControlParameterField :=
| CONTROL_PARAMETER_NAME | CONTROL_PARAMETER_FACE_ID | CONTROL_PARAMETER_URI | CONTROL_PARAMETER_LOCAL_CONTROL_FEATURE
| CONTROL_PARAMETER_ORIGIN | CONTROL_PARAMETER_COST | CONTROL_PARAMETER_FLAGS | CONTROL_PARAMETER_STRATEGY
| CONTROL_PARAMETER_EXPIRATION_PERIOD | CONTROL_PARAMETER_FACE_PERSISTENCY.

Definition field_index (f : ControlParameterField) : nat :=
  match f with
  | CONTROL_PARAMETER_NAME => 0 | CONTROL_PARAMETER_FACE_ID => 1 | CONTROL_PARAMETER_URI => 2
  | CONTROL_PARAMETER_LOCAL_CONTROL_FEATURE => 3 | CONTROL_PARAMETER_ORIGIN => 4 | CONTROL_PARAMETER_COST => 5
  | CONTROL_PARAMETER_FLAGS => 6 | CONTROL_PARAMETER_STRATEGY => 7 | CONTROL_PARAMETER_EXPIRATION_PERIOD => 8
  | CONTROL_PARAMETER_FACE_PERSISTENCY => 9
  end%nat.
Definition CONTROL_PARAMETER_UBOUND : nat := 10.

Record FieldValidator := MkFieldValidator { m_required : list bool; m_optional : list bool }.

Definition FieldValidator_new : FieldValidator :=
  MkFieldValidator (replicate CONTROL_PARAMETER_UBOUND false) (replicate CONTROL_PARAMETER_UBOUND false).
Definition required (f : ControlParameterField) (v : FieldValidator) : FieldValidator :=
  MkFieldValidator (<[field_index f := true]> (m_required v)) (m_optional v).
Definition optional (f : ControlParameterField) (v : FieldValidator) : FieldValidator :=
  MkFieldValidator (m_required v) (<[field_index f := true]> (m_optional v)).

(** The loop over the fields; [ArgumentError] is an [std::invalid_argument]. *)
Fixpoint validate_loop (req opt presentFields : list bool) : result unit :=
  match req, opt, presentFields with
  | r :: req', o :: opt', isPresent :: presentFields' =>
      if r then if negb isPresent then Err InvalidArgument else validate_loop req' opt' presentFields'
      else if isPresent && negb o then Err InvalidArgument
      else validate_loop req' opt' presentFields'
  | _, _, _ => Ok tt
  end.

Definition validate (v : FieldValidator) (parameters : ControlParameters) : result unit :=
  validate_loop (m_required v) (m_optional v) (getPresentFields parameters).

Inductive ControlCommand :=
| FaceCreateCommand | FaceDestroyCommand | FaceEnableLocalControlCommand | FaceDisableLocalControlCommand | FibAddNextHopCommand
| FibRemoveNextHopCommand | StrategyChoiceSetCommand | StrategyChoiceUnsetCommand | RibRegisterCommand | RibUnregisterCommand.

(** The components [m_module] and [m_verb] *)
Definition m_module (command : ControlCommand) : Component :=
  generic match command with
  | FaceCreateCommand | FaceDestroyCommand | FaceEnableLocalControlCommand | FaceDisableLocalControlCommand => [102; 97; 99; 101; 115]
  | FibAddNextHopCommand | FibRemoveNextHopCommand => [102; 105; 98]
  | StrategyChoiceSetCommand | StrategyChoiceUnsetCommand => [115; 116; 114; 97; 116; 101; 103; 121; 45; 99; 104; 111; 105; 99; 101]
  | RibRegisterCommand | RibUnregisterCommand => [114; 105; 98]
  end.
Definition m_verb (command : ControlCommand) : Component :=
  generic match command with
  | FaceCreateCommand => [99; 114; 101; 97; 116; 101]
  | FaceDestroyCommand => [100; 101; 115; 116; 114; 111; 121]
  | FaceEnableLocalControlCommand => [101; 110; 97; 98; 108; 101; 45; 108; 111; 99; 97; 108; 45; 99; 111; 110; 116; 114; 111; 108]
  | FaceDisableLocalControlCommand => [100; 105; 115; 97; 98; 108; 101; 45; 108; 111; 99; 97; 108; 45; 99; 111; 110; 116; 114; 111; 108]
  | FibAddNextHopCommand => [97; 100; 100; 45; 110; 101; 120; 116; 104; 111; 112]
  | FibRemoveNextHopCommand => [114; 101; 109; 111; 118; 101; 45; 110; 101; 120; 116; 104; 111; 112]
  | StrategyChoiceSetCommand => [115; 101; 116]
  | StrategyChoiceUnsetCommand => [117; 110; 115; 101; 116]
  | RibRegisterCommand => [114; 101; 103; 105; 115; 116; 101; 114]
  | RibUnregisterCommand => [117; 110; 114; 101; 103; 105; 115; 116; 101; 114]
  end.

Definition m_requestValidator (command : ControlCommand) : FieldValidator :=
  match command with
  | FaceCreateCommand => optional CONTROL_PARAMETER_FACE_PERSISTENCY (required CONTROL_PARAMETER_URI FieldValidator_new)
  | FaceDestroyCommand => required CONTROL_PARAMETER_FACE_ID FieldValidator_new
  | FaceEnableLocalControlCommand | FaceDisableLocalControlCommand => required CONTROL_PARAMETER_LOCAL_CONTROL_FEATURE FieldValidator_new
  | FibAddNextHopCommand =>
      optional CONTROL_PARAMETER_COST (optional CONTROL_PARAMETER_FACE_ID (required CONTROL_PARAMETER_NAME FieldValidator_new))
  | FibRemoveNextHopCommand => optional CONTROL_PARAMETER_FACE_ID (required CONTROL_PARAMETER_NAME FieldValidator_new)
  | StrategyChoiceSetCommand => required CONTROL_PARAMETER_STRATEGY (required CONTROL_PARAMETER_NAME FieldValidator_new)
  | StrategyChoiceUnsetCommand => required CONTROL_PARAMETER_NAME FieldValidator_new
  | RibRegisterCommand =>
      optional CONTROL_PARAMETER_EXPIRATION_PERIOD (optional CONTROL_PARAMETER_FLAGS (optional CONTROL_PARAMETER_COST
        (optional CONTROL_PARAMETER_ORIGIN (optional CONTROL_PARAMETER_FACE_ID (required CONTROL_PARAMETER_NAME FieldValidator_new)))))
  | RibUnregisterCommand =>
      optional CONTROL_PARAMETER_ORIGIN (optional CONTROL_PARAMETER_FACE_ID (required CONTROL_PARAMETER_NAME FieldValidator_new))
  end.

Definition m_responseValidator (command : ControlCommand) : FieldValidator :=
  match command with
  | FaceCreateCommand =>
      required CONTROL_PARAMETER_FACE_PERSISTENCY (required CONTROL_PARAMETER_FACE_ID (required CONTROL_PARAMETER_URI FieldValidator_new))
  | FibAddNextHopCommand =>
      required CONTROL_PARAMETER_COST (required CONTROL_PARAMETER_FACE_ID (required CONTROL_PARAMETER_NAME FieldValidator_new))
  | FibRemoveNextHopCommand => required CONTROL_PARAMETER_FACE_ID (required CONTROL_PARAMETER_NAME FieldValidator_new)
  | RibRegisterCommand =>
      optional CONTROL_PARAMETER_EXPIRATION_PERIOD (required CONTROL_PARAMETER_FLAGS (required CONTROL_PARAMETER_COST
        (required CONTROL_PARAMETER_ORIGIN (required CONTROL_PARAMETER_FACE_ID (required CONTROL_PARAMETER_NAME FieldValidator_new)))))
  | RibUnregisterCommand =>
      required CONTROL_PARAMETER_ORIGIN (required CONTROL_PARAMETER_FACE_ID (required CONTROL_PARAMETER_NAME FieldValidator_new))
  | _ => m_requestValidator command
  end.

Definition LOCAL_CONTROL_FEATURE_INCOMING_FACE_ID : Z := 1.
Definition LOCAL_CONTROL_FEATURE_NEXT_HOP_FACE_ID : Z := 2.

Definition nonzero_faceId (parameters : ControlParameters) : result unit :=
  let! faceId := cp_get (cp_faceId parameters) in
  if faceId =? 0 then Err InvalidArgument else Ok tt.

Definition validateRequest (command : ControlCommand) (parameters : ControlParameters) : result unit :=
  let! _ := validate (m_requestValidator command) parameters in
  match command with
  | FaceDestroyCommand => nonzero_faceId parameters
  | FaceEnableLocalControlCommand | FaceDisableLocalControlCommand =>
      let! feature := cp_get (cp_localControlFeature parameters) in
      if (feature =? LOCAL_CONTROL_FEATURE_INCOMING_FACE_ID) || (feature =? LOCAL_CONTROL_FEATURE_NEXT_HOP_FACE_ID) then Ok tt
      else Err InvalidArgument
  | StrategyChoiceUnsetCommand =>
      let! n := cp_get (cp_name parameters) in
      if len n =? 0 then Err InvalidArgument else Ok tt
  | _ => Ok tt
  end.

Definition validateResponse (command : ControlCommand) (parameters : ControlParameters) : result unit :=
  match command with
  | FaceDestroyCommand | FaceEnableLocalControlCommand | FaceDisableLocalControlCommand | StrategyChoiceUnsetCommand =>
      validateRequest command parameters
  | StrategyChoiceSetCommand => validate (m_responseValidator command) parameters
  | _ => let! _ := validate (m_responseValidator command) parameters in nonzero_faceId parameters
  end.

Definition FACE_PERSISTENCY_PERSISTENT : Z := 0.
Definition ROUTE_ORIGIN_APP : Z := 0.
Definition ROUTE_FLAG_CHILD_INHERIT : Z := 1.

(** A default for a field that is missing *)
Definition or_else {A} (field : option A) (set : ControlParameters -> ControlParameters) (c : ControlParameters) : ControlParameters :=
  if present field then c else set c.

Definition applyDefaultsToRequest (command : ControlCommand) (c : ControlParameters) : ControlParameters :=
  match command with
  | FaceCreateCommand => or_else (cp_facePersistency c) (setFacePersistency FACE_PERSISTENCY_PERSISTENT) c
  | FibAddNextHopCommand => or_else (cp_cost c) (setCost 0) (or_else (cp_faceId c) (setFaceId 0) c)
  | FibRemoveNextHopCommand => or_else (cp_faceId c) (setFaceId 0) c
  | RibRegisterCommand =>
      or_else (cp_flags c) (setFlags ROUTE_FLAG_CHILD_INHERIT) (or_else (cp_cost c) (setCost 0)
        (or_else (cp_origin c) (setOrigin ROUTE_ORIGIN_APP) (or_else (cp_faceId c) (setFaceId 0) c)))
  | RibUnregisterCommand => or_else (cp_origin c) (setOrigin ROUTE_ORIGIN_APP) (or_else (cp_faceId c) (setFaceId 0) c)
  | _ => c
  end.

(** [ControlCommand::getRequestName]: the parameters become one component *)
Definition getRequestName (command : ControlCommand) (commandPrefix : Name) (parameters : ControlParameters) : result Name :=
  let! _ := validateRequest command parameters in
  let! (b, _) := ControlParameters_wire parameters in
  let! bytes := wire b in
  Ok (commandPrefix ++ [m_module command; m_verb command; generic bytes]).

(** ** Which parameters a command takes *)

Definition all_fields : list ControlParameterField :=
  [CONTROL_PARAMETER_NAME; CONTROL_PARAMETER_FACE_ID; CONTROL_PARAMETER_URI; CONTROL_PARAMETER_LOCAL_CONTROL_FEATURE;
   CONTROL_PARAMETER_ORIGIN; CONTROL_PARAMETER_COST; CONTROL_PARAMETER_FLAGS; CONTROL_PARAMETER_STRATEGY;
   CONTROL_PARAMETER_EXPIRATION_PERIOD; CONTROL_PARAMETER_FACE_PERSISTENCY].

Definition flag (l : list bool) (f : ControlParameterField) : bool := nth (field_index f) l false.
Definition has_field (c : ControlParameters) (f : ControlParameterField) : bool := flag (getPresentFields c) f.
Definition requires (v : FieldValidator) (f : ControlParameterField) : bool := flag (m_required v) f.
Definition allows (v : FieldValidator) (f : ControlParameterField) : bool := flag (m_optional v) f.

(** What the command asks of the values *)
Definition values_ok (command : ControlCommand) (c : ControlParameters) : bool :=
  match command with
  | FaceDestroyCommand => match cp_faceId c with Some id => negb (id =? 0) | None => true end
  | FaceEnableLocalControlCommand | FaceDisableLocalControlCommand =>
      match cp_localControlFeature c with Some k => (k =? 1) || (k =? 2) | None => true end
  | StrategyChoiceUnsetCommand => match cp_name c with Some n => negb (len n =? 0) | None => true end
  | _ => true
  end.

Definition fields_ok (v : FieldValidator) (c : ControlParameters) : Prop :=
  forall f, (requires v f = true -> has_field c f = true) /\
            (has_field c f = true -> requires v f = true \/ allows v f = true).

Lemma validate_loop_spec req opt pres : length opt = length req -> length pres = length req ->
  (validate_loop req opt pres = Ok tt /\
     forall i, (i < length req)%nat -> (nth i req false = true -> nth i pres false = true) /\
               (nth i pres false = true -> nth i req false = true \/ nth i opt false = true)) \/
  (validate_loop req opt pres = Err InvalidArgument /\
     exists i, (i < length req)%nat /\ ((nth i req false = true /\ nth i pres false = false) \/
                 (nth i pres false = true /\ nth i req false = false /\ nth i opt false = false))).
Proof.
  revert opt pres. induction req as [|r req IH]; intros [|o opt] [|p pres]; intros Ho Hp; try done.
  { left. split; [done|]. intros i Hi. simpl in Hi. lia. }
  simpl in Ho, Hp. injection Ho as Ho. injection Hp as Hp. cbn [validate_loop].
  assert (Hhead : (if r then if negb p then @Err unit InvalidArgument else validate_loop req opt pres
      else if p && negb o then Err InvalidArgument else validate_loop req opt pres) = Err InvalidArgument /\
      ((r = true /\ p = false) \/ (p = true /\ r = false /\ o = false)) \/
    (if r then if negb p then @Err unit InvalidArgument else validate_loop req opt pres
      else if p && negb o then Err InvalidArgument else validate_loop req opt pres) = validate_loop req opt pres /\
      (r = true -> p = true) /\ (p = true -> r = true \/ o = true)) by (destruct r, p, o; cbn; tauto).
  destruct Hhead as [[-> Hbad]|[-> Hgood]].
  { right. split; [done|]. exists 0%nat. split; [simpl; lia|exact Hbad]. }
  destruct (IH opt pres Ho Hp) as [[-> Hall]|[-> (i&Hi&Hbad)]].
  - left. split; [done|]. intros [|i] Hi; [exact Hgood|]. apply Hall. simpl in Hi. lia.
  - right. split; [done|]. exists (S i). split; [simpl; lia|exact Hbad].
Qed.

Lemma field_index_lt f : (field_index f < 10)%nat.
Proof. destruct f; simpl; lia. Qed.
Lemma field_index_onto i : (i < 10)%nat -> exists f, field_index f = i.
Proof.
  intros Hi. exists (nth i all_fields CONTROL_PARAMETER_NAME). do 10 (destruct i as [|i]; [done|]). lia.
Qed.

Definition full (v : FieldValidator) : Prop := length (m_required v) = 10%nat /\ length (m_optional v) = 10%nat.
Lemma full_required f v : full v -> full (required f v).
Proof. intros [? ?]. split; cbn [required m_required m_optional]; rewrite ?length_insert; done. Qed.
Lemma full_optional f v : full v -> full (optional f v).
Proof. intros [? ?]. split; cbn [optional m_required m_optional]; rewrite ?length_insert; done. Qed.
Lemma full_command command : full (m_requestValidator command) /\ full (m_responseValidator command).
Proof. destruct command; split; by repeat first [apply full_required | apply full_optional]. Qed.

Lemma validate_spec v c : full v ->
  (validate v c = Ok tt /\ fields_ok v c) \/ (validate v c = Err InvalidArgument /\ ~ fields_ok v c).
Proof.
  intros [Hr Ho]. unfold validate. destruct (validate_loop_spec (m_required v) (m_optional v) (getPresentFields c)) as [[-> Hall]|[-> (i&Hi&Hbad)]];
    [by rewrite Hr|by rewrite Hr| |].
  - left. split; [done|]. intros f. apply Hall. rewrite Hr. apply field_index_lt.
  - right. split; [done|]. intros Hok. rewrite Hr in Hi. destruct (field_index_onto i Hi) as [f <-].
    destruct (Hok f) as [Hreq Hpres]. unfold requires, allows, has_field, flag in *.
    destruct Hbad as [[H1 H2]|(H1&H2&H3)]; [rewrite (Hreq H1) in H2; done|]. destruct (Hpres H1); congruence.
Qed.

Lemma fields_present v c : fields_ok v c ->
  (requires v CONTROL_PARAMETER_NAME = true -> is_Some (cp_name c)) /\
  (requires v CONTROL_PARAMETER_FACE_ID = true -> is_Some (cp_faceId c)) /\
  (requires v CONTROL_PARAMETER_LOCAL_CONTROL_FEATURE = true -> is_Some (cp_localControlFeature c)).
Proof.
  intros Hok. assert (Hp : forall A (o : option A), present o = true -> is_Some o) by (by intros A [a|] Ha; [exists a|]).
  split_and!; intros Hr; apply Hp; [exact (proj1 (Hok CONTROL_PARAMETER_NAME) Hr)|exact (proj1 (Hok CONTROL_PARAMETER_FACE_ID) Hr)|
    exact (proj1 (Hok CONTROL_PARAMETER_LOCAL_CONTROL_FEATURE) Hr)].
Qed.

Lemma validateRequest_spec command c :
  validateRequest command c = Ok tt /\ fields_ok (m_requestValidator command) c /\ values_ok command c = true \/
  validateRequest command c = Err InvalidArgument /\ (fields_ok (m_requestValidator command) c -> values_ok command c = false).
Proof.
  unfold validateRequest. destruct (validate_spec (m_requestValidator command) c) as [[-> Hok]|[-> Hbad]]; [apply full_command| |by right].
  cbn [rbind]. destruct (fields_present _ _ Hok) as (Hn&Hf&Hl).
  destruct command; try (by left); unfold nonzero_faceId, cp_get.
  - destruct (Hf ltac:(by vm_compute)) as [id Hid]. cbn [values_ok]. rewrite Hid. cbn [rbind]. destruct (id =? 0); [right|left]; by split_and!.
  - destruct (Hl ltac:(by vm_compute)) as [k Hk]. cbn [values_ok]. rewrite Hk. cbn [rbind]. change LOCAL_CONTROL_FEATURE_INCOMING_FACE_ID with 1.
    change LOCAL_CONTROL_FEATURE_NEXT_HOP_FACE_ID with 2. destruct ((k =? 1) || (k =? 2)); [left|right]; by split_and!.
  - destruct (Hl ltac:(by vm_compute)) as [k Hk]. cbn [values_ok]. rewrite Hk. cbn [rbind]. change LOCAL_CONTROL_FEATURE_INCOMING_FACE_ID with 1.
    change LOCAL_CONTROL_FEATURE_NEXT_HOP_FACE_ID with 2. destruct ((k =? 1) || (k =? 2)); [left|right]; by split_and!.
  - destruct (Hn ltac:(by vm_compute)) as [n Hnn]. cbn [values_ok]. rewrite Hnn. cbn [rbind]. destruct (len n =? 0); [right|left]; by split_and!.
Qed.

(** A request is accepted when every parameter that the command requires is
    there, every parameter that is there is required or optional, and the
    values are allowed (a face to destroy is not zero, a feature is known, the
    strategy of the root is not unset); otherwise it is refused as an invalid
    argument, and no assertion fails.  After the defaults are filled in, an
    accepted request of any command but [faces/create] is a valid response as
    soon as it names a face other than zero. *)
Theorem control_command_checks command c :
  (validateRequest command c = Ok tt <-> fields_ok (m_requestValidator command) c /\ values_ok command c = true) /\
  (validateRequest command c <> Ok tt -> validateRequest command c = Err InvalidArgument) /\
  (command <> FaceCreateCommand -> validateRequest command c = Ok tt -> cp_faceId (applyDefaultsToRequest command c) <> Some 0 ->
   validateResponse command (applyDefaultsToRequest command c) = Ok tt).
Proof.
  split_and!.
  - destruct (validateRequest_spec command c) as [(->&?&?)|[-> Hbad]]; [done|]. split; [done|]. intros [Hf Hv]. rewrite (Hbad Hf) in Hv. done.
  - destruct (validateRequest_spec command c) as [(->&_)|[-> _]]; done.
  - intros Hne Hok Hid. destruct c as [n f u l o co fl s e p w].
    destruct command; try done; unfold validateRequest, validate, getPresentFields in Hok; cbn in Hok |- *;
      repeat match goal with H : context [present ?x] |- _ => destruct x; cbn in H; try discriminate H end; cbn in Hid |- *; try done;
      unfold nonzero_faceId; cbn; match goal with |- context [?z =? 0] => destruct (Z.eqb_spec z 0) end; congruence.
Qed.

Module ControlSamples.
Definition parameters : ControlParameters :=
  MkControlParameters (Some name_ab) (Some 300) None None None (Some 10) None None (Some (-1)) None Block_empty.
Lemma parameters_ok : cp_ok parameters.
Proof. split; cbn [parameters cp_name cp_faceId cp_uri cp_localControlFeature cp_origin cp_cost cp_flags cp_strategy cp_expirationPeriod cp_facePersistency option_ok]; by_decide. Qed.

Lemma control_parameters_roundtrip_witness : exists b bytes r w, ControlParameters_wire parameters = Ok (b, with_wire b parameters) /\
  wire b = Ok bytes /\ Block_of_buffer bytes = Ok r /\ ControlParameters_wireDecode r = Ok (with_wire w parameters).
Proof. apply (control_parameters_roundtrip parameters parameters_ok). vm_compute. reflexivity. Defined.
End ControlSamples.
