(* ===== verification/Management.v ===== *)
(** * Management: [ndn-cxx/src/mgmt/control-response.cpp], [dispatcher.cpp],
    [NFD/daemon/mgmt/manager-base.cpp], [fib-manager.cpp],
    [strategy-choice-manager.cpp]

    A command Interest carries its parameters in a component of its name.  The
    dispatcher reads them, asks whether the signature is accepted, checks them
    and calls the manager, which changes a table of the forwarder and answers.
    Whether the signature is accepted is decided by the validator, an argument
    here; the face the Interest came from is in a tag of the Interest. *)

From S2P Require Import Prelude StdMap Tlv Block Encoder Elements NameComponent Name KeyLocator Exclude Packet Link CsEntry.
From S2P Require Import CsPolicy Cs NameTree FibEntry PitEntry DeadNonceList Tables Pit Fib StrategyChoice.
From S2P Require Import Forwarder ForwarderInv ForwarderProps Strategies LinkService ControlParameters.

(** ** Responses *)

(** The text is its characters; a body is there when the block has a wire. *)
Record ControlResponse := MkControlResponse {
  cr_code : Z;
  cr_text : list Z;
  cr_body : Block
}.

Definition ControlResponse_new (code : Z) (text : list Z) : ControlResponse := MkControlResponse code text Block_empty.
Definition setBody (body : Block) (r : ControlResponse) : ControlResponse := MkControlResponse (cr_code r) (cr_text r) body.

(** [ControlResponse::wireEncode()] of a response without an encoding *)
Definition ControlResponse_wireEncode (r : ControlResponse) : result Block :=
  let! code := makeNonNegativeIntegerBlock NfdTlv.StatusCode (cr_code r) in
  let! text := makeBinaryBlock NfdTlv.StatusText (cr_text r) in
  let w := Block.push_back (Block.push_back (Block_of_type NfdTlv.ControlResponse) code) text in
  let w := if hasWire (cr_body r) then Block.push_back w (cr_body r) else w in
  encode w.

(** The status code is kept in 32 bits. *)
Definition ControlResponse_wireDecode (wire' : Block) : result ControlResponse :=
  let! w := Block_parse wire' in
  if negb (m_type w =? NfdTlv.ControlResponse) then Err PacketError
  else
    match m_subBlocks w with
    | [] => Err PacketError
    | code :: l =>
        if negb (m_type code =? NfdTlv.StatusCode) then Err PacketError
        else
          let! k := readNonNegativeIntegerBlock code in
          match l with
          | [] => Err PacketError
          | text :: l =>
              if negb (m_type text =? NfdTlv.StatusText) then Err PacketError
              else Ok (MkControlResponse (to_u32 k) (value text) (hd Block_empty l))
          end
    end.

(** ** The dispatcher *)

(** [ControlParametersParser]: the block in the value of the component *)
Definition parse_parameters (pc : Component) : result ControlParameters :=
  let! b := blockFromValue (Block_of_value (c_type pc) (c_value pc)) in
  ControlParameters_wireDecode b.

(** [Name::get] does not check the index. *)
Definition Name_get (n : Name) (i : nat) : result Component :=
  match n !! i with Some c => Ok c | None => Err OutOfRange end.

Definition text_rejected : list Z := [97; 117; 116; 104; 111; 114; 105; 122; 97; 116; 105; 111; 110; 32; 114; 101; 106; 101; 99; 116; 101; 100]. (* authorization rejected *)
Definition text_invalid : list Z := [102; 97; 105; 108; 101; 100; 32; 105; 110; 32; 118; 97; 108; 105; 100; 97; 116; 105; 110; 103; 32; 112; 97; 114; 97; 109; 101; 116; 101; 114; 115]. (* failed in validating parameters *)

(** [processControlCommandInterest], the authorization, and
    [processAuthorizedControlCommandInterest], for the handler of a command that
    is registered under [prefix]; [None] is no answer. *)
Definition processControlCommand {S} (accepted : bool) (command : ControlCommand) (prefix : Name)
    (handler : ControlParameters -> S -> result (ControlResponse * S)) (interestName : Name) (s : S)
  : result (option ControlResponse * S) :=
  let parametersLoc := (length prefix + 2)%nat in
  let! pc := Name_get interestName parametersLoc in
  match parse_parameters pc with
  | Err e => if is_tlv_error e then Ok (None, s) else Err e
  | Ok parameters =>
      if negb accepted then Ok (Some (ControlResponse_new 403 text_rejected), s)
      else
        match validateRequest command parameters with
        | Err InvalidArgument => Ok (Some (ControlResponse_new 400 text_invalid), s)
        | Err e => Err e
        | Ok _ =>
            let! (response, s) := handler (applyDefaultsToRequest command parameters) s in
            Ok (Some response, s)
        end
  end.

(** ** The managers *)

Section Managers.
Context `{CityHash} `{StdSort} {P : Type}.
Implicit Types (fw : Forwarder P).

Definition text_Success : list Z := [83; 117; 99; 99; 101; 115; 115]. (* Success *)
Definition text_OK : list Z := [79; 75]. (* OK *)
Definition text_noFace : list Z := [70; 97; 99; 101; 32; 110; 111; 116; 32; 102; 111; 117; 110; 100]. (* Face not found *)
Definition text_unsupported : list Z := [85; 110; 115; 117; 112; 112; 111; 114; 116; 101; 100; 32; 115; 116; 114; 97; 116; 101; 103; 121]. (* Unsupported strategy *)
Definition text_notInstalled : list Z := [83; 116; 114; 97; 116; 101; 103; 121; 32; 110; 111; 116; 32; 105; 110; 115; 116; 97; 108; 108; 101; 100]. (* Strategy not installed *)

(** [ControlResponse(code, text).setBody(parameters.wireEncode())] *)
Definition respond (code : Z) (text : list Z) (parameters : ControlParameters) : result ControlResponse :=
  let! (body, _) := ControlParameters_wire parameters in
  Ok (setBody body (ControlResponse_new code text)).

(** [FibManager::setFaceForSelfRegistration]; [incomingFaceIdTag] is the tag of
    the request. *)
Definition setFaceForSelfRegistration (incomingFaceIdTag : option Z) (parameters : ControlParameters) : result ControlParameters :=
  let! faceId := cp_get (cp_faceId parameters) in
  if faceId =? 0 then
    match incomingFaceIdTag with
    | None => Err AssertFailed
    | Some id => Ok (setFaceId id parameters)
    end
  else Ok parameters.

Definition FibManager_addNextHop (incomingFaceIdTag : option Z) (parameters : ControlParameters) fw : result (ControlResponse * Forwarder P) :=
  let! parameters := setFaceForSelfRegistration incomingFaceIdTag parameters in
  let! prefix := cp_get (cp_name parameters) in
  let! faceId := cp_get (cp_faceId parameters) in
  let! cost := cp_get (cp_cost parameters) in
  match getFace faceId fw with
  | Some face =>
      let '(entry, _, tb) := Fib_insert prefix (fw_tables fw) in
      let fw := with_tables (Fib_modify entry (addNextHop face cost) tb) fw in
      let! response := respond 200 text_Success parameters in
      Ok (response, fw)
  | None => Ok (ControlResponse_new 410 text_noFace, fw)
  end.

Definition FibManager_removeNextHop (incomingFaceIdTag : option Z) (parameters : ControlParameters) fw : result (ControlResponse * Forwarder P) :=
  let! parameters := setFaceForSelfRegistration incomingFaceIdTag parameters in
  let! faceId := cp_get (cp_faceId parameters) in
  let! prefix := cp_get (cp_name parameters) in
  let fw :=
    match getFace faceId fw with
    | None => fw
    | Some face =>
        match Fib_findExactMatch prefix (fw_tables fw) with
        | None => fw
        | Some entry =>
            let entry := removeNextHop face entry in
            let tb := Fib_modify prefix (fun _ => entry) (fw_tables fw) in
            let tb := if negb (hasNextHops entry) then Fib_eraseEntry prefix tb else tb in
            with_tables tb fw
        end
    end in
  let! response := respond 200 text_Success parameters in
  Ok (response, fw).

Definition StrategyChoiceManager_setStrategy (parameters : ControlParameters) fw : result (ControlResponse * Forwarder P) :=
  let! prefix := cp_get (cp_name parameters) in
  let! selectedStrategy := cp_get (cp_strategy parameters) in
  match getStrategy selectedStrategy (fw_tables fw) with
  | None => Ok (ControlResponse_new 504 text_unsupported, fw)
  | Some _ =>
      let! r := StrategyChoice_insert prefix selectedStrategy (fw_tables fw) in
      let '(inserted, tb) := r in
      let fw := with_tables tb fw in
      if inserted then
        match StrategyChoice_get prefix tb with
        | None => Err AssertFailed
        | Some current =>
            let! response := respond 200 text_OK (setStrategy current parameters) in
            Ok (response, fw)
        end
      else Ok (ControlResponse_new 405 text_notInstalled, fw)
  end.

Definition StrategyChoiceManager_unsetStrategy (parameters : ControlParameters) fw : result (ControlResponse * Forwarder P) :=
  let! prefix := cp_get (cp_name parameters) in
  let! tb := StrategyChoice_erase prefix (fw_tables fw) in
  let fw := with_tables tb fw in
  let! response := respond 200 text_OK parameters in
  Ok (response, fw).
End Managers.

(** ** Responses survive encoding *)

Lemma elements_bytes_ok l es : Forall2 elem_ok l es -> elements_bytes l = Ok (wires es) /\ elements_size_sum l = Ok (len (wires es)).
Proof.
  induction 1 as [|b [t v] l es Hb Hl [IH1 IH2]]; [done|]. cbn [elements_bytes elements_size_sum]. unfold element_bytes.
  assert (Hw : hasWire b = true) by (pose proof (ek_wire _ _ Hb) as Hw; unfold wire in Hw; by destruct (hasWire b)).
  rewrite Hw, (ek_wire _ _ Hb), (ek_total _ _ Hb), IH1, IH2. cbn [rbind fst snd]. rewrite wires_cons, len_app. done.
Qed.

(** A block that is a list of elements, encoded *)
Lemma encode_elements b0 es : m_buffer b0 = None -> m_subBlocks b0 <> [] -> Forall2 elem_ok (m_subBlocks b0) es ->
  wf_element (m_type b0, wires es) -> exists b, encode b0 = Ok b /\ wire b = Ok (tlv_wire (m_type b0) (wires es)).
Proof.
  intros Hb Hne H2 Hel. destruct (elements_bytes_ok _ _ H2) as [Hby Hsz]. unfold encode, encode_bytes, hasWire, hasValue. rewrite Hb.
  destruct (m_subBlocks b0) as [|x l] eqn:Hl; [done|]. cbn [length Nat.eqb]. rewrite Hby, Hsz. cbn [rbind].
  fold (tlv_wire (m_type b0) (wires es)). change (writeVarNumber (m_type b0) ++ writeVarNumber (len (wires es)) ++ wires es) with (tlv_wire (m_type b0) (wires es)).
  destruct (read_header (m_type b0) (wires es) [] Hel) as [H1 H3]. rewrite !app_nil_r in *. rewrite H1. cbn [rbind]. rewrite H3. cbn [rbind].
  eexists. split; [reflexivity|]. unfold wire, hasWire. cbn [m_buffer m_begin m_end].
  pose proof (tlv_wire_not_nil (m_type b0) (wires es)) as Hn.
  assert (He : (0 =? length (tlv_wire (m_type b0) (wires es)))%nat = false) by (apply Nat.eqb_neq; by destruct (tlv_wire _ _)).
  rewrite He. cbn [negb]. by rewrite slice_all.
Qed.

Definition cr_elements (r : ControlResponse) : list (Z * list Z) :=
  [(NfdTlv.StatusCode, encoderIntegerBytes (cr_code r)); (NfdTlv.StatusText, cr_text r)] ++ opt_elem (hasWire (cr_body r)) (view (cr_body r)).

Record cr_ok (r : ControlResponse) : Prop := {
  cro_code : 0 <= cr_code r < U32;
  cro_text : wf_bytes (cr_text r);
  cro_body : hasWire (cr_body r) = true -> elem_ok (cr_body r) (view (cr_body r)) /\ wf_bytes (value (cr_body r)) /\ 0 <= m_type (cr_body r) < U32;
  cro_length : len (wires (cr_elements r)) < U64
}.

Lemma wf_cr_elements r : cr_ok r -> wf_fields (cr_elements r).
Proof.
  intros [Hc Ht Hb Hl]. assert (Hcb : wf_bytes (encoderIntegerBytes (cr_code r))) by (apply wf_encoderIntegerBytes; lia).
  apply wf_fields_intro; [..|done]; unfold cr_elements; destruct (hasWire (cr_body r)) eqn:Hw; cbn [opt_elem app map fst snd view].
  1,2: repeat (apply Forall_cons; split; [by first [exact (proj2 (proj2 (Hb eq_refl))) | vm_compute]|]); apply Forall_nil_2.
  1,2: repeat (apply Forall_cons; split; [by first [exact Hcb | exact Ht | exact (proj1 (proj2 (Hb eq_refl)))]|]); apply Forall_nil_2.
Qed.

(** The response to a management command survives encoding and decoding:
    status code, text and body (the parameters of the command) come back. *)
Theorem control_response_roundtrip r : cr_ok r -> exists b bytes b' r',
  ControlResponse_wireEncode r = Ok b /\ wire b = Ok bytes /\ Block_of_buffer bytes = Ok b' /\ ControlResponse_wireDecode b' = Ok r' /\
  cr_code r' = cr_code r /\ cr_text r' = cr_text r /\
  if hasWire (cr_body r) then elem_ok (cr_body r') (view (cr_body r)) else cr_body r' = Block_empty.
Proof.
  intros Hok. pose proof (wf_cr_elements r Hok) as Hw. destruct Hok as [Hc Ht Hb Hl].
  assert (Hes : wf_element (NfdTlv.ControlResponse, wires (cr_elements r))) by (split; [by vm_compute|done]).
  assert (Hel : forall x, x ∈ cr_elements r -> wf_element x) by (apply Forall_forall; apply Hw).
  destruct (makeIntegerBlock_ok NfdTlv.StatusCode (cr_code r)) as (bc&Hbc&Huc); [by vm_compute|].
  destruct (makeBinaryBlock_ok NfdTlv.StatusText (cr_text r)) as (bt&Hbt&Hut); [apply Hel; right; left|].
  unfold ControlResponse_wireEncode. rewrite Hbc, Hbt. cbn [rbind].
  set (w0 := if hasWire (cr_body r) then _ else _).
  assert (H2 : m_buffer w0 = None /\ m_type w0 = NfdTlv.ControlResponse /\ Forall2 elem_ok (m_subBlocks w0) (cr_elements r) /\ m_subBlocks w0 <> []).
  { assert (Hec : elem_ok bc (NfdTlv.StatusCode, encoderIntegerBytes (cr_code r))) by (apply built_elem_ok; [done|apply wf_encoderIntegerBytes; lia]).
    assert (Het : elem_ok bt (NfdTlv.StatusText, cr_text r)) by (by apply built_elem_ok).
    unfold w0, cr_elements. destruct (hasWire (cr_body r)); cbn; split_and!; try done; repeat (apply Forall2_cons; split; [by first [done | apply Hb]|]); apply Forall2_nil_2. }
  destruct H2 as (Hbuf&Hty&H2&Hne). destruct (encode_elements w0 (cr_elements r) Hbuf Hne H2) as (b&He&Hwire); [by rewrite Hty|].
  destruct (Block_of_buffer_built NfdTlv.ControlResponse (wires (cr_elements r)) Hes) as (b'&Hb'&Hu).
  assert (Heo : elem_ok b' (NfdTlv.ControlResponse, wires (cr_elements r))) by (apply built_elem_ok; [done|by apply wf_fields_bytes]).
  unfold ControlResponse_wireDecode.
  destruct (Block_parse_value b' _ (ek_wf _ _ Heo) (ek_sub _ _ Heo) (elem_ok_value _ _ Heo) Hw) as (l&Hp&Hl2).
  exists b, (tlv_wire NfdTlv.ControlResponse (wires (cr_elements r))), b'. rewrite Hp. cbn [rbind set_subBlocks m_subBlocks m_type].
  rewrite (elem_ok_type _ _ Heo). cbn [fst]. rewrite Z.eqb_refl. cbn [negb].
  unfold cr_elements in Hl2. destruct l as [|c [|t l]]; [by inversion Hl2| |].
  { apply Forall2_cons in Hl2 as [_ Hl2]. by inversion Hl2. }
  apply Forall2_cons in Hl2 as [Hc2 Hl2]. apply Forall2_cons in Hl2 as [Ht2 Hl2].
  rewrite (elem_ok_type _ _ Hc2), (elem_ok_type _ _ Ht2). cbn [fst]. rewrite !Z.eqb_refl. cbn [negb].
  rewrite (read_integer_elem c _ _ Hc2) by width_lia. cbn [rbind]. eexists. split_and!; [done|by rewrite <- Hty|done|done| | |].
  - cbn [cr_code]. unfold to_u32. by apply Z.mod_small.
  - exact (elem_ok_value _ _ Ht2).
  - cbn [cr_body]. destruct (hasWire (cr_body r)); cbn [opt_elem] in Hl2; [|by inversion Hl2].
    destruct l as [|x l]; [by inversion Hl2|]. by apply Forall2_cons in Hl2 as [Hx _].
Qed.

(** ** From the name of a request to its parameters *)

(** Parameters that leave room for those that are filled in *)
Definition name_small (n : Name) : Prop := name_ok n /\ len (name_value n) < 2 ^ 60.
Record cp_small (c : ControlParameters) : Prop := {
  cs_name : option_ok name_small (cp_name c);
  cs_faceId : option_ok uint64 (cp_faceId c);
  cs_uri : option_ok (fun u => wf_bytes u /\ len u < 2 ^ 60) (cp_uri c);
  cs_feature : option_ok (fun k => 0 <= k < U32) (cp_localControlFeature c);
  cs_origin : option_ok uint64 (cp_origin c);
  cs_cost : option_ok uint64 (cp_cost c);
  cs_flags : option_ok uint64 (cp_flags c);
  cs_strategy : option_ok name_small (cp_strategy c);
  cs_expiration : option_ok (fun k => - 2 ^ 63 <= k < 2 ^ 63) (cp_expirationPeriod c);
  cs_persistency : option_ok (fun k => 0 <= k < 256) (cp_facePersistency c)
}.

Lemma option_ok_impl {A} (Q R : A -> Prop) o : (forall a, Q a -> R a) -> option_ok Q o -> option_ok R o.
Proof. intros Hi. destruct o; [apply Hi|done]. Qed.

Lemma len_field {A} t (enc : A -> list Z) o k : option_ok (fun a => len (enc a) <= k) o -> 0 <= k -> len (wires (field t enc o)) <= 18 + k.
Proof.
  intros Ho Hk. destruct o as [a|]; cbn [field]; [rewrite wires_single; cbn [fst snd]; pose proof (len_tlv_wire_le t (enc a)); simpl in Ho; lia|].
  unfold len. simpl. lia.
Qed.

Lemma cp_small_ok c : cp_small c -> cp_ok c.
Proof.
  intros [Hn Hf Hu Hl Ho Hc Hfl Hs He Hp]. split; try done.
  - eapply option_ok_impl; [|exact Hn]. by intros a [? _].
  - eapply option_ok_impl; [|exact Hu]. by intros a [? _].
  - eapply option_ok_impl; [|exact Hs]. by intros a [? _].
  - unfold cp_elements. rewrite !wires_app, !len_app.
    assert (Hint : forall t (o : option Z), len (wires (field t encoderIntegerBytes o)) <= 26).
    { intros t o. apply (len_field t encoderIntegerBytes o 8); [|lia]. destruct o; [apply len_integer_bytes|done]. }
    pose proof (Hint NfdTlv.FaceId (cp_faceId c)). pose proof (Hint NfdTlv.LocalControlFeature (cp_localControlFeature c)).
    pose proof (Hint NfdTlv.Origin (cp_origin c)). pose proof (Hint NfdTlv.Cost (cp_cost c)). pose proof (Hint NfdTlv.Flags (cp_flags c)).
    pose proof (Hint NfdTlv.FacePersistency (cp_facePersistency c)).
    assert (len (wires (field TlvType.Name name_value (cp_name c))) <= 18 + 2 ^ 60).
    { apply len_field; [|lia]. eapply option_ok_impl; [|exact Hn]. intros a [_ ?]. lia. }
    assert (len (wires (field NfdTlv.Uri (fun u => u) (cp_uri c))) <= 18 + 2 ^ 60).
    { apply len_field; [|lia]. eapply option_ok_impl; [|exact Hu]. intros a [_ ?]. lia. }
    assert (len (wires (field NfdTlv.Strategy (fun n => tlv_wire TlvType.Name (name_value n)) (cp_strategy c))) <= 18 + (18 + 2 ^ 60)).
    { apply len_field; [|lia]. eapply option_ok_impl; [|exact Hs]. intros a [_ ?]. pose proof (len_tlv_wire_le TlvType.Name (name_value a)). lia. }
    assert (len (wires (field NfdTlv.ExpirationPeriod (fun n => encoderIntegerBytes (to_u64 n)) (cp_expirationPeriod c))) <= 18 + 8).
    { apply len_field; [|lia]. destruct (cp_expirationPeriod c); [apply len_integer_bytes|done]. }
    unfold U64. lia.
Qed.

Lemma blockFromValue_of_value t v : v <> [] -> blockFromValue (Block_of_value t v) = Block_of_buffer v.
Proof.
  intros Hv. unfold blockFromValue. rewrite Block_of_value_value. unfold value_size. cbn [hasValue Block_of_value m_buffer m_value_begin m_value_end].
  rewrite (proj2 (Z.eqb_neq _ _)); [|destruct v; [done|simpl; lia]]. unfold Block_of_buffer.
  destruct (readType v) as [[u s1]|e]; [|done]. cbn [rbind]. destruct (readVarNumber s1) as [[k s2]|e]; [|done]. cbn [rbind].
  by destruct (negb (k =? len s2)).
Qed.

Lemma parse_request c : cp_ok c -> exists w,
  parse_parameters (generic (tlv_wire NfdTlv.ControlParameters (wires (cp_elements c)))) = Ok (with_wire w c) /\
  wire w = Ok (tlv_wire NfdTlv.ControlParameters (wires (cp_elements c))).
Proof.
  intros Hok. unfold parse_parameters. cbn [generic c_type c_value]. rewrite blockFromValue_of_value by apply tlv_wire_not_nil.
  destruct (Block_of_buffer_built NfdTlv.ControlParameters (wires (cp_elements c))) as (r&->&Hbu); [split; [by vm_compute|apply Hok]|]. cbn [rbind].
  apply ControlParameters_decode_elem; [|done]. apply (built_elem_ok _ _ _ Hbu), wf_fields_bytes. by apply wf_cp_elements.
Qed.

Lemma request_read command prefix c : cp_ok c -> hasWire (cp_wire c) = false -> validateRequest command c = Ok tt ->
  exists n pc w, getRequestName command prefix c = Ok n /\ (forall signature, Name_get (n ++ signature) (length prefix + 2)%nat = Ok pc) /\
    parse_parameters pc = Ok (with_wire w c).
Proof.
  intros Hok Hw Hv. destruct (ControlParameters_wire_ok c Hok Hw) as (b&Hb&Hbu). destruct (parse_request c Hok) as (w&Hpar&_).
  set (bytes := tlv_wire NfdTlv.ControlParameters (wires (cp_elements c))) in *.
  exists (prefix ++ [m_module command; m_verb command; generic bytes]), (generic bytes), w. split_and!; [| |done].
  - unfold getRequestName. rewrite Hv, Hb. cbn [rbind]. by rewrite (built_wire _ _ _ Hbu).
  - intros sg. unfold Name_get. rewrite <- app_assoc, lookup_app_r by lia. by replace (length prefix + 2 - length prefix)%nat with 2%nat by lia.
Qed.

Lemma command_delivered {S} command prefix c (handler : ControlParameters -> S -> result (ControlResponse * S)) s :
  cp_ok c -> hasWire (cp_wire c) = false -> validateRequest command c = Ok tt ->
  exists n w, getRequestName command prefix c = Ok n /\
    (forall signature, processControlCommand true command prefix handler (n ++ signature) s =
       let! (response, s) := handler (applyDefaultsToRequest command (with_wire w c)) s in Ok (Some response, s)) /\
    (forall signature, exists r, processControlCommand false command prefix handler (n ++ signature) s = Ok (Some r, s) /\ cr_code r = 403).
Proof.
  intros Hok Hw Hv. destruct (request_read command prefix c Hok Hw Hv) as (n&pc&w&Hn&Hget&Hpar). exists n, w.
  assert (Hv' : validateRequest command (with_wire w c) = Ok tt) by exact Hv.
  split_and!; [done|intros sg..]; unfold processControlCommand; rewrite Hget; cbn [rbind]; rewrite Hpar; cbn [negb]; [by rewrite Hv'|by eexists].
Qed.

(** A command reaches its handler: from the name that the client builds for
    valid parameters (whatever components of the signature follow), the
    dispatcher reads the same parameters, finds them valid, and calls the
    handler with the defaults filled in; a rejected signature is answered with
    403 and nothing is changed. *)
Theorem control_command_delivered {S} command prefix c (handler : ControlParameters -> S -> result (ControlResponse * S)) s :
  cp_ok c -> hasWire (cp_wire c) = false -> validateRequest command c = Ok tt ->
  exists n w, getRequestName command prefix c = Ok n /\
    (forall signature, processControlCommand true command prefix handler (n ++ signature) s =
       let! (response, s) := handler (applyDefaultsToRequest command (with_wire w c)) s in Ok (Some response, s)) /\
    (forall signature, exists r, processControlCommand false command prefix handler (n ++ signature) s = Ok (Some r, s) /\ cr_code r = 403).
Proof. apply command_delivered. Qed.

(** A command Interest without parameters makes the dispatcher read past the
    end of its name. *)
Theorem control_command_without_parameters {S} accepted command prefix (handler : ControlParameters -> S -> result (ControlResponse * S)) s :
  processControlCommand accepted command prefix handler (prefix ++ [m_module command; m_verb command]) s = Err OutOfRange.
Proof.
  unfold processControlCommand, Name_get. rewrite lookup_app_r by lia. replace (length prefix + 2 - length prefix)%nat with 2%nat by lia. done.
Qed.

Section ManagerFacts.
Context `{Sha256} `{CityHash} `{CityHashSeed} `{StdSort} `{Rng} {P : Type} `{CsPolicy P}.
Implicit Types (fw : Forwarder P) (tb : Tables) (n m : Name).

(** The FIB as a map from names and faces to costs *)
Definition hop_cost n (face : FacePtr) tb : option Z := fib_at n tb ≫= cost_of face.
Definition fib_ok tb : Prop := forall n e, fib_at n tb = Some e -> wf_fib e.

Lemma fib_at_modify n f tb m : nt_inv (tb_tree tb) ->
  fib_at m (Fib_modify n f tb) = if bool_decide (m = n) then f <$> fib_at m tb else fib_at m tb.
Proof.
  intros Ht. destruct (update_payload_spec n (fun x => set_fib (f <$> np_fib x) x) (tb_tree tb) Ht) as (_&_&Hp).
  unfold fib_at, data_at. cbn [Fib_modify with_tree tb_tree]. rewrite Hp. case_bool_decide; [|done]. by destruct (payload_at m (tb_tree tb)).
Qed.

Lemma findExact_fib n tb : nt_inv (tb_tree tb) -> gen_name n -> Fib_findExactMatch n tb = fib_at n tb.
Proof.
  intros Ht Hn. unfold Fib_findExactMatch, fib_at, data_at, payload_at. rewrite findExactMatch_deref by done. by destruct (deref n (tb_tree tb)).
Qed.

Lemma erase_entry n tb : nt_inv (tb_tree tb) -> gen_name n -> is_Some (fib_at n tb) -> Fib_eraseEntry n tb = Fib_erase n tb.
Proof.
  intros Ht Hn Hf. unfold Fib_erase. rewrite findExactMatch_deref by done. pose proof (fib_present n tb Hf) as Hs. unfold payload_at in Hs.
  destruct (deref n (tb_tree tb)) as [x|] eqn:Hx; [|by destruct Hs]. by apply deref_elem in Hx as [_ ->].
Qed.

Lemma wf_fib_new n : wf_fib (FibEntry_new n).
Proof. split; [apply NoDup_nil_2|constructor]. Qed.

(** Adding a next hop through the table *)
Lemma add_hop n face cost fw : fw_inv fw -> fib_ok (fw_tables fw) -> gen_name n -> room n (fw_tables fw) ->
  let fw' := with_tables (Fib_modify n (addNextHop face cost) (Fib_insert n (fw_tables fw)).2) fw in
  fw_inv fw' /\ fib_ok (fw_tables fw') /\
  forall m g, hop_cost m g (fw_tables fw') = if bool_decide (m = n /\ g = face) then Some cost else hop_cost m g (fw_tables fw).
Proof.
  intros Hi Hf Hn Hr fw'. set (fw1 := with_tables (Fib_insert n (fw_tables fw)).2 fw).
  pose proof (inv_fib_insert n fw Hi Hn Hr) as Hi1. destruct (Fib_insert_spec n (fw_tables fw) (pi_tree _ (fi_pit _ Hi)) Hn Hr) as [Ht1 Hd].
  assert (Hat : forall m, fib_at m (fw_tables fw') = if bool_decide (m = n) then Some (addNextHop face cost (default (FibEntry_new n) (fib_at n (fw_tables fw))))
    else fib_at m (fw_tables fw)).
  { intros m. unfold fw'. cbn [with_tables fw_tables]. rewrite fib_at_modify by done. destruct (Hd m) as [-> _]. by case_bool_decide. }
  assert (Hwf : wf_fib (default (FibEntry_new n) (fib_at n (fw_tables fw)))).
  { destruct (fib_at n (fw_tables fw)) as [e|] eqn:He; [by apply (Hf n)|apply wf_fib_new]. }
  split_and!; [exact (inv_fib_modify n (addNextHop face cost) fw1 Hi1)| |].
  - intros m e He. rewrite Hat in He. case_bool_decide; [injection He as <-; by apply wf_add|by apply (Hf m)].
  - intros m g. unfold hop_cost. rewrite Hat. case_bool_decide as Hm; [subst m|by rewrite bool_decide_false by tauto]. cbn [mbind option_bind].
    destruct (wf_add face cost _ Hwf) as [_ ->]. case_bool_decide as Hg; [by rewrite bool_decide_true by done|].
    rewrite bool_decide_false by tauto. destruct (fib_at n (fw_tables fw)); [done|]. done.
Qed.

(** Removing one, and the entry when it was the last *)
Lemma remove_hop n face e fw : fw_inv fw -> fib_ok (fw_tables fw) -> gen_name n -> fib_at n (fw_tables fw) = Some e ->
  let e' := removeNextHop face e in
  let tb := Fib_modify n (fun _ => e') (fw_tables fw) in
  let fw' := with_tables (if negb (hasNextHops e') then Fib_eraseEntry n tb else tb) fw in
  fw_inv fw' /\ fib_ok (fw_tables fw') /\ (forall x, fib_at n (fw_tables fw') = Some x -> hasNextHops x = true) /\
  forall m g, hop_cost m g (fw_tables fw') = if bool_decide (m = n /\ g = face) then None else hop_cost m g (fw_tables fw).
Proof.
  intros Hi Hf Hn He e' tb fw'. pose proof (pi_tree _ (fi_pit _ Hi)) as Ht.
  pose proof (inv_fib_modify n (fun _ => e') fw Hi) as Hi1. fold tb in Hi1. pose proof (pi_tree _ (fi_pit _ Hi1)) as Ht1. cbn [with_tables fw_tables] in Ht1.
  assert (Hat1 : forall m, fib_at m tb = if bool_decide (m = n) then Some e' else fib_at m (fw_tables fw)).
  { intros m. unfold tb. rewrite fib_at_modify by done. case_bool_decide; [|done]. subst m. by rewrite He. }
  destruct (wf_remove face e (Hf n e He)) as [Hw Hc]. fold e' in Hw, Hc.
  assert (Hsome : is_Some (fib_at n tb)) by (rewrite Hat1, bool_decide_true by done; by eexists).
  assert (Hres : fw_inv fw' /\ forall m, fib_at m (fw_tables fw') = if bool_decide (m = n) then (if hasNextHops e' then Some e' else None) else fib_at m (fw_tables fw)).
  { unfold fw'. destruct (hasNextHops e') eqn:Hh; cbn [negb]; [by split|]. rewrite erase_entry by done.
    split; [exact (inv_fib_erase n (with_tables tb fw) Hi1 Hn)|]. intros m. cbn [with_tables fw_tables].
    destruct (Fib_erase_spec n tb Ht1 Hn) as [_ Hd]. destruct (Hd m) as [-> _]. rewrite Hat1. by case_bool_decide. }
  destruct Hres as [Hi' Hat]. split_and!; [done| | |].
  - intros m x Hx. rewrite Hat in Hx. case_bool_decide; [destruct (hasNextHops e'); [by injection Hx as <-|done]|by apply (Hf m)].
  - intros x Hx. rewrite Hat, bool_decide_true in Hx by done. destruct (hasNextHops e') eqn:Hh; [by injection Hx as <-|done].
  - intros m g. unfold hop_cost. rewrite Hat. case_bool_decide as Hm; [subst m|by rewrite bool_decide_false by tauto]. rewrite He. cbn [mbind option_bind].
    specialize (Hc g). destruct (hasNextHops e') eqn:Hh; cbn [mbind option_bind].
    + rewrite Hc. repeat case_bool_decide; tauto.
    + assert (Hnil : cost_of g e' = None) by (unfold cost_of, hasNextHops in *; by destruct (fe_nextHops e')).
      rewrite Hnil in Hc. repeat case_bool_decide; try tauto; done.
Qed.
(** The face that a request is about: the one it came from when it names none *)
Definition requested_face (tag : option Z) (c : ControlParameters) : option Z :=
  cp_faceId c ≫= fun id => if id =? 0 then tag else Some id.

Lemma self_registration tag c id : cp_small c -> requested_face tag c = Some id -> uint64 id -> exists c',
  setFaceForSelfRegistration tag c = Ok c' /\ cp_faceId c' = Some id /\ cp_name c' = cp_name c /\ cp_cost c' = cp_cost c /\ cp_small c'.
Proof.
  unfold requested_face, setFaceForSelfRegistration. intros Hs Hr Hid. destruct (cp_faceId c) as [k|] eqn:Hk; [|done]. cbn [mbind option_bind cp_get rbind] in *.
  destruct (k =? 0).
  - subst tag. eexists. split_and!; [done|done|done|done|]. by destruct Hs; split.
  - injection Hr as ->. by exists c.
Qed.

Lemma respond_ok code text c : cp_small c -> exists r, respond code text c = Ok r /\ cr_code r = code.
Proof.
  intros Hs. unfold respond. destruct (hasWire (cp_wire c)) eqn:Hw.
  - unfold ControlParameters_wire. rewrite Hw. cbn [rbind]. by eexists.
  - destruct (ControlParameters_wire_ok c (cp_small_ok c Hs) Hw) as (b&->&_). cbn [rbind]. by eexists.
Qed.

Lemma manager_add tag c n id cost fw : fw_inv fw -> fib_ok (fw_tables fw) -> cp_small c ->
  cp_name c = Some n -> gen_name n -> room n (fw_tables fw) -> requested_face tag c = Some id -> uint64 id -> cp_cost c = Some cost ->
  exists r fw', FibManager_addNextHop tag c fw = Ok (r, fw') /\
    match getFace id fw with
    | None => cr_code r = 410 /\ fw' = fw
    | Some face => cr_code r = 200 /\ fw_inv fw' /\ fib_ok (fw_tables fw') /\
        forall m g, hop_cost m g (fw_tables fw') = if bool_decide (m = n /\ g = face) then Some cost else hop_cost m g (fw_tables fw)
    end.
Proof.
  intros Hi Hf Hs Hn Hg Hr Hid Hu Hc. destruct (self_registration tag c id Hs Hid Hu) as (c'&Hc'&Hid'&Hn'&Hcost'&Hs').
  destruct (respond_ok 200 text_Success c' Hs') as (r&Hresp&Hcode).
  unfold FibManager_addNextHop. rewrite Hc'. cbn [rbind]. rewrite Hn', Hid', Hcost', Hn, Hc. cbn [cp_get rbind].
  destruct (getFace id fw) as [face|]; [|eexists _, _; by split_and!].
  destruct (add_hop n face cost fw Hi Hf Hg Hr) as (Hi'&Hf'&Hh).
  pose proof (Fib_insert_entry n (fw_tables fw) (pi_tree _ (fi_pit _ Hi)) Hg Hr) as He. destruct (Fib_insert n (fw_tables fw)) as [[e b] tb]. cbn [fst] in He. subst e. rewrite Hresp. cbn [rbind].
  eexists _, _. by split_and!.
Qed.

Lemma manager_remove tag c n id fw : fw_inv fw -> fib_ok (fw_tables fw) -> cp_small c ->
  cp_name c = Some n -> gen_name n -> requested_face tag c = Some id -> uint64 id ->
  exists r fw', FibManager_removeNextHop tag c fw = Ok (r, fw') /\ cr_code r = 200 /\ fw_inv fw' /\ fib_ok (fw_tables fw') /\
    match getFace id fw with
    | None => fw' = fw
    | Some face => (forall x, fib_at n (fw_tables fw') = Some x -> fib_at n (fw_tables fw) <> None -> hasNextHops x = true) /\
        forall m g, hop_cost m g (fw_tables fw') = if bool_decide (m = n /\ g = face) then None else hop_cost m g (fw_tables fw)
    end.
Proof.
  intros Hi Hf Hs Hn Hg Hid Hu. destruct (self_registration tag c id Hs Hid Hu) as (c'&Hc'&Hid'&Hn'&_&Hs').
  destruct (respond_ok 200 text_Success c' Hs') as (r&Hresp&Hcode).
  unfold FibManager_removeNextHop. rewrite Hc'. cbn [rbind]. rewrite Hn', Hid', Hn. cbn [cp_get rbind]. rewrite Hresp. cbn [rbind].
  eexists _, _. split_and!; [reflexivity|done|..].
  all: rewrite findExact_fib by (done || exact (pi_tree _ (fi_pit _ Hi))); destruct (getFace id fw) as [face|]; try done;
    destruct (fib_at n (fw_tables fw)) as [e|] eqn:He; try done.
  - exact (proj1 (remove_hop n face e fw Hi Hf Hg He)).
  - exact (proj1 (proj2 (remove_hop n face e fw Hi Hf Hg He))).
  - destruct (remove_hop n face e fw Hi Hf Hg He) as (_&_&Hx&Hh). split; [intros x Hx1 _; by apply Hx|exact Hh].
  - split; [intros x Hx; congruence|]. intros m g. case_bool_decide as Hm; [|done]. destruct Hm as [-> ->]. unfold hop_cost. by rewrite He.
Qed.

(** The FIB manager does what its commands say.  [add-nexthop] gives the name
    the next hop with the cost, in the FIB seen as a map from names and faces to
    costs, changes no other next hop and answers 200; for an unknown face it
    answers 410 and changes nothing.  [remove-nexthop] takes that next hop away
    and no other, erases an entry that has none left, and always answers 200.
    The invariants of the forwarder and of the FIB entries are kept. *)
Theorem fib_manager_correct tag c n id cost fw : fw_inv fw -> fib_ok (fw_tables fw) -> cp_small c ->
  cp_name c = Some n -> gen_name n -> room n (fw_tables fw) -> requested_face tag c = Some id -> uint64 id -> cp_cost c = Some cost ->
  (exists r fw', FibManager_addNextHop tag c fw = Ok (r, fw') /\
     match getFace id fw with
     | None => cr_code r = 410 /\ fw' = fw
     | Some face => cr_code r = 200 /\ fw_inv fw' /\ fib_ok (fw_tables fw') /\
         forall m g, hop_cost m g (fw_tables fw') = if bool_decide (m = n /\ g = face) then Some cost else hop_cost m g (fw_tables fw)
     end) /\
  (exists r fw', FibManager_removeNextHop tag c fw = Ok (r, fw') /\ cr_code r = 200 /\ fw_inv fw' /\ fib_ok (fw_tables fw') /\
     match getFace id fw with
     | None => fw' = fw
     | Some face => (forall x, fib_at n (fw_tables fw') = Some x -> fib_at n (fw_tables fw) <> None -> hasNextHops x = true) /\
         forall m g, hop_cost m g (fw_tables fw') = if bool_decide (m = n /\ g = face) then None else hop_cost m g (fw_tables fw)
     end).
Proof. intros Hi Hf Hs Hn Hg Hr Hid Hu Hc. split; [by apply (manager_add tag c n id)|by apply (manager_remove tag c n id)]. Qed.

Lemma get_choice n tb : nt_inv (tb_tree tb) -> gen_name n -> StrategyChoice_get n tb = strategy_at n tb.
Proof.
  intros Ht Hn. unfold StrategyChoice_get, strategy_at, data_at, payload_at. rewrite findExactMatch_deref by done. by destruct (deref n (tb_tree tb)).
Qed.

(** The strategy choice manager: [set] with a strategy that is not installed
    answers 504 and changes nothing; with one that is, it makes that strategy the
    choice of the name (or keeps an equal one), touches no other choice and
    answers 200 -- it never answers 405 and its assertion holds; [unset] removes
    the choice of the name and no other.  The forwarder's invariant is kept. *)
Theorem strategy_manager_correct c n s fw : fw_inv fw -> cp_small c -> cp_name c = Some n -> gen_name n -> room n (fw_tables fw) ->
  cp_strategy c = Some s -> (forall x, getStrategy s (fw_tables fw) = Some x \/ strategy_at n (fw_tables fw) = Some x -> name_small x) ->
  (exists r fw', StrategyChoiceManager_setStrategy c fw = Ok (r, fw') /\
     match getStrategy s (fw_tables fw) with
     | None => cr_code r = 504 /\ fw' = fw
     | Some st => cr_code r = 200 /\ fw_inv fw' /\
         (forall m, m <> n -> strategy_at m (fw_tables fw') = strategy_at m (fw_tables fw)) /\
         exists cur, strategy_at n (fw_tables fw') = Some cur /\ (cur = st \/ Name_equals cur st = true)
     end) /\
  (n <> [] -> exists r fw', StrategyChoiceManager_unsetStrategy c fw = Ok (r, fw') /\ cr_code r = 200 /\ fw_inv fw' /\
     forall m, strategy_at m (fw_tables fw') = if bool_decide (m = n) then None else strategy_at m (fw_tables fw)).
Proof.
  intros Hi Hs Hn Hg Hr Hst Hsmall. pose proof (pi_tree _ (fi_pit _ Hi)) as Ht. split.
  - unfold StrategyChoiceManager_setStrategy. rewrite Hn, Hst. cbn [cp_get rbind]. destruct (getStrategy s (fw_tables fw)) as [st|] eqn:Hget; [|eexists _, _; by split_and!].
    pose proof (fi_root _ Hi) as Hroot.
    destruct (StrategyChoice_insert_spec n s st (fw_tables fw) Ht Hg Hr Hroot Hget) as (tb&Hok&_). rewrite Hok. cbn [rbind].
    destruct (insert_choices n s st (fw_tables fw) tb Ht Hg Hr Hroot Hget Hok) as (Ht'&Hothers&_&Hnew).
    rewrite get_choice by done.
    assert (Hcur : exists cur, strategy_at n tb = Some cur /\ (cur = st \/ Name_equals cur st = true) /\ name_small cur).
    { destruct Hnew as [?|(old&Hold&?&?)]; [exists st|exists old]; split_and!; auto. }
    destruct Hcur as (cur&Hcur&Heq&Hsc). rewrite Hcur.
    destruct (respond_ok 200 text_OK (setStrategy cur c)) as (r&->&Hcode); [by destruct Hs; split|]. cbn [rbind].
    eexists _, _. split_and!; [done|done|by apply (inv_choose n s st)|done|by exists cur].
  - intros Hne. unfold StrategyChoiceManager_unsetStrategy. rewrite Hn. cbn [cp_get rbind]. pose proof (fi_root _ Hi) as Hroot.
    destruct (StrategyChoice_erase_spec n (fw_tables fw) Ht Hg Hne Hroot) as (tb&Hok&_). rewrite Hok. cbn [rbind].
    destruct (respond_ok 200 text_OK c Hs) as (r&->&Hcode). cbn [rbind].
    eexists _, _. split_and!; [done|done|by apply (inv_unchoose n)|]. by apply (erase_choices n (fw_tables fw) tb).
Qed.
(** ** From the RIB to the FIB *)

(** The parameters that the FIB updater of the RIB sends *)
Definition add_request n (faceId cost : Z) : ControlParameters := setCost cost (setFaceId faceId (setName n ControlParameters_new)).
Definition remove_request n (faceId : Z) : ControlParameters := setFaceId faceId (setName n ControlParameters_new).

(** C18. A next hop that the RIB sends to the forwarder arrives in the FIB.  For a face that
    the forwarder has (it answers 410 otherwise), with an identifier other than 0, and a name of
    generic components, short enough to encode and with room in the name tree: the command
    Interest built for it, once the authorization has accepted it, passes the dispatcher and
    the FIB manager, is answered with 200, and changes exactly the cost of that face under
    that name, to the new cost or to nothing. *)
Theorem fib_command_end_to_end prefix tag n id cost face fw : fw_inv fw -> fib_ok (fw_tables fw) ->
  name_small n -> gen_name n -> room n (fw_tables fw) -> uint64 id -> id <> 0 -> uint64 cost -> getFace id fw = Some face ->
  (exists q r fw', getRequestName FibAddNextHopCommand prefix (add_request n id cost) = Ok q /\
     (forall signature, processControlCommand true FibAddNextHopCommand prefix (FibManager_addNextHop tag) (q ++ signature) fw = Ok (Some r, fw')) /\
     cr_code r = 200 /\ fw_inv fw' /\ fib_ok (fw_tables fw') /\
     forall m g, hop_cost m g (fw_tables fw') = if bool_decide (m = n /\ g = face) then Some cost else hop_cost m g (fw_tables fw)) /\
  (exists q r fw', getRequestName FibRemoveNextHopCommand prefix (remove_request n id) = Ok q /\
     (forall signature, processControlCommand true FibRemoveNextHopCommand prefix (FibManager_removeNextHop tag) (q ++ signature) fw = Ok (Some r, fw')) /\
     cr_code r = 200 /\ fw_inv fw' /\ fib_ok (fw_tables fw') /\
     forall m g, hop_cost m g (fw_tables fw') = if bool_decide (m = n /\ g = face) then None else hop_cost m g (fw_tables fw)).
Proof.
  intros Hi Hf Hn Hg Hr Hid Hne Hc Hface. apply Z.eqb_neq in Hne. split.
  - set (c := add_request n id cost). assert (Hs : cp_small c) by (by split).
    destruct (command_delivered FibAddNextHopCommand prefix c (FibManager_addNextHop tag) fw (cp_small_ok c Hs) eq_refl eq_refl) as (q&w&Hq&Hd&_).
    assert (Hreq : requested_face tag (with_wire w c) = Some id) by (unfold requested_face; cbn; by rewrite Hne).
    destruct (manager_add tag (with_wire w c) n id cost fw Hi Hf ltac:(by destruct Hs; split) eq_refl Hg Hr Hreq Hid eq_refl) as (r&fw'&Hadd&Hres).
    rewrite Hface in Hres. destruct Hres as (Hcode&Hi'&Hf'&Hh). exists q, r, fw'. split_and!; [done| |done..]. intros sg. rewrite Hd.
    change (applyDefaultsToRequest FibAddNextHopCommand (with_wire w c)) with (with_wire w c). by rewrite Hadd.
  - set (c := remove_request n id). assert (Hs : cp_small c) by (by split).
    destruct (command_delivered FibRemoveNextHopCommand prefix c (FibManager_removeNextHop tag) fw (cp_small_ok c Hs) eq_refl eq_refl) as (q&w&Hq&Hd&_).
    assert (Hreq : requested_face tag (with_wire w c) = Some id) by (unfold requested_face; cbn; by rewrite Hne).
    destruct (manager_remove tag (with_wire w c) n id fw Hi Hf ltac:(by destruct Hs; split) eq_refl Hg Hreq Hid) as (r&fw'&Hrem&Hcode&Hi'&Hf'&Hres).
    rewrite Hface in Hres. destruct Hres as (_&Hh). exists q, r, fw'. split_and!; [done| |done..]. intros sg. rewrite Hd.
    change (applyDefaultsToRequest FibRemoveNextHopCommand (with_wire w c)) with (with_wire w c). by rewrite Hrem.
Qed.
End ManagerFacts.

Module ManagementSamples.
#[local] Existing Instance sample_sha256.
#[local] Existing Instance Samples.SampleHash.
#[local] Existing Instance DnlSamples.SeedHash.
#[local] Existing Instance InsertionSort.Sort.
#[local] Existing Instance ForwarderSamples.SampleRng.
Import StrategySamples PitSamples PitTableSamples ForwarderSamples.

Lemma inv_faced : fw_inv faced.
Proof. apply reachable_inv, reach_faced. Qed.
(** The FIB is empty. *)
Lemma fib_faced : fib_ok (fw_tables faced).
Proof.
  intros n e He. pose proof (pi_tree _ (fi_pit _ inv_faced)) as Ht. pose proof (fib_present n _ (ex_intro _ e He)) as [x Hx].
  pose proof Hx as (y&Hy&Hn&Hp)%payload_at_elem; [|apply Ht]. unfold fib_at, data_at in He. rewrite Hx in He. subst x. change (np_fib (nte_payload y) = Some e) in He.
  assert (Hall : forallb (fun y => negb (hasFibEntry (nte_payload y))) (entries (tb_tree (fw_tables faced))) = true) by (vm_compute; reflexivity).
  rewrite forallb_forall in Hall. specialize (Hall y (proj1 (list_elem_of_In _ _) Hy)). unfold hasFibEntry in Hall. by rewrite He in Hall.
Qed.
Lemma small_ab : name_small name_ab.
Proof. by_decide. Qed.
Lemma gen_ab : gen_name name_ab.
Proof. by_decide. Qed.
Lemma room_ab : room name_ab (fw_tables faced).
Proof. vm_compute. discriminate. Qed.
Lemma face_257 : getFace 257 faced = Some 2.
Proof. vm_compute. reflexivity. Qed.
Lemma uint64_257 : uint64 257.
Proof. by_decide. Qed.
Lemma uint64_10 : uint64 10.
Proof. by_decide. Qed.

Lemma fib_command_end_to_end_witness : exists q r fw',
  getRequestName FibAddNextHopCommand [] (add_request name_ab 257 10) = Ok q /\
  processControlCommand true FibAddNextHopCommand [] (FibManager_addNextHop None) q faced = Ok (Some r, fw') /\
  hop_cost name_ab 2 (fw_tables fw') = Some 10.
Proof.
  destruct (fib_command_end_to_end [] None name_ab 257 10 2 faced inv_faced fib_faced small_ab gen_ab room_ab uint64_257 ltac:(lia) uint64_10 face_257)
    as [(q&r&fw'&Hq&Hp&_&_&_&Hh) _]. exists q, r, fw'. split; [exact Hq|]. split; [specialize (Hp []); rewrite app_nil_r in Hp; exact Hp|].
  rewrite Hh. vm_compute. reflexivity.
Defined.

Lemma small_add : cp_small (add_request name_ab 257 10).
Proof. split; try done. exact small_ab. Qed.

Lemma fib_manager_correct_witness : exists r fw', FibManager_addNextHop None (add_request name_ab 257 10) faced = Ok (r, fw') /\
  cr_code r = 200 /\ hop_cost name_ab 2 (fw_tables fw') = Some 10.
Proof.
  destruct (fib_manager_correct None (add_request name_ab 257 10) name_ab 257 10 faced inv_faced fib_faced small_add eq_refl gen_ab room_ab
    eq_refl uint64_257 eq_refl) as [(r&fw'&Ha&Hres) _]. rewrite face_257 in Hres. destruct Hres as (Hc&_&_&Hh).
  exists r, fw'. split_and!; [exact Ha|exact Hc|]. rewrite Hh. vm_compute. reflexivity.
Defined.

Definition set_request : ControlParameters := setStrategy st1 (setName name_ab ControlParameters_new).
Lemma small_st1 : name_small st1.
Proof. by_decide. Qed.
Lemma small_set : cp_small set_request.
Proof. split; try done; [exact small_ab|exact small_st1]. Qed.
Lemma strategies_small x : getStrategy st1 (fw_tables faced) = Some x \/ strategy_at name_ab (fw_tables faced) = Some x -> name_small x.
Proof.
  intros [Hx|Hx]; [|vm_compute in Hx; discriminate Hx].
  replace (getStrategy st1 (fw_tables faced)) with (Some st1) in Hx by (vm_compute; reflexivity). injection Hx as <-. exact small_st1.
Qed.

Lemma strategy_manager_correct_witness : exists r fw', StrategyChoiceManager_setStrategy set_request faced = Ok (r, fw') /\ cr_code r = 200.
Proof.
  destruct (strategy_manager_correct set_request name_ab st1 faced inv_faced small_set eq_refl gen_ab room_ab eq_refl strategies_small)
    as [(r&fw'&Hs&Hres) _]. exists r, fw'. split; [exact Hs|].
  replace (getStrategy st1 (fw_tables faced)) with (Some st1) in Hres by (vm_compute; reflexivity). exact (proj1 Hres).
Defined.

Lemma control_command_delivered_witness : exists n w, getRequestName FibAddNextHopCommand [] (add_request name_ab 257 10) = Ok n /\
  forall signature, processControlCommand true FibAddNextHopCommand [] (FibManager_addNextHop None) (n ++ signature) faced =
    let! (response, s) := FibManager_addNextHop None (applyDefaultsToRequest FibAddNextHopCommand (with_wire w (add_request name_ab 257 10))) faced in
    Ok (Some response, s).
Proof.
  destruct (control_command_delivered FibAddNextHopCommand [] (add_request name_ab 257 10) (FibManager_addNextHop None) faced
    (cp_small_ok _ small_add) eq_refl eq_refl) as (n&w&Hn&Hp&_). exists n, w. split; [exact Hn|exact Hp].
Defined.

Definition response : ControlResponse := MkControlResponse 200 text_OK Block_empty.
Lemma response_ok : cr_ok response.
Proof. split; [by_decide|by_decide|done|by_decide]. Qed.
Lemma control_response_roundtrip_witness : exists b bytes b' r', ControlResponse_wireEncode response = Ok b /\ wire b = Ok bytes /\
  Block_of_buffer bytes = Ok b' /\ ControlResponse_wireDecode b' = Ok r' /\ cr_code r' = 200.
Proof.
  destruct (control_response_roundtrip response response_ok) as (b&bytes&b'&r'&H1&H2&H3&H4&H5&_).
  exists b, bytes, b', r'. split_and!; [exact H1|exact H2|exact H3|exact H4|exact H5].
Defined.
End ManagementSamples.
