(* ===== verification/Dataset.v ===== *)
(** * Status datasets: the records of [ndn-cxx/src/management]

    The items of the datasets that the managers publish, and the notifications
    of faces: [nfd-face-status.cpp], [nfd-forwarder-status.cpp],
    [nfd-channel-status.cpp], [nfd-fib-entry.cpp], [nfd-rib-entry.cpp],
    [nfd-strategy-choice.cpp], [nfd-face-event-notification.cpp] and
    [nfd-face-query-filter.cpp].  The classes have the same shape: fields, and
    the block of the last encoding or decoding; what is different is an instance
    of [WireCodec], and [CodecLaws] is what makes it correct. *)

From S2P Require Import Prelude StdMap Tlv Block Encoder Elements NameComponent Name KeyLocator Exclude MetaInfo Packet Link CsEntry.
From S2P Require Import LpPacket LinkService ControlParameters.

Module DatasetTlv.
Definition NfdVersion : Z := 128.
Definition StartTimestamp : Z := 129.
Definition CurrentTimestamp : Z := 130.
Definition NNameTreeEntries : Z := 131.
Definition NFibEntries : Z := 132.
Definition NPitEntries : Z := 133.
Definition NMeasurementsEntries : Z := 134.
Definition NCsEntries : Z := 135.
Definition FaceStatus : Z := 128.
Definition LocalUri : Z := 129.
Definition ChannelStatus : Z := 130.
Definition UriScheme : Z := 131.
Definition FaceScope : Z := 132.
Definition LinkType : Z := 134.
Definition FaceQueryFilter : Z := 150.
Definition FaceEventNotification : Z := 192.
Definition FaceEventKind : Z := 193.
Definition NInInterests : Z := 144.
Definition NInDatas : Z := 145.
Definition NOutInterests : Z := 146.
Definition NOutDatas : Z := 147.
Definition NInBytes : Z := 148.
Definition NOutBytes : Z := 149.
Definition NInNacks : Z := 151.
Definition NOutNacks : Z := 152.
Definition FibEntry : Z := 128.
Definition NextHopRecord : Z := 129.
Definition StrategyChoice : Z := 128.
Definition RibEntry : Z := 128.
Definition Route : Z := 129.
End DatasetTlv.

(** ** Objects with an encoding *)

(** The members of an object, and [m_wire] *)
Record Wired (A : Type) := MkWired { w_fields : A; w_wire : Block }.
Arguments MkWired {A}. Arguments w_fields {A}. Arguments w_wire {A}.

Definition wired_new {A} (a : A) : Wired A := MkWired a Block_empty.
(** A setter drops the encoding. *)
Definition set_with {A} (f : A -> A) (x : Wired A) : Wired A := MkWired (f (w_fields x)) (reset (w_wire x)).

(** What a class has of its own: its type, how it writes its value, and how it
    reads the elements of a block *)
Class WireCodec (A : Type) := {
  codec_type : Z;
  codec_value : A -> forall E : Set, EncodingImpl E -> state E Z;
  codec_read : list Block -> result A
}.

Section Codec.
Context {A : Type} `{WireCodec A}.

(** The template [wireEncode], which does not look at the block of the object *)
Definition wireEncode_into (a : A) {E} `{HE : EncodingImpl E} : state E Z :=
  let~ totalLength := codec_value a E HE in
  let~ l1 := prependVarNumber totalLength in
  let~ l2 := prependVarNumber codec_type in
  sret (totalLength + l1 + l2).

(** [wireEncode()]: the block, and the object, which keeps it *)
Definition wireEncode (x : Wired A) : result (Block * Wired A) :=
  if hasWire (w_wire x) then Ok (w_wire x, x)
  else
    let! b := Encoder.block true (twoPass (fun E _ => wireEncode_into (w_fields x))) in
    Ok (b, MkWired (w_fields x) b).

Definition wireDecode (block : Block) : result (Wired A) :=
  if negb (m_type block =? codec_type) then Err PacketError
  else
    let! w := Block_parse block in
    let! a := codec_read (m_subBlocks w) in
    Ok (MkWired a w).
End Codec.

(** A field that has to be there, and one that may be absent: the value, and what
    follows *)
Definition required {A} (type : Z) (f : Block -> result A) (val : list Block) : result (A * list Block) :=
  match peek type val with
  | Some (x, val) => let! a := f x in Ok (a, val)
  | None => Err PacketError
  end.
Definition optional {A} (type : Z) (f : Block -> result A) (val : list Block) : result (option A * list Block) :=
  match peek type val with
  | Some (x, val) => let! a := f x in Ok (Some a, val)
  | None => Ok (None, val)
  end.

(** Readers of a field: a number of 64 bits, of an [enum] over [uint8_t], a
    duration, and the characters of a string *)
Definition read_u64 (x : Block) : result Z := readNonNegativeIntegerBlock x.
Definition read_enum8 (x : Block) : result Z := let! n := readNonNegativeIntegerBlock x in Ok (n mod 256).
Definition read_enum32 (x : Block) : result Z := let! n := readNonNegativeIntegerBlock x in Ok (to_u32 n).
Definition read_s64 (x : Block) : result Z := let! n := readNonNegativeIntegerBlock x in Ok (to_s64 n).
Definition read_string (x : Block) : result (list Z) := Ok (value x).

(** ** The classes *)

(** The properties of a face, [FaceTraits] *)
Record FaceTraits := MkFaceTraits {
  ft_faceId : Z;
  ft_remoteUri : list Z;
  ft_localUri : list Z;
  ft_faceScope : Z;
  ft_facePersistency : Z;
  ft_linkType : Z
}.
Definition FaceTraits_new : FaceTraits := MkFaceTraits 0 [] [] 0 0 0.

(** [FaceStatus]; the expiration period is absent when [m_hasExpirationPeriod]
    is false. *)
Record FaceStatus := MkFaceStatus {
  fs_traits : FaceTraits;
  fs_expirationPeriod : option Z;
  fs_nInInterests : Z; fs_nInDatas : Z; fs_nInNacks : Z;
  fs_nOutInterests : Z; fs_nOutDatas : Z; fs_nOutNacks : Z;
  fs_nInBytes : Z; fs_nOutBytes : Z
}.
Definition FaceStatus_new : FaceStatus := MkFaceStatus FaceTraits_new None 0 0 0 0 0 0 0 0.

Definition FaceStatus_value (s : FaceStatus) E `{HE : EncodingImpl E} : state E Z :=
  let~ l1 := prependNonNegativeIntegerBlock DatasetTlv.NOutBytes (fs_nOutBytes s) in
  let~ l2 := prependNonNegativeIntegerBlock DatasetTlv.NInBytes (fs_nInBytes s) in
  let~ l3 := prependNonNegativeIntegerBlock DatasetTlv.NOutNacks (fs_nOutNacks s) in
  let~ l4 := prependNonNegativeIntegerBlock DatasetTlv.NOutDatas (fs_nOutDatas s) in
  let~ l5 := prependNonNegativeIntegerBlock DatasetTlv.NOutInterests (fs_nOutInterests s) in
  let~ l6 := prependNonNegativeIntegerBlock DatasetTlv.NInNacks (fs_nInNacks s) in
  let~ l7 := prependNonNegativeIntegerBlock DatasetTlv.NInDatas (fs_nInDatas s) in
  let~ l8 := prependNonNegativeIntegerBlock DatasetTlv.NInInterests (fs_nInInterests s) in
  let~ l9 := prependNonNegativeIntegerBlock DatasetTlv.LinkType (ft_linkType (fs_traits s)) in
  let~ l10 := prependNonNegativeIntegerBlock NfdTlv.FacePersistency (ft_facePersistency (fs_traits s)) in
  let~ l11 := prependNonNegativeIntegerBlock DatasetTlv.FaceScope (ft_faceScope (fs_traits s)) in
  let~ l12 := prependField (fs_expirationPeriod s) (fun n => prependNonNegativeIntegerBlock NfdTlv.ExpirationPeriod (to_u64 n)) in
  let~ l13 := prependByteArrayBlock DatasetTlv.LocalUri (ft_localUri (fs_traits s)) in
  let~ l14 := prependByteArrayBlock NfdTlv.Uri (ft_remoteUri (fs_traits s)) in
  let~ l15 := prependNonNegativeIntegerBlock NfdTlv.FaceId (ft_faceId (fs_traits s)) in
  sret (l1 + l2 + l3 + l4 + l5 + l6 + l7 + l8 + l9 + l10 + l11 + l12 + l13 + l14 + l15).

Definition FaceStatus_read (val : list Block) : result FaceStatus :=
  let! (faceId, val) := required NfdTlv.FaceId read_u64 val in
  let! (remoteUri, val) := required NfdTlv.Uri read_string val in
  let! (localUri, val) := required DatasetTlv.LocalUri read_string val in
  let! (expirationPeriod, val) := optional NfdTlv.ExpirationPeriod read_s64 val in
  let! (faceScope, val) := required DatasetTlv.FaceScope read_enum8 val in
  let! (facePersistency, val) := required NfdTlv.FacePersistency read_enum8 val in
  let! (linkType, val) := required DatasetTlv.LinkType read_enum8 val in
  let! (nInInterests, val) := required DatasetTlv.NInInterests read_u64 val in
  let! (nInDatas, val) := required DatasetTlv.NInDatas read_u64 val in
  let! (nInNacks, val) := required DatasetTlv.NInNacks read_u64 val in
  let! (nOutInterests, val) := required DatasetTlv.NOutInterests read_u64 val in
  let! (nOutDatas, val) := required DatasetTlv.NOutDatas read_u64 val in
  let! (nOutNacks, val) := required DatasetTlv.NOutNacks read_u64 val in
  let! (nInBytes, val) := required DatasetTlv.NInBytes read_u64 val in
  let! (nOutBytes, val) := required DatasetTlv.NOutBytes read_u64 val in
  Ok (MkFaceStatus (MkFaceTraits faceId remoteUri localUri faceScope facePersistency linkType) expirationPeriod
        nInInterests nInDatas nInNacks nOutInterests nOutDatas nOutNacks nInBytes nOutBytes).

#[global] Instance FaceStatus_codec : WireCodec FaceStatus :=
  { codec_type := DatasetTlv.FaceStatus; codec_value s E _ := FaceStatus_value s E; codec_read := FaceStatus_read }.

(** [ForwarderStatus]; time points are nanoseconds since the Unix epoch. *)
Record ForwarderStatus := MkForwarderStatus {
  gs_nfdVersion : list Z;
  gs_startTimestamp : Z; gs_currentTimestamp : Z;
  gs_nNameTreeEntries : Z; gs_nFibEntries : Z; gs_nPitEntries : Z; gs_nMeasurementsEntries : Z; gs_nCsEntries : Z;
  gs_nInInterests : Z; gs_nInDatas : Z; gs_nInNacks : Z;
  gs_nOutInterests : Z; gs_nOutDatas : Z; gs_nOutNacks : Z
}.
(** [time::toUnixTimestamp], in milliseconds, and its inverse *)
Definition toUnixTimestamp (point : Z) : Z := Z.quot point 1000000.
Definition fromUnixTimestamp (duration : Z) : Z := to_s64 (duration * 1000000).
Definition read_timestamp (x : Block) : result Z := let! n := read_s64 x in Ok (fromUnixTimestamp n).

Definition ForwarderStatus_value (s : ForwarderStatus) E `{HE : EncodingImpl E} : state E Z :=
  let~ l1 := prependNonNegativeIntegerBlock DatasetTlv.NOutNacks (gs_nOutNacks s) in
  let~ l2 := prependNonNegativeIntegerBlock DatasetTlv.NOutDatas (gs_nOutDatas s) in
  let~ l3 := prependNonNegativeIntegerBlock DatasetTlv.NOutInterests (gs_nOutInterests s) in
  let~ l4 := prependNonNegativeIntegerBlock DatasetTlv.NInNacks (gs_nInNacks s) in
  let~ l5 := prependNonNegativeIntegerBlock DatasetTlv.NInDatas (gs_nInDatas s) in
  let~ l6 := prependNonNegativeIntegerBlock DatasetTlv.NInInterests (gs_nInInterests s) in
  let~ l7 := prependNonNegativeIntegerBlock DatasetTlv.NCsEntries (gs_nCsEntries s) in
  let~ l8 := prependNonNegativeIntegerBlock DatasetTlv.NMeasurementsEntries (gs_nMeasurementsEntries s) in
  let~ l9 := prependNonNegativeIntegerBlock DatasetTlv.NPitEntries (gs_nPitEntries s) in
  let~ l10 := prependNonNegativeIntegerBlock DatasetTlv.NFibEntries (gs_nFibEntries s) in
  let~ l11 := prependNonNegativeIntegerBlock DatasetTlv.NNameTreeEntries (gs_nNameTreeEntries s) in
  let~ l12 := prependNonNegativeIntegerBlock DatasetTlv.CurrentTimestamp (to_u64 (toUnixTimestamp (gs_currentTimestamp s))) in
  let~ l13 := prependNonNegativeIntegerBlock DatasetTlv.StartTimestamp (to_u64 (toUnixTimestamp (gs_startTimestamp s))) in
  let~ l14 := prependByteArrayBlock DatasetTlv.NfdVersion (gs_nfdVersion s) in
  sret (l1 + l2 + l3 + l4 + l5 + l6 + l7 + l8 + l9 + l10 + l11 + l12 + l13 + l14).

Definition ForwarderStatus_read (val : list Block) : result ForwarderStatus :=
  let! (nfdVersion, val) := required DatasetTlv.NfdVersion read_string val in
  let! (startTimestamp, val) := required DatasetTlv.StartTimestamp read_timestamp val in
  let! (currentTimestamp, val) := required DatasetTlv.CurrentTimestamp read_timestamp val in
  let! (nNameTreeEntries, val) := required DatasetTlv.NNameTreeEntries read_u64 val in
  let! (nFibEntries, val) := required DatasetTlv.NFibEntries read_u64 val in
  let! (nPitEntries, val) := required DatasetTlv.NPitEntries read_u64 val in
  let! (nMeasurementsEntries, val) := required DatasetTlv.NMeasurementsEntries read_u64 val in
  let! (nCsEntries, val) := required DatasetTlv.NCsEntries read_u64 val in
  let! (nInInterests, val) := required DatasetTlv.NInInterests read_u64 val in
  let! (nInDatas, val) := required DatasetTlv.NInDatas read_u64 val in
  let! (nInNacks, val) := required DatasetTlv.NInNacks read_u64 val in
  let! (nOutInterests, val) := required DatasetTlv.NOutInterests read_u64 val in
  let! (nOutDatas, val) := required DatasetTlv.NOutDatas read_u64 val in
  let! (nOutNacks, val) := required DatasetTlv.NOutNacks read_u64 val in
  Ok (MkForwarderStatus nfdVersion startTimestamp currentTimestamp nNameTreeEntries nFibEntries nPitEntries nMeasurementsEntries nCsEntries
        nInInterests nInDatas nInNacks nOutInterests nOutDatas nOutNacks).

#[global] Instance ForwarderStatus_codec : WireCodec ForwarderStatus :=
  { codec_type := TlvType.Content; codec_value s E _ := ForwarderStatus_value s E; codec_read := ForwarderStatus_read }.

(** [ChannelStatus] *)
Record ChannelStatus := MkChannelStatus { cst_localUri : list Z }.
#[global] Instance ChannelStatus_codec : WireCodec ChannelStatus :=
  { codec_type := DatasetTlv.ChannelStatus;
    codec_value s E _ := prependByteArrayBlock DatasetTlv.LocalUri (cst_localUri s);
    codec_read val := let! (localUri, _) := required DatasetTlv.LocalUri read_string val in Ok (MkChannelStatus localUri) }.

(** [FaceEventNotification] *)
Record FaceEventNotification := MkFaceEventNotification { fen_kind : Z; fen_traits : FaceTraits }.
Definition FaceEventNotification_new : FaceEventNotification := MkFaceEventNotification 0 FaceTraits_new.
Definition FACE_EVENT_CREATED : Z := 1.
Definition FACE_EVENT_DESTROYED : Z := 2.

Definition FaceEventNotification_value (s : FaceEventNotification) E `{HE : EncodingImpl E} : state E Z :=
  let~ l1 := prependNonNegativeIntegerBlock DatasetTlv.LinkType (ft_linkType (fen_traits s)) in
  let~ l2 := prependNonNegativeIntegerBlock NfdTlv.FacePersistency (ft_facePersistency (fen_traits s)) in
  let~ l3 := prependNonNegativeIntegerBlock DatasetTlv.FaceScope (ft_faceScope (fen_traits s)) in
  let~ l4 := prependByteArrayBlock DatasetTlv.LocalUri (ft_localUri (fen_traits s)) in
  let~ l5 := prependByteArrayBlock NfdTlv.Uri (ft_remoteUri (fen_traits s)) in
  let~ l6 := prependNonNegativeIntegerBlock NfdTlv.FaceId (ft_faceId (fen_traits s)) in
  let~ l7 := prependNonNegativeIntegerBlock DatasetTlv.FaceEventKind (fen_kind s) in
  sret (l1 + l2 + l3 + l4 + l5 + l6 + l7).

Definition FaceEventNotification_read (val : list Block) : result FaceEventNotification :=
  let! (kind, val) := required DatasetTlv.FaceEventKind read_enum32 val in
  let! (faceId, val) := required NfdTlv.FaceId read_u64 val in
  let! (remoteUri, val) := required NfdTlv.Uri read_string val in
  let! (localUri, val) := required DatasetTlv.LocalUri read_string val in
  let! (faceScope, val) := required DatasetTlv.FaceScope read_enum8 val in
  let! (facePersistency, val) := required NfdTlv.FacePersistency read_enum8 val in
  let! (linkType, val) := required DatasetTlv.LinkType read_enum8 val in
  Ok (MkFaceEventNotification kind (MkFaceTraits faceId remoteUri localUri faceScope facePersistency linkType)).

#[global] Instance FaceEventNotification_codec : WireCodec FaceEventNotification :=
  { codec_type := DatasetTlv.FaceEventNotification; codec_value s E _ := FaceEventNotification_value s E; codec_read := FaceEventNotification_read }.

(** [FaceQueryFilter]: a condition is absent when its flag is false. *)
Record FaceQueryFilter := MkFaceQueryFilter {
  fq_faceId : option Z;
  fq_uriScheme : option (list Z);
  fq_remoteUri : option (list Z);
  fq_localUri : option (list Z);
  fq_faceScope : option Z;
  fq_facePersistency : option Z;
  fq_linkType : option Z
}.
Definition FaceQueryFilter_new : FaceQueryFilter := MkFaceQueryFilter None None None None None None None.

Definition FaceQueryFilter_value (s : FaceQueryFilter) E `{HE : EncodingImpl E} : state E Z :=
  let~ l1 := prependField (fq_linkType s) (prependNonNegativeIntegerBlock DatasetTlv.LinkType) in
  let~ l2 := prependField (fq_facePersistency s) (prependNonNegativeIntegerBlock NfdTlv.FacePersistency) in
  let~ l3 := prependField (fq_faceScope s) (prependNonNegativeIntegerBlock DatasetTlv.FaceScope) in
  let~ l4 := prependField (fq_localUri s) (prependByteArrayBlock DatasetTlv.LocalUri) in
  let~ l5 := prependField (fq_remoteUri s) (prependByteArrayBlock NfdTlv.Uri) in
  let~ l6 := prependField (fq_uriScheme s) (prependByteArrayBlock DatasetTlv.UriScheme) in
  let~ l7 := prependField (fq_faceId s) (prependNonNegativeIntegerBlock NfdTlv.FaceId) in
  sret (l1 + l2 + l3 + l4 + l5 + l6 + l7).

Definition FaceQueryFilter_read (val : list Block) : result FaceQueryFilter :=
  let! (faceId, val) := optional NfdTlv.FaceId read_u64 val in
  let! (uriScheme, val) := optional DatasetTlv.UriScheme read_string val in
  let! (remoteUri, val) := optional NfdTlv.Uri read_string val in
  let! (localUri, val) := optional DatasetTlv.LocalUri read_string val in
  let! (faceScope, val) := optional DatasetTlv.FaceScope read_enum8 val in
  let! (facePersistency, val) := optional NfdTlv.FacePersistency read_enum8 val in
  let! (linkType, val) := optional DatasetTlv.LinkType read_enum8 val in
  Ok (MkFaceQueryFilter faceId uriScheme remoteUri localUri faceScope facePersistency linkType).

#[global] Instance FaceQueryFilter_codec : WireCodec FaceQueryFilter :=
  { codec_type := DatasetTlv.FaceQueryFilter; codec_value s E _ := FaceQueryFilter_value s E; codec_read := FaceQueryFilter_read }.

(** [NextHopRecord] *)
Record NextHopRecord := MkNextHopRecord { nhr_faceId : Z; nhr_cost : Z }.
Definition NextHopRecord_value (s : NextHopRecord) E `{HE : EncodingImpl E} : state E Z :=
  let~ l1 := prependNonNegativeIntegerBlock NfdTlv.Cost (nhr_cost s) in
  let~ l2 := prependNonNegativeIntegerBlock NfdTlv.FaceId (nhr_faceId s) in
  sret (l1 + l2).
#[global] Instance NextHopRecord_codec : WireCodec NextHopRecord :=
  { codec_type := DatasetTlv.NextHopRecord; codec_value s E _ := NextHopRecord_value s E;
    codec_read val :=
      let! (faceId, val) := required NfdTlv.FaceId read_u64 val in
      let! (cost, _) := required NfdTlv.Cost read_u64 val in
      Ok (MkNextHopRecord faceId cost) }.

(** [Route]; the period is absent when it is infinite. *)
Record DatasetRoute := MkDatasetRoute {
  dr_faceId : Z; dr_origin : Z; dr_cost : Z; dr_flags : Z; dr_expirationPeriod : option Z
}.
Definition DatasetRoute_new : DatasetRoute := MkDatasetRoute 0 0 0 1 None.
Definition INFINITE_EXPIRATION_PERIOD : Z := 2 ^ 63 - 1.
Definition setRouteExpiration (period : Z) (r : DatasetRoute) : DatasetRoute :=
  MkDatasetRoute (dr_faceId r) (dr_origin r) (dr_cost r) (dr_flags r) (if period =? INFINITE_EXPIRATION_PERIOD then None else Some period).

Definition DatasetRoute_value (s : DatasetRoute) E `{HE : EncodingImpl E} : state E Z :=
  let~ l1 := prependField (dr_expirationPeriod s) (fun n => prependNonNegativeIntegerBlock NfdTlv.ExpirationPeriod (to_u64 n)) in
  let~ l2 := prependNonNegativeIntegerBlock NfdTlv.Flags (dr_flags s) in
  let~ l3 := prependNonNegativeIntegerBlock NfdTlv.Cost (dr_cost s) in
  let~ l4 := prependNonNegativeIntegerBlock NfdTlv.Origin (dr_origin s) in
  let~ l5 := prependNonNegativeIntegerBlock NfdTlv.FaceId (dr_faceId s) in
  sret (l1 + l2 + l3 + l4 + l5).
Definition DatasetRoute_read (val : list Block) : result DatasetRoute :=
  let! (faceId, val) := required NfdTlv.FaceId read_u64 val in
  let! (origin, val) := required NfdTlv.Origin read_u64 val in
  let! (cost, val) := required NfdTlv.Cost read_u64 val in
  let! (flags, val) := required NfdTlv.Flags read_u64 val in
  let! (expirationPeriod, val) := optional NfdTlv.ExpirationPeriod read_s64 val in
  Ok (MkDatasetRoute faceId origin cost flags expirationPeriod).
#[global] Instance DatasetRoute_codec : WireCodec DatasetRoute :=
  { codec_type := DatasetTlv.Route; codec_value s E _ := DatasetRoute_value s E; codec_read := DatasetRoute_read }.

(** The loops over the items of an entry: they are written in reverse order, and
    read until the end. *)
Fixpoint prependItems {A} `{WireCodec A} (l : list (Wired A)) (totalLength : Z) {E} `{HE : EncodingImpl E} : state E Z :=
  match l with
  | [] => sret totalLength
  | x :: l => let~ k := wireEncode_into (w_fields x) in prependItems l (totalLength + k)
  end.
Fixpoint readItems {A} `{WireCodec A} (val : list Block) : result (list (Wired A)) :=
  match val with
  | [] => Ok []
  | x :: val =>
      if negb (m_type x =? codec_type) then Err PacketError
      else let! a := wireDecode x in let! l := readItems val in Ok (a :: l)
  end.

(** [FibEntry] and [RibEntry]: a name and its items *)
Record NamedEntry (A : Type) := MkNamedEntry { ne_prefix : Name; ne_items : list (Wired A) }.
Arguments MkNamedEntry {A}. Arguments ne_prefix {A}. Arguments ne_items {A}.

Definition NamedEntry_value {A} `{WireCodec A} (s : NamedEntry A) E `{HE : EncodingImpl E} : state E Z :=
  let~ l1 := prependItems (rev (ne_items s)) 0 in
  let~ l2 := Name_wireEncode (ne_prefix s) in
  sret (l1 + l2).
Definition NamedEntry_read {A} `{WireCodec A} (val : list Block) : result (NamedEntry A) :=
  let! (prefix, val) := required TlvType.Name Name_wireDecode val in
  let! items := readItems val in
  Ok (MkNamedEntry prefix items).

Definition DatasetFibEntry : Type := NamedEntry NextHopRecord.
Definition DatasetRibEntry : Type := NamedEntry DatasetRoute.
#[global] Instance FibEntry_codec : WireCodec DatasetFibEntry :=
  { codec_type := DatasetTlv.FibEntry; codec_value s E _ := NamedEntry_value s E; codec_read := NamedEntry_read }.
#[global] Instance RibEntry_codec : WireCodec DatasetRibEntry :=
  { codec_type := DatasetTlv.RibEntry; codec_value s E _ := NamedEntry_value s E; codec_read := NamedEntry_read }.

Definition addItem {A} (x : Wired A) (e : NamedEntry A) : NamedEntry A := MkNamedEntry (ne_prefix e) (ne_items e ++ [x]).
Definition setPrefix {A} (n : Name) (e : NamedEntry A) : NamedEntry A := MkNamedEntry n (ne_items e).

(** [RibEntry::clearRoutes] leaves the encoding. *)
Definition clearRoutes (x : Wired DatasetRibEntry) : Wired DatasetRibEntry := MkWired (MkNamedEntry (ne_prefix (w_fields x)) []) (w_wire x).

(** [StrategyChoice] *)
Record StrategyChoiceEntry := MkStrategyChoiceEntry { sce_name : Name; sce_strategy : Name }.
Definition StrategyChoiceEntry_value (s : StrategyChoiceEntry) E `{HE : EncodingImpl E} : state E Z :=
  let~ l1 := prependNestedName NfdTlv.Strategy (sce_strategy s) in
  let~ l2 := Name_wireEncode (sce_name s) in
  sret (l1 + l2).
#[global] Instance StrategyChoice_codec : WireCodec StrategyChoiceEntry :=
  { codec_type := DatasetTlv.StrategyChoice; codec_value s E _ := StrategyChoiceEntry_value s E;
    codec_read val :=
      let! (n, val) := required TlvType.Name Name_wireDecode val in
      let! (strategy, _) := required NfdTlv.Strategy read_strategy val in
      Ok (MkStrategyChoiceEntry n strategy) }.

(** ** The laws of a codec *)

(** What makes a class correct: it writes its elements, and reads them back as
    the same fields.  The laws are for the proofs only: no definition that models
    the code uses them, and every class of the file has them as an instance,
    proved below for its own [codec_value] and [codec_read]. *)
Class CodecLaws (A : Type) `{WireCodec A} := {
  codec_elements : A -> list (Z * list Z);
  codec_ok : A -> Prop;
  codec_same : A -> A -> Prop;
  codec_type_ok : 0 <= codec_type < U32;
  codec_encodes a : codec_ok a -> Encodes (fun E HE => codec_value a E HE) (len (wires (codec_elements a))) (wires (codec_elements a));
  codec_wf a : codec_ok a -> wf_fields (codec_elements a) /\ len (wires (codec_elements a)) < U64;
  codec_reads a l : codec_ok a -> Forall2 elem_ok l (codec_elements a) -> exists a', codec_read l = Ok a' /\ codec_same a a';
  codec_again a a' : codec_same a a' -> codec_elements a' = codec_elements a
}.

Section CodecFacts.
Context {A : Type} `{CodecLaws A}.
Implicit Types (a : A) (x : Wired A).

(** The bytes of an item *)
Definition item_bytes a : list Z := tlv_wire codec_type (wires (codec_elements a)).

Lemma Encodes_item a : codec_ok a -> Encodes (fun E HE => wireEncode_into a) (len (item_bytes a)) (item_bytes a).
Proof. intros Ha. unfold wireEncode_into, item_bytes. apply Encodes_header. by apply codec_encodes. Qed.

Lemma item_value_ok a : codec_ok a -> wf_element (codec_type, wires (codec_elements a)) /\ wf_bytes (wires (codec_elements a)).
Proof. intros Ha. destruct (codec_wf a Ha) as [Hf Hl]. split; [by split; [apply codec_type_ok|]|by apply wf_fields_bytes]. Qed.

Lemma wireEncode_ok x : codec_ok (w_fields x) -> hasWire (w_wire x) = false ->
  exists b, wireEncode x = Ok (b, MkWired (w_fields x) b) /\ built b codec_type (wires (codec_elements (w_fields x))).
Proof.
  intros Ha Hw. unfold wireEncode. rewrite Hw. destruct (item_value_ok _ Ha) as [He _].
  destruct (Encodes_block _ _ _ (Encodes_item (w_fields x) Ha) He) as (b&Hb&Hbu). exists b. split; [by rewrite Hb|done].
Qed.

Lemma wireDecode_ok a b : codec_ok a -> elem_ok b (codec_type, wires (codec_elements a)) ->
  exists x, wireDecode b = Ok x /\ codec_same a (w_fields x) /\ wire (w_wire x) = Ok (item_bytes a).
Proof.
  intros Ha Hb. unfold wireDecode. rewrite (elem_ok_type _ _ Hb), Z.eqb_refl. cbn [negb fst].
  destruct (codec_wf a Ha) as [Hf _]. destruct (Block_parse_value b (codec_elements a) (ek_wf _ _ Hb) (ek_sub _ _ Hb)) as (l&->&H2);
    [by rewrite (elem_ok_value _ _ Hb)|done|]. cbn [rbind set_subBlocks m_subBlocks].
  destruct (codec_reads a l Ha H2) as (a'&->&Hs). cbn [rbind]. eexists. split; [done|]. split; [done|]. apply (ek_wire _ _ Hb).
Qed.
End CodecFacts.

(** Encoding and decoding an object: the bytes it is encoded to are read back as
    an object with the same fields, which keeps those bytes as its encoding, and
    encoding the first object again gives the same block. *)
Definition roundtrips {A} `{WireCodec A} (same : A -> A -> Prop) (x : Wired A) : Prop :=
  exists bytes b x' r y, wireEncode x = Ok (b, x') /\ wire b = Ok bytes /\ Block_of_buffer bytes = Ok r /\
    wireDecode r = Ok y /\ same (w_fields x) (w_fields y) /\ wire (w_wire y) = Ok bytes /\ wireEncode x' = Ok (b, x').

(** Every class with the laws does. *)
Lemma codec_roundtrip {A} `{CodecLaws A} (x : Wired A) : codec_ok (w_fields x) -> hasWire (w_wire x) = false -> roundtrips codec_same x.
Proof.
  intros Ha Hw. destruct (wireEncode_ok x Ha Hw) as (b&Hb&Hbu). destruct (item_value_ok _ Ha) as [He Hbytes].
  destruct (Block_of_buffer_built _ _ He) as (r&Hr&Hru).
  destruct (wireDecode_ok (w_fields x) r Ha (built_elem_ok _ _ _ Hru Hbytes)) as (y&Hy&Hs&Hwy).
  exists (item_bytes (w_fields x)), b, (MkWired (w_fields x) b), r, y. split_and!; try done; [apply Hbu|].
  unfold wireEncode. cbn [w_wire]. by rewrite (wire_hasWire b _ (built_wire _ _ _ Hbu)).
Qed.

(** ** Fields *)

Lemma required_front {A} t v (f : Block -> result A) a l es : Forall2 elem_ok l ((t, v) :: es) -> (forall x, elem_ok x (t, v) -> f x = Ok a) ->
  exists l', required t f l = Ok (a, l') /\ Forall2 elem_ok l' es.
Proof.
  intros H2 Hf. destruct l as [|b l]; [by inversion H2|]. apply Forall2_cons in H2 as [Hb H2]. exists l. split; [|done].
  unfold required. cbn [peek]. by rewrite (elem_ok_type _ _ Hb), Z.eqb_refl, (Hf b Hb).
Qed.

Lemma optional_front {A} t (enc : A -> list Z) o (f : Block -> result A) l es : Forall2 elem_ok l (field t enc o ++ es) ->
  Forall (fun x => x.1 <> t) es -> (forall a x, o = Some a -> elem_ok x (t, enc a) -> f x = Ok a) ->
  exists l', optional t f l = Ok (o, l') /\ Forall2 elem_ok l' es.
Proof.
  intros H2 Hn Hf. unfold optional. destruct o as [a|]; cbn [field app] in H2.
  - destruct l as [|b l]; [by inversion H2|]. apply Forall2_cons in H2 as [Hb H2]. exists l. split; [|done].
    cbn [peek]. by rewrite (elem_ok_type _ _ Hb), Z.eqb_refl, (Hf a b).
  - exists l. split; [|done]. by rewrite (peek_other t l es).
Qed.

Lemma read_u64_elem x t n : uint64 n -> elem_ok x (t, encoderIntegerBytes n) -> read_u64 x = Ok n.
Proof. intros Hn Hx. by apply (read_integer_elem x t). Qed.
Definition uint8 (n : Z) : Prop := 0 <= n < 256.
Lemma read_enum8_elem x t n : uint8 n -> elem_ok x (t, encoderIntegerBytes n) -> read_enum8 x = Ok n.
Proof. intros Hn Hx. unfold read_enum8, uint8 in *. rewrite (read_integer_elem x t n Hx) by width_lia. cbn [rbind]. by rewrite Z.mod_small. Qed.
Lemma read_enum32_elem x t n : uint32 n -> elem_ok x (t, encoderIntegerBytes n) -> read_enum32 x = Ok n.
Proof.
  intros Hn Hx. unfold read_enum32, uint32 in *. rewrite (read_integer_elem x t n Hx) by width_lia. cbn [rbind]. unfold to_u32. by rewrite Z.mod_small.
Qed.
Definition sint64 (n : Z) : Prop := - 2 ^ 63 <= n < 2 ^ 63.
Lemma read_s64_elem x t n : sint64 n -> elem_ok x (t, encoderIntegerBytes (to_u64 n)) -> read_s64 x = Ok n.
Proof.
  intros Hn Hx. unfold read_s64. rewrite (read_integer_elem x t _ Hx) by by apply Z.mod_pos_bound. cbn [rbind]. by rewrite to_s64_u64.
Qed.
Lemma read_string_elem x t v : elem_ok x (t, v) -> read_string x = Ok v.
Proof. intros Hx. unfold read_string. by rewrite (elem_ok_value _ _ Hx). Qed.

(** The fields that may be absent, as they are encoded *)
Lemma Encodes_int_field t o : Encodes (fun E _ => prependField o (prependNonNegativeIntegerBlock t))
  (len (wires (field t encoderIntegerBytes o))) (wires (field t encoderIntegerBytes o)).
Proof. apply Encodes_field. intros a _. apply Encodes_IntegerBlock. Qed.
Lemma Encodes_s64_field t o : Encodes (fun E _ => prependField o (fun n => prependNonNegativeIntegerBlock t (to_u64 n)))
  (len (wires (field t (fun n => encoderIntegerBytes (to_u64 n)) o))) (wires (field t (fun n => encoderIntegerBytes (to_u64 n)) o)).
Proof. apply (Encodes_field t (fun n => encoderIntegerBytes (to_u64 n)) o (fun E _ n => prependNonNegativeIntegerBlock t (to_u64 n))). intros a _. apply Encodes_IntegerBlock. Qed.
Lemma Encodes_string_field t o : Encodes (fun E _ => prependField o (prependByteArrayBlock t)) (len (wires (field t (fun u => u) o))) (wires (field t (fun u => u) o)).
Proof. apply (Encodes_field t (fun u => u) o (fun E _ => prependByteArrayBlock t)). intros a _. apply Encodes_ByteArrayBlock. Qed.
Lemma Encodes_nested_name t n : Encodes (fun E _ => prependNestedName t n) (len (tlv_wire t (tlv_wire TlvType.Name (name_value n)))) (tlv_wire t (tlv_wire TlvType.Name (name_value n))).
Proof. unfold prependNestedName. apply Encodes_header, Encodes_Name. Qed.

Lemma Encodes_name_value n : Encodes (fun E _ => Name_wireEncode n) (len (tlv_wire TlvType.Name (name_value n))) (tlv_wire TlvType.Name (name_value n)).
Proof. apply Encodes_Name. Qed.

(** One part after the other, from the last; then the lengths and the bytes *)
Ltac encode_parts := repeat first
  [ apply Encodes_ret
  | eapply Encodes_bind; [first [apply Encodes_IntegerBlock | apply Encodes_ByteArrayBlock | apply Encodes_int_field | apply Encodes_s64_field
      | apply Encodes_string_field | apply Encodes_nested_name | apply Encodes_name_value]|] ].
Ltac encode_fields elements := unfold elements; eapply Encodes_eq; [encode_parts| |];
  [rewrite ?wires_app, ?wires_cons, ?wires_app, ?wires_cons, ?wires_nil, ?len_app, ?len_nil; lia
  |rewrite ?wires_app, ?wires_cons, ?wires_app, ?wires_cons, ?wires_nil; cbn [app]; rewrite <- ?app_assoc, ?app_nil_r; reflexivity].

(** The readers of the fields, on elements that hold a value in range *)
Section Readers.
Context (t : Z) (l : list Block) (es : list (Z * list Z)).

Definition reads {A} (f : list Block -> result (A * list Block)) (a : A) : Prop := exists l', f l = Ok (a, l') /\ Forall2 elem_ok l' es.

Lemma required_u64 n : Forall2 elem_ok l ((t, encoderIntegerBytes n) :: es) -> uint64 n -> reads (required t read_u64) n.
Proof. intros H2 Hn. apply (required_front t _ read_u64 n l es H2). intros x. by apply read_u64_elem. Qed.
Lemma required_enum8 n : Forall2 elem_ok l ((t, encoderIntegerBytes n) :: es) -> uint8 n -> reads (required t read_enum8) n.
Proof. intros H2 Hn. apply (required_front t _ read_enum8 n l es H2). intros x. by apply read_enum8_elem. Qed.
Lemma required_enum32 n : Forall2 elem_ok l ((t, encoderIntegerBytes n) :: es) -> uint32 n -> reads (required t read_enum32) n.
Proof. intros H2 Hn. apply (required_front t _ read_enum32 n l es H2). intros x. by apply read_enum32_elem. Qed.
Lemma required_string v : Forall2 elem_ok l ((t, v) :: es) -> reads (required t read_string) v.
Proof. intros H2. apply (required_front t _ read_string v l es H2). intros x. by apply read_string_elem. Qed.
Lemma required_name n : Forall2 elem_ok l ((t, name_value n) :: es) -> t = TlvType.Name -> name_ok n -> reads (required t Name_wireDecode) n.
Proof. intros H2 -> Hn. apply (required_front _ _ Name_wireDecode n l es H2). intros x Hx. by apply Name_decode_elem. Qed.
Lemma optional_u64 o : Forall2 elem_ok l (field t encoderIntegerBytes o ++ es) -> option_ok uint64 o -> Forall (fun x => x.1 <> t) es -> reads (optional t read_u64) o.
Proof. intros H2 Ho Hn. apply (optional_front t encoderIntegerBytes o read_u64 l es H2 Hn). intros a x ->. by apply read_u64_elem. Qed.
Lemma optional_enum8 o : Forall2 elem_ok l (field t encoderIntegerBytes o ++ es) -> option_ok uint8 o -> Forall (fun x => x.1 <> t) es -> reads (optional t read_enum8) o.
Proof. intros H2 Ho Hn. apply (optional_front t encoderIntegerBytes o read_enum8 l es H2 Hn). intros a x ->. by apply read_enum8_elem. Qed.
Lemma optional_s64 o : Forall2 elem_ok l (field t (fun n => encoderIntegerBytes (to_u64 n)) o ++ es) -> option_ok sint64 o -> Forall (fun x => x.1 <> t) es ->
  reads (optional t read_s64) o.
Proof. intros H2 Ho Hn. apply (optional_front t (fun n => encoderIntegerBytes (to_u64 n)) o read_s64 l es H2 Hn). intros a x ->. by apply read_s64_elem. Qed.
Lemma optional_string o : Forall2 elem_ok l (field t (fun u => u) o ++ es) -> Forall (fun x => x.1 <> t) es -> reads (optional t read_string) o.
Proof. intros H2 Hn. apply (optional_front t (fun u => u) o read_string l es H2 Hn). intros a x _. by apply read_string_elem. Qed.
End Readers.

Lemma Forall_field {A} t u (enc : A -> list Z) o : u <> t -> Forall (fun x => x.1 <> t) (field u enc o).
Proof. intros Hne. destruct o; repeat constructor. done. Qed.
Lemma Forall_nil_2 {A} (P : A -> Prop) : Forall P [].
Proof. constructor. Qed.

(** What follows an optional field has other types. *)
Ltac other_types :=
  repeat first [apply Forall_nil_2 | apply Forall_cons_2; [cbn [fst]; discriminate|] | apply Forall_app_2; [apply Forall_field; discriminate|]].

(** The next field of the block *)
Ltac next H := match type of H with Forall2 elem_ok ?l _ =>
  let l' := fresh "l" in let H' := fresh "Hrest" in
  first [ destruct (required_u64 _ _ _ _ H ltac:(assumption)) as (l'&->&H')
        | destruct (required_enum8 _ _ _ _ H ltac:(assumption)) as (l'&->&H')
        | destruct (required_enum32 _ _ _ _ H ltac:(assumption)) as (l'&->&H')
        | destruct (required_string _ _ _ _ H) as (l'&->&H')
        | destruct (required_name _ _ _ _ H eq_refl ltac:(assumption)) as (l'&->&H')
        | destruct (optional_u64 _ _ _ _ H ltac:(assumption) ltac:(other_types)) as (l'&->&H')
        | destruct (optional_enum8 _ _ _ _ H ltac:(assumption) ltac:(other_types)) as (l'&->&H')
        | destruct (optional_s64 _ _ _ _ H ltac:(assumption) ltac:(other_types)) as (l'&->&H')
        | destruct (optional_string _ _ _ _ H ltac:(other_types)) as (l'&->&H') ];
  cbn [rbind]; clear H; rename H' into H end.

Lemma wf_int_value n : uint64 n -> wf_bytes (encoderIntegerBytes n).
Proof. intros [? _]. by apply wf_encoderIntegerBytes. Qed.
Lemma wf_u64_value n : wf_bytes (encoderIntegerBytes (to_u64 n)).
Proof. apply wf_encoderIntegerBytes. by apply Z.mod_pos_bound. Qed.

Record traits_ok (t : FaceTraits) : Prop := {
  tr_faceId : uint64 (ft_faceId t);
  tr_remoteUri : wf_bytes (ft_remoteUri t);
  tr_localUri : wf_bytes (ft_localUri t);
  tr_faceScope : uint8 (ft_faceScope t);
  tr_facePersistency : uint8 (ft_facePersistency t);
  tr_linkType : uint8 (ft_linkType t)
}.

Lemma uint8_64 n : uint8 n -> uint64 n.
Proof. unfold uint8, uint64. width_lia. Qed.
Lemma uint32_64 n : uint32 n -> uint64 n.
Proof. unfold uint32, uint64. width_lia. Qed.
#[export] Hint Resolve uint8_64 uint32_64 wf_int_value wf_u64_value wf_encoderIntegerBytes : ndn.

(** The types and the values of a list of elements are in range. *)
Ltac wf_elements := split; [|assumption]; apply wf_fields_intro; [..|assumption]; cbn [map fst snd app field];
  repeat first [apply Forall_nil | apply Forall_cons; split];
  match goal with |- 0 <= _ < _ => by vm_compute | |- _ => auto 6 with ndn end.

(** ** Instances *)

Definition FaceStatus_elements (s : FaceStatus) : list (Z * list Z) :=
  [(NfdTlv.FaceId, encoderIntegerBytes (ft_faceId (fs_traits s))); (NfdTlv.Uri, ft_remoteUri (fs_traits s)); (DatasetTlv.LocalUri, ft_localUri (fs_traits s))] ++
  field NfdTlv.ExpirationPeriod (fun n => encoderIntegerBytes (to_u64 n)) (fs_expirationPeriod s) ++
  [(DatasetTlv.FaceScope, encoderIntegerBytes (ft_faceScope (fs_traits s))); (NfdTlv.FacePersistency, encoderIntegerBytes (ft_facePersistency (fs_traits s)));
   (DatasetTlv.LinkType, encoderIntegerBytes (ft_linkType (fs_traits s)));
   (DatasetTlv.NInInterests, encoderIntegerBytes (fs_nInInterests s)); (DatasetTlv.NInDatas, encoderIntegerBytes (fs_nInDatas s));
   (DatasetTlv.NInNacks, encoderIntegerBytes (fs_nInNacks s)); (DatasetTlv.NOutInterests, encoderIntegerBytes (fs_nOutInterests s));
   (DatasetTlv.NOutDatas, encoderIntegerBytes (fs_nOutDatas s)); (DatasetTlv.NOutNacks, encoderIntegerBytes (fs_nOutNacks s));
   (DatasetTlv.NInBytes, encoderIntegerBytes (fs_nInBytes s)); (DatasetTlv.NOutBytes, encoderIntegerBytes (fs_nOutBytes s))].

Record FaceStatus_ok (s : FaceStatus) : Prop := {
  fso_traits : traits_ok (fs_traits s);
  fso_expiration : option_ok sint64 (fs_expirationPeriod s);
  fso_counters : Forall uint64 [fs_nInInterests s; fs_nInDatas s; fs_nInNacks s; fs_nOutInterests s; fs_nOutDatas s; fs_nOutNacks s; fs_nInBytes s; fs_nOutBytes s];
  fso_length : len (wires (FaceStatus_elements s)) < U64
}.

Lemma FaceStatus_encodes s : Encodes (fun E HE => FaceStatus_value s E) (len (wires (FaceStatus_elements s))) (wires (FaceStatus_elements s)).
Proof. unfold FaceStatus_value. encode_fields FaceStatus_elements. Qed.

Lemma FaceStatus_wf s : FaceStatus_ok s -> wf_fields (FaceStatus_elements s) /\ len (wires (FaceStatus_elements s)) < U64.
Proof.
  intros [[] He Hc Hl]. repeat (apply Forall_cons in Hc as [? Hc]). unfold FaceStatus_elements in *. destruct (fs_expirationPeriod s); wf_elements.
Qed.

Lemma FaceStatus_reads s l : FaceStatus_ok s -> Forall2 elem_ok l (FaceStatus_elements s) -> FaceStatus_read l = Ok s.
Proof.
  intros [[] He Hc Hl] H. repeat (apply Forall_cons in Hc as [? Hc]). unfold FaceStatus_elements in H. cbn [app] in H. unfold FaceStatus_read.
  repeat next H. by destruct s as [[]].
Qed.

#[global, refine] Instance FaceStatus_laws : CodecLaws FaceStatus :=
  { codec_elements := FaceStatus_elements; codec_ok := FaceStatus_ok; codec_same := eq }.
Proof.
  - by vm_compute.
  - intros s _. apply FaceStatus_encodes.
  - apply FaceStatus_wf.
  - intros s l Hs Hl. exists s. split; [by apply FaceStatus_reads|done].
  - by intros s ? <-.
Defined.

(** A time point is written in milliseconds: what is below is cut off. *)
Definition cut_ms (point : Z) : Z := Z.quot point 1000000 * 1000000.
Definition cut_times (s : ForwarderStatus) : ForwarderStatus :=
  MkForwarderStatus (gs_nfdVersion s) (cut_ms (gs_startTimestamp s)) (cut_ms (gs_currentTimestamp s)) (gs_nNameTreeEntries s) (gs_nFibEntries s)
    (gs_nPitEntries s) (gs_nMeasurementsEntries s) (gs_nCsEntries s) (gs_nInInterests s) (gs_nInDatas s) (gs_nInNacks s)
    (gs_nOutInterests s) (gs_nOutDatas s) (gs_nOutNacks s).

Definition timestamp_value (point : Z) : list Z := encoderIntegerBytes (to_u64 (toUnixTimestamp point)).

Definition ForwarderStatus_elements (s : ForwarderStatus) : list (Z * list Z) :=
  [(DatasetTlv.NfdVersion, gs_nfdVersion s); (DatasetTlv.StartTimestamp, timestamp_value (gs_startTimestamp s));
   (DatasetTlv.CurrentTimestamp, timestamp_value (gs_currentTimestamp s));
   (DatasetTlv.NNameTreeEntries, encoderIntegerBytes (gs_nNameTreeEntries s)); (DatasetTlv.NFibEntries, encoderIntegerBytes (gs_nFibEntries s));
   (DatasetTlv.NPitEntries, encoderIntegerBytes (gs_nPitEntries s)); (DatasetTlv.NMeasurementsEntries, encoderIntegerBytes (gs_nMeasurementsEntries s));
   (DatasetTlv.NCsEntries, encoderIntegerBytes (gs_nCsEntries s));
   (DatasetTlv.NInInterests, encoderIntegerBytes (gs_nInInterests s)); (DatasetTlv.NInDatas, encoderIntegerBytes (gs_nInDatas s));
   (DatasetTlv.NInNacks, encoderIntegerBytes (gs_nInNacks s)); (DatasetTlv.NOutInterests, encoderIntegerBytes (gs_nOutInterests s));
   (DatasetTlv.NOutDatas, encoderIntegerBytes (gs_nOutDatas s)); (DatasetTlv.NOutNacks, encoderIntegerBytes (gs_nOutNacks s))].

Record ForwarderStatus_ok (s : ForwarderStatus) : Prop := {
  gso_version : wf_bytes (gs_nfdVersion s);
  gso_start : sint64 (gs_startTimestamp s);
  gso_current : sint64 (gs_currentTimestamp s);
  gso_counters : Forall uint64 [gs_nNameTreeEntries s; gs_nFibEntries s; gs_nPitEntries s; gs_nMeasurementsEntries s; gs_nCsEntries s;
    gs_nInInterests s; gs_nInDatas s; gs_nInNacks s; gs_nOutInterests s; gs_nOutDatas s; gs_nOutNacks s];
  gso_length : len (wires (ForwarderStatus_elements s)) < U64
}.

Lemma cut_ms_sint64 point : sint64 point -> sint64 (cut_ms point) /\ sint64 (toUnixTimestamp point).
Proof. unfold sint64, cut_ms, toUnixTimestamp. intros Hp. Z.to_euclidean_division_equations. lia. Qed.

Lemma cut_ms_again point : toUnixTimestamp (cut_ms point) = toUnixTimestamp point.
Proof. unfold toUnixTimestamp, cut_ms. by rewrite Z.quot_mul. Qed.

Lemma read_timestamp_elem x t point : sint64 point -> elem_ok x (t, timestamp_value point) -> read_timestamp x = Ok (cut_ms point).
Proof.
  intros Hp Hx. destruct (cut_ms_sint64 point Hp) as [Hc Hu]. unfold read_timestamp, timestamp_value in *.
  rewrite (read_s64_elem x t (toUnixTimestamp point)) by done. cbn [rbind]. unfold fromUnixTimestamp. by rewrite to_s64_id.
Qed.

Lemma required_timestamp t l es point : Forall2 elem_ok l ((t, timestamp_value point) :: es) -> sint64 point ->
  exists l', required t read_timestamp l = Ok (cut_ms point, l') /\ Forall2 elem_ok l' es.
Proof. intros H2 Hn. apply (required_front t _ read_timestamp (cut_ms point) l es H2). intros x. by apply read_timestamp_elem. Qed.

Lemma wf_timestamp point : wf_bytes (timestamp_value point).
Proof. apply wf_u64_value. Qed.
#[export] Hint Resolve wf_timestamp : ndn.

#[global, refine] Instance ForwarderStatus_laws : CodecLaws ForwarderStatus :=
  { codec_elements := ForwarderStatus_elements; codec_ok := ForwarderStatus_ok; codec_same s s' := s' = cut_times s }.
Proof.
  - by vm_compute.
  - intros s _. cbn [codec_value ForwarderStatus_codec]. unfold ForwarderStatus_value, ForwarderStatus_elements, timestamp_value. encode_fields ForwarderStatus_elements.
  - intros s [? ? ? Hc Hl]. repeat (apply Forall_cons in Hc as [? Hc]). unfold ForwarderStatus_elements in *. wf_elements.
  - intros s l [? ? ? Hc Hl] Hel. repeat (apply Forall_cons in Hc as [? Hc]). exists (cut_times s). split; [|done]. unfold ForwarderStatus_elements in Hel.
    cbn [codec_read ForwarderStatus_codec]. unfold ForwarderStatus_read. next Hel.
    do 2 (destruct (required_timestamp _ _ _ _ Hel ltac:(assumption)) as (?&->&H'); cbn [rbind]; clear Hel; rename H' into Hel).
    repeat next Hel. by destruct s.
  - intros s ? ->. unfold ForwarderStatus_elements, timestamp_value. cbn [cut_times gs_startTimestamp gs_currentTimestamp].
    by rewrite !cut_ms_again.
Defined.

Definition ChannelStatus_ok (s : ChannelStatus) : Prop :=
  wf_bytes (cst_localUri s) /\ len (wires [(DatasetTlv.LocalUri, cst_localUri s)]) < U64.

#[global, refine] Instance ChannelStatus_laws : CodecLaws ChannelStatus :=
  { codec_elements s := [(DatasetTlv.LocalUri, cst_localUri s)]; codec_ok := ChannelStatus_ok; codec_same := eq }.
Proof.
  - by vm_compute.
  - intros s _. cbn [codec_value ChannelStatus_codec]. rewrite wires_single. apply Encodes_ByteArrayBlock.
  - intros s [? ?]. wf_elements.
  - intros s l [? ?] Hel. exists s. split; [|done]. cbn [codec_read ChannelStatus_codec]. repeat next Hel. by destruct s.
  - by intros s ? <-.
Defined.

Definition FaceEventNotification_elements (s : FaceEventNotification) : list (Z * list Z) :=
  [(DatasetTlv.FaceEventKind, encoderIntegerBytes (fen_kind s)); (NfdTlv.FaceId, encoderIntegerBytes (ft_faceId (fen_traits s)));
   (NfdTlv.Uri, ft_remoteUri (fen_traits s)); (DatasetTlv.LocalUri, ft_localUri (fen_traits s));
   (DatasetTlv.FaceScope, encoderIntegerBytes (ft_faceScope (fen_traits s))); (NfdTlv.FacePersistency, encoderIntegerBytes (ft_facePersistency (fen_traits s)));
   (DatasetTlv.LinkType, encoderIntegerBytes (ft_linkType (fen_traits s)))].

Definition FaceEventNotification_ok (s : FaceEventNotification) : Prop :=
  uint32 (fen_kind s) /\ traits_ok (fen_traits s) /\ len (wires (FaceEventNotification_elements s)) < U64.

#[global, refine] Instance FaceEventNotification_laws : CodecLaws FaceEventNotification :=
  { codec_elements := FaceEventNotification_elements; codec_ok := FaceEventNotification_ok; codec_same := eq }.
Proof.
  - by vm_compute.
  - intros s _. cbn [codec_value FaceEventNotification_codec]. unfold FaceEventNotification_value. encode_fields FaceEventNotification_elements.
  - intros s (?&[]&?). unfold FaceEventNotification_elements in *. wf_elements.
  - intros s l (?&[]&?) Hel. exists s. split; [|done]. unfold FaceEventNotification_elements in Hel. cbn [codec_read FaceEventNotification_codec].
    unfold FaceEventNotification_read. repeat next Hel. by destruct s as [? []].
  - by intros s ? <-.
Defined.

Definition FaceQueryFilter_elements (s : FaceQueryFilter) : list (Z * list Z) :=
  field NfdTlv.FaceId encoderIntegerBytes (fq_faceId s) ++ field DatasetTlv.UriScheme (fun u => u) (fq_uriScheme s) ++
  field NfdTlv.Uri (fun u => u) (fq_remoteUri s) ++ field DatasetTlv.LocalUri (fun u => u) (fq_localUri s) ++
  field DatasetTlv.FaceScope encoderIntegerBytes (fq_faceScope s) ++ field NfdTlv.FacePersistency encoderIntegerBytes (fq_facePersistency s) ++
  field DatasetTlv.LinkType encoderIntegerBytes (fq_linkType s) ++ [].

Record FaceQueryFilter_ok (s : FaceQueryFilter) : Prop := {
  fqo_faceId : option_ok uint64 (fq_faceId s);
  fqo_uriScheme : option_ok wf_bytes (fq_uriScheme s);
  fqo_remoteUri : option_ok wf_bytes (fq_remoteUri s);
  fqo_localUri : option_ok wf_bytes (fq_localUri s);
  fqo_faceScope : option_ok uint8 (fq_faceScope s);
  fqo_facePersistency : option_ok uint8 (fq_facePersistency s);
  fqo_linkType : option_ok uint8 (fq_linkType s);
  fqo_length : len (wires (FaceQueryFilter_elements s)) < U64
}.

Lemma wf_fields_field {A} t (enc : A -> list Z) o (Q : A -> Prop) : 0 <= t < U32 -> option_ok Q o -> (forall a, Q a -> wf_bytes (enc a)) ->
  Forall (fun t => 0 <= t < U32) (map fst (field t enc o)) /\ Forall wf_bytes (map snd (field t enc o)).
Proof. intros Ht Ho Hq. apply wf_field; [done|]. intros a ->. by apply Hq. Qed.

Lemma FaceQueryFilter_wf s : FaceQueryFilter_ok s -> wf_fields (FaceQueryFilter_elements s) /\ len (wires (FaceQueryFilter_elements s)) < U64.
Proof.
  intros [H1 H2 H3 H4 H5 H6 H7 Hl]. split; [|done].
  assert (Hn : forall (x : Z) k, 0 <= x < k -> wf_bytes (encoderIntegerBytes x)) by (intros ? ? [? ?]; by apply wf_encoderIntegerBytes).
  destruct (wf_fields_field NfdTlv.FaceId encoderIntegerBytes _ _ ltac:(by vm_compute) H1 (fun x => Hn x _)).
  destruct (wf_fields_field DatasetTlv.UriScheme (fun u => u) _ _ ltac:(by vm_compute) H2 ltac:(done)).
  destruct (wf_fields_field NfdTlv.Uri (fun u => u) _ _ ltac:(by vm_compute) H3 ltac:(done)).
  destruct (wf_fields_field DatasetTlv.LocalUri (fun u => u) _ _ ltac:(by vm_compute) H4 ltac:(done)).
  destruct (wf_fields_field DatasetTlv.FaceScope encoderIntegerBytes _ _ ltac:(by vm_compute) H5 (fun x => Hn x _)).
  destruct (wf_fields_field NfdTlv.FacePersistency encoderIntegerBytes _ _ ltac:(by vm_compute) H6 (fun x => Hn x _)).
  destruct (wf_fields_field DatasetTlv.LinkType encoderIntegerBytes _ _ ltac:(by vm_compute) H7 (fun x => Hn x _)).
  unfold FaceQueryFilter_elements in *. apply wf_fields_intro; [..|done]; rewrite !map_app, !Forall_app; split_and!; done || constructor.
Qed.

#[global, refine] Instance FaceQueryFilter_laws : CodecLaws FaceQueryFilter :=
  { codec_elements := FaceQueryFilter_elements; codec_ok := FaceQueryFilter_ok; codec_same := eq }.
Proof.
  - by vm_compute.
  - intros s _. cbn [codec_value FaceQueryFilter_codec]. unfold FaceQueryFilter_value. encode_fields FaceQueryFilter_elements.
  - apply FaceQueryFilter_wf.
  - intros s l [] Hel. exists s. split; [|done]. unfold FaceQueryFilter_elements in Hel. cbn [codec_read FaceQueryFilter_codec].
    unfold FaceQueryFilter_read. repeat next Hel. by destruct s.
  - by intros s ? <-.
Defined.

Definition NextHopRecord_elements (s : NextHopRecord) : list (Z * list Z) :=
  [(NfdTlv.FaceId, encoderIntegerBytes (nhr_faceId s)); (NfdTlv.Cost, encoderIntegerBytes (nhr_cost s))].

Definition NextHopRecord_ok (s : NextHopRecord) : Prop := uint64 (nhr_faceId s) /\ uint64 (nhr_cost s) /\ len (wires (NextHopRecord_elements s)) < U64.

#[global, refine] Instance NextHopRecord_laws : CodecLaws NextHopRecord :=
  { codec_elements := NextHopRecord_elements; codec_ok := NextHopRecord_ok; codec_same := eq }.
Proof.
  - by vm_compute.
  - intros s _. cbn [codec_value NextHopRecord_codec]. unfold NextHopRecord_value. encode_fields NextHopRecord_elements.
  - intros s (?&?&?). unfold NextHopRecord_elements in *. wf_elements.
  - intros s l (?&?&?) Hel. exists s. split; [|done]. unfold NextHopRecord_elements in Hel. cbn [codec_read NextHopRecord_codec]. repeat next Hel. by destruct s.
  - by intros s ? <-.
Defined.

Definition DatasetRoute_elements (s : DatasetRoute) : list (Z * list Z) :=
  [(NfdTlv.FaceId, encoderIntegerBytes (dr_faceId s)); (NfdTlv.Origin, encoderIntegerBytes (dr_origin s)); (NfdTlv.Cost, encoderIntegerBytes (dr_cost s));
   (NfdTlv.Flags, encoderIntegerBytes (dr_flags s))] ++ field NfdTlv.ExpirationPeriod (fun n => encoderIntegerBytes (to_u64 n)) (dr_expirationPeriod s) ++ [].

Record DatasetRoute_ok (s : DatasetRoute) : Prop := {
  dro_numbers : Forall uint64 [dr_faceId s; dr_origin s; dr_cost s; dr_flags s];
  dro_expiration : option_ok sint64 (dr_expirationPeriod s);
  dro_length : len (wires (DatasetRoute_elements s)) < U64
}.

#[global, refine] Instance DatasetRoute_laws : CodecLaws DatasetRoute :=
  { codec_elements := DatasetRoute_elements; codec_ok := DatasetRoute_ok; codec_same := eq }.
Proof.
  - by vm_compute.
  - intros s _. cbn [codec_value DatasetRoute_codec]. unfold DatasetRoute_value. encode_fields DatasetRoute_elements.
  - intros s [Hc He Hl]. repeat (apply Forall_cons in Hc as [? Hc]). unfold DatasetRoute_elements in *. destruct (dr_expirationPeriod s); wf_elements.
  - intros s l [Hc He Hl] Hel. repeat (apply Forall_cons in Hc as [? Hc]). exists s. split; [|done]. unfold DatasetRoute_elements in Hel. cbn [app] in Hel.
    cbn [codec_read DatasetRoute_codec]. unfold DatasetRoute_read. repeat next Hel. by destruct s.
  - by intros s ? <-.
Defined.

Definition StrategyChoice_elements (s : StrategyChoiceEntry) : list (Z * list Z) :=
  [(TlvType.Name, name_value (sce_name s)); (NfdTlv.Strategy, tlv_wire TlvType.Name (name_value (sce_strategy s)))].
Record StrategyChoice_ok (s : StrategyChoiceEntry) : Prop := {
  sco_name : name_ok (sce_name s);
  sco_strategy : name_ok (sce_strategy s);
  sco_length : len (wires (StrategyChoice_elements s)) < U64
}.

Lemma len_name_strategy s : len (wires (StrategyChoice_elements s)) < U64 -> len (name_value (sce_strategy s)) < U64.
Proof.
  intros Hl. unfold StrategyChoice_elements in Hl. rewrite !wires_cons, wires_nil, app_nil_r, !len_app in Hl. unfold tlv_wire at 2 3 in Hl. rewrite !len_app in Hl. len_lia.
Qed.

#[global, refine] Instance StrategyChoice_laws : CodecLaws StrategyChoiceEntry :=
  { codec_elements := StrategyChoice_elements; codec_ok := StrategyChoice_ok; codec_same := eq }.
Proof.
  - by vm_compute.
  - intros s _. cbn [codec_value StrategyChoice_codec]. unfold StrategyChoiceEntry_value. encode_fields StrategyChoice_elements.
  - intros s [H1 H2 Hl]. split; [|done]. pose proof (len_name_strategy s Hl). apply wf_fields_intro; [..|done]; cbn [StrategyChoice_elements map fst snd].
    + repeat constructor; by vm_compute.
    + apply Forall_cons_2; [by apply name_ok_bytes|]. apply Forall_cons_2; [|constructor].
      apply wf_tlv_wire; [split; [by vm_compute|done]|by apply name_ok_bytes].
  - intros s l [H1 H2 Hl] Hel. pose proof (len_name_strategy s Hl). exists s. split; [|done]. unfold StrategyChoice_elements in Hel. cbn [codec_read StrategyChoice_codec].
    next Hel. destruct (required_front _ _ read_strategy (sce_strategy s) _ _ Hel) as (l'&->&_); [intros x Hx; by apply read_strategy_elem|]. cbn [rbind]. by destruct s.
  - by intros s ? <-.
Defined.

(** ** Entries with items *)

Section NamedEntry.
Context {A : Type} `{CodecLaws A}.
Implicit Types (s : NamedEntry A) (items : list (Wired A)).

Definition item_element (x : Wired A) : Z * list Z := (codec_type, wires (codec_elements (w_fields x))).
Definition NamedEntry_elements s : list (Z * list Z) := (TlvType.Name, name_value (ne_prefix s)) :: map item_element (ne_items s).

Record NamedEntry_ok s : Prop := {
  neo_prefix : name_ok (ne_prefix s);
  neo_items : Forall (fun x => codec_ok (w_fields x)) (ne_items s);
  neo_length : len (wires (NamedEntry_elements s)) < U64
}.

(** The same name and the same items, up to the blocks they are in *)
Definition NamedEntry_same s s' : Prop :=
  ne_prefix s = ne_prefix s' /\ Forall2 (fun x x' => codec_same (w_fields x) (w_fields x')) (ne_items s) (ne_items s').

Lemma Encodes_items items : Forall (fun x => codec_ok (w_fields x)) items -> forall k,
  Encodes (fun E HE => prependItems items k) (k + len (wires (map item_element (rev items)))) (wires (map item_element (rev items))).
Proof.
  induction 1 as [|x items Hx Hi IH]; intros k; cbn [prependItems rev map].
  - eapply Encodes_eq; [apply Encodes_ret|rewrite wires_nil, len_nil; lia|done].
  - rewrite map_app. cbn [map]. eapply Encodes_eq; [eapply Encodes_bind; [by apply Encodes_item|apply IH]| |by rewrite wires_snoc].
    rewrite wires_snoc, len_app. unfold item_bytes, item_element. cbn [fst snd]. lia.
Qed.

Lemma NamedEntry_encodes s : NamedEntry_ok s ->
  Encodes (fun E HE => NamedEntry_value s E) (len (wires (NamedEntry_elements s))) (wires (NamedEntry_elements s)).
Proof.
  intros [_ Hi _]. unfold NamedEntry_value, NamedEntry_elements. apply Forall_rev in Hi. eapply Encodes_eq.
  - eapply Encodes_bind; [apply (Encodes_items (rev (ne_items s)) Hi 0)|]. eapply Encodes_bind; [apply Encodes_name_value|apply Encodes_ret].
  - rewrite rev_involutive, wires_cons, len_app. lia.
  - by rewrite rev_involutive, wires_cons.
Qed.

Lemma NamedEntry_wf s : NamedEntry_ok s -> wf_fields (NamedEntry_elements s) /\ len (wires (NamedEntry_elements s)) < U64.
Proof.
  intros [Hn Hi Hl]. split; [|done]. unfold NamedEntry_elements in *. apply wf_fields_intro; [..|done]; cbn [map fst snd]; apply Forall_cons_2.
  - by vm_compute.
  - rewrite map_map. apply Forall_map, Forall_forall. intros x _. apply codec_type_ok.
  - by apply name_ok_bytes.
  - rewrite map_map. apply Forall_map. eapply Forall_impl; [exact Hi|]. intros x Hx. apply (item_value_ok _ Hx).
Qed.

Lemma readItems_ok items : forall l, Forall (fun x => codec_ok (w_fields x)) items -> Forall2 elem_ok l (map item_element items) ->
  exists items', readItems l = Ok items' /\ Forall2 (fun x x' => codec_same (w_fields x) (w_fields x')) items items'.
Proof.
  induction items as [|x items IH]; intros l Hi H2; cbn [map] in H2.
  - exists []. destruct l; [by split|by inversion H2].
  - destruct l as [|b l]; [by inversion H2|]. apply Forall_cons in Hi as [Hx Hi]. apply Forall2_cons in H2 as [Hb H2]. cbn [readItems].
    rewrite (elem_ok_type _ _ Hb). cbn [item_element fst]. rewrite Z.eqb_refl. cbn [negb].
    destruct (wireDecode_ok (w_fields x) b Hx Hb) as (y&->&Hs&_). cbn [rbind]. destruct (IH l Hi H2) as (items'&->&Hs'). exists (y :: items'). split; [done|]. by constructor.
Qed.

Lemma NamedEntry_reads s l : NamedEntry_ok s -> Forall2 elem_ok l (NamedEntry_elements s) -> exists s', NamedEntry_read l = Ok s' /\ NamedEntry_same s s'.
Proof.
  intros [Hn Hi _] Hel. unfold NamedEntry_elements in Hel. unfold NamedEntry_read. next Hel.
  destruct (readItems_ok _ _ Hi Hel) as (items'&->&Hs). eexists. split; [done|]. by split.
Qed.

Lemma NamedEntry_again s s' : NamedEntry_same s s' -> NamedEntry_elements s' = NamedEntry_elements s.
Proof.
  intros [Hp Hi]. unfold NamedEntry_elements. rewrite Hp. f_equal. induction Hi as [|x x' l l' Hx Hl IH]; [done|]. cbn [map]. rewrite IH. f_equal.
  unfold item_element. f_equal. f_equal. by apply codec_again.
Qed.
End NamedEntry.

#[global, refine] Instance FibEntry_laws : CodecLaws DatasetFibEntry :=
  { codec_elements := NamedEntry_elements; codec_ok := NamedEntry_ok; codec_same := NamedEntry_same }.
Proof. by vm_compute. exact NamedEntry_encodes. exact NamedEntry_wf. exact NamedEntry_reads. exact NamedEntry_again. Defined.
#[global, refine] Instance RibEntry_laws : CodecLaws DatasetRibEntry :=
  { codec_elements := NamedEntry_elements; codec_ok := NamedEntry_ok; codec_same := NamedEntry_same }.
Proof. by vm_compute. exact NamedEntry_encodes. exact NamedEntry_wf. exact NamedEntry_reads. exact NamedEntry_again. Defined.

(** The name and the fields of the items are the same. *)
Definition same_entry {A} (e e' : NamedEntry A) : Prop := ne_prefix e = ne_prefix e' /\ map w_fields (ne_items e) = map w_fields (ne_items e').

Lemma same_entry_items {A} (l l' : list (Wired A)) : Forall2 (fun x x' => w_fields x = w_fields x') l l' -> map w_fields l = map w_fields l'.
Proof. induction 1 as [|x x' l l' Hx Hl IH]; [done|]. cbn [map]. by rewrite Hx, IH. Qed.

Lemma roundtrips_mono {A} `{WireCodec A} (P Q : A -> A -> Prop) (x : Wired A) : (forall a, P (w_fields x) a -> Q (w_fields x) a) -> roundtrips P x -> roundtrips Q x.
Proof. intros HPQ (bytes&b&x'&r&y&?&?&?&?&?&?&?). exists bytes, b, x', r, y. split_and!; auto. Qed.

(** ** Every dataset *)

(** C25. An item of a dataset that has no encoding yet survives encoding and decoding,
    for each class: the status of a face and of a channel, a notification, a filter, a
    next hop, a route and a strategy choice are read back with the same fields; an entry
    of the FIB or of the RIB with the same name and the same fields of its next hops or
    routes; and the status of the forwarder with its two times cut to milliseconds and
    everything else the same.  (The conditions are that numbers fit their widths, that
    bytes are bytes, that names have TLV types, and that the encoding is below 2^64 bytes;
    the persistency, scope and link type are numbers of 8 bits.) *)
Theorem dataset_roundtrip :
  (forall x : Wired FaceStatus, FaceStatus_ok (w_fields x) -> hasWire (w_wire x) = false -> roundtrips eq x) /\
  (forall x : Wired ForwarderStatus, ForwarderStatus_ok (w_fields x) -> hasWire (w_wire x) = false -> roundtrips (fun s s' => s' = cut_times s) x) /\
  (forall x : Wired ChannelStatus, ChannelStatus_ok (w_fields x) -> hasWire (w_wire x) = false -> roundtrips eq x) /\
  (forall x : Wired FaceEventNotification, FaceEventNotification_ok (w_fields x) -> hasWire (w_wire x) = false -> roundtrips eq x) /\
  (forall x : Wired FaceQueryFilter, FaceQueryFilter_ok (w_fields x) -> hasWire (w_wire x) = false -> roundtrips eq x) /\
  (forall x : Wired NextHopRecord, NextHopRecord_ok (w_fields x) -> hasWire (w_wire x) = false -> roundtrips eq x) /\
  (forall x : Wired DatasetRoute, DatasetRoute_ok (w_fields x) -> hasWire (w_wire x) = false -> roundtrips eq x) /\
  (forall x : Wired StrategyChoiceEntry, StrategyChoice_ok (w_fields x) -> hasWire (w_wire x) = false -> roundtrips eq x) /\
  (forall x : Wired DatasetFibEntry, name_ok (ne_prefix (w_fields x)) -> Forall (fun h => NextHopRecord_ok (w_fields h)) (ne_items (w_fields x)) ->
     len (wires (NamedEntry_elements (w_fields x))) < U64 -> hasWire (w_wire x) = false -> roundtrips same_entry x) /\
  (forall x : Wired DatasetRibEntry, name_ok (ne_prefix (w_fields x)) -> Forall (fun r => DatasetRoute_ok (w_fields r)) (ne_items (w_fields x)) ->
     len (wires (NamedEntry_elements (w_fields x))) < U64 -> hasWire (w_wire x) = false -> roundtrips same_entry x).
Proof.
  split_and!; intros x; try (exact (codec_roundtrip x)); intros Hn Hi Hl Hw.
  - apply (roundtrips_mono codec_same); [|by apply codec_roundtrip]. intros e' [Hp Hf]. split; [done|]. by apply same_entry_items.
  - apply (roundtrips_mono codec_same); [|by apply codec_roundtrip]. intros e' [Hp Hf]. split; [done|]. by apply same_entry_items.
Qed.

(** ** The setters *)

(** A setter drops the encoding, so that the next [wireEncode] writes the fields
    there are now. *)
Lemma set_with_fresh {A} (f : A -> A) (x : Wired A) : hasWire (w_wire (set_with f x)) = false /\ w_fields (set_with f x) = f (w_fields x).
Proof. by split. Qed.

(** [clearRoutes] leaves it: an encoded entry is encoded as before, with the
    routes it no longer has. *)
Lemma clearRoutes_stale (x : Wired DatasetRibEntry) : hasWire (w_wire x) = true ->
  ne_items (w_fields (clearRoutes x)) = [] /\ wireEncode (clearRoutes x) = Ok (w_wire x, clearRoutes x).
Proof. intros Hw. split; [done|]. unfold wireEncode, clearRoutes. cbn [w_wire]. by rewrite Hw. Qed.

Module DatasetSamples.
Definition s2b (s : string) : list Z := map (fun a => Z.of_nat (Ascii.nat_of_ascii a)) (String.list_ascii_of_string s).
Definition status : FaceStatus :=
  MkFaceStatus (MkFaceTraits 100 (s2b "tcp4://192.0.2.1:6363"%string) (s2b "tcp4://192.0.2.2:55555"%string) 0 0 0) (Some 10000)
    10 20 11 30 40 12 500 600.
Definition route (face cost : Z) : Wired DatasetRoute := wired_new (setRouteExpiration 3600000 (MkDatasetRoute face 128 cost 1 None)).
Definition entry : Wired DatasetRibEntry := wired_new (MkNamedEntry [] [route 1 10; route 2 20]).

(** The status of a forwarder, taken at a time that is not a whole millisecond *)
Definition forwarder_status : ForwarderStatus := MkForwarderStatus (s2b "0.4.1"%string) 1500000000123456789 1500000001999999999 5 6 7 8 9 10 11 12 13 14 15.

(** A status of a face and one of the forwarder are decoded from their bytes; so is an
    entry of the RIB with two routes. *)
Lemma dataset_roundtrip_witness : roundtrips eq (wired_new status) /\
  (gs_startTimestamp (cut_times forwarder_status) = 1500000000123000000 /\ roundtrips (fun s s' => s' = cut_times s) (wired_new forwarder_status)) /\
  roundtrips same_entry entry.
Proof.
  destruct dataset_roundtrip as (Hface&Hforwarder&_&_&_&_&_&_&_&Hrib). split_and!; [|by vm_compute|..].
  - apply Hface; [|done]. split; [split; by_decide|by_decide|repeat constructor; by vm_compute|by vm_compute].
  - apply Hforwarder; [|done]. split; [by_decide|split; by vm_compute|split; by vm_compute|repeat constructor; by vm_compute|by vm_compute].
  - apply Hrib; [by_decide| |by vm_compute|done]. repeat constructor; cbn; by vm_compute.
Defined.

(** The routes of an entry that was encoded are still in its encoding after
    [clearRoutes], and not after a setter. *)
Example clearRoutes_example : match wireEncode entry with
  | Ok (b, e) =>
      (let! (b', _) := wireEncode (clearRoutes e) in wire b') = wire b /\
      (let! (b', _) := wireEncode (set_with (fun x => MkNamedEntry (ne_prefix x) []) e) in wire b') = Ok [128; 2; 7; 0]
  | Err _ => False
  end.
Proof. by vm_compute. Qed.
End DatasetSamples.
