(* ===== verification/Segments.v ===== *)
(** * Segmented data: publishing a dataset and fetching it

    [mgmt/status-dataset-context.cpp] and [core/segment-publisher.hpp] cut a
    sequence of bytes into the Data of consecutive segments, of which the last
    has a final block; [util/segment-fetcher.cpp] asks for the segments one after
    the other and puts their contents together.  The fetcher is a state machine:
    it waits for the answer to one Interest, or for a timer. *)

From S2P Require Import Prelude StdMap Tlv Block Encoder Elements NameComponent Name KeyLocator Exclude MetaInfo SignatureInfo Packet.
From S2P Require Import DataPacket Link InterestPacket LpFragmenter LinkService Transport.

(** [tlv::ContentType_Nack] *)
Definition ContentType_Nack : Z := 3.

(** The largest packet is a parameter of the model, for which the code has
    [Transport.MAX_NDN_PACKET_SIZE]; the most bytes in a segment are
    [MAX_NDN_PACKET_SIZE >> 1]. *)
Section MaxPacket.
Context (maxPacket : Z).

Definition maxSegment : Z := Z.shiftr maxPacket 1.

(** [Name::operator[](-1)] *)
Definition last_component (n : Name) : result Component :=
  match last n with Some c => Ok c | None => Err OutOfRange end.

(** ** Sending Data *)

(** What a data sender is called with *)
Record Sent := MkSent { sd_name : Name; sd_content : Block; sd_metaInfo : MetaInfo }.

(** [Face::put]: [None] when the Data is larger than a packet may be. *)
Definition put (d : DataPacket) : result (option DataPacket) :=
  let! (b, d) := Data_wire d in
  let! size := Block_size b in
  if maxPacket <? size then Ok None else Ok (Some d).

Section KeyChain.
(** [KeyChain::sign] *)
Context (sign : DataPacket -> result DataPacket).

(** [Dispatcher::sendData], which drops a Data that the face does not take *)
Definition sendData (x : Sent) : result (list DataPacket) :=
  let! d := Data_setContent_block (sd_content x) (DataPacket_of_name (sd_name x)) in
  let d := Data_setMetaInfo (sd_metaInfo x) d in
  let! d := sign d in
  let! d := put d in
  Ok (option_list d).

Fixpoint sendAll (l : list Sent) : result (list DataPacket) :=
  match l with
  | [] => Ok []
  | x :: l => let! d := sendData x in let! ds := sendAll l in Ok (d ++ ds)
  end.
End KeyChain.

(** ** [StatusDatasetContext] *)

Inductive ContextState := INITIAL | RESPONDED | FINALIZED.

(** [m_buffer] is an [EncodingBuffer]; [m_interest] is the name of the Interest. *)
Record StatusDatasetContext := MkStatusDatasetContext {
  sx_interest : Name;
  sx_prefix : Name;
  sx_expiry : Z;
  sx_buffer : Encoder.t;
  sx_segmentNo : Z;
  sx_state : ContextState
}.

(** [EncodingBuffer()] *)
Definition EncodingBuffer_new : Encoder.t := Encoder.create (Z.to_nat maxPacket) 400.
Definition with_buffer (b : Encoder.t) (segmentNo : Z) (x : StatusDatasetContext) : StatusDatasetContext :=
  MkStatusDatasetContext (sx_interest x) (sx_prefix x) (sx_expiry x) b segmentNo (sx_state x).
Definition in_state (s : ContextState) (x : StatusDatasetContext) : StatusDatasetContext :=
  MkStatusDatasetContext (sx_interest x) (sx_prefix x) (sx_expiry x) (sx_buffer x) (sx_segmentNo x) s.
Definition setExpiry (expiry : Z) (x : StatusDatasetContext) : StatusDatasetContext :=
  MkStatusDatasetContext (sx_interest x) (sx_prefix x) expiry (sx_buffer x) (sx_segmentNo x) (sx_state x).

(** [setPrefix]; [now] is the version that [appendVersion] takes from the clock. *)
Definition setPrefix (now : Z) (prefix : Name) (x : StatusDatasetContext) : result StatusDatasetContext :=
  if negb (isPrefixOf (sx_interest x) prefix) then Err InvalidArgument
  else
    match sx_state x with
    | INITIAL =>
        let! c := last_component prefix in
        let! prefix := if negb (isVersion c) then appendVersion prefix now else Ok prefix in
        Ok (MkStatusDatasetContext (sx_interest x) prefix (sx_expiry x) (sx_buffer x) (sx_segmentNo x) (sx_state x))
    | _ => Err DomainError
    end.

(** [StatusDatasetContext::StatusDatasetContext] *)
Definition StatusDatasetContext_new (now : Z) (interest : Name) : result StatusDatasetContext :=
  setPrefix now interest (MkStatusDatasetContext interest [] 1000 EncodingBuffer_new 0 INITIAL).

(** A segment: the content that is in the buffer *)
Definition segment_of (x : StatusDatasetContext) (isFinal : bool) : result Sent :=
  let! dataName := appendSegment (sx_prefix x) (sx_segmentNo x) in
  let! content := makeBinaryBlock TlvType.Content (Encoder.content (sx_buffer x)) in
  let metaInfo := setFreshnessPeriod (sx_expiry x) MetaInfo_new in
  let! c := last_component dataName in
  Ok (MkSent dataName content (if isFinal then setFinalBlockId c metaInfo else metaInfo)).

(** The loop of [append]; [fuel] bounds its iterations. *)
Fixpoint append_loop (fuel : nat) (bytes : list Z) (x : StatusDatasetContext) : result (list Sent * StatusDatasetContext) :=
  match bytes with
  | [] => Ok ([], x)
  | _ =>
      match fuel with
      | O => Err OutOfFuel
      | S fuel =>
          let nBytesAppend := Z.min (len bytes) (maxSegment - Encoder.size (sx_buffer x)) in
          let '(_, buffer) := Encoder.appendByteArray (take (Z.to_nat nBytesAppend) bytes) (sx_buffer x) in
          let x := with_buffer buffer (sx_segmentNo x) x in
          let left := drop (Z.to_nat nBytesAppend) bytes in
          if 0 <? len left then
            let! s := segment_of x false in
            let! (l, x) := append_loop fuel left (with_buffer EncodingBuffer_new (to_u64 (sx_segmentNo x + 1)) x) in
            Ok (s :: l, x)
          else append_loop fuel left x
      end
  end.

Definition append (block : Block) (x : StatusDatasetContext) : result (list Sent * StatusDatasetContext) :=
  match sx_state x with
  | FINALIZED => Err DomainError
  | _ => let! bytes := wire block in append_loop (length bytes + 2) bytes (in_state RESPONDED x)
  end.
Definition end_ (x : StatusDatasetContext) : result (list Sent * StatusDatasetContext) :=
  match sx_state x with
  | FINALIZED => Err DomainError
  | _ =>
      let x := in_state FINALIZED x in
      let! s := segment_of x true in
      Ok ([s], with_buffer (sx_buffer x) (to_u64 (sx_segmentNo x + 1)) x)
  end.

(** [reject], with the encoding of the response *)
Definition reject (response : Block) (x : StatusDatasetContext) : result (list Sent * StatusDatasetContext) :=
  match sx_state x with
  | INITIAL => Ok ([MkSent (sx_interest x) response (setType ContentType_Nack MetaInfo_new)], in_state FINALIZED x)
  | _ => Err DomainError
  end.

(** A handler that answers with a list of blocks *)
Fixpoint append_all (blocks : list Block) (x : StatusDatasetContext) : result (list Sent * StatusDatasetContext) :=
  match blocks with
  | [] => Ok ([], x)
  | b :: blocks =>
      let! (l, x) := append b x in
      let! (l', x) := append_all blocks x in
      Ok (l ++ l', x)
  end.

(** ** [SegmentPublisher::publish] *)

Section Publisher.
Context (sign : DataPacket -> result DataPacket).

(** The loop, for the bytes from [segmentBegin] *)
Fixpoint publish_loop (fuel : nat) (segmentPrefix : Name) (freshnessPeriod segmentNo : Z) (bytes : list Z) : result (list DataPacket) :=
  match fuel with
  | O => Err OutOfFuel
  | S fuel =>
      let segment := take (Z.to_nat maxSegment) bytes in
      let rest := drop (Z.to_nat maxSegment) bytes in
      let! segmentName := appendSegment segmentPrefix segmentNo in
      let! d := Data_setContent_bytes segment (DataPacket_of_name segmentName) in
      let d := Data_setFreshnessPeriod freshnessPeriod d in
      let! c := last_component segmentName in
      let d := if len rest =? 0 then Data_setFinalBlockId c d else d in
      let! d := sign d in
      let! d := put d in
      match d with
      | None => Err RuntimeError
      | Some d =>
          if len rest =? 0 then Ok [d]
          else let! ds := publish_loop fuel segmentPrefix freshnessPeriod (to_u64 (segmentNo + 1)) rest in Ok (d :: ds)
      end
  end.

Definition publish (now : Z) (prefix : Name) (freshnessPeriod : Z) (bytes : list Z) : result (list DataPacket) :=
  let! segmentPrefix := appendVersion prefix now in
  publish_loop (S (length bytes)) segmentPrefix freshnessPeriod 0 bytes.
End Publisher.

(** ** [SegmentFetcher] *)

(** [Interest::setName], [setChildSelector] and [setMustBeFresh] *)
Definition Interest_setName (n : Name) (i : InterestPacket) : InterestPacket :=
  MkInterestPacket n (ip_selectors i) (ip_nonce i) (ip_interestLifetime i) (ip_link i) (ip_selectedDelegation i) (reset (ip_wire i)).
Definition with_selectors (s : Selectors) (i : InterestPacket) : InterestPacket :=
  MkInterestPacket (ip_name i) s (ip_nonce i) (ip_interestLifetime i) (ip_link i) (ip_selectedDelegation i) (reset (ip_wire i)).
Definition Selectors_setChildSelector (c : Z) (s : Selectors) : Selectors :=
  MkSelectors (s_minSuffixComponents s) (s_maxSuffixComponents s) (s_publisherPublicKeyLocator s) (s_exclude s) c (s_mustBeFresh s) None.
Definition Selectors_setMustBeFresh (f : bool) (s : Selectors) : Selectors :=
  MkSelectors (s_minSuffixComponents s) (s_maxSuffixComponents s) (s_publisherPublicKeyLocator s) (s_exclude s) (s_childSelector s) f None.
Definition Interest_setChildSelector (c : Z) (i : InterestPacket) : InterestPacket := with_selectors (Selectors_setChildSelector c (ip_selectors i)) i.
Definition Interest_setMustBeFresh (f : bool) (i : InterestPacket) : InterestPacket := with_selectors (Selectors_setMustBeFresh f (ip_selectors i)) i.

(** [Face::expressInterest]: the Interest that the face keeps; [word] is the
    random word for an Interest without a nonce. *)
Definition expressInterest (word : Z) (i : InterestPacket) : result InterestPacket :=
  let! (b, i) := Interest_wire word i in
  let! size := Block_size b in
  if maxPacket <? size then Err RuntimeError else Ok i.

Inductive FetchError := INTEREST_TIMEOUT | DATA_HAS_NO_SEGMENT | SEGMENT_VALIDATION_FAIL | NACK_ERROR.

(** What the fetcher waits for: the answer to the Interest the face keeps, with
    the arguments that are bound in its callbacks, or a timer (in milliseconds)
    after which the Interest is expressed again; or the callback it has called *)
Inductive Waiting :=
| ForInterest (i : InterestPacket) (isSegmentZeroExpected : bool) (reExpressCount : Z)
| ForTimer (delay : Z) (i : InterestPacket) (reExpressCount : Z)
| Completed (buffer : list Z)
| Failed (e : FetchError).

Record SegmentFetcher := MkSegmentFetcher { sf_buffer : list Z; sf_waiting : Waiting }.
Definition MAX_INTEREST_REEXPRESS : Z := 3.

(** [words] are the random words that are drawn. *)
Definition fetchFirstSegment (word : Z) (baseInterest : InterestPacket) : result SegmentFetcher :=
  let interest := Interest_setMustBeFresh true (Interest_setChildSelector 1 baseInterest) in
  let! i := expressInterest word interest in
  Ok (MkSegmentFetcher [] (ForInterest i true 0)).

Definition fetchNextSegment (words : list Z) (origInterest : InterestPacket) (dataName : Name) (segmentNo : Z) (buffer : list Z) : result SegmentFetcher :=
  let! interest := refreshNonce words origInterest in
  let interest := Interest_setMustBeFresh false (Interest_setChildSelector 0 interest) in
  let! name := appendSegment (getPrefix dataName (-1)) segmentNo in
  let! i := expressInterest (hd 0 words) (Interest_setName name interest) in
  Ok (MkSegmentFetcher buffer (ForInterest i false 0)).

Definition afterValidationSuccess (words : list Z) (data : DataPacket) (isSegmentZeroExpected : bool) (origInterest : InterestPacket) (f : SegmentFetcher) : result SegmentFetcher :=
  let! currentSegment := last_component (dp_name data) in
  if isSegment currentSegment then
    let! segmentNo := toSegment currentSegment in
    if isSegmentZeroExpected && negb (segmentNo =? 0) then fetchNextSegment words origInterest (dp_name data) 0 (sf_buffer f)
    else
      let! content := getContent data in
      let buffer := sf_buffer f ++ value content in
      let finalBlockId := mi_finalBlockId (dp_metaInfo data) in
      if Component_empty finalBlockId || (0 <? compare finalBlockId currentSegment)
      then fetchNextSegment words origInterest (dp_name data) (to_u64 (segmentNo + 1)) buffer
      else Ok (MkSegmentFetcher buffer (Completed buffer))
  else Ok (MkSegmentFetcher (sf_buffer f) (Failed DATA_HAS_NO_SEGMENT)).

(** [afterSegmentReceived]; [isValid] is the answer of the validator. *)
Definition afterSegmentReceived (words : list Z) (origInterest : InterestPacket) (data : DataPacket) (isValid isSegmentZeroExpected : bool) (f : SegmentFetcher) : result SegmentFetcher :=
  if isValid then afterValidationSuccess words data isSegmentZeroExpected origInterest f
  else Ok (MkSegmentFetcher (sf_buffer f) (Failed SEGMENT_VALIDATION_FAIL)).

Definition reExpressInterest (words : list Z) (interest : InterestPacket) (reExpressCount : Z) (f : SegmentFetcher) : result SegmentFetcher :=
  let! interest := refreshNonce words interest in
  if negb (hasNonce interest) then Err AssertFailed
  else
    let! i := expressInterest (hd 0 words) interest in
    Ok (MkSegmentFetcher (sf_buffer f) (ForInterest i true (to_u32 (reExpressCount + 1)))).

Definition afterNackReceived (words : list Z) (origInterest : InterestPacket) (reason : LpNackReason) (reExpressCount : Z) (f : SegmentFetcher) : result SegmentFetcher :=
  if MAX_INTEREST_REEXPRESS <=? reExpressCount then Ok (MkSegmentFetcher (sf_buffer f) (Failed NACK_ERROR))
  else
    match reason with
    | LP_DUPLICATE => reExpressInterest words origInterest reExpressCount f
    | LP_CONGESTION => Ok (MkSegmentFetcher (sf_buffer f) (ForTimer (2 ^ (reExpressCount + 1)) origInterest reExpressCount))
    | _ => Ok (MkSegmentFetcher (sf_buffer f) (Failed NACK_ERROR))
    end.

(** What happens to the Interest that is pending: a Data with the answer of the
    validator, a Nack, or nothing until its lifetime has passed *)
Inductive Answer :=
| AnsData (data : DataPacket) (isValid : bool)
| AnsNack (reason : LpNackReason)
| AnsTimeout.

(** One event: the answer to the pending Interest, or the timer *)
Definition fetch_step (words : list Z) (net : InterestPacket -> Answer) (f : SegmentFetcher) : result SegmentFetcher :=
  match sf_waiting f with
  | ForInterest i zero count =>
      match net i with
      | AnsData d isValid => afterSegmentReceived words i d isValid zero f
      | AnsNack reason => afterNackReceived words i reason count f
      | AnsTimeout => Ok (MkSegmentFetcher (sf_buffer f) (Failed INTEREST_TIMEOUT))
      end
  | ForTimer _ i count => reExpressInterest words i count f
  | _ => Ok f
  end.

(** The events, as long as there are random words for them *)
Fixpoint fetch_run (nets : list (list Z * (InterestPacket -> Answer))) (f : SegmentFetcher) : result SegmentFetcher :=
  match nets with
  | [] => Ok f
  | (words, net) :: nets => let! f := fetch_step words net f in fetch_run nets f
  end.
End MaxPacket.

(** ** Expressing Interests *)

(** [memcpy] over the value of an element changes its bytes there. *)
Lemma patched_element b t v bytes buffer lo hi : elem_ok b (t, v) -> element_in buffer lo hi b -> length bytes = length v ->
  wire (patch_block (m_value_begin b) bytes b) = Ok (tlv_wire t bytes) /\ value_size (patch_block (m_value_begin b) bytes b) = len bytes.
Proof.
  intros Hb (Hbuf&Hlo&Hhi&He&Hsub) Hl. pose proof (ek_wf _ _ Hb) as Hwf. unfold wf_block in Hwf. rewrite Hbuf in Hwf. destruct Hwf as ([_ Hwe]&[Hv _]&_).
  pose proof (ek_size _ _ Hb) as Hs. pose proof (elem_ok_value _ _ Hb) as Hval. pose proof (ek_wire _ _ Hb) as Hw. cbn [fst snd] in *.
  unfold value_size, hasValue in Hs. rewrite Hbuf in Hs. unfold value in Hval. rewrite Hbuf in Hval.
  assert (Hh : hasWire b = true) by by eapply hasWire_of_wire. unfold wire in Hw. rewrite Hh, Hbuf in Hw. injection Hw as Hw.
  assert (Hhdr : slice (m_begin b) (m_value_begin b) buffer = writeVarNumber t ++ writeVarNumber (len v)).
  { rewrite <- (slice_split (m_begin b) (m_value_begin b) (m_end b)) in Hw by lia. rewrite He, Hval, tlv_wire_unfold, app_assoc in Hw.
    by apply app_inv_tail in Hw. }
  assert (Hd : buffer = (take (m_begin b) buffer ++ slice (m_begin b) (m_value_begin b) buffer) ++ v ++ drop (m_end b) buffer).
  { assert (Htk : forall k, take k buffer = slice 0 k buffer) by (intros k; unfold slice; by rewrite drop_0, Nat.sub_0_r).
    rewrite <- Hval, Htk, slice_split, app_assoc, slice_split, <- Htk, <- He by lia. symmetry. apply take_drop. }
  assert (Hlen : length (take (m_begin b) buffer ++ slice (m_begin b) (m_value_begin b) buffer) = m_value_begin b).
  { rewrite length_app, length_take. unfold slice. rewrite length_take, length_drop. lia. }
  pose proof (patch_app (take (m_begin b) buffer ++ slice (m_begin b) (m_value_begin b) buffer) v bytes (drop (m_end b) buffer) (eq_sym Hl)) as Hp.
  rewrite Hlen, <- Hd, <- app_assoc in Hp. clear Hd.
  assert (Hlh : length (slice (m_begin b) (m_value_begin b) buffer) = (m_value_begin b - m_begin b)%nat).
  { unfold slice. rewrite length_take, length_drop. lia. }
  rewrite (app_assoc (slice _ _ _) bytes) in Hp. destruct b as [bf bt bb be bs bv bve subs]. cbn [m_buffer m_begin m_end m_value_begin m_value_end patch_block fmap option_fmap option_map] in *. subst bf.
  unfold wire, hasWire, value_size, hasValue. cbn [m_buffer m_begin m_end m_value_begin m_value_end fmap option_fmap option_map patch_block]. change (patch bv bytes <$> Some buffer) with (Some (patch bv bytes buffer)). cbn iota. rewrite (proj2 (Nat.eqb_neq bb be)) by lia.
  cbn [negb]. split; [|unfold len in *; lia]. f_equal. rewrite Hp. trans (slice bb bv buffer ++ bytes).
  - apply slice_middle; [rewrite length_take; lia|]. rewrite length_app, Hlh, length_take, Hl. unfold len in *. lia.
  - rewrite Hhdr, tlv_wire_unfold. unfold len. by rewrite Hl, app_assoc.
Qed.

(** The selectors that the fetcher does not change, and the room an Interest
    needs in a packet *)
Definition sel_body (s : Selectors) : list (Z * list Z) :=
  opt_elem (0 <=? s_minSuffixComponents s) (TlvType.MinSuffixComponents, encoderIntegerBytes (s_minSuffixComponents s)) ++
  opt_elem (0 <=? s_maxSuffixComponents s) (TlvType.MaxSuffixComponents, encoderIntegerBytes (s_maxSuffixComponents s)) ++
  opt_elem (negb (KeyLocator_empty (s_publisherPublicKeyLocator s))) (TlvType.KeyLocator, wires (kl_elements (s_publisherPublicKeyLocator s))) ++
  opt_elem (negb (Exclude_empty (s_exclude s))) (TlvType.Exclude, wires (exclude_elements (m_exclude (s_exclude s)))).

Definition has_room (maxPacket : Z) (s : Selectors) (n : Name) : Prop :=
  len (wires (name_elements n)) + len (wires (sel_body s)) + 80 <= maxPacket /\ maxPacket < 2 ^ 60.

(** An Interest that the face keeps: it has a nonce of four bytes in its buffer
    and no link. *)
Record kept (i : InterestPacket) : Prop := {
  kp_name : name_ok (ip_name i);
  kp_selectors : sel_ok (ip_selectors i);
  kp_nonce : exists nv buffer lo hi, elem_ok (ip_nonce i) (TlvType.Nonce, nv) /\ length nv = 4%nat /\ element_in buffer lo hi (ip_nonce i);
  kp_wire : hasWire (ip_wire i) = true;
  kp_lifetime : ip_interestLifetime i < 2 ^ 63;
  kp_link : hasLink i = false;
  kp_selected : ip_selectedDelegation i = None
}.

(** The random words that are drawn have two different ones. *)
Definition good_words (words : list Z) : Prop := exists x y, x ∈ words /\ y ∈ words /\ x <> y.

(** An Interest that is ready to be encoded anew *)
Record fresh (i : InterestPacket) (nv : list Z) : Prop := {
  fr_name : name_ok (ip_name i);
  fr_selectors : sel_ok (ip_selectors i);
  fr_nonce : wire (ip_nonce i) = Ok (tlv_wire TlvType.Nonce nv) /\ value_size (ip_nonce i) = 4 /\ length nv = 4%nat /\ wf_bytes nv;
  fr_wire : hasWire (ip_wire i) = false;
  fr_lifetime : ip_interestLifetime i < 2 ^ 63;
  fr_link : hasLink i = false;
  fr_selected : ip_selectedDelegation i = None
}.

Lemma sel_elements_body s : wires (sel_elements s) = wires (sel_body s) ++
  wires (opt_elem (0 <=? s_childSelector s) (TlvType.ChildSelector, encoderIntegerBytes (s_childSelector s))) ++ wires (opt_elem (s_mustBeFresh s) (TlvType.MustBeFresh, [])).
Proof. rewrite sel_value_eq. unfold sel_body. by rewrite !wires_app, <- !app_assoc. Qed.

Lemma sel_body_same s s' : sel_same s s' -> sel_body s' = sel_body s.
Proof.
  intros [H1 H2 _ H4 H5 _]. unfold sel_body. unfold Exclude_empty in *. rewrite H5, (kl_same_elements _ _ H4).
  assert (Hk : KeyLocator_empty (s_publisherPublicKeyLocator s') = KeyLocator_empty (s_publisherPublicKeyLocator s)).
  { unfold KeyLocator_empty. by rewrite (proj1 H4). }
  assert (Hm : forall u n, opt_elem (0 <=? Z.max (-1) n) (u, encoderIntegerBytes (Z.max (-1) n)) = opt_elem (0 <=? n) (u, encoderIntegerBytes n)).
  { intros u n. destruct (Z.leb_spec 0 n); [by rewrite Z.max_r, (proj2 (Z.leb_le 0 n)) by lia|by rewrite Z.max_l by lia]. }
  by rewrite Hk, H1, H2, !Hm.
Qed.

Lemma sel_ok_same s s' : sel_same s s' -> sel_ok s -> len (wires (sel_elements s')) < U64 -> sel_ok s'.
Proof.
  intros [H1 H2 H3 H4 H5 _] [? ? ? Hk He _] Hl. split; [lia..|by eapply kl_same_ok| |done].
  unfold Exclude_empty in *. by rewrite H5.
Qed.

(** The selectors of the fetcher *)
Definition fetch_selectors (child : Z) (f : bool) (s : Selectors) : Selectors := Selectors_setMustBeFresh f (Selectors_setChildSelector child s).

Lemma len_fetch_selectors child f s : 0 <= child < 2 -> len (wires (sel_elements (fetch_selectors child f s))) <= len (wires (sel_body s)) + 5.
Proof.
  intros Hc. rewrite sel_elements_body, !len_app. change (sel_body (fetch_selectors child f s)) with (sel_body s).
  cbn [fetch_selectors Selectors_setMustBeFresh Selectors_setChildSelector s_childSelector s_mustBeFresh].
  assert (H1 : len (wires (opt_elem (0 <=? child) (TlvType.ChildSelector, encoderIntegerBytes child))) = 3) by (assert (child = 0 \/ child = 1) as [-> | ->] by lia; done).
  assert (H2 : len (wires (opt_elem f (TlvType.MustBeFresh, []))) <= 2) by by destruct f.
  lia.
Qed.

Lemma fetch_selectors_ok child f s : 0 <= child < 2 -> sel_ok s -> len (wires (sel_body s)) < 2 ^ 60 -> sel_ok (fetch_selectors child f s).
Proof.
  intros Hc [] Hl. pose proof (len_fetch_selectors child f s Hc). split; cbn [fetch_selectors Selectors_setMustBeFresh Selectors_setChildSelector s_minSuffixComponents
    s_maxSuffixComponents s_publisherPublicKeyLocator s_exclude s_childSelector]; try done; width_lia.
Qed.

Lemma refresh_kept words i : kept i -> good_words words ->
  exists i' nv, refreshNonce words i = Ok i' /\ ip_name i' = ip_name i /\ ip_selectors i' = ip_selectors i /\ ip_interestLifetime i' = ip_interestLifetime i /\
    hasLink i' = false /\ ip_selectedDelegation i' = None /\
    wire (ip_nonce i') = Ok (tlv_wire TlvType.Nonce nv) /\ value_size (ip_nonce i') = 4 /\ length nv = 4%nat /\ wf_bytes nv.
Proof.
  intros [_ _ (nv&buffer&lo&hi&Hn&Hl&Hin) Hw _ Hlk Hsd] (x&y&Hx&Hy&Hne). unfold refreshNonce, hasNonce.
  rewrite (hasWire_of_wire _ _ (ek_wire _ _ Hn)). cbn [negb]. unfold getNonce, hasNonce. rewrite (hasWire_of_wire _ _ (ek_wire _ _ Hn)). cbn [rbind].
  pose proof (ek_size _ _ Hn) as Hs. cbn [snd] in Hs. unfold len in Hs. rewrite Hl in Hs. change (Z.of_nat 4) with 4 in Hs. rewrite Hs. rewrite Z.eqb_refl. cbn [rbind].
  assert (Hf : exists w, List.find (fun w => negb (w =? le_value (value (ip_nonce i)))) words = Some w).
  { destruct (List.find _ words) eqn:Hf; [by eexists|]. exfalso. apply list_elem_of_In in Hx, Hy. pose proof (List.find_none _ _ Hf _ Hx) as H1. pose proof (List.find_none _ _ Hf _ Hy) as H2.
    cbn in H1, H2. lia. }
  destruct Hf as (w&->). unfold setNonce. rewrite Hw, Hs, Z.eqb_refl. cbn [andb].
  assert (Hlb : length (le_bytes w) = 4%nat) by (pose proof (len_le_bytes w); unfold len in *; lia).
  destruct (patched_element _ _ _ (le_bytes w) _ _ _ Hn Hin (eq_trans Hlb (eq_sym Hl))) as [Hpw Hps].
  eexists _, (le_bytes w). split; [done|]. cbn [with_nonce ip_name ip_selectors ip_interestLifetime ip_selectedDelegation ip_nonce].
  split_and!; try done. apply wf_le_bytes.
Qed.

Lemma decoded_nonce b buffer i : m_buffer b = Some buffer -> wf_block b -> m_subBlocks b = [] -> Interest_wireDecode b = Ok i ->
  (exists lo hi, element_in buffer lo hi (ip_nonce i)) /\ Block_size (ip_wire i) = Block_size b.
Proof.
  intros Hbuf Hwf Hsub Hd. destruct (Interest_decode_parts b i Hd) as (w&Hw&Hg&->). unfold Block_parse in Hw.
  destruct (parse b) as [b' [e|]] eqn:Hp; [done|]. injection Hw as ->. destruct (parse_sound b Hwf Hsub) as [_ Hall]; [by rewrite Hp|].
  specialize (Hall buffer Hbuf). rewrite Hp in Hall. cbn [fst] in Hall. split.
  - unfold get, find in Hg. destruct (List.find _ _) as [x|] eqn:Hf; [|done]. injection Hg as <-. apply List.find_some in Hf as [Hf _].
    rewrite Forall_forall in Hall. apply list_elem_of_In in Hf. eauto.
  - assert (Hsame : m_buffer w = m_buffer b /\ m_begin w = m_begin b /\ m_end w = m_end b /\ m_size w = m_size b).
    { unfold parse in Hp. destruct (negb _ || _); [by injection Hp as <-|]. destruct (m_buffer b) as [bf|] eqn:Hbf; [|by injection Hp as <-].
      destruct (parse_loop _ _ _ _ _) as [l x]. by injection Hp as <- _. }
    unfold Block_size, hasWire, hasValue. destruct Hsame as (->&->&->&->). done.
Qed.

Section Express.
Context (maxPacket : Z).

Lemma express_fresh word i nv : fresh i nv -> 0 <= s_childSelector (ip_selectors i) < 2 -> has_room maxPacket (ip_selectors i) (ip_name i) ->
  exists i', expressInterest maxPacket word i = Ok i' /\ kept i' /\ ip_name i' = ip_name i /\ sel_body (ip_selectors i') = sel_body (ip_selectors i) /\ sel_same (ip_selectors i) (ip_selectors i').
Proof.
  intros [Hn Hs (Hnw&Hnv&Hnl&Hnb) Hw Hl Hlk Hsd] Hc [Hr Hmax].
  assert (Hsel : len (wires (sel_elements (ip_selectors i))) <= len (wires (sel_body (ip_selectors i))) + 5).
  { rewrite sel_elements_body, !len_app.
    assert (H1 : len (wires (opt_elem (0 <=? s_childSelector (ip_selectors i)) (TlvType.ChildSelector, encoderIntegerBytes (s_childSelector (ip_selectors i))))) = 3).
    { assert (s_childSelector (ip_selectors i) = 0 \/ s_childSelector (ip_selectors i) = 1) as [-> | ->] by lia; done. }
    assert (H2 : len (wires (opt_elem (s_mustBeFresh (ip_selectors i)) (TlvType.MustBeFresh, []))) <= 2) by by destruct (s_mustBeFresh _).
    lia. }
  assert (Hsize : len (wires (ip_elements i nv [])) <= len (wires (name_elements (ip_name i))) + len (wires (sel_body (ip_selectors i))) + 70).
  { unfold ip_elements. rewrite Hlk. unfold has_selected. rewrite Hsd. cbn [opt_elem]. rewrite !wires_app, !wires_single, !len_app. cbn [fst snd].
    rewrite wires_nil. change (len (@nil Z)) with 0. pose proof (len_tlv_wire_le TlvType.Name (wires (name_elements (ip_name i)))).
    assert (H1 : len (wires (opt_elem (negb (Selectors_empty (ip_selectors i))) (TlvType.Selectors, wires (sel_elements (ip_selectors i))))) <= len (wires (sel_body (ip_selectors i))) + 23).
    { destruct (negb _); cbn [opt_elem]; [rewrite wires_single; cbn [fst snd]|rewrite wires_nil; change (len (@nil Z)) with 0; pose proof (len_nonneg (wires (sel_body (ip_selectors i)))); lia].
      pose proof (len_tlv_wire_le TlvType.Selectors (wires (sel_elements (ip_selectors i)))). lia. }
    assert (H2 : len (tlv_wire TlvType.Nonce nv) = 6) by (rewrite tlv_wire_unfold; unfold len; rewrite !length_app, Hnl; done).
    assert (H3 : len (wires (opt_elem (has_lifetime i) (TlvType.InterestLifetime, encoderIntegerBytes (ip_interestLifetime i)))) <= 10).
    { destruct (has_lifetime i); cbn [opt_elem]; [rewrite wires_single; apply len_integer_field; by vm_compute|by vm_compute]. }
    lia. }
  assert (Hok : ip_ok i nv []).
  { split; try done; [by rewrite Hlk|intros k; by rewrite Hsd|by split; [|constructor]|]. pose proof (len_nonneg (wires (name_elements (ip_name i)))). width_lia. }
  assert (Hch : nonce_chosen word i = Ok i).
  { unfold nonce_chosen, getNonce, hasNonce. rewrite (hasWire_of_wire _ _ Hnw). cbn [rbind]. by rewrite Hnv. }
  destruct (Interest_wire_ok word i i nv [] Hch Hok Hw) as (i'&Hi'&Hread). unfold expressInterest. rewrite Hi'. cbn [rbind].
  assert (Hin : exists b, built b TlvType.Interest (wires (ip_elements i nv [])) /\ Interest_wireDecode b = Ok i').
  { unfold Interest_wire in Hi'. rewrite Hw in Hi'. apply rbind_Ok in Hi' as ([n i1]&Hi1&Hi'). unfold nonce_chosen in Hch. rewrite Hi1 in Hch. injection Hch as ->.
    apply rbind_Ok in Hi' as (u&_&Hi'). apply rbind_Ok in Hi' as (b&Hb&Hi'). apply rbind_Ok in Hi' as (i2&Hi2&[= _ ->]).
    destruct (Encodes_block _ _ _ (Encodes_Interest i nv [] Hok)) as (b'&Hb'&Hbu); [split; [by vm_compute|apply Hok]|]. rewrite Hb' in Hb. injection Hb as ->. by exists b. }
  destruct Hin as (b&Hbu&Hdec). pose proof (wf_fields_bytes _ (wf_ip_elements _ _ _ Hok)) as Hwb.
  destruct (decoded_nonce b _ i' (built_buffer _ _ _ Hbu) (built_wf _ _ _ Hbu Hwb) (built_sub _ _ _ Hbu) Hdec) as [(lo&hi&Hel) ->].
  rewrite (built_total _ _ _ Hbu). cbn [rbind]. pose proof (len_tlv_wire_small TlvType.Interest (wires (ip_elements i nv [])) ltac:(by vm_compute) (io_size _ _ _ Hok)).
  rewrite (proj2 (Z.ltb_ge _ _)) by lia. exists i'. split; [done|]. destruct Hread as [R1 R2 R3 R4 R5 R6 R7 R8]. rewrite Hlk in R5. split_and!; [|done|by apply sel_body_same|done].
  split; [by rewrite R1| | |by eapply hasWire_of_wire| |done|by rewrite R6].
  - eapply sel_ok_same; [exact R2|done|]. rewrite sel_elements_body, (sel_body_same _ _ R2), (ss_child _ _ R2), (ss_fresh _ _ R2), Z.max_r by lia.
    rewrite <- sel_elements_body. apply Hs.
  - by exists nv, (tlv_wire TlvType.Interest (wires (ip_elements i nv []))), lo, hi.
  - rewrite R4. by case_bool.
Qed.
End Express.

(** ** Names of segments *)

Definition segment (k : Z) : Component := generic (SEGMENT_MARKER :: encoderIntegerBytes k).
Definition segment_name (prefix : Name) (k : Z) : Name := prefix ++ [segment k].

Lemma appendSegment_ok prefix k : appendSegment prefix k = Ok (segment_name prefix k).
Proof. unfold appendSegment, fromSegment. by rewrite fromNumberWithMarker_ok. Qed.

Lemma last_segment prefix k : last_component (segment_name prefix k) = Ok (segment k).
Proof. unfold last_component, segment_name. by rewrite last_snoc. Qed.

Lemma segment_number k : 0 <= k < U64 -> isSegment (segment k) = true /\ toSegment (segment k) = Ok k.
Proof.
  intros Hk. pose proof (encoderIntegerSize_cases k) as Hs. unfold toSegment, toNumberWithMarker.
  assert (Hi : isNumberWithMarker SEGMENT_MARKER (segment k) = true).
  { unfold isNumberWithMarker, segment, generic. cbn [c_value]. rewrite Z.eqb_refl, len_cons, len_encoderIntegerBytes. cbn [andb]. by destruct_or! Hs; rewrite Hs. }
  split; [exact Hi|]. rewrite Hi. cbn [negb]. unfold segment, generic. cbn [c_value drop]. rewrite len_cons, len_encoderIntegerBytes.
  replace (1 + encoderIntegerSize k - 1) with (encoderIntegerSize k) by lia. by rewrite readInteger_bytes.
Qed.

Lemma wires_segment prefix k : wires (name_elements (segment_name prefix k)) = wires (name_elements prefix) ++ tlv_wire TlvType.NameComponent (SEGMENT_MARKER :: encoderIntegerBytes k).
Proof. unfold segment_name, name_elements. rewrite map_app, wires_app. cbn [map]. by rewrite wires_single. Qed.

Lemma len_segment_wire k : len (tlv_wire TlvType.NameComponent (SEGMENT_MARKER :: encoderIntegerBytes k)) <= 19.
Proof.
  pose proof (len_integer_bytes k). pose proof (len_tlv_wire_small TlvType.NameComponent (SEGMENT_MARKER :: encoderIntegerBytes k)) as H1. rewrite len_cons in H1. specialize (H1 ltac:(by vm_compute)). width_lia.
Qed.

Lemma name_ok_segment prefix k : 0 <= k -> name_ok prefix -> name_ok (segment_name prefix k).
Proof.
  intros Hk Hn. unfold name_ok, segment_name, name_elements. rewrite map_app. apply wf_fields_app. split; [exact Hn|]. cbn [map]. apply wf_fields_cons. split; [|by split; constructor].
  cbn [segment generic c_type c_value]. pose proof (len_integer_bytes k). split; [split; [by vm_compute|cbn [snd]; rewrite len_cons; width_lia]|]. cbn [snd].
  constructor; [by vm_compute|by apply wf_encoderIntegerBytes].
Qed.

Lemma prefix_of_segment prefix k : len (wires (name_elements prefix)) < 2 ^ 60 -> getPrefix (segment_name prefix k) (-1) = prefix.
Proof.
  intros Hl. apply getPrefix_neg1. pose proof (length_wires_ge (name_elements prefix)) as Hg. unfold name_elements in Hg at 1. rewrite length_map in Hg.
  rewrite len_app. change (len [segment k]) with 1. unfold len in *. width_lia.
Qed.

(** ** Data that carry segments *)

Record carries (d : DataPacket) (n : Name) (bytes : list Z) (isFinal : bool) : Prop := {
  ca_name : dp_name d = n;
  ca_content : exists c, getContent d = Ok c /\ value c = bytes;
  ca_final : if isFinal then last n = Some (mi_finalBlockId (dp_metaInfo d)) else Component_empty (mi_finalBlockId (dp_metaInfo d)) = true
}.

(** [ds] are the Data of the segments from [k] on, and [chunks] their contents. *)
Fixpoint segments_by (P : DataPacket -> Name -> list Z -> bool -> Prop) (prefix : Name) (k : Z) (ds : list DataPacket) (chunks : list (list Z)) : Prop :=
  match ds, chunks with
  | [d], [c] => P d (segment_name prefix k) c true
  | d :: ds, c :: chunks => P d (segment_name prefix k) c false /\ segments_by P prefix (k + 1) ds chunks
  | _, _ => False
  end.
Notation segments_from := (segments_by carries).

(** A Data as it is received: decoded from the bytes it was encoded to *)
Definition received (d d' : DataPacket) : Prop :=
  exists w r, wire (dp_wire d) = Ok w /\ Block_of_buffer w = Ok r /\ DataPacket_of_block r = Ok d'.
Definition delivers (d : DataPacket) (n : Name) (c : list Z) (isFinal : bool) : Prop := exists d', received d d' /\ carries d' n c isFinal.

Lemma segments_received prefix ds : forall k chunks, segments_by delivers prefix k ds chunks -> exists ds', Forall2 received ds ds' /\ segments_from prefix k ds' chunks.
Proof.
  induction ds as [|d ds IH]; intros k chunks H; [done|]. destruct chunks as [|c chunks]; [by destruct ds|]. destruct ds as [|d1 ds].
  - destruct chunks; [|by destruct H]. destruct H as (d'&Hr&Hc). exists [d']. split; [|exact Hc]. constructor; [exact Hr|constructor].
  - destruct H as [(d'&Hr&Hc) H]. destruct (IH (k + 1) chunks H) as (ds'&H2&Hs). exists (d' :: ds'). split; [by constructor|].
    destruct ds' as [|d2 ds']; [by inversion H2|]. by split.
Qed.

Section Fetch.
Context (maxPacket : Z) (prefix : Name) (body : list (Z * list Z)) (net : InterestPacket -> Answer).
Context (Hprefix : name_ok prefix).
Context (Hroom : len (wires (name_elements prefix)) + len (wires body) + 100 <= maxPacket < 2 ^ 60).

(** An Interest of the fetcher *)
Definition asks (n : Name) (i : InterestPacket) : Prop := kept i /\ ip_name i = n /\ sel_body (ip_selectors i) = body.

Lemma fetch_next words i dataName k buffer : asks (ip_name i) i -> (exists j, dataName = segment_name prefix j) -> 0 <= k < U64 -> good_words words ->
  exists i', fetchNextSegment maxPacket words i dataName k buffer = Ok (MkSegmentFetcher buffer (ForInterest i' false 0)) /\ asks (segment_name prefix k) i'.
Proof.
  intros (Hk&_&Hb) (j&->) Hkk Hw. unfold fetchNextSegment. destruct (refresh_kept words i Hk Hw) as (i1&nv&->&H1&H2&H3&H4&H5&H6&H7&H8&H9). cbn [rbind].
  pose proof (len_nonneg (wires body)). pose proof (len_nonneg (wires (name_elements prefix))).
  rewrite prefix_of_segment, appendSegment_ok by width_lia. cbn [rbind].
  set (i2 := Interest_setName _ _). assert (Hsel : ip_selectors i2 = fetch_selectors 0 false (ip_selectors i)) by (cbn; by rewrite H2).
  assert (Hbody : sel_body (ip_selectors i2) = body) by (rewrite Hsel; exact Hb).
  destruct (express_fresh maxPacket (hd 0 words) i2 nv) as (i3&->&Hk3&Hn3&Hb3&_).
  - split; cbn [i2 Interest_setName Interest_setMustBeFresh Interest_setChildSelector with_selectors ip_name ip_nonce ip_interestLifetime ip_selectedDelegation]; try done.
    + apply name_ok_segment; [lia|done].
    + rewrite Hsel. apply fetch_selectors_ok; [lia|apply Hk|]. rewrite Hb. lia.
    + rewrite H3. apply Hk.
  - rewrite Hsel. by cbn.
  - unfold has_room. rewrite Hbody. cbn [i2 Interest_setName ip_name]. rewrite wires_segment, len_app. pose proof (len_segment_wire k). lia.
  - cbn [rbind]. exists i3. split; [done|]. split; [done|]. split; [by rewrite Hn3|by rewrite Hb3].
Qed.

(** The network has the Data [ds] of the segments from [k] on. *)
Definition serves (k : Z) (ds : list DataPacket) : Prop :=
  forall j d i, ds !! j = Some d -> ip_name i = segment_name prefix (k + Z.of_nat j) -> net i = AnsData d true.

Lemma compare_refl c : compare c c = 0.
Proof. apply cmp_refl. Qed.

(** A segment is received when it is expected. *)
Lemma receive_segment words i d k c isFinal buffer zero : asks (ip_name i) i -> 0 <= k < U64 -> k + 1 < U64 -> good_words words ->
  carries d (segment_name prefix k) c isFinal -> zero = false \/ k = 0 ->
  exists i', afterSegmentReceived maxPacket words i d true zero (MkSegmentFetcher buffer (ForInterest i zero 0)) =
      Ok (MkSegmentFetcher (buffer ++ c) (if isFinal then Completed (buffer ++ c) else ForInterest i' false 0)) /\
    (isFinal = false -> asks (segment_name prefix (k + 1)) i').
Proof.
  intros Hi Hk Hk1 Hw [Hn (cb&Hc&Hv) Hf] Hz. unfold afterSegmentReceived, afterValidationSuccess. rewrite Hn, last_segment. cbn [rbind].
  destruct (segment_number k Hk) as [-> ->]. cbn [rbind sf_buffer].
  assert (Hzz : zero && negb (k =? 0) = false) by (destruct Hz as [->| ->]; [done|by rewrite Z.eqb_refl, andb_false_r]). rewrite Hzz, Hc. cbn [rbind]. rewrite Hv.
  destruct isFinal.
  - unfold segment_name in Hf. rewrite last_snoc in Hf. injection Hf as <-. rewrite compare_refl. cbn.
    assert (He : Component_empty (segment k) = false) by (unfold Component_empty, segment, generic; cbn; done). rewrite He. by exists i.
  - rewrite Hf. cbn [orb]. unfold to_u64. rewrite Z.mod_small by lia.
    destruct (fetch_next words i (segment_name prefix k) (k + 1) (buffer ++ c) Hi ltac:(by eexists) ltac:(lia) Hw) as (i'&->&Hi'). by exists i'.
Qed.

Lemma run_done wss buffer : fetch_run maxPacket (map (fun ws => (ws, net)) wss) (MkSegmentFetcher buffer (Completed buffer)) = Ok (MkSegmentFetcher buffer (Completed buffer)).
Proof. by induction wss. Qed.

Lemma fetch_segments ds : forall chunks k i buffer wss zero, segments_from prefix k ds chunks -> serves k ds -> asks (segment_name prefix k) i ->
  0 <= k -> k + len ds < U64 -> Forall good_words wss -> (length ds <= length wss)%nat -> zero = false \/ k = 0 ->
  exists f, fetch_run maxPacket (map (fun ws => (ws, net)) wss) (MkSegmentFetcher buffer (ForInterest i zero 0)) = Ok f /\ sf_waiting f = Completed (buffer ++ concat chunks).
Proof.
  induction ds as [|d ds IH]; intros chunks k i buffer wss zero Hs Hn Hi Hk Hkl Hw Hl Hz; [done|].
  destruct wss as [|ws wss]; [cbn in Hl; lia|]. apply Forall_cons in Hw as [Hw Hws]. cbn [map fetch_run]. unfold fetch_step. cbn [sf_waiting].
  rewrite (Hn 0%nat d i eq_refl) by (rewrite Z.add_0_r; apply Hi). destruct Hi as (Hkp&Hin&Hb). pose proof (len_nonneg ds). rewrite len_cons in Hkl.
  destruct chunks as [|c chunks]; [by destruct ds|]. destruct ds as [|d' ds].
  - destruct chunks as [|c' chunks]; [|by destruct Hs]. cbn [segments_by] in Hs.
    destruct (receive_segment ws i d k c true buffer zero ltac:(by split) ltac:(lia) ltac:(lia) Hw Hs Hz) as (i'&->&_). cbn [rbind concat]. rewrite run_done, app_nil_r. by eexists.
  - cbn [segments_by] in Hs. destruct Hs as [Hs Hss].
    destruct (receive_segment ws i d k c false buffer zero ltac:(by split) ltac:(lia) ltac:(lia) Hw Hs Hz) as (i'&->&Hi'). cbn [rbind concat].
    rewrite app_assoc. apply (IH chunks (k + 1) i' (buffer ++ c) wss false Hss); [|by apply Hi'|lia|lia|done|cbn in *; lia|by left].
    intros j x y Hj Hy. apply (Hn (S j) x y Hj). rewrite Hy. f_equal. lia.
Qed.

(** An Interest without a nonce is expressed with one. *)
Lemma express_first word i : hasNonce i = false -> name_ok (ip_name i) -> sel_ok (ip_selectors i) -> sel_body (ip_selectors i) = body -> ip_interestLifetime i < 2 ^ 63 ->
  hasLink i = false -> ip_selectedDelegation i = None -> len (wires (name_elements (ip_name i))) <= len (wires (name_elements prefix)) ->
  exists i', fetchFirstSegment maxPacket word i = Ok (MkSegmentFetcher [] (ForInterest i' true 0)) /\ asks (ip_name i) i'.
Proof.
  intros Hno Hn Hs Hb Hl Hlk Hsd Hlen. unfold fetchFirstSegment. pose proof (len_nonneg (wires (name_elements prefix))). pose proof (len_nonneg (wires body)).
  set (i1 := Interest_setMustBeFresh true (Interest_setChildSelector 1 i)).
  assert (Hsel : ip_selectors i1 = fetch_selectors 1 true (ip_selectors i)) by done.
  destruct (makeBinaryBlock_ok TlvType.Nonce (le_bytes word)) as (b&Hmk&Hbu); [split; [by vm_compute|cbn [snd]; rewrite len_le_bytes; by vm_compute]|].
  set (i2 := with_nonce b (reset (ip_wire i1)) i1).
  assert (Hg1 : getNonce word i1 = getNonce word i2).
  { unfold getNonce. change (hasNonce i1) with (hasNonce i). rewrite Hno. unfold setNonce. change (hasWire (ip_wire i1)) with false. cbn [andb]. rewrite Hmk. cbn [rbind].
    unfold hasNonce. cbn [with_nonce ip_nonce i2]. by rewrite (hasWire_of_wire _ _ (built_wire _ _ _ Hbu)). }
  assert (He : expressInterest maxPacket word i1 = expressInterest maxPacket word i2).
  { unfold expressInterest, Interest_wire. change (hasWire (ip_wire i1)) with false. change (hasWire (ip_wire i2)) with false. cbn iota. by rewrite Hg1. }
  rewrite He. destruct (express_fresh maxPacket word i2 (le_bytes word)) as (i'&->&Hk'&Hn'&Hb'&_).
  - split; try done; cbn [i2 with_nonce ip_nonce ip_selectors].
    + rewrite Hsel. apply fetch_selectors_ok; [lia|done|]. rewrite Hb. lia.
    + pose proof (len_le_bytes word). split_and!; [apply Hbu|rewrite (built_size _ _ _ Hbu); done|unfold len in *; lia|apply wf_le_bytes].
  - by cbn.
  - unfold has_room. change (sel_body (ip_selectors i2)) with (sel_body (ip_selectors i)). rewrite Hb. change (ip_name i2) with (ip_name i). lia.
  - cbn [rbind]. exists i'. split; [done|]. split; [done|]. split; [done|by rewrite Hb'].
Qed.
End Fetch.

(** A fetch that completes: whatever segment the first Interest brings, the
    fetcher asks for the segments one after the other and puts together their
    contents. *)
Lemma segments_lookup prefix ds : forall k chunks j d, segments_from prefix k ds chunks -> ds !! j = Some d ->
  exists c isFinal, carries d (segment_name prefix (k + Z.of_nat j)) c isFinal.
Proof.
  induction ds as [|d0 ds IH]; intros k chunks j d Hs Hj; [done|]. destruct chunks as [|c chunks]; [by destruct ds|].
  assert (H0 : exists f, carries d0 (segment_name prefix k) c f).
  { destruct ds; [destruct chunks; [by exists true|by destruct Hs]|exists false; apply Hs]. }
  destruct j as [|j]; cbn in Hj; [injection Hj as <-; rewrite Z.add_0_r; by exists c|].
  destruct ds as [|d1 ds]; [done|]. destruct Hs as [_ Hs]. destruct (IH (k + 1) chunks j d Hs Hj) as (c'&f&Hc). exists c', f.
  by replace (k + Z.of_nat (S j)) with (k + 1 + Z.of_nat j) by lia.
Qed.

(** A dataset that was published in segments is fetched whole: when the first
    Interest brings any one of its Data, and the network has the Data of each
    segment, then the fetcher asks for the segments in order, ends after at
    most one event more than there are segments, and gives its client exactly
    the contents of the segments, put together in order. *)
Theorem fetch_complete maxPacket prefix base net ds chunks j d0 word wss :
  name_ok prefix -> len (wires (name_elements prefix)) + len (wires (sel_body (ip_selectors base))) + 100 <= maxPacket < 2 ^ 60 ->
  hasNonce base = false -> name_ok (ip_name base) -> sel_ok (ip_selectors base) -> ip_interestLifetime base < 2 ^ 63 -> hasLink base = false ->
  ip_selectedDelegation base = None -> len (wires (name_elements (ip_name base))) <= len (wires (name_elements prefix)) ->
  segments_from prefix 0 ds chunks -> len ds < U64 -> serves prefix net 0 ds ->
  ds !! j = Some d0 -> (forall i, ip_name i = ip_name base -> net i = AnsData d0 true) ->
  Forall good_words wss -> (length ds < length wss)%nat ->
  exists f0 f, fetchFirstSegment maxPacket word base = Ok f0 /\ fetch_run maxPacket (map (fun ws => (ws, net)) wss) f0 = Ok f /\
    sf_waiting f = Completed (concat chunks).
Proof.
  intros Hp Hr Hno Hn Hs Hl Hlk Hsd Hlen Hseg Hds Hserve Hj Hd0 Hws Hwl.
  destruct (express_first maxPacket prefix (sel_body (ip_selectors base)) Hr word base Hno Hn Hs eq_refl Hl Hlk Hsd Hlen) as (i&->&Hi).
  exists (MkSegmentFetcher [] (ForInterest i true 0)). destruct wss as [|ws wss]; [cbn in Hwl; lia|]. apply Forall_cons in Hws as [Hw Hws]. cbn [map fetch_run]. unfold fetch_step. cbn [sf_waiting].
  rewrite (Hd0 i) by apply Hi. pose proof (lookup_lt_Some _ _ _ Hj) as Hjl. unfold len in Hds. assert (Hi' : asks (sel_body (ip_selectors base)) (ip_name i) i) by (destruct Hi as (?&?&?); by split).
  destruct j as [|j].
  - destruct ds as [|d ds]; [done|]. injection Hj as ->. destruct chunks as [|c chunks]; [by destruct ds|]. cbn [length] in *. destruct ds as [|d1 ds].
    + destruct chunks; [|by destruct Hseg]. destruct (receive_segment maxPacket prefix _ Hp Hr ws i d0 0 c true [] true Hi' ltac:(done) ltac:(done) Hw Hseg ltac:(by right)) as (i1&->&_).
      cbn [rbind concat app]. rewrite run_done, app_nil_r. by eexists.
    + destruct Hseg as [Hc Hseg]. destruct (receive_segment maxPacket prefix _ Hp Hr ws i d0 0 c false [] true Hi' ltac:(done) ltac:(done) Hw Hc ltac:(by right)) as (i1&->&Hi1).
      cbn [rbind concat app]. destruct (fetch_segments maxPacket prefix _ net Hp Hr (d1 :: ds) chunks 1 i1 c wss false Hseg) as (f&Hf&Hc'); [|by apply Hi1|lia| |done|cbn [length] in *; lia|by left|].
      * intros k x y Hk Hy. apply (Hserve (S k) x y Hk). rewrite Hy. f_equal. lia.
      * unfold len in *. cbn [length] in *. lia.
      * by exists f.
  - destruct (segments_lookup prefix ds 0 chunks (S j) d0 Hseg Hj) as (c&fin&[Hnm _ _]). unfold afterSegmentReceived, afterValidationSuccess.
    rewrite Hnm, last_segment. cbn [rbind]. destruct (segment_number (0 + Z.of_nat (S j))) as [-> ->]; [lia|]. cbn [rbind andb sf_buffer].
    rewrite (proj2 (Z.eqb_neq _ _)) by lia. cbn [negb].
    destruct (fetch_next maxPacket prefix _ Hp Hr ws i (segment_name prefix (0 + Z.of_nat (S j))) 0 [] Hi' ltac:(by eexists) ltac:(done) Hw) as (i1&->&Hi1). cbn [rbind].
    destruct (fetch_segments maxPacket prefix _ net Hp Hr ds chunks 0 i1 [] wss false Hseg Hserve Hi1) as (f&Hf&Hc'); [lia|unfold len; lia|done|cbn [length] in *; lia|by left|].
    by exists f.
Qed.

(** After a Nack the fetcher no longer knows which segment it asked for: the
    Interest that is expressed again expects segment 0.  When the Data of a later
    segment comes, the fetcher starts from segment 0 again, and keeps the contents
    it has. *)
Theorem fetch_restarts_after_nack maxPacket prefix body : name_ok prefix -> len (wires (name_elements prefix)) + len (wires body) + 100 <= maxPacket < 2 ^ 60 ->
  (forall words i count f f', reExpressInterest maxPacket words i count f = Ok f' ->
     sf_buffer f' = sf_buffer f /\ exists i', sf_waiting f' = ForInterest i' true (to_u32 (count + 1))) /\
  (forall words i d k c isFinal count buffer, asks body (ip_name i) i -> 0 < k < U64 -> good_words words -> carries d (segment_name prefix k) c isFinal ->
     exists i2, afterSegmentReceived maxPacket words i d true true (MkSegmentFetcher buffer (ForInterest i true count)) =
         Ok (MkSegmentFetcher buffer (ForInterest i2 false 0)) /\ asks body (segment_name prefix 0) i2).
Proof.
  intros Hp Hr. split.
  - intros words i count f f' H. unfold reExpressInterest in H. apply rbind_Ok in H as (i1&_&H). destruct (negb _); [done|]. apply rbind_Ok in H as (i2&_&[= <-]). split; [done|by eexists].
  - intros words i d k c isFinal count buffer Hi Hk Hw [Hn _ _]. unfold afterSegmentReceived, afterValidationSuccess. rewrite Hn, last_segment. cbn [rbind].
    destruct (segment_number k) as [-> ->]; [lia|]. cbn [rbind andb sf_buffer]. rewrite (proj2 (Z.eqb_neq _ _)) by lia. cbn [negb].
    by apply (fetch_next maxPacket prefix body Hp Hr words i (segment_name prefix k) 0 buffer Hi ltac:(by eexists) ltac:(lia) Hw).
Qed.

(** ** Publishing *)

(** [sign] gives the Data a complete signature, of at most [sigmax] bytes, and
    encodes it. *)
Definition signs (sign : DataPacket -> result DataPacket) (sigmax : Z) : Prop := forall d, hasWire (dp_wire d) = false -> mi_appMetaInfo (dp_metaInfo d) = [] ->
  forall cv, name_ok (dp_name d) -> mi_ok (dp_metaInfo d) -> (exists c, getContent d = Ok c /\ wire c = Ok (tlv_wire TlvType.Content cv)) -> wf_bytes cv ->
  len (wires (name_elements (dp_name d))) + len cv < 2 ^ 60 ->
  exists g os sv b d1, dp_ok (Data_setSignature g d) os cv sv /\ len (wires (si_head (sg_info g) ++ os)) + len sv <= sigmax /\
    Data_wire (Data_setSignature g d) = Ok (b, d1) /\ sign d = Ok d1.

Lemma carries_read d d' os cv sv app n fin : dp_read d d' os cv sv app -> carries d n cv fin -> Component_empty (mi_finalBlockId (dp_metaInfo d)) = negb fin ->
  carries d' n cv fin.
Proof.
  intros [Hn (ap&_&[_ _ Hf _]&_) Hc _ _ _ _] [Cn _ Cf] He. split; [by rewrite Hn| |].
  - exists (dp_content d'). split; [|by rewrite (elem_ok_value _ _ Hc)]. unfold getContent.
    assert (Hne : Block_empty_test (dp_content d') = false) by (unfold Block_empty_test; rewrite (elem_ok_type _ _ Hc); by vm_compute).
    rewrite Hne. cbn [rbind]. by rewrite (hasWire_of_wire _ _ (ek_wire _ _ Hc)).
  - cbn in Hf. rewrite He in Hf. destruct fin; cbn [negb] in Hf; [by rewrite Hf|done].
Qed.

Lemma Data_wire_size d os cv sv b d1 : dp_ok d os cv sv -> hasWire (dp_wire d) = false -> Data_wire d = Ok (b, d1) ->
  b = dp_wire d1 /\ dp_read d d1 os cv sv (mi_appMetaInfo (dp_metaInfo d)) /\ Block_size b = Ok (len (tlv_wire TlvType.Data (wires (dp_elements d os cv sv)))).
Proof.
  intros Hok Hw Hd. destruct (Data_wire_ok d os cv sv Hok Hw) as (b'&d'&Hd'&Hb&Hr). rewrite Hd in Hd'. injection Hd' as <- <-. split_and!; [done|done|].
  unfold Data_wire in Hd. rewrite Hw in Hd. destruct (negb _); [done|]. apply rbind_Ok in Hd as (v&Hv&Hd). apply rbind_Ok in Hd as ([ib s]&Hi&Hd).
  apply rbind_Ok in Hd as (c&Hc&Hd). apply rbind_Ok in Hd as (b0&Hb0&Hd). apply rbind_Ok in Hd as (d2&Hd2&[= <- <-]).
  destruct (do_value _ _ _ _ Hok) as (v'&Hv'&Hvw). rewrite Hv in Hv'. injection Hv' as <-. destruct (do_infowire _ _ _ _ Hok) as (ib'&s'&Hi'&Hiw). rewrite Hi in Hi'. injection Hi' as <- <-.
  destruct (do_content _ _ _ _ Hok) as (c'&Hc'&Hcw). rewrite Hc in Hc'. injection Hc' as <-.
  destruct (Encodes_block _ _ _ (Encodes_Data d os cv sv v ib c (do_name _ _ _ _ Hok) (do_meta _ _ _ _ Hok) Hvw Hcw Hiw)) as (b1&Hb1&Hbu); [split; [by vm_compute|apply Hok]|].
  rewrite Hb1 in Hb0. injection Hb0 as ->. rewrite <- (built_total _ _ _ Hbu). unfold Data_wireDecode in Hd2. apply rbind_Ok in Hd2 as (w&Hw'&Hd2).
  repeat (apply rbind_Ok in Hd2 as (?&_&Hd2)). injection Hd2 as <-. cbn [dp_wire].
  destruct (Block_parse_value b0 (dp_elements d os cv sv)) as (l&Hp&_); [apply Hbu, wf_fields_bytes; by apply wf_dp_elements|apply Hbu| |by apply wf_dp_elements|].
  - exact (f_equal snd (built_view _ _ _ Hbu)).
  - rewrite Hp in Hw'. by injection Hw' as <-.
Qed.

Lemma len_zero_nil {A} (l : list A) : len l = 0 -> l = [].
Proof. by destruct l. Qed.

Definition segment_meta (freshness k : Z) (isFinal : bool) : MetaInfo :=
  let m := setFreshnessPeriod freshness MetaInfo_new in if isFinal then setFinalBlockId (segment k) m else m.

Lemma segment_meta_ok freshness k isFinal : 0 <= k -> freshness < 2 ^ 63 ->
  mi_ok (segment_meta freshness k isFinal) /\ Component_empty (mi_finalBlockId (segment_meta freshness k isFinal)) = negb isFinal /\
  len (wires (mi_elements (segment_meta freshness k isFinal))) <= 60 /\ mi_appMetaInfo (segment_meta freshness k isFinal) = [].
Proof.
  intros Hk Hf. pose proof (len_integer_bytes k). assert (Hmi : mi_freshnessPeriod (segment_meta freshness k isFinal) = freshness) by by destruct isFinal.
  assert (Hc : Component_empty (mi_finalBlockId (segment_meta freshness k isFinal)) = negb isFinal) by by destruct isFinal. split_and!; [|done| |by destruct isFinal].
  - split; [by destruct isFinal|by rewrite Hmi| |by destruct isFinal; constructor]. rewrite Hc. destruct isFinal; [right|by left].
    cbn [segment_meta setFinalBlockId mi_finalBlockId segment generic c_type c_value]. split_and!; [done| |rewrite len_cons; lia]. constructor; [by vm_compute|by apply wf_encoderIntegerBytes].
  - unfold mi_elements. rewrite Hc, Hmi. rewrite !wires_app, !len_app.
    assert (H1 : len (wires (opt_elem (0 <=? freshness) (TlvType.FreshnessPeriod, encoderIntegerBytes freshness))) <= 10).
    { destruct (0 <=? freshness); cbn [opt_elem]; [rewrite wires_single; apply len_integer_field; by vm_compute|by vm_compute]. }
    assert (H2 : len (wires (opt_elem (negb (negb isFinal)) (TlvType.FinalBlockId, tlv_wire (c_type (mi_finalBlockId (segment_meta freshness k isFinal)))
        (c_value (mi_finalBlockId (segment_meta freshness k isFinal)))))) <= 45).
    { destruct isFinal; cbn [negb opt_elem]; [rewrite wires_single|by vm_compute]. cbn [fst snd segment_meta setFinalBlockId mi_finalBlockId segment generic c_type c_value].
      pose proof (len_segment_wire k). etrans; [apply len_tlv_wire_le|]. lia. }
    assert (H3 : len (wires (map view (mi_appMetaInfo (segment_meta freshness k isFinal)))) = 0) by by destruct isFinal.
    assert (H4 : mi_type (segment_meta freshness k isFinal) = TlvType.ContentType_Blob) by by destruct isFinal.
    rewrite H4, H3, Z.eqb_refl. cbn [negb opt_elem]. change (len (wires [])) with 0. lia.
Qed.

(** A Data that is ready to be signed *)
Record unsigned (prefix : Name) (freshness k : Z) (c : list Z) (isFinal : bool) (d : DataPacket) : Prop := {
  un_name : dp_name d = segment_name prefix k;
  un_meta : dp_metaInfo d = segment_meta freshness k isFinal;
  un_content : exists b, getContent d = Ok b /\ built b TlvType.Content c;
  un_wire : hasWire (dp_wire d) = false
}.

Section Publish.
Context (maxPacket sigmax freshness : Z) (sign : DataPacket -> result DataPacket) (prefix : Name).
Context (Hsign : signs sign sigmax) (Hprefix : name_ok prefix) (Hfresh : freshness < 2 ^ 63).
Context (Hroom : 2 * (len (wires (name_elements prefix)) + sigmax + 200) <= maxPacket < 2 ^ 59).

Lemma maxSegment_pos : 0 < maxSegment maxPacket /\ 2 * maxSegment maxPacket <= maxPacket /\ 0 <= sigmax.
Proof.
  assert (Hs : 0 <= sigmax).
  { destruct (Hsign (DataPacket_of_name []) eq_refl eq_refl []) as (g&os&sv&_&_&_&Hs&_); [by split; constructor|by split; try done; left|by exists (from_ok Block_empty (makeEmptyBlock TlvType.Content))|constructor|by vm_compute|].
    pose proof (len_nonneg (wires (si_head (sg_info g) ++ os))). pose proof (len_nonneg sv). lia. }
  unfold maxSegment. rewrite Z.shiftr_div_pow2 by done. change (2 ^ 1) with 2. pose proof (len_nonneg (wires (name_elements prefix))).
  pose proof (Z.div_mod maxPacket 2). pose proof (Z.mod_pos_bound maxPacket 2). lia.
Qed.

Lemma send_segment d k c isFinal : unsigned prefix freshness k c isFinal d -> 0 <= k -> wf_bytes c -> len c <= maxSegment maxPacket ->
  exists d1, sign d = Ok d1 /\ put maxPacket d1 = Ok (Some d1) /\ delivers d1 (segment_name prefix k) c isFinal.
Proof.
  intros [Hn Hm (b&Hb&Hbu) Hw] Hk Hc Hl. destruct (segment_meta_ok freshness k isFinal Hk Hfresh) as (Hmo&Hce&Hml&Hma). pose proof maxSegment_pos.
  pose proof (len_segment_wire k) as Hsw. pose proof (len_nonneg (wires (name_elements prefix))).
  assert (Hnl : len (wires (name_elements (segment_name prefix k))) <= len (wires (name_elements prefix)) + 19) by (rewrite wires_segment, len_app; lia).
  destruct (Hsign d Hw) with (cv := c) as (g&os&sv&bw&d1&Hok&Hsm&Hdw&Hs); [by rewrite Hm|rewrite Hn; by apply name_ok_segment|by rewrite Hm|by exists b; split; [|apply Hbu]|done|rewrite Hn; lia|].
  exists d1. split; [done|]. destruct (Data_wire_size _ os c sv bw d1 Hok ltac:(done) Hdw) as (->&Hread&Hsize).
  assert (Hw1 : hasWire (dp_wire d1) = true) by (eapply hasWire_of_wire, Hread). split.
  - unfold put, Data_wire. rewrite Hw1. cbn [rbind]. rewrite Hsize. cbn [rbind].
    assert (Hlen : len (wires (dp_elements (Data_setSignature g d) os c sv)) <= len (wires (name_elements prefix)) + len c + sigmax + 180).
    { unfold dp_elements. cbn [Data_setSignature onChanged dp_name dp_metaInfo dp_signature]. rewrite Hn, Hm, !wires_cons, wires_nil, app_nil_r, !len_app. cbn [fst snd].
      pose proof (len_tlv_wire_le TlvType.Name (wires (name_elements (segment_name prefix k)))). pose proof (len_tlv_wire_le TlvType.MetaInfo (wires (mi_elements (segment_meta freshness k isFinal)))).
      pose proof (len_tlv_wire_le TlvType.Content c). pose proof (len_tlv_wire_le TlvType.SignatureInfo (wires (si_head (sg_info g) ++ os))).
      pose proof (len_tlv_wire_le TlvType.SignatureValue sv). lia. }
    pose proof (len_tlv_wire_le TlvType.Data (wires (dp_elements (Data_setSignature g d) os c sv))). rewrite (proj2 (Z.ltb_ge _ _)) by lia. done.
  - destruct (Block_of_buffer_built TlvType.Data (wires (dp_elements (Data_setSignature g d) os c sv))) as (r&Hr&Hru); [split; [by vm_compute|apply Hok]|].
    destruct (Data_decode_elem r (Data_setSignature g d) (MkDataPacket [] MetaInfo_new Block_empty Signature_new Block_empty []) os c sv) as (d2&Hd2&Hread2); [|done|].
    { apply (built_elem_ok _ _ _ Hru), wf_fields_bytes. by apply wf_dp_elements. }
    exists d2. split; [eexists _, r; split_and!; [apply Hread|done|done]|]. eapply carries_read; [exact Hread2| |by rewrite <- Hce; cbn; rewrite Hm].
    split; cbn [Data_setSignature onChanged dp_name dp_metaInfo]; [done| |].
    + exists b. split; [exact Hb|]. exact (f_equal snd (built_view _ _ _ Hbu)).
    + rewrite Hm. destruct isFinal; [|done]. unfold segment_name. by rewrite last_snoc.
Qed.

(** The contents of the segments, cut from the bytes *)
Lemma publish_loop_ok fuel : forall k bytes, (length bytes < fuel)%nat -> wf_bytes bytes -> 0 <= k -> k + len bytes < 2 ^ 60 ->
  exists ds chunks, publish_loop maxPacket sign fuel prefix freshness k bytes = Ok ds /\ segments_by delivers prefix k ds chunks /\ concat chunks = bytes /\
    Forall (fun c => len c <= maxSegment maxPacket) chunks /\ len ds <= len bytes + 1.
Proof.
  destruct maxSegment_pos as (Hpos&Hmax&_). induction fuel as [|fuel IH]; intros k bytes Hf Hb Hk Hkl; [lia|]. cbn [publish_loop].
  set (c := take (Z.to_nat (maxSegment maxPacket)) bytes). set (rest := drop (Z.to_nat (maxSegment maxPacket)) bytes).
  assert (Hcl : len c <= maxSegment maxPacket) by (unfold c, len; rewrite length_take; lia).
  rewrite appendSegment_ok. cbn [rbind]. unfold Data_setContent_bytes.
  assert (Hcb : wf_bytes c) by by apply wf_bytes_take.
  destruct (makeBinaryBlock_ok TlvType.Content c) as (b&->&Hbu); [split; [by vm_compute|cbn [snd]; width_lia]|]. cbn [rbind]. rewrite last_segment. cbn [rbind].
  set (isFinal := len rest =? 0). set (d0 := Data_setFreshnessPeriod freshness (with_content b (onChanged (DataPacket_of_name (segment_name prefix k))))).
  set (d := if isFinal then Data_setFinalBlockId (segment k) d0 else d0).
  assert (Hun : unsigned prefix freshness k c isFinal d).
  { unfold d. split; [by destruct isFinal|by destruct isFinal| |by destruct isFinal]. exists b. split; [|done].
    assert (Hg : getContent d0 = Ok b).
    { unfold getContent. cbn [d0 Data_setFreshnessPeriod Data_setMetaInfo with_content onChanged dp_content]. unfold Block_empty_test.
      assert (Hty : m_type b = TlvType.Content) by exact (f_equal fst (built_view _ _ _ Hbu)). rewrite Hty. change (TlvType.Content =? u32_max) with false. cbn [rbind]. by rewrite (hasWire_of_wire _ _ (built_wire _ _ _ Hbu)). }
    destruct isFinal; exact Hg. }
  destruct (send_segment d k c isFinal Hun Hk Hcb Hcl) as (d1&->&Hput&Hcar). cbn [rbind]. rewrite Hput. cbn [rbind].
  pose proof (take_drop (Z.to_nat (maxSegment maxPacket)) bytes) as Htd. fold c in Htd. fold rest in Htd. unfold isFinal in *. destruct (Z.eqb_spec (len rest) 0) as [H0|H0].
  - apply len_zero_nil in H0. exists [d1], [c]. split_and!; [done|exact Hcar|cbn; rewrite <- Htd, H0; by rewrite !app_nil_r|by repeat constructor|change (len [d1]) with 1; pose proof (len_nonneg bytes); lia].
  - assert (Hrl : len rest = len bytes - maxSegment maxPacket /\ 0 < len rest).
    { unfold rest, len in *. rewrite length_drop in *. lia. }
    unfold to_u64. rewrite Z.mod_small by width_lia.
    destruct (IH (k + 1) rest) as (ds&chunks&->&Hs&Hcc&Hall&Hlen); [unfold len in *; lia|by apply wf_bytes_drop|lia|lia|]. cbn [rbind].
    exists (d1 :: ds), (c :: chunks). split_and!; [done| |cbn [concat]; by rewrite Hcc|by constructor|rewrite len_cons; lia].
    destruct ds as [|d2 ds]; [destruct chunks; by destruct Hs|]. by split.
Qed.
End Publish.

(** ** Appending blocks *)

(** The calls of the data sender for the segments from [k] on *)
Record is_sent (maxPacket : Z) (prefix : Name) (freshness : Z) (isFinal : bool) (k : Z) (c : list Z) (s : Sent) : Prop := {
  is_name : sd_name s = segment_name prefix k;
  is_content : built (sd_content s) TlvType.Content c;
  is_meta : sd_metaInfo s = segment_meta freshness k isFinal;
  is_len : len c <= maxSegment maxPacket
}.

Fixpoint sent_from (maxPacket : Z) (prefix : Name) (freshness k : Z) (l : list Sent) (chunks : list (list Z)) : Prop :=
  match l, chunks with
  | [], [] => True
  | s :: l, c :: chunks => is_sent maxPacket prefix freshness false k c s /\ sent_from maxPacket prefix freshness (k + 1) l chunks
  | _, _ => False
  end.

Lemma sent_from_bounded maxPacket prefix freshness l : forall k chunks, sent_from maxPacket prefix freshness k l chunks ->
  Forall (fun c => len c <= maxSegment maxPacket) chunks.
Proof.
  induction l as [|s l IH]; intros k [|c chunks] H; try done. destruct H as [Hs H]. constructor; [apply Hs|by eapply IH].
Qed.

Lemma sent_from_app maxPacket prefix freshness l l' chunks chunks' : forall k, sent_from maxPacket prefix freshness k l chunks -> sent_from maxPacket prefix freshness (k + len l) l' chunks' ->
  sent_from maxPacket prefix freshness k (l ++ l') (chunks ++ chunks').
Proof.
  revert chunks. induction l as [|s l IH]; intros [|c chunks] k H1 H2; cbn in H1; try done.
  - by rewrite len_nil, Z.add_0_r in H2.
  - destruct H1 as [H1 H3]. split; [done|]. apply IH; [done|]. rewrite len_cons in H2. by replace (k + 1 + len l) with (k + (1 + len l)) by lia.
Qed.

Lemma EncodingBuffer_ok maxPacket : Encoder.inv (EncodingBuffer_new maxPacket) /\ Encoder.content (EncodingBuffer_new maxPacket) = [].
Proof.
  unfold EncodingBuffer_new, Encoder.inv, Encoder.content, Encoder.create. cbn [Encoder.e_begin Encoder.e_end Encoder.e_buffer].
  rewrite length_replicate. split; [lia|]. unfold slice. by rewrite Nat.sub_diag.
Qed.

Lemma size_content e : Encoder.inv e -> Encoder.size e = len (Encoder.content e).
Proof. unfold Encoder.inv, Encoder.size, Encoder.content. intros H. unfold len, slice. rewrite length_take, length_drop. lia. Qed.

Section Append.
Context (maxPacket freshness : Z) (prefix interest : Name).
Context (Hpos : 0 < maxSegment maxPacket < 2 ^ 60).

(** A context that has sent the segments before [k], with [c] in its buffer *)
Record context_at (s : ContextState) (k : Z) (c : list Z) (x : StatusDatasetContext) : Prop := {
  cx_interest : sx_interest x = interest;
  cx_prefix : sx_prefix x = prefix;
  cx_expiry : sx_expiry x = freshness;
  cx_buffer : Encoder.inv (sx_buffer x) /\ Encoder.content (sx_buffer x) = c /\ len c <= maxSegment maxPacket;
  cx_segmentNo : sx_segmentNo x = k;
  cx_state : sx_state x = s
}.

Lemma segment_of_ok s k c x isFinal : context_at s k c x -> 0 <= k ->
  exists sent, segment_of x isFinal = Ok sent /\ is_sent maxPacket prefix freshness isFinal k c sent.
Proof.
  intros [_ Hp He (_&Hc&Hl) Hk _] Hk0. unfold segment_of. rewrite Hp, Hk, appendSegment_ok. cbn [rbind]. rewrite Hc.
  destruct (makeBinaryBlock_ok TlvType.Content c) as (b&->&Hb); [split; [by vm_compute|cbn [snd]; width_lia]|]. cbn [rbind]. rewrite last_segment, He. cbn [rbind].
  eexists. split; [done|]. split; [done|done|by destruct isFinal|done].
Qed.

(** A buffer that is full costs one more iteration, and one more segment. *)
Definition full (c : list Z) : nat := if decide (len c = maxSegment maxPacket) then 1 else 0.
Lemma full_nil : full [] = 0%nat.
Proof. unfold full. rewrite decide_False; [done|]. rewrite len_nil. lia. Qed.
Lemma full_consumes c n m : len c <= maxSegment maxPacket -> n = Z.min m (maxSegment maxPacket - len c) -> 0 < m -> 1 <= n + Z.of_nat (full c).
Proof. unfold full. intros. destruct (decide _); lia. Qed.

Lemma append_loop_ok s fuel : forall bytes k c x, context_at s k c x -> 0 <= k -> k + len bytes + Z.of_nat (full c) + 2 < 2 ^ 60 ->
  (length bytes + full c <= fuel)%nat ->
  exists l chunks c' x', append_loop maxPacket fuel bytes x = Ok (l, x') /\ sent_from maxPacket prefix freshness k l chunks /\ concat chunks ++ c' = c ++ bytes /\
    context_at s (k + len l) c' x' /\ len l <= len bytes + Z.of_nat (full c).
Proof.
  assert (Hnil : forall fuel k c x, context_at s k c x -> exists l chunks c' x', append_loop maxPacket fuel [] x = Ok (l, x') /\ sent_from maxPacket prefix freshness k l chunks /\
    concat chunks ++ c' = c ++ [] /\ context_at s (k + len l) c' x' /\ len l <= 0 + Z.of_nat (full c)).
  { intros n k c x Hx. exists [], [], c, x. rewrite len_nil, Z.add_0_r, app_nil_r. split_and!; [by destruct n|done|done|done|lia]. }
  induction fuel as [|fuel IH]; intros bytes k c x Hx Hk Hkl Hf.
  - destruct bytes as [|b bytes]; [by apply Hnil|cbn in Hf; lia].
  - destruct bytes as [|b0 bytes0] eqn:Hbytes; [by apply Hnil|]. clear Hnil.
    assert (Hne : 0 < len bytes) by (rewrite Hbytes, len_cons; pose proof (len_nonneg bytes0); lia). rewrite <- Hbytes in *. clear Hbytes.
    replace (append_loop maxPacket (S fuel) bytes x) with
      (let nBytesAppend := Z.min (len bytes) (maxSegment maxPacket - Encoder.size (sx_buffer x)) in
       let '(_, buffer) := Encoder.appendByteArray (take (Z.to_nat nBytesAppend) bytes) (sx_buffer x) in
       let x := with_buffer buffer (sx_segmentNo x) x in
       let left := drop (Z.to_nat nBytesAppend) bytes in
       if 0 <? len left then
         let! s := segment_of x false in
         let! (l, x) := append_loop maxPacket fuel left (with_buffer (EncodingBuffer_new maxPacket) (to_u64 (sx_segmentNo x + 1)) x) in Ok (s :: l, x)
       else append_loop maxPacket fuel left x) by by destruct bytes.
    destruct (cx_buffer _ _ _ _ Hx) as (Hi&Hc&Hcl). rewrite (size_content _ Hi), Hc. set (n := Z.min (len bytes) (maxSegment maxPacket - len c)). cbv zeta.
    assert (Hn : 0 <= n <= len bytes) by lia. pose proof (full_consumes c n (len bytes) Hcl eq_refl Hne) as Hfull.
    destruct (EncoderFacts.Appends_ByteArray (take (Z.to_nat n) bytes) (sx_buffer x) Hi) as (_&Hi'&Hc').
    destruct (Encoder.appendByteArray _ _) as [m buffer]. cbn [fst snd] in *. rewrite Hc in Hc'.
    set (c1 := c ++ take (Z.to_nat n) bytes) in *. set (left := drop (Z.to_nat n) bytes).
    assert (Hl1 : len c1 = len c + n) by (unfold c1; rewrite len_app; unfold len in *; rewrite length_take; lia).
    assert (Hll : len left = len bytes - n) by (unfold left, len in *; rewrite length_drop; lia).
    assert (Hx1 : context_at s k c1 (with_buffer buffer (sx_segmentNo x) x)).
    { split; try apply Hx. cbn [with_buffer sx_buffer]. split_and!; [done|done|lia]. }
    assert (Hcat : c1 ++ left = c ++ bytes) by (unfold c1, left; by rewrite <- app_assoc, take_drop).
    destruct (Z.ltb_spec 0 (len left)) as [Hleft|Hleft].
    + destruct (segment_of_ok s k c1 _ false Hx1 Hk) as (sent&->&Hsent). cbn [rbind with_buffer sx_segmentNo]. rewrite (cx_segmentNo _ _ _ _ Hx).
      unfold to_u64. rewrite Z.mod_small by width_lia. set (x2 := with_buffer (EncodingBuffer_new maxPacket) (k + 1) _).
      destruct (EncodingBuffer_ok maxPacket) as [Hbi Hbc].
      destruct (IH left (k + 1) [] x2) as (l&chunks&c'&x'&->&Hsf&Hcc&Hx'&Hlen).
      * split; try apply Hx; [|done]. cbn [x2 with_buffer sx_buffer]. split_and!; [done|done|change (len (@nil Z)) with 0; lia].
      * lia.
      * rewrite full_nil. lia.
      * rewrite full_nil. unfold len in *. lia.
      * cbn [rbind]. exists (sent :: l), (c1 :: chunks), c', x'. rewrite full_nil in Hlen. split_and!; [done|by split| | |rewrite len_cons; lia].
        -- cbn [concat]. rewrite <- app_assoc, Hcc. cbn [app]. exact Hcat.
        -- rewrite len_cons. by replace (k + (1 + len l)) with (k + 1 + len l) by lia.
    + assert (Hnil : left = []) by (apply len_zero_nil; pose proof (len_nonneg left); lia). rewrite Hnil in *.
      exists [], [], c1, (with_buffer buffer (sx_segmentNo x) x). rewrite app_nil_r in Hcat. cbn [concat app]. rewrite len_nil, Z.add_0_r.
      destruct fuel; split_and!; try done; lia.
Qed.
End Append.

Section Context.
Context (maxPacket sigmax freshness : Z) (sign : DataPacket -> result DataPacket) (prefix interest : Name).
Context (Hsign : signs sign sigmax) (Hprefix : name_ok prefix) (Hfresh : freshness < 2 ^ 63).
Context (Hroom : 2 * (len (wires (name_elements prefix)) + sigmax + 200) <= maxPacket < 2 ^ 59).
Notation at_segment := (context_at maxPacket freshness prefix interest).

Lemma segment_bounds : 0 < maxSegment maxPacket < 2 ^ 60.
Proof. destruct (maxSegment_pos maxPacket sigmax sign prefix Hsign Hroom) as (?&?&?). lia. Qed.

Lemma append_all_ok blocks ws : Forall2 (fun b w => wire b = Ok w) blocks ws -> forall s k c x, at_segment s k c x -> s <> FINALIZED -> 0 <= k ->
  k + len (concat ws) + len ws < 2 ^ 59 ->
  exists l chunks c' x' s', append_all maxPacket blocks x = Ok (l, x') /\ sent_from maxPacket prefix freshness k l chunks /\ concat chunks ++ c' = c ++ concat ws /\
    at_segment s' (k + len l) c' x' /\ s' <> FINALIZED /\ len l <= len (concat ws) + len ws.
Proof.
  induction 1 as [|b w blocks ws Hb H2 IH]; intros s k c x Hx Hs Hk Hkl; cbn [append_all].
  - exists [], [], c, x, s. cbn [concat app]. rewrite len_nil, Z.add_0_r, app_nil_r. by split_and!.
  - unfold append. assert (Hm : (match sx_state x with FINALIZED => Err DomainError
      | _ => let! bytes := wire b in append_loop maxPacket (length bytes + 2) bytes (in_state RESPONDED x) end) = append_loop maxPacket (length w + 2) w (in_state RESPONDED x)).
    { rewrite (cx_state _ _ _ _ _ _ _ _ Hx), Hb. by destruct s. }
    rewrite Hm. cbn [concat] in Hkl. rewrite len_app, len_cons in Hkl. pose proof (len_nonneg (concat ws)). pose proof (len_nonneg ws).
    assert (Hf : (full maxPacket c <= 1)%nat) by (unfold full; destruct (decide _); lia).
    destruct (append_loop_ok maxPacket freshness prefix interest segment_bounds RESPONDED (length w + 2) w k c (in_state RESPONDED x)) as (l&chunks&c1&x1&->&Hsf&Hcc&Hx1&Hl).
    { by destruct Hx. } { done. } { lia. } { lia. }
    cbn [rbind]. destruct (IH RESPONDED (k + len l) c1 x1 Hx1) as (l'&chunks'&c'&x'&s'&->&Hsf'&Hcc'&Hx'&Hs'&Hl'); [done|pose proof (len_nonneg l); lia|lia|].
    cbn [rbind]. exists (l ++ l'), (chunks ++ chunks'), c', x', s'. split_and!; [done|by apply sent_from_app| | |done|].
    + rewrite concat_app, <- app_assoc, Hcc'. cbn [concat]. rewrite !app_assoc. f_equal. done.
    + rewrite len_app. by replace (k + (len l + len l')) with (k + len l + len l') by lia.
    + rewrite len_app, len_cons. cbn [concat]. rewrite len_app. lia.
Qed.

Lemma send_sent s k c isFinal : is_sent maxPacket prefix freshness isFinal k c s -> 0 <= k -> wf_bytes c ->
  exists d, sendData maxPacket sign s = Ok [d] /\ delivers d (segment_name prefix k) c isFinal.
Proof.
  intros [Hn Hb Hm Hl] Hk Hc. unfold sendData, Data_setContent_block. assert (Hty : m_type (sd_content s) = TlvType.Content) by exact (f_equal fst (built_view _ _ _ Hb)).
  rewrite Hty, Z.eqb_refl. cbn [rbind].
  destruct (send_segment maxPacket sigmax freshness sign prefix Hsign Hprefix Hfresh Hroom
    (Data_setMetaInfo (sd_metaInfo s) (with_content (sd_content s) (onChanged (DataPacket_of_name (sd_name s))))) k c isFinal) as (d1&->&Hput&Hd).
  - split; [done|by rewrite <- Hm| |done]. exists (sd_content s). split; [|done]. unfold getContent.
    cbn [Data_setMetaInfo with_content onChanged dp_content]. unfold Block_empty_test. rewrite Hty. change (TlvType.Content =? u32_max) with false. cbn [rbind].
    by rewrite (hasWire_of_wire _ _ (built_wire _ _ _ Hb)).
  - done.
  - done.
  - done.
  - cbn [rbind]. rewrite Hput. cbn [rbind option_list]. by exists d1.
Qed.

Lemma segments_length P n ds : forall k chunks, segments_by P n k ds chunks -> length ds = length chunks.
Proof.
  induction ds as [|d ds IH]; intros k chunks H; [by destruct chunks|]. destruct chunks as [|c chunks]; [by destruct ds|]. destruct ds as [|d1 ds].
  - by destruct chunks; [|destruct H].
  - destruct H as [_ H]. cbn [length]. f_equal. by apply (IH (k + 1)).
Qed.
Lemma sent_length max n f l : forall k chunks, sent_from max n f k l chunks -> length l = length chunks.
Proof.
  induction l as [|s l IH]; intros k [|c chunks] H; try done. destruct H as [_ H]. cbn [length]. f_equal. by apply (IH (k + 1)).
Qed.

Lemma send_all_sent l s c : forall k chunks, sent_from maxPacket prefix freshness k l chunks -> is_sent maxPacket prefix freshness true (k + len l) c s ->
  0 <= k -> Forall wf_bytes chunks -> wf_bytes c ->
  exists ds, sendAll maxPacket sign (l ++ [s]) = Ok ds /\ segments_by delivers prefix k ds (chunks ++ [c]).
Proof.
  induction l as [|s0 l IH]; intros k [|c0 chunks] Hl Hs Hk Hc Hcs; cbn in Hl; try done.
  - rewrite len_nil, Z.add_0_r in Hs. cbn [app sendAll]. destruct (send_sent s k c true Hs Hk Hcs) as (d&->&Hd). cbn [rbind app]. by exists [d].
  - destruct Hl as [H0 Hl]. apply Forall_cons in Hc as [Hc0 Hc]. cbn [app sendAll]. destruct (send_sent s0 k c0 false H0 Hk Hc0) as (d&->&Hd). cbn [rbind].
    rewrite len_cons in Hs. destruct (IH (k + 1) chunks Hl) as (ds&->&Hds); [by replace (k + 1 + len l) with (k + (1 + len l)) by lia|lia|done|done|].
    cbn [rbind app]. exists (d :: ds). split; [done|]. destruct ds as [|d1 ds]; [by destruct (chunks ++ [c])|]. by split.
Qed.

Lemma wf_concat (cs : list (list Z)) : wf_bytes (concat cs) -> Forall wf_bytes cs.
Proof. induction cs as [|c cs IH]; [constructor|]. cbn [concat]. intros [? ?]%wf_bytes_app. constructor; [done|by apply IH]. Qed.

Lemma publish_context blocks ws x : Forall2 (fun b w => wire b = Ok w) blocks ws -> wf_bytes (concat ws) -> at_segment INITIAL 0 [] x -> len (concat ws) + len ws < 2 ^ 59 ->
  exists l x1 l' x2 ds chunks, append_all maxPacket blocks x = Ok (l, x1) /\ end_ x1 = Ok (l', x2) /\ sendAll maxPacket sign (l ++ l') = Ok ds /\
    segments_by delivers prefix 0 ds chunks /\ concat chunks = concat ws /\
    Forall (fun c => 2 * len c <= maxPacket) chunks /\ len ds <= len (concat ws) + len ws + 1 /\ sx_state x2 = FINALIZED.
Proof.
  intros Hb Hwf Hx Hl. destruct (append_all_ok blocks ws Hb INITIAL 0 [] x Hx) as (l&chunks&c&x1&s&->&Hsf&Hcc&Hx1&Hs&Hlen); [done|done|lia|].
  exists l, x1. unfold end_. pose proof (cx_state _ _ _ _ _ _ _ _ Hx1) as Hst. pose proof (len_nonneg l).
  assert (Hx2 : at_segment FINALIZED (0 + len l) c (in_state FINALIZED x1)) by by destruct Hx1.
  destruct (segment_of_ok maxPacket freshness prefix interest segment_bounds FINALIZED (0 + len l) c _ true Hx2) as (sent&Hsent&Hiss); [lia|].
  exists [sent], (with_buffer (sx_buffer (in_state FINALIZED x1)) (to_u64 (sx_segmentNo (in_state FINALIZED x1) + 1)) (in_state FINALIZED x1)).
  cbn [app] in Hcc. rewrite <- Hcc in Hwf. apply wf_bytes_app in Hwf as [Hw1 Hw2].
  destruct (send_all_sent l sent c 0 chunks Hsf Hiss) as (ds&Hds&Hseg); [done|by apply wf_concat|done|].
  exists ds, (chunks ++ [c]). split_and!; [done| |done|done|by rewrite concat_app; cbn [concat]; rewrite app_nil_r| | |done].
  - rewrite Hst. destruct s; try done; by rewrite Hsent.
  - destruct (maxSegment_pos maxPacket sigmax sign prefix Hsign Hroom) as (_&Hhalf&_). apply Forall_app. split; [|apply Forall_singleton].
    + eapply Forall_impl; [exact (sent_from_bounded _ _ _ _ _ _ Hsf)|]. intros x0 Hx0. cbv beta in Hx0. lia.
    + pose proof (is_len _ _ _ _ _ _ _ Hiss). lia.
  - pose proof (segments_length _ _ _ _ _ Hseg) as H1. pose proof (sent_length _ _ _ _ _ _ Hsf) as H2. rewrite length_app in H1. cbn [length] in H1. unfold len in *. cbn [full_nil] in Hlen. lia.
Qed.
End Context.

(** The network delivers the Data that were sent: those of segments to the
    Interests that name them. *)
Definition network (prefix : Name) (ds : list DataPacket) (net : InterestPacket -> Answer) : Prop :=
  forall j d, ds !! j = Some d -> exists d', received d d' /\ forall i, ip_name i = segment_name prefix (Z.of_nat j) -> net i = AnsData d' true.

(** C24. A status dataset arrives whole: whatever blocks a handler appends to the
    context of a dataset, the Data that the dispatcher sends, signs and encodes
    carry their bytes in order, in segments of at most half a packet; a fetcher that gets the
    Data as they are decoded from the wire, and any one of them for its first
    Interest, ends with exactly the bytes of the blocks in order.  Afterwards the
    context takes no more blocks.  (The name with its version and segment, and the signature,
    leave half of the packet free; the Interest that the fetcher starts from fits into a packet
    and has no nonce, link or delegation; and for each request two of the random words
    that are drawn differ.) *)
Theorem dataset_fetched maxPacket sigmax sign interest now blocks ws x0 base :
  signs sign sigmax -> wf_bytes (concat ws) -> Forall2 (fun b w => wire b = Ok w) blocks ws ->
  StatusDatasetContext_new maxPacket now interest = Ok x0 -> name_ok (sx_prefix x0) ->
  2 * (len (wires (name_elements (sx_prefix x0))) + sigmax + 200) <= maxPacket < 2 ^ 59 -> len (concat ws) + len ws < 2 ^ 58 ->
  hasNonce base = false -> ip_name base = interest -> sel_ok (ip_selectors base) -> ip_interestLifetime base < 2 ^ 63 -> hasLink base = false ->
  ip_selectedDelegation base = None -> len (wires (name_elements (sx_prefix x0))) + len (wires (sel_body (ip_selectors base))) + 100 <= maxPacket ->
  exists l x1 l' x2 ds, append_all maxPacket blocks x0 = Ok (l, x1) /\ end_ x1 = Ok (l', x2) /\ sendAll maxPacket sign (l ++ l') = Ok ds /\
    (forall b, append maxPacket b x2 = Err DomainError) /\
    (exists chunks, segments_by delivers (sx_prefix x0) 0 ds chunks /\ concat chunks = concat ws /\ Forall (fun c => 2 * len c <= maxPacket) chunks) /\
    forall net word wss j, network (sx_prefix x0) ds net -> (forall i, ip_name i = interest -> exists d d', ds !! j = Some d /\ received d d' /\ net i = AnsData d' true) ->
      Forall good_words wss -> (length ds < length wss)%nat ->
      exists f0 f, fetchFirstSegment maxPacket word base = Ok f0 /\ fetch_run maxPacket (map (fun ws => (ws, net)) wss) f0 = Ok f /\
        sf_waiting f = Completed (concat ws).
Proof.
  intros Hsign Hwf Hblocks Hnew Hp Hroom Hl Hno Hbn Hsel Hlife Hlk Hsd Hbr.
  assert (Hx0 : context_at maxPacket 1000 (sx_prefix x0) interest INITIAL 0 [] x0 /\ name_ok interest /\ len (wires (name_elements interest)) <= len (wires (name_elements (sx_prefix x0)))).
  { unfold StatusDatasetContext_new, setPrefix in Hnew. cbn [sx_interest sx_state] in Hnew. destruct (negb _); [done|]. apply rbind_Ok in Hnew as (c&_&Hnew). apply rbind_Ok in Hnew as (p&Hpre&[= <-]).
    destruct (EncodingBuffer_ok maxPacket) as [H1 H2]. destruct (maxSegment_pos maxPacket sigmax sign (sx_prefix _) Hsign Hroom) as (?&_&_).
    split; [split; try done; split_and!; [done|done|cbn [sx_prefix] in *; change (len (@nil Z)) with 0; lia]|]. cbn [sx_prefix] in *. destruct (negb (isVersion c)).
    - unfold appendVersion in Hpre. apply rbind_Ok in Hpre as (v&_&[= <-]). unfold Name.append, name_ok, name_elements in *. rewrite map_app, wires_app, len_app in *.
      apply wf_fields_app in Hp as [Hp _]. split; [done|]. pose proof (len_nonneg (wires (map (fun c => (c_type c, c_value c)) [v]))). lia.
    - injection Hpre as <-. done. }
  destruct Hx0 as (Hx0&Hin&Hinl).
  destruct (publish_context maxPacket sigmax 1000 sign (sx_prefix x0) interest Hsign Hp ltac:(done) Hroom blocks ws x0 Hblocks Hwf Hx0) as (l&x1&l'&x2&ds&chunks&Ha&He&Hs&Hseg&Hcc&Hhalf&Hlen&Hst); [lia|].
  exists l, x1, l', x2, ds. split_and!; [done|done|done|intros b; unfold append; by rewrite Hst|by exists chunks|].
  intros net word wss j Hnet Hfirst Hws Hwl. destruct (segments_received _ _ _ _ Hseg) as (ds'&H2&Hseg').
  (* the Data that are received, as the network decodes them *)
  assert (Hdet : forall d d1 d2, received d d1 -> received d d2 -> d1 = d2).
  { intros d d1 d2 (w&r&Hw&Hr&Hd) (w'&r'&Hw'&Hr'&Hd'). rewrite Hw in Hw'. injection Hw' as <-. rewrite Hr in Hr'. injection Hr' as <-. rewrite Hd in Hd'. by injection Hd' as <-. }
  rewrite <- Hcc. assert (Hlen' : length ds' = length ds) by (symmetry; by eapply Forall2_length).
  destruct (express_first maxPacket (sx_prefix x0) (sel_body (ip_selectors base)) ltac:(lia) word base Hno ltac:(by rewrite Hbn) Hsel eq_refl Hlife Hlk Hsd ltac:(by rewrite Hbn)) as (i0&_&Hi0).
  destruct (Hfirst i0) as (d&d'&Hj&Hrec&Hneti); [rewrite <- Hbn; apply Hi0|].
  destruct (Forall2_lookup_l _ _ _ _ _ H2 Hj) as (d2&Hj2&Hrec2). pose proof (Hdet _ _ _ Hrec Hrec2) as <-.
  apply (fetch_complete maxPacket (sx_prefix x0) base net ds' chunks j d' word wss); try done; try (by rewrite Hbn); [lia|unfold len in *; width_lia| | |lia].
  - intros k y i Hk Hy. destruct (Forall2_lookup_r _ _ _ _ _ H2 Hk) as (z&Hz&Hrz). destruct (Hnet k z Hz) as (z'&Hrz'&Hi). rewrite (Hdet _ _ _ Hrz Hrz'). apply Hi. by rewrite Hy.
  - intros i Hi. rewrite Hbn in Hi. destruct (Hfirst i Hi) as (e&e'&He1&He2&->). rewrite Hj in He1. injection He1 as <-. by rewrite (Hdet _ _ _ He2 Hrec).
Qed.

(** [SegmentPublisher::publish] cuts the bytes likewise. *)
Theorem publish_segments maxPacket sigmax freshness sign now prefix bytes : signs sign sigmax -> name_ok prefix -> 0 <= now < U64 -> freshness < 2 ^ 63 ->
  2 * (len (wires (name_elements prefix)) + 19 + sigmax + 200) <= maxPacket < 2 ^ 59 -> wf_bytes bytes -> len bytes < 2 ^ 59 ->
  exists segmentPrefix ds chunks, appendVersion prefix now = Ok segmentPrefix /\ publish maxPacket sign now prefix freshness bytes = Ok ds /\
    segments_by delivers segmentPrefix 0 ds chunks /\ concat chunks = bytes /\ Forall (fun c => len c <= maxSegment maxPacket) chunks.
Proof.
  intros Hsign Hp Hnow Hf Hroom Hwf Hl. unfold publish, appendVersion, fromVersion. rewrite fromNumberWithMarker_ok. cbn [rbind].
  set (v := generic (VERSION_MARKER :: encoderIntegerBytes now)). change (Name.append prefix v) with (prefix ++ [v]).
  assert (Hv : len (tlv_wire TlvType.NameComponent (c_value v)) <= 19).
  { pose proof (len_integer_bytes now). cbn [v generic c_value]. pose proof (len_tlv_wire_small TlvType.NameComponent (VERSION_MARKER :: encoderIntegerBytes now)) as H1.
    rewrite len_cons in H1. specialize (H1 ltac:(by vm_compute)). width_lia. }
  assert (Hpv : name_ok (prefix ++ [v]) /\ len (wires (name_elements (prefix ++ [v]))) <= len (wires (name_elements prefix)) + 19).
  { unfold name_ok, name_elements. rewrite map_app, wires_app, len_app. cbn [map]. rewrite wires_single. split; [|cbn [fst snd]; change (c_type v) with TlvType.NameComponent; lia].
    apply wf_fields_app. split; [exact Hp|]. apply wf_fields_cons. split; [|by split; constructor]. pose proof (len_integer_bytes now).
    split; [split; [by vm_compute|cbn [v generic c_value snd]; rewrite len_cons; width_lia]|]. cbn [snd v generic c_value]. constructor; [by vm_compute|apply wf_encoderIntegerBytes; lia]. }
  destruct (publish_loop_ok maxPacket sigmax freshness sign (prefix ++ [v]) Hsign (proj1 Hpv) Hf ltac:(lia) (S (length bytes)) 0 bytes) as (ds&chunks&Hpub&Hs&Hc&Hall&_); [lia|done|lia|lia|].
  exists (prefix ++ [v]), ds, chunks. by split_and!.
Qed.

Module SegmentSamples.
(** A key chain that writes a signature of four bytes *)
Definition signature : Signature := Eval vm_compute in
  MkSignature (MkSignatureInfo 0 false KeyLocator_new [] Block_empty) (from_ok Block_empty (makeBinaryBlock TlvType.SignatureValue [1; 2; 3; 4])).
Definition sign (d : DataPacket) : result DataPacket := let! (_, d) := Data_wire (Data_setSignature signature d) in Ok d.

Lemma len_mi m : mi_ok m -> mi_appMetaInfo m = [] -> len (wires (mi_elements m)) <= 2 ^ 60 + 60.
Proof.
  intros [_ _ Hf _] Ha. unfold mi_elements. rewrite Ha, !wires_app, !len_app. change (len (wires (map view []))) with 0.
  assert (H1 : forall b t n, 0 <= t < 253 -> len (wires (opt_elem b (t, encoderIntegerBytes n))) <= 10).
  { intros [] t n Ht; cbn [opt_elem]; [rewrite wires_single; by apply len_integer_field|by vm_compute]. }
  pose proof (H1 (negb (mi_type m =? TlvType.ContentType_Blob)) TlvType.ContentType (mi_type m) ltac:(by vm_compute)).
  pose proof (H1 (0 <=? mi_freshnessPeriod m) TlvType.FreshnessPeriod (mi_freshnessPeriod m) ltac:(by vm_compute)).
  destruct (Component_empty (mi_finalBlockId m)); cbn [negb opt_elem]; [change (len (wires [])) with 0; lia|]. destruct Hf as [?|(_&_&Hl)]; [done|].
  rewrite wires_single. cbn [fst snd]. pose proof (len_tlv_wire_le TlvType.FinalBlockId (tlv_wire (c_type (mi_finalBlockId m)) (c_value (mi_finalBlockId m)))).
  pose proof (len_tlv_wire_le (c_type (mi_finalBlockId m)) (c_value (mi_finalBlockId m))). lia.
Qed.

Lemma sign_signs : signs sign 40.
Proof.
  intros d Hw Ha cv Hn Hm (c&Hc&Hcw) Hcv Hl. exists signature, [], [1; 2; 3; 4].
  assert (Hok : dp_ok (Data_setSignature signature d) [] cv [1; 2; 3; 4]).
  { split; cbn [Data_setSignature onChanged dp_name dp_metaInfo dp_signature]; [done|done|exists c; by split| | | | |split; [done|by_decide]|].
    - split; [by vm_compute|done|constructor].
    - by vm_compute.
    - eexists _, _. split; by vm_compute.
    - eexists. split; by vm_compute.
    - unfold dp_elements. cbn [Data_setSignature onChanged dp_name dp_metaInfo dp_signature]. rewrite !wires_cons, wires_nil, app_nil_r, !len_app. cbn [fst snd].
      pose proof (len_mi _ Hm Ha). pose proof (len_tlv_wire_le TlvType.MetaInfo (wires (mi_elements (dp_metaInfo d)))).
      pose proof (len_tlv_wire_le TlvType.Name (wires (name_elements (dp_name d)))). pose proof (len_tlv_wire_le TlvType.Content cv).
      assert (len (tlv_wire TlvType.SignatureInfo (wires (si_head (sg_info signature)))) <= 10) by by vm_compute.
      assert (len (tlv_wire TlvType.SignatureValue [1; 2; 3; 4]) <= 10) by by vm_compute. rewrite ?app_nil_r. change (len (@nil Z)) with 0. width_lia. }
  destruct (Data_wire_ok _ _ _ _ Hok) as (b&d1&Hd&_&_); [done|]. exists b, d1. split_and!; [done|by vm_compute|done|]. unfold sign. by rewrite Hd.
Qed.

Definition interest_name : Name := [generic [102; 97; 99; 101; 115]; generic [108; 105; 115; 116]].
Definition base : InterestPacket := InterestPacket_of_name interest_name (-1).
Definition maxPacket : Z := 600.
Definition context : StatusDatasetContext := from_ok (MkStatusDatasetContext [] [] 0 (Encoder.create 0 0) 0 FINALIZED) (StatusDatasetContext_new maxPacket 1000 interest_name).
Definition items : list (list Z) := [replicate 396 1; replicate 396 2].
Definition blocks : list Block := Eval vm_compute in map (fun v => from_ok Block_empty (makeBinaryBlock 128 v)) items.
Definition bytes : list (list Z) := Eval vm_compute in map (fun b => from_ok [] (wire b)) blocks.
Definition prefix : Name := Eval vm_compute in sx_prefix context.

(** The Data that the handler sends for the two blocks, and as they are received *)
Definition published : list DataPacket := Eval vm_compute in from_ok []
  (let! (l, x) := append_all maxPacket blocks context in
   let! (l', _) := end_ x in
   sendAll maxPacket sign (l ++ l')).
Definition receive (d : DataPacket) : result DataPacket :=
  let! w := wire (dp_wire d) in let! r := Block_of_buffer w in DataPacket_of_block r.
Definition arrived : list DataPacket := Eval vm_compute in map (fun d => from_ok d (receive d)) published.

(** A network that answers the first Interest with segment [first], and the others
    with the segment they name *)
Definition net (first : nat) (i : InterestPacket) : Answer :=
  if Name_equals (ip_name i) interest_name then match arrived !! first with Some d => AnsData d true | None => AnsTimeout end
  else match List.find (fun d => Name_equals (dp_name d) (ip_name i)) arrived with Some d => AnsData d true | None => AnsTimeout end.
Definition words : list Z := [5; 6].

Example three_segments : map (fun d => len (value (dp_content d))) published = [300; 300; 200].
Proof. by vm_compute. Qed.

(** The first Interest brings the last segment: the fetch starts from segment 0. *)
Example fetched : (let! f := fetchFirstSegment maxPacket 7 base in
  let! f := fetch_run maxPacket (replicate 4 (words, net 2)) f in Ok (sf_waiting f)) = Ok (Completed (concat bytes)).
Proof. by vm_compute. Qed.

Lemma dataset_fetched_witness : signs sign 40 /\
  exists l x1 l' x2 ds, append_all maxPacket blocks context = Ok (l, x1) /\ end_ x1 = Ok (l', x2) /\ sendAll maxPacket sign (l ++ l') = Ok ds /\
    (forall b, append maxPacket b x2 = Err DomainError) /\
    (exists chunks, segments_by delivers (sx_prefix context) 0 ds chunks /\ concat chunks = concat bytes /\ Forall (fun c => 2 * len c <= maxPacket) chunks) /\
    forall net word wss j, network (sx_prefix context) ds net -> (forall i, ip_name i = interest_name -> exists d d', ds !! j = Some d /\ received d d' /\ net i = AnsData d' true) ->
      Forall good_words wss -> (length ds < length wss)%nat ->
      exists f0 f, fetchFirstSegment maxPacket word base = Ok f0 /\ fetch_run maxPacket (map (fun ws => (ws, net)) wss) f0 = Ok f /\
        sf_waiting f = Completed (concat bytes).
Proof.
  split; [exact sign_signs|]. assert (Hw : wf_bytes (concat bytes)) by by_decide.
  assert (Hb : Forall2 (fun b w => wire b = Ok w) blocks bytes) by (repeat constructor; by vm_compute).
  assert (Hn : StatusDatasetContext_new maxPacket 1000 interest_name = Ok context) by (vm_compute; reflexivity).
  assert (Hp : name_ok (sx_prefix context)) by (split; by_decide).
  assert (Hs : sel_ok (ip_selectors base)) by (split; by_decide || by vm_compute).
  assert (H1 : 2 * (len (wires (name_elements (sx_prefix context))) + 40 + 200) <= maxPacket < 2 ^ 59) by (split; by_decide).
  assert (H2 : len (concat bytes) + len bytes < 2 ^ 58) by by_decide.
  assert (H3 : ip_interestLifetime base < 2 ^ 63) by by_decide.
  assert (H4 : len (wires (name_elements (sx_prefix context))) + len (wires (sel_body (ip_selectors base))) + 100 <= maxPacket) by by_decide.
  destruct (dataset_fetched maxPacket 40 sign interest_name 1000 blocks bytes context base sign_signs Hw Hb Hn Hp H1 H2 eq_refl eq_refl Hs H3 eq_refl eq_refl H4)
    as (l&x1&l'&x2&ds&Ha&He&Hs'&Hd&Hch&Hnet). exists l, x1, l', x2, ds. exact (conj Ha (conj He (conj Hs' (conj Hd (conj Hch Hnet))))).
Defined.

(** A Nack for segment 1: the contents of segment 0 are there twice. *)
Example fetched_after_nack : (let! f := fetchFirstSegment maxPacket 7 base in
  let! f := fetch_run maxPacket ((words, net 0) :: (words, fun _ => AnsNack LP_DUPLICATE) :: replicate 4 (words, net 0)) f in Ok (sf_waiting f)) =
  Ok (Completed (take 300 (concat bytes) ++ concat bytes)).
Proof. by vm_compute. Qed.
End SegmentSamples.
