(* ===== verification/FaceUri.v ===== *)
(** * URIs of faces: [ndn-cxx/src/util/face-uri.cpp]

    The scheme, host, port and path of the two ends of a face: parsing with the
    regular expressions of the code, printing, and the canonical form that face
    management asks for.  Strings are lists of bytes. *)

From S2P Require Import Prelude.

(** The bytes of a string *)
Definition str (s : string) : list Z := map (fun a => Z.of_nat (Ascii.nat_of_ascii a)) (String.list_ascii_of_string s).

Record FaceUri := MkFaceUri {
  fu_scheme : list Z;
  fu_host : list Z;
  fu_isV6 : bool;
  fu_port : list Z;
  fu_path : list Z
}.
#[global] Instance FaceUri_eq_dec : EqDecision FaceUri.
Proof. solve_decision. Defined.

(** ** Characters *)

Definition isDigit (c : Z) : bool := (48 <=? c) && (c <=? 57).
Definition isHex (c : Z) : bool := isDigit c || (97 <=? c) && (c <=? 102) || (65 <=? c) && (c <=? 70).
(** [\w] *)
Definition isWord (c : Z) : bool := isDigit c || (97 <=? c) && (c <=? 122) || (65 <=? c) && (c <=? 90) || (c =? 95).
Definition isNot (x c : Z) : bool := negb (c =? x).
Definition COLON : Z := 58.
Definition SLASH : Z := 47.
Definition DOT : Z := 46.

(** The longest prefix of characters of a class, and the rest *)
Fixpoint span (p : Z -> bool) (s : list Z) : list Z * list Z :=
  match s with
  | c :: s' => if p c then let '(a, b) := span p s' in (c :: a, b) else ([], s)
  | [] => ([], [])
  end.
Definition span1 (p : Z -> bool) (s : list Z) : option (list Z * list Z) :=
  match span p s with ([], _) => None | x => Some x end.
(** What follows a literal *)
Fixpoint literal (l s : list Z) : option (list Z) :=
  match l, s with
  | [], _ => Some s
  | x :: l, c :: s => if x =? c then literal l s else None
  | _, _ => None
  end.

(** ** Parsing *)

(** [protocolExp]: the scheme, the authority and the path *)
Definition match_protocol (s : list Z) : option (list Z * list Z * list Z) :=
  match span1 isWord s with
  | None => None
  | Some (scheme, s) =>
      match literal (str "://") s with
      | None => None
      | Some s =>
          let '(authority, path) := span (isNot SLASH) s in
          if forallb (isNot 63) path then Some (scheme, authority, path) else None
      end
  end.

(** The end of the authority, with an optional port *)
Definition match_port (s : list Z) : option (list Z) :=
  match s with
  | [] => Some []
  | c :: s => if (c =? COLON) && negb (bool_decide (s = [])) && forallb isDigit s then Some s else None
  end.

(** [v6Exp], which takes what [etherExp] takes, [v4MappedV6Exp] and [v4HostExp]:
    the host and the port *)
Definition match_v6 (s : list Z) : option (list Z * list Z) :=
  match literal (str "[") s with
  | None => None
  | Some s =>
      match span1 (fun c => isHex c || (c =? COLON)) s with
      | None => None
      | Some (host, s) =>
          match literal (str "]") s with
          | None => None
          | Some s => match match_port s with Some port => Some (host, port) | None => None end
          end
      end
  end.

(** [\d+(?:\.\d+){3}] *)
Fixpoint match_dotted (n : nat) (s : list Z) : option (list Z * list Z) :=
  match span1 isDigit s with
  | None => None
  | Some (d, s) =>
      match n with
      | O => Some (d, s)
      | S n =>
          match s with
          | c :: s => if c =? DOT then match match_dotted n s with Some (h, s) => Some (d ++ DOT :: h, s) | None => None end else None
          | [] => None
          end
      end
  end.
Definition match_v4MappedV6 (s : list Z) : option (list Z * list Z) :=
  match literal (str "[::ffff:") s with
  | None => None
  | Some s =>
      match match_dotted 3 s with
      | None => None
      | Some (host, s) =>
          match literal (str "]") s with
          | None => None
          | Some s => match match_port s with Some port => Some (host, port) | None => None end
          end
      end
  end.

Definition match_v4Host (s : list Z) : option (list Z * list Z) :=
  match span1 (isNot COLON) s with
  | None => None
  | Some (host, s) => match match_port s with Some port => Some (host, port) | None => None end
  end.

(** The host, whether it is an IPv6 address, and the port *)
Definition parse_authority (authority : list Z) : option (list Z * bool * list Z) :=
  if bool_decide (authority = []) then Some ([], false, [])
  else
    match match_v6 authority with
    | Some (host, port) => Some (host, true, port)
    | None =>
        match match_v4MappedV6 authority with
        | Some (host, port) => Some (host, false, port)
        | None =>
            match match_v4Host authority with
            | Some (host, port) => Some (host, false, port)
            | None => None
            end
        end
    end.

(** [FaceUri::parse]: [None] when it returns false *)
Definition parse (uri : list Z) : option FaceUri :=
  match match_protocol uri with
  | None => None
  | Some (scheme, authority, path) =>
      match parse_authority authority with
      | None => None
      | Some (host, isV6, port) => Some (MkFaceUri scheme host isV6 port path)
      end
  end.

(** ** Printing *)

Definition authority_of (u : FaceUri) : list Z :=
  (if fu_isV6 u then str "[" ++ fu_host u ++ str "]" else fu_host u) ++
  (if negb (bool_decide (fu_port u = [])) then COLON :: fu_port u else []).
Definition toString (u : FaceUri) : list Z := fu_scheme u ++ str "://" ++ authority_of u ++ fu_path u.

(** [FaceUri(local::stream_protocol::endpoint)] and [FaceUri::fromDev] *)
Definition FaceUri_of_unix (path : list Z) : FaceUri := MkFaceUri (str "unix") [] false [] path.
Definition fromDev (ifname : list Z) : FaceUri := MkFaceUri (str "dev") ifname false [] [].

(** ** Canonical URIs *)

(** [boost::lexical_cast<std::string>] of a number *)
Fixpoint decimal_loop (fuel : nat) (n : Z) (acc : list Z) : list Z :=
  match fuel with
  | O => acc
  | S fuel => if n <? 10 then (48 + n) :: acc else decimal_loop fuel (n / 10) ((48 + n mod 10) :: acc)
  end.
Definition decimal (n : Z) : list Z := decimal_loop 20 n [].
(** [boost::lexical_cast<uint32_t>] of digits *)
Definition number_of (s : list Z) : option Z :=
  if bool_decide (s = []) || negb (forallb isDigit s) then None
  else let n := fold_left (fun a c => a * 10 + (c - 48)) s 0 in if n <? U32 then Some n else None.

(** [boost::asio::ip::address] *)
Class IpAddress := {
  address : Type;
  v4_from_string : list Z -> option address;
  v6_from_string : list Z -> option address;
  to_string : address -> list Z;
  is_v6 : address -> bool;
  is_multicast : address -> bool
}.

(** The providers of the schemes of UDP and TCP *)
Inductive Protocol := Udp | Tcp.
Definition baseScheme (p : Protocol) : list Z := match p with Udp => str "udp" | Tcp => str "tcp" end.
Definition v4Scheme (p : Protocol) : list Z := baseScheme p ++ str "4".
Definition v6Scheme (p : Protocol) : list Z := baseScheme p ++ str "6".
Definition DEFAULT_UNICAST_PORT : Z := 6363.
Definition DEFAULT_MULTICAST_PORT : Z := 56363.

Inductive Provider := IpProvider (p : Protocol) | EtherProvider.
Definition getSchemes (p : Provider) : list (list Z) :=
  match p with IpProvider p => [baseScheme p; v4Scheme p; v6Scheme p] | EtherProvider => [str "ether"] end.
Definition getCanonizeProvider (scheme : list Z) : option Provider :=
  List.find (fun p => bool_decide (scheme ∈ getSchemes p)) [IpProvider Udp; IpProvider Tcp; EtherProvider].
Definition canCanonize (scheme : list Z) : bool := match getCanonizeProvider scheme with Some _ => true | None => false end.

(** [%2hx] of [sscanf], of the C library: the number and what follows it *)
Class Scanf := { scan_2hx : list Z -> option (Z * list Z) }.

(** *** Ethernet addresses, [util/ethernet.cpp] *)

Section Ethernet.
Context `{Scanf}.

(** [%1[:-]] *)
Definition scan_separator (s : list Z) : option (Z * list Z) :=
  match s with c :: s => if (c =? COLON) || (c =? 45) then Some (c, s) else None | [] => None end.

(** The numbers and the separators that [sscanf] reads, and what follows *)
Fixpoint scan_address (n : nat) (s : list Z) : option (list Z * list Z * list Z) :=
  match scan_2hx s with
  | None => None
  | Some (v, s) =>
      match n with
      | O => Some ([v], [], s)
      | S n =>
          match scan_separator s with
          | None => None
          | Some (c, s) => match scan_address n s with Some (vs, cs, s) => Some (v :: vs, c :: cs, s) | None => None end
          end
      end
  end.

Definition ether_null : list Z := [0; 0; 0; 0; 0; 0].
Definition ether_fromString (s : list Z) : list Z :=
  match scan_address 5 s with
  | Some (vs, cs, []) => if forallb (fun c => c =? hd 0 cs) cs && forallb (fun v => v <=? 255) vs then vs else ether_null
  | _ => ether_null
  end.

Definition hex_digit (n : Z) : Z := if n <? 10 then 48 + n else 87 + n.
Definition hex2 (n : Z) : list Z := [hex_digit (n / 16); hex_digit (n mod 16)].
Fixpoint ether_toString (a : list Z) : list Z :=
  match a with
  | [] => []
  | [n] => hex2 n
  | n :: a => hex2 n ++ COLON :: ether_toString a
  end.

Definition isCanonical_ether (u : FaceUri) : bool :=
  if negb (bool_decide (fu_port u = [])) then false
  else if negb (bool_decide (fu_path u = [])) then false
  else bool_decide (ether_toString (ether_fromString (fu_host u)) = fu_host u).

(** [isBroadcast], [isMulticast] and [isNull], and two addresses *)
Definition getBroadcastAddress : list Z := [255; 255; 255; 255; 255; 255].
Definition getDefaultMulticastAddress : list Z := [1; 0; 94; 0; 23; 170].
Definition ether_isBroadcast (a : list Z) : bool := bool_decide (a = getBroadcastAddress).
Definition ether_isMulticast (a : list Z) : bool := negb (Z.land (nth 0 a 0) 1 =? 0).
Definition ether_isNull (a : list Z) : bool := bool_decide (a = ether_null).

(** [FaceUri(const ethernet::Address&)] *)
Definition FaceUri_of_ether (a : list Z) : FaceUri := MkFaceUri (str "ether") (ether_toString a) true [] [].
End Ethernet.

Section Canonical.
Context `{IpAddress} `{Scanf}.

Definition checkAddress (p : Protocol) (a : address) : bool := match p with Udp => true | Tcp => negb (is_multicast a) end.

(** [IpHostCanonizeProvider::isCanonical] *)
Definition isCanonical_ip (p : Protocol) (u : FaceUri) : bool :=
  if bool_decide (fu_port u = []) then false
  else if negb (bool_decide (fu_path u = [])) then false
  else
    let addr := if bool_decide (fu_scheme u = v4Scheme p) then v4_from_string (fu_host u)
                else if bool_decide (fu_scheme u = v6Scheme p) then v6_from_string (fu_host u)
                else None in
    match addr with
    | Some addr => bool_decide (to_string addr = fu_host u) && checkAddress p addr
    | None => false
    end.

Definition isCanonical (u : FaceUri) : bool :=
  match getCanonizeProvider (fu_scheme u) with
  | Some (IpProvider p) => isCanonical_ip p u
  | Some EtherProvider => isCanonical_ether u
  | None => false
  end.

(** [FaceUri(endpoint)] *)
Definition FaceUri_of_endpoint (p : Protocol) (a : address) (port : Z) : FaceUri :=
  MkFaceUri (if is_v6 a then v6Scheme p else v4Scheme p) (to_string a) (is_v6 a) (decimal port) [].

(** [FaceUri(endpoint, scheme)], for TCP *)
Definition FaceUri_of_endpoint_scheme (a : address) (port : Z) (scheme : list Z) : FaceUri :=
  MkFaceUri scheme (to_string a) (is_v6 a) (decimal port) [].

(** What [canonize] calls back: a canonical URI, or a failure *)
Inductive Canonized := CanonizeSuccess (u : FaceUri) | CanonizeFailure.

(** [onDnsSuccess]; the port of an endpoint is an [unsigned short]. *)
Definition onDnsSuccess (p : Protocol) (u : FaceUri) (a : address) : result Canonized :=
  if negb (checkAddress p a) then Ok CanonizeFailure
  else
    let port := if bool_decide (fu_port u = []) then Some (if is_multicast a then DEFAULT_MULTICAST_PORT else DEFAULT_UNICAST_PORT)
                else number_of (fu_port u) in
    match port with
    | None => Ok CanonizeFailure
    | Some port =>
        let canonicalUri := FaceUri_of_endpoint p a (port mod 65536) in
        if isCanonical canonicalUri then Ok (CanonizeSuccess canonicalUri) else Err AssertFailed
    end.

(** Which addresses [canonize] asks the resolver for *)
Inductive AddressSelector := Ipv4Only | Ipv6Only | AnyAddress.
Definition selector_of (p : Protocol) (u : FaceUri) : AddressSelector :=
  if bool_decide (fu_scheme u = v4Scheme p) then Ipv4Only else if bool_decide (fu_scheme u = v6Scheme p) then Ipv6Only else AnyAddress.

(** [FaceUri::canonize]; [resolve] is the answer of the resolver for a host. *)
Definition canonize (resolve : list Z -> AddressSelector -> option address) (u : FaceUri) : result Canonized :=
  match getCanonizeProvider (fu_scheme u) with
  | None => Ok CanonizeFailure
  | Some EtherProvider =>
      let addr := ether_fromString (fu_host u) in
      if ether_isNull addr then Ok CanonizeFailure
      else
        let canonicalUri := FaceUri_of_ether addr in
        if isCanonical canonicalUri then Ok (CanonizeSuccess canonicalUri) else Err AssertFailed
  | Some (IpProvider p) =>
      if isCanonical_ip p u then Ok (CanonizeSuccess u)
      else
        match resolve (fu_host u) (selector_of p u) with
        | Some a => onDnsSuccess p u a
        | None => Ok CanonizeFailure
        end
  end.
End Canonical.

(** ** The regular expressions *)

(** The expressions the code matches with, and what they mean *)
Inductive re :=
| Chr (p : Z -> bool)
| Lit (s : list Z)
| Seq (a b : re)
| Alt (a b : re)
| Star (a : re)
| Eps.
Definition Plus (a : re) : re := Seq a (Star a).
Definition Opt (a : re) : re := Alt a Eps.

Inductive lang : re -> list Z -> Prop :=
| lang_chr p c : p c = true -> lang (Chr p) [c]
| lang_lit s : lang (Lit s) s
| lang_seq a b s t : lang a s -> lang b t -> lang (Seq a b) (s ++ t)
| lang_alt_l a b s : lang a s -> lang (Alt a b) s
| lang_alt_r a b s : lang b s -> lang (Alt a b) s
| lang_star_nil a : lang (Star a) []
| lang_star_cons a s t : lang a s -> lang (Star a) t -> lang (Star a) (s ++ t)
| lang_eps : lang Eps [].

Lemma lang_star_chr p s : lang (Star (Chr p)) s <-> Forall (fun c => p c = true) s.
Proof.
  split.
  - remember (Star (Chr p)) as e eqn:He. induction 1; try done; injection He as ->. apply Forall_app. split; [|by auto]. inversion H; subst. by repeat constructor.
  - induction 1 as [|c s Hc Hs IH]; [constructor|]. change (c :: s) with ([c] ++ s). constructor; [by constructor|done].
Qed.
Lemma lang_plus_chr p s : lang (Plus (Chr p)) s <-> s <> [] /\ Forall (fun c => p c = true) s.
Proof.
  unfold Plus. split.
  - intros Hl. inversion Hl as [| |? ? u v H1 H2| | | | |]; subst. inversion H1; subst. apply lang_star_chr in H2. split; [done|]. by constructor.
  - intros [Hne Hs]. destruct s as [|c s]; [done|]. apply Forall_cons in Hs as [Hc Hs]. change (c :: s) with ([c] ++ s). constructor; [by constructor|by apply lang_star_chr].
Qed.
Lemma lang_seq_inv a b s : lang (Seq a b) s <-> exists u v, s = u ++ v /\ lang a u /\ lang b v.
Proof. split; [intros H; inversion H; subst; eauto|intros (u&v&->&?&?); by constructor]. Qed.
Lemma lang_opt_inv a s : lang (Opt a) s <-> lang a s \/ s = [].
Proof. split; [intros H; inversion H as [| | | |? ? ? H1| | |]; subst; [by left|inversion H1; by right]|intros [H| ->]; [by constructor|apply lang_alt_r; constructor]]. Qed.
Lemma lang_lit_inv l s : lang (Lit l) s <-> s = l.
Proof. split; [by intros H; inversion H|intros ->; constructor]. Qed.

(** The three groups of [protocolExp] *)
Definition schemeExp : re := Seq (Plus (Chr isWord)) (Opt (Chr isDigit)).
Definition authorityExp : re := Star (Chr (isNot SLASH)).
Definition pathExp : re := Opt (Seq (Lit (str "/")) (Star (Chr (isNot 63)))).
(** The port, and the hosts of [v6Exp], [v4MappedV6Exp] and [v4HostExp] *)
Definition portExp : re := Plus (Chr isDigit).
Definition v6HostExp : re := Plus (Chr (fun c => isHex c || (c =? COLON))).
Definition v4HostExp : re := Plus (Chr (isNot COLON)).

(** ** The matchers are the expressions *)

Definition stops (p : Z -> bool) (s : list Z) : Prop := match s with [] => True | c :: _ => p c = false end.

Lemma span_spec p s : s = (span p s).1 ++ (span p s).2 /\ Forall (fun c => p c = true) (span p s).1 /\ stops p (span p s).2.
Proof.
  induction s as [|c s IH]; [split_and!; [done|constructor|done]|]. cbn [span]. destruct (p c) eqn:Hc; [|split_and!; [done|constructor|done]].
  destruct (span p s) as [a b]. cbn [fst snd] in *. destruct IH as (->&?&?). split_and!; [done|by constructor|done].
Qed.
Lemma span_app p a b : Forall (fun c => p c = true) a -> stops p b -> span p (a ++ b) = (a, b).
Proof.
  intros Ha Hb. induction Ha as [|c a Hc Ha IH]; cbn [app].
  - destruct b as [|c b]; [done|]. cbn [span stops] in *. by rewrite Hb.
  - cbn [span]. by rewrite Hc, IH.
Qed.
Lemma span1_spec p s a b : span1 p s = Some (a, b) <-> s = a ++ b /\ lang (Plus (Chr p)) a /\ stops p b.
Proof.
  unfold span1. rewrite lang_plus_chr. split.
  - pose proof (span_spec p s) as (H1&H2&H3). destruct (span p s) as [u v]. cbn [fst snd] in *. destruct u; [done|]. by intros [= <- <-].
  - intros (->&[Hne Ha]&Hb). rewrite span_app by done. by destruct a.
Qed.
Lemma literal_spec l : forall s r, literal l s = Some r <-> s = l ++ r.
Proof.
  induction l as [|x l IH]; intros s r; cbn [literal app]; [split; congruence|]. destruct s as [|c s]; [done|]. destruct (Z.eqb_spec x c) as [<-|Hne].
  - rewrite IH. split; congruence.
  - split; [done|]. by intros [= <- _].
Qed.
Lemma forallb_Forall_true p (s : list Z) : forallb p s = true <-> Forall (fun c => p c = true) s.
Proof. induction s as [|c s IH]; cbn; [by split; [constructor|]|]. rewrite andb_true_iff, Forall_cons. tauto. Qed.

Lemma lang_scheme s : lang schemeExp s <-> lang (Plus (Chr isWord)) s.
Proof.
  unfold schemeExp. rewrite lang_seq_inv, lang_plus_chr. split.
  - intros (u&v&->&Hu&Hv). apply lang_plus_chr in Hu as [Hne Hu]. apply lang_opt_inv in Hv as [Hv| ->]; [|by rewrite app_nil_r].
    inversion Hv as [? c Hc| | | | | | |]; subst. split; [by destruct u|]. apply Forall_app. split; [done|]. repeat constructor. unfold isWord. by rewrite Hc.
  - intros [Hne Hs]. exists s, []. rewrite app_nil_r. split_and!; [done|by apply lang_plus_chr|apply lang_opt_inv; by right].
Qed.

Lemma stops_not p x s : (forall c, p c = true -> c <> x) -> stops p (x :: s).
Proof. intros Hx. cbn. destruct (p x) eqn:He; [|done]. by destruct (Hx x He). Qed.

(** A string matches [protocolExp] in one way at most, the way it is split. *)
Lemma match_protocol_spec s scheme authority path :
  match_protocol s = Some (scheme, authority, path) <->
  s = scheme ++ str "://" ++ authority ++ path /\ lang schemeExp scheme /\ lang authorityExp authority /\ lang pathExp path.
Proof.
  unfold match_protocol, authorityExp, pathExp. rewrite lang_scheme, lang_star_chr, lang_opt_inv, lang_seq_inv. split.
  - destruct (span1 isWord s) as [[a r]|] eqn:H1; [|done]. apply span1_spec in H1 as (->&Ha&_). destruct (literal (str "://") r) as [r'|] eqn:H2; [|done].
    apply literal_spec in H2 as ->. pose proof (span_spec (isNot SLASH) r') as (H3&H4&H5). destruct (span (isNot SLASH) r') as [b c]. cbn [fst snd] in *. subst r'.
    destruct (forallb (isNot 63) c) eqn:H6; [|done]. intros [= <- <- <-]. apply forallb_Forall_true in H6. split_and!; [done|done|done|].
    destruct c as [|x c]; [by right|left]. exists [x], c. apply Forall_cons in H6 as [_ H6]. cbn [stops] in H5. unfold isNot, SLASH in H5.
    assert (x = 47) as -> by (destruct (Z.eqb_spec x 47); [done|cbn in H5; done]). split_and!; [done|apply lang_lit_inv; done|by apply lang_star_chr].
  - intros (->&Ha&Hb&Hc). rewrite (proj2 (span1_spec isWord _ scheme (str "://" ++ authority ++ path))).
    2: { split_and!; [done|done|]. by vm_compute. }
    rewrite (proj2 (literal_spec (str "://") _ (authority ++ path))) by done.
    rewrite span_app; [|done|].
    + assert (Hf : forallb (isNot 63) path = true); [|by rewrite Hf]. apply forallb_Forall_true. destruct Hc as [(u&v&->&Hu&Hv)| ->]; [|constructor].
      apply lang_lit_inv in Hu as ->. constructor; [by vm_compute|by apply lang_star_chr].
    + destruct Hc as [(u&v&->&Hu&Hv)| ->]; [|done]. by apply lang_lit_inv in Hu as ->.
Qed.

(** A port at the end *)
Definition port_tail (s port : list Z) : Prop := s = [] /\ port = [] \/ s = COLON :: port /\ lang portExp port.
Lemma match_port_spec s port : match_port s = Some port <-> port_tail s port.
Proof.
  unfold match_port, port_tail, portExp. rewrite lang_plus_chr. destruct s as [|c s]; [split; [intros [= <-]; by left|intros [[_ ->]|[? _]]; done]|].
  rewrite bool_decide_decide. destruct (Z.eqb_spec c COLON) as [->|Hc]; cbn [andb].
  - destruct (decide (s = [])) as [->|Hs]; cbn [negb andb]; [split; [done|intros [[? _]|[[= <-] [? _]]]; done]|].
    destruct (forallb isDigit s) eqn:Hd.
    + split; [intros [= <-]; right; split; [done|]; split; [done|by apply forallb_Forall_true]|intros [[? _]|[[= <-] _]]; done].
    + split; [done|]. intros [[? _]|[[= <-] [_ Hf]]]; [done|]. apply forallb_Forall_true in Hf. congruence.
  - split; [done|]. intros [[? _]|[[= -> _] _]]; done.
Qed.

Lemma stops_port p s port : port_tail s port -> p COLON = false -> stops p s.
Proof. by intros [[-> _]|[-> _]]. Qed.

Lemma match_v6_spec s host port : match_v6 s = Some (host, port) <-> exists t, s = str "[" ++ host ++ str "]" ++ t /\ lang v6HostExp host /\ port_tail t port.
Proof.
  unfold match_v6, v6HostExp. split.
  - destruct (literal (str "[") s) as [r|] eqn:H1; [|done]. apply literal_spec in H1 as ->. destruct (span1 _ r) as [[h r']|] eqn:H2; [|done]. apply span1_spec in H2 as (->&Hh&_).
    destruct (literal (str "]") r') as [t|] eqn:H3; [|done]. apply literal_spec in H3 as ->. destruct (match_port t) as [p|] eqn:H4; [|done]. apply match_port_spec in H4. intros [= <- <-]. by exists t.
  - intros (t&->&Hh&Ht). rewrite (proj2 (literal_spec (str "[") _ (host ++ str "]" ++ t))) by done.
    rewrite (proj2 (span1_spec _ _ host (str "]" ++ t))) by (split_and!; [done|done|by vm_compute]). rewrite (proj2 (literal_spec (str "]") _ t)) by done.
    by rewrite (proj2 (match_port_spec t port)).
Qed.

Lemma match_v4Host_spec s host port : match_v4Host s = Some (host, port) <-> exists t, s = host ++ t /\ lang v4HostExp host /\ port_tail t port.
Proof.
  unfold match_v4Host, v4HostExp. split.
  - destruct (span1 _ s) as [[h t]|] eqn:H2; [|done]. apply span1_spec in H2 as (->&Hh&_). destruct (match_port t) as [p|] eqn:H4; [|done]. apply match_port_spec in H4. intros [= <- <-]. by exists t.
  - intros (t&->&Hh&Ht). rewrite (proj2 (span1_spec _ _ host t)); [by rewrite (proj2 (match_port_spec t port))|]. split_and!; [done|done|by eapply stops_port].
Qed.

(** [n] more numbers after the first *)
Fixpoint dotted (n : nat) : re :=
  match n with O => Plus (Chr isDigit) | S n => Seq (Plus (Chr isDigit)) (Seq (Lit (str ".")) (dotted n)) end.

Lemma dotted_stop n s : lang (dotted n) s -> s <> [] /\ Forall (fun c => isDigit c || (c =? DOT) = true) s.
Proof.
  revert s. induction n as [|n IH]; intros s; cbn [dotted].
  - rewrite lang_plus_chr. intros [? Hs]. split; [done|]. eapply Forall_impl; [exact Hs|]. by intros c ->.
  - rewrite lang_seq_inv. intros (u&v&->&Hu&Hv). apply lang_plus_chr in Hu as [Hne Hu]. apply lang_seq_inv in Hv as (w&x&->&Hw&Hx). apply lang_lit_inv in Hw as ->.
    destruct (IH x Hx) as [_ Hf]. split; [by destruct u|]. rewrite !Forall_app. split_and!; [|by repeat constructor|done]. eapply Forall_impl; [exact Hu|]. by intros c ->.
Qed.

Lemma match_dotted_spec n : forall s host r, stops isDigit r -> match_dotted n s = Some (host, r) <-> s = host ++ r /\ lang (dotted n) host.
Proof.
  induction n as [|n IH]; intros s host r Hr; cbn [match_dotted dotted].
  - destruct (span1 isDigit s) as [[d t]|] eqn:H1.
    + pose proof H1 as H2. apply span1_spec in H1 as (->&Hd&Ht). split; [by intros [= <- <-]|]. intros [Heq Hh]. rewrite Heq, (proj2 (span1_spec isDigit _ host r)) in H2 by done. congruence.
    + split; [done|]. intros [-> Hh]. by rewrite (proj2 (span1_spec isDigit _ host r)) in H1.
  - split.
    + destruct (span1 isDigit s) as [[d t]|] eqn:H1; [|done]. apply span1_spec in H1 as (->&Hd&Ht). destruct t as [|c t]; [done|]. destruct (Z.eqb_spec c DOT) as [->|]; [|done].
      destruct (match_dotted n t) as [[h u]|] eqn:H2; [|done]. intros [= <- <-]. apply IH in H2 as [-> Hh]; [|done].
      split; [by rewrite <- !app_assoc|]. apply lang_seq_inv. exists d, (DOT :: h). split_and!; [done|done|]. apply lang_seq_inv. exists [DOT], h. split_and!; [done|by apply lang_lit_inv|done].
    + rewrite lang_seq_inv. intros [-> (d&v&->&Hd&Hv)]. apply lang_seq_inv in Hv as (w&h&->&Hw&Hh). apply lang_lit_inv in Hw as ->.
      rewrite (proj2 (span1_spec isDigit _ d (str "." ++ h ++ r))); [|split_and!; [by rewrite <- !app_assoc|done|by vm_compute]]. change (str ".") with [DOT]. cbn [app].
      rewrite Z.eqb_refl. rewrite (proj2 (IH (h ++ r) h r Hr)) by done. done.
Qed.

Lemma match_v4MappedV6_spec s host port : match_v4MappedV6 s = Some (host, port) <-> exists t, s = str "[::ffff:" ++ host ++ str "]" ++ t /\ lang (dotted 3) host /\ port_tail t port.
Proof.
  unfold match_v4MappedV6. split.
  - destruct (literal (str "[::ffff:") s) as [r|] eqn:H1; [|done]. apply literal_spec in H1 as ->. destruct (match_dotted 3 r) as [[h r']|] eqn:H2; [|done].
    destruct (literal (str "]") r') as [t|] eqn:H3; [|done]. apply literal_spec in H3 as ->. apply match_dotted_spec in H2 as [-> Hh]; [|by vm_compute].
    destruct (match_port t) as [p|] eqn:H4; [|done]. apply match_port_spec in H4. intros [= <- <-]. by exists t.
  - intros (t&->&Hh&Ht). rewrite (proj2 (literal_spec (str "[::ffff:") _ (host ++ str "]" ++ t))) by done.
    rewrite (proj2 (match_dotted_spec 3 _ host (str "]" ++ t) ltac:(by vm_compute))) by done. rewrite (proj2 (literal_spec (str "]") _ t)) by done.
    by rewrite (proj2 (match_port_spec t port)).
Qed.

(** ** Parsing what was printed *)

Lemma isDigit_not x c : isDigit c = true -> isDigit x = false -> c <> x.
Proof. intros Hc Hx ->. congruence. Qed.

Lemma not_slash p s : Forall (fun c => p c = true) s -> p SLASH = false -> Forall (fun c => isNot SLASH c = true) s.
Proof. intros Hs Hp. eapply Forall_impl; [exact Hs|]. intros c Hc. unfold isNot. destruct (Z.eqb_spec c SLASH) as [->|]; [congruence|done]. Qed.

Definition port_text (port : list Z) : list Z := if negb (bool_decide (port = [])) then COLON :: port else [].
Lemma port_text_tail t port : port_tail t port -> port_text port = t.
Proof.
  unfold port_text, portExp. intros [[-> ->]|[-> Hp]]; [done|]. apply lang_plus_chr in Hp as [Hne _]. by rewrite bool_decide_false.
Qed.
Lemma port_not_slash t port : port_tail t port -> Forall (fun c => isNot SLASH c = true) t.
Proof.
  unfold portExp. intros [[-> _]|[-> Hp]]; [constructor|]. apply lang_plus_chr in Hp as [_ Hp]. constructor; [done|]. by apply (not_slash isDigit).
Qed.

(** What is read of an authority is what is read of the printed one, which has
    no slash. *)
Lemma parse_authority_stable authority host isV6 port : lang authorityExp authority -> parse_authority authority = Some (host, isV6, port) ->
  let printed := (if isV6 then str "[" ++ host ++ str "]" else host) ++ port_text port in
  parse_authority printed = Some (host, isV6, port) /\ lang authorityExp printed.
Proof.
  intros Hsl Hp. unfold parse_authority in Hp. rewrite bool_decide_decide in Hp. destruct (decide (authority = [])) as [->|Hne].
  { by injection Hp as <- <- <-. }
  destruct (match_v6 authority) as [[h p]|] eqn:H6.
  { injection Hp as <- <- <-. pose proof H6 as H6'. apply match_v6_spec in H6' as (t&Ht&Hh&Hpt). cbv zeta iota. rewrite (port_text_tail t p Hpt), <- !app_assoc, <- Ht. split; [|done].
    unfold parse_authority. rewrite bool_decide_false by done. by rewrite H6. }
  destruct (match_v4MappedV6 authority) as [[h p]|] eqn:Hm.
  { injection Hp as <- <- <-. apply match_v4MappedV6_spec in Hm as (t&_&Hh&Hpt). cbv zeta iota. rewrite (port_text_tail t p Hpt). destruct (dotted_stop 3 h Hh) as [Hhn Hhd].
    assert (Hhead : forall x l, h ++ t = x :: l -> isDigit x || (x =? DOT) = true) by (intros x l Hx; destruct h as [|y h]; [done|]; injection Hx as <- _; by apply Forall_cons in Hhd as [? _]). split.
    - unfold parse_authority. rewrite bool_decide_false by (by destruct h).
      destruct (match_v6 (h ++ t)) as [[h' p']|] eqn:E; [apply match_v6_spec in E as (t'&Ht'&_); by specialize (Hhead _ _ Ht')|].
      destruct (match_v4MappedV6 (h ++ t)) as [[h' p']|] eqn:E'; [apply match_v4MappedV6_spec in E' as (t'&Ht'&_); by specialize (Hhead _ _ Ht')|].
      rewrite (proj2 (match_v4Host_spec (h ++ t) h p)); [done|]. exists t. split_and!; [done| |done]. apply lang_plus_chr. split; [done|].
      eapply Forall_impl; [exact Hhd|]. intros c Hc. unfold isNot. destruct (Z.eqb_spec c COLON) as [->|]; [by vm_compute in Hc|done].
    - apply lang_star_chr, Forall_app. split; [|by eapply port_not_slash]. by apply (not_slash (fun c => isDigit c || (c =? DOT))). }
  destruct (match_v4Host authority) as [[h p]|] eqn:H4; [|done]. injection Hp as <- <- <-. pose proof H4 as H4'. apply match_v4Host_spec in H4' as (t&Ht&_&Hpt). cbv zeta iota.
  rewrite (port_text_tail t p Hpt), <- Ht. split; [|done]. unfold parse_authority. by rewrite bool_decide_false, H6, Hm, H4.
Qed.

(** C26. The text of a URI determines it: a URI that was parsed is printed as a
    text that is parsed as the same URI.  The text itself may differ: an address
    of IPv4 inside IPv6 loses its brackets. *)
Theorem face_uri_stable text u : parse text = Some u -> parse (toString u) = Some u.
Proof.
  unfold parse. destruct (match_protocol text) as [[[scheme authority] path]|] eqn:Hm; [|done]. apply match_protocol_spec in Hm as (_&Hs&Ha&Hp).
  destruct (parse_authority authority) as [[[host isV6] port]|] eqn:Hpa; [|done]. intros [= <-].
  destruct (parse_authority_stable _ _ _ _ Ha Hpa) as [H1 H2].
  unfold toString, authority_of. cbn [fu_scheme fu_isV6 fu_host fu_port fu_path]. fold (port_text port).
  rewrite (proj2 (match_protocol_spec _ scheme _ path) (conj eq_refl (conj Hs (conj H2 Hp)))). by rewrite H1.
Qed.

(** ** Canonical URIs *)

Lemma decimal_not_nil n : decimal n <> [].
Proof.
  assert (H : forall fuel n acc, acc <> [] -> decimal_loop fuel n acc <> []).
  { induction fuel as [|fuel IH]; intros m acc Ha; [done|]. cbn [decimal_loop]. destruct (_ <? _); [done|by apply IH]. }
  unfold decimal. cbn [decimal_loop]. destruct (_ <? _); [done|]. by apply (H 19%nat).
Qed.

(** An address that was printed is read back. *)
Class AddressLaws `{IpAddress} : Prop := {
  v4_roundtrip a : is_v6 a = false -> v4_from_string (to_string a) = Some a;
  v6_roundtrip a : is_v6 a = true -> v6_from_string (to_string a) = Some a
}.
(** [%2hx] reads two hexadecimal digits, as an [unsigned short]. *)
Class ScanfLaws `{Scanf} : Prop := {
  scan_hex2 n s : 0 <= n < 256 -> scan_2hx (hex2 n ++ s) = Some (n, s);
  scan_nonneg s n r : scan_2hx s = Some (n, r) -> 0 <= n
}.

Section EtherFacts.
Context `{ScanfLaws}.

Lemma scan_address_printed n : forall a s, length a = S n -> Forall (fun v => 0 <= v < 256) a ->
  scan_address n (ether_toString a ++ s) = Some (a, replicate n COLON, s).
Proof.
  induction n as [|n IH]; intros [|v a] s Hl Ha; try done; apply Forall_cons in Ha as [Hv Ha].
  - destruct a; [|done]. cbn [ether_toString scan_address]. by rewrite scan_hex2.
  - destruct a as [|w a]; [done|]. change (ether_toString (v :: w :: a)) with (hex2 v ++ COLON :: ether_toString (w :: a)). cbn [scan_address].
    rewrite <- app_assoc, scan_hex2 by done. cbn [app scan_separator]. rewrite Z.eqb_refl. cbn [orb]. rewrite IH; [done|cbn in *; lia|done].
Qed.

Lemma ether_roundtrip a : length a = 6%nat -> Forall (fun v => 0 <= v < 256) a -> ether_fromString (ether_toString a) = a.
Proof.
  intros Hl Ha. unfold ether_fromString. rewrite <- (app_nil_r (ether_toString a)), (scan_address_printed 5 a []) by done.
  assert (Hf : forallb (fun v => v <=? 255) a = true) by (apply forallb_Forall_true; eapply Forall_impl; [exact Ha|]; intros v Hv; cbn in Hv; lia). rewrite Hf. done.
Qed.

Lemma scan_address_values n : forall s vs cs r, scan_address n s = Some (vs, cs, r) -> length vs = S n /\ Forall (fun v => 0 <= v) vs.
Proof.
  induction n as [|n IH]; intros s vs cs r; cbn [scan_address]; destruct (scan_2hx s) as [[v s1]|] eqn:E; try done; apply scan_nonneg in E.
  - intros [= <- _ _]. by repeat constructor.
  - destruct (scan_separator s1) as [[c s2]|]; [|done]. destruct (scan_address n s2) as [[[vs' cs'] s3]|] eqn:E'; [|done]. intros [= <- _ _].
    destruct (IH _ _ _ _ E'). split; [cbn; lia|by constructor].
Qed.

Lemma ether_fromString_ok s : length (ether_fromString s) = 6%nat /\ Forall (fun v => 0 <= v < 256) (ether_fromString s).
Proof.
  assert (Hn : length ether_null = 6%nat /\ Forall (fun v => 0 <= v < 256) ether_null) by (split; [done|by_decide]).
  unfold ether_fromString. destruct (scan_address 5 s) as [[[vs cs] r]|] eqn:E; [|done]. destruct r; [|done]. destruct (_ && _) eqn:Hb; [|done].
  apply andb_true_iff in Hb as [_ Hb]. apply forallb_Forall_true in Hb. destruct (scan_address_values _ _ _ _ _ E) as [Hl Hv]. split; [done|].
  apply Forall_forall. intros v Hin. rewrite Forall_forall in Hb, Hv. specialize (Hb v Hin). specialize (Hv v Hin). cbn in *. lia.
Qed.
End EtherFacts.

(** Canonization gives a canonical URI, or it fails: the assertions of the code
    that what it calls back with is canonical hold, whatever the resolver
    answers. *)
Theorem canonize_canonical `{IpAddress} `{Scanf} `{!AddressLaws} `{!ScanfLaws} resolve u :
  exists r, canonize resolve u = Ok r /\ forall u', r = CanonizeSuccess u' -> isCanonical u' = true.
Proof.
  unfold canonize. destruct (getCanonizeProvider (fu_scheme u)) as [[p|]|] eqn:Hg; [| |by eexists].
  - destruct (isCanonical_ip p u) eqn:Hc.
    { eexists. split; [done|]. intros u' [= <-]. unfold isCanonical. by rewrite Hg. }
    destruct (resolve _ _) as [a|]; [|by eexists]. unfold onDnsSuccess. destruct (checkAddress p a) eqn:Hch; cbn [negb]; [|by eexists].
    destruct (if bool_decide (fu_port u = []) then _ else _) as [port|]; [|by eexists].
    assert (Hcan : isCanonical (FaceUri_of_endpoint p a (port mod 65536)) = true).
    { unfold isCanonical, FaceUri_of_endpoint. cbn [fu_scheme]. assert (Hgp : getCanonizeProvider (if is_v6 a then v6Scheme p else v4Scheme p) = Some (IpProvider p)) by by destruct (is_v6 a), p.
      rewrite Hgp. unfold isCanonical_ip. cbn [fu_port fu_path fu_scheme fu_host]. rewrite bool_decide_false by apply decimal_not_nil. rewrite (bool_decide_true ([] = [])) by done. cbn [negb].
      destruct (is_v6 a) eqn:H6.
      - rewrite bool_decide_false by (destruct p; by_decide). rewrite bool_decide_true by done. rewrite v6_roundtrip by done. by rewrite bool_decide_true.
      - rewrite bool_decide_true by done. rewrite v4_roundtrip by done. by rewrite bool_decide_true. }
    rewrite Hcan. eexists. split; [done|]. by intros u' [= <-].
  - destruct (ether_isNull _); [by eexists|].
    assert (Hcan : isCanonical (FaceUri_of_ether (ether_fromString (fu_host u))) = true).
    { unfold isCanonical. cbn [FaceUri_of_ether fu_scheme]. change (getCanonizeProvider (str "ether")) with (Some EtherProvider). cbn iota. unfold isCanonical_ether.
      cbn [FaceUri_of_ether fu_port fu_path fu_host]. destruct (ether_fromString_ok (fu_host u)) as [Hl Hv]. rewrite ether_roundtrip by done. by rewrite !bool_decide_true by done. }
    rewrite Hcan. eexists. split; [done|]. by intros u' [= <-].
Qed.

Module FaceUriSamples.
Definition v4 : FaceUri := MkFaceUri (str "udp4") (str "192.0.2.1") false (str "6363") [].
Example parse_v4 : parse (str "udp4://192.0.2.1:6363") = Some v4 /\ toString v4 = str "udp4://192.0.2.1:6363".
Proof. by vm_compute. Qed.
Example parse_v6 : parse (str "tcp6://[2001:db8::1]:80/path") = Some (MkFaceUri (str "tcp6") (str "2001:db8::1") true (str "80") (str "/path")).
Proof. by vm_compute. Qed.
Example parse_mapped : parse (str "udp://[::ffff:192.0.2.1]:6363") = Some (MkFaceUri (str "udp") (str "192.0.2.1") false (str "6363") []).
Proof. by vm_compute. Qed.
Example parse_unix : parse (str "unix:///var/run/nfd.sock") = Some (MkFaceUri (str "unix") [] false [] (str "/var/run/nfd.sock")).
Proof. by vm_compute. Qed.
Example parse_bad : map parse [str "udp:/x"; str "://x"; str "udp4://h:"; str "udp4://h:1a"; str "udp4://h/p?q"] = [None; None; None; None; None].
Proof. by vm_compute. Qed.

Lemma face_uri_stable_witness : parse (str "udp://[::ffff:192.0.2.1]:6363") = Some (MkFaceUri (str "udp") (str "192.0.2.1") false (str "6363") []) /\
  parse (toString (MkFaceUri (str "udp") (str "192.0.2.1") false (str "6363") [])) = Some (MkFaceUri (str "udp") (str "192.0.2.1") false (str "6363") []).
Proof.
  assert (H : parse (str "udp://[::ffff:192.0.2.1]:6363") = Some (MkFaceUri (str "udp") (str "192.0.2.1") false (str "6363") [])) by (vm_compute; reflexivity).
  split; [exact H|exact (face_uri_stable _ _ H)].
Defined.

(** Addresses that are their own text *)
#[local] Instance addresses : IpAddress := {
  address := bool * list Z;
  v4_from_string s := Some (false, s);
  v6_from_string s := Some (true, s);
  to_string := snd;
  is_v6 := fst;
  is_multicast _ := false
}.
#[local] Instance scanf : Scanf := {
  scan_2hx s := match s with
    | a :: b :: s => if isHex a && isHex b then let v c := if c <? 58 then c - 48 else if c <? 97 then c - 55 else c - 87 in Some (16 * v a + v b, s) else None
    | _ => None
    end
}.

(** A port that is too large for an endpoint is cut to 16 bits, and one that is
    too large is canonical. *)
Example port_truncated : canonize (fun _ _ => Some (false, str "192.0.2.1")) (MkFaceUri (str "udp") (str "example.net") false (str "70000") []) =
  Ok (CanonizeSuccess (MkFaceUri (str "udp4") (str "192.0.2.1") false (str "4464") [])).
Proof. by vm_compute. Qed.
Example port_canonical : isCanonical (MkFaceUri (str "udp4") (str "192.0.2.1") false (str "70000") []) = true.
Proof. by vm_compute. Qed.
End FaceUriSamples.
