(* ===== verification/Faces.v ===== *)
(** * Faces and the face table: [NFD/daemon/face/face.hpp], [fw/face-table.cpp],
    [face/channel.cpp]

    A face is an object that channels create, that the face table numbers and
    connects to the forwarder, and that goes away when its transport is closed:
    who holds a face has connected a slot to the signal of its state.  The state
    here is all of that: the forwarder, the objects, the table, and the channels
    and factories (whose operations are in [Channels]).  Their sockets are the
    environment. *)

From stdpp Require Import sorting.
From S2P Require Import Prelude StdMap Tlv Block Encoder Elements NameComponent Name KeyLocator Exclude MetaInfo Packet Link CsEntry.
From S2P Require Import CsPolicy Cs NameTree FibEntry PitEntry DeadNonceList Tables Pit Fib StrategyChoice Forwarder ForwarderInv ForwarderProps Strategies.
From S2P Require Import LpPacket LpFragmenter LpReassembler LinkService Transport ControlParameters Management Dataset FaceUri.

(** ** Addresses *)

(** What else [boost::asio::ip::address] has: an order, and the text of the
    exception when a text is not an address *)
Class IpAddresses `{IpAddress} := {
  #[global] address_eq_dec :: EqDecision address;
  #[global] address_countable :: Countable address;
  address_from_string : list Z -> list Z + address;
  v4_any : address;
  v6_any : address;
  v4_broadcast : address;
  is_loopback : address -> bool;
  address_le : address -> address -> bool
}.

Record Endpoint `{IpAddresses} := MkEndpoint { ep_address : address; ep_port : Z }.
Arguments MkEndpoint {_ _}.

#[global] Instance Endpoint_eq_dec `{IpAddresses} : EqDecision Endpoint.
Proof. solve_decision. Defined.
#[global, refine] Instance Endpoint_countable `{IpAddresses} : Countable Endpoint :=
  inj_countable' (fun e => (ep_address e, ep_port e)) (fun x => MkEndpoint x.1 x.2) _.
Proof. by intros []. Defined.

(** [operator<] of endpoints: the address first *)
Definition ep_le `{IpAddresses} (a b : Endpoint) : bool :=
  if bool_decide (ep_address a = ep_address b) then ep_port a <=? ep_port b else address_le (ep_address a) (ep_address b).

(** [operator<=] of strings *)
Fixpoint string_le (a b : list Z) : bool :=
  match a, b with
  | [], _ => true
  | _ :: _, [] => false
  | x :: a, y :: b => (x <? y) || ((x =? y) && string_le a b)
  end.

(** The entries of a [std::map], in its order *)
Definition in_order `{Countable K} {A} (le : K -> K -> bool) (m : gmap K A) : list (K * A) :=
  @merge_sort (K * A) (fun a b => le a.1 b.1 = true) (fun a b => decide (le a.1 b.1 = true)) (map_to_list m).

(** ** Objects *)

(** [INVALID_FACEID] is in [PitEntry]. *)
Definition FACEID_RESERVED_MAX : Z := 255.

(** The values of [ndn::nfd::FacePersistency], which is a [uint8_t] that a command
    sets to any value *)
Definition PERSISTENCY_NONE_VALUE : Z := 255.
Definition PERSISTENCY_PERSISTENT : Z := 0.
Definition PERSISTENCY_ON_DEMAND : Z := 1.
Definition PERSISTENCY_PERMANENT : Z := 2.

(** The counters of a transport *)
Record TransportCounters := MkTransportCounters { tc_nInPackets : Z; tc_nOutPackets : Z; tc_nInBytes : Z; tc_nOutBytes : Z }.

(** [GenericLinkService::Options::Options], and a link service without options *)
Definition Options_default : Options := MkOptions false false false 400.
Definition GenericLinkService_new : LinkService := LinkService_new Options_default (MkReassembler 400 (milliseconds 500) ∅).
(** [GenericLinkService::setOptions]; the fragmenter keeps its own. *)
Definition setOptions (options : Options) (ls : LinkService) : LinkService :=
  MkLinkService (MkOptions (allowLocalFields options) (allowFragmentation options) (allowReassembly options) (nMaxFragments (ls_options ls))) (ls_lastSeqNo ls) (ls_reassembler ls) (ls_counters ls).

Section Faces.
Context `{IpAddresses}.

(** The class of the transport, with what [beforeChangePersistency] depends on *)
Inductive TransportClass := TcpTransport | UnicastUdpTransport (idleTimeout : Z) | MulticastUdpTransport.

(** A slot that is connected to [afterStateChange] and acts on [CLOSED]: the
    channel (of the local endpoint) forgets the remote endpoint, the factory
    forgets the multicast face, the table removes the face. *)
Inductive Slot :=
| EraseTcpFace (channel remote : Endpoint)
| EraseUdpFace (channel remote : Endpoint)
| EraseMulticastFace (localEndpoint : Endpoint)
| RemoveFromTable.
#[global] Instance Slot_eq_dec : EqDecision Slot.
Proof. solve_decision. Defined.

(** A face: the members of its transport, its link service, and the slots.  [fi_posted] calls of [setState(CLOSED)] are posted; the id, and what
    the forwarder reads, are in the forwarder once the face is in the table. *)
Record FaceObject := MkFaceObject {
  fi_class : TransportClass;
  fi_localUri : FaceUri;
  fi_remoteUri : FaceUri;
  fi_scope : FaceScope;
  fi_linkType : LinkType;
  fi_state : TransportState;
  fi_persistency : Z;
  fi_expirationTime : option Z;
  fi_closeIfIdle : option Z;
  fi_usedRecently : bool;
  fi_posted : nat;
  fi_slots : list Slot;
  fi_service : LinkService;
  fi_counters : TransportCounters
}.

(** What is called back when a face is there: the table takes it, or a command is
    answered.  The commands are numbered in the order they arrive. *)
Inductive FaceCreatedCallback := AddToTable | AnswerCommand (parameters : ControlParameters) (request : nat).

(** A connection that [TcpChannel::connect] has started: whether the socket is
    open, the timer is scheduled, and the completion is outstanding *)
Record TcpConnection := MkTcpConnection {
  tc_remote : Endpoint;
  tc_callback : FaceCreatedCallback;
  tc_open : bool;
  tc_timer : bool;
  tc_outstanding : bool
}.

(** The socket of a channel that listens: not open, open with an operation that
    waits for the next peer, or open without one, after an error *)
Inductive Listening := NotOpen | WaitingForPeer | NotWaiting.
#[global] Instance Listening_eq_dec : EqDecision Listening. Proof. solve_decision. Defined.
(** [isListening] of a channel: [is_open] of the socket or acceptor *)
Definition isListening (l : Listening) : bool := bool_decide (l <> NotOpen).

Record TcpChannel := MkTcpChannel { tc_listening : Listening; tc_faces : gmap Endpoint FacePtr; tc_connections : list TcpConnection }.
Record UdpChannel := MkUdpChannel { uc_listening : Listening; uc_faces : gmap Endpoint FacePtr; uc_idleFaceTimeout : Z }.
Record TcpFactory := MkTcpFactory { tf_prohibited : gset Endpoint; tf_channels : gmap Endpoint TcpChannel }.
Record UdpFactory := MkUdpFactory { uf_prohibited : gset Endpoint; uf_channels : gmap Endpoint UdpChannel; uf_multicastFaces : gmap Endpoint FacePtr }.

(** The factories that this build has for commands; [m_factories] of the face
    manager says under which schemes. *)
Inductive ProtocolFactory := TheTcpFactory | TheUdpFactory.
#[global] Instance ProtocolFactory_eq_dec : EqDecision ProtocolFactory.
Proof. solve_decision. Defined.

Context {P : Type}.

Record FaceSystem := MkFaceSystem {
  sy_forwarder : Forwarder P;
  sy_objects : gmap FacePtr FaceObject;
  sy_nextObject : FacePtr;
  sy_table : gmap Z FacePtr;
  sy_lastFaceId : Z;
  sy_events : list Block;
  sy_tcp : TcpFactory;
  sy_udp : UdpFactory;
  sy_factories : gmap (list Z) ProtocolFactory;
  sy_requests : nat;
  sy_responses : list (nat * ControlResponse)
}.
Implicit Types (s : FaceSystem) (p : FacePtr) (o : FaceObject).

(** ** Access to the state *)

Definition sy_with_forwarder (fw : Forwarder P) s : FaceSystem :=
  MkFaceSystem fw (sy_objects s) (sy_nextObject s) (sy_table s) (sy_lastFaceId s) (sy_events s) (sy_tcp s) (sy_udp s) (sy_factories s) (sy_requests s) (sy_responses s).
Definition sy_with_objects (l : gmap FacePtr FaceObject) (next : FacePtr) s : FaceSystem :=
  MkFaceSystem (sy_forwarder s) l next (sy_table s) (sy_lastFaceId s) (sy_events s) (sy_tcp s) (sy_udp s) (sy_factories s) (sy_requests s) (sy_responses s).
Definition sy_with_table (t : gmap Z FacePtr) (last : Z) s : FaceSystem :=
  MkFaceSystem (sy_forwarder s) (sy_objects s) (sy_nextObject s) t last (sy_events s) (sy_tcp s) (sy_udp s) (sy_factories s) (sy_requests s) (sy_responses s).
Definition post (b : Block) s : FaceSystem :=
  MkFaceSystem (sy_forwarder s) (sy_objects s) (sy_nextObject s) (sy_table s) (sy_lastFaceId s) (sy_events s ++ [b]) (sy_tcp s) (sy_udp s) (sy_factories s) (sy_requests s) (sy_responses s).
Definition sy_with_tcp (t : TcpFactory) s : FaceSystem :=
  MkFaceSystem (sy_forwarder s) (sy_objects s) (sy_nextObject s) (sy_table s) (sy_lastFaceId s) (sy_events s) t (sy_udp s) (sy_factories s) (sy_requests s) (sy_responses s).
Definition sy_with_udp (u : UdpFactory) s : FaceSystem :=
  MkFaceSystem (sy_forwarder s) (sy_objects s) (sy_nextObject s) (sy_table s) (sy_lastFaceId s) (sy_events s) (sy_tcp s) u (sy_factories s) (sy_requests s) (sy_responses s).
Definition sy_with_factories (l : gmap (list Z) ProtocolFactory) s : FaceSystem :=
  MkFaceSystem (sy_forwarder s) (sy_objects s) (sy_nextObject s) (sy_table s) (sy_lastFaceId s) (sy_events s) (sy_tcp s) (sy_udp s) l (sy_requests s) (sy_responses s).
(** [done(response)] of a command *)
Definition answer (request : nat) (r : ControlResponse) s : FaceSystem :=
  MkFaceSystem (sy_forwarder s) (sy_objects s) (sy_nextObject s) (sy_table s) (sy_lastFaceId s) (sy_events s) (sy_tcp s) (sy_udp s) (sy_factories s) (sy_requests s) (sy_responses s ++ [(request, r)]).
Definition next_request s : FaceSystem :=
  MkFaceSystem (sy_forwarder s) (sy_objects s) (sy_nextObject s) (sy_table s) (sy_lastFaceId s) (sy_events s) (sy_tcp s) (sy_udp s) (sy_factories s) (S (sy_requests s)) (sy_responses s).

Definition get_object p s : result FaceObject := match sy_objects s !! p with Some o => Ok o | None => Err NullPointer end.
Definition set_object p o s : FaceSystem := sy_with_objects (<[p := o]> (sy_objects s)) (sy_nextObject s) s.
(** [make_shared<Face>] *)
Definition new_object o s : FacePtr * FaceSystem :=
  (sy_nextObject s, sy_with_objects (<[sy_nextObject s := o]> (sy_objects s)) (sy_nextObject s + 1) s).

Definition fi_with_state (st : TransportState) o : FaceObject :=
  MkFaceObject (fi_class o) (fi_localUri o) (fi_remoteUri o) (fi_scope o) (fi_linkType o) st (fi_persistency o) (fi_expirationTime o)
    (fi_closeIfIdle o) (fi_usedRecently o) (fi_posted o) (fi_slots o) (fi_service o) (fi_counters o).
Definition fi_with_posted (n : nat) o : FaceObject :=
  MkFaceObject (fi_class o) (fi_localUri o) (fi_remoteUri o) (fi_scope o) (fi_linkType o) (fi_state o) (fi_persistency o) (fi_expirationTime o)
    (fi_closeIfIdle o) (fi_usedRecently o) n (fi_slots o) (fi_service o) (fi_counters o).
Definition fi_with_persistency (n : Z) o : FaceObject :=
  MkFaceObject (fi_class o) (fi_localUri o) (fi_remoteUri o) (fi_scope o) (fi_linkType o) (fi_state o) n (fi_expirationTime o)
    (fi_closeIfIdle o) (fi_usedRecently o) (fi_posted o) (fi_slots o) (fi_service o) (fi_counters o).
Definition fi_with_idle (expiration timer : option Z) (used : bool) o : FaceObject :=
  MkFaceObject (fi_class o) (fi_localUri o) (fi_remoteUri o) (fi_scope o) (fi_linkType o) (fi_state o) (fi_persistency o) expiration
    timer used (fi_posted o) (fi_slots o) (fi_service o) (fi_counters o).
(** [afterStateChange.connect] *)
Definition connect_slot (slot : Slot) o : FaceObject :=
  MkFaceObject (fi_class o) (fi_localUri o) (fi_remoteUri o) (fi_scope o) (fi_linkType o) (fi_state o) (fi_persistency o) (fi_expirationTime o)
    (fi_closeIfIdle o) (fi_usedRecently o) (fi_posted o) (fi_slots o ++ [slot]) (fi_service o) (fi_counters o).
Definition fi_with_service (service : LinkService) o : FaceObject :=
  MkFaceObject (fi_class o) (fi_localUri o) (fi_remoteUri o) (fi_scope o) (fi_linkType o) (fi_state o) (fi_persistency o) (fi_expirationTime o)
    (fi_closeIfIdle o) (fi_usedRecently o) (fi_posted o) (fi_slots o) service (fi_counters o).
Definition fi_with_counters (c : TransportCounters) o : FaceObject :=
  MkFaceObject (fi_class o) (fi_localUri o) (fi_remoteUri o) (fi_scope o) (fi_linkType o) (fi_state o) (fi_persistency o) (fi_expirationTime o)
    (fi_closeIfIdle o) (fi_usedRecently o) (fi_posted o) (fi_slots o) (fi_service o) c.

Definition getId s p : Z := f_id (face_at (sy_forwarder s) p).

(** ** Notifications *)

Definition scope_value (x : FaceScope) : Z := match x with FACE_SCOPE_NON_LOCAL => 0 | FACE_SCOPE_LOCAL => 1 end.
Definition linkType_value (x : LinkType) : Z := match x with LINK_TYPE_POINT_TO_POINT => 0 | LINK_TYPE_MULTI_ACCESS => 1 end.

(** [FaceManager::collectFaceProperties] *)
Definition collectFaceProperties s p o : FaceTraits :=
  MkFaceTraits (getId s p) (toString (fi_remoteUri o)) (toString (fi_localUri o)) (scope_value (fi_scope o)) (fi_persistency o) (linkType_value (fi_linkType o)).

(** [FaceManager::afterFaceAdded] and [afterFaceRemoved]: a notification is
    posted to the stream. *)
Definition notify (kind : Z) p s : result FaceSystem :=
  let! o := get_object p s in
  let! (b, _) := wireEncode (wired_new (MkFaceEventNotification kind (collectFaceProperties s p o))) in
  Ok (post b s).
Definition afterFaceAdded p s : result FaceSystem := notify FACE_EVENT_CREATED p s.
Definition afterFaceRemoved p s : result FaceSystem := notify FACE_EVENT_DESTROYED p s.

(** ** The face table *)

Definition FaceTable_get (id : Z) s : option FacePtr := sy_table s !! id.

Definition addImpl p (faceId : Z) s : result FaceSystem :=
  let! o := get_object p s in
  let s := sy_with_forwarder (addFace p (MkFace faceId (fi_scope o) (fi_linkType o)) (sy_forwarder s)) s in
  let s := sy_with_table (<[faceId := p]> (sy_table s)) (sy_lastFaceId s) s in
  afterFaceAdded p (set_object p (connect_slot RemoveFromTable o) s).

Definition FaceTable_add p s : result FaceSystem :=
  if negb (getId s p =? INVALID_FACEID) && bool_decide (is_Some (sy_table s !! getId s p)) then Ok s
  else
    let faceId := to_u64 (sy_lastFaceId s + 1) in
    let s := sy_with_table (sy_table s) faceId s in
    if faceId <=? FACEID_RESERVED_MAX then Err AssertFailed else addImpl p faceId s.

Definition addReserved p (faceId : Z) s : result FaceSystem :=
  if negb (getId s p =? INVALID_FACEID) then Err AssertFailed
  else if bool_decide (is_Some (sy_table s !! getId s p)) then Err AssertFailed
  else if FACEID_RESERVED_MAX <? faceId then Err AssertFailed
  else addImpl p faceId s.

Definition FaceTable_remove p s : result FaceSystem :=
  let! s := afterFaceRemoved p s in
  let s := sy_with_table (base.delete (getId s p) (sy_table s)) (sy_lastFaceId s) s in
  Ok (sy_with_forwarder (removeFace p (sy_forwarder s)) s).

(** ** Closing *)

(** The maps of the channels and the multicast faces of the factory *)
Definition erase_tcp (channel remote : Endpoint) (t : TcpFactory) : TcpFactory :=
  MkTcpFactory (tf_prohibited t) (alter (fun c => MkTcpChannel (tc_listening c) (base.delete remote (tc_faces c)) (tc_connections c)) channel (tf_channels t)).
Definition erase_udp (channel remote : Endpoint) (u : UdpFactory) : UdpFactory :=
  MkUdpFactory (uf_prohibited u) (alter (fun c => MkUdpChannel (uc_listening c) (base.delete remote (uc_faces c)) (uc_idleFaceTimeout c)) channel (uf_channels u)) (uf_multicastFaces u).
Definition erase_multicast (localEndpoint : Endpoint) (u : UdpFactory) : UdpFactory :=
  MkUdpFactory (uf_prohibited u) (uf_channels u) (base.delete localEndpoint (uf_multicastFaces u)).

Definition run_slot p (slot : Slot) s : result FaceSystem :=
  match slot with
  | EraseTcpFace channel remote => Ok (sy_with_tcp (erase_tcp channel remote (sy_tcp s)) s)
  | EraseUdpFace channel remote => Ok (sy_with_udp (erase_udp channel remote (sy_udp s)) s)
  | EraseMulticastFace localEndpoint => Ok (sy_with_udp (erase_multicast localEndpoint (sy_udp s)) s)
  | RemoveFromTable => FaceTable_remove p s
  end.
Fixpoint run_slots p (slots : list Slot) s : result FaceSystem :=
  match slots with
  | [] => Ok s
  | slot :: slots => let! s := run_slot p slot s in run_slots p slots s
  end.

(** [Transport::setState], with the slots of [connectFaceClosedSignal] *)
Definition Face_setState (newState : TransportState) p s : result FaceSystem :=
  let! o := get_object p s in
  if bool_decide (fi_state o = newState) then Ok s
  else if negb (valid_transition (fi_state o) newState) then Err RuntimeError
  else
    let s := set_object p (fi_with_state newState o) s in
    if bool_decide (newState = CLOSED) then run_slots p (fi_slots o) s else Ok s.

(** [doClose] of the transports: the call of [setState] is posted. *)
Definition Face_doClose p s : result FaceSystem :=
  let! o := get_object p s in Ok (set_object p (fi_with_posted (S (fi_posted o)) o) s).
(** [Face::close] *)
Definition Face_close p s : result FaceSystem :=
  let! o := get_object p s in
  if negb (is_open (fi_state o)) then Ok s
  else let! s := Face_setState CLOSING p s in Face_doClose p s.
(** A posted call *)
Definition Face_closed p s : result FaceSystem :=
  let! o := get_object p s in
  match fi_posted o with
  | O => Ok s
  | S n => Face_setState CLOSED p (set_object p (fi_with_posted n o) s)
  end.

(** [DatagramTransport::processErrorCode], for an error other than
    [operation_aborted] *)
Definition Datagram_processErrorCode p s : result FaceSystem :=
  let! o := get_object p s in
  match fi_state o with
  | CLOSING | FAILED | CLOSED => Ok s
  | _ =>
      if fi_persistency o =? PERSISTENCY_PERMANENT then Ok s
      else let! s := Face_setState FAILED p s in Face_doClose p s
  end.

(** ** Persistency and idle faces *)

(** [UnicastUdpTransport::scheduleClosureWhenIdle]; the timer is replaced. *)
Definition scheduleClosureWhenIdle (now idleTimeout : Z) (used : bool) o : FaceObject :=
  fi_with_idle (Some (now + idleTimeout)) (Some (now + idleTimeout)) used o.

(** [beforeChangePersistency] of the transports *)
Definition beforeChangePersistency (now newPersistency : Z) o : result FaceObject :=
  match fi_class o with
  | TcpTransport => if newPersistency =? PERSISTENCY_PERMANENT then Err InvalidArgument else Ok o
  | MulticastUdpTransport => if negb (newPersistency =? PERSISTENCY_PERMANENT) then Err InvalidArgument else Ok o
  | UnicastUdpTransport idleTimeout =>
      if (newPersistency =? PERSISTENCY_ON_DEMAND) && (0 <? idleTimeout)
      then Ok (scheduleClosureWhenIdle now idleTimeout (fi_usedRecently o) o)
      else Ok (fi_with_idle None None (fi_usedRecently o) o)
  end.

(** [Transport::setPersistency] *)
Definition object_setPersistency (now newPersistency : Z) o : result FaceObject :=
  if fi_persistency o =? newPersistency then Ok o
  else if newPersistency =? PERSISTENCY_NONE_VALUE then Err RuntimeError
  else
    let! o := if negb (fi_persistency o =? PERSISTENCY_NONE_VALUE) then beforeChangePersistency now newPersistency o else Ok o in
    Ok (fi_with_persistency newPersistency o).
Definition Face_setPersistency (now newPersistency : Z) p s : result FaceSystem :=
  let! o := get_object p s in
  let! o := object_setPersistency now newPersistency o in
  Ok (set_object p o s).

(** The timer of an idle face fires. *)
Definition idle_timer_fires (now : Z) p s : result FaceSystem :=
  let! o := get_object p s in
  match fi_class o, fi_closeIfIdle o with
  | UnicastUdpTransport idleTimeout, Some t =>
      if t <=? now then
        if negb (fi_usedRecently o) then Face_close p (set_object p (fi_with_idle (fi_expirationTime o) None false o) s)
        else Ok (set_object p (scheduleClosureWhenIdle now idleTimeout false o) s)
      else Ok s
  | _, _ => Ok s
  end.

(** [DatagramTransport::receiveDatagram] without an error: the block that is
    given to the link service, if the datagram is one *)
Definition Face_receiveDatagram (bytes : list Z) p s : result (option Block * FaceSystem) :=
  let! o := get_object p s in
  match fromArray bytes with
  | None => Ok (None, s)
  | Some element =>
      let! n := Block_size element in
      if negb (n =? len bytes) then Ok (None, s)
      else
        let c := fi_counters o in
        let c := MkTransportCounters (tc_nInPackets c + 1) (tc_nOutPackets c) (tc_nInBytes c + n) (tc_nOutBytes c) in
        Ok (Some element, set_object p (fi_with_counters c (fi_with_idle (fi_expirationTime o) (fi_closeIfIdle o) true o)) s)
  end.

(** ** Answers to commands *)

Definition text_failed : list Z := str "Failed to create face: ".

(** [FaceManager::afterCreateFaceSuccess] and [afterCreateFaceFailure] *)
Definition afterCreateFaceSuccess (parameters : ControlParameters) (request : nat) p s : result FaceSystem :=
  let! s := FaceTable_add p s in
  let! o := get_object p s in
  let parameters := setFaceId (getId s p) parameters in
  let parameters := setUri (toString (fi_remoteUri o)) parameters in
  let parameters := setFacePersistency (fi_persistency o) parameters in
  let! response := respond 200 text_OK parameters in
  Ok (answer request response s).
Definition afterCreateFaceFailure (reason : list Z) (request : nat) s : FaceSystem :=
  answer request (ControlResponse_new 408 (text_failed ++ reason)) s.

(** What a channel calls back; a listener has no callback for failures. *)
Definition onFaceCreated (cb : FaceCreatedCallback) p s : result FaceSystem :=
  match cb with
  | AddToTable => FaceTable_add p s
  | AnswerCommand parameters request => afterCreateFaceSuccess parameters request p s
  end.
Definition onConnectFailed (cb : FaceCreatedCallback) (reason : list Z) s : FaceSystem :=
  match cb with AddToTable => s | AnswerCommand _ request => afterCreateFaceFailure reason request s end.
End Faces.
