(* ===== verification/Channels.v ===== *)
(** * Channels and factories: [NFD/daemon/face/udp-channel.cpp],
    [udp-factory.cpp], [tcp-channel.cpp], [tcp-factory.cpp]

    A channel has a local endpoint and the faces to its remote endpoints; a
    factory has the channels of a protocol and the endpoints that belong to this
    forwarder.  What a socket does is an argument of the operations. *)

From stdpp Require Import sorting.
From S2P Require Import Prelude StdMap Tlv Block Encoder Elements NameComponent Name KeyLocator Exclude MetaInfo Packet Link CsEntry.
From S2P Require Import CsPolicy Cs NameTree FibEntry PitEntry DeadNonceList Tables Pit Fib StrategyChoice Forwarder ForwarderInv ForwarderProps Strategies.
From S2P Require Import LpPacket LpFragmenter LpReassembler LinkService Transport ControlParameters Management Dataset FaceUri Faces.

(** What a call does: it returns, or it throws a [boost::system::system_error] or
    another exception that is a [std::runtime_error] or [std::logic_error]; other
    exceptions are errors of [result]. *)
Inductive outcome (A : Type) := Returns (a : A) | SystemError (what : list Z) | StdException (what : list Z).
Arguments Returns {A}. Arguments SystemError {A}. Arguments StdException {A}.

Section Channels.
Context `{IpAddresses} {P : Type}.
Implicit Types (s : FaceSystem (P := P)) (p : FacePtr).

(** What opening and connecting a socket does: the local endpoint, or the error *)
Inductive SocketAnswer := SocketOpened (localEndpoint : Endpoint) | SocketFailed (what : list Z).

Definition Face_new (c : TransportClass) (localUri remoteUri : FaceUri) (scope : FaceScope) (linkType : LinkType) (persistency : Z) : FaceObject :=
  MkFaceObject c localUri remoteUri scope linkType UP persistency None None false 0 [] GenericLinkService_new (MkTransportCounters 0 0 0 0).

(** ** UDP channels *)

Definition UnicastUdpTransport_new (now idleTimeout persistency : Z) (localEndpoint remote : Endpoint) : FaceObject :=
  let o := Face_new (UnicastUdpTransport idleTimeout) (FaceUri_of_endpoint Udp (ep_address localEndpoint) (ep_port localEndpoint))
             (FaceUri_of_endpoint Udp (ep_address remote) (ep_port remote)) FACE_SCOPE_NON_LOCAL LINK_TYPE_POINT_TO_POINT persistency in
  if (persistency =? PERSISTENCY_ON_DEMAND) && (0 <? idleTimeout) then scheduleClosureWhenIdle now idleTimeout false o else o.

Definition get_udp (channel : Endpoint) s : result UdpChannel :=
  match uf_channels (sy_udp s) !! channel with Some c => Ok c | None => Err NullPointer end.
Definition set_udp (channel : Endpoint) (c : UdpChannel) s : FaceSystem :=
  sy_with_udp (MkUdpFactory (uf_prohibited (sy_udp s)) (<[channel := c]> (uf_channels (sy_udp s))) (uf_multicastFaces (sy_udp s))) s.

(** The endpoint that [createFace] looks for, whatever the remote endpoint *)
Definition groupEndpoint : result Endpoint :=
  match v4_from_string (str "192.168.49.255") with Some a => Ok (MkEndpoint a 6363) | None => Err RuntimeError end.

Definition text_transition : list Z := str "invalid persistency transition".

(** [UdpChannel::createFace]: whether the face was created, and the face *)
Definition UdpChannel_createFace (now : Z) (socket : SocketAnswer) (channel remote : Endpoint) (persistency : Z) s : result (outcome (bool * FacePtr * FaceSystem)) :=
  let! c := get_udp channel s in
  let! endpoint := groupEndpoint in
  match uc_faces c !! endpoint with
  | Some p =>
      let! o := get_object p s in
      let isTransitionAllowed := negb (persistency =? fi_persistency o) &&
                                 ((fi_persistency o =? PERSISTENCY_ON_DEMAND) || (persistency =? PERSISTENCY_PERMANENT)) in
      if isTransitionAllowed then
        match Face_setPersistency now persistency p s with
        | Err RuntimeError => Ok (StdException text_transition)
        | Err e => Err e
        | Ok s => Ok (Returns (false, p, s))
        end
      else Ok (Returns (false, p, s))
  | None =>
      match socket with
      | SocketFailed what => Ok (SystemError what)
      | SocketOpened localEndpoint =>
          let o := UnicastUdpTransport_new now (uc_idleFaceTimeout c) persistency localEndpoint remote in
          let '(p, s) := new_object (connect_slot (EraseUdpFace channel remote) o) s in
          Ok (Returns (true, p, set_udp channel (MkUdpChannel (uc_listening c) (<[remote := p]> (uc_faces c)) (uc_idleFaceTimeout c)) s))
      end
  end.

Definition UdpChannel_connect (now : Z) (socket : SocketAnswer) (channel remote : Endpoint) (persistency : Z) (cb : FaceCreatedCallback) s : result (outcome FaceSystem) :=
  let! r := UdpChannel_createFace now socket channel remote persistency s in
  match r with
  | Returns (_, p, s) => let! s := onFaceCreated cb p s in Ok (Returns s)
  | SystemError what => Ok (Returns (onConnectFailed cb what s))
  | StdException what => Ok (StdException what)
  end.

Definition UdpChannel_listen (channel : Endpoint) s : result FaceSystem :=
  let! c := get_udp channel s in
  if isListening (uc_listening c) then Ok s
  else Ok (set_udp channel (MkUdpChannel WaitingForPeer (uc_faces c) (uc_idleFaceTimeout c)) s).

(** [handleNewPeer] without an error, for the datagram [bytes] of the peer
    [remote]: the block that the face gives to its link service.  When the face
    cannot be created, the channel does not wait for another datagram. *)
Definition handleNewPeer (now : Z) (socket : SocketAnswer) (channel remote : Endpoint) (bytes : list Z) s : result (option Block * FaceSystem) :=
  let! c := get_udp channel s in
  if negb (bool_decide (uc_listening c = WaitingForPeer)) then Ok (None, s)
  else
    let! r := UdpChannel_createFace now socket channel remote PERSISTENCY_ON_DEMAND s in
    match r with
    | Returns (isCreated, p, s) =>
        let! s := if isCreated then onFaceCreated AddToTable p s else Ok s in
        Face_receiveDatagram bytes p s
    | SystemError what => Ok (None, set_udp channel (MkUdpChannel NotWaiting (uc_faces c) (uc_idleFaceTimeout c)) s)
    | StdException _ => Err RuntimeError
    end.

(** ** TCP channels *)

Definition TcpTransport_new (persistency : Z) (localEndpoint remote : Endpoint) : FaceObject :=
  Face_new TcpTransport (FaceUri_of_endpoint Tcp (ep_address localEndpoint) (ep_port localEndpoint))
    (FaceUri_of_endpoint Tcp (ep_address remote) (ep_port remote))
    (if is_loopback (ep_address localEndpoint) && is_loopback (ep_address remote) then FACE_SCOPE_LOCAL else FACE_SCOPE_NON_LOCAL)
    LINK_TYPE_POINT_TO_POINT persistency.

Definition get_tcp (channel : Endpoint) s : result TcpChannel :=
  match tf_channels (sy_tcp s) !! channel with Some c => Ok c | None => Err NullPointer end.
Definition set_tcp (channel : Endpoint) (c : TcpChannel) s : FaceSystem :=
  sy_with_tcp (MkTcpFactory (tf_prohibited (sy_tcp s)) (<[channel := c]> (tf_channels (sy_tcp s)))) s.
Definition set_connection (i : nat) (x : TcpConnection) (c : TcpChannel) : TcpChannel :=
  MkTcpChannel (tc_listening c) (tc_faces c) (<[i := x]> (tc_connections c)).

Definition TcpChannel_connect (channel remote : Endpoint) (cb : FaceCreatedCallback) s : result FaceSystem :=
  let! c := get_tcp channel s in
  match tc_faces c !! remote with
  | Some p => onFaceCreated cb p s
  | None => Ok (set_tcp channel (MkTcpChannel (tc_listening c) (tc_faces c) (tc_connections c ++ [MkTcpConnection remote cb true true true])) s)
  end.

(** [TcpChannel::createFace], for a socket that is connected *)
Definition TcpChannel_createFace (channel localEndpoint remote : Endpoint) (cb : FaceCreatedCallback) (isOnDemand : bool) s : result FaceSystem :=
  let! c := get_tcp channel s in
  match tc_faces c !! remote with
  | None =>
      let persistency := if isOnDemand then PERSISTENCY_ON_DEMAND else PERSISTENCY_PERSISTENT in
      let '(p, s) := new_object (connect_slot (EraseTcpFace channel remote) (TcpTransport_new persistency localEndpoint remote)) s in
      onFaceCreated cb p (set_tcp channel (MkTcpChannel (tc_listening c) (<[remote := p]> (tc_faces c)) (tc_connections c)) s)
  | Some p => onFaceCreated cb p s
  end.

Definition TcpChannel_listen (channel : Endpoint) s : result FaceSystem :=
  let! c := get_tcp channel s in
  if isListening (tc_listening c) then Ok s
  else Ok (set_tcp channel (MkTcpChannel WaitingForPeer (tc_faces c) (tc_connections c)) s).

(** [handleAccept]; after an error the channel does not accept another
    connection. *)
Definition handleAccept (channel : Endpoint) (socket : option (Endpoint * Endpoint)) s : result FaceSystem :=
  let! c := get_tcp channel s in
  if negb (bool_decide (tc_listening c = WaitingForPeer)) then Ok s
  else
    match socket with
    | Some (localEndpoint, remote) => TcpChannel_createFace channel localEndpoint remote AddToTable true s
    | None => Ok (set_tcp channel (MkTcpChannel NotWaiting (tc_faces c) (tc_connections c)) s)
    end.

(** How an attempt to connect ends *)
Inductive ConnectAnswer := ConnectOk (localEndpoint : Endpoint) | ConnectAborted | ConnectError (what : list Z).

(** [handleConnect] of the connection [i]; the endpoint of a socket that was
    closed cannot be asked for. *)
Definition handleConnect (channel : Endpoint) (i : nat) (a : ConnectAnswer) s : result FaceSystem :=
  let! c := get_tcp channel s in
  match tc_connections c !! i with
  | None => Ok s
  | Some x =>
      if negb (tc_outstanding x) then Ok s
      else
        match a with
        | ConnectAborted => Ok (set_tcp channel (set_connection i (MkTcpConnection (tc_remote x) (tc_callback x) (tc_open x) false false) c) s)
        | ConnectError what =>
            Ok (onConnectFailed (tc_callback x) what
                  (set_tcp channel (set_connection i (MkTcpConnection (tc_remote x) (tc_callback x) false false false) c) s))
        | ConnectOk localEndpoint =>
            if negb (tc_open x) then Err RuntimeError
            else
              TcpChannel_createFace channel localEndpoint (tc_remote x) (tc_callback x) false
                (set_tcp channel (set_connection i (MkTcpConnection (tc_remote x) (tc_callback x) false false false) c) s)
        end
  end.

Definition text_timeout : list Z := str "Connect to remote endpoint timed out".
(** The timer of the connection [i] fires. *)
Definition handleConnectTimeout (channel : Endpoint) (i : nat) s : result FaceSystem :=
  let! c := get_tcp channel s in
  match tc_connections c !! i with
  | None => Ok s
  | Some x =>
      if negb (tc_timer x) then Ok s
      else
        Ok (onConnectFailed (tc_callback x) text_timeout
              (set_tcp channel (set_connection i (MkTcpConnection (tc_remote x) (tc_callback x) false false (tc_outstanding x)) c) s))
  end.

(** ** Factories *)

(** [NetworkInterfaceInfo]: what the factories read of it *)
Record NetworkInterface := MkNetworkInterface {
  nic_name : list Z;
  nic_ipv4Addresses : list address;
  nic_ipv6Addresses : list address;
  nic_broadcastAddress : address;
  nic_isUp : bool;
  nic_isMulticastCapable : bool;
  nic_isBroadcastCapable : bool
}.

(** [prohibitAllIpv4Endpoints] and [prohibitAllIpv6Endpoints]: the endpoints that
    they prohibit have no unspecified address, so [prohibitEndpoint] does not call
    them again.  UDP has the broadcast addresses too. *)
Definition ipv4Endpoints (nics : list NetworkInterface) (port : Z) (broadcast : bool) : list Endpoint :=
  concat (map (fun nic =>
    map (fun a => MkEndpoint a port) (List.filter (fun a => negb (bool_decide (a = v4_any))) (nic_ipv4Addresses nic)) ++
    (if broadcast && (nic_isBroadcastCapable nic && negb (bool_decide (nic_broadcastAddress nic = v4_any))) then [MkEndpoint (nic_broadcastAddress nic) port] else [])) nics) ++
  (if broadcast then [MkEndpoint v4_broadcast port] else []).
Definition ipv6Endpoints (nics : list NetworkInterface) (port : Z) : list Endpoint :=
  concat (map (fun nic => map (fun a => MkEndpoint a port) (List.filter (fun a => negb (bool_decide (a = v6_any))) (nic_ipv6Addresses nic))) nics).

Definition prohibitEndpoint (nics : list NetworkInterface) (broadcast : bool) (endpoint : Endpoint) (prohibited : gset Endpoint) : gset Endpoint :=
  let l :=
    if negb (is_v6 (ep_address endpoint)) && bool_decide (ep_address endpoint = v4_any) then ipv4Endpoints nics (ep_port endpoint) broadcast
    else if is_v6 (ep_address endpoint) && bool_decide (ep_address endpoint = v6_any) then ipv6Endpoints nics (ep_port endpoint)
    else [] in
  {[ endpoint ]} ∪ (list_to_set l ∪ prohibited).

(** [TcpFactory::createChannel] *)
Definition TcpFactory_createChannel (nics : list NetworkInterface) (endpoint : Endpoint) s : FaceSystem :=
  match tf_channels (sy_tcp s) !! endpoint with
  | Some _ => s
  | None =>
      sy_with_tcp (MkTcpFactory (prohibitEndpoint nics false endpoint (tf_prohibited (sy_tcp s)))
                     (<[endpoint := MkTcpChannel NotOpen ∅ []]> (tf_channels (sy_tcp s)))) s
  end.

(** [UdpFactory::createChannel] *)
Definition UdpFactory_createChannel (nics : list NetworkInterface) (endpoint : Endpoint) (timeout : Z) s : outcome FaceSystem :=
  match uf_channels (sy_udp s) !! endpoint with
  | Some _ => Returns s
  | None =>
      if is_multicast (ep_address endpoint) then
        StdException (str "createChannel is only for unicast channels. The provided endpoint is multicast. Use createMulticastFace to create a multicast face")
      else
        match uf_multicastFaces (sy_udp s) !! endpoint with
        | Some _ => StdException (str "Cannot create the requested UDP unicast channel, local endpoint is already allocated for a UDP multicast face")
        | None =>
            Returns (sy_with_udp (MkUdpFactory (prohibitEndpoint nics true endpoint (uf_prohibited (sy_udp s)))
                                    (<[endpoint := MkUdpChannel NotOpen ∅ timeout]> (uf_channels (sy_udp s))) (uf_multicastFaces (sy_udp s))) s)
        end
  end.

Definition MulticastUdpTransport_new (localEndpoint multicastEndpoint : Endpoint) : FaceObject :=
  Face_new MulticastUdpTransport (FaceUri_of_endpoint Udp (ep_address localEndpoint) (ep_port localEndpoint))
    (FaceUri_of_endpoint Udp (ep_address multicastEndpoint) (ep_port multicastEndpoint)) FACE_SCOPE_NON_LOCAL LINK_TYPE_MULTI_ACCESS PERSISTENCY_PERMANENT.

Definition text_multicast (reason : string) : list Z := str "Cannot create the requested UDP multicast face, " ++ str reason.

(** [UdpFactory::createMulticastFace]; [socketError] is the exception of a socket
    operation. *)
Definition createMulticastFace (socketError : option (list Z)) (localEndpoint multicastEndpoint : Endpoint) s : result (outcome (FacePtr * FaceSystem)) :=
  match uf_multicastFaces (sy_udp s) !! localEndpoint with
  | Some p =>
      let! o := get_object p s in
      if bool_decide (fi_remoteUri o = FaceUri_of_endpoint Udp (ep_address multicastEndpoint) (ep_port multicastEndpoint)) then Ok (Returns (p, s))
      else Ok (StdException (text_multicast "local endpoint is already allocated for a UDP multicast face on a different multicast group"))
  | None =>
      if bool_decide (is_Some (uf_channels (sy_udp s) !! localEndpoint)) then
        Ok (StdException (text_multicast "local endpoint is already allocated for a UDP unicast channel"))
      else if bool_decide (multicastEndpoint ∈ uf_prohibited (sy_udp s)) then
        Ok (StdException (text_multicast "remote endpoint is owned by this NFD instance"))
      else if is_v6 (ep_address localEndpoint) || is_v6 (ep_address multicastEndpoint) then
        Ok (StdException (str "IPv6 multicast is not supported yet. Please provide an IPv4 address"))
      else if negb (ep_port localEndpoint =? ep_port multicastEndpoint) then
        Ok (StdException (text_multicast "both endpoints should have the same port number. "))
      else if negb (is_multicast (ep_address multicastEndpoint)) then
        Ok (StdException (text_multicast "the multicast group given as input is not a multicast address"))
      else
        match socketError with
        | Some what => Ok (SystemError what)
        | None =>
            let '(p, s) := new_object (connect_slot (EraseMulticastFace localEndpoint) (MulticastUdpTransport_new localEndpoint multicastEndpoint)) s in
            Ok (Returns (p, sy_with_udp (MkUdpFactory (uf_prohibited (sy_udp s)) (uf_channels (sy_udp s)) (<[localEndpoint := p]> (uf_multicastFaces (sy_udp s)))) s))
        end
  end.

(** [boost::lexical_cast<uint16_t>] of a port *)
Definition port_of (port : list Z) : result Z :=
  match number_of port with
  | Some n => if n <? 65536 then Ok n else Err BadCast
  | None => Err BadCast
  end.

(** The text of an endpoint *)
Definition endpoint_text (e : Endpoint) : list Z :=
  (if is_v6 (ep_address e) then str "[" ++ to_string (ep_address e) ++ str "]" else to_string (ep_address e)) ++ str ":" ++ decimal (ep_port e).

Definition text_prohibited : list Z := str "Requested endpoint is prohibited (reserved by this NFD or disallowed by face management protocol)".
Definition text_noChannel (e : Endpoint) : list Z := str "No channels available to connect to " ++ endpoint_text e.

(** The first channel of the address family of the endpoint *)
Definition channel_for {A} (channels : gmap Endpoint A) (e : Endpoint) : option Endpoint :=
  fst <$> List.find (fun x => bool_decide (is_v6 (ep_address x.1) = is_v6 (ep_address e))) (in_order ep_le channels).

Definition UdpFactory_createFace `{Scanf} (now : Z) (socket : SocketAnswer) (uri : FaceUri) (persistency : Z) (cb : FaceCreatedCallback) s : result (outcome FaceSystem) :=
  if negb (isCanonical uri) then Err AssertFailed
  else if persistency =? PERSISTENCY_ON_DEMAND then
    Ok (StdException (str "UdpFactory::createFace does not support FACE_PERSISTENCY_ON_DEMAND"))
  else
    match address_from_string (fu_host uri) with
    | inl what => Ok (SystemError what)
    | inr a =>
        let! port := port_of (fu_port uri) in
        let endpoint := MkEndpoint a port in
        if is_multicast a then
          Ok (Returns (onConnectFailed cb (str "The provided address is multicast. Please use createMulticastFace method") s))
        else if bool_decide (endpoint ∈ uf_prohibited (sy_udp s)) then Ok (Returns (onConnectFailed cb text_prohibited s))
        else
          match channel_for (uf_channels (sy_udp s)) endpoint with
          | Some channel => UdpChannel_connect now socket channel endpoint persistency cb s
          | None => Ok (Returns (onConnectFailed cb (text_noChannel endpoint) s))
          end
    end.

Definition TcpFactory_createFace `{Scanf} (uri : FaceUri) (persistency : Z) (cb : FaceCreatedCallback) s : result (outcome FaceSystem) :=
  if negb (isCanonical uri) then Err AssertFailed
  else if negb (persistency =? PERSISTENCY_PERSISTENT) then
    Ok (StdException (str "TcpFactory::createFace supports only FACE_PERSISTENCY_PERSISTENT"))
  else
    match address_from_string (fu_host uri) with
    | inl what => Ok (SystemError what)
    | inr a =>
        let! port := port_of (fu_port uri) in
        let endpoint := MkEndpoint a port in
        if bool_decide (endpoint ∈ tf_prohibited (sy_tcp s)) then Ok (Returns (onConnectFailed cb text_prohibited s))
        else
          match channel_for (tf_channels (sy_tcp s)) endpoint with
          | Some channel => let! s := TcpChannel_connect channel endpoint cb s in Ok (Returns s)
          | None => Ok (Returns (onConnectFailed cb (text_noChannel endpoint) s))
          end
    end.

(** [getChannels]: the URIs of the channels *)
Definition TcpFactory_getChannels s : list FaceUri :=
  map (fun x : Endpoint * TcpChannel => FaceUri_of_endpoint Tcp (ep_address x.1) (ep_port x.1)) (in_order ep_le (tf_channels (sy_tcp s))).
Definition UdpFactory_getChannels s : list FaceUri :=
  map (fun x : Endpoint * UdpChannel => FaceUri_of_endpoint Udp (ep_address x.1) (ep_port x.1)) (in_order ep_le (uf_channels (sy_udp s))).
End Channels.
