(* ===== verification/FaceManager.v ===== *)
(** * Face management: [NFD/daemon/mgmt/face-manager.cpp]

    The commands that create and destroy faces and change their options, the
    datasets of faces and channels, and the part of the configuration that creates
    the TCP and UDP channels.  A command to create a face is answered when its
    connection is made or has failed. *)

From stdpp Require Import sorting.
From S2P Require Import Prelude StdMap Tlv Block Encoder Elements NameComponent Name KeyLocator Exclude MetaInfo SignatureInfo Packet DataPacket Link InterestPacket CsEntry.
From S2P Require Import CsPolicy Cs NameTree FibEntry PitEntry DeadNonceList Tables Pit Fib StrategyChoice Forwarder ForwarderInv ForwarderProps Strategies.
From S2P Require Import LpPacket LpFragmenter LpReassembler LinkService Transport ControlParameters Management Dataset Segments FaceUri Faces Channels.

Section FaceManager.
Context `{IpAddresses} `{Scanf} {P : Type}.
Implicit Types (s : FaceSystem (P := P)) (p : FacePtr) (o : FaceObject).

(** ** Commands *)

Definition text_malformed : list Z := str "Malformed command".
Definition text_nonCanonical : list Z := str "Non-canonical URI".
Definition text_protocol : list Z := str "Unsupported protocol".
Definition text_creation : list Z := str "Face creation failed: ".

(** [createFace] for the command with number [request]; [socket] is what opening
    a UDP socket does. *)
Definition createFace (now : Z) (socket : SocketAnswer) (parameters : ControlParameters) (request : nat) s : result FaceSystem :=
  let! text := cp_get (cp_uri parameters) in
  match parse text with
  | None => Ok (answer request (ControlResponse_new 400 text_malformed) s)
  | Some uri =>
      if negb (isCanonical uri) then Ok (answer request (ControlResponse_new 400 text_nonCanonical) s)
      else
        match sy_factories s !! fu_scheme uri with
        | None => Ok (answer request (ControlResponse_new 501 text_protocol) s)
        | Some factory =>
            let! persistency := cp_get (cp_facePersistency parameters) in
            let cb := AnswerCommand parameters request in
            let! r :=
              match factory with
              | TheTcpFactory => TcpFactory_createFace uri persistency cb s
              | TheUdpFactory => UdpFactory_createFace now socket uri persistency cb s
              end in
            match r with
            | Returns s => Ok s
            | SystemError what | StdException what => Ok (answer request (ControlResponse_new 500 (text_creation ++ what)) s)
            end
        end
  end.

(** [destroyFace] *)
Definition destroyFace (parameters : ControlParameters) (request : nat) s : result FaceSystem :=
  let! faceId := cp_get (cp_faceId parameters) in
  let! s := match FaceTable_get faceId s with Some target => Face_close target s | None => Ok s end in
  let! response := respond 200 text_OK parameters in
  Ok (answer request response s).

(** [findFaceForLocalControl]: the face, or the response *)
Definition text_nonLocal : list Z := str "Face is non-local".
Definition findFaceForLocalControl (incomingFaceIdTag : option Z) s : result (FacePtr + ControlResponse) :=
  match incomingFaceIdTag with
  | None => Err AssertFailed
  | Some id =>
      match FaceTable_get id s with
      | None => Ok (inr (ControlResponse_new 410 text_noFace))
      | Some face =>
          let! o := get_object face s in
          if bool_decide (fi_scope o = FACE_SCOPE_NON_LOCAL) then Ok (inr (ControlResponse_new 412 text_nonLocal)) else Ok (inl face)
      end
  end.

Definition text_enabled : list Z := str "OK: enable all local fields on GenericLinkService".
Definition text_disabled : list Z := str "OK: disable all local fields on GenericLinkService".

(** [enableLocalControl] and [disableLocalControl]; every face here has a
    [GenericLinkService]. *)
Definition setLocalControl (enable : bool) (incomingFaceIdTag : option Z) (parameters : ControlParameters) (request : nat) s : result FaceSystem :=
  let! r := findFaceForLocalControl incomingFaceIdTag s in
  match r with
  | inr response => Ok (answer request response s)
  | inl face =>
      let! o := get_object face s in
      let options := ls_options (fi_service o) in
      let options := MkOptions enable (allowFragmentation options) (allowReassembly options) (nMaxFragments options) in
      let s := set_object face (fi_with_service (setOptions options (fi_service o)) o) s in
      let! response := respond 200 (if enable then text_enabled else text_disabled) parameters in
      Ok (answer request response s)
  end.
Definition enableLocalControl := setLocalControl true.
Definition disableLocalControl := setLocalControl false.

(** A command for this manager, after the dispatcher has checked it and filled in
    the defaults *)
Inductive FaceCommand :=
| CreateFace (socket : SocketAnswer)
| DestroyFace
| EnableLocalControl (incomingFaceIdTag : option Z)
| DisableLocalControl (incomingFaceIdTag : option Z).
Definition command_of (c : FaceCommand) : ControlCommand :=
  match c with
  | CreateFace _ => FaceCreateCommand
  | DestroyFace => FaceDestroyCommand
  | EnableLocalControl _ => FaceEnableLocalControlCommand
  | DisableLocalControl _ => FaceDisableLocalControlCommand
  end.
Definition face_command (now : Z) (c : FaceCommand) (parameters : ControlParameters) s : result FaceSystem :=
  let request := sy_requests s in
  let s := next_request s in
  match validateRequest (command_of c) parameters with
  | Err InvalidArgument => Ok (answer request (ControlResponse_new 400 text_invalid) s)
  | Err e => Err e
  | Ok _ =>
      let parameters := applyDefaultsToRequest (command_of c) parameters in
      match c with
      | CreateFace socket => createFace now socket parameters request s
      | DestroyFace => destroyFace parameters request s
      | EnableLocalControl tag => enableLocalControl tag parameters request s
      | DisableLocalControl tag => disableLocalControl tag parameters request s
      end
  end.

(** ** Datasets *)

(** [collectFaceStatus]; times are in nanoseconds. *)
Definition collectFaceStatus (now : Z) s p o : FaceStatus :=
  let period := match fi_expirationTime o with Some t => Some (Z.max 0 (Z.quot (t - now) 1000000)) | None => None end in
  let c := ls_counters (fi_service o) in
  MkFaceStatus (collectFaceProperties s p o) period (nInInterests c) (nInData c) (nInNacks c) (nOutInterests c) (nOutData c) (nOutNacks c)
    (tc_nInBytes (fi_counters o)) (tc_nOutBytes (fi_counters o)).

(** The faces of the table, in the order of their ids *)
Definition table_faces s : list FacePtr := map snd (in_order Z.leb (sy_table s)).

(** [doesMatchFilter] *)
Definition condition {A} `{EqDecision A} (want : option A) (have : A) : bool :=
  match want with Some x => bool_decide (x = have) | None => true end.
Definition doesMatchFilter (filter : FaceQueryFilter) s p o : bool :=
  condition (fq_faceId filter) (getId s p) &&
  match fq_uriScheme filter with
  | Some scheme => bool_decide (scheme = fu_scheme (fi_remoteUri o)) || bool_decide (scheme = fu_scheme (fi_localUri o))
  | None => true
  end &&
  condition (fq_remoteUri filter) (toString (fi_remoteUri o)) && condition (fq_localUri filter) (toString (fi_localUri o)) &&
  condition (fq_faceScope filter) (scope_value (fi_scope o)) && condition (fq_facePersistency filter) (fi_persistency o) &&
  condition (fq_linkType filter) (linkType_value (fi_linkType o)).

Section Handlers.
Context (maxPacket : Z).

(** The loop over the faces, for those that pass the test *)
Fixpoint append_faces (now : Z) (test : FacePtr -> FaceObject -> bool) (faces : list FacePtr) s (x : StatusDatasetContext) : result (list Sent * StatusDatasetContext) :=
  match faces with
  | [] => Ok ([], x)
  | p :: faces =>
      let! o := get_object p s in
      if negb (test p o) then append_faces now test faces s x
      else
        let! (b, _) := wireEncode (wired_new (collectFaceStatus now s p o)) in
        let! (l, x) := append maxPacket b x in
        let! (l', x) := append_faces now test faces s x in
        Ok (l ++ l', x)
  end.

Definition listFaces (now : Z) s (x : StatusDatasetContext) : result (list Sent * StatusDatasetContext) :=
  let! (l, x) := append_faces now (fun _ _ => true) (table_faces s) s x in
  let! (l', x) := end_ x in
  Ok (l ++ l', x).

Fixpoint append_channels (uris : list FaceUri) (x : StatusDatasetContext) : result (list Sent * StatusDatasetContext) :=
  match uris with
  | [] => Ok ([], x)
  | uri :: uris =>
      let! (b, _) := wireEncode (wired_new (MkChannelStatus (toString uri))) in
      let! (l, x) := append maxPacket b x in
      let! (l', x) := append_channels uris x in
      Ok (l ++ l', x)
  end.
(** Each factory once, in the order of the schemes *)
Fixpoint factories_seen (l : list (list Z * ProtocolFactory)) (seen : list ProtocolFactory) : list ProtocolFactory :=
  match l with
  | [] => []
  | (_, f) :: l => if bool_decide (f ∈ seen) then factories_seen l seen else f :: factories_seen l (f :: seen)
  end.
Definition getChannels (f : ProtocolFactory) s : list FaceUri :=
  match f with TheTcpFactory => TcpFactory_getChannels s | TheUdpFactory => UdpFactory_getChannels s end.
Definition listChannels s (x : StatusDatasetContext) : result (list Sent * StatusDatasetContext) :=
  let! (l, x) := append_channels (concat (map (fun f => getChannels f s) (factories_seen (in_order string_le (sy_factories s)) []))) x in
  let! (l', x) := end_ x in
  Ok (l ++ l', x).

(** [queryFaces]: the filter is in the last component of the name. *)
Definition text_filter : list Z := str "Malformed filter".
Definition queryFaces (now : Z) (query : Name) s (x : StatusDatasetContext) : result (list Sent * StatusDatasetContext) :=
  let filter :=
    let! c := last_component query in
    let! b := blockFromValue (Block_of_value (c_type c) (c_value c)) in
    wireDecode (A := FaceQueryFilter) b in
  match filter with
  | Ok faceFilter =>
      let! (l, x) := append_faces now (doesMatchFilter (w_fields faceFilter) s) (table_faces s) s x in
      let! (l', x) := end_ x in
      Ok (l ++ l', x)
  | Err e =>
      if is_tlv_error e then
        let! response := ControlResponse_wireEncode (ControlResponse_new 400 text_filter) in
        reject response x
      else Err e
  end.
End Handlers.
End FaceManager.

(** ** Configuration *)

(** [boost::lexical_cast<uint16_t>] and [ptree::get_value<size_t>] of the text of
    an option *)
Class ConfigNumbers := { cast_uint16 : list Z -> option Z; cast_size : list Z -> option Z }.

(** The options of a section; [ConfigFile::Error] is a [RuntimeError]. *)
Definition ConfigSection : Type := list (list Z * list Z).

(** [ConfigFile::parseYesNo] and [parseNumber<uint16_t>] *)
Definition parseYesNo (value : list Z) : result bool :=
  if bool_decide (value = str "yes") then Ok true else if bool_decide (value = str "no") then Ok false else Err RuntimeError.
Definition parseNumber `{ConfigNumbers} (value : list Z) : result Z :=
  match cast_uint16 value with Some n => Ok n | None => Err RuntimeError end.

Section Config.
Context `{IpAddresses} `{ConfigNumbers} {P : Type}.
Implicit Types (s : FaceSystem (P := P)) (p : FacePtr).

Record TcpOptions := MkTcpOptions { to_port : Z; to_listen : bool; to_enableV4 : bool; to_enableV6 : bool }.
Fixpoint read_tcp (section : ConfigSection) (x : TcpOptions) : result TcpOptions :=
  match section with
  | [] => Ok x
  | (key, value) :: section =>
      let! x :=
        if bool_decide (key = str "port") then let! n := parseNumber value in Ok (MkTcpOptions n (to_listen x) (to_enableV4 x) (to_enableV6 x))
        else if bool_decide (key = str "listen") then let! b := parseYesNo value in Ok (MkTcpOptions (to_port x) b (to_enableV4 x) (to_enableV6 x))
        else if bool_decide (key = str "enable_v4") then let! b := parseYesNo value in Ok (MkTcpOptions (to_port x) (to_listen x) b (to_enableV6 x))
        else if bool_decide (key = str "enable_v6") then let! b := parseYesNo value in Ok (MkTcpOptions (to_port x) (to_listen x) (to_enableV4 x) b)
        else Err RuntimeError in
      read_tcp section x
  end.

(** [std::map::insert] of a factory *)
Definition insert_factory (scheme : string) (f : ProtocolFactory) s : FaceSystem :=
  match sy_factories s !! str scheme with
  | Some _ => s
  | None => sy_with_factories (<[str scheme := f]> (sy_factories s)) s
  end.

(** A channel for all addresses of a family *)
Definition tcp_channel (nics : list NetworkInterface) (any : address) (scheme : string) (x : TcpOptions) s : result FaceSystem :=
  let endpoint := MkEndpoint any (to_port x) in
  let s := TcpFactory_createChannel nics endpoint s in
  let! s := if to_listen x then TcpChannel_listen endpoint s else Ok s in
  Ok (insert_factory scheme TheTcpFactory s).

Definition processSectionTcp (nics : list NetworkInterface) (section : ConfigSection) (isDryRun : bool) s : result FaceSystem :=
  let! x := read_tcp section (MkTcpOptions 6363 true true true) in
  if negb (to_enableV4 x) && negb (to_enableV6 x) then Err RuntimeError
  else if isDryRun then Ok s
  else if bool_decide (is_Some (sy_factories s !! str "tcp")) then Ok s
  else
    let s := insert_factory "tcp" TheTcpFactory s in
    let! s := if to_enableV4 x then tcp_channel nics v4_any "tcp4" x s else Ok s in
    if to_enableV6 x then tcp_channel nics v6_any "tcp6" x s else Ok s.

Record UdpOptions := MkUdpOptions { uo_port : Z; uo_enableV4 : bool; uo_enableV6 : bool; uo_timeout : Z; uo_mcast : bool; uo_group : address; uo_mcastPort : Z }.
Fixpoint read_udp (section : ConfigSection) (x : UdpOptions) : result UdpOptions :=
  match section with
  | [] => Ok x
  | (key, value) :: section =>
      let! x :=
        if bool_decide (key = str "port") then
          let! n := parseNumber value in Ok (MkUdpOptions n (uo_enableV4 x) (uo_enableV6 x) (uo_timeout x) (uo_mcast x) (uo_group x) (uo_mcastPort x))
        else if bool_decide (key = str "enable_v4") then
          let! b := parseYesNo value in Ok (MkUdpOptions (uo_port x) b (uo_enableV6 x) (uo_timeout x) (uo_mcast x) (uo_group x) (uo_mcastPort x))
        else if bool_decide (key = str "enable_v6") then
          let! b := parseYesNo value in Ok (MkUdpOptions (uo_port x) (uo_enableV4 x) b (uo_timeout x) (uo_mcast x) (uo_group x) (uo_mcastPort x))
        else if bool_decide (key = str "idle_timeout") then
          match cast_size value with
          | Some n => Ok (MkUdpOptions (uo_port x) (uo_enableV4 x) (uo_enableV6 x) n (uo_mcast x) (uo_group x) (uo_mcastPort x))
          | None => Err RuntimeError
          end
        else if bool_decide (key = str "keep_alive_interval") then match cast_size value with Some _ => Ok x | None => Err RuntimeError end
        else if bool_decide (key = str "mcast") then
          let! b := parseYesNo value in Ok (MkUdpOptions (uo_port x) (uo_enableV4 x) (uo_enableV6 x) (uo_timeout x) b (uo_group x) (uo_mcastPort x))
        else if bool_decide (key = str "mcast_port") then
          let! n := parseNumber value in Ok (MkUdpOptions (uo_port x) (uo_enableV4 x) (uo_enableV6 x) (uo_timeout x) (uo_mcast x) (uo_group x) n)
        else if bool_decide (key = str "mcast_group") then
          match v4_from_string value with
          | Some a => Ok (MkUdpOptions (uo_port x) (uo_enableV4 x) (uo_enableV6 x) (uo_timeout x) (uo_mcast x) a (uo_mcastPort x))
          | None => Err RuntimeError
          end
        else Err RuntimeError in
      read_udp section x
  end.

Definition udp_channel (nics : list NetworkInterface) (any : address) (scheme : string) (x : UdpOptions) s : result FaceSystem :=
  let endpoint := MkEndpoint any (uo_port x) in
  match UdpFactory_createChannel nics endpoint (uo_timeout x * 1000000000) s with
  | Returns s => let! s := UdpChannel_listen endpoint s in Ok (insert_factory scheme TheUdpFactory s)
  | _ => Err RuntimeError
  end.

(** The loop over the network interfaces that have a multicast face, and the
    faces to close that are left *)
Fixpoint multicast_faces (socketError : Endpoint -> option (list Z)) (group : Endpoint) (addresses : list address) (toRemove : list FacePtr) s : result (list FacePtr * FaceSystem) :=
  match addresses with
  | [] => Ok (toRemove, s)
  | a :: addresses =>
      let localEndpoint := MkEndpoint a (ep_port group) in
      let! r := createMulticastFace (socketError localEndpoint) localEndpoint group s in
      match r with
      | Returns (p, s) =>
          let! s := FaceTable_add p s in
          multicast_faces socketError group addresses (List.filter (fun q => negb (q =? p)) toRemove) s
      | _ => Err RuntimeError
      end
  end.
Fixpoint close_all (faces : list FacePtr) s : result FaceSystem :=
  match faces with
  | [] => Ok s
  | p :: faces => let! s := Face_close p s in close_all faces s
  end.

Definition processSectionUdp (nics : list NetworkInterface) (socketError : Endpoint -> option (list Z)) (section : ConfigSection) (isDryRun : bool) s : result FaceSystem :=
  let! group := match v4_from_string (str "224.0.23.170") with Some a => Ok a | None => Err RuntimeError end in
  let! x := read_udp section (MkUdpOptions 6363 true true 600 true group 56363) in
  if negb (uo_enableV4 x) && negb (uo_enableV6 x) then Err RuntimeError
  else if uo_mcast x && negb (uo_enableV4 x) then Err RuntimeError
  else if isDryRun then Ok s
  else
    let isReload := bool_decide (is_Some (sy_factories s !! str "udp")) in
    let s := insert_factory "udp" TheUdpFactory s in
    let! s := if negb isReload && uo_enableV4 x then udp_channel nics v4_any "udp4" x s else Ok s in
    let! s := if negb isReload && uo_enableV6 x then udp_channel nics v6_any "udp6" x s else Ok s in
    let toRemove := map snd (in_order ep_le (uf_multicastFaces (sy_udp s))) in
    let! (toRemove, s) :=
      if uo_mcast x && uo_enableV4 x then
        let up := List.filter (fun nic => nic_isUp nic && nic_isMulticastCapable nic && negb (bool_decide (nic_ipv4Addresses nic = []))) nics in
        multicast_faces socketError (MkEndpoint (uo_group x) (uo_mcastPort x)) (omap (fun nic => head (nic_ipv4Addresses nic)) up) toRemove s
      else Ok (toRemove, s) in
    close_all toRemove s.

(** [processConfig]: the sections of a configuration, each at most once.  This
    build has neither Unix sockets nor libpcap; [webSocket] stands for
    [processSectionWebSocket]. *)
Fixpoint processConfig (nics : list NetworkInterface) (socketError : Endpoint -> option (list Z)) (webSocket : ConfigSection -> bool -> FaceSystem (P := P) -> result (FaceSystem (P := P)))
    (seen : list (list Z)) (items : list (list Z * ConfigSection)) (isDryRun : bool) s : result FaceSystem :=
  match items with
  | [] => Ok s
  | (name, section) :: items =>
      if bool_decide (name ∈ [str "unix"; str "tcp"; str "udp"; str "ether"; str "websocket"]) then
        if bool_decide (name ∈ seen) then Err RuntimeError
        else
          let! s :=
            if bool_decide (name = str "tcp") then processSectionTcp nics section isDryRun s
            else if bool_decide (name = str "udp") then processSectionUdp nics socketError section isDryRun s
            else if bool_decide (name = str "websocket") then webSocket section isDryRun s
            else Err RuntimeError in
          processConfig nics socketError webSocket (name :: seen) items isDryRun s
      else Err RuntimeError
  end.
End Config.
