(* ===== verification/FaceProps.v ===== *)
(** * What the face system guarantees

    The faces, channels and commands as a machine, and what holds in every state
    it reaches: the table is the open faces with distinct ids, a TCP channel has
    one face for a remote endpoint, and every command is answered once. *)

From stdpp Require Import sorting.
From S2P Require Import Prelude StdMap Tlv Block Encoder Elements NameComponent Name KeyLocator Exclude MetaInfo SignatureInfo Packet DataPacket Link InterestPacket CsEntry.
From S2P Require Import CsPolicy Cs NameTree FibEntry PitEntry DeadNonceList Tables Pit Fib StrategyChoice Forwarder ForwarderInv ForwarderProps Strategies.
From S2P Require Import LpPacket LpFragmenter LpReassembler LinkService Transport ControlParameters Management Dataset Segments FaceUri Faces Channels FaceManager.

(** A case for each condition of the goal *)
Ltac if_decide := match goal with |- context [if @decide ?P ?d then _ else _] => destruct (@decide P d) end.

Section Facts.
Context `{Sha256} `{CityHash} `{CityHashSeed} `{StdSort} `{Rng} {P : Type} `{CsPolicy P}.
Context `{IpAddresses} `{Scanf}.
Implicit Types (s : FaceSystem (P := P)) (p q : FacePtr) (o : FaceObject).

(** ** The maps of the channels *)

Definition tcp_face s (ch r : Endpoint) : option FacePtr := c ← tf_channels (sy_tcp s) !! ch; tc_faces c !! r.
Definition udp_face s (ch r : Endpoint) : option FacePtr := c ← uf_channels (sy_udp s) !! ch; uc_faces c !! r.
Definition multicast_face s (l : Endpoint) : option FacePtr := uf_multicastFaces (sy_udp s) !! l.

(** ** The invariant *)

Definition open_face s p (slot : Slot) : Prop :=
  exists o, sy_objects s !! p = Some o /\ fi_state o <> CLOSED /\ slot ∈ fi_slots o.

Definition open_object s p : Prop := exists o, sy_objects s !! p = Some o /\ fi_state o <> CLOSED.

(** Who holds a face has a slot that lets go of it when it is closed.  [fresh] is
    a face that was just created and is not in the table yet. *)
Record holds (fresh : option FacePtr) s : Prop := {
  hd_last : 255 <= sy_lastFaceId s < U64;
  hd_table id p : sy_table s !! id = Some p -> getId s p = id /\ 0 < id <= sy_lastFaceId s /\ open_face s p RemoveFromTable;
  hd_id p : getId s p <> 0 -> sy_table s !! getId s p = Some p;
  hd_faces p : is_Some (fw_faces (sy_forwarder s) !! p) -> is_Some (sy_objects s !! p);
  hd_objects p : is_Some (sy_objects s !! p) -> p < sy_nextObject s;
  hd_open p o : sy_objects s !! p = Some o -> fi_state o <> CLOSED -> fresh <> Some p -> getId s p <> 0;
  hd_fresh p : fresh = Some p -> fw_faces (sy_forwarder s) !! p = None /\ exists o, sy_objects s !! p = Some o /\ fi_state o <> CLOSED /\ RemoveFromTable ∉ fi_slots o;
  hd_slots p o : sy_objects s !! p = Some o -> NoDup (fi_slots o);
  hd_tcp ch r p : tcp_face s ch r = Some p -> open_face s p (EraseTcpFace ch r);
  hd_tcp_all ch r p : open_face s p (EraseTcpFace ch r) -> tcp_face s ch r = Some p;
  hd_udp ch r p : udp_face s ch r = Some p -> open_face s p (EraseUdpFace ch r);
  hd_multicast l p : multicast_face s l = Some p -> open_face s p (EraseMulticastFace l);
  hd_forwarder : fw_reachable (sy_forwarder s)
}.

(** ** Changes of an object that no holder sees *)

Definition same_object o o' : Prop := fi_slots o' = fi_slots o /\ (fi_state o' = CLOSED <-> fi_state o = CLOSED).

Lemma open_set p o o' s q slot : sy_objects s !! p = Some o -> same_object o o' -> open_face (set_object p o' s) q slot <-> open_face s q slot.
Proof.
  intros Ho [Hs Hc]. unfold open_face. cbn [set_object sy_with_objects sy_objects]. destruct (decide (q = p)) as [->|Hne].
  - rewrite lookup_insert_eq, Ho. split; intros (x&[= <-]&Hx&Hin); eexists; (split; [done|]); [rewrite Hs in Hin; tauto|rewrite Hs; tauto].
  - by rewrite lookup_insert_ne.
Qed.

Lemma holds_set fresh p o o' s : sy_objects s !! p = Some o -> same_object o o' -> holds fresh s -> holds fresh (set_object p o' s).
Proof.
  intros Ho Hsame [A1 A2 A3 A4 A5 A6 A7 A7s A8 A9 A10 A11 A12].
  assert (Hop : forall q slot, open_face (set_object p o' s) q slot <-> open_face s q slot) by (intros; by eapply open_set).
  assert (Hobj : forall q, is_Some (sy_objects (set_object p o' s) !! q) <-> is_Some (sy_objects s !! q)).
  { intros q. cbn [set_object sy_with_objects sy_objects]. destruct (decide (q = p)) as [->|Hne]; [rewrite lookup_insert_eq, Ho; by split|by rewrite lookup_insert_ne]. }
  split; try done.
  - intros id q Hq. rewrite Hop. by apply A2.
  - intros q Hq. apply Hobj. by apply A4.
  - intros q Hq. apply A5. by apply Hobj.
  - intros q x Hx Hst Hf. cbn [set_object sy_with_objects sy_objects] in Hx. destruct (decide (q = p)) as [->|Hne].
    + rewrite lookup_insert_eq in Hx. injection Hx as <-. apply (A6 p o); [done|by rewrite <- (proj2 Hsame)|done].
    + rewrite lookup_insert_ne in Hx by done. by eapply A6.
  - intros q Hq. destruct (A7 q Hq) as [Hn (x&Hx&Hst)]. split; [done|]. cbn [set_object sy_with_objects sy_objects]. destruct (decide (q = p)) as [->|Hne].
    + rewrite lookup_insert_eq. eexists. split; [done|]. rewrite Ho in Hx. injection Hx as <-. destruct Hsame as [-> ->]. done.
    + rewrite lookup_insert_ne by done. by exists x.
  - intros q x Hx. cbn [set_object sy_with_objects sy_objects] in Hx. destruct (decide (q = p)) as [->|Hne].
    + rewrite lookup_insert_eq in Hx. injection Hx as <-. rewrite (proj1 Hsame). by apply (A7s p).
    + rewrite lookup_insert_ne in Hx by done. by apply (A7s q).
  - intros ch r q Hq. apply Hop. by apply A8.
  - intros ch r q Hq%Hop. by apply A9.
  - intros ch r q Hq. apply Hop. by apply A10.
  - intros l q Hq. apply Hop. by apply A11.
Qed.

(** Only these parts of the state matter. *)
Lemma holds_ext fresh s s' : sy_lastFaceId s' = sy_lastFaceId s -> sy_table s' = sy_table s -> sy_objects s' = sy_objects s ->
  sy_nextObject s' = sy_nextObject s -> fw_faces (sy_forwarder s') = fw_faces (sy_forwarder s) -> fw_reachable (sy_forwarder s') ->
  (forall ch r, tcp_face s' ch r = tcp_face s ch r) -> (forall ch r, udp_face s' ch r = udp_face s ch r) ->
  (forall l, multicast_face s' l = multicast_face s l) -> holds fresh s -> holds fresh s'.
Proof.
  intros El Et Eo En Ef Hr Etcp Eudp Em [A1 A2 A3 A4 A5 A6 A7 A7s A8 A9 A10 A11 A12].
  assert (Eid : forall p, getId s' p = getId s p) by (intros p; unfold getId, face_at; by rewrite Ef).
  split; unfold open_face in *; rewrite ?El, ?Et, ?Eo, ?En, ?Ef; try done.
  - intros id p. rewrite Eid. apply A2.
  - intros p. rewrite Eid. apply A3.
  - intros p o. rewrite Eid. apply A6.
  - intros ch r p Hp. rewrite Etcp in Hp. by apply A8.
  - intros ch r p Hp. rewrite Etcp. by apply A9.
  - intros ch r p Hp. rewrite Eudp in Hp. by apply A10.
  - intros l p Hp. rewrite Em in Hp. by apply A11.
Qed.

Lemma notify_ok kind p s s' : notify kind p s = Ok s' -> exists b, s' = post b s.
Proof. unfold notify. intros (o&_&Hn)%rbind_Ok. apply rbind_Ok in Hn as ([b w]&_&[= <-]). by exists b. Qed.

Lemma getId_add p q f s : getId (sy_with_forwarder (addFace p f (sy_forwarder s)) s) q = if decide (q = p) then f_id f else getId s q.
Proof.
  unfold getId, face_at. cbn [sy_with_forwarder sy_forwarder addFace with_faces fw_faces]. destruct (decide (q = p)) as [->|Hne].
  - by rewrite lookup_insert_eq.
  - by rewrite lookup_insert_ne.
Qed.

(** Adding a face that was just created *)
Lemma holds_add p s s' : holds (Some p) s -> FaceTable_add p s = Ok s' -> holds None s' /\ getId s' p = sy_lastFaceId s + 1 /\
  sy_table s' = <[sy_lastFaceId s + 1 := p]> (sy_table s).
Proof.
  intros Hh. pose proof Hh as [A1 A2 A3 A4 A5 A6 A7 A7s A8 A9 A10 A11 A12]. destruct (A7 p eq_refl) as (Hfw&o&Ho&Hst&Hnot0). unfold FaceTable_add.
  assert (Hid : getId s p = INVALID_FACEID) by (unfold getId, face_at; by rewrite Hfw). rewrite Hid. cbn [negb andb Z.eqb INVALID_FACEID].
  destruct (Z.leb_spec (to_u64 (sy_lastFaceId s + 1)) FACEID_RESERVED_MAX) as [|Hgt]; [done|].
  assert (Hnew : to_u64 (sy_lastFaceId s + 1) = sy_lastFaceId s + 1 /\ sy_lastFaceId s + 1 < U64).
  { unfold to_u64, FACEID_RESERVED_MAX in *. destruct (decide (sy_lastFaceId s + 1 < U64)); [by rewrite Z.mod_small by lia|].
    assert (Hl : sy_lastFaceId s + 1 = U64) by lia. rewrite Hl, Z_mod_same_full in Hgt. lia. }
  destruct Hnew as [Hnew Hlt]. rewrite Hnew in *. set (id := sy_lastFaceId s + 1) in *.
  unfold addImpl, get_object. cbn [sy_with_table sy_objects]. rewrite Ho. cbn [rbind]. intros Hn. apply notify_ok in Hn as [b ->].
  set (f := MkFace id (fi_scope o) (fi_linkType o)). set (s1 := sy_with_forwarder (addFace p f (sy_forwarder s)) s).
  assert (Hgid : forall q, getId s1 q = if decide (q = p) then id else getId s q) by (intros q; apply getId_add).
  set (s2 := post _ _).
  assert (Eid : forall q, getId s2 q = getId s1 q) by done.
  assert (Eo : sy_objects s2 = <[p := connect_slot RemoveFromTable o]> (sy_objects s)) by done.
  assert (Hnot : sy_table s !! id = None).
  { destruct (sy_table s !! id) as [q|] eqn:E; [|done]. destruct (A2 _ _ E) as (_&Hr&_). subst id. lia. }
  assert (Hop : forall q slot, open_face s q slot -> open_face s2 q slot).
  { intros q slot (x&Hx&Hxs&Hin). unfold open_face. rewrite Eo. destruct (decide (q = p)) as [->|Hne].
    - rewrite lookup_insert_eq. eexists. split; [done|]. rewrite Ho in Hx. injection Hx as <-. split; [done|]. cbn [connect_slot fi_slots]. apply elem_of_app. by left.
    - rewrite lookup_insert_ne by done. by exists x. }
  assert (Hop' : forall q slot, slot <> RemoveFromTable -> open_face s2 q slot -> open_face s q slot).
  { intros q slot Hne' (x&Hx&Hxs&Hin). unfold open_face. rewrite Eo in Hx. destruct (decide (q = p)) as [->|Hne].
    - rewrite lookup_insert_eq in Hx. injection Hx as <-. exists o. split; [done|]. split; [done|]. cbn [connect_slot fi_slots] in Hin. apply elem_of_app in Hin as [Hin|Hin]; [done|].
      by apply list_elem_of_singleton in Hin.
    - rewrite lookup_insert_ne in Hx by done. by exists x. }
  assert (Hobj : forall q, is_Some (sy_objects s2 !! q) <-> is_Some (sy_objects s !! q)).
  { intros q. rewrite Eo. destruct (decide (q = p)) as [->|Hne]; [rewrite lookup_insert_eq, Ho; by split|by rewrite lookup_insert_ne]. }
  split_and!; [|rewrite Eid, Hgid; by rewrite decide_True|done]. split.
  - change (sy_lastFaceId s2) with id. subst id. lia.
  - intros i q. change (sy_table s2) with (<[id := p]> (sy_table s)). change (sy_lastFaceId s2) with id. rewrite Eid, Hgid. destruct (decide (i = id)) as [->|Hne].
    + rewrite lookup_insert_eq. intros [= <-]. rewrite decide_True by done. split_and!; [done|subst id; lia|done|]. unfold open_face. rewrite Eo, lookup_insert_eq. eexists.
      split; [done|]. split; [done|]. cbn [connect_slot fi_slots]. apply elem_of_app. right. by apply list_elem_of_singleton.
    + rewrite lookup_insert_ne by done. intros Hq. destruct (A2 _ _ Hq) as (Hqi&Hr&Hqo). rewrite decide_False; [split_and!; [done|lia|subst id; lia|by apply Hop]|].
      intros ->. unfold INVALID_FACEID in Hid. lia.
  - intros q. rewrite Eid, Hgid. change (sy_table s2) with (<[id := p]> (sy_table s)). destruct (decide (q = p)) as [->|Hne]; [by rewrite lookup_insert_eq|]. intros Hq.
    rewrite lookup_insert_ne; [by apply A3|]. intros Heq. apply A3 in Hq. rewrite <- Heq, Hnot in Hq. done.
  - intros q Hq. apply Hobj. change (fw_faces (sy_forwarder s2)) with (<[p := f]> (fw_faces (sy_forwarder s))) in Hq. destruct (decide (q = p)) as [->|Hne]; [by rewrite Ho|].
    rewrite lookup_insert_ne in Hq by done. by apply A4.
  - intros q Hq. apply A5. by apply Hobj.
  - intros q x Hx Hxs _. rewrite Eid, Hgid. destruct (decide (q = p)) as [->|Hne]; [subst id; lia|]. rewrite Eo, lookup_insert_ne in Hx by done.
    apply (A6 q x Hx Hxs). congruence.
  - done.
  - intros q x Hx. rewrite Eo in Hx. destruct (decide (q = p)) as [->|Hne]; [|rewrite lookup_insert_ne in Hx by done; by apply (A7s q)].
    rewrite lookup_insert_eq in Hx. injection Hx as <-. cbn [connect_slot fi_slots]. apply NoDup_app. split_and!; [by apply (A7s p)| |apply NoDup_singleton].
    by intros y Hy ->%list_elem_of_singleton.
  - intros ch r q Hq. apply Hop. by apply A8.
  - intros ch r q Hq. apply A9. by apply Hop'.
  - intros ch r q Hq. apply Hop. by apply A10.
  - intros l q Hq. apply Hop. by apply A11.
  - eapply ReachStep; [exact A12|]. by apply StepAddFace.
Qed.

(** Adding a face that is in the table does nothing. *)
Lemma add_again p s : holds None s -> open_object s p -> FaceTable_add p s = Ok s.
Proof.
  intros Hh (o&Ho&Hst). pose proof (hd_open _ _ Hh p o Ho Hst ltac:(done)) as Hid. unfold FaceTable_add, INVALID_FACEID. rewrite (proj2 (Z.eqb_neq _ _) Hid), bool_decide_true; [done|].
  rewrite (hd_id _ _ Hh p Hid). by eexists.
Qed.

(** A new face that nothing but the slots [l] knows *)
Lemma holds_new o s s' : holds None s -> fi_state o <> CLOSED -> (exists slot, fi_slots o = [slot] /\ slot <> RemoveFromTable) -> sy_lastFaceId s' = sy_lastFaceId s -> sy_table s' = sy_table s ->
  sy_objects s' = <[sy_nextObject s := o]> (sy_objects s) -> sy_nextObject s' = sy_nextObject s + 1 -> sy_forwarder s' = sy_forwarder s ->
  (forall ch r, tcp_face s' ch r = if decide (EraseTcpFace ch r ∈ fi_slots o) then Some (sy_nextObject s) else tcp_face s ch r) ->
  (forall ch r, EraseTcpFace ch r ∈ fi_slots o -> tcp_face s ch r = None) ->
  (forall ch r, udp_face s' ch r = if decide (EraseUdpFace ch r ∈ fi_slots o) then Some (sy_nextObject s) else udp_face s ch r) ->
  (forall l, multicast_face s' l = if decide (EraseMulticastFace l ∈ fi_slots o) then Some (sy_nextObject s) else multicast_face s l) ->
  holds (Some (sy_nextObject s)) s'.
Proof.
  intros [A1 A2 A3 A4 A5 A6 A7 A7s A8 A9 A10 A11 A12] Hst (slot0&Hsl&Hslr) El Et Eo En Ef Etcp Hfree Eudp Em. set (p := sy_nextObject s) in *.
  assert (Hno : sy_objects s !! p = None) by (destruct (sy_objects s !! p) eqn:E; [pose proof (A5 p ltac:(by rewrite E)); lia|done]).
  assert (Eid : forall q, getId s' q = getId s q) by (intros q; unfold getId; by rewrite Ef).
  assert (Hop : forall q slot, open_face s q slot -> open_face s' q slot).
  { intros q slot (x&Hx&Hxs&Hin). exists x. rewrite Eo, lookup_insert_ne; [done|]. intros <-. congruence. }
  assert (Hop' : forall q slot, open_face s' q slot -> q <> p -> open_face s q slot).
  { intros q slot (x&Hx&Hxs&Hin) Hne. exists x. by rewrite Eo, lookup_insert_ne in Hx. }
  assert (Hopp : forall slot, slot ∈ fi_slots o -> open_face s' p slot) by (intros slot Hin; exists o; by rewrite Eo, lookup_insert_eq).
  split; rewrite ?El, ?Et, ?En, ?Ef; try done.
  - intros id q Hq. rewrite Eid. destruct (A2 _ _ Hq) as (?&?&?). split_and!; [done|lia|lia|by apply Hop].
  - intros q. rewrite Eid. apply A3.
  - intros q Hq. rewrite Eo. destruct (decide (q = p)) as [->|Hne]; [by rewrite lookup_insert_eq|rewrite lookup_insert_ne by done; by apply A4].
  - intros q Hq. rewrite Eo in Hq. destruct (decide (q = p)) as [->|Hne]; [lia|]. rewrite lookup_insert_ne in Hq by done. pose proof (A5 q Hq). subst p. lia.
  - intros q x Hx Hxs Hf. rewrite Eid. rewrite Eo, lookup_insert_ne in Hx by congruence. by apply (A6 q x).
  - intros q [= <-]. split; [|exists o; rewrite Eo, lookup_insert_eq, Hsl; split_and!; [done|done|by intros Heq%list_elem_of_singleton]]. destruct (fw_faces (sy_forwarder s) !! p) eqn:E; [|done].
    destruct (A4 p ltac:(by rewrite E)) as [x Hx]. congruence.
  - intros q x Hx. rewrite Eo in Hx. destruct (decide (q = p)) as [->|Hne]; [|rewrite lookup_insert_ne in Hx by done; by apply (A7s q)].
    rewrite lookup_insert_eq in Hx. injection Hx as <-. rewrite Hsl. apply NoDup_singleton.
  - intros ch r q. rewrite Etcp. case_decide as Hin; [intros [= <-]; by apply Hopp|]. intros Hq. by apply Hop, A8.
  - intros ch r q Hq. rewrite Etcp. destruct (decide (q = p)) as [->|Hne].
    + destruct Hq as (x&Hx&_&Hin). rewrite Eo, lookup_insert_eq in Hx. injection Hx as <-. by rewrite decide_True.
    + apply Hop' in Hq; [|done]. apply A9 in Hq. case_decide as Hin; [by rewrite (Hfree _ _ Hin) in Hq|done].
  - intros ch r q. rewrite Eudp. case_decide as Hin; [intros [= <-]; by apply Hopp|]. intros Hq. by apply Hop, A10.
  - intros l q. rewrite Em. case_decide as Hin; [intros [= <-]; by apply Hopp|]. intros Hq. by apply Hop, A11.
Qed.

(** ** Closing *)

(** What the slots of a face change *)
Record let_go p (slots : list Slot) s s' : Prop := {
  lg_last : sy_lastFaceId s' = sy_lastFaceId s;
  lg_objects : sy_objects s' = sy_objects s;
  lg_next : sy_nextObject s' = sy_nextObject s;
  lg_table id : sy_table s' !! id = if decide (RemoveFromTable ∈ slots /\ id = getId s p) then None else sy_table s !! id;
  lg_id q : getId s' q = if decide (RemoveFromTable ∈ slots /\ q = p) then 0 else getId s q;
  lg_faces q : is_Some (fw_faces (sy_forwarder s') !! q) -> is_Some (fw_faces (sy_forwarder s) !! q) \/ q = p;
  lg_tcp ch r : tcp_face s' ch r = if decide (EraseTcpFace ch r ∈ slots) then None else tcp_face s ch r;
  lg_udp ch r : udp_face s' ch r = if decide (EraseUdpFace ch r ∈ slots) then None else udp_face s ch r;
  lg_multicast l : multicast_face s' l = if decide (EraseMulticastFace l ∈ slots) then None else multicast_face s l;
  lg_forwarder : fw_reachable (sy_forwarder s) -> fw_reachable (sy_forwarder s')
}.

Lemma tcp_face_erase s ch r ch' r' : tcp_face (sy_with_tcp (erase_tcp ch r (sy_tcp s)) s) ch' r' = if decide (ch' = ch /\ r' = r) then None else tcp_face s ch' r'.
Proof.
  unfold tcp_face. cbn [sy_with_tcp sy_tcp erase_tcp tf_channels]. destruct (decide (ch' = ch)) as [->|Hne].
  - rewrite lookup_alter_eq. destruct (tf_channels (sy_tcp s) !! ch) as [c|] eqn:E; cbn; [|by case_decide].
    destruct (decide (r' = r)) as [->|Hr]; [rewrite lookup_delete_eq; by rewrite decide_True|]. rewrite lookup_delete_ne by done. by rewrite decide_False by tauto.
  - rewrite lookup_alter_ne by done. rewrite decide_False by tauto. done.
Qed.
Lemma udp_face_erase s ch r ch' r' : udp_face (sy_with_udp (erase_udp ch r (sy_udp s)) s) ch' r' = if decide (ch' = ch /\ r' = r) then None else udp_face s ch' r'.
Proof.
  unfold udp_face. cbn [sy_with_udp sy_udp erase_udp uf_channels]. destruct (decide (ch' = ch)) as [->|Hne].
  - rewrite lookup_alter_eq. destruct (uf_channels (sy_udp s) !! ch) as [c|] eqn:E; cbn; [|by case_decide].
    destruct (decide (r' = r)) as [->|Hr]; [rewrite lookup_delete_eq; by rewrite decide_True|]. rewrite lookup_delete_ne by done. by rewrite decide_False by tauto.
  - rewrite lookup_alter_ne by done. rewrite decide_False by tauto. done.
Qed.

Lemma getId_remove p q s fw : fw = removeFace p (sy_forwarder s) -> getId (sy_with_forwarder fw s) q = if decide (q = p) then 0 else getId s q.
Proof.
  intros ->. unfold getId, face_at. cbn [sy_with_forwarder sy_forwarder removeFace with_tables with_faces fw_faces]. destruct (decide (q = p)) as [->|Hne].
  - by rewrite lookup_insert_eq.
  - by rewrite lookup_insert_ne.
Qed.

Lemma run_slot_ok p slot s s' : run_slot p slot s = Ok s' -> let_go p [slot] s s'.
Proof.
  destruct slot as [ch r|ch r|l|]; cbn [run_slot].
  - intros [= <-]. split; intros; try done; try (by rewrite decide_False by (intros [Hin%list_elem_of_singleton _])); try (by rewrite decide_False by (intros Hin%list_elem_of_singleton)); try by left.
    + rewrite tcp_face_erase. by apply decide_ext; rewrite list_elem_of_singleton; split; [intros [-> ->]|intros [= -> ->]].
  - intros [= <-]. split; intros; try done; try (by rewrite decide_False by (intros [Hin%list_elem_of_singleton _])); try (by rewrite decide_False by (intros Hin%list_elem_of_singleton)); try by left.
    + rewrite udp_face_erase. by apply decide_ext; rewrite list_elem_of_singleton; split; [intros [-> ->]|intros [= -> ->]].
  - intros [= <-]. split; intros; try done; try (by rewrite decide_False by (intros [Hin%list_elem_of_singleton _])); try (by rewrite decide_False by (intros Hin%list_elem_of_singleton)); try by left.
    + unfold multicast_face. cbn [sy_with_udp sy_udp erase_multicast uf_multicastFaces]. case_decide as Hin.
      * apply list_elem_of_singleton in Hin as [= ->]. by rewrite lookup_delete_eq.
      * rewrite lookup_delete_ne; [done|]. intros ->. apply Hin. by apply list_elem_of_singleton.
  - unfold FaceTable_remove. intros (s1&Hn&[= <-])%rbind_Ok. apply notify_ok in Hn as [b ->]. split; intros; try done; try (by rewrite decide_False by (intros Hin%list_elem_of_singleton)).
    + change (delete (getId s p) (sy_table s) !! id = if decide (RemoveFromTable ∈ [RemoveFromTable] /\ id = getId s p) then None else sy_table s !! id).
      case_decide as Hd; [destruct Hd as [_ ->]; by rewrite lookup_delete_eq|]. rewrite lookup_delete_ne; [done|]. intros <-. apply Hd. split; [by apply list_elem_of_singleton|done].
    + change (getId (sy_with_forwarder (removeFace p (sy_forwarder s)) s) q = if decide (RemoveFromTable ∈ [RemoveFromTable] /\ q = p) then 0 else getId s q).
      rewrite (getId_remove p q _ _ eq_refl). apply decide_ext. rewrite list_elem_of_singleton. tauto.
    + change (is_Some (<[p := MkFace INVALID_FACEID (f_scope (face_at (sy_forwarder s) p)) (f_linkType (face_at (sy_forwarder s) p))]> (fw_faces (sy_forwarder s)) !! q)) in H8.
      destruct (decide (q = p)) as [->|Hne]; [by right|]. rewrite lookup_insert_ne in H8 by done. by left.
    + eapply ReachStep; [done|]. apply StepRemoveFace.
Qed.

Lemma run_slots_ok p slots : forall s s', sy_table s !! 0 = None -> run_slots p slots s = Ok s' -> let_go p slots s s'.
Proof.
  induction slots as [|slot slots IH]; intros s s' Hz0 Hrun; cbn [run_slots] in Hrun.
  - injection Hrun as <-. split; intros; try done; try (by rewrite decide_False by (intros [Hin _]; by apply elem_of_nil in Hin));
      try (by rewrite decide_False by (intros Hin; by apply elem_of_nil in Hin)). by left.
  - apply rbind_Ok in Hrun as (s1&Hone&Hrun). apply run_slot_ok in Hone as [B1 B2 B3 B4 B5 B6 B7 B8 B9 B10].
    assert (Hz : sy_table s1 !! 0 = None) by (rewrite B4; by if_decide).
    destruct (IH s1 s' Hz Hrun) as [C1 C2 C3 C4 C5 C6 C7 C8 C9 C10].
    assert (Hin : forall x, x ∈ slot :: slots <-> x ∈ [slot] \/ x ∈ slots) by (intros x; by rewrite elem_of_cons, list_elem_of_singleton).
    split; [congruence|congruence|congruence| | | | | | |by auto].
    + intros id. specialize (Hin RemoveFromTable). rewrite C4, B4, B5. destruct (decide (RemoveFromTable ∈ [slot])) as [Hr1|Hr1].
      * rewrite (decide_True (P := RemoveFromTable ∈ [slot] /\ p = p)) by done. destruct (decide (RemoveFromTable ∈ slots /\ id = 0)) as [[_ ->]|_]; [|repeat if_decide; tauto].
        if_decide; [done|]. symmetry. exact Hz0.
      * rewrite (decide_False (P := RemoveFromTable ∈ [slot] /\ p = p)) by tauto. repeat if_decide; tauto.
    + intros q. rewrite C5, B5. specialize (Hin RemoveFromTable). repeat if_decide; try done; tauto.
    + intros q Hq. apply C6 in Hq as [Hq|Hq]; [by apply B6|by right].
    + intros ch r. rewrite C7, B7. specialize (Hin (EraseTcpFace ch r)). repeat if_decide; tauto.
    + intros ch r. rewrite C8, B8. specialize (Hin (EraseUdpFace ch r)). repeat if_decide; tauto.
    + intros l. rewrite C9, B9. specialize (Hin (EraseMulticastFace l)). repeat if_decide; tauto.
Qed.

(** A face is closed: nobody holds it any more. *)
Lemma holds_closed p o s s' : holds None s -> sy_objects s !! p = Some o -> fi_state o <> CLOSED ->
  run_slots p (fi_slots o) (set_object p (fi_with_state CLOSED o) s) = Ok s' ->
  holds None s' /\ getId s' p = 0 /\ (forall id, sy_table s' !! id = if decide (id = getId s p) then None else sy_table s !! id).
Proof.
  intros [A1 A2 A3 A4 A5 A6 A7 A7s A8 A9 A10 A11 A12] Ho Hst Hrun. set (o' := fi_with_state CLOSED o) in *. set (s1 := set_object p o' s) in *.
  assert (Hz : sy_table s !! 0 = None) by (destruct (sy_table s !! 0) eqn:E; [destruct (A2 _ _ E) as (_&?&_); lia|done]).
  apply (run_slots_ok p _ s1 s') in Hrun as [C1 C2 C3 C4 C5 C6 C7 C8 C9 C10]; [|done].
  assert (Eid : forall q, getId s1 q = getId s q) by done. assert (Eo : sy_objects s1 = <[p := o']> (sy_objects s)) by done.
  assert (Hp0 : getId s p <> 0) by by apply (A6 p o).
  assert (Hrm : RemoveFromTable ∈ fi_slots o).
  { destruct (A2 _ _ (A3 p Hp0)) as (_&_&(x&Hx&_&Hin)). rewrite Ho in Hx. by injection Hx as <-. }
  assert (Hop : forall q slot, open_face s q slot -> q <> p -> open_face s' q slot).
  { intros q slot (x&Hx&Hxs&Hin) Hne. exists x. by rewrite C2, Eo, lookup_insert_ne. }
  assert (Hop' : forall q slot, open_face s' q slot -> q <> p /\ open_face s q slot).
  { intros q slot (x&Hx&Hxs&Hin). rewrite C2, Eo in Hx. destruct (decide (q = p)) as [->|Hne].
    - rewrite lookup_insert_eq in Hx. injection Hx as <-. done.
    - rewrite lookup_insert_ne in Hx by done. split; [done|by exists x]. }
  assert (Hslot : forall q slot, open_face s q slot -> q = p -> slot ∈ fi_slots o).
  { intros q slot (x&Hx&_&Hin) ->. rewrite Ho in Hx. by injection Hx as <-. }
  assert (Et : forall id, sy_table s' !! id = if decide (id = getId s p) then None else sy_table s !! id).
  { intros id. rewrite C4. change (sy_table s1) with (sy_table s). rewrite Eid. apply decide_ext. tauto. }
  split_and!; [|rewrite C5; by rewrite decide_True|exact Et]. split.
  - rewrite C1. exact A1.
  - intros id q. rewrite Et. if_decide; [done|]. intros Hq. destruct (A2 _ _ Hq) as (Hqi&Hr&Hqo). rewrite C5, Eid, C1.
    assert (q <> p) by (intros ->; congruence). rewrite decide_False by tauto. split_and!; [done|apply Hr|exact (proj2 Hr)|by apply Hop].
  - intros q. rewrite C5, Eid, Et. if_decide; [done|]. intros Hq. rewrite decide_False; [by apply A3|].
    intros Heq. apply A3 in Hq as Hq'. rewrite Heq in Hq'. rewrite (A3 p Hp0) in Hq'. injection Hq' as ->. tauto.
  - intros q Hq. rewrite C2, Eo. destruct (decide (q = p)) as [->|Hne]; [by rewrite lookup_insert_eq|]. rewrite lookup_insert_ne by done. apply A4.
    by apply C6 in Hq as [Hq|].
  - intros q Hq. rewrite C3. change (sy_nextObject s1) with (sy_nextObject s). apply A5. rewrite C2, Eo in Hq. destruct (decide (q = p)) as [->|Hne]; [by rewrite Ho|].
    by rewrite lookup_insert_ne in Hq.
  - intros q x Hx Hxs _. rewrite C2, Eo in Hx. destruct (decide (q = p)) as [->|Hne]; [rewrite lookup_insert_eq in Hx; by injection Hx as <-|].
    rewrite lookup_insert_ne in Hx by done. rewrite C5, Eid, decide_False by tauto. by apply (A6 q x).
  - done.
  - intros q x Hx. rewrite C2, Eo in Hx. destruct (decide (q = p)) as [->|Hne]; [rewrite lookup_insert_eq in Hx; injection Hx as <-; exact (A7s p o Ho)|].
    rewrite lookup_insert_ne in Hx by done. by apply (A7s q).
  - intros ch r q. rewrite C7. if_decide; [done|]. intros Hq. apply A8 in Hq. apply Hop; [done|]. intros ->. match goal with Hn : _ ∉ _ |- _ => apply Hn end. by eapply Hslot.
  - intros ch r q Hq. apply Hop' in Hq as [Hne Hq]. apply A9 in Hq as Ht. rewrite C7. if_decide; [|done].
    assert (Htp : tcp_face s ch r = Some p) by (apply A9; exists o; done). congruence.
  - intros ch r q. rewrite C8. if_decide; [done|]. intros Hq. apply A10 in Hq. apply Hop; [done|]. intros ->. match goal with Hn : _ ∉ _ |- _ => apply Hn end. by eapply Hslot.
  - intros l q. rewrite C9. if_decide; [done|]. intros Hq. apply A11 in Hq. apply Hop; [done|]. intros ->. match goal with Hn : _ ∉ _ |- _ => apply Hn end. by eapply Hslot.
  - by apply C10.
Qed.

(** ** Commands and connections *)

(** The connections of a channel that wait *)
Definition connections s (ch : Endpoint) : list TcpConnection := match tf_channels (sy_tcp s) !! ch with Some c => tc_connections c | None => [] end.

(** Operations that answer no command and start no connection *)
Record quiet s s' : Prop := {
  qt_responses : sy_responses s' = sy_responses s;
  qt_requests : sy_requests s' = sy_requests s;
  qt_connections ch : connections s' ch = connections s ch
}.
#[global] Instance quiet_preorder : PreOrder quiet.
Proof. split; [done|]. intros a b c [? ? Hc1] [? ? Hc2]. split; [congruence|congruence|]. intros ch. by rewrite Hc2. Qed.

Lemma quiet_notify kind p s s' : notify kind p s = Ok s' -> quiet s s'.
Proof. by intros [b ->]%notify_ok. Qed.
Lemma quiet_add p s s' : FaceTable_add p s = Ok s' -> quiet s s'.
Proof.
  unfold FaceTable_add. destruct (_ && _); [by intros [= <-]|]. destruct (_ <=? _); [done|]. unfold addImpl. intros (o&_&Hn)%rbind_Ok.
  apply quiet_notify in Hn. by destruct Hn.
Qed.
Lemma quiet_run_slots p slots : forall s s', run_slots p slots s = Ok s' -> quiet s s'.
Proof.
  induction slots as [|slot slots IH]; intros s s' Hrun; cbn [run_slots] in Hrun; [by injection Hrun as <-|].
  apply rbind_Ok in Hrun as (s1&Hone&Hrun). trans s1; [|by apply IH]. clear Hrun IH. destruct slot; cbn [run_slot] in Hone; try (injection Hone as <-; done).
  - injection Hone as <-. split; try done. intros ch. unfold connections. cbn [sy_with_tcp sy_tcp erase_tcp tf_channels]. destruct (decide (ch = channel)) as [->|Hne].
    + rewrite lookup_alter_eq. by destruct (tf_channels (sy_tcp s) !! channel).
    + by rewrite lookup_alter_ne.
  - unfold FaceTable_remove in Hone. apply rbind_Ok in Hone as (s2&Hn&[= <-]). apply quiet_notify in Hn. by destruct Hn.
Qed.

(** What a step that opens no face and answers no command keeps *)
Definition keeps s s' : Prop := (holds None s -> holds None s') /\ quiet s s'.
#[global] Instance keeps_preorder : PreOrder keeps.
Proof. split; [by split|]. intros a b c [? ?] [? ?]. split; [by auto|]. by trans b. Qed.

Lemma keeps_set p o o' s : sy_objects s !! p = Some o -> same_object o o' -> keeps s (set_object p o' s).
Proof. intros Ho Hs. split; [by apply (holds_set None p o)|done]. Qed.

Lemma get_object_ok p s o : get_object p s = Ok o -> sy_objects s !! p = Some o.
Proof. unfold get_object. destruct (sy_objects s !! p); [by intros [= ->]|done]. Qed.

Lemma keeps_setState st p s s' : Face_setState st p s = Ok s' -> keeps s s'.
Proof.
  unfold Face_setState. intros (o&Ho%get_object_ok&Hs)%rbind_Ok. destruct (bool_decide_reflect (fi_state o = st)) as [|Hne]; [by injection Hs as <-|].
  destruct (valid_transition (fi_state o) st) eqn:Hv; [|done]. cbn [negb] in Hs. destruct (bool_decide_reflect (st = CLOSED)) as [->|Hst].
  - split; [|by apply quiet_run_slots in Hs; destruct Hs]. intros Hh. by apply (holds_closed p o s) in Hs as (?&_&_).
  - injection Hs as <-. apply (keeps_set p o); [done|]. split; [done|]. cbn [fi_with_state fi_state]. split; [done|]. intros Hc. by rewrite Hc in Hv.
Qed.

Lemma keeps_doClose p s s' : Face_doClose p s = Ok s' -> keeps s s'.
Proof. unfold Face_doClose. intros (o&Ho%get_object_ok&[= <-])%rbind_Ok. by apply (keeps_set p o). Qed.

Lemma keeps_close p s s' : Face_close p s = Ok s' -> keeps s s'.
Proof.
  unfold Face_close. intros (o&Ho%get_object_ok&Hs)%rbind_Ok. destruct (negb _); [by injection Hs as <-|].
  apply rbind_Ok in Hs as (s1&Hc1%keeps_setState&Hc2%keeps_doClose). by trans s1.
Qed.

Lemma keeps_closed p s s' : Face_closed p s = Ok s' -> keeps s s'.
Proof.
  unfold Face_closed. intros (o&Ho%get_object_ok&Hs)%rbind_Ok. destruct (fi_posted o) as [|n]; [by injection Hs as <-|].
  apply keeps_setState in Hs. trans (set_object p (fi_with_posted n o) s); [by apply (keeps_set p o)|done].
Qed.

Lemma keeps_datagram_error p s s' : Datagram_processErrorCode p s = Ok s' -> keeps s s'.
Proof.
  unfold Datagram_processErrorCode. intros (o&Ho%get_object_ok&Hs)%rbind_Ok. assert (Hcase : s' = s \/ exists s1, Face_setState FAILED p s = Ok s1 /\ Face_doClose p s1 = Ok s').
  { destruct (fi_state o); try (injection Hs as <-; by left); (destruct (_ =? _); [injection Hs as <-; by left|]); apply rbind_Ok in Hs as (s1&?&?); right; by exists s1. }
  destruct Hcase as [->|(s1&Hc1%keeps_setState&Hc2%keeps_doClose)]; [done|by trans s1].
Qed.

Lemma setPersistency_same now n o o' : object_setPersistency now n o = Ok o' -> same_object o o'.
Proof.
  unfold object_setPersistency. destruct (_ =? _); [by intros [= <-]|]. destruct (_ =? _); [done|]. intros (o1&Hc1&[= <-])%rbind_Ok.
  assert (Hs : same_object o o1); [|by destruct Hs]. destruct (negb _); [|by injection Hc1 as <-]. unfold beforeChangePersistency in Hc1.
  destruct (fi_class o); [destruct (_ =? _); [done|]; by injection Hc1 as <-| |destruct (negb _); [done|]; by injection Hc1 as <-]. destruct (_ && _); by injection Hc1 as <-.
Qed.
Lemma keeps_setPersistency now n p s s' : Face_setPersistency now n p s = Ok s' -> keeps s s'.
Proof.
  unfold Face_setPersistency. intros (o&Ho%get_object_ok&Hs)%rbind_Ok. apply rbind_Ok in Hs as (o'&Hs%setPersistency_same&[= <-]). by apply (keeps_set p o).
Qed.

Lemma keeps_idle now p s s' : idle_timer_fires now p s = Ok s' -> keeps s s'.
Proof.
  unfold idle_timer_fires. intros (o&Ho%get_object_ok&Hs)%rbind_Ok. destruct (fi_class o), (fi_closeIfIdle o); try (by injection Hs as <-).
  destruct (_ <=? _); [|by injection Hs as <-]. destruct (negb _).
  - apply keeps_close in Hs. etrans; [|exact Hs]. by apply (keeps_set p o).
  - injection Hs as <-. by apply (keeps_set p o).
Qed.

Lemma keeps_datagram bytes p s b s' : Face_receiveDatagram bytes p s = Ok (b, s') -> keeps s s'.
Proof.
  unfold Face_receiveDatagram. intros (o&Ho%get_object_ok&Hs)%rbind_Ok. destruct (fromArray bytes) as [e|]; [|by injection Hs as _ <-].
  apply rbind_Ok in Hs as (n&_&Hs). destruct (negb _); [by injection Hs as _ <-|]. injection Hs as _ <-. by apply (keeps_set p o).
Qed.

(** ** Creating faces *)

Definition request_of (cb : FaceCreatedCallback) : list nat := match cb with AddToTable => [] | AnswerCommand _ request => [request] end.

(** The commands that are answered *)
Record replies (l : list nat) s s' : Prop := {
  rp_responses : map fst (sy_responses s') = map fst (sy_responses s) ++ l;
  rp_requests : sy_requests s' = sy_requests s;
  rp_connections ch : connections s' ch = connections s ch
}.
Lemma quiet_replies s s' : quiet s s' -> replies [] s s'.
Proof. intros [Hr ? ?]. split; [by rewrite Hr, app_nil_r|done|done]. Qed.
Lemma replies_after l s s1 s2 : quiet s s1 -> replies l s1 s2 -> replies l s s2.
Proof. intros [Hr ? Hc] [? ? Hc']. split; [by rewrite <- Hr|congruence|]. intros ch. by rewrite Hc'. Qed.

Lemma holds_answer fresh r x s : holds fresh s -> holds fresh (answer r x s).
Proof. intros Hh. by apply (holds_ext fresh s); try done; apply Hh. Qed.
Lemma replies_failed cb reason s : replies (request_of cb) s (onConnectFailed cb reason s).
Proof. destruct cb; [by apply quiet_replies|]. split; try done. cbn [onConnectFailed afterCreateFaceFailure answer sy_responses request_of]. by rewrite map_app. Qed.
Lemma holds_failed fresh cb reason s : holds fresh s -> holds fresh (onConnectFailed cb reason s).
Proof. intros Hh. destruct cb; [done|by apply holds_answer]. Qed.

(** A face is either just created, or one that is open. *)
Definition created p s : Prop := holds (Some p) s \/ holds None s /\ open_object s p.

Lemma created_add p s s' : created p s -> FaceTable_add p s = Ok s' -> holds None s'.
Proof. intros [Hh|[Hh Hop]] Ha; [by apply (holds_add p s)|]. rewrite (add_again p s Hh Hop) in Ha. by injection Ha as <-. Qed.

Lemma created_ok cb p s s' : created p s -> onFaceCreated cb p s = Ok s' -> holds None s' /\ replies (request_of cb) s s'.
Proof.
  intros Hc. destruct cb as [|params request]; cbn [onFaceCreated request_of].
  - intros Ha. split; [by eapply created_add|]. by eapply quiet_replies, quiet_add.
  - unfold afterCreateFaceSuccess. intros (s1&Ha&Hs)%rbind_Ok. apply rbind_Ok in Hs as (o&_&Hs). apply rbind_Ok in Hs as (r&_&[= <-]). split.
    + by apply holds_answer, (created_add p s).
    + apply quiet_add in Ha. eapply replies_after; [exact Ha|]. split; try done. cbn [answer sy_responses]. by rewrite map_app.
Qed.

Lemma udp_face_set s ch c ch' r' : udp_face (set_udp ch c s) ch' r' = if decide (ch' = ch) then uc_faces c !! r' else udp_face s ch' r'.
Proof.
  unfold udp_face, set_udp. cbn [sy_with_udp sy_udp uf_channels]. if_decide; [subst; by rewrite lookup_insert_eq|by rewrite lookup_insert_ne].
Qed.
Lemma tcp_face_set s ch c ch' r' : tcp_face (set_tcp ch c s) ch' r' = if decide (ch' = ch) then tc_faces c !! r' else tcp_face s ch' r'.
Proof.
  unfold tcp_face, set_tcp. cbn [sy_with_tcp sy_tcp tf_channels]. if_decide; [subst; by rewrite lookup_insert_eq|by rewrite lookup_insert_ne].
Qed.
Lemma connections_set s ch c ch' : connections (set_tcp ch c s) ch' = if decide (ch' = ch) then tc_connections c else connections s ch'.
Proof.
  unfold connections, set_tcp. cbn [sy_with_tcp sy_tcp tf_channels]. if_decide; [subst; by rewrite lookup_insert_eq|by rewrite lookup_insert_ne].
Qed.
Lemma get_udp_ok ch s c : get_udp ch s = Ok c -> uf_channels (sy_udp s) !! ch = Some c.
Proof. unfold get_udp. destruct (uf_channels (sy_udp s) !! ch); [by intros [= ->]|done]. Qed.
Lemma get_tcp_ok ch s c : get_tcp ch s = Ok c -> tf_channels (sy_tcp s) !! ch = Some c.
Proof. unfold get_tcp. destruct (tf_channels (sy_tcp s) !! ch); [by intros [= ->]|done]. Qed.

Lemma udp_create now socket ch r n s b p s' : holds None s -> UdpChannel_createFace now socket ch r n s = Ok (Returns (b, p, s')) ->
  created p s' /\ quiet s s' /\ (b = false -> holds None s').
Proof.
  intros Hh. unfold UdpChannel_createFace. intros (c&Hc%get_udp_ok&Hs)%rbind_Ok. apply rbind_Ok in Hs as (e&_&Hs).
  destruct (uc_faces c !! e) as [q|] eqn:Hq.
  - apply rbind_Ok in Hs as (o&Ho%get_object_ok&Hs).
    assert (Hqo : open_object s q).
    { destruct (hd_udp _ _ Hh ch e q) as (x&Hx&Hxs&_); [unfold udp_face; by rewrite Hc|]. by exists x. }
    assert (Hcase : (b, p, s') = (false, q, s) \/ exists s1, Face_setPersistency now n q s = Ok s1 /\ (b, p, s') = (false, q, s1)).
    { destruct (_ && _); [|injection Hs as <- <- <-; by left]. destruct (Face_setPersistency now n q s) as [s1|e1]; [|by destruct e1]. injection Hs as <- <- <-. right. by exists s1. }
    destruct Hcase as [[= -> -> ->]|(s1&Hs1&[= -> -> ->])]; [split_and!; [by right|done|done]|].
    pose proof (keeps_setPersistency _ _ _ _ _ Hs1) as [Hk Hq']. split_and!; [right; split; [by apply Hk|]|done|by intros _; apply Hk].
    unfold Face_setPersistency in Hs1. apply rbind_Ok in Hs1 as (o1&Ho1%get_object_ok&Hs1). apply rbind_Ok in Hs1 as (o2&[_ Hs2]%setPersistency_same&[= <-]).
    destruct Hqo as (x&Hx&Hxs). exists o2. cbn [set_object sy_with_objects sy_objects]. rewrite lookup_insert_eq. split; [done|]. rewrite Ho1 in Hx. injection Hx as <-. tauto.
  - destruct socket as [l|what]; [|done]. injection Hs as <- <- <-. set (o := connect_slot _ _). set (s1 := set_udp _ _ _).
    assert (Hsl : fi_slots o = [EraseUdpFace ch r]).
    { subst o. unfold UnicastUdpTransport_new. by destruct (_ && _). }
    assert (Hst : fi_state o <> CLOSED) by (subst o; unfold UnicastUdpTransport_new; by destruct (_ && _)).
    split_and!; [|done|done]. left. apply (holds_new o s s1 Hh Hst); try done; [by eexists|..].
    + intros ch' r'. rewrite decide_False; [done|]. rewrite Hsl. by intros Hin%list_elem_of_singleton.
    + intros ch' r'. rewrite Hsl. by intros Hin%list_elem_of_singleton.
    + intros ch' r'. unfold s1. rewrite udp_face_set. cbn [uc_faces new_object snd]. destruct (decide (ch' = ch)) as [->|Hne].
      * destruct (decide (r' = r)) as [->|Hr]; [rewrite lookup_insert_eq; rewrite decide_True; [done|]; rewrite Hsl; by apply list_elem_of_singleton|].
        rewrite lookup_insert_ne by done. rewrite decide_False; [unfold udp_face; by rewrite Hc|]. rewrite Hsl. by intros [= ->]%list_elem_of_singleton.
      * rewrite decide_False; [done|]. rewrite Hsl. by intros [= ->]%list_elem_of_singleton.
    + intros l'. rewrite decide_False; [done|]. rewrite Hsl. by intros Hin%list_elem_of_singleton.
Qed.

Lemma tcp_create ch l r cb b s s' : holds None s -> TcpChannel_createFace ch l r cb b s = Ok s' -> holds None s' /\ replies (request_of cb) s s'.
Proof.
  intros Hh. unfold TcpChannel_createFace. intros (c&Hc%get_tcp_ok&Hs)%rbind_Ok. destruct (tc_faces c !! r) as [q|] eqn:Hq.
  - apply created_ok in Hs; [done|]. right. split; [done|]. destruct (hd_tcp _ _ Hh ch r q) as (x&Hx&Hxs&_); [unfold tcp_face; by rewrite Hc|]. by exists x.
  - set (o := connect_slot _ _) in Hs. cbn [new_object] in Hs. set (s1 := set_tcp _ _ _) in Hs.
    assert (Hsl : fi_slots o = [EraseTcpFace ch r]) by done.
    assert (Hqu : quiet s s1).
    { split; [done|done|]. intros ch'. unfold s1. rewrite connections_set. cbn [tc_connections]. if_decide; [subst; unfold connections; by rewrite Hc|done]. }
    apply created_ok in Hs as [Hs1 Hs2]; [split; [done|by eapply replies_after]|]. left. apply (holds_new o s s1 Hh); try done; [by eexists|..].
    + intros ch' r'. unfold s1. rewrite tcp_face_set. cbn [tc_faces]. destruct (decide (ch' = ch)) as [->|Hne].
      * destruct (decide (r' = r)) as [->|Hr]; [rewrite lookup_insert_eq; rewrite decide_True; [done|]; rewrite Hsl; by apply list_elem_of_singleton|].
        rewrite lookup_insert_ne by done. rewrite decide_False; [unfold tcp_face; by rewrite Hc|]. rewrite Hsl. by intros [= ->]%list_elem_of_singleton.
      * rewrite decide_False; [done|]. rewrite Hsl. by intros [= ->]%list_elem_of_singleton.
    + intros ch' r'. rewrite Hsl. intros [= -> ->]%list_elem_of_singleton. unfold tcp_face. by rewrite Hc.
Qed.

(** A channel changes, but not its faces. *)
Lemma holds_set_tcp fresh ch c c' s : tf_channels (sy_tcp s) !! ch = Some c -> tc_faces c' = tc_faces c -> holds fresh s -> holds fresh (set_tcp ch c' s).
Proof.
  intros Hc Hf Hh. apply (holds_ext fresh s); try done; [apply Hh|]. intros ch' r. rewrite tcp_face_set. if_decide; [subst|done]. unfold tcp_face. by rewrite Hc, Hf.
Qed.
Lemma holds_set_udp fresh ch c c' s : uf_channels (sy_udp s) !! ch = Some c -> uc_faces c' = uc_faces c -> holds fresh s -> holds fresh (set_udp ch c' s).
Proof.
  intros Hc Hf Hh. apply (holds_ext fresh s); try done; [apply Hh|]. intros ch' r. rewrite udp_face_set. if_decide; [subst|done]. unfold udp_face. by rewrite Hc, Hf.
Qed.

(** A connection of a command has started. *)
Record started cb s s' : Prop := {
  sa_responses : sy_responses s' = sy_responses s;
  sa_requests : sy_requests s' = sy_requests s;
  sa_connections : exists ch r, connections s' ch = connections s ch ++ [MkTcpConnection r cb true true true] /\
    forall ch', ch' <> ch -> connections s' ch' = connections s ch'
}.
Definition handled cb s s' : Prop := holds None s' /\ (replies (request_of cb) s s' \/ started cb s s').

Lemma tcp_connect ch r cb s s' : holds None s -> TcpChannel_connect ch r cb s = Ok s' -> handled cb s s'.
Proof.
  intros Hh. unfold TcpChannel_connect. intros (c&Hc%get_tcp_ok&Hs)%rbind_Ok. destruct (tc_faces c !! r) as [q|] eqn:Hq.
  - apply created_ok in Hs as [? ?]; [by split; [|left]|]. right. split; [done|]. destruct (hd_tcp _ _ Hh ch r q) as (x&Hx&Hxs&_); [unfold tcp_face; by rewrite Hc|]. by exists x.
  - injection Hs as <-. split; [by apply (holds_set_tcp None ch c)|]. right. split; [done|done|]. exists ch, r. split.
    + rewrite connections_set, decide_True by done. cbn [tc_connections]. unfold connections. by rewrite Hc.
    + intros ch' Hne. by rewrite connections_set, decide_False.
Qed.

Lemma udp_connect now socket ch r n cb s s' : holds None s -> UdpChannel_connect now socket ch r n cb s = Ok (Returns s') -> handled cb s s'.
Proof.
  intros Hh. unfold UdpChannel_connect. intros (x&Hx&Hs)%rbind_Ok. destruct x as [[[b p] s1]|what|what]; [| |done].
  - apply rbind_Ok in Hs as (s2&Hs&[= <-]). apply udp_create in Hx as (Hc&Hq&_); [|done]. apply created_ok in Hs as [? ?]; [|done]. split; [done|]. left. by eapply replies_after.
  - injection Hs as <-. split; [by apply holds_failed|]. left. apply replies_failed.
Qed.

Lemma tcp_factory_create uri n cb s s' : holds None s -> TcpFactory_createFace uri n cb s = Ok (Returns s') -> handled cb s s'.
Proof.
  intros Hh. unfold TcpFactory_createFace. destruct (negb (isCanonical uri)); [done|]. destruct (negb _); [done|]. destruct (address_from_string _) as [|a]; [done|].
  intros (port&_&Hs)%rbind_Ok. destruct (bool_decide _); [injection Hs as <-; split; [by apply holds_failed|left; apply replies_failed]|].
  destruct (channel_for _ _) as [ch|]; [|injection Hs as <-; split; [by apply holds_failed|left; apply replies_failed]].
  apply rbind_Ok in Hs as (s1&Hs&[= <-]). by eapply tcp_connect.
Qed.
Lemma udp_factory_create now socket uri n cb s s' : holds None s -> UdpFactory_createFace now socket uri n cb s = Ok (Returns s') -> handled cb s s'.
Proof.
  intros Hh. unfold UdpFactory_createFace. destruct (negb (isCanonical uri)); [done|]. destruct (n =? _); [done|]. destruct (address_from_string _) as [|a]; [done|].
  intros (port&_&Hs)%rbind_Ok. destruct (is_multicast a); [injection Hs as <-; split; [by apply holds_failed|left; apply replies_failed]|].
  destruct (bool_decide _); [injection Hs as <-; split; [by apply holds_failed|left; apply replies_failed]|].
  destruct (channel_for _ _) as [ch|]; [|injection Hs as <-; split; [by apply holds_failed|left; apply replies_failed]]. by eapply udp_connect.
Qed.

(** ** Commands *)

Lemma handled_answer cb r x s : request_of cb = [r] -> holds None s -> handled cb s (answer r x s).
Proof. intros Hr Hh. split; [by apply holds_answer|]. left. rewrite Hr. split; try done. cbn [answer sy_responses]. by rewrite map_app. Qed.
Lemma handled_after cb s s1 s2 : keeps s s1 -> handled cb s1 s2 -> handled cb s s2.
Proof.
  intros [_ Hq] [Hh Hc]. split; [done|]. destruct Hc as [Hc|[Sr Sq (ch&r&Hch&Ho)]]; [left; by eapply replies_after|]. right. destruct Hq as [Qr Qq Qc].
  split; [congruence|congruence|]. exists ch, r. split; [by rewrite Hch, Qc|]. intros ch' Hne. by rewrite Ho, Qc.
Qed.

Lemma create_handled now socket params request s s' : holds None s -> createFace now socket params request s = Ok s' ->
  exists cb, request_of cb = [request] /\ handled cb s s'.
Proof.
  intros Hh. unfold createFace. intros (text&_&Hs)%rbind_Ok. set (cb := AnswerCommand params request) in *. exists cb. split; [done|].
  destruct (parse text) as [uri|]; [|injection Hs as <-; by apply handled_answer]. destruct (negb _); [injection Hs as <-; by apply handled_answer|].
  destruct (sy_factories s !! fu_scheme uri) as [f|]; [|injection Hs as <-; by apply handled_answer].
  apply rbind_Ok in Hs as (n&_&Hs). apply rbind_Ok in Hs as (r&Hr&Hs). destruct r as [s1|what|what]; [|injection Hs as <-; by apply handled_answer..].
  injection Hs as <-. destruct f; [by eapply tcp_factory_create|by eapply udp_factory_create].
Qed.

Lemma destroy_handled params request s s' : holds None s -> destroyFace params request s = Ok s' -> exists cb, request_of cb = [request] /\ handled cb s s'.
Proof.
  intros Hh. unfold destroyFace. intros (id&_&Hs)%rbind_Ok. apply rbind_Ok in Hs as (s1&Hc1&Hs). apply rbind_Ok in Hs as (r&_&[= <-]).
  assert (Hk : keeps s s1) by (destruct (FaceTable_get id s); [by apply keeps_close in Hc1|by injection Hc1 as <-]).
  exists (AnswerCommand params request). split; [done|]. eapply handled_after; [exact Hk|]. apply handled_answer; [done|by apply Hk].
Qed.

Lemma local_control_handled b tag params request s s' : holds None s -> setLocalControl b tag params request s = Ok s' -> exists cb, request_of cb = [request] /\ handled cb s s'.
Proof.
  intros Hh. unfold setLocalControl. intros (r&_&Hs)%rbind_Ok. exists (AnswerCommand params request). split; [done|]. destruct r as [p|r]; [|injection Hs as <-; by apply handled_answer].
  apply rbind_Ok in Hs as (o&Ho%get_object_ok&Hs). apply rbind_Ok in Hs as (r&_&[= <-]). set (o' := fi_with_service _ _).
  assert (Hk : keeps s (set_object p o' s)) by by apply (keeps_set p o). eapply handled_after; [exact Hk|]. apply handled_answer; [done|by apply Hk].
Qed.

Lemma holds_next s : holds None s -> holds None (next_request s).
Proof. intros Hh. by apply (holds_ext None s); try done; apply Hh. Qed.

Lemma command_handled now c params s s' : holds None s -> face_command now c params s = Ok s' ->
  exists cb, request_of cb = [sy_requests s] /\ handled cb (next_request s) s'.
Proof.
  intros Hh%holds_next. unfold face_command. destruct (validateRequest _ _) as [|e].
  - destruct c; intros Hs; [by eapply create_handled|by eapply destroy_handled|by eapply local_control_handled..].
  - destruct e; try done. intros [= <-]. exists (AnswerCommand params (sy_requests s)). split; [done|]. by apply handled_answer.
Qed.
End Facts.
