(* ===== verification/FaceMachine.v ===== *)
(** * The face system as a machine

    Its steps are the commands, what happens to sockets, timers and posted calls,
    the configuration, and the steps of the forwarder.  In every state it reaches
    the table is consistent and each command is answered once; a face that is
    destroyed is gone. *)

From stdpp Require Import sorting.
From S2P Require Import Prelude StdMap Tlv Block Encoder Elements NameComponent Name KeyLocator Exclude MetaInfo SignatureInfo Packet DataPacket Link InterestPacket CsEntry.
From S2P Require Import CsPolicy Cs NameTree FibEntry PitEntry DeadNonceList Tables Pit Fib StrategyChoice Forwarder ForwarderInv ForwarderProps Strategies.
From S2P Require Import LpPacket LpFragmenter LpReassembler LinkService Transport ControlParameters Management Dataset Segments FaceUri Faces Channels FaceManager FaceProps.

(** A case for the condition of a hypothesis *)
Ltac case_if H := match type of H with context [if ?b then _ else _] => destruct b end.

Section Machine.
Context `{Sha256} `{CityHash} `{CityHashSeed} `{StdSort} `{Rng} {P : Type} `{CsPolicy P}.
Context `{IpAddresses} `{Scanf} `{ConfigNumbers}.
Implicit Types (s : FaceSystem (P := P)) (p q : FacePtr) (o : FaceObject).

(** ** Configuration *)

Lemma keeps_factory scheme f s : keeps s (insert_factory scheme f s).
Proof. unfold insert_factory. destruct (sy_factories s !! str scheme); [done|]. split; [|done]. intros Hh. by apply (holds_ext None s); try done; apply Hh. Qed.

Lemma keeps_tcp_channel nics e s : keeps s (TcpFactory_createChannel nics e s).
Proof.
  unfold TcpFactory_createChannel. destruct (tf_channels (sy_tcp s) !! e) as [c|] eqn:E; [done|]. split.
  - intros Hh. apply (holds_ext None s); try done; [apply Hh|]. intros ch r. unfold tcp_face. cbn [sy_with_tcp sy_tcp tf_channels].
    destruct (decide (ch = e)) as [->|Hne]; [by rewrite lookup_insert_eq, E|by rewrite lookup_insert_ne].
  - split; try done. intros ch. unfold connections. cbn [sy_with_tcp sy_tcp tf_channels]. destruct (decide (ch = e)) as [->|Hne]; [by rewrite lookup_insert_eq, E|by rewrite lookup_insert_ne].
Qed.
Lemma keeps_udp_channel nics e t s s' : UdpFactory_createChannel nics e t s = Returns s' -> keeps s s'.
Proof.
  unfold UdpFactory_createChannel. destruct (uf_channels (sy_udp s) !! e) as [c|] eqn:E; [by intros [= <-]|]. destruct (is_multicast _); [done|].
  destruct (uf_multicastFaces (sy_udp s) !! e); [done|]. intros [= <-]. split; [|done].
  intros Hh. apply (holds_ext None s); try done; [apply Hh|]. intros ch r. unfold udp_face. cbn [sy_with_udp sy_udp uf_channels].
  destruct (decide (ch = e)) as [->|Hne]; [by rewrite lookup_insert_eq, E|by rewrite lookup_insert_ne].
Qed.
Lemma keeps_tcp_listen e s s' : TcpChannel_listen e s = Ok s' -> keeps s s'.
Proof.
  unfold TcpChannel_listen. intros (c&Hc%get_tcp_ok&Hs)%rbind_Ok. destruct (isListening _); [by injection Hs as <-|]. injection Hs as <-. split; [by apply (holds_set_tcp None e c)|]. split; [done|done|].
  intros ch. rewrite connections_set. if_decide; [subst; unfold connections; by rewrite Hc|done].
Qed.
Lemma keeps_udp_listen e s s' : UdpChannel_listen e s = Ok s' -> keeps s s'.
Proof.
  unfold UdpChannel_listen. intros (c&Hc%get_udp_ok&Hs)%rbind_Ok. destruct (isListening _); [by injection Hs as <-|]. injection Hs as <-. split; [by apply (holds_set_udp None e c)|done].
Qed.

Lemma keeps_section_tcp nics section dry s s' : processSectionTcp nics section dry s = Ok s' -> keeps s s'.
Proof.
  assert (Hch : forall any scheme x s s', tcp_channel nics any scheme x s = Ok s' -> keeps s s').
  { intros any scheme x s0 s0'. unfold tcp_channel. intros (s1&Hl&[= <-])%rbind_Ok. etrans; [apply (keeps_tcp_channel nics (MkEndpoint any (to_port x)) s0)|].
    trans s1; [|apply keeps_factory]. destruct (to_listen x); [by eapply keeps_tcp_listen|by injection Hl as <-]. }
  unfold processSectionTcp. intros (x&_&Hs)%rbind_Ok. destruct (_ && _); [done|]. destruct dry; [by injection Hs as <-|]. destruct (bool_decide _); [by injection Hs as <-|].
  apply rbind_Ok in Hs as (s1&H4s&H6s). trans (insert_factory "tcp" TheTcpFactory s); [apply keeps_factory|]. trans s1.
  - destruct (to_enableV4 x); [by eapply Hch|by injection H4s as <-].
  - destruct (to_enableV6 x); [by eapply Hch|by injection H6s as <-].
Qed.

Lemma multicast_create e l g s p s' : holds None s -> createMulticastFace e l g s = Ok (Returns (p, s')) -> created p s'.
Proof.
  intros Hh. unfold createMulticastFace. destruct (uf_multicastFaces (sy_udp s) !! l) as [q|] eqn:Hq.
  - intros (o&Ho&Hs)%rbind_Ok. destruct (bool_decide _); [|done]. injection Hs as <- <-. right. split; [done|].
    destruct (hd_multicast _ _ Hh l q Hq) as (x&Hx&Hxs&_). by exists x.
  - repeat (match goal with |- context [if ?b then _ else _] => destruct b; [done|] end). destruct e; [done|]. set (o := connect_slot _ _). cbn [new_object]. intros [= <- <-].
    assert (Hsl : fi_slots o = [EraseMulticastFace l]) by done. left. apply (holds_new o s _ Hh); try done; [by eexists|..].
    + intros ch' r'. rewrite Hsl. by intros Hin%list_elem_of_singleton.
    + intros l'. unfold multicast_face. cbn [sy_with_udp sy_udp uf_multicastFaces]. destruct (decide (l' = l)) as [->|Hne].
      * rewrite lookup_insert_eq, decide_True; [done|]. rewrite Hsl. by apply list_elem_of_singleton.
      * rewrite lookup_insert_ne, decide_False; [done| |done]. rewrite Hsl. by intros [= ->]%list_elem_of_singleton.
Qed.

Lemma quiet_multicast_create e l g s p s' : createMulticastFace e l g s = Ok (Returns (p, s')) -> quiet s s'.
Proof.
  unfold createMulticastFace. destruct (uf_multicastFaces (sy_udp s) !! l).
  - intros (o&_&Hs)%rbind_Ok. destruct (bool_decide _); [|done]. by injection Hs as <- <-.
  - repeat (match goal with |- context [if ?b then _ else _] => destruct b; [done|] end). destruct e; [done|]. by intros [= <- <-].
Qed.

Lemma keeps_multicast_faces e g addresses : forall l s l' s', multicast_faces e g addresses l s = Ok (l', s') -> keeps s s'.
Proof.
  induction addresses as [|a addresses IH]; intros l s l' s' Hs; cbn [multicast_faces] in Hs; [by injection Hs as _ <-|].
  apply rbind_Ok in Hs as (r&Hr&Hs). destruct r as [[p s1]|?|?]; [|done..]. apply rbind_Ok in Hs as (s2&Ha&Hs). trans s2; [|by eapply IH]. split.
  - intros Hh. eapply created_add; [|exact Ha]. by eapply multicast_create.
  - trans s1; [by eapply quiet_multicast_create|by eapply quiet_add].
Qed.
Lemma keeps_close_all l : forall s s', close_all l s = Ok s' -> keeps s s'.
Proof.
  induction l as [|p l IH]; intros s s' Hs; cbn [close_all] in Hs; [by injection Hs as <-|]. apply rbind_Ok in Hs as (s1&Hc%keeps_close&Hs). trans s1; [done|by apply IH].
Qed.

Lemma keeps_section_udp nics e section dry s s' : processSectionUdp nics e section dry s = Ok s' -> keeps s s'.
Proof.
  assert (Hch : forall any scheme x s s', udp_channel nics any scheme x s = Ok s' -> keeps s s').
  { intros any scheme x s0 s0'. unfold udp_channel. destruct (UdpFactory_createChannel _ _ _ _) as [s1|?|?] eqn:Hc; [|done..]. apply keeps_udp_channel in Hc.
    intros (s2&Hl%keeps_udp_listen&[= <-])%rbind_Ok. trans s1; [done|]. trans s2; [done|]. apply keeps_factory. }
  unfold processSectionUdp. intros (group&_&Hs)%rbind_Ok. apply rbind_Ok in Hs as (x&_&Hs). destruct (_ && _); [done|]. destruct (_ && _); [done|].
  destruct dry; [by injection Hs as <-|]. apply rbind_Ok in Hs as (s1&H4s&Hs). apply rbind_Ok in Hs as (s2&H6s&Hs). apply rbind_Ok in Hs as ([l s3]&Hm&Hs).
  trans (insert_factory "udp" TheUdpFactory s); [apply keeps_factory|]. trans s1; [case_if H4s; [by eapply Hch|by injection H4s as <-]|].
  trans s2; [case_if H6s; [by eapply Hch|by injection H6s as <-]|]. trans s3; [|by eapply keeps_close_all].
  case_if Hm; [by eapply keeps_multicast_faces|by injection Hm as _ <-].
Qed.

(** ** Every command is answered once *)

(** Connection [i] of a channel will answer a command. *)
Definition owes s (ch : Endpoint) (i : nat) (r : nat) : Prop :=
  exists x, connections s ch !! i = Some x /\ tc_timer x = true /\ request_of (tc_callback x) = [r].

Record answers s : Prop := {
  an_once : NoDup (map fst (sy_responses s));
  an_numbers r : r ∈ map fst (sy_responses s) -> (r < sy_requests s)%nat;
  an_owed ch i r : owes s ch i r -> (r < sy_requests s)%nat /\ r ∉ map fst (sy_responses s);
  an_one ch i ch' i' r : owes s ch i r -> owes s ch' i' r -> ch = ch' /\ i = i';
  an_all r : (r < sy_requests s)%nat -> r ∈ map fst (sy_responses s) \/ exists ch i, owes s ch i r;
  an_waits ch i x : connections s ch !! i = Some x -> tc_open x = tc_timer x /\ (tc_timer x = true -> tc_outstanding x = true)
}.

Lemma answers_quiet s s' : quiet s s' -> answers s -> answers s'.
Proof.
  intros [Er Eq Ec] [B1 B2 B3 B4 B5 B6]. assert (Ho : forall ch i r, owes s' ch i r <-> owes s ch i r) by (intros; unfold owes; by rewrite Ec).
  split; rewrite ?Er, ?Eq; try done.
  - intros ch i r Hr%Ho. by eapply B3.
  - intros ch i ch' i' r Hr%Ho Hr'%Ho. by eapply B4.
  - intros r Hr. destruct (B5 r Hr) as [|(ch&i&Hi%Ho)]; [by left|right; by exists ch, i].
  - intros ch i x. rewrite Ec. apply B6.
Qed.

(** The next command: it is answered, or a connection will answer it. *)
Lemma answers_handled cb s s' : request_of cb = [sy_requests s] -> handled cb (next_request s) s' -> answers s -> answers s'.
Proof.
  intros Hcb [_ Hc] [B1 B2 B3 B4 B5 B6]. destruct Hc as [[Er Eq Ec]|[Er Eq (ch0&r0&Ech&Eo)]].
  - cbn [next_request sy_responses sy_requests] in *. rewrite Hcb in Er. assert (Hown : forall ch i r, owes s' ch i r <-> owes s ch i r) by (intros; unfold owes; by rewrite Ec).
    split; rewrite ?Er, ?Eq.
    + apply NoDup_app. split_and!; [done| |apply NoDup_singleton]. intros r Hr ->%list_elem_of_singleton. apply B2 in Hr. lia.
    + intros r [Hr| ->%list_elem_of_singleton]%elem_of_app; [apply B2 in Hr; lia|lia].
    + intros ch i r Hr%Hown. destruct (B3 _ _ _ Hr) as [Hl Hn]. split; [lia|]. intros [?| ->%list_elem_of_singleton]%elem_of_app; [done|lia].
    + intros ch i ch' i' r Hr%Hown Hr'%Hown. by eapply B4.
    + intros r Hr. destruct (decide (r = sy_requests s)) as [->|Hne]; [left; apply elem_of_app; right; by apply list_elem_of_singleton|].
      destruct (B5 r ltac:(lia)) as [|(ch&i&Hi%Hown)]; [left; apply elem_of_app; by left|right; by exists ch, i].
    + intros ch i x. rewrite Ec. apply B6.
  - cbn [next_request sy_responses sy_requests] in *. change (connections (next_request s)) with (connections s) in *. set (x0 := MkTcpConnection r0 cb true true true) in *.
    assert (Hlk : forall ch i x, connections s' ch !! i = Some x <-> connections s ch !! i = Some x \/ ch = ch0 /\ i = length (connections s ch0) /\ x = x0).
    { intros ch i x. destruct (decide (ch = ch0)) as [->|Hne]; [|rewrite Eo by done; naive_solver]. rewrite Ech, lookup_app_Some, list_lookup_singleton_Some. split.
      - intros [?|(?&?&<-)]; [by left|]. right. split_and!; [done|lia|done].
      - intros [?|(_&->&->)]; [by left|right]. split_and!; [lia|lia|done]. }
    assert (Hown : forall ch i r, owes s' ch i r <-> owes s ch i r \/ ch = ch0 /\ i = length (connections s ch0) /\ r = sy_requests s).
    { intros ch i r. unfold owes. setoid_rewrite Hlk. split.
      - intros (x&[Hx|(->&->&->)]&Ht&Hr); [left; by exists x|right]. cbn [x0 tc_callback] in Hr. rewrite Hcb in Hr. injection Hr as ->. done.
      - intros [(x&Hx&?)|(->&->&->)]; [exists x; split; [by left|done]|exists x0; split; [by right|done]]. }
    split; rewrite ?Er, ?Eq; try done.
    + intros r Hr. apply B2 in Hr. lia.
    + intros ch i r [Hr|(->&->&->)]%Hown; [destruct (B3 _ _ _ Hr); split; [lia|done]|]. split; [lia|]. intros Hr%B2. lia.
    + intros ch i ch' i' r [Hr|(->&->&->)]%Hown [Hr'|(Hc1&Hc2&Hc3)]%Hown; subst; try done; try (by eapply B4); [destruct (B3 _ _ _ Hr); lia|destruct (B3 _ _ _ Hr'); lia].
    + intros r Hr. destruct (decide (r = sy_requests s)) as [->|Hne]; [right; exists ch0, (length (connections s ch0)); apply Hown; by right|].
      destruct (B5 r ltac:(lia)) as [|(ch&i&Hi)]; [by left|right; exists ch, i; apply Hown; by left].
    + intros ch i x [Hx|(->&->&->)]%Hlk; [by apply (B6 ch i)|done].
Qed.

(** A connection ends: its command is answered if it had not been. *)
Lemma answers_settled ch0 i0 x0 x1 s s' : connections s ch0 !! i0 = Some x0 -> tc_timer x1 = false -> tc_open x1 = false ->
  (forall ch, connections s' ch = if decide (ch = ch0) then <[i0 := x1]> (connections s ch0) else connections s ch) ->
  sy_requests s' = sy_requests s -> map fst (sy_responses s') = map fst (sy_responses s) ++ (if tc_timer x0 then request_of (tc_callback x0) else []) ->
  answers s -> answers s'.
Proof.
  intros Hx0 Ht1 Ho1 Ec Eq Er [B1 B2 B3 B4 B5 B6].
  assert (Hlk : forall ch i x, connections s' ch !! i = Some x <-> (ch, i) <> (ch0, i0) /\ connections s ch !! i = Some x \/ (ch, i) = (ch0, i0) /\ x = x1).
  { intros ch i x. rewrite Ec. if_decide; [|naive_solver]. subst ch. destruct (decide (i = i0)) as [->|Hne].
    - rewrite list_lookup_insert_eq by by eapply lookup_lt_Some. naive_solver.
    - rewrite list_lookup_insert_ne by done. naive_solver. }
  assert (Hown : forall ch i r, owes s' ch i r <-> (ch, i) <> (ch0, i0) /\ owes s ch i r).
  { intros ch i r. unfold owes. setoid_rewrite Hlk. split; [|naive_solver]. intros (x&[[? ?]|[? ->]]&Ht&Hr); [naive_solver|congruence]. }
  assert (Hreq : forall r, r ∈ map fst (sy_responses s') <-> r ∈ map fst (sy_responses s) \/ owes s ch0 i0 r).
  { intros r. rewrite Er, elem_of_app. apply or_iff_compat_l. unfold owes. rewrite Hx0. destruct (tc_timer x0) eqn:Ht; [|split; [by intros ?%elem_of_nil|intros (x&[= <-]&Ht'&_); congruence]].
    destruct (tc_callback x0) as [|ps req] eqn:Hcb; cbn [request_of].
    - split; [by intros ?%elem_of_nil|]. intros (x&[= <-]&_&Hr). by rewrite Hcb in Hr.
    - rewrite list_elem_of_singleton. split; [intros ->; exists x0; by rewrite Hcb|]. intros (x&[= <-]&_&Hr). rewrite Hcb in Hr. by injection Hr as ->. }
  split; rewrite ?Eq.
  - rewrite Er. destruct (tc_timer x0) eqn:Ht; [|by rewrite app_nil_r]. destruct (tc_callback x0) as [|ps req] eqn:Hcb; [by rewrite app_nil_r|]. cbn [request_of].
    apply NoDup_app. split_and!; [done| |apply NoDup_singleton]. intros r Hr ->%list_elem_of_singleton. destruct (B3 ch0 i0 req) as [_ Hn]; [|done]. exists x0. by rewrite Hcb.
  - intros r [Hr|Hr]%Hreq; [by apply B2|by eapply B3].
  - intros ch i r [Hne Hr]%Hown. destruct (B3 _ _ _ Hr) as [? ?]. split; [done|]. intros [?|Hr']%Hreq; [done|]. destruct (B4 _ _ _ _ _ Hr Hr') as [-> ->]. done.
  - intros ch i ch' i' r [_ Hr]%Hown [_ Hr']%Hown. by eapply B4.
  - intros r Hr. destruct (B5 r Hr) as [|(ch&i&Hi)]; [left; apply Hreq; by left|]. destruct (decide ((ch, i) = (ch0, i0))) as [[= -> ->]|Hne].
    + left. apply Hreq. by right.
    + right. exists ch, i. by apply Hown.
  - intros ch i x [[_ Hx]|[_ ->]]%Hlk; [by apply (B6 ch i)|by rewrite Ht1, Ho1].
Qed.

(** ** Steps *)

(** A socket that was closed completes with [operation_aborted], and one that is
    open does not. *)
Definition completes s (ch : Endpoint) (i : nat) (a : ConnectAnswer) : Prop :=
  forall x, connections s ch !! i = Some x -> tc_open x = false <-> a = ConnectAborted.

Inductive sys_step : FaceSystem (P := P) -> FaceSystem (P := P) -> Prop :=
| SysForwarder fw s : fw_step (sy_forwarder s) fw -> fw_faces fw = fw_faces (sy_forwarder s) -> sys_step s (sy_with_forwarder fw s)
| SysService p ls o s : sy_objects s !! p = Some o -> sys_step s (set_object p (fi_with_service ls o) s)
| SysCommand now c params s s' : face_command now c params s = Ok s' -> sys_step s s'
| SysConnect ch i a s s' : completes s ch i a -> handleConnect ch i a s = Ok s' -> sys_step s s'
| SysConnectTimeout ch i s s' : handleConnectTimeout ch i s = Ok s' -> sys_step s s'
| SysAccept ch x s s' : handleAccept ch x s = Ok s' -> sys_step s s'
| SysPeer now socket ch r bytes s b s' : handleNewPeer now socket ch r bytes s = Ok (b, s') -> sys_step s s'
| SysDatagram bytes p s b s' : Face_receiveDatagram bytes p s = Ok (b, s') -> sys_step s s'
| SysDatagramError p s s' : Datagram_processErrorCode p s = Ok s' -> sys_step s s'
| SysSetState st p s s' : st <> CLOSED -> Face_setState st p s = Ok s' -> sys_step s s'
| SysClose p s s' : Face_close p s = Ok s' -> sys_step s s'
| SysClosed p s s' : Face_closed p s = Ok s' -> sys_step s s'
| SysIdle now p s s' : idle_timer_fires now p s = Ok s' -> sys_step s s'
| SysConfigTcp nics section isDryRun s s' : processSectionTcp nics section isDryRun s = Ok s' -> sys_step s s'
| SysConfigUdp nics e section isDryRun s s' : processSectionUdp nics e section isDryRun s = Ok s' -> sys_step s s'.

(** No faces, no channels *)
Definition sys_init (fw : Forwarder P) : FaceSystem := MkFaceSystem fw ∅ 1 ∅ FACEID_RESERVED_MAX [] (MkTcpFactory ∅ ∅) (MkUdpFactory ∅ ∅ ∅) ∅ 0 [].

Inductive sys_reachable : FaceSystem (P := P) -> Prop :=
| SysInit fw : fw_reachable fw -> fw_faces fw = ∅ -> sys_reachable (sys_init fw)
| SysStep s s' : sys_reachable s -> sys_step s s' -> sys_reachable s'.

Lemma connect_settles ch i a s s' : holds None s -> answers s -> completes s ch i a -> handleConnect ch i a s = Ok s' -> holds None s' /\ answers s'.
Proof.
  intros Hh Ha Hco. unfold handleConnect. intros (c&Hc%get_tcp_ok&Hs)%rbind_Ok. destruct (tc_connections c !! i) as [x|] eqn:Hx; [|by injection Hs as <-].
  assert (Hconn : connections s ch = tc_connections c) by (unfold connections; by rewrite Hc).
  destruct (tc_outstanding x) eqn:Hout; [|by injection Hs as <-]. cbn [negb] in Hs.
  set (x1 := MkTcpConnection (tc_remote x) (tc_callback x) false false false) in *. set (s1 := set_tcp ch (set_connection i x1 c) s) in *.
  assert (Hset : holds None s1) by by apply (holds_set_tcp None ch c).
  destruct (an_waits _ Ha ch i x) as [Hop Hw]; [by rewrite Hconn|].
  assert (Hans : forall s2, replies (if tc_timer x then request_of (tc_callback x) else []) s1 s2 -> answers s2).
  { intros s2 [Hr Hq Hcc]. apply (answers_settled ch i x x1 s); try done; [by rewrite Hconn|]. intros ch'. unfold s1 in Hcc. by rewrite Hcc, connections_set, Hconn. }
  specialize (Hco x ltac:(by rewrite Hconn)). rewrite Hop in Hco. destruct a as [l| |what].
  - rewrite Hop in Hs. destruct (tc_timer x) eqn:Ht; [|done]. cbn [negb] in Hs. apply tcp_create in Hs as [? ?]; [|done]. split; [done|by apply Hans].
  - injection Hs as <-. rewrite Hop, (proj2 Hco eq_refl). split; [done|]. apply Hans. rewrite (proj2 Hco eq_refl). by apply quiet_replies.
  - injection Hs as <-. split; [by apply holds_failed|]. apply Hans. destruct (tc_timer x) eqn:Ht; [apply replies_failed|]. discriminate (proj1 Hco eq_refl).
Qed.

Lemma timeout_settles ch i s s' : holds None s -> answers s -> handleConnectTimeout ch i s = Ok s' -> holds None s' /\ answers s'.
Proof.
  intros Hh Ha. unfold handleConnectTimeout. intros (c&Hc%get_tcp_ok&Hs)%rbind_Ok. destruct (tc_connections c !! i) as [x|] eqn:Hx; [|by injection Hs as <-].
  assert (Hconn : connections s ch = tc_connections c) by (unfold connections; by rewrite Hc). destruct (tc_timer x) eqn:Ht; [|by injection Hs as <-].
  cbn [negb] in Hs. injection Hs as <-. set (x1 := MkTcpConnection _ _ _ _ _). split; [apply holds_failed; by apply (holds_set_tcp None ch c)|].
  destruct (replies_failed (tc_callback x) text_timeout (set_tcp ch (set_connection i x1 c) s)) as [Hr Hq Hcc].
  apply (answers_settled ch i x x1 s); try done; [by rewrite Hconn| |by rewrite Hr, Ht]. intros ch'. by rewrite Hcc, connections_set, Hconn.
Qed.

Lemma accept_keeps ch x s s' : holds None s -> handleAccept ch x s = Ok s' -> holds None s' /\ quiet s s'.
Proof.
  intros Hh. unfold handleAccept. intros (c&Hc%get_tcp_ok&Hs)%rbind_Ok. destruct (negb _); [by injection Hs as <-|]. destruct x as [[l r]|].
  - pose proof Hs as Hs'. apply tcp_create in Hs as [? _]; [|done]. split; [done|]. clear Hc. unfold TcpChannel_createFace in Hs'. apply rbind_Ok in Hs' as (c'&Hc%get_tcp_ok&Hs).
    destruct (tc_faces c' !! r); [by eapply quiet_add|]. cbn [new_object] in Hs. apply quiet_add in Hs. etrans; [|exact Hs]. split; [done|done|].
    intros ch'. rewrite connections_set. if_decide; [subst; unfold connections; by rewrite Hc|done].
  - injection Hs as <-. split; [by apply (holds_set_tcp None ch c)|]. split; [done|done|]. intros ch'. rewrite connections_set. if_decide; [subst; unfold connections; by rewrite Hc|done].
Qed.

Lemma peer_keeps now socket ch r bytes s b s' : holds None s -> handleNewPeer now socket ch r bytes s = Ok (b, s') -> holds None s' /\ quiet s s'.
Proof.
  intros Hh. unfold handleNewPeer. intros (c&Hc%get_udp_ok&Hs)%rbind_Ok. destruct (negb _); [by injection Hs as _ <-|]. apply rbind_Ok in Hs as (x&Hx&Hs).
  destruct x as [[[isNew p] s1]|what|what]; [| |done].
  - apply udp_create in Hx as (Hcr&Hq&Hold); [|done]. apply rbind_Ok in Hs as (s2&Ha&Hs%keeps_datagram). assert (Hs2 : holds None s2 /\ quiet s s2).
    { destruct isNew; [|injection Ha as <-; split; [by apply Hold|done]]. split; [by eapply created_add|]. trans s1; [done|by eapply quiet_add]. }
    destruct Hs2 as [? ?]. split; [by apply Hs|]. trans s2; [done|apply Hs].
  - injection Hs as _ <-. split; [by apply (holds_set_udp None ch c)|done].
Qed.

(** What holds in every state *)
Lemma sys_holds s : sys_reachable s -> holds None s /\ answers s.
Proof.
  induction 1 as [fw Hfw Hf|s s' _ [Hh Ha] Hstep].
  - split.
    + assert (Hid : forall p, getId (sys_init fw) p = 0) by (intros p; unfold getId, face_at; cbn [sys_init sy_forwarder]; by rewrite Hf, lookup_empty).
      split; try done; intros; unfold tcp_face, udp_face, multicast_face, open_face in *; cbn [sys_init sy_tcp sy_udp sy_table sy_objects sy_forwarder tf_channels uf_channels uf_multicastFaces] in *; rewrite ?lookup_empty, ?Hf, ?lookup_empty in *; try done; try (by rewrite Hid in * ).
      all: match goal with Hx : exists _, _ |- _ => by destruct Hx as (?&?&_) | Hx : is_Some None |- _ => by destruct Hx end.
    + assert (Hc : forall ch, connections (sys_init fw) ch = []) by (intros ch; unfold connections; cbn [sys_init sy_tcp tf_channels]; by rewrite lookup_empty).
      split; cbn [sys_init sy_responses sy_requests map]; [constructor|by intros r ?%elem_of_nil| | |lia|].
      * intros ch i r (x&Hx&_). by rewrite Hc in Hx.
      * intros ch i ch' i' r (x&Hx&_). by rewrite Hc in Hx.
      * intros ch i x Hx. by rewrite Hc in Hx.
  - assert (Hkeep : keeps s s' -> holds None s' /\ answers s') by (intros [Hk Hq]; split; [by apply Hk|by eapply answers_quiet]).
    destruct Hstep as [fw s Hfw Hf|p ls o s Ho|now c params s s' Hs|ch i a s s' Hco Hs|ch i s s' Hs|ch x s s' Hs|now socket ch r bytes s b s' Hs|bytes p s b s' Hs|p s s' Hs|st p s s' Hst Hs|p s s' Hs|p s s' Hs|now p s s' Hs|nics section dry s s' Hs|nics e section dry s s' Hs].
    + apply Hkeep. split; [|done]. intros _. apply (holds_ext None s); try done. cbn [sy_with_forwarder sy_forwarder]. eapply ReachStep; [apply Hh|done].
    + apply Hkeep. by apply (keeps_set p o).
    + apply command_handled in Hs as (cb&Hcb&Hhd); [|done]. split; [apply Hhd|by eapply answers_handled].
    + by eapply connect_settles.
    + by eapply timeout_settles.
    + apply accept_keeps in Hs as [? ?]; [|done]. split; [done|by eapply answers_quiet].
    + apply peer_keeps in Hs as [? ?]; [|done]. split; [done|by eapply answers_quiet].
    + by eapply Hkeep, keeps_datagram.
    + by eapply Hkeep, keeps_datagram_error.
    + by eapply Hkeep, keeps_setState.
    + by eapply Hkeep, keeps_close.
    + by eapply Hkeep, keeps_closed.
    + by eapply Hkeep, keeps_idle.
    + by eapply Hkeep, keeps_section_tcp.
    + by eapply Hkeep, keeps_section_udp.
Qed.


(** ** What every state guarantees *)

Lemma getFace_table s id : holds None s -> getFace id (sy_forwarder s) = FaceTable_get id s.
Proof.
  intros Hh. unfold getFace, FaceTable_get. assert (Hid : forall p f, fw_faces (sy_forwarder s) !! p = Some f -> getId s p = f_id f) by (intros p f Hp; unfold getId, face_at; by rewrite Hp).
  destruct (Z.eqb_spec id INVALID_FACEID) as [->|Hne].
  - destruct (sy_table s !! INVALID_FACEID) as [p|] eqn:Hp; [|done]. apply (hd_table _ _ Hh) in Hp as (_&?&_). unfold INVALID_FACEID in *. lia.
  - destruct (List.find _ _) as [[p f]|] eqn:Hf; cbn [fmap option_fmap option_map fst].
    + apply List.find_some in Hf as [Hin Heq]. apply list_elem_of_In, elem_of_map_to_list in Hin. cbn [snd] in Heq. apply Z.eqb_eq in Heq. apply Hid in Hin.
      assert (Hg : getId s p = id) by congruence. rewrite <- Hg. symmetry. apply (hd_id _ _ Hh). unfold INVALID_FACEID in Hne. congruence.
    + destruct (sy_table s !! id) as [p|] eqn:Hp; [|done]. apply (hd_table _ _ Hh) in Hp as (Hg&_&_). destruct (fw_faces (sy_forwarder s) !! p) as [f|] eqn:E.
      * pose proof (List.find_none _ _ Hf (p, f)) as Hn. cbn [snd] in Hn. rewrite <- (Hid p f E), Hg, Z.eqb_refl in Hn. discriminate Hn. by apply list_elem_of_In, elem_of_map_to_list.
      * unfold getId, face_at in Hg. rewrite E in Hg. by subst id.
Qed.

(** C21. The face table is right in every state: it has exactly the open faces, each
    under its own id, which is not zero; looking a face up in it and in the faces
    of the forwarder is the same; a TCP channel knows exactly the open faces it
    created, so that there is at most one for a remote endpoint; whatever a UDP
    channel or the UDP factory knows is open; and the forwarder is in a state its
    own steps reach. *)
Theorem face_system_safe s : sys_reachable s ->
  (forall id p, sy_table s !! id = Some p <-> id <> 0 /\ getId s p = id) /\
  (forall p, open_object s p <-> exists id, sy_table s !! id = Some p) /\
  (forall id, getFace id (sy_forwarder s) = FaceTable_get id s) /\
  (forall ch r p, tcp_face s ch r = Some p <-> open_face s p (EraseTcpFace ch r)) /\
  (forall ch r p, udp_face s ch r = Some p -> open_object s p) /\
  (forall l p, multicast_face s l = Some p -> open_object s p) /\
  fw_reachable (sy_forwarder s).
Proof.
  intros [Hh _]%sys_holds. split_and!.
  - intros id p. split; [intros Hp; apply (hd_table _ _ Hh) in Hp as (<-&?&_); split; [lia|done]|]. intros [Hne <-]. by apply (hd_id _ _ Hh).
  - intros p. split; [intros (o&Ho&Hst)|intros (id&Hp)].
    + exists (getId s p). apply (hd_id _ _ Hh). by apply (hd_open _ _ Hh p o).
    + apply (hd_table _ _ Hh) in Hp as (_&_&(o&Ho&Hst&_)). by exists o.
  - intros id. by apply getFace_table.
  - intros ch r p. split; [apply Hh|apply Hh].
  - intros ch r p Hp. apply (hd_udp _ _ Hh) in Hp as (o&?&?&_). by exists o.
  - intros l p Hp. apply (hd_multicast _ _ Hh) in Hp as (o&?&?&_). by exists o.
  - apply Hh.
Qed.

(** C22. No command for the face manager is answered twice, and one without a response waits
    for one connection attempt, which no other command waits for, and whose timer, when it
    fires, answers it.  This is so after every run of the system whose steps return normally
    and in which a socket that was closed completes with [operation_aborted] and an open one
    does not.  Without these conditions it is false: a command with a port above 65535 ends
    in an exception that nothing catches, and gets no response ([port_too_large]); and an
    attempt that completes while its timeout is handled gives a second response
    ([two_responses]). *)
Theorem face_commands_answered s : sys_reachable s ->
  NoDup (map fst (sy_responses s)) /\ Forall (fun r => (r < sy_requests s)%nat) (map fst (sy_responses s)) /\
  (forall r, (r < sy_requests s)%nat -> r ∉ map fst (sy_responses s) ->
     exists ch i, owes s ch i r /\ (forall ch' i', owes s ch' i' r -> ch' = ch /\ i' = i) /\
       exists s', handleConnectTimeout ch i s = Ok s' /\ map fst (sy_responses s') = map fst (sy_responses s) ++ [r]).
Proof.
  intros [_ Ha]%sys_holds. split_and!; [apply Ha|apply Forall_forall; apply Ha|]. intros r Hr Hno. destruct (an_all _ Ha r Hr) as [|(ch&i&Ho)]; [done|].
  exists ch, i. split_and!; [done|intros ch' i' Ho'; by apply (an_one _ Ha ch' i' ch i r)|]. destruct Ho as (x&Hx&Ht&Hreq). unfold connections in Hx.
  unfold handleConnectTimeout, get_tcp. destruct (tf_channels (sy_tcp s) !! ch) as [c|]; [|done]. cbn [rbind]. rewrite Hx, Ht. cbn [negb]. eexists. split; [done|].
  destruct (replies_failed (tc_callback x) text_timeout (set_tcp ch (set_connection i (MkTcpConnection (tc_remote x) (tc_callback x) false false (tc_outstanding x)) c) s)) as [Hrep _ _].
  rewrite Hrep, Hreq. done.
Qed.

(** ** The peers of a UDP channel *)

(** A UDP channel creates a face for the endpoint of a peer whether or not it
    has one: unless it has a face for one fixed endpoint, every datagram from an
    unknown socket and every command creates another face, which takes the place
    of the one that was there; the face that was there stays open.  When it has a
    face for that fixed endpoint, that face is given for every peer. *)
Theorem udp_channel_peers now l ch r n s c e : sys_reachable s -> get_udp ch s = Ok c -> groupEndpoint = Ok e ->
  match uc_faces c !! e with
  | None =>
      exists s', UdpChannel_createFace now (SocketOpened l) ch r n s = Ok (Returns (true, sy_nextObject s, s')) /\
        udp_face s' ch r = Some (sy_nextObject s) /\ sy_objects s !! sy_nextObject s = None /\ open_object s' (sy_nextObject s) /\
        forall p, udp_face s ch r = Some p -> p <> sy_nextObject s /\ open_object s' p
  | Some p => forall b q s', UdpChannel_createFace now (SocketOpened l) ch r n s = Ok (Returns (b, q, s')) -> b = false /\ q = p /\ udp_face s' ch r = udp_face s ch r
  end.
Proof.
  intros [Hh _]%sys_holds Hc He. unfold UdpChannel_createFace. rewrite Hc, He. cbn [rbind]. destruct (uc_faces c !! e) as [p|] eqn:Hp.
  - intros b q s' (o&_&Hs)%rbind_Ok. destruct (_ && _); [|by injection Hs as <- <- <-]. destruct (Face_setPersistency now n p s) as [s1|e1] eqn:H1s; [|by destruct e1].
    injection Hs as <- <- <-. split_and!; try done. unfold Face_setPersistency in H1s. apply rbind_Ok in H1s as (o1&_&H1s). by apply rbind_Ok in H1s as (o2&_&[= <-]).
  - cbn [new_object]. eexists. split; [done|]. set (p := sy_nextObject s).
    assert (Hno : sy_objects s !! p = None) by (destruct (sy_objects s !! p) eqn:E; [pose proof (hd_objects _ _ Hh p ltac:(by rewrite E)) as Hlt; subst p; lia|done]).
    split_and!; [rewrite udp_face_set, decide_True by done; cbn [uc_faces]; by rewrite lookup_insert_eq|done| |].
    + eexists. cbn [set_udp sy_with_udp sy_with_objects sy_objects]. rewrite lookup_insert_eq. split; [done|]. unfold UnicastUdpTransport_new. by destruct (_ && _).
    + intros q Hq. apply (hd_udp _ _ Hh) in Hq as (o&Ho&Hst&_). assert (Hne : q <> p) by (intros ->; congruence). split; [done|].
      exists o. cbn [set_udp sy_with_udp sy_with_objects sy_objects]. by rewrite lookup_insert_ne.
Qed.

(** ** Destroying a face *)

(** A face whose URIs fit into a notification *)
Definition small_text (t : list Z) : Prop := wf_bytes t /\ len t < 2 ^ 59.
Definition small_face o : Prop := small_text (toString (fi_remoteUri o)) /\ small_text (toString (fi_localUri o)) /\ uint8 (fi_persistency o).

Lemma face_traits_ok s p o : small_face o -> uint64 (getId s p) -> traits_ok (collectFaceProperties s p o).
Proof.
  intros ([? _]&[? _]&?) Hid. split; cbn [collectFaceProperties ft_faceId ft_remoteUri ft_localUri ft_faceScope ft_facePersistency ft_linkType]; try done;
    unfold uint8; [by destruct (fi_scope o)|by destruct (fi_linkType o)].
Qed.

(** The bytes of the elements of a notification *)
Lemma notification_len kind i r l sc pe lt : len (wires (FaceEventNotification_elements (MkFaceEventNotification kind (MkFaceTraits i r l sc pe lt)))) <= 256 + len r + len l.
Proof.
  assert (Ht : forall t n, len (tlv_wire t (encoderIntegerBytes n)) <= 26).
  { intros t n. pose proof (len_tlv_wire_le t (encoderIntegerBytes n)). pose proof (len_integer_bytes n). lia. }
  unfold FaceEventNotification_elements. cbn [fen_kind fen_traits ft_faceId ft_remoteUri ft_localUri ft_faceScope ft_facePersistency ft_linkType app fmap list_fmap].
  rewrite !wires_cons, wires_nil, !len_app. cbn [fst snd]. change (len (@nil Z)) with 0.
  pose proof (len_tlv_wire_le NfdTlv.Uri r). pose proof (len_tlv_wire_le DatasetTlv.LocalUri l).
  repeat match goal with |- context [tlv_wire ?t (encoderIntegerBytes ?n)] => let b := fresh in pose proof (Ht t n) as b; set (tlv_wire t (encoderIntegerBytes n)) in * end. lia.
Qed.

Lemma notify_total kind p o s : sy_objects s !! p = Some o -> small_face o -> uint64 (getId s p) -> uint32 kind ->
  exists b, notify kind p s = Ok (post b s) /\ wire b = Ok (item_bytes (MkFaceEventNotification kind (collectFaceProperties s p o))).
Proof.
  intros Ho Hs Hid Hk. unfold notify, get_object. rewrite Ho. cbn [rbind]. set (x := MkFaceEventNotification _ _).
  destruct (wireEncode_ok (wired_new x)) as (b&->&Hb); [|done|].
  - split_and!; [done|by apply face_traits_ok|]. destruct Hs as ([_ H1s]&[_ H2s]&_). pose proof (notification_len kind (getId s p) (toString (fi_remoteUri o)) (toString (fi_localUri o)) (scope_value (fi_scope o)) (fi_persistency o) (linkType_value (fi_linkType o))) as Hl.
    eapply Z.le_lt_trans; [exact Hl|]. width_lia.
  - cbn [rbind]. exists b. split; [done|]. apply (built_wire _ _ _ Hb).
Qed.

Lemma run_slots_total p o : small_face o -> forall slots s, sy_objects s !! p = Some o -> uint64 (getId s p) -> NoDup slots ->
  exists s', run_slots p slots s = Ok s' /\
    sy_forwarder s' = (if decide (RemoveFromTable ∈ slots) then removeFace p (sy_forwarder s) else sy_forwarder s) /\
    sy_table s' = (if decide (RemoveFromTable ∈ slots) then base.delete (getId s p) (sy_table s) else sy_table s) /\
    exists l, sy_events s' = sy_events s ++ l /\ map wire l =
      (if decide (RemoveFromTable ∈ slots) then [Ok (item_bytes (MkFaceEventNotification FACE_EVENT_DESTROYED (collectFaceProperties s p o)))] else []).
Proof.
  intros Hs. induction slots as [|slot slots IH]; intros s Ho Hid Hnd; cbn [run_slots].
  { exists s. split; [done|]. rewrite !decide_False by apply not_elem_of_nil. split_and!; [done|done|]. exists []. by rewrite app_nil_r. }
  apply NoDup_cons in Hnd as [Hni Hnd]. destruct (decide (slot = RemoveFromTable)) as [->|Hne].
  - cbn [run_slot]. unfold FaceTable_remove, afterFaceRemoved. destruct (notify_total FACE_EVENT_DESTROYED p o s Ho Hs Hid ltac:(by vm_compute)) as (b&->&Hb). cbn [rbind].
    set (s1 := sy_with_forwarder _ _). destruct (IH s1) as (s'&->&Hf&Ht&l&He&Hl); [done| |done|].
    { change (getId s1 p) with (getId (sy_with_forwarder (removeFace p (sy_forwarder s)) s) p). rewrite (getId_remove p p s _ eq_refl), decide_True by done. by vm_compute. }
    cbn [rbind]. exists s'. split; [done|]. rewrite decide_False in Hf by done. rewrite decide_False in Ht by done. rewrite decide_False in Hl by done. rewrite !decide_True by left. split; [exact Hf|]. split; [exact Ht|]. destruct l; [|done]. exists [b]. split; [|by cbn; rewrite Hb].
    rewrite He. by rewrite app_nil_r.
  - assert (Hone : exists s1, run_slot p slot s = Ok s1 /\ sy_objects s1 = sy_objects s /\ sy_forwarder s1 = sy_forwarder s /\ sy_events s1 = sy_events s /\ sy_table s1 = sy_table s).
    { destruct slot; cbn [run_slot]; try (eexists; split; [reflexivity|]; by split_and!). done. }
    destruct Hone as (s1&->&Eo&Ef&Ee&Et). cbn [rbind]. assert (Eid : getId s1 p = getId s p) by (unfold getId; by rewrite Ef).
    destruct (IH s1) as (s'&->&Hf&Ht&l&He&Hl); [by rewrite Eo|by rewrite Eid|done|]. exists s'. split; [done|]. rewrite Ef in Hf. rewrite Et, Eid in Ht. rewrite Ee in He.
    assert (Hprop : collectFaceProperties s1 p o = collectFaceProperties s p o) by (unfold collectFaceProperties; by rewrite Eid). rewrite Hprop in Hl.
    assert (Hiff : RemoveFromTable ∈ slot :: slots <-> RemoveFromTable ∈ slots) by (rewrite elem_of_cons; split; [intros [Heq|]; [by subst|done]|by right]).
    split; [rewrite Hf; apply decide_ext; tauto|]. split; [rewrite Ht; apply decide_ext; tauto|]. exists l. split; [done|]. rewrite Hl. apply decide_ext. tauto.
Qed.

Lemma close_open p o s : sy_objects s !! p = Some o -> is_open (fi_state o) = true -> fi_posted o = 0%nat ->
  exists s', Face_close p s = Ok s' /\ sy_objects s' !! p = Some (fi_with_posted 1 (fi_with_state CLOSING o)) /\
    sy_forwarder s' = sy_forwarder s /\ sy_table s' = sy_table s /\ sy_events s' = sy_events s /\ sy_responses s' = sy_responses s.
Proof.
  intros Ho Hop Hp. unfold Face_close, get_object. rewrite Ho. cbn [rbind]. rewrite Hop. cbn [negb].
  assert (Hcl : Face_setState CLOSING p s = Ok (set_object p (fi_with_state CLOSING o) s)).
  { unfold Face_setState, get_object. rewrite Ho. cbn [rbind]. unfold is_open in Hop. by destruct (fi_state o). }
  rewrite Hcl. cbn [rbind]. unfold Face_doClose, get_object. cbn [set_object sy_with_objects sy_objects]. rewrite lookup_insert_eq. cbn [rbind].
  eexists. split; [done|]. cbn [set_object sy_with_objects sy_objects sy_forwarder sy_table sy_events sy_responses fi_with_state fi_posted].
  by rewrite lookup_insert_eq, Hp.
Qed.

(** C23. A face that a command destroys goes away: the command is answered with
    success; when the transport has closed, the id is free, no FIB entry has the
    face as a next hop (an entry that is left without next hops is gone), the
    other faces are in the table as before, and a notification with the
    properties of the face has been posted. *)
Theorem face_destroyed s id p o params request : sys_reachable s -> FaceTable_get id s = Some p -> sy_objects s !! p = Some o ->
  is_open (fi_state o) = true -> fi_posted o = 0%nat -> small_face o -> cp_small params -> cp_faceId params = Some id ->
  exists s1 r s2 b, destroyFace params request s = Ok s1 /\ sy_responses s1 = sy_responses s ++ [(request, r)] /\ cr_code r = 200 /\
    Face_closed p s1 = Ok s2 /\ FaceTable_get id s2 = None /\ (forall id', id' <> id -> FaceTable_get id' s2 = FaceTable_get id' s) /\
    (forall n, fib_at n (fw_tables (sy_forwarder s2)) = fib_at n (fw_tables (sy_forwarder s)) ≫= without p) /\
    sy_events s2 = sy_events s ++ [b] /\ wire b = Ok (item_bytes (MkFaceEventNotification FACE_EVENT_DESTROYED (collectFaceProperties s p o))).
Proof.
  intros [Hh _]%sys_holds Hid Ho Hop Hpost Hs Hsmall Hpid. destruct (hd_table _ _ Hh id p Hid) as (Hgid&Hlt&(o0&Ho0&_&Hin)). rewrite Ho in Ho0. injection Ho0 as <-.
  pose proof (hd_last _ _ Hh) as Hlast. set (o1 := fi_with_posted 1 (fi_with_state CLOSING o)). destruct (respond_ok 200 text_OK params Hsmall) as (r&Hr&Hcode).
  assert (Hd : exists s0, Face_close p s = Ok s0 /\ sy_objects s0 !! p = Some o1 /\ sy_forwarder s0 = sy_forwarder s /\ sy_table s0 = sy_table s /\
    sy_events s0 = sy_events s /\ sy_responses s0 = sy_responses s) by by apply close_open.
  destruct Hd as (s0&Hcl&Eo&Ef&Et&Ee&Er). unfold destroyFace. rewrite Hpid. cbn [cp_get rbind]. rewrite Hid, Hcl. cbn [rbind]. rewrite Hr. cbn [rbind].
  set (s1 := answer request r s0). set (s1c := set_object p (fi_with_state CLOSED (fi_with_posted 0 o1)) (set_object p (fi_with_posted 0 o1) s1)).
  assert (Hgid1 : getId s1c p = id) by (unfold getId; cbn; by rewrite Ef).
  destruct (run_slots_total p (fi_with_state CLOSED (fi_with_posted 0 o1)) Hs (fi_slots o) s1c) as (s2&Hrun&Hf2&Ht2&l&He2&Hl).
  - cbn. by rewrite lookup_insert_eq.
  - rewrite Hgid1. unfold uint64. lia.
  - by apply (hd_slots _ _ Hh p).
  - rewrite decide_True in Hf2 by done. rewrite decide_True in Ht2 by done. rewrite decide_True in Hl by done. destruct l as [|b [|]]; try done. injection Hl as Hb.
    assert (Htab : sy_table s2 = base.delete id (sy_table s)) by (rewrite Ht2, Hgid1; cbn; by rewrite Et).
    exists s1, r, s2, b. split_and!; [done|cbn; by rewrite Er|done| |by unfold FaceTable_get; rewrite Htab, lookup_delete_eq|
      intros id' Hne; unfold FaceTable_get; by rewrite Htab, lookup_delete_ne| |by rewrite He2; cbn; rewrite Ee|].
    + unfold Face_closed, get_object. change (sy_objects s1) with (sy_objects s0). rewrite Eo. cbn [rbind]. unfold o1 at 1. cbn [fi_with_posted fi_posted].
      unfold Face_setState, get_object. cbn [set_object sy_with_objects sy_objects]. rewrite lookup_insert_eq. cbn [rbind]. exact Hrun.
    + intros n. rewrite Hf2. change (sy_forwarder s1c) with (sy_forwarder s0). rewrite Ef. cbn [removeFace with_tables with_faces fw_tables].
      apply (remove_face_spec p (fw_tables (sy_forwarder s)) (pi_tree _ (fi_pit _ (reachable_inv _ (hd_forwarder _ _ Hh))))).
    + rewrite Hb. do 2 f_equal. unfold collectFaceProperties, o1. cbn [fi_with_state fi_with_posted fi_remoteUri fi_localUri fi_scope fi_persistency fi_linkType].
      rewrite Hgid1. by rewrite Hgid.
Qed.
End Machine.

(** A forwarder with a TCP channel and a UDP channel; one TCP face was accepted
    and one UDP peer sent a packet. *)
Module FaceSamples.
#[local] Existing Instance sample_sha256.
#[local] Existing Instance Samples.SampleHash.
#[local] Existing Instance DnlSamples.SeedHash.
#[local] Existing Instance InsertionSort.Sort.
#[local] Existing Instance ForwarderSamples.SampleRng.
Import StrategySamples.

(** Addresses that are their own text *)
#[local] Instance sample_address : IpAddress := {
  address := bool * list Z;
  v4_from_string s := Some (false, s);
  v6_from_string s := Some (true, s);
  to_string := snd;
  is_v6 := fst;
  is_multicast _ := false
}.
#[local] Instance sample_addresses : IpAddresses := {
  address_eq_dec := _ : EqDecision (bool * list Z);
  address_countable := _ : Countable (bool * list Z);
  address_from_string s := inr (false, s);
  v4_any := (false, str "0.0.0.0");
  v6_any := (true, str "::");
  v4_broadcast := (false, str "255.255.255.255");
  is_loopback _ := false;
  address_le a b := string_le a.2 b.2
}.
#[local] Instance sample_scanf : Scanf := { scan_2hx _ := None }.
#[local] Instance sample_numbers : ConfigNumbers := {
  cast_uint16 s := match number_of s with Some n => if n <? 65536 then Some n else None | None => None end;
  cast_size := number_of
}.

Definition System : Type := FaceSystem (P := PriorityFifoPolicy).
Definition go (r : result System) : System := match r with Ok s => s | Err _ => sys_init (fw_init 2 st1 10 []) end.
Definition v4 (a : string) (port : Z) : Endpoint := MkEndpoint ((false, str a) : address) port.
Definition here : Endpoint := v4 "0.0.0.0" 6363.

Definition start : System := sys_init (fw_init 2 st1 10 []).
Definition with_tcp : System := go (processSectionTcp [] [(str "enable_v6", str "no")] false start).
Definition with_udp : System := go (processSectionUdp [] (fun _ => None) [(str "enable_v6", str "no"); (str "mcast", str "no")] false with_tcp).
(** A TCP connection is accepted. *)
Definition accepted : System := go (handleAccept here (Some (v4 "198.51.100.1" 6363, v4 "198.51.100.2" 50000)) with_udp).
(** A command to connect to a host *)
Definition connect_to : ControlParameters := setUri (str "tcp4://203.0.113.5:6363") ControlParameters_new.
Definition connecting : System := go (face_command 0 (CreateFace (SocketFailed [])) connect_to accepted).
(** The first datagram of a peer, and another one before the socket of its face
    takes over *)
Definition peer : Endpoint := v4 "198.51.100.7" 6363.
Definition datagram s : result (option Block * System) := handleNewPeer 0 (SocketOpened here) here peer [5; 0] s.
Definition peered : System := go (let! (_, s) := datagram connecting in Ok s).
Definition peered_twice : System := go (let! (_, s) := datagram peered in Ok s).

Definition is_Ok {A} (r : result A) : bool := match r with Ok _ => true | Err _ => false end.
Lemma go_Ok (r : result System) : is_Ok r = true -> r = Ok (go r).
Proof. by destruct r. Qed.
Lemma with_tcp_eq : processSectionTcp [] [(str "enable_v6", str "no")] false start = Ok with_tcp.
Proof. apply go_Ok. by vm_compute. Qed.
Lemma with_udp_eq : processSectionUdp [] (fun _ => None) [(str "enable_v6", str "no"); (str "mcast", str "no")] false with_tcp = Ok with_udp.
Proof. apply go_Ok. by vm_compute. Qed.
Lemma accepted_eq : handleAccept here (Some (v4 "198.51.100.1" 6363, v4 "198.51.100.2" 50000)) with_udp = Ok accepted.
Proof. apply go_Ok. by vm_compute. Qed.
Lemma connecting_eq : face_command 0 (CreateFace (SocketFailed [])) connect_to accepted = Ok connecting.
Proof. apply go_Ok. by vm_compute. Qed.
Lemma go_pair {B} (r : result (B * System)) : is_Ok r = true -> exists b, r = Ok (b, go (let! (_, s) := r in Ok s)).
Proof. destruct r as [[b s]|]; [by exists b|done]. Qed.
Lemma peered_eq : exists b, datagram connecting = Ok (b, peered).
Proof. assert (Hok : is_Ok (datagram connecting) = true) by by vm_compute. exact (go_pair (datagram connecting) Hok). Qed.

Lemma reach_accepted : sys_reachable accepted.
Proof.
  eapply SysStep; [|eapply SysAccept, accepted_eq]. eapply SysStep; [|eapply SysConfigUdp, with_udp_eq].
  eapply SysStep; [|eapply SysConfigTcp, with_tcp_eq]. apply SysInit; [|done]. apply ReachInit. lia.
Qed.
Lemma reach_connecting : sys_reachable connecting.
Proof. eapply SysStep; [apply reach_accepted|eapply SysCommand, connecting_eq]. Qed.
Lemma reach_peered : sys_reachable peered.
Proof. destruct peered_eq as [b Hb]. eapply SysStep; [apply reach_connecting|eapply SysPeer, Hb]. Qed.

(** What the table and the channels are then *)
Example accepted_table : map_to_list (sy_table accepted) = [(256, 1)] /\ map (fun o => (toString (fi_remoteUri o), fi_state o)) (map snd (map_to_list (sy_objects accepted))) = [(str "tcp4://198.51.100.2:50000", UP)].
Proof. by vm_compute. Qed.
Example connecting_waits : map (fun x => (tc_open x, tc_timer x, tc_outstanding x)) (connections connecting here) = [(true, true, true)] /\ sy_responses connecting = [].
Proof. by vm_compute. Qed.

(** The second datagram of a peer makes a second face for it. *)
Example peer_two_faces : map fst (in_order Z.leb (sy_table peered_twice)) = [256; 257; 258] /\
  map (fun o => (toString (fi_remoteUri o), fi_state o)) (omap (fun p => sy_objects peered_twice !! p) [1; 2; 3]) =
    [(str "tcp4://198.51.100.2:50000", UP); (str "udp4://198.51.100.7:6363", UP); (str "udp4://198.51.100.7:6363", UP)] /\
  udp_face peered_twice here peer = Some 3.
Proof. by vm_compute. Qed.

(** A command with a port that is too large ends with an exception that the face
    manager does not catch. *)
Example port_too_large : face_command 0 (CreateFace (SocketFailed [])) (setUri (str "tcp4://203.0.113.5:70000") ControlParameters_new) accepted = Err BadCast.
Proof. by vm_compute. Qed.

(** When the connection ends with an error that was already queued when the timer
    fired, the command has two responses. *)
Example two_responses : map (fun r => (r.1, cr_code r.2))
  (sy_responses (go (handleConnect here 0 (ConnectError (str "Connection refused")) (go (handleConnectTimeout here 0 connecting))))) = [(0%nat, 408); (0%nat, 408)].
Proof. by vm_compute. Qed.

Definition accepted_face : FaceObject := default (TcpTransport_new 0 here here) (sy_objects accepted !! 1).
Lemma accepted_face_eq : sy_objects accepted !! 1 = Some accepted_face.
Proof. unfold accepted_face. assert (H : is_Some (sy_objects accepted !! 1)) by (vm_compute; by eexists). by destruct H as [o ->]. Qed.

Lemma face_system_safe_witness : FaceTable_get 256 accepted = Some 1 /\ open_object accepted 1 /\ getFace 256 (sy_forwarder accepted) = Some 1.
Proof.
  destruct (face_system_safe accepted reach_accepted) as (_&Hopen&Hget&_). assert (H256 : FaceTable_get 256 accepted = Some 1) by (vm_compute; reflexivity).
  split; [exact H256|]. split; [apply Hopen; exists 256; exact H256|]. rewrite Hget. exact H256.
Defined.

Lemma face_commands_answered_witness : exists ch i s', handleConnectTimeout ch i connecting = Ok s' /\ map fst (sy_responses s') = [0%nat].
Proof.
  destruct (face_commands_answered connecting reach_connecting) as (_&_&Hw).
  destruct (Hw 0%nat) as (ch&i&_&_&s'&Hs&Hr); [vm_compute; lia|assert (Hn : sy_responses connecting = []) by (vm_compute; reflexivity); rewrite Hn; apply not_elem_of_nil|].
  exists ch, i, s'. split; [exact Hs|]. rewrite Hr. vm_compute. reflexivity.
Defined.

Definition udp_there : UdpChannel := match get_udp here peered with Ok c => c | Err _ => MkUdpChannel NotOpen ∅ 0 end.
Lemma udp_there_eq : get_udp here peered = Ok udp_there.
Proof. unfold udp_there. assert (Hok : is_Ok (get_udp here peered) = true) by by vm_compute. by destruct (get_udp here peered). Qed.

Lemma udp_channel_peers_witness : exists s', UdpChannel_createFace 0 (SocketOpened here) here peer PERSISTENCY_ON_DEMAND peered = Ok (Returns (true, 3, s')) /\ udp_face s' here peer = Some 3 /\ open_object s' 2.
Proof.
  pose proof (udp_channel_peers 0 here here peer PERSISTENCY_ON_DEMAND peered udp_there (v4 "192.168.49.255" 6363) reach_peered udp_there_eq eq_refl) as Hp.
  assert (Hno : uc_faces udp_there !! v4 "192.168.49.255" 6363 = None) by (vm_compute; reflexivity). rewrite Hno in Hp. destruct Hp as (s'&Hs&Hf&_&_&Ho).
  assert (Hnext : sy_nextObject peered = 3) by (vm_compute; reflexivity). rewrite Hnext in Hs, Hf.
  exists s'. split; [exact Hs|]. split; [exact Hf|]. apply (Ho 2). vm_compute. reflexivity.
Defined.

Definition destroy_parameters : ControlParameters := setFaceId 256 ControlParameters_new.
Lemma face_destroyed_witness : exists s1 s2, destroyFace destroy_parameters 7 accepted = Ok s1 /\ Face_closed 1 s1 = Ok s2 /\ FaceTable_get 256 s2 = None.
Proof.
  destruct (face_destroyed accepted 256 1 accepted_face destroy_parameters 7 reach_accepted) as (s1&r&s2&b&Hd&_&_&Hc&Hn&_);
    [vm_compute; reflexivity|exact accepted_face_eq|vm_compute; reflexivity|vm_compute; reflexivity| | |vm_compute; reflexivity|].
  - split; [|split]; [split; [apply (bool_decide_unpack _); vm_compute; exact I|vm_compute; reflexivity]..|unfold uint8; vm_compute; split; [discriminate|reflexivity]].
  - split; vm_compute; try exact I; split; try discriminate; reflexivity.
  - exists s1, s2. split; [exact Hd|]. split; [exact Hc|exact Hn].
Defined.
End FaceSamples.
