(* ===== verification/RibManager.v ===== *)
(** * The RIB manager: [NFD/rib/rib-manager.cpp]

    Applications register prefixes with command Interests under
    [/localhost/nfd/rib] (or [/localhop/nfd/rib], when it is enabled).  The manager
    reads the command, asks the validator whether its signature is accepted,
    answers, and submits an update to the RIB, whose queue and FIB updates are in
    [Rib] and [FibUpdater].  When a face is destroyed, or found missing in the
    list of faces, its routes are removed.  The verdict of the validator and the
    list of active faces are arguments; Data packets that are sent are the
    responses with the names they answer. *)

From S2P Require Import Prelude StdMap Tlv Block Encoder Elements NameComponent Name KeyLocator Exclude Packet CsEntry FibEntry PitEntry.
From S2P Require Import LinkService ControlParameters Management RibEntry Rib RibTree RibProps RibQueue.

(** [COMMAND_PREFIX], [REMOTE_COMMAND_PREFIX] and [LIST_COMMAND_PREFIX] *)
Definition NFD_PREFIX : Name := [generic [108; 111; 99; 97; 108; 104; 111; 115; 116]; generic [110; 102; 100]]. (* /localhost/nfd *)
Definition COMMAND_PREFIX : Name := NFD_PREFIX ++ [generic [114; 105; 98]]. (* /localhost/nfd/rib *)
Definition verb_list : Component := generic [108; 105; 115; 116]. (* list *)
Definition LIST_COMMAND_PREFIX : Name := COMMAND_PREFIX ++ [verb_list].

Definition text_malformed : list Z := [77; 97; 108; 102; 111; 114; 109; 101; 100; 32; 99; 111; 109; 109; 97; 110; 100]. (* Malformed command *)
Definition text_unsupportedCommand : list Z := [85; 110; 115; 117; 112; 112; 111; 114; 116; 101; 100; 32; 99; 111; 109; 109; 97; 110; 100]. (* Unsupported command *)
Definition text_noIncomingFaceId : list Z := [114; 101; 113; 117; 101; 115; 116; 101; 100; 32; 115; 101; 108; 102; 45; 114; 101; 103; 105; 115; 116; 114; 97; 116; 105; 111; 110; 44; 32; 98; 117; 116; 32; 73; 110; 99; 111; 109; 105; 110; 103; 70; 97; 99; 101; 73; 100; 32; 105; 115; 32; 117; 110; 97; 118; 97; 105; 108; 97; 98; 108; 101]. (* requested self-registration, but IncomingFaceId is unavailable *)

(** What is scheduled besides the fetching of the active faces *)
Inductive ScheduledEvent :=
| RouteExpiration (prefix : Name) (route : Route)
| FaceDestroyed (faceId : Z).

(** [rm_scheduled] is what was scheduled, with its identifier and time, and
    [rm_activeFaceFetch] the time of [m_activeFaceFetchEvent]; [rm_published]
    counts the publications of the list of routes. *)
Record RibManager := MkRibManager {
  rm_rib : Rib;
  rm_registeredFaces : gset Z;
  rm_scheduled : list (Z * Z * ScheduledEvent);
  rm_nextEvent : Z;
  rm_activeFaceFetch : option Z;
  rm_sent : list (Name * ControlResponse);
  rm_published : Z
}.

Definition with_rib (r : Rib) (m : RibManager) : RibManager :=
  MkRibManager r (rm_registeredFaces m) (rm_scheduled m) (rm_nextEvent m) (rm_activeFaceFetch m) (rm_sent m) (rm_published m).
Definition with_faces (s : gset Z) (m : RibManager) : RibManager :=
  MkRibManager (rm_rib m) s (rm_scheduled m) (rm_nextEvent m) (rm_activeFaceFetch m) (rm_sent m) (rm_published m).

(** [scheduler::schedule]: the identifier of the event *)
Definition schedule (time : Z) (event : ScheduledEvent) (m : RibManager) : Z * RibManager :=
  (rm_nextEvent m, MkRibManager (rm_rib m) (rm_registeredFaces m) (rm_scheduled m ++ [(rm_nextEvent m, time, event)]) (rm_nextEvent m + 1)
                     (rm_activeFaceFetch m) (rm_sent m) (rm_published m)).

Definition scheduleActiveFaceFetch (now timeToWait : Z) (m : RibManager) : RibManager :=
  MkRibManager (rm_rib m) (rm_registeredFaces m) (rm_scheduled m) (rm_nextEvent m) (Some (now + timeToWait)) (rm_sent m) (rm_published m).

Definition seconds (n : Z) : Z := milliseconds (1000 * n).
Definition ACTIVE_FACE_FETCH_INTERVAL : Z := seconds 300.

Definition sendResponse (name : Name) (response : ControlResponse) (m : RibManager) : RibManager :=
  MkRibManager (rm_rib m) (rm_registeredFaces m) (rm_scheduled m) (rm_nextEvent m) (rm_activeFaceFetch m) (rm_sent m ++ [(name, response)]) (rm_published m).

(** ** Commands *)

(** [extractParameters]: false when a [tlv::Error] is thrown *)
Definition extractParameters (parameterComponent : Component) : result (option ControlParameters) :=
  match parse_parameters parameterComponent with
  | Ok parameters => Ok (Some parameters)
  | Err e => if is_tlv_error e then Ok None else Err e
  end.

(** [validateParameters]: false when an [ArgumentError] is thrown *)
Definition validateParameters (command : ControlCommand) (parameters : ControlParameters) : result (option ControlParameters) :=
  match validateRequest command parameters with
  | Ok _ => Ok (Some (applyDefaultsToRequest command parameters))
  | Err InvalidArgument => Ok None
  | Err e => Err e
  end.

(** The callbacks of the manager, by number *)
Definition onRibUpdateSuccess_callback : Z := 1.
Definition onRibUpdateFailure_callback : Z := 2.

Definition MILLISECONDS_MAX : Z := 2 ^ 63 - 1.

(** [isSelfRegistration], and the parameters with the face; [None] when the tag is
    not there *)
Definition selfRegistration (incomingFaceIdTag : option Z) (parameters : ControlParameters) : option ControlParameters :=
  let isSelfRegistration := match cp_faceId parameters with None => true | Some f => f =? 0 end in
  if isSelfRegistration then (fun id => setFaceId id parameters) <$> incomingFaceIdTag else Some parameters.

(** The expiration of the route of [registerEntry]; the scheduled event has the
    route without its event. *)
Definition expire_route (now : Z) (prefix : Name) (expirationPeriod : option Z) (route : Route) (m : RibManager) : Route * RibManager :=
  match expirationPeriod with
  | Some period =>
      if negb (period =? MILLISECONDS_MAX) then
        let expires := to_s64 (now + milliseconds period) in
        let route := MkRoute (r_faceId route) (r_origin route) (r_flags route) (r_cost route) expires None in
        let '(eventId, m) := schedule expires (RouteExpiration prefix route) m in
        (MkRoute (r_faceId route) (r_origin route) (r_flags route) (r_cost route) expires (Some eventId), m)
      else (MkRoute (r_faceId route) (r_origin route) (r_flags route) (r_cost route) TIME_MAX None, m)
  | None => (MkRoute (r_faceId route) (r_origin route) (r_flags route) (r_cost route) TIME_MAX None, m)
  end.

Definition registerEntry (now : Z) (incomingFaceIdTag : option Z) (request : Name) (parameters : ControlParameters) (m : RibManager) : result RibManager :=
  let! validated := validateParameters RibRegisterCommand parameters in
  match validated with
  | None => Ok (sendResponse request (ControlResponse_new 400 text_malformed) m)
  | Some parameters =>
      match selfRegistration incomingFaceIdTag parameters with
      | None => Ok (sendResponse request (ControlResponse_new 503 text_noIncomingFaceId) m)
      | Some parameters =>
          let! response := respond 200 text_Success parameters in
          let m := sendResponse request response m in
          let! faceId := cp_get (cp_faceId parameters) in
          let! origin := cp_get (cp_origin parameters) in
          let! cost := cp_get (cp_cost parameters) in
          let! flags := cp_get (cp_flags parameters) in
          let! prefix := cp_get (cp_name parameters) in
          let '(route, m) := expire_route now prefix (cp_expirationPeriod parameters) (MkRoute faceId origin flags cost 0 None) m in
          let! r := beginApplyUpdate (MkRibUpdate REGISTER prefix route) (Some onRibUpdateSuccess_callback) (Some onRibUpdateFailure_callback) (rm_rib m) in
          Ok (with_faces ({[faceId]} ∪ rm_registeredFaces m) (with_rib r m))
      end
  end.

(** The route of [unregisterEntry] has the default cost, flags and expiration. *)
Definition Route_new (faceId origin : Z) : Route := MkRoute faceId origin 0 0 TIME_MIN None.

Definition unregisterEntry (incomingFaceIdTag : option Z) (request : Name) (params : ControlParameters) (m : RibManager) : result RibManager :=
  let! n := cp_get (cp_name params) in
  let parameters := ControlParameters.setName n ControlParameters_new in
  let parameters := match cp_faceId params with Some f => setFaceId f parameters | None => parameters end in
  let parameters := match cp_origin params with Some o => setOrigin o parameters | None => parameters end in
  let! validated := validateParameters RibUnregisterCommand parameters in
  match validated with
  | None => Ok (sendResponse request (ControlResponse_new 400 text_malformed) m)
  | Some parameters =>
      match selfRegistration incomingFaceIdTag parameters with
      | None => Ok (sendResponse request (ControlResponse_new 503 text_noIncomingFaceId) m)
      | Some parameters =>
          let! response := respond 200 text_Success parameters in
          let m := sendResponse request response m in
          let! faceId := cp_get (cp_faceId parameters) in
          let! origin := cp_get (cp_origin parameters) in
          let! prefix := cp_get (cp_name parameters) in
          let! r := beginApplyUpdate (MkRibUpdate UNREGISTER prefix (Route_new faceId origin)) (Some onRibUpdateSuccess_callback)
                      (Some onRibUpdateFailure_callback) (rm_rib m) in
          Ok (with_rib r m)
      end
  end.

(** The dispatch table of the signed commands *)
Definition m_signedVerbDispatch (verb : Component) : option ControlCommand :=
  if NameComponent.compare verb (m_verb RibRegisterCommand) =? 0 then Some RibRegisterCommand
  else if NameComponent.compare verb (m_verb RibUnregisterCommand) =? 0 then Some RibUnregisterCommand else None.

Definition onCommandValidated (now : Z) (incomingFaceIdTag : option Z) (command : Name) (m : RibManager) : result RibManager :=
  let! verb := Name_get command (length COMMAND_PREFIX) in
  let! parameterComponent := Name_get command (length COMMAND_PREFIX + 1) in
  match m_signedVerbDispatch verb with
  | Some verbProcessor =>
      let! extracted := extractParameters parameterComponent in
      match extracted with
      | None => Ok (sendResponse command (ControlResponse_new 400 text_malformed) m)
      | Some parameters =>
          match verbProcessor with
          | RibRegisterCommand => registerEntry now incomingFaceIdTag command parameters m
          | _ => unregisterEntry incomingFaceIdTag command parameters m
          end
      end
  | None => Ok (sendResponse command (ControlResponse_new 501 text_unsupportedCommand) m)
  end.

Definition onCommandValidationFailed (command : Name) (failureInfo : list Z) (m : RibManager) : RibManager :=
  sendResponse command (ControlResponse_new 403 failureInfo) m.

Definition listEntries (command : Name) (m : RibManager) : RibManager :=
  if (len command <? len LIST_COMMAND_PREFIX) || negb (isPrefixOf LIST_COMMAND_PREFIX command)
  then sendResponse command (ControlResponse_new 400 text_malformed) m
  else MkRibManager (rm_rib m) (rm_registeredFaces m) (rm_scheduled m) (rm_nextEvent m) (rm_activeFaceFetch m) (rm_sent m) (rm_published m + 1).

(** The verdict of a validator: [None] is acceptance, otherwise the reason. *)
Definition onLocalhopRequest (verdict : option (list Z)) (now : Z) (incomingFaceIdTag : option Z) (command : Name) (m : RibManager) : result RibManager :=
  match verdict with
  | None => onCommandValidated now incomingFaceIdTag command m
  | Some failureInfo => Ok (onCommandValidationFailed command failureInfo m)
  end.

Definition onLocalhostRequest (verdict : option (list Z)) (now : Z) (incomingFaceIdTag : option Z) (command : Name) (m : RibManager) : result RibManager :=
  let! verb := Name_get command (length COMMAND_PREFIX) in
  if NameComponent.compare verb verb_list =? 0 then Ok (listEntries command m)
  else onLocalhopRequest verdict now incomingFaceIdTag command m.

(** ** Answers of the RIB, and faces *)

(** [onRibUpdateFailure] cleans up; it is called when the FIB updater reports a
    failure of an update that the manager submitted. *)
Definition onRibUpdateFailure (now : Z) (m : RibManager) : RibManager := scheduleActiveFaceFetch now (seconds 1) m.

Definition fibUpdateFailed (now code : Z) (onFailure : option Z) (m : RibManager) : result RibManager :=
  let! r := onFibUpdateFailure onFailure code (rm_rib m) in
  let m := with_rib r m in
  Ok (match onFailure with Some _ => onRibUpdateFailure now m | None => m end).

(** [onNrdCommandPrefixAddNextHopSuccess]: the prefix of the manager itself *)
Definition onNrdCommandPrefixAddNextHopSuccess (prefix : Name) (result : ControlParameters) (m : RibManager) : Prelude.result RibManager :=
  let! faceId := cp_get (cp_faceId result) in
  let route := MkRoute faceId ROUTE_ORIGIN_APP ControlParameters.ROUTE_FLAG_CHILD_INHERIT 0 TIME_MAX None in
  let! r := Rib_insert prefix route (rm_rib m) in
  Ok (with_faces ({[faceId]} ∪ rm_registeredFaces m) (with_rib r m)).

(** [onNotification] of a destroyed face *)
Definition onNotification (now faceId : Z) (isDestroyed : bool) (m : RibManager) : RibManager :=
  if isDestroyed then (schedule now (FaceDestroyed faceId) m).2 else m.

Definition onFaceDestroyedEvent (faceId : Z) (m : RibManager) : result RibManager :=
  let! r := beginRemoveFace faceId (rm_rib m) in
  Ok (with_faces (rm_registeredFaces m ∖ {[faceId]}) (with_rib r m)).

(** The rest of [removeInvalidFaces], for the faces of the list: the registered
    faces that are not active are removed. *)
Definition removeInvalidFaces (now : Z) (activeFaces : gset Z) (m : RibManager) : RibManager :=
  let m := fold_left (fun m faceId => if bool_decide (faceId ∈ activeFaces) then m else (schedule now (FaceDestroyed faceId) m).2)
             (merge_sort Z.le (elements (rm_registeredFaces m))) m in
  scheduleActiveFaceFetch now ACTIVE_FACE_FETCH_INTERVAL m.

Definition onFetchFaceStatusTimeout (now : Z) (m : RibManager) : RibManager := scheduleActiveFaceFetch now ACTIVE_FACE_FETCH_INTERVAL m.

(** ** From a command to the RIB *)

(** The face a command is about: the one it names, or the one it came from *)
Definition chosen_face (tag : option Z) (c : ControlParameters) : option Z :=
  match cp_faceId c with Some f => if f =? 0 then tag else Some f | None => tag end.

(** The route that a command registers *)
Definition requested_route (now fid : Z) (c : ControlParameters) (route : Route) : Prop :=
  r_faceId route = fid /\ r_origin route = default ROUTE_ORIGIN_APP (cp_origin c) /\ r_cost route = default 0 (cp_cost c) /\
  r_flags route = default ControlParameters.ROUTE_FLAG_CHILD_INHERIT (cp_flags c) /\
  r_expires route = match cp_expirationPeriod c with
                    | Some period => if period =? MILLISECONDS_MAX then TIME_MAX else to_s64 (now + milliseconds period)
                    | None => TIME_MAX
                    end.

(** Nothing waits for the FIB. *)
Record idle (r : Rib) : Prop := {
  idle_inv : rib_inv r;
  idle_queue : m_updateBatches r = [];
  idle_free : m_isUpdateInProgress r = false;
  idle_flight : rib_inFlight r = None
}.

(** An update is on its way; what comes of it when the FIB accepts it, with whatever
    inherited routes that can be applied, and when it does not *)
Definition submitted (now : Z) (u : RibUpdate) (m m' : RibManager) : Prop :=
  rib_inFlight (rm_rib m') = Some (item_of u (Some onRibUpdateSuccess_callback) (Some onRibUpdateFailure_callback)) /\
  (exists r1, apply_batch [u] (rm_rib m') = Ok r1 /\
     forall inherited t, Forall (fun x => rib_name (ru_name x)) inherited -> modifyInheritedRoutes inherited (m_rib r1) = Ok t ->
       exists r, onFibUpdateSuccess (MkRibUpdateBatch (r_faceId (ru_route u)) [u]) inherited (Some onRibUpdateSuccess_callback) (rm_rib m') = Ok r /\ idle r /\
         forall k, routes_at r k = apply_update (routes_at (rm_rib m)) u k) /\
  (forall code, exists m2, fibUpdateFailed now code (Some onRibUpdateFailure_callback) m' = Ok m2 /\ idle (rm_rib m2) /\
     (forall k, routes_at (rm_rib m2) k = routes_at (rm_rib m) k) /\ rm_activeFaceFetch m2 = Some (now + seconds 1)).

Lemma begin_idle u s f r : idle r -> rib_name (ru_name u) ->
  beginApplyUpdate u s f r = Ok (with_queue [] true (Some (item_of u s f)) [] (with_queue [item_of u s f] false None [] r)).
Proof.
  intros [Hi Hq Hb Hf] Hn. unfold beginApplyUpdate. rewrite addUpdate_spec, Hq, Hb, Hf. cbn [rbind app].
  unfold sendBatchFromQueue. cbn [with_queue m_updateBatches m_isUpdateInProgress]. done.
Qed.

Lemma submitted_begin now u m m' : idle (rm_rib m) -> rib_name (ru_name u) ->
  beginApplyUpdate u (Some onRibUpdateSuccess_callback) (Some onRibUpdateFailure_callback) (rm_rib m) = Ok (rm_rib m') -> submitted now u m m'.
Proof.
  intros Hidle Hn Hb. rewrite (begin_idle _ _ _ _ Hidle Hn) in Hb. injection Hb as Hr. destruct Hidle as [Hi _ _ _].
  assert (Hinv : rib_inv (rm_rib m') /\ forall k, routes_at (rm_rib m') k = routes_at (rm_rib m) k) by (rewrite <- Hr; by apply (same_rib_inv (rm_rib m))).
  destruct Hinv as [Hi' Hk]. split_and!.
  - by rewrite <- Hr.
  - unfold onFibUpdateSuccess. cbn [rub_updates]. destruct (apply_one u (rm_rib m') Hi' Hn) as (r1&->&Hi1&(Hq&_&_)&Hk1). exists r1. split; [done|].
    intros inherited t Hinh Hm. cbn [rbind]. rewrite Hm. cbn [rbind]. rewrite <- Hr in Hq. cbn [with_queue m_updateBatches] in Hq.
    destruct (modifyInheritedRoutes_spec inherited _ _ (rib_inv_tree _ Hi1) Hinh Hm) as [Ht Hs]. destruct (same_routes_inv r1 t Hi1 Ht Hs) as [Hi2 Hr2].
    unfold sendBatchFromQueue. cbn [with_queue with_table m_updateBatches]. rewrite Hq. eexists. split; [done|]. set (r2 := with_queue _ _ _ _ _).
    destruct (same_rib_inv (with_table t (m_faceMap r1) (m_nItems r1) [] r1) r2 ltac:(done) Hi2) as [Hi3 Hk2]. split; [by split|].
    intros k. rewrite Hk2, Hr2, Hk1. unfold apply_update. by rewrite Hk.
  - intros code. unfold fibUpdateFailed, onFibUpdateFailure, sendBatchFromQueue. rewrite <- Hr. cbn [with_queue m_updateBatches rbind].
    eexists. split; [done|]. cbn [rm_rib onRibUpdateFailure scheduleActiveFaceFetch with_rib rm_activeFaceFetch].
    set (r2 := with_queue _ _ _ _ _). destruct (same_rib_inv (rm_rib m) r2 ltac:(done) Hi) as [Hi2 Hk2].
    split_and!; [by split|done|done].
Qed.

Lemma request_shape command prefix c q : getRequestName command prefix c = Ok q -> exists pc, q = prefix ++ [m_module command; m_verb command; pc].
Proof.
  unfold getRequestName. intros (u&_&Hq)%rbind_Ok. apply rbind_Ok in Hq as ([b c']&_&Hq). apply rbind_Ok in Hq as (bytes&_&[= <-]). by eexists.
Qed.

(** What reaches the processor of a verb *)
Lemma request_processed command c now tag m : command = RibRegisterCommand \/ command = RibUnregisterCommand ->
  cp_small c -> hasWire (cp_wire c) = false -> validateRequest command c = Ok tt ->
  exists q w, getRequestName command NFD_PREFIX c = Ok q /\ forall signature,
    onLocalhostRequest None now tag (q ++ signature) m =
    match command with
    | RibRegisterCommand => registerEntry now tag (q ++ signature) (with_wire w c) m
    | _ => unregisterEntry tag (q ++ signature) (with_wire w c) m
    end.
Proof.
  intros Hcmd Hs Hw Hv. destruct (request_read command NFD_PREFIX c (cp_small_ok c Hs) Hw Hv) as (q&pc&w&Hq&Hget&Hpar). exists q, w. split; [done|].
  intros sg. destruct (request_shape _ _ _ _ Hq) as [pc' Hshape].
  assert (Hverb : Name_get (q ++ sg) 3 = Ok (m_verb command)).
  { unfold Name_get. rewrite Hshape. done. }
  unfold onLocalhostRequest, onLocalhopRequest, onCommandValidated. change (length COMMAND_PREFIX) with 3%nat. rewrite Hverb. cbn [rbind].
  specialize (Hget sg). change (length NFD_PREFIX + 2)%nat with 4%nat in Hget. change (3 + 1)%nat with 4%nat. rewrite Hget.
  cbn [rbind]. unfold extractParameters. rewrite Hpar.
  destruct Hcmd as [-> | ->]; done.
Qed.

Lemma expire_route_spec now prefix period route m : let '(x, m') := expire_route now prefix period route m in
  r_faceId x = r_faceId route /\ r_origin x = r_origin route /\ r_cost x = r_cost route /\ r_flags x = r_flags route /\
  r_expires x = match period with
                | Some p => if p =? MILLISECONDS_MAX then TIME_MAX else to_s64 (now + milliseconds p)
                | None => TIME_MAX
                end /\
  rm_rib m' = rm_rib m /\ rm_sent m' = rm_sent m /\ rm_registeredFaces m' = rm_registeredFaces m.
Proof. unfold expire_route. destruct period as [p|]; [|done]. destruct (p =? MILLISECONDS_MAX); by cbn. Qed.

Lemma small_fields c f o k fl : cp_small c -> uint64 f -> uint64 o -> uint64 k -> uint64 fl ->
  cp_small (MkControlParameters (cp_name c) (Some f) (cp_uri c) (cp_localControlFeature c) (Some o) (Some k) (Some fl) (cp_strategy c)
    (cp_expirationPeriod c) (cp_facePersistency c) (cp_wire c)).
Proof. intros [? ? ? ? ? ? ? ? ? ?] ? ? ? ?. by split. Qed.

Lemma registerEntry_spec now tag request c n fid m : idle (rm_rib m) -> cp_small c -> validateRequest RibRegisterCommand c = Ok tt ->
  cp_name c = Some n -> rib_name n -> chosen_face tag c = Some fid -> uint64 fid ->
  exists m' route r, registerEntry now tag request c m = Ok m' /\ requested_route now fid c route /\
    rm_sent m' = rm_sent m ++ [(request, r)] /\ cr_code r = 200 /\ fid ∈ rm_registeredFaces m' /\ submitted now (MkRibUpdate REGISTER n route) m m'.
Proof.
  intros Hi Hs Hv Hn Hrn Hf Hid. unfold registerEntry, validateParameters. rewrite Hv. cbn [rbind].
  set (c1 := applyDefaultsToRequest RibRegisterCommand c).
  assert (Hc1 : cp_small c1 /\ cp_name c1 = Some n /\ cp_origin c1 = Some (default ROUTE_ORIGIN_APP (cp_origin c)) /\
    cp_cost c1 = Some (default 0 (cp_cost c)) /\ cp_flags c1 = Some (default ControlParameters.ROUTE_FLAG_CHILD_INHERIT (cp_flags c)) /\
    cp_expirationPeriod c1 = cp_expirationPeriod c /\ cp_faceId c1 = Some (default 0 (cp_faceId c))).
  { unfold c1, applyDefaultsToRequest, or_else, present. destruct c as [nm f u l o k fl st ex pe wi]. cbn in Hn |- *. destruct Hs; cbn in *.
    destruct f, o, k, fl; cbn; split_and!; try done; split; cbn; try done; unfold uint64; by vm_compute. }
  destruct Hc1 as (Hs1&Hn1&Ho1&Hk1&Hfl1&He1&Hf1).
  assert (Hself : exists c2, selfRegistration tag c1 = Some c2 /\ cp_small c2 /\ cp_faceId c2 = Some fid /\ cp_name c2 = cp_name c1 /\
    cp_origin c2 = cp_origin c1 /\ cp_cost c2 = cp_cost c1 /\ cp_flags c2 = cp_flags c1 /\ cp_expirationPeriod c2 = cp_expirationPeriod c1).
  { unfold selfRegistration, chosen_face in *. rewrite Hf1. destruct (cp_faceId c) as [f|]; cbn in Hf |- *.
    - destruct (f =? 0); [rewrite Hf; eexists; split_and!; try done; by destruct Hs1; split|]. injection Hf as ->. by exists c1.
    - rewrite Hf. eexists. split_and!; try done. by destruct Hs1; split. }
  destruct Hself as (c2&->&Hs2&Hf2&Hn2&Ho2&Hk2&Hfl2&He2).
  destruct (respond_ok 200 text_Success c2 Hs2) as (r&->&Hcode). cbn [rbind]. rewrite Hf2, Ho2, Ho1, Hk2, Hk1, Hfl2, Hfl1, Hn2, Hn1, He2, He1. cbn [cp_get rbind].
  pose proof (expire_route_spec now n (cp_expirationPeriod c)
    (MkRoute fid (default ROUTE_ORIGIN_APP (cp_origin c)) (default ControlParameters.ROUTE_FLAG_CHILD_INHERIT (cp_flags c)) (default 0 (cp_cost c)) 0 None)
    (sendResponse request r m)) as Hx.
  destruct (expire_route _ _ _ _ _) as [route m1]. destruct Hx as (X1&X2&X3&X4&X5&Xr&Xs&Xf). cbn in X1, X2, X3, X4.
  rewrite Xr. cbn [sendResponse rm_rib]. rewrite begin_idle by done. cbn [rbind]. eexists _, route, r. split_and!; [done|by split_and!| |done| |].
  - cbn. by rewrite Xs.
  - cbn. set_solver.
  - apply submitted_begin; [done|done|]. rewrite begin_idle by done. done.
Qed.

Lemma unregisterEntry_spec now tag request c n fid m : idle (rm_rib m) -> cp_small c -> cp_name c = Some n -> rib_name n ->
  chosen_face tag c = Some fid -> uint64 fid ->
  exists m' r, unregisterEntry tag request c m = Ok m' /\ rm_sent m' = rm_sent m ++ [(request, r)] /\ cr_code r = 200 /\
    rm_registeredFaces m' = rm_registeredFaces m /\
    submitted now (MkRibUpdate UNREGISTER n (Route_new fid (default ROUTE_ORIGIN_APP (cp_origin c)))) m m'.
Proof.
  intros Hi Hs Hn Hrn Hf Hid. unfold unregisterEntry. rewrite Hn. cbn [cp_get rbind].
  set (c0 := match cp_origin c with Some o => _ | None => _ end).
  assert (Hc0 : cp_small c0 /\ validateRequest RibUnregisterCommand c0 = Ok tt /\ cp_name c0 = Some n /\ cp_origin c0 = cp_origin c /\ cp_faceId c0 = cp_faceId c).
  { unfold c0. destruct c as [nm f u l o k fl st ex pe wi]. cbn in *. subst nm. destruct Hs; cbn in *. destruct f, o; split_and!; try done; by split. }
  destruct Hc0 as (Hs0&Hv0&Hn0&Ho0&Hf0). unfold validateParameters. rewrite Hv0. cbn [rbind].
  set (c1 := applyDefaultsToRequest RibUnregisterCommand c0).
  assert (Hc1 : cp_small c1 /\ cp_name c1 = Some n /\ cp_origin c1 = Some (default ROUTE_ORIGIN_APP (cp_origin c)) /\ cp_faceId c1 = Some (default 0 (cp_faceId c))).
  { rewrite <- Ho0, <- Hf0. clearbody c0. unfold c1, applyDefaultsToRequest, or_else, present. destruct c0 as [nm f u l o k fl st ex pe wi]. cbn in Hn0 |- *. destruct Hs0; cbn in *.
    destruct f, o; cbn; split_and!; try done; split; cbn; try done; unfold uint64; by vm_compute. }
  destruct Hc1 as (Hs1&Hn1&Ho1&Hf1).
  assert (Hself : exists c2, selfRegistration tag c1 = Some c2 /\ cp_small c2 /\ cp_faceId c2 = Some fid /\ cp_name c2 = cp_name c1 /\ cp_origin c2 = cp_origin c1).
  { unfold selfRegistration, chosen_face in *. rewrite Hf1. destruct (cp_faceId c) as [f|]; cbn in Hf |- *.
    - destruct (f =? 0); [rewrite Hf; eexists; split_and!; try done; by destruct Hs1; split|]. injection Hf as ->. by exists c1.
    - rewrite Hf. eexists. split_and!; try done. by destruct Hs1; split. }
  destruct Hself as (c2&->&Hs2&Hf2&Hn2&Ho2).
  destruct (respond_ok 200 text_Success c2 Hs2) as (r&->&Hcode). cbn [rbind]. rewrite Hf2, Ho2, Ho1, Hn2, Hn1. cbn [cp_get rbind sendResponse rm_rib].
  rewrite begin_idle by done. cbn [rbind]. eexists _, r. split_and!; [done|done|done|done|].
  apply submitted_begin; [done|done|]. by rewrite begin_idle.
Qed.

(** C19. Registration end to end, when no update of the RIB is in flight or queued ([idle]):
    the command Interest that an application builds for valid parameters with a name and
    a face (its own, or the one in the tag of the incoming face), once its signature is
    accepted, is answered with 200 and submits one update with the route that was asked
    for -- the face that the command names or else the face it came from, the given or the
    default origin, cost, flags and expiration.  The update applies to the RIB; if the FIB
    updater reports success, with whatever list of inherited routes for which the assertion
    and the erasures of [modifyInheritedRoutes] do not fail, the RIB has the route, no other
    route has changed, and nothing is in flight.  If it reports a failure, the RIB is as
    before and the list of faces is fetched in a second.  In the same way a command to
    unregister removes the route of the face and the origin. *)
Theorem rib_command_end_to_end now tag c n fid m : idle (rm_rib m) -> cp_small c -> hasWire (cp_wire c) = false ->
  cp_name c = Some n -> rib_name n -> chosen_face tag c = Some fid -> uint64 fid ->
  (validateRequest RibRegisterCommand c = Ok tt ->
   exists q, getRequestName RibRegisterCommand NFD_PREFIX c = Ok q /\ forall signature, exists m' route r,
     onLocalhostRequest None now tag (q ++ signature) m = Ok m' /\ requested_route now fid c route /\
     rm_sent m' = rm_sent m ++ [(q ++ signature, r)] /\ cr_code r = 200 /\ fid ∈ rm_registeredFaces m' /\
     submitted now (MkRibUpdate REGISTER n route) m m') /\
  (validateRequest RibUnregisterCommand c = Ok tt ->
   exists q, getRequestName RibUnregisterCommand NFD_PREFIX c = Ok q /\ forall signature, exists m' r,
     onLocalhostRequest None now tag (q ++ signature) m = Ok m' /\
     rm_sent m' = rm_sent m ++ [(q ++ signature, r)] /\ cr_code r = 200 /\ rm_registeredFaces m' = rm_registeredFaces m /\
     submitted now (MkRibUpdate UNREGISTER n (Route_new fid (default ROUTE_ORIGIN_APP (cp_origin c)))) m m').
Proof.
  intros Hi Hs Hw Hn Hrn Hf Hid. split; intros Hv.
  - destruct (request_processed RibRegisterCommand c now tag m ltac:(by left) Hs Hw Hv) as (q&w&Hq&Hp). exists q. split; [done|]. intros sg. rewrite Hp.
    destruct (registerEntry_spec now tag (q ++ sg) (with_wire w c) n fid m) as (m'&route&r&?&?&?&?&?&?); try done; [by destruct Hs; split|]. by exists m', route, r.
  - destruct (request_processed RibUnregisterCommand c now tag m ltac:(by right) Hs Hw Hv) as (q&w&Hq&Hp). exists q. split; [done|]. intros sg. rewrite Hp.
    destruct (unregisterEntry_spec now tag (q ++ sg) (with_wire w c) n fid m) as (m'&r&?&?&?&?&?); try done; [by destruct Hs; split|]. by exists m', r.
Qed.

(** ** Commands that are refused *)

(** The only effect is an answer. *)
Definition refused (command : Name) (code : Z) (m : RibManager) (x : result RibManager) : Prop :=
  exists r, x = Ok (sendResponse command r m) /\ cr_code r = code.

Lemma command_read (verb pc : Component) (rest : Name) :
  Name_get (COMMAND_PREFIX ++ verb :: pc :: rest) (length COMMAND_PREFIX) = Ok verb /\
  Name_get (COMMAND_PREFIX ++ verb :: pc :: rest) (length COMMAND_PREFIX + 1) = Ok pc.
Proof. done. Qed.

(** What is refused, and with which answer: a command whose signature is not
    accepted (403), a verb that does not exist (501), parameters that cannot be
    read or are not those of the command (400), and a command about the face it
    came from when that is not known (503).  Nothing but the answer happens. *)
Theorem rib_command_refused now tag verb pc rest m : NameComponent.compare verb verb_list <> 0 ->
  let command := COMMAND_PREFIX ++ verb :: pc :: rest in
  (forall reason, refused command 403 m (onLocalhostRequest (Some reason) now tag command m)) /\
  (m_signedVerbDispatch verb = None -> refused command 501 m (onLocalhostRequest None now tag command m)) /\
  (forall cmd e, m_signedVerbDispatch verb = Some cmd -> parse_parameters pc = Err e -> is_tlv_error e = true ->
     refused command 400 m (onLocalhostRequest None now tag command m)) /\
  (forall c, m_signedVerbDispatch verb = Some RibRegisterCommand -> parse_parameters pc = Ok c ->
     (validateRequest RibRegisterCommand c = Err InvalidArgument -> refused command 400 m (onLocalhostRequest None now tag command m)) /\
     (validateRequest RibRegisterCommand c = Ok tt -> chosen_face tag c = None -> refused command 503 m (onLocalhostRequest None now tag command m))).
Proof.
  intros Hl command. destruct (command_read verb pc rest) as [Hverb Hpc]. fold command in Hverb, Hpc.
  assert (Hstart : forall v, onLocalhostRequest v now tag command m = onLocalhopRequest v now tag command m).
  { intros v. unfold onLocalhostRequest. rewrite Hverb. cbn [rbind]. by rewrite (proj2 (Z.eqb_neq _ _) Hl). }
  split_and!.
  - intros reason. rewrite Hstart. eexists. by split.
  - intros Hd. rewrite Hstart. unfold onLocalhopRequest, onCommandValidated. rewrite Hverb, Hpc. cbn [rbind]. rewrite Hd. eexists. by split.
  - intros cmd e Hd Hp He. rewrite Hstart. unfold onLocalhopRequest, onCommandValidated, extractParameters. rewrite Hverb, Hpc. cbn [rbind].
    rewrite Hd, Hp, He. eexists. by split.
  - intros c Hd Hp. rewrite Hstart. unfold onLocalhopRequest, onCommandValidated, extractParameters. rewrite Hverb, Hpc. cbn [rbind]. rewrite Hd, Hp. cbn [rbind].
    unfold registerEntry, validateParameters. split; intros Hv; rewrite Hv; [eexists; by split|]. intros Hf. cbn [rbind].
    assert (Hface : cp_faceId (applyDefaultsToRequest RibRegisterCommand c) = Some (default 0 (cp_faceId c))).
    { unfold applyDefaultsToRequest, or_else, present. destruct c as [? f ? ? o k fl ? ? ? ?]. cbn. by destruct f, o, k, fl. }
    unfold selfRegistration. rewrite Hface. unfold chosen_face in Hf. destruct (cp_faceId c) as [f|]; cbn in Hf |- *.
    + destruct (f =? 0); [subst tag|done]. eexists. by split.
    + subst tag. eexists. by split.
Qed.

(** A command to unregister without a name fails an assertion: [getName] is
    called before the parameters are checked. *)
Theorem rib_unregister_without_name now tag verb pc rest c m : m_signedVerbDispatch verb = Some RibUnregisterCommand ->
  NameComponent.compare verb verb_list <> 0 -> parse_parameters pc = Ok c -> cp_name c = None ->
  onLocalhostRequest None now tag (COMMAND_PREFIX ++ verb :: pc :: rest) m = Err AssertFailed.
Proof.
  intros Hd Hl Hp Hn. destruct (command_read verb pc rest) as [Hverb Hpc].
  unfold onLocalhostRequest. rewrite Hverb. cbn [rbind]. rewrite (proj2 (Z.eqb_neq _ _) Hl).
  unfold onLocalhopRequest, onCommandValidated, extractParameters. rewrite Hverb, Hpc. cbn [rbind]. rewrite Hd, Hp. cbn [rbind].
  unfold unregisterEntry. by rewrite Hn.
Qed.

(** ** Faces that are gone *)

Lemma schedule_all (now : Z) (active : gset Z) (l : list Z) : forall m,
  let m' := fold_left (fun m faceId => if bool_decide (faceId ∈ active) then m else (schedule now (FaceDestroyed faceId) m).2) l m in
  rm_rib m' = rm_rib m /\ rm_registeredFaces m' = rm_registeredFaces m /\
  map snd (rm_scheduled m') = map snd (rm_scheduled m) ++ map FaceDestroyed (filter (fun f => f ∉ active) l).
Proof.
  induction l as [|f l IH]; intros m; cbn [fold_left]; [by rewrite app_nil_r|]. rewrite filter_cons. destruct (decide (f ∈ active)) as [Hf|Hf].
  - rewrite bool_decide_true, decide_False by tauto. apply IH.
  - rewrite bool_decide_false, decide_True by done. destruct (IH (schedule now (FaceDestroyed f) m).2) as (H1&H2&H3).
    split_and!; [done|done|]. rewrite H3. cbn. rewrite map_app, <- app_assoc. done.
Qed.

(** A face that is missing in the list of active faces is treated as destroyed,
    and then none of its routes survives the FIB's answers: every route of the RIB
    over it is among the removals that are queued. *)
Theorem rib_invalid_faces_removed now active m : rib_inv (rm_rib m) -> queue_ok (rm_rib m) ->
  (let m' := removeInvalidFaces now active m in
   rm_rib m' = rm_rib m /\ rm_registeredFaces m' = rm_registeredFaces m /\ rm_activeFaceFetch m' = Some (now + ACTIVE_FACE_FETCH_INTERVAL) /\
   forall f, (FaceDestroyed f ∈ map snd (rm_scheduled m')) <-> (FaceDestroyed f ∈ map snd (rm_scheduled m)) \/ ((f ∈ rm_registeredFaces m) /\ (f ∉ active))) /\
  (forall f, exists m', onFaceDestroyedEvent f m = Ok m' /\ f ∉ rm_registeredFaces m' /\ (rm_registeredFaces m' ∪ {[f]} = rm_registeredFaces m ∪ {[f]}) /\
     rib_inv (rm_rib m') /\ pending (rm_rib m') = pending (rm_rib m) ++ removals f (rm_rib m) /\
     forall n x, x ∈ routes_at (rm_rib m) n -> r_faceId x = f -> item_of (MkRibUpdate REMOVE_FACE n x) None None ∈ pending (rm_rib m')).
Proof.
  intros Hi Hq. split.
  - unfold removeInvalidFaces. destruct (schedule_all now active (merge_sort Z.le (elements (rm_registeredFaces m))) m) as (H1&H2&H3).
    cbn [scheduleActiveFaceFetch rm_rib rm_registeredFaces rm_activeFaceFetch rm_scheduled]. split_and!; [done|done|done|]. intros f. rewrite H3, elem_of_app.
    apply or_iff_compat_l. rewrite list_elem_of_fmap. split.
    + intros (g&[= ->]&Hg). apply list_elem_of_filter in Hg as [? Hg]. split; [|done]. rewrite merge_sort_Permutation in Hg. by apply elem_of_elements.
    + intros [Hf Ha]. exists f. split; [done|]. apply list_elem_of_filter. split; [done|]. rewrite merge_sort_Permutation. by apply elem_of_elements.
  - intros f. unfold onFaceDestroyedEvent, beginRemoveFace. rewrite queue_removals_spec. cbn [rbind].
    assert (Hok : Forall item_ok (removals f (rm_rib m))).
    { apply Forall_forall. intros it Hit. unfold removals in Hit. apply list_elem_of_fmap in Hit as (nr&->&Hnr).
      eexists _, _, _. split; [done|]. cbn [ru_name]. by eapply names_of_routes. }
    destruct (sendBatch_spec _ (queue_ok_push (rm_rib m) (removals f (rm_rib m)) Hq Hok)) as (r'&Hsend&_&_&Hp&Hsame).
    unfold removals in Hsend. rewrite Hsend. cbn [rbind]. eexists. split; [done|]. cbn [with_faces with_rib rm_rib rm_registeredFaces].
    assert (Hpend : pending r' = pending (rm_rib m) ++ removals f (rm_rib m)).
    { rewrite Hp. unfold pending. cbn [with_queue rib_inFlight m_updateBatches]. by rewrite app_assoc. }
    split_and!; [set_solver|apply set_eq; intros y; rewrite !elem_of_union, elem_of_difference, elem_of_singleton; destruct (decide (y = f)); tauto|exact (proj1 (same_rib_inv (rm_rib m) r' Hsame Hi))|done|].
    intros n x Hx Hfx. rewrite Hpend. apply elem_of_app. right. unfold removals. apply list_elem_of_fmap. exists (n, x). split; [done|].
    by apply face_routes.
Qed.

Module RibManagerSamples.
Definition manager0 : RibManager := MkRibManager Rib_new ∅ [] 0 None [] 0.
Definition register_ab : ControlParameters := setExpirationPeriod 5000 (ControlParameters.setName name_ab ControlParameters_new).

Lemma idle_new : idle Rib_new.
Proof. split; [apply rib_inv_new|done..]. Qed.

Lemma small_register : cp_small register_ab.
Proof. split; try done. split; by_decide. Qed.

Lemma rib_command_end_to_end_witness : exists q m' route r, getRequestName RibRegisterCommand NFD_PREFIX register_ab = Ok q /\
  onLocalhostRequest None 1000 (Some 256) (q ++ [generic [1]]) manager0 = Ok m' /\ rm_sent m' = [(q ++ [generic [1]], r)] /\ cr_code r = 200 /\
  requested_route 1000 256 register_ab route.
Proof.
  destruct (rib_command_end_to_end 1000 (Some 256) register_ab name_ab 256 manager0 idle_new small_register) as [Hreg _]; try done; [by_decide|].
  destruct Hreg as (q&Hq&Hall); [by vm_compute|]. destruct (Hall [generic [1]]) as (m'&route&r&Hok&Hroute&Hsent&Hcode&_).
  exists q, m', route, r. exact (conj Hq (conj Hok (conj Hsent (conj Hcode Hroute)))).
Defined.
End RibManagerSamples.
