(* ===== verification/Propagator.v ===== *)
(** * Automatic prefix propagation: [NFD/rib/auto-prefix-propagator.cpp],
    [propagated-entry.cpp]

    Prefixes that are registered locally are registered with a remote hub too,
    under the shortest identity of the key chain that covers them.  The entry of
    a propagated prefix is a state machine: it is new while there is no hub, then
    being propagated, propagated (with a timer to refresh) or failed (with a
    timer to retry).  The identities of the key chain are an argument; the
    commands that are sent wait in a list for their answers. *)

From S2P Require Import Prelude StdMap Tlv Block Encoder Elements NameComponent Name KeyLocator Exclude Packet CsEntry.
From S2P Require Import LinkService ControlParameters Management RibEntry Rib RibTree.

Inductive PropagationStatus : Set := NEW | PROPAGATING | PROPAGATED | PROPAGATE_FAIL.
#[global] Instance PropagationStatus_eq_dec : EqDecision PropagationStatus.
Proof. solve_decision. Defined.

(** [CommandOptions]; of the signing information, the name of the signer *)
Record CommandOptions := MkCommandOptions { opt_timeout : Z; opt_prefix : Name; opt_signer : Name }.


(** What the timers call *)
Inductive TimerEvent :=
| OnRefreshTimer (parameters : ControlParameters) (options : CommandOptions)
| OnRetryTimer (parameters : ControlParameters) (options : CommandOptions) (retryWaitTime : Z).

(** [PropagatedEntry]: [m_rePropagateEvent] is the time and what is called; it is
    cancelled when it is replaced and when the entry is destroyed. *)
Record PropagatedEntry := MkPropagatedEntry {
  pg_signingIdentity : Name;
  pg_status : PropagationStatus;
  pg_event : option (Z * TimerEvent)
}.

Definition PropagatedEntry_new : PropagatedEntry := MkPropagatedEntry [] NEW None.
Definition setSigningIdentity (identity : Name) (e : PropagatedEntry) : PropagatedEntry :=
  MkPropagatedEntry identity (pg_status e) (pg_event e).
Definition entry_startPropagation (e : PropagatedEntry) : PropagatedEntry := MkPropagatedEntry (pg_signingIdentity e) PROPAGATING (pg_event e).
Definition succeed (event : Z * TimerEvent) (e : PropagatedEntry) : PropagatedEntry := MkPropagatedEntry (pg_signingIdentity e) PROPAGATED (Some event).
Definition fail (event : Z * TimerEvent) (e : PropagatedEntry) : PropagatedEntry := MkPropagatedEntry (pg_signingIdentity e) PROPAGATE_FAIL (Some event).
Definition initialize (e : PropagatedEntry) : PropagatedEntry := MkPropagatedEntry (pg_signingIdentity e) NEW None.
Definition isNew (e : PropagatedEntry) : bool := bool_decide (pg_status e = NEW).
Definition isPropagating (e : PropagatedEntry) : bool := bool_decide (pg_status e = PROPAGATING).
Definition isPropagated (e : PropagatedEntry) : bool := bool_decide (pg_status e = PROPAGATED).
Definition isPropagateFail (e : PropagatedEntry) : bool := bool_decide (pg_status e = PROPAGATE_FAIL).

(** A command whose answer is awaited *)
Inductive PropagationCommand :=
| Propagation (parameters : ControlParameters) (options : CommandOptions) (retryWaitTime nextRetryWait : Z)
| Revocation (parameters : ControlParameters) (options : CommandOptions) (retryWaitTime : Z).

(** Intervals and the time are in seconds here.  The entries are those of an [unordered_map]; their
    order does not matter. *)
Record Propagator := MkPropagator {
  ap_controlParameters : ControlParameters;
  ap_commandOptions : CommandOptions;
  ap_refreshInterval : Z;
  ap_baseRetryWait : Z;
  ap_maxRetryWait : Z;
  ap_hasConnectedHub : bool;
  ap_entries : list (Name * PropagatedEntry);
  ap_commands : list PropagationCommand
}.

Definition with_hub (b : bool) (a : Propagator) : Propagator :=
  MkPropagator (ap_controlParameters a) (ap_commandOptions a) (ap_refreshInterval a) (ap_baseRetryWait a) (ap_maxRetryWait a) b (ap_entries a) (ap_commands a).
Definition with_entries (l : list (Name * PropagatedEntry)) (a : Propagator) : Propagator :=
  MkPropagator (ap_controlParameters a) (ap_commandOptions a) (ap_refreshInterval a) (ap_baseRetryWait a) (ap_maxRetryWait a) (ap_hasConnectedHub a) l (ap_commands a).
Definition with_commands (l : list PropagationCommand) (a : Propagator) : Propagator :=
  MkPropagator (ap_controlParameters a) (ap_commandOptions a) (ap_refreshInterval a) (ap_baseRetryWait a) (ap_maxRetryWait a) (ap_hasConnectedHub a) (ap_entries a) l.

(** [m_propagatedEntries.find], the change of an entry, and [erase] *)
Definition entry_find (n : Name) (l : list (Name * PropagatedEntry)) : option PropagatedEntry :=
  snd <$> List.find (fun x => Name_equals x.1 n) l.
Definition entry_update (n : Name) (f : PropagatedEntry -> PropagatedEntry) (l : list (Name * PropagatedEntry)) : list (Name * PropagatedEntry) :=
  map (fun x => if Name_equals x.1 n then (x.1, f x.2) else x) l.
Definition entry_erase (n : Name) (l : list (Name * PropagatedEntry)) : list (Name * PropagatedEntry) :=
  List.filter (fun x => negb (Name_equals x.1 n)) l.

(** ** Configuration *)

Definition LOCAL_REGISTRATION_PREFIX : Name := [generic [108; 111; 99; 97; 108; 104; 111; 115; 116]]. (* /localhost *)
Definition LINK_LOCAL_NFD_PREFIX : Name := [generic [108; 111; 99; 97; 108; 104; 111; 112]; generic [110; 102; 100]]. (* /localhop/nfd *)
Definition IGNORE_COMPONENT : Component := generic [110; 114; 100]. (* nrd *)
Definition DEFAULT_REFRESH_INTERVAL : Z := 25.
Definition MAX_REFRESH_INTERVAL : Z := 600.
Definition DEFAULT_BASE_RETRY_WAIT : Z := 50.
Definition DEFAULT_MAX_RETRY_WAIT : Z := 3600.
Definition DEFAULT_COST : Z := 15.
Definition DEFAULT_TIMEOUT : Z := 10000.
Definition ROUTE_ORIGIN_CLIENT : Z := 65.

Definition Propagator_new : Propagator :=
  MkPropagator ControlParameters_new (MkCommandOptions 10000 [] []) DEFAULT_REFRESH_INTERVAL DEFAULT_BASE_RETRY_WAIT DEFAULT_MAX_RETRY_WAIT false [] [].

(** The options of the section [auto_prefix_propagate] with their values *)
Inductive ConfigOption : Set := OptCost | OptTimeout | OptRefreshInterval | OptBaseRetryWait | OptMaxRetryWait | OptUnrecognized.

Definition setTimeout (timeout : Z) (o : CommandOptions) : result CommandOptions :=
  if timeout <=? 0 then Err OutOfRange else Ok (MkCommandOptions timeout (opt_prefix o) (opt_signer o)).

Definition load_option (item : ConfigOption * Z) (a : Propagator) : result Propagator :=
  let v := item.2 in
  match item.1 with
  | OptCost => Ok (MkPropagator (setCost v (ap_controlParameters a)) (ap_commandOptions a) (ap_refreshInterval a) (ap_baseRetryWait a) (ap_maxRetryWait a)
                     (ap_hasConnectedHub a) (ap_entries a) (ap_commands a))
  | OptTimeout =>
      let! o := setTimeout v (ap_commandOptions a) in
      Ok (MkPropagator (ap_controlParameters a) o (ap_refreshInterval a) (ap_baseRetryWait a) (ap_maxRetryWait a) (ap_hasConnectedHub a) (ap_entries a) (ap_commands a))
  | OptRefreshInterval => Ok (MkPropagator (ap_controlParameters a) (ap_commandOptions a) (Z.min MAX_REFRESH_INTERVAL v) (ap_baseRetryWait a) (ap_maxRetryWait a)
                                (ap_hasConnectedHub a) (ap_entries a) (ap_commands a))
  | OptBaseRetryWait => Ok (MkPropagator (ap_controlParameters a) (ap_commandOptions a) (ap_refreshInterval a) v (ap_maxRetryWait a)
                              (ap_hasConnectedHub a) (ap_entries a) (ap_commands a))
  | OptMaxRetryWait => Ok (MkPropagator (ap_controlParameters a) (ap_commandOptions a) (ap_refreshInterval a) (ap_baseRetryWait a) v
                             (ap_hasConnectedHub a) (ap_entries a) (ap_commands a))
  | OptUnrecognized => Err InvalidArgument
  end.

Fixpoint load_options (l : list (ConfigOption * Z)) (a : Propagator) : result Propagator :=
  match l with
  | [] => Ok a
  | item :: l' => let! a := load_option item a in load_options l' a
  end.

Definition loadConfig (configSection : list (ConfigOption * Z)) (a : Propagator) : result Propagator :=
  load_options configSection
    (MkPropagator (setFaceId 0 (setOrigin ROUTE_ORIGIN_CLIENT (setCost DEFAULT_COST (ap_controlParameters a))))
       (MkCommandOptions DEFAULT_TIMEOUT LINK_LOCAL_NFD_PREFIX (opt_signer (ap_commandOptions a)))
       DEFAULT_REFRESH_INTERVAL DEFAULT_BASE_RETRY_WAIT DEFAULT_MAX_RETRY_WAIT (ap_hasConnectedHub a) (ap_entries a) (ap_commands a)).

(** [ControlParameters::unsetCost] *)
Definition unsetCost (c : ControlParameters) : ControlParameters :=
  MkControlParameters (cp_name c) (cp_faceId c) (cp_uri c) (cp_localControlFeature c) (cp_origin c) None (cp_flags c)
    (cp_strategy c) (cp_expirationPeriod c) (cp_facePersistency c) (reset (cp_wire c)).

(** ** Propagation *)

(** [prefix] of an identity: its last component is left out if it is [nrd]. *)
Definition identity_prefix (i : Name) : Name :=
  match last i with
  | Some c => if NameComponent.equals IGNORE_COMPONENT c then getPrefix i (-1) else i
  | None => i
  end.

(** The loop over the identities: the propagated prefix and the signing
    identity *)
Fixpoint select_identity (identities : list Name) (localRibPrefix : Name) (found : option (Name * Name)) : option (Name * Name) :=
  match identities with
  | [] => found
  | i :: l =>
      let prefix := identity_prefix i in
      let better := match found with None => true | Some (_, signingIdentity) => len i <? len signingIdentity end in
      select_identity l localRibPrefix (if isPrefixOf prefix localRibPrefix && better then Some (prefix, i) else found)
  end.

Section Propagator.
(** The identities of the key chain, the default one last; the names of the RIB
    in its order; the time *)
Context (identities rib : list Name) (now : Z).
Implicit Types (a : Propagator) (n : Name) (parameters : ControlParameters) (options : CommandOptions).

(** [None] is [isValid = false]. *)
Definition getPrefixPropagationParameters n a : option (ControlParameters * CommandOptions) :=
  match select_identity identities n None with
  | None => None
  | Some (propagatedPrefix, signingIdentity) =>
      Some (ControlParameters.setName propagatedPrefix (ap_controlParameters a),
            MkCommandOptions (opt_timeout (ap_commandOptions a)) (opt_prefix (ap_commandOptions a)) signingIdentity)
  end.

Definition signer_name n a : Name :=
  match getPrefixPropagationParameters n a with Some (_, options) => opt_signer options | None => [] end.

Definition doesCurrentPropagatedPrefixWork n a : result bool :=
  match getPrefixPropagationParameters n a with
  | None => Ok false
  | Some (parameters, _) => let! p := cp_get (cp_name parameters) in Ok (len p =? len n)
  end.

(** [m_nfdController.start]: an invalid request is an exception. *)
Definition startPropagation parameters options (retryWaitTime : Z) a : result Propagator :=
  let! _ := validateRequest RibRegisterCommand parameters in
  Ok (with_commands (ap_commands a ++ [Propagation parameters options retryWaitTime (Z.min (ap_maxRetryWait a) (retryWaitTime * 2))]) a).

Definition startRevocation parameters options (retryWaitTime : Z) a : result Propagator :=
  let! _ := validateRequest RibUnregisterCommand parameters in
  Ok (with_commands (ap_commands a ++ [Revocation parameters options retryWaitTime]) a).

Definition afterRibInsert parameters options a : result Propagator :=
  let! n := cp_get (cp_name parameters) in
  match entry_find n (ap_entries a) with
  | Some _ => Err AssertFailed
  | None =>
      let entry := setSigningIdentity (opt_signer options) PropagatedEntry_new in
      if negb (ap_hasConnectedHub a) then Ok (with_entries ((n, entry) :: ap_entries a) a)
      else startPropagation parameters options (ap_baseRetryWait a) (with_entries ((n, entry_startPropagation entry) :: ap_entries a) a)
  end.

Definition afterRibErase parameters options a : result Propagator :=
  let! n := cp_get (cp_name parameters) in
  match entry_find n (ap_entries a) with
  | None => Err AssertFailed
  | Some e =>
      let hasPropagationSucceeded := isPropagated e in
      let a := with_entries (entry_erase n (ap_entries a)) a in
      if negb (ap_hasConnectedHub a) then Ok a
      else if negb hasPropagationSucceeded then Ok a
      else startRevocation parameters options (ap_baseRetryWait a) a
  end.

(** A loop that calls an operation *)
Fixpoint for_names (f : Name -> Propagator -> result Propagator) (l : list Name) a : result Propagator :=
  match l with
  | [] => Ok a
  | n :: l' => let! a := f n a in for_names f l' a
  end.

(** [redoPropagation] of the entry [key]; [reinsert] is [afterInsertRibEntry]. *)
Definition redoPropagation (reinsert : Name -> Propagator -> result Propagator) (key : Name) parameters options (retryWaitTime : Z) a : result Propagator :=
  let! n := cp_get (cp_name parameters) in
  let! works := doesCurrentPropagatedPrefixWork n a in
  if works : bool then
    startPropagation parameters options retryWaitTime (with_entries (entry_update key entry_startPropagation (ap_entries a)) a)
  else
    for_names reinsert (List.filter (isPrefixOf n) rib) (with_entries (entry_erase key (ap_entries a)) a).

Definition afterHubConnect (reinsert : Name -> Propagator -> result Propagator) a : result Propagator :=
  if negb (forallb (fun x => isNew x.2) (ap_entries a)) then Err AssertFailed
  else
    for_names (fun key a =>
      match entry_find key (ap_entries a) with
      | None => Err OutOfRange
      | Some e =>
          redoPropagation reinsert key (ControlParameters.setName key (ap_controlParameters a))
            (MkCommandOptions (opt_timeout (ap_commandOptions a)) (opt_prefix (ap_commandOptions a)) (pg_signingIdentity e)) (ap_baseRetryWait a) a
      end) (map fst (ap_entries a)) a.

(** [afterInsertRibEntry] calls itself through [afterHubConnect] and
    [redoPropagation], which has erased an entry each time. *)
Fixpoint insert_loop (fuel : nat) n a : result Propagator :=
  match fuel with
  | O => Err OutOfFuel
  | S fuel =>
      if isPrefixOf LOCAL_REGISTRATION_PREFIX n then Ok a
      else if Name_equals n LINK_LOCAL_NFD_PREFIX then afterHubConnect (insert_loop fuel) (with_hub true a)
      else
        match getPrefixPropagationParameters n a with
        | None => Ok a
        | Some (parameters, options) =>
            let! p := cp_get (cp_name parameters) in
            match entry_find p (ap_entries a) with
            | Some e => if isNew e then Err AssertFailed else Ok a
            | None => afterRibInsert parameters options a
            end
        end
  end.
Definition afterInsertRibEntry n a : result Propagator := insert_loop (length (ap_entries a) + 2) n a.

Definition afterHubDisconnect a : result Propagator :=
  if negb (forallb (fun x => negb (isNew x.2)) (ap_entries a)) then Err AssertFailed
  else Ok (with_entries (map (fun x => (x.1, initialize x.2)) (ap_entries a)) a).

Definition afterEraseRibEntry n a : result Propagator :=
  if isPrefixOf LOCAL_REGISTRATION_PREFIX n then Ok a
  else if Name_equals n LINK_LOCAL_NFD_PREFIX then afterHubDisconnect (with_hub false a)
  else
    match getPrefixPropagationParameters n a with
    | None => Ok a
    | Some (parameters, options) =>
        let! p := cp_get (cp_name parameters) in
        match entry_find p (ap_entries a) with
        | None => Ok a
        | Some _ =>
            if existsb (fun k => isPrefixOf p k && Name_equals (opt_signer options) (signer_name k a)) rib then Ok a
            else afterRibErase (unsetCost parameters) options a
        end
    end.

(** ** Answers and timers *)

Definition afterPropagateSucceed parameters options a : result Propagator :=
  let! n := cp_get (cp_name parameters) in
  match entry_find n (ap_entries a) with
  | None => startRevocation (unsetCost parameters) options (ap_baseRetryWait a) a
  | Some e =>
      if isPropagating e
      then Ok (with_entries (entry_update n (succeed (now + ap_refreshInterval a, OnRefreshTimer parameters options)) (ap_entries a)) a)
      else Err AssertFailed
  end.

Definition afterPropagateFail parameters options (retryWaitTime nextRetryWait : Z) a : result Propagator :=
  let! n := cp_get (cp_name parameters) in
  match entry_find n (ap_entries a) with
  | None => Ok a
  | Some e =>
      if isPropagating e
      then Ok (with_entries (entry_update n (fail (now + retryWaitTime, OnRetryTimer parameters options nextRetryWait)) (ap_entries a)) a)
      else Err AssertFailed
  end.

Definition afterRevokeSucceed parameters options (retryWaitTime : Z) a : result Propagator :=
  let! n := cp_get (cp_name parameters) in
  match entry_find n (ap_entries a) with
  | None => Ok a
  | Some e =>
      if isPropagateFail e then Ok a
      else if isNew e then Err AssertFailed
      else
        let! cost := cp_get (cp_cost (ap_controlParameters a)) in
        startPropagation (setCost cost parameters) options retryWaitTime (with_entries (entry_update n entry_startPropagation (ap_entries a)) a)
  end.

Definition onRefreshTimer parameters options a : result Propagator :=
  let! n := cp_get (cp_name parameters) in
  match entry_find n (ap_entries a) with
  | Some e => if isPropagated e then redoPropagation (insert_loop (length (ap_entries a) + 2)) n parameters options (ap_baseRetryWait a) a else Err AssertFailed
  | None => Err AssertFailed
  end.

Definition onRetryTimer parameters options (retryWaitTime : Z) a : result Propagator :=
  let! n := cp_get (cp_name parameters) in
  match entry_find n (ap_entries a) with
  | Some e => if isPropagateFail e then redoPropagation (insert_loop (length (ap_entries a) + 2)) n parameters options retryWaitTime a else Err AssertFailed
  | None => Err AssertFailed
  end.

(** The answer to the command at position [i], and the timer of the entry of
    [key] *)
Definition command_answered (i : nat) (success : bool) a : result Propagator :=
  match ap_commands a !! i with
  | None => Ok a
  | Some c =>
      let a := with_commands (delete i (ap_commands a)) a in
      match c, success with
      | Propagation parameters options w next, true => afterPropagateSucceed parameters options a
      | Propagation parameters options w next, false => afterPropagateFail parameters options w next a
      | Revocation parameters options w, true => afterRevokeSucceed parameters options w a
      | Revocation parameters options w, false => Ok a
      end
  end.

Definition timer_fires (key : Name) a : result Propagator :=
  match entry_find key (ap_entries a) ≫= pg_event with
  | None => Ok a
  | Some (_, event) =>
      let a := with_entries (entry_update key (fun e => MkPropagatedEntry (pg_signingIdentity e) (pg_status e) None) (ap_entries a)) a in
      match event with
      | OnRefreshTimer parameters options => onRefreshTimer parameters options a
      | OnRetryTimer parameters options w => onRetryTimer parameters options w a
      end
  end.
End Propagator.
