(* ===== verification/PropagatorProps.v ===== *)
(** * Properties of prefix propagation

    Which prefix is propagated for a name, the invariant of the entries with the
    commands and timers, and that every operation keeps it; from it, what
    [Propagator] does in every state it can reach, and runs that end in a failed
    assertion. *)

From S2P Require Import Prelude StdMap Tlv Block Encoder Elements NameComponent Name KeyLocator Exclude Packet CsEntry.
From S2P Require Import LinkService ControlParameters Management RibEntry Rib RibTree Propagator.

(** ** Which prefix is propagated *)

Fixpoint pick (l : list Name) (found : option (Name * Name)) : option (Name * Name) :=
  match l with
  | [] => found
  | i :: l' =>
      let better := match found with None => true | Some (_, s) => len i <? len s end in
      pick l' (if better then Some (identity_prefix i, i) else found)
  end.

Definition candidates (l : list Name) (n : Name) : list Name := List.filter (fun i => isPrefixOf (identity_prefix i) n) l.

Lemma select_pick l n : forall found, select_identity l n found = pick (candidates l n) found.
Proof.
  induction l as [|i l IH]; intros found; [done|]. unfold candidates. cbn [select_identity List.filter]. fold (candidates l n).
  destruct (isPrefixOf (identity_prefix i) n); cbn [andb pick]; apply IH.
Qed.

(** The first one among the shortest *)
Definition first_shortest (l : list Name) (i : Name) : Prop :=
  exists l1 l2, l = l1 ++ i :: l2 /\ (forall y, y ∈ l1 -> len i < len y) /\ (forall y, y ∈ l2 -> len i <= len y).

Lemma pick_keeps l q s : (forall y, y ∈ l -> len s <= len y) -> pick l (Some (q, s)) = Some (q, s).
Proof.
  induction l as [|y l IH]; intros Hl; [done|]. cbn [pick]. rewrite (proj2 (Z.ltb_ge _ _)) by (apply Hl; left). apply IH. intros z Hz. apply Hl. by right.
Qed.

Lemma pick_first i l2 l1 : (forall y, y ∈ l1 -> len i < len y) -> (forall y, y ∈ l2 -> len i <= len y) ->
  forall found, (forall q s, found = Some (q, s) -> len i < len s) -> pick (l1 ++ i :: l2) found = Some (identity_prefix i, i).
Proof.
  intros H1 H2. induction l1 as [|y l1 IH]; intros found Hf; cbn [app pick].
  - destruct found as [[q s]|]; [rewrite (proj2 (Z.ltb_lt _ _)) by by eapply Hf|]; by apply pick_keeps.
  - apply IH; [intros z Hz; apply H1; by right|]. intros q s. destruct found as [[q' s']|].
    + destruct (len y <? len s'); [intros [= <- <-]; apply H1; left|by apply Hf].
    + intros [= <- <-]. apply H1. left.
Qed.

Lemma pick_spec l : forall found p i, pick l found = Some (p, i) ->
  (found = Some (p, i) /\ forall y, y ∈ l -> len i <= len y) \/
  (p = identity_prefix i /\ first_shortest l i /\ forall q s, found = Some (q, s) -> len i < len s).
Proof.
  induction l as [|x l IH]; intros found p i Hp; cbn [pick] in Hp.
  - left. split; [done|]. by intros y ?%elem_of_nil.
  - apply IH in Hp as [[Hf Hl]|(->&(l1&l2&->&H1&H2)&Hf)].
    + destruct found as [[q s]|].
      * destruct (Z.ltb_spec (len x) (len s)) as [Hlt|Hge].
        -- injection Hf as <- <-. right. split_and!; [done| |by intros ? ? [= <- <-]]. exists [], l. split_and!; [done|by intros ? ?%elem_of_nil|done].
        -- injection Hf as -> ->. left. split; [done|]. intros y [->|Hy]%elem_of_cons; [done|by apply Hl].
      * injection Hf as <- <-. right. split_and!; [done| |done]. exists [], l. split_and!; [done|by intros ? ?%elem_of_nil|done].
    + right. destruct found as [[q s]|].
      * destruct (Z.ltb_spec (len x) (len s)) as [Hlt|Hge].
        -- pose proof (Hf _ _ eq_refl). split_and!; [done| |intros ? ? [= <- <-]; lia]. exists (x :: l1), l2.
           split_and!; [done|intros y [->|Hy]%elem_of_cons; [done|by apply H1]|done].
        -- pose proof (Hf _ _ eq_refl). split_and!; [done| |by intros ? ? [= <- <-]]. exists (x :: l1), l2.
           split_and!; [done|intros y [->|Hy]%elem_of_cons; [lia|by apply H1]|done].
      * pose proof (Hf _ _ eq_refl). split_and!; [done| |done]. exists (x :: l1), l2.
        split_and!; [done|intros y [->|Hy]%elem_of_cons; [done|by apply H1]|done].
Qed.

Lemma select_spec l n p i : select_identity l n None = Some (p, i) -> p = identity_prefix i /\ first_shortest (candidates l n) i.
Proof. rewrite select_pick. intros [[? _]|(?&?&_)]%pick_spec; done. Qed.

Lemma identity_prefix_name i : rib_name i -> rib_name (identity_prefix i).
Proof.
  intros [Hg Hl]. unfold identity_prefix. destruct (last i) as [c|] eqn:Hc; [|done]. destruct (NameComponent.equals _ c); [|done].
  apply last_Some in Hc as [q ->]. rewrite getPrefix_neg1 by (unfold U64; lia). apply Forall_app in Hg as [Hq _]. rewrite len_app in Hl.
  split; [done|]. pose proof (len_nonneg [c]). lia.
Qed.

Lemma candidates_narrow l p n : Forall rib_name l -> rib_name p -> rib_name n -> p `prefix_of` n ->
  candidates l p = List.filter (fun y => isPrefixOf (identity_prefix y) p) (candidates l n).
Proof.
  intros Hl Hp Hn Hpn. induction Hl as [|y l Hy _ IH]; [done|]. unfold candidates in *. cbn [List.filter].
  pose proof (identity_prefix_name y Hy) as Hiy. destruct (isPrefixOf (identity_prefix y) p) eqn:Hyp.
  - rewrite (proj2 (isPrefixOf_iff (identity_prefix y) n Hiy Hn)) by (transitivity p; [by apply isPrefixOf_iff|done]).
    cbn [List.filter]. rewrite Hyp. by f_equal.
  - destruct (isPrefixOf (identity_prefix y) n); [|done]. cbn [List.filter]. by rewrite Hyp.
Qed.

(** No identity covers the names that are not propagated: those under
    [/localhost] and the prefix of the hub. *)
Definition global_identity (i : Name) : Prop :=
  isPrefixOf (identity_prefix i) LINK_LOCAL_NFD_PREFIX = false /\ isPrefixOf LOCAL_REGISTRATION_PREFIX (identity_prefix i) = false /\
  isPrefixOf (identity_prefix i) LOCAL_REGISTRATION_PREFIX = false.

Section Invariant.
Context (ids : list Name) (Hids : Forall rib_name ids) (Hglobal : Forall global_identity ids).

Definition select (n : Name) : option (Name * Name) := select_identity ids n None.

Lemma select_prefix n p i : rib_name n -> select n = Some (p, i) -> rib_name p /\ p `prefix_of` n /\ i ∈ ids /\ p = identity_prefix i.
Proof.
  intros Hn Hs. apply select_spec in Hs as [-> (l1&l2&Hc&_)].
  assert (Hin : i ∈ candidates ids n) by (rewrite Hc; apply elem_of_app; right; left).
  apply list_elem_of_In, filter_In in Hin as [Hin%list_elem_of_In Hp]. rewrite Forall_forall in Hids.
  pose proof (identity_prefix_name i (Hids i Hin)) as Hip. split_and!; [done| |done|done]. by apply isPrefixOf_iff.
Qed.

(** The propagated prefix is propagated under the same identity. *)
Lemma select_again n p i : rib_name n -> select n = Some (p, i) -> select p = Some (p, i).
Proof.
  intros Hn Hs. destruct (select_prefix n p i Hn Hs) as (Hp&Hpn&Hi&Hpi). apply select_spec in Hs as [_ (l1&l2&Hc&H1&H2)].
  assert (Hcand : candidates ids p = List.filter (fun y => isPrefixOf (identity_prefix y) p) (candidates ids n)).
  { by apply candidates_narrow. }
  unfold select. rewrite select_pick, Hcand, Hc, List.filter_app. cbn [List.filter].
  rewrite (proj2 (isPrefixOf_iff (identity_prefix i) p ltac:(by rewrite <- Hpi) Hp)) by (by rewrite <- Hpi). rewrite Hpi.
  apply pick_first; [intros y Hy|intros y Hy|done]; apply list_elem_of_In, filter_In in Hy as [Hy%list_elem_of_In _]; auto.
Qed.

(** Everything under a propagated prefix has an identity. *)
Lemma select_covers n p i m : rib_name n -> select n = Some (p, i) -> rib_name m -> p `prefix_of` m -> select m <> None.
Proof.
  intros Hn Hs Hm Hpm Hnone. destruct (select_prefix n p i Hn Hs) as (Hp&_&Hi&->). unfold select in Hnone. rewrite select_pick in Hnone.
  assert (Hc : i ∈ candidates ids m) by (apply list_elem_of_In, filter_In; split; [by apply list_elem_of_In|by apply isPrefixOf_iff]).
  destruct (candidates ids m) as [|x l]; [by apply elem_of_nil in Hc|]. cbn [pick] in Hnone.
  assert (Hsome : forall l' z, pick l' (Some z) <> None).
  { clear. intros l'. induction l' as [|y l' IH]; intros [q s]; [done|]. cbn [pick]. destruct (len y <? len s); apply IH. }
  by apply Hsome in Hnone.
Qed.

Lemma local_name : rib_name LOCAL_REGISTRATION_PREFIX.
Proof. by_decide. Qed.

Lemma select_local n : rib_name n -> isPrefixOf LOCAL_REGISTRATION_PREFIX n = true -> select n = None.
Proof.
  intros Hn Hl. destruct (select n) as [[p i]|] eqn:Hs; [|done]. exfalso. destruct (select_prefix n p i Hn Hs) as (Hp&Hpn&Hi&->).
  rewrite Forall_forall in Hglobal. destruct (Hglobal i Hi) as (_&H1&H2). apply isPrefixOf_iff in Hl; [|apply local_name|done].
  destruct (prefix_weak_total _ _ _ Hpn Hl) as [Hx|Hx]; apply isPrefixOf_iff in Hx; (congruence || done || apply local_name).
Qed.

Lemma select_hub : select LINK_LOCAL_NFD_PREFIX = None.
Proof.
  destruct (select LINK_LOCAL_NFD_PREFIX) as [[p i]|] eqn:Hs; [|done]. exfalso. assert (Hh : rib_name LINK_LOCAL_NFD_PREFIX) by by_decide.
  destruct (select_prefix _ p i Hh Hs) as (Hp&Hpn&Hi&->). rewrite Forall_forall in Hglobal. destruct (Hglobal i Hi) as (H1&_).
  apply isPrefixOf_iff in Hpn; [congruence|done|done].
Qed.

(** ** The entries *)

Implicit Types (l : list (Name * PropagatedEntry)) (e : PropagatedEntry).

Definition entries_ok l : Prop := NoDup (map fst l) /\ Forall rib_name (map fst l).

Lemma equals_iff a b : rib_name a -> rib_name b -> Name_equals a b = true <-> a = b.
Proof. intros [Ha _] [Hb _]. by apply Name_equals_gen. Qed.

Lemma find_cons x l n : rib_name x.1 -> rib_name n -> entry_find n (x :: l) = if decide (x.1 = n) then Some x.2 else entry_find n l.
Proof.
  intros Hx Hn. unfold entry_find. cbn [List.find]. destruct (Name_equals x.1 n) eqn:He.
  - apply equals_iff in He; [|done|done]. by rewrite decide_True.
  - rewrite decide_False; [done|]. intros Heq. apply equals_iff in Heq; [congruence|done|done].
Qed.

Lemma find_None_iff l n : Forall rib_name (map fst l) -> rib_name n -> entry_find n l = None <-> n ∉ map fst l.
Proof.
  intros Hl Hn. induction l as [|x l IH]; [split; [by intros _ ?%elem_of_nil|done]|]. cbn [map] in *. apply Forall_cons in Hl as [Hx Hl].
  rewrite find_cons, elem_of_cons by done. destruct (decide (x.1 = n)) as [->|Hne]; [split; [done|tauto]|]. rewrite (IH Hl). split; [|tauto].
  intros Hnot [->|?]; tauto.
Qed.

Lemma find_key l n e : Forall rib_name (map fst l) -> rib_name n -> entry_find n l = Some e -> n ∈ map fst l.
Proof. intros Hl Hn He. destruct (decide (n ∈ map fst l)) as [|Hno]; [done|]. apply find_None_iff in Hno; [congruence|done|done]. Qed.

Lemma entry_update_spec n f l : entries_ok l -> rib_name n -> entries_ok (entry_update n f l) /\
  forall m, rib_name m -> entry_find m (entry_update n f l) = if decide (m = n) then f <$> entry_find n l else entry_find m l.
Proof.
  intros [Hnd Hl] Hn.
  assert (Hkeys : map fst (entry_update n f l) = map fst l).
  { unfold entry_update. rewrite map_map. apply map_ext. intros x. by destruct (Name_equals x.1 n). }
  split; [by split; rewrite Hkeys|]. intros m Hm. clear Hkeys Hnd. induction l as [|x l IH]; [by destruct (decide _)|].
  cbn [map] in Hl. apply Forall_cons in Hl as [Hx Hl]. unfold entry_update. cbn [map]. fold (entry_update n f l).
  destruct (Name_equals x.1 n) eqn:He.
  - apply equals_iff in He; [|done|done]. rewrite find_cons by done. cbn [fst snd]. rewrite IH by done. rewrite !find_cons by done. rewrite He.
    destruct (decide (n = m)) as [->|Hne]; [by rewrite !decide_True|]. by rewrite !decide_False.
  - rewrite !find_cons by done. rewrite IH by done. destruct (decide (x.1 = m)) as [<-|Hne].
    + rewrite decide_False; [done|]. intros Heq. apply equals_iff in Heq; [congruence|done|done].
    + destruct (decide (m = n)) as [->|]; [|done]. by rewrite decide_False.
Qed.

Lemma erase_entry_spec n l : entries_ok l -> rib_name n -> entries_ok (entry_erase n l) /\
  forall m, rib_name m -> entry_find m (entry_erase n l) = if decide (m = n) then None else entry_find m l.
Proof.
  intros Hok Hn. induction l as [|x l IH]; [split; [done|]; intros m _; by destruct (decide _)|].
  destruct Hok as [Hnd Hl]. cbn [map] in *. apply NoDup_cons in Hnd as [Hx Hnd]. apply Forall_cons in Hl as [Hxr Hl].
  destruct (IH (conj Hnd Hl)) as [Hok' Hf]. unfold entry_erase. cbn [List.filter]. fold (entry_erase n l).
  destruct (Name_equals x.1 n) eqn:He; cbn [negb].
  - apply equals_iff in He; [|done|done]. split; [done|]. intros m Hm. rewrite Hf by done. destruct (decide (m = n)) as [->|Hne]; [done|].
    rewrite find_cons by done. by rewrite decide_False by congruence.
  - assert (Hxn : x.1 <> n) by (intros Heq; apply equals_iff in Heq; [congruence|done|done]). split.
    + destruct Hok' as [Hnd' Hl']. split; cbn [map]; [|by constructor]. constructor; [|done]. intros Hin. apply Hx.
      apply list_elem_of_fmap in Hin as (y&->&Hy). apply list_elem_of_In, filter_In in Hy as [Hy _]. apply list_elem_of_fmap. exists y. split; [done|by apply list_elem_of_In].
    + intros m Hm. rewrite !find_cons by done. rewrite Hf by done. destruct (decide (x.1 = m)) as [<-|]; [by rewrite decide_False|done].
Qed.

(** ** The requests *)

(** Parameters of a request for [p], with or without a cost *)
Record request_for (p : Name) (withCost : bool) (c : ControlParameters) : Prop := {
  rf_name : cp_name c = Some p;
  rf_prefix : rib_name p;
  rf_others : cp_uri c = None /\ cp_localControlFeature c = None /\ cp_flags c = None /\ cp_strategy c = None /\
    cp_expirationPeriod c = None /\ cp_facePersistency c = None;
  rf_face : is_Some (cp_faceId c);
  rf_origin : is_Some (cp_origin c);
  rf_cost : if withCost then is_Some (cp_cost c) else cp_cost c = None
}.

Lemma request_register p c : request_for p true c -> validateRequest RibRegisterCommand c = Ok tt.
Proof.
  intros [Hn _ (?&?&?&?&?&?) [f Hf] [o Ho] [k Hk]]. destruct c. cbn in *. subst. done.
Qed.

Lemma request_unregister p c : request_for p false c -> validateRequest RibUnregisterCommand c = Ok tt.
Proof.
  intros [Hn _ (?&?&?&?&?&?) [f Hf] [o Ho] Hk]. destruct c. cbn in *. subst. done.
Qed.

(** The parameters that the configuration makes *)
Record configured (c : ControlParameters) : Prop := {
  cf_others : cp_uri c = None /\ cp_localControlFeature c = None /\ cp_flags c = None /\ cp_strategy c = None /\
    cp_expirationPeriod c = None /\ cp_facePersistency c = None;
  cf_face : is_Some (cp_faceId c);
  cf_origin : is_Some (cp_origin c);
  cf_cost : is_Some (cp_cost c)
}.

Lemma request_configured p c : configured c -> rib_name p -> request_for p true (ControlParameters.setName p c).
Proof. intros [? ? ? ?] Hp. by split. Qed.

Lemma request_unset p c : request_for p true c -> request_for p false (unsetCost c).
Proof. intros [? ? ? ? ? ?]. by split. Qed.

Lemma request_set p k c : request_for p false c -> request_for p true (setCost k c).
Proof. intros [? ? ? ? ? ?]. by split. Qed.

Definition command_ok (x : PropagationCommand) : Prop :=
  match x with
  | Propagation c _ _ _ => exists p, request_for p true c
  | Revocation c _ _ => exists p, request_for p false c
  end.

Definition event_ok (p : Name) (x : Z * TimerEvent) : Prop :=
  match x.2 with OnRefreshTimer c _ | OnRetryTimer c _ _ => request_for p true c end.

(** ** The invariant *)

Definition hub : Name := LINK_LOCAL_NFD_PREFIX.

(** What is left to happen to an entry: it is refreshed, or tried again *)
Definition timer_set e : Prop :=
  match pg_status e with
  | NEW => pg_event e = None
  | PROPAGATING => True
  | PROPAGATED => exists t c o, pg_event e = Some (t, OnRefreshTimer c o)
  | PROPAGATE_FAIL => exists t c o w, pg_event e = Some (t, OnRetryTimer c o w)
  end.

Record entry_inv (connected : bool) (rib : list Name) (p : Name) e : Prop := {
  ei_from : exists n, n ∈ rib /\ select n = Some (p, pg_signingIdentity e);
  ei_status : pg_status e = NEW <-> connected = false;
  ei_timer : timer_set e;
  ei_event : match pg_event e with Some x => event_ok p x /\ connected = true | None => True end
}.

Record prop_inv (rib : list Name) (a : Propagator) : Prop := {
  pv_rib : Forall rib_name rib /\ NoDup rib;
  pv_entries : entries_ok (ap_entries a);
  pv_cover n p i : n ∈ rib -> select n = Some (p, i) -> is_Some (entry_find p (ap_entries a));
  pv_hub : ap_hasConnectedHub a = true <-> hub ∈ rib;
  pv_entry p e : rib_name p -> entry_find p (ap_entries a) = Some e -> entry_inv (ap_hasConnectedHub a) rib p e;
  pv_config : configured (ap_controlParameters a);
  pv_commands : Forall command_ok (ap_commands a)
}.

Lemma Forall_snoc {A} (P : A -> Prop) (l : list A) x : Forall P l -> P x -> Forall P (l ++ [x]).
Proof. intros Hl Hx. apply Forall_app. by split; [|constructor]. Qed.

Lemma hub_name : rib_name hub.
Proof. by_decide. Qed.

Lemma startPropagation_ok p c o w a : request_for p true c ->
  startPropagation c o w a = Ok (with_commands (ap_commands a ++ [Propagation c o w (Z.min (ap_maxRetryWait a) (w * 2))]) a).
Proof. intros Hc. unfold startPropagation. by rewrite (request_register p c Hc). Qed.

Lemma startRevocation_ok p c o w a : request_for p false c ->
  startRevocation c o w a = Ok (with_commands (ap_commands a ++ [Revocation c o w]) a).
Proof. intros Hc. unfold startRevocation. by rewrite (request_unregister p c Hc). Qed.

Lemma works p i a : rib_name p -> select p = Some (p, i) -> doesCurrentPropagatedPrefixWork ids p a = Ok true.
Proof.
  intros Hp Hs. unfold doesCurrentPropagatedPrefixWork, getPrefixPropagationParameters. fold (select p). rewrite Hs.
  cbn [ControlParameters.setName cp_name cp_get rbind]. by rewrite Z.eqb_refl.
Qed.

(** Redoing a propagation sends a request and marks the entry. *)
Lemma redo_spec rib reinsert p c o w a : (exists i, select p = Some (p, i)) -> request_for p true c ->
  redoPropagation ids rib reinsert p c o w a =
  Ok (with_commands (ap_commands a ++ [Propagation c o w (Z.min (ap_maxRetryWait a) (w * 2))]) (with_entries (entry_update p entry_startPropagation (ap_entries a)) a)).
Proof.
  intros [i Hs] Hc. unfold redoPropagation. rewrite (rf_name _ _ _ Hc). cbn [cp_get rbind].
  rewrite (works p i) by (done || apply Hc). cbn [rbind]. by rewrite (startPropagation_ok p).
Qed.

(** ** The steps *)

(** The loop of [afterHubConnect] *)
Definition reconnect (rib : list Name) (reinsert : Name -> Propagator -> result Propagator) (key : Name) (a : Propagator) : result Propagator :=
  match entry_find key (ap_entries a) with
  | None => Err OutOfRange
  | Some e =>
      redoPropagation ids rib reinsert key (ControlParameters.setName key (ap_controlParameters a))
        (MkCommandOptions (opt_timeout (ap_commandOptions a)) (opt_prefix (ap_commandOptions a)) (pg_signingIdentity e)) (ap_baseRetryWait a) a
  end.

Lemma reconnect_loop rib reinsert (names : list Name) : forall a, entries_ok (ap_entries a) -> configured (ap_controlParameters a) -> Forall command_ok (ap_commands a) ->
  (forall p, p ∈ names -> rib_name p /\ is_Some (entry_find p (ap_entries a)) /\ exists i, select p = Some (p, i)) ->
  exists a', for_names (reconnect rib reinsert) names a = Ok a' /\ entries_ok (ap_entries a') /\ configured (ap_controlParameters a') /\
    Forall command_ok (ap_commands a') /\ ap_hasConnectedHub a' = ap_hasConnectedHub a /\
    forall p, rib_name p -> entry_find p (ap_entries a') = if decide (p ∈ names) then entry_startPropagation <$> entry_find p (ap_entries a) else entry_find p (ap_entries a).
Proof.
  induction names as [|q l IH]; intros a Hok Hc Hcmd Hall; cbn [for_names].
  - exists a. by split_and!.
  - destruct (Hall q ltac:(left)) as (Hq&[e He]&Hs). unfold reconnect at 1. rewrite He.
    pose proof (request_configured q _ Hc Hq) as Hreq. rewrite redo_spec by done. cbn [rbind].
    destruct (entry_update_spec q entry_startPropagation (ap_entries a) Hok Hq) as [Hok1 Hf1].
    match goal with |- context [for_names _ l ?x] => destruct (IH x) as (a'&->&Hok'&Hc'&Hcmd'&Hhub&Hf') end.
    + exact Hok1.
    + exact Hc.
    + cbn [with_commands with_entries ap_commands]. apply Forall_app. split; [done|]. constructor; [by exists q|constructor].
    + intros p Hp. destruct (Hall p ltac:(by right)) as (Hpr&Hps&Hpi). split_and!; [done| |done]. cbn [with_commands with_entries ap_entries].
      rewrite Hf1 by done. destruct (decide (p = q)) as [->|]; [by rewrite fmap_is_Some|done].
    + exists a'. split_and!; try done. intros p Hp. rewrite Hf' by done. cbn [with_commands with_entries ap_entries]. rewrite Hf1 by done.
      destruct (decide (p = q)) as [->|Hne].
      * rewrite (decide_True (P := q ∈ q :: l)) by left. destruct (decide (q ∈ l)); [by destruct (entry_find q (ap_entries a))|done].
      * destruct (decide (p ∈ l)), (decide (p ∈ q :: l)) as [Hx|Hx]; rewrite elem_of_cons in Hx; tauto || done.
Qed.

Lemma entry_find_elem l p e : entries_ok l -> (p, e) ∈ l -> entry_find p l = Some e.
Proof.
  intros [Hnd Hl] Hin. induction l as [|x l IH]; [by apply elem_of_nil in Hin|]. cbn [map] in *. apply NoDup_cons in Hnd as [Hx Hnd].
  apply Forall_cons in Hl as [Hxr Hl].
  assert (Hp : rib_name p).
  { apply elem_of_cons in Hin as [<-|Hin]; [done|]. rewrite Forall_forall in Hl. apply Hl. apply list_elem_of_fmap. by exists (p, e). }
  rewrite find_cons by done. apply elem_of_cons in Hin as [<-|Hin]; [by rewrite decide_True|].
  rewrite decide_False; [by apply IH|]. intros Heq. apply Hx. rewrite Heq. apply list_elem_of_fmap. by exists (p, e).
Qed.

Lemma entry_from connected rib rib' p e : (forall n, n ∈ rib -> n ∈ rib') -> entry_inv connected rib p e -> entry_inv connected rib' p e.
Proof. intros Hsub [(n&Hn&Hs) ? ? ?]. split; [|done|done|done]. exists n. split; [by apply Hsub|done]. Qed.

Lemma local_not_hub n : isPrefixOf LOCAL_REGISTRATION_PREFIX n = true -> n <> hub.
Proof. by intros Hl ->. Qed.

Lemma rib_grows rib rib' n : Forall rib_name rib /\ NoDup rib -> rib_name n -> n ∉ rib -> rib' ≡ₚ n :: rib -> Forall rib_name rib' /\ NoDup rib'.
Proof. intros [Hf Hnd] Hn Hin Hp. rewrite Hp. split; by constructor. Qed.

(** A name that adds nothing to the entries *)
Lemma inv_more rib rib' n a : prop_inv rib a -> rib_name n -> n ∉ rib -> rib' ≡ₚ n :: rib -> n <> hub ->
  (forall p i, select n = Some (p, i) -> is_Some (entry_find p (ap_entries a))) -> prop_inv rib' a.
Proof.
  intros Hv Hn Hin Hp Hh Hs.
  assert (Hmem : forall m, m ∈ rib' <-> m = n \/ m ∈ rib) by (intros m; by rewrite Hp, elem_of_cons).
  split; try apply Hv.
  - by apply (rib_grows rib rib' n); [apply Hv|..].
  - intros m p i [->|Hm]%Hmem; [by apply Hs|by apply (pv_cover _ _ Hv)].
  - rewrite (pv_hub _ _ Hv), Hmem. split; [by right|]. intros [?|?]; [congruence|done].
  - intros p e Hpr He. eapply entry_from; [|by apply (pv_entry _ _ Hv)]. intros m Hm. apply Hmem. by right.
Qed.

Lemma inv_entries_new rib a : prop_inv rib a -> ap_hasConnectedHub a = false -> forallb (fun x => isNew x.2) (ap_entries a) = true.
Proof.
  intros Hv Hh. apply forallb_forall. intros [p e] Hx%list_elem_of_In. pose proof (entry_find_elem _ _ _ (pv_entries _ _ Hv) Hx) as He.
  assert (Hp : rib_name p) by (destruct (pv_entries _ _ Hv) as [_ Hl]; rewrite Forall_forall in Hl; apply Hl, list_elem_of_fmap; by exists (p, e)).
  unfold isNew. apply bool_decide_eq_true. by apply (ei_status _ _ _ _ (pv_entry _ _ Hv p e Hp He)).
Qed.

Lemma inv_entries_used rib a : prop_inv rib a -> ap_hasConnectedHub a = true -> forallb (fun x => negb (isNew x.2)) (ap_entries a) = true.
Proof.
  intros Hv Hh. apply forallb_forall. intros [p e] Hx%list_elem_of_In. pose proof (entry_find_elem _ _ _ (pv_entries _ _ Hv) Hx) as He.
  assert (Hp : rib_name p) by (destruct (pv_entries _ _ Hv) as [_ Hl]; rewrite Forall_forall in Hl; apply Hl, list_elem_of_fmap; by exists (p, e)).
  unfold isNew. apply negb_true_iff, bool_decide_eq_false. intros Hnew. apply (ei_status _ _ _ _ (pv_entry _ _ Hv p e Hp He)) in Hnew. cbn in Hnew. congruence.
Qed.

Lemma entry_selected rib a p e : prop_inv rib a -> rib_name p -> entry_find p (ap_entries a) = Some e -> select p = Some (p, pg_signingIdentity e).
Proof.
  intros Hv Hp He. destruct (ei_from _ _ _ _ (pv_entry _ _ Hv p e Hp He)) as (n&Hn&Hs). apply (select_again n); [|done].
  destruct (pv_rib _ _ Hv) as [Hr _]. rewrite Forall_forall in Hr. by apply Hr.
Qed.

(** The hub connects. *)
Lemma inv_connect rib rib' fuel a : prop_inv rib a -> hub ∉ rib -> rib' ≡ₚ hub :: rib ->
  exists a', afterHubConnect ids rib' (insert_loop ids rib' fuel) (with_hub true a) = Ok a' /\ prop_inv rib' a'.
Proof.
  intros Hv Hin Hp. assert (Hfalse : ap_hasConnectedHub a = false) by (destruct (ap_hasConnectedHub a) eqn:Hh; [|done]; by apply (pv_hub _ _ Hv) in Hh).
  unfold afterHubConnect. cbn [with_hub ap_entries]. rewrite (inv_entries_new rib a Hv Hfalse). cbn [negb]. fold (reconnect rib' (insert_loop ids rib' fuel)).
  assert (Hmem : forall m, m ∈ rib' <-> m = hub \/ m ∈ rib) by (intros m; by rewrite Hp, elem_of_cons).
  destruct (pv_entries _ _ Hv) as [Hnd Hnames]. pose proof Hnames as Hnames'. rewrite Forall_forall in Hnames'.
  destruct (reconnect_loop rib' (insert_loop ids rib' fuel) (map fst (ap_entries a)) (with_hub true a)) as (a'&Hok&He'&Hc'&Hcmd'&Hhub&Hf'); try apply Hv.
  { intros p Hin'. pose proof (Hnames' p Hin') as Hpr. destruct (entry_find p (ap_entries a)) as [e|] eqn:He.
    - split_and!; [done|by eexists|]. eexists. by apply (entry_selected rib a p e).
    - apply find_None_iff in He; done. }
  exists a'. split; [exact Hok|]. cbn [with_hub ap_entries ap_hasConnectedHub] in *.
  assert (Hfind : forall p, rib_name p -> entry_find p (ap_entries a') = entry_startPropagation <$> entry_find p (ap_entries a)).
  { intros p Hpr. rewrite Hf' by done. destruct (decide (p ∈ map fst (ap_entries a))) as [|Hno]; [done|]. apply find_None_iff in Hno; [|done|done]. by rewrite Hno. }
  split; try done.
  - eapply rib_grows; [apply Hv|apply hub_name|done|done].
  - intros n p i [->|Hm]%Hmem Hs; [by rewrite (select_hub : select hub = None) in Hs|].
    assert (Hpr : rib_name p) by (destruct (pv_rib _ _ Hv) as [Hr _]; rewrite Forall_forall in Hr; by eapply select_prefix; [apply Hr|]).
    rewrite Hfind, fmap_is_Some by done. by apply (pv_cover _ _ Hv n p i).
  - rewrite Hhub, Hmem. split; [by left|done].
  - intros p e Hpr He. rewrite Hfind in He by done. apply fmap_Some in He as (e0&He0&->). pose proof (pv_entry _ _ Hv p e0 Hpr He0) as [H1 H2 _ H3].
    rewrite Hhub. split; [destruct H1 as (m&?&?); exists m; split; [apply Hmem; by right|done]|done|done|]. cbn. destruct (pg_event e0); [|done].
    destruct H3 as [? H3]. congruence.
Qed.

Lemma getParameters n a : getPrefixPropagationParameters ids n a =
  match select n with
  | None => None
  | Some (p, i) => Some (ControlParameters.setName p (ap_controlParameters a), MkCommandOptions (opt_timeout (ap_commandOptions a)) (opt_prefix (ap_commandOptions a)) i)
  end.
Proof. done. Qed.

Lemma rib_name_of rib a n : prop_inv rib a -> n ∈ rib -> rib_name n.
Proof. intros Hv. destruct (pv_rib _ _ Hv) as [Hr _]. rewrite Forall_forall in Hr. apply Hr. Qed.

(** A new entry *)
Lemma inv_add rib rib' n p i e a cs : prop_inv rib a -> rib_name n -> n ∉ rib -> rib' ≡ₚ n :: rib -> select n = Some (p, i) ->
  entry_find p (ap_entries a) = None -> pg_signingIdentity e = i -> (pg_status e = NEW <-> ap_hasConnectedHub a = false) -> pg_event e = None ->
  isNew e || isPropagating e = true -> Forall command_ok cs -> prop_inv rib' (with_commands cs (with_entries ((p, e) :: ap_entries a) a)).
Proof.
  intros Hv Hn Hin Hp Hs Hnone Hsig Hst Hev Hnp Hl. destruct (select_prefix n p i Hn Hs) as (Hpr&_&_&_).
  assert (Hmem : forall m, m ∈ rib' <-> m = n \/ m ∈ rib) by (intros m; by rewrite Hp, elem_of_cons).
  destruct (pv_entries _ _ Hv) as [Hnd Hnames].
  assert (Hfind : forall q, rib_name q -> entry_find q ((p, e) :: ap_entries a) = if decide (p = q) then Some e else entry_find q (ap_entries a)).
  { intros q Hq. by rewrite find_cons. }
  split; cbn [with_commands with_entries ap_entries ap_hasConnectedHub ap_controlParameters ap_commands]; try done.
  - by apply (rib_grows rib rib' n); [apply Hv|..].
  - split; cbn [map fst]; constructor; try done. by apply find_None_iff in Hnone.
  - intros m q j Hm Hmq. assert (Hmr : rib_name m) by (apply Hmem in Hm as [->|Hm]; [done|by apply (rib_name_of rib a)]).
    destruct (select_prefix m q j Hmr Hmq) as (Hq&_). rewrite Hfind by done. destruct (decide (p = q)) as [|Hne]; [by eexists|].
    apply Hmem in Hm as [->|Hm]; [congruence|]. by apply (pv_cover _ _ Hv m q j).
  - rewrite (pv_hub _ _ Hv), Hmem. split; [by right|]. intros [<-|?]; [|done]. by rewrite (select_hub : select hub = None) in Hs.
  - intros q f Hq Hf. rewrite Hfind in Hf by done. destruct (decide (p = q)) as [<-|Hne].
    + injection Hf as <-. split; [exists n; split; [apply Hmem; by left|by rewrite Hsig]|done| |by rewrite Hev].
      unfold timer_set. unfold isNew, isPropagating in Hnp. destruct (pg_status e); done.
    + eapply entry_from; [|by apply (pv_entry _ _ Hv)]. intros m Hm. apply Hmem. by right.
  - apply Hv.
Qed.

(** A prefix that is to be propagated has an entry already, and there is no hub. *)
Definition insert_stale n a : bool :=
  negb (ap_hasConnectedHub a) && match select n with Some (p, _) => bool_decide (is_Some (entry_find p (ap_entries a))) | None => false end.

Lemma prop_inv_insert rib rib' n a : prop_inv rib a -> rib_name n -> n ∉ rib -> rib' ≡ₚ n :: rib ->
  if insert_stale n a then afterInsertRibEntry ids rib' n a = Err AssertFailed
  else exists a', afterInsertRibEntry ids rib' n a = Ok a' /\ prop_inv rib' a'.
Proof.
  intros Hv Hn Hin Hp. unfold afterInsertRibEntry, insert_stale. replace (length (ap_entries a) + 2)%nat with (S (length (ap_entries a) + 1)) by lia.
  cbn [insert_loop]. destruct (isPrefixOf LOCAL_REGISTRATION_PREFIX n) eqn:Hl.
  { rewrite select_local, andb_false_r by done. exists a. split; [done|]. apply (inv_more rib rib' n); try done; [by apply local_not_hub|].
    intros p i. by rewrite select_local. }
  destruct (Name_equals n LINK_LOCAL_NFD_PREFIX) eqn:Hh.
  { apply equals_iff in Hh as ->; [|done|apply hub_name]. rewrite select_hub, andb_false_r. by apply (inv_connect rib). }
  assert (Hnh : n <> hub) by (intros Heq; apply equals_iff in Heq; [unfold hub in Heq; congruence|done|apply hub_name]).
  rewrite getParameters. destruct (select n) as [[p i]|] eqn:Hs.
  2: { rewrite andb_false_r. exists a. split; [done|]. apply (inv_more rib rib' n); try done. intros ? ?. by rewrite Hs. }
  destruct (select_prefix n p i Hn Hs) as (Hpr&_). cbn [ControlParameters.setName cp_name cp_get rbind].
  destruct (entry_find p (ap_entries a)) as [e|] eqn:He.
  - rewrite bool_decide_eq_true_2, andb_true_r by by eexists. pose proof (ei_status _ _ _ _ (pv_entry _ _ Hv p e Hpr He)) as Hst. unfold isNew.
    destruct (ap_hasConnectedHub a); cbn [negb].
    + rewrite bool_decide_eq_false_2 by (by intros ?%Hst). exists a. split; [done|]. apply (inv_more rib rib' n); try done. intros p' i'.
      rewrite Hs. intros [= <- <-]. by eexists.
    + by rewrite bool_decide_eq_true_2 by by apply Hst.
  - rewrite bool_decide_eq_false_2, andb_false_r by by intros [? [=]].
    unfold afterRibInsert. cbn [ControlParameters.setName cp_name cp_get rbind]. rewrite He. cbn [opt_signer]. destruct (ap_hasConnectedHub a) eqn:Hc; cbn [negb].
    + rewrite (startPropagation_ok p) by (by apply request_configured, Hpr; apply Hv). eexists. split; [done|].
      apply (inv_add rib rib' n p i); try done; [by rewrite Hc|]. apply Forall_snoc; [apply Hv|].
      exists p. by apply request_configured, Hpr; apply Hv.
    + eexists. split; [done|]. exact (inv_add rib rib' n p i (setSigningIdentity i PropagatedEntry_new) a (ap_commands a) Hv Hn Hin Hp Hs He eq_refl
        ltac:(by rewrite Hc) eq_refl eq_refl (pv_commands _ _ Hv)).
Qed.

(** A name that goes and takes no entry with it *)
Lemma inv_fewer rib rib' n a : prop_inv rib a -> rib ≡ₚ n :: rib' -> n <> hub ->
  (forall p e, rib_name p -> entry_find p (ap_entries a) = Some e -> select n = Some (p, pg_signingIdentity e) ->
     exists m, m ∈ rib' /\ select m = Some (p, pg_signingIdentity e)) -> prop_inv rib' a.
Proof.
  intros Hv Hp Hh Hother. assert (Hmem : forall m, m ∈ rib <-> m = n \/ m ∈ rib') by (intros m; by rewrite Hp, elem_of_cons).
  destruct (pv_rib _ _ Hv) as [Hr Hnd]. rewrite Hp in Hr, Hnd. apply Forall_cons in Hr as [_ Hr]. apply NoDup_cons in Hnd as [Hn Hnd].
  split; try apply Hv; try done.
  - intros m p i Hm. apply (pv_cover _ _ Hv). apply Hmem. by right.
  - rewrite (pv_hub _ _ Hv), Hmem. split; [|by right]. intros [?|?]; [congruence|done].
  - intros p e Hpr He. pose proof (pv_entry _ _ Hv p e Hpr He) as [(m&Hm&Hs) H2 ? H3]. split; [|done|done|done].
    apply Hmem in Hm as [->|Hm]; [by apply (Hother p e)|by exists m].
Qed.

Lemma inv_erased rib rib' n p i a cs : prop_inv rib a -> rib ≡ₚ n :: rib' -> select n = Some (p, i) ->
  (forall m, m ∈ rib' -> select m <> Some (p, i)) -> Forall command_ok cs ->
  prop_inv rib' (with_commands cs (with_entries (entry_erase p (ap_entries a)) a)).
Proof.
  intros Hv Hp Hs Hno Hcs. assert (Hmem : forall m, m ∈ rib <-> m = n \/ m ∈ rib') by (intros m; by rewrite Hp, elem_of_cons).
  assert (Hn : rib_name n) by (apply (rib_name_of rib a); [done|apply Hmem; by left]). destruct (select_prefix n p i Hn Hs) as (Hpr&_).
  destruct (pv_rib _ _ Hv) as [Hr Hnd]. rewrite Hp in Hr, Hnd. apply Forall_cons in Hr as [_ Hr]. apply NoDup_cons in Hnd as [_ Hnd].
  destruct (erase_entry_spec p (ap_entries a) (pv_entries _ _ Hv) Hpr) as [Hok Hf].
  assert (Hdiff : forall m q j, m ∈ rib' -> select m = Some (q, j) -> q <> p).
  { intros m q j Hm Hmq ->. assert (Hmr : rib_name m) by (apply (rib_name_of rib a); [done|apply Hmem; by right]).
    pose proof (select_again m p j Hmr Hmq) as H1. rewrite (select_again n p i Hn Hs) in H1. injection H1 as <-. by apply (Hno m). }
  split; cbn [with_commands with_entries ap_entries ap_hasConnectedHub ap_controlParameters ap_commands]; try done.
  - intros m q j Hm Hmq. assert (Hmr : rib_name m) by (apply (rib_name_of rib a); [done|apply Hmem; by right]).
    rewrite Hf by (by eapply select_prefix). rewrite decide_False by (by eapply Hdiff). apply (pv_cover _ _ Hv m q j); [apply Hmem; by right|done].
  - rewrite (pv_hub _ _ Hv), Hmem. split; [|by right]. intros [<-|?]; [|done]. by rewrite (select_hub : select hub = None) in Hs.
  - intros q e Hq He. rewrite Hf in He by done. destruct (decide (q = p)) as [|Hne]; [done|].
    pose proof (pv_entry _ _ Hv q e Hq He) as [(m&Hm&Hms) H2 ? H3]. split; [|done|done|done]. apply Hmem in Hm as [->|Hm]; [congruence|by exists m].
  - apply Hv.
Qed.

Lemma inv_disconnect rib rib' a : prop_inv rib a -> rib ≡ₚ hub :: rib' ->
  exists a', afterHubDisconnect (with_hub false a) = Ok a' /\ prop_inv rib' a'.
Proof.
  intros Hv Hp. assert (Hmem : forall m, m ∈ rib <-> m = hub \/ m ∈ rib') by (intros m; by rewrite Hp, elem_of_cons).
  assert (Htrue : ap_hasConnectedHub a = true) by (apply (pv_hub _ _ Hv), Hmem; by left).
  unfold afterHubDisconnect. cbn [with_hub ap_entries]. rewrite (inv_entries_used rib a Hv Htrue). cbn [negb]. eexists. split; [done|].
  destruct (pv_rib _ _ Hv) as [Hr Hnd]. rewrite Hp in Hr, Hnd. apply Forall_cons in Hr as [_ Hr]. apply NoDup_cons in Hnd as [Hhub Hnd].
  destruct (pv_entries _ _ Hv) as [Hkd Hkn].
  assert (Hkeys : map fst (map (fun x => (x.1, initialize x.2)) (ap_entries a)) = map fst (ap_entries a)) by (by rewrite map_map).
  assert (Hfind : forall p, rib_name p -> entry_find p (map (fun x => (x.1, initialize x.2)) (ap_entries a)) = initialize <$> entry_find p (ap_entries a)).
  { intros p Hpr. clear Hkd Hkeys Hv Htrue. induction (ap_entries a) as [|x l IH]; [done|]. cbn [map] in *. apply Forall_cons in Hkn as [Hx Hkn].
    rewrite !find_cons by done. cbn [fst snd]. rewrite IH by done. by destruct (decide _). }
  split; cbn [with_entries with_hub ap_entries ap_hasConnectedHub ap_controlParameters ap_commands]; try done; try apply Hv.
  - by split; rewrite Hkeys.
  - intros n p i Hn Hs. assert (Hnr : rib_name n) by (apply (rib_name_of rib a); [done|apply Hmem; by right]).
    rewrite Hfind, fmap_is_Some by (by eapply select_prefix). apply (pv_cover _ _ Hv n p i); [apply Hmem; by right|done].
  - intros p e Hpr He. rewrite Hfind in He by done. apply fmap_Some in He as (e0&He0&->). destruct (pv_entry _ _ Hv p e0 Hpr He0) as [(m&Hm&Hs) _ _ _].
    split; [|done|done|done]. exists m. split; [|done]. apply Hmem in Hm as [->|]; [|done]. by rewrite (select_hub : select hub = None) in Hs.
Qed.

Lemma signer_select m a : signer_name ids m a = match select m with Some (_, j) => j | None => [] end.
Proof. unfold signer_name. rewrite getParameters. by destruct (select m) as [[? ?]|]. Qed.

Lemma inv_erase rib rib' n a : prop_inv rib a -> rib ≡ₚ n :: rib' ->
  exists a', afterEraseRibEntry ids rib' n a = Ok a' /\ prop_inv rib' a'.
Proof.
  intros Hv Hp. assert (Hmem : forall m, m ∈ rib <-> m = n \/ m ∈ rib') by (intros m; by rewrite Hp, elem_of_cons).
  assert (Hn : rib_name n) by (apply (rib_name_of rib a); [done|apply Hmem; by left]).
  unfold afterEraseRibEntry. destruct (isPrefixOf LOCAL_REGISTRATION_PREFIX n) eqn:Hl.
  { exists a. split; [done|]. apply (inv_fewer rib rib' n); [done|done|by apply local_not_hub|]. intros p e _ _. by rewrite select_local. }
  destruct (Name_equals n LINK_LOCAL_NFD_PREFIX) eqn:Hh.
  { apply equals_iff in Hh as ->; [|done|apply hub_name]. by apply (inv_disconnect rib). }
  assert (Hnh : n <> hub) by (intros Heq; apply equals_iff in Heq; [unfold hub in Heq; congruence|done|apply hub_name]).
  rewrite getParameters. destruct (select n) as [[p i]|] eqn:Hs; [|exists a; split; [done|]; apply (inv_fewer rib rib' n); try done; intros; congruence].
  destruct (select_prefix n p i Hn Hs) as (Hpr&_&Hi&_). cbn [ControlParameters.setName cp_name cp_get rbind opt_signer].
  destruct (entry_find p (ap_entries a)) as [e|] eqn:He.
  2: { destruct (pv_cover _ _ Hv n p i) as [? ?]; [apply Hmem; by left|done|congruence]. }
  assert (Hsig : pg_signingIdentity e = i) by (pose proof (entry_selected rib a p e Hv Hpr He) as H1; rewrite (select_again n p i Hn Hs) in H1; by injection H1).
  assert (Hir : rib_name i) by (rewrite Forall_forall in Hids; by apply Hids).
  assert (Hkeep : forall m, m ∈ rib' -> isPrefixOf p m && Name_equals i (signer_name ids m a) = true <-> select m = Some (p, i)).
  { intros m Hm. assert (Hmr : rib_name m) by (apply (rib_name_of rib a); [done|apply Hmem; by right]). rewrite signer_select, andb_true_iff. split.
    - intros [Hpm Heq]. destruct (select m) as [[q j]|] eqn:Hms.
      + destruct (select_prefix m q j Hmr Hms) as (_&_&Hj&->). apply equals_iff in Heq as <-; [|done|rewrite Forall_forall in Hids; by apply Hids].
        f_equal. f_equal. by destruct (select_prefix n p i Hn Hs) as (_&_&_&->).
      + exfalso. pose proof (select_covers n p i m Hn Hs Hmr) as Hc. apply isPrefixOf_iff in Hpm; [|done|done]. by destruct (Hc Hpm).
    - intros Hms. rewrite Hms. destruct (select_prefix m p i Hmr Hms) as (_&Hpm&_). split; [by apply isPrefixOf_iff|by apply equals_iff]. }
  destruct (existsb _ rib') eqn:Hex.
  - exists a. split; [done|]. apply (inv_fewer rib rib' n); try done. intros p' e' _ He' Hs'. rewrite Hs in Hs'. injection Hs' as <- Hi'.
    apply existsb_exists in Hex as (m&Hm%list_elem_of_In&Hm'). exists m. split; [done|]. apply Hkeep in Hm'; [|done]. by rewrite <- Hi'.
  - assert (Hno : forall m, m ∈ rib' -> select m <> Some (p, i)).
    { intros m Hm Hms. apply (Hkeep m Hm) in Hms. enough (existsb (fun k => isPrefixOf p k && Name_equals i (signer_name ids k a)) rib' = true) by congruence.
      apply existsb_exists. exists m. split; [by apply list_elem_of_In|done]. }
    unfold afterRibErase. cbn [unsetCost ControlParameters.setName cp_name cp_get rbind]. rewrite He. cbn [with_entries ap_hasConnectedHub].
    assert (Hreq : request_for p false (unsetCost (ControlParameters.setName p (ap_controlParameters a)))) by (apply request_unset, request_configured; [apply Hv|done]).
    assert (Hdone : prop_inv rib' (with_entries (entry_erase p (ap_entries a)) a)) by exact (inv_erased rib rib' n p i a (ap_commands a) Hv Hp Hs Hno (pv_commands _ _ Hv)).
    destruct (ap_hasConnectedHub a); cbn [negb]; [|by eexists]. destruct (isPropagated e); cbn [negb]; [|by eexists].
    unfold unsetCost, ControlParameters.setName in Hreq. cbn in Hreq. rewrite (startRevocation_ok p) by exact Hreq. eexists. split; [done|].
    apply (inv_erased rib rib' n p i); try done. apply Forall_app. split; [apply Hv|]. constructor; [|constructor]. exists p. exact Hreq.
Qed.

(** ** Answers and timers *)

Lemma inv_commands rib a cs : prop_inv rib a -> Forall command_ok cs -> prop_inv rib (with_commands cs a).
Proof. intros Hv Hcs. by split; try apply Hv. Qed.

Lemma inv_update rib a n e f cs : prop_inv rib a -> rib_name n -> entry_find n (ap_entries a) = Some e ->
  entry_inv (ap_hasConnectedHub a) rib n (f e) -> Forall command_ok cs ->
  prop_inv rib (with_commands cs (with_entries (entry_update n f (ap_entries a)) a)).
Proof.
  intros Hv Hn He Hi Hcs. destruct (entry_update_spec n f (ap_entries a) (pv_entries _ _ Hv) Hn) as [Hok Hf].
  split; cbn [with_commands with_entries ap_entries ap_hasConnectedHub ap_controlParameters ap_commands]; try done; try apply Hv.
  - intros m p i Hm Hs. assert (Hp : rib_name p) by (eapply select_prefix; [by apply (rib_name_of rib a)|done]). rewrite Hf by done.
    destruct (decide (p = n)) as [->|]; [by rewrite He|]. by apply (pv_cover _ _ Hv m p i).
  - intros p e' Hp He'. rewrite Hf in He' by done. destruct (decide (p = n)) as [->|].
    + rewrite He in He'. by injection He' as <-.
    + by apply (pv_entry _ _ Hv).
Qed.

Lemma update_twice n f g l : entry_update n f (entry_update n g l) = entry_update n (fun e => f (g e)) l.
Proof.
  unfold entry_update. rewrite map_map. apply map_ext. intros x. destruct (Name_equals x.1 n) eqn:He; cbn [fst snd]; by rewrite He.
Qed.

(** The name a command is about *)
Definition command_name (x : PropagationCommand) : option Name :=
  match x with Propagation c _ _ _ | Revocation c _ _ => cp_name c end.

(** An entry is not in the state in which the answer to a command is handled. *)
Definition stale (x : PropagationCommand) (success : bool) e : bool :=
  match x with
  | Propagation _ _ _ _ => negb (isPropagating e)
  | Revocation _ _ _ => success && isNew e
  end.

Definition answer_stale (i : nat) (success : bool) (a : Propagator) : bool :=
  match ap_commands a !! i with
  | Some c => match command_name c ≫= (fun p => entry_find p (ap_entries a)) with Some e => stale c success e | None => false end
  | None => false
  end.

(** The timer of an entry that is being propagated again *)
Definition timer_stale (key : Name) (a : Propagator) : bool :=
  match entry_find key (ap_entries a) with Some e => isPropagating e && bool_decide (is_Some (pg_event e)) | None => false end.

Lemma propagating_used connected rib p e : entry_inv connected rib p e -> isNew e = false -> connected = true.
Proof.
  intros [_ H _ _] Hn. unfold isNew in Hn. apply bool_decide_eq_false in Hn. destruct connected; [done|]. tauto.
Qed.

(** The entry is being propagated (again). *)
Lemma entry_restarted connected rib p e : entry_inv connected rib p e -> connected = true -> entry_inv connected rib p (entry_startPropagation e).
Proof. intros [? ? ? ?] ->. by split. Qed.

(** The answer to a propagation *)
Lemma entry_answered connected rib p e t ev : entry_inv connected rib p e -> isPropagating e = true -> event_ok p (t, ev) ->
  entry_inv connected rib p (match ev with OnRefreshTimer _ _ => succeed (t, ev) e | OnRetryTimer _ _ _ => fail (t, ev) e end).
Proof.
  intros Hi Hpg Hev. apply bool_decide_eq_true in Hpg. assert (Hh : connected = true) by (eapply propagating_used; [done|]; unfold isNew; by rewrite Hpg).
  destruct Hi as [? ? _ _]. subst. destruct ev; split; try done; by repeat eexists.
Qed.

Lemma inv_answer now rib i success a : prop_inv rib a ->
  if answer_stale i success a then command_answered now i success a = Err AssertFailed
  else exists a', command_answered now i success a = Ok a' /\ prop_inv rib a'.
Proof.
  intros Hv. unfold command_answered, answer_stale. destruct (ap_commands a !! i) as [c|] eqn:Hc; [|by exists a].
  assert (Hok : command_ok c) by (eapply Forall_lookup_1; [apply Hv|done]).
  assert (Hrest : Forall command_ok (delete i (ap_commands a))) by (apply Forall_delete, Hv).
  assert (Hv' : prop_inv rib (with_commands (delete i (ap_commands a)) a)) by by apply inv_commands.
  destruct c as [c o w next|c o w], Hok as [p Hreq]; pose proof (rf_prefix _ _ _ Hreq) as Hp; pose proof (rf_name _ _ _ Hreq) as Hn;
    cbn [command_name]; rewrite Hn; cbn [mbind option_bind stale].
  - destruct success; unfold afterPropagateSucceed, afterPropagateFail; rewrite Hn; cbn [cp_get rbind with_commands ap_entries].
    + destruct (entry_find p (ap_entries a)) as [e|] eqn:He.
      * destruct (isPropagating e) eqn:Hpg; cbn [negb]; [|done]. eexists. split; [done|].
        apply (inv_update rib _ p e _ (delete i (ap_commands a)) Hv' Hp He); [|done]. by apply (entry_answered _ rib p e _ (OnRefreshTimer c o)); [apply (pv_entry _ _ Hv)|..].
      * apply request_unset in Hreq. rewrite (startRevocation_ok p) by done. eexists. split; [done|]. apply (inv_commands rib a); [done|]. apply Forall_snoc; [done|]. by exists p.
    + destruct (entry_find p (ap_entries a)) as [e|] eqn:He; [|by eexists].
      destruct (isPropagating e) eqn:Hpg; cbn [negb]; [|done]. eexists. split; [done|].
      apply (inv_update rib _ p e _ (delete i (ap_commands a)) Hv' Hp He); [|done]. by apply (entry_answered _ rib p e _ (OnRetryTimer c o next)); [apply (pv_entry _ _ Hv)|..].
  - destruct success; cbn [andb]; [|by destruct (entry_find p (ap_entries a)); eexists]. unfold afterRevokeSucceed. rewrite Hn.
    cbn [cp_get rbind with_commands ap_entries ap_controlParameters].
    destruct (entry_find p (ap_entries a)) as [e|] eqn:He; [|by eexists].
    destruct (isNew e) eqn:Hnew; [unfold isPropagateFail; apply bool_decide_eq_true in Hnew; by rewrite Hnew|].
    destruct (isPropagateFail e); [by eexists|].
    destruct (cf_cost _ (pv_config _ _ Hv)) as [k Hk]. rewrite Hk. cbn [cp_get rbind]. apply (request_set p k) in Hreq. rewrite (startPropagation_ok p) by done.
    eexists. split; [done|]. apply (inv_update rib _ p e _ _ Hv' Hp He); [|apply Forall_snoc; [done|by exists p]].
    pose proof (pv_entry _ _ Hv p e Hp He) as Hi. by apply entry_restarted; [|eapply propagating_used].
Qed.

Lemma inv_timer rib key a : prop_inv rib a -> rib_name key ->
  if timer_stale key a then timer_fires ids rib key a = Err AssertFailed
  else exists a', timer_fires ids rib key a = Ok a' /\ prop_inv rib a'.
Proof.
  intros Hv Hk. unfold timer_fires, timer_stale. destruct (entry_find key (ap_entries a)) as [e|] eqn:He; [|by eexists]. cbn [mbind option_bind].
  destruct (pg_event e) as [[t ev]|] eqn:Hev; [|rewrite bool_decide_eq_false_2, andb_false_r by (by intros [? [=]]); by eexists].
  rewrite bool_decide_eq_true_2, andb_true_r by by eexists.
  pose proof (pv_entry _ _ Hv key e Hk He) as Hi. pose proof Hi as [Hfrom Hst Htm Heo]. rewrite Hev in Heo.
  destruct Heo as [Heo Hhub]. destruct (entry_update_spec key (fun e => MkPropagatedEntry (pg_signingIdentity e) (pg_status e) None) (ap_entries a) (pv_entries _ _ Hv) Hk) as [_ Hf].
  specialize (Hf key Hk). rewrite decide_True, He in Hf by done.
  assert (Hagain : exists i, select key = Some (key, i)) by (eexists; by apply (entry_selected rib a key e)).
  assert (Hinv : forall x, command_ok x -> prop_inv rib (with_commands (ap_commands a ++ [x]) (with_entries (entry_update key (fun e =>
    entry_startPropagation (MkPropagatedEntry (pg_signingIdentity e) (pg_status e) None)) (ap_entries a)) a))).
  { intros x Hx. apply (inv_update rib a key e); [done|done|done| |apply Forall_snoc; [apply Hv|done]]. by split; rewrite ?Hhub. }
  unfold timer_set in Htm. rewrite Hev in Htm.
  destruct ev as [c o|c o w]; unfold event_ok in Heo; cbn [snd] in Heo; unfold onRefreshTimer, onRetryTimer; rewrite (rf_name _ _ _ Heo);
    cbn [cp_get rbind with_entries ap_entries]; rewrite Hf; cbn [fmap option_fmap option_map]; unfold isPropagated, isPropagateFail, isPropagating;
    cbn [pg_status]; destruct (pg_status e); try (by destruct Htm as (?&?&?&?)); try (by destruct Htm as (?&?&?&?&?)); try done;
    repeat (case_bool_decide; try done); rewrite redo_spec by done; cbn [with_entries ap_entries ap_commands]; rewrite update_twice;
    (eexists; split; [done|]); apply (Hinv (Propagation _ _ _ _)); by exists key.
Qed.
End Invariant.

(** ** The machine *)

(** What happens to the propagator: names come to the RIB and go, commands are
    answered, and timers fire. *)
Inductive prop_step (ids : list Name) : list Name * Propagator -> list Name * Propagator -> Prop :=
| step_insert rib rib' n a a' : rib_name n -> n ∉ rib -> rib' ≡ₚ n :: rib -> afterInsertRibEntry ids rib' n a = Ok a' -> prop_step ids (rib, a) (rib', a')
| step_erase rib rib' n a a' : rib ≡ₚ n :: rib' -> afterEraseRibEntry ids rib' n a = Ok a' -> prop_step ids (rib, a) (rib', a')
| step_answer now i success rib a a' : command_answered now i success a = Ok a' -> prop_step ids (rib, a) (rib, a')
| step_timer key rib a a' : rib_name key -> timer_fires ids rib key a = Ok a' -> prop_step ids (rib, a) (rib, a').

Inductive prop_reachable (ids : list Name) (a0 : Propagator) : list Name * Propagator -> Prop :=
| reach_start : prop_reachable ids a0 ([], a0)
| reach_next s s' : prop_reachable ids a0 s -> prop_step ids s s' -> prop_reachable ids a0 s'.

Lemma load_configured l : forall a a', configured (ap_controlParameters a) -> load_options l a = Ok a' ->
  configured (ap_controlParameters a') /\ ap_entries a' = ap_entries a /\ ap_commands a' = ap_commands a /\ ap_hasConnectedHub a' = ap_hasConnectedHub a.
Proof.
  induction l as [|[o v] l IH]; intros a a' Hc Hl; cbn [load_options] in Hl; [by injection Hl as <-|]. unfold load_option in Hl. cbn [fst snd] in Hl.
  destruct o; cbn [rbind] in Hl; [..|done]; try (apply IH in Hl; [exact Hl|exact Hc || by destruct Hc; split]).
  unfold setTimeout in Hl. destruct (v <=? 0); [done|]. cbn [rbind] in Hl. by apply IH in Hl.
Qed.

Lemma inv_start ids config a : loadConfig config Propagator_new = Ok a -> prop_inv ids [] a.
Proof.
  intros Hl. apply load_configured in Hl as (Hc&He&Hcmd&Hh); [|by split; repeat (split || eexists)]. cbn in He, Hcmd, Hh.
  split; rewrite ?He, ?Hcmd, ?Hh; try done.
  - by repeat constructor.
  - by repeat constructor.
  - by intros n p i ?%elem_of_nil.
  - by split; [|intros ?%elem_of_nil].
Qed.

Lemma inv_reachable ids a0 s : Forall rib_name ids -> Forall global_identity ids -> prop_inv ids [] a0 -> prop_reachable ids a0 s -> prop_inv ids s.1 s.2.
Proof.
  intros Hids Hg H0. induction 1 as [|s s' _ IH Hstep]; [done|]. destruct Hstep as [rib rib' n a a' Hn Hin Hp Hx|rib rib' n a a' Hp Hx|now i b rib a a' Hx|key rib a a' Hk Hx]; cbn [fst snd] in *.
  - pose proof (prop_inv_insert ids Hids Hg rib rib' n a IH Hn Hin Hp) as H. destruct (insert_stale ids n a); [congruence|]. destruct H as (?&?&?). congruence.
  - destruct (inv_erase ids Hids Hg rib rib' n a IH Hp) as (?&?&?). congruence.
  - pose proof (inv_answer ids Hids now rib i b a IH) as H. destruct (answer_stale i b a); [congruence|]. destruct H as (?&?&?). congruence.
  - pose proof (inv_timer ids Hids rib key a IH Hk) as H. destruct (timer_stale key a); [congruence|]. destruct H as (?&?&?). congruence.
Qed.

(** The controller accepts the request. *)
Definition command_valid (x : PropagationCommand) : Prop :=
  match x with
  | Propagation c _ _ _ => validateRequest RibRegisterCommand c = Ok tt
  | Revocation c _ _ => validateRequest RibUnregisterCommand c = Ok tt
  end.

Lemma command_ok_valid x : command_ok x -> command_valid x.
Proof. destruct x; intros [p Hp]; [by apply (request_register p)|by apply (request_unregister p)]. Qed.

(** C20. The propagator from its configuration on, for identities that do not cover
    the local names: after any sequence of insertions, erasures, answers and
    timers the entries are those of the prefixes that the names of the RIB are
    to be propagated under, each with its identity; they are new exactly while
    there is no hub; a propagated prefix has its refresh timer and a failed one
    its retry timer; all commands that were sent are valid requests.  From there
    an erasure succeeds; an insertion, an answer and a timer succeed except in
    the states that [insert_stale], [answer_stale] and [timer_stale] describe,
    where an assertion fails. *)
Theorem propagator_correct ids config a0 rib a : Forall rib_name ids -> Forall global_identity ids ->
  loadConfig config Propagator_new = Ok a0 -> prop_reachable ids a0 (rib, a) ->
  (forall n p i, n ∈ rib -> select ids n = Some (p, i) -> exists e, entry_find p (ap_entries a) = Some e /\ pg_signingIdentity e = i) /\
  (forall p e, rib_name p -> entry_find p (ap_entries a) = Some e ->
     (exists n, n ∈ rib /\ select ids n = Some (p, pg_signingIdentity e)) /\ (pg_status e = NEW <-> hub ∉ rib) /\ timer_set e) /\
  Forall command_valid (ap_commands a) /\
  (forall n rib', rib ≡ₚ n :: rib' -> is_ok (afterEraseRibEntry ids rib' n a) = true) /\
  (forall n rib', rib_name n -> n ∉ rib -> rib' ≡ₚ n :: rib ->
     if insert_stale ids n a then afterInsertRibEntry ids rib' n a = Err AssertFailed else is_ok (afterInsertRibEntry ids rib' n a) = true) /\
  (forall now i success, if answer_stale i success a then command_answered now i success a = Err AssertFailed else is_ok (command_answered now i success a) = true) /\
  (forall key, rib_name key -> if timer_stale key a then timer_fires ids rib key a = Err AssertFailed else is_ok (timer_fires ids rib key a) = true).
Proof.
  intros Hids Hg Hl Hr. pose proof (inv_reachable ids a0 _ Hids Hg (inv_start ids config a0 Hl) Hr) as Hv. cbn [fst snd] in Hv. split_and!.
  - intros n p i Hn Hs. destruct (pv_cover _ _ _ Hv n p i Hn Hs) as [e He]. exists e. split; [done|].
    assert (Hnr : rib_name n) by by apply (rib_name_of ids rib a). destruct (select_prefix ids Hids n p i Hnr Hs) as (Hp&_).
    pose proof (entry_selected ids Hids rib a p e Hv Hp He) as H1. rewrite (select_again ids Hids n p i Hnr Hs) in H1. by injection H1.
  - intros p e Hp He. destruct (pv_entry _ _ _ Hv p e Hp He) as [H1 H2 H3 _]. split_and!; [done| |done]. rewrite H2, <- (pv_hub _ _ _ Hv).
    by destruct (ap_hasConnectedHub a).
  - eapply Forall_impl; [apply Hv|]. apply command_ok_valid.
  - intros n rib' Hp. by destruct (inv_erase ids Hids Hg rib rib' n a Hv Hp) as (?&->&_).
  - intros n rib' Hn Hin Hp. pose proof (prop_inv_insert ids Hids Hg rib rib' n a Hv Hn Hin Hp) as H. destruct (insert_stale ids n a); [done|]. by destruct H as (?&->&_).
  - intros now i b. pose proof (inv_answer ids Hids now rib i b a Hv) as H. destruct (answer_stale i b a); [done|]. by destruct H as (?&->&_).
  - intros key Hk. pose proof (inv_timer ids Hids rib key a Hv Hk) as H. destruct (timer_stale key a); [done|]. by destruct H as (?&->&_).
Qed.

(** ** Runs *)

Module PropagatorSamples.
Definition comp (c : Z) : Component := generic [c].
Definition identity : Name := [comp 97; IGNORE_COMPONENT]. (* /a/nrd *)
Definition ids0 : list Name := [identity; [comp 98]].
Definition name_ax : Name := [comp 97; comp 120].
Definition name_ay : Name := [comp 97; comp 121].

(** A sequence of operations *)
Inductive op := Insert (n : Name) | Erase (n : Name) | Answer (i : nat) (success : bool) | Timer (key : Name).

Definition run_op (o : op) (s : list Name * Propagator) : result (list Name * Propagator) :=
  let '(rib, a) := s in
  match o with
  | Insert n => let! a := afterInsertRibEntry ids0 (n :: rib) n a in Ok (n :: rib, a)
  | Erase n => let rib := List.filter (fun m => negb (Name_equals m n)) rib in let! a := afterEraseRibEntry ids0 rib n a in Ok (rib, a)
  | Answer i b => let! a := command_answered 0 i b a in Ok (rib, a)
  | Timer key => let! a := timer_fires ids0 rib key a in Ok (rib, a)
  end.
Fixpoint run (l : list op) (s : list Name * Propagator) : result (list Name * Propagator) :=
  match l with [] => Ok s | o :: l' => let! s := run_op o s in run l' s end.

Definition from_start (l : list op) : result (list Name * Propagator) :=
  let! a := loadConfig [] Propagator_new in run l ([], a).

(** A hub connects after a name was registered: the prefix of the identity is
    propagated, and refreshed when its timer fires. *)
Example propagation_runs : exists a, from_start [Insert name_ax; Insert hub; Answer 0 true; Timer [comp 97]] = Ok ([hub; name_ax], a) /\
  map (fun x => (x.1, pg_status x.2)) (ap_entries a) = [([comp 97], PROPAGATING)].
Proof. eexists. split; vm_compute; reflexivity. Qed.

(** Two names under one identity while there is no hub: an assertion fails. *)
Example second_name_without_hub : from_start [Insert name_ax; Insert name_ay] = Err AssertFailed.
Proof. vm_compute. reflexivity. Qed.

(** The hub goes while a propagation is in flight: the answer fails an
    assertion. *)
Example answer_after_disconnect : from_start [Insert hub; Insert name_ax; Erase hub; Answer 0 true] = Err AssertFailed.
Proof. vm_compute. reflexivity. Qed.

(** A name that is erased and registered again before the revocation of its
    propagation is answered: the refresh timer of the second propagation fires
    while the third is in flight. *)
Example timer_after_revocation :
  from_start [Insert hub; Insert name_ax; Answer 0 true; Erase name_ax; Insert name_ax; Answer 1 true; Answer 0 true; Timer [comp 97]] = Err AssertFailed.
Proof. vm_compute. reflexivity. Qed.

Lemma global_ids0 : Forall rib_name ids0 /\ Forall global_identity ids0.
Proof. split; repeat constructor; by_decide. Qed.

Lemma propagator_correct_witness : exists a0 a rib, loadConfig [] Propagator_new = Ok a0 /\ prop_reachable ids0 a0 (rib, a) /\ rib = [hub; name_ax] /\
  exists e, entry_find [comp 97] (ap_entries a) = Some e /\ pg_signingIdentity e = identity.
Proof.
  destruct (loadConfig [] Propagator_new) as [a0|] eqn:H0; [|by vm_compute in H0].
  destruct (afterInsertRibEntry ids0 [name_ax] name_ax a0) as [a1|] eqn:H1; [|injection H0 as <-; by vm_compute in H1].
  destruct (afterInsertRibEntry ids0 [hub; name_ax] hub a1) as [a2|] eqn:H2; [|injection H0 as <-; vm_compute in H1; injection H1 as <-; by vm_compute in H2].
  assert (Hr : prop_reachable ids0 a0 ([hub; name_ax], a2)).
  { eapply reach_next; [eapply reach_next; [apply reach_start|eapply (step_insert _ [] [name_ax] name_ax); [by_decide|by_decide|done|done]]|].
    eapply (step_insert _ [name_ax] [hub; name_ax] hub); [by_decide|by_decide|done|done]. }
  exists a0, a2, [hub; name_ax]. split_and!; [done|done|done|].
  destruct (propagator_correct ids0 [] a0 [hub; name_ax] a2) as [H _]; [apply global_ids0|apply global_ids0|done|done|].
  apply (H name_ax); [right; left|vm_compute; reflexivity].
Defined.
End PropagatorSamples.
